(* ===== verification/_CoqProject ===== *)
-Q . S2P
Prelude.v
JsString.v
JsNumber.v
JsValue.v
JsHost.v
ExprLexer.v
ExprParser.v
ExprEval.v
Condition.v
Transform.v
TransformTables.v
TransformSort.v
SsrfBlocklist.v
PipelineDef.v
ApprovalService.v
ExecTracker.v
EngineInput.v
EngineStep.v
EngineRun.v
EngineRunSpec.v
EngineTermination.v
EngineStepSpec.v
SqlTable.v
PipelineStore.v
RunService.v
ScheduleService.v
StoreSpec.v
StoreLaws.v
ScheduleSpec.v
TriggerService.v
NodeBuffer.v
PgOutput.v
CdcStream.v
CdcSpec.v
RawTable.v
CdcIngestion.v
CdcAccount.v
CdcService.v
SyncService.v
SyncRun.v
AuthStore.v
TokenService.v
AuthService.v
LockoutSpec.v
AuthSystem.v
TokenSpec.v
PasswordSpec.v
AuthExample.v
ApiKeyService.v
ServiceRbac.v
HttpAuth.v
ServiceAuth.v
EntityRbac.v
Bootstrap.v
GuestSession.v
GraphqlLexer.v
GraphqlParser.v
GraphqlLimits.v
GraphqlGrammar.v
GraphqlValidate.v
IpText.v
SsrfGuard.v
CircuitBreaker.v
RateLimiter.v
IpAllowlist.v
DiffService.v
QueryCache.v
PermissionCache.v
GraphConverter.v
PgIdentifier.v
OntologyCatalog.v
DdlBuilder.v
ChangePlan.v
EntityService.v
OntologySystem.v
QueryService.v
SseManager.v
ExecutionService.v
SandboxManager.v
SdkClient.v
