(* ===== verification/Prelude.v ===== *)
(** * OnePlatform: a verification library for its core logic

    OnePlatform is a set of TypeScript services behind a gateway: tenants
    define pipelines of data transformations, query their data with GraphQL,
    and build apps on an SDK.  This library models the parts of the program
    that decide something by computation of their own, and proves what makes
    them correct.  Everything is a shallow embedding: a function of the source
    is a Rocq function with the same branches in the same order, a [throw] is
    [Err] with one constructor per throw site, mutable state is passed along,
    and code after an [await] is a step of its own.

    ** The language

    - [Prelude] (this file): results, loops that may fail, insertion-ordered
      maps ([jmap], JavaScript's [Map] and own properties), grouping by key,
      the tactics and the hint database [platform].
    - [JsString], [JsNumber], [JsValue], [JsHost]: the
      values the code computes with.  Strings are byte strings, that is, texts
      of code units below 256.  Numbers are binary64 ([SpecFloat]) with the
      conversions from and to text; [IpText] has the 32-bit operators.  Values
      carry the prototype lookups ([JsValue.get]) where the source indexes
      objects by names from outside, and a location where the source compares
      objects by identity.  [JsHost.Host] is what the runtime provides and the
      source only calls: [Math.pow], collation, date parsing, regular expressions.

    ** Pipeline service (services/pipeline/src/services)

    - [ExprLexer], [ExprParser], [ExprEval]: expression-evaluator.ts, the
      tokenizer, the Pratt parser and the evaluator.  The precedence grammar of the
      source's header is written out level by level ([operators]), apart from
      the parser's tables; the parser accepts exactly its sentences of nesting
      below 50, with their trees.  It accepts nothing that uses a blocked name, and the evaluator always gives a value
      or an error of the source and reads only the fields an expression names.
      The parser runs on fuel; [parse_fuel], linear in the number of tokens, is
      proved to be enough, so no result is an artefact of the model.
    - [Condition]: condition-evaluator.ts, all operators.
    - [Transform], [TransformTables], [TransformSort]: transform-engine.ts.  The
      streaming operations agree with the batch ones; composite keys are
      injective; deduplication, aggregation, pivot and unpivot are specified by
      groups of records; the hash join refines the nested loop; sorting is
      stable for a total preorder.
    - [SsrfBlocklist]: ssrf-blocklist.ts, the patterns as matchers; among
      dotted addresses exactly the documented ranges are blocked.
    - [PipelineDef]: the step types and [validateDefinition] of
      pipeline-service.ts; it accepts exactly the well-formed definitions whose
      step graph has no cycle that the entry reaches.
    - [ApprovalService], [ExecTracker]: approval-service.ts and
      execution-tracker.ts, with every operation that changes their maps.  A
      decision is final; progress and counters agree with the steps.
    - [EngineInput], [EngineStep], [EngineRun]: execution-engine.ts, the
      resolution of inputs, each kind of step, and [processRun] with its hooks,
      retries, fallbacks, branches, sub-workflows and advisory lock.
      [EngineStep.Services] is what the engine calls and does not define: the
      other services, JSONata, the clock, the poll of an approval, which branch
      settles first.  Its answers are given per position in the run ([Pos]), so
      a theorem for all [Services] is one for all behaviours of the outside.
      [EngineRunSpec] has the lemmas on what a run leaves of its rows, its lock and
      its pool client, and that it is driven once; [EngineTermination] the outcome of
      a run, that a definition without fallbacks ends within as many turns as it has
      steps, and one with a fallback that never ends.  The table of steps refuses
      four of the types of steps, as its constraint does: a run that has one gets
      no rows and is left running.  [EngineStepSpec] has the join of branches, the
      lock key and the chain of sub-workflows.  Fuel bounds the nesting of
      branches, turns the loop over steps; [EngineTermination] says how many are
      enough.
    - [SqlTable]: tables, [SELECT] and [UPDATE] on lists of rows, and when
      following cursors reads a whole table.  [PipelineStore], [RunService],
      [ScheduleService], [TriggerService]: pipeline-service.ts,
      run-service.ts, schedule-service.ts (with packages/core/src/cron.ts),
      trigger-service.ts and the webhook route, over the tables of the
      repositories with their keys, checks and cascades.  [StoreSpec] is the
      invariant of the tables under every interleaving of requests, half-done
      triggers, half-done updates of schedules, ticks and engine writes; [StoreLaws]
      has rollback, the isolation of tenants and the pages of runs; [ScheduleSpec]
      that a due date is claimed once however many replicas tick, unless an update
      that has computed its next date writes it after a claim, and what a dependency
      asks for.  [TriggerService] has the deliveries of events too: the key of an
      event is the text that [->>] gives of its identifier.

    ** Ingestion service (services/ingestion/src)

    - [NodeBuffer], [PgOutput]: the buffers, lsn.ts and pgoutput-decoder.ts
      of connectors/postgres-cdc.  [PgOutput] also writes the messages of the
      protocol's documentation ([put]); the decoder gives back what was written.
    - [CdcStream], [CdcSpec]: the generator of postgres-cdc-connector.ts, chunk by
      chunk ([consume]), and the server as a step relation ([serves]) with what
      its messages mean.  The generator yields those events and confirms those
      positions, and whatever arrives the confirmed positions ascend.
      [CdcService] has the configuration and the connections of the connector.
    - [RawTable]: data-envelope.ts and the two repositories.  The
      upsert refuses a batch with two rows of one [_id], as PostgreSQL does.
    - [CdcIngestion], [CdcAccount]: a session of cdc-ingestion-service.ts, with
      the buffer, the timer and the flushes under way as concurrent parts of its
      state ([happen]); every event received is stored, under way, buffered or
      dropped by a write that failed.  [CdcService] is the loop of attempts
      around sessions, its backoff and bound, and the requests to it.
    - [SyncService], [SyncRun]: sync-service.ts.  A synchronisation is
      a sync job and the batch jobs that it adds, whose turns interleave; one that
      succeeds leaves exactly the records of its source, as seen by the raw table,
      when the source has records, all with identifiers of their own, and no batch
      job was left over.  A trigger is taken in turns between its awaits: a second
      one after it is refused, two that overlap are both accepted.

    ** Authentication service (services/auth/src) and its middlewares (packages/core/src)

    - [AuthStore]: the tables with their constraints, and the keys in
      Redis, one map per prefix, with their times to live and the documented
      meaning of the commands.  [AuthStore.act] is the monad of a request.
    - [TokenService], [AuthService]: token-service.ts, auth-service.ts and
      password-service.ts.  jose and bcrypt are the classes [Jwt] and [Bcrypt]; what
      is relied on is in [AuthSystem], with a model of both.  Register, login, logout,
      rotation, replay, reset, change and verification are whole operations, cut
      where other requests come between.
    - [LockoutSpec]: how many passwords can be tried.  [AuthSystem]: the step relation
      of all requests and the invariant of its states ([coherent]).  [TokenSpec]: a
      family of refresh tokens has one holder, a replay ends it, a change of password
      ends all sessions and tokens, an issued token says what was put in.
      [PasswordSpec]: reset links and the passwords that may not come back, for
      changes that do not overlap.
      [AuthExample]: a deployment in which these theorems apply.
    - [ApiKeyService]: api-key-service.ts; a revoked key is final, a created one
      validates.  [EntityRbac]: rbac-service.ts, permissions, hidden fields and row
      filters.  [Bootstrap]: bootstrap-service.ts and its routes, with the phases of
      requests that overlap and the advisory lock ([boot_step]); one administrator at
      most, the rate limit, slugs, the master key.  [GuestSession]:
      guest-session-service.ts.
    - [ServiceRbac]: service-rbac.ts.  [HttpAuth]: the extractors, the public routes
      (patterns as languages of texts), the validator and the middleware; a token of
      [TokenService] is taken with its roles and scopes.  [ServiceAuth]: the tokens of
      services, the middleware on their calls and the order of both in app.ts, with both at work.

    ** Ontology service (services/ontology/src)

    - [PgIdentifier], [OntologyCatalog]: utils/pg-identifier.ts, the tables
      ontology.entities, fields and migrations with their constraints, and the
      statements of the repositories.  The second half of [PgIdentifier] reads
      a text as PostgreSQL's lexer does; it is the device by which the theorems on
      generated SQL say what a statement means, whatever names and values it has.
    - [QueryService]: query-service.ts.  The statement of an accepted query is the
      query: its tokens, names and parameters are those of the clauses.
    - [DdlBuilder], [ChangePlan]: utils/ddl-builder.ts, the classification of
      changes, and the plan of a migration; the view that a migration reads through
      defines the new columns from the old ones by the plan's defaults.
    - [EntityService]: entity-service.ts and the operations of migration-service.ts
      that change the catalogue or a table, and of relationship-service.ts.  A
      transaction is one step; reads before it are tickets, and a run of the cleanup
      works on the list that it read.  [OntologySystem] runs all of them in any order:
      the columns of every table are those of the catalogue, as long as no two runs of
      the cleanup for one tenant overlap, and a patch changes exactly the version of the
      entity that it has read.

    ** Execution service (services/execution/src)

    - [SandboxManager]: services/sandbox-manager.ts, instances as shared objects, the
      pool, pings, reconnects, recycling by promotion and in place, and drains as
      tasks.  Over the history of runs, completions and kills: executions in flight are
      accounted for on the instance they run on, and kills are exact.
    - [SseManager]: services/sse-manager.ts, subscribers with their buffers and waiting
      calls, the replay buffer and its timer.  The specification replays the history; a
      subscriber is given what it is due, in order.
    - [ExecutionService]: services/execution-service.ts over the table of executions and
      the streams of [SseManager], with the steps of dispatches, connectors, crashes
      and drains as tasks that interleave and statements that may fail; no execution is
      forgotten, and the connectors whose first update failed are kept apart
      ([unstarted]).  The router's answers are arguments of the steps, translated by
      [routeToIsolatedVm] and [routeToDocker].

    ** Gateway (services/gateway/src)

    - [GraphqlLexer], [GraphqlParser], [GraphqlLimits], [GraphqlGrammar],
      [GraphqlValidate]: graphql/parser.ts.  Parsing terminates on every source
      (fuel and the measure that bounds it are in [GraphqlLimits]), an accepted
      document obeys the depth and alias limits with fragments expanded, every
      document of the grammar is parsed to its tree (the grammar has words, numbers
      and objects of its own), and validation is exactly validity against the schema.
    - [IpText], [SsrfGuard]: utils/ssrf-guard.ts; IPv4 arithmetic on 32-bit
      integers agrees with the documented ranges, and an accepted webhook URL
      reaches no blocked address.  The URL parser and DNS are [Network].
    - [CircuitBreaker]: utils/circuit-breaker.ts, [execute] in two halves around
      the awaited call.  Calls in flight interleave as a step relation
      ([reachable]); without overlap the breaker refines a machine of two states.
      The header of the source and the design give the count of failures a window;
      the code has none, and neither has that machine.
    - [RateLimiter]: utils/sliding-window-rate-limiter.ts, the decision of the
      Lua script and the in-memory fallback, which refines the log of admitted
      requests.  The commands of Redis are [Redis], with the laws [RedisLaws].

    ** Packages and app service

    - [IpAllowlist]: packages/core/src/middleware/ip-allowlist.ts, IPv4 and IPv6
      parsing, CIDR matching bit by bit, the middleware's decision.
    - [QueryCache], [PermissionCache]: packages/app-sdk/src/cache, optimistic
      updates with rollback, isolation of entities, permission checks and the
      life cycle of an instance with requests in flight.
    - [DiffService]: services/app/src/services/diff-service.ts, the diff of
      files and snapshots: exact file lists, and for every modified file hunks that
      patch its lines with as few additions and deletions as possible.

    - [SdkClient]: packages/sdk/src, a request with its retries, delays, the headers
      of the auth handler and the refresh of a token, over any outcomes of [fetch] and
      of the handler, and the helpers of the paginator over any
      pages; both end within the bounds their options give.

    - [GraphConverter]: packages/frontend/src/components/pipeline-editor,
      the editor's graph to a definition and back, the topological order and the
      layered layout.

    ** How the parts meet

    [EngineInput] calls [Transform], which calls [ExprEval] and [Condition] as
    the engine does; all are sections over a [Host].  The engine and the stores
    share the definitions of [PipelineDef] and the rows of [EngineRun]; the
    engine's writes to the row of a run are steps of [StoreSpec.step].  The cron
    loop and the triggers start runs through [RunService.triggerRun].  The change
    stream's events go to [CdcIngestion], which writes the tables of [RawTable]
    that the batch jobs of [SyncService] also write.  The GraphQL files share the token list and the
    document type of [GraphqlParser].  The two address checkers share [IpText].
    [HttpAuth] verifies what [TokenService] issues and reads the revocations that
    [AuthService] writes; [ServiceAuth] puts it before [ServiceRbac].  The setup of
    [Bootstrap] opens its session as a login does ([AuthService.open_session]).
    The ontology files share the catalogue and the errors of [PgIdentifier]; the
    migrations use the statements of [DdlBuilder].  [ExecutionService] publishes to
    [SseManager], whose theorem holds of its streams; the identifiers that
    [SandboxManager] reports killed are the argument of
    [ExecutionService.handleSandboxCrash].
    The other components do not call one another in the source either; they
    share the language files.

    ** Kinds of theorems

    Invariants of step relations by rule induction (the tables, the breaker,
    the tracker, the claims of ticks, the deliveries of events), refinements (hash join, circuit breaker,
    in-memory limiter), functional specifications of operations on every
    branch, round trips (rollback, hunks, graphs) and parser completeness,
    termination and non-termination with the fuel used, bounds (limits of
    documents, depth of evaluation, range of the lock key) and errors.  Theorems
    about behaviour that the comments do not promise ([ExprEval.flat_sum_fails],
    [ExprEval.inherited_builtins], [Transform.rename_inherited_key],
    [TransformTables.merge_overwrites], [GraphqlGrammar.quoted_punctuation],
    [GraphqlGrammar.proto_field_lost], [GraphConverter.two_roots_convert],
    [CircuitBreaker.failures_hours_apart], [ScheduleSpec.claimed_again],
    [SyncService.overlapping_triggers], [AuthExample.overlapping_changes],
    [SdkClient.not_authenticated],     [GraphqlValidate.inherited_field_valid], [CircuitBreaker.two_probes],
    [IpAllowlist.nan_octets], [PermissionCache.late_seed],
    [SsrfBlocklist.blocklist_query], [ApprovalService.decision_lost],
    [EngineTermination.fallback_never_ends], [StoreLaws.list_runs_skips],
    [StoreLaws.concurrent_triggers], [TriggerService.event_trigger_by_webhook],
    [CdcAccount.transaction_collides], [SyncService.cancel_no_effect],
    [TokenSpec.new_tokens_refused], [TokenSpec.rotation_drops_ttl],
    [TokenSpec.rotation_last_second], [LockoutSpec.overlapping_guesses],
    [PasswordSpec.forgot_answers], [ApiKeyService.rotate_never_succeeds],
    [ApiKeyService.deactivation_keeps_keys], [ApiKeyService.list_keys_skips],
    [HttpAuth.eddsa_refused], [EntityRbac.filter_by_database_order],
    [EntityRbac.inherited_condition_dropped], [Bootstrap.status_opens_setup],
    [Bootstrap.refused_names], [Bootstrap.key_served_again],
    [ChangePlan.pattern_replaced], [ChangePlan.exponent_refused],
    [DdlBuilder.empty_view], [DdlBuilder.join_names_collide],
    [EntityService.rollback_restores_nothing], [OntologySystem.stale_cleanup],
    [SandboxManager.recycle_revives_dead], [SandboxManager.stop_undone],
    [SandboxManager.reconnects_multiply], [SandboxManager.crash_unreported],
    [SseManager.unwatched_kept], [SseManager.late_subscriber_waits],
    [ExecutionService.killed_overwritten], [ExecutionService.connector_untold],
    [ExecutionService.drain_never_ends], [ExecutionService.drains_overlap],
    [ExecutionService.drain_all_tenants], [SdkClient.list_without_items],
    [SdkClient.done_repeated], [SdkClient.destroyed_resent], [SdkClient.never_sent],
    [SdkClient.jitter_past_cap])
    are kept beside the specifications they qualify.

    ** What is simplified

    Log lines and the log tables are left out.  Queries of the database and of
    Redis succeed, apart from the constraints of the tables, which the model
    has.  A request of the services is one step, except a trigger, a tick and the
    update of a schedule, whose reads and writes other steps come between.  The result of a parallel step is that of its branches when all
    have ended.  Identifiers are canonical texts, compared as such.  Times are
    milliseconds; a date is computed at the time of the request.

    In the ingestion service the text of a replication message stays bytes, the
    two statements of a flush (creating the table and filling it) are one step,
    the status in Redis is left out of a session, and a page of a source is what [SyncService]'s
    arguments say that the request for it gave (credentials, the sandbox and the
    connector are part of that request).  [uuidv5] and the size of a record's JSON are
    parameters.  Row-level security and the hooks for schema drift and data
    quality, which only log when they fail, are not modelled.

    In the authentication service events, mail and the timing of answers are left
    out, numbers of the environment are exact, all processes have one clock, the
    writes at the end of a login are one step, and [lower()] of the database is
    [toLowerCase].  The claims of the tokens for one purpose are texts.  Of a request
    the middlewares see the path and the headers that they read; jose, HMAC, the
    decoding of headers and the paths of the router are [ServiceHost].

    In the ontology service statements of the tenants' tables act on the columns and
    the number of rows of a table, which is what the services rely on; [refused] is a
    statement that fails for a reason outside the model, and events are recorded, not
    delivered.  In the execution service a call of a client or of the database takes
    effect when its answer is handled, the identifier of an execution is new, and the
    code, the log table and the ontology snapshot that are only passed on are left out.

    ** Not modelled

    Message brokers, HTTP routing, the user interface and generated code, and
    timers that only wait.  Code units above 255 and the locale-dependent parts
    of string comparison (a parameter where used).  What remains of computation
    of its own is small and apart: the schema
    builder of the gateway, the lineage and metering services, OAuth and SCIM, the
    mapping and inference of the ontology service, which run tenants' code, and the
    requests of the execution service to Docker and to other services. *)

From Stdlib Require Export ZArith Lia.
From stdpp Require Export base tactics option list strings.

(** ** Results: code that may throw

    A function of the source that can throw is modelled as a function into
    [result E A], with one error type [E] per component whose constructors are
    the [throw] sites of that component. *)

Inductive result (E A : Type) : Type :=
| Ok (a : A)
| Err (e : E).
Arguments Ok {E A} a.
Arguments Err {E A} e.

Definition result_bind {E A B} (f : A -> result E B) (r : result E A) : result E B :=
  match r with
  | Ok a => f a
  | Err e => Err e
  end.

#[export] Instance result_mret {E} : MRet (result E) := fun A a => Ok a.
#[export] Instance result_mbind {E} : MBind (result E) := fun A B f r => result_bind f r.
#[export] Instance result_fmap {E} : FMap (result E) :=
  fun A B f r => match r with Ok a => Ok (f a) | Err e => Err e end.

(** [try { r } catch (e) { throw f(e) }] *)
Definition map_err {E F A} (f : E -> F) (r : result E A) : result F A :=
  match r with
  | Ok a => Ok a
  | Err e => Err (f e)
  end.

Definition is_ok {E A} (r : result E A) : bool :=
  match r with Ok _ => true | Err _ => false end.

Lemma is_ok_value {E A} (r : result E A) : is_ok r = true -> exists a, r = Ok a.
Proof. destruct r; [by eexists | done]. Defined.

Definition or_throw {E A} (e : E) (o : option A) : result E A :=
  match o with Some a => Ok a | None => Err e end.

Lemma bind_ok {E A B} (f : A -> result E B) (r : result E A) (b : B) :
  (r ≫= f) = Ok b -> exists a, r = Ok a /\ f a = Ok b.
Proof. destruct r as [a|e]; cbn; [eauto | discriminate]. Qed.

Lemma bind_err {E A B} (f : A -> result E B) (r : result E A) (e : E) :
  (r ≫= f) = Err e -> r = Err e \/ exists a, r = Ok a /\ f a = Err e.
Proof. destruct r as [a|e']; cbn; [eauto | intros [= ->]; auto]. Qed.

(** A bind avoids the error [e] when its parts do. *)
Lemma bind_not_err {E A B} (f : A -> result E B) (r : result E A) (e : E) :
  r <> Err e -> (forall a, r = Ok a -> f a <> Err e) -> (r ≫= f) <> Err e.
Proof. destruct r; cbn; [eauto | congruence]. Qed.

(** Two binds agree unless the first gives [e], when their parts do: how a
    fuelled function does not depend on extra fuel. *)
Lemma bind_agree {E A B} (f f' : A -> result E B) (r r' : result E A) (e : E) :
  (r <> Err e -> r' = r) ->
  (forall a, r = Ok a -> f a <> Err e -> f' a = f a) ->
  (r ≫= f) <> Err e -> (r' ≫= f') = (r ≫= f).
Proof.
  intros Hr Hf. destruct r as [a|e1]; cbn.
  - intros H. rewrite Hr by done. cbn. auto.
  - intros H. by rewrite Hr by congruence.
Qed.

Lemma map_err_ok {E F A} (f : E -> F) (r : result E A) (a : A) :
  map_err f r = Ok a <-> r = Ok a.
Proof. destruct r; cbn; split; congruence. Qed.

(** Sequencing over a list, left to right, stopping at the first error: the
    shape of a JavaScript [for] loop or [map] whose body may throw. *)
Section Traverse.
Context {E A B : Type} (f : A -> result E B).

Fixpoint traverse (l : list A) : result E (list B) :=
  match l with
  | [] => Ok []
  | x :: l => y ← f x; ys ← traverse l; Ok (y :: ys)
  end.
End Traverse.

Fixpoint foldM {E A S} (f : S -> A -> result E S) (s : S) (l : list A) : result E S :=
  match l with
  | [] => Ok s
  | x :: l => s' ← f s x; foldM f s' l
  end.

(** Inversion of every [_ = Ok _] hypothesis built with [≫=]. *)
Ltac invert_ok :=
  repeat match goal with
  | H : (_ ≫= _) = Ok _ |- _ =>
      let a := fresh "a" in let H1 := fresh "H" in
      apply bind_ok in H as (a & H1 & H)
  | H : Ok _ = Ok _ |- _ => injection H as H; subst
  | H : Err _ = Ok _ |- _ => discriminate H
  | H : map_err _ _ = Ok _ |- _ => apply map_err_ok in H
  | p : (_ * _)%type |- _ => destruct p
  end.

(** One bind at a time, with names. *)
Tactic Notation "unbind" hyp(H) "as" simple_intropattern(x) simple_intropattern(H1) :=
  let H2 := fresh "H" in
  apply bind_ok in H as (x & H1 & H2); rename H2 into H.

(** Case analysis on the innermost matches of the goal or a hypothesis. *)
Ltac case_matches := repeat (case_match; simplify_eq/=; try done).

(** Proves a decidable closed goal by evaluation. *)
Ltac decide_now := refine (bool_decide_unpack _ _); vm_compute; exact I.

Lemma traverse_ok {E A B} (f : A -> result E B) l ys :
  traverse f l = Ok ys <-> Forall2 (fun x y => f x = Ok y) l ys.
Proof.
  revert ys; induction l as [|x l IH]; intros ys; cbn.
  - split; [intros [= <-]; constructor | intros H; by inversion H].
  - split.
    + intros H. invert_ok. constructor; [done | by apply IH].
    + intros H. inversion H as [|? y ? ys' Hy Hl]; subst.
      rewrite Hy. cbn. by rewrite (proj2 (IH ys') Hl).
Qed.

Lemma traverse_total {E A B} (f : A -> result E B) (g : A -> B) l :
  Forall (fun x => f x = Ok (g x)) l -> traverse f l = Ok (map g l).
Proof. induction 1 as [|x l H _ IH]; cbn; [done|]. by rewrite H; cbn; rewrite IH. Qed.

Lemma traverse_length {E A B} (f : A -> result E B) l ys :
  traverse f l = Ok ys -> length ys = length l.
Proof. intros H%traverse_ok. symmetry. by eapply Forall2_length. Qed.

Lemma foldM_app {E A S} (f : S -> A -> result E S) s l1 l2 :
  foldM f s (l1 ++ l2) = (s' ← foldM f s l1; foldM f s' l2).
Proof.
  revert s; induction l1 as [|x l1 IH]; intros s; cbn; [done|].
  destruct (f s x); cbn; [apply IH | done].
Qed.

(** ** Maps that remember insertion order

    A JavaScript [Map] iterates over its keys in the order of their first
    insertion; [set] on a present key keeps its position.  The association list
    below is in iteration order. *)

Definition jmap (K V : Type) : Type := list (K * V).

Section JMap.
Context {K V : Type} `{EqDecision K}.

Fixpoint jm_get (k : K) (m : jmap K V) : option V :=
  match m with
  | [] => None
  | (k', v) :: m => if decide (k = k') then Some v else jm_get k m
  end.

Definition jm_has (k : K) (m : jmap K V) : bool :=
  match jm_get k m with Some _ => true | None => false end.

Fixpoint jm_set (k : K) (v : V) (m : jmap K V) : jmap K V :=
  match m with
  | [] => [(k, v)]
  | (k', v') :: m => if decide (k = k') then (k', v) :: m else (k', v') :: jm_set k v m
  end.

Definition jm_delete (k : K) (m : jmap K V) : jmap K V :=
  List.filter (fun p => negb (bool_decide (k = fst p))) m.

Definition jm_keys (m : jmap K V) : list K := map fst m.
Definition jm_values (m : jmap K V) : list V := map snd m.

Lemma jm_get_set_eq k v m : jm_get k (jm_set k v m) = Some v.
Proof.
  induction m as [|[k' v'] m IH]; cbn; [by rewrite decide_True|].
  case_decide; cbn; [by rewrite decide_True | by rewrite decide_False].
Qed.

Lemma jm_get_set_ne k k' v m : k <> k' -> jm_get k' (jm_set k v m) = jm_get k' m.
Proof.
  intros Hne. induction m as [|[k2 v2] m IH]; cbn; [by rewrite decide_False by done|].
  case_decide; cbn; subst; [by rewrite !decide_False by done|].
  by case_decide.
Qed.

Lemma jm_get_set k k' v m :
  jm_get k' (jm_set k v m) = if decide (k = k') then Some v else jm_get k' m.
Proof. case_decide; subst; [apply jm_get_set_eq | by apply jm_get_set_ne]. Qed.

Lemma jm_get_None k m : jm_get k m = None <-> k ∉ jm_keys m.
Proof.
  induction m as [|[k' v] m IH]; cbn; [split; [intros _; apply not_elem_of_nil | done]|].
  rewrite not_elem_of_cons. case_decide; subst; [split; [done | by intros []] |].
  rewrite IH. naive_solver.
Qed.

Lemma jm_has_true k m : jm_has k m = true <-> k ∈ jm_keys m.
Proof.
  unfold jm_has. destruct (jm_get k m) eqn:E.
  - split; [intros _ | done]. destruct (decide (k ∈ jm_keys m)); [done|].
    apply jm_get_None in n. congruence.
  - apply jm_get_None in E. naive_solver.
Qed.

Lemma jm_has_false k m : jm_has k m = false <-> k ∉ jm_keys m.
Proof. rewrite <- jm_has_true. destruct (jm_has k m); naive_solver. Qed.

Lemma jm_keys_set_new k v m : k ∉ jm_keys m -> jm_set k v m = m ++ [(k, v)].
Proof.
  induction m as [|[k' v'] m IH]; cbn; [done|].
  rewrite not_elem_of_cons. intros [? ?]. rewrite decide_False by done.
  by rewrite IH.
Qed.

Lemma jm_keys_set_old k v m : k ∈ jm_keys m -> jm_keys (jm_set k v m) = jm_keys m.
Proof.
  induction m as [|[k' v'] m IH]; cbn; [by intros ?%elem_of_nil|].
  rewrite elem_of_cons. intros H. case_decide; cbn; subst; [done|].
  f_equal. apply IH. naive_solver.
Qed.

Lemma jm_set_NoDup k v m : NoDup (jm_keys m) -> NoDup (jm_keys (jm_set k v m)).
Proof.
  intros H. destruct (decide (k ∈ jm_keys m)).
  - by rewrite jm_keys_set_old.
  - rewrite jm_keys_set_new by done. unfold jm_keys. rewrite map_app.
    apply NoDup_app. repeat split; [done | | apply NoDup_singleton].
    cbn. intros x Hx ?%list_elem_of_singleton. by subst.
Qed.

Lemma jm_keys_set_subseteq k v m x :
  x ∈ jm_keys (jm_set k v m) <-> x = k \/ x ∈ jm_keys m.
Proof.
  rewrite <- !jm_has_true. unfold jm_has. rewrite jm_get_set.
  case_decide; subst; naive_solver.
Qed.

Lemma jm_set_length_new k v m : k ∉ jm_keys m -> length (jm_set k v m) = S (length m).
Proof. intros H. rewrite jm_keys_set_new, length_app by done. cbn. lia. Qed.

Lemma jm_set_length_old k v m : k ∈ jm_keys m -> length (jm_set k v m) = length m.
Proof.
  intros H. rewrite <- (length_map fst m), <- (length_map fst (jm_set k v m)).
  fold (jm_keys m) (jm_keys (jm_set k v m)). by rewrite jm_keys_set_old.
Qed.

Lemma jm_set_length k v m : (length (jm_set k v m) <= S (length m))%nat.
Proof.
  destruct (decide (k ∈ jm_keys m)); [rewrite jm_set_length_old by done; lia|by rewrite jm_set_length_new].
Qed.

Lemma jm_delete_length k m : (length (jm_delete k m) <= length m)%nat.
Proof. unfold jm_delete. apply List.filter_length_le. Qed.

Lemma jm_get_elem_of k v m : jm_get k m = Some v -> (k, v) ∈ m.
Proof.
  induction m as [|[k' v'] m IH]; cbn; [done|].
  case_decide; [intros [= ->]; subst; left | right; auto].
Qed.

Lemma jm_elem_of_get k v m : NoDup (jm_keys m) -> (k, v) ∈ m -> jm_get k m = Some v.
Proof.
  induction m as [|[k' v'] m IH]; cbn; [by intros _ ?%elem_of_nil|].
  rewrite NoDup_cons, elem_of_cons. intros [Hn Hd] [[= -> ->]|Hin].
  - by rewrite decide_True.
  - rewrite decide_False; [auto|]. intros ->. apply Hn.
    apply list_elem_of_fmap. exists (k', v). done.
Qed.

Lemma jm_get_delete k k' m :
  jm_get k' (jm_delete k m) = if decide (k = k') then None else jm_get k' m.
Proof.
  unfold jm_delete in *.
  induction m as [|[k2 v2] m IH]; cbn; [by case_decide|].
  case_bool_decide as Hk; cbn; rewrite IH; repeat case_decide; congruence.
Qed.

Lemma jm_keys_delete k m :
  jm_keys (jm_delete k m) = List.filter (fun x => negb (bool_decide (k = x))) (jm_keys m).
Proof.
  unfold jm_delete, jm_keys in *.
  induction m as [|[k' v'] m IH]; cbn; [done|].
  case_bool_decide; cbn; by rewrite IH.
Qed.

End JMap.

(** ** Lists *)

(** Splitting a list at the first element that satisfies [p]. *)
Fixpoint span {A} (p : A -> bool) (l : list A) : list A * list A :=
  match l with
  | [] => ([], [])
  | x :: l' => if p x then let '(a, b) := span p l' in (x :: a, b) else ([], l)
  end.

Lemma span_app {A} (p : A -> bool) l : (span p l).1 ++ (span p l).2 = l.
Proof.
  induction l as [|x l IH]; cbn; [done|].
  destruct (p x); cbn; [|done]. destruct (span p l); cbn in *. by rewrite IH.
Qed.

(** Induction on the length, for functions that drop several elements. *)
Lemma list_length_ind {A} (P : list A -> Prop) :
  (forall l, (forall k, length k < length l -> P k) -> P l) -> forall l, P l.
Proof.
  intros H l. remember (length l) as n eqn:E. revert l E.
  induction n as [n IH] using lt_wf_ind. intros l ->. apply H. eauto.
Qed.

Lemma existsb_elem {A} (f : A -> bool) l : existsb f l = true <-> exists x, x ∈ l /\ f x = true.
Proof.
  rewrite existsb_exists. by setoid_rewrite <- list_elem_of_In.
Qed.

Lemma forallb_elem {A} (f : A -> bool) l : forallb f l = true <-> forall x, x ∈ l -> f x = true.
Proof.
  rewrite forallb_forall. by setoid_rewrite <- list_elem_of_In.
Qed.

Lemma elem_of_bfilter {A} (p : A -> bool) l x : x ∈ List.filter p l <-> x ∈ l /\ p x = true.
Proof. by rewrite !list_elem_of_In, filter_In. Qed.

Lemma Forall2_impl_elem {A B} (P Q : A -> B -> Prop) l k :
  Forall2 P l k -> (forall x y, x ∈ l -> P x y -> Q x y) -> Forall2 Q l k.
Proof.
  induction 1 as [|x y l k Hxy _ IH]; intros H; constructor.
  - apply H; [apply list_elem_of_here | done].
  - apply IH. intros a b Ha. apply H. by constructor.
Qed.

Lemma flat_map_nil {A B} (f : A -> list B) l : flat_map f l = [] <-> Forall (fun x => f x = []) l.
Proof.
  induction l as [|x l IH]; cbn; [by split|]. rewrite Forall_cons, <- IH.
  split; [by intros ?%app_eq_nil | by intros [-> ->]].
Qed.

Lemma flat_map_ext_elem {A B} (f g : A -> list B) l :
  (forall x, x ∈ l -> f x = g x) -> flat_map f l = flat_map g l.
Proof.
  induction l as [|x l IH]; intros H; cbn; [done|].
  rewrite (H x) by apply list_elem_of_here. f_equal. apply IH. intros y Hy. apply H. by constructor.
Qed.

(** ** Grouping

    What a loop that files every element under its key computes: the keys in
    the order of their first occurrence, and under each the elements that have
    it, in their order. *)

Section Grouping.
Context {K A : Type} `{EqDecision K}.

Definition add_new (ks : list K) (k : K) : list K :=
  if bool_decide (k ∈ ks) then ks else ks ++ [k].

(** The distinct elements, in the order of first occurrence. *)
Definition firsts (l : list K) : list K := fold_left add_new l [].

Definition with_key (key : A -> K) (k : K) (l : list A) : list A :=
  List.filter (fun x => bool_decide (key x = k)) l.

(** The map that sends each key of [ks] to its image. *)
Definition tabulate {V} (f : K -> V) (ks : list K) : jmap K V := map (fun k => (k, f k)) ks.

Lemma firsts_snoc l k : firsts (l ++ [k]) = add_new (firsts l) k.
Proof. unfold firsts. by rewrite fold_left_app. Qed.

Lemma elem_of_firsts k l : k ∈ firsts l <-> k ∈ l.
Proof.
  induction l as [|x l IH] using rev_ind; [done|].
  rewrite firsts_snoc, elem_of_app, list_elem_of_singleton. unfold add_new.
  case_bool_decide as H; [naive_solver|].
  rewrite elem_of_app, list_elem_of_singleton. naive_solver.
Qed.

Lemma firsts_elem k l : k ∈ firsts l -> k ∈ l.
Proof. apply elem_of_firsts. Qed.

Lemma firsts_NoDup l : NoDup (firsts l).
Proof.
  induction l as [|x l IH] using rev_ind; [constructor|].
  rewrite firsts_snoc. unfold add_new. case_bool_decide as H; [done|].
  apply NoDup_app. repeat split; [done | | apply NoDup_singleton].
  intros k Hk ->%list_elem_of_singleton. done.
Qed.

(** [firsts] changes nothing when there are no duplicates. *)
Lemma firsts_id l : NoDup l -> firsts l = l.
Proof.
  induction l as [|x l IH] using rev_ind; [done|].
  rewrite NoDup_app. intros (Hl & Hx & _).
  rewrite firsts_snoc, IH by done. unfold add_new. rewrite bool_decide_eq_false_2; [done|].
  intros Hin. eapply Hx; [exact Hin | apply list_elem_of_here].
Qed.

Lemma jm_keys_tabulate {V} (f : K -> V) ks : jm_keys (tabulate f ks) = ks.
Proof. unfold jm_keys, tabulate. rewrite map_map. cbn. apply map_id. Qed.

Lemma jm_values_tabulate {V} (f : K -> V) ks : jm_values (tabulate f ks) = map f ks.
Proof. unfold jm_values, tabulate. by rewrite map_map. Qed.

Lemma jm_get_tabulate {V} (f : K -> V) k ks :
  jm_get k (tabulate f ks) = if bool_decide (k ∈ ks) then Some (f k) else None.
Proof.
  unfold tabulate in *. induction ks as [|k' ks IH]; cbn; [done|]. rewrite IH.
  destruct (decide (k = k')) as [->|Hk];
    [by rewrite (bool_decide_eq_true_2 (k' ∈ k' :: ks)) by apply list_elem_of_here|].
  rewrite (bool_decide_ext (k ∈ k' :: ks) (k ∈ ks)); [done|]. rewrite elem_of_cons. naive_solver.
Qed.

Lemma jm_has_tabulate {V} (f : K -> V) k ks :
  jm_has k (tabulate f ks) = bool_decide (k ∈ ks).
Proof. unfold jm_has. rewrite jm_get_tabulate. by case_bool_decide. Qed.

Lemma tabulate_ext {V} (f g : K -> V) ks :
  (forall k, k ∈ ks -> f k = g k) -> tabulate f ks = tabulate g ks.
Proof.
  intros H. apply map_ext_in. intros k Hk%list_elem_of_In. by rewrite H.
Qed.

(** Setting one key of a tabulated map. *)
Lemma jm_set_tabulate {V} (f g : K -> V) k ks :
  NoDup ks -> (forall k', k' ∈ ks -> k' <> k -> f k' = g k') ->
  jm_set k (g k) (tabulate f ks) = tabulate g (add_new ks k).
Proof.
  intros Hd Hfg. unfold add_new. case_bool_decide as Hk.
  - revert Hk Hd Hfg. induction ks as [|k' ks IH]; cbn; [by intros ?%elem_of_nil|].
    rewrite NoDup_cons. intros Hk [Hn Hd] Hfg. case_decide as Hkk; [subst|].
    + f_equal. apply tabulate_ext. intros k2 Hk2. apply Hfg; [by constructor|].
      intros ->. done.
    + rewrite (Hfg k') by (congruence || apply list_elem_of_here).
      f_equal. apply IH; [by apply elem_of_cons in Hk as [?|?] | done |].
      intros k2 Hk2. apply Hfg. by constructor.
  - rewrite jm_keys_set_new by by rewrite jm_keys_tabulate.
    unfold tabulate at 2. rewrite map_app. cbn. f_equal.
    apply tabulate_ext. intros k' Hk'. apply Hfg; congruence.
Qed.

Lemma with_key_snoc (key : A -> K) k l x :
  with_key key k (l ++ [x]) = with_key key k l ++ (if decide (key x = k) then [x] else []).
Proof.
  unfold with_key. rewrite List.filter_app. cbn. by rewrite <- decide_bool_decide.
Qed.

Lemma with_key_nil (key : A -> K) k l : k ∉ map key l -> with_key key k l = [].
Proof.
  unfold with_key. induction l as [|x l IH]; cbn; [done|].
  rewrite not_elem_of_cons. intros [Hk Hl]. rewrite bool_decide_eq_false_2 by congruence. auto.
Qed.

Lemma elem_of_with_key (key : A -> K) k l x : x ∈ with_key key k l <-> x ∈ l /\ key x = k.
Proof.
  unfold with_key. rewrite list_elem_of_In, List.filter_In, <- list_elem_of_In.
  by rewrite bool_decide_eq_true.
Qed.

(** The map a grouping loop builds. *)
Definition groups_of (key : A -> K) (l : list A) : jmap K (list A) :=
  tabulate (fun k => with_key key k l) (firsts (map key l)).

(** One more element in a grouped list. *)
Lemma groups_of_snoc key l x :
  groups_of key (l ++ [x]) =
  jm_set (key x) (default [] (jm_get (key x) (groups_of key l)) ++ [x]) (groups_of key l).
Proof.
  unfold groups_of at 1. rewrite map_app. cbn. rewrite firsts_snoc.
  rewrite <- (jm_set_tabulate (fun k => with_key key k l)).
  - unfold groups_of. rewrite jm_get_tabulate, with_key_snoc, decide_True by done.
    f_equal. f_equal. case_bool_decide as H; cbn; [done|].
    apply with_key_nil. by rewrite <- elem_of_firsts.
  - apply firsts_NoDup.
  - intros k' _ Hne. rewrite with_key_snoc, decide_False by congruence.
    by rewrite app_nil_r.
Qed.

(** Grouping partitions the list. *)
Lemma groups_of_perm key l : concat (jm_values (groups_of key l)) ≡ₚ l.
Proof.
  unfold groups_of. rewrite jm_values_tabulate.
  assert (forall ks, NoDup ks ->
    concat (map (fun k => with_key key k l) ks)
    ≡ₚ List.filter (fun x => bool_decide (key x ∈ ks)) l) as H.
  { clear. intros ks; induction ks as [|k ks IH]; intros Hd; cbn.
    - induction l as [|x l IHl]; cbn; [done|]. by rewrite bool_decide_eq_false_2 by apply not_elem_of_nil.
    - apply NoDup_cons in Hd as [Hn Hd]. rewrite (IH Hd). unfold with_key. clear IH Hd.
      induction l as [|x l IHl]; cbn; [done|].
      destruct (decide (key x = k)) as [E|E].
      + subst k. rewrite !(bool_decide_eq_true_2 _ (eq_refl (key x))), (bool_decide_eq_false_2 _ Hn).
        rewrite (bool_decide_eq_true_2 (key x ∈ key x :: ks)) by apply list_elem_of_here.
        cbn. by rewrite IHl.
      + rewrite (bool_decide_eq_false_2 (key x = k)) by done.
        rewrite (bool_decide_ext (key x ∈ k :: ks) (key x ∈ ks)) by (rewrite elem_of_cons; naive_solver).
        case_bool_decide; cbn; [|done]. rewrite <- IHl. symmetry. apply Permutation_middle. }
  rewrite H by apply firsts_NoDup.
  enough (List.filter (fun x => bool_decide (key x ∈ firsts (map key l))) l = l) as -> by done.
  assert (Hall : forall l', l' ⊆ l ->
    List.filter (fun x => bool_decide (key x ∈ firsts (map key l))) l' = l').
  { intros l'. induction l' as [|x l' IH]; cbn; intros Hl; [done|].
    rewrite bool_decide_eq_true_2; [rewrite IH; [done|]|].
    - intros y Hy. apply Hl. by constructor.
    - apply elem_of_firsts, list_elem_of_fmap. exists x. split; [done|]. apply Hl, list_elem_of_here. }
  by apply Hall.
Qed.

End Grouping.

Create HintDb platform.
Create Rewrite HintDb platform.
#[export] Hint Resolve jm_set_NoDup : platform.
#[export] Hint Rewrite @jm_get_set_eq : platform.
