(* ===== verification/JsString.v ===== *)
(** * JavaScript strings

    A JavaScript string is a sequence of UTF-16 code units; here it is a
    [string] whose characters stand for the code units 0 to 255.  The helpers
    are the [String.prototype] methods and the regular-expression character
    classes the modelled files use.  Case mapping covers ASCII and the Latin-1
    letters whose other case is again below 256. *)

From S2P Require Import Prelude.
From Stdlib Require Import Ascii.

#[global] Arguments Ascii.eqb : simpl never.
#[global] Arguments N.eqb : simpl never.
#[global] Arguments N.leb : simpl never.

Definition code (c : ascii) : N := N_of_ascii c.

Definition code_in (lo hi : N) (c : ascii) : bool :=
  (lo <=? code c)%N && (code c <=? hi)%N.

(** [[0-9]], [[a-z]], [[A-Z]], [\s] *)
Definition is_digit (c : ascii) : bool := code_in 48 57 c.
Definition is_lower (c : ascii) : bool := code_in 97 122 c.
Definition is_upper (c : ascii) : bool := code_in 65 90 c.
Definition is_alpha (c : ascii) : bool := is_lower c || is_upper c.
Definition is_hex (c : ascii) : bool := is_digit c || code_in 97 102 c || code_in 65 70 c.
Definition is_space (c : ascii) : bool :=
  code_in 9 13 c || (code c =? 32)%N || (code c =? 160)%N.
(** [\w] *)
Definition is_word (c : ascii) : bool := is_alpha c || is_digit c || (code c =? 95)%N.

Definition quote : ascii := ascii_of_N 34.
Definition backslash : ascii := ascii_of_N 92.
Definition newline : ascii := ascii_of_N 10.
Definition tab : ascii := ascii_of_N 9.
Definition creturn : ascii := ascii_of_N 13.
#[global] Arguments quote : simpl never.
#[global] Arguments backslash : simpl never.
#[global] Arguments newline : simpl never.
#[global] Arguments tab : simpl never.
#[global] Arguments creturn : simpl never.

Definition digit_value (c : ascii) : Z :=
  if is_digit c then Z.of_N (code c) - 48
  else if code_in 97 102 c then Z.of_N (code c) - 87
  else Z.of_N (code c) - 55.

Definition str (c : ascii) : string := String c EmptyString.

Fixpoint explode (s : string) : list ascii :=
  match s with
  | EmptyString => []
  | String c s => c :: explode s
  end.

Fixpoint implode (l : list ascii) : string :=
  match l with
  | [] => EmptyString
  | c :: l => String c (implode l)
  end.

Definition on_chars (f : list ascii -> list ascii) (s : string) : string :=
  implode (f (explode s)).

(** ** [toLowerCase], [toUpperCase], [trim] *)

Definition lower_char (c : ascii) : ascii :=
  if is_upper c || (code_in 192 222 c && negb (code c =? 215)%N)
  then ascii_of_N (code c + 32) else c.

Definition upper_chars (c : ascii) : list ascii :=
  if (code c =? 223)%N then [ascii_of_N 83; ascii_of_N 83]
  else if is_lower c || (code_in 224 254 c && negb (code c =? 247)%N)
  then [ascii_of_N (code c - 32)] else [c].

Definition toLowerCase (s : string) : string := on_chars (map lower_char) s.
Definition toUpperCase (s : string) : string := on_chars (flat_map upper_chars) s.

Fixpoint trim_start (l : list ascii) : list ascii :=
  match l with
  | [] => []
  | c :: l' => if is_space c then trim_start l' else l
  end.

Definition trim (s : string) : string :=
  on_chars (fun l => rev (trim_start (rev (trim_start l)))) s.

(** ** Searching: [startsWith], [endsWith], [indexOf], [includes] *)

Fixpoint is_prefix (p l : list ascii) : bool :=
  match p, l with
  | [], _ => true
  | a :: p, b :: l => Ascii.eqb a b && is_prefix p l
  | _ :: _, [] => false
  end.

Definition startsWith (s p : string) : bool := is_prefix (explode p) (explode s).
Definition endsWith (s p : string) : bool :=
  is_prefix (rev (explode p)) (rev (explode s)).

(** The first index at which [p] occurs. *)
Fixpoint index_from (p l : list ascii) : option nat :=
  if is_prefix p l then Some 0%nat
  else match l with
       | [] => None
       | _ :: l => S <$> index_from p l
       end.

Definition indexOf (s p : string) : option nat := index_from (explode p) (explode s).
Definition includes (s p : string) : bool :=
  match indexOf s p with Some _ => true | None => false end.

(** The last index of a character. *)
Fixpoint last_index_char (c : ascii) (l : list ascii) : option nat :=
  match l with
  | [] => None
  | a :: l =>
      match last_index_char c l with
      | Some i => Some (S i)
      | None => if Ascii.eqb a c then Some 0%nat else None
      end
  end.

(** ** [split] and [join] *)

(** [split] on a separator of one character. *)
Fixpoint split_char (c : ascii) (s : string) : list string :=
  match s with
  | EmptyString => [EmptyString]
  | String a s =>
      if Ascii.eqb a c then EmptyString :: split_char c s
      else match split_char c s with
           | [] => [str a]
           | h :: t => String a h :: t
           end
  end.

(** [split] on any separator.  [fuel] is the number of characters left plus
    one: each round drops at least one. *)
Fixpoint split_fuel (fuel : nat) (sep l : list ascii) : list string :=
  match fuel with
  | O => [implode l]
  | S fuel =>
      match index_from sep l with
      | Some i => implode (take i l) :: split_fuel fuel sep (drop (i + length sep) l)
      | None => [implode l]
      end
  end.

Definition split (s sep : string) : list string :=
  match sep with
  | EmptyString => map str (explode s)
  | _ => split_fuel (S (String.length s)) (explode sep) (explode s)
  end.

Fixpoint join (sep : string) (l : list string) : string :=
  match l with
  | [] => EmptyString
  | [s] => s
  | s :: l => s +:+ sep +:+ join sep l
  end.

(** ** [replace] and [replaceAll] with a string pattern

    The replacement may use [$$], [$&], [$`] and [$'] (GetSubstitution of the
    language definition; with a string pattern there are no captures, so [$1]
    and the like stay as they are). *)
Fixpoint substitution (matched before after rep : list ascii) : list ascii :=
  match rep with
  | [] => []
  | c :: rep1 =>
      match rep1 with
      | d :: rep2 =>
          if (code c =? 36)%N then
            if (code d =? 36)%N then d :: substitution matched before after rep2
            else if (code d =? 38)%N then matched ++ substitution matched before after rep2
            else if (code d =? 96)%N then before ++ substitution matched before after rep2
            else if (code d =? 39)%N then after ++ substitution matched before after rep2
            else c :: substitution matched before after rep1
          else c :: substitution matched before after rep1
      | [] => [c]
      end
  end.

Definition replace (s search rep : string) : string :=
  let l := explode s in
  let p := explode search in
  match index_from p l with
  | None => s
  | Some i =>
      let before := take i l in
      let after := drop (i + length p) l in
      implode (before ++ substitution p before after (explode rep) ++ after)
  end.

(** [done] is the part of the subject already passed, the context of [$`]. *)
Fixpoint replace_all_fuel (fuel : nat) (p rep passed l : list ascii) : list ascii :=
  match fuel with
  | O => l
  | S fuel =>
      match index_from p l with
      | None => l
      | Some i =>
          let before := take i l in
          let after := drop (i + length p) l in
          let sub := substitution p (passed ++ before) after rep in
          match p with
          | [] =>
              (* the empty pattern matches before every character and at the end *)
              match l with
              | [] => sub
              | c :: l' => sub ++ c :: replace_all_fuel fuel p rep (passed ++ [c]) l'
              end
          | _ => before ++ sub ++ replace_all_fuel fuel p rep (passed ++ before ++ p) after
          end
      end
  end.

Definition replaceAll (s search rep : string) : string :=
  implode (replace_all_fuel (S (String.length s)) (explode search) (explode rep) [] (explode s)).

(** ** Lemmas *)

Lemma implode_explode s : implode (explode s) = s.
Proof. induction s as [|c s IH]; cbn; [done | by rewrite IH]. Qed.

Lemma explode_implode l : explode (implode l) = l.
Proof. induction l as [|c l IH]; cbn; [done | by rewrite IH]. Qed.

Lemma explode_inj s t : explode s = explode t -> s = t.
Proof. intros H. by rewrite <- (implode_explode s), H, implode_explode. Qed.

Lemma append_cons c s t : String c s +:+ t = String c (s +:+ t).
Proof. done. Qed.

Lemma append_nil t : EmptyString +:+ t = t.
Proof. done. Qed.

Lemma explode_app s t : explode (s +:+ t) = explode s ++ explode t.
Proof.
  induction s as [|c s IH]; [done|].
  rewrite append_cons. cbn. by rewrite IH.
Qed.

Lemma implode_app l k : implode (l ++ k) = implode l +:+ implode k.
Proof. induction l as [|c l IH]; cbn; [done | by rewrite IH]. Qed.

Lemma length_explode s : length (explode s) = String.length s.
Proof. induction s as [|c s IH]; cbn; [done | by rewrite IH]. Qed.

Lemma string_app_nil_r s : s +:+ EmptyString = s.
Proof. induction s as [|c s IH]; [done | by rewrite append_cons, IH]. Qed.

Lemma string_app_assoc r s t : (r +:+ s) +:+ t = r +:+ s +:+ t.
Proof. induction r as [|c r IH]; [done | by rewrite !append_cons, IH]. Qed.

Lemma is_prefix_spec p l : is_prefix p l = true <-> exists k, l = p ++ k.
Proof.
  revert l; induction p as [|a p IH]; intros l; cbn; [naive_solver|].
  destruct l as [|b l]; [naive_solver|].
  rewrite andb_true_iff, Ascii.eqb_eq, IH. naive_solver.
Qed.

Lemma startsWith_spec s p : startsWith s p = true <-> exists t, s = p +:+ t.
Proof.
  unfold startsWith. rewrite is_prefix_spec. split.
  - intros [k Hk]. exists (implode k). apply explode_inj.
    by rewrite explode_app, explode_implode.
  - intros [t ->]. exists (explode t). apply explode_app.
Qed.

Lemma endsWith_spec s p : endsWith s p = true <-> exists t, s = t +:+ p.
Proof.
  unfold endsWith. rewrite is_prefix_spec. split.
  - intros [k Hk]. exists (implode (rev k)). apply explode_inj.
    rewrite explode_app, explode_implode.
    apply (f_equal (@rev ascii)) in Hk. by rewrite rev_app_distr, !rev_involutive in Hk.
  - intros [t ->]. exists (rev (explode t)). by rewrite explode_app, rev_app_distr.
Qed.

Lemma append_inj r s t : r +:+ s = r +:+ t -> s = t.
Proof.
  intros H. apply explode_inj. apply (f_equal explode) in H.
  rewrite !explode_app in H. by apply app_inv_head in H.
Qed.

Lemma split_char_nonempty c s : split_char c s <> [].
Proof. destruct s as [|a s]; cbn; [done|]. by repeat case_match. Qed.

(** Splitting on a character and joining with it is the identity. *)
Lemma join_cons sep h l : l <> [] -> join sep (h :: l) = h +:+ sep +:+ join sep l.
Proof. by destruct l. Qed.

Lemma join_split_char c s : join (str c) (split_char c s) = s.
Proof.
  induction s as [|a s IH]; [done|]. cbn [split_char].
  pose proof (split_char_nonempty c s) as Hne.
  destruct (Ascii.eqb a c) eqn:E.
  - apply Ascii.eqb_eq in E as ->. rewrite join_cons, IH by done. done.
  - destruct (split_char c s) as [|h t]; [done|].
    destruct t as [|h' t]; [by cbn in *; rewrite IH|].
    rewrite join_cons in * by done. by rewrite append_cons, IH.
Qed.

(** A string without the separator is one piece. *)
Lemma split_char_one c s : Forall (fun a => a <> c) (explode s) -> split_char c s = [s].
Proof.
  induction s as [|a s IH]; cbn; [done|]. intros [Ha Hs]%Forall_cons.
  rewrite (proj2 (Ascii.eqb_neq a c)) by done. by rewrite IH.
Qed.

Lemma split_char_app c s t :
  Forall (fun a => a <> c) (explode s) ->
  split_char c (s +:+ String c t) = s :: split_char c t.
Proof.
  induction s as [|a s IH]; [by rewrite append_nil; cbn; rewrite Ascii.eqb_refl|].
  rewrite append_cons. cbn.
  intros [Ha Hs]%Forall_cons. rewrite (proj2 (Ascii.eqb_neq a c)) by done.
  by rewrite IH.
Qed.

#[export] Hint Rewrite implode_explode explode_implode explode_app implode_app length_explode : platform.

(** Joining with a character and splitting on it is the identity. *)
Lemma split_char_join c parts :
  parts <> [] -> Forall (fun s => Forall (fun a => a <> c) (explode s)) parts ->
  split_char c (join (str c) parts) = parts.
Proof.
  intros Hne H. induction H as [|s parts Hs H IH]; [done|].
  destruct parts as [|t parts]; [by apply split_char_one|].
  rewrite join_cons by done. change (str c +:+ ?x) with (String c x).
  rewrite split_char_app by done. by rewrite IH.
Qed.

Lemma toLowerCase_id s : Forall (fun c => lower_char c = c) (explode s) -> toLowerCase s = s.
Proof.
  intros H. unfold toLowerCase, on_chars. rewrite <- (implode_explode s) at 2. f_equal.
  induction H as [|c l Hc _ IH]; cbn; [done|]. by rewrite Hc, IH.
Qed.

Lemma Forall_explode_join (P : ascii -> Prop) sep parts :
  Forall P (explode sep) -> Forall (fun s => Forall P (explode s)) parts ->
  Forall P (explode (join sep parts)).
Proof.
  intros Hsep H. induction H as [|s parts Hs H IH]; [constructor|].
  destruct parts as [|t parts]; [done|]. rewrite join_cons by done.
  by rewrite !explode_app, !Forall_app.
Qed.
