(* ===== verification/JsNumber.v ===== *)
(** * JavaScript numbers

    A number is an IEEE-754 binary64 value, [spec_float] at precision 53 and
    maximal exponent 1024; the arithmetic is the correctly rounded one of
    [SpecFloat].  The file gives the operators, [Math] functions and the
    conversions between strings and numbers that the modelled files use; the last part has the order of
    numbers. *)

From S2P Require Import Prelude JsString.
From Stdlib Require Import Ascii.
From Corelib Require Export SpecFloat.
From stdpp Require Import pretty.

Definition prec : Z := 53.
Definition emax : Z := 1024.

Definition number : Type := spec_float.

Definition NaN : number := S754_nan.
Definition Infinity : number := S754_infinity false.

Definition num_of_Z (z : Z) : number := binary_normalize prec emax z 0 false.

(** ** Operators *)

Definition num_add : number -> number -> number := SFadd prec emax.
Definition num_sub : number -> number -> number := SFsub prec emax.
Definition num_mul : number -> number -> number := SFmul prec emax.
Definition num_div : number -> number -> number := SFdiv prec emax.
Definition num_neg : number -> number := SFopp.
Definition num_abs : number -> number := SFabs.

(** [===], [<], [<=] on numbers: NaN is unequal to itself, -0 equals 0. *)
Definition num_eqb : number -> number -> bool := SFeqb.
Definition num_ltb : number -> number -> bool := SFltb.
Definition num_leb : number -> number -> bool := SFleb.

Definition is_nan (x : number) : bool :=
  match x with S754_nan => true | _ => false end.

(** [Number.isFinite] *)
Definition is_finite (x : number) : bool :=
  match x with S754_zero _ | S754_finite _ _ _ => true | _ => false end.

Definition signed (s : bool) (m : Z) : Z := (if s then - m else m)%Z.

(** [a % b]: the exact remainder, with the sign of the dividend. *)
Definition num_mod (a b : number) : number :=
  match a, b with
  | S754_nan, _ | _, S754_nan => S754_nan
  | S754_infinity _, _ => S754_nan
  | _, S754_zero _ => S754_nan
  | _, S754_infinity _ => a
  | S754_zero _, _ => a
  | S754_finite sa ma ea, S754_finite _ mb eb =>
      let e := Z.min ea eb in
      let r := ((Z.pos ma * 2 ^ (ea - e)) mod (Z.pos mb * 2 ^ (eb - e)))%Z in
      binary_normalize prec emax (signed sa r) e sa
  end.

(** ** [Math.floor], [Math.ceil], [Math.round], [Math.min], [Math.max] *)

Definition round_with (f : Z -> Z -> Z) (x : number) : number :=
  match x with
  | S754_finite s m e =>
      if 0 <=? e then x
      else binary_normalize prec emax (f (signed s (Z.pos m)) (2 ^ (- e))) 0 s
  | _ => x
  end%Z.

Definition num_floor : number -> number := round_with (fun n d => n / d)%Z.
Definition num_ceil : number -> number := round_with (fun n d => - ((- n) / d))%Z.
Definition num_round : number -> number := round_with (fun n d => (2 * n + d) / (2 * d))%Z.

Definition is_neg_zero (x : number) : bool :=
  match x with S754_zero true => true | _ => false end.

Definition num_min (a b : number) : number :=
  if is_nan a || is_nan b then NaN
  else if num_ltb a b then a
  else if num_ltb b a then b
  else if is_neg_zero a then a else b.

Definition num_max (a b : number) : number :=
  if is_nan a || is_nan b then NaN
  else if num_ltb a b then b
  else if num_ltb b a then a
  else if is_neg_zero a then b else a.

(** The integer a number denotes, when it denotes one. *)
Definition num_to_Z (x : number) : option Z :=
  match x with
  | S754_zero _ => Some 0%Z
  | S754_finite s m e =>
      if (0 <=? e)%Z then Some (signed s (Z.pos m * 2 ^ e))
      else if (Z.pos m mod 2 ^ (- e) =? 0)%Z then Some (signed s (Z.pos m / 2 ^ (- e)))
      else None
  | _ => None
  end.

(** [Number.isInteger] *)
Definition is_integer (x : number) : bool :=
  match num_to_Z x with Some _ => true | None => false end.

(** ** Decimal literals *)

(** The binary64 value nearest to [m * 10 ^ e10].  The two guards keep the
    powers of ten small: beyond them the result is infinite or zero. *)
Definition num_of_decimal (s : bool) (m e10 : Z) : number :=
  match m with
  | Z.pos p =>
      if (400 <? e10)%Z then S754_infinity s
      else if (e10 + Z.log2 m + 1 <? -400)%Z then S754_zero s
      else if (0 <=? e10)%Z then binary_normalize prec emax (signed s (m * 10 ^ e10)) 0 s
      else num_div (S754_finite s p 0) (S754_finite false (Z.to_pos (10 ^ (- e10))) 0)
  | _ => S754_zero s
  end.

Definition digits_value (base : Z) (l : list ascii) : Z :=
  fold_left (fun acc c => acc * base + digit_value c)%Z l 0%Z.

Lemma digits_value_range l :
  Forall (fun c => is_hex c = true) l -> (0 <= digits_value 16 l < 16 ^ Z.of_nat (length l))%Z.
Proof.
  intros H. unfold digits_value. induction l as [|c l IH] using rev_ind; [cbn; lia|].
  apply Forall_app in H as [Hl Hc]. apply Forall_cons in Hc as [Hc _]. specialize (IH Hl).
  rewrite fold_left_app, length_app. cbn [fold_left length].
  assert (Hd : (0 <= digit_value c < 16)%Z)
    by (clear -Hc; destruct c as [[] [] [] [] [] [] [] []]; vm_compute in Hc; try done; vm_compute; split; congruence).
  replace (Z.of_nat (length l + 1)) with (Z.of_nat (length l) + 1)%Z by lia.
  rewrite Z.pow_add_r by lia. lia.
Qed.

(** Reads [digits], [digits.digits] or [.digits], then an exponent when one is
    complete: (mantissa, decimal exponent, rest). *)
Definition read_decimal (l : list ascii) : option (Z * Z * list ascii) :=
  let '(ip, l1) := span is_digit l in
  let '(fp, l2) :=
    match l1 with
    | c :: l1' => if (code c =? 46)%N then span is_digit l1' else ([], l1)
    | [] => ([], l1)
    end in
  match ip ++ fp with
  | [] => None
  | ds =>
      let m := digits_value 10 ds in
      let e0 := (- Z.of_nat (length fp))%Z in
      match l2 with
      | c :: l3 =>
          if (code c =? 101)%N || (code c =? 69)%N then
            let '(es, l4) :=
              match l3 with
              | d :: l3' =>
                  if (code d =? 45)%N then (true, l3')
                  else if (code d =? 43)%N then (false, l3') else (false, l3)
              | [] => (false, l3)
              end in
            match span is_digit l4 with
            | ([], _) => Some (m, e0, l2)
            | (ed, l5) => Some (m, (e0 + signed es (digits_value 10 ed))%Z, l5)
            end
          else Some (m, e0, l2)
      | [] => Some (m, e0, l2)
      end
  end.

Definition read_sign (l : list ascii) : bool * list ascii :=
  match l with
  | c :: l' =>
      if (code c =? 45)%N then (true, l')
      else if (code c =? 43)%N then (false, l') else (false, l)
  | [] => (false, l)
  end.

Definition infinity_chars : list ascii := explode "Infinity".

(** The digits of a [0x], [0o] or [0b] literal. *)
Definition read_radix (l : list ascii) : option number :=
  match l with
  | z :: x :: ds =>
      let value (ok : ascii -> bool) (base : Z) :=
        match ds with
        | [] => Some NaN
        | _ => Some (if forallb ok ds then num_of_Z (digits_value base ds) else NaN)
        end in
      if negb (code z =? 48)%N then None
      else if (code x =? 120)%N || (code x =? 88)%N then value is_hex 16%Z
      else if (code x =? 111)%N || (code x =? 79)%N then value (code_in 48 55) 8%Z
      else if (code x =? 98)%N || (code x =? 66)%N then value (code_in 48 49) 2%Z
      else None
  | _ => None
  end.

(** [Number(s)] for a string. *)
Definition num_of_string (s : string) : number :=
  let l := explode (trim s) in
  match l with
  | [] => S754_zero false
  | _ =>
      match read_radix l with
      | Some n => n
      | None =>
          let '(neg, l) := read_sign l in
          if bool_decide (l = infinity_chars) then S754_infinity neg
          else match read_decimal l with
               | Some (m, e, []) => num_of_decimal neg m e
               | _ => NaN
               end
      end
  end.

(** [parseFloat(s)] *)
Definition parseFloat (s : string) : number :=
  let '(neg, l) := read_sign (trim_start (explode s)) in
  if is_prefix infinity_chars l then S754_infinity neg
  else match read_decimal l with
       | Some (m, e, _) => num_of_decimal neg m e
       | None => NaN
       end.

(** [parseInt(s, 10)] and [parseInt(s, 16)] as integers, [None] for NaN. *)
Definition parseInt10 (s : string) : option Z :=
  let '(neg, l) := read_sign (trim_start (explode s)) in
  match span is_digit l with
  | ([], _) => None
  | (ds, _) => Some (signed neg (digits_value 10 ds))
  end.

Definition parseInt16 (s : string) : option Z :=
  let '(neg, l) := read_sign (trim_start (explode s)) in
  let l' :=
    match l with
    | z :: x :: r =>
        if (code z =? 48)%N && ((code x =? 120)%N || (code x =? 88)%N) then r else l
    | _ => l
    end in
  match span is_hex l' with
  | ([], _) => None
  | (ds, _) => Some (signed neg (digits_value 16 ds))
  end.

(** ** [String(n)] for a number

    Number::toString of the language definition: the shortest decimal that
    reads back as the same number.  [shortest] tries 1 to 17 digits; 17 always
    suffice for binary64. *)

(** The numerator and denominator of a positive finite value. *)
Definition num_ratio (m : positive) (e : Z) : Z * Z :=
  if (0 <=? e)%Z then (Z.pos m * 2 ^ e, 1)%Z else (Z.pos m, 2 ^ (- e))%Z.

(** [n] with [10 ^ (n - 1) <= a / b < 10 ^ n], from an estimate by base-two
    logarithms that is off by at most one. *)
Definition pow10_le (n a b : Z) : bool :=
  if (0 <=? n)%Z then (10 ^ n * b <=? a)%Z else (b <=? a * 10 ^ (- n))%Z.

Fixpoint adjust_exponent (fuel : nat) (n a b : Z) : Z :=
  match fuel with
  | O => n
  | S fuel =>
      if pow10_le n a b then adjust_exponent fuel (n + 1) a b
      else if negb (pow10_le (n - 1) a b) then adjust_exponent fuel (n - 1) a b
      else n
  end.

Definition decimal_exponent (a b : Z) : Z :=
  adjust_exponent 5 ((Z.log2 a - Z.log2 b) * 30103 / 100000 + 1)%Z a b.

(** The candidate with [k] digits for [v = a / b]. *)
Definition digits_candidate (v : number) (a b n : Z) (k : Z) : option Z :=
  let '(num, den) :=
    if (0 <=? k - n)%Z then (a * 10 ^ (k - n), b)%Z else (a, b * 10 ^ (n - k))%Z in
  let lo := (num / den)%Z in
  let r := (num mod den)%Z in
  let reads c := num_eqb (num_of_decimal false c (n - k)) v in
  match reads lo, reads (lo + 1)%Z with
  | true, true => Some (if (2 * r <=? den)%Z then lo else lo + 1)%Z
  | true, false => Some lo
  | false, true => Some (lo + 1)%Z
  | false, false => None
  end.

Fixpoint shortest (fuel : nat) (v : number) (a b n k : Z) : Z * Z :=
  match fuel with
  | O => (0, k)%Z
  | S fuel =>
      match digits_candidate v a b n k with
      | Some s => (s, k)
      | None => shortest fuel v a b n (k + 1)
      end
  end.

Definition zeros (n : Z) : string := implode (replicate (Z.to_nat n) (ascii_of_N 48)).

(** Lays out the digits [ds] (there are [k]) with the point after [n] digits. *)
Definition layout_decimal (ds : string) (k n : Z) : string :=
  let take_s i := implode (take (Z.to_nat i) (explode ds)) in
  let drop_s i := implode (drop (Z.to_nat i) (explode ds)) in
  if (k <=? n)%Z && (n <=? 21)%Z then ds +:+ zeros (n - k)
  else if (0 <? n)%Z && (n <=? 21)%Z then take_s n +:+ "." +:+ drop_s n
  else if (-6 <? n)%Z && (n <=? 0)%Z then "0." +:+ zeros (- n) +:+ ds
  else
    let e := (n - 1)%Z in
    let es := (if (e <? 0)%Z then "-" else "+") +:+ pretty (Z.abs_N e) in
    if (k =? 1)%Z then ds +:+ "e" +:+ es
    else take_s 1%Z +:+ "." +:+ drop_s 1%Z +:+ "e" +:+ es.

Definition num_to_string (x : number) : string :=
  match x with
  | S754_nan => "NaN"
  | S754_zero _ => "0"
  | S754_infinity s => if s then "-Infinity" else "Infinity"
  | S754_finite s m e =>
      let '(a, b) := num_ratio m e in
      let n := decimal_exponent a b in
      let '(d, k) := shortest 17 (S754_finite false m e) a b n 1 in
      (if s then "-" else EmptyString) +:+ layout_decimal (pretty (Z.to_N d)) k n
  end.

(** [String(z)] for an integer below [2 ^ 53] in absolute value. *)
Definition Z_to_string (z : Z) : string :=
  if (z <? 0)%Z then "-" +:+ pretty (Z.abs_N z) else pretty (Z.to_N z).

(** ** Lemmas *)

Lemma num_eqb_refl x : is_nan x = false -> num_eqb x x = true.
Proof.
  unfold num_eqb, SFeqb. destruct x as [s|s| |s m e]; cbn; try done; [by destruct s|].
  intros _. rewrite Z.compare_refl.
  change (PosDef.Pos.compare_cont Eq m m) with (Pos.compare m m).
  rewrite Pos.compare_refl. by destruct s.
Qed.

Lemma num_compare_swap x y : SFcompare y x = CompOpp <$> SFcompare x y.
Proof.
  destruct x as [sx|sx| |sx mx ex], y as [sy|sy| |sy my ey]; cbn; try done;
    try (by destruct sx); try (by destruct sy); try (by destruct sx, sy).
  change (PosDef.Pos.compare_cont Eq my mx) with (Pos.compare my mx).
  change (PosDef.Pos.compare_cont Eq mx my) with (Pos.compare mx my).
  rewrite (Z.compare_antisym ex ey), (Pos.compare_antisym mx my).
  destruct sx, sy, (ex ?= ey)%Z, (mx ?= my)%positive; done.
Qed.

(** On numbers other than NaN exactly one of [<], [===], [>] holds. *)
Lemma num_compare_total x y :
  is_nan x = false -> is_nan y = false -> exists c, SFcompare x y = Some c.
Proof. destruct x, y; cbn; try done; eauto. Qed.

Lemma num_leb_spec x y : num_leb x y = num_ltb x y || num_eqb x y.
Proof. unfold num_leb, num_ltb, num_eqb, SFleb, SFltb, SFeqb. by destruct (SFcompare x y) as [[]|]. Qed.

Lemma num_eqb_sym x y : num_eqb x y = num_eqb y x.
Proof.
  unfold num_eqb, SFeqb. rewrite (num_compare_swap x y).
  by destruct (SFcompare x y) as [[]|].
Qed.

Lemma num_nan_compare x y : is_nan x || is_nan y = true -> SFcompare x y = None.
Proof. by destruct x, y. Qed.

(** The characters of a printed number: digits, signs, the point and the
    letters of [Infinity], [NaN] and the exponent. *)
Definition num_char (c : ascii) : bool :=
  is_digit c || existsb (Ascii.eqb c) (explode "+-.eInfityNa").

Lemma pretty_N_digits (x : N) : Forall (fun c => is_digit c = true) (explode (pretty x)).
Proof.
  unfold pretty, pretty_N. case_decide; [by repeat constructor|].
  assert (forall s, Forall (fun c => is_digit c = true) (explode s) ->
    Forall (fun c => is_digit c = true) (explode (pretty_N_go x s))) as Hgo; [|by apply Hgo].
  clear. induction (N.lt_wf_0 x) as [x _ IH]; intros s Hs.
  destruct (decide (0 < x)%N) as [Hx|Hx].
  - rewrite pretty_N_go_step by done. apply IH; [by apply N.div_lt|].
    cbn. constructor; [|done]. unfold pretty_N_char. by repeat case_match.
  - assert (x = 0%N) as -> by lia. done.
Qed.

Lemma pretty_N_chars (x : N) : Forall (fun c => num_char c = true) (explode (pretty x)).
Proof.
  eapply Forall_impl; [apply pretty_N_digits|]. intros c H. unfold num_char. cbv beta in *.
  by rewrite H.
Qed.

Lemma zeros_chars n : Forall (fun c => num_char c = true) (explode (zeros n)).
Proof.
  unfold zeros. rewrite explode_implode. apply Forall_forall.
  intros c [-> _]%elem_of_replicate. done.
Qed.

Lemma layout_decimal_chars ds k n :
  Forall (fun c => num_char c = true) (explode ds) ->
  Forall (fun c => num_char c = true) (explode (layout_decimal ds k n)).
Proof.
  intros H. unfold layout_decimal.
  repeat case_match; rewrite ?explode_app, ?explode_implode, ?Forall_app;
    repeat split; auto using zeros_chars, pretty_N_chars, Forall_take, Forall_drop;
    by repeat constructor.
Qed.

Lemma num_to_string_chars x : Forall (fun c => num_char c = true) (explode (num_to_string x)).
Proof.
  destruct x as [s|s| |s m e]; unfold num_to_string;
    [by repeat constructor | destruct s; by repeat constructor | by repeat constructor |].
  destruct (num_ratio m e) as [a b]. destruct (shortest _ _ _ _ _ _) as [d k].
  rewrite explode_app. apply Forall_app. split.
  - destruct s; by repeat constructor.
  - apply layout_decimal_chars, pretty_N_chars.
Qed.

Example num_to_string_tenth : num_to_string (num_of_string "0.1") = "0.1".
Proof. vm_compute. reflexivity. Qed.
Example num_to_string_sum :
  num_to_string (num_add (num_of_string "0.1") (num_of_string "0.2")) = "0.30000000000000004".
Proof. vm_compute. reflexivity. Qed.
Example num_to_string_large : num_to_string (num_of_string "1e21") = "1e+21".
Proof. vm_compute. reflexivity. Qed.
Example num_to_string_small : num_to_string (num_of_string "-0.0000001234") = "-1.234e-7".
Proof. vm_compute. reflexivity. Qed.
Example num_to_string_min : num_to_string (num_of_string "5e-324") = "5e-324".
Proof. vm_compute. reflexivity. Qed.
Example num_to_string_int : num_to_string (num_of_Z 1234500) = "1234500".
Proof. vm_compute. reflexivity. Qed.
Example num_of_string_hex : num_of_string " 0x1F " = num_of_Z 31.
Proof. vm_compute. reflexivity. Qed.
Example num_of_string_bad : num_of_string "1.2.3" = NaN.
Proof. vm_compute. reflexivity. Qed.
Example num_mod_ex : num_mod (num_of_string "-7.5") (num_of_Z 2) = num_of_string "-1.5".
Proof. vm_compute. reflexivity. Qed.
Example num_round_ex : num_round (num_of_string "2.5") = num_of_Z 3.
Proof. vm_compute. reflexivity. Qed.
Example num_round_neg : num_round (num_of_string "-2.5") = num_of_Z (-2).
Proof. vm_compute. reflexivity. Qed.

(** ** The sign of a difference of numbers

    A comparison function written [a - b] orders finite numbers by value: the
    rounded difference is never zero unless the values are equal, and has the
    sign of the exact difference. *)

(** The value of a finite number in units of the least positive number
    [2 ^ -1074]. *)
Definition units (x : number) : Z :=
  match x with
  | S754_finite s m e => signed s (Z.pos m * 2 ^ (e + 1074))
  | _ => 0
  end%Z.

(** Finite, and with an exponent that binary64 has. *)
Definition wf_finite (x : number) : Prop :=
  match x with
  | S754_zero _ => True
  | S754_finite _ _ e => (-1074 <= e)%Z
  | _ => False
  end.

(** The sign of a number, [None] for NaN. *)
Definition number_sign (d : number) : option comparison :=
  if is_nan d then None
  else Some (if num_ltb d (num_of_Z 0) then Lt else if num_ltb (num_of_Z 0) d then Gt else Eq).

Definition sign_of (s : bool) : comparison := if s then Lt else Gt.

Local Open Scope Z_scope.

Lemma number_sign_finite s m e : number_sign (S754_finite s m e) = Some (sign_of s).
Proof. by destruct s. Qed.
Lemma number_sign_infinity s : number_sign (S754_infinity s) = Some (sign_of s).
Proof. by destruct s. Qed.

(** ** Rounding keeps the mantissa positive *)

Lemma digits2_pos_bounds m : 2 ^ (Z.pos (digits2_pos m) - 1) <= Z.pos m < 2 ^ Z.pos (digits2_pos m).
Proof.
  induction m as [m IH|m IH|]; cbn [digits2_pos]; [| |cbn; lia].
  - rewrite Pos2Z.inj_succ. replace (Z.succ _ - 1) with (Z.succ (Z.pos (digits2_pos m) - 1)) by lia.
    rewrite !Z.pow_succ_r by lia. lia.
  - rewrite Pos2Z.inj_succ. replace (Z.succ _ - 1) with (Z.succ (Z.pos (digits2_pos m) - 1)) by lia.
    rewrite !Z.pow_succ_r by lia. lia.
Qed.

Lemma shr_1_m mrs : 0 <= shr_m mrs -> shr_m (shr_1 mrs) = shr_m mrs / 2.
Proof.
  destruct mrs as [m r s]; cbn [shr_m]. intros Hm.
  destruct m as [|[p|p|]|p]; cbn [shr_1 shr_m]; try done; try lia.
  - rewrite Pos2Z.inj_xI. rewrite Z.mul_comm. by rewrite Z.div_add_l by lia.
  - rewrite Pos2Z.inj_xO. rewrite Z.mul_comm. by rewrite Z.div_mul by lia.
Qed.

Lemma iter_shr_m p mrs :
  0 <= shr_m mrs -> shr_m (SpecFloat.iter_pos shr_1 p mrs) = shr_m mrs / 2 ^ Z.pos p.
Proof.
  revert mrs; induction p as [p IH|p IH|]; intros mrs Hm; cbn [SpecFloat.iter_pos].
  - assert (0 <= shr_m mrs / 2) by (by apply Z.div_pos).
    assert (0 <= shr_m mrs / 2 / 2 ^ Z.pos p) by (apply Z.div_pos; lia).
    rewrite !IH; rewrite ?IH; rewrite ?shr_1_m by done; try done.
    rewrite !Z.div_div by lia. f_equal.
    replace (Z.pos p~1) with (1 + Z.pos p + Z.pos p) by lia.
    rewrite !Z.pow_add_r by lia. lia.
  - assert (0 <= shr_m mrs / 2 ^ Z.pos p) by (apply Z.div_pos; lia).
    rewrite !IH; rewrite ?IH; try done. rewrite Z.div_div by lia. f_equal.
    replace (Z.pos p~0) with (Z.pos p + Z.pos p) by lia. by rewrite Z.pow_add_r by lia.
  - by apply shr_1_m.
Qed.

Lemma shr_fexp_pos m e l :
  -1074 <= e ->
  0 < shr_m (fst (shr_fexp prec emax (Z.pos m) e l)) /\
  -1074 <= snd (shr_fexp prec emax (Z.pos m) e l).
Proof.
  intros He. unfold shr_fexp, Zdigits2.
  set (n := fexp prec emax (Z.pos (digits2_pos m) + e) - e).
  assert (Hn : n < Z.pos (digits2_pos m)).
  { unfold n, fexp, emin, prec, emax. lia. }
  assert (Hm : shr_m (shr_record_of_loc (Z.pos m) l) = Z.pos m) by (by destruct l as [|[]]).
  destruct n as [|p|p]; cbn [shr fst snd]; rewrite ?Hm; try lia.
  rewrite iter_shr_m, Hm by (rewrite Hm; lia). split; [|lia].
  apply Z.div_str_pos. split; [lia|].
  etrans; [|apply (digits2_pos_bounds m)]. apply Z.pow_le_mono_r; lia.
Qed.

Lemma round_aux_sign s m e l :
  -1074 <= e -> number_sign (binary_round_aux prec emax s (Z.pos m) e l) = Some (sign_of s).
Proof.
  intros He. unfold binary_round_aux.
  destruct (shr_fexp prec emax (Z.pos m) e l) as [mrs e1] eqn:E1.
  pose proof (shr_fexp_pos m e l He) as [Hm1 He1]. rewrite E1 in Hm1, He1. cbn [fst snd] in *.
  assert (Hr : exists m1, round_nearest_even (shr_m mrs) (loc_of_shr_record mrs) = Z.pos m1).
  { destruct mrs as [mm r t]. cbn [shr_m] in *. destruct mm as [|mm|]; try lia.
    unfold round_nearest_even. destruct (loc_of_shr_record _) as [|[]]; eauto.
    destruct (Z.even _); eauto. }
  destruct Hr as [m1 ->].
  destruct (shr_fexp prec emax (Z.pos m1) e1 loc_Exact) as [mrs2 e2] eqn:E2.
  pose proof (shr_fexp_pos m1 e1 loc_Exact He1) as [Hm2 _]. rewrite E2 in Hm2. cbn [fst] in Hm2.
  destruct (shr_m mrs2) as [|m2|]; try lia.
  destruct (e2 <=? _); [apply number_sign_finite | apply number_sign_infinity].
Qed.

Lemma round_sign s m e :
  -1074 <= e -> number_sign (binary_round prec emax s m e) = Some (sign_of s).
Proof.
  intros He. unfold binary_round.
  destruct (shl_align m e _) as [m' e'] eqn:E. apply round_aux_sign.
  unfold shl_align in E. destruct (_ - e) as [|p|p] eqn:Ed; injection E as <- <-; try done.
  unfold fexp, emin, prec, emax. lia.
Qed.

Lemma normalize_sign z e :
  -1074 <= e -> number_sign (binary_normalize prec emax z e false) = Some (z ?= 0).
Proof. destruct z as [|p|p]; intros He; [done | by apply (round_sign false) | by apply (round_sign true)]. Qed.

Lemma shl_align_value m e e' :
  e' <= e -> Z.pos (fst (shl_align m e e')) = Z.pos m * 2 ^ (e - e').
Proof.
  intros He. unfold shl_align. destruct (e' - e) as [|p|p] eqn:E; cbn [fst]; try lia.
  - replace (e - e') with 0 by lia. lia.
  - replace (e - e') with (Z.pos p) by lia. clear.
    induction p as [|p IH] using Pos.peano_ind; [cbn; lia|].
    rewrite Pos.iter_succ, Pos2Z.inj_succ, Z.pow_succ_r by lia. rewrite Pos2Z.inj_xO, IH. lia.
Qed.

Lemma signed_sign s m : (signed s (Z.pos m) ?= 0) = sign_of s.
Proof. by destruct s. Qed.

(** The sign of [a - b] is the order of the values. *)
Lemma num_sub_sign a b :
  wf_finite a -> wf_finite b -> number_sign (num_sub a b) = Some (units a ?= units b).
Proof.
  destruct a as [sa|sa| |sa ma ea], b as [sb|sb| |sb mb eb]; cbn [wf_finite]; try done.
  - by destruct sa, sb.
  - intros _ Hb. cbn [num_sub SFsub units]. change (num_sub _ _) with (S754_finite (negb sb) mb eb).
    rewrite number_sign_finite. f_equal.
    assert (0 < 2 ^ (eb + 1074)) by lia.
    destruct sb; cbn [sign_of negb signed]; symmetry;
      [apply Z.compare_gt_iff | apply Z.compare_lt_iff]; nia.
  - intros Ha _. change (num_sub _ _) with (S754_finite sa ma ea).
    rewrite number_sign_finite. f_equal. cbn [units].
    assert (0 < 2 ^ (ea + 1074)) by lia.
    destruct sa; cbn [sign_of signed]; symmetry;
      [apply Z.compare_lt_iff | apply Z.compare_gt_iff]; nia.
  - intros Ha Hb. unfold num_sub. cbn [SFsub]. rewrite normalize_sign by lia. f_equal.
    rewrite !shl_align_value by lia. cbn [units].
    set (ez := Z.min ea eb). assert (Hz : 0 < 2 ^ (ez + 1074)) by lia.
    assert (Hs : forall s m e, ez <= e ->
      signed s (Z.pos m * 2 ^ (e + 1074)) = cond_Zopp s (Z.pos m * 2 ^ (e - ez)) * 2 ^ (ez + 1074)).
    { intros s m e He. replace (e + 1074) with ((e - ez) + (ez + 1074)) by lia.
      rewrite Z.pow_add_r by lia. destruct s; cbn [signed cond_Zopp]; lia. }
    rewrite (Hs sa), (Hs sb) by lia.
    rewrite <- Z.compare_sub. apply Zmult_compare_compat_r. lia.
Qed.

(** ** The order is transitive *)

Lemma finite_compare s s' m m' e e' :
  SFcompare (S754_finite s m e) (S754_finite s' m' e') =
  Some (match s, s' with
        | true, false => Lt | false, true => Gt
        | false, false => match (e ?= e')%Z with Eq => (m ?= m')%positive | c => c end
        | true, true => match (e ?= e')%Z with Eq => CompOpp (m ?= m')%positive | Lt => Gt | Gt => Lt end
        end).
Proof. destruct s, s'; cbn; try done; destruct (e ?= e')%Z; done. Qed.

Lemma num_leb_trans x y z : num_leb x y = true -> num_leb y z = true -> num_leb x z = true.
Proof.
  unfold num_leb, SFleb. destruct x as [sx|sx| |sx mx ex], y as [sy|sy| |sy my ey], z as [sz|sz| |sz mz ez]; try done; rewrite ?finite_compare.
  all: try (destruct sx; cbn; try done). all: try (destruct sy; cbn; try done). all: try (destruct sz; cbn; done).
  all: destruct sz; cbn; try done.
  all: destruct (Z.compare_spec ex ey), (Z.compare_spec ey ez); try done; subst; rewrite ?Z.compare_refl.
  all: repeat match goal with |- context [(?a ?= ?b)%Z] => destruct (Z.compare_spec a b); try lia; try done end.
  all: repeat match goal with |- context [(?a ?= ?b)%positive] => destruct (Pos.compare_spec a b); subst; cbn; try lia; try done end.
Qed.
