(* ===== verification/JsValue.v ===== *)
(** * JavaScript values and objects

    The dynamic values the modelled files pass around: what JSON can hold,
    [undefined], and the built-in functions that a property lookup can reach
    through the prototype chain.  Arrays and objects carry the identity [===]
    compares; none of the modelled code changes one in place, so the contents
    are a value.

    An object is its list of own properties in enumeration order (array-index
    keys ascending, then the other keys in insertion order).  The key
    [__proto__], an accessor, is outside the model. *)

From S2P Require Import Prelude JsString JsNumber.
From Stdlib Require Import Ascii.

Definition loc : Type := N.

Inductive value : Type :=
| VUndef
| VNull
| VBool (b : bool)
| VNum (n : number)
| VStr (s : string)
| VArr (l : loc) (elems : list value)
| VObj (l : loc) (props : list (string * value))
| VFun (name : string).

Definition obj : Type := list (string * value).

Definition is_nullish (v : value) : bool :=
  match v with VUndef | VNull => true | _ => false end.

(** [v ?? w] *)
Definition coalesce (v w : value) : value := if is_nullish v then w else v.

(** ** Property access *)

(** Names found on [Object.prototype] and on [Array.prototype]. *)
Definition object_proto : list string :=
  ["constructor"; "toString"; "toLocaleString"; "valueOf"; "hasOwnProperty";
   "isPrototypeOf"; "propertyIsEnumerable"; "__defineGetter__";
   "__defineSetter__"; "__lookupGetter__"; "__lookupSetter__"].

Definition array_proto : list string :=
  ["at"; "concat"; "copyWithin"; "entries"; "every"; "fill"; "filter"; "find";
   "findIndex"; "findLast"; "findLastIndex"; "flat"; "flatMap"; "forEach";
   "includes"; "indexOf"; "join"; "keys"; "lastIndexOf"; "map"; "pop"; "push";
   "reduce"; "reduceRight"; "reverse"; "shift"; "slice"; "some"; "sort";
   "splice"; "toReversed"; "toSorted"; "toSpliced"; "unshift"; "values"; "with"].

Definition mem (k : string) (l : list string) : bool := existsb (String.eqb k) l.

(** The number an array-index key stands for ("0", "1", "10", not "01"). *)
Definition index_key (k : string) : option N :=
  match explode k with
  | [] => None
  | [c] => if is_digit c then Some (Z.to_N (digit_value c)) else None
  | c :: l =>
      if negb (code c =? 48)%N && forallb is_digit (c :: l) then
        let z := digits_value 10 (c :: l) in
        if (z <? 4294967295)%Z then Some (Z.to_N z) else None
      else None
  end.

Definition own_get (k : string) (o : obj) : option value := jm_get k o.
Definition hasOwn (k : string) (o : obj) : bool := jm_has k o.

(** [o[k]] for a plain object, and [k in o]. *)
Definition get (k : string) (o : obj) : value :=
  match own_get k o with
  | Some v => v
  | None => if mem k object_proto then VFun k else VUndef
  end.

Definition has (k : string) (o : obj) : bool := hasOwn k o || mem k object_proto.

(** [a[k]] for an array. *)
Definition arr_get (k : string) (l : list value) : value :=
  match index_key k with
  | Some i => default VUndef (l !! N.to_nat i)
  | None =>
      if String.eqb k "length" then VNum (num_of_Z (Z.of_nat (length l)))
      else if mem k array_proto || mem k object_proto then VFun k else VUndef
  end.

(** [o[k] = v] *)
Fixpoint insert_index (i : N) (k : string) (v : value) (o : obj) : obj :=
  match o with
  | [] => [(k, v)]
  | (k', v') :: o' =>
      match index_key k' with
      | Some j => if (j <? i)%N then (k', v') :: insert_index i k v o' else (k, v) :: o
      | None => (k, v) :: o
      end
  end.

Definition set (k : string) (v : value) (o : obj) : obj :=
  if hasOwn k o then jm_set k v o
  else match index_key k with
       | Some i => insert_index i k v o
       | None => jm_set k v o
       end.

(** [{ ...a, ...b }]: assigning the entries of [b] to a copy of [a]. *)
Definition assign (a b : obj) : obj := fold_left (fun o '(k, v) => set k v o) b a.

(** An object built by assigning a list of entries to [{}]. *)
Definition of_entries (l : list (string * value)) : obj := assign [] l.

(** ** [typeof], [===] and the equality of [Array.prototype.includes] *)

Definition strict_eq (v w : value) : bool :=
  match v, w with
  | VUndef, VUndef | VNull, VNull => true
  | VBool a, VBool b => Bool.eqb a b
  | VNum a, VNum b => num_eqb a b
  | VStr a, VStr b => String.eqb a b
  | VArr a _, VArr b _ | VObj a _, VObj b _ => (a =? b)%N
  | VFun a, VFun b => String.eqb a b
  | _, _ => false
  end.

Definition same_value_zero (v w : value) : bool :=
  match v, w with
  | VNum a, VNum b => (is_nan a && is_nan b) || num_eqb a b
  | _, _ => strict_eq v w
  end.

(** [Boolean(v)] *)
Definition to_boolean (v : value) : bool :=
  match v with
  | VUndef | VNull | VBool false => false
  | VNum n => negb (is_nan n || num_eqb n (num_of_Z 0))
  | VStr s => negb (String.eqb s EmptyString)
  | _ => true
  end.

(** ** [String(v)]

    [None] stands for the [TypeError] of an object whose own [toString]
    property is not callable. *)

Definition native_code (name : string) : string :=
  "function " +:+ name +:+ "() { [native code] }".

Fixpoint to_string (v : value) : option string :=
  match v with
  | VUndef => Some "undefined"
  | VNull => Some "null"
  | VBool b => Some (if b then "true" else "false")
  | VNum n => Some (num_to_string n)
  | VStr s => Some s
  | VFun f => Some (native_code f)
  | VArr _ l =>
      (fix elems (l : list value) : option (list string) :=
         match l with
         | [] => Some []
         | v :: l =>
             s ← (match v with VUndef | VNull => Some EmptyString | _ => to_string v end);
             ss ← elems l;
             Some (s :: ss)
         end) l ≫= fun ss => Some (join "," ss)
  | VObj _ o => if hasOwn "toString" o then None else Some "[object Object]"
  end.

(** Values whose [String] is always defined. *)
Definition is_scalar (v : value) : bool :=
  match v with VArr _ _ | VObj _ _ => false | _ => true end.

(** ** [JSON.stringify]

    [None] is the [undefined] that [JSON.stringify] gives for [undefined] and
    for functions: such an array element becomes [null], such a property is
    left out. *)

Definition hex_digit (n : N) : ascii :=
  ascii_of_N (if (n <? 10)%N then n + 48 else n + 87).

Definition json_escape (c : ascii) : list ascii :=
  let n := code c in
  if (n =? 34)%N || (n =? 92)%N then [backslash; c]
  else if (n =? 8)%N then [backslash; ascii_of_N 98]
  else if (n =? 9)%N then [backslash; ascii_of_N 116]
  else if (n =? 10)%N then [backslash; ascii_of_N 110]
  else if (n =? 12)%N then [backslash; ascii_of_N 102]
  else if (n =? 13)%N then [backslash; ascii_of_N 114]
  else if (n <? 32)%N then
    [backslash; ascii_of_N 117; ascii_of_N 48; ascii_of_N 48;
     hex_digit (n / 16); hex_digit (n mod 16)]
  else [c].

Definition json_quote (s : string) : string :=
  implode (quote :: flat_map json_escape (explode s) ++ [quote]).

Definition json_number (n : number) : string :=
  if is_finite n then num_to_string n else "null".

Fixpoint json_stringify (v : value) : option string :=
  match v with
  | VUndef | VFun _ => None
  | VNull => Some "null"
  | VBool b => Some (if b then "true" else "false")
  | VNum n => Some (json_number n)
  | VStr s => Some (json_quote s)
  | VArr _ l =>
      let items :=
        (fix elems (l : list value) : list string :=
           match l with
           | [] => []
           | v :: l => default "null" (json_stringify v) :: elems l
           end) l in
      Some ("[" +:+ join "," items +:+ "]")
  | VObj _ o =>
      let items :=
        (fix props (o : list (string * value)) : list string :=
           match o with
           | [] => []
           | (k, v) :: o =>
               match json_stringify v with
               | Some s => (json_quote k +:+ ":" +:+ s) :: props o
               | None => props o
               end
           end) o in
      Some ("{" +:+ join "," items +:+ "}")
  end.

(** ** Induction on values *)

Section ValueInd.
Variable P : value -> Prop.
Hypothesis HUndef : P VUndef.
Hypothesis HNull : P VNull.
Hypothesis HBool : forall b, P (VBool b).
Hypothesis HNum : forall n, P (VNum n).
Hypothesis HStr : forall s, P (VStr s).
Hypothesis HArr : forall l vs, Forall P vs -> P (VArr l vs).
Hypothesis HObj : forall l o, Forall (fun p => P (snd p)) o -> P (VObj l o).
Hypothesis HFun : forall f, P (VFun f).

Fixpoint value_nested_ind (v : value) : P v :=
  match v with
  | VUndef => HUndef
  | VNull => HNull
  | VBool b => HBool b
  | VNum n => HNum n
  | VStr s => HStr s
  | VArr l vs =>
      HArr l vs
        ((fix go (vs : list value) : Forall P vs :=
            match vs with
            | [] => Forall_nil_2 _
            | v :: vs => Forall_cons_2 _ _ _ (value_nested_ind v) (go vs)
            end) vs)
  | VObj l o =>
      HObj l o
        ((fix go (o : list (string * value)) : Forall (fun p => P (snd p)) o :=
            match o with
            | [] => Forall_nil_2 _
            | p :: o => Forall_cons_2 _ _ _ (value_nested_ind (snd p)) (go o)
            end) o)
  | VFun f => HFun f
  end.
End ValueInd.

(** ** Lemmas on objects *)

Lemma mem_spec k l : mem k l = true <-> k ∈ l.
Proof.
  unfold mem. rewrite existsb_elem. split.
  - intros (x & Hx & ->%String.eqb_eq). done.
  - intros H. exists k. by rewrite String.eqb_refl.
Qed.

Lemma insert_index_get i k v o k' :
  hasOwn k o = false ->
  jm_get k' (insert_index i k v o) = if decide (k = k') then Some v else jm_get k' o.
Proof.
  unfold hasOwn. rewrite jm_has_false.
  induction o as [|[k2 v2] o IH]; cbn.
  - intros _. repeat case_decide; congruence.
  - rewrite not_elem_of_cons. intros [Hne Hno].
    destruct (index_key k2) as [j|]; [destruct (j <? i)%N|]; cbn;
      rewrite ?IH by done; repeat case_decide; congruence.
Qed.

Lemma own_get_set k k' v o :
  own_get k' (set k v o) = if decide (k = k') then Some v else own_get k' o.
Proof.
  unfold own_get, set. destruct (hasOwn k o) eqn:E; [apply jm_get_set|].
  destruct (index_key k); [by apply insert_index_get | apply jm_get_set].
Qed.

Lemma get_set_eq k v o : get k (set k v o) = v.
Proof. unfold get. by rewrite own_get_set, decide_True. Qed.

Lemma get_set_ne k k' v o : k <> k' -> get k' (set k v o) = get k' o.
Proof. intros H. unfold get. by rewrite own_get_set, decide_False. Qed.

Lemma hasOwn_set k k' v o :
  hasOwn k' (set k v o) = bool_decide (k = k') || hasOwn k' o.
Proof.
  unfold hasOwn, jm_has. fold (own_get k' (set k v o)) (own_get k' o).
  rewrite own_get_set. case_decide; case_bool_decide; done.
Qed.

Lemma insert_index_perm i k v o : insert_index i k v o ≡ₚ (k, v) :: o.
Proof.
  induction o as [|[k2 v2] o IH]; cbn; [done|].
  destruct (index_key k2) as [j|]; [destruct (j <? i)%N|]; try done.
  rewrite IH. apply Permutation_swap.
Qed.

Lemma set_new_perm k v o : hasOwn k o = false -> set k v o ≡ₚ (k, v) :: o.
Proof.
  intros H. unfold set. rewrite H. apply jm_has_false in H.
  destruct (index_key k); [apply insert_index_perm|].
  rewrite jm_keys_set_new by done. by rewrite Permutation_app_comm.
Qed.

Lemma set_NoDup k v o : NoDup (jm_keys o) -> NoDup (jm_keys (set k v o)).
Proof.
  intros H. destruct (hasOwn k o) eqn:E.
  - unfold set. rewrite E. by apply jm_set_NoDup.
  - unfold jm_keys. rewrite (set_new_perm k v o E). cbn.
    apply NoDup_cons. split; [by apply jm_has_false in E | done].
Qed.

Lemma assign_NoDup a b : NoDup (jm_keys a) -> NoDup (jm_keys (assign a b)).
Proof.
  unfold assign. revert a; induction b as [|[k v] b IH]; intros a H; cbn; [done|].
  by apply IH, set_NoDup.
Qed.

Lemma own_get_assign_not k a b :
  k ∉ map fst b -> own_get k (assign a b) = own_get k a.
Proof.
  unfold assign. revert a; induction b as [|[k' v] b IH]; intros a; cbn; [done|].
  rewrite not_elem_of_cons. intros [Hne Hno].
  by rewrite IH, own_get_set, decide_False.
Qed.

Lemma own_get_assign k a b :
  NoDup (map fst b) ->
  own_get k (assign a b) = match own_get k b with Some v => Some v | None => own_get k a end.
Proof.
  unfold assign, own_get. revert a; induction b as [|[k' v] b IH]; intros a; cbn; [done|].
  rewrite NoDup_cons. intros [Hn Hd]. rewrite IH by done.
  fold (own_get k (set k' v a)). rewrite own_get_set.
  destruct (decide (k = k')) as [->|Hne].
  - rewrite (proj2 (jm_get_None k' b)), decide_True by done. done.
  - by rewrite (decide_False (P := k' = k)) by congruence.
Qed.

Lemma strict_eq_sym v w : strict_eq v w = strict_eq w v.
Proof.
  destruct v, w; cbn; try done.
  - by destruct b, b0.
  - apply num_eqb_sym.
  - apply String.eqb_sym.
  - apply N.eqb_sym.
  - apply N.eqb_sym.
  - apply String.eqb_sym.
Qed.

Lemma to_string_scalar v : is_scalar v = true -> exists s, to_string v = Some s.
Proof. destruct v; cbn; eauto; done. Qed.

Lemma to_string_is_scalar v : is_scalar v = true -> is_Some (to_string v).
Proof. intros [s ->]%to_string_scalar. done. Qed.

#[export] Hint Resolve set_NoDup assign_NoDup : platform.
#[export] Hint Rewrite get_set_eq : platform.

Example set_order :
  map fst (of_entries [("b", VNull); ("10", VNull); ("a", VNull); ("2", VNull); ("b", VUndef)])
  = ["2"; "10"; "b"; "a"].
Proof. vm_compute. reflexivity. Qed.
Example json_ex :
  json_stringify (VArr 0%N [VNum (num_of_Z 1); VUndef; VObj 1%N [("a", VStr "x"); ("f", VFun "at")]])
  = Some (implode (explode "[1,null,{" ++ [quote] ++ explode "a" ++ [quote] ++ explode ":"
                     ++ [quote] ++ explode "x" ++ [quote] ++ explode "}]")).
Proof. vm_compute. reflexivity. Qed.
Example to_string_arr :
  to_string (VArr 0%N [VNum (num_of_Z 1); VNull; VObj 1%N []]) = Some "1,,[object Object]".
Proof. vm_compute. reflexivity. Qed.
