(* ===== verification/JsHost.v ===== *)
(** * What the language leaves to its host, and dates

    [Host] gathers the library functions whose result the language definition
    leaves to the implementation ([Math.pow], collation, the parsing of free
    date formats) or whose definition is an engine of its own ([RegExp]).  The
    components that use them are stated for every host; witnesses take
    [plain_host]. *)

From S2P Require Import Prelude JsString JsNumber JsValue.
From Stdlib Require Import Ascii.
From stdpp Require Import pretty.

Class Host : Type := {
  (** [Math.pow(x, y)] *)
  math_pow : number -> number -> number;
  (** [a.localeCompare(b)] *)
  locale_compare : string -> string -> comparison;
  (** [new RegExp(p).test(s)], [None] for a pattern that does not compile *)
  regexp_test : string -> string -> option bool;
  (** [new Date(s).getTime()], [None] for an invalid date *)
  date_parse : string -> option Z
}.

(** What the code relies on: collation is a total preorder. *)
Class HostLaws (H : Host) : Prop := {
  locale_refl : forall s, locale_compare s s = Eq;
  locale_antisym : forall s t, locale_compare t s = CompOpp (locale_compare s t);
  locale_trans : forall s t u,
    locale_compare s t <> Gt -> locale_compare t u <> Gt -> locale_compare s u <> Gt
}.

(** ** A concrete host: code-unit order, substring search for patterns, and
    dates written as a number of milliseconds. *)

Fixpoint lex_compare (l k : list ascii) : comparison :=
  match l, k with
  | [], [] => Eq
  | [], _ => Lt
  | _, [] => Gt
  | a :: l, b :: k =>
      match (code a ?= code b)%N with
      | Eq => lex_compare l k
      | c => c
      end
  end.

Definition plain_host : Host := {|
  math_pow := fun x y =>
    match num_to_Z x, num_to_Z y with
    | Some a, Some b => if (0 <=? b)%Z then num_of_Z (a ^ b) else NaN
    | _, _ => NaN
    end;
  locale_compare := fun s t => lex_compare (explode s) (explode t);
  regexp_test := fun p s => Some (includes s p);
  date_parse := fun s => num_to_Z (num_of_string s)
|}.

Lemma lex_refl l : lex_compare l l = Eq.
Proof. induction l as [|a l IH]; cbn; [done|]. by rewrite N.compare_refl. Qed.

Lemma lex_antisym l k : lex_compare k l = CompOpp (lex_compare l k).
Proof.
  revert k; induction l as [|a l IH]; intros [|b k]; cbn; try done.
  rewrite (N.compare_antisym (code a) (code b)). by destruct (code a ?= code b)%N; cbn.
Qed.

Lemma lex_trans l k m :
  lex_compare l k <> Gt -> lex_compare k m <> Gt -> lex_compare l m <> Gt.
Proof.
  revert k m; induction l as [|a l IH]; intros [|b k] [|c m]; cbn; try done.
  destruct (N.compare_spec (code a) (code b)) as [Hab|Hab|Hab]; try done;
    destruct (N.compare_spec (code b) (code c)) as [Hbc|Hbc|Hbc]; try done;
    intros H1 H2; destruct (N.compare_spec (code a) (code c)) as [Hac|Hac|Hac];
    try done; try lia; eauto.
Qed.

#[export] Instance plain_host_laws : HostLaws plain_host.
Proof.
  split; cbn; [intros; apply lex_refl | intros; apply lex_antisym |].
  intros s t u. apply lex_trans.
Qed.

(** ** [Date.prototype.toISOString]

    The proleptic Gregorian calendar from a number of days since 1970-01-01. *)

Record civil : Type := { year : Z; month : Z; day : Z }.

Definition civil_of_days (days : Z) : civil :=
  (let z := days + 719468 in
   let era := z / 146097 in
   let doe := z mod 146097 in
   let yoe := (doe - doe / 1460 + doe / 36524 - doe / 146096) / 365 in
   let doy := doe - (365 * yoe + yoe / 4 - yoe / 100) in
   let mp := (5 * doy + 2) / 153 in
   let m := if mp <? 10 then mp + 3 else mp - 9 in
   {| year := yoe + era * 400 + (if m <=? 2 then 1 else 0);
      month := m;
      day := doy - (153 * mp + 2) / 5 + 1 |})%Z.

(** [padStart(n, "0")] of a natural number *)
Definition pad0 (n : nat) (z : Z) : string :=
  let s := pretty (Z.to_N z) in
  zeros (Z.of_nat n - Z.of_nat (String.length s)) +:+ s.

Definition iso_year (y : Z) : string :=
  if (0 <=? y)%Z && (y <=? 9999)%Z then pad0 4 y
  else (if (y <? 0)%Z then "-" else "+") +:+ pad0 6 (Z.abs y).

Definition MS_PER_DAY : Z := 86400000.

Definition iso_string (ms : Z) : string :=
  let d := civil_of_days (ms / MS_PER_DAY) in
  let t := (ms mod MS_PER_DAY)%Z in
  iso_year (year d) +:+ "-" +:+ pad0 2 (month d) +:+ "-" +:+ pad0 2 (day d) +:+ "T"
    +:+ pad0 2 (t / 3600000)%Z +:+ ":" +:+ pad0 2 (t / 60000 mod 60)%Z
    +:+ ":" +:+ pad0 2 (t / 1000 mod 60)%Z +:+ "." +:+ pad0 3 (t mod 1000)%Z +:+ "Z".

Example iso_epoch : iso_string 0 = "1970-01-01T00:00:00.000Z".
Proof. vm_compute. reflexivity. Qed.
Example iso_pg_epoch : iso_string 946684800000 = "2000-01-01T00:00:00.000Z".
Proof. vm_compute. reflexivity. Qed.
Example iso_leap : iso_string 1709210096789 = "2024-02-29T12:34:56.789Z".
Proof. vm_compute. reflexivity. Qed.
