(* ===== verification/ExprLexer.v ===== *)
(** * Pipeline expressions: errors and tokenizer

    [services/pipeline/src/services/expression-evaluator.ts]: the error sites,
    the tokens and [tokenize], with the guarantee that no blocked identifier
    becomes a token. *)

From S2P Require Import Prelude JsString JsNumber JsValue.
From Stdlib Require Import Ascii.

(** The [throw] sites.  All but the last two throw [ExpressionEvaluatorError];
    [JsTypeError] is a [TypeError] of the language, and [OutOfFuel] is the
    model's own (the theorems show that it does not occur). *)
Inductive expr_error : Type :=
| TooLong
| BlockedIdent (id : string)
| UnexpectedChar (c : ascii) (pos : nat)
| UnexpectedTrailing (raw : string) (pos : nat)
| UnexpectedEnd
| Expected (what got : string)
| TooDeep
| ExpectedField (raw : string)
| UnexpectedToken (raw : string)
| EvalTooDeep
| NegNonNumber (v : value)
| UnknownUnary (op : string)
| DivisionByZero
| ModuloByZero
| UnknownBinary (op : string)
| UnknownFunction (name : string)
| NonNumeric (op : string) (v : value)
| JsTypeError
| OutOfFuel.

Inductive token : Type :=
| TNumber (raw : string) (n : number)
| TString (raw : string) (s : string)
| TIdent (id : string)
| TBool (b : bool)
| TNull
| TOp (op : string)
| TLParen
| TRParen
| TComma
| TDot.

Definition raw (t : token) : string :=
  match t with
  | TNumber r _ | TString r _ => r
  | TIdent i => i
  | TBool b => if b then "true" else "false"
  | TNull => "null"
  | TOp op => op
  | TLParen => "("
  | TRParen => ")"
  | TComma => ","
  | TDot => "."
  end.

Definition BLOCKED_IDENTS : list string :=
  ["globalThis"; "global"; "process"; "require"; "import"; "__proto__";
   "constructor"; "prototype"; "eval"; "Function"; "setTimeout";
   "setInterval"; "fetch"; "window"; "document"].

Definition is_ident_start (c : ascii) : bool :=
  is_alpha c || (code c =? 95)%N || (code c =? 36)%N.
Definition is_ident_char (c : ascii) : bool := is_ident_start c || is_digit c.
Definition is_number_char (c : ascii) : bool := is_digit c || (code c =? 46)%N.

Definition squote : ascii := ascii_of_N 39.

(** The characters of a string literal up to its closing quote, and the rest;
    an unterminated literal ends with the source. *)
Fixpoint read_string (q : ascii) (l : list ascii) : list ascii * list ascii :=
  match l with
  | [] => ([], [])
  | c :: l' =>
      if Ascii.eqb c q then ([], l')
      else if Ascii.eqb c backslash then
        match l' with
        | [] => ([], [])
        | e :: l'' =>
            let esc := if (code e =? 110)%N then newline
                       else if (code e =? 116)%N then tab else e in
            let '(s, r) := read_string q l'' in (esc :: s, r)
        end
      else let '(s, r) := read_string q l' in (c :: s, r)
  end.

Definition two_char_ops : list string := ["=="; "!="; "<="; ">="; "&&"; "||"].
Definition one_char_ops : list ascii := explode "<>+-*/%!".

Definition two_char_op (l : list ascii) : option (string * list ascii) :=
  match l with
  | a :: b :: r =>
      let two := implode [a; b] in
      if mem two two_char_ops then Some (two, r) else None
  | _ => None
  end.

Definition punctuation (c : ascii) : option token :=
  if existsb (Ascii.eqb c) one_char_ops then Some (TOp (str c))
  else if (code c =? 40)%N then Some TLParen
  else if (code c =? 41)%N then Some TRParen
  else if (code c =? 44)%N then Some TComma
  else if (code c =? 46)%N then Some TDot
  else None.

(** The token for an identifier: keyword, refused name or [IDENT]. *)
Definition ident_token (id : string) : result expr_error token :=
  if String.eqb id "true" then Ok (TBool true)
  else if String.eqb id "false" then Ok (TBool false)
  else if String.eqb id "null" then Ok TNull
  else if mem id BLOCKED_IDENTS then Err (BlockedIdent id)
  else Ok (TIdent id).

(** One step of the loop on a nonempty rest [c :: l']: the token read, if any,
    and what is left.  [pos] is the index of [c]. *)
Definition next_token (pos : nat) (c : ascii) (l' : list ascii)
    : result expr_error (option token * list ascii) :=
  let l := c :: l' in
  if is_space c then Ok (None, l')
  else if is_digit c then
    let '(num, r) := span is_number_char l in
    Ok (Some (TNumber (implode num) (num_of_string (implode num))), r)
  else if Ascii.eqb c quote || Ascii.eqb c squote then
    let '(s, r) := read_string c l' in
    Ok (Some (TString (str c +:+ implode s +:+ str c) (implode s)), r)
  else match two_char_op l with
  | Some (op, r) => Ok (Some (TOp op), r)
  | None =>
      match punctuation c with
      | Some t => Ok (Some t, l')
      | None =>
          if is_ident_start c then
            let '(id, r) := span is_ident_char l in
            t ← ident_token (implode id); Ok (Some t, r)
          else Err (UnexpectedChar c pos)
      end
  end.

Definition cons_opt {A} (o : option A) (l : list A) : list A :=
  match o with Some x => x :: l | None => l end.

(** The [while (i < src.length)] loop; [n] is [src.length], so the index of
    the rest [l] is [n - length l]. *)
Fixpoint tokenize_loop (fuel n : nat) (l : list ascii) : result expr_error (list token) :=
  match l with
  | [] => Ok []
  | c :: l' =>
      match fuel with
      | O => Err OutOfFuel
      | S fuel =>
          '(t, r) ← next_token (n - length l) c l';
          ts ← tokenize_loop fuel n r;
          Ok (cons_opt t ts)
      end
  end.

(** Every step consumes a character, so [src.length] steps are enough. *)
Definition tokenize (src : string) : result expr_error (list token) :=
  tokenize_loop (String.length src) (String.length src) (explode src).

(** ** Lemmas *)

Lemma span_rest_le {A} (p : A -> bool) l : length (span p l).2 <= length l.
Proof.
  pose proof (f_equal length (span_app p l)) as H. rewrite length_app in H. lia.
Qed.

Lemma span_rest_lt {A} (p : A -> bool) c l :
  p c = true -> length (span p (c :: l)).2 <= length l.
Proof.
  intros H. cbn. rewrite H. pose proof (span_rest_le p l) as Hle.
  destruct (span p l); cbn in *. lia.
Qed.

Lemma read_string_rest q l : length (read_string q l).2 <= length l.
Proof.
  revert l. fix IH 1. intros [|c l]; cbn; [lia|].
  destruct (Ascii.eqb c q); cbn; [lia|].
  destruct (Ascii.eqb c backslash).
  - destruct l as [|e l]; cbn; [lia|].
    specialize (IH l). destruct (read_string q l); cbn in *; lia.
  - specialize (IH l). destruct (read_string q l); cbn in *; lia.
Qed.

Lemma ident_token_fuel id : ident_token id <> Err OutOfFuel.
Proof. unfold ident_token. by repeat case_match. Qed.

(** A step never runs out of fuel and leaves no more than the rest [l']. *)
Lemma next_token_spec pos c l' :
  next_token pos c l' <> Err OutOfFuel /\
  forall t r, next_token pos c l' = Ok (t, r) -> length r <= length l'.
Proof.
  unfold next_token.
  destruct (is_space c); [naive_solver|].
  destruct (is_digit c) eqn:Hd.
  { pose proof (span_rest_lt is_number_char c l') as Hs.
    destruct (span is_number_char (c :: l')) as [num r]. split; [done|].
    intros t r' [= <- <-]. apply Hs. unfold is_number_char. by rewrite Hd. }
  destruct (Ascii.eqb c quote || Ascii.eqb c squote).
  { pose proof (read_string_rest c l') as Hs.
    destruct (read_string c l') as [s r]. split; [done|]. by intros t r' [= <- <-]. }
  destruct (two_char_op (c :: l')) as [[op r]|] eqn:E2.
  { split; [done|]. intros t r' [= <- <-].
    destruct l' as [|b l']; cbn in E2; [done|]. case_match; simplify_eq. cbn. lia. }
  destruct (punctuation c); [naive_solver|].
  destruct (is_ident_start c) eqn:Hi; [|done].
  pose proof (span_rest_lt is_ident_char c l') as Hs.
  destruct (span is_ident_char (c :: l')) as [id r].
  pose proof (ident_token_fuel (implode id)) as Hf.
  destruct (ident_token (implode id)) as [tk|e]; cbn; [|split; [congruence|done]].
  split; [done|]. intros t r' [= <- <-]. apply Hs. unfold is_ident_char. by rewrite Hi.
Qed.

Lemma tokenize_loop_fuel fuel n l :
  length l <= fuel -> tokenize_loop fuel n l <> Err OutOfFuel.
Proof.
  revert l; induction fuel as [|fuel IH]; intros [|c l']; cbn; try done; [lia|].
  intros Hle. destruct (next_token_spec (n - S (length l')) c l') as [Hf Hr].
  destruct (next_token _ c l') as [[t r]|e]; cbn; [|congruence].
  specialize (Hr t r eq_refl). specialize (IH r).
  destruct (tokenize_loop fuel n r); cbn; [done|]. intros [= ->]. apply IH; [lia|done].
Qed.

(** The identifier of an [IDENT] token is not blocked. *)
Definition token_allowed (t : token) : Prop :=
  match t with TIdent id => id ∉ BLOCKED_IDENTS | _ => True end.

Lemma next_token_allowed pos c l' t r :
  next_token pos c l' = Ok (Some t, r) -> token_allowed t.
Proof.
  unfold next_token, punctuation. intros H.
  destruct (is_space c); [done|].
  destruct (is_digit c); [destruct (span _ _); by simplify_eq|].
  destruct (_ || _); [destruct (read_string _ _); by simplify_eq|].
  destruct (two_char_op _) as [[op r']|]; [by simplify_eq|].
  repeat (case_match; [by simplify_eq|]).
  repeat case_match; simplify_eq; try done.
  unfold ident_token in H. repeat case_match; cbn in H; simplify_eq; try done.
  cbn. intros Hin%mem_spec. congruence.
Qed.

Lemma tokenize_loop_allowed fuel n l ts :
  tokenize_loop fuel n l = Ok ts -> Forall token_allowed ts.
Proof.
  revert l ts; induction fuel as [|fuel IH]; intros [|c l'] ts; cbn; try done;
    try (intros [= <-]; constructor).
  intros H. apply bind_ok in H as ([t r] & Ht & H). apply bind_ok in H as (ts' & Hts & [= <-]).
  apply IH in Hts. destruct t as [t|]; cbn; [constructor|]; try done.
  by eapply next_token_allowed.
Qed.

Lemma tokenize_allowed src ts : tokenize src = Ok ts -> Forall token_allowed ts.
Proof. apply tokenize_loop_allowed. Qed.

Lemma tokenize_fuel src : tokenize src <> Err OutOfFuel.
Proof. apply tokenize_loop_fuel. by rewrite length_explode. Qed.

Example tokenize_ex :
  tokenize "a.b >= 1.5" =
  Ok [TIdent "a"; TDot; TIdent "b"; TOp ">="; TNumber "1.5" (num_of_string "1.5")].
Proof. vm_compute. reflexivity. Qed.
Example tokenize_blocked : tokenize "a.constructor" = Err (BlockedIdent "constructor").
Proof. vm_compute. reflexivity. Qed.
Example tokenize_bad : tokenize "a = 1" = Err (UnexpectedChar (ascii_of_N 61) 2).
Proof. vm_compute. reflexivity. Qed.
