(* ===== verification/ExprParser.v ===== *)
(** * Pipeline expressions: the Pratt parser and the grammar it implements

    [services/pipeline/src/services/expression-evaluator.ts], [class Parser].
    [derives] is the grammar of that file's header comment; the parser accepts
    what the grammar derives, with the grammar's tree. *)

From S2P Require Import Prelude JsString JsNumber JsValue ExprLexer.

Inductive ast : Type :=
| ELit (v : value)
| EField (path : list string)
| EUnary (op : string) (operand : ast)
| EBinary (op : string) (left right : ast)
| ECall (name : string) (args : list ast).

(** Binding powers of the infix operators. *)
Definition INFIX_POWER (op : string) : option nat :=
  if mem op ["||"] then Some 10
  else if mem op ["&&"] then Some 20
  else if mem op ["=="; "!="] then Some 30
  else if mem op ["<"; "<="; ">"; ">="] then Some 40
  else if mem op ["+"; "-"] then Some 50
  else if mem op ["*"; "/"; "%"] then Some 60
  else None.

Definition is_prefix_op (op : string) : bool := mem op ["!"; "-"].

Definition MAX_DEPTH : nat := 50.

#[global] Arguments INFIX_POWER : simpl never.
#[global] Arguments is_prefix_op : simpl never.

(** ** The parser

    [this.depth] is raised on entry to [parseExpression] and lowered on its
    normal exit, so it is the nesting of the calls: an argument.  The token
    list is the rest from [this.pos]. *)

Abbreviation parsed A := (result expr_error (A * list token)).

(** [expect("RPAREN")] *)
Definition expect_rparen (ts : list token) : result expr_error (list token) :=
  match ts with
  | [] => Err UnexpectedEnd
  | TRParen :: ts => Ok ts
  | t :: _ => Err (Expected "RPAREN" (raw t))
  end.

(** [('.' IDENT)*] *)
Fixpoint parse_path (ts : list token) : parsed (list string) :=
  match ts with
  | TDot :: ts1 =>
      match ts1 with
      | [] => Err UnexpectedEnd
      | TIdent f :: ts2 => '(p, r) ← parse_path ts2; Ok (f :: p, r)
      | t :: _ => Err (ExpectedField (raw t))
      end
  | _ => Ok ([], ts)
  end.

Definition skip_comma (ts : list token) : list token :=
  match ts with TComma :: ts => ts | _ => ts end.

Fixpoint parseExpression (fuel depth minPower : nat) (ts : list token) {struct fuel} : parsed ast :=
  match fuel with
  | O => Err OutOfFuel
  | S fuel =>
      if MAX_DEPTH <? S depth then Err TooDeep
      else '(lhs, ts) ← parseUnary fuel (S depth) ts;
           infixLoop fuel (S depth) minPower lhs ts
  end

with infixLoop (fuel depth minPower : nat) (lhs : ast) (ts : list token) {struct fuel} : parsed ast :=
  match fuel with
  | O => Err OutOfFuel
  | S fuel =>
      match ts with
      | TOp op :: ts' =>
          match INFIX_POWER op with
          | Some power =>
              if power <=? minPower then Ok (lhs, ts)
              else '(rhs, ts'') ← parseExpression fuel depth power ts';
                   infixLoop fuel depth minPower (EBinary op lhs rhs) ts''
          | None => Ok (lhs, ts)
          end
      | _ => Ok (lhs, ts)
      end
  end

with parseUnary (fuel depth : nat) (ts : list token) {struct fuel} : parsed ast :=
  match fuel with
  | O => Err OutOfFuel
  | S fuel =>
      match ts with
      | TOp op :: ts' =>
          if is_prefix_op op then
            '(e, r) ← parseUnary fuel depth ts'; Ok (EUnary op e, r)
          else parsePrimary fuel depth ts
      | _ => parsePrimary fuel depth ts
      end
  end

with parsePrimary (fuel depth : nat) (ts : list token) {struct fuel} : parsed ast :=
  match fuel with
  | O => Err OutOfFuel
  | S fuel =>
      match ts with
      | [] => Err UnexpectedEnd
      | TNumber _ n :: ts => Ok (ELit (VNum n), ts)
      | TString _ s :: ts => Ok (ELit (VStr s), ts)
      | TBool b :: ts => Ok (ELit (VBool b), ts)
      | TNull :: ts => Ok (ELit VNull, ts)
      | TLParen :: ts =>
          '(inner, ts) ← parseExpression fuel depth 0 ts;
          ts ← expect_rparen ts;
          Ok (inner, ts)
      | TIdent name :: TLParen :: ts =>
          '(args, ts) ← parseArgs fuel depth ts;
          ts ← expect_rparen ts;
          Ok (ECall name args, ts)
      | TIdent name :: ts =>
          '(path, ts) ← parse_path ts; Ok (EField (name :: path), ts)
      | t :: _ => Err (UnexpectedToken (raw t))
      end
  end

with parseArgs (fuel depth : nat) (ts : list token) {struct fuel} : parsed (list ast) :=
  match fuel with
  | O => Err OutOfFuel
  | S fuel =>
      match ts with
      | TRParen :: _ => Ok ([], ts)
      | _ =>
          '(a, ts) ← parseExpression fuel depth 0 ts;
          '(l, ts) ← parseArgs fuel depth (skip_comma ts);
          Ok (a :: l, ts)
      end
  end.

(** Every call that does not consume a token is followed by one that does. *)
Definition parse_fuel (ts : list token) : nat := 3 * length ts + 4.

(** [new Parser(tokens).parseExpression(0)] and the check that follows it. *)
Definition parse_tokens (ts : list token) : result expr_error ast :=
  '(e, rest) ← parseExpression (parse_fuel ts) 0 0 ts;
  match rest with
  | [] => Ok e
  | t :: _ => Err (UnexpectedTrailing (raw t) (length ts - length rest))
  end.

Definition parse_expr (src : string) : result expr_error ast :=
  ts ← tokenize src; parse_tokens ts.

(** ** The grammar

    That of the header comment of expression-evaluator.ts, with levels for its
    lines: [derives 0] is [logic_or], [derives 1] is [logic_and], and so on
    with [equality], [comparison], [addition] and [multiply]; [derives 6] is
    [unary].  A line [x (op x)*] is the left recursion of [d_op].

    [derives i k ts e]: the tokens [ts] are a sentence of level [i] with the
    tree [e], and [k] expressions nest in it: right operands, parentheses and
    arguments.  The flag [strict] asks for commas between arguments, as the
    header comment does; the parser also accepts arguments with no comma between
    them and a trailing comma ([strict = false]). *)

Definition operators (i : nat) : list string :=
  match i with
  | 0 => ["||"]
  | 1 => ["&&"]
  | 2 => ["=="; "!="]
  | 3 => ["<"; "<="; ">"; ">="]
  | 4 => ["+"; "-"]
  | 5 => ["*"; "/"; "%"]
  | _ => []
  end.

Inductive path_tokens : list token -> list string -> Prop :=
| path_nil : path_tokens [] []
| path_cons f ts p : path_tokens ts p -> path_tokens (TDot :: TIdent f :: ts) (f :: p).

Section Grammar.
Variable strict : bool.

Inductive derives : nat -> nat -> list token -> ast -> Prop :=
| d_unary k ts e : unary k ts e -> derives 6 k ts e
| d_next i k ts e : i < 6 -> derives (S i) k ts e -> derives i k ts e
| d_op i k1 k2 op ts1 ts2 l r :
    op ∈ operators i -> derives i k1 ts1 l -> derives (S i) k2 ts2 r ->
    derives i (Nat.max k1 (S k2)) (ts1 ++ TOp op :: ts2) (EBinary op l r)

with unary : nat -> list token -> ast -> Prop :=
| u_not k ts e : unary k ts e -> unary k (TOp "!" :: ts) (EUnary "!" e)
| u_minus k ts e : unary k ts e -> unary k (TOp "-" :: ts) (EUnary "-" e)
| u_number r n : unary 0 [TNumber r n] (ELit (VNum n))
| u_string r s : unary 0 [TString r s] (ELit (VStr s))
| u_bool b : unary 0 [TBool b] (ELit (VBool b))
| u_null : unary 0 [TNull] (ELit VNull)
| u_paren k ts e : derives 0 k ts e -> unary (S k) (TLParen :: ts ++ [TRParen]) e
| u_field f ts p : path_tokens ts p -> unary 0 (TIdent f :: ts) (EField (f :: p))
| u_call k f ts l : arguments k ts l -> unary k (TIdent f :: TLParen :: ts ++ [TRParen]) (ECall f l)

with arguments : nat -> list token -> list ast -> Prop :=
| a_nil : arguments 0 [] []
| a_one k ts e : derives 0 k ts e -> arguments (S k) ts [e]
| a_comma k1 k2 ts1 ts2 e e' l :
    derives 0 k1 ts1 e -> arguments k2 ts2 (e' :: l) ->
    arguments (Nat.max (S k1) k2) (ts1 ++ TComma :: ts2) (e :: e' :: l)
| a_trailing k ts e : strict = false -> derives 0 k ts e -> arguments (S k) (ts ++ [TComma]) [e]
| a_loose k1 k2 ts1 ts2 e l :
    strict = false -> derives 0 k1 ts1 e -> arguments k2 ts2 l ->
    arguments (Nat.max (S k1) k2) (ts1 ++ ts2) (e :: l).

Scheme derives_mind := Minimality for derives Sort Prop
with unary_mind := Minimality for unary Sort Prop
with arguments_mind := Minimality for arguments Sort Prop.
Combined Scheme grammar_ind from derives_mind, unary_mind, arguments_mind.
End Grammar.

(** The operators of level [i] have the power [10 * (i + 1)], and no others do. *)
Lemma power_level op q : INFIX_POWER op = Some q <-> exists i, op ∈ operators i /\ q = 10 * S i.
Proof.
  split.
  - unfold INFIX_POWER. intros H.
    repeat match type of H with (if mem _ _ then _ else _) = _ => destruct (mem _ _) eqn:?E in H end;
      try (injection H as <-);
      [exists 0|exists 1|exists 2|exists 3|exists 4|exists 5|done]; (split; [|done]); by apply mem_spec.
  - intros (i & Hi & ->). do 6 (destruct i as [|i];
      [repeat (apply elem_of_cons in Hi as [->|Hi]; [reflexivity|]); by apply not_elem_of_nil in Hi|]). by apply not_elem_of_nil in Hi.
Qed.

Lemma prefix_level op : is_prefix_op op = true <-> op = "!" \/ op = "-".
Proof. unfold is_prefix_op. rewrite mem_spec, !elem_of_cons, elem_of_nil. naive_solver. Qed.

Lemma operators_below op i : op ∈ operators i -> i < 6.
Proof. do 6 (destruct i as [|i]; [lia|]). intros []%not_elem_of_nil. Qed.

Lemma level_unique op i j : op ∈ operators i -> op ∈ operators j -> i = j.
Proof.
  intros Hi Hj. assert (H : INFIX_POWER op = Some (10 * S i)) by (apply power_level; eauto).
  assert (H' : INFIX_POWER op = Some (10 * S j)) by (apply power_level; eauto). rewrite H in H'. injection H'. lia.
Qed.

(** No operator of level [i] or tighter comes next. *)
Definition stops (i : nat) (ts : list token) : Prop :=
  forall op ts' j, ts = TOp op :: ts' -> op ∈ operators j -> j < i.

(** ** Termination *)

Lemma expect_rparen_length ts r : expect_rparen ts = Ok r -> length ts = S (length r).
Proof. destruct ts as [|[] ts]; cbn; try done. by intros [= ->]. Qed.

Lemma expect_rparen_fuel ts : expect_rparen ts <> Err OutOfFuel.
Proof. by destruct ts as [|[] ts]. Qed.

Lemma parse_path_length ts p r : parse_path ts = Ok (p, r) -> length r <= length ts.
Proof.
  revert p. induction ts as [ts IH] using list_length_ind. intros p.
  destruct ts as [|[] [|[] ts]]; cbn; try done; try (by intros [= <- <-]).
  intros H. apply bind_ok in H as ([p' r'] & H & [= _ ->]). apply IH in H; cbn in *; lia.
Qed.

Lemma parse_path_fuel ts : parse_path ts <> Err OutOfFuel.
Proof.
  induction ts as [ts IH] using list_length_ind.
  destruct ts as [|[] [|[] ts]]; cbn; try done.
  specialize (IH ts ltac:(cbn; lia)). destruct (parse_path ts) as [[]|]; cbn; congruence.
Qed.

Lemma skip_comma_length ts : length (skip_comma ts) <= length ts.
Proof. destruct ts as [|[] ts]; cbn; lia. Qed.

(** Each function leaves a rest, strictly shorter except after a loop. *)
Lemma parser_length n :
  (forall d p ts e r, parseExpression n d p ts = Ok (e, r) -> length r < length ts) /\
  (forall d p l ts e r, infixLoop n d p l ts = Ok (e, r) -> length r <= length ts) /\
  (forall d ts e r, parseUnary n d ts = Ok (e, r) -> length r < length ts) /\
  (forall d ts e r, parsePrimary n d ts = Ok (e, r) -> length r < length ts) /\
  (forall d ts l r, parseArgs n d ts = Ok (l, r) -> length r <= length ts).
Proof.
  induction n as [|n (IHe & IHi & IHu & IHp & IHa)]; [done|].
  split; [|split; [|split; [|split]]].
  - intros d p ts e r Hp. cbn in Hp. case_match; [done|].
    unbind Hp as [a r1] Hu. apply IHu in Hu. apply IHi in Hp. lia.
  - intros d p l ts e r Hp. cbn in Hp. repeat (case_match; simplify_eq; try done).
    unbind Hp as [a r1] He. apply IHe in He. apply IHi in Hp. cbn. lia.
  - intros d ts e r Hp. cbn in Hp. repeat (case_match; try (by apply IHp in Hp)).
    subst. unbind Hp as [a r1] Hu. simplify_eq. apply IHu in Hu. cbn. lia.
  - intros d ts e r Hp. cbn in Hp. destruct ts as [|t ts]; [done|].
    assert (Hf : forall f ts, ('(p, r) ← parse_path ts; Ok (EField (f :: p), r)) = Ok (e, r) ->
                 length r < S (length ts)).
    { intros f ts' Hf. unbind Hf as [p r1] Hr. simplify_eq. apply parse_path_length in Hr. lia. }
    destruct t; simplify_eq; cbn; try done; try lia.
    + destruct ts as [|[] ts]; try (by apply Hf in Hp).
      unbind Hp as [l r1] Ha. unbind Hp as r2 Hr. simplify_eq.
      apply IHa in Ha. apply expect_rparen_length in Hr. cbn. lia.
    + unbind Hp as [l r1] He. unbind Hp as r2 Hr. simplify_eq.
      apply IHe in He. apply expect_rparen_length in Hr. cbn. lia.
  - intros d ts l r Hp. cbn in Hp.
    assert (Ha : ('(a, ts) ← parseExpression n d 0 ts;
                  '(l, ts) ← parseArgs n d (skip_comma ts); Ok (a :: l, ts)) = Ok (l, r) ->
                 length r <= length ts).
    { intros Ha. unbind Ha as [a r1] He. unbind Ha as [l1 r2] Hl. simplify_eq.
      apply IHe in He. apply IHa in Hl. pose proof (skip_comma_length r1). lia. }
    destruct ts as [|[] ts]; try (by apply Ha in Hp). by simplify_eq.
Qed.

(** The fuel each function needs on [k] tokens. *)
Lemma parser_fuel n :
  (forall d p ts, 3 * length ts + 3 <= n -> parseExpression n d p ts <> Err OutOfFuel) /\
  (forall d p l ts, 3 * length ts + 1 <= n -> infixLoop n d p l ts <> Err OutOfFuel) /\
  (forall d ts, 3 * length ts + 2 <= n -> parseUnary n d ts <> Err OutOfFuel) /\
  (forall d ts, 3 * length ts + 1 <= n -> parsePrimary n d ts <> Err OutOfFuel) /\
  (forall d ts, 3 * length ts + 4 <= n -> parseArgs n d ts <> Err OutOfFuel).
Proof.
  induction n as [|n (IHe & IHi & IHu & IHp & IHa)]; [repeat split; intros; lia|].
  destruct (parser_length n) as (Le & Li & Lu & Lp & La).
  split; [|split; [|split; [|split]]].
  - intros d p ts Hn. cbn. case_match; [done|].
    apply bind_not_err; [apply IHu; lia|]. intros [a r] Hu%Lu. apply IHi. lia.
  - intros d p l ts Hn. cbn. repeat (case_match; simplify_eq; try done).
    cbn in Hn. apply bind_not_err; [apply IHe; lia|]. intros [a r] He%Le. apply IHi. lia.
  - intros d ts Hn. cbn. repeat case_match; subst; try (apply IHp; cbn in *; lia).
    cbn in Hn. apply bind_not_err; [apply IHu; lia|]. by intros [a r].
  - intros d ts Hn. cbn. destruct ts as [|t ts]; [done|]. cbn in Hn.
    assert (Hf : forall f ts, ('(p, r) ← parse_path ts; Ok (EField (f :: p), r)) <> Err OutOfFuel).
    { intros f ts'. apply bind_not_err; [apply parse_path_fuel|]. by intros [p r]. }
    assert (Hr : forall (e : ast) r, (ts ← expect_rparen r; Ok (e, ts)) <> Err OutOfFuel).
    { intros e r. apply bind_not_err; [apply expect_rparen_fuel | done]. }
    destruct t; try done.
    + destruct ts as [|[] ts]; try apply Hf. cbn in Hn.
      apply bind_not_err; [apply IHa; lia|]. intros [l r] _. apply Hr.
    + apply bind_not_err; [apply IHe; lia|]. intros [e r] _. apply Hr.
  - intros d ts Hn. cbn.
    assert (Ha : ('(a, ts) ← parseExpression n d 0 ts;
                  '(l, ts) ← parseArgs n d (skip_comma ts); Ok (a :: l, ts)) <> Err OutOfFuel).
    { apply bind_not_err; [apply IHe; lia|]. intros [a r] He%Le.
      pose proof (skip_comma_length r). apply bind_not_err; [apply IHa; lia|]. by intros [l r2]. }
    destruct ts as [|[] ts]; try exact Ha. done.
Qed.

(** More fuel does not change a result that did not run out of it. *)
Lemma parser_agree n :
  (forall m d p ts, n <= m -> parseExpression n d p ts <> Err OutOfFuel ->
     parseExpression m d p ts = parseExpression n d p ts) /\
  (forall m d p l ts, n <= m -> infixLoop n d p l ts <> Err OutOfFuel ->
     infixLoop m d p l ts = infixLoop n d p l ts) /\
  (forall m d ts, n <= m -> parseUnary n d ts <> Err OutOfFuel ->
     parseUnary m d ts = parseUnary n d ts) /\
  (forall m d ts, n <= m -> parsePrimary n d ts <> Err OutOfFuel ->
     parsePrimary m d ts = parsePrimary n d ts) /\
  (forall m d ts, n <= m -> parseArgs n d ts <> Err OutOfFuel ->
     parseArgs m d ts = parseArgs n d ts).
Proof.
  induction n as [|n (IHe & IHi & IHu & IHp & IHa)]; [by repeat split|].
  repeat split; intros [|m]; try (intros; lia).
  - intros d p ts Hm%le_S_n. cbn. case_match; [done|].
    apply bind_agree; [by apply IHu|]. intros [a r] _. by apply IHi.
  - intros d p l ts Hm%le_S_n. cbn. repeat (case_match; simplify_eq; try done).
    apply bind_agree; [by apply IHe|]. intros [a r] _. by apply IHi.
  - intros d ts Hm%le_S_n. cbn. repeat case_match; subst; try (by apply IHp).
    apply bind_agree; [by apply IHu|]. by intros [a r].
  - intros d ts Hm%le_S_n. cbn. destruct ts as [|t ts]; [done|].
    destruct t; try done.
    + destruct ts as [|[] ts]; try done. apply bind_agree; [by apply IHa|]. by intros [a r].
    + apply bind_agree; [by apply IHe|]. by intros [a r].
  - intros d ts Hm%le_S_n. cbn.
    assert (Ha : ('(a, ts) ← parseExpression n d 0 ts;
                  '(l, ts) ← parseArgs n d (skip_comma ts); Ok (a :: l, ts)) <> Err OutOfFuel ->
                 ('(a, ts) ← parseExpression m d 0 ts;
                  '(l, ts) ← parseArgs m d (skip_comma ts); Ok (a :: l, ts)) =
                 ('(a, ts) ← parseExpression n d 0 ts;
                  '(l, ts) ← parseArgs n d (skip_comma ts); Ok (a :: l, ts))).
    { apply bind_agree; [by apply IHe|]. intros [a r] _.
      apply bind_agree; [by apply IHa|]. by intros [l r2]. }
    destruct ts as [|[] ts]; try exact Ha. done.
Qed.

(** ** Soundness: a parsed prefix is derived by the grammar *)

(** The limit of the source. *)
Lemma parseExpression_S n d p ts :
  parseExpression (S n) d p ts =
    if 50 <=? d then Err TooDeep else '(lhs, ts) ← parseUnary n (S d) ts; infixLoop n (S d) p lhs ts.
Proof. reflexivity. Qed.

#[local] Hint Constructors derives unary arguments path_tokens : core.

Lemma stops_op i op j ts : op ∈ operators j -> j < i -> stops i (TOp op :: ts).
Proof. intros Hj Hlt op' ts' j' [= -> ->] Hj'. by rewrite (level_unique op' j' j). Qed.

Lemma stops_op_none i op ts : INFIX_POWER op = None -> stops i (TOp op :: ts).
Proof.
  intros Hq op' ts' j [= -> ->] Hj. assert (INFIX_POWER op' = Some (10 * S j)) by (apply power_level; eauto). congruence.
Qed.

Lemma stops_other i t ts : (forall op, t <> TOp op) -> stops i (t :: ts).
Proof. intros Ht op ts' j [= -> ->]. by destruct (Ht op). Qed.

Lemma stops_nil i : stops i [].
Proof. by intros op ts' j ?. Qed.

Lemma stops_mono i i' ts : i <= i' -> stops i ts -> stops i' ts.
Proof. intros Hle H op ts' j E Hj. specialize (H op ts' j E Hj). lia. Qed.

Lemma stops_all ts : stops 7 ts.
Proof. intros op ts' j _ Hj%operators_below. lia. Qed.

#[local] Hint Resolve stops_op stops_op_none stops_nil : core.

Lemma derives_level strict i k ts e : derives strict i k ts e -> i <= 6.
Proof. induction 1; lia. Qed.

(** A sentence of a tighter level is one of this level. *)
Lemma derives_down strict i j k ts e : i <= j -> derives strict j k ts e -> derives strict i k ts e.
Proof.
  intros Hle H. pose proof (derives_level _ _ _ _ _ H). remember (j - i) as m eqn:Hm. revert i Hle Hm.
  induction m as [|m IH]; intros i Hle Hm; [by replace i with j by lia|].
  apply d_next; [lia|]. apply IH; lia.
Qed.

Lemma u_prefix strict op k ts e : is_prefix_op op = true -> unary strict k ts e -> unary strict k (TOp op :: ts) (EUnary op e).
Proof. intros [->| ->]%prefix_level; auto. Qed.

Lemma parse_path_sound ts p r :
  parse_path ts = Ok (p, r) -> exists pre, ts = pre ++ r /\ path_tokens pre p.
Proof.
  revert p. induction ts as [ts IH] using list_length_ind. intros p Hp.
  destruct ts as [|[] [|[] ts]]; cbn in Hp; simplify_eq; try (by exists []; auto).
  unbind Hp as [p' r'] Hr. simplify_eq. apply IH in Hr as (pre & -> & ?); [|cbn; lia].
  exists (TDot :: TIdent id :: pre). auto.
Qed.

Lemma expect_rparen_sound ts r : expect_rparen ts = Ok r -> ts = TRParen :: r.
Proof. destruct ts as [|[] ts]; cbn; congruence. Qed.

Lemma arguments_nil strict k ts : arguments strict k ts [] -> ts = [] /\ k = 0.
Proof. by inversion 1. Qed.

(** What a call reads is a sentence of its level, nested as the limit allows. *)
Lemma parser_sound n :
  (forall d i ts e r, parseExpression n d (10 * i) ts = Ok (e, r) -> i <= 6 ->
     exists pre k, ts = pre ++ r /\ derives false i k pre e /\ stops i r /\ S d + k <= 50) /\
  (forall d i i' k0 pre0 l ts e r, infixLoop n d (10 * i) l ts = Ok (e, r) -> d + k0 <= 50 ->
     i <= i' -> derives false i' k0 pre0 l -> stops (S i') ts ->
     exists pre k, ts = pre ++ r /\ derives false i k (pre0 ++ pre) e /\ stops i r /\ d + k <= 50) /\
  (forall d ts e r, parseUnary n d ts = Ok (e, r) -> d <= 50 ->
     exists pre k, ts = pre ++ r /\ unary false k pre e /\ d + k <= 50) /\
  (forall d ts e r, parsePrimary n d ts = Ok (e, r) -> d <= 50 ->
     exists pre k, ts = pre ++ r /\ unary false k pre e /\ d + k <= 50) /\
  (forall d ts l r, parseArgs n d ts = Ok (l, r) -> d <= 50 ->
     exists pre k, ts = pre ++ r /\ arguments false k pre l /\ d + k <= 50).
Proof.
  induction n as [|n (IHe & IHi & IHu & IHp & IHa)]; [by repeat split; intros|].
  split; [|split; [|split; [|split]]].
  - intros d i ts e r Hp Hi. rewrite parseExpression_S in Hp. destruct (Nat.leb_spec 50 d) as [|Hd]; [done|].
    unbind Hp as [a r1] Hu. apply IHu in Hu as (pre & k & -> & Hu & Hk); [|done].
    apply (IHi _ i 6 k pre) in Hp as (pre' & k' & -> & Hd' & Hs & Hk'); [|done|done|by apply d_unary|apply stops_all].
    exists (pre ++ pre'), k'. by rewrite <- app_assoc.
  - intros d i i' k0 pre0 l ts e r Hp Hk0 Hi Hl Hnext. cbn -[Nat.mul] in Hp.
    assert (Hend : @Ok expr_error _ (l, ts) = Ok (e, r) -> stops i ts ->
      exists pre k, ts = pre ++ r /\ derives false i k (pre0 ++ pre) e /\ stops i r /\ d + k <= 50).
    { intros [= <- <-] Hs. exists [], k0. rewrite app_nil_r. split_and!; try done. by apply (derives_down _ i i'). }
    destruct ts as [|t ts']; [by apply Hend|].
    destruct t; try (by apply Hend; [done | by apply stops_other]).
    destruct (INFIX_POWER op) as [q|] eqn:Hq; [|by apply Hend; auto].
    apply power_level in Hq as (j & Hj & ->).
    destruct (Nat.leb_spec (10 * S j) (10 * i)) as [Hle|Hlt]; [apply Hend; [done|eapply stops_op; [done|lia]]|].
    unbind Hp as [rhs r1] He. pose proof (operators_below _ _ Hj). specialize (Hnext op ts' j eq_refl Hj).
    apply IHe in He as (pre1 & k1 & -> & Hr & Hs & Hk1); [|lia].
    apply (IHi _ i j (Nat.max k0 (S k1)) (pre0 ++ TOp op :: pre1)) in Hp as (pre & k & -> & Hd & Hs' & Hk);
      [|lia|lia|apply d_op; [done|by apply (derives_down _ j i'); [lia|]|done]|done].
    exists (TOp op :: pre1 ++ pre), k. cbn. by rewrite <- !app_assoc in *.
  - intros d ts e r Hp Hd. cbn in Hp. repeat (case_match; try (by eapply IHp)).
    subst. unbind Hp as [a r1] Hu. simplify_eq. apply IHu in Hu as (pre & k & -> & Hu & Hk); [|done].
    exists (TOp op :: pre), k. split_and!; [done|by apply u_prefix|done].
  - intros d ts e r Hp Hd. cbn in Hp. destruct ts as [|t ts]; [done|].
    assert (Hf : forall f ts, ('(p, r) ← parse_path ts; Ok (EField (f :: p), r)) = Ok (e, r) ->
                 exists pre k, TIdent f :: ts = pre ++ r /\ unary false k pre e /\ d + k <= 50).
    { intros f ts' Hf. unbind Hf as [p r1] Hr. simplify_eq.
      apply parse_path_sound in Hr as (pre & -> & Hpt). exists (TIdent f :: pre), 0. split_and!; [done|auto|lia]. }
    destruct t; simplify_eq; try done; try (by eexists [_], 0; split_and!; [done | auto | lia]).
    + destruct ts as [|[] ts]; try (by apply Hf in Hp).
      unbind Hp as [l r1] Ha. unbind Hp as r2 Hr. simplify_eq.
      apply IHa in Ha as (pre & k & -> & Ha & Hk); [|done]. apply expect_rparen_sound in Hr as ->.
      exists (TIdent id :: TLParen :: pre ++ [TRParen]), k. cbn. rewrite <- app_assoc. auto.
    + unbind Hp as [l r1] He. unbind Hp as r2 Hr. simplify_eq.
      apply (IHe d 0) in He as (pre & k & -> & He & _ & Hk); [|lia]. apply expect_rparen_sound in Hr as ->.
      exists (TLParen :: pre ++ [TRParen]), (S k). cbn. rewrite <- app_assoc. split_and!; [done|auto|lia].
  - intros d ts l r Hp Hd. cbn in Hp.
    assert (Ha : ('(a, ts) ← parseExpression n d 0 ts;
                  '(l, ts) ← parseArgs n d (skip_comma ts); Ok (a :: l, ts)) = Ok (l, r) ->
                 exists pre k, ts = pre ++ r /\ arguments false k pre l /\ d + k <= 50).
    { intros Ha. unbind Ha as [a r1] He. unbind Ha as [l1 r2] Hl. simplify_eq.
      apply (IHe d 0) in He as (pre1 & k1 & -> & He & _ & Hk1); [|lia].
      apply IHa in Hl as (pre2 & k2 & E & Ha & Hk2); [|done].
      assert (r1 = pre2 ++ r \/ r1 = TComma :: pre2 ++ r) as [->| ->].
      { destruct r1 as [|[] r1]; cbn in E; subst; auto. }
      - exists (pre1 ++ pre2), (Nat.max (S k1) k2). rewrite <- app_assoc. split_and!; [done|auto|lia].
      - destruct l1 as [|e' l1].
        + apply arguments_nil in Ha as [-> ->]. exists (pre1 ++ [TComma]), (S k1). rewrite <- app_assoc. split_and!; [done|auto|lia].
        + exists (pre1 ++ TComma :: pre2), (Nat.max (S k1) k2). rewrite <- app_assoc. split_and!; [done|auto|lia]. }
    destruct ts as [|[] ts]; try (by apply Ha in Hp). simplify_eq. exists [], 0. split_and!; [done|auto|lia].
Qed.

(** ** Completeness: what the grammar derives is parsed to its tree *)

(** With enough fuel the run gives [x] if [fits], and stops at the nesting
    limit otherwise. *)
Definition outcome {A} (fits : bool) (run : nat -> result expr_error A) (x : A) : Prop :=
  exists n0, forall n, n0 <= n -> run n = if fits then Ok x else Err TooDeep.

Lemma outcome_S {A} b (run : nat -> result expr_error A) x :
  outcome b (fun n => run (S n)) x -> outcome b run x.
Proof. intros [n0 H]. exists (S n0). intros [|n] Hn; [lia|]. apply H. lia. Qed.

Lemma outcome_ret {A} (run : nat -> result expr_error A) x :
  (forall n, run n = Ok x) -> outcome true run x.
Proof. intros H. exists 0. auto. Qed.

Lemma outcome_bind {A B} b1 b2 (run : nat -> result expr_error A)
    (f : nat -> A -> result expr_error B) x y :
  outcome b1 run x -> outcome b2 (fun n => f n x) y -> outcome (b1 && b2) (fun n => run n ≫= f n) y.
Proof.
  intros [n1 H1] [n2 H2]. exists (n1 + n2). intros n Hn. rewrite H1 by lia.
  destruct b1; cbn; [apply H2; lia | done].
Qed.

(** [d] calls are under way, and [k] more nest below. *)
Definition fits (d k : nat) : bool := d + k <=? 50.
#[global] Arguments fits : simpl never.

Lemma fits_max d k1 k2 : fits d (Nat.max k1 k2) = fits d k1 && fits d k2.
Proof. unfold fits. apply eq_true_iff_eq. rewrite andb_true_iff, !Nat.leb_le. lia. Qed.

Lemma fits_S d k : fits d (S k) = fits (S d) k.
Proof. unfold fits. f_equal. lia. Qed.

Lemma fits_0 d : d <= 50 -> fits d 0 = true.
Proof. intros H. apply Nat.leb_le. lia. Qed.

(** Tokens that can follow an expression. *)
Definition follows (ts : list token) : Prop :=
  match ts with
  | [] | TOp _ :: _ | TRParen :: _ | TComma :: _ => True
  | _ => False
  end.

Lemma derives_head strict :
  (forall i k ts e, derives strict i k ts e -> exists t ts', ts = t :: ts' /\ t <> TRParen) /\
  (forall k ts e, unary strict k ts e -> exists t ts', ts = t :: ts' /\ t <> TRParen) /\
  (forall k ts l, arguments strict k ts l -> True).
Proof.
  apply grammar_ind; try done; intros; destruct_and?; try (by eexists _, _).
  match goal with H : exists _ _, ts1 = _ /\ _ |- _ => destruct H as (t & ts' & -> & Ht) end.
  by eexists _, _.
Qed.

Lemma parse_path_complete ts p rest :
  path_tokens ts p -> follows rest -> parse_path (ts ++ rest) = Ok (p, rest).
Proof.
  intros Hp Hf. induction Hp as [|f ts p _ IH]; cbn; [by destruct rest as [|[] ?]|].
  by rewrite IH.
Qed.

Lemma parseUnary_primary n d t ts :
  (forall op, t <> TOp op) -> parseUnary (S n) d (t :: ts) = parsePrimary n d (t :: ts).
Proof. intros H. destruct t; try done. by destruct (H op). Qed.

(** A unary expression that is a primary is read by [parsePrimary]. *)
Lemma outcome_primary b d t ts x :
  (forall op, t <> TOp op) ->
  outcome b (fun n => parsePrimary n d (t :: ts)) x ->
  outcome b (fun n => parseUnary n d (t :: ts)) x.
Proof.
  intros Ht [n0 H]. exists (S n0). intros [|n] Hn; [lia|].
  rewrite parseUnary_primary by done. apply H. lia.
Qed.

(** The first operand of a sentence is read, and the loop goes on to its end. *)
Definition chained (i k : nat) (ts : list token) (e : ast) : Prop :=
  forall d i0 rest, d <= 50 -> i0 <= i -> follows rest -> stops (S i) rest ->
  exists u mid b0 b1, b0 && b1 = fits d k /\
    outcome b0 (fun n => parseUnary n d (ts ++ rest)) (u, mid) /\
    (forall b x, outcome b (fun n => infixLoop n d (10 * i0) e rest) x ->
                 outcome (b1 && b) (fun n => infixLoop n d (10 * i0) u mid) x).

(** From there to the whole call of [parseExpression]. *)
Lemma chained_outcome i k ts e d rest :
  chained i k ts e -> follows rest -> stops i rest ->
  outcome (fits (S d) k) (fun n => parseExpression n d (10 * i) (ts ++ rest)) (e, rest).
Proof.
  intros Hc Hf Hs. apply outcome_S. destruct (Nat.leb_spec 50 d) as [Hd|Hd].
  { exists 0. intros n _. rewrite parseExpression_S. unfold fits.
    by rewrite (proj2 (Nat.leb_le 50 d)), (proj2 (Nat.leb_gt _ 50)) by lia. }
  assert (Heq : forall n, parseExpression (S n) d (10 * i) (ts ++ rest) =
    '(lhs, ts) ← parseUnary n (S d) (ts ++ rest); infixLoop n (S d) (10 * i) lhs ts).
  { intros n. rewrite parseExpression_S. by rewrite (proj2 (Nat.leb_gt 50 d)) by lia. }
  enough (Hrun : outcome (fits (S d) k) (fun n => '(lhs, ts) ← parseUnary n (S d) (ts ++ rest);
    infixLoop n (S d) (10 * i) lhs ts) (e, rest)).
  { destruct Hrun as [n0 Hn0]. exists n0. intros n Hn. rewrite Heq. by apply Hn0. }
  destruct (Hc (S d) i rest) as (u & mid & b0 & b1 & <- & Hu & Hl); [done|done|done|by apply (stops_mono i); [lia|]|].
  apply (outcome_bind b0 b1 (fun n => parseUnary n (S d) (ts ++ rest)) _ (u, mid)); [exact Hu|].
  rewrite <- (andb_true_r b1). apply Hl, outcome_S, outcome_ret. intros n. cbn -[Nat.mul].
  destruct rest as [|[] rest]; try done. destruct (INFIX_POWER op) as [q|] eqn:Hq; [|done].
  apply power_level in Hq as (j & Hj & ->). specialize (Hs _ _ _ eq_refl Hj). by rewrite (proj2 (Nat.leb_le _ _)) by lia.
Qed.

Lemma chained_op i k1 k2 op ts1 ts2 l r :
  op ∈ operators i -> chained i k1 ts1 l -> chained (S i) k2 ts2 r ->
  chained i (Nat.max k1 (S k2)) (ts1 ++ TOp op :: ts2) (EBinary op l r).
Proof.
  intros Hop Hl Hr d i0 rest Hd Hi Hf Hs.
  destruct (Hl d i0 (TOp op :: ts2 ++ rest)) as (u & mid & b0 & b1 & Hb & Hu & Hloop); [done|done|done|by apply (stops_op _ _ i); [|lia]|].
  exists u, mid, b0, (b1 && fits (S d) k2). rewrite andb_assoc, Hb, fits_max, fits_S, <- app_assoc. split_and!; [done|done|].
  intros b x Hx. rewrite <- andb_assoc. apply Hloop, outcome_S. cbn -[Nat.mul].
  rewrite (proj2 (power_level op (10 * S i))) by eauto. rewrite (proj2 (Nat.leb_gt (10 * S i) (10 * i0))) by lia.
  apply (outcome_bind _ _ (fun n => parseExpression n d (10 * S i) (ts2 ++ rest)) _ (r, rest)); [|exact Hx].
  by apply chained_outcome.
Qed.

(** An argument, and the rest of the list after [next]. *)
Lemma argument_outcome k k' ts e l d next r :
  chained 0 k ts e -> (exists t ts', ts = t :: ts' /\ t <> TRParen) -> follows next -> (forall op, head next <> Some (TOp op)) ->
  outcome (fits d k') (fun n => parseArgs n d (skip_comma next)) (l, r) ->
  outcome (fits d (Nat.max (S k) k')) (fun n => parseArgs n d (ts ++ next)) (e :: l, r).
Proof.
  intros Hc (t & ts' & -> & Ht) Hf Hop Hl. apply outcome_S. cbn [app].
  assert (Hrun : outcome (fits d (Nat.max (S k) k')) (fun n =>
      '(a, ts) ← parseExpression n d 0 ((t :: ts') ++ next); '(l, ts) ← parseArgs n d (skip_comma ts); Ok (a :: l, ts)) (e :: l, r)).
  { rewrite fits_max, fits_S. eapply (outcome_bind _ _ (fun n => parseExpression n d 0 ((t :: ts') ++ next))).
    - apply (chained_outcome 0); [done|done|]. destruct next as [|t0 next]; [apply stops_nil|].
      apply stops_other. intros op ->. by apply (Hop op).
    - cbn. rewrite <- (andb_true_r (fits d k')). eapply (outcome_bind _ _ (fun n => parseArgs n d (skip_comma next))); [exact Hl|].
      by apply outcome_ret. }
  by destruct t.
Qed.

Lemma outcome_leaf {A} d k (run : nat -> result expr_error A) x :
  d <= 50 -> k = 0 -> outcome true run x -> outcome (fits d k) run x.
Proof. intros Hd -> H. by rewrite fits_0. Qed.

Lemma outcome_then {A B} b (run : nat -> result expr_error A) (f : nat -> A -> result expr_error B) x y :
  outcome b run x -> (forall n, f n x = Ok y) -> outcome b (fun n => run n ≫= f n) y.
Proof. intros H Hf. rewrite <- (andb_true_r b). eapply outcome_bind; [exact H|by apply outcome_ret]. Qed.

Lemma parser_complete :
  (forall i k ts e, derives true i k ts e -> chained i k ts e) /\
  (forall k ts e, unary true k ts e -> forall d rest, d <= 50 -> follows rest ->
     outcome (fits d k) (fun n => parseUnary n d (ts ++ rest)) (e, rest)) /\
  (forall k ts l, arguments true k ts l -> forall d rest, d <= 50 ->
     outcome (fits d k) (fun n => parseArgs n d (ts ++ TRParen :: rest)) (l, TRParen :: rest)).
Proof.
  apply grammar_ind.
  - (* unary *) intros k ts e _ IHu d i0 rest Hd Hi Hf Hs. exists e, rest, (fits d k), true. rewrite andb_true_r. auto.
  - (* next level *) intros i k ts e _ _ IH d i0 rest Hd Hi Hf Hs. apply IH; [done|lia|done|]. by apply (stops_mono (S i)); [lia|].
  - (* operator *) intros. by apply chained_op.
  - intros k ts e _ IH d rest Hd Hf. apply outcome_S. cbn. eapply outcome_then; [by apply IH|done].
  - intros k ts e _ IH d rest Hd Hf. apply outcome_S. cbn. eapply outcome_then; [by apply IH|done].
  - intros r n d rest Hd _. apply outcome_primary, outcome_leaf, outcome_S; [done..|]. by apply outcome_ret.
  - intros r n d rest Hd _. apply outcome_primary, outcome_leaf, outcome_S; [done..|]. by apply outcome_ret.
  - intros b d rest Hd _. apply outcome_primary, outcome_leaf, outcome_S; [done..|]. by apply outcome_ret.
  - intros d rest Hd _. apply outcome_primary, outcome_leaf, outcome_S; [done..|]. by apply outcome_ret.
  - (* parentheses *) intros k ts e _ IH d rest Hd _. cbn. rewrite <- app_assoc. cbn.
    apply outcome_primary; [done|]. apply outcome_S. cbn. rewrite fits_S.
    eapply (outcome_then _ (fun n => parseExpression n d 0 (ts ++ TRParen :: rest)));
      [by apply (chained_outcome 0); [exact IH | done | apply stops_other] | done].
  - (* field path *) intros f ts p Hp d rest Hd Hf. cbn.
    apply outcome_primary, outcome_leaf, outcome_S, outcome_ret; [done..|]. intros n. cbn.
    rewrite (parse_path_complete ts p rest Hp Hf).
    destruct Hp; cbn; [|done]. by destruct rest as [|[] ?].
  - (* call *) intros k f ts l _ IH d rest Hd _. cbn. rewrite <- app_assoc. cbn.
    apply outcome_primary; [done|]. apply outcome_S. cbn.
    eapply (outcome_then _ (fun n => parseArgs n d (ts ++ TRParen :: rest))); [by apply IH|done].
  - (* no argument *) intros d rest Hd. apply outcome_leaf, outcome_S, outcome_ret; done.
  - (* one argument *) intros k ts e Hd IH d rest Hle. rewrite <- (Nat.max_0_r (S k)).
    apply argument_outcome; [exact IH|exact (proj1 (derives_head true) _ _ _ _ Hd)|done|done|].
    apply outcome_leaf, outcome_S, outcome_ret; done.
  - (* comma *) intros k1 k2 ts1 ts2 e e' l Hd IH1 _ IH2 d rest Hle. rewrite <- app_assoc.
    apply argument_outcome; [exact IH1|exact (proj1 (derives_head true) _ _ _ _ Hd)|done|done|by apply IH2].
  - done.
  - done.
Qed.

(** ** What reaches the evaluator *)

(** The identifiers of a tree: field path components and function names. *)
Fixpoint ast_names (e : ast) : list string :=
  match e with
  | ELit _ => []
  | EField p => p
  | EUnary _ e => ast_names e
  | EBinary _ l r => ast_names l ++ ast_names r
  | ECall f l => f :: flat_map ast_names l
  end.

Definition token_names (ts : list token) : list string :=
  flat_map (fun t => match t with TIdent id => [id] | _ => [] end) ts.

Lemma token_names_app ts1 ts2 : token_names (ts1 ++ ts2) = token_names ts1 ++ token_names ts2.
Proof. apply flat_map_app. Qed.

Lemma path_tokens_names ts p : path_tokens ts p -> token_names ts = p.
Proof. induction 1; cbn; [done | by f_equal]. Qed.

(** The names of a derived tree are identifiers of its tokens, in order. *)
Lemma derives_names strict :
  (forall i k ts e, derives strict i k ts e -> ast_names e = token_names ts) /\
  (forall k ts e, unary strict k ts e -> ast_names e = token_names ts) /\
  (forall k ts l, arguments strict k ts l -> flat_map ast_names l = token_names ts).
Proof.
  apply grammar_ind; cbn; intros; subst;
    rewrite ?token_names_app; cbn; fold (token_names ts2) || fold (token_names ts) || idtac;
    rewrite ?app_nil_r; try congruence.
  f_equal. symmetry. by apply path_tokens_names.
Qed.

Lemma token_names_allowed ts :
  Forall token_allowed ts -> Forall (fun id => id ∉ BLOCKED_IDENTS) (token_names ts).
Proof.
  induction 1 as [|t ts Ht _ IH]; cbn; [constructor|].
  apply Forall_app. split; [|done]. destruct t; try constructor; [exact Ht | constructor].
Qed.

Lemma parse_tokens_inv ts e :
  parse_tokens ts = Ok e -> parseExpression (parse_fuel ts) 0 0 ts = Ok (e, []).
Proof.
  unfold parse_tokens. intros H. unbind H as [e' r] Hp. destruct r; by simplify_eq.
Qed.

Lemma parse_tokens_derives ts e : parse_tokens ts = Ok e -> exists k, derives false 0 k ts e /\ k < 50.
Proof.
  intros H%parse_tokens_inv. apply (proj1 (parser_sound _) 0 0) in H as (pre & k & -> & Hd & _ & Hk); [|lia].
  exists k. rewrite app_nil_r. split; [done|lia].
Qed.

Lemma parse_tokens_fuel ts : parse_tokens ts <> Err OutOfFuel.
Proof.
  unfold parse_tokens. apply bind_not_err; [|by intros [e [|]]].
  apply (proj1 (parser_fuel _)). unfold parse_fuel. lia.
Qed.

Lemma parse_expr_fuel src : parse_expr src <> Err OutOfFuel.
Proof.
  apply bind_not_err; [apply tokenize_fuel|]. intros ts _. apply parse_tokens_fuel.
Qed.

(** ** Properties *)

(** C30: soundness of the Pratt parser. A token list the parser accepts is a
    sentence of the grammar of the header comment, with its levels of precedence
    and its left associativity (commas between arguments optional); the tree is
    one that the grammar gives it, and expressions nest in it less than 50 deep. *)
Theorem pratt_sound ts e : parse_tokens ts = Ok e -> exists k, derives false 0 k ts e /\ k < 50.
Proof. apply parse_tokens_derives. Qed.

(** C28: completeness. A sentence of the grammar of the header comment is parsed
    to exactly its tree when right operands, parentheses and arguments nest in
    it less than 50 deep, and is refused as too deep otherwise; the grammar is
    therefore unambiguous up to that depth. *)
Theorem pratt_complete ts e k :
  derives true 0 k ts e -> parse_tokens ts = if k <? 50 then Ok e else Err TooDeep.
Proof.
  intros Hd. unfold parse_tokens.
  destruct (chained_outcome 0 k ts e 0 []) as [n0 H]; [by apply parser_complete|done|apply stops_nil|].
  rewrite app_nil_r in H. cbn [Nat.mul] in H.
  assert (HS : parseExpression (parse_fuel ts + n0) 0 0 ts = parseExpression (parse_fuel ts) 0 0 ts).
  { apply (proj1 (parser_agree _)); [lia|]. apply (proj1 (parser_fuel _)). unfold parse_fuel. lia. }
  rewrite <- HS, H by lia. change (fits 1 k) with (k <? 50). by destruct (k <? 50).
Qed.

(** Security of the front end. No identifier on the block list
    (globalThis, constructor, __proto__, ...) is a field name or a function
    name of a tree the evaluator sees, whatever the source text. *)
Theorem parsed_names_allowed src e :
  parse_expr src = Ok e -> Forall (fun id => id ∉ BLOCKED_IDENTS) (ast_names e).
Proof.
  intros H. unbind H as ts Ht. apply parse_tokens_derives in H as (k & H & _).
  rewrite (proj1 (derives_names _) _ _ _ _ H).
  by apply token_names_allowed, (tokenize_allowed src).
Qed.

Lemma pratt_sound_witness :
  exists e, parse_tokens [TIdent "f"; TLParen; TNull; TNull; TRParen] = Ok e /\
            exists k, derives false 0 k [TIdent "f"; TLParen; TNull; TNull; TRParen] e /\ k < 50.
Proof.
  exists (ECall "f" [ELit VNull; ELit VNull]). split; [vm_compute; reflexivity|].
  apply pratt_sound. vm_compute. reflexivity.
Defined.

(** [null || null - null - null * null] *)
Lemma pratt_complete_witness :
  let ts := [TNull; TOp "||"; TNull; TOp "-"; TNull; TOp "-"; TNull; TOp "*"; TNull] in
  let n := ELit VNull in
  let e := EBinary "||" n (EBinary "-" (EBinary "-" n n) (EBinary "*" n n)) in
  derives true 0 3 ts e /\ parse_tokens ts = if 3 <? 50 then Ok e else Err TooDeep.
Proof.
  cbv zeta. set (n := ELit VNull).
  assert (N : forall i, i <= 6 -> derives true i 0 [TNull] n) by (intros i Hi; apply (derives_down true i 6); [done|apply d_unary, u_null]).
  assert (H : derives true 0 3 [TNull; TOp "||"; TNull; TOp "-"; TNull; TOp "-"; TNull; TOp "*"; TNull]
                (EBinary "||" n (EBinary "-" (EBinary "-" n n) (EBinary "*" n n)))).
  { apply (d_op true 0 0 2 "||" [TNull]); [by left|by apply N; lia|].
    apply (derives_down true 1 4); [lia|].
    apply (d_op true 4 1 1 "-" [TNull; TOp "-"; TNull] [TNull; TOp "*"; TNull]); [by right; left| |].
    - apply (d_op true 4 0 0 "-" [TNull] [TNull]); [by right; left|by apply N; lia..].
    - apply (d_op true 5 0 0 "*" [TNull] [TNull]); [by left|by apply N; lia..]. }
  split; [exact H|]. apply (pratt_complete _ _ 3). exact H.
Defined.

Lemma parsed_names_allowed_witness :
  exists e, parse_expr "lookup(a.b, c) > 1" = Ok e /\
            Forall (fun id => id ∉ BLOCKED_IDENTS) (ast_names e).
Proof.
  eexists. split; [vm_compute; reflexivity|].
  apply (parsed_names_allowed "lookup(a.b, c) > 1"). vm_compute. reflexivity.
Defined.
