(* ===== verification/ExprEval.v ===== *)
(** * Pipeline expressions: the evaluator

    [services/pipeline/src/services/expression-evaluator.ts]: [evaluate],
    [evaluateBoolean], [evalNode] and the built-in functions. *)

From S2P Require Import Prelude JsString JsNumber JsValue JsHost ExprLexer ExprParser.

Section Evaluator.
Context {host : Host}.

(** Note that NaN counts as true. *)
Definition isTruthy (v : value) : bool :=
  match v with
  | VUndef | VNull | VBool false => false
  | VNum n => negb (num_eqb n (num_of_Z 0))
  | VStr s => negb (String.eqb s EmptyString)
  | _ => true
  end.

(** One step of [resolveField]: a property of an object or an array. *)
Definition get_value (v : value) (key : string) : value :=
  match v with
  | VObj _ o => get key o
  | VArr _ l => arr_get key l
  | _ => VUndef
  end.

Definition resolveField (path : list string) (record : obj) : value :=
  match path with
  | [] => VObj 0%N record
  | k :: path => fold_left get_value path (get k record)
  end.

Definition toNum (v : value) (op : string) : result expr_error number :=
  match v with
  | VNum n => Ok n
  | VStr s => let n := num_of_string s in
              if is_finite n then Ok n else Err (NonNumeric op v)
  | _ => Err (NonNumeric op v)
  end.

(** [String(v)], which may throw a [TypeError]. *)
Definition toStr (v : value) : result expr_error string := or_throw JsTypeError (to_string v).

Definition is_str (v : value) : bool := match v with VStr _ => true | _ => false end.

Definition compare_op (f : number -> number -> bool) (op : string) (l r : value)
    : result expr_error value :=
  a ← toNum l op; b ← toNum r op; Ok (VBool (f a b)).

Definition arith_op (f : number -> number -> number) (op : string) (l r : value)
    : result expr_error value :=
  a ← toNum l op; b ← toNum r op; Ok (VNum (f a b)).

Definition is_zero (n : number) : bool := num_eqb n (num_of_Z 0).

(** The operators other than [&&] and [||], on evaluated operands. *)
Definition binary_op (op : string) (l r : value) : result expr_error value :=
  if String.eqb op "==" then Ok (VBool (strict_eq l r))
  else if String.eqb op "!=" then Ok (VBool (negb (strict_eq l r)))
  else if String.eqb op "<" then compare_op num_ltb op l r
  else if String.eqb op "<=" then compare_op num_leb op l r
  else if String.eqb op ">" then compare_op (fun a b => num_ltb b a) op l r
  else if String.eqb op ">=" then compare_op (fun a b => num_leb b a) op l r
  else if String.eqb op "+" then
    if is_str l || is_str r then
      a ← toStr (coalesce l (VStr EmptyString));
      b ← toStr (coalesce r (VStr EmptyString));
      Ok (VStr (a +:+ b))
    else arith_op num_add op l r
  else if String.eqb op "-" then arith_op num_sub op l r
  else if String.eqb op "*" then arith_op num_mul op l r
  else if String.eqb op "/" then
    d ← toNum r op;
    if is_zero d then Err DivisionByZero else n ← toNum l op; Ok (VNum (num_div n d))
  else if String.eqb op "%" then
    d ← toNum r op;
    if is_zero d then Err ModuloByZero else n ← toNum l op; Ok (VNum (num_mod n d))
  else Err (UnknownBinary op).

(** ** Built-in functions *)

Definition arg (i : nat) (args : list value) : value := nth i args VUndef.

Definition on_string (f : string -> string) (v : value) : value :=
  match v with VStr s => VStr (f s) | _ => v end.

Definition on_number (f : number -> number) (v : value) : value :=
  match v with VNum n => VNum (f n) | _ => VNull end.

Definition string_test (f : string -> string -> bool) (args : list value) : value :=
  match arg 0 args, arg 1 args with
  | VStr s, VStr t => VBool (f s t)
  | _, _ => VBool false
  end.

Definition num_nat (n : nat) : value := VNum (num_of_Z (Z.of_nat n)).

Definition round_fn (v digits : value) : value :=
  match v with
  | VNum n =>
      let d := match digits with VNum d => d | _ => num_of_Z 0 end in
      let factor := math_pow (num_of_Z 10) d in
      VNum (num_div (num_round (num_mul n factor)) factor)
  | _ => VNull
  end.

Definition str_or_empty (v : value) : result expr_error string :=
  if is_nullish v then Ok EmptyString else toStr v.

(** [BUILTINS[name]]: an entry of the table, or, through the prototype of the
    table object, a function of [Object.prototype] called without a receiver. *)
Definition builtin (name : string) : option (list value -> result expr_error value) :=
  if String.eqb name "startsWith" then Some (fun a => Ok (string_test startsWith a))
  else if String.eqb name "endsWith" then Some (fun a => Ok (string_test endsWith a))
  else if String.eqb name "includes" then Some (fun a => Ok (string_test includes a))
  else if String.eqb name "toLowerCase" then Some (fun a => Ok (on_string toLowerCase (arg 0 a)))
  else if String.eqb name "toUpperCase" then Some (fun a => Ok (on_string toUpperCase (arg 0 a)))
  else if String.eqb name "trim" then Some (fun a => Ok (on_string trim (arg 0 a)))
  else if String.eqb name "length" then
    Some (fun a => Ok match arg 0 a with
                      | VStr s => num_nat (String.length s)
                      | VArr _ l => num_nat (length l)
                      | _ => VNull
                      end)
  else if String.eqb name "toString" then Some (fun a => VStr <$> str_or_empty (arg 0 a))
  else if String.eqb name "toNumber" then
    Some (fun a => Ok match arg 0 a with
                      | VNum n => VNum n
                      | VStr s => let n := num_of_string s in
                                  if is_finite n then VNum n else VNull
                      | _ => VNull
                      end)
  else if String.eqb name "isNull" then Some (fun a => Ok (VBool (is_nullish (arg 0 a))))
  else if String.eqb name "isNotNull" then Some (fun a => Ok (VBool (negb (is_nullish (arg 0 a)))))
  else if String.eqb name "concat" then
    Some (fun a => ss ← traverse str_or_empty a; Ok (VStr (join EmptyString ss)))
  else if String.eqb name "round" then Some (fun a => Ok (round_fn (arg 0 a) (arg 1 a)))
  else if String.eqb name "floor" then Some (fun a => Ok (on_number num_floor (arg 0 a)))
  else if String.eqb name "ceil" then Some (fun a => Ok (on_number num_ceil (arg 0 a)))
  else if String.eqb name "abs" then Some (fun a => Ok (on_number num_abs (arg 0 a)))
  else if String.eqb name "coalesce" then
    Some (fun a => Ok (default VNull (List.find (fun v => negb (is_nullish v)) a)))
  else if String.eqb name "isPrototypeOf" then
    (* answers false for a primitive before it looks at its receiver *)
    Some (fun a => match arg 0 a with
                   | VArr _ _ | VObj _ _ | VFun _ => Err JsTypeError
                   | _ => Ok (VBool false)
                   end)
  else if mem name object_proto then Some (fun _ => Err JsTypeError)
  else None.

(** ** [evalNode] *)

Definition EVAL_DEPTH : nat := 100.
#[local] Arguments EVAL_DEPTH : simpl never.
#[local] Arguments Nat.ltb : simpl never.

Fixpoint evalNode (record : obj) (depth : nat) (node : ast) {struct node} : result expr_error value :=
  if EVAL_DEPTH <? depth then Err EvalTooDeep
  else
    match node with
    | ELit v => Ok v
    | EField path => Ok (resolveField path record)
    | EUnary op e =>
        v ← evalNode record (S depth) e;
        if String.eqb op "!" then Ok (VBool (negb (isTruthy v)))
        else if String.eqb op "-" then
          match v with VNum n => Ok (VNum (num_neg n)) | _ => Err (NegNonNumber v) end
        else Err (UnknownUnary op)
    | EBinary op l r =>
        if String.eqb op "&&" then
          a ← evalNode record (S depth) l;
          if isTruthy a
          then b ← evalNode record (S depth) r; Ok (VBool (isTruthy b))
          else Ok (VBool false)
        else if String.eqb op "||" then
          a ← evalNode record (S depth) l;
          if isTruthy a then Ok (VBool true)
          else b ← evalNode record (S depth) r; Ok (VBool (isTruthy b))
        else
          a ← evalNode record (S depth) l;
          b ← evalNode record (S depth) r;
          binary_op op a b
    | ECall name args =>
        match builtin name with
        | None => Err (UnknownFunction name)
        | Some fn =>
            vs ← traverse (evalNode record (S depth)) args; fn vs
        end
    end.

Definition MAX_LENGTH : nat := 2000.
#[local] Arguments MAX_LENGTH : simpl never.

Definition evaluate (expression : string) (record : obj) : result expr_error value :=
  if MAX_LENGTH <? String.length expression then Err TooLong
  else ast ← parse_expr expression; evalNode record 0 ast.

Definition evaluateBoolean (expression : string) (record : obj) : result expr_error bool :=
  isTruthy <$> evaluate expression record.

(** ** Lemmas *)

(** The height of a tree: the number of nested [evalNode] calls. *)
Fixpoint height (e : ast) : nat :=
  match e with
  | ELit _ | EField _ => 1
  | EUnary _ e => S (height e)
  | EBinary _ l r => S (height l `max` height r)
  | ECall _ l => S (list_max (map height l))
  end.

(** The record fields a tree reads. *)
Fixpoint roots (e : ast) : list string :=
  match e with
  | ELit _ => []
  | EField p => take 1 p
  | EUnary _ e => roots e
  | EBinary _ l r => roots l ++ roots r
  | ECall _ l => flat_map roots l
  end.

(** No path is empty: what the parser guarantees. *)
Fixpoint paths_nonempty (e : ast) : bool :=
  match e with
  | ELit _ => true
  | EField p => negb (bool_decide (p = []))
  | EUnary _ e => paths_nonempty e
  | EBinary _ l r => paths_nonempty l && paths_nonempty r
  | ECall _ l => forallb paths_nonempty l
  end.

Lemma toNum_depth v op : toNum v op <> Err EvalTooDeep /\ toNum v op <> Err OutOfFuel.
Proof. unfold toNum. by repeat case_match. Qed.

Lemma toStr_depth v : toStr v <> Err EvalTooDeep /\ toStr v <> Err OutOfFuel.
Proof. unfold toStr. by destruct (to_string v). Qed.

(** An error raised by an operator or a built-in is never one of the limits. *)
Definition limit_error (e : expr_error) : Prop := e = EvalTooDeep \/ e = OutOfFuel.

Lemma toNum_limit v op e : limit_error e -> toNum v op <> Err e.
Proof. intros [-> | ->]; apply toNum_depth. Qed.

Lemma toStr_limit v e : limit_error e -> toStr v <> Err e.
Proof. intros [-> | ->]; apply toStr_depth. Qed.

Lemma binary_op_limit op l r e : limit_error e -> binary_op op l r <> Err e.
Proof.
  intros He.
  assert (Hlim : forall e', ~ limit_error e' -> Err (A := value) e' <> Err e)
    by (intros e' H [= ->]; done).
  assert (Hnot : ~ limit_error DivisionByZero /\ ~ limit_error ModuloByZero /\
                 ~ limit_error (UnknownBinary op)) by (unfold limit_error; naive_solver).
  destruct Hnot as (H1 & H2 & H3).
  unfold binary_op, compare_op, arith_op.
  repeat (case_match; try done);
    repeat (first [ apply toNum_limit; done | apply toStr_limit; done
                  | apply bind_not_err; [|intros; repeat case_match] | apply Hlim; done | done ]).
Qed.

Lemma traverse_limit {A B} (f : A -> result expr_error B) l e :
  (forall a, a ∈ l -> f a <> Err e) -> traverse f l <> Err e.
Proof.
  induction l as [|a l IH]; cbn; [done|]. intros H.
  apply bind_not_err; [apply H; left|]. intros b _.
  apply bind_not_err; [apply IH; intros; apply H; by right | done].
Qed.

Lemma str_or_empty_limit v e : limit_error e -> str_or_empty v <> Err e.
Proof. intros He. unfold str_or_empty. case_match; [done | by apply toStr_limit]. Qed.

Lemma builtin_limit name fn args e :
  builtin name = Some fn -> limit_error e -> fn args <> Err e.
Proof.
  intros Hfn He.
  assert (Hty : Err (A := value) JsTypeError <> Err e)
    by (destruct He as [-> | ->]; done).
  unfold builtin in Hfn. repeat case_match; simplify_eq; try done.
  - pose proof (str_or_empty_limit (arg 0 args) e He) as Hs.
    destruct (str_or_empty _); cbn; congruence.
  - apply bind_not_err; [|done]. apply traverse_limit. intros. by apply str_or_empty_limit.
  - repeat case_match; done.
Qed.

Lemma evalNode_call record d name args :
  evalNode record d (ECall name args) =
  if EVAL_DEPTH <? d then Err EvalTooDeep
  else match builtin name with
       | None => Err (UnknownFunction name)
       | Some fn => vs ← traverse (evalNode record (S d)) args; fn vs
       end.
Proof. done. Qed.

Section AstInd.
Variable P : ast -> Prop.
Hypothesis HLit : forall v, P (ELit v).
Hypothesis HField : forall p, P (EField p).
Hypothesis HUnary : forall op e, P e -> P (EUnary op e).
Hypothesis HBinary : forall op l r, P l -> P r -> P (EBinary op l r).
Hypothesis HCall : forall f l, (forall a, a ∈ l -> P a) -> P (ECall f l).

Lemma ast_nested_ind e : P e.
Proof.
  revert e. fix IH 1. intros [v|p|op e|op l r|f l];
    [apply HLit | apply HField | apply HUnary, IH | apply HBinary; apply IH |].
  apply HCall.
  assert (HF : Forall P l) by (induction l as [|a l IHl]; constructor; [apply IH | exact IHl]).
  by rewrite Forall_forall in HF.
Qed.
End AstInd.

Lemma height_arg a l : a ∈ l -> height a <= list_max (map height l).
Proof.
  intros Ha. pose proof (proj1 (list_max_le (map height l) _) (le_n _)) as H.
  rewrite List.Forall_forall in H. apply H, in_map. by apply list_elem_of_In.
Qed.

(** A tree no higher than what is left of the limit is evaluated without
    reaching it; no tree runs out of fuel. *)
Lemma evalNode_limit e record d :
  (height e + d <= S EVAL_DEPTH -> evalNode record d e <> Err EvalTooDeep) /\
  evalNode record d e <> Err OutOfFuel.
Proof.
  enough (H : forall x, limit_error x ->
    (x = EvalTooDeep -> height e + d <= S EVAL_DEPTH) -> evalNode record d e <> Err x).
  { split; [intros Hh|]; apply H; unfold limit_error; auto; done. }
  intros x Hx. revert d.
  induction e as [v|p|op e IH|op l r IHl IHr|f l IH] using ast_nested_ind; intros d Hh.
  all: assert (Hd : EVAL_DEPTH < d -> Err (A := value) EvalTooDeep <> Err x)
    by (intros Ht [= <-]; specialize (Hh eq_refl); cbn in Hh; lia).
  5: rewrite evalNode_call.
  1-4: cbn.
  all: destruct (Nat.ltb_spec EVAL_DEPTH d); [by apply Hd|]; try done.
  - apply bind_not_err; [apply IH; intros E; specialize (Hh E); cbn in Hh; lia|].
    intros v _. destruct Hx as [-> | ->]; by repeat case_match.
  - assert (Hl : evalNode record (S d) l <> Err x)
      by (apply IHl; intros E; specialize (Hh E); cbn in Hh; lia).
    assert (Hr : evalNode record (S d) r <> Err x)
      by (apply IHr; intros E; specialize (Hh E); cbn in Hh; lia).
    repeat case_match; (apply bind_not_err; [done|]; intros a _); try case_match; try done;
      (apply bind_not_err; [done|]; intros b _); try done.
    by apply binary_op_limit.
  - destruct (builtin f) as [fn|] eqn:Hf; [|by destruct Hx as [-> | ->]].
    apply bind_not_err; [|intros vs _; by eapply builtin_limit].
    apply traverse_limit. intros a Ha. apply IH; [done|].
    intros E. specialize (Hh E). cbn in Hh. apply height_arg in Ha. lia.
Qed.

Lemma parse_paths_nonempty strict :
  (forall i k ts e, derives strict i k ts e -> paths_nonempty e = true) /\
  (forall k ts e, unary strict k ts e -> paths_nonempty e = true) /\
  (forall k ts l, arguments strict k ts l -> forallb paths_nonempty l = true).
Proof.
  apply grammar_ind; cbn; intros; try done; rewrite ?andb_true_iff in *; naive_solver.
Qed.

Lemma traverse_ext {E A B} (f g : A -> result E B) l :
  (forall a, a ∈ l -> f a = g a) -> traverse f l = traverse g l.
Proof.
  induction l as [|a l IH]; cbn; [done|]. intros H.
  rewrite (H a) by left. rewrite IH by (intros; apply H; by right). done.
Qed.

Lemma evalNode_frame r1 r2 e d :
  paths_nonempty e = true -> (forall k, k ∈ roots e -> get k r1 = get k r2) ->
  evalNode r1 d e = evalNode r2 d e.
Proof.
  revert d. induction e as [v|p|op e IH|op l r IHl IHr|f l IH] using ast_nested_ind;
    intros d Hp Hr.
  5: { rewrite !evalNode_call. repeat (case_match; try done). f_equal. apply traverse_ext.
       intros a Ha. cbn in Hp, Hr. apply IH; [done | |].
       - rewrite forallb_elem in Hp. auto.
       - intros k Hk. apply Hr, list_elem_of_In, in_flat_map.
         exists a. by rewrite <- !list_elem_of_In. }
  all: cbn in *; case_match; try done.
  - destruct p as [|k p]; [done|]. cbn. by rewrite Hr by left.
  - by rewrite IH.
  - apply andb_true_iff in Hp as [Hpl Hpr].
    rewrite IHl, IHr by (done || (intros; apply Hr, elem_of_app; auto)). done.
Qed.

(** ** Properties *)

(** Evaluation is total and bounded. [evaluate] returns a value or one of
    the errors of the source for every text and record (the model's fuel never
    runs out), and a tree of height at most 101 never meets the depth limit. *)
Theorem evaluate_total src record :
  evaluate src record <> Err OutOfFuel /\
  forall e, parse_expr src = Ok e -> height e <= 101 -> evaluate src record <> Err EvalTooDeep.
Proof.
  unfold evaluate. split.
  - case_match; [done|]. apply bind_not_err; [apply parse_expr_fuel|].
    intros e _. apply evalNode_limit.
  - intros e He Hh. case_match; [done|]. rewrite He. cbn. apply evalNode_limit.
    change (S EVAL_DEPTH) with 101. lia.
Qed.

(** An expression reads nothing but the record fields it names: two
    records that agree on the first components of its paths give the same
    result, error or value. *)
Theorem evaluate_frame src e r1 r2 :
  parse_expr src = Ok e -> (forall k, k ∈ roots e -> get k r1 = get k r2) ->
  evaluate src r1 = evaluate src r2.
Proof.
  intros He Hr. unfold evaluate. case_match; [done|]. rewrite He. cbn.
  apply evalNode_frame; [|done]. unbind He as ts Ht. apply parse_tokens_derives in He as (k & He & _).
  by apply (proj1 (parse_paths_nonempty false)) in He.
Qed.

(** De Morgan's law holds exactly, errors and short-circuiting included:
    [!(a && b)] and [!a || !b] evaluate alike. *)
Theorem eval_de_morgan record d a b :
  evalNode record d (EUnary "!" (EBinary "&&" a b)) =
  evalNode record d (EBinary "||" (EUnary "!" a) (EUnary "!" b)).
Proof.
  cbn. destruct (EVAL_DEPTH <? d); [done|]. destruct (EVAL_DEPTH <? S d); [done|].
  destruct (evalNode record (S (S d)) a) as [va|]; cbn; [|done].
  destruct (isTruthy va); cbn; [|done].
  destruct (evalNode record (S (S d)) b) as [vb|]; cbn; [|done].
  by destruct (isTruthy vb).
Qed.

(** The depth limit of the header comment (50) does not bound the tree:
    the flat sum of 102 ones parses to a tree of height 102, which then fails
    in the evaluator. *)
Theorem flat_sum_fails record :
  let src := join "+" (replicate 102 "1") in
  (exists e, parse_expr src = Ok e /\ height e = 102) /\
  evaluate src record = Err EvalTooDeep.
Proof.
  split; [eexists; split; vm_compute; reflexivity | vm_compute; reflexivity].
Qed.

(** The function table is looked up through its prototype: a function of
    [Object.prototype] is called instead of being reported unknown, and fails
    with an error that is not an [ExpressionEvaluatorError], or gives a value. *)
Theorem inherited_builtins record :
  evaluate "noSuchFunction(1)" record = Err (UnknownFunction "noSuchFunction") /\
  evaluate "valueOf(1)" record = Err JsTypeError /\
  evaluate "isPrototypeOf(1)" record = Ok (VBool false).
Proof. repeat split; vm_compute; reflexivity. Qed.
End Evaluator.

Lemma evaluate_frame_witness :
  exists e, parse_expr "a.b == 1" = Ok e /\
    @evaluate plain_host "a.b == 1" [("a", VNull); ("c", VNull)] =
    @evaluate plain_host "a.b == 1" [("a", VNull)].
Proof.
  eexists. split; [vm_compute; reflexivity|].
  eapply (@evaluate_frame plain_host); [vm_compute; reflexivity|].
  intros k Hk. vm_compute in Hk. inversion Hk as [|? ? ? Hk']; subst; [reflexivity|].
  inversion Hk'.
Defined.

Example evaluate_ex :
  @evaluate plain_host "price * qty >= 100 && !(status == 'closed')"
    [("price", VNum (num_of_Z 25)); ("qty", VStr "4"); ("status", VStr "open")]
  = Ok (VBool true).
Proof. vm_compute. reflexivity. Qed.
Example evaluate_concat :
  @evaluate plain_host "concat(name, '-', round(1.25, 1))" [("name", VStr "x")]
  = Ok (VStr "x-1.3").
Proof. vm_compute. reflexivity. Qed.
