(* ===== verification/Condition.v ===== *)
(** * Structured conditions of conditional steps

    [services/pipeline/src/services/condition-evaluator.ts].  [matches] runs a
    pattern of the pipeline's author: the regular-expression engine is the
    host's ([regexp_test]); the screening of the pattern is the code's. *)

From S2P Require Import Prelude JsString JsNumber JsValue JsHost.
From Stdlib Require Import Ascii.

Inductive ConditionOperator : Type :=
| eq_op | neq_op | gt_op | gte_op | lt_op | lte_op
| contains_op | not_contains_op | exists_op | not_exists_op | matches_op.

Record Condition : Type := {
  field : string;
  operator : ConditionOperator;
  cond_value : value  (* [undefined] when the condition has no value *)
}.

(** [Object.prototype.hasOwnProperty.call(v, key)] and [v[key]], for a value
    whose [typeof] is ["object"]. *)
Definition own_property (v : value) (key : string) : option value :=
  match v with
  | VObj _ o => own_get key o
  | VArr _ l =>
      match index_key key with
      | Some i => l !! N.to_nat i
      | None => if String.eqb key "length" then Some (VNum (num_of_Z (Z.of_nat (length l))))
                else None
      end
  | _ => None
  end.

Fixpoint walk (parts : list string) (current : value) : option value :=
  match parts with
  | [] => Some current
  | part :: parts =>
      match own_property current part with
      | Some v => walk parts v
      | None => None
      end
  end.

(** [{ present, value }]: [None] is [{ present: false }]. *)
Definition getFieldValue (data : value) (f : string) : option value :=
  match f with
  | EmptyString => None
  | _ => walk (split_char "."%char f) data
  end.

Definition toNumberMaybe (v : value) : option number :=
  match v with
  | VNum n => Some n
  | VStr s => let n := num_of_string s in if is_finite n then Some n else None
  | _ => None
  end.

(** [/([+*])\s*[)]\s*[+*{]/.test(p)] *)
Definition is_quantifier (c : ascii) : bool := (code c =? 43)%N || (code c =? 42)%N.

Definition nested_at (l : list ascii) : bool :=
  match l with
  | q :: l =>
      is_quantifier q &&
      match trim_start l with
      | p :: l' =>
          (code p =? 41)%N &&
          match trim_start l' with
          | r :: _ => is_quantifier r || (code r =? 123)%N
          | [] => false
          end
      | [] => false
      end
  | [] => false
  end.

Fixpoint nested_quantifier (l : list ascii) : bool :=
  nested_at l || match l with [] => false | _ :: l => nested_quantifier l end.

Section Evaluate.
Context {host : Host}.

Definition numeric_test (f : number -> number -> bool) (a b : value) : bool :=
  match toNumberMaybe a, toNumberMaybe b with
  | Some n, Some m => f n m
  | _, _ => false
  end.

Definition loosely_equal (a b : value) : bool :=
  match toNumberMaybe a, toNumberMaybe b with
  | Some n, Some m => num_eqb n m
  | _, _ => strict_eq a b
  end.

Definition contains (a b : value) : bool :=
  match a with
  | VStr s => match b with VStr t => includes s t | _ => false end
  | VArr _ l => existsb (fun x => same_value_zero x b) l
  | _ => false
  end.

Definition matches (a b : value) : bool :=
  match a, b with
  | VStr s, VStr p =>
      if nested_quantifier (explode p) || (256 <? String.length p) then false
      else default false (regexp_test p s)
  | _, _ => false
  end.

Definition evaluateCondition (data : value) (c : Condition) : bool :=
  let found := getFieldValue data (field c) in
  match operator c with
  | exists_op => bool_decide (is_Some found)
  | not_exists_op => negb (bool_decide (is_Some found))
  | op =>
      match found with
      | None => false
      | Some v =>
          let w := cond_value c in
          match op with
          | eq_op => loosely_equal v w
          | neq_op =>
              match toNumberMaybe v, toNumberMaybe w with
              | Some n, Some m => negb (num_eqb n m)
              | _, _ => negb (strict_eq v w)
              end
          | gt_op => numeric_test (fun n m => num_ltb m n) v w
          | gte_op => numeric_test (fun n m => num_leb m n) v w
          | lt_op => numeric_test num_ltb v w
          | lte_op => numeric_test num_leb v w
          | contains_op => contains v w
          | not_contains_op =>
              match v with
              | VStr s => negb match w with VStr t => includes s t | _ => false end
              | VArr _ l => negb (existsb (fun x => same_value_zero x w) l)
              | _ => true
              end
          | matches_op => matches v w
          | exists_op | not_exists_op => false
          end
      end
  end.

Definition with_op (c : Condition) (op : ConditionOperator) : Condition :=
  {| field := field c; operator := op; cond_value := cond_value c |}.

(** ** Properties *)

Lemma walk_app p q v : walk (p ++ q) v = walk p v ≫= walk q.
Proof.
  revert v; induction p as [|k p IH]; intros v; cbn; [done|].
  destruct (own_property v k); [apply IH | done].
Qed.

(** Negated operators. On a field that is present, [neq] and
    [not_contains] are the negations of [eq] and [contains]; on an absent
    field every operator but [not_exists] is false, the negated ones too. *)
Theorem condition_negation data c :
  let ev op := evaluateCondition data (with_op c op) in
  ev not_exists_op = negb (ev exists_op) /\
  (ev exists_op = true ->
     ev neq_op = negb (ev eq_op) /\ ev not_contains_op = negb (ev contains_op)) /\
  (ev exists_op = false ->
     forall op, op <> not_exists_op -> ev op = false).
Proof.
  unfold evaluateCondition, with_op; cbn.
  destruct (getFieldValue data (field c)) as [v|]; cbn.
  - split; [done|]. split; [|done].
    intros _. unfold loosely_equal. split.
    + by destruct (toNumberMaybe v), (toNumberMaybe (cond_value c)).
    + unfold contains. by destruct v.
  - split; [done|]. split; [done|]. intros _ op Hop. by destruct op.
Qed.

(** The ordering operators. On numeric operands (numbers, or strings that
    read as finite numbers) other than NaN exactly one of [lt], [eq], [gt]
    holds, and [lte], [gte] are their unions with [eq]. *)
Theorem condition_trichotomy data c v n m :
  getFieldValue data (field c) = Some v ->
  toNumberMaybe v = Some n -> toNumberMaybe (cond_value c) = Some m ->
  is_nan n = false -> is_nan m = false ->
  let ev op := evaluateCondition data (with_op c op) in
  (exists! op, op ∈ [lt_op; eq_op; gt_op] /\ ev op = true) /\
  ev lte_op = ev lt_op || ev eq_op /\ ev gte_op = ev gt_op || ev eq_op.
Proof.
  intros Hv Hn Hm Hnn Hmn. unfold evaluateCondition, with_op, numeric_test, loosely_equal; cbn.
  rewrite Hv; cbn. rewrite Hn, Hm. rewrite !num_leb_spec, (num_eqb_sym m n). split; [|done].
  unfold num_ltb, num_eqb, SFltb, SFeqb. rewrite (num_compare_swap n m).
  destruct (num_compare_total n m Hnn Hmn) as [cmp ->]. cbn.
  destruct cmp; [exists eq_op | exists lt_op | exists gt_op];
    (split; [split; [by rewrite !elem_of_cons; auto | done] |
             intros op [Hop Hev]; repeat (apply elem_of_cons in Hop as [->|Hop]; [done|]);
             by apply elem_of_nil in Hop]).
Qed.

(** Dot paths. A field name made of two paths joined by a dot reads the
    second inside what the first reads. *)
Theorem field_path_compose data p q :
  p <> EmptyString -> q <> EmptyString ->
  getFieldValue data (p +:+ "." +:+ q) =
  getFieldValue data p ≫= fun v => getFieldValue v q.
Proof.
  intros Hp Hq.
  assert (Hsplit : split_char "."%char (p +:+ "." +:+ q)
                   = split_char "."%char p ++ split_char "."%char q).
  { clear Hp Hq. induction p as [|a p IH]; [done|].
    rewrite append_cons. cbn. rewrite IH.
    destruct (Ascii.eqb a "."); [done|].
    pose proof (split_char_nonempty "."%char p). by destruct (split_char "."%char p). }
  unfold getFieldValue. destruct p as [|a p]; [done|]. destruct q as [|b q]; [done|].
  rewrite append_cons. rewrite <- append_cons, Hsplit, walk_app. done.
Qed.
End Evaluate.

Definition sample_data : value :=
  VObj 0%N [("user", VObj 1%N [("age", VStr "42"); ("tags", VArr 2%N [VStr "a"])])].

Lemma condition_negation_witness :
  let c := {| field := "user.age"; operator := eq_op; cond_value := VNum (num_of_Z 42) |} in
  let ev op := @evaluateCondition plain_host sample_data (with_op c op) in
  ev not_exists_op = negb (ev exists_op) /\ ev neq_op = negb (ev eq_op).
Proof.
  cbv zeta.
  destruct (@condition_negation plain_host sample_data
    {| field := "user.age"; operator := eq_op; cond_value := VNum (num_of_Z 42) |})
    as (H1 & H2 & _).
  split; [exact H1 | apply H2; vm_compute; reflexivity].
Defined.

Lemma condition_trichotomy_witness :
  let c := {| field := "user.age"; operator := eq_op; cond_value := VNum (num_of_Z 40) |} in
  exists! op, op ∈ [lt_op; eq_op; gt_op] /\
              @evaluateCondition plain_host sample_data (with_op c op) = true.
Proof.
  cbv zeta. apply (@condition_trichotomy plain_host sample_data
    {| field := "user.age"; operator := eq_op; cond_value := VNum (num_of_Z 40) |}
    (VStr "42") (num_of_Z 42) (num_of_Z 40)); vm_compute; reflexivity.
Defined.

Lemma field_path_compose_witness :
  getFieldValue sample_data ("user" +:+ "." +:+ "tags.0") =
  getFieldValue sample_data "user" ≫= fun v => getFieldValue v "tags.0".
Proof. apply field_path_compose; discriminate. Defined.

Example condition_ex :
  @evaluateCondition plain_host sample_data
    {| field := "user.tags"; operator := contains_op; cond_value := VStr "a" |} = true.
Proof. vm_compute. reflexivity. Qed.
Example condition_redos :
  nested_quantifier (explode "(a+)+") = true /\ nested_quantifier (explode "(a+)b") = false.
Proof. split; vm_compute; reflexivity. Qed.
