(* ===== verification/Transform.v ===== *)
(** * Transform engine: operations on single records

    [services/pipeline/src/services/transform-engine.ts]: the memory guard,
    filter, map, rename, limit and their streaming forms, type casts, date
    parsing and string operations. *)

From S2P Require Import Prelude JsString JsNumber JsValue JsHost ExprLexer ExprEval.
From Stdlib Require Import Ascii.

(** The [throw] sites.  [ThrownTypeError] is the [TypeError] of [String(v)] on
    an object with its own [toString] property; the others are
    [TransformError]s. *)
Inductive transform_error : Type :=
| EmptyCondition
| FilterError (e : expr_error)
| EmptyMappings
| MapError (field : string) (e : expr_error)
| EmptyFieldMap
| BadCount
| EmptyKeyFields
| EmptyAggregations
| EmptyValueFields
| EmptySortFields
| EmptyCastSpecs
| UnknownTargetType (t : string)
| EmptyDateSpecs
| EmptyStringSpecs
| NoOperations (field : string)
| ThrownTypeError.

(** [DataRecord] *)
Definition record : Type := obj.

(** A generator run to its end: what it yielded, and the error that stopped it. *)
Definition stream (A : Type) : Type := (list A * option transform_error)%type.

Definition yield {A} (x : A) (s : stream A) : stream A := (x :: fst s, snd s).
Definition stop {A} (e : transform_error) : stream A := ([], Some e).
Definition finished {A} : stream A := ([], None).

Definition stream_result {A} (s : stream A) : result transform_error (list A) :=
  match s with
  | (l, None) => Ok l
  | (_, Some e) => Err e
  end.

(** [String(v)] *)
Definition toString (v : value) : result transform_error string :=
  or_throw ThrownTypeError (to_string v).

(** ** The memory guard *)

Record warning : Type := { operation : string; recordCount : Z; threshold : Z }.

(** [MAX_IN_MEMORY_RECORDS], from [process.env["OP_MAX_IN_MEMORY_RECORDS"]]. *)
Definition MAX_IN_MEMORY_RECORDS (env : option string) : Z :=
  match env with
  | Some (String _ _ as s) =>
      match parseInt10 s with
      | Some n => if (0 <? n)%Z then n else 100000
      | None => 100000
      end
  | _ => 100000
  end%Z.

(** The calls of [logger.warn]; [logger] tells whether one was given. *)
Definition warnIfExceedsMemoryThreshold (env : option string) (op : string) (count : Z)
    (logger : bool) : list warning :=
  if (MAX_IN_MEMORY_RECORDS env <? count)%Z && logger
  then [{| operation := op; recordCount := count; threshold := MAX_IN_MEMORY_RECORDS env |}]
  else [].

Section Transform.
Context {host : Host}.

(** ** Filter *)

Definition blank (s : string) : bool := String.eqb (trim s) EmptyString.

Fixpoint filter_records (records : list record) (condition : string)
    : result transform_error (list record) :=
  match records with
  | [] => Ok []
  | r :: records =>
      pass ← map_err FilterError (evaluateBoolean condition r);
      out ← filter_records records condition;
      Ok (if (pass : bool) then r :: out else out)
  end.

Definition filter (records : list record) (condition : string)
    : result transform_error (list record) :=
  if blank condition then Err EmptyCondition else filter_records records condition.

Fixpoint filter_loop (records : list record) (condition : string) : stream record :=
  match records with
  | [] => finished
  | r :: records =>
      match evaluateBoolean condition r with
      | Err e => stop (FilterError e)
      | Ok true => yield r (filter_loop records condition)
      | Ok false => filter_loop records condition
      end
  end.

Definition filterStream (records : list record) (condition : string) : stream record :=
  if blank condition then stop EmptyCondition else filter_loop records condition.

(** ** Map fields

    [mappings] is [Object.entries] of the mapping object.  Every expression
    reads the input record; results go into a copy. *)

Definition map_field (r : record) (out : record) (m : string * string)
    : result transform_error record :=
  v ← map_err (MapError (fst m)) (evaluate (snd m) r); Ok (set (fst m) v out).

Definition map_record (mappings : list (string * string)) (r : record)
    : result transform_error record :=
  foldM (map_field r) r mappings.

Definition mapFields (records : list record) (mappings : list (string * string))
    : result transform_error (list record) :=
  match mappings with
  | [] => Err EmptyMappings
  | _ => traverse (map_record mappings) records
  end.

Fixpoint map_loop (f : record -> result transform_error record) (records : list record)
    : stream record :=
  match records with
  | [] => finished
  | r :: records =>
      match f r with
      | Err e => stop e
      | Ok out => yield out (map_loop f records)
      end
  end.

Definition mapFieldsStream (records : list record) (mappings : list (string * string))
    : stream record :=
  match mappings with
  | [] => stop EmptyMappings
  | _ => map_loop (map_record mappings) records
  end.

(** ** Rename

    [fieldMap[k]] is a lookup in a plain object: it also finds the functions
    of [Object.prototype], whose text then becomes the new key. *)

Definition renamed_key (fieldMap : list (string * string)) (k : string) : string :=
  match jm_get k fieldMap with
  | Some k' => k'
  | None => if mem k object_proto then native_code k else k
  end.

Definition rename_record (fieldMap : list (string * string)) (r : record) : record :=
  fold_left (fun out '(k, v) => set (renamed_key fieldMap k) v out) r [].

Definition rename (records : list record) (fieldMap : list (string * string))
    : result transform_error (list record) :=
  match fieldMap with
  | [] => Err EmptyFieldMap
  | _ => Ok (map (rename_record fieldMap) records)
  end.

Definition renameStream (records : list record) (fieldMap : list (string * string))
    : stream record :=
  match fieldMap with
  | [] => stop EmptyFieldMap
  | _ => (map (rename_record fieldMap) records, None)
  end.

(** ** Limit *)

(** [Number.isInteger(count) && count >= 1], as the number of records. *)
Definition valid_count (count : number) : option nat :=
  match num_to_Z count with
  | Some z => if (z <? 1)%Z then None else Some (Z.to_nat z)
  | None => None
  end.

Definition limit (records : list record) (count : number) : result transform_error (list record) :=
  match valid_count count with
  | None => Err BadCount
  | Some n => Ok (take n records)
  end.

Fixpoint limit_loop (records : list record) (emitted count : nat) : stream record :=
  match records with
  | [] => finished
  | r :: records =>
      if count <=? emitted then finished
      else yield r (limit_loop records (S emitted) count)
  end.

Definition limitStream (records : list record) (count : number) : stream record :=
  match valid_count count with
  | None => stop BadCount
  | Some n => limit_loop records 0 n
  end.

(** ** Type cast *)

Record TypeCastSpec : Type := {
  cast_field : string;
  targetType : string;
  cast_output : option string
}.

Definition cast_types : list string := ["string"; "number"; "boolean"; "date"].

Definition date_string (s : string) : value :=
  match date_parse s with Some ms => VStr (iso_string ms) | None => VNull end.

Definition castValue (v : value) (t : string) : result transform_error value :=
  if is_nullish v then Ok VNull
  else
    s ← toString v;
    Ok (if String.eqb t "string" then VStr s
        else if String.eqb t "number" then
          let n := parseFloat s in if is_nan n then VNull else VNum n
        else if String.eqb t "boolean" then
          VBool (mem (trim (toLowerCase s)) ["true"; "1"; "yes"])
        else date_string s).

(** One spec applied to the output record [out] of the input [r]. *)
Definition cast_one (r out : record) (sp : TypeCastSpec) : result transform_error record :=
  v ← castValue (get (cast_field sp) r) (targetType sp);
  Ok (set (default (cast_field sp) (cast_output sp)) v out).

Definition check_cast (sp : TypeCastSpec) : result transform_error unit :=
  if mem (targetType sp) cast_types then Ok tt else Err (UnknownTargetType (targetType sp)).

Definition typeCast (records : list record) (specs : list TypeCastSpec)
    : result transform_error (list record) :=
  match specs with
  | [] => Err EmptyCastSpecs
  | _ =>
      _ ← traverse check_cast specs;
      traverse (fun r => foldM (cast_one r) r specs) records
  end.

(** ** Date parse *)

Inductive date_format : Type := fmt_iso | fmt_timestamp | fmt_date.

Record DateParseSpec : Type := {
  date_field : string;
  date_output : option string;
  outputFormat : date_format
}.

Definition format_date (f : date_format) (ms : Z) : value :=
  match f with
  | fmt_iso => VStr (iso_string ms)
  | fmt_timestamp => VNum (num_of_Z ms)
  | fmt_date => VStr (on_chars (take 10) (iso_string ms))
  end.

Definition parse_date (v : value) (f : date_format) : result transform_error value :=
  if is_nullish v then Ok VNull
  else s ← toString v;
       Ok match date_parse s with Some ms => format_date f ms | None => VNull end.

Definition date_one (r out : record) (sp : DateParseSpec) : result transform_error record :=
  v ← parse_date (get (date_field sp) r) (outputFormat sp);
  Ok (set (default (date_field sp) (date_output sp)) v out).

Definition dateParse (records : list record) (specs : list DateParseSpec)
    : result transform_error (list record) :=
  match specs with
  | [] => Err EmptyDateSpecs
  | _ => traverse (fun r => foldM (date_one r) r specs) records
  end.

(** ** String operations *)

Inductive StringOp : Type :=
| op_trim
| op_uppercase
| op_lowercase
| op_replace (search replacement : string) (all : bool)
| op_split (separator : string) (index : option Z).

Record StringOpSpec : Type := {
  string_field : string;
  operations : list StringOp;
  string_output : option string
}.

(** [parts[index] ?? null] *)
Definition part_at (parts : list string) (i : Z) : value :=
  if (i <? 0)%Z then VNull
  else match parts !! Z.to_nat i with Some s => VStr s | None => VNull end.

(** The loop over the operations; [fresh] is the identity of the array a
    [split] creates.  It ends as soon as the value is not a string. *)
Fixpoint run_operations (fresh : loc) (ops : list StringOp) (current : string) : value :=
  match ops with
  | [] => VStr current
  | op :: ops =>
      match op with
      | op_trim => run_operations fresh ops (trim current)
      | op_uppercase => run_operations fresh ops (toUpperCase current)
      | op_lowercase => run_operations fresh ops (toLowerCase current)
      | op_replace search rep all =>
          run_operations fresh ops
            (if all then replaceAll current search rep else replace current search rep)
      | op_split sep index =>
          let parts := split current sep in
          match index with
          | None => VArr fresh (map VStr parts)
          | Some i =>
              match part_at parts i with
              | VStr s => run_operations fresh ops s
              | v => v
              end
          end
      end
  end.

(** One spec; the state is the output record and the next free identity. *)
Definition string_one (r : record) (st : record * loc) (sp : StringOpSpec)
    : result transform_error (record * loc) :=
  let '(out, next) := st in
  let raw := get (string_field sp) r in
  let dest := default (string_field sp) (string_output sp) in
  if is_nullish raw then Ok (set dest VNull out, next)
  else s ← toString raw;
       Ok (set dest (run_operations next (operations sp) s) out, (next + 1)%N).

Fixpoint string_records (specs : list StringOpSpec) (next : loc) (records : list record)
    : result transform_error (list record * loc) :=
  match records with
  | [] => Ok ([], next)
  | r :: records =>
      '(out, next) ← foldM (string_one r) (r, next) specs;
      '(outs, next) ← string_records specs next records;
      Ok (out :: outs, next)
  end.

Definition check_operations (sp : StringOpSpec) : result transform_error unit :=
  match operations sp with [] => Err (NoOperations (string_field sp)) | _ => Ok tt end.

Definition stringOp (next : loc) (records : list record) (specs : list StringOpSpec)
    : result transform_error (list record * loc) :=
  match specs with
  | [] => Err EmptyStringSpecs
  | _ => _ ← traverse check_operations specs; string_records specs next records
  end.

(** ** Lemmas *)

Lemma filter_loop_result records condition :
  stream_result (filter_loop records condition) = filter_records records condition.
Proof.
  induction records as [|r records IH]; cbn; [done|].
  destruct (evaluateBoolean condition r) as [[]|e]; cbn; [| |done].
  - rewrite <- IH. by destruct (filter_loop records condition) as [l [e|]].
  - rewrite <- IH. by destruct (stream_result _).
Qed.

Lemma map_loop_result f records : stream_result (map_loop f records) = traverse f records.
Proof.
  induction records as [|r records IH]; cbn; [done|].
  destruct (f r) as [out|e]; cbn; [|done].
  rewrite <- IH. by destruct (map_loop f records) as [l [e|]].
Qed.

Lemma limit_loop_result records emitted count :
  limit_loop records emitted count = (take (count - emitted) records, None).
Proof.
  revert emitted; induction records as [|r records IH]; intros emitted; cbn.
  - by rewrite firstn_nil.
  - destruct (Nat.leb_spec count emitted).
    + replace (count - emitted) with 0 by lia. done.
    + rewrite IH. replace (count - emitted) with (S (count - S emitted)) by lia. done.
Qed.

(** What a fold of field assignments leaves in each field. *)
Lemma fold_map_field_get r ms out out' k :
  NoDup (map fst ms) -> foldM (map_field r) out ms = Ok out' ->
  own_get k out' =
    match jm_get k ms with
    | Some e => match evaluate e r with Ok v => Some v | Err _ => None end
    | None => own_get k out
    end.
Proof.
  revert out; induction ms as [|[k' e] ms IH]; intros out; cbn.
  - intros _ [= ->]. done.
  - rewrite NoDup_cons. intros [Hn Hd] H. unbind H as out1 H1.
    unfold map_field in H1; cbn in H1. unbind H1 as v Hv. apply map_err_ok in Hv.
    injection H1 as <-. rewrite (IH _ Hd H). destruct (decide (k = k')) as [->|Hne].
    + rewrite (proj2 (jm_get_None k' ms) Hn), Hv, own_get_set. by rewrite decide_True.
    + destruct (jm_get k ms); [done|]. by rewrite own_get_set, decide_False.
Qed.

Lemma fold_map_field_ok r ms out out' k e :
  foldM (map_field r) out ms = Ok out' -> (k, e) ∈ ms -> exists v, evaluate e r = Ok v.
Proof.
  revert out; induction ms as [|[k' e'] ms IH]; intros out H; [by intros ?%elem_of_nil|].
  cbn in H. unbind H as o1 H1. unfold map_field in H1. unbind H1 as v Hv.
  apply map_err_ok in Hv. rewrite elem_of_cons. intros [[= -> ->]|Hin]; eauto.
Qed.

Lemma rename_fold_perm fieldMap r out :
  NoDup (map (renamed_key fieldMap) (map fst r) ++ map fst out) ->
  fold_left (fun out '(k, v) => set (renamed_key fieldMap k) v out) r out
  ≡ₚ map (fun '(k, v) => (renamed_key fieldMap k, v)) r ++ out.
Proof.
  revert out; induction r as [|[k v] r IH]; intros out; cbn; [done|].
  rewrite NoDup_cons, not_elem_of_app. intros [[Hn1 Hn2] Hd].
  assert (Hp : set (renamed_key fieldMap k) v out ≡ₚ (renamed_key fieldMap k, v) :: out)
    by (apply set_new_perm, jm_has_false, Hn2).
  rewrite IH.
  - rewrite Hp. symmetry. apply Permutation_middle.
  - rewrite Hp. cbn. rewrite <- Permutation_middle. apply NoDup_cons.
    by rewrite not_elem_of_app.
Qed.

(** ** Properties *)

(** The streaming operations. Draining [filterStream], [mapFieldsStream],
    [renameStream] or [limitStream] gives what the batch operation gives, the
    error included; a stream that fails has first yielded the records before
    the failing one. *)
Theorem streams_agree records condition mappings fieldMap count :
  stream_result (filterStream records condition) = filter records condition /\
  stream_result (mapFieldsStream records mappings) = mapFields records mappings /\
  stream_result (renameStream records fieldMap) = rename records fieldMap /\
  stream_result (limitStream records count) = limit records count /\
  (forall e, snd (mapFieldsStream records mappings) = Some e ->
     mappings <> [] ->
     traverse (map_record mappings) (take (length (fst (mapFieldsStream records mappings))) records)
     = Ok (fst (mapFieldsStream records mappings))).
Proof.
  repeat split.
  - unfold filterStream, filter. case_match; [done | apply filter_loop_result].
  - unfold mapFieldsStream, mapFields. destruct mappings; [done | apply map_loop_result].
  - by destruct fieldMap.
  - unfold limitStream, limit. destruct (valid_count count); [|done].
    rewrite limit_loop_result. cbn. by rewrite Nat.sub_0_r.
  - intros e He Hm. unfold mapFieldsStream in *. destruct mappings as [|m ms]; [done|].
    revert He. set (f := map_record (m :: ms)). clearbody f.
    induction records as [|r records IH]; cbn; [done|].
    destruct (f r) eqn:E; cbn; [|done]. rewrite E. cbn. intros He. by rewrite IH.
Qed.

(** [mapFields] is additive. One output per input, in order; in each, a
    mapped field holds its expression evaluated on the input record (never on
    the fields written so far), and every other field is the input's. *)
Theorem mapFields_spec records mappings outs :
  NoDup (map fst mappings) -> mapFields records mappings = Ok outs ->
  Forall2 (fun r out => forall k,
    match jm_get k mappings with
    | Some e => exists v, evaluate e r = Ok v /\ own_get k out = Some v
    | None => own_get k out = own_get k r
    end) records outs.
Proof.
  intros Hd H. unfold mapFields in H. destruct mappings as [|m ms]; [done|].
  apply traverse_ok in H. eapply Forall2_impl; [exact H|]. intros r out Hout k.
  pose proof (fold_map_field_get r _ _ _ k Hd Hout) as Hk.
  destruct (jm_get k (m :: ms)) as [e|] eqn:E; [|done].
  enough (exists v, evaluate e r = Ok v) as [v Hv] by (exists v; by rewrite Hk, Hv).
  exact (fold_map_field_ok r _ _ _ k e Hout (jm_get_elem_of _ _ _ E)).
Qed.

(** [rename] loses nothing when the new names are distinct: every output
    record is its input with the keys renamed and the values kept. *)
Theorem rename_spec records fieldMap outs :
  Forall (fun r => NoDup (map (renamed_key fieldMap) (map fst r))) records ->
  rename records fieldMap = Ok outs ->
  Forall2 (fun r out => out ≡ₚ map (fun '(k, v) => (renamed_key fieldMap k, v)) r) records outs.
Proof.
  intros Hd H. unfold rename in H. destruct fieldMap as [|m ms]; [done|]. injection H as <-.
  apply Forall2_fmap_r. induction Hd as [|r rs Hr _ IH]; constructor; [|done].
  pose proof (rename_fold_perm (m :: ms) r []) as Hp. rewrite !app_nil_r in Hp. by apply Hp.
Qed.

(** [fieldMap] is looked up through its prototype: renaming one field of a
    record also renames its field [toString], to the text of a function. *)
Theorem rename_inherited_key :
  rename [[("a", VNull); ("toString", VNull)]] [("a", "b")]
  = Ok [[("b", VNull); ("function toString() { [native code] }", VNull)]].
Proof. vm_compute. reflexivity. Qed.
End Transform.

(** ** Witnesses *)

Definition sample_record : record := [("a", VNum (num_of_Z 2)); ("b", VStr "x")].

Lemma mapFields_spec_witness :
  let ms := [("a", "a + 1"); ("c", "a + 1")] in
  let outs := [[("a", VNum (num_of_Z 3)); ("b", VStr "x"); ("c", VNum (num_of_Z 3))]] in
  mapFields (host := plain_host) [sample_record] ms = Ok outs /\
  Forall2 (fun r out => forall k,
    match jm_get k ms with
    | Some e => exists v, evaluate (host := plain_host) e r = Ok v /\ own_get k out = Some v
    | None => own_get k out = own_get k r
    end) [sample_record] outs.
Proof.
  cbv zeta.
  assert (H : mapFields (host := plain_host) [sample_record] [("a", "a + 1"); ("c", "a + 1")]
    = Ok [[("a", VNum (num_of_Z 3)); ("b", VStr "x"); ("c", VNum (num_of_Z 3))]])
    by (vm_compute; reflexivity).
  split; [exact H|].
  apply (mapFields_spec (host := plain_host) [sample_record] [("a", "a + 1"); ("c", "a + 1")]);
    [|exact H].
  decide_now.
Defined.

Lemma rename_spec_witness :
  Forall2 (fun r out => out ≡ₚ map (fun '(k, v) => (renamed_key [("a", "b"); ("b", "a")] k, v)) r)
    [sample_record] [[("b", VNum (num_of_Z 2)); ("a", VStr "x")]].
Proof.
  apply (rename_spec [sample_record] [("a", "b"); ("b", "a")]);
    [|vm_compute; reflexivity].
  decide_now.
Defined.

Example transform_ex :
  typeCast (host := plain_host) [sample_record]
    [{| cast_field := "a"; targetType := "string"; cast_output := Some "s" |}]
  = Ok [sample_record ++ [("s", VStr "2")]].
Proof. vm_compute. reflexivity. Qed.

Example string_ex :
  stringOp 0%N [[("k", VStr " A,b ")]]
    [{| string_field := "k"; operations := [op_trim; op_lowercase; op_split "," (Some 1%Z)];
        string_output := None |}]
  = Ok ([[("k", VStr "b")]], 1%N).
Proof. vm_compute. reflexivity. Qed.
