(* ===== verification/TransformTables.v ===== *)
(** * Transform engine: operations on whole tables

    [services/pipeline/src/services/transform-engine.ts]: composite keys,
    dedup, aggregate, pivot, unpivot and join.  The operations that hold a
    whole table in memory also give the warnings they log. *)

From S2P Require Import Prelude JsString JsNumber JsValue JsHost Transform.
From Stdlib Require Import Ascii.

(** What an operation that may warn and may throw gives. *)
Definition logged (A : Type) : Type := (list warning * result transform_error A)%type.

(** ** Composite keys *)

(** One component: [JSON.stringify] gives [undefined] for a function, which
    [join] renders as the empty string. *)
Definition key_part (v : value) : string :=
  if is_nullish v then "__null__" else default EmptyString (json_stringify v).

Definition buildCompositeKey (r : record) (fields : list string) : string :=
  JsString.join "|" (map (fun f => key_part (get f r)) fields).

(** ** Dedup *)

Inductive dedup_strategy : Type := keep_first | keep_last.

Definition dedup_step (keyFields : list string) (strategy : dedup_strategy)
    (seen : jmap string record) (r : record) : jmap string record :=
  let key := buildCompositeKey r keyFields in
  match strategy with
  | keep_first => if jm_has key seen then seen else jm_set key r seen
  | keep_last => jm_set key r seen
  end.

Definition dedup_records (records : list record) (keyFields : list string)
    (strategy : dedup_strategy) : list record :=
  jm_values (fold_left (dedup_step keyFields strategy) records []).

Definition dedup (env : option string) (records : list record) (keyFields : list string)
    (strategy : dedup_strategy) (logger : bool) : logged (list record) :=
  match keyFields with
  | [] => ([], Err EmptyKeyFields)
  | _ => (warnIfExceedsMemoryThreshold env "dedup" (Z.of_nat (length records)) logger,
          Ok (dedup_records records keyFields strategy))
  end.

(** ** Aggregate *)

Inductive AggregateFunction : Type := agg_sum | agg_avg | agg_min | agg_max | agg_count.

Record AggregationSpec : Type := {
  agg_field : string;
  agg_function : AggregateFunction;
  agg_alias : string
}.

Definition finite_number (v : value) : option number :=
  match v with VNum n => if is_finite n then Some n else None | _ => None end.

Definition numbers_of (records : list record) (f : string) : list number :=
  omap (fun r => finite_number (get f r)) records.

Definition num_sum (values : list number) : number := fold_left num_add values (num_of_Z 0).

Definition applyAggregation (records : list record) (f : string) (func : AggregateFunction)
    : value :=
  match func with
  | agg_count => VNum (num_of_Z (Z.of_nat (length records)))
  | _ =>
      match numbers_of records f with
      | [] => VNull
      | values =>
          VNum match func with
               | agg_sum | agg_count => num_sum values
               | agg_avg => num_div (num_sum values) (num_of_Z (Z.of_nat (length values)))
               | agg_min => fold_left num_min values Infinity
               | agg_max => fold_left num_max values (num_neg Infinity)
               end
      end
  end.

(** Appends [x] to the group [k], creating the group at the end when it is new. *)
Definition push {K A} `{EqDecision K} (k : K) (x : A) (groups : jmap K (list A)) : jmap K (list A) :=
  jm_set k (default [] (jm_get k groups) ++ [x]) groups.

Definition group_key (groupBy : list string) (r : record) : string :=
  match groupBy with [] => "__all__" | _ => buildCompositeKey r groupBy end.

Definition group_record (groupBy : list string) (r : record) : record :=
  fold_left (fun out f => set f (get f r) out) groupBy [].

(** The two maps [groups] and [keyToGroupRecord]. *)
Definition aggregate_step (groupBy : list string)
    (st : jmap string (list record) * jmap string record) (r : record)
    : jmap string (list record) * jmap string record :=
  let '(groups, keyToGroupRecord) := st in
  let key := group_key groupBy r in
  (push key r groups,
   if jm_has key groups then keyToGroupRecord
   else jm_set key (group_record groupBy r) keyToGroupRecord).

Definition aggregate_row (aggregations : list AggregationSpec)
    (keyToGroupRecord : jmap string record) (g : string * list record) : record :=
  fold_left (fun out a =>
      set (agg_alias a) (applyAggregation (snd g) (agg_field a) (agg_function a)) out)
    aggregations (default [] (jm_get (fst g) keyToGroupRecord)).

Definition aggregate_records (records : list record) (groupBy : list string)
    (aggregations : list AggregationSpec) : list record :=
  let '(groups, keyToGroupRecord) := fold_left (aggregate_step groupBy) records ([], []) in
  map (aggregate_row aggregations keyToGroupRecord) groups.

Definition aggregate (env : option string) (records : list record) (groupBy : list string)
    (aggregations : list AggregationSpec) (logger : bool) : logged (list record) :=
  match aggregations with
  | [] => ([], Err EmptyAggregations)
  | _ => (warnIfExceedsMemoryThreshold env "aggregate" (Z.of_nat (length records)) logger,
          Ok (aggregate_records records groupBy aggregations))
  end.

(** ** Pivot *)

Record PivotConfig : Type := {
  groupField : string;
  pivotField : string;
  valueField : string;
  aggregation : AggregateFunction
}.

(** [v !== undefined && v !== null ? String(v) : "__null__"]: the row and
    column keys of a pivot, and [toJoinKey]. *)
Definition toJoinKey (v : value) : result transform_error string :=
  if is_nullish v then Ok "__null__" else toString v.

Fixpoint pivot_values (pivotField : string) (seen : list string) (records : list record)
    : result transform_error (list string) :=
  match records with
  | [] => Ok seen
  | r :: records =>
      let pv := get pivotField r in
      if is_nullish pv then pivot_values pivotField seen records
      else s ← toString pv;
           pivot_values pivotField (if mem s seen then seen else seen ++ [s]) records
  end.

Definition pivot_state : Type :=
  (jmap string (jmap string (list record)) * jmap string record)%type.

Definition pivot_step (c : PivotConfig) (st : pivot_state) (r : record)
    : result transform_error pivot_state :=
  let '(groups, groupKeyRecords) := st in
  gk ← toJoinKey (get (groupField c) r);
  pk ← toJoinKey (get (pivotField c) r);
  Ok (jm_set gk (push pk r (default [] (jm_get gk groups))) groups,
      if jm_has gk groups then groupKeyRecords
      else jm_set gk [(groupField c, get (groupField c) r)] groupKeyRecords).

Definition pivot_row (c : PivotConfig) (pivotValues : list string)
    (groupKeyRecords : jmap string record) (g : string * jmap string (list record)) : record :=
  fold_left (fun out pv =>
      set pv (applyAggregation (default [] (jm_get pv (snd g))) (valueField c) (aggregation c)) out)
    pivotValues (default [] (jm_get (fst g) groupKeyRecords)).

Definition pivot_records (records : list record) (c : PivotConfig)
    : result transform_error (list record) :=
  pivotValues ← pivot_values (pivotField c) [] records;
  '(groups, groupKeyRecords) ← foldM (pivot_step c) ([], []) records;
  Ok (map (pivot_row c pivotValues groupKeyRecords) groups).

Definition pivot (env : option string) (records : list record) (c : PivotConfig)
    (logger : bool) : logged (list record) :=
  (warnIfExceedsMemoryThreshold env "pivot" (Z.of_nat (length records)) logger,
   pivot_records records c).

(** ** Unpivot *)

Record UnpivotConfig : Type := {
  keyField : string;
  valueFields : list string;
  nameColumn : string;
  valueColumn : string
}.

Definition base_record (vfs : list string) (r : record) : record :=
  fold_left (fun base '(k, v) => if mem k vfs then base else set k v base) r [].

Definition unpivot_row (c : UnpivotConfig) (r : record) (f : string) : record :=
  set (valueColumn c) (coalesce (get f r) VNull)
    (set (nameColumn c) (VStr f) (base_record (valueFields c) r)).

Definition unpivot (records : list record) (c : UnpivotConfig)
    : result transform_error (list record) :=
  match valueFields c with
  | [] => Err EmptyValueFields
  | _ => Ok (concat (map (fun r => map (unpivot_row c r) (valueFields c)) records))
  end.

(** ** Join *)

Inductive JoinType : Type := join_inner | join_left | join_right | join_full.

Record JoinConfig : Type := { joinType : JoinType; leftKey : string; rightKey : string }.

Definition mergeRecords (l r : record) : record :=
  fold_left (fun out '(k, v) => if has k out then set ("right_" +:+ k) v out else set k v out) r l.

Definition right_index (rightKey : string) (rights : list record)
    : result transform_error (jmap string (list record)) :=
  foldM (fun idx r => k ← toJoinKey (get rightKey r); Ok (push k r idx)) [] rights.

Definition keeps_left (t : JoinType) : bool :=
  match t with join_left | join_full => true | _ => false end.
Definition keeps_right (t : JoinType) : bool :=
  match t with join_right | join_full => true | _ => false end.

Definition join_step (c : JoinConfig) (idx : jmap string (list record))
    (st : list record * list string) (l : record)
    : result transform_error (list record * list string) :=
  let '(out, matched) := st in
  k ← toJoinKey (get (leftKey c) l);
  Ok match jm_get k idx with
     | Some ((_ :: _) as rights) => (out ++ map (mergeRecords l) rights, k :: matched)
     | _ => (if keeps_left (joinType c) then out ++ [l] else out, matched)
     end.

Definition join_records (lefts rights : list record) (c : JoinConfig)
    : result transform_error (list record) :=
  idx ← right_index (rightKey c) rights;
  '(out, matched) ← foldM (join_step c idx) ([], []) lefts;
  Ok (if keeps_right (joinType c)
      then out ++ concat (map (fun '(k, rs) => if mem k matched then [] else rs) idx)
      else out).

Definition join (env : option string) (lefts rights : list record) (c : JoinConfig)
    (logger : bool) : logged (list record) :=
  (warnIfExceedsMemoryThreshold env "join" (Z.of_nat (length lefts + length rights)) logger,
   join_records lefts rights c).

(** ** Composite keys are read back field by field

    A scanner that knows whether it is inside a JSON string: outside one, no
    key component holds the separator. *)

Inductive scan_state : Type := outside | inside | escaped.

Definition scan_char (st : option scan_state) (c : ascii) : option scan_state :=
  match st with
  | None => None
  | Some outside =>
      if Ascii.eqb c quote then Some inside
      else if Ascii.eqb c "|"%char then None else Some outside
  | Some inside =>
      if Ascii.eqb c backslash then Some escaped
      else if Ascii.eqb c quote then Some outside else Some inside
  | Some escaped => Some inside
  end.

Definition scan (st : scan_state) (l : list ascii) : option scan_state :=
  fold_left scan_char l (Some st).

Definition neutral (s : string) : Prop := scan outside (explode s) = Some outside.

Lemma scan_none l : fold_left scan_char l None = None.
Proof. induction l; done. Qed.

Lemma scan_cons st c l :
  scan st (c :: l) = match scan_char (Some st) c with Some st' => scan st' l | None => None end.
Proof. unfold scan. cbn [fold_left]. destruct (scan_char _ _); [done | apply scan_none]. Qed.

Lemma scan_app st l k :
  scan st (l ++ k) = match scan st l with Some st' => scan st' k | None => None end.
Proof.
  unfold scan. rewrite fold_left_app. destruct (fold_left _ l _); [done | apply scan_none].
Qed.

Lemma neutral_app s t : neutral s -> neutral t -> neutral (s +:+ t).
Proof. unfold neutral. intros Hs Ht. by rewrite explode_app, scan_app, Hs. Qed.

Lemma neutral_join sep items : neutral sep -> Forall neutral items -> neutral (JsString.join sep items).
Proof.
  intros Hsep. induction 1 as [|s items Hs Hl IH]; [done|].
  destruct items as [|t items]; cbn [JsString.join]; [done|].
  apply neutral_app; [done|]. by apply neutral_app.
Qed.

Lemma neutral_num_chars s : Forall (fun c => num_char c = true) (explode s) -> neutral s.
Proof.
  unfold neutral. induction 1 as [|c l Hc _ IH]; [done|]. rewrite scan_cons.
  assert (scan_char (Some outside) c = Some outside) as ->; [|done].
  unfold scan_char. destruct (Ascii.eqb_spec c quote) as [->|]; [done|].
  destruct (Ascii.eqb_spec c "|"%char) as [->|]; done.
Qed.

Lemma scan_escape c : scan inside (json_escape c) = Some inside.
Proof. destruct c as [[] [] [] [] [] [] [] []]; vm_compute; reflexivity. Qed.

Lemma neutral_quote s : neutral (json_quote s).
Proof.
  unfold neutral, json_quote. rewrite explode_implode, scan_cons.
  change (scan_char (Some outside) quote) with (Some inside). cbv beta iota.
  rewrite scan_app. replace (scan inside (flat_map json_escape (explode s))) with (Some inside);
    [done|].
  induction (explode s) as [|c l IH]; [done|]. cbn [flat_map].
  by rewrite scan_app, scan_escape.
Qed.

Lemma neutral_json v s : json_stringify v = Some s -> neutral s.
Proof.
  revert s. induction v as [| |b|n|t|l vs IH|l o IH|f] using value_nested_ind; cbn [json_stringify];
    intros s [= <-]; try done.
  - by destruct b.
  - unfold json_number. case_match; [apply neutral_num_chars, num_to_string_chars | done].
  - apply neutral_quote.
  - apply neutral_app; [done|]. apply neutral_app; [|done]. apply neutral_join; [done|].
    induction IH as [|v vs Hv _ IHvs]; constructor; [|done].
    destruct (json_stringify v); [by apply Hv | done].
  - apply neutral_app; [done|]. apply neutral_app; [|done]. apply neutral_join; [done|].
    induction IH as [|[k v] o Hv _ IHo]; [constructor|].
    cbn [snd] in Hv. destruct (json_stringify v) as [s|]; [|done]. constructor; [|done].
    apply neutral_app; [apply neutral_quote|]. apply neutral_app; [done|]. by apply Hv.
Qed.

Lemma neutral_key_part v : neutral (key_part v).
Proof.
  unfold key_part. case_match; [done|].
  destruct (json_stringify v) eqn:E; [by apply (neutral_json v) | done].
Qed.

(** The rest after a component: nothing, or a separator. *)
Definition ends_part (l : list ascii) : Prop := l = [] \/ exists l', l = "|"%char :: l'.

Lemma scan_split st a b ta tb :
  scan st a = Some outside -> scan st b = Some outside ->
  ends_part ta -> ends_part tb -> a ++ ta = b ++ tb -> a = b /\ ta = tb.
Proof.
  revert st b; induction a as [|c a IH]; intros st [|d b]; cbn [app]; intros Ha Hb Hta Htb E.
  - done.
  - injection Ha as ->. rewrite scan_cons in Hb.
    destruct Hta as [->|[l ->]]; [done|]. injection E as <- E. done.
  - injection Hb as ->. rewrite scan_cons in Ha.
    destruct Htb as [->|[l ->]]; [done|]. injection E as -> E. done.
  - injection E as <- E. rewrite scan_cons in Ha, Hb.
    destruct (scan_char (Some st) c) as [st'|]; [|done].
    destruct (IH st' b Ha Hb Hta Htb E) as [-> ->]. done.
Qed.

Lemma join_neutral_inj (l k : list string) :
  length l = length k -> Forall neutral l -> Forall neutral k ->
  JsString.join "|" l = JsString.join "|" k -> l = k.
Proof.
  revert k; induction l as [|s l IH]; intros [|t k] Hlen Hl Hk E; try done.
  apply Forall_cons_1 in Hl as [Hs Hl]. apply Forall_cons_1 in Hk as [Ht Hk].
  assert (Hj : forall (u : string) m, m <> [] -> explode (JsString.join "|" (u :: m))
            = explode u ++ "|"%char :: explode (JsString.join "|" m)).
  { intros u [|v m] Hm; [done|]. cbn [JsString.join]. by rewrite !explode_app. }
  apply (f_equal explode) in E. destruct l as [|s' l], k as [|t' k]; try done.
  - cbn [JsString.join] in E. by apply explode_inj in E as ->.
  - rewrite (Hj s (s' :: l)), (Hj t (t' :: k)) in E by done.
    apply (scan_split outside) in E as [E1 E2]; try done; [|right; eauto..].
    apply explode_inj in E1 as ->. injection E2 as E2. apply explode_inj in E2.
    f_equal. apply IH; try done. cbn in *. lia.
Qed.

Lemma key_part_null v : key_part v = "__null__" -> is_nullish v = true.
Proof.
  unfold key_part. destruct v as [| |b|n|s|l vs|l o|f]; cbn; try done.
  - by destruct b.
  - unfold json_number. case_match; [|done]. intros E.
    pose proof (num_to_string_chars n) as Hc. rewrite E in Hc.
    by apply Forall_cons_1 in Hc as [? _].
Qed.

(** ** Lemmas on grouping *)

(** The record a strategy keeps among those of one key. *)
Definition pick (strategy : dedup_strategy) (l : list record) : option record :=
  match strategy with keep_first => head l | keep_last => last l end.

Lemma default_pick (o : option record) : is_Some o -> o = Some (default [] o).
Proof. by intros [x ->]. Qed.

Section Keyed.
Context (key : record -> string).

Lemma with_key_ne_nil k l : k ∈ firsts (map key l) -> with_key key k l <> [].
Proof.
  intros Hk%elem_of_firsts%list_elem_of_fmap. destruct Hk as (x & -> & Hx).
  intros E. apply (not_elem_of_nil x). rewrite <- E. by apply elem_of_with_key.
Qed.

Lemma with_key_unique l x :
  NoDup (map key l) -> x ∈ l -> with_key key (key x) l = [x].
Proof.
  induction l as [|y l IH]; [by intros _ ?%elem_of_nil|]. cbn [map].
  rewrite NoDup_cons, elem_of_cons. intros [Hn Hd] Hx. unfold with_key. cbn.
  fold (with_key key (key x) l). destruct (decide (key y = key x)) as [E|E].
  - rewrite bool_decide_eq_true_2, with_key_nil by (done || by rewrite <- E).
    destruct Hx as [->|Hx]; [done|]. exfalso. apply Hn. rewrite E.
    apply list_elem_of_fmap. eauto.
  - rewrite bool_decide_eq_false_2 by done. destruct Hx as [->|Hx]; [done | by apply IH].
Qed.

(** The two maps of [aggregate], and of [pivot]: the first record of each
    group is remembered next to the groups. *)
Definition first_with (k : string) (l : list record) : record := default [] (head (with_key key k l)).

Lemma first_with_snoc l x k :
  k ∈ map key l -> first_with k (l ++ [x]) = first_with k l.
Proof.
  intros Hk%elem_of_firsts%with_key_ne_nil. unfold first_with. rewrite with_key_snoc.
  by destruct (with_key key k l).
Qed.

Lemma first_with_new l x :
  key x ∉ map key l -> first_with (key x) (l ++ [x]) = x.
Proof.
  intros Hk. unfold first_with. by rewrite with_key_snoc, with_key_nil, decide_True.
Qed.

Lemma remember_first {V} (g : record -> V) l x :
  (if jm_has (key x) (groups_of key l) then tabulate (fun k => g (first_with k l)) (firsts (map key l))
   else jm_set (key x) (g x) (tabulate (fun k => g (first_with k l)) (firsts (map key l))))
  = tabulate (fun k => g (first_with k (l ++ [x]))) (firsts (map key (l ++ [x]))).
Proof.
  unfold groups_of. rewrite jm_has_tabulate, map_app. cbn [map].
  rewrite firsts_snoc. unfold add_new.
  case_bool_decide as H.
  - apply tabulate_ext. intros k Hk%firsts_elem. by rewrite first_with_snoc.
  - rewrite jm_keys_set_new by by rewrite jm_keys_tabulate. rewrite elem_of_firsts in H.
    unfold tabulate at 2. rewrite map_app. cbn. f_equal.
    + apply tabulate_ext. intros k Hk%firsts_elem. by rewrite first_with_snoc.
    + by rewrite first_with_new.
Qed.
End Keyed.

Lemma dedup_fold kf strategy l :
  fold_left (dedup_step kf strategy) l [] =
  tabulate (fun k => default [] (pick strategy (with_key (fun r => buildCompositeKey r kf) k l)))
    (firsts (map (fun r => buildCompositeKey r kf) l)).
Proof.
  set (key := fun r => buildCompositeKey r kf).
  induction l as [|x l IH] using rev_ind; [done|].
  rewrite fold_left_app, IH. cbn [fold_left]. unfold dedup_step. fold (key x).
  destruct strategy; cbn [pick].
  - pose proof (remember_first key (fun r => r) l x) as Hr. unfold first_with in Hr.
    etrans; [|exact Hr]. unfold groups_of. by rewrite !jm_has_tabulate.
  - rewrite map_app. cbn [map]. rewrite firsts_snoc.
    rewrite <- (jm_set_tabulate (fun k => default [] (last (with_key key k l)))).
    + by rewrite with_key_snoc, decide_True, last_snoc.
    + apply firsts_NoDup.
    + intros k _ Hne. rewrite with_key_snoc, decide_False by congruence. by rewrite app_nil_r.
Qed.

Lemma aggregate_fold groupBy l :
  fold_left (aggregate_step groupBy) l ([], []) =
  (groups_of (group_key groupBy) l,
   tabulate (fun k => group_record groupBy (first_with (group_key groupBy) k l))
     (firsts (map (group_key groupBy) l))).
Proof.
  induction l as [|x l IH] using rev_ind; [done|].
  rewrite fold_left_app, IH. cbn [fold_left]. unfold aggregate_step, push.
  by rewrite <- groups_of_snoc, (remember_first (group_key groupBy) (group_record groupBy)).
Qed.

(** A fold that sets computed fields. *)
Lemma fold_set_get {A} (key : A -> string) (f : A -> value) l out k :
  own_get k (fold_left (fun o a => set (key a) (f a) o) l out) =
  match jm_get k (rev (map (fun a => (key a, f a)) l)) with
  | Some v => Some v
  | None => own_get k out
  end.
Proof.
  revert out; induction l as [|a l IH] using rev_ind; intros out; [done|].
  rewrite fold_left_app, map_app, rev_app_distr. cbn. rewrite own_get_set, IH.
  destruct (decide (key a = k)), (decide (k = key a)); congruence.
Qed.

Lemma fold_set_get_in {A} (key : A -> string) (f : A -> value) l out a :
  NoDup (map key l) -> a ∈ l ->
  own_get (key a) (fold_left (fun o a => set (key a) (f a) o) l out) = Some (f a).
Proof.
  intros Hd Ha. rewrite fold_set_get. erewrite jm_elem_of_get; [done| |].
  - unfold jm_keys. rewrite <- map_rev, map_map. cbn.
    rewrite map_rev. by rewrite <- (Permutation_rev (map key l)).
  - rewrite <- Permutation_rev. apply list_elem_of_fmap. eauto.
Qed.

Lemma fold_set_get_out {A} (key : A -> string) (f : A -> value) l out k :
  k ∉ map key l ->
  own_get k (fold_left (fun o a => set (key a) (f a) o) l out) = own_get k out.
Proof.
  intros Hk. rewrite fold_set_get. rewrite (proj2 (jm_get_None k _)); [done|].
  unfold jm_keys. rewrite <- map_rev, map_map. cbn. rewrite map_rev.
  by rewrite <- (Permutation_rev (map key l)).
Qed.

(** ** Join: lemmas *)

(** [right_index] on records whose keys all convert. *)
Lemma right_index_groups (kr : record -> string) rk rights :
  Forall (fun r => toJoinKey (get rk r) = Ok (kr r)) rights ->
  right_index rk rights = Ok (groups_of kr rights).
Proof.
  unfold right_index. induction rights as [|r rights IH] using rev_ind; [done|].
  intros [Hl Hr%Forall_cons_1]%Forall_app. destruct Hr as [Hr _].
  rewrite foldM_app, (IH Hl). cbn. rewrite Hr. cbn. by rewrite groups_of_snoc.
Qed.

(** What one left record contributes. *)
Definition left_rows (c : JoinConfig) (kl kr : record -> string) (rights : list record)
    (l : record) : list record :=
  match with_key kr (kl l) rights with
  | [] => if keeps_left (joinType c) then [l] else []
  | rs => map (mergeRecords l) rs
  end.

Lemma jm_get_groups {A} (key : A -> string) k l :
  match jm_get k (groups_of key l) with
  | Some ((_ :: _) as xs) => with_key key k l = xs
  | _ => with_key key k l = []
  end.
Proof.
  unfold groups_of. rewrite jm_get_tabulate. case_bool_decide as H.
  - by destruct (with_key key k l).
  - apply with_key_nil. contradict H. by apply elem_of_firsts.
Qed.

Lemma join_fold c kl kr lefts rights out matched :
  Forall (fun l => toJoinKey (get (leftKey c) l) = Ok (kl l)) lefts ->
  exists matched',
    foldM (join_step c (groups_of kr rights)) (out, matched) lefts
      = Ok (out ++ flat_map (left_rows c kl kr rights) lefts, matched') /\
    forall k, mem k matched' = true <->
      mem k matched = true \/ (k ∈ map kl lefts /\ with_key kr k rights <> []).
Proof.
  revert out matched; induction lefts as [|l lefts IH]; intros out matched H.
  - exists matched. cbn. rewrite app_nil_r. split; [done|]. intros k. rewrite elem_of_nil. tauto.
  - apply Forall_cons_1 in H as [Hl H]. cbn [foldM join_step]. rewrite Hl. cbn.
    unfold left_rows at 1. pose proof (jm_get_groups kr (kl l) rights) as Hg.
    destruct (jm_get (kl l) (groups_of kr rights)) as [[|r rs]|]; rewrite Hg; cbn.
    + destruct (IH (if keeps_left (joinType c) then out ++ [l] else out) matched H)
        as (m & E & Hm).
      exists m. split; [etrans; [exact E|]; destruct (keeps_left (joinType c)); by rewrite <- ?app_assoc|].
      intros k. rewrite Hm, elem_of_cons. split; [tauto|].
      intros [?|[[->|?] ?]]; [tauto | done | tauto].
    + destruct (IH (out ++ mergeRecords l r :: map (mergeRecords l) rs) (kl l :: matched) H)
        as (m & E & Hm).
      exists m. split; [etrans; [exact E|]; by rewrite <- app_assoc|]. intros k. rewrite Hm, elem_of_cons.
      cbn. rewrite orb_true_iff, String.eqb_eq. split; [|tauto].
      intros [[->|?]|?]; [right; split; [tauto | by rewrite Hg] | tauto | tauto].
    + destruct (IH (if keeps_left (joinType c) then out ++ [l] else out) matched H)
        as (m & E & Hm).
      exists m. split; [etrans; [exact E|]; destruct (keeps_left (joinType c)); by rewrite <- ?app_assoc|].
      intros k. rewrite Hm, elem_of_cons. split; [tauto|].
      intros [?|[[->|?] ?]]; [tauto | done | tauto].
Qed.


(** ** Properties *)

(** Composite keys do not collide. Two records have the same key exactly
    when each key field has the same JSON text (or is null or absent) in both;
    a separator inside a value is never taken for the one between fields, and
    the text for a missing value is the key component of nothing else. *)
Theorem composite_key_spec fields r1 r2 :
  (buildCompositeKey r1 fields = buildCompositeKey r2 fields <->
   Forall (fun f => key_part (get f r1) = key_part (get f r2)) fields) /\
  (forall v, key_part v = "__null__" <-> is_nullish v = true).
Proof.
  split; [split|].
  - intros E. apply join_neutral_inj in E.
    + induction fields as [|f fields IH]; cbn in E; [constructor|].
      injection E as Ef E. constructor; auto.
    + by rewrite !length_map.
    + apply Forall_map, Forall_forall. intros f _. apply neutral_key_part.
    + apply Forall_map, Forall_forall. intros f _. apply neutral_key_part.
  - intros H. unfold buildCompositeKey. f_equal.
    induction H as [|f fields Hf _ IH]; cbn; [done|]. by rewrite Hf, IH.
  - intros v. split; [apply key_part_null|]. unfold key_part. by intros ->.
Qed.

(** [dedup] keeps, for each key in the order of its first occurrence,
    the first or the last record that has it; its output has no two records
    with one key, and deduplicating again changes nothing. *)
Theorem dedup_spec records kf strategy :
  let key := fun r => buildCompositeKey r kf in
  let outs := dedup_records records kf strategy in
  Forall2 (fun k out => pick strategy (with_key key k records) = Some out)
    (firsts (map key records)) outs /\
  map key outs = firsts (map key records) /\
  dedup_records outs kf strategy = outs.
Proof.
  intros key.
  assert (Hspec : forall l, Forall2 (fun k out => pick strategy (with_key key k l) = Some out)
    (firsts (map key l)) (dedup_records l kf strategy)).
  { intros l. unfold dedup_records. rewrite dedup_fold, jm_values_tabulate.
    change (fun r => buildCompositeKey r kf) with key.
    apply Forall2_fmap_r, Forall_Forall2_diag, Forall_forall. intros k Hk%with_key_ne_nil. cbv beta.
    apply default_pick. destruct (with_key key k l) as [|x xs]; [done|].
    by destruct strategy; cbn [pick]; [|apply last_is_Some]. }
  assert (Hkeys : forall l, map key (dedup_records l kf strategy) = firsts (map key l)).
  { intros l. specialize (Hspec l). revert Hspec.
    generalize (dedup_records l kf strategy) (firsts (map key l)). intros outs ks.
    induction 1 as [|k out ks outs Ho _ IH]; [done|]. cbn. rewrite IH. f_equal.
    assert (Hin : out ∈ with_key key k l)
      by (destruct strategy; cbn in Ho; [by apply head_Some_elem_of | by apply last_Some_elem_of]).
    by apply elem_of_with_key in Hin as [_ ->]. }
  intros outs. repeat split; [apply Hspec | apply Hkeys |].
  specialize (Hspec outs). specialize (Hkeys records). fold outs in Hkeys.
  assert (Hd : NoDup (map key outs)) by (rewrite Hkeys; apply firsts_NoDup).
  rewrite (firsts_id _ Hd) in Hspec.
  apply Forall2_fmap_l in Hspec. symmetry. apply list_eq_Forall2.
  eapply Forall2_impl_elem; [exact Hspec|]. cbn. intros x y Hx E.
  rewrite with_key_unique in E by done. destruct strategy; by injection E.
Qed.

Lemma group_record_get groupBy r f :
  own_get f (group_record groupBy r) = if bool_decide (f ∈ groupBy) then Some (get f r) else None.
Proof.
  unfold group_record. rewrite (fold_set_get (fun f => f) (fun f => get f r)).
  rewrite <- map_rev. change (map _ (rev groupBy)) with (tabulate (fun f => get f r) (rev groupBy)).
  rewrite jm_get_tabulate. rewrite (bool_decide_ext (f ∈ rev groupBy) (f ∈ groupBy)).
  - by case_bool_decide.
  - by rewrite <- (Permutation_rev groupBy).
Qed.

(** [aggregate] gives one row per group, in the order in which the groups
    appear. Each row holds every aggregation of exactly the records of its
    group and the grouping fields of the first of them, and nothing else; the
    groups partition the input. *)
Theorem aggregate_spec records groupBy aggs :
  NoDup (map agg_alias aggs) ->
  let group k := with_key (group_key groupBy) k records in
  let keys := firsts (map (group_key groupBy) records) in
  Forall2 (fun k out => exists r, head (group k) = Some r /\
      (forall a, a ∈ aggs ->
         own_get (agg_alias a) out = Some (applyAggregation (group k) (agg_field a) (agg_function a))) /\
      (forall f, f ∉ map agg_alias aggs ->
         own_get f out = if bool_decide (f ∈ groupBy) then Some (get f r) else None))
    keys (aggregate_records records groupBy aggs) /\
  concat (map group keys) ≡ₚ records.
Proof.
  intros Hd group keys. split.
  - unfold aggregate_records. rewrite aggregate_fold. unfold groups_of, tabulate at 2.
    rewrite map_map. fold keys. apply Forall2_fmap_r, Forall_Forall2_diag, Forall_forall.
    intros k Hk. pose proof (with_key_ne_nil _ _ _ Hk) as Hne. unfold aggregate_row. cbn [fst snd compose].
    rewrite jm_get_tabulate, bool_decide_eq_true_2 by done. cbn [default].
    exists (first_with (group_key groupBy) k records). repeat split.
    + unfold first_with, group. by destruct (with_key _ k records).
    + intros a Ha. by apply (fold_set_get_in agg_alias
        (fun a => applyAggregation (group k) (agg_field a) (agg_function a))).
    + intros f Hf. rewrite <- group_record_get.
      by apply (fold_set_get_out agg_alias
        (fun a => applyAggregation (group k) (agg_field a) (agg_function a))).
  - pose proof (groups_of_perm (group_key groupBy) records) as Hp.
    unfold groups_of in Hp. by rewrite jm_values_tabulate in Hp.
Qed.

(** Where [mergeRecords] puts the right field [k]. *)
Definition merged_name (l : record) (k : string) : string :=
  if has k l then "right_" +:+ k else k.

Definition unprefixed (k : string) : Prop := ~ exists k', k = "right_" +:+ k'.

Lemma has_set k k' v o : k <> k' -> has k' (set k v o) = has k' o.
Proof. intros H. unfold has. rewrite hasOwn_set. by rewrite bool_decide_eq_false_2. Qed.

Lemma merged_name_inj out k k' :
  unprefixed k -> unprefixed k' -> merged_name out k = merged_name out k' -> k = k'.
Proof.
  unfold merged_name, unprefixed. intros Hk Hk'. repeat case_match; intros E.
  - by apply append_inj in E.
  - exfalso. apply Hk'. by exists k.
  - exfalso. apply Hk. by exists k'.
  - done.
Qed.

Lemma merge_fold r out :
  NoDup (map fst r) -> Forall unprefixed (map fst r) ->
  let out' := mergeRecords out r in
  (forall q, q ∉ map (merged_name out) (map fst r) -> own_get q out' = own_get q out) /\
  (forall k v, (k, v) ∈ r -> own_get (merged_name out k) out' = Some v).
Proof.
  unfold mergeRecords. revert out; induction r as [|[k v] r IH]; intros out; cbn [map fst fold_left].
  - intros _ _. split; [done | by intros ? ? ?%elem_of_nil].
  - rewrite NoDup_cons, Forall_cons. intros [Hn Hd] [Hk Hr].
    assert (E : (if has k out then set ("right_" +:+ k) v out else set k v out)
                = set (merged_name out k) v out) by (unfold merged_name; by case_match).
    rewrite E. clear E. set (out1 := set (merged_name out k) v out).
    assert (Hsame : forall k', k' ∈ map fst r -> merged_name out1 k' = merged_name out k').
    { intros k' Hk'. unfold merged_name at 1 2, out1. rewrite has_set; [done|].
      rewrite Forall_forall in Hr. specialize (Hr k' Hk').
      unfold merged_name. case_match; intros <-; [apply Hr; by exists k | done]. }
    destruct (IH out1 Hd Hr) as [Hout Hin].
    assert (Hmap : map (merged_name out1) (map fst r) = map (merged_name out) (map fst r))
      by (apply map_ext_in; intros k' Hk'%list_elem_of_In; auto).
    rewrite Hmap in Hout.
    assert (Hfresh : merged_name out k ∉ map (merged_name out) (map fst r)).
    { intros (k' & E & Hk')%list_elem_of_fmap. rewrite Forall_forall in Hr.
      apply Hn. by rewrite (merged_name_inj out k k') by auto. }
    split.
    + intros q. rewrite not_elem_of_cons. intros [Hq1 Hq2]. rewrite (Hout q Hq2).
      unfold out1. by rewrite own_get_set, decide_False.
    + intros k' v'. rewrite elem_of_cons. intros [[= -> ->]|Hkv].
      * rewrite (Hout _ Hfresh). unfold out1. by rewrite own_get_set, decide_True.
      * rewrite <- (Hsame k'); [by apply Hin|]. apply list_elem_of_fmap. by exists (k', v').
Qed.

(** [mergeRecords] keeps both records. When no field name starts with
    [right_], every field of the left record keeps its value and every field
    of the right record is found under its own name, or under its name
    prefixed with [right_] when the left record has (or inherits) it. *)
Theorem merge_spec l r :
  NoDup (map fst r) -> Forall unprefixed (map fst l ++ map fst r) ->
  (forall k v, own_get k l = Some v -> own_get k (mergeRecords l r) = Some v) /\
  (forall k v, own_get k r = Some v -> own_get (merged_name l k) (mergeRecords l r) = Some v).
Proof.
  intros Hd [Hl Hr]%Forall_app. destruct (merge_fold r l Hd Hr) as [Hout Hin]. split.
  - intros k v Hk. rewrite Hout; [done|]. intros (k' & E & Hk')%list_elem_of_fmap.
    assert (Ho : hasOwn k l = true) by (unfold hasOwn, jm_has; unfold own_get in Hk; by rewrite Hk).
    unfold merged_name in E. destruct (has k' l) eqn:Eh; subst k.
    + rewrite Forall_forall in Hl. eapply Hl; [by apply jm_has_true, Ho | by exists k'].
    + unfold has in Eh. by rewrite Ho in Eh.
  - intros k v Hk%jm_get_elem_of. by apply Hin.
Qed.

(** A left field that already has the prefixed name is overwritten. *)
Theorem merge_overwrites :
  mergeRecords [("id", VStr "a"); ("right_id", VStr "kept?")] [("id", VStr "b")]
  = [("id", VStr "a"); ("right_id", VStr "b")].
Proof. vm_compute. reflexivity. Qed.

(** C26: [join] is the nested loop its index replaces. When every key converts
    to a string, the rows are, left record by left record in order, the merges
    with the right records of equal key in their order (or the left record
    alone, for left and full joins), then, for right and full joins, the right
    records whose key no left record has; an inner join is the plain double
    loop. *)
Theorem join_spec c lefts rights kl kr :
  Forall (fun l => toJoinKey (get (leftKey c) l) = Ok (kl l)) lefts ->
  Forall (fun r => toJoinKey (get (rightKey c) r) = Ok (kr r)) rights ->
  let unmatched := flat_map (fun k => if bool_decide (k ∈ map kl lefts) then [] else with_key kr k rights)
                     (firsts (map kr rights)) in
  join_records lefts rights c =
    Ok (flat_map (left_rows c kl kr rights) lefts
        ++ if keeps_right (joinType c) then unmatched else []) /\
  (joinType c = join_inner ->
   join_records lefts rights c =
     Ok (flat_map (fun l => map (mergeRecords l)
                     (List.filter (fun r => bool_decide (kr r = kl l)) rights)) lefts)).
Proof.
  intros Hl Hr unmatched.
  assert (E : join_records lefts rights c =
    Ok (flat_map (left_rows c kl kr rights) lefts
        ++ if keeps_right (joinType c) then unmatched else [])).
  { unfold join_records. rewrite (right_index_groups kr _ _ Hr).
    cbn [mbind result_mbind result_bind].
    destruct (join_fold c kl kr lefts rights [] [] Hl) as (m & -> & Hm). cbn.
    f_equal. destruct (keeps_right (joinType c)); [|by rewrite app_nil_r].
    f_equal. unfold unmatched, groups_of, tabulate. rewrite map_map, <- flat_map_concat_map.
    apply flat_map_ext_elem. intros k Hk%with_key_ne_nil.
    specialize (Hm k). cbn in Hm. case_bool_decide as Hin.
    - by rewrite (proj2 Hm) by tauto.
    - destruct (mem k m); [naive_solver | done]. }
  split; [exact E|]. intros Hc. rewrite E. unfold keeps_right. rewrite Hc, app_nil_r. f_equal.
  apply flat_map_ext. intros l. unfold left_rows, keeps_left. rewrite Hc.
  change (List.filter _ rights) with (with_key kr (kl l) rights). by destruct (with_key _ _ _).
Qed.

(** ** Pivot and unpivot *)

Section Pivot.
Context (c : PivotConfig) (gk pk : record -> string).

Definition pivots (r : record) : Prop :=
  toJoinKey (get (groupField c) r) = Ok (gk r) /\ toJoinKey (get (pivotField c) r) = Ok (pk r).

Definition has_pivot (r : record) : Prop := is_nullish (get (pivotField c) r) = false.

Lemma pivot_fold l :
  Forall pivots l ->
  foldM (pivot_step c) ([], []) l =
  Ok (tabulate (fun k => groups_of pk (with_key gk k l)) (firsts (map gk l)),
      tabulate (fun k => [(groupField c, get (groupField c) (first_with gk k l))])
        (firsts (map gk l))).
Proof.
  induction l as [|x l IH] using rev_ind; [done|].
  intros [Hl Hx%Forall_cons_1]%Forall_app. destruct Hx as [[Hg Hp] _].
  rewrite foldM_app, (IH Hl). cbn [mbind result_mbind result_bind foldM pivot_step].
  rewrite Hg, Hp. cbn [mbind result_mbind result_bind]. f_equal. f_equal.
  - rewrite map_app. cbn [map]. rewrite firsts_snoc, jm_get_tabulate.
    rewrite <- (jm_set_tabulate (fun k => groups_of pk (with_key gk k l))).
    + f_equal. rewrite with_key_snoc, decide_True, groups_of_snoc by done. unfold push.
      case_bool_decide as Hin; cbn [default]; [done|].
      rewrite with_key_nil; [done|]. contradict Hin. by apply elem_of_firsts.
    + apply firsts_NoDup.
    + intros k _ Hne. rewrite with_key_snoc, decide_False by congruence. by rewrite app_nil_r.
  - rewrite <- (remember_first gk (fun r => [(groupField c, get (groupField c) r)])).
    unfold groups_of. by rewrite !jm_has_tabulate.
Qed.

Lemma pivot_values_spec l seen :
  Forall pivots l -> NoDup seen ->
  exists pvs, pivot_values (pivotField c) seen l = Ok pvs /\ NoDup pvs /\
    forall s, s ∈ pvs <-> s ∈ seen \/ exists r, r ∈ l /\ has_pivot r /\ pk r = s.
Proof.
  intros Hl; revert seen; induction Hl as [|r l [_ Hr] _ IH]; intros seen Hd; cbn [pivot_values].
  - exists seen. split_and!; [done..|]. intros s. split; [by left|].
    intros [?|(r & ?%elem_of_nil & _)]; done.
  - unfold toJoinKey in Hr. destruct (is_nullish (get (pivotField c) r)) eqn:E.
    + destruct (IH seen Hd) as (pvs & Hpv & Hd' & Hin). exists pvs. split_and!; [done..|].
      intros s. rewrite Hin. split; intros [?|(r' & Hr' & Hp & <-)]; eauto; right.
      * exists r'. split_and!; [by constructor | done..].
      * apply elem_of_cons in Hr' as [->|Hr']; [unfold has_pivot in Hp; congruence | eauto].
    + rewrite Hr. cbn [mbind result_mbind result_bind].
      assert (Hadd : (if mem (pk r) seen then seen else seen ++ [pk r]) = add_new seen (pk r)).
      { unfold add_new. destruct (mem (pk r) seen) eqn:Em.
        - by rewrite bool_decide_eq_true_2 by by apply mem_spec.
        - rewrite bool_decide_eq_false_2; [done|]. by rewrite <- mem_spec, Em. }
      rewrite Hadd. destruct (IH (add_new seen (pk r))) as (pvs & Hpv & Hd' & Hin).
      { unfold add_new. case_bool_decide as H; [done|]. apply NoDup_app.
        split_and!; [done | | apply NoDup_singleton]. intros x Hx ->%list_elem_of_singleton. done. }
      exists pvs. split_and!; [done..|]. intros s. rewrite Hin.
      assert (Hs : s ∈ add_new seen (pk r) <-> s ∈ seen \/ s = pk r).
      { unfold add_new. case_bool_decide as H; [naive_solver|].
        by rewrite elem_of_app, list_elem_of_singleton. }
      rewrite Hs. split.
      * intros [[?| ->]|(r' & Hr' & Hp & <-)]; [by left | right | right].
        -- exists r. split_and!; [apply list_elem_of_here | done..].
        -- exists r'. split_and!; [by constructor | done..].
      * intros [?|(r' & [->|Hr']%elem_of_cons & Hp & <-)]; eauto 6.
Qed.
End Pivot.

(** [pivot] gives one row per group value, in order of appearance. In
    each, the column named by a pivot value holds the aggregation of exactly
    the records with that group and that pivot value ([null] or 0 when there
    are none), and the group field holds its value unless a pivot value has
    the field's name. *)
Theorem pivot_spec c gk pk records :
  Forall (pivots c gk pk) records ->
  exists outs, pivot_records records c = Ok outs /\
    Forall2 (fun k out =>
        (forall r, r ∈ records -> has_pivot c r ->
           own_get (pk r) out = Some (applyAggregation
             (with_key pk (pk r) (with_key gk k records)) (valueField c) (aggregation c))) /\
        ((forall r, r ∈ records -> has_pivot c r -> pk r <> groupField c) ->
           exists r, head (with_key gk k records) = Some r /\
             own_get (groupField c) out = Some (get (groupField c) r)))
      (firsts (map gk records)) outs.
Proof.
  intros H. unfold pivot_records.
  destruct (pivot_values_spec c gk pk records [] H (NoDup_nil_2)) as (pvs & -> & Hd & Hin).
  rewrite (pivot_fold c gk pk records H). cbn [mbind result_mbind result_bind].
  eexists. split; [reflexivity|]. unfold tabulate at 2. rewrite map_map.
  apply Forall2_fmap_r, Forall_Forall2_diag, Forall_forall. intros k Hk.
  pose proof (with_key_ne_nil _ _ _ Hk) as Hne. unfold pivot_row. cbn [fst snd compose].
  rewrite jm_get_tabulate, bool_decide_eq_true_2 by done. cbn [default].
  set (cell := fun pv => applyAggregation (default [] (jm_get pv (groups_of pk (with_key gk k records))))
                 (valueField c) (aggregation c)).
  split.
  - intros r Hr Hp.
    rewrite (fold_set_get_in (fun pv => pv) cell) by
      (rewrite ?map_id; first [done | apply Hin; right; eauto]).
    unfold cell. f_equal. f_equal. pose proof (jm_get_groups pk (pk r) (with_key gk k records)) as Hg.
    destruct (jm_get _ _) as [[|]|]; by rewrite Hg.
  - intros Hno. exists (first_with gk k records). split.
    + unfold first_with. by destruct (with_key gk k records).
    + rewrite (fold_set_get_out (fun pv => pv) cell); [cbn; by rewrite decide_True|].
      rewrite map_id. intros [?%elem_of_nil|(r & Hr & Hp & E)]%Hin; [done|]. by apply (Hno r).
Qed.

Lemma base_record_get vfs r k :
  NoDup (map fst r) ->
  own_get k (base_record vfs r) = if mem k vfs then None else own_get k r.
Proof.
  unfold base_record. intros Hd.
  assert (H : forall out, k ∉ map fst r \/ own_get k out = None ->
    own_get k (fold_left (fun base '(k, v) => if mem k vfs then base else set k v base) r out)
    = if mem k vfs then own_get k out else match own_get k r with Some v => Some v | None => own_get k out end).
  { induction r as [|[k' v] r IH]; intros out Hk; cbn [fold_left map fst] in *; [by destruct (mem k vfs)|].
    apply NoDup_cons in Hd as [Hn Hd].
    assert (Hcons : own_get k ((k', v) :: r) = if decide (k = k') then Some v else own_get k r) by done.
    rewrite Hcons. destruct (decide (k = k')) as [->|Hkk].
    - assert (Hnone : own_get k' r = None) by by apply jm_get_None.
      rewrite (IH Hd), Hnone by by left. destruct (mem k' vfs) eqn:E; [done|].
      by rewrite own_get_set, decide_True.
    - assert (Hs : own_get k (if mem k' vfs then out else set k' v out) = own_get k out)
        by (destruct (mem k' vfs); [done|]; by rewrite own_get_set, decide_False by congruence).
      rewrite (IH Hd), Hs; [done|]. destruct Hk as [Hk|Hk]; [left | right; by rewrite Hs].
      rewrite not_elem_of_cons in Hk. tauto. }
  rewrite H by by right. destruct (mem k vfs); [done|]. cbn. by destruct (own_get k r).
Qed.

(** [unpivot] gives one row per record and value field, record by record.
    The row holds the field's name and its value ([null] when absent) in the
    two columns, keeps every other field of the record that is not a value
    field, and has no value field left. *)
Theorem unpivot_spec records c outs :
  Forall (fun r => NoDup (map fst r)) records -> nameColumn c <> valueColumn c ->
  unpivot records c = Ok outs ->
  Forall2 (fun p out =>
      own_get (nameColumn c) out = Some (VStr (snd p)) /\
      own_get (valueColumn c) out = Some (coalesce (get (snd p) (fst p)) VNull) /\
      forall k, k ∉ [nameColumn c; valueColumn c] ->
        own_get k out = if mem k (valueFields c) then None else own_get k (fst p))
    (list_prod records (valueFields c)) outs /\
  length outs = length records * length (valueFields c).
Proof.
  intros Hd Hne H.
  assert (Houts : outs = map (fun p => unpivot_row c (fst p) (snd p)) (list_prod records (valueFields c))).
  { assert (Hu : unpivot records c
      = Ok (concat (map (fun r => map (unpivot_row c r) (valueFields c)) records)))
      by (unfold unpivot in *; by destruct (valueFields c)).
    rewrite Hu in H. assert (outs = concat (map (fun r => map (unpivot_row c r) (valueFields c)) records))
      as -> by congruence.
    clear. generalize (valueFields c) as vfs. intros vfs.
    induction records as [|r rs IH]; cbn [map concat list_prod]; [done|].
    by rewrite IH, map_app, map_map. }
  subst outs. clear H. split; [|by rewrite length_map, length_prod].
  apply Forall2_fmap_r, Forall_Forall2_diag, Forall_forall.
  intros [r f] [Hr _]%list_elem_of_In%in_prod_iff. apply list_elem_of_In in Hr.
  rewrite Forall_forall in Hd. specialize (Hd r Hr). cbn [compose fst snd]. unfold unpivot_row.
  split_and!.
  - rewrite own_get_set, decide_False by done. by rewrite own_get_set, decide_True.
  - by rewrite own_get_set, decide_True.
  - intros k [H1 [H2 _]%not_elem_of_cons]%not_elem_of_cons.
    rewrite !own_get_set, !decide_False by done. by apply base_record_get.
Qed.

(** ** Witnesses *)

Definition sales : list record :=
  [[("id", VStr "a"); ("m", VStr "Jan"); ("n", VNum (num_of_Z 1))];
   [("id", VStr "b"); ("m", VStr "Jan"); ("n", VNum (num_of_Z 2))];
   [("id", VStr "a"); ("m", VStr "Feb"); ("n", VNum (num_of_Z 4))]].

(** [String] of a string field. *)
Definition text_of (f : string) (r : record) : string :=
  match get f r with VStr s => s | _ => EmptyString end.

Definition total_by_id : list AggregationSpec :=
  [{| agg_field := "n"; agg_function := agg_sum; agg_alias := "total" |}].

Lemma aggregate_spec_witness :
  aggregate_records sales ["id"] total_by_id
    = [[("id", VStr "a"); ("total", VNum (num_of_Z 5))];
       [("id", VStr "b"); ("total", VNum (num_of_Z 2))]] /\
  let keys := firsts (map (group_key ["id"]) sales) in
  concat (map (fun k => with_key (group_key ["id"]) k sales) keys) ≡ₚ sales.
Proof.
  split; [vm_compute; reflexivity|].
  apply (aggregate_spec sales ["id"] total_by_id). decide_now.
Defined.

Definition by_id (t : JoinType) : JoinConfig := {| joinType := t; leftKey := "id"; rightKey := "id" |}.

Lemma join_spec_witness :
  join_records sales [[("id", VStr "b"); ("w", VNull)]] (by_id join_inner) =
  Ok (flat_map (fun l => map (mergeRecords l)
        (List.filter (fun r => bool_decide (text_of "id" r = text_of "id" l))
           [[("id", VStr "b"); ("w", VNull)]])) sales).
Proof.
  apply (join_spec (by_id join_inner) sales [[("id", VStr "b"); ("w", VNull)]]
           (text_of "id") (text_of "id")); [by repeat constructor ..|reflexivity].
Defined.

Lemma merge_spec_witness :
  let l := [("id", VStr "a"); ("n", VNull)] in
  let r := [("id", VStr "b"); ("w", VNull)] in
  own_get "id" (mergeRecords l r) = Some (VStr "a") /\
  own_get "right_id" (mergeRecords l r) = Some (VStr "b").
Proof.
  intros l r.
  assert (Hu : Forall unprefixed (map fst l ++ map fst r))
    by (repeat constructor; by intros [k [=]]).
  assert (Hd : NoDup (map fst r)) by (decide_now).
  split.
  - by apply (proj1 (merge_spec l r Hd Hu) "id" (VStr "a")).
  - by apply (proj2 (merge_spec l r Hd Hu) "id" (VStr "b")).
Defined.

Definition by_month : PivotConfig :=
  {| groupField := "id"; pivotField := "m"; valueField := "n"; aggregation := agg_sum |}.

Lemma pivot_spec_witness :
  exists outs, pivot_records sales by_month = Ok outs /\ length outs = 2 /\
    Forall (fun out => is_Some (own_get "Feb" out)) outs.
Proof.
  destruct (pivot_spec by_month (text_of "id") (text_of "m") sales) as (outs & E & H);
    [by repeat constructor|].
  exists outs. split_and!; [exact E | etrans; [symmetry; exact (Forall2_length _ _ _ H)|]; reflexivity|].
  eapply Forall2_Forall_r; [exact H|]. apply Forall_forall. intros k _ out [Hc _].
  eexists. apply (Hc [("id", VStr "a"); ("m", VStr "Feb"); ("n", VNum (num_of_Z 4))]); [|done].
  by do 2 constructor 2; constructor.
Defined.

Definition melt : UnpivotConfig :=
  {| keyField := "id"; valueFields := ["m"; "n"]; nameColumn := "k"; valueColumn := "v" |}.

Lemma unpivot_spec_witness :
  exists outs, unpivot sales melt = Ok outs /\ length outs = 6.
Proof.
  eexists. split; [reflexivity|].
  eapply (unpivot_spec sales melt); [|done|reflexivity].
  repeat constructor; decide_now.
Defined.
