(* ===== verification/TransformSort.v ===== *)
(** * Transform engine: sort

    [sort] of [services/pipeline/src/services/transform-engine.ts]: the
    comparison of two records over several fields, and the order it induces. *)

From S2P Require Import Prelude JsString JsNumber JsValue JsHost Transform TransformTables.
From Stdlib Require Import Ascii Sorted.

Inductive direction : Type := asc | desc.

Record SortField : Type := { sort_field : string; sort_direction : direction }.

Section Sort.
Context {host : Host}.

(** The sign of [av - bv], or of the collation of the strings.  A NaN
    difference ([None]) ends the comparison, and [Array.prototype.sort] takes
    it for an equality. *)
Definition compare_values (av bv : value) : result transform_error (option comparison) :=
  match av, bv with
  | VNum a, VNum b => Ok (number_sign (num_sub a b))
  | _, _ => s ← toString av; t ← toString bv; Ok (Some (locale_compare s t))
  end.

Definition oriented (d : direction) (c : comparison) : comparison :=
  match d with asc => c | desc => CompOpp c end.

Fixpoint compare_records (fields : list SortField) (a b : record)
    : result transform_error comparison :=
  match fields with
  | [] => Ok Eq
  | f :: fields =>
      let av := get (sort_field f) a in
      let bv := get (sort_field f) b in
      if is_nullish av && is_nullish bv then compare_records fields a b
      else if is_nullish av then Ok Gt
      else if is_nullish bv then Ok Lt
      else
        c ← compare_values av bv;
        match c with
        | None => Ok Eq
        | Some Eq => compare_records fields a b
        | Some c => Ok (oriented (sort_direction f) c)
        end
  end.

(** [Array.prototype.sort] is stable; for a comparison that is a total
    preorder its result is determined, and insertion sort computes it. *)
Fixpoint insert_record (fields : list SortField) (r : record) (l : list record)
    : result transform_error (list record) :=
  match l with
  | [] => Ok [r]
  | x :: l' =>
      c ← compare_records fields r x;
      match c with
      | Gt => l'' ← insert_record fields r l'; Ok (x :: l'')
      | _ => Ok (r :: l)
      end
  end.

Fixpoint sort_records (fields : list SortField) (l : list record)
    : result transform_error (list record) :=
  match l with
  | [] => Ok []
  | r :: l => sorted ← sort_records fields l; insert_record fields r sorted
  end.

Definition sort (env : option string) (records : list record) (fields : list SortField)
    (logger : bool) : logged (list record) :=
  match fields with
  | [] => ([], Err EmptySortFields)
  | _ => (warnIfExceedsMemoryThreshold env "sort" (Z.of_nat (length records)) logger,
          sort_records fields records)
  end.

(** ** Comparisons that are total preorders *)

Record preorder_cmp {A} (c : A -> A -> comparison) : Prop := {
  cmp_antisym : forall a b, c b a = CompOpp (c a b);
  cmp_trans : forall a b d, c a b <> Gt -> c b d <> Gt -> c a d <> Gt
}.

Definition lex2 {A} (c1 c2 : A -> A -> comparison) (a b : A) : comparison :=
  match c1 a b with Eq => c2 a b | c => c end.

Definition nulls_last {A} (null : A -> bool) (c : A -> A -> comparison) (a b : A) : comparison :=
  match null a, null b with
  | true, true => Eq
  | true, false => Gt
  | false, true => Lt
  | false, false => c a b
  end.

Section Preorders.
Context {A : Type}.
Implicit Types c : A -> A -> comparison.

Lemma cmp_eq_trans_l c (Hc : preorder_cmp c) a b d : c a b = Eq -> c a d = c b d.
Proof.
  intros E. assert (E' : c b a = Eq) by (by rewrite (cmp_antisym c Hc a b), E).
  pose proof (cmp_antisym c Hc a d) as Had. pose proof (cmp_antisym c Hc b d) as Hbd.
  pose proof (cmp_trans c Hc a b d) as H1. pose proof (cmp_trans c Hc b a d) as H2.
  pose proof (cmp_trans c Hc d b a) as H3. pose proof (cmp_trans c Hc d a b) as H4.
  rewrite Had, Hbd, E, E' in *. destruct (c a d), (c b d); cbn in *; try done; exfalso; naive_solver.
Qed.

Lemma preorder_const : preorder_cmp (fun _ _ : A => Eq).
Proof. split; done. Qed.

Lemma preorder_lex c1 c2 : preorder_cmp c1 -> preorder_cmp c2 -> preorder_cmp (lex2 c1 c2).
Proof.
  intros H1 H2. split; unfold lex2.
  - intros a b. rewrite (cmp_antisym c1 H1 a b). destruct (c1 a b); cbn; try done.
    apply (cmp_antisym c2 H2).
  - intros a b d.
    destruct (c1 a b) eqn:Eab; [| |done].
    + rewrite (cmp_eq_trans_l c1 H1 a b d Eab). destruct (c1 b d); [|done|done].
      apply (cmp_trans c2 H2).
    + intros _ Hbd. assert (c1 a d = Lt) as ->; [|done].
      pose proof (cmp_trans c1 H1 a b d) as Ht. rewrite Eab in Ht.
      destruct (c1 a d) eqn:Ead; [|done|].
      * pose proof (cmp_eq_trans_l c1 H1 a d b Ead) as Hdb. rewrite Eab in Hdb.
        rewrite (cmp_antisym c1 H1 d b) in Hbd. rewrite <- Hdb in Hbd. done.
      * exfalso. apply Ht; [done| |done]. by destruct (c1 b d).
Qed.

Lemma preorder_nulls_last null c : preorder_cmp c -> preorder_cmp (nulls_last null c).
Proof.
  intros H. split; unfold nulls_last.
  - intros a b. destruct (null a), (null b); try done. apply (cmp_antisym c H).
  - intros a b d. destruct (null a), (null b), (null d); try done. apply (cmp_trans c H).
Qed.

Lemma preorder_oriented d c : preorder_cmp c -> preorder_cmp (fun a b => oriented d (c a b)).
Proof.
  intros H. destruct d; cbn; [by destruct H|]. split.
  - intros a b. by rewrite (cmp_antisym c H a b).
  - intros x y z. rewrite <- !(cmp_antisym c H). intros H1 H2. by apply (cmp_trans c H z y x).
Qed.
End Preorders.

Lemma preorder_comap {A B} (f : A -> B) c :
  preorder_cmp c -> preorder_cmp (fun a b => c (f a) (f b)).
Proof. intros H. split; intros; [apply (cmp_antisym c H) | by eapply (cmp_trans c H)]. Qed.

Lemma preorder_Z : preorder_cmp Z.compare.
Proof.
  split; [intros; apply Z.compare_antisym|]. intros a b d. rewrite !Z.compare_ngt_iff. lia.
Qed.

Lemma preorder_locale {L : HostLaws host} : preorder_cmp locale_compare.
Proof. split; [apply locale_antisym | apply locale_trans]. Qed.

(** ** The order on records *)

(** What a sort column holds, null and absent values apart. *)
Inductive column : Type := numeric | textual.

Definition value_units (v : value) : Z := match v with VNum n => units n | _ => 0%Z end.
Definition value_text (v : value) : string := default EmptyString (to_string v).

Definition column_cmp (k : column) : value -> value -> comparison :=
  match k with
  | numeric => fun v w => Z.compare (value_units v) (value_units w)
  | textual => fun v w => locale_compare (value_text v) (value_text w)
  end.

Definition field_cmp (k : column) (f : SortField) (a b : record) : comparison :=
  nulls_last is_nullish (fun v w => oriented (sort_direction f) (column_cmp k v w))
    (get (sort_field f) a) (get (sort_field f) b).

(** Lexicographic over the fields, each ascending or descending by value or by
    collation, with null and absent values last in both directions. *)
Fixpoint record_cmp (kind : string -> column) (fields : list SortField) (a b : record)
    : comparison :=
  match fields with
  | [] => Eq
  | f :: fields => lex2 (field_cmp (kind (sort_field f)) f) (record_cmp kind fields) a b
  end.

Definition fits (k : column) (v : value) : Prop :=
  match k, v with
  | _, (VUndef | VNull) => True
  | numeric, VNum n => wf_finite n
  | textual, (VBool _ | VStr _) => True
  | _, _ => False
  end.

Definition sortable (kind : string -> column) (fields : list SortField) (r : record) : Prop :=
  Forall (fun f => fits (kind (sort_field f)) (get (sort_field f) r)) fields.

Lemma preorder_record {L : HostLaws host} kind fields : preorder_cmp (record_cmp kind fields).
Proof.
  induction fields as [|f fields IH]; [apply preorder_const|].
  change (preorder_cmp (lex2 (field_cmp (kind (sort_field f)) f) (record_cmp kind fields))).
  apply preorder_lex; [|done].
  apply (preorder_comap (get (sort_field f))), preorder_nulls_last, preorder_oriented.
  destruct (kind (sort_field f)); cbn [column_cmp].
  - apply (preorder_comap value_units), preorder_Z.
  - apply (preorder_comap value_text), preorder_locale.
Qed.

Lemma compare_values_fits k v w :
  is_nullish v = false -> is_nullish w = false -> fits k v -> fits k w ->
  compare_values v w = Ok (Some (column_cmp k v w)).
Proof.
  destruct k, v, w; cbn; try done; intros _ _ Hv Hw. by rewrite num_sub_sign.
Qed.

Lemma compare_records_cmp kind fields a b :
  sortable kind fields a -> sortable kind fields b ->
  compare_records fields a b = Ok (record_cmp kind fields a b).
Proof.
  unfold sortable. induction fields as [|f fields IH]; [done|].
  intros [Ha Has]%Forall_cons_1 [Hb Hbs]%Forall_cons_1.
  cbn [compare_records record_cmp]. unfold lex2, field_cmp, nulls_last.
  destruct (is_nullish (get (sort_field f) a)) eqn:Ea,
           (is_nullish (get (sort_field f) b)) eqn:Eb; cbn; try done; [by apply IH|].
  rewrite (compare_values_fits _ _ _ Ea Eb Ha Hb). cbn.
  destruct (column_cmp _ _ _), (sort_direction f); cbn; by rewrite ?IH.
Qed.

(** ** Insertion sort under a total preorder *)

Definition ordered {A} (c : A -> A -> comparison) (a b : A) : Prop := c a b <> Gt.

Section Insertion.
Context (fields : list SortField) (cmp : record -> record -> comparison) (Hc : preorder_cmp cmp).
Context (P : record -> Prop).
Context (Hcmp : forall a b, P a -> P b -> compare_records fields a b = Ok (cmp a b)).

Abbreviation le := (ordered cmp).

Definition class_of (x : record) (l : list record) : list record :=
  List.filter (fun y => match cmp x y with Eq => true | _ => false end) l.

Lemma insert_spec r l :
  P r -> Forall P l -> StronglySorted le l ->
  exists out, insert_record fields r l = Ok out /\ out ≡ₚ r :: l /\ StronglySorted le out /\
    forall x, class_of x out = class_of x (r :: l).
Proof.
  intros Hr. induction l as [|y l IH]; intros Hl Hs.
  - exists [r]. repeat split; try done. by repeat constructor.
  - apply Forall_cons_1 in Hl as [Hy Hl]. apply StronglySorted_inv in Hs as [Hs Hall].
    cbn [insert_record]. rewrite (Hcmp r y Hr Hy). cbn [mbind result_mbind result_bind].
    assert (Hhere : le r y -> StronglySorted le (r :: y :: l)).
    { intros Hle. constructor; [by constructor|]. constructor; [done|].
      eapply Forall_impl; [exact Hall|]. intros z Hz. by apply (cmp_trans cmp Hc r y z). }
    unfold ordered in Hhere.
    destruct (cmp r y) eqn:E;
      [exists (r :: y :: l); split_and!; try done; by apply Hhere ..|].
    destruct (IH Hl Hs) as (out & -> & Hp & Hso & Hclass). cbn. exists (y :: out).
    split_and!; [done | rewrite Hp; apply Permutation_swap | |].
    + constructor; [done|]. rewrite Hp. constructor; [|done].
      unfold ordered. rewrite (cmp_antisym cmp Hc r y), E. done.
    + intros x. specialize (Hclass x). unfold class_of in *. cbn in *. rewrite Hclass.
      destruct (cmp x y) eqn:Exy; cbn; try done.
      rewrite (cmp_antisym cmp Hc r x).
      pose proof (cmp_eq_trans_l cmp Hc x y r Exy) as Hxr.
      rewrite (cmp_antisym cmp Hc r x), (cmp_antisym cmp Hc r y), E in Hxr.
      by rewrite Hxr.
Qed.

Lemma sort_records_spec l :
  Forall P l ->
  exists out, sort_records fields l = Ok out /\ out ≡ₚ l /\ StronglySorted le out /\
    forall x, class_of x out = class_of x l.
Proof.
  induction 1 as [|r l Hr Hl IH].
  - exists []. repeat split; try done. constructor.
  - destruct IH as (out & E & Hp & Hs & Hclass). cbn [sort_records]. rewrite E.
    cbn [mbind result_mbind result_bind].
    destruct (insert_spec r out Hr) as (out' & E' & Hp' & Hs' & Hclass'); try done; [by rewrite Hp|].
    exists out'. repeat split; try done; [by rewrite Hp', Hp|].
    intros x. rewrite Hclass'. unfold class_of in *. cbn. by rewrite Hclass.
Qed.
End Insertion.

(** ** Properties *)

(** [sort] is a stable sort. When every sort column holds finite numbers
    or strings and booleans (null or absent values anywhere), sorting never
    fails; the result is a permutation of the input, ordered lexicographically
    by the fields (numbers by value, texts by collation, each in its
    direction, nulls last in both), and records that compare equal keep their
    order. *)
Theorem sort_spec {L : HostLaws host} env logger kind f fs records :
  Forall (sortable kind (f :: fs)) records ->
  let cmp := record_cmp kind (f :: fs) in
  exists out, snd (sort env records (f :: fs) logger) = Ok out /\
    out ≡ₚ records /\
    StronglySorted (ordered cmp) out /\
    (forall x, class_of cmp x out = class_of cmp x records).
Proof.
  intros H cmp. cbn [sort snd].
  apply (sort_records_spec (f :: fs) cmp (preorder_record kind (f :: fs)) (sortable kind (f :: fs)));
    [|done].
  intros a b. apply compare_records_cmp.
Qed.
End Sort.

(** ** Witness *)

Definition unsorted : list record :=
  [[("n", VNull)]; [("n", VNum (num_of_Z 2))]; [("n", VNum (num_of_string "1.5"))]].

Definition by_n : SortField := {| sort_field := "n"; sort_direction := desc |}.

Lemma sort_spec_witness :
  exists out, snd (sort (host := plain_host) None unsorted [by_n] true) = Ok out /\
    map (get "n") out = [VNum (num_of_Z 2); VNum (num_of_string "1.5"); VNull] /\
    out ≡ₚ unsorted.
Proof.
  destruct (sort_spec (host := plain_host) None true (fun _ => numeric) by_n [] unsorted)
    as (out & E & Hp & _).
  - unfold unsorted, sortable. repeat (constructor; try (vm_compute; congruence)).
  - exists out. split_and!; [exact E | | exact Hp].
    vm_compute in E. injection E as <-. vm_compute. reflexivity.
Defined.
