(* ===== verification/SsrfBlocklist.v ===== *)
(** * The URL blocklist of the pipeline service

    [services/pipeline/src/services/ssrf-blocklist.ts]: the patterns, as
    matchers over characters, and [isUrlSsrfBlocked]. *)

From S2P Require Import Prelude JsString.
From Stdlib Require Import Ascii.

(** ** Matchers

    A matcher reads a prefix of the input and returns the rest.  Where a
    pattern repeats or chooses, what follows cannot match what the repetition
    reads, so one result is enough. *)

Definition matcher : Type := list ascii -> option (list ascii).

Declare Scope matcher_scope.
Delimit Scope matcher_scope with matcher.
Bind Scope matcher_scope with matcher.

Fixpoint literal (p l : list ascii) : option (list ascii) :=
  match p, l with
  | [], _ => Some l
  | a :: p, b :: l => if Ascii.eqb a b then literal p l else None
  | _ :: _, [] => None
  end.

(** A literal of a pattern with the flag [i]; [p] is in lower case. *)
Fixpoint literal_i (p l : list ascii) : option (list ascii) :=
  match p, l with
  | [], _ => Some l
  | a :: p, b :: l => if Ascii.eqb a (lower_char b) then literal_i p l else None
  | _ :: _, [] => None
  end.

Definition lit (s : string) : matcher := literal (explode s).
Definition lit_i (s : string) : matcher := literal_i (explode s).

(** [\d+] *)
Definition digits : matcher := fun l =>
  match span is_digit l with
  | ([], _) => None
  | (_, rest) => Some rest
  end.

(** One character of a class. *)
Definition one (p : ascii -> bool) : matcher := fun l =>
  match l with c :: l => if p c then Some l else None | [] => None end.

Definition then_ (m n : matcher) : matcher := fun l => l' ← m l; n l'.
Definition or_ (m n : matcher) : matcher := fun l => match m l with Some l' => Some l' | None => n l end.

Infix "++" := then_ : matcher_scope.

(** [https?:\/\/] *)
Definition scheme (lit : string -> matcher) : matcher :=
  (lit "http" ++ or_ (lit "s") Some ++ lit "://")%matcher.

(** [(:\d+)?(\/|$)] *)
Definition authority_end : matcher :=
  (or_ (lit ":" ++ digits) Some ++ (fun l => match l with [] => Some [] | _ => lit "/" l end))%matcher.

Definition dot_digits : matcher := (lit "." ++ digits)%matcher.

(** [1[6-9]|2\d|3[01]] *)
Definition sixteen_to_31 : matcher :=
  or_ (lit "1" ++ one (code_in 54 57))
    (or_ (lit "2" ++ one is_digit) (lit "3" ++ one (code_in 48 49)))%matcher.

Definition SSRF_BLOCKED_PATTERNS : list matcher :=
  ([ scheme lit_i ++ lit_i "localhost" ++ authority_end;
     scheme lit ++ lit "127" ++ dot_digits ++ dot_digits ++ dot_digits ++ authority_end;
     scheme lit_i ++ lit_i "[::1]" ++ authority_end;
     scheme lit ++ lit "0.0.0.0" ++ authority_end;
     scheme lit ++ lit "10" ++ dot_digits ++ dot_digits ++ dot_digits ++ authority_end;
     scheme lit ++ lit "172." ++ sixteen_to_31 ++ dot_digits ++ dot_digits ++ authority_end;
     scheme lit ++ lit "192.168" ++ dot_digits ++ dot_digits ++ authority_end;
     scheme lit ++ lit "169.254" ++ dot_digits ++ dot_digits ++ authority_end;
     scheme lit_i ++ lit_i "[fe80:";
     scheme lit_i ++ lit_i "metadata.google.internal" ++ authority_end;
     scheme lit ++ lit "100.100.100.200" ++ authority_end ])%matcher.

Definition isUrlSsrfBlocked (url : string) : bool :=
  existsb (fun m : matcher => match m (explode url) with Some _ => true | None => false end)
    SSRF_BLOCKED_PATTERNS.

(** ** Matching a dotted address *)

Definition digit_text (l : list ascii) : Prop := l <> [] /\ Forall (fun c => is_digit c = true) l.

(** The rest does not go on with a digit. *)
Definition no_digit (r : list ascii) : Prop := match r with c :: _ => is_digit c = false | [] => True end.

(** [m] matches nothing that starts with a digit. *)
Definition stops (m : matcher) : Prop := forall c l, is_digit c = true -> m (c :: l) = None.

Lemma literal_app p q l : literal (p ++ q) l = (l' ← literal p l; literal q l').
Proof. revert l. induction p as [|a p IH]; intros [|b l]; cbn; try done. by destruct (Ascii.eqb a b). Qed.

(** A number between dots is matched by its own digits only. *)
Lemma literal_number p a (m : matcher) r :
  Forall (fun c => is_digit c = true) p -> Forall (fun c => is_digit c = true) a -> no_digit r -> stops m ->
  (l ← literal p (a ++ r); m l) = if decide (a = p) then m r else None.
Proof.
  intros Hp. revert a. induction Hp as [|x p Hx _ IH]; intros a Ha Hr Hm; cbn [literal].
  - destruct Ha as [|y a Hy _]; cbn; [done|]. by rewrite Hm.
  - destruct Ha as [|y a Hy Ha]; cbn [app].
    + rewrite decide_False by done. destruct r as [|z r]; [done|]. cbn in Hr.
      destruct (Ascii.eqb_spec x z) as [->|]; [congruence|done].
    + destruct (Ascii.eqb_spec x y) as [->|Hne].
      * rewrite IH by done. destruct (decide (a = p)) as [->|]; [by rewrite decide_True|]. rewrite decide_False by congruence. done.
      * rewrite decide_False by congruence. done.
Qed.

Lemma span_digits a r :
  Forall (fun c => is_digit c = true) a -> no_digit r -> span is_digit (a ++ r) = (a, r).
Proof.
  intros Ha Hr. induction Ha as [|x a Hx _ IH]; cbn [app span].
  - destruct r as [|y r]; [done|]. cbn in Hr. by cbn [span]; rewrite Hr.
  - by rewrite Hx, IH.
Qed.

Lemma dot_digits_spec a r : digit_text a -> no_digit r -> dot_digits ("."%char :: a ++ r) = Some r.
Proof.
  intros [Hne Ha] Hr. change (digits (a ++ r) = Some r). unfold digits. rewrite span_digits by done. by destruct a.
Qed.

Lemma stops_dot m : stops (then_ dot_digits m).
Proof. intros c l Hc. unfold then_, dot_digits, then_. cbn. destruct (Ascii.eqb_spec "." c) as [<-|]; done. Qed.

Lemma stops_authority_end : stops authority_end.
Proof.
  intros c l Hc. unfold authority_end, then_, or_. cbn.
  destruct (Ascii.eqb_spec ":" c) as [<-|_]; [done|]. cbn. by destruct (Ascii.eqb_spec "/" c) as [<-|_].
Qed.

Lemma stops_lit x p m : is_digit x = false -> stops (then_ (lit (String x p)) m).
Proof. intros Hx c l Hc. unfold then_, lit. cbn. destruct (Ascii.eqb_spec x c) as [->|]; [congruence|done]. Qed.

Lemma lit_number p a m r :
  Forall (fun c => is_digit c = true) (explode p) -> digit_text a -> no_digit r -> stops m ->
  then_ (lit p) m (a ++ r) = if decide (a = explode p) then m r else None.
Proof. intros Hp [_ Ha]. by apply literal_number. Qed.

Lemma lit_app p q m l : then_ (lit (p +:+ q)) m l = then_ (lit p) (then_ (lit q) m) l.
Proof. unfold then_, lit. rewrite explode_app, literal_app. by destruct (literal (explode p) l). Qed.

Lemma lit_dot m r : then_ (lit ".") m ("."%char :: r) = m r.
Proof. done. Qed.

Lemma dot_number a m r : digit_text a -> no_digit r -> then_ dot_digits m ("."%char :: a ++ r) = m r.
Proof. intros Ha Hr. unfold then_ at 1. by rewrite dot_digits_spec. Qed.

Lemma no_digit_dot r : no_digit ("."%char :: r).
Proof. done. Qed.

Lemma digits_by_computation p : forallb is_digit (explode p) = true -> Forall (fun c => is_digit c = true) (explode p).
Proof. rewrite forallb_elem, Forall_forall. auto. Qed.

(** A digit is one of ten characters. *)
Lemma digit_cases c : is_digit c = true -> c ∈ explode "0123456789".
Proof. destruct c as [[] [] [] [] [] [] [] []]; vm_compute; intros H; first [discriminate | repeat (first [apply list_elem_of_here | apply list_elem_of_further])]. Qed.

Definition sixteen_to_31_texts : list string :=
  ["16"; "17"; "18"; "19"; "20"; "21"; "22"; "23"; "24"; "25"; "26"; "27"; "28"; "29"; "30"; "31"].

Lemma class_digit lo hi z :
  (48 <= lo)%N -> (hi <= 57)%N -> is_digit z = false -> code_in lo hi z = false.
Proof. unfold is_digit, code_in. rewrite !andb_false_iff, !N.leb_gt. lia. Qed.

Ltac digit_char H :=
  apply digit_cases in H; cbn in H;
  repeat (apply elem_of_cons in H as [->|H]; [|]); [.. | by apply not_elem_of_nil in H].

Lemma sixteen_one x r : is_digit x = true -> no_digit r -> sixteen_to_31 (x :: r) = None.
Proof.
  intros Hx Hr. digit_char Hx; destruct r as [|z r]; try reflexivity; cbn in Hr;
    cbv -[code_in is_digit]; rewrite ?Hr, ?class_digit by (done || lia); reflexivity.
Qed.

Lemma sixteen_number b m r :
  digit_text b -> no_digit r -> stops m ->
  then_ sixteen_to_31 m (b ++ r) = if decide (implode b ∈ sixteen_to_31_texts) then m r else None.
Proof.
  intros [Hne Hb] Hr Hm. destruct b as [|x [|y b]]; [done| |].
  - apply Forall_cons in Hb as [Hx _]. unfold then_ at 1. cbn [app]. rewrite sixteen_one by done.
    rewrite decide_False; [done|]. clear. intros Hin. repeat (apply elem_of_cons in Hin as [Hin|Hin]; [by injection Hin|]). by apply not_elem_of_nil in Hin.
  - apply Forall_cons in Hb as [Hx Hb]. apply Forall_cons in Hb as [Hy Hb].
    destruct b as [|z b].
    + clear Hne Hb Hm. digit_char Hx; digit_char Hy; reflexivity.
    + apply Forall_cons in Hb as [Hz Hb]. rewrite decide_False.
      * clear Hne. digit_char Hx; digit_char Hy; try reflexivity; apply Hm; done.
      * intros Hin. clear -Hin. repeat (apply elem_of_cons in Hin as [Hin|Hin]; [by injection Hin|]). by apply not_elem_of_nil in Hin.
Qed.

(** ** Addresses in a URL *)

Definition scheme_text (secure : bool) : string := if secure then "https://" else "http://".

Lemma scheme_spec secure m l : then_ (scheme lit) m (explode (scheme_text secure) ++ l) = m l.
Proof. by destruct secure. Qed.

(** A pattern on a name does not match a number. *)
Lemma scheme_name secure x p m c l :
  is_digit c = true -> is_digit x = false -> is_digit (lower_char c) = true ->
  then_ (scheme lit_i) (then_ (lit_i (String x p)) m) (explode (scheme_text secure) ++ c :: l) = None.
Proof.
  intros Hc Hx Hl. assert (Ascii.eqb x (lower_char c) = false) as He.
  { destruct (Ascii.eqb_spec x (lower_char c)) as [->|]; [congruence|done]. }
  assert (H : lit_i (String x p) (c :: l) = None) by (unfold lit_i; cbn; by rewrite He).
  unfold then_ at 1. replace (scheme lit_i _) with (Some (c :: l)) by (by destruct secure).
  change (then_ (lit_i (String x p)) m (c :: l) = None). unfold then_. by rewrite H.
Qed.

(** Loopback, unspecified, private, link-local and one metadata address. *)
Definition private_ipv4 (a b c d : string) : bool :=
  bool_decide (a = "127")
  || bool_decide (a = "0" /\ b = "0" /\ c = "0" /\ d = "0")
  || bool_decide (a = "10")
  || bool_decide (a = "172" /\ b ∈ sixteen_to_31_texts)
  || bool_decide (a = "192" /\ b = "168")
  || bool_decide (a = "169" /\ b = "254")
  || bool_decide (a = "100" /\ b = "100" /\ c = "100" /\ d = "200").

(** The end of the host: nothing, a path, a port, a port and a path. *)
Definition host_end (tail : string) : bool :=
  match authority_end (explode tail) with Some _ => true | None => false end.

Lemma if_explode {A} (s t : string) (x y : A) :
  (if decide (explode s = explode t) then x else y) = if decide (s = t) then x else y.
Proof. destruct (decide (s = t)) as [->|H]; [by rewrite decide_True|]. rewrite decide_False; [done|]. by intros E%explode_inj. Qed.

Definition number_text (s : string) : Prop := digit_text (explode s).

Section Dotted.
Context (secure : bool) (a b c d tail : string).
Context (Ha : number_text a) (Hb : number_text b) (Hc : number_text c) (Hd : number_text d) (Htail : no_digit (explode tail)).

Let rest : list ascii :=
  explode a ++ "."%char :: explode b ++ "."%char :: explode c ++ "."%char :: explode d ++ explode tail.

Ltac numbers := repeat first
  [ rewrite dot_number; [| first [assumption | exact Ha | exact Hb | exact Hc | exact Hd] | first [apply no_digit_dot | exact Htail]]
  | rewrite lit_app
  | rewrite lit_dot
  | rewrite lit_number; [rewrite if_explode; case_decide | by apply digits_by_computation
      | first [exact Ha | exact Hb | exact Hc | exact Hd] | first [apply no_digit_dot | exact Htail]
      | first [apply stops_dot | apply stops_authority_end | by apply stops_lit]] ].

Lemma pattern_first p :
  forallb is_digit (explode p) = true ->
  then_ (scheme lit) (then_ (lit p) (then_ dot_digits (then_ dot_digits (then_ dot_digits authority_end))))
    (explode (scheme_text secure) ++ rest)
  = if decide (a = p) then authority_end (explode tail) else None.
Proof. intros Hp. rewrite scheme_spec. unfold rest. numbers; repeat case_decide; tauto. Qed.

Lemma pattern_second p q pq :
  pq = p +:+ "." +:+ q -> forallb is_digit (explode p) = true -> forallb is_digit (explode q) = true ->
  then_ (scheme lit) (then_ (lit pq) (then_ dot_digits (then_ dot_digits authority_end)))
    (explode (scheme_text secure) ++ rest)
  = if decide (a = p /\ b = q) then authority_end (explode tail) else None.
Proof.
  intros -> Hp Hq. rewrite scheme_spec, !lit_app. unfold rest. numbers; repeat case_decide; tauto.
Qed.

Lemma pattern_exact p q r s pqrs :
  pqrs = p +:+ "." +:+ q +:+ "." +:+ r +:+ "." +:+ s ->
  forallb is_digit (explode (p +:+ q +:+ r +:+ s)) = true ->
  then_ (scheme lit) (then_ (lit pqrs) authority_end) (explode (scheme_text secure) ++ rest)
  = if decide (a = p /\ b = q /\ c = r /\ d = s) then authority_end (explode tail) else None.
Proof.
  rewrite !explode_app, !forallb_app, !andb_true_iff. intros -> (Hp & Hq & Hr & Hs).
  rewrite scheme_spec, !lit_app. unfold rest. numbers; repeat case_decide; tauto.
Qed.

Lemma pattern_sixteen p pdot :
  pdot = p +:+ "." -> forallb is_digit (explode p) = true ->
  then_ (scheme lit) (then_ (lit pdot) (then_ sixteen_to_31 (then_ dot_digits (then_ dot_digits authority_end))))
    (explode (scheme_text secure) ++ rest)
  = if decide (a = p /\ b ∈ sixteen_to_31_texts) then authority_end (explode tail) else None.
Proof.
  intros -> Hp. rewrite scheme_spec. unfold rest. numbers; [|case_decide; tauto].
  rewrite sixteen_number, implode_explode by (exact Hb || apply no_digit_dot || apply stops_dot).
  numbers; repeat case_decide; tauto.
Qed.

Lemma pattern_name x p m :
  is_digit x = false -> then_ (scheme lit_i) (then_ (lit_i (String x p)) m) (explode (scheme_text secure) ++ rest) = None.
Proof.
  intros Hx. destruct Ha as [Hne Hall]. unfold rest. destruct (explode a) as [|y l]; [done|]. cbn [app].
  apply Forall_cons in Hall as [Hy _]. apply scheme_name; [done|done|]. clear -Hy. by digit_char Hy.
Qed.

Lemma pattern_bracket x p :
  is_digit x = false -> then_ (scheme lit_i) (lit_i (String x p)) (explode (scheme_text secure) ++ rest) = None.
Proof.
  intros Hx. pose proof (pattern_name x p Some Hx) as H. unfold then_ in *.
  destruct (scheme lit_i _) as [l|]; [|done].
  change ((lit_i (String x p) l ≫= Some) = None) in H. change (lit_i (String x p) l = None). by destruct (lit_i _ l).
Qed.
End Dotted.

Lemma matched_and (p : Prop) `{Decision p} (o : option (list ascii)) :
  match (if decide p then o else None) with Some _ => true | None => false end
  = bool_decide p && match o with Some _ => true | None => false end.
Proof. case_bool_decide; [by rewrite decide_True|by rewrite decide_False]. Qed.

(** A URL whose host is written as four decimal numbers is blocked exactly
    when the address is loopback, unspecified, private, link-local or the
    metadata address as written, and the host is followed by nothing, a port,
    or a path: a query or user info after the numbers escapes the list. *)
Theorem blocklist_ipv4 secure a b c d tail :
  number_text a -> number_text b -> number_text c -> number_text d -> no_digit (explode tail) ->
  isUrlSsrfBlocked (scheme_text secure +:+ a +:+ "." +:+ b +:+ "." +:+ c +:+ "." +:+ d +:+ tail)
  = private_ipv4 a b c d && host_end tail.
Proof.
  intros Ha Hb Hc Hd Ht. unfold isUrlSsrfBlocked. rewrite !explode_app. unfold SSRF_BLOCKED_PATTERNS. cbn [existsb].
  change (explode ".") with ["."%char]. cbn [app].
  rewrite !pattern_name, pattern_bracket by done.
  rewrite !(pattern_first secure a b c d tail Ha Hb Hc Hd Ht) by done.
  rewrite (pattern_exact secure a b c d tail Ha Hb Hc Hd Ht "0" "0" "0" "0"), (pattern_exact secure a b c d tail Ha Hb Hc Hd Ht "100" "100" "100" "200") by done.
  rewrite (pattern_second secure a b c d tail Ha Hb Hc Hd Ht "192" "168"), (pattern_second secure a b c d tail Ha Hb Hc Hd Ht "169" "254") by done.
  rewrite (pattern_sixteen secure a b c d tail Ha Hb Hc Hd Ht "172" "172.") by done.
  rewrite !matched_and. unfold private_ipv4, host_end. destruct (authority_end _);
    rewrite ?andb_true_r, ?andb_false_r, ?orb_false_l, ?orb_false_r, ?orb_assoc; done.
Qed.

(** The host of this URL is 127.0.0.1. *)
Example blocklist_query : isUrlSsrfBlocked "http://127.0.0.1/" = true /\ isUrlSsrfBlocked "http://127.0.0.1?x=1" = false.
Proof. split; vm_compute; reflexivity. Qed.

Lemma number_text_computation s : negb (String.eqb s EmptyString) && forallb is_digit (explode s) = true -> number_text s.
Proof.
  rewrite andb_true_iff, negb_true_iff, String.eqb_neq. intros [Hne H]. split; [by destruct s|].
  by apply digits_by_computation.
Qed.

Lemma blocklist_ipv4_witness :
  isUrlSsrfBlocked "https://172.31.0.7:8080/x" = private_ipv4 "172" "31" "0" "7" && host_end ":8080/x"
  /\ private_ipv4 "172" "31" "0" "7" && host_end ":8080/x" = true.
Proof.
  split; [|vm_compute; reflexivity].
  apply (blocklist_ipv4 true "172" "31" "0" "7" ":8080/x"); [apply number_text_computation; reflexivity..|reflexivity].
Defined.
