(* ===== verification/PipelineDef.v ===== *)
(** * Pipeline definitions

    The step types of services/pipeline/src/services/pipeline-service.ts, the
    step graph and its cycle detection, and [validateDefinition]. *)

From S2P Require Import Prelude JsString JsNumber JsValue JsHost Condition.
From S2P Require Import Transform TransformTables TransformSort SsrfBlocklist.
From stdpp Require Import relations sets.

(** ** Steps *)

Inductive InputSource : Type :=
| from_input (path : option string)
| from_step (stepId : string) (path : option string)
| from_literal (v : value).

Record RetryConfig : Type := {
  maxRetries : nat;
  backoffMs : number;
  backoffMultiplier : number
}.

Inductive on_error : Type := on_fail | on_skip.

Record StepBase : Type := {
  id : string;
  name : string;
  inputs : option (list (string * InputSource));
  onError : option on_error;
  skipIf : option string;
  timeout : option Z;
  retryConfig : option RetryConfig;
  fallbackStepId : option string
}.

Inductive TransformOperation : Type :=
| op_dedup (keyFields : list string) (strategy : dedup_strategy)
| op_filter (condition : string)
| op_map (mappings : list (string * string))
| op_aggregate (groupBy : list string) (aggregations : list AggregationSpec)
| op_pivot (c : PivotConfig)
| op_unpivot (c : UnpivotConfig)
| op_join (rightDataSource : string) (c : JoinConfig)
| op_sort (fields : list SortField)
| op_limit (count : number)
| op_rename (fieldMap : list (string * string)).

Inductive sync_mode : Type := sync_full | sync_incremental.
Inductive http_method : Type := GET | POST | PUT | PATCH | DELETE.
Inductive wait_mode : Type := wait_all | wait_any.

Record ParallelBranch (A : Type) : Type := {
  branch_id : string;
  entryStepId : string;
  branch_steps : list A
}.
Arguments branch_id {A} _.
Arguments entryStepId {A} _.
Arguments branch_steps {A} _.

(** The discriminated union on [type]. *)
Inductive Step : Type :=
| CodeStep (base : StepBase) (language code : string) (entrypoint : option string)
| ConnectorStep (base : StepBase) (connectorInstanceId : string) (syncMode : option sync_mode)
    (waitForCompletion : bool)
| TransformerStep (base : StepBase) (transformerId : string)
| TransformStep (base : StepBase) (dataSource : option string) (transform : TransformOperation)
| ConditionalStep (base : StepBase) (condition : Condition) (thenStepId : string)
    (elseStepId : option string)
| ParallelStep (base : StepBase) (branches : list (ParallelBranch Step)) (waitMode : wait_mode)
| WebhookStep (base : StepBase) (url : string) (method : http_method)
    (headers : list (string * string)) (body : value) (responseMapping : option string)
    (webhook_timeout : option Z)
| WaitStep (base : StepBase) (durationMs : Z)
| ApprovalStep (base : StepBase) (approvers : list string) (message : option string) (timeoutMs : Z)
| SubWorkflowStep (base : StepBase) (pipelineId : string)
    (inputMapping : option (list (string * string))) (waitForCompletion : bool)
    (sub_timeoutMs : option Z).

Definition step_base (s : Step) : StepBase :=
  match s with
  | CodeStep b _ _ _ | ConnectorStep b _ _ _ | TransformerStep b _ | TransformStep b _ _
  | ConditionalStep b _ _ _ | ParallelStep b _ _ | WebhookStep b _ _ _ _ _ _ | WaitStep b _
  | ApprovalStep b _ _ _ | SubWorkflowStep b _ _ _ _ => b
  end.

Definition step_id (s : Step) : string := id (step_base s).

Record PipelineOptions : Type := {
  allowConcurrentRuns : option bool;
  stepTimeout : option Z
}.

Record PipelineDefinition : Type := {
  entry : string;
  steps : list Step;
  options : option PipelineOptions
}.

(** ** Collecting steps *)

(** [collectAllStepsFlat] of execution-engine.ts, one step. *)
Fixpoint flatten_step (s : Step) : list Step :=
  s :: match s with
       | ParallelStep _ branches _ => flat_map (fun b => flat_map flatten_step (branch_steps b)) branches
       | _ => []
       end.

Definition collectAllStepsFlat (l : list Step) : list Step := flat_map flatten_step l.

(** [collectAllStepIds]: a set, in insertion order. *)
Fixpoint add_step_ids (ids : list string) (s : Step) : list string :=
  let ids := add_new ids (step_id s) in
  match s with
  | ParallelStep _ branches _ =>
      fold_left (fun ids b => fold_left add_new (fold_left add_step_ids (branch_steps b) []) ids) branches ids
  | _ => ids
  end.

Definition collectAllStepIds (l : list Step) : list string := fold_left add_step_ids l [].

(** ** The step graph *)

Definition adjacency_map : Type := jmap string (list string).

Definition next_id (l : list Step) : list string :=
  match l with s :: _ => [step_id s] | [] => [] end.

(** [addSteps], one step: [next] is the id after it in its list. *)
Fixpoint add_step (next : list string) (s : Step) (adj : adjacency_map) : adjacency_map :=
  match s with
  | ConditionalStep b _ thenId elseId => jm_set (id b) (thenId :: option_list elseId) adj
  | ParallelStep b branches _ =>
      let adj := fold_left (fun adj br =>
          (fix addSteps (l : list Step) (adj : adjacency_map) : adjacency_map :=
             match l with
             | [] => adj
             | s :: l => addSteps l (add_step (next_id l) s adj)
             end) (branch_steps br) adj) branches adj in
      jm_set (id b) (map entryStepId branches ++ next) adj
  | _ => jm_set (step_id s) next adj
  end.

Fixpoint addSteps (l : list Step) (adj : adjacency_map) : adjacency_map :=
  match l with
  | [] => adj
  | s :: l => addSteps l (add_step (next_id l) s adj)
  end.

Definition buildAdjacencyMap (l : list Step) : adjacency_map := addSteps l [].

(** [dfs]: whether a cycle was found, and the visited set.  [inStack] is what
    the caller's frames have added and not yet deleted. *)
Fixpoint dfs (fuel : nat) (adj : adjacency_map) (visited inStack : list string) (nodeId : string) :
    option (bool * list string) :=
  match fuel with
  | O => None
  | S fuel =>
      if mem nodeId inStack then Some (true, visited)
      else if mem nodeId visited then Some (false, visited)
      else
        (fix visit (neighbors visited : list string) : option (bool * list string) :=
           match neighbors with
           | [] => Some (false, visited)
           | n :: neighbors =>
               match dfs fuel adj visited (nodeId :: inStack) n with
               | Some (false, visited) => visit neighbors visited
               | r => r
               end
           end) (default [] (jm_get nodeId adj)) (nodeId :: visited)
  end.

(** Every id that can be reached from [startId]. *)
Definition universe (adj : adjacency_map) (startId : string) : list string :=
  startId :: concat (jm_values adj).

Definition hasCycle (adj : adjacency_map) (startId : string) : option bool :=
  fst <$> dfs (S (length (universe adj startId))) adj [] [] startId.

(** ** Validation *)

Inductive definition_error : Type :=
| TooManyNodes (found : nat)
| EntryNotFound (i : string)
| ThenNotFound (s i : string)
| ElseNotFound (s i : string)
| BranchEntryNotFound (s branch i : string)
| WebhookUrlBlocked (s url : string)
| CyclicDefinition.

Definition MAX_PIPELINE_NODES : nat := 500.

Definition missing (ids : list string) (i : string) (e : definition_error) : list definition_error :=
  if mem i ids then [] else [e].

(** The body of the loop over the top-level steps. *)
Definition step_errors (ids : list string) (s : Step) : list definition_error :=
  match s with
  | ConditionalStep b _ thenId elseId =>
      missing ids thenId (ThenNotFound (id b) thenId)
      ++ match elseId with Some e => missing ids e (ElseNotFound (id b) e) | None => [] end
  | ParallelStep b branches _ =>
      flat_map (fun br => missing ids (entryStepId br)
                            (BranchEntryNotFound (id b) (branch_id br) (entryStepId br))) branches
  | WebhookStep b url _ _ _ _ _ =>
      if isUrlSsrfBlocked url then [WebhookUrlBlocked (id b) url] else []
  | _ => []
  end.

(** The errors; the definition is valid when there are none.  The search for a
    cycle never runs out of fuel ([hasCycle_spec]). *)
Definition validateDefinition (d : PipelineDefinition) : list definition_error :=
  let ids := collectAllStepIds (steps d) in
  if (MAX_PIPELINE_NODES <? length ids)%nat then [TooManyNodes (length ids)]
  else
    let errors := missing ids (entry d) (EntryNotFound (entry d))
                  ++ flat_map (step_errors ids) (steps d) in
    match errors with
    | [] => match hasCycle (buildAdjacencyMap (steps d)) (entry d) with
            | Some false => []
            | _ => [CyclicDefinition]
            end
    | _ => errors
    end.

(** ** Cycle detection *)

Definition edge (adj : adjacency_map) (u v : string) : Prop := v ∈ default [] (jm_get u adj).

Section Dfs.
Context (adj : adjacency_map).

(** Finished nodes, last first: successors finish before. *)
Inductive finished_order : list string -> Prop :=
| fo_nil : finished_order []
| fo_cons v F : v ∉ F -> (forall w, edge adj v w -> w ∈ F) -> finished_order F -> finished_order (v :: F).

Record dfs_inv (visited stack F : list string) : Prop := {
  di_NoDup : NoDup stack;
  di_visited : forall v, v ∈ visited <-> v ∈ stack \/ v ∈ F;
  di_order : finished_order F;
  di_disjoint : forall v, v ∈ stack -> v ∉ F
}.

(** What a search from [n] gives. *)
Definition dfs_result (stack F : list string) (targets : string -> Prop) (r : option (bool * list string)) : Prop :=
  match r with
  | None => False
  | Some (true, _) => exists u v, targets u /\ rtc (edge adj) u v /\ tc (edge adj) v v
  | Some (false, visited) =>
      exists F', F ⊆ F' /\ dfs_inv visited stack F' /\ forall v, targets v -> v ∈ F'
  end.

Lemma elem_of_universe start v w :
  v ∈ universe adj start -> edge adj v w -> w ∈ universe adj start.
Proof.
  intros _ Hw. unfold edge in Hw. destruct (jm_get v adj) as [ns|] eqn:E; cbn in Hw; [|by apply not_elem_of_nil in Hw].
  apply jm_get_elem_of in E. right. apply list_elem_of_In, in_concat. exists ns.
  split; apply list_elem_of_In; [|done]. apply list_elem_of_fmap. by exists (v, ns).
Qed.

Context (U : list string) (HU : forall v w, v ∈ U -> edge adj v w -> w ∈ U).

Lemma dfs_spec fuel visited stack F n :
  dfs_inv visited stack F -> n ∈ U -> stack ⊆ U -> (length U < fuel + length stack)%nat ->
  (forall x, x ∈ stack -> tc (edge adj) x n) ->
  dfs_result stack F (eq n) (dfs fuel adj visited stack n).
Proof.
  revert visited stack F n. induction fuel as [|fuel IH]; intros visited stack F n Hinv Hn Hst Hfuel Hreach.
  { exfalso. assert (length stack <= length U)%nat; [|lia].
    apply submseteq_length, NoDup_submseteq; [apply Hinv|done]. }
  cbn [dfs]. destruct (mem n stack) eqn:Es.
  { apply mem_spec in Es. exists n, n. split_and!; [done|done|by apply Hreach]. }
  apply not_true_iff_false in Es. rewrite mem_spec in Es. destruct (mem n visited) eqn:Ev.
  { apply mem_spec, (di_visited _ _ _ Hinv) in Ev as [Hin|Hin]; [done|]. exists F. split_and!; [done|done|by intros v <-]. }
  apply not_true_iff_false in Ev. rewrite mem_spec in Ev.
  assert (HnF : n ∉ F) by (intros H; apply Ev, (di_visited _ _ _ Hinv); by right).
  assert (Hloop : forall ns visited F, (forall w, w ∈ ns -> edge adj n w) -> dfs_inv visited (n :: stack) F ->
    dfs_result (n :: stack) F (fun w => w ∈ ns)
      ((fix visit (neighbors visited : list string) : option (bool * list string) :=
           match neighbors with
           | [] => Some (false, visited)
           | n0 :: neighbors =>
               match dfs fuel adj visited (n :: stack) n0 with
               | Some (false, visited) => visit neighbors visited
               | r => r
               end
           end) ns visited)).
  { clear Hinv Ev F HnF visited. induction ns as [|w ns IHns]; intros visited F Hns Hinv.
    { exists F. split_and!; [done|done|by intros v ?%not_elem_of_nil]. }
    assert (Hw : edge adj n w) by (apply Hns; constructor).
    pose proof (IH visited (n :: stack) F w Hinv) as Hdfs.
    destruct (dfs fuel adj visited (n :: stack) w) as [[[] V]|].
    - destruct Hdfs as (u & v & <- & Hp & Hc); [by eapply HU| | |..].
      + intros x [->|Hx]%elem_of_cons; [done|by apply Hst].
      + cbn [length]. lia.
      + intros x [->|Hx]%elem_of_cons; [by apply tc_once|]. eapply tc_r; [by apply Hreach|done].
      + exists w, v. split_and!; [constructor|done|done].
    - destruct Hdfs as (F' & HF & Hinv' & Hdone); [by eapply HU| | |..].
      + intros x [->|Hx]%elem_of_cons; [done|by apply Hst].
      + cbn [length]. lia.
      + intros x [->|Hx]%elem_of_cons; [by apply tc_once|]. eapply tc_r; [by apply Hreach|done].
      + specialize (IHns V F' (fun x Hx => Hns x (list_elem_of_further _ _ _ Hx)) Hinv'). revert IHns.
        match goal with |- dfs_result _ _ _ ?r -> _ => destruct r as [[[] V']|] end; cbn; [| |done].
        * intros (u & v & Hu & ?). exists u, v. split; [by right|done].
        * intros (F2 & HF2 & Hinv2 & Hdone2). exists F2. split_and!; [set_unfold; naive_solver|done|].
          intros v [->|Hv]%elem_of_cons; [by apply HF2, Hdone|by apply Hdone2].
    - exfalso. apply Hdfs; [by eapply HU| | |].
      + intros x [->|Hx]%elem_of_cons; [done|by apply Hst].
      + cbn [length]. lia.
      + intros x [->|Hx]%elem_of_cons; [by apply tc_once|]. eapply tc_r; [by apply Hreach|done]. }
  assert (Hinv1 : dfs_inv (n :: visited) (n :: stack) F).
  { destruct Hinv as [H1 H2 H3 H4]. split; [by constructor| |done|].
    - intros v. rewrite !elem_of_cons, H2. tauto.
    - intros v [->|Hv]%elem_of_cons; [done|by apply H4]. }
  specialize (Hloop (default [] (jm_get n adj)) (n :: visited) F (fun w Hw => Hw) Hinv1). revert Hloop.
  generalize ((fix visit (neighbors visited : list string) : option (bool * list string) :=
           match neighbors with
           | [] => Some (false, visited)
           | n0 :: neighbors =>
               match dfs fuel adj visited (n :: stack) n0 with
               | Some (false, visited) => visit neighbors visited
               | r => r
               end
           end) (default [] (jm_get n adj)) (n :: visited)).
  intros [[[] V]|]; cbn; [| |done].
  - intros (u & v & Hu & Hp & Hc). exists n, v. split_and!; [done| |done]. by eapply rtc_l.
  - intros (F' & HF & [H1 H2 H3 H4] & Hdone).
    assert (Hn' : n ∉ F') by (apply H4; constructor).
    exists (n :: F'). split_and!.
    + set_solver.
    + split; [by apply NoDup_cons in H1 as [_ ?]| | |].
      * intros v. rewrite H2, !elem_of_cons. tauto.
      * by constructor.
      * intros v Hv. rewrite not_elem_of_cons. split; [by intros ->|]. apply H4. by right.
    + intros v <-. constructor.
Qed.

Lemma finished_closed F v w : finished_order F -> v ∈ F -> rtc (edge adj) v w -> w ∈ F.
Proof.
  intros HF Hv Hp. induction Hp as [|v x w Hx _ IH]; [done|]. apply IH.
  clear IH w. induction HF as [|y F Hy Hsucc HF IH]; [by apply not_elem_of_nil in Hv|].
  right. apply elem_of_cons in Hv as [->|Hv]; [by apply Hsucc|].
  apply IH in Hv. done.
Qed.

Lemma finished_acyclic F v : finished_order F -> v ∈ F -> ~ tc (edge adj) v v.
Proof.
  induction 1 as [|y F Hy Hsucc HF IH]; intros Hv Hc; [by apply not_elem_of_nil in Hv|].
  apply elem_of_cons in Hv as [->|Hv]; [|by apply IH].
  apply Hy. assert (Hex : exists w, edge adj y w /\ rtc (edge adj) w y).
  { inversion Hc as [? ? Hw|? w ? Hw Hrest]; subst.
    - exists y. split; [done|]. apply rtc_refl.
    - exists w. split; [done|]. by apply tc_rtc. }
  destruct Hex as (w & Hw & Hp). apply (finished_closed F w); [done|by apply Hsucc|done].
Qed.
End Dfs.

Definition cyclic_from (adj : adjacency_map) (start : string) : Prop :=
  exists v, rtc (edge adj) start v /\ tc (edge adj) v v.

(** The search from [start] either finds a cycle or orders what it has seen. *)
Lemma hasCycle_dfs adj start : dfs_result adj [] [] (eq start) (dfs (S (length (universe adj start))) adj [] [] start).
Proof.
  apply (dfs_spec adj (universe adj start) (elem_of_universe adj start)).
  - split; [constructor|set_solver|constructor|set_solver].
  - constructor.
  - set_solver.
  - cbn [length]. lia.
  - set_solver.
Qed.

(** The search always ends, and finds a cycle exactly when one can be reached. *)
Lemma hasCycle_spec adj start :
  exists b, hasCycle adj start = Some b /\ (b = true <-> cyclic_from adj start).
Proof.
  unfold hasCycle. pose proof (hasCycle_dfs adj start) as H.
  destruct (dfs _ _ _ _ _) as [[[] V]|]; [| |done].
  - exists true. split; [done|]. split; [|done]. intros _. destruct H as (u & v & <- & Hp & Hc). by exists v.
  - exists false. split; [done|]. split; [done|]. intros (v & Hp & Hc). exfalso.
    destruct H as (F & _ & Hinv' & Hdone). apply (finished_acyclic adj F v); [apply Hinv'| |done].
    apply (finished_closed adj F start); [apply Hinv'|by apply Hdone|done].
Qed.

(** Without a cycle, what can be reached has an order in which every step comes
    before its successors. *)
Lemma hasCycle_order adj start :
  hasCycle adj start = Some false -> exists F, finished_order adj F /\ start ∈ F.
Proof.
  unfold hasCycle. pose proof (hasCycle_dfs adj start) as H.
  destruct (dfs _ _ _ _ _) as [[[] V]|]; try done. intros _.
  destruct H as (F & _ & Hinv' & Hdone). exists F. split; [apply Hinv'|by apply Hdone].
Qed.

(** ** Valid definitions *)

Definition step_valid (ids : list string) (s : Step) : Prop :=
  match s with
  | ConditionalStep _ _ thenId elseId => thenId ∈ ids /\ forall e, elseId = Some e -> e ∈ ids
  | ParallelStep _ branches _ => forall br, br ∈ branches -> entryStepId br ∈ ids
  | WebhookStep _ url _ _ _ _ _ => isUrlSsrfBlocked url = false
  | _ => True
  end.

Lemma missing_nil ids i e : missing ids i e = [] <-> i ∈ ids.
Proof. unfold missing. rewrite <- mem_spec. by destruct (mem i ids). Qed.

Lemma step_errors_nil ids s : step_errors ids s = [] <-> step_valid ids s.
Proof.
  destruct s as [| | | |b c thenId elseId|b branches| | | |]; cbn [step_errors step_valid]; try done.
  - rewrite app_nil, missing_nil. destruct elseId as [e|]; rewrite ?missing_nil.
    + split; [intros [? ?]; split; [done|by intros ? [= <-]]|intros [? He]; split; [done|by apply He]].
    + split; [by intros [? _]|by intros [? _]].
  - rewrite flat_map_nil, Forall_forall. split; intros Hb br Hbr; [eapply missing_nil|apply missing_nil]; by apply Hb.
  - by destruct (isUrlSsrfBlocked _).
Qed.

(** ** Nested steps *)

Definition children (s : Step) : list Step :=
  match s with ParallelStep _ branches _ => flat_map branch_steps branches | _ => [] end.

Section StepInd.
Context (P : Step -> Prop) (H : forall s, Forall P (children s) -> P s).

Fixpoint Step_nested_ind (s : Step) : P s :=
  H s (match s return Forall P (children s) with
       | ParallelStep _ branches _ =>
           (fix go (branches : list (ParallelBranch Step)) : Forall P (flat_map branch_steps branches) :=
              match branches return Forall P (flat_map branch_steps branches) with
              | [] => List.Forall_nil P
              | br :: branches =>
                  Forall_app_2 P _ _
                    ((fix go_steps (l : list Step) : Forall P l :=
                        match l return Forall P l with
                        | [] => List.Forall_nil P
                        | s :: l => @List.Forall_cons _ P s l (Step_nested_ind s) (go_steps l)
                        end) (branch_steps br))
                    (go branches)
              end) branches
       | _ => List.Forall_nil P
       end).
End StepInd.

(** ** The ids of a definition *)

Lemma flatten_step_children s : flatten_step s = s :: flat_map flatten_step (children s).
Proof.
  destruct s as [| | | | |b branches| | | |]; try done. cbn [flatten_step children]. f_equal.
  induction branches as [|br branches IH]; cbn [flat_map]; [done|]. by rewrite flat_map_app, IH.
Qed.

Lemma elem_of_add_new {A} `{EqDecision A} (l : list A) k x : x ∈ add_new l k <-> x ∈ l \/ x = k.
Proof.
  unfold add_new. case_bool_decide; [naive_solver|]. rewrite elem_of_app, list_elem_of_singleton. done.
Qed.

Lemma elem_of_fold_add_new {A} `{EqDecision A} (k l : list A) x : x ∈ fold_left add_new k l <-> x ∈ l \/ x ∈ k.
Proof.
  revert l. induction k as [|y k IH]; intros l; cbn [fold_left].
  - rewrite elem_of_nil. tauto.
  - rewrite IH, elem_of_add_new, elem_of_cons. tauto.
Qed.

Lemma elem_of_fold_step_ids l ids i :
  Forall (fun s => forall ids i, i ∈ add_step_ids ids s <-> i ∈ ids \/ i ∈ map step_id (flatten_step s)) l ->
  i ∈ fold_left add_step_ids l ids <-> i ∈ ids \/ i ∈ map step_id (flat_map flatten_step l).
Proof.
  intros Hl. revert ids. induction Hl as [|s l Hs _ IH]; intros ids; cbn [fold_left flat_map].
  - rewrite elem_of_nil. tauto.
  - rewrite IH, Hs, map_app, elem_of_app. tauto.
Qed.

Lemma elem_of_add_step_ids s : forall ids i, i ∈ add_step_ids ids s <-> i ∈ ids \/ i ∈ map step_id (flatten_step s).
Proof.
  induction s as [s IH] using Step_nested_ind. intros ids i. rewrite flatten_step_children. cbn [map].
  rewrite elem_of_cons. destruct s as [| | | | |b branches w| | | |];
    try (cbn [add_step_ids children flat_map map]; rewrite elem_of_add_new, elem_of_nil; tauto).
  cbn [add_step_ids children] in *.
  enough (Hb : forall ids, i ∈ fold_left (fun ids b => fold_left add_new (fold_left add_step_ids (branch_steps b) []) ids) branches ids
    <-> i ∈ ids \/ i ∈ map step_id (flat_map flatten_step (flat_map branch_steps branches))).
  { rewrite Hb, elem_of_add_new. tauto. }
  clear ids. induction branches as [|br branches IHb]; intros ids; cbn [fold_left flat_map] in *.
  - rewrite elem_of_nil. tauto.
  - apply Forall_app in IH as [IH1 IH2]. rewrite IHb by done.
    rewrite elem_of_fold_add_new, (elem_of_fold_step_ids _ [] i IH1), flat_map_app, map_app, elem_of_app, elem_of_nil. tauto.
Qed.

(** The collected ids are those of the flattened steps, without repetitions. *)
Lemma elem_of_collectAllStepIds l i :
  i ∈ collectAllStepIds l <-> i ∈ map step_id (collectAllStepsFlat l).
Proof.
  unfold collectAllStepIds. rewrite elem_of_fold_step_ids.
  - rewrite elem_of_nil. unfold collectAllStepsFlat. tauto.
  - apply Forall_forall. intros s _. apply elem_of_add_step_ids.
Qed.

Lemma add_new_NoDup {A} `{EqDecision A} (l : list A) k : NoDup l -> NoDup (add_new l k).
Proof.
  intros H. unfold add_new. case_bool_decide; [done|]. apply NoDup_app.
  split_and!; [done| |apply NoDup_singleton]. by intros x Hx ->%list_elem_of_singleton.
Qed.

Lemma fold_add_new_NoDup {A} `{EqDecision A} (k l : list A) : NoDup l -> NoDup (fold_left add_new k l).
Proof. revert l. induction k as [|x k IH]; intros l H; cbn; [done|]. by apply IH, add_new_NoDup. Qed.

Lemma collectAllStepIds_NoDup l : NoDup (collectAllStepIds l).
Proof.
  unfold collectAllStepIds. assert (H : forall ids, NoDup ids -> NoDup (fold_left add_step_ids l ids));
    [|apply H; constructor].
  induction l as [|s l IH]; intros ids Hids; cbn [fold_left]; [done|]. apply IH.
  destruct s as [| | | | |b branches w| | | |]; cbn [add_step_ids]; try by apply add_new_NoDup.
  assert (H : NoDup (add_new ids (step_id (ParallelStep b branches w)))) by by apply add_new_NoDup.
  revert H. generalize (add_new ids (step_id (ParallelStep b branches w))). clear.
  induction branches as [|br branches IH]; intros ids Hids; cbn [fold_left]; [done|].
  by apply IH, fold_add_new_NoDup.
Qed.

(** C8: a definition is accepted exactly when it has at most 500 distinct step
    ids, its entry and the targets of its top-level conditional and parallel
    steps exist, no top-level webhook address is blocked, and no cycle of the
    step graph can be reached from the entry.  The search for a cycle always
    ends. *)
Theorem definition_valid d :
  validateDefinition d = [] <->
  (length (collectAllStepIds (steps d)) <= 500)%nat /\
  entry d ∈ map step_id (collectAllStepsFlat (steps d)) /\
  (forall s, s ∈ steps d -> step_valid (map step_id (collectAllStepsFlat (steps d))) s) /\
  ~ cyclic_from (buildAdjacencyMap (steps d)) (entry d).
Proof.
  assert (Hv : forall s, step_valid (collectAllStepIds (steps d)) s
                         <-> step_valid (map step_id (collectAllStepsFlat (steps d))) s).
  { intros s. pose proof (elem_of_collectAllStepIds (steps d)) as H. destruct s; cbn [step_valid]; try done.
    - rewrite H. split; intros [? He]; (split; [done|]); intros i Hi; apply H, He, Hi.
    - split; intros He br Hbr; apply H, He, Hbr. }
  unfold validateDefinition, MAX_PIPELINE_NODES. destruct (Nat.ltb_spec 500 (length (collectAllStepIds (steps d)))) as [Hlt|Hle].
  { split; [done|]. intros [? _]. lia. }
  rewrite <- elem_of_collectAllStepIds. setoid_rewrite <- Hv.
  destruct (missing _ (entry d) _ ++ flat_map _ _) as [|e l] eqn:E.
  - apply app_nil in E as [E1 E2]. apply missing_nil in E1. rewrite flat_map_nil, Forall_forall in E2.
    destruct (hasCycle_spec (buildAdjacencyMap (steps d)) (entry d)) as (b & -> & Hb).
    split.
    + intros H. split_and!; [done|done|intros s Hs; by apply step_errors_nil, E2|].
      intros Hc. apply Hb in Hc as ->. done.
    + intros (_ & _ & _ & Hc). destruct b; [|done]. destruct Hc. by apply Hb.
  - split; [done|]. intros (_ & He & Hs & _). exfalso.
    enough (H : missing (collectAllStepIds (steps d)) (entry d) (EntryNotFound (entry d))
      ++ flat_map (step_errors (collectAllStepIds (steps d))) (steps d) = []) by congruence.
    apply app_nil. split; [by apply missing_nil|]. apply flat_map_nil, Forall_forall. intros s Hin. by apply step_errors_nil, Hs.
Qed.

(** ** Serial definitions *)

Lemma valid_order d :
  validateDefinition d = [] -> exists F, finished_order (buildAdjacencyMap (steps d)) F /\ entry d ∈ F.
Proof.
  unfold validateDefinition. destruct (_ <? _)%nat; [done|]. destruct (_ ++ _) eqn:E; [|done].
  intros H. apply hasCycle_order. by destruct (hasCycle _ _) as [[]|].
Qed.

(** The edges that [addSteps] gives to a step, with the steps after it. *)
Definition successors (s : Step) (rest : list Step) : list string :=
  match s with
  | ConditionalStep _ _ thenId elseId => thenId :: option_list elseId
  | ParallelStep _ branches _ => map entryStepId branches ++ next_id rest
  | _ => next_id rest
  end.

Lemma add_step_flat next s adj : children s = [] ->
  add_step next s adj = jm_set (step_id s) (match s with
    | ConditionalStep _ _ thenId elseId => thenId :: option_list elseId
    | ParallelStep _ branches _ => map entryStepId branches ++ next
    | _ => next end) adj.
Proof.
  destruct s as [| | | | |b branches w| | | |]; try done. cbn [children add_step]. intros H. f_equal.
  induction branches as [|br branches IH]; cbn in *; [done|]. apply app_nil in H as [-> H]. by apply IH.
Qed.

Lemma addSteps_flat l adj pre s rest :
  l = pre ++ s :: rest -> Forall (fun s => children s = []) l -> NoDup (map step_id l) ->
  jm_get (step_id s) (addSteps l adj) = Some (successors s rest).
Proof.
  intros -> Hflat Hnd. apply Forall_app in Hflat as [Hpre Hrest]. apply Forall_cons in Hrest as [Hs Hrest].
  rewrite map_app in Hnd. apply NoDup_app in Hnd as (_ & _ & Hnd). cbn [map] in Hnd. apply NoDup_cons in Hnd as [Hnin _].
  revert adj. induction pre as [|x pre IH]; intros adj; cbn [app addSteps].
  - rewrite add_step_flat by done.
    assert (Hkeep : forall l adj v, Forall (fun s => children s = []) l -> step_id s ∉ map step_id l ->
      jm_get (step_id s) adj = Some v -> jm_get (step_id s) (addSteps l adj) = Some v).
    { clear. induction l as [|y l IH]; intros adj v Hl Hn Hadj; cbn [addSteps]; [done|].
      apply Forall_cons in Hl as [Hy Hl]. cbn [map] in Hn. apply not_elem_of_cons in Hn as [Hne Hn].
      apply IH; [done|done|]. rewrite add_step_flat by done. by rewrite jm_get_set_ne. }
    apply Hkeep; [done|done|]. rewrite jm_get_set_eq. by destruct s.
  - apply Forall_cons in Hpre as [_ Hpre]. by apply IH.
Qed.

Lemma flatten_flat l : Forall (fun s => children s = []) l -> collectAllStepsFlat l = l.
Proof.
  unfold collectAllStepsFlat. induction 1 as [|s l Hs _ IH]; cbn [flat_map]; [done|].
  by rewrite flatten_step_children, Hs, IH.
Qed.
