(* ===== verification/ApprovalService.v ===== *)
(** * Approvals

    [services/pipeline/src/services/approval-service.ts]: the store of approval
    requests, human decisions, the lazy transition to [timed_out], and the
    eviction of decided records.  A timestamp is its number of milliseconds;
    [now] is the clock of the call. *)

From S2P Require Import Prelude JsString.

Local Open Scope Z_scope.

Inductive ApprovalDecision : Type := Approve | Reject.

Inductive ApprovalStatus : Type := Pending | Approved | Rejected | TimedOut.

#[export] Instance ApprovalStatus_eq_dec : EqDecision ApprovalStatus.
Proof. solve_decision. Defined.

Record ApprovalRecord : Type := {
  executionId : string;
  stepId : string;
  approvers : list string;
  message : option string;
  status : ApprovalStatus;
  requestedAt : Z;
  decidedAt : option Z;
  decidedBy : option string;
  decision : option ApprovalDecision;
  comment : option string;
  timeoutAt : Z
}.

Record PendingApprovalView : Type := {
  view_executionId : string;
  view_stepId : string;
  view_approvers : list string;
  view_message : option string;
  view_status : ApprovalStatus;
  view_requestedAt : Z;
  view_timeoutAt : Z
}.

Inductive approval_error : Type :=
| ApprovalNotFound
| ApprovalUnauthorized (userId : string)
| ApprovalAlreadyDecided (s : ApprovalStatus).

Definition MAX_TERMINAL_ENTRIES : Z := 10000.

Definition store : Type := jmap string ApprovalRecord.

Definition key (executionId stepId : string) : string := executionId +:+ ":" +:+ stepId.

Definition terminal (r : ApprovalRecord) : bool :=
  match status r with Pending => false | _ => true end.

Definition evictTerminalEntries (st : store) : store :=
  let terminalCount := length (List.filter terminal (jm_values st)) in
  if MAX_TERMINAL_ENTRIES <? Z.of_nat terminalCount
  then List.filter (fun '(_, r) => negb (terminal r)) st
  else st.

Definition requestApproval (now : Z) (execId stepId : string) (approvers : list string)
    (message : option string) (timeoutMs : Z) (st : store) : store * ApprovalRecord :=
  let k := key execId stepId in
  match jm_get k st with
  | Some existing => (st, existing)
  | None =>
      let record := {| executionId := execId; stepId := stepId; approvers := approvers;
        message := message; status := Pending; requestedAt := now; decidedAt := None;
        decidedBy := None; decision := None; comment := None; timeoutAt := now + timeoutMs |} in
      (jm_set k record st, record)
  end.

Definition decided_status (d : ApprovalDecision) : ApprovalStatus :=
  match d with Approve => Approved | Reject => Rejected end.

Definition decide_record (now : Z) (userId : string) (d : ApprovalDecision) (c : option string)
    (r : ApprovalRecord) : ApprovalRecord :=
  {| executionId := executionId r; stepId := stepId r; approvers := approvers r;
     message := message r; status := decided_status d; requestedAt := requestedAt r;
     decidedAt := Some now; decidedBy := Some userId; decision := Some d; comment := c;
     timeoutAt := timeoutAt r |}.

Definition submitDecision (now : Z) (execId stepId userId : string) (d : ApprovalDecision)
    (c : option string) (st : store) : store * result approval_error ApprovalRecord :=
  let k := key execId stepId in
  match jm_get k st with
  | None => (st, Err ApprovalNotFound)
  | Some r =>
      if terminal r then (st, Err (ApprovalAlreadyDecided (status r)))
      else if negb (bool_decide (userId ∈ approvers r)) then (st, Err (ApprovalUnauthorized userId))
      else
        let updated := decide_record now userId d c r in
        (evictTerminalEntries (jm_set k updated st), Ok updated)
  end.

Definition time_out (r : ApprovalRecord) : ApprovalRecord :=
  {| executionId := executionId r; stepId := stepId r; approvers := approvers r;
     message := message r; status := TimedOut; requestedAt := requestedAt r;
     decidedAt := Some (timeoutAt r); decidedBy := decidedBy r; decision := decision r;
     comment := comment r; timeoutAt := timeoutAt r |}.

Definition getApprovalStatus (now : Z) (execId stepId : string) (st : store) :
    store * option ApprovalRecord :=
  let k := key execId stepId in
  match jm_get k st with
  | None => (st, None)
  | Some r =>
      if negb (terminal r) && (timeoutAt r <? now)
      then (jm_set k (time_out r) st, Some (time_out r))
      else (st, Some r)
  end.

Definition view (r : ApprovalRecord) : PendingApprovalView :=
  {| view_executionId := executionId r; view_stepId := stepId r; view_approvers := approvers r;
     view_message := message r; view_status := status r; view_requestedAt := requestedAt r;
     view_timeoutAt := timeoutAt r |}.

(** The loop; the records it meets are those of the store it started with, for
    it sets no key before it reaches it. *)
Fixpoint pending_loop (now : Z) (execId : string) (records : list ApprovalRecord) (st : store) :
    store * list PendingApprovalView :=
  match records with
  | [] => (st, [])
  | r :: records =>
      if negb (String.eqb (executionId r) execId) then pending_loop now execId records st
      else
        let '(st, current) := getApprovalStatus now (executionId r) (stepId r) st in
        let '(st, views) := pending_loop now execId records st in
        (st, match current with
             | Some c => if terminal c then views else view c :: views
             | None => views
             end)
  end.

Definition listPendingApprovals (now : Z) (execId : string) (st : store) :
    store * list PendingApprovalView :=
  pending_loop now execId (jm_values st) st.

(** ** The service as a step relation: any call, at any later time *)

Inductive call : Type :=
| CRequest (execId stepId : string) (approvers : list string) (message : option string) (timeoutMs : Z)
| CSubmit (execId stepId userId : string) (d : ApprovalDecision) (c : option string)
| CStatus (execId stepId : string)
| CList (execId : string).

Definition run_call (now : Z) (c : call) (st : store) : store :=
  match c with
  | CRequest e s a m t => (requestApproval now e s a m t st).1
  | CSubmit e s u d c => (submitDecision now e s u d c st).1
  | CStatus e s => (getApprovalStatus now e s st).1
  | CList e => (listPendingApprovals now e st).1
  end.

(** Clock and store. *)
Inductive reachable : Z -> store -> Prop :=
| reach_init t : reachable t []
| reach_call t t' st c : reachable t st -> t <= t' -> reachable t' (run_call t' c st).

(** ** Lemmas *)

Lemma jm_get_filter_NoDup {V} (p : string * V -> bool) (m : jmap string V) k :
  NoDup (jm_keys m) ->
  jm_get k (List.filter p m)
  = match jm_get k m with Some v => if p (k, v) then Some v else None | None => None end.
Proof.
  intros Hnd. unfold jm_keys in Hnd. induction m as [|[k' v] m IH]; [done|].
  cbn [map fst] in Hnd. apply NoDup_cons in Hnd as [Hk Hnd]. specialize (IH Hnd).
  cbn [List.filter jm_get]. destruct (decide (k = k')) as [<-|Hne].
  - destruct (p (k, v)); cbn [jm_get]; [by rewrite decide_True|].
    rewrite IH. assert (jm_get k m = None) as -> by (by apply jm_get_None). done.
  - destruct (p (k', v)); cbn [jm_get]; [by rewrite decide_False|done].
Qed.

Lemma evict_get st k :
  NoDup (jm_keys st) ->
  jm_get k (evictTerminalEntries st) = jm_get k st \/
  jm_get k (evictTerminalEntries st) = None /\ exists r, jm_get k st = Some r /\ terminal r = true.
Proof.
  intros Hnd. unfold evictTerminalEntries. destruct (_ <? _); [|by left].
  rewrite jm_get_filter_NoDup by done. destruct (jm_get k st) as [r|] eqn:E; [|by left].
  destruct (terminal r) eqn:Et; [|by left]. right. split; [done|]. by exists r.
Qed.

Lemma evict_NoDup st : NoDup (jm_keys st) -> NoDup (jm_keys (evictTerminalEntries st)).
Proof.
  intros H. unfold evictTerminalEntries. destruct (_ <? _); [|done].
  eapply sublist_NoDup; [exact H|]. unfold jm_keys. clear H. induction st as [|[k r] st IH]; cbn; [constructor|].
  destruct (terminal r); cbn; by constructor.
Qed.

Lemma run_getApprovalStatus now e s st k :
  jm_get k (getApprovalStatus now e s st).1 = jm_get k st \/
  exists r, jm_get k st = Some r /\ terminal r = false /\ timeoutAt r < now /\
    jm_get k (getApprovalStatus now e s st).1 = Some (time_out r).
Proof.
  unfold getApprovalStatus. destruct (jm_get (key e s) st) as [r|] eqn:E; [|by left].
  destruct (terminal r) eqn:Et; [by left|]. cbn [negb andb].
  destruct (Z.ltb_spec (timeoutAt r) now) as [Hlt|]; [|by left]. cbn [fst]. rewrite jm_get_set.
  destruct (decide (key e s = k)) as [<-|]; [|by left]. right. by exists r.
Qed.

Lemma run_pending_loop now e records st k :
  jm_get k (pending_loop now e records st).1 = jm_get k st \/
  exists r, jm_get k st = Some r /\ terminal r = false /\ timeoutAt r < now /\
    jm_get k (pending_loop now e records st).1 = Some (time_out r).
Proof.
  revert st. induction records as [|r records IH]; intros st; cbn [pending_loop]; [by left|].
  destruct (negb (String.eqb (executionId r) e)); [apply IH|].
  pose proof (run_getApprovalStatus now (executionId r) (stepId r) st k) as Hget.
  destruct (getApprovalStatus now (executionId r) (stepId r) st) as [st1 o]. cbn [fst] in Hget.
  specialize (IH st1). destruct (pending_loop now e records st1) as [st2 views]. cbn [fst] in *.
  destruct Hget as [Hs|(x & Hx & Ht & Hlt & Hs)]; rewrite Hs in IH; [exact IH|]. right. exists x.
  split_and!; [done|done|done|]. destruct IH as [->|(y & [= <-] & Hy & _)]; done.
Qed.

Lemma run_call_NoDup now c st : NoDup (jm_keys st) -> NoDup (jm_keys (run_call now c st)).
Proof.
  assert (Hget : forall e s st, NoDup (jm_keys st) -> NoDup (jm_keys (getApprovalStatus now e s st).1)).
  { intros e s st' H. unfold getApprovalStatus. destruct (jm_get _ st') as [r|]; [|done].
    destruct (_ && _); [by apply jm_set_NoDup|done]. }
  intros H. destruct c; cbn [run_call].
  - unfold requestApproval. destruct (jm_get _ st); [done|]. by apply jm_set_NoDup.
  - unfold submitDecision. destruct (jm_get _ st) as [r|]; [|done]. destruct (terminal r); [done|].
    case_bool_decide; cbn; [|done]. by apply evict_NoDup, jm_set_NoDup.
  - by apply Hget.
  - unfold listPendingApprovals. generalize (jm_values st). intros records. revert st H.
    induction records as [|r records IH]; intros st H; cbn [pending_loop]; [done|].
    destruct (negb _); [by apply IH|]. specialize (Hget (executionId r) (stepId r) st H).
    destruct (getApprovalStatus _ _ _ st) as [st1 o]. specialize (IH st1 Hget).
    by destruct (pending_loop _ _ records st1).
Qed.

Lemma reachable_NoDup t st : reachable t st -> NoDup (jm_keys st).
Proof. induction 1; [constructor|by apply run_call_NoDup]. Qed.

(** What one call can do to the record under a key. *)
Inductive record_step (now : Z) (c : call) (k : string) : option ApprovalRecord -> option ApprovalRecord -> Prop :=
| rs_same o : record_step now c k o o
| rs_request e s a m t : c = CRequest e s a m t -> k = key e s ->
    record_step now c k None (Some (requestApproval now e s a m t []).2)
| rs_decide e s u d cm r : c = CSubmit e s u d cm -> k = key e s -> terminal r = false ->
    u ∈ approvers r -> record_step now c k (Some r) (Some (decide_record now u d cm r))
| rs_decide_evicted e s u d cm r : c = CSubmit e s u d cm -> k = key e s -> terminal r = false ->
    u ∈ approvers r -> record_step now c k (Some r) None
| rs_evicted r : terminal r = true -> record_step now c k (Some r) None
| rs_time_out r : terminal r = false -> timeoutAt r < now -> record_step now c k (Some r) (Some (time_out r)).

Lemma run_call_step now c st k :
  NoDup (jm_keys st) -> record_step now c k (jm_get k st) (jm_get k (run_call now c st)).
Proof.
  intros Hnd. destruct c as [e s a m t|e s u d cm|e s|e]; cbn [run_call].
  - unfold requestApproval. destruct (jm_get (key e s) st) as [r|] eqn:E; [constructor|]. cbn [fst].
    rewrite jm_get_set. destruct (decide (key e s = k)) as [<-|]; [|constructor].
    rewrite E. eapply (rs_request _ _ _ e s a m t); done.
  - unfold submitDecision. destruct (jm_get (key e s) st) as [r|] eqn:E; [|constructor].
    destruct (terminal r) eqn:Et; [constructor|]. case_bool_decide as Hu; cbn [negb fst]; [|constructor].
    pose proof (jm_set_NoDup (key e s) (decide_record now u d cm r) st Hnd) as Hnd'.
    destruct (evict_get _ k Hnd') as [->|[-> (r' & Hr' & Ht)]].
    + rewrite jm_get_set. destruct (decide (key e s = k)) as [<-|]; [|constructor].
      rewrite E. by eapply rs_decide.
    + rewrite jm_get_set in Hr'. destruct (decide (key e s = k)) as [<-|].
      * rewrite E. by eapply rs_decide_evicted.
      * rewrite Hr'. by apply rs_evicted.
  - destruct (run_getApprovalStatus now e s st k) as [->|(r & -> & Ht & Hlt & ->)]; [constructor|by apply rs_time_out].
  - destruct (run_pending_loop now e (jm_values st) st k) as [H|(r & Hr & Ht & Hlt & H)];
      unfold listPendingApprovals; rewrite H; [constructor|]. rewrite Hr. by apply rs_time_out.
Qed.

(** ** Decisions *)

(** A decision is final.  Whatever call comes next in a reachable store, a
    record that is approved, rejected or timed out stays as it is or is evicted;
    a pending record is left alone, decided by a call of one of its own
    approvers for its own key, or timed out after its deadline. *)
Theorem decision_final t st t' c k r :
  reachable t st -> jm_get k st = Some r ->
  match jm_get k (run_call t' c st) with
  | None => terminal r = true \/
      exists e s u d cm, c = CSubmit e s u d cm /\ k = key e s /\ u ∈ approvers r
  | Some r' => r' = r \/ terminal r = false /\
      ((exists e s u d cm, c = CSubmit e s u d cm /\ k = key e s /\ u ∈ approvers r /\
          r' = decide_record t' u d cm r) \/
       (timeoutAt r < t' /\ r' = time_out r))
  end.
Proof.
  intros Hreach Hr. pose proof (run_call_step t' c st k (reachable_NoDup _ _ Hreach)) as Hstep.
  rewrite Hr in Hstep. inversion Hstep as [o Ho|e s a m tm Hc Hk Ho|e s u d cm r0 Hc Hk Ht Hu Ho Hn|e s u d cm r0 Hc Hk Ht Hu Ho Hn|r0 Ht|r0 Ht Hlt]; subst.
  - by left.
  - right. split; [done|]. left. by exists e, s, u, d, cm.
  - right. by exists e, s, u, d, cm.
  - by left.
  - right. split; [done|]. by right.
Qed.

(** What a record says agrees with its status. *)
Definition coherent (r : ApprovalRecord) : Prop :=
  match status r with
  | Pending => decision r = None /\ decidedBy r = None /\ decidedAt r = None
  | Approved => decision r = Some Approve /\
      (exists u, decidedBy r = Some u /\ u ∈ approvers r) /\ exists t, decidedAt r = Some t /\ requestedAt r <= t
  | Rejected => decision r = Some Reject /\
      (exists u, decidedBy r = Some u /\ u ∈ approvers r) /\ exists t, decidedAt r = Some t /\ requestedAt r <= t
  | TimedOut => decision r = None /\ decidedBy r = None /\ decidedAt r = Some (timeoutAt r)
  end.

(** C38: every record of a reachable store is filed under its own execution and
    step and is coherent: approved or rejected only with a decision of one of
    its listed approvers, not before it was requested; timed out at its
    deadline, without a decision; otherwise undecided. *)
Theorem approvals_coherent t st k r :
  reachable t st -> jm_get k st = Some r ->
  k = key (executionId r) (stepId r) /\ requestedAt r <= t /\ coherent r.
Proof.
  intros Hreach. revert k r. induction Hreach as [t|t t' st c Hreach IH Hle]; intros k r Hr; [done|].
  pose proof (run_call_step t' c st k (reachable_NoDup _ _ Hreach)) as Hstep. rewrite Hr in Hstep.
  destruct (jm_get k st) as [x|] eqn:Ex;
    inversion Hstep as [o Ho|e s a m tm Hc Hk Ho Hn|e s u d cm r0 Hc Hk Ht Hu Ho Hn| | |r0 Ht Hlt Ho Hn]; subst.
  - destruct (IH k r Ex) as (? & ? & ?). split_and!; [done|lia|done].
  - destruct (IH _ x Ex) as (? & ? & Hco). split_and!; [done|cbn; lia|].
    destruct d; cbn; (split_and!; [done|by exists u|exists t'; split; [done|lia]]).
  - destruct (IH k x Ex) as (? & ? & Hco). split_and!; [done|cbn; lia|].
    unfold coherent in *. unfold terminal in Ht. cbn. destruct (status x); try done.
    by destruct Hco as (? & ? & _).
  - cbn. split_and!; [done|lia|done|done|done].
Qed.

(** ** Boundaries *)

(** The decision that fills the store is evicted together with the others: its
    caller is told that it was recorded, and the engine finds no record. *)
Lemma decision_lost now t e s u d cm st r :
  jm_get (key e s) st = Some r -> terminal r = false -> u ∈ approvers r -> NoDup (jm_keys st) ->
  MAX_TERMINAL_ENTRIES <= Z.of_nat (length (List.filter terminal (jm_values st))) ->
  (submitDecision now e s u d cm st).2 = Ok (decide_record now u d cm r) /\
  (getApprovalStatus t e s (submitDecision now e s u d cm st).1).2 = None.
Proof.
  intros Hr Ht Hu Hnd Hmax. unfold submitDecision. rewrite Hr, Ht, bool_decide_eq_true_2 by done.
  cbn [negb fst snd]. split; [done|]. unfold getApprovalStatus, evictTerminalEntries.
  assert (Hcount : length (List.filter terminal (jm_values (jm_set (key e s) (decide_record now u d cm r) st)))
                   = S (length (List.filter terminal (jm_values st)))).
  { clear Hmax. unfold jm_keys in Hnd. induction st as [|[k x] st IH]; [done|].
    cbn [map fst] in Hnd. apply NoDup_cons in Hnd as [Hk Hnd]. cbn [jm_get jm_set] in *.
    destruct (decide (key e s = k)) as [<-|].
    - injection Hr as ->. cbn. rewrite Ht. by destruct d.
    - specialize (IH Hr Hnd). unfold jm_values in *. cbn. destruct (terminal x); cbn; by rewrite IH. }
  rewrite Hcount, (proj2 (Z.ltb_lt _ _)) by lia.
  rewrite jm_get_filter_NoDup by by apply jm_set_NoDup. rewrite jm_get_set_eq.
  by destruct d.
Qed.

(** A decision is accepted after the deadline when nothing has asked for the
    status in between. *)
Example late_decision :
  let st := (requestApproval 0 "run" "step" ["ann"] None 1000 []).1 in
  (submitDecision 5000 "run" "step" "ann" Approve None st).2
  = Ok (decide_record 5000 "ann" Approve None (requestApproval 0 "run" "step" ["ann"] None 1000 []).2).
Proof. done. Qed.

(** ** Witnesses *)

Definition sample : store := (requestApproval 0 "run" "step" ["ann"; "bob"] None 1000 []).1.

Lemma sample_reachable : reachable 0 sample.
Proof. apply (reach_call 0 0 [] (CRequest "run" "step" ["ann"; "bob"] None 1000)); [constructor|lia]. Qed.

Definition approved : store := run_call 10 (CSubmit "run" "step" "bob" Approve None) sample.

Lemma decision_final_witness :
  exists r, jm_get "run:step" approved = Some r /\ status r = Approved /\
    match jm_get "run:step" (run_call 5000 (CStatus "run" "step") approved) with
    | None => True
    | Some r' => r' = r \/ terminal r = false /\
        ((exists e s u d cm, CStatus "run" "step" = CSubmit e s u d cm /\ "run:step" = key e s /\ u ∈ approvers r /\
            r' = decide_record 5000 u d cm r) \/ (timeoutAt r < 5000 /\ r' = time_out r))
    end.
Proof.
  eexists. split; [reflexivity|]. split; [reflexivity|].
  pose proof (decision_final 10 approved 5000 (CStatus "run" "step") "run:step" _
    (reach_call 0 10 sample (CSubmit "run" "step" "bob" Approve None) sample_reachable ltac:(lia)) eq_refl) as H.
  destruct (jm_get _ _); [exact H|done].
Defined.

Lemma approvals_coherent_witness :
  exists r, jm_get "run:step" approved = Some r /\
    "run:step" = key (executionId r) (stepId r) /\ requestedAt r <= 10 /\ coherent r.
Proof.
  eexists. split; [reflexivity|].
  apply (approvals_coherent 10 approved "run:step");
    [apply (reach_call 0 10 sample (CSubmit "run" "step" "bob" Approve None) sample_reachable); lia|reflexivity].
Defined.
