(* ===== verification/ExecTracker.v ===== *)
(** * Execution tracking

    [services/pipeline/src/services/execution-tracker.ts]: the in-memory state
    behind the live view of a run: active executions, the history of each
    pipeline, the progress derived from the steps, and the events sent to
    subscribers.  Timestamps are milliseconds; [now] is the clock of the call.
    A status is copied where the code shares the object: the shared object is
    only written through the map of active executions, so what differs is
    that a reader who keeps the object sees it change. *)

From S2P Require Import Prelude JsString JsNumber JsValue.

Inductive RunStepStatus : Type :=
| s_pending | s_running | s_completed | s_failed | s_skipped | s_cancelled.

#[export] Instance RunStepStatus_eq_dec : EqDecision RunStepStatus.
Proof. solve_decision. Defined.

Inductive ExecutionOverallStatus : Type := e_pending | e_running | e_completed | e_failed.

Record StepStatus : Type := {
  st_stepId : string;
  st_name : string;
  st_type : string;
  st_status : RunStepStatus;
  startedAt : option Z;
  completedAt : option Z;
  inputRecordCount : option Z;
  outputRecordCount : option Z;
  st_error : option string;
  durationMs : option Z
}.

Record ExecutionProgress : Type := {
  completedSteps : nat;
  totalSteps : nat;
  percentage : number
}.

Record ExecutionStatus : Type := {
  ex_id : string;
  ex_pipelineId : string;
  ex_status : ExecutionOverallStatus;
  ex_startedAt : Z;
  ex_completedAt : option Z;
  ex_steps : list StepStatus;
  progress : ExecutionProgress;
  inputSnapshot : option value;
  replayOf : option string
}.

Record StepDefinition : Type := { def_stepId : string; def_name : string; def_type : string }.

Inductive ExecutionEvent : Type :=
| StepStart (executionId : string) (s : StepStatus)
| StepComplete (executionId : string) (s : StepStatus)
| StepError (executionId : string) (s : StepStatus)
| ExecutionComplete (executionId : string) (e : ExecutionStatus).

(** A subscription is a number; each [subscribe] makes a new one. *)
Record TrackedExecution : Type := {
  tr_status : ExecutionStatus;
  emitter : list nat;
  lastUpdatedAt : Z
}.

Record tracker : Type := {
  activeExecutions : jmap string TrackedExecution;
  historyByPipeline : jmap string (list ExecutionStatus)
}.

Inductive tracker_error : Type :=
| EmptyExecutionId | EmptyPipelineId | NoStepDefinitions | BadLimit.

Definition DEFAULT_HISTORY_LIMIT : nat := 50.
Definition MAX_ACTIVE_EXECUTIONS : Z := 5000.
Definition INPUT_SNAPSHOT_MAX_BYTES : Z := 1048576.

Definition TERMINAL_STEP_STATUSES (s : RunStepStatus) : bool :=
  match s with s_completed | s_failed | s_skipped | s_cancelled => true | _ => false end.

Definition computeProgress (steps : list StepStatus) : ExecutionProgress :=
  let total := length steps in
  match total with
  | O => {| completedSteps := 0; totalSteps := 0; percentage := num_of_Z 0 |}
  | _ =>
      let completed := length (List.filter (fun s => TERMINAL_STEP_STATUSES (st_status s)) steps) in
      {| completedSteps := completed; totalSteps := total;
         percentage := num_round (num_mul (num_div (num_of_Z (Z.of_nat completed)) (num_of_Z (Z.of_nat total)))
                                    (num_of_Z 100)) |}
  end.

Definition evictOldestActiveIfNeeded (t : jmap string TrackedExecution) : jmap string TrackedExecution :=
  if (Z.of_nat (length t) <? MAX_ACTIVE_EXECUTIONS)%Z then t
  else match t with (oldestId, _) :: _ => jm_delete oldestId t | [] => t end.

Definition archiveToHistory (e : ExecutionStatus) (h : jmap string (list ExecutionStatus)) :
    jmap string (list ExecutionStatus) :=
  jm_set (ex_pipelineId e) (take DEFAULT_HISTORY_LIMIT (e :: default [] (jm_get (ex_pipelineId e) h))) h.

Definition pending_step (s : StepDefinition) : StepStatus :=
  {| st_stepId := def_stepId s; st_name := def_name s; st_type := def_type s; st_status := s_pending;
     startedAt := None; completedAt := None; inputRecordCount := None; outputRecordCount := None;
     st_error := None; durationMs := None |}.

(** The snapshot is kept when its JSON text is not too long. *)
Definition kept_snapshot (input : option value) : option value :=
  match input with
  | Some v =>
      match json_stringify v with
      | Some s => if (Z.of_nat (String.length s) <=? INPUT_SNAPSHOT_MAX_BYTES)%Z then Some v else None
      | None => None
      end
  | None => None
  end.

Definition startExecution (now : Z) (executionId pipelineId : string) (steps : list StepDefinition)
    (input : option value) (replay : option string) (t : tracker) : result tracker_error tracker :=
  if String.eqb executionId EmptyString then Err EmptyExecutionId
  else if String.eqb pipelineId EmptyString then Err EmptyPipelineId
  else match steps with
       | [] => Err NoStepDefinitions
       | _ =>
           let stepStatuses := map pending_step steps in
           let status := {| ex_id := executionId; ex_pipelineId := pipelineId; ex_status := e_running;
             ex_startedAt := now; ex_completedAt := None; ex_steps := stepStatuses;
             progress := computeProgress stepStatuses; inputSnapshot := kept_snapshot input;
             replayOf := replay |} in
           Ok {| activeExecutions :=
                   jm_set executionId {| tr_status := status; emitter := []; lastUpdatedAt := now |}
                     (evictOldestActiveIfNeeded (activeExecutions t));
                 historyByPipeline := historyByPipeline t |}
       end.

Record step_result : Type := {
  res_error : option string;
  res_input : option Z;
  res_output : option Z
}.

Definition or_else {A} (o old : option A) : option A := match o with Some _ => o | None => old end.

Definition updated_step (now : Z) (status : RunStepStatus) (r : option step_result) (s : StepStatus) : StepStatus :=
  let started := match status with s_running => Some now | _ => startedAt s end in
  let done := TERMINAL_STEP_STATUSES status in
  {| st_stepId := st_stepId s; st_name := st_name s; st_type := st_type s; st_status := status;
     startedAt := started;
     completedAt := if done then Some now else completedAt s;
     inputRecordCount := or_else (r ≫= res_input) (inputRecordCount s);
     outputRecordCount := or_else (r ≫= res_output) (outputRecordCount s);
     st_error := or_else (r ≫= res_error) (st_error s);
     durationMs := if done then match started with Some b => Some (now - b)%Z | None => durationMs s end
                   else durationMs s |}.

Definition step_event (executionId : string) (status : RunStepStatus) (s : StepStatus) : ExecutionEvent :=
  match status with
  | s_running => StepStart executionId s
  | s_failed => StepError executionId s
  | _ => StepComplete executionId s
  end.

Definition with_steps (steps : list StepStatus) (e : ExecutionStatus) : ExecutionStatus :=
  {| ex_id := ex_id e; ex_pipelineId := ex_pipelineId e; ex_status := ex_status e;
     ex_startedAt := ex_startedAt e; ex_completedAt := ex_completedAt e; ex_steps := steps;
     progress := computeProgress steps; inputSnapshot := inputSnapshot e; replayOf := replayOf e |}.

Definition deliver (listeners : list nat) (ev : ExecutionEvent) : list (nat * ExecutionEvent) :=
  map (fun l => (l, ev)) listeners.

(** The new state and the events received, by subscription. *)
Definition updateStepStatus (now : Z) (executionId stepId : string) (status : RunStepStatus)
    (r : option step_result) (t : tracker) : tracker * list (nat * ExecutionEvent) :=
  match jm_get executionId (activeExecutions t) with
  | None => (t, [])
  | Some tr =>
      let steps := ex_steps (tr_status tr) in
      match list_find (fun s => st_stepId s = stepId) steps with
      | None => (t, [])
      | Some (i, s) =>
          let u := updated_step now status r s in
          ({| activeExecutions := jm_set executionId
                {| tr_status := with_steps (take i steps ++ u :: drop (S i) steps) (tr_status tr);
                   emitter := emitter tr; lastUpdatedAt := now |} (activeExecutions t);
              historyByPipeline := historyByPipeline t |},
           deliver (emitter tr) (step_event executionId status u))
      end
  end.

Definition completed_status (now : Z) (status : ExecutionOverallStatus) (e : ExecutionStatus) : ExecutionStatus :=
  {| ex_id := ex_id e; ex_pipelineId := ex_pipelineId e; ex_status := status;
     ex_startedAt := ex_startedAt e; ex_completedAt := Some now; ex_steps := ex_steps e;
     progress := computeProgress (ex_steps e); inputSnapshot := inputSnapshot e; replayOf := replayOf e |}.

Definition completeExecution (now : Z) (executionId : string) (status : ExecutionOverallStatus) (t : tracker) :
    tracker * list (nat * ExecutionEvent) :=
  match jm_get executionId (activeExecutions t) with
  | None => (t, [])
  | Some tr =>
      let e := completed_status now status (tr_status tr) in
      ({| activeExecutions := jm_delete executionId (activeExecutions t);
          historyByPipeline := archiveToHistory e (historyByPipeline t) |},
       deliver (emitter tr) (ExecutionComplete executionId e))
  end.

Definition getExecutionStatus (executionId : string) (t : tracker) : option ExecutionStatus :=
  match jm_get executionId (activeExecutions t) with
  | Some tr => Some (tr_status tr)
  | None =>
      head (omap (fun history => snd <$> list_find (fun e => ex_id e = executionId) history)
              (jm_values (historyByPipeline t)))
  end.

Definition getExecutionHistory (pipelineId : string) (limit : Z) (t : tracker) :
    result tracker_error (list ExecutionStatus) :=
  if (limit <=? 0)%Z then Err BadLimit
  else Ok (take (Z.to_nat limit) (default [] (jm_get pipelineId (historyByPipeline t)))).

Definition set_emitter (f : list nat -> list nat) (executionId : string) (t : tracker) : tracker :=
  match jm_get executionId (activeExecutions t) with
  | None => t
  | Some tr =>
      {| activeExecutions := jm_set executionId
           {| tr_status := tr_status tr; emitter := f (emitter tr); lastUpdatedAt := lastUpdatedAt tr |}
           (activeExecutions t);
         historyByPipeline := historyByPipeline t |}
  end.

(** [subscribe] and the function it returns; [listener] is new.  (The returned
    function acts on the emitter it was given: after [completeExecution], or
    when the execution was started again, that emitter sends nothing more.) *)
Definition subscribe (executionId : string) (listener : nat) (t : tracker) : tracker :=
  set_emitter (fun l => l ++ [listener]) executionId t.
Definition unsubscribe (executionId : string) (listener : nat) (t : tracker) : tracker :=
  set_emitter (List.filter (fun l => negb (Nat.eqb l listener))) executionId t.

(** ** The tracker as a step relation *)

Inductive tracker_step : tracker -> tracker -> Prop :=
| ts_start now e p steps input replay t t' :
    startExecution now e p steps input replay t = Ok t' -> tracker_step t t'
| ts_update now e s st r t : tracker_step t (updateStepStatus now e s st r t).1
| ts_complete now e st t : st = e_completed \/ st = e_failed -> tracker_step t (completeExecution now e st t).1
| ts_subscribe e l t : tracker_step t (subscribe e l t)
| ts_unsubscribe e l t : tracker_step t (unsubscribe e l t).

Inductive tracker_reachable : tracker -> Prop :=
| tr_init : tracker_reachable {| activeExecutions := []; historyByPipeline := [] |}
| tr_step t t' : tracker_reachable t -> tracker_step t t' -> tracker_reachable t'.

Record active_ok (k : string) (tr : TrackedExecution) : Prop := {
  ao_id : ex_id (tr_status tr) = k;
  ao_running : ex_status (tr_status tr) = e_running;
  ao_open : ex_completedAt (tr_status tr) = None;
  ao_progress : progress (tr_status tr) = computeProgress (ex_steps (tr_status tr))
}.

Record archived_ok (p : string) (e : ExecutionStatus) : Prop := {
  ar_pipeline : ex_pipelineId e = p;
  ar_done : ex_status e = e_completed \/ ex_status e = e_failed;
  ar_closed : is_Some (ex_completedAt e);
  ar_progress : progress e = computeProgress (ex_steps e)
}.

Record tracker_ok (t : tracker) : Prop := {
  to_NoDup : NoDup (jm_keys (activeExecutions t));
  to_active : forall k tr, jm_get k (activeExecutions t) = Some tr -> active_ok k tr;
  to_bound : (Z.of_nat (length (activeExecutions t)) <= MAX_ACTIVE_EXECUTIONS)%Z;
  to_history : forall p h, jm_get p (historyByPipeline t) = Some h ->
    (length h <= DEFAULT_HISTORY_LIMIT)%nat /\ Forall (archived_ok p) h
}.

Lemma delete_NoDup {V} k (m : jmap string V) : NoDup (jm_keys m) -> NoDup (jm_keys (jm_delete k m)).
Proof.
  intros H. rewrite jm_keys_delete. by apply NoDup_ListNoDup, List.NoDup_filter, NoDup_ListNoDup.
Qed.

Lemma evict_ok t :
  tracker_ok t ->
  let a := evictOldestActiveIfNeeded (activeExecutions t) in
  NoDup (jm_keys a) /\ (forall k tr, jm_get k a = Some tr -> active_ok k tr) /\
  (Z.of_nat (length a) < MAX_ACTIVE_EXECUTIONS)%Z.
Proof.
  intros [Hnd Hact Hb _]. cbn zeta. unfold evictOldestActiveIfNeeded.
  destruct (Z.ltb_spec (Z.of_nat (length (activeExecutions t))) MAX_ACTIVE_EXECUTIONS) as [Hlt|Hge]; [done|].
  destruct (activeExecutions t) as [|[k0 tr0] a]; [done|]. split_and!.
  - by apply delete_NoDup.
  - intros k tr. rewrite jm_get_delete. destruct (decide _); [done|apply Hact].
  - unfold jm_delete. cbn [List.filter fst]. rewrite bool_decide_eq_true_2 by done. cbn [negb].
    pose proof (jm_delete_length k0 a). unfold jm_delete in *. cbn [length] in Hb. lia.
Qed.

Lemma set_active_ok t k tr f :
  tracker_ok t -> jm_get k (activeExecutions t) = Some tr -> active_ok k (f tr) ->
  tracker_ok {| activeExecutions := jm_set k (f tr) (activeExecutions t);
                historyByPipeline := historyByPipeline t |}.
Proof.
  intros [Hnd Hact Hb Hh] Hk Hf. split; cbn; [by apply jm_set_NoDup| | |done].
  - intros k' tr'. rewrite jm_get_set. destruct (decide (k = k')) as [<-|]; [by intros [= <-]|apply Hact].
  - rewrite jm_set_length_old; [done|]. apply jm_has_true. unfold jm_has. by rewrite Hk.
Qed.

Lemma tracker_step_ok t t' : tracker_ok t -> tracker_step t t' -> tracker_ok t'.
Proof.
  intros Hok Hstep. destruct Hstep as [now e p steps input replay t t' H|now e s st r t|now e st t Hst|e l t|e l t].
  - unfold startExecution in H. destruct (String.eqb e _); [done|]. destruct (String.eqb p _); [done|].
    destruct steps as [|s steps]; [done|]. injection H as <-.
    destruct (evict_ok t Hok) as (Hnd & Hact & Hb). split; cbn [activeExecutions historyByPipeline].
    + by apply jm_set_NoDup.
    + intros k tr. rewrite jm_get_set. destruct (decide (e = k)) as [<-|]; [intros [= <-]|apply Hact]. by split.
    + etrans; [apply Nat2Z.inj_le, jm_set_length|]. rewrite Nat2Z.inj_succ.
      revert Hb. generalize (Z.of_nat (length (evictOldestActiveIfNeeded (activeExecutions t)))). lia.
    + apply Hok.
  - unfold updateStepStatus. destruct (jm_get e (activeExecutions t)) as [tr|] eqn:E; [|done].
    destruct (list_find _ _) as [[i x]|]; [|done]. cbn [fst].
    apply (set_active_ok t e tr (fun tr => {| tr_status := with_steps (take i (ex_steps (tr_status tr)) ++
      updated_step now st r x :: drop (S i) (ex_steps (tr_status tr))) (tr_status tr);
      emitter := emitter tr; lastUpdatedAt := now |})); [done|done|].
    destruct (to_active t Hok _ _ E) as [H1 H2 H3 H4]. by split.
  - unfold completeExecution. destruct (jm_get e (activeExecutions t)) as [tr|] eqn:E; [|done]. cbn [fst].
    destruct Hok as [Hnd Hact Hb Hh]. split; cbn [activeExecutions historyByPipeline].
    + by apply delete_NoDup.
    + intros k tr'. rewrite jm_get_delete. destruct (decide _); [done|apply Hact].
    + etrans; [|exact Hb]. apply Nat2Z.inj_le, jm_delete_length.
    + intros p h. unfold archiveToHistory. rewrite jm_get_set. cbn [ex_pipelineId completed_status].
      destruct (decide (ex_pipelineId (tr_status tr) = p)) as [<-|]; [|apply Hh]. intros Hs. apply (inj Some) in Hs as <-. split.
      * apply firstn_le_length.
      * apply Forall_take. constructor; [by split|].
        destruct (jm_get _ (historyByPipeline t)) as [h|] eqn:Eh; [by apply Hh|constructor].
  - unfold subscribe, set_emitter. destruct (jm_get e _) as [tr|] eqn:E; [|done].
    apply (set_active_ok t e tr (fun tr => {| tr_status := tr_status tr; emitter := emitter tr ++ [l];
      lastUpdatedAt := lastUpdatedAt tr |})); [done|done|]. destruct (to_active t Hok _ _ E). by split.
  - unfold unsubscribe, set_emitter. destruct (jm_get e _) as [tr|] eqn:E; [|done].
    apply (set_active_ok t e tr (fun tr => {| tr_status := tr_status tr;
      emitter := List.filter (fun l' => negb (Nat.eqb l' l)) (emitter tr);
      lastUpdatedAt := lastUpdatedAt tr |})); [done|done|]. destruct (to_active t Hok _ _ E). by split.
Qed.

(** Whatever is started, updated, completed and subscribed, at most 5000
    executions are active and at most 50 are kept for each pipeline; an active
    execution is running and is filed under its id, an archived one has ended
    and is filed under its pipeline, and the progress of either is that of its
    steps. *)
Theorem tracker_invariant t : tracker_reachable t -> tracker_ok t.
Proof.
  induction 1 as [|t t' _ IH Hstep]; [|by eapply tracker_step_ok]. split; cbn; try done. constructor.
Qed.

(** Completing an active execution archives it first in its pipeline's history,
    with the final status, notifies every subscriber once, and later updates
    change nothing and notify nobody. *)
Lemma complete_archives now e st t tr :
  jm_get e (activeExecutions t) = Some tr ->
  let '(t', evs) := completeExecution now e st t in
  jm_get e (activeExecutions t') = None /\
  evs = map (fun l => (l, ExecutionComplete e (completed_status now st (tr_status tr)))) (emitter tr) /\
  head (default [] (jm_get (ex_pipelineId (tr_status tr)) (historyByPipeline t')))
    = Some (completed_status now st (tr_status tr)) /\
  forall now' s sst r, updateStepStatus now' e s sst r t' = (t', []).
Proof.
  intros E. unfold completeExecution. rewrite E. cbn [activeExecutions historyByPipeline].
  assert (Hd : jm_get e (jm_delete e (activeExecutions t)) = None)
    by (rewrite jm_get_delete; by rewrite decide_True).
  split_and!; [done|done| |].
  - unfold archiveToHistory. by rewrite jm_get_set_eq.
  - intros now' s sst r. unfold updateStepStatus. cbn [activeExecutions]. by rewrite Hd.
Qed.

Definition idle : tracker := {| activeExecutions := []; historyByPipeline := [] |}.
Definition one_step : StepDefinition := {| def_stepId := "load"; def_name := "Load"; def_type := "code" |}.
Definition started : tracker :=
  match startExecution 5 "run" "pipe" [one_step] None None idle with Ok t => t | Err _ => idle end.

Lemma tracker_invariant_witness :
  tracker_ok (completeExecution 9 "run" e_completed (updateStepStatus 7 "run" "load" s_completed None started).1).1.
Proof.
  apply tracker_invariant.
  apply (tr_step (updateStepStatus 7 "run" "load" s_completed None started).1);
    [|apply (ts_complete 9 "run" e_completed); by left].
  apply (tr_step started); [|apply (ts_update 7 "run" "load" s_completed None)].
  apply (tr_step idle); [apply tr_init|].
  apply (ts_start 5 "run" "pipe" [one_step] None None). reflexivity.
Defined.
