(* ===== verification/EngineInput.v ===== *)
(** * The engine's data: paths, step inputs, record sets

    The pure parts of services/pipeline/src/services/execution-engine.ts:
    [getPath], [resolveStepInput], [resolveSubWorkflowInput],
    [extractRecordArray] and [executeTransformStep], which dispatches to the
    transform engine. *)

From S2P Require Import Prelude JsString JsNumber JsValue JsHost Condition.
From S2P Require Import Transform TransformTables TransformSort PipelineDef.
From Stdlib Require Import Ascii.

(** ** Paths *)

(** [path.replace(/^\$\.?/, "")] *)
Definition clean_path (path : string) : list ascii :=
  match explode path with
  | c :: l => if Ascii.eqb c "$"%char
              then match l with d :: l' => if Ascii.eqb d "."%char then l' else l | [] => [] end
              else c :: l
  | [] => []
  end.

(** [split(/\.|\[(\d+)\]/)]: a dot separates, and so does a bracketed number,
    whose digits are a part of their own.  [acc] is the part being read,
    backwards; [fuel] is at least the length of the rest. *)
Fixpoint split_path (fuel : nat) (acc l : list ascii) : list string :=
  match fuel with
  | O => [implode (rev acc)]
  | S fuel =>
      match l with
      | [] => [implode (rev acc)]
      | c :: l' =>
          if Ascii.eqb c "."%char then implode (rev acc) :: split_path fuel [] l'
          else if Ascii.eqb c "["%char then
            match span is_digit l' with
            | ((_ :: _) as ds, d :: l2) =>
                if Ascii.eqb d "]"%char
                then implode (rev acc) :: implode ds :: split_path fuel [] l2
                else split_path fuel (c :: acc) l'
            | _ => split_path fuel (c :: acc) l'
            end
          else split_path fuel (c :: acc) l'
      end
  end.

(** ... [.filter(Boolean)] *)
Definition path_parts (l : list ascii) : list string :=
  List.filter (fun s => negb (String.eqb s EmptyString)) (split_path (length l) [] l).

(** [v[part]] when [typeof v] is ["object"]. *)
Definition member (part : string) (v : value) : option value :=
  match v with
  | VObj _ o => Some (get part o)
  | VArr _ l => Some (arr_get part l)
  | _ => None
  end.

Fixpoint follow (parts : list string) (current : value) : value :=
  match parts with
  | [] => current
  | part :: parts =>
      match member part current with
      | Some v => follow parts v
      | None => VUndef
      end
  end.

Definition getPath (v : value) (path : string) : value :=
  if is_nullish v then VUndef
  else match clean_path path with
       | [] => v
       | clean => follow (path_parts clean) v
       end.

(** ** Step inputs *)

(** [stepOutputs.get(stepId)] *)
Definition step_output (outputs : jmap string value) (i : string) : value :=
  default VUndef (jm_get i outputs).

Definition resolve_source (runInput : value) (outputs : jmap string value) (s : InputSource) : value :=
  match s with
  | from_literal v => v
  | from_input (Some p) => getPath runInput p
  | from_input None => runInput
  | from_step i (Some p) => getPath (step_output outputs i) p
  | from_step i None => step_output outputs i
  end.

Definition resolveStepInput (b : StepBase) (runInput : value) (outputs : jmap string value) : obj :=
  match inputs b with
  | None => []
  | Some ins => fold_left (fun resolved '(f, s) => set f (resolve_source runInput outputs s) resolved) ins []
  end.

(** [{ input, steps }], with the outputs under [steps.<id>.output].  The
    objects made here are read and dropped; their location is [l]. *)
Definition context_value (l : loc) (runInput : value) (outputs : jmap string value) : value :=
  VObj l (of_entries [("input", runInput);
    ("steps", VObj l (of_entries (map (fun '(i, out) => (i, VObj l [("output", out)])) outputs)))]).

Definition resolveSubWorkflowInput (l : loc) (inputMapping : list (string * string)) (runInput : value)
    (outputs : jmap string value) : obj :=
  fold_left (fun child '(f, p) => set f (getPath (context_value l runInput outputs) p) child) inputMapping [].

(** The own properties that a spread copies. *)
Definition spread (v : value) : obj := match v with VObj _ o => o | _ => [] end.

(** ** Transform steps *)

Inductive transform_step_error : Type :=
| NoOutput (sourceStepId : string)
| NotRecordArray (sourceStepId : string)
| TransformFailed (e : transform_error)
| NotRecords.  (* an array element that is no object: outside the types, and the model *)

Definition as_record (v : value) : result transform_step_error record :=
  match v with VObj _ o => Ok o | _ => Err NotRecords end.

Definition extractRecordArray (output : value) (sourceStepId : string) :
    result transform_step_error (list record) :=
  match output with
  | VUndef | VNull => Err (NoOutput sourceStepId)
  | VObj _ o =>
      match get "records" o with
      | VArr _ l => traverse as_record l
      | _ => Ok [o]
      end
  | VArr _ l => traverse as_record l
  | _ => Err (NotRecordArray sourceStepId)
  end.

Definition input_records (dataSource : option string) (outputs : jmap string value) (resolvedInput : obj) :
    result transform_step_error (list record) :=
  match dataSource with
  | Some i => extractRecordArray (step_output outputs i) i
  | None =>
      match get "records" resolvedInput with
      | VArr _ l => traverse as_record l
      | _ => Ok [resolvedInput]
      end
  end.

Section TransformStep.
Context {host : Host}.

(** The [switch] on the operation; the engine passes no logger. *)
Definition apply_operation (env : option string) (op : TransformOperation) (outputs : jmap string value)
    (records : list record) : result transform_step_error (list record) :=
  match op with
  | op_dedup keyFields strategy => map_err TransformFailed (snd (dedup env records keyFields strategy false))
  | op_filter condition => map_err TransformFailed (filter records condition)
  | op_map mappings => map_err TransformFailed (mapFields records mappings)
  | op_aggregate groupBy aggs => map_err TransformFailed (snd (aggregate env records groupBy aggs false))
  | op_pivot c => map_err TransformFailed (snd (pivot env records c false))
  | op_unpivot c => map_err TransformFailed (unpivot records c)
  | op_join rightSource c =>
      rights ← extractRecordArray (step_output outputs rightSource) rightSource;
      map_err TransformFailed (snd (TransformTables.join env records rights c false))
  | op_sort fields => map_err TransformFailed (snd (sort env records fields false))
  | op_limit count => map_err TransformFailed (limit records count)
  | op_rename fieldMap => map_err TransformFailed (rename records fieldMap)
  end.

(** [{ records, count }]: the output object, the array and the records get the
    locations that [fresh] gives. *)
Definition records_output (fresh : nat -> loc) (records : list record) : value :=
  VObj (fresh 0%nat) [("records", VArr (fresh 1%nat) (imap (fun i r => VObj (fresh (2 + i)%nat) r) records));
                 ("count", VNum (num_of_Z (Z.of_nat (length records))))].

Definition executeTransformStep (env : option string) (fresh : nat -> loc) (dataSource : option string)
    (op : TransformOperation) (outputs : jmap string value) (resolvedInput : obj) :
    result transform_step_error value :=
  records ← input_records dataSource outputs resolvedInput;
  out ← apply_operation env op outputs records;
  Ok (records_output fresh out).

(** ** Transform steps compose *)

Lemma traverse_as_record (f : nat -> loc) (l : list record) :
  traverse as_record (imap (fun i r => VObj (f i) r) l) = Ok l.
Proof.
  revert f. induction l as [|r l IH]; intros f; [done|].
  cbn. unfold compose. specialize (IH (fun i => f (S i))). cbn in IH. by rewrite IH.
Qed.

Lemma extract_records_output fresh l i : extractRecordArray (records_output fresh l) i = Ok l.
Proof. unfold extractRecordArray, records_output. cbn. apply (traverse_as_record (fun i => fresh (2 + i)%nat)). Qed.

(** Transform steps that read one another compose: a step whose data
    source is an earlier transform step works on exactly the records that step
    produced, so two chained steps compute the composition of their
    operations, and fail as it does. *)
Theorem transform_chain env fresh1 fresh2 src op1 op2 ds outputs input1 input2 out1 :
  executeTransformStep env fresh1 ds op1 outputs input1 = Ok out1 ->
  executeTransformStep env fresh2 (Some src) op2 (jm_set src out1 outputs) input2
  = (records ← input_records ds outputs input1;
     mid ← apply_operation env op1 outputs records;
     out ← apply_operation env op2 (jm_set src out1 outputs) mid;
     Ok (records_output fresh2 out)).
Proof.
  unfold executeTransformStep. destruct (input_records ds outputs input1) as [records|e]; [|done]. cbn.
  destruct (apply_operation env op1 outputs records) as [mid|e]; [|done]. cbn. intros [= <-].
  unfold step_output. rewrite jm_get_set_eq.
  change (default VUndef (Some (records_output fresh1 mid))) with (records_output fresh1 mid).
  by rewrite extract_records_output.
Qed.
End TransformStep.

(** ** Witness *)

Definition three_records : value := VArr 0%N [VObj 1%N [("n", VStr "a")]; VObj 2%N [("n", VStr "b")]; VObj 3%N [("n", VStr "c")]].

Lemma transform_chain_witness :
  exists out1 out2,
    executeTransformStep (host := plain_host) None N.of_nat (Some "load") (op_limit (num_of_Z 2)) [("load", three_records)] [] = Ok out1
    /\ executeTransformStep (host := plain_host) None N.of_nat (Some "first") (op_rename [("n", "name")])
         (jm_set "first" out1 [("load", three_records)]) [] = Ok out2
    /\ extractRecordArray out2 "second" = Ok [[("name", VStr "a")]; [("name", VStr "b")]].
Proof.
  eexists. eexists. split; [vm_compute; reflexivity|]. split.
  - erewrite (transform_chain (host := plain_host) None N.of_nat N.of_nat "first" (op_limit (num_of_Z 2)) (op_rename [("n", "name")])
      (Some "load") [("load", three_records)] [] []); [vm_compute; reflexivity|vm_compute; reflexivity].
  - vm_compute. reflexivity.
Defined.
