(* ===== verification/EngineStep.v ===== *)
(** * The engine: one step

    [executeStep] of services/pipeline/src/services/execution-engine.ts and the
    executors it dispatches to.  What the engine only calls is the class
    [Services]: the other services over HTTP, JSONata, the clock, the scheduler
    of promises.  A call is identified by its place in the run ([Pos]), so that
    an instance of [Services] is one way a run can go: it fixes every answer,
    and the steps of parallel branches, which share nothing they write, can be
    computed branch by branch.  Log entries are left out. *)

From S2P Require Import Prelude JsString JsNumber JsValue JsHost Condition ExprEval.
From S2P Require Import SsrfBlocklist PipelineDef EngineInput ApprovalService.
From Stdlib Require Import Ascii.

Definition Pos : Type := list nat.

(** ** Requests and answers *)

Record http_response : Type := {
  ok : bool;
  status_code : Z;
  json : option value  (* [None] when the body is not JSON *)
}.

Record ExecutionRequest : Type := {
  rq_pluginId : option string;
  rq_language : option string;
  rq_code : option string;
  rq_entrypoint : string;
  rq_input : value;
  rq_timeoutMs : Z;
  rq_tenantId : string;
  rq_runId : string;
  rq_stepId : string;
  rq_hookContext : bool
}.

Record webhook_request : Type := {
  wh_url : string;
  wh_method : http_method;
  wh_headers : list (string * string);
  wh_body : option value;
  wh_timeoutMs : Z
}.

Record HookRef : Type := {
  hookId : string;
  pluginId : string;
  hook_entrypoint : string;
  critical : bool;
  hook_timeoutMs : Z
}.

Inductive RunStatus : Type := r_pending | r_running | r_completed | r_failed | r_cancelled.

#[export] Instance RunStatus_eq_dec : EqDecision RunStatus.
Proof. solve_decision. Defined.

Inductive wait_error : Type := WaitTimeout | WaitError (msg : string).

Inductive engine_error : Type :=
| Rejected_ (msg : string)
| ServiceReturned (code : Z)
| BadResponse
| WebhookBlocked
| TransformStepError (e : transform_step_error)
| NoApprovalService
| ApprovalInterrupted
| ApprovalMissing
| ApprovalRejected
| ApprovalTimedOut
| SubWorkflowDepthExceeded (depth : nat)
| SubWorkflowCircularDependency (pipelineId : string)
| NoSubWorkflowTrigger
| SubWorkflowPipelineNotFound (pipelineId : string)
| SubWorkflowTriggerFailed (msg : string)
| SubWorkflowTimeout
| SubWorkflowWaitFailed (msg : string)
| SubWorkflowChildFailed (s : RunStatus).

(** [Err msg] is a rejected promise with that message. *)
Class Services : Type := {
  (** the text of an error, which the code puts together from templates *)
  message_of : engine_error -> string;
  execution_run : Pos -> ExecutionRequest -> result string http_response;
  (** the hooks of a stage: whether the answer was ok, and its list *)
  hooks_request : Pos -> string -> result string (bool * list HookRef);
  ingestion_sync : Pos -> obj -> result string http_response;
  webhook_fetch : Pos -> webhook_request -> result string http_response;
  (** evaluation within its time limit; the flag disables [$eval] *)
  jsonata : Pos -> bool -> string -> value -> result string value;
  clock : Pos -> Z;
  (** at the n-th poll: whether the run was cancelled, and the record found *)
  approval_poll : Pos -> nat -> bool * option ApprovalRecord;
  sub_trigger : Pos -> string -> obj -> list string -> result string string;
  sub_wait : Pos -> string -> Z -> result wait_error (RunStatus * option value);
  (** which of the given branches settles first *)
  first_settled : Pos -> list nat -> nat;
  (** locations of the objects a step makes *)
  fresh : Pos -> nat -> loc;
  run_cancelled : Pos -> bool;
  (** [pg_try_advisory_lock] and [pg_advisory_unlock] *)
  try_lock : Z -> result string bool;
  unlock : Z -> bool
}.

(** What the factory was given. *)
Record EngineDeps : Type := {
  stepDefaultTimeoutMs : Z;
  has_approvalService : bool;
  has_subWorkflowTrigger : bool;
  op_env : option string
}.

Record RunContext : Type := {
  runId : string;
  tenantId : string;
  ctx_pipelineId : string;
  ctx_stepTimeout : option Z;
  runInput : value;
  stepOutputs : jmap string value;
  subWorkflowCallStack : list string;
  queueWaitMs : Z
}.

Definition step_result : Type := (value * option string)%type.

Definition MIN_STEP_TIMEOUT_MS : Z := 5000.
Definition SUB_WORKFLOW_MAX_DEPTH : nat := 5.

Definition adjustTimeoutForQueueWait (timeoutMs queueWaitMs : Z) : Z :=
  Z.max (timeoutMs - queueWaitMs) MIN_STEP_TIMEOUT_MS.

(** ** Moving on *)

(** [getNextStepId]; [findIndex] takes the first step with the id. *)
Definition getNextStepId (s : Step) (conditionalNextId : option string) (steps : list Step) :
    option string :=
  match s, conditionalNextId with
  | ConditionalStep _ _ _ _, Some i => Some i
  | _, _ =>
      match list_find (fun x => step_id x = step_id s) steps with
      | Some (idx, _) => step_id <$> steps !! S idx
      | None => None
      end
  end.

Definition getNextStepIdFromMain : Step -> list Step -> option string -> option string :=
  fun s steps conditionalNext => getNextStepId s conditionalNext steps.

(** [new Map(steps.map((s) => [s.id, s]))] *)
Definition step_map (steps : list Step) : jmap string Step :=
  fold_left (fun m s => jm_set (step_id s) s m) steps [].

Section Engine.
Context {host : Host} {services : Services} (deps : EngineDeps).

(** ** The executors *)

(** [(await response.json()).output] *)
Definition response_output (r : http_response) : result engine_error value :=
  match json r with
  | None | Some VUndef | Some VNull => Err BadResponse
  | Some v => Ok (default VUndef (member "output" v))
  end.

Definition callExecutionService (pos : Pos) (rq : ExecutionRequest) : result engine_error value :=
  match execution_run pos rq with
  | Err msg => Err (Rejected_ msg)
  | Ok r => if ok r then response_output r else Err (ServiceReturned (status_code r))
  end.

Definition step_timeout (b : StepBase) (ctx : RunContext) : Z :=
  adjustTimeoutForQueueWait
    (default (default (stepDefaultTimeoutMs deps) (ctx_stepTimeout ctx)) (timeout b)) (queueWaitMs ctx).

Definition executeCodeStep (pos : Pos) (b : StepBase) (language code : string) (entrypoint : option string)
    (ctx : RunContext) (input : value) : result engine_error value :=
  callExecutionService pos
    {| rq_pluginId := None; rq_language := Some language; rq_code := Some code;
       rq_entrypoint := default "main" entrypoint; rq_input := input; rq_timeoutMs := step_timeout b ctx;
       rq_tenantId := tenantId ctx; rq_runId := runId ctx; rq_stepId := id b; rq_hookContext := false |}.

Definition executeTransformerStep (pos : Pos) (b : StepBase) (transformerId : string) (ctx : RunContext)
    (input : value) : result engine_error value :=
  callExecutionService pos
    {| rq_pluginId := Some transformerId; rq_language := None; rq_code := None;
       rq_entrypoint := "main"; rq_input := input; rq_timeoutMs := step_timeout b ctx;
       rq_tenantId := tenantId ctx; rq_runId := runId ctx; rq_stepId := id b; rq_hookContext := false |}.

Definition sync_mode_text (m : sync_mode) : string :=
  match m with sync_full => "full" | sync_incremental => "incremental" end.

(** The body: the fixed fields, then the resolved inputs over them. *)
Definition connector_body (b : StepBase) (connectorInstanceId : string) (syncMode : option sync_mode)
    (waitForCompletion : bool) (ctx : RunContext) (resolvedInput : obj) : obj :=
  assign (of_entries
    ([("connectorInstanceId", VStr connectorInstanceId); ("tenantId", VStr (tenantId ctx));
      ("runId", VStr (runId ctx)); ("stepId", VStr (id b))]
     ++ match syncMode with Some m => [("syncMode", VStr (sync_mode_text m))] | None => [] end
     ++ [("waitForCompletion", VBool waitForCompletion)])) resolvedInput.

Definition executeConnectorStep (pos : Pos) (b : StepBase) (connectorInstanceId : string)
    (syncMode : option sync_mode) (waitForCompletion : bool) (ctx : RunContext) (resolvedInput : obj) :
    result engine_error value :=
  match ingestion_sync pos (connector_body b connectorInstanceId syncMode waitForCompletion ctx resolvedInput) with
  | Err msg => Err (Rejected_ msg)
  | Ok r => if ok r then response_output r else Err (ServiceReturned (status_code r))
  end.

Definition rejected {A} (r : result string A) : result engine_error A := map_err Rejected_ r.

(** A body that starts with ["="] is a JSONata template. *)
Definition webhook_body (pos : Pos) (body : value) (input : value) : result engine_error value :=
  match body with
  | VStr (String "="%char template) =>
      rejected (jsonata (pos ++ [0%nat]) true template (VObj (fresh pos 0) [("input", input)]))
  | _ => Ok body
  end.

Definition executeWebhookStep (pos : Pos) (url : string) (method : http_method)
    (headers : list (string * string)) (body : value) (responseMapping : option string)
    (timeout : option Z) (input : value) : result engine_error value :=
  if isUrlSsrfBlocked url then Err WebhookBlocked
  else
    body ← webhook_body pos body input;
    let sent := match body, method with VUndef, _ | _, GET => None | _, _ => Some body end in
    response ← rejected (webhook_fetch pos
      {| wh_url := url; wh_method := method;
         wh_headers := fold_left (fun m '(k, v) => jm_set k v m) headers [("Content-Type", "application/json")];
         wh_body := sent; wh_timeoutMs := Z.min (default 30000%Z timeout) 120000 |});
    let output := VObj (fresh pos 1) [("statusCode", VNum (num_of_Z (status_code response)));
                                 ("body", default VNull (json response))] in
    match responseMapping with
    | None => Ok output
    | Some expr => mapped ← rejected (jsonata (pos ++ [1%nat]) false expr output); Ok (coalesce mapped output)
    end.

Definition opt_text (o : option string) : value := match o with Some s => VStr s | None => VNull end.

Definition executeWaitStep (pos : Pos) (durationMs : Z) : value :=
  let startedAt := clock (pos ++ [0%nat]) in
  let resumedAt := clock (pos ++ [1%nat]) in
  VObj (fresh pos 0) [("durationMs", VNum (num_of_Z durationMs));
    ("actualDurationMs", VNum (num_of_Z (resumedAt - startedAt)));
    ("resumedAt", VStr (iso_string resumedAt))].

(** The polling loop; [None] while every poll so far was pending. *)
Fixpoint poll_approval (fuel : nat) (pos : Pos) (n : nat) : option (result engine_error value) :=
  match fuel with
  | O => None
  | S fuel =>
      match approval_poll pos n with
      | (true, _) => Some (Err ApprovalInterrupted)
      | (false, None) => Some (Err ApprovalMissing)
      | (false, Some r) =>
          match status r with
          | Approved =>
              Some (Ok (VObj (fresh pos 0) [("decision", VStr "approved"); ("decidedBy", opt_text (decidedBy r));
                ("decidedAt", opt_text (iso_string <$> decidedAt r)); ("comment", opt_text (comment r))]))
          | Rejected => Some (Err ApprovalRejected)
          | TimedOut => Some (Err ApprovalTimedOut)
          | Pending => poll_approval fuel pos (S n)
          end
      end
  end.

Definition executeApprovalStep (fuel : nat) (pos : Pos) : option (result engine_error value) :=
  if has_approvalService deps then poll_approval fuel pos 0 else Some (Err NoApprovalService).

Definition status_text (s : RunStatus) : string :=
  match s with
  | r_pending => "pending" | r_running => "running" | r_completed => "completed"
  | r_failed => "failed" | r_cancelled => "cancelled"
  end.

Definition not_found_message (msg : string) : bool :=
  includes msg "not found" || includes msg "PIPELINE_NOT_FOUND".

Definition executeSubWorkflowStep (pos : Pos) (pipelineId : string)
    (inputMapping : option (list (string * string))) (waitForCompletion : bool) (timeoutMs : option Z)
    (ctx : RunContext) : result engine_error value :=
  if (SUB_WORKFLOW_MAX_DEPTH <=? length (subWorkflowCallStack ctx))%nat
  then Err (SubWorkflowDepthExceeded (length (subWorkflowCallStack ctx)))
  else
    let fullCallChain := subWorkflowCallStack ctx ++ [ctx_pipelineId ctx] in
    if mem pipelineId fullCallChain then Err (SubWorkflowCircularDependency pipelineId)
    else if negb (has_subWorkflowTrigger deps) then Err NoSubWorkflowTrigger
    else
      let childInput := match inputMapping with
                        | Some m => resolveSubWorkflowInput (fresh pos 0) m (runInput ctx) (stepOutputs ctx)
                        | None => []
                        end in
      childRunId ← map_err (fun msg => if not_found_message msg then SubWorkflowPipelineNotFound pipelineId
                                       else SubWorkflowTriggerFailed msg)
                     (sub_trigger pos pipelineId childInput fullCallChain);
      let child := [("childRunId", VStr childRunId); ("childPipelineId", VStr pipelineId)] in
      if negb waitForCompletion then Ok (VObj (fresh pos 1) (child ++ [("status", VStr "pending")]))
      else
        let waitTimeoutMs := default (default (stepDefaultTimeoutMs deps) (ctx_stepTimeout ctx)) timeoutMs in
        '(s, output) ← map_err (fun e => match e with
                                         | WaitTimeout => SubWorkflowTimeout
                                         | WaitError msg => SubWorkflowWaitFailed msg
                                         end) (sub_wait pos childRunId waitTimeoutMs);
        match s with
        | r_failed | r_cancelled => Err (SubWorkflowChildFailed s)
        | _ => Ok (VObj (fresh pos 1) (child ++ [("status", VStr (status_text s))]
                     ++ match output with Some o => [("output", o)] | None => [] end))
        end.

Definition executeConditionalStep (pos : Pos) (c : Condition) (thenStepId : string)
    (elseStepId : option string) (ctx : RunContext) (resolvedInput : obj) : step_result :=
  let dataContext := VObj (fresh pos 0) (assign (of_entries (spread (runInput ctx))) resolvedInput) in
  let r := evaluateCondition dataContext c in
  let nextStepId := if r then Some thenStepId else elseStepId in
  (VObj (fresh pos 1) [("condition", VBool r); ("nextStepId", opt_text nextStepId)], nextStepId).

(** ** Parallel branches *)

(** [traverseBranch], with [exec] for [executeStep]; [n] counts the steps taken. *)
Fixpoint traverseBranch (fuel : nat) (exec : Pos -> Step -> option (result engine_error step_result))
    (pos : Pos) (n : nat) (steps : list Step) (currentStepId : option string) (lastOutput : value) :
    option (result engine_error value) :=
  match currentStepId with
  | None => Some (Ok lastOutput)
  | Some i =>
      match fuel with
      | O => None
      | S fuel =>
          match jm_get i (step_map steps) with
          | None => Some (Ok lastOutput)
          | Some s =>
              match exec (pos ++ [n]) s with
              | None => None
              | Some (Err e) => Some (Err e)
              | Some (Ok (output, next)) =>
                  traverseBranch fuel exec pos (S n) steps (getNextStepId s next steps) output
              end
          end
      end
  end.

Definition outcome_error {A} (r : result engine_error A) : option engine_error :=
  match r with Err e => Some e | Ok _ => None end.

(** The branch of [candidates] that settles first. *)
Definition winner (pos : Pos) (candidates : list nat) : option nat :=
  let w := first_settled pos candidates in
  if bool_decide (w ∈ candidates) then Some w else head candidates.

(** [Promise.all] and [Promise.race], for branches that all end; a race of no
    branches never settles. *)
Definition settle (pos : Pos) (branches : list (string * result engine_error value)) (w : wait_mode) :
    option (result engine_error value) :=
  match w with
  | wait_all =>
      let failing := List.filter (fun i => match branches !! i with Some (_, Err _) => true | _ => false end)
                       (seq 0 (length branches)) in
      match winner pos failing ≫= fun i => branches !! i with
      | Some (_, Err e) => Some (Err e)
      | _ => Some (Ok (VObj (fresh pos 0)
               (fold_left (fun o '(i, r) => match r with Ok v => set i v o | Err _ => o end) branches [])))
      end
  | wait_any =>
      match winner pos (seq 0 (length branches)) ≫= fun i => branches !! i with
      | Some (i, Ok v) => Some (Ok (VObj (fresh pos 0) [(i, v)]))
      | Some (_, Err e) => Some (Err e)
      | None => None
      end
  end.

Definition executeParallelStep (traverse_branch : Pos -> ParallelBranch Step -> option (result engine_error value))
    (pos : Pos) (branches : list (ParallelBranch Step)) (w : wait_mode) : option (result engine_error value) :=
  results ← mapM (fun '(i, br) => r ← traverse_branch (pos ++ [i]) br; Some (branch_id br, r)) (imap pair branches);
  settle pos results w.

(** ** [executeStep] *)

Definition plain (r : result engine_error value) : option (result engine_error step_result) :=
  Some (v ← r; Ok (v, None)).

Fixpoint executeStep (fuel : nat) (pos : Pos) (ctx : RunContext) (s : Step) :
    option (result engine_error step_result) :=
  match fuel with
  | O => None
  | S fuel =>
      let resolvedInput := resolveStepInput (step_base s) (runInput ctx) (stepOutputs ctx) in
      let input := VObj (fresh pos 2) resolvedInput in
      match s with
      | CodeStep b language code entrypoint => plain (executeCodeStep pos b language code entrypoint ctx input)
      | ConnectorStep b i m w => plain (executeConnectorStep pos b i m w ctx resolvedInput)
      | TransformerStep b t => plain (executeTransformerStep pos b t ctx input)
      | TransformStep b dataSource op =>
          plain (map_err TransformStepError
                   (executeTransformStep (op_env deps) (fresh pos) dataSource op (stepOutputs ctx) resolvedInput))
      | ConditionalStep b c t e => Some (Ok (executeConditionalStep pos c t e ctx resolvedInput))
      | ParallelStep b branches w =>
          r ← executeParallelStep
                (fun pos br => traverseBranch fuel (fun pos s => executeStep fuel pos ctx s) pos 0
                                 (branch_steps br) (Some (entryStepId br)) VUndef) pos branches w;
          plain r
      | WebhookStep b url method headers body mapping t =>
          plain (executeWebhookStep pos url method headers body mapping t input)
      | WaitStep b d => plain (Ok (executeWaitStep pos d))
      | ApprovalStep b _ _ _ => r ← executeApprovalStep fuel pos; plain r
      | SubWorkflowStep b p m w t => plain (executeSubWorkflowStep pos p m w t ctx)
      end
  end.
End Engine.

(** ** Concrete services

    For examples: code runs unless [fails] of the step and the attempt, and
    returns the step's id; there are no hooks; the lock is free. *)
Definition demo_services (fails : string -> nat -> bool) : Services := {|
  message_of := fun _ => "error";
  execution_run := fun pos rq =>
    if fails (rq_stepId rq) (List.last pos 0%nat) then Err "boom"
    else Ok {| ok := true; status_code := 200; json := Some (VObj 0%N [("output", VStr (rq_stepId rq))]) |};
  hooks_request := fun _ _ => Ok (true, []);
  ingestion_sync := fun _ _ => Err "no ingestion";
  webhook_fetch := fun _ _ => Err "no network";
  jsonata := fun _ _ _ _ => Err "no jsonata";
  clock := fun _ => 0%Z;
  approval_poll := fun _ _ => (false, None);
  sub_trigger := fun _ _ _ _ => Err "no trigger";
  sub_wait := fun _ _ _ => Err WaitTimeout;
  first_settled := fun _ l => List.hd 0%nat l;
  fresh := fun _ n => N.of_nat n;
  run_cancelled := fun _ => false;
  try_lock := fun _ => Ok true;
  unlock := fun _ => true
|}.

Definition demo_deps : EngineDeps :=
  {| stepDefaultTimeoutMs := 30000; has_approvalService := false; has_subWorkflowTrigger := false; op_env := None |}.

(** A code step. *)
Definition demo_base (i : string) : StepBase :=
  {| id := i; name := i; inputs := None; onError := None; skipIf := None; timeout := None; retryConfig := None;
     fallbackStepId := None |}.
Definition demo_step (b : StepBase) : Step := CodeStep b "javascript" "main()" None.
