(* ===== verification/EngineRun.v ===== *)
(** * The engine: a run

    [processRun] of services/pipeline/src/services/execution-engine.ts over the
    rows of the run and of its steps, the execution tracker, the pool client
    and the advisory lock.  Writes of the engine's own rows succeed; the
    platform events and the retry delays are recorded in order. *)

From S2P Require Import Prelude JsString JsNumber JsValue JsHost ExprEval.
From S2P Require Import PipelineDef EngineInput ExecTracker EngineStep.
From Stdlib Require Import Ascii.

(** ** Rows *)

Inductive run_failure : Type :=
| HookCriticalFailure (e : engine_error)
| StepExecutionFailed (stepId : string) (e : engine_error).

Record RunRow : Type := {
  row_id : string;
  row_pipelineId : string;
  row_tenantId : string;
  row_status : RunStatus;
  triggered_by : string;
  trigger_actor_id : option string;
  trigger_meta : obj;
  row_input : value;
  row_startedAt : option Z;
  row_completedAt : option Z;
  row_error : option run_failure;
  bully_job_id : option string;
  definition_snapshot : PipelineDefinition;
  row_createdAt : Z
}.

Record RunStepRow : Type := {
  rs_stepId : string;
  rs_name : string;
  rs_type : string;
  rs_status : RunStepStatus;
  attempt_count : nat;
  rs_startedAt : option Z;
  rs_completedAt : option Z;
  rs_output : option value;
  rs_error : option run_failure
}.

Inductive platform_event : Type :=
| EvStepCompleted (stepId : string)
| EvCancelled
| EvFailed (stepId : string)
| EvCompleted (stepCount : nat).

Record world : Type := {
  w_run : option RunRow;
  w_rows : list RunStepRow;
  w_tracker : option tracker;
  w_events : list platform_event;
  w_sleeps : list number;
  w_locked : bool;      (* the session holds the advisory lock *)
  w_clients : Z         (* pool clients checked out *)
}.

Definition with_run (f : RunRow -> RunRow) (w : world) : world :=
  {| w_run := f <$> w_run w; w_rows := w_rows w; w_tracker := w_tracker w; w_events := w_events w;
     w_sleeps := w_sleeps w; w_locked := w_locked w; w_clients := w_clients w |}.
Definition with_rows (f : list RunStepRow -> list RunStepRow) (w : world) : world :=
  {| w_run := w_run w; w_rows := f (w_rows w); w_tracker := w_tracker w; w_events := w_events w;
     w_sleeps := w_sleeps w; w_locked := w_locked w; w_clients := w_clients w |}.
Definition with_tracker (f : tracker -> tracker) (w : world) : world :=
  {| w_run := w_run w; w_rows := w_rows w; w_tracker := f <$> w_tracker w; w_events := w_events w;
     w_sleeps := w_sleeps w; w_locked := w_locked w; w_clients := w_clients w |}.
Definition emitPlatformEvent (e : platform_event) (w : world) : world :=
  {| w_run := w_run w; w_rows := w_rows w; w_tracker := w_tracker w; w_events := w_events w ++ [e];
     w_sleeps := w_sleeps w; w_locked := w_locked w; w_clients := w_clients w |}.
Definition sleep (ms : number) (w : world) : world :=
  {| w_run := w_run w; w_rows := w_rows w; w_tracker := w_tracker w; w_events := w_events w;
     w_sleeps := w_sleeps w ++ [ms]; w_locked := w_locked w; w_clients := w_clients w |}.
Definition with_lock (locked : bool) (clients : Z) (w : world) : world :=
  {| w_run := w_run w; w_rows := w_rows w; w_tracker := w_tracker w; w_events := w_events w;
     w_sleeps := w_sleeps w; w_locked := locked; w_clients := clients |}.

(** [runRepo.updateStatus] with a status that ends the run, or with [running]. *)
Definition ended_row (s : RunStatus) (at_ : Z) (err : option run_failure) (r : RunRow) : RunRow :=
  {| row_id := row_id r; row_pipelineId := row_pipelineId r; row_tenantId := row_tenantId r;
     row_status := s; triggered_by := triggered_by r;
     trigger_actor_id := trigger_actor_id r; trigger_meta := trigger_meta r; row_input := row_input r;
     row_startedAt := row_startedAt r; row_completedAt := Some at_;
     row_error := match err with Some _ => err | None => row_error r end;
     bully_job_id := bully_job_id r; definition_snapshot := definition_snapshot r; row_createdAt := row_createdAt r |}.
Definition started_row (at_ : Z) (r : RunRow) : RunRow :=
  {| row_id := row_id r; row_pipelineId := row_pipelineId r; row_tenantId := row_tenantId r;
     row_status := r_running; triggered_by := triggered_by r;
     trigger_actor_id := trigger_actor_id r; trigger_meta := trigger_meta r; row_input := row_input r;
     row_startedAt := Some at_; row_completedAt := row_completedAt r; row_error := row_error r;
     bully_job_id := bully_job_id r; definition_snapshot := definition_snapshot r; row_createdAt := row_createdAt r |}.

Definition end_run (s : RunStatus) (at_ : Z) (err : option run_failure) : world -> world :=
  with_run (ended_row s at_ err).
Definition start_run (at_ : Z) : world -> world := with_run (started_row at_).

(** [runStepRepo.updateStatus] and [updateOutput]: the row of one step. *)
Definition at_row (i : string) (f : RunStepRow -> RunStepRow) : world -> world :=
  with_rows (map (fun r => if String.eqb (rs_stepId r) i then f r else r)).

Definition set_row_status (s : RunStepStatus) (started completed : option Z) (err : option run_failure)
    (r : RunStepRow) : RunStepRow :=
  {| rs_stepId := rs_stepId r; rs_name := rs_name r; rs_type := rs_type r; rs_status := s;
     attempt_count := attempt_count r; rs_startedAt := or_else started (rs_startedAt r);
     rs_completedAt := or_else completed (rs_completedAt r); rs_output := rs_output r;
     rs_error := or_else err (rs_error r) |}.
Definition set_attempts (n : nat) (r : RunStepRow) : RunStepRow :=
  {| rs_stepId := rs_stepId r; rs_name := rs_name r; rs_type := rs_type r; rs_status := rs_status r;
     attempt_count := n; rs_startedAt := rs_startedAt r; rs_completedAt := rs_completedAt r;
     rs_output := rs_output r; rs_error := rs_error r |}.
Definition set_output (v : value) (r : RunStepRow) : RunStepRow :=
  {| rs_stepId := rs_stepId r; rs_name := rs_name r; rs_type := rs_type r; rs_status := rs_status r;
     attempt_count := attempt_count r; rs_startedAt := rs_startedAt r; rs_completedAt := rs_completedAt r;
     rs_output := Some v; rs_error := rs_error r |}.

(** The pending rows become cancelled. *)
Definition cancel_pending : world -> world :=
  with_rows (map (fun r => if decide (rs_status r = s_pending)
                           then set_row_status s_cancelled None None None r else r)).

Definition step_type (s : Step) : string :=
  match s with
  | CodeStep _ _ _ _ => "code" | ConnectorStep _ _ _ _ => "connector" | TransformerStep _ _ => "transformer"
  | TransformStep _ _ _ => "transform" | ConditionalStep _ _ _ _ => "conditional"
  | ParallelStep _ _ _ => "parallel" | WebhookStep _ _ _ _ _ _ _ => "webhook" | WaitStep _ _ => "wait"
  | ApprovalStep _ _ _ _ => "approval" | SubWorkflowStep _ _ _ _ _ => "sub_workflow"
  end.

Definition new_row (s : Step) : RunStepRow :=
  {| rs_stepId := step_id s; rs_name := name (step_base s); rs_type := step_type s; rs_status := s_pending;
     attempt_count := 0; rs_startedAt := None; rs_completedAt := None; rs_output := None; rs_error := None |}.

Inductive run_error : Type :=
| LockFailed (msg : string)
| LockHeld
| DuplicateStepRow            (* UNIQUE (run_id, step_id) *)
| StepTypeRefused             (* CHECK run_steps_step_type_valid *)
| TrackerError (e : tracker_error)
| HookResolution (msg : string).

(** The constraint run_steps_step_type_valid: the types a row of pipeline.run_steps may have. *)
Definition stored_step_types : list string :=
  ["code"; "connector"; "transformer"; "conditional"; "parallel"; "webhook"].
Definition storable (s : Step) : bool := mem (step_type s) stored_step_types.

(** [createBatch]: one INSERT, refused as a whole when the type of a step is
    not one the table takes, and on a repeated key. *)
Definition createBatch (steps : list Step) (w : world) : result run_error world :=
  match steps with
  | [] => Ok w
  | _ =>
      if negb (forallb storable steps) then Err StepTypeRefused
      else if bool_decide (NoDup (map rs_stepId (w_rows w) ++ map step_id steps))
      then Ok (with_rows (fun rows => rows ++ map new_row steps) w)
      else Err DuplicateStepRow
  end.

(** ** The advisory lock *)

(** [advisoryLockKey]: [None] when [BigInt] throws. *)
Definition advisoryLockKey (pipelineId : string) : option Z :=
  let hex := take 16 (List.filter (fun c => negb (Ascii.eqb c "-"%char)) (explode pipelineId)) in
  match hex with
  | [] => None
  | _ => if forallb is_hex hex then Some (digits_value 16 hex) else None
  end.

(** The cast [$1::bigint]: a signed 64-bit integer. *)
Definition bigint_range (k : Z) : bool := ((- 2 ^ 63 <=? k) && (k <? 2 ^ 63))%Z.

Section Run.
Context {host : Host} {services : Services} (deps : EngineDeps).

Definition tryAcquireAdvisoryLock (pipelineId : string) : result run_error bool :=
  match advisoryLockKey pipelineId with
  | None => Err (LockFailed "Cannot convert to a BigInt")
  | Some k => if bigint_range k then map_err LockFailed (try_lock k)
              else Err (LockFailed "value is out of range for type bigint")
  end.

(** ** Hooks *)

Definition resolveHookChain (pos : Pos) (stage : string) : result run_error (list HookRef) :=
  match hooks_request pos stage with
  | Err msg => Err (HookResolution msg)
  | Ok (true, hooks) => Ok hooks
  | Ok (false, _) => Ok []
  end.

(** [executeHookChain]: the data after the hooks, or the failure of a critical one. *)
Fixpoint executeHookChain (pos : Pos) (k : nat) (hooks : list HookRef) (data : value) (ctx : RunContext)
    (stepId : string) : result engine_error value :=
  match hooks with
  | [] => Ok data
  | h :: hooks =>
      match callExecutionService (pos ++ [k])
              {| rq_pluginId := Some (pluginId h); rq_language := None; rq_code := None;
                 rq_entrypoint := hook_entrypoint h; rq_input := data; rq_timeoutMs := hook_timeoutMs h;
                 rq_tenantId := tenantId ctx; rq_runId := runId ctx; rq_stepId := stepId;
                 rq_hookContext := true |} with
      | Ok output => executeHookChain pos (S k) hooks output ctx stepId
      | Err e => if critical h then Err e else executeHookChain pos (S k) hooks data ctx stepId
      end
  end.

(** Resolving a stage and running its hooks; no hooks, no call. *)
Definition run_stage (pos : Pos) (stage : string) (data : value) (ctx : RunContext) (stepId : string) :
    result run_error (result engine_error value) :=
  hooks ← resolveHookChain (pos ++ [0%nat]) stage;
  Ok (executeHookChain (pos ++ [1%nat]) 0 hooks data ctx stepId).

Definition runAfterCompleteHooks (pos : Pos) (ctx : RunContext) (finalStatus : RunStatus) : result run_error unit :=
  _ ← run_stage pos "after:pipeline.complete"
        (VObj (fresh pos 0) [("pipelineId", VStr (ctx_pipelineId ctx)); ("runId", VStr (runId ctx));
                             ("finalStatus", VStr (status_text finalStatus))]) ctx EmptyString;
  Ok tt.

(** ** One step, with its retries *)

Definition computeBackoffMs (backoffMs backoffMultiplier : number) (attempt : nat) : number :=
  num_round (num_mul backoffMs (math_pow backoffMultiplier (num_of_Z (Z.of_nat attempt)))).

Definition before_retry (s : Step) (attempt : nat) (w : world) : world :=
  match attempt, retryConfig (step_base s) with
  | S a, Some c =>
      sleep (computeBackoffMs (backoffMs c) (backoffMultiplier c) a)
        (at_row (step_id s) (set_attempts attempt) w)
  | _, _ => w
  end.

(** The attempts from [attempt] on, when [remaining] more may follow it. *)
Fixpoint attempts (fuel remaining attempt : nat) (pos : Pos) (ctx : RunContext) (s : Step) (w : world) :
    option (world * result engine_error step_result) :=
  let w := before_retry s attempt w in
  match executeStep deps fuel (pos ++ [attempt]) ctx s with
  | None => None
  | Some (Ok r) => Some (w, Ok r)
  | Some (Err e) =>
      match remaining with
      | O => Some (w, Err e)
      | S remaining => attempts fuel remaining (S attempt) pos ctx s w
      end
  end.

Definition max_retries (s : Step) : nat :=
  match retryConfig (step_base s) with Some c => maxRetries c | None => 0 end.

(** ** The traversal *)

Inductive visit_end : Type :=
| Next (next : option string)
| Cancelled
| Failed (stepId : string) (e : engine_error)
| Stopped                     (* [break]: the step or its row is missing *)
| Threw (e : run_error).

Definition set_outputs (outputs : jmap string value) (ctx : RunContext) : RunContext :=
  {| runId := runId ctx; tenantId := tenantId ctx; ctx_pipelineId := ctx_pipelineId ctx;
     ctx_stepTimeout := ctx_stepTimeout ctx; runInput := runInput ctx; stepOutputs := outputs;
     subWorkflowCallStack := subWorkflowCallStack ctx; queueWaitMs := queueWaitMs ctx |}.

Definition put_output (i : string) (v : value) (ctx : RunContext) : RunContext :=
  set_outputs (jm_set i v (stepOutputs ctx)) ctx.

Definition track_step (pos : Pos) (ctx : RunContext) (i : string) (s : RunStepStatus) (err : option ExecTracker.step_result) :
    world -> world :=
  with_tracker (fun t => (updateStepStatus (clock pos) (runId ctx) i s err t).1).

(** [skipIf]: an error counts as false. *)
Definition skipped (pos : Pos) (s : Step) (ctx : RunContext) : bool :=
  match skipIf (step_base s) with
  | Some (String _ _ as e) =>
      if (5000 <? Z.of_nat (String.length e))%Z then false
      else match jsonata pos false e (context_value (fresh pos 0) (runInput ctx) (stepOutputs ctx)) with
           | Ok v => to_boolean v
           | Err _ => false
           end
  | _ => false
  end.

(** What happens after the attempts have failed. *)
Definition after_failure (pos : Pos) (allSteps : list Step) (ctx : RunContext) (s : Step) (e : engine_error)
    (w : world) : visit_end * RunContext * world :=
  let i := step_id s in
  let w := at_row i (set_row_status s_failed None (Some (clock (pos ++ [10%nat]))) (Some (StepExecutionFailed i e))) w in
  let w := track_step (pos ++ [11%nat]) ctx i s_failed
             (Some {| res_error := Some (message_of e); res_input := None; res_output := None |}) w in
  match fallbackStepId (step_base s), onError (step_base s) with
  | Some f, _ => (Next (Some f), put_output i VNull ctx, w)
  | None, Some on_skip => (Next (getNextStepIdFromMain s allSteps None), put_output i VNull ctx, w)
  | None, _ => (Failed i e, ctx, w)
  end.

(** The row's output column: objects as they are, other values wrapped. *)
Definition output_record (pos : Pos) (v : value) : value :=
  match v with VObj _ _ | VArr _ _ => v | _ => VObj (fresh pos 9) [("value", v)] end.

(** What happens after the step has succeeded. *)
Definition after_success (pos : Pos) (allSteps : list Step) (ctx : RunContext) (s : Step) (r : step_result)
    (w : world) : visit_end * RunContext * world :=
  let i := step_id s in
  let '(output, nextStepId) := r in
  let ctx := put_output i output ctx in
  let w := at_row i (set_row_status s_completed None (Some (clock (pos ++ [12%nat]))) None) w in
  let w := track_step (pos ++ [13%nat]) ctx i s_completed None w in
  let w := at_row i (set_output (output_record pos output)) w in
  let w := emitPlatformEvent (EvStepCompleted i) w in
  match run_stage (pos ++ [14%nat]) ("after:pipeline.step:" +:+ i)
          (VObj (fresh pos 10) [("stepId", VStr i); ("output", output)]) ctx i with
  | Err e => (Threw e, ctx, w)
  | Ok (Err e) =>
      let w := at_row i (set_row_status s_failed None None (Some (HookCriticalFailure e))) w in
      (Failed i e, ctx, track_step (pos ++ [15%nat]) ctx i s_failed None w)
  | Ok (Ok _) => (Next (getNextStepIdFromMain s allSteps nextStepId), ctx, w)
  end.

(** The execution of a step that is not skipped. *)
Definition run_step (fuel : nat) (pos : Pos) (allSteps : list Step) (ctx : RunContext) (s : Step) (w : world) :
    option (visit_end * RunContext * world) :=
  let i := step_id s in
  let resolvedInput := resolveStepInput (step_base s) (runInput ctx) (stepOutputs ctx) in
  match run_stage (pos ++ [2%nat]) ("before:pipeline.step:" +:+ i)
          (VObj (fresh pos 0) [("stepId", VStr i); ("input", VObj (fresh pos 1) resolvedInput)]) ctx i with
  | Err e => Some (Threw e, ctx, w)
  | Ok (Err e) =>
      Some (Failed i e, ctx,
            at_row i (set_row_status s_failed None (Some (clock (pos ++ [3%nat]))) (Some (HookCriticalFailure e))) w)
  | Ok (Ok _) =>
      let w := at_row i (set_row_status s_running (Some (clock (pos ++ [4%nat]))) None None) w in
      let w := track_step (pos ++ [5%nat]) ctx i s_running None w in
      '(w, r) ← attempts fuel (max_retries s) 0 (pos ++ [6%nat]) ctx s w;
      Some (match r with
            | Ok r => after_success pos allSteps ctx s r w
            | Err e => after_failure pos allSteps ctx s e w
            end)
  end.

(** One turn of the [while] loop. *)
Definition visit (fuel : nat) (pos : Pos) (allSteps : list Step) (rowIds : list string) (ctx : RunContext)
    (i : string) (w : world) : option (visit_end * RunContext * world) :=
  if run_cancelled (pos ++ [0%nat]) then Some (Cancelled, ctx, w)
  else match jm_get i (step_map allSteps) with
       | None => Some (Stopped, ctx, w)
       | Some s =>
           if negb (mem i rowIds) then Some (Stopped, ctx, w)
           else if skipped (pos ++ [1%nat]) s ctx
           then Some (Next (getNextStepIdFromMain s allSteps None), ctx,
                      track_step (pos ++ [7%nat]) ctx (step_id s) s_skipped None
                        (at_row i (set_row_status s_skipped None None None) w))
           else run_step fuel pos allSteps ctx s w
       end.

(** The loop: [n] turns have been taken. *)
Fixpoint traverse_run (turns fuel n : nat) (allSteps : list Step) (rowIds : list string) (ctx : RunContext)
    (currentStepId : option string) (w : world) : option (visit_end * RunContext * world) :=
  match currentStepId with
  | None => Some (Next None, ctx, w)
  | Some i =>
      match turns with
      | O => None
      | S turns =>
          '(e, ctx, w) ← visit fuel [S n] allSteps rowIds ctx i w;
          match e with
          | Next next => traverse_run turns fuel (S n) allSteps rowIds ctx next w
          | _ => Some (e, ctx, w)
          end
      end
  end.

(** ** The end of a run *)

Definition track_end (pos : Pos) (ctx : RunContext) (s : ExecutionOverallStatus) : world -> world :=
  with_tracker (fun t => (completeExecution (clock pos) (runId ctx) s t).1).

Definition global (k : nat) : Pos := [0%nat; k].

Definition finish_cancelled (ctx : RunContext) (w : world) : world * result run_error unit :=
  let w := emitPlatformEvent EvCancelled (end_run r_cancelled (clock (global 20)) None (cancel_pending w)) in
  (w, runAfterCompleteHooks (global 21) ctx r_cancelled).

Definition finish_failed (ctx : RunContext) (i : string) (e : engine_error) (w : world) :
    world * result run_error unit :=
  let w := end_run r_failed (clock (global 22)) (Some (StepExecutionFailed i e)) (cancel_pending w) in
  let w := track_end (global 23) ctx e_failed (emitPlatformEvent (EvFailed i) w) in
  (w, runAfterCompleteHooks (global 24) ctx r_failed).

(** A critical hook of the pipeline, outside the steps, failed. *)
Definition finish_hook_failed (pos : Pos) (ctx : RunContext) (e : engine_error) (w : world) : world :=
  track_end (pos ++ [1%nat]) ctx e_failed (end_run r_failed (clock (pos ++ [0%nat])) (Some (HookCriticalFailure e)) w).

Definition stage_data (ctx : RunContext) (more : list (string * value)) : value :=
  VObj (fresh (global 30) 0)
    ([("pipelineId", VStr (ctx_pipelineId ctx)); ("runId", VStr (runId ctx))] ++ more).

Definition finish_completed (ctx : RunContext) (stepCount : nat) (w : world) : world * result run_error unit :=
  match run_stage (global 25) "before:pipeline.complete" (stage_data ctx []) ctx EmptyString with
  | Err e => (w, Err e)
  | Ok (Err e) => (finish_hook_failed (global 26) ctx e w, runAfterCompleteHooks (global 27) ctx r_failed)
  | Ok (Ok _) =>
      let w := emitPlatformEvent (EvCompleted stepCount) (end_run r_completed (clock (global 28)) None w) in
      (track_end (global 29) ctx e_completed w, runAfterCompleteHooks (global 31) ctx r_completed)
  end.

(** From step 5 on: the trigger hooks, the traversal, the end. *)
Definition run_definition (turns fuel : nat) (d : PipelineDefinition) (triggeredBy : string)
    (allSteps : list Step) (ctx : RunContext) (w : world) : option (world * result run_error unit) :=
  match run_stage (global 11) "after:pipeline.trigger" (stage_data ctx [("triggeredBy", VStr triggeredBy)])
          ctx EmptyString with
  | Err e => Some (w, Err e)
  | Ok (Err e) => Some (finish_hook_failed (global 12) ctx e w, Ok tt)
  | Ok (Ok _) =>
      '(e, ctx, w) ← traverse_run turns fuel 0 allSteps (map rs_stepId (w_rows w)) ctx (Some (entry d)) w;
      Some (match e with
            | Cancelled => finish_cancelled ctx w
            | Failed i e => finish_failed ctx i e w
            | Threw e => (w, Err e)
            | Next _ | Stopped => finish_completed ctx (length allSteps) w
            end)
  end.

(** The payload, and the times BullMQ stamps on the job. *)
Record job : Type := {
  job_tenantId : string;
  callStack : option (list string);
  timestamp : Z;
  processedOn : option Z
}.

Definition job_wait (j : job) : Z :=
  match processedOn j with Some p => Z.max (p - timestamp j) 0 | None => 0 end.

Definition start_tracking (run : RunRow) (allSteps : list Step) (w : world) : result run_error world :=
  match w_tracker w with
  | None => Ok w
  | Some t =>
      t ← map_err TrackerError (startExecution (clock (global 3)) (row_id run) (row_pipelineId run)
            (map (fun s => {| def_stepId := step_id s; def_name := name (step_base s); def_type := step_type s |}) allSteps)
            (Some (row_input run))
            (match get "replayOf" (trigger_meta run) with VStr s => Some s | _ => None end) t);
      Ok (with_tracker (fun _ => t) w)
  end.

Definition run_context (j : job) (run : RunRow) : RunContext :=
  {| runId := row_id run; tenantId := job_tenantId j; ctx_pipelineId := row_pipelineId run;
     ctx_stepTimeout := options (definition_snapshot run) ≫= stepTimeout; runInput := row_input run;
     stepOutputs := []; subWorkflowCallStack := default [] (callStack j); queueWaitMs := job_wait j |}.

(** Inside [try], with the lock. *)
Definition run_locked (turns fuel : nat) (j : job) (run : RunRow) (w : world) :
    option (world * result run_error unit) :=
  let d := definition_snapshot run in
  let ctx := run_context j run in
  let allSteps := collectAllStepsFlat (steps d) in
  let w := start_run (clock (global 2)) w in
  match createBatch allSteps w with
  | Err e => Some (w, Err e)
  | Ok w =>
      match start_tracking run allSteps w with
      | Err e => Some (w, Err e)
      | Ok w => run_definition turns fuel d (triggered_by run) allSteps ctx w
      end
  end.

Definition release_lock (pipelineId : string) (w : world) : world :=
  let released := match advisoryLockKey pipelineId with Some k => unlock k | None => false end in
  with_lock (if released then false else w_locked w) (w_clients w - 1) w.

(** [None]: the run does not end within [turns] turns, or a step within [fuel]. *)
Definition processRun (turns fuel : nat) (j : job) (w : world) : option (world * result run_error unit) :=
  match w_run w with
  | None => Some (w, Ok tt)
  | Some run =>
      if negb (bool_decide (row_status run = r_pending)) then Some (w, Ok tt)
      else
        let w := with_lock (w_locked w) (w_clients w + 1) w in
        match tryAcquireAdvisoryLock (row_pipelineId run) with
        | Err e => Some (w, Err e)
        | Ok false => Some (with_lock (w_locked w) (w_clients w - 1) w, Err LockHeld)
        | Ok true =>
            '(w, r) ← run_locked turns fuel j run (with_lock true (w_clients w) w);
            Some (release_lock (row_pipelineId run) w, r)
        end
  end.
End Run.

(** ** A concrete world: one pending run of a definition *)

Definition demo_run (d : PipelineDefinition) : RunRow :=
  {| row_id := "run-1"; row_pipelineId := "0a1b2c3d-0000-4000-8000-000000000001"; row_tenantId := "acme";
     row_status := r_pending; triggered_by := "manual"; trigger_actor_id := None; trigger_meta := []; row_input := VObj 0%N [];
     row_startedAt := None; row_completedAt := None; row_error := None; bully_job_id := None;
     definition_snapshot := d; row_createdAt := 0 |}.
Definition demo_world (d : PipelineDefinition) : world :=
  {| w_run := Some (demo_run d); w_rows := []; w_tracker := None; w_events := []; w_sleeps := [];
     w_locked := false; w_clients := 0 |}.
Definition demo_job : job := {| job_tenantId := "acme"; callStack := None; timestamp := 0; processedOn := None |}.
