(* ===== verification/EngineRunSpec.v ===== *)
(** * What a run does

    The theorems on [EngineRun]: the status a run is left in, the retries of a
    step, the end of the traversal, the order of the steps, the advisory lock. *)

From S2P Require Import Prelude JsString JsNumber JsValue JsHost ExprEval.
From S2P Require Import PipelineDef EngineInput ExecTracker EngineStep EngineRun.
From Stdlib Require Import Ascii.
From stdpp Require Import relations sets.

(** ** The rows *)

(** No row says that its step is running. *)
Definition quiet (rows : list RunStepRow) : Prop := forall r, r ∈ rows -> rs_status r <> s_running.

(** Only the row of step [i] may say so. *)
Definition running_at (i : string) (rows : list RunStepRow) : Prop :=
  forall r, r ∈ rows -> rs_status r = s_running -> rs_stepId r = i.

Definition no_pending (rows : list RunStepRow) : Prop := forall r, r ∈ rows -> rs_status r <> s_pending.

(** What the steps leave alone: the run's row, the lock and the clients. *)
Definition frame (w w' : world) : Prop :=
  w_run w' = w_run w /\ w_locked w' = w_locked w /\ w_clients w' = w_clients w
  /\ map rs_stepId (w_rows w') = map rs_stepId (w_rows w).

#[global] Instance frame_refl : Reflexive frame.
Proof. done. Qed.

#[global] Instance frame_trans : Transitive frame.
Proof. intros w1 w2 w3 (?&?&?&?) (?&?&?&?). repeat split; congruence. Qed.

(** A change of one row that keeps its step id. *)
Definition keeps_id (f : RunStepRow -> RunStepRow) : Prop := forall r, rs_stepId (f r) = rs_stepId r.

Lemma set_row_status_keeps s a b e : keeps_id (set_row_status s a b e).
Proof. done. Qed.
Lemma set_attempts_keeps n : keeps_id (set_attempts n).
Proof. done. Qed.
Lemma set_output_keeps v : keeps_id (set_output v).
Proof. done. Qed.

Lemma at_row_frame i f w : keeps_id f -> frame w (at_row i f w).
Proof.
  intros Hf. repeat split. cbn. rewrite map_map. apply map_ext. intros r. destruct (String.eqb _ _); [apply Hf|done].
Qed.

Lemma tracker_frame f w : frame w (with_tracker f w).
Proof. done. Qed.
Lemma emit_frame e w : frame w (emitPlatformEvent e w).
Proof. done. Qed.
Lemma sleep_frame ms w : frame w (sleep ms w).
Proof. done. Qed.

#[export] Hint Resolve at_row_frame tracker_frame emit_frame sleep_frame set_row_status_keeps
  set_attempts_keeps set_output_keeps : platform.

(** The row of [i] after a change. *)
Lemma elem_of_at_row i f w r :
  r ∈ w_rows (at_row i f w) ->
  (r ∈ w_rows w /\ rs_stepId r <> i) \/ exists r0, r0 ∈ w_rows w /\ rs_stepId r0 = i /\ r = f r0.
Proof.
  cbn. intros (r0 & -> & Hr)%list_elem_of_fmap. destruct (String.eqb_spec (rs_stepId r0) i); [right; by exists r0|by left].
Qed.

Lemma quiet_at_row i s a b e w :
  s <> s_running -> running_at i (w_rows w) -> quiet (w_rows (at_row i (set_row_status s a b e) w)).
Proof.
  intros Hs Hw r Hr. apply elem_of_at_row in Hr as [[Hr Hne]|(r0 & Hr & <- & ->)]; [|done].
  intros Hrun. by apply Hne, Hw.
Qed.

Lemma quiet_running_at i rows : quiet rows -> running_at i rows.
Proof. intros H r Hr Hrun. by apply H in Hr. Qed.

Lemma running_at_row i a b e w : quiet (w_rows w) -> running_at i (w_rows (at_row i (set_row_status s_running a b e) w)).
Proof.
  intros Hw r Hr Hrun. apply elem_of_at_row in Hr as [[Hr _]|(r0 & _ & <- & ->)]; [by apply Hw in Hr|done].
Qed.

Lemma keeps_status_running_at i j f w :
  keeps_id f -> (forall r, rs_status (f r) = rs_status r) -> running_at i (w_rows w) ->
  running_at i (w_rows (at_row j f w)).
Proof.
  intros Hf Hs Hw r Hr Hrun. apply elem_of_at_row in Hr as [[Hr _]|(r0 & Hr & <- & ->)]; [by apply Hw|].
  rewrite Hf. apply Hw; [done|]. by rewrite <- Hs.
Qed.

Lemma keeps_status_quiet j f w :
  (forall r, rs_status (f r) = rs_status r) -> quiet (w_rows w) -> quiet (w_rows (at_row j f w)).
Proof.
  intros Hs Hw r Hr. apply elem_of_at_row in Hr as [[Hr _]|(r0 & Hr & _ & ->)]; [by apply Hw|].
  rewrite Hs. by apply Hw.
Qed.

Lemma cancel_pending_quiet w : quiet (w_rows w) -> quiet (w_rows (cancel_pending w)).
Proof.
  intros Hw r Hr. cbn in Hr. apply list_elem_of_fmap in Hr as (r0 & -> & Hr).
  destruct (decide _); [done|by apply Hw].
Qed.

Lemma cancel_pending_none w : no_pending (w_rows (cancel_pending w)).
Proof.
  intros r Hr. cbn in Hr. apply list_elem_of_fmap in Hr as (r0 & -> & Hr). by destruct (decide _).
Qed.

Section Spec.
Context {host : Host} {services : Services} (deps : EngineDeps).

(** ** One step *)

Lemma before_retry_frame s a w : frame w (before_retry s a w).
Proof.
  destruct a as [|a]; cbn; [done|]. destruct (retryConfig _); [|done].
  etrans; [|apply sleep_frame]. auto with platform.
Qed.

Lemma before_retry_running s a w : running_at (step_id s) (w_rows w) -> running_at (step_id s) (w_rows (before_retry s a w)).
Proof.
  intros H. destruct a as [|a]; cbn [before_retry]; [done|]. destruct (retryConfig _); [|done].
  by apply (keeps_status_running_at _ _ (set_attempts (S a))).
Qed.

Lemma attempts_frame fuel remaining attempt pos ctx s w w' r :
  attempts deps fuel remaining attempt pos ctx s w = Some (w', r) ->
  frame w w' /\ (running_at (step_id s) (w_rows w) -> running_at (step_id s) (w_rows w')).
Proof.
  revert attempt w. induction remaining as [|n IH]; intros attempt w; cbn [attempts];
    destruct (executeStep _ _ _ _ _) as [[v|e]|]; try done.
  1-3: intros [= <- <-]; split; [apply before_retry_frame|apply before_retry_running].
  intros [H1 H2]%IH. split; [etrans; [apply before_retry_frame|done]|]. intros H. by apply H2, before_retry_running.
Qed.

Lemma after_failure_frame pos allSteps ctx s e w en ctx' w' :
  after_failure pos allSteps ctx s e w = (en, ctx', w') ->
  frame w w' /\ (running_at (step_id s) (w_rows w) -> quiet (w_rows w')).
Proof.
  unfold after_failure. intros H.
  assert (w' = track_step (pos ++ [11%nat]) ctx (step_id s) s_failed
             (Some {| res_error := Some (message_of e); res_input := None; res_output := None |})
             (at_row (step_id s) (set_row_status s_failed None (Some (clock (pos ++ [10%nat])))
                (Some (StepExecutionFailed (step_id s) e))) w)) as ->.
  { destruct (fallbackStepId _); [by simplify_eq|]. destruct (onError _) as [[]|]; by simplify_eq. }
  split; [etrans; [|apply tracker_frame]; auto with platform|]. intros Hw. by apply (quiet_at_row _ s_failed).
Qed.

Lemma after_success_frame pos allSteps ctx s r w en ctx' w' :
  after_success pos allSteps ctx s r w = (en, ctx', w') ->
  frame w w' /\ (running_at (step_id s) (w_rows w) -> quiet (w_rows w')).
Proof.
  unfold after_success. destruct r as [v next].
  set (wa := emitPlatformEvent _ _).
  assert (Ha : frame w wa /\ (running_at (step_id s) (w_rows w) -> quiet (w_rows wa))).
  { split.
    - etrans; [|apply emit_frame]. etrans; [|apply at_row_frame, set_output_keeps].
      etrans; [|apply tracker_frame]. auto with platform.
    - intros Hw. apply (keeps_status_quiet _ (set_output _)); [done|]. by apply (quiet_at_row _ s_completed). }
  destruct Ha as [Hf Hq]. destruct (run_stage _ _ _ _ _) as [[d|e]|e]; intros H; simplify_eq; try done.
  split.
  - etrans; [exact Hf|]. etrans; [|apply tracker_frame]. auto with platform.
  - intros Hw. apply (quiet_at_row _ s_failed); [done|]. by apply quiet_running_at, Hq.
Qed.

Lemma visit_frame fuel pos allSteps rowIds ctx i w en ctx' w' :
  visit deps fuel pos allSteps rowIds ctx i w = Some (en, ctx', w') ->
  frame w w' /\ (quiet (w_rows w) -> quiet (w_rows w')).
Proof.
  unfold visit. destruct (run_cancelled _); [by intros; simplify_eq|].
  destruct (jm_get i _) as [s|]; [|by intros; simplify_eq].
  destruct (negb _); [by intros; simplify_eq|]. destruct (skipped _ _ _).
  { intros; simplify_eq. split; [etrans; [|apply tracker_frame]; auto with platform|].
    intros Hw. apply (quiet_at_row _ s_skipped); [done|by apply quiet_running_at]. }
  unfold run_step. destruct (run_stage _ _ _ _ _) as [[d|e]|e]; [| |by intros; simplify_eq].
  2:{ intros; simplify_eq. split; [auto with platform|].
    intros Hw. apply (quiet_at_row _ s_failed); [done|by apply quiet_running_at]. }
  intros H. apply bind_Some in H as ([w1 r] & Hatt & H).
  apply attempts_frame in Hatt as [Hf1 Hr1].
  assert (Hf : frame w w1).
  { etrans; [|exact Hf1]. etrans; [|apply tracker_frame]. auto with platform. }
  assert (Hr : quiet (w_rows w) -> running_at (step_id s) (w_rows w1)).
  { intros Hw. apply Hr1. by apply running_at_row. }
  destruct r as [r|e]; injection H as H.
  - apply after_success_frame in H as [? ?]. split; [by etrans|]. auto.
  - apply after_failure_frame in H as [? ?]. split; [by etrans|]. auto.
Qed.

Lemma traverse_frame turns fuel n allSteps rowIds ctx cur w en ctx' w' :
  traverse_run deps turns fuel n allSteps rowIds ctx cur w = Some (en, ctx', w') ->
  frame w w' /\ (quiet (w_rows w) -> quiet (w_rows w')).
Proof.
  revert n ctx cur w. induction turns as [|turns IH]; intros n ctx [i|] w; cbn [traverse_run];
    [done|by intros; simplify_eq| |by intros; simplify_eq].
  intros H. apply bind_Some in H as ([[e1 ctx1] w1] & Hv & H). apply visit_frame in Hv as [Hf Hq].
  destruct e1; simplify_eq; try done.
  apply IH in H as [? ?]. split; [by etrans|auto].
Qed.

(** ** A whole run *)

(** [w'] ends a run of [w]: a final status with its time; nothing is running,
    and unless the pipeline's own hooks decided, nothing that could have run is
    pending after a failure or a cancellation. *)
Definition ended (w w' : world) : Prop :=
  quiet (w_rows w') /\ exists run run', w_run w = Some run /\ w_run w' = Some run' /\ row_id run' = row_id run
    /\ row_completedAt run' <> None
    /\ ((row_status run' = r_completed)
        \/ (row_status run' = r_cancelled /\ no_pending (w_rows w'))
        \/ (row_status run' = r_failed /\ exists e, row_error run' = Some e /\
             match e with StepExecutionFailed _ _ => no_pending (w_rows w') | HookCriticalFailure _ => True end)).

(** [w'] leaves the run as it is in [w]. *)
Definition left_running (w w' : world) : Prop := quiet (w_rows w') /\ w_run w' = w_run w.

Definition session (w w' : world) : Prop := w_locked w' = w_locked w /\ w_clients w' = w_clients w.

Lemma session_trans w1 w2 w3 : session w1 w2 -> session w2 w3 -> session w1 w3.
Proof. intros [? ?] [? ?]. split; congruence. Qed.

Ltac ended_run Hrun :=
  split; [first [assumption | by apply cancel_pending_quiet]|];
  match type of Hrun with w_run _ = Some ?run =>
    eexists run, _; split_and!; [done|cbn; by rewrite Hrun|done|done|] end.

Lemma finish_spec ctx w run n i e :
  w_run w = Some run -> quiet (w_rows w) ->
  (ended w (finish_cancelled ctx w).1 /\ session w (finish_cancelled ctx w).1)
  /\ (ended w (finish_failed ctx i e w).1 /\ session w (finish_failed ctx i e w).1)
  /\ match finish_completed ctx n w with
     | (w', Ok _) => ended w w'
     | (w', Err _) => ended w w' \/ left_running w w'
     end /\ session w (finish_completed ctx n w).1.
Proof.
  intros Hrun Hq. split; [|split]; [split; [|done]|split; [|done]|split].
  - ended_run Hrun. right; left. split; [done|]. apply cancel_pending_none.
  - ended_run Hrun. right; right. split; [done|]. eexists. split; [done|]. apply cancel_pending_none.
  - unfold finish_completed. destruct (run_stage _ _ _ _ _) as [[d|e0]|e0]; [| |by right].
    + assert (H : ended w (track_end (global 29) ctx e_completed (emitPlatformEvent (EvCompleted n)
                     (end_run r_completed (clock (global 28)) None w)))).
      { ended_run Hrun. by left. }
      destruct (runAfterCompleteHooks _ _ _); [done|by left].
    + assert (H : ended w (finish_hook_failed (global 26) ctx e0 w)).
      { ended_run Hrun. right; right. split; [done|]. by eexists. }
      destruct (runAfterCompleteHooks _ _ _); [done|by left].
  - unfold finish_completed. by destruct (run_stage _ _ _ _ _) as [[d|e0]|e0].
Qed.

Lemma run_definition_spec turns fuel d t allSteps ctx w w' r run :
  w_run w = Some run -> quiet (w_rows w) ->
  run_definition deps turns fuel d t allSteps ctx w = Some (w', r) ->
  session w w' /\ match r with Ok _ => ended w w' | Err _ => ended w w' \/ left_running w w' end.
Proof.
  intros Hrun Hq. unfold run_definition. destruct (run_stage _ _ _ _ _) as [[v|e]|e].
  - intros H. apply bind_Some in H as ([[en ctx1] w1] & Ht & H). apply traverse_frame in Ht as [(Hr1 & Hl & Hc & _) Hq1].
    assert (Hrun1 : w_run w1 = Some run) by congruence.
    assert (Hs : session w w1) by by split.
    assert (Hend : forall w2, ended w1 w2 -> ended w w2).
    { intros w2 [? (run0 & run1 & ?)]. split; [done|]. exists run0, run1. by rewrite <- Hr1. }
    pose proof (finish_spec ctx1 w1 run (length allSteps)) as Hf. injection H as H.
    destruct en as [n| |i e| |e]; [| | | |injection H as <- <-].
    1,4: destruct (Hf EmptyString NoApprovalService Hrun1 (Hq1 Hq)) as (_ & _ & H1 & H2); rewrite H in H1, H2;
      (split; [by eapply session_trans|]);
      destruct r; [by apply Hend|destruct H1 as [|[]]; [left; by apply Hend|right; split; [done|congruence]]].
    + destruct (Hf EmptyString NoApprovalService Hrun1 (Hq1 Hq)) as ([H1 H2] & _).
      rewrite H in H1, H2. split; [by eapply session_trans|]. destruct r; [|left]; by apply Hend.
    + destruct (Hf i e Hrun1 (Hq1 Hq)) as (_ & [H1 H2] & _).
      rewrite H in H1, H2. split; [by eapply session_trans|]. destruct r; [|left]; by apply Hend.
    + split; [done|]. right. by split; [apply Hq1|].
  - intros [= <- <-]. split; [done|]. ended_run Hrun. right; right. split; [done|]. by eexists.
  - intros. simplify_eq. split; [done|]. right. by split.
Qed.

Lemma createBatch_spec l w w' :
  createBatch l w = Ok w' ->
  w' = with_rows (fun rows => rows ++ map new_row l) w /\ NoDup (map step_id l) /\ forallb storable l = true.
Proof.
  unfold createBatch. destruct l as [|s l].
  - intros [= <-]. split; [|by split; [constructor|]]. destruct w. unfold with_rows. cbn. by rewrite app_nil_r.
  - destruct (forallb _ _) eqn:Ht; [|done]. cbn [negb]. case_bool_decide as Hnd; [|done]. intros [= <-].
    split_and!; [done| |done]. by apply NoDup_app in Hnd as (_ & _ & ?).
Qed.

(** One step of a type the table does not take, and no step runs. *)
Lemma createBatch_refused l w : forallb storable l = false -> createBatch l w = Err StepTypeRefused.
Proof. unfold createBatch. destruct l; [done|]. by intros ->. Qed.

Lemma createBatch_error l w e : createBatch l w = Err e -> e = StepTypeRefused \/ e = DuplicateStepRow.
Proof.
  unfold createBatch. destruct l; [done|]. destruct (negb _); [intros [= <-]; by left|].
  case_bool_decide; [done|]. intros [= <-]. by right.
Qed.

Lemma new_rows_quiet rows l : quiet rows -> quiet (rows ++ map new_row l).
Proof. intros H r [Hr|(s & -> & _)%list_elem_of_fmap]%elem_of_app; [by apply H|done]. Qed.

Lemma start_tracking_frame run l w w' : start_tracking run l w = Ok w' -> frame w w' /\ w_rows w' = w_rows w.
Proof.
  unfold start_tracking. destruct (w_tracker w); [|by intros [= <-]].
  intros H. invert_ok. done.
Qed.

Lemma run_locked_spec turns fuel j run w w' r :
  w_run w = Some run -> quiet (w_rows w) ->
  run_locked deps turns fuel j run w = Some (w', r) ->
  session w w' /\
  match r with
  | Ok _ => ended w w'
  | Err _ => ended w w' \/ (quiet (w_rows w') /\ exists run', w_run w' = Some run' /\ row_status run' = r_running)
  end.
Proof.
  intros Hrun Hq. unfold run_locked. set (w1 := start_run _ w).
  assert (Hrun1 : exists run1, w_run w1 = Some run1 /\ row_status run1 = r_running /\ row_id run1 = row_id run).
  { eexists. split; [cbn; by rewrite Hrun|done]. }
  destruct Hrun1 as (run1 & Hrun1 & Hst & Hid).
  destruct (createBatch _ w1) as [w2|e] eqn:E2.
  2:{ intros. simplify_eq. split; [done|]. right. split; [done|by exists run1]. }
  apply createBatch_spec in E2 as [-> _]. destruct (start_tracking _ _ _) as [w3|e] eqn:E3.
  2:{ intros. simplify_eq. split; [done|]. right. split; [by apply new_rows_quiet|by exists run1]. }
  apply start_tracking_frame in E3 as [(Hr3 & Hl3 & Hc3 & _) Hrows3].
  intros H. eapply run_definition_spec in H as [[Hl Hc] H]; [|rewrite Hr3; exact Hrun1|rewrite Hrows3; by apply new_rows_quiet].
  split; [unfold session; cbn in *; split; congruence|].
  assert (Hend : ended w3 w' -> ended w w').
  { intros [? (run0 & run' & ? & ? & ? & ?)]. split; [done|]. exists run, run'.
    split_and!; [done|done|cbn in *; congruence|naive_solver|naive_solver]. }
  destruct r; [by apply Hend|]. destruct H as [|[? ?]]; [left; by apply Hend|right].
  split; [done|]. exists run1. split; [cbn in *; congruence|done].
Qed.

Definition lock_error (e : run_error) : bool :=
  match e with LockFailed _ | LockHeld => true | _ => false end.

(** The run after [processRun] has got the lock. *)
Lemma processRun_locked turns fuel j w w' r run :
  w_run w = Some run -> row_status run = r_pending ->
  processRun deps turns fuel j w = Some (w', r) ->
  match tryAcquireAdvisoryLock (row_pipelineId run) with
  | Err e => w' = with_lock (w_locked w) (w_clients w + 1) w /\ r = Err e
  | Ok false => w' = w /\ r = Err LockHeld
  | Ok true =>
      exists w1, run_locked deps turns fuel j run (with_lock true (w_clients w + 1) w) = Some (w1, r)
                 /\ w' = release_lock (row_pipelineId run) w1
  end.
Proof.
  intros Hrun Hp. unfold processRun. rewrite Hrun, Hp. cbn.
  destruct (tryAcquireAdvisoryLock _) as [[]|e].
  - intros H. apply bind_Some in H as ([w1 r1] & H & [= <- <-]). by exists w1.
  - intros [= <- <-]. split; [|done]. rewrite Z.add_simpl_r. by destruct w.
  - by intros [= <- <-].
Qed.

Lemma acquire_error p e : tryAcquireAdvisoryLock p = Err e -> exists msg, e = LockFailed msg.
Proof.
  unfold tryAcquireAdvisoryLock. destruct (advisoryLockKey p) as [k|]; [|intros [= <-]; by eexists].
  destruct (bigint_range k); [|intros [= <-]; by eexists].
  destruct (try_lock k); [done|]. intros [= <-]. by eexists.
Qed.

(** Only taking the lock gives the errors of the lock. *)
Lemma run_stage_error pos st v c i e : run_stage pos st v c i = Err e -> lock_error e = false.
Proof. unfold run_stage, resolveHookChain. destruct (hooks_request _ _) as [[[] ?]|]; [done|done|by intros [= <-]]. Qed.

Lemma after_hooks_error pos c s e : runAfterCompleteHooks pos c s = Err e -> lock_error e = false.
Proof.
  unfold runAfterCompleteHooks. destruct (run_stage _ _ _ _ _) eqn:E; [done|]. intros [= <-]. by eapply run_stage_error.
Qed.

Lemma visit_error fuel pos l ids ctx i w e ctx' w' :
  visit deps fuel pos l ids ctx i w = Some (Threw e, ctx', w') -> lock_error e = false.
Proof.
  unfold visit. destruct (run_cancelled _); [done|]. destruct (jm_get i _) as [s|]; [|done]. destruct (negb _); [done|].
  destruct (skipped _ _ _); [done|]. unfold run_step.
  destruct (run_stage _ _ _ _ _) as [[?|?]|?] eqn:Es; [|done|intros [= <- _ _]; by eapply run_stage_error].
  intros H. apply bind_Some in H as ([w5 r5] & _ & H). destruct r5 as [[v5 n5]|e5]; injection H as H.
  - clear Es. revert H. unfold after_success. destruct (run_stage _ _ _ _ _) as [[?|?]|?] eqn:Es2; intros; simplify_eq.
    by eapply run_stage_error.
  - revert H. unfold after_failure. destruct (fallbackStepId _); [done|]. by destruct (onError _) as [[]|].
Qed.

Lemma traverse_error turns fuel n l ids ctx cur w e ctx' w' :
  traverse_run deps turns fuel n l ids ctx cur w = Some (Threw e, ctx', w') -> lock_error e = false.
Proof.
  revert n ctx cur w. induction turns as [|turns IH]; intros n ctx [i|] w; cbn [traverse_run]; try done.
  intros H. apply bind_Some in H as ([[e2 ctx2] w4] & Hv & H).
  destruct e2; try done; [by eapply IH|]. injection H as -> _ _. by eapply visit_error.
Qed.

Lemma run_definition_error turns fuel d t l ctx w w' e :
  run_definition deps turns fuel d t l ctx w = Some (w', Err e) -> lock_error e = false.
Proof.
  unfold run_definition. destruct (run_stage _ _ _ _ _) as [[v|e0]|e0] eqn:E; [|done|].
  2:{ intros [= _ <-]. by eapply run_stage_error. }
  intros H. apply bind_Some in H as ([[en ctx1] w3] & Ht & H).
  assert (Hdone : forall n, finish_completed ctx1 n w3 = (w', Err e) -> lock_error e = false).
  { intros n. clear E. unfold finish_completed. destruct (run_stage _ _ _ _ _) as [[?|?]|?] eqn:Es.
    1,2: intros [= _ Hh]; by eapply after_hooks_error.
    intros [= _ <-]. by eapply run_stage_error. }
  destruct en as [n| |i e0| |e0]; apply (inj Some) in H; try by eapply Hdone.
  - apply (f_equal snd) in H. exact (after_hooks_error _ _ _ _ H).
  - apply (f_equal snd) in H. exact (after_hooks_error _ _ _ _ H).
  - injection H as _ ->. by eapply traverse_error.
Qed.

Lemma run_locked_error turns fuel j run w w' e :
  run_locked deps turns fuel j run w = Some (w', Err e) -> lock_error e = false.
Proof.
  unfold run_locked. destruct (createBatch _ _) as [w1|] eqn:E1.
  2:{ intros [= _ <-]. by apply createBatch_error in E1 as [-> | ->]. }
  destruct (start_tracking _ _ w1) as [w2|] eqn:E2; [by apply run_definition_error|].
  intros [= _ <-]. unfold start_tracking in E2. destruct (w_tracker w1); [|done].
  destruct (startExecution _ _ _ _ _ _ _); [done|]. by injection E2 as <-.
Qed.

(** What [processRun] leaves of a pending run, when it gives a result. *)
Lemma processRun_result turns fuel j w w' r run :
  w_run w = Some run -> row_status run = r_pending -> quiet (w_rows w) ->
  processRun deps turns fuel j w = Some (w', r) ->
  match r with
  | Err (LockFailed _) => w' = with_lock (w_locked w) (w_clients w + 1) w
  | Err LockHeld => w' = w
  | r =>
      w_clients w' = w_clients w
      /\ (exists k, advisoryLockKey (row_pipelineId run) = Some k /\ w_locked w' = negb (unlock k))
      /\ match r with
         | Ok _ => ended w w'
         | Err _ => ended w w' \/ (quiet (w_rows w') /\ exists run', w_run w' = Some run' /\ row_status run' = r_running)
         end
  end.
Proof.
  intros Hrun Hp Hq H. eapply processRun_locked in H; [|done..].
  destruct (tryAcquireAdvisoryLock (row_pipelineId run)) as [[]|e] eqn:Et.
  - destruct H as (w1 & H & ->). pose proof H as He. eapply run_locked_spec in H as [[Hl Hc] H]; [|done..].
    assert (Hk : exists k, advisoryLockKey (row_pipelineId run) = Some k).
    { revert Et. unfold tryAcquireAdvisoryLock. destruct (advisoryLockKey _) as [k|]; [by exists k|done]. }
    destruct Hk as [k Hk]. cbn in Hl, Hc.
    assert (Hrel : w_clients (release_lock (row_pipelineId run) w1) = w_clients w
                   /\ w_locked (release_lock (row_pipelineId run) w1) = negb (unlock k)).
    { unfold release_lock. rewrite Hk. cbn. split; [lia|]. rewrite Hl. by destruct (unlock k). }
    destruct Hrel as [Hrc Hrl]. destruct r as [u|e].
    + split_and!; [done|by exists k|exact H].
    + apply run_locked_error in He. destruct e; try done; (split_and!; [done|by exists k|exact H]).
  - by destruct H as [-> ->].
  - apply acquire_error in Et as [msg ->]. by destruct H as [-> ->].
Qed.

(** A finished or interrupted run is not run again. *)
Lemma not_pending turns fuel j w run :
  w_run w = Some run -> row_status run <> r_pending -> processRun deps turns fuel j w = Some (w, Ok tt).
Proof. intros Hrun Hp. unfold processRun. rewrite Hrun. by rewrite bool_decide_eq_false_2. Qed.

(** A run is driven once: unless the lock was not taken, a second
    [processRun] for the same run changes nothing, even when the first was
    interrupted by an error and left the run [running]. *)
Theorem run_once turns fuel j w w' r run turns' fuel' j' :
  w_run w = Some run -> quiet (w_rows w) ->
  processRun deps turns fuel j w = Some (w', r) ->
  match r with Err e => lock_error e = false | Ok _ => True end ->
  processRun deps turns' fuel' j' w' = Some (w', Ok tt).
Proof.
  intros Hrun Hq H Hr. destruct (decide (row_status run = r_pending)) as [Hp|Hp].
  2:{ erewrite not_pending in H by done. injection H as <- <-. by eapply not_pending. }
  eapply processRun_locked in H; [|done..].
  destruct (tryAcquireAdvisoryLock (row_pipelineId run)) as [[]|e] eqn:Et.
  - destruct H as (w1 & H & ->). eapply run_locked_spec in H as [_ H]; [|done..].
    assert (Hrun' : exists run', w_run w1 = Some run' /\ row_status run' <> r_pending).
    { assert (He : ended (with_lock true (w_clients w + 1) w) w1 -> exists run', w_run w1 = Some run' /\ row_status run' <> r_pending).
      { intros (_ & _ & run' & _ & ? & _ & _ & Hst). exists run'. split; [done|].
        destruct Hst as [->|[[-> _]|[-> _]]]; done. }
      destruct r; [by apply He|]. destruct H as [H|(_ & run' & ? & Hst)]; [by apply He|]. exists run'. by rewrite Hst. }
    destruct Hrun' as (run' & ? & ?). by eapply not_pending.
  - by destruct H as [_ ->].
  - apply acquire_error in Et as [msg ->]. by destruct H as [_ ->].
Qed.

(** ** Retries *)

(** The world after [k] retries of [s]: the waits before each, and the number of
    the last in the step's row. *)
Definition retried (s : Step) (c : RetryConfig) (k : nat) (w : world) : world :=
  {| w_run := w_run w;
     w_rows := map (fun r => if String.eqb (rs_stepId r) (step_id s) && (0 <? k)%nat then set_attempts k r else r) (w_rows w);
     w_tracker := w_tracker w; w_events := w_events w;
     w_sleeps := w_sleeps w ++ map (computeBackoffMs (backoffMs c) (backoffMultiplier c)) (seq 0 k);
     w_locked := w_locked w; w_clients := w_clients w |}.

Lemma retried_0 s c w : retried s c 0 w = w.
Proof.
  destruct w as [? rows]. unfold retried. cbn. f_equal; [|apply app_nil_r].
  rewrite <- (map_id rows) at 2. apply map_ext. intros r. by rewrite andb_false_r.
Qed.

Lemma retried_S s c k w :
  retryConfig (step_base s) = Some c -> before_retry s (S k) (retried s c k w) = retried s c (S k) w.
Proof.
  intros Hc. cbn [before_retry]. rewrite Hc. unfold retried, sleep, at_row, with_rows. cbn [w_run w_rows w_tracker w_events w_sleeps w_locked w_clients].
  f_equal.
  - rewrite map_map. apply map_ext. intros r. destruct (String.eqb_spec (rs_stepId r) (step_id s)) as [Hi|Hi]; cbn.
    + destruct k; cbn; by rewrite Hi, String.eqb_refl.
    + by apply String.eqb_neq in Hi as ->.
  - rewrite seq_S, map_app, <- app_assoc. done.
Qed.

Lemma attempts_from fuel remaining a k pos ctx s c w r :
  retryConfig (step_base s) = Some c -> (a <= k <= a + remaining)%nat ->
  (forall b, (a <= b < k)%nat -> exists e, executeStep deps fuel (pos ++ [b]) ctx s = Some (Err e)) ->
  executeStep deps fuel (pos ++ [k]) ctx s = Some r ->
  (is_ok r = false -> k = a + remaining)%nat ->
  forall w0, before_retry s a w = retried s c a w0 ->
  attempts deps fuel remaining a pos ctx s w = Some (retried s c k w0, r).
Proof.
  intros Hc Hk Hfail Hr Hlast. revert a w Hk Hfail Hlast.
  induction remaining as [|n IH]; intros a w Hk Hfail Hlast w0 Hw; cbn [attempts]; rewrite Hw.
  - replace a with k by lia. rewrite Hr. by destruct r.
  - destruct (decide (a = k)) as [->|Hne].
    + rewrite Hr. destruct r; [done|]. specialize (Hlast eq_refl). lia.
    + destruct (Hfail a) as [e ->]; [lia|]. apply IH; [lia|intros b Hb; apply Hfail; lia|intros H; rewrite (Hlast H); lia|].
      by apply retried_S.
Qed.

(** A step is tried until it succeeds or [maxRetries] retries have failed;
    the waits in between are [backoffMs * backoffMultiplier ^ i], rounded, and
    the row counts the retries.  The last attempt gives the result. *)
Theorem retry_schedule fuel pos ctx s c k w r :
  retryConfig (step_base s) = Some c -> (k <= maxRetries c)%nat ->
  (forall b, (b < k)%nat -> exists e, executeStep deps fuel (pos ++ [b]) ctx s = Some (Err e)) ->
  executeStep deps fuel (pos ++ [k]) ctx s = Some r ->
  (is_ok r = false -> k = maxRetries c) ->
  attempts deps fuel (max_retries s) 0 pos ctx s w = Some (retried s c k w, r).
Proof.
  intros Hc Hk Hfail Hr Hlast. unfold max_retries. rewrite Hc.
  eapply attempts_from; [done|lia| |done|exact Hlast|by rewrite retried_0].
  intros b Hb. apply Hfail. lia.
Qed.
End Spec.

(** ** Witnesses *)

(** The step [flaky] fails twice; it may be retried three times. *)
Definition flaky_step : Step :=
  demo_step {| id := "flaky"; name := "Flaky"; inputs := None; onError := None; skipIf := None; timeout := None;
    retryConfig := Some {| maxRetries := 3; backoffMs := num_of_Z 100; backoffMultiplier := num_of_Z 2 |};
    fallbackStepId := None |}.
Definition two_steps : PipelineDefinition :=
  {| entry := "load"; steps := [demo_step (demo_base "load"); flaky_step]; options := None |}.
Definition flaky : string -> nat -> bool := fun i a => String.eqb i "flaky" && (a <? 2)%nat.

Lemma run_once_witness :
  exists w', processRun (host := plain_host) (services := demo_services flaky) demo_deps 3 2 demo_job (demo_world two_steps) = Some (w', Ok tt)
    /\ processRun (host := plain_host) (services := demo_services flaky) demo_deps 3 2 demo_job w' = Some (w', Ok tt).
Proof.
  eexists. split; [vm_compute; reflexivity|].
  eapply (run_once (host := plain_host) (services := demo_services flaky) demo_deps 3 2 demo_job (demo_world two_steps) _ (Ok tt));
    [reflexivity|intros r Hr; by apply not_elem_of_nil in Hr|vm_compute; reflexivity|exact I].
Defined.

Lemma retry_schedule_witness :
  exists ctx r, attempts (host := plain_host) (services := demo_services flaky) demo_deps 2 (max_retries flaky_step) 0 [] ctx flaky_step (demo_world two_steps)
    = Some (retried (host := plain_host) flaky_step {| maxRetries := 3; backoffMs := num_of_Z 100; backoffMultiplier := num_of_Z 2 |} 2
              (demo_world two_steps), Ok r).
Proof.
  exists (run_context demo_job (demo_run two_steps)). eexists.
  apply (retry_schedule (host := plain_host) (services := demo_services flaky)); [reflexivity|cbn; lia| |vm_compute; reflexivity|done].
  intros b Hb. exists (Rejected_ "boom"). do 2 (destruct b as [|b]; [vm_compute; reflexivity|]). lia.
Defined.
