(* ===== verification/EngineTermination.v ===== *)
(** * The end of the traversal

    What a run of [EngineRun] leaves ([run_outcome]), and when it ends: for the definitions whose edges are those
    that [validateDefinition] looks at, within as many turns as there are steps;
    with a fallback, which it does not look at, possibly never. *)

From S2P Require Import Prelude JsString JsNumber JsValue JsHost Condition ExprEval.
From S2P Require Import PipelineDef EngineInput ApprovalService ExecTracker EngineStep EngineRun EngineRunSpec.
From stdpp Require Import relations sets.

(** The steps that only move along the edges of the step graph: no fallback, no
    parallel branches, and a conditional that always chooses. *)
Definition follows_edges (s : Step) : Prop :=
  fallbackStepId (step_base s) = None /\
  match s with
  | ParallelStep _ _ _ => False
  | ConditionalStep b _ _ elseId => elseId <> None /\ skipIf b = None
  | _ => True
  end.

Lemma follows_edges_flat s : follows_edges s -> children s = [].
Proof. intros [_ H]. by destruct s. Qed.

Section Termination.
Context {host : Host} {services : Services} (deps : EngineDeps).

Lemma executeStep_total fuel pos ctx s :
  follows_edges s -> storable s = true -> is_Some (executeStep deps (S fuel) pos ctx s).
Proof. intros [_ Hs] Ht. destruct s; try done; cbn [executeStep]; unfold plain; by eexists. Qed.

(** The attempts end, after at most [remaining] waits. *)
Lemma attempts_total fuel remaining a pos ctx s w :
  follows_edges s -> storable s = true ->
  exists w' r, attempts deps (S fuel) remaining a pos ctx s w = Some (w', r)
    /\ (length (w_sleeps w') <= length (w_sleeps w) + remaining + Nat.min a 1)%nat.
Proof.
  intros Hs Ht.
  assert (Hb : forall a w, (length (w_sleeps (before_retry s a w)) <= length (w_sleeps w) + Nat.min a 1)%nat).
  { intros [|b] w0; cbn [before_retry]; [lia|]. destruct (retryConfig _); [|lia].
    unfold sleep. cbn [w_sleeps]. rewrite length_app. cbn. lia. }
  revert a w. induction remaining as [|n IH]; intros a w; cbn [attempts];
    destruct (executeStep_total fuel (pos ++ [a]) ctx s) as [[v|e] ->]; try done;
    try (eexists _, _; split; [done|]; specialize (Hb a w); lia).
  destruct (IH (S a) (before_retry s a w)) as (w' & r & -> & Hw). eexists _, _. split; [done|].
  specialize (Hb a w). cbn in Hw. lia.
Qed.

(** A conditional does not fail, and goes to one of its two targets. *)
Lemma attempts_conditional fuel remaining a pos ctx b c t e w w' r :
  attempts deps fuel remaining a pos ctx (ConditionalStep b c t e) w = Some (w', r) ->
  exists v next, r = Ok (v, next) /\ (next = Some t \/ next = e).
Proof.
  destruct remaining; cbn [attempts]; destruct fuel as [|fuel]; cbn [executeStep]; try done;
    intros [= <- <-]; unfold executeConditionalStep; destruct (evaluateCondition _ _); eauto.
Qed.

Lemma list_find_nodup (l pre rest : list Step) s :
  l = pre ++ s :: rest -> NoDup (map step_id l) ->
  list_find (fun x => step_id x = step_id s) l = Some (length pre, s).
Proof.
  intros -> Hnd. apply list_find_Some. rewrite lookup_app_r, Nat.sub_diag by done. split_and!; [done|done|].
  intros j x Hj Hlt Heq. rewrite lookup_app_l in Hj by done.
  rewrite map_app in Hnd. apply NoDup_app in Hnd as (_ & Hd & _).
  apply (Hd (step_id x)); [apply list_elem_of_fmap; exists x; split; [done|by eapply list_elem_of_lookup_2]|].
  rewrite Heq. cbn. apply elem_of_cons. by left.
Qed.

(** The step after [s] in the list, unless [s] is a conditional that has chosen. *)
Lemma getNext_spec l pre s rest next j :
  l = pre ++ s :: rest -> NoDup (map step_id l) ->
  getNextStepIdFromMain s l next = Some j ->
  match s with ConditionalStep _ _ _ _ => next = Some j \/ next = None | _ => j ∈ next_id rest end.
Proof.
  intros Hl Hnd. unfold getNextStepIdFromMain, getNextStepId.
  assert (Hfind : (match list_find (fun x => step_id x = step_id s) l with
                   | Some (idx, _) => step_id <$> l !! S idx | None => None end) = Some j -> j ∈ next_id rest).
  { erewrite list_find_nodup by done. subst l. rewrite lookup_app_r by lia.
    replace (S (length pre) - length pre)%nat with 1%nat by lia. cbn. destruct rest as [|y rest]; cbn; [done|].
    intros [= <-]. constructor. }
  destruct s; try exact Hfind. destruct next; auto.
Qed.

Lemma step_map_acc l m i s :
  jm_get i (fold_left (fun m s => jm_set (step_id s) s m) l m) = Some s ->
  jm_get i m = Some s \/ s ∈ l /\ i = step_id s.
Proof.
  revert m. induction l as [|x l IH]; intros m; cbn [fold_left]; [by left|].
  intros [H|[H ->]]%IH; [|right; split; [by right|done]].
  rewrite jm_get_set in H. case_decide; [|by left]. simplify_eq. right. split; [by left|done].
Qed.

Lemma step_map_spec l i s : jm_get i (step_map l) = Some s -> s ∈ l /\ i = step_id s.
Proof. by intros [?|?]%step_map_acc. Qed.

(** Where a step that follows the edges can go. *)
Lemma next_edge l s next j :
  NoDup (map step_id l) -> Forall follows_edges l -> s ∈ l ->
  match s with ConditionalStep _ _ t e => next = Some t \/ next = e | _ => True end ->
  getNextStepIdFromMain s l next = Some j -> edge (buildAdjacencyMap l) (step_id s) j.
Proof.
  intros Hnd Hl Hin Hnext Hj. destruct (list_elem_of_split _ _ Hin) as (pre & rest & Hsplit).
  assert (Hfl : Forall (fun s => children s = []) l).
  { eapply Forall_impl; [exact Hl|]. apply follows_edges_flat. }
  unfold edge, buildAdjacencyMap. rewrite (addSteps_flat _ _ _ _ _ Hsplit Hfl Hnd). cbn.
  rewrite Forall_forall in Hl. destruct (Hl s Hin) as [_ Hse].
  apply (getNext_spec _ _ _ _ _ _ Hsplit Hnd) in Hj. destruct s as [| | | |b c t e| | | | |]; try done.
  destruct Hse as [Hse _], e as [e|]; [|done]. cbn. destruct Hnext as [-> | ->], Hj as [Hj|Hj]; simplify_eq; set_solver.
Qed.

(** A turn follows an edge of the step graph. *)
Lemma visit_edge fuel pos l ids ctx i w j ctx' w' :
  NoDup (map step_id l) -> Forall follows_edges l ->
  visit deps fuel pos l ids ctx i w = Some (Next (Some j), ctx', w') ->
  i ∈ map step_id l /\ edge (buildAdjacencyMap l) i j.
Proof.
  intros Hnd Hl. unfold visit. destruct (run_cancelled _); [done|].
  destruct (jm_get i (step_map l)) as [s|] eqn:Es; [|done]. apply step_map_spec in Es as [Hin ->].
  pose proof Hl as Hs. rewrite Forall_forall in Hs. specialize (Hs s Hin).
  destruct (negb _); [done|]. intros H. split; [by apply list_elem_of_fmap_2|].
  destruct (skipped _ s ctx) eqn:Esk.
  - injection H as H _ _. eapply next_edge; [done..| |exact H]. destruct s; try done.
    destruct Hs as [_ [_ Hs]]. revert Esk. unfold skipped. cbn in *. by rewrite Hs.
  - revert H. unfold run_step. destruct (run_stage _ _ _ _ _) as [[?|?]|?]; try done.
    intros H. apply bind_Some in H as ([w1 [[v next]|e]] & Hatt & H); apply (inj Some) in H.
    + revert H. unfold after_success. destruct (run_stage _ _ _ _ _) as [[?|?]|?]; intros H; simplify_eq.
      eapply next_edge; [done..| |done]. destruct s; try done.
      by apply attempts_conditional in Hatt as (? & ? & [= -> ->] & ?).
    + revert H. unfold after_failure. destruct Hs as [-> Hs]. destruct (onError _) as [[]|]; intros H; simplify_eq.
      eapply next_edge; [done..| |done]. destruct s as [| | | |b c t e0| | | | |]; try done.
      by apply attempts_conditional in Hatt as (? & ? & [=] & _).
Qed.

(** The retries the step of an identifier may take. *)
Definition retries_of (l : list Step) (i : string) : nat :=
  match jm_get i (step_map l) with Some s => max_retries s | None => 0 end.

Lemma after_sleeps pos l ctx s w :
  (forall r, w_sleeps (after_success pos l ctx s r w).2 = w_sleeps w)
  /\ (forall e, w_sleeps (after_failure pos l ctx s e w).2 = w_sleeps w).
Proof.
  split.
  - intros [v n]. unfold after_success. by destruct (run_stage _ _ _ _ _) as [[?|?]|?].
  - intros e. unfold after_failure. destruct (fallbackStepId _); [done|]. by destruct (onError _) as [[]|].
Qed.

Lemma visit_total fuel pos l ids ctx i w :
  Forall follows_edges l -> Forall (fun s => storable s = true) l ->
  exists e ctx' w', visit deps (S fuel) pos l ids ctx i w = Some (e, ctx', w')
    /\ (length (w_sleeps w') <= length (w_sleeps w) + retries_of l i)%nat.
Proof.
  intros Hl Ht. unfold visit, retries_of.
  assert (Hsame : forall n e c (w' : world), w_sleeps w' = w_sleeps w ->
    exists e0 c0 w0, Some (e : visit_end, c : RunContext, w') = Some (e0, c0, w0) /\ (length (w_sleeps w0) <= length (w_sleeps w) + n)%nat).
  { intros n e c w' Hw. eexists _, _, _. split; [done|]. rewrite Hw. lia. }
  destruct (run_cancelled _); [by apply Hsame|].
  destruct (jm_get i (step_map l)) as [s|] eqn:Es; [|by apply Hsame]. apply step_map_spec in Es as [Hin ->].
  rewrite Forall_forall in Hl, Ht. destruct (negb _); [by apply Hsame|]. destruct (skipped _ _ _); [by apply Hsame|].
  unfold run_step. destruct (run_stage _ _ _ _ _) as [[?|?]|?]; [|by apply Hsame..].
  match goal with |- context [attempts _ _ _ _ _ _ _ ?w1] =>
    destruct (attempts_total fuel (max_retries s) 0 (pos ++ [6%nat]) ctx s w1) as (w2 & r & -> & Hw); [by apply Hl|by apply Ht|] end.
  cbn in Hw. destruct (after_sleeps pos l ctx s w2) as [Hok Hbad]. cbn. destruct r as [r|e].
  - specialize (Hok r). destruct (after_success _ _ _ _ _ _) as [[e c] w'] eqn:E. eexists e, c, w'. split; [done|]. cbn in Hok. rewrite Hok. lia.
  - specialize (Hbad e). destruct (after_failure _ _ _ _ _ _) as [[e' c] w'] eqn:E. eexists e', c, w'. split; [done|]. cbn in Hbad. rewrite Hbad. lia.
Qed.

(** Turns left for the steps of [F], the step itself and what comes after it. *)
Definition turns_left (l : list Step) (F : list string) : nat :=
  length (List.filter (fun i => mem i (map step_id l)) F).

(** The retries the steps of [F] may take between them. *)
Definition retries_left (l : list Step) (F : list string) : nat := sum_list_with (retries_of l) F.

Lemma traverse_run_total turns fuel n l ids ctx i w F :
  Forall follows_edges l -> Forall (fun s => storable s = true) l -> NoDup (map step_id l) ->
  finished_order (buildAdjacencyMap l) F -> i ∈ F -> (turns_left l F < turns)%nat ->
  exists e ctx' w', traverse_run deps turns (S fuel) n l ids ctx (Some i) w = Some (e, ctx', w')
    /\ (length (w_sleeps w') <= length (w_sleeps w) + retries_left l F)%nat.
Proof.
  intros Hl Hst Hnd HF. revert turns n i ctx w.
  induction HF as [|v F Hv Hsucc HF IH]; intros turns n i ctx w Hi Ht; [by apply not_elem_of_nil in Hi|].
  unfold turns_left, retries_left in *. cbn [List.filter sum_list_with] in Ht |- *. apply elem_of_cons in Hi as [->|Hi].
  2:{ edestruct (IH turns n i ctx w Hi) as (e & c & w' & -> & Hw); [destruct (mem v _); cbn in Ht; lia|].
      eexists _, _, _. split; [done|lia]. }
  destruct turns as [|turns]; [lia|]. cbn [traverse_run].
  destruct (visit_total fuel [S n] l ids ctx v w Hl Hst) as (e & ctx' & w' & Hvis & Hw). rewrite Hvis. cbn [mbind option_bind].
  destruct e as [[j|]| | | |]; try (eexists _, _, _; split; [done|lia]).
  - apply visit_edge in Hvis as [Hin Hedge]; [|done..].
    apply mem_spec in Hin. rewrite Hin in Ht. cbn in Ht.
    edestruct (IH turns (S n) j ctx' w') as (e & c & w2 & -> & Hw2); [by apply Hsucc|lia|].
    eexists _, _, _. split; [done|lia].
  - destruct turns; (eexists _, _, _; split; [done|lia]).
Qed.

Lemma finished_order_NoDup adj F : finished_order adj F -> NoDup F.
Proof. induction 1; by constructor. Qed.

Lemma turns_left_le l F : NoDup F -> (turns_left l F <= length l)%nat.
Proof.
  intros HF. unfold turns_left. rewrite <- (length_map step_id l). apply submseteq_length, NoDup_submseteq.
  - by apply NoDup_ListNoDup, List.NoDup_filter, NoDup_ListNoDup.
  - intros i Hi. by apply elem_of_bfilter in Hi as [_ Hi%mem_spec].
Qed.

Lemma step_map_get l m s :
  NoDup (map step_id l) -> s ∈ l -> jm_get (step_id s) (fold_left (fun m s => jm_set (step_id s) s m) l m) = Some s.
Proof.
  revert m. induction l as [|x l IH]; intros m Hnd Hs; [by apply not_elem_of_nil in Hs|]. cbn in Hnd |- *.
  apply NoDup_cons in Hnd as [Hx Hnd]. apply elem_of_cons in Hs as [->|Hs]; [|by apply IH].
  assert (Hkeep : forall l m, step_id x ∉ map step_id l ->
    jm_get (step_id x) (fold_left (fun m s => jm_set (step_id s) s m) l m) = jm_get (step_id x) m).
  { clear. induction l as [|y l IH]; intros m Hx; [done|]. cbn in Hx |- *. apply not_elem_of_cons in Hx as [Hne Hx].
    rewrite IH by done. rewrite jm_get_set. by rewrite decide_False. }
  rewrite Hkeep by done. rewrite jm_get_set. by rewrite decide_True.
Qed.

Lemma sum_submseteq {A} (f : A -> nat) l k : l ⊆+ k -> (sum_list_with f l <= sum_list_with f k)%nat.
Proof. induction 1; cbn; lia. Qed.

Lemma sum_filter {A} (f : A -> nat) (b : A -> bool) l :
  (forall x, b x = false -> f x = 0%nat) -> sum_list_with f (List.filter b l) = sum_list_with f l.
Proof. intros H. induction l as [|x l IH]; [done|]. cbn. destruct (b x) eqn:E; cbn; rewrite IH; [done|]. by rewrite H. Qed.

Lemma retries_left_le l F :
  NoDup F -> NoDup (map step_id l) -> (retries_left l F <= sum_list_with max_retries l)%nat.
Proof.
  intros HF Hnd. unfold retries_left. rewrite <- (sum_filter _ (fun i => mem i (map step_id l))).
  - replace (sum_list_with max_retries l) with (sum_list_with (retries_of l) (map step_id l)).
    + apply sum_submseteq, NoDup_submseteq.
      * by apply NoDup_ListNoDup, List.NoDup_filter, NoDup_ListNoDup.
      * intros i Hi. by apply elem_of_bfilter in Hi as [_ Hi%mem_spec].
    + assert (H : forall s, s ∈ l -> retries_of l (step_id s) = max_retries s).
      { intros s Hs. unfold retries_of, step_map. by rewrite step_map_get. }
      revert H. generalize (retries_of l). clear. intros f H. induction l as [|s l IH]; [done|]. cbn.
      rewrite H by left. rewrite IH; [done|]. intros x Hx. apply H. by right.
  - intros i Hi. unfold retries_of. destruct (jm_get i _) as [s|] eqn:Es; [|done].
    apply step_map_spec in Es as [Hin ->]. exfalso. apply not_true_iff_false in Hi. apply Hi, mem_spec. by apply list_elem_of_fmap_2.
Qed.

(** When a run gives a result. *)
Definition ends_surely (turns fuel : nat) (d : PipelineDefinition) : Prop :=
  validateDefinition d = [] /\ Forall follows_edges (steps d) /\ (0 < fuel)%nat /\ (length (steps d) < turns)%nat.

Lemma processRun_total turns fuel j w run :
  w_run w = Some run -> ends_surely turns fuel (definition_snapshot run) ->
  exists w' r, processRun deps turns fuel j w = Some (w', r)
    /\ (length (w_sleeps w') <= length (w_sleeps w) + sum_list_with max_retries (steps (definition_snapshot run)))%nat.
Proof.
  intros Hrun (Hvalid & Hl & Hk & Ht). destruct fuel as [|fuel]; [lia|]. unfold processRun. rewrite Hrun.
  destruct (negb _); [eexists _, _; split; [done|lia]|].
  destruct (tryAcquireAdvisoryLock _) as [[]|]; [|eexists _, _; split; [done|cbn; lia]..].
  assert (Hflat : collectAllStepsFlat (steps (definition_snapshot run)) = steps (definition_snapshot run)).
  { apply flatten_flat. eapply Forall_impl; [exact Hl|]. apply follows_edges_flat. }
  enough (Hrl : forall w0, exists w' r, run_locked deps turns (S fuel) j run w0 = Some (w', r)
    /\ (length (w_sleeps w') <= length (w_sleeps w0) + sum_list_with max_retries (steps (definition_snapshot run)))%nat).
  { edestruct Hrl as (w1 & r & -> & Hw). eexists _, _. split; [done|exact Hw]. }
  intros w0. unfold run_locked. rewrite Hflat. destruct (createBatch _ _) as [w1|] eqn:E; [|eexists _, _; split; [done|cbn; lia]].
  apply createBatch_spec in E as (-> & Hnd & Hst).
  destruct (start_tracking _ _ _) as [w2|] eqn:E2; [|eexists _, _; split; [done|cbn; lia]].
  assert (Hw2 : w_sleeps w2 = w_sleeps w0).
  { revert E2. unfold start_tracking. destruct (w_tracker _); [|by intros [= <-]]. intros H. by invert_ok. }
  rewrite <- Hw2. unfold run_definition. destruct (run_stage _ _ _ _ _) as [[?|?]|?]; [|eexists _, _; split; [done|cbn; lia]..].
  apply valid_order in Hvalid as (F & HF & Hentry).
  assert (Hst' : Forall (fun s => storable s = true) (steps (definition_snapshot run))) by (by apply List.Forall_forall, forallb_forall).
  edestruct (traverse_run_total turns fuel 0) as (e & ctx' & w' & -> & Hw); [done..|exact HF|done| |].
  { eapply Nat.le_lt_trans; [apply turns_left_le; by eapply finished_order_NoDup|done]. }
  pose proof (retries_left_le (steps (definition_snapshot run)) F (finished_order_NoDup _ _ HF) Hnd) as Hle.
  cbn [mbind option_bind]. destruct e as [| |i e| |e]; unfold finish_completed;
    try (destruct (run_stage _ _ _ _ _) as [[?|?]|?]); (eexists _, _; split; [done|cbn; lia]).
Qed.

(** C1: what [processRun] leaves of a pending run.  When it succeeds the run is
    completed, cancelled or failed, with its time, no step is still running, and
    after a failure or a cancellation none is pending.  When the lock is held
    nothing changes; when asking for it fails, a pool client is lost.  After any
    other error the run is over or says [running] with no step running.  The
    client is returned and the lock released in all other cases.  A run with a
    step of a type that the table of the steps does not take gets no row, runs
    no step and is left [running].  There is a result for every valid definition
    whose steps have no fallback, are not parallel, and whose conditionals have
    both targets and no [skipIf]. *)
Theorem run_outcome turns fuel j w run :
  w_run w = Some run -> row_status run = r_pending -> quiet (w_rows w) ->
  (forall w' r, processRun deps turns fuel j w = Some (w', r) ->
   match r with
   | Err (LockFailed _) => w' = with_lock (w_locked w) (w_clients w + 1) w
   | Err LockHeld => w' = w
   | r =>
       w_clients w' = w_clients w
       /\ (exists k, advisoryLockKey (row_pipelineId run) = Some k /\ w_locked w' = negb (unlock k))
       /\ match r with
          | Ok _ => ended w w'
          | Err _ => ended w w' \/ (quiet (w_rows w') /\ exists run', w_run w' = Some run' /\ row_status run' = r_running)
          end
   end)
  /\ (forallb storable (collectAllStepsFlat (steps (definition_snapshot run))) = false ->
      tryAcquireAdvisoryLock (row_pipelineId run) = Ok true ->
      exists w', processRun deps turns fuel j w = Some (w', Err StepTypeRefused)
        /\ w_run w' = Some (started_row (clock (global 2)) run) /\ w_rows w' = w_rows w /\ w_events w' = w_events w)
  /\ (ends_surely turns fuel (definition_snapshot run) -> exists w' r, processRun deps turns fuel j w = Some (w', r)).
Proof.
  intros Hrun Hp Hq. split_and!.
  - intros w' r H. by eapply processRun_result.
  - intros Hst Hlock. unfold processRun. rewrite Hrun, Hp, Hlock. cbn. unfold run_locked.
    rewrite createBatch_refused by done. cbn. eexists. split; [done|]. cbn. rewrite ?Hrun. done.
  - intros H. destruct (processRun_total turns fuel j w run Hrun H) as (w' & r & H' & _). eauto.
Qed.

(** C2: a run of a valid definition whose steps have no fallback, are not
    parallel, and whose conditionals have both targets and no [skipIf], ends in
    at most one turn per step and one more, however the services answer; and it
    waits at most once for each retry its steps allow together, since no step
    is come to twice. *)
Theorem run_terminates turns fuel j w run :
  w_run w = Some run -> validateDefinition (definition_snapshot run) = [] ->
  Forall follows_edges (steps (definition_snapshot run)) ->
  (0 < fuel)%nat -> (length (steps (definition_snapshot run)) < turns)%nat ->
  exists w' r, processRun deps turns fuel j w = Some (w', r)
    /\ (length (w_sleeps w') <= length (w_sleeps w) + sum_list_with max_retries (steps (definition_snapshot run)))%nat.
Proof. intros. by apply processRun_total. Qed.
End Termination.

(** ** Runs that do not end, or do not begin *)

(** One step, whose fallback is the step itself. *)
Definition loop_definition : PipelineDefinition :=
  {| entry := "load";
     steps := [demo_step {| id := "load"; name := "Load"; inputs := None; onError := None; skipIf := None;
       timeout := None; retryConfig := None; fallbackStepId := Some "load" |}];
     options := None |}.

Lemma loop_traverse turns fuel n ctx w :
  traverse_run (host := plain_host) (services := demo_services (fun _ _ => true)) demo_deps turns fuel n
    (steps loop_definition) ["load"] ctx (Some "load") w = None.
Proof.
  revert n ctx w. induction turns as [|turns IH]; intros n ctx w; [done|].
  destruct fuel as [|fuel]; [reflexivity|]. cbn -[traverse_run steps] in IH |- *. cbn [traverse_run]. cbn -[traverse_run]. apply IH.
Qed.

(** [validateDefinition] does not look at fallbacks: it accepts a
    definition whose only step falls back to itself, and while that step fails
    the run takes more than any number of turns. *)
Theorem fallback_never_ends turns fuel :
  validateDefinition loop_definition = [] /\
  processRun (host := plain_host) (services := demo_services (fun _ _ => true)) demo_deps turns fuel demo_job
    (demo_world loop_definition) = None.
Proof.
  split; [vm_compute; reflexivity|].
  unfold processRun, run_locked, run_definition. cbn -[traverse_run tryAcquireAdvisoryLock createBatch].
  rewrite bool_decide_eq_true_2 by done. cbn [negb].
  destruct (tryAcquireAdvisoryLock _) as [[]|] eqn:E; [|by vm_compute in E..]. clear E.
  destruct (createBatch _ _) as [w|] eqn:E; [|by vm_compute in E]. apply createBatch_spec in E as [-> _].
  cbn -[traverse_run]. by setoid_rewrite loop_traverse.
Qed.

(** A definition with a [wait] step is accepted, and its run is left [running]
    without a row for any of its steps. *)
Definition waiting_definition : PipelineDefinition :=
  {| entry := "load";
     steps := [demo_step (demo_base "load"); WaitStep (demo_base "pause") 1000]; options := None |}.

Lemma run_outcome_witness :
  (exists w', processRun (host := plain_host) (services := demo_services flaky) demo_deps 3 2 demo_job (demo_world two_steps) = Some (w', Ok tt)
    /\ ended (demo_world two_steps) w' /\ w_locked w' = false /\ w_sleeps w' = [num_of_Z 100; num_of_Z 200])
  /\ exists w', processRun (host := plain_host) (services := demo_services flaky) demo_deps 3 2 demo_job
       (demo_world waiting_definition) = Some (w', Err StepTypeRefused) /\ w_rows w' = [].
Proof.
  assert (Hq : quiet []) by (intros r Hr; by apply not_elem_of_nil in Hr).
  split.
  - eexists. split; [vm_compute; reflexivity|].
    match goal with |- ended _ ?w' /\ _ =>
      pose proof (proj1 (run_outcome (host := plain_host) (services := demo_services flaky) demo_deps 3 2 demo_job
        (demo_world two_steps) (demo_run two_steps) eq_refl eq_refl Hq) w' (Ok tt) ltac:(vm_compute; reflexivity)) as (_ & _ & H) end.
    split; [exact H|]. split; vm_compute; reflexivity.
  - destruct (run_outcome (host := plain_host) (services := demo_services flaky) demo_deps 3 2 demo_job
      (demo_world waiting_definition) (demo_run waiting_definition) eq_refl eq_refl Hq) as (_ & H & _).
    destruct H as (w' & H & _ & Hrows & _); [reflexivity|vm_compute; reflexivity|]. by exists w'.
Defined.

Lemma run_terminates_witness :
  exists w' r, processRun (host := plain_host) (services := demo_services flaky) demo_deps 3 1 demo_job (demo_world two_steps) = Some (w', r)
    /\ (length (w_sleeps w') <= 3)%nat.
Proof.
  apply (run_terminates (host := plain_host) (services := demo_services flaky) demo_deps 3 1 demo_job
           (demo_world two_steps) (demo_run two_steps)).
  - reflexivity.
  - vm_compute. reflexivity.
  - repeat constructor.
  - lia.
  - cbn. lia.
Defined.
