(* ===== verification/EngineStepSpec.v ===== *)
(** * What the engine's steps do

    The theorems on [EngineStep] and on the order of the steps: the join of
    parallel branches, what follows a parallel step, the guards of
    sub-workflows, the key of the advisory lock. *)

From S2P Require Import Prelude JsString JsNumber JsValue JsHost Condition ExprEval.
From S2P Require Import PipelineDef EngineInput ApprovalService ExecTracker EngineStep EngineRun EngineRunSpec EngineTermination.
From Stdlib Require Import Ascii.

Section Parallel.
Context {host : Host} {services : Services}.

(** ** Joining branches *)

Lemma winner_elem pos l i : winner pos l = Some i -> i ∈ l.
Proof.
  unfold winner. case_bool_decide; [by intros [= <-]|]. intros Hi. destruct l; [done|]. injection Hi as <-. constructor.
Qed.

Lemma winner_nonempty pos l : l <> [] -> is_Some (winner pos l).
Proof. unfold winner. case_bool_decide; [by eexists|]. destruct l; [done|by eexists]. Qed.

(** The object that [Promise.all] is turned into. *)
Lemma get_joined (l : list (string * result engine_error value)) o i v :
  NoDup (map fst l) ->
  ((i, Ok v) ∈ l) \/ ((i ∉ map fst l) /\ get i o = v) ->
  get i (fold_left (fun o '(i, r) => match r with Ok v => set i v o | Err _ => o end) l o) = v.
Proof.
  revert o. induction l as [|[j r] l IH]; intros o Hnd Hi; cbn [fold_left].
  - by destruct Hi as [H%not_elem_of_nil|[_ ?]].
  - cbn [map fst] in Hnd. apply NoDup_cons in Hnd as [Hj Hnd]. apply IH; [done|].
    destruct Hi as [[[= -> <-]|Hi]%elem_of_cons|[Hi Ho]].
    + right. split; [done|apply get_set_eq].
    + by left.
    + right. cbn [map fst] in Hi. apply not_elem_of_cons in Hi as [Hne Hi]. split; [done|].
      destruct r; [|done]. by rewrite get_set_ne.
Qed.

(** The branches and what they give, in order. *)
Definition outcomes (res : nat -> result engine_error value) (branches : list (ParallelBranch Step)) :
    list (string * result engine_error value) :=
  imap (fun i br => (branch_id br, res i)) branches.

Lemma traverse_branches tb (pos : Pos) branches res (g : nat -> nat) :
  (forall i br, branches !! i = Some br -> tb (pos ++ [g i]) br = Some (res i)) ->
  mapM (fun '(i, br) => r ← tb (pos ++ [i]) br; Some (branch_id br, r)) (imap (fun i br => (g i, br)) branches)
  = Some (outcomes res branches).
Proof.
  revert g res. induction branches as [|br branches IH]; intros g res H; [done|].
  cbn. rewrite (H 0%nat br eq_refl). cbn. unfold outcomes. cbn.
  pose proof (IH (g ∘ S) (res ∘ S) (fun i b Hb => H (S i) b Hb)) as HI.
  unfold compose in HI. setoid_rewrite HI. done.
Qed.

Lemma outcomes_lookup res branches i :
  outcomes res branches !! i = (fun br => (branch_id br, res i)) <$> branches !! i.
Proof. apply list_lookup_imap. Qed.

Lemma outcomes_ids res branches : map fst (outcomes res branches) = map branch_id branches.
Proof. unfold outcomes. revert res. induction branches as [|br l IH]; intros res; cbn; [done|]. f_equal. apply (IH (res ∘ S)). Qed.

(** The branches that fail. *)
Definition failing (res : nat -> result engine_error value) (n : nat) : list nat :=
  List.filter (fun i => negb (is_ok (res i))) (seq 0 n).

Lemma failing_outcomes res branches :
  List.filter (fun i => match outcomes res branches !! i with Some (_, Err _) => true | _ => false end) (seq 0 (length (outcomes res branches)))
  = failing res (length branches).
Proof.
  assert (Hlen : length (outcomes res branches) = length branches) by apply length_imap. rewrite Hlen. unfold failing.
  apply List.filter_ext_in. intros i Hi%in_seq. destruct (lookup_lt_is_Some_2 branches i) as [br Hbr]; [lia|].
  rewrite outcomes_lookup, Hbr. cbn. by destruct (res i).
Qed.

(** C23: when the branches of a parallel step end (there is at least one, and their
    identifiers are distinct), the step ends.  Waiting for all of them it succeeds
    when they all do, with an entry for each branch, and otherwise fails as that of
    the failing branches which settles first; waiting for any, its result is that of
    the branch which settles first, be it a success or a failure. *)
Theorem parallel_join tb pos branches w res :
  branches <> [] -> NoDup (map branch_id branches) ->
  (forall i br, branches !! i = Some br -> tb (pos ++ [i]) br = Some (res i)) ->
  exists r, executeParallelStep tb pos branches w = Some r /\
    match w with
    | wait_all =>
        match winner pos (failing res (length branches)) with
        | None => exists v, r = Ok v /\
            forall i br, branches !! i = Some br -> exists x, res i = Ok x /\ member (branch_id br) v = Some x
        | Some i => (i < length branches)%nat /\ exists e, res i = Err e /\ r = Err e
        end
    | wait_any =>
        exists i br, winner pos (seq 0 (length branches)) = Some i /\ branches !! i = Some br /\
          r = match res i with Ok x => Ok (VObj (fresh pos 0) [(branch_id br, x)]) | Err e => Err e end
    end.
Proof.
  intros Hne Hnd Htb. unfold executeParallelStep.
  change (imap pair branches) with (imap (fun i br => (i, br)) branches).
  rewrite (traverse_branches tb pos branches res (fun i => i)) by done. cbn [mbind option_bind].
  assert (Hlen : length (outcomes res branches) = length branches) by apply length_imap.
  destruct w; unfold settle.
  - rewrite failing_outcomes. destruct (winner pos (failing res (length branches))) as [i|] eqn:Hw.
    + apply winner_elem, elem_of_bfilter in Hw as [Hi Hf]. apply elem_of_seq in Hi.
      destruct (lookup_lt_is_Some_2 branches i) as [br Hbr]; [lia|]. cbn [mbind option_bind]. rewrite outcomes_lookup, Hbr. cbn.
      destruct (res i) as [x|e]; [done|]. eexists. split; [done|]. split; [lia|by eexists].
    + eexists. split; [done|]. eexists. split; [done|]. intros i br Hbr. destruct (res i) as [x|e] eqn:Hr.
      * exists x. split; [done|]. cbn. f_equal. apply get_joined; [by rewrite outcomes_ids|]. left.
        apply (list_elem_of_lookup_2 _ i). rewrite outcomes_lookup, Hbr. cbn. by rewrite Hr.
      * exfalso. assert (Hin : i ∈ failing res (length branches)).
        { apply elem_of_bfilter. rewrite Hr. split; [|done]. apply elem_of_seq. apply lookup_lt_Some in Hbr. lia. }
        destruct (winner_nonempty pos (failing res (length branches))) as [k Hk]; [|congruence].
        intros E. rewrite E in Hin. by apply not_elem_of_nil in Hin.
  - rewrite Hlen. destruct (winner_nonempty pos (seq 0 (length branches))) as [i Hi]; [by destruct branches|].
    rewrite Hi. cbn [mbind option_bind]. pose proof Hi as Hin. apply winner_elem, elem_of_seq in Hin.
    destruct (lookup_lt_is_Some_2 branches i) as [br Hbr]; [lia|].
    rewrite outcomes_lookup, Hbr. cbn. destruct (res i) as [x|e] eqn:Hr; (eexists; split; [done|]; exists i, br; by rewrite Hr).
Qed.
End Parallel.

(** ** What follows a step *)

(** In a list without repeated ids the step after [s] is the next of the list. *)
Lemma next_in_list l i s next :
  NoDup (map step_id l) -> l !! i = Some s ->
  match s with ConditionalStep _ _ _ _ => next = None | _ => True end ->
  getNextStepIdFromMain s l next = step_id <$> l !! S i.
Proof.
  intros Hnd Hs Hnext. pose proof (take_drop_middle _ _ _ Hs) as Hl. symmetry in Hl.
  assert (Hlen : length (take i l) = i) by (apply length_take_le; apply lookup_lt_Some in Hs; lia).
  unfold getNextStepIdFromMain, getNextStepId. rewrite (list_find_nodup _ _ _ _ Hl Hnd), Hlen.
  by destruct s; [..| |]; subst.
Qed.

Definition branch_flat (branches : list (ParallelBranch Step)) : list Step :=
  flat_map (fun b => flat_map flatten_step (branch_steps b)) branches.

(** After a parallel step the run goes on with the steps of its branches:
    the list of all steps holds them right after the parallel step, so they are
    executed again, one after the other, before the step that follows. *)
Theorem parallel_rerun pre b branches w post next l :
  l = collectAllStepsFlat (pre ++ ParallelStep b branches w :: post) -> NoDup (map step_id l) ->
  let start := S (length (collectAllStepsFlat pre)) in
  getNextStepIdFromMain (ParallelStep b branches w) l next = step_id <$> l !! start
  /\ (forall k s, branch_flat branches !! k = Some s -> l !! (start + k)%nat = Some s)
  /\ (forall k s, branch_flat branches !! k = Some s ->
      match s with ConditionalStep _ _ _ _ => False | _ => True end ->
      getNextStepIdFromMain s l next = step_id <$> l !! (start + S k)%nat).
Proof.
  intros Hl Hnd start.
  assert (Hflat : l = collectAllStepsFlat pre ++ ParallelStep b branches w :: branch_flat branches ++ collectAllStepsFlat post).
  { rewrite Hl. unfold collectAllStepsFlat. rewrite flat_map_app. done. }
  assert (Hin : forall k s, branch_flat branches !! k = Some s -> l !! (start + k)%nat = Some s).
  { intros k s Hk. rewrite Hflat. subst start.
    replace (S (length (collectAllStepsFlat pre)) + k)%nat with (length (collectAllStepsFlat pre) + S k)%nat by lia.
    rewrite lookup_app_r, Nat.add_comm, Nat.add_sub by lia. cbn. by apply lookup_app_l_Some. }
  split; [|split; [done|]].
  - apply (next_in_list l (length (collectAllStepsFlat pre))); [done| |done].
    by rewrite Hflat, list_lookup_middle.
  - intros k s Hk Hs. rewrite Nat.add_succ_r. apply next_in_list; [done|by apply Hin|by destruct s].
Qed.

(** ** The key of the advisory lock *)

Lemma digits_value_cons c l :
  digits_value 16 (c :: l) = (digit_value c * 16 ^ Z.of_nat (length l) + digits_value 16 l)%Z.
Proof.
  unfold digits_value. cbn [fold_left]. rewrite Z.mul_0_l, Z.add_0_l.
  induction l as [|d l IH] using rev_ind; [cbn; lia|].
  rewrite !fold_left_app, length_app. cbn [fold_left length]. rewrite IH.
  replace (Z.of_nat (length l + 1)) with (Z.of_nat (length l) + 1)%Z by lia. rewrite Z.pow_add_r by lia. lia.
Qed.

Section Lock.
Context {host : Host} {services : Services} (deps : EngineDeps).

(** The lock's key is the number of the first sixteen hexadecimal digits of
    the pipeline's id.  It fits PostgreSQL's [bigint] exactly when the first
    digit is below 8; for every other id the run stays pending, fails on every
    attempt, and each attempt loses a client of the pool. *)
Theorem lock_key_range turns fuel j w run c l :
  w_run w = Some run -> row_status run = r_pending ->
  take 16 (List.filter (fun c => negb (Ascii.eqb c "-"%char)) (explode (row_pipelineId run))) = c :: l ->
  length l = 15%nat -> Forall (fun c => is_hex c = true) (c :: l) ->
  ((digit_value c < 8)%Z -> exists k, (0 <= k < 2 ^ 63)%Z /\
     tryAcquireAdvisoryLock (row_pipelineId run) = map_err LockFailed (try_lock k)) /\
  ((8 <= digit_value c)%Z ->
     processRun deps turns fuel j w
     = Some (with_lock (w_locked w) (w_clients w + 1) w, Err (LockFailed "value is out of range for type bigint"))).
Proof.
  intros Hrun Hp Hhex Hlen Hall.
  assert (Hkey : advisoryLockKey (row_pipelineId run) = Some (digits_value 16 (c :: l))).
  { unfold advisoryLockKey. rewrite Hhex. assert (forallb is_hex (c :: l) = true) as ->; [|done].
    apply forallb_elem. by apply Forall_forall. }
  pose proof (digits_value_range l) as Hl. rewrite Hlen in Hl. apply Forall_cons in Hall as [Hc Hall].
  specialize (Hl Hall). pose proof (digits_value_range [c]) as H1. specialize (H1 ltac:(by repeat constructor)).
  assert (Hval : digits_value 16 (c :: l) = (digit_value c * 2 ^ 60 + digits_value 16 l)%Z).
  { rewrite digits_value_cons, Hlen. done. }
  change (digits_value 16 [c]) with (digit_value c) in H1. change (16 ^ Z.of_nat (length [c]))%Z with 16%Z in H1.
  change (16 ^ Z.of_nat 15)%Z with (2 ^ 60)%Z in Hl. unfold tryAcquireAdvisoryLock. split; intros Hd.
  - exists (digits_value 16 (c :: l)). rewrite Hkey, Hval. split; [lia|].
    assert (bigint_range (digit_value c * 2 ^ 60 + digits_value 16 l) = true) as ->; [|done].
    unfold bigint_range. rewrite andb_true_iff, Z.leb_le, Z.ltb_lt. lia.
  - unfold processRun. rewrite Hrun, Hp. cbn. unfold tryAcquireAdvisoryLock. rewrite Hkey, Hval.
    assert (bigint_range (digit_value c * 2 ^ 60 + digits_value 16 l) = false) as ->; [|done].
    unfold bigint_range. rewrite andb_false_iff, Z.leb_gt, Z.ltb_ge. lia.
Qed.

(** ** Sub-workflows *)

(** The pipelines a run is nested in, itself included. *)
Definition chain (ctx : RunContext) : list string := subWorkflowCallStack ctx ++ [ctx_pipelineId ctx].

(** A sub-workflow is started only under the depth limit and only if it is
    not one of the pipelines it would be nested in.  So a child that is given
    the chain it was started with has a chain without repetitions, of at most
    six pipelines, whatever the trigger and the child answer. *)
Theorem sub_workflow_chain pos p m wait t ctx child :
  NoDup (chain ctx) -> subWorkflowCallStack child = chain ctx -> ctx_pipelineId child = p ->
  match executeSubWorkflowStep deps pos p m wait t ctx with
  | Err (SubWorkflowDepthExceeded n) => n = length (subWorkflowCallStack ctx) /\ (5 <= n)%nat
  | Err (SubWorkflowCircularDependency q) => q = p /\ p ∈ chain ctx
  | _ => NoDup (chain child) /\ (length (chain child) <= 6)%nat
  end.
Proof.
  intros Hnd Hstack Hp. unfold executeSubWorkflowStep, SUB_WORKFLOW_MAX_DEPTH.
  destruct (Nat.leb_spec 5 (length (subWorkflowCallStack ctx))) as [Hd|Hd]; [done|].
  fold (chain ctx). destruct (mem p (chain ctx)) eqn:Em; [apply mem_spec in Em; done|].
  assert (Hchild : NoDup (chain child) /\ (length (chain child) <= 6)%nat).
  { apply not_true_iff_false in Em. rewrite mem_spec in Em. unfold chain at 1 2. rewrite Hstack, Hp. split.
    - apply NoDup_app. split_and!; [done| |apply NoDup_singleton]. by intros x Hx ->%list_elem_of_singleton.
    - unfold chain. rewrite !length_app. cbn. lia. }
  destruct (negb (has_subWorkflowTrigger deps)); [done|].
  destruct (sub_trigger _ _ _ _) as [i|msg]; cbn; [|by destruct (not_found_message msg)].
  destruct (negb wait); [done|]. destruct (sub_wait _ _ _) as [[s o]|[]]; cbn; try done. by destruct s.
Qed.
End Lock.

(** ** Connectors *)

(** The resolved inputs of a connector step are spread over the fixed fields of
    the request: an input of that name replaces the tenant of the run. *)
Lemma connector_tenant_replaced b i m w ctx resolvedInput v :
  NoDup (jm_keys resolvedInput) -> jm_get "tenantId" resolvedInput = Some v ->
  get "tenantId" (connector_body b i m w ctx resolvedInput) = v.
Proof.
  intros Hnd Hv. unfold connector_body, assign at 1. apply jm_get_elem_of in Hv.
  generalize (of_entries ([("connectorInstanceId", VStr i); ("tenantId", VStr (tenantId ctx)); ("runId", VStr (runId ctx));
    ("stepId", VStr (id b))] ++ match m with Some m => [("syncMode", VStr (sync_mode_text m))] | None => [] end
    ++ [("waitForCompletion", VBool w)])). intros o.
  enough (H : forall o, (("tenantId", v) ∈ resolvedInput) \/ (("tenantId" ∉ jm_keys resolvedInput) /\ get "tenantId" o = v) ->
    get "tenantId" (fold_left (fun o '(k, v) => set k v o) resolvedInput o) = v) by (apply H; by left).
  clear o Hv. induction resolvedInput as [|[k x] l IH]; intros o Hi; cbn [fold_left].
  - by destruct Hi as [H%not_elem_of_nil|[_ ?]].
  - cbn in Hnd. apply NoDup_cons in Hnd as [Hk Hnd]. apply IH; [done|].
    destruct Hi as [[[= <- <-]|Hi]%elem_of_cons|[Hi Ho]]; [right; split; [done|apply get_set_eq]|by left|].
    right. cbn in Hi. apply not_elem_of_cons in Hi as [Hne Hi]. split; [done|]. by rewrite get_set_ne.
Qed.

(** ** Witnesses *)

Definition two_branches : list (ParallelBranch Step) :=
  [ {| branch_id := "left"; entryStepId := "a"; branch_steps := [demo_step (demo_base "a")] |};
    {| branch_id := "right"; entryStepId := "b"; branch_steps := [demo_step (demo_base "b")] |} ].

Definition parallel_definition : PipelineDefinition :=
  {| entry := "fan"; steps := [ParallelStep (demo_base "fan") two_branches wait_all; demo_step (demo_base "end")];
     options := None |}.

(** The steps of the branches complete once more in the run's own order. *)
Example parallel_rerun_example :
  match processRun (host := plain_host) (services := demo_services (fun _ _ => false)) demo_deps 5 4 demo_job
          (demo_world parallel_definition) with
  | Some (w, Ok _) =>
      w_events w = [EvStepCompleted "fan"; EvStepCompleted "a"; EvStepCompleted "b"; EvStepCompleted "end"; EvCompleted 4]
  | _ => False
  end.
Proof. vm_compute. reflexivity. Qed.

(** The second branch settles first, and fails. *)
Definition second_first : Services :=
  {| message_of := fun _ => "error"; execution_run := fun _ _ => Err "no"; hooks_request := fun _ _ => Ok (true, []);
     ingestion_sync := fun _ _ => Err "no"; webhook_fetch := fun _ _ => Err "no"; jsonata := fun _ _ _ _ => Err "no";
     clock := fun _ => 0%Z; approval_poll := fun _ _ => (false, None); sub_trigger := fun _ _ _ _ => Err "no";
     sub_wait := fun _ _ _ => Err WaitTimeout; first_settled := fun _ l => List.last l 0%nat; fresh := fun _ n => N.of_nat n;
     run_cancelled := fun _ => false; try_lock := fun _ => Ok true; unlock := fun _ => true |}.

Lemma parallel_join_witness :
  (exists r, executeParallelStep (services := demo_services (fun _ _ => false)) (fun pos br => Some (Ok (VStr (branch_id br)))) [] two_branches wait_all = Some (Ok r)
    /\ member "right" r = Some (VStr "right"))
  /\ executeParallelStep (services := second_first)
       (fun pos br => Some (if String.eqb (branch_id br) "right" then Err NoApprovalService else Ok VNull)) [] two_branches wait_any
     = Some (Err NoApprovalService).
Proof.
  split.
  - destruct (parallel_join (services := demo_services (fun _ _ => false)) (fun pos br => Some (Ok (VStr (branch_id br)))) []
      two_branches wait_all (fun i => Ok (VStr (match i with O => "left" | _ => "right" end)))) as (r & Hr & H).
    + done.
    + decide_now.
    + intros i br. do 2 (destruct i as [|i]; [by intros [= <-]|]). done.
    + destruct H as (v & -> & H). exists v. split; [exact Hr|]. destruct (H 1%nat _ eq_refl) as (x & [= <-] & Hx). exact Hx.
  - destruct (parallel_join (services := second_first)
      (fun pos br => Some (if String.eqb (branch_id br) "right" then Err NoApprovalService else Ok VNull)) []
      two_branches wait_any (fun i => match i with O => Ok VNull | _ => Err NoApprovalService end)) as (r & Hr & H).
    + done.
    + decide_now.
    + intros i br. do 2 (destruct i as [|i]; [by intros [= <-]|]). done.
    + destruct H as (i & br & Hi & _ & ->). etransitivity; [exact Hr|]. vm_compute in Hi. injection Hi as <-. reflexivity.
Defined.

Lemma parallel_rerun_witness :
  getNextStepIdFromMain (ParallelStep (demo_base "fan") two_branches wait_all) (collectAllStepsFlat (steps parallel_definition)) None
  = Some "a".
Proof.
  destruct (parallel_rerun [] (demo_base "fan") two_branches wait_all [demo_step (demo_base "end")] None _ eq_refl) as (H & _ & _).
  - decide_now.
  - exact H.
Defined.

Definition high_run : RunRow :=
  {| row_id := "run-1"; row_pipelineId := "f81d4fae-7dec-41d0-a765-00a0c91e6bf6"; row_tenantId := "acme";
     row_status := r_pending; triggered_by := "manual"; trigger_actor_id := None; trigger_meta := []; row_input := VObj 0%N [];
     row_startedAt := None; row_completedAt := None; row_error := None; bully_job_id := None;
     definition_snapshot := two_steps; row_createdAt := 0 |}.
Definition high_world : world :=
  {| w_run := Some high_run; w_rows := []; w_tracker := None; w_events := []; w_sleeps := []; w_locked := false; w_clients := 0 |}.

Lemma lock_key_range_witness :
  processRun (host := plain_host) (services := demo_services flaky) demo_deps 3 2 demo_job high_world
  = Some (with_lock false 1 high_world, Err (LockFailed "value is out of range for type bigint")).
Proof.
  apply (lock_key_range (host := plain_host) (services := demo_services flaky) demo_deps 3 2 demo_job high_world high_run
    "f" (explode "81d4fae7dec41d0")); [reflexivity..| |vm_compute; discriminate].
  repeat constructor.
Defined.

Definition nested_context (stack : list string) (p : string) : RunContext :=
  {| runId := "run-1"; tenantId := "acme"; ctx_pipelineId := p; ctx_stepTimeout := None; runInput := VObj 0%N [];
     stepOutputs := []; subWorkflowCallStack := stack; queueWaitMs := 0 |}.

Lemma sub_workflow_chain_witness :
  NoDup (chain (nested_context ["p"; "q"] "r")) /\ (length (chain (nested_context ["p"; "q"] "r")) <= 6)%nat.
Proof.
  apply (sub_workflow_chain (services := demo_services flaky) demo_deps [] "r" None true None
    (nested_context ["p"] "q") (nested_context ["p"; "q"] "r")); [decide_now|reflexivity|reflexivity].
Defined.
