(* ===== verification/SqlTable.v ===== *)
(** * Tables and the queries on them

    A table is a list of rows; [SELECT ... WHERE ... ORDER BY ... LIMIT] filters,
    sorts and cuts it.  The lemmas on cursors say when following the cursor of
    each page to the next one reads a whole table. *)

From S2P Require Import Prelude JsString JsHost.
From stdpp Require Import sorting sets.

(** [UPDATE ... SET f WHERE p] *)
Definition update_where {A} (p : A -> bool) (f : A -> A) (l : list A) : list A :=
  map (fun r => if p r then f r else r) l.

(** [SELECT ... WHERE p], first row. *)
Definition find_row {A} (p : A -> bool) (l : list A) : option A := head (List.filter p l).

(** The order of identifiers: that of their canonical texts. *)
Definition text_lt (a b : string) : bool :=
  match lex_compare (explode a) (explode b) with Lt => true | _ => false end.

(** ** Lemmas on statements *)

Lemma find_row_spec {A} (p : A -> bool) l x : find_row p l = Some x -> x ∈ l /\ p x = true.
Proof.
  unfold find_row. intros H. apply elem_of_bfilter. destruct (List.filter p l); [done|]. injection H as ->. by left.
Qed.

Lemma find_row_unique {A} (p : A -> bool) l x :
  x ∈ l -> p x = true -> (forall y, y ∈ l -> p y = true -> y = x) -> find_row p l = Some x.
Proof.
  intros Hx Hp Hu. unfold find_row. destruct (List.filter p l) as [|y k] eqn:E.
  - exfalso. apply (not_elem_of_nil x). rewrite <- E. by apply elem_of_bfilter.
  - cbn. f_equal. assert (Hy : y ∈ List.filter p l) by (rewrite E; by left). apply elem_of_bfilter in Hy as [? ?]. by apply Hu.
Qed.

Lemma elem_of_update_where {A} (p : A -> bool) f (l : list A) x :
  x ∈ update_where p f l -> x ∈ l \/ exists y, y ∈ l /\ p y = true /\ x = f y.
Proof.
  unfold update_where. intros (y & -> & Hy)%list_elem_of_fmap. destruct (p y) eqn:E; [right; by exists y|by left].
Qed.

Lemma map_update_where {A B} (k : A -> B) (p : A -> bool) f l :
  (forall x, p x = true -> k (f x) = k x) -> map k (update_where p f l) = map k l.
Proof. intros H. unfold update_where. rewrite map_map. apply map_ext. intros x. destruct (p x) eqn:E; auto. Qed.

Lemma NoDup_map_inj {A B} (k : A -> B) l x y : NoDup (map k l) -> x ∈ l -> y ∈ l -> k x = k y -> x = y.
Proof.
  induction l as [|z l IH]; intros Hnd Hx Hy Hk; [by apply not_elem_of_nil in Hx|].
  cbn in Hnd. apply NoDup_cons in Hnd as [Hz Hnd].
  apply elem_of_cons in Hx as [->|Hx], Hy as [->|Hy]; [done| | |by apply IH].
  all: exfalso; apply Hz; apply list_elem_of_fmap; eauto.
Qed.

Lemma existsb_false {A} (p : A -> bool) l x : existsb p l = false -> x ∈ l -> p x = false.
Proof. intros H Hx. destruct (p x) eqn:E; [|done]. assert (existsb p l = true); [apply existsb_elem; eauto|congruence]. Qed.

Lemma NoDup_map_bfilter {A B} (k : A -> B) (p : A -> bool) l : NoDup (map k l) -> NoDup (map k (List.filter p l)).
Proof.
  induction l as [|x l IH]; cbn; [done|]. intros [Hx Hnd]%NoDup_cons. destruct (p x); [|by apply IH]. cbn.
  constructor; [|by apply IH]. intros (y & E & Hy)%list_elem_of_fmap. apply elem_of_bfilter in Hy as [Hy _].
  apply Hx. rewrite E. by apply list_elem_of_fmap_2.
Qed.

Lemma NoDup_map_snoc {A B} (k : A -> B) l x : NoDup (map k l) -> k x ∉ map k l -> NoDup (map k (l ++ [x])).
Proof.
  intros Hnd Hx. rewrite map_app. apply NoDup_app. split_and!; [done| |apply NoDup_singleton].
  by intros y Hy ->%list_elem_of_singleton.
Qed.

Section Select.
Context {A : Type} (before : A -> A -> bool).

Fixpoint place (x : A) (l : list A) : list A :=
  match l with
  | [] => [x]
  | y :: l' => if before y x then y :: place x l' else x :: l
  end.

Definition order_by (l : list A) : list A := fold_right place [] l.

Definition select (p : A -> bool) (limit : nat) (l : list A) : list A :=
  take limit (order_by (List.filter p l)).

Lemma place_perm x l : place x l ≡ₚ x :: l.
Proof.
  induction l as [|y l IH]; cbn; [done|]. destruct (before y x); [|done]. by rewrite IH, Permutation_swap.
Qed.

Lemma order_by_perm l : order_by l ≡ₚ l.
Proof. induction l as [|x l IH]; cbn; [done|]. by rewrite place_perm, IH. Qed.

Definition ordered (l : list A) : Prop := StronglySorted (fun x y => before x y = true) l.

(** [before] is a strict total order on the rows of [l]. *)
Record strict_order (l : list A) : Prop := {
  so_irrefl : forall x, x ∈ l -> before x x = false;
  so_trans : forall x y z, x ∈ l -> y ∈ l -> z ∈ l -> before x y = true -> before y z = true -> before x z = true;
  so_total : forall x y, x ∈ l -> y ∈ l -> before x y = false -> before y x = false -> x = y
}.

Lemma strict_order_mono l k : k ⊆ l -> strict_order l -> strict_order k.
Proof. intros Hk [H1 H2 H3]. split; eauto. Qed.

Lemma place_ordered x l : strict_order (x :: l) -> x ∉ l -> ordered l -> ordered (place x l).
Proof.
  unfold ordered. induction l as [|y l IH]; intros Ho Hx Hl; cbn.
  - repeat constructor.
  - apply not_elem_of_cons in Hx as [Hne Hx]. apply StronglySorted_inv in Hl as [Hl Hy].
    destruct (before y x) eqn:E.
    + constructor; [apply IH; [|done|done]|].
      * eapply strict_order_mono; [|exact Ho]. set_solver.
      * rewrite Forall_forall in Hy |- *. intros z. rewrite place_perm. intros [->|Hz]%elem_of_cons; auto.
    + assert (Hxy : before x y = true).
      { destruct (before x y) eqn:E2; [done|]. destruct Hne. apply (so_total _ Ho); [set_solver..|done|done]. }
      constructor; [by constructor|]. constructor; [done|]. rewrite Forall_forall in Hy |- *.
      intros z Hz. eapply so_trans; [exact Ho| | | |exact Hxy|by apply Hy]; set_solver.
Qed.

Lemma order_by_ordered l : strict_order l -> NoDup l -> ordered (order_by l).
Proof.
  induction l as [|x l IH]; intros Ho Hnd; cbn; [constructor|]. apply NoDup_cons in Hnd as [Hx Hnd].
  apply place_ordered.
  - eapply strict_order_mono; [|exact Ho]. intros z. by rewrite order_by_perm.
  - by rewrite order_by_perm.
  - apply IH; [|done]. eapply strict_order_mono; [|exact Ho]. set_solver.
Qed.

(** A list has one ordered permutation. *)
Lemma ordered_unique l k : strict_order l -> ordered l -> ordered k -> l ≡ₚ k -> l = k.
Proof.
  unfold ordered. intros Ho Hl. revert k. induction Hl as [|x l Hl IH Hx]; intros k Hk Hp.
  - by apply Permutation_nil_l in Hp.
  - destruct k as [|y k]; [by apply Permutation_nil_r in Hp|]. apply StronglySorted_inv in Hk as [Hk Hy].
    assert (x = y) as ->.
    { assert (H1 : y ∈ x :: l) by (rewrite Hp; by left). assert (H2 : x ∈ y :: k) by (rewrite <- Hp; by left).
      apply elem_of_cons in H1 as [|H1]; [done|]. apply elem_of_cons in H2 as [|H2]; [done|].
      rewrite Forall_forall in Hx, Hy.
      assert (Hc : before x x = true) by (apply (so_trans _ Ho x y x); [set_solver..|by apply Hx|by apply Hy]).
      rewrite (so_irrefl _ Ho) in Hc; [done|by left]. }
    f_equal. apply IH; [eapply strict_order_mono; [|exact Ho]; set_solver|done|]. by apply Permutation_cons_inv in Hp.
Qed.

(** What comes after a row of an ordered list. *)
Lemma filter_after l c k : strict_order (l ++ c :: k) -> ordered (l ++ c :: k) -> List.filter (before c) (l ++ c :: k) = k.
Proof.
  intros Ho Hl. rewrite List.filter_app. cbn. rewrite (so_irrefl _ Ho) by set_solver.
  assert (Hpre : List.filter (before c) l = []).
  { apply StronglySorted_app in Hl as (Hlc & _). induction l as [|x l IH]; [done|]. cbn.
    assert (Hxc : before x c = true) by (apply Hlc; set_solver).
    destruct (before c x) eqn:E.
    - assert (Hc : before c c = true) by (eapply so_trans; [exact Ho| | | |exact E|exact Hxc]; set_solver).
      rewrite (so_irrefl _ Ho) in Hc; [done|set_solver].
    - apply IH; [eapply strict_order_mono; [|exact Ho]; set_solver|]. intros a b Ha Hb. apply Hlc; set_solver. }
  rewrite Hpre. cbn [app]. apply StronglySorted_app in Hl as (_ & _ & Hk). apply StronglySorted_inv in Hk as [_ Hk].
  clear -Hk. induction Hk as [|x k Hx _ IH]; cbn; [done|]. by rewrite Hx, IH.
Qed.

(** ** Cursors *)

Lemma bfilter_perm (q : A -> bool) (k1 k2 : list A) : k1 ≡ₚ k2 -> List.filter q k1 ≡ₚ List.filter q k2.
Proof.
  induction 1 as [|x k1 k2 _ IH|x y k|k1 k2 k3 _ IH1 _ IH2]; cbn; [done| | |by rewrite IH1].
  - destruct (q x); by rewrite IH.
  - destruct (q x), (q y); try done. apply Permutation_swap.
Qed.

Lemma ordered_suffix l k : ordered (l ++ k) -> ordered k.
Proof. unfold ordered. by intros (_ & _ & ?)%StronglySorted_app. Qed.

Section Pages.
Context (p : A -> bool) (after : A -> A -> bool) (n : nat).

Definition beyond (cursor : option A) (x : A) : bool :=
  p x && match cursor with Some c => after c x | None => true end.

(** Following the cursors: a full page leads to the next one. *)
Fixpoint pages (fuel : nat) (l : list A) (cursor : option A) : option (list A) :=
  match fuel with
  | O => None
  | S fuel =>
      let page := select (beyond cursor) n l in
      if (length page =? n)%nat then
        match last page with
        | None => Some page
        | Some c => rest ← pages fuel l (Some c); Some (page ++ rest)
        end
      else Some page
  end.

Context (l : list A) (Hnd : NoDup l) (Ho : strict_order l).
(** The cursor goes the way of the order. *)
Context (Hafter : forall c x, c ∈ l -> x ∈ l -> p c = true -> p x = true -> after c x = before c x).

Lemma NoDup_bfilter (q : A -> bool) (k : list A) : NoDup k -> NoDup (List.filter q k).
Proof. intros H. by apply NoDup_ListNoDup, List.NoDup_filter, NoDup_ListNoDup. Qed.

Lemma strict_order_bfilter (q : A -> bool) : strict_order (List.filter q l).
Proof. eapply strict_order_mono; [|exact Ho]. intros x. rewrite elem_of_bfilter. by intros [? _]. Qed.

Lemma select_rest whole front c rest :
  whole = order_by (List.filter p l) -> whole = front ++ c :: rest ->
  order_by (List.filter (beyond (Some c)) l) = rest.
Proof.
  intros Hw Hsplit.
  assert (Hwp : whole ≡ₚ List.filter p l) by (rewrite Hw; apply order_by_perm).
  assert (Hwo : strict_order whole).
  { eapply strict_order_mono; [|apply (strict_order_bfilter p)]. intros x. by rewrite Hwp. }
  assert (Hc : c ∈ List.filter p l) by (rewrite <- Hwp, Hsplit; set_solver). apply elem_of_bfilter in Hc as [Hcl Hcp].
  assert (Hford : ordered whole).
  { rewrite Hw. apply order_by_ordered; [apply strict_order_bfilter|by apply NoDup_bfilter]. }
  assert (Hrest : List.filter (before c) whole = rest).
  { rewrite Hsplit in Hwo, Hford |- *. by apply filter_after. }
  assert (Heq : List.filter (beyond (Some c)) l = List.filter (before c) (List.filter p l)).
  { clear -Hafter Hcl Hcp. assert (Hsub : forall x, x ∈ l -> x ∈ l) by done. revert Hsub. generalize l at 1 3 4 as k.
    induction k as [|x k IH]; intros Hsub; cbn; [done|]. rewrite IH by set_solver. unfold beyond.
    destruct (p x) eqn:Ep; cbn; [|done]. rewrite (Hafter c x) by (try done; set_solver). done. }
  assert (Hp : order_by (List.filter (beyond (Some c)) l) ≡ₚ rest).
  { rewrite order_by_perm, Heq, <- Hrest. apply bfilter_perm. by symmetry. }
  assert (Hsub : order_by (List.filter (beyond (Some c)) l) ⊆ l).
  { intros x. rewrite order_by_perm, elem_of_bfilter. by intros [? _]. }
  apply ordered_unique; [by eapply strict_order_mono| |apply (ordered_suffix (front ++ [c])); by rewrite <- app_assoc; cbn [app]; rewrite <- Hsplit|done].
  apply order_by_ordered; [apply strict_order_bfilter|by apply NoDup_bfilter].
Qed.

(** Following the cursors reads every row once, in order. *)
Lemma pages_all fuel :
  (0 < n)%nat -> (length l < fuel)%nat -> pages fuel l None = Some (order_by (List.filter p l)).
Proof.
  intros Hn Hfuel. set (whole := order_by (List.filter p l)).
  enough (H : forall fuel cursor rest,
    order_by (List.filter (beyond cursor) l) = rest -> (exists front, whole = front ++ rest) ->
    (length rest < fuel)%nat -> pages fuel l cursor = Some rest).
  { apply H.
    - unfold whole. f_equal. apply List.filter_ext. intros x. unfold beyond. apply andb_true_r.
    - by exists [].
    - unfold whole. rewrite order_by_perm. pose proof (List.filter_length_le p l). lia. }
  clear fuel Hfuel. intros fuel. induction fuel as [|fuel IH]; intros cursor rest Hrest [front Hfront] Hfuel; [lia|].
  cbn [pages]. unfold select. rewrite Hrest. destruct (Nat.eqb_spec (length (take n rest)) n) as [Hlen|Hlen].
  - destruct (last (take n rest)) as [c|] eqn:Elast.
    + apply last_Some in Elast as [page Hpage].
      assert (Hsplit : rest = page ++ c :: drop n rest).
      { rewrite <- (take_drop n rest) at 1. by rewrite Hpage, <- app_assoc. }
      assert (Hnext : pages fuel l (Some c) = Some (drop n rest)).
      { apply IH.
        - apply (select_rest whole (front ++ page) c); [done|]. rewrite Hfront, <- app_assoc. f_equal. exact Hsplit.
        - exists (front ++ page ++ [c]). rewrite Hfront, <- !app_assoc. f_equal. exact Hsplit.
        - rewrite length_take in Hlen. rewrite length_drop. lia. }
      rewrite Hnext. cbn. f_equal. apply take_drop.
    + apply last_None in Elast. rewrite Elast in Hlen. cbn in Hlen. lia.
  - f_equal. apply take_ge. rewrite length_take in Hlen. lia.
Qed.
End Pages.
End Select.
