(* ===== verification/PipelineStore.v ===== *)
(** * Pipelines and their versions

    The operations of services/pipeline/src/services/pipeline-service.ts on the
    tables of services/pipeline/src/repositories: creation, update with a
    snapshot of the state before, deletion, and rollback.  An operation gives
    the tables it leaves and its result; a transaction that fails leaves them as
    they were.  What the database generates (identifiers, times) is an argument.
    The identifiers and times of versions, which nothing reads, are left out. *)

From S2P Require Import Prelude JsString JsValue JsHost.
From S2P Require Import SsrfBlocklist PipelineDef ExecTracker EngineStep EngineRun SqlTable.
From Stdlib Require Import Ascii.

(** ** Rows *)

Record PipelineRow : Type := {
  p_id : string;
  p_tenant : string;
  p_name : string;
  p_slug : string;
  p_description : option string;
  p_definition : PipelineDefinition;
  p_active : bool;
  p_createdAt : Z;
  p_updatedAt : Z;
  p_createdBy : string;
  current_version : nat
}.

Record PipelineVersionRow : Type := {
  v_pipeline : string;
  v_tenant : string;
  version_number : nat;
  v_definition : PipelineDefinition;
  name_at_version : string;
  description_at_version : option string;
  v_createdBy : string
}.

Record ScheduleRow : Type := {
  s_id : string;
  s_pipeline : string;
  s_tenant : string;
  cron_expr : string;
  timezone : string;
  enabled : bool;
  input_template : obj;
  depends_on : list string;
  last_run_at : option Z;
  next_run_at : option Z;
  s_createdAt : Z;
  s_updatedAt : Z
}.

Record db : Type := {
  pipelines : list PipelineRow;
  versions : list PipelineVersionRow;
  schedules : list ScheduleRow;
  runs : list RunRow
}.

Definition with_pipelines (f : list PipelineRow -> list PipelineRow) (d : db) : db :=
  {| pipelines := f (pipelines d); versions := versions d; schedules := schedules d; runs := runs d |}.
Definition with_versions (f : list PipelineVersionRow -> list PipelineVersionRow) (d : db) : db :=
  {| pipelines := pipelines d; versions := f (versions d); schedules := schedules d; runs := runs d |}.
Definition with_schedules (f : list ScheduleRow -> list ScheduleRow) (d : db) : db :=
  {| pipelines := pipelines d; versions := versions d; schedules := f (schedules d); runs := runs d |}.
Definition with_runs (f : list RunRow -> list RunRow) (d : db) : db :=
  {| pipelines := pipelines d; versions := versions d; schedules := schedules d; runs := f (runs d) |}.

(** ** Errors *)

Inductive db_error : Type := UniqueViolation | CheckViolation | NoFields.

Inductive service_error : Type :=
| PipelineValidationError (errors : list definition_error)
| PipelineInvalidWebhookUrlError (stepId url : string)
| PipelineNotFoundError
| PipelineRunsActiveError (n : nat)
| PipelineVersionNotFoundError (n : nat)
| PipelineInactiveError
| PipelineConcurrentRunError (n : nat)
| PipelineRunNotFoundError
| PipelineRunTerminalError (s : RunStatus)
| DbError (e : db_error).

(** ** Slugs *)

(** [replace(/\s+/g, "-")] *)
Fixpoint spaces_to_dash (in_space : bool) (l : list ascii) : list ascii :=
  match l with
  | [] => []
  | c :: l =>
      if is_space c then (if in_space then [] else ["-"%char]) ++ spaces_to_dash true l
      else c :: spaces_to_dash false l
  end.

(** [[a-z0-9]] *)
Definition slug_char (c : ascii) : bool := is_lower c || is_digit c.
Definition is_dash (c : ascii) : bool := Ascii.eqb c "-".

(** [replace(/^-+|-+$/g, "")] *)
Definition strip_dashes (l : list ascii) : list ascii :=
  rev (span is_dash (rev (span is_dash l).2)).2.

(** [/^[a-z0-9][a-z0-9-]{1,62}[a-z0-9]$/] *)
Definition SLUG_RE (s : string) : bool :=
  let l := explode s in
  (3 <=? length l)%nat && (length l <=? 64)%nat
  && forallb (fun c => slug_char c || is_dash c) l
  && match l with c :: _ => slug_char c | [] => false end
  && match last l with Some c => slug_char c | None => false end.

Definition slug_candidate (name : string) : string :=
  implode (take 64 (strip_dashes (List.filter (fun c => slug_char c || is_dash c)
    (spaces_to_dash false (explode (trim (toLowerCase name))))))).

(** [uuid] is [crypto.randomUUID()]. *)
Definition deriveSlug (uuid : string) (name : string) : string :=
  if SLUG_RE (slug_candidate name) then slug_candidate name
  else "pipeline-" +:+ implode (take 8 (explode uuid)).

(** ** Queries *)

Definition of_tenant (t i : string) (r : PipelineRow) : bool :=
  String.eqb (p_id r) i && String.eqb (p_tenant r) t.

Definition findById (i : string) (d : db) : option PipelineRow :=
  find_row (fun r => String.eqb (p_id r) i) (pipelines d).
Definition findByTenantAndId (t i : string) (d : db) : option PipelineRow :=
  find_row (of_tenant t i) (pipelines d).

(** [ORDER BY created_at ASC, id ASC] *)
Definition pipeline_before (a b : PipelineRow) : bool :=
  (p_createdAt a <? p_createdAt b)%Z || ((p_createdAt a =? p_createdAt b)%Z && text_lt (p_id a) (p_id b)).

Definition findByTenantId (t : string) (cursor : option string) (limit : nat) (filterIsActive : option bool)
    (d : db) : list PipelineRow :=
  select pipeline_before
    (fun r => String.eqb (p_tenant r) t
              && match filterIsActive with Some b => Bool.eqb (p_active r) b | None => true end
              && match cursor with Some c => text_lt c (p_id r) | None => true end)
    limit (pipelines d).

Definition is_active_run (r : RunRow) : bool :=
  match row_status r with r_pending | r_running => true | _ => false end.

Definition countActiveByPipelineId (i : string) (d : db) : nat :=
  length (List.filter (fun r => String.eqb (row_pipelineId r) i && is_active_run r) (runs d)).

(** ** Statements that write *)

(** [CHECK (length(trim(name)) > 0)]; SQL trims spaces only. *)
Definition name_not_empty (name : string) : bool := negb (forallb (Ascii.eqb " ") (explode name)).

(** [INSERT INTO pipeline.pipelines]: the primary key, the slug within the
    tenant, and the checks on the name and the slug. *)
Definition insert_pipeline (r : PipelineRow) (d : db) : result db_error db :=
  if existsb (fun x => String.eqb (p_id x) (p_id r)
                       || (String.eqb (p_tenant x) (p_tenant r) && String.eqb (p_slug x) (p_slug r))) (pipelines d)
  then Err UniqueViolation
  else if name_not_empty (p_name r) && SLUG_RE (p_slug r)
  then Ok (with_pipelines (fun l => l ++ [r]) d)
  else Err CheckViolation.

Definition disableByPipelineId (now : Z) (i : string) : db -> db :=
  with_schedules (update_where (fun s => String.eqb (s_pipeline s) i && enabled s)
    (fun s => {| s_id := s_id s; s_pipeline := s_pipeline s; s_tenant := s_tenant s; cron_expr := cron_expr s;
       timezone := timezone s; enabled := false; input_template := input_template s; depends_on := depends_on s;
       last_run_at := last_run_at s; next_run_at := next_run_at s; s_createdAt := s_createdAt s; s_updatedAt := now |})).

(** [UpdatePipelineData]; [Some None] clears the description. *)
Record UpdatePipelineInput : Type := {
  u_name : option string;
  u_description : option (option string);
  u_definition : option PipelineDefinition;
  u_active : option bool
}.

Definition no_fields (u : UpdatePipelineInput) : bool :=
  match u_name u, u_description u, u_definition u, u_active u with
  | None, None, None, None => true
  | _, _, _, _ => false
  end.

(** The [SET] clause. *)
Definition set_fields (now : Z) (u : UpdatePipelineInput) (r : PipelineRow) : PipelineRow :=
  {| p_id := p_id r; p_tenant := p_tenant r; p_name := default (p_name r) (u_name u); p_slug := p_slug r;
     p_description := default (p_description r) (u_description u);
     p_definition := default (p_definition r) (u_definition u);
     p_active := default (p_active r) (u_active u); p_createdAt := p_createdAt r; p_updatedAt := now;
     p_createdBy := p_createdBy r; current_version := S (current_version r) |}.

Definition snapshot_row (r : PipelineRow) (updatedBy : string) : PipelineVersionRow :=
  {| v_pipeline := p_id r; v_tenant := p_tenant r; version_number := S (current_version r);
     v_definition := p_definition r; name_at_version := p_name r; description_at_version := p_description r;
     v_createdBy := updatedBy |}.

Definition insert_version (v : PipelineVersionRow) (d : db) : result db_error db :=
  if existsb (fun x => String.eqb (v_pipeline x) (v_pipeline v)
                       && Nat.eqb (version_number x) (version_number v)) (versions d)
  then Err UniqueViolation
  else Ok (with_versions (fun l => l ++ [v]) d).

(** [pipelineRepo.update]: one transaction. *)
Definition update_pipeline (now : Z) (i : string) (u : UpdatePipelineInput) (updatedBy : option string) (d : db) :
    result db_error (db * option PipelineRow) :=
  if no_fields u then Err NoFields
  else
    d ← match findById i d, updatedBy with
        | Some r, Some user => insert_version (snapshot_row r user) d
        | _, _ => Ok d
        end;
    let d := with_pipelines (update_where (fun r => String.eqb (p_id r) i) (set_fields now u)) d in
    match findById i d with
    | Some r => if name_not_empty (p_name r) then Ok (d, Some r) else Err CheckViolation
    | None => Ok (d, None)
    end.

(** [DELETE FROM pipeline.pipelines], with its cascades. *)
Definition delete_pipeline (i : string) (d : db) : db :=
  {| pipelines := List.filter (fun r => negb (String.eqb (p_id r) i)) (pipelines d);
     versions := List.filter (fun v => negb (String.eqb (v_pipeline v) i)) (versions d);
     schedules := List.filter (fun s => negb (String.eqb (s_pipeline s) i)) (schedules d);
     runs := List.filter (fun r => negb (String.eqb (row_pipelineId r) i)) (runs d) |}.

(** ** The service *)

(** The first webhook step with a blocked address. *)
Definition blocked_webhook (d : PipelineDefinition) : option service_error :=
  head (flat_map (fun s => match s with
                           | WebhookStep b url _ _ _ _ _ =>
                               if isUrlSsrfBlocked url then [PipelineInvalidWebhookUrlError (id b) url] else []
                           | _ => []
                           end) (steps d)).

(** The checks that create and update make of a definition. *)
Definition check_definition (d : PipelineDefinition) : result service_error unit :=
  match validateDefinition d with
  | [] => match blocked_webhook d with Some e => Err e | None => Ok tt end
  | errors => Err (PipelineValidationError errors)
  end.

Record CreatePipelineInput : Type := {
  c_name : string;
  c_slug : option string;
  c_description : option string;
  c_definition : PipelineDefinition;
  c_active : bool
}.

Definition db_result {A} (r : result db_error A) : result service_error A := map_err DbError r.

(** [fresh] is the identifier the database generates, [uuid] the one of the slug. *)
Definition createPipeline (fresh uuid : string) (now : Z) (t user : string) (c : CreatePipelineInput) (d : db) :
    db * result service_error PipelineRow :=
  let r := {| p_id := fresh; p_tenant := t; p_name := c_name c;
              p_slug := default (deriveSlug uuid (c_name c)) (c_slug c); p_description := c_description c;
              p_definition := c_definition c; p_active := c_active c; p_createdAt := now; p_updatedAt := now;
              p_createdBy := user; current_version := 0 |} in
  match (_ ← check_definition (c_definition c); db_result (insert_pipeline r d)) with
  | Ok d' => (d', Ok r)
  | Err e => (d, Err e)
  end.

Definition getPipeline (t i : string) (d : db) : result service_error PipelineRow :=
  or_throw PipelineNotFoundError (findByTenantAndId t i d).

(** The page and the cursor of the next one. *)
Definition page_cursor {A B} (f : A -> B) (limit : nat) (rows : list A) : option B :=
  if (length rows =? limit)%nat then f <$> last rows else None.

Definition listPipelines (t : string) (cursor : option string) (limit : nat) (filterIsActive : option bool) (d : db) :
    list PipelineRow * option string :=
  let rows := findByTenantId t cursor limit filterIsActive d in
  (rows, page_cursor p_id limit rows).

Definition updatePipeline (now : Z) (t i : string) (u : UpdatePipelineInput) (updatedBy : option string) (d : db) :
    db * result service_error PipelineRow :=
  match (_ ← getPipeline t i d;
         match u_definition u with Some def => check_definition def | None => Ok tt end) with
  | Err e => (d, Err e)
  | Ok _ =>
      let d := match u_active u with Some false => disableByPipelineId now i d | _ => d end in
      match update_pipeline now i u updatedBy d with
      | Err e => (d, Err (DbError e))
      | Ok (d, None) => (d, Err PipelineNotFoundError)
      | Ok (d, Some r) => (d, Ok r)
      end
  end.

Definition deletePipeline (t i : string) (d : db) : db * result service_error unit :=
  match getPipeline t i d with
  | Err e => (d, Err e)
  | Ok _ =>
      let n := countActiveByPipelineId i d in
      if (0 <? n)%nat then (d, Err (PipelineRunsActiveError n)) else (delete_pipeline i d, Ok tt)
  end.

Definition version_before (a b : PipelineVersionRow) : bool := (version_number b <? version_number a)%nat.

Definition listByPipelineId (i : string) (cursor : option nat) (limit : nat) (d : db) : list PipelineVersionRow :=
  select version_before
    (fun v => String.eqb (v_pipeline v) i
              && match cursor with Some c => (version_number v <? c)%nat | None => true end) limit (versions d).

Definition listVersions (t i : string) (cursor : option nat) (limit : option nat) (d : db) :
    result service_error (list PipelineVersionRow * option nat) :=
  _ ← getPipeline t i d;
  let limit := default 50%nat limit in
  let rows := listByPipelineId i cursor limit d in
  Ok (rows, page_cursor version_number limit rows).

Definition findVersion (i : string) (n : nat) (d : db) : option PipelineVersionRow :=
  find_row (fun v => String.eqb (v_pipeline v) i && Nat.eqb (version_number v) n) (versions d).

Definition getVersion (t i : string) (n : nat) (d : db) : result service_error PipelineVersionRow :=
  _ ← getPipeline t i d;
  or_throw (PipelineVersionNotFoundError n) (findVersion i n d).

Definition rollbackToVersion (now : Z) (t i : string) (n : nat) (user : string) (d : db) :
    db * result service_error PipelineRow :=
  match getVersion t i n d with
  | Err e => (d, Err e)
  | Ok v =>
      match validateDefinition (v_definition v) with
      | [] =>
          updatePipeline now t i
            {| u_name := Some (name_at_version v);
               u_description := match description_at_version v with Some s => Some (Some s) | None => None end;
               u_definition := Some (v_definition v); u_active := None |} (Some user) d
      | errors => (d, Err (PipelineValidationError errors))
      end
  end.
