(* ===== verification/RunService.v ===== *)
(** * Runs

    services/pipeline/src/services/run-service.ts over the tables of
    [PipelineStore], the queue of jobs and the cancellation flags in Redis.
    [triggerRun] is its checks and its writes, which other calls may come
    between. *)

From S2P Require Import Prelude JsString JsNumber JsValue JsHost.
From S2P Require Import PipelineDef EngineRun EngineStep SqlTable PipelineStore.
From Stdlib Require Import Ascii.
From stdpp Require Import pretty.

(** The payload of a job; triggers by users and schedules carry no call stack. *)
Record PipelineRunJobPayload : Type := { payload_runId : string; payload_tenantId : string }.

Record run_state : Type := {
  tables : db;
  queue : list PipelineRunJobPayload;
  flags : jmap string Z        (* cancellation flags, with the time they expire *)
}.

Definition with_tables (f : db -> db) (st : run_state) : run_state :=
  {| tables := f (tables st); queue := queue st; flags := flags st |}.

Definition CANCEL_FLAG_TTL_SECONDS : Z := 3600.

Definition TERMINAL_STATUSES (s : RunStatus) : bool :=
  match s with r_completed | r_failed | r_cancelled => true | _ => false end.

(** ** Queries *)

Definition findRun (t i : string) (d : db) : option RunRow :=
  find_row (fun r => String.eqb (row_id r) i && String.eqb (row_tenantId r) t) (runs d).

(** [ORDER BY created_at DESC, id DESC] *)
Definition run_before (a b : RunRow) : bool :=
  (row_createdAt b <? row_createdAt a)%Z || ((row_createdAt a =? row_createdAt b)%Z && text_lt (row_id b) (row_id a)).

Definition run_filter (t : string) (filterStatus : option RunStatus) (pipelineId : option string) (r : RunRow) : bool :=
  String.eqb (row_tenantId r) t
  && match pipelineId with Some p => String.eqb (row_pipelineId r) p | None => true end
  && match filterStatus with Some s => bool_decide (row_status r = s) | None => true end.

Definition below_cursor (cursor : option string) (r : RunRow) : bool :=
  match cursor with Some c => text_lt (row_id r) c | None => true end.

Definition findRunsByTenantId (t : string) (cursor : option string) (limit : nat) (filterStatus : option RunStatus)
    (pipelineId : option string) (d : db) : list RunRow :=
  select run_before (fun r => run_filter t filterStatus pipelineId r && below_cursor cursor r) limit (runs d).

(** ** [triggerRun] *)

Definition trigger_check (pipelineId t : string) (d : db) : result service_error PipelineRow :=
  match findById pipelineId d with
  | None => Err PipelineNotFoundError
  | Some p =>
      if negb (String.eqb (p_tenant p) t) then Err PipelineNotFoundError
      else if negb (p_active p) then Err PipelineInactiveError
      else match options (p_definition p) ≫= allowConcurrentRuns with
           | Some false =>
               let n := countActiveByPipelineId pipelineId d in
               if (0 <? n)%nat then Err (PipelineConcurrentRunError n) else Ok p
           | _ => Ok p
           end
  end.

Definition new_run (fresh : string) (now : Z) (t triggeredBy : string) (input : value) (meta : obj)
    (actor : option string) (p : PipelineRow) : RunRow :=
  {| row_id := fresh; row_pipelineId := p_id p; row_tenantId := t; row_status := r_pending;
     triggered_by := triggeredBy; trigger_actor_id := actor; trigger_meta := meta; row_input := input;
     row_startedAt := None; row_completedAt := None; row_error := None; bully_job_id := None;
     definition_snapshot := p_definition p; row_createdAt := now |}.

(** The text of a JSON value that PostgreSQL stores as [jsonb]: numbers without an
    exponent, the keys of an object by length and then by bytes. *)
Definition jsonb_number (n : number) : string :=
  match n with
  | S754_finite s m e =>
      let '(a, b) := num_ratio m e in
      let point := decimal_exponent a b in
      let '(d, k) := shortest 17 (S754_finite false m e) a b point 1 in
      let ds := pretty (Z.to_N d) in
      let chars i f := implode (f (Z.to_nat i) (explode ds)) in
      (if s then "-" else EmptyString) +:+
      (if (k <=? point)%Z then ds +:+ zeros (point - k)
       else if (0 <? point)%Z then chars point (@take ascii) +:+ "." +:+ chars point (@drop ascii)
       else "0." +:+ zeros (- point) +:+ ds)
  | S754_zero _ => "0"
  | _ => "null"
  end.

Definition jsonb_key_before (a b : string * string) : bool :=
  (String.length a.1 <? String.length b.1)%nat || ((String.length a.1 =? String.length b.1)%nat && String.ltb a.1 b.1).

Fixpoint jsonb_text (v : value) : string :=
  match v with
  | VUndef | VNull | VFun _ => "null"
  | VBool b => if b then "true" else "false"
  | VNum n => jsonb_number n
  | VStr s => json_quote s
  | VArr _ l => "[" +:+ JsString.join ", " (map jsonb_text l) +:+ "]"
  | VObj _ o =>
      let props :=
        (fix props (o : list (string * value)) : list (string * string) :=
           match o with
           | [] => []
           | (k, v) :: o => match v with VUndef | VFun _ => props o | _ => (k, jsonb_text v) :: props o end
           end) o in
      "{" +:+ JsString.join ", " (map (fun p => json_quote p.1 +:+ ": " +:+ p.2) (order_by jsonb_key_before props)) +:+ "}"
  end.

(** [->>]: the text of a string is the string, and null has none. *)
Definition arrow_text (v : value) : option string :=
  match v with
  | VUndef | VNull | VFun _ => None
  | VStr s => Some s
  | VNum n => if is_finite n then Some (jsonb_number n) else None
  | _ => Some (jsonb_text v)
  end.

Example arrow_texts :
  map arrow_text [VStr "e1"; VNum (num_of_string "-1.5e-7"); VNum (num_of_string "1e21"); VNull; VArr 0%N [VBool true; VStr "a"];
                  VObj 0%N [("bb", VNum (num_of_Z 1)); ("a", VNull)]]
  = [Some "e1"; Some "-0.00000015"; Some "1000000000000000000000"; None; Some (implode (explode "[true, " ++ quote :: explode "a" ++ quote :: explode "]"));
     Some (implode (explode "{" ++ quote :: explode "a" ++ quote :: explode ": null, " ++ quote :: explode "bb" ++ quote :: explode ": 1}"))].
Proof. vm_compute. reflexivity. Qed.

(** The key of the index [runs_event_idempotency_unique]: the pipeline and the
    text of the event's identifier, for a run that an event started. *)
Definition event_key (r : RunRow) : option (string * string) :=
  if String.eqb (triggered_by r) "event" then
    e ← jm_get "eventId" (trigger_meta r) ≫= arrow_text; Some (row_pipelineId r, e)
  else None.

Definition same_event (a b : RunRow) : bool :=
  match event_key a with Some k => bool_decide (event_key b = Some k) | None => false end.

(** The primary key, the index on events, and the reference to the pipeline. *)
Definition insert_run (r : RunRow) (d : db) : result db_error db :=
  if existsb (fun x => String.eqb (row_id x) (row_id r) || same_event x r) (runs d) then Err UniqueViolation
  else if existsb (fun p => String.eqb (p_id p) (row_pipelineId r)) (pipelines d)
  then Ok (with_runs (fun l => l ++ [r]) d)
  else Err CheckViolation.

Definition set_job (j : string) (r : RunRow) : RunRow :=
  {| row_id := row_id r; row_pipelineId := row_pipelineId r; row_tenantId := row_tenantId r;
     row_status := row_status r; triggered_by := triggered_by r; trigger_actor_id := trigger_actor_id r;
     trigger_meta := trigger_meta r; row_input := row_input r; row_startedAt := row_startedAt r;
     row_completedAt := row_completedAt r; row_error := row_error r; bully_job_id := Some j;
     definition_snapshot := definition_snapshot r; row_createdAt := row_createdAt r |}.

(** The row, the job, and the job's identifier in the row. *)
Definition trigger_write (fresh : string) (job_id : option string) (r : RunRow) (st : run_state) :
    run_state * result service_error string :=
  match insert_run r (tables st) with
  | Err e => (st, Err (DbError e))
  | Ok d =>
      let d := match job_id with
               | Some j => with_runs (update_where (fun r => String.eqb (row_id r) fresh) (set_job j)) d
               | None => d
               end in
      ({| tables := d; queue := queue st ++ [{| payload_runId := fresh; payload_tenantId := row_tenantId r |}];
          flags := flags st |}, Ok fresh)
  end.

Definition triggerRun (fresh : string) (job_id : option string) (now : Z) (pipelineId t triggeredBy : string)
    (input : value) (meta : obj) (actor : option string) (st : run_state) : run_state * result service_error string :=
  match trigger_check pipelineId t (tables st) with
  | Err e => (st, Err e)
  | Ok p => trigger_write fresh job_id (new_run fresh now t triggeredBy input meta actor p) st
  end.

(** ** The other operations *)

Definition run_duration (r : RunRow) : option Z :=
  match row_startedAt r, row_completedAt r with Some s, Some c => Some (c - s)%Z | _, _ => None end.

Definition getRun (t i : string) (st : run_state) : result service_error (RunRow * option Z) :=
  r ← or_throw PipelineRunNotFoundError (findRun t i (tables st)); Ok (r, run_duration r).

Definition listRuns (t : string) (cursor : option string) (limit : nat) (filterStatus : option RunStatus)
    (pipelineId : option string) (st : run_state) : list RunRow * option string :=
  let rows := findRunsByTenantId t cursor limit filterStatus pipelineId (tables st) in
  (rows, page_cursor row_id limit rows).

Definition cancelRun (now : Z) (t i : string) (st : run_state) : run_state * result service_error unit :=
  match findRun t i (tables st) with
  | None => (st, Err PipelineRunNotFoundError)
  | Some r =>
      if TERMINAL_STATUSES (row_status r) then (st, Err (PipelineRunTerminalError (row_status r)))
      else ({| tables := tables st; queue := queue st;
               flags := jm_set i (now + CANCEL_FLAG_TTL_SECONDS * 1000)%Z (flags st) |}, Ok tt)
  end.

(** The engine's [isCancelled]. *)
Definition isCancelled (now : Z) (i : string) (st : run_state) : bool :=
  match jm_get i (flags st) with Some expires => (now <? expires)%Z | None => false end.

Definition replayRun (fresh : string) (job_id : option string) (now : Z) (pipelineId t executionId : string)
    (actor : option string) (st : run_state) : run_state * result service_error (string * string) :=
  match findRun t executionId (tables st) with
  | None => (st, Err PipelineRunNotFoundError)
  | Some r =>
      if negb (String.eqb (row_pipelineId r) pipelineId) then (st, Err PipelineRunNotFoundError)
      else
        let '(st, res) := triggerRun fresh job_id now pipelineId t "manual" (row_input r)
                            [("replayOf", VStr executionId)] actor st in
        (st, (fun i => (i, executionId)) <$> res)
  end.
