(* ===== verification/ScheduleService.v ===== *)
(** * Schedules

    services/pipeline/src/services/schedule-service.ts over the table of
    schedules: their creation and update, the check of dependencies, and the
    tick of the cron loop, which several replicas run.  A tick is its two
    halves, [tick_check] and [tick_fire], and an update its two,
    [updateSchedule_read] and [updateSchedule_write]: the steps of others come
    between.  The expressions of packages/core/src/cron.ts come first. *)

From S2P Require Import Prelude JsString JsNumber JsValue JsHost PipelineDef EngineRun.
From S2P Require Import EngineStep SqlTable PipelineStore RunService.
From Stdlib Require Import Ascii.

(** ** Cron expressions

    packages/core/src/cron.ts, and the validation and next-run computation of
    services/pipeline/src/services/schedule-service.ts.  The [cron-parser]
    package and the table of time zones are a parameter. *)

(** ** packages/core/src/cron.ts *)

Record CronFieldSpec : Type := { spec_min : Z; spec_max : Z }.

Definition CRON_FIELD_SPECS : list CronFieldSpec :=
  [ {| spec_min := 0; spec_max := 59 |}; {| spec_min := 0; spec_max := 23 |}; {| spec_min := 1; spec_max := 31 |};
    {| spec_min := 1; spec_max := 12 |}; {| spec_min := 0; spec_max := 7 |} ].

(** An integer within the bounds. *)
Definition in_spec (n : number) (spec : CronFieldSpec) : bool :=
  is_integer n && num_leb (num_of_Z (spec_min spec)) n && num_leb n (num_of_Z (spec_max spec)).

Definition isCronTokenValid (token : string) (spec : CronFieldSpec) : bool :=
  if String.eqb token "*" then true
  else if includes token "/" then
    match split token "/" with
    | [base; stepStr] =>
        let step := num_of_string stepStr in
        is_integer step && num_leb (num_of_Z 1) step
        && (String.eqb base "*" || in_spec (num_of_string base) spec)
    | _ => false
    end
  else if includes token "-" then
    match split token "-" with
    | [startStr; endStr] =>
        let start := num_of_string startStr in
        let stop := num_of_string endStr in
        in_spec start spec && in_spec stop spec && num_leb start stop
    | _ => false
    end
  else in_spec (num_of_string token) spec.

(** [split(/\s+/)] *)
Fixpoint split_spaces (in_space : bool) (l : list ascii) : list (list ascii) :=
  match l with
  | [] => [[]]
  | c :: l =>
      if is_space c then (if in_space then [] else [[]]) ++ split_spaces true l
      else match split_spaces false l with
           | w :: ws => (c :: w) :: ws
           | [] => [[c]]
           end
  end.

Definition cron_fields (s : string) : list string := map implode (split_spaces false (explode (trim s))).

Definition cron_field_valid (spec : CronFieldSpec) (field : string) : bool :=
  let tokens := split field "," in
  negb (mem EmptyString tokens) && forallb (fun t => isCronTokenValid t spec) tokens.

Definition isValidCronExpression (value : string) : bool :=
  let fields := cron_fields value in
  (length fields =? 5)%nat && forallb (fun p => cron_field_valid p.1 p.2) (combine CRON_FIELD_SPECS fields).

(** The schema of the API. *)
Definition cronExpressionSchema (s : string) : bool :=
  (1 <=? String.length s)%nat && (String.length s <=? 100)%nat && isValidCronExpression s.

Example cron_weekdays : isValidCronExpression " 0 9  * * 1-5 " = true.
Proof. vm_compute. reflexivity. Qed.
Example cron_steps : map isValidCronExpression ["*/15 * * * *"; "0 24 * * *"; "5-1 * * * *"; "1-30/5 * * * *"; "0-30 0,12 1 */2 7"]
  = [true; false; false; false; true].
Proof. vm_compute. reflexivity. Qed.
(** The empty text is the number 0, and [Number] reads other notations. *)
Example cron_lenient : map isValidCronExpression ["-5 * * * *"; "0- * * * *"; "0x1F * * * *"; "1e1 * * * *"; "/5 * * * *"]
  = [true; true; true; true; true].
Proof. vm_compute. reflexivity. Qed.

(** ** schedule-service.ts *)

Class CronParser : Type := {
  (** [parseExpression(e, { tz: "UTC" })] accepts *)
  cron_parses : string -> bool;
  (** [parseExpression(e, { tz, currentDate }).next()] *)
  cron_next : string -> string -> Z -> result string Z;
  (** [Intl.supportedValuesOf("timeZone")] *)
  zone_supported : string -> bool
}.

(** What the package documents: the next date is after the current one. *)
Class CronLaws (C : CronParser) : Prop := {
  cron_next_after : forall e tz now next, cron_next e tz now = Ok next -> (now < next)%Z
}.

Inductive schedule_error : Type :=
| ScheduleNotFoundError
| ScheduleInvalidCronError
| ScheduleTypeError
| ScheduleFailed (msg : string)
| ScheduleDbError.

Definition CRON_ALIAS_MAP : jmap string string :=
  [("@yearly", "0 0 1 1 *"); ("@annually", "0 0 1 1 *"); ("@monthly", "0 0 1 * *"); ("@weekly", "0 0 * * 0");
   ("@daily", "0 0 * * *"); ("@midnight", "0 0 * * *"); ("@hourly", "0 * * * *")].

(** [CRON_ALIAS_MAP[cronExpr.trim()] ?? cronExpr]; the table is an object, and a
    name of its prototype gives a value without [trim]. *)
Definition expand_alias (cronExpr : string) : result schedule_error string :=
  match jm_get (trim cronExpr) CRON_ALIAS_MAP with
  | Some e => Ok e
  | None => if mem (trim cronExpr) ("__proto__" :: object_proto) then Err ScheduleTypeError else Ok cronExpr
  end.

Section Schedule.
Context {C : CronParser}.

Definition validateCronExpression (cronExpr : string) : result schedule_error unit :=
  expanded ← expand_alias cronExpr;
  if negb (length (cron_fields expanded) =? 5)%nat then Err ScheduleInvalidCronError
  else if cron_parses expanded then Ok tt else Err ScheduleInvalidCronError.

Definition validateTimezone (timezone : string) : result schedule_error unit :=
  if negb (String.eqb timezone "UTC") && negb (zone_supported timezone) then Err ScheduleInvalidCronError else Ok tt.

Definition computeNextRunAt (now : Z) (cronExpr timezone : string) : result schedule_error Z :=
  expanded ← expand_alias cronExpr;
  map_err ScheduleFailed (cron_next expanded timezone now).

Lemma next_run_after `{!CronLaws C} now e tz next : computeNextRunAt now e tz = Ok next -> (now < next)%Z.
Proof. unfold computeNextRunAt. intros H. invert_ok. by eapply cron_next_after. Qed.
End Schedule.

(** A parser for the witnesses: every expression runs each minute. *)
Definition minutely : CronParser := {|
  cron_parses := fun _ => true;
  cron_next := fun _ _ now => Ok ((now / 60000 + 1) * 60000)%Z;
  zone_supported := fun _ => false
|}.

#[export] Instance minutely_laws : CronLaws minutely.
Proof. split. intros e tz now next [= <-]. pose proof (Z.mul_succ_div_gt now 60000). lia. Qed.

(** ** Queries *)

Definition of_tenant_schedule (t i : string) (s : ScheduleRow) : bool := String.eqb (s_id s) i && String.eqb (s_tenant s) t.

Definition findSchedule (t i : string) (d : db) : option ScheduleRow := find_row (of_tenant_schedule t i) (schedules d).

(** [ORDER BY created_at ASC, id ASC] *)
Definition schedule_before (a b : ScheduleRow) : bool :=
  (s_createdAt a <? s_createdAt b)%Z || ((s_createdAt a =? s_createdAt b)%Z && text_lt (s_id a) (s_id b)).

Definition findSchedulesByTenantId (t : string) (cursor : option string) (limit : nat) (d : db) : list ScheduleRow :=
  select schedule_before
    (fun s => String.eqb (s_tenant s) t && match cursor with Some c => text_lt c (s_id s) | None => true end)
    limit (schedules d).

(** [enabled = true AND next_run_at <= asOf] *)
Definition is_due (asOf : Z) (s : ScheduleRow) : bool :=
  enabled s && match next_run_at s with Some n => (n <=? asOf)%Z | None => false end.

(** [ORDER BY next_run_at ASC] *)
Definition due_before (a b : ScheduleRow) : bool :=
  match next_run_at a, next_run_at b with Some x, Some y => (x <? y)%Z | _, _ => false end.

Definition findDueSchedules (asOf : Z) (d : db) : list ScheduleRow :=
  order_by due_before (List.filter (is_due asOf) (schedules d)).

(** ** Statements *)

(** The primary key, the checks on the texts, the reference to the pipeline. *)
Definition insert_schedule (s : ScheduleRow) (d : db) : result schedule_error db :=
  if existsb (fun x => String.eqb (s_id x) (s_id s)) (schedules d)
     || negb (name_not_empty (cron_expr s)) || negb (name_not_empty (timezone s))
     || negb (existsb (fun p => String.eqb (p_id p) (s_pipeline s)) (pipelines d))
  then Err ScheduleDbError
  else Ok (with_schedules (fun l => l ++ [s]) d).

Record ScheduleUpdateInput : Type := {
  up_cron_expr : option string;
  up_timezone : option string;
  up_enabled : option bool;
  up_input_template : option obj;
  up_depends_on : option (list string);
  up_next_run_at : option Z
}.

Definition set_schedule (now : Z) (u : ScheduleUpdateInput) (s : ScheduleRow) : ScheduleRow :=
  {| s_id := s_id s; s_pipeline := s_pipeline s; s_tenant := s_tenant s;
     cron_expr := default (cron_expr s) (up_cron_expr u); timezone := default (timezone s) (up_timezone u);
     enabled := default (enabled s) (up_enabled u);
     input_template := default (input_template s) (up_input_template u);
     depends_on := default (depends_on s) (up_depends_on u); last_run_at := last_run_at s;
     next_run_at := match up_next_run_at u with Some n => Some n | None => next_run_at s end;
     s_createdAt := s_createdAt s; s_updatedAt := now |}.

Definition no_schedule_fields (u : ScheduleUpdateInput) : bool :=
  match up_cron_expr u, up_timezone u, up_enabled u, up_input_template u, up_depends_on u, up_next_run_at u with
  | None, None, None, None, None, None => true
  | _, _, _, _, _, _ => false
  end.

(** [scheduleRepo.update]: the checks on the texts apply to the new row. *)
Definition update_schedule (now : Z) (i : string) (u : ScheduleUpdateInput) (d : db) :
    result schedule_error (db * option ScheduleRow) :=
  if no_schedule_fields u then Err ScheduleDbError
  else
    let d := with_schedules (update_where (fun s => String.eqb (s_id s) i) (set_schedule now u)) d in
    match find_row (fun s => String.eqb (s_id s) i) (schedules d) with
    | Some s => if name_not_empty (cron_expr s) && name_not_empty (timezone s) then Ok (d, Some s) else Err ScheduleDbError
    | None => Ok (d, None)
    end.

Definition delete_schedule (i : string) : db -> db :=
  with_schedules (List.filter (fun s => negb (String.eqb (s_id s) i))).

Definition claimable (i : string) (expected : Z) (s : ScheduleRow) : bool :=
  String.eqb (s_id s) i && bool_decide (next_run_at s = Some expected) && enabled s.

Definition advance_schedule (lastRunAt nextRunAt now : Z) (s : ScheduleRow) : ScheduleRow :=
  {| s_id := s_id s; s_pipeline := s_pipeline s; s_tenant := s_tenant s; cron_expr := cron_expr s;
     timezone := timezone s; enabled := enabled s; input_template := input_template s; depends_on := depends_on s;
     last_run_at := Some lastRunAt; next_run_at := Some nextRunAt; s_createdAt := s_createdAt s; s_updatedAt := now |}.

(** [updateNextRunAt]: whether a row was changed. *)
Definition updateNextRunAt (i : string) (lastRunAt nextRunAt currentNextRunAt now : Z) (d : db) : db * bool :=
  (with_schedules (update_where (claimable i currentNextRunAt) (advance_schedule lastRunAt nextRunAt now)) d,
   existsb (claimable i currentNextRunAt) (schedules d)).

(** ** The service *)

Record CreateScheduleInput : Type := {
  in_pipelineId : string;
  in_cronExpr : string;
  in_timezone : string;
  in_enabled : bool;
  in_inputTemplate : obj;
  in_dependsOn : option (list string)
}.

Record UpdateScheduleInput : Type := {
  ch_cronExpr : option string;
  ch_timezone : option string;
  ch_enabled : option bool;
  ch_inputTemplate : option obj;
  ch_dependsOn : option (list string)
}.

Section Service.
Context {C : CronParser}.

Definition createSchedule (fresh : string) (now : Z) (t : string) (inp : CreateScheduleInput) (d : db) :
    db * result schedule_error ScheduleRow :=
  let r :=
    _ ← validateCronExpression (in_cronExpr inp);
    _ ← validateTimezone (in_timezone inp);
    match findById (in_pipelineId inp) d with
    | Some p =>
        if negb (String.eqb (p_tenant p) t) then Err ScheduleNotFoundError
        else
          next ← computeNextRunAt now (in_cronExpr inp) (in_timezone inp);
          let s := {| s_id := fresh; s_pipeline := in_pipelineId inp; s_tenant := t; cron_expr := in_cronExpr inp;
                      timezone := in_timezone inp; enabled := in_enabled inp; input_template := in_inputTemplate inp;
                      depends_on := default [] (in_dependsOn inp); last_run_at := None; next_run_at := Some next;
                      s_createdAt := now; s_updatedAt := now |} in
          d ← insert_schedule s d; Ok (d, s)
    | None => Err ScheduleNotFoundError
    end in
  match r with
  | Ok (d, s) => (d, Ok s)
  | Err e => (d, Err e)
  end.

Definition getSchedule (t i : string) (d : db) : result schedule_error ScheduleRow :=
  or_throw ScheduleNotFoundError (findSchedule t i d).

Definition listSchedules (t : string) (cursor : option string) (limit : nat) (d : db) :
    list ScheduleRow * option string :=
  let rows := findSchedulesByTenantId t cursor limit d in
  (rows, page_cursor s_id limit rows).

(** [if (x !== undefined) check(x)] *)
Definition check_given {A} (check : A -> result schedule_error unit) (x : option A) : result schedule_error unit :=
  match x with Some a => check a | None => Ok tt end.

(** Up to the statement: what is to be written, with the next date computed
    from the row as it was read. *)
Definition updateSchedule_read (now : Z) (t i : string) (inp : UpdateScheduleInput) (d : db) :
    result schedule_error ScheduleUpdateInput :=
  existing ← getSchedule t i d;
  _ ← check_given validateCronExpression (ch_cronExpr inp);
  _ ← check_given validateTimezone (ch_timezone inp);
  next ← match ch_cronExpr inp, ch_timezone inp with
         | None, None => Ok None
         | c, z => Some <$> computeNextRunAt now (default (cron_expr existing) c) (default (timezone existing) z)
         end;
  Ok {| up_cron_expr := ch_cronExpr inp; up_timezone := ch_timezone inp; up_enabled := ch_enabled inp;
        up_input_template := ch_inputTemplate inp; up_depends_on := ch_dependsOn inp; up_next_run_at := next |}.

(** The statement: the row of the identifier, whatever it has become. *)
Definition updateSchedule_write (now : Z) (i : string) (u : ScheduleUpdateInput) (d : db) :
    db * result schedule_error ScheduleRow :=
  match update_schedule now i u d with
  | Ok (d', Some s) => (d', Ok s)
  | Ok (_, None) => (d, Err ScheduleNotFoundError)
  | Err e => (d, Err e)
  end.

(** The whole request, with nothing between its halves. *)
Definition updateSchedule (now : Z) (t i : string) (inp : UpdateScheduleInput) (d : db) :
    db * result schedule_error ScheduleRow :=
  match updateSchedule_read now t i inp d with
  | Ok u => updateSchedule_write now i u d
  | Err e => (d, Err e)
  end.

Definition deleteSchedule (t i : string) (d : db) : db * result schedule_error unit :=
  match getSchedule t i d with
  | Ok _ => (delete_schedule i d, Ok tt)
  | Err e => (d, Err e)
  end.

(** The latest run of the pipeline is completed. *)
Definition dependency_done (t : string) (d : db) (i : string) : bool :=
  match findRunsByTenantId t None 1 None (Some i) d with
  | r :: _ => bool_decide (row_status r = r_completed)
  | [] => false
  end.

(** [checkDependencies]: the pipelines that block. *)
Definition checkDependencies (t : string) (dependsOn : list string) (d : db) : list string :=
  List.filter (fun i => negb (dependency_done t d i)) dependsOn.

(** ** The tick *)

Inductive tick_end : Type :=
| TickFailed (e : schedule_error)
| TickBlocked (blocking : list string)
| TickLost                          (* another instance claimed it *)
| TickClaimed (r : result service_error string).

(** Up to the dependencies: the next date, from the row as it was read. *)
Definition tick_check (now : Z) (s : ScheduleRow) (d : db) : Z + tick_end :=
  match computeNextRunAt now (cron_expr s) (timezone s) with
  | Err e => inr (TickFailed e)
  | Ok next =>
      match checkDependencies (s_tenant s) (depends_on s) d with
      | [] => inl next
      | blocking => inr (TickBlocked blocking)
      end
  end.

(** The claim, and the run.  [asOf] is the time of the tick. *)
Definition tick_fire (fresh : string) (job_id : option string) (asOf now next : Z) (s : ScheduleRow) (st : run_state) :
    run_state * tick_end :=
  let '(d, claimed) := updateNextRunAt (s_id s) asOf next (default asOf (next_run_at s)) now (tables st) in
  let st := with_tables (fun _ => d) st in
  if claimed then
    let '(st, r) := triggerRun fresh job_id now (s_pipeline s) (s_tenant s) "schedule" (VObj 0%N (input_template s))
                      [("scheduleId", VStr (s_id s)); ("cronExpr", VStr (cron_expr s))] (Some (s_id s)) st in
    (st, TickClaimed r)
  else (st, TickLost).

Definition tick_one (fresh : string) (job_id : option string) (asOf now : Z) (s : ScheduleRow) (st : run_state) :
    run_state * tick_end :=
  match tick_check now s (tables st) with
  | inl next => tick_fire fresh job_id asOf now next s st
  | inr e => (st, e)
  end.

(** What a tick takes from outside for its k-th schedule: the time, what the
    database and the queue generate, and whether the service was stopped. *)
Record TickEnv : Type := {
  tick_clock : nat -> Z;
  tick_fresh : nat -> string;
  tick_job : nat -> option string;
  tick_stopped : nat -> bool
}.

Fixpoint tick_all (env : TickEnv) (asOf : Z) (k : nat) (due : list ScheduleRow) (st : run_state) : run_state :=
  match due with
  | [] => st
  | s :: due =>
      if tick_stopped env k then st
      else tick_all env asOf (S k) due (tick_one (tick_fresh env k) (tick_job env k) asOf (tick_clock env k) s st).1
  end.

Definition cronTick (env : TickEnv) (asOf : Z) (st : run_state) : run_state :=
  if tick_stopped env 0 then st else tick_all env asOf 1 (findDueSchedules asOf (tables st)) st.
End Service.
