(* ===== verification/StoreSpec.v ===== *)
(** * What the tables keep

    The invariant of the tables of pipelines, versions and runs under every
    operation of the two services and of the engine, rollback, the isolation of
    tenants, and the pages of runs. *)

From S2P Require Import Prelude JsString JsValue JsHost.
From S2P Require Import SsrfBlocklist PipelineDef ExecTracker EngineStep EngineRun EngineRunSpec.
From S2P Require Import SqlTable PipelineStore RunService ScheduleService.
From stdpp Require Import relations sets.

(** ** The invariant *)

(** The pipeline [i] belongs to tenant [t]. *)
Definition owned (d : db) (i t : string) : Prop := exists p, p ∈ pipelines d /\ p_id p = i /\ p_tenant p = t.

(** The checks of creation and update: a valid definition, no blocked webhook
    among its top-level steps. *)
Definition sound (d : PipelineDefinition) : Prop := check_definition d = Ok tt.

Record store_ok (d : db) : Prop := {
  ok_ids : NoDup (map p_id (pipelines d));
  ok_slugs : NoDup (map (fun p => (p_tenant p, p_slug p)) (pipelines d));
  ok_pipelines : forall p, p ∈ pipelines d ->
    sound (p_definition p) /\ name_not_empty (p_name p) = true /\ SLUG_RE (p_slug p) = true;
  ok_numbers : NoDup (map (fun v => (v_pipeline v, version_number v)) (versions d));
  ok_versions : forall v, v ∈ versions d -> (sound (v_definition v) /\ name_not_empty (name_at_version v) = true) /\
    exists p, p ∈ pipelines d /\ p_id p = v_pipeline v /\ p_tenant p = v_tenant v
              /\ (0 < version_number v <= current_version p)%nat;
  ok_schedule_ids : NoDup (map s_id (schedules d));
  ok_schedules : forall s, s ∈ schedules d -> owned d (s_pipeline s) (s_tenant s);
  ok_run_ids : NoDup (map row_id (runs d));
  ok_events : forall r r', r ∈ runs d -> r' ∈ runs d -> same_event r r' = true -> r = r';
  ok_runs : forall r, r ∈ runs d ->
    sound (definition_snapshot r) /\ owned d (row_pipelineId r) (row_tenantId r)
}.

Lemma owned_unique d i t p : store_ok d -> owned d i t -> p ∈ pipelines d -> p_id p = i -> p_tenant p = t.
Proof. intros H (q & Hq & <- & <-) Hp Hi. by rewrite (NoDup_map_inj _ _ _ _ (ok_ids _ H) Hp Hq Hi). Qed.

Lemma findById_spec d i p : findById i d = Some p -> p ∈ pipelines d /\ p_id p = i.
Proof. unfold findById. intros [? ?%String.eqb_eq]%find_row_spec. done. Qed.

Lemma getPipeline_spec t i d p : getPipeline t i d = Ok p -> p ∈ pipelines d /\ p_id p = i /\ p_tenant p = t.
Proof.
  unfold getPipeline, findByTenantAndId. destruct (find_row _ _) as [q|] eqn:E; [|done]. intros [= <-].
  apply find_row_spec in E as [? E]. unfold of_tenant in E. apply andb_true_iff in E as [?%String.eqb_eq ?%String.eqb_eq]. done.
Qed.

Lemma getPipeline_ok t i d : store_ok d -> owned d i t -> exists p, getPipeline t i d = Ok p /\ findById i d = Some p.
Proof.
  intros H (p & Hp & <- & <-).
  assert (Hu : forall q, q ∈ pipelines d -> p_id q = p_id p -> q = p).
  { intros q Hq E. by apply (NoDup_map_inj _ _ _ _ (ok_ids _ H)). }
  exists p. unfold getPipeline, findByTenantAndId, findById.
  rewrite !(find_row_unique _ _ p); try done.
  - by rewrite String.eqb_refl.
  - intros q Hq E%String.eqb_eq. by apply Hu.
  - unfold of_tenant. by rewrite !String.eqb_refl.
  - unfold of_tenant. intros q Hq [E%String.eqb_eq _]%andb_true_iff. by apply Hu.
Qed.

(** A change of pipelines that keeps identifiers, tenants and slugs, and does not
    lower versions, keeps what refers to them. *)
Lemma owned_update d f g i t :
  (forall p, p_id (f p) = p_id p /\ p_tenant (f p) = p_tenant p) ->
  owned d i t -> owned (with_pipelines (update_where g f) d) i t.
Proof.
  intros Hf (p & Hp & <- & <-). exists (if g p then f p else p). split_and!.
  - cbn. unfold update_where. by apply (list_elem_of_fmap_2 (fun r => if g r then f r else r)).
  - destruct (g p); [apply Hf|done].
  - destruct (g p); [apply Hf|done].
Qed.

(** ** Each statement keeps the invariant *)

Lemma insert_pipeline_ok r d d' :
  store_ok d -> sound (p_definition r) -> insert_pipeline r d = Ok d' -> store_ok d'.
Proof.
  intros H Hr. unfold insert_pipeline. destruct (existsb _ _) eqn:E; [done|]. destruct (_ && _) eqn:En; [|done]. intros [= <-].
  apply andb_true_iff in En as [En1 En2].
  assert (Hnew : forall x, x ∈ pipelines d -> p_id x <> p_id r /\ (p_tenant x, p_slug x) <> (p_tenant r, p_slug r)).
  { intros x Hx. pose proof (existsb_false _ _ _ E Hx) as Hf. cbn in Hf. apply orb_false_iff in Hf as [H1 H2].
    apply String.eqb_neq in H1. split; [done|]. intros [= H3 H4]. by rewrite H3, H4, !String.eqb_refl in H2. }
  assert (Hown : forall i t, owned d i t -> owned (with_pipelines (fun l => l ++ [r]) d) i t).
  { intros i t (p & Hp & ?). exists p. split; [cbn; set_solver|done]. }
  destruct H. split; cbn; try done.
  - apply NoDup_map_snoc; [done|]. intros (x & Hx & Hin)%list_elem_of_fmap. by destruct (Hnew x Hin).
  - apply NoDup_map_snoc; [done|]. intros (x & Hx & Hin)%list_elem_of_fmap. by destruct (Hnew x Hin).
  - intros p [Hp| ->%list_elem_of_singleton]%elem_of_app; auto.
  - intros v Hv. destruct (ok_versions0 v Hv) as (? & p & Hp & ?). split; [done|]. exists p. split; [set_solver|done].
  - intros s Hs. apply Hown. auto.
  - intros x Hx. destruct (ok_runs0 x Hx). split; [done|]. by apply Hown.
Qed.

Lemma with_schedules_ok f d :
  store_ok d -> NoDup (map s_id (f (schedules d))) ->
  (forall s, s ∈ f (schedules d) -> owned d (s_pipeline s) (s_tenant s)) -> store_ok (with_schedules f d).
Proof. intros [H1 H2 H3 H4 H5 Hsi H6 H7 He H8] Hi Hf. by split. Qed.

Lemma update_schedules_ok p f d :
  store_ok d -> (forall s, s_id (f s) = s_id s /\ s_pipeline (f s) = s_pipeline s /\ s_tenant (f s) = s_tenant s) ->
  store_ok (with_schedules (update_where p f) d).
Proof.
  intros H Hf. apply with_schedules_ok; [done| |].
  { rewrite map_update_where; [apply (ok_schedule_ids _ H)|intros; apply Hf]. }
  intros s [Hs|(s0 & Hs & _ & ->)]%elem_of_update_where.
  - by apply (ok_schedules _ H).
  - destruct (Hf s0) as (_ & -> & ->). by apply (ok_schedules _ H).
Qed.

Lemma disable_ok now i d : store_ok d -> store_ok (disableByPipelineId now i d).
Proof. intros H. by apply update_schedules_ok. Qed.

Lemma insert_version_ok r user d d' :
  store_ok d -> r ∈ pipelines d -> insert_version (snapshot_row r user) d = Ok d' ->
  d' = with_versions (fun l => l ++ [snapshot_row r user]) d.
Proof. intros _ _. unfold insert_version. destruct (existsb _ _); [done|]. by intros [= <-]. Qed.

(** The snapshot of an update never clashes with an earlier one. *)
Lemma insert_version_total r user d :
  store_ok d -> r ∈ pipelines d ->
  insert_version (snapshot_row r user) d = Ok (with_versions (fun l => l ++ [snapshot_row r user]) d).
Proof.
  intros H Hr. unfold insert_version. destruct (existsb _ _) eqn:E; [|done]. exfalso.
  apply existsb_elem in E as (v & Hv & E). apply andb_true_iff in E as [E1%String.eqb_eq E2%Nat.eqb_eq].
  destruct (ok_versions _ H v Hv) as (_ & p & Hp & Hi & _ & Hn). cbn in E1, E2.
  assert (p = r) as -> by (apply (NoDup_map_inj _ _ _ _ (ok_ids _ H) Hp Hr); congruence). lia.
Qed.

Lemma set_fields_spec now u r :
  p_id (set_fields now u r) = p_id r /\ p_tenant (set_fields now u r) = p_tenant r /\
  p_slug (set_fields now u r) = p_slug r /\ current_version (set_fields now u r) = S (current_version r).
Proof. done. Qed.

(** The tables after a successful update of a row of the table. *)
Definition updated_db (now : Z) (i : string) (u : UpdatePipelineInput) (updatedBy : option string) (r : PipelineRow) (d : db) : db :=
  with_pipelines (update_where (fun r => String.eqb (p_id r) i) (set_fields now u))
    (match updatedBy with Some user => with_versions (fun l => l ++ [snapshot_row r user]) d | None => d end).

Lemma update_pipeline_spec now i u by_ d r :
  store_ok d -> findById i d = Some r -> no_fields u = false ->
  update_pipeline now i u by_ d =
  if name_not_empty (p_name (set_fields now u r)) then Ok (updated_db now i u by_ r d, Some (set_fields now u r))
  else Err CheckViolation.
Proof.
  intros H Hr Hu. unfold update_pipeline. rewrite Hu, Hr. destruct (findById_spec _ _ _ Hr) as [Hin Hi].
  assert (Hins : match by_ with Some user => insert_version (snapshot_row r user) d | None => Ok d end
    = Ok (match by_ with Some user => with_versions (fun l => l ++ [snapshot_row r user]) d | None => d end)).
  { destruct by_; [by apply insert_version_total|done]. }
  rewrite Hins. cbn [mbind result_mbind result_bind]. fold (updated_db now i u by_ r d).
  assert (Hfind : findById i (updated_db now i u by_ r d) = Some (set_fields now u r)); [|by rewrite Hfind].
  unfold findById. apply find_row_unique; cbn.
  - assert (Hp : pipelines (match by_ with Some user => with_versions (fun l => l ++ [snapshot_row r user]) d | None => d end) = pipelines d)
      by by destruct by_.
    rewrite Hp. unfold update_where. apply list_elem_of_fmap. exists r. by rewrite Hi, String.eqb_refl.
  - by rewrite Hi, String.eqb_refl.
  - assert (Hp : pipelines (match by_ with Some user => with_versions (fun l => l ++ [snapshot_row r user]) d | None => d end) = pipelines d)
      by by destruct by_.
    rewrite Hp. unfold update_where. intros y (x & -> & Hx)%list_elem_of_fmap E.
    assert (p_id x = i) as Hxi by (destruct (String.eqb_spec (p_id x) i); [done|]; by apply String.eqb_eq in E).
    rewrite Hxi, String.eqb_refl. f_equal. apply (NoDup_map_inj _ _ _ _ (ok_ids _ H) Hx Hin). congruence.
Qed.

(** The definition an update leaves. *)
Definition update_valid (u : UpdatePipelineInput) : Prop :=
  match u_definition u with Some def => sound def | None => True end.

Lemma updated_db_ok now i u by_ d r :
  store_ok d -> findById i d = Some r -> update_valid u -> name_not_empty (p_name (set_fields now u r)) = true ->
  store_ok (updated_db now i u by_ r d).
Proof.
  intros H Hr Hu Hname. destruct (findById_spec _ _ _ Hr) as [Hin Hi].
  assert (Hone : forall q, q ∈ pipelines d -> p_id q = i -> q = r).
  { intros q Hq E. apply (NoDup_map_inj _ _ _ _ (ok_ids _ H) Hq Hin). congruence. }
  destruct H as [H1 H2 H3 H4 H5 Hsi H6 H7 He H8].
  set (d0 := match by_ with Some user => with_versions (fun l => l ++ [snapshot_row r user]) d | None => d end).
  set (g := fun r => String.eqb (p_id r) i).
  assert (Hp : pipelines d0 = pipelines d) by by unfold d0; destruct by_.
  assert (Hrest : schedules d0 = schedules d /\ runs d0 = runs d) by by unfold d0; destruct by_.
  destruct Hrest as [Hs Hrun].
  assert (Hown : forall j t, owned d j t -> owned (with_pipelines (update_where g (set_fields now u)) d0) j t).
  { intros j t (p & Hq & ?). apply owned_update; [done|]. exists p. by rewrite Hp. }
  assert (Hmax : forall p, p ∈ pipelines d -> exists p', p' ∈ update_where g (set_fields now u) (pipelines d) /\
    p_id p' = p_id p /\ p_tenant p' = p_tenant p /\ (current_version p <= current_version p')%nat
    /\ (g p = true -> current_version p' = S (current_version p))).
  { intros p Hq. exists (if g p then set_fields now u p else p). split; [by apply (list_elem_of_fmap_2 (fun r => if g r then _ r else r))|].
    destruct (g p); cbn; split_and!; try done; lia. }
  split; unfold updated_db; cbn; fold d0; rewrite ?Hp, ?Hs, ?Hrun; fold g.
  - by rewrite map_update_where.
  - by rewrite map_update_where.
  - intros p [Hq|(q & Hq & E%String.eqb_eq & ->)]%elem_of_update_where; [by apply H3|].
    rewrite (Hone q Hq E). destruct (H3 r Hin) as (Hd & _ & ?). split; [|done]. unfold update_valid in Hu.
    cbn. by destruct (u_definition u).
  - unfold d0. destruct by_ as [user|]; [|done]. cbn. apply NoDup_map_snoc; [done|].
    intros (v & E & Hv)%list_elem_of_fmap. injection E as E1 E2.
    destruct (H5 v Hv) as (_ & p & Hq & E3 & _ & E4).
    assert (p = r) as -> by (apply (NoDup_map_inj _ _ _ _ H1 Hq Hin); congruence). lia.
  - intros v Hv. assert (Hv' : v ∈ versions d \/ exists user, v = snapshot_row r user).
    { unfold d0 in Hv. destruct by_ as [user|]; [|by left]. cbn in Hv.
      apply elem_of_app in Hv as [?| ->%list_elem_of_singleton]; [by left|right; by eexists]. }
    destruct Hv' as [Hv'|[user ->]].
    + destruct (H5 v Hv') as (? & p & Hq & <- & <- & ?). split; [done|].
      destruct (Hmax p Hq) as (p' & ? & ? & ? & ? & _). exists p'. split_and!; try done; lia.
    + cbn. split; [split; apply (H3 r Hin)|]. destruct (Hmax r Hin) as (p' & ? & ? & ? & ? & E). exists p'.
      rewrite E by (unfold g; by apply String.eqb_eq). split_and!; try done; lia.
  - done.
  - intros s Hq. by apply Hown, H6.
  - done.
  - exact He.
  - intros x Hx. destruct (H8 x Hx). split; [done|]. by apply Hown.
Qed.

Lemma update_pipeline_ok now i u by_ d d' r r' :
  store_ok d -> findById i d = Some r -> update_valid u -> update_pipeline now i u by_ d = Ok (d', r') -> store_ok d'.
Proof.
  intros H Hr Hu E. destruct (no_fields u) eqn:En; [unfold update_pipeline in E; by rewrite En in E|].
  rewrite (update_pipeline_spec _ _ _ _ _ r) in E by done. destruct (name_not_empty _) eqn:Ename; [|done].
  injection E as <- _. by apply updated_db_ok.
Qed.

Lemma updatePipeline_ok now t i u by_ d : store_ok d -> store_ok (updatePipeline now t i u by_ d).1.
Proof.
  intros H. unfold updatePipeline. destruct (getPipeline t i d) as [p|e] eqn:Eg; [|done]. cbn [mbind result_mbind result_bind].
  destruct (match u_definition u with Some def => check_definition def | None => Ok tt end) as [[]|e] eqn:Ec; [|done].
  assert (Hu : update_valid u).
  { unfold update_valid. by destruct (u_definition u). }
  set (d1 := match u_active u with Some false => disableByPipelineId now i d | _ => d end).
  assert (H1 : store_ok d1) by (unfold d1; destruct (u_active u) as [[]|]; [done|by apply disable_ok|done]).
  assert (Hf : exists r, findById i d1 = Some r).
  { apply getPipeline_spec in Eg as (Hp & <- & <-). destruct (getPipeline_ok (p_tenant p) (p_id p) d1) as (r & _ & ?); [done| |by exists r].
    exists p. split; [|done]. unfold d1. by destruct (u_active u) as [[]|]. }
  destruct Hf as [r Hr]. destruct (update_pipeline _ _ _ _ _) as [[d2 [r2|]]|e] eqn:Eu; cbn; [| |done];
    by eapply update_pipeline_ok.
Qed.

Lemma elem_of_drop_rows {A} (p : A -> bool) l x : x ∈ List.filter (fun y => negb (p y)) l <-> x ∈ l /\ p x = false.
Proof. rewrite elem_of_bfilter. by rewrite negb_true_iff. Qed.

Lemma delete_pipeline_ok i d : store_ok d -> store_ok (delete_pipeline i d).
Proof.
  intros [H1 H2 H3 H4 H5 Hsi H6 H7 He H8].
  assert (Hown : forall j t, j <> i -> owned d j t -> owned (delete_pipeline i d) j t).
  { intros j t Hj (p & Hp & <- & <-). exists p. split; [|done]. cbn. apply elem_of_drop_rows. split; [done|by apply String.eqb_neq]. }
  split; cbn; try by apply NoDup_map_bfilter.
  - intros p [Hp _]%elem_of_drop_rows. by apply H3.
  - intros v [Hv Hi%String.eqb_neq]%elem_of_drop_rows. destruct (H5 v Hv) as (? & p & Hp & E & ?). split; [done|].
    exists p. split; [|done]. apply elem_of_drop_rows. split; [done|]. apply String.eqb_neq. congruence.
  - intros s [Hs Hi%String.eqb_neq]%elem_of_drop_rows. by apply Hown, H6.
  - intros r r' [Hr _]%elem_of_drop_rows [Hr' _]%elem_of_drop_rows. by apply He.
  - intros r [Hr Hi%String.eqb_neq]%elem_of_drop_rows. destruct (H8 r Hr). split; [done|]. by apply Hown.
Qed.

Lemma same_event_sym a b : same_event a b = same_event b a.
Proof.
  unfold same_event. destruct (event_key a) as [k|], (event_key b) as [k'|]; try done; try by rewrite bool_decide_eq_false_2.
  apply bool_decide_ext. split; by intros [= ->].
Qed.

Lemma insert_run_ok r d d' :
  store_ok d -> sound (definition_snapshot r) ->
  (forall p, p ∈ pipelines d -> p_id p = row_pipelineId r -> p_tenant p = row_tenantId r) ->
  insert_run r d = Ok d' -> store_ok d'.
Proof.
  intros [H1 H2 H3 H4 H5 Hsi H6 H7 He H8] Hr Ht. unfold insert_run. destruct (existsb _ (runs d)) eqn:E; [done|].
  destruct (existsb _ (pipelines d)) eqn:Ep; [|done]. intros [= <-].
  apply existsb_elem in Ep as (p & Hp & Hi%String.eqb_eq).
  assert (Hnew : forall x, x ∈ runs d -> row_id x <> row_id r /\ same_event x r = false).
  { intros x Hx. apply (existsb_false _ _ _ E) in Hx. apply orb_false_iff in Hx as [?%String.eqb_neq ?]. done. }
  split; cbn; try done.
  - apply NoDup_map_snoc; [done|]. intros (x & Hx & Hin)%list_elem_of_fmap. by destruct (Hnew x Hin).
  - intros x y [Hx| ->%list_elem_of_singleton]%elem_of_app [Hy| ->%list_elem_of_singleton]%elem_of_app Hs; [by apply He| | |done].
    + destruct (Hnew x Hx); congruence.
    + rewrite same_event_sym in Hs. destruct (Hnew y Hy); congruence.
  - intros x [Hx| ->%list_elem_of_singleton]%elem_of_app; [by apply H8|]. split; [done|]. exists p. eauto.
Qed.

(** What no statement changes in a run's row. *)
Definition run_identity (r : RunRow) : string * string * string * PipelineDefinition * Z * option (string * string) :=
  (row_id r, row_pipelineId r, row_tenantId r, definition_snapshot r, row_createdAt r, event_key r).

Lemma update_runs_ok p f d :
  store_ok d -> (forall r, r ∈ runs d -> p r = true -> run_identity (f r) = run_identity r) ->
  store_ok (with_runs (update_where p f) d).
Proof.
  intros [H1 H2 H3 H4 H5 Hsi H6 H7 He H8] Hf. split; cbn; try done.
  - assert (E : map row_id (update_where p f (runs d)) = map row_id (runs d)); [|by rewrite E].
    unfold update_where. rewrite map_map. apply map_ext_in. intros x Hx%list_elem_of_In. destruct (p x) eqn:E; [|done].
    by injection (Hf x Hx E).
  - assert (Hkey : forall x, x ∈ runs d -> event_key (if p x then f x else x) = event_key x).
    { intros x Hx. destruct (p x) eqn:E; [|done]. by injection (Hf x Hx E). }
    unfold update_where. intros r r' (x & -> & Hx)%list_elem_of_fmap (y & -> & Hy)%list_elem_of_fmap Hs.
    assert (x = y) as ->; [|done]. apply He; [done..|]. unfold same_event in *. by rewrite <- (Hkey x Hx), <- (Hkey y Hy).
  - intros x [Hx|(y & Hy & E & ->)]%elem_of_update_where; [by apply H8|]. injection (Hf y Hy E) as E1 E2 E3 E4 _ _.
    rewrite E2, E3, E4. by apply H8.
Qed.

(** ** Schedules *)

Lemma createSchedule_spec `{CronParser} fresh now t inp d :
  let d' := (createSchedule fresh now t inp d).1 in
  d' = d \/ exists s, d' = with_schedules (fun l => l ++ [s]) d /\ s_id s = fresh /\ s_tenant s = t /\ fresh ∉ map s_id (schedules d) /\ owned d (s_pipeline s) (s_tenant s)
    /\ exists next, next_run_at s = Some next /\ computeNextRunAt now (cron_expr s) (timezone s) = Ok next.
Proof.
  unfold createSchedule. destruct (_ ← _; _) as [[d' s]|e] eqn:E; [|by left]. right. cbn [fst].
  apply bind_ok in E as (? & _ & E). apply bind_ok in E as (? & _ & E).
  destruct (findById _ d) as [p|] eqn:Ef; [|done]. apply findById_spec in Ef as [Hp Hi].
  destruct (String.eqb_spec (p_tenant p) t) as [Ht|]; [|done]. cbn [negb] in E.
  apply bind_ok in E as (next & Hnext & E). cbn zeta in E. apply bind_ok in E as (d1 & Hins & [= <- <-]).
  unfold insert_schedule in Hins. destruct (existsb _ (schedules d)) eqn:Ee; [done|]. cbn [orb] in Hins.
  destruct (_ || _); [done|]. injection Hins as <-.
  eexists. split; [done|]. cbn. split_and!; [done|done| |by exists p|by exists next].
  intros (s9 & Hx & Hin)%list_elem_of_fmap. apply (existsb_false _ _ _ Ee) in Hin. by rewrite Hx, String.eqb_refl in Hin.
Qed.

Lemma update_schedule_spec now i u d d' r :
  update_schedule now i u d = Ok (d', r) ->
  d' = with_schedules (update_where (fun s => String.eqb (s_id s) i) (set_schedule now u)) d.
Proof.
  unfold update_schedule. destruct (no_schedule_fields u); [done|]. cbn zeta. destruct (find_row _ _); [|by intros [= <- _]].
  destruct (_ && _); [|done]. by intros [= <- _].
Qed.

Lemma updateSchedule_read_spec `{CronParser} now t i inp d u :
  updateSchedule_read now t i inp d = Ok u ->
  (exists s0, findSchedule t i d = Some s0)
  /\ match up_next_run_at u with Some next => exists e tz, computeNextRunAt now e tz = Ok next | None => True end.
Proof.
  unfold updateSchedule_read. intros E.
  apply bind_ok in E as (s0 & Hs0 & E). apply bind_ok in E as (? & _ & E). apply bind_ok in E as (? & _ & E).
  apply bind_ok in E as (next & Hnext & [= <-]). unfold getSchedule in Hs0. destruct (findSchedule t i d) as [s2|]; [|done].
  split; [by eexists|]. cbn. destruct next as [n|]; [|done].
  destruct (ch_cronExpr inp), (ch_timezone inp); try done;
    (destruct (computeNextRunAt _ _ _) as [n'|] eqn:En; [|done]); injection Hnext as ->; eauto.
Qed.

Lemma updateSchedule_write_spec now i u d :
  let d' := (updateSchedule_write now i u d).1 in
  d' = d \/ d' = with_schedules (update_where (fun s => String.eqb (s_id s) i) (set_schedule now u)) d.
Proof.
  unfold updateSchedule_write. destruct (update_schedule now i u d) as [[d' [s|]]|e] eqn:E; [|by left..].
  right. by eapply update_schedule_spec.
Qed.

Lemma updateSchedule_spec `{CronParser} now t i inp d :
  let d' := (updateSchedule now t i inp d).1 in
  d' = d \/ exists s0 u, findSchedule t i d = Some s0 /\
    d' = with_schedules (update_where (fun s => String.eqb (s_id s) i) (set_schedule now u)) d
    /\ match up_next_run_at u with Some next => exists e tz, computeNextRunAt now e tz = Ok next | None => True end.
Proof.
  unfold updateSchedule. destruct (updateSchedule_read _ _ _ _ _) as [u|e] eqn:E; [|by left].
  apply updateSchedule_read_spec in E as [[s0 Hs0] Hn].
  destruct (updateSchedule_write_spec now i u d) as [->| ->]; [by left|]. right. by exists s0, u.
Qed.

(** ** The operations that write, and their interleavings *)

Inductive service_call : Type :=
| Create (fresh uuid : string) (now : Z) (user : string) (c : CreatePipelineInput)
| Update (now : Z) (i : string) (u : UpdatePipelineInput) (updatedBy : option string)
| DeletePipeline (i : string)
| Rollback (now : Z) (i : string) (n : nat) (user : string)
| Trigger (fresh : string) (job_id : option string) (now : Z) (i by_ : string) (input : value) (meta : obj) (actor : option string)
| Cancel (now : Z) (i : string)
| Replay (fresh : string) (job_id : option string) (now : Z) (i executionId : string) (actor : option string)
| CreateSchedule (fresh : string) (now : Z) (inp : CreateScheduleInput)
| UpdateSchedule (now : Z) (i : string) (inp : UpdateScheduleInput)
| DeleteSchedule (i : string).

Section Steps.
Context {C : CronParser}.

(** The state a request of tenant [t] leaves. *)
Definition serve (t : string) (q : service_call) (st : run_state) : run_state :=
  match q with
  | Create fresh uuid now user c => with_tables (fun d => (createPipeline fresh uuid now t user c d).1) st
  | Update now i u by_ => with_tables (fun d => (updatePipeline now t i u by_ d).1) st
  | DeletePipeline i => with_tables (fun d => (deletePipeline t i d).1) st
  | Rollback now i n user => with_tables (fun d => (rollbackToVersion now t i n user d).1) st
  | Trigger fresh job now i by_ input meta actor => (triggerRun fresh job now i t by_ input meta actor st).1
  | Cancel now i => (cancelRun now t i st).1
  | Replay fresh job now i e actor => (replayRun fresh job now i t e actor st).1
  | CreateSchedule fresh now inp => with_tables (fun d => (createSchedule fresh now t inp d).1) st
  | UpdateSchedule now i inp => with_tables (fun d => (updateSchedule now t i inp d).1) st
  | DeleteSchedule i => with_tables (fun d => (deleteSchedule t i d).1) st
  end.

Lemma trigger_check_spec i t d p :
  trigger_check i t d = Ok p -> p ∈ pipelines d /\ p_id p = i /\ p_tenant p = t.
Proof.
  unfold trigger_check. destruct (findById i d) as [q|] eqn:E; [|done]. apply findById_spec in E as [Hq Hi].
  destruct (String.eqb_spec (p_tenant q) t) as [Ht|]; [|done]. cbn [negb]. destruct (p_active q); [|done]. cbn [negb].
  destruct (options _ ≫= _) as [[]|]; [by intros [= <-]| |by intros [= <-]]. cbn zeta.
  destruct (_ <? _)%nat; [done|by intros [= <-]].
Qed.

(** A run about to be written: its snapshot is valid, its tenant owns its pipeline. *)
Definition run_fits (d : db) (r : RunRow) : Prop :=
  sound (definition_snapshot r)
  /\ forall p, p ∈ pipelines d -> p_id p = row_pipelineId r -> p_tenant p = row_tenantId r.

Lemma new_run_fits fresh now t i by_ input meta actor d p :
  store_ok d -> trigger_check i t d = Ok p -> run_fits d (new_run fresh now t by_ input meta actor p).
Proof.
  intros H (Hp & _ & <-)%trigger_check_spec. split; [by apply (ok_pipelines _ H)|]. cbn. intros q Hq E.
  by rewrite (NoDup_map_inj _ _ _ _ (ok_ids _ H) Hq Hp E).
Qed.

Lemma trigger_write_ok fresh job r st :
  store_ok (tables st) -> run_fits (tables st) r -> store_ok (tables (trigger_write fresh job r st).1).
Proof.
  intros H [H1 H2]. unfold trigger_write. destruct (insert_run r (tables st)) as [d|e] eqn:E; [|done]. cbn.
  pose proof (insert_run_ok _ _ _ H H1 H2 E). destruct job; [|done]. by apply update_runs_ok.
Qed.

Lemma triggerRun_ok fresh job now i t by_ input meta actor st :
  store_ok (tables st) -> store_ok (tables (triggerRun fresh job now i t by_ input meta actor st).1).
Proof.
  intros H. unfold triggerRun. destruct (trigger_check i t (tables st)) as [p|e] eqn:E; [|done].
  apply trigger_write_ok; [done|]. by eapply new_run_fits.
Qed.

Lemma createPipeline_ok fresh uuid now t user c d : store_ok d -> store_ok (createPipeline fresh uuid now t user c d).1.
Proof.
  intros H. unfold createPipeline. destruct (check_definition (c_definition c)) as [[]|e] eqn:Ec; [|done].
  cbn [mbind result_mbind result_bind]. destruct (insert_pipeline _ d) as [d'|e] eqn:Ei; [|done]. cbn.
  by eapply insert_pipeline_ok; [done| |exact Ei].
Qed.

Lemma rollback_ok now t i n user d : store_ok d -> store_ok (rollbackToVersion now t i n user d).1.
Proof.
  intros H. unfold rollbackToVersion. destruct (getVersion t i n d); [|done].
  destruct (validateDefinition _); [|done]. by apply updatePipeline_ok.
Qed.

Lemma serve_ok t q st : store_ok (tables st) -> store_ok (tables (serve t q st)).
Proof.
  intros H. destruct q; cbn [serve].
  - by apply createPipeline_ok.
  - by apply updatePipeline_ok.
  - cbn. unfold deletePipeline. destruct (getPipeline t i (tables st)); [|done]. cbn zeta.
    destruct (_ <? _)%nat; [done|]. by apply delete_pipeline_ok.
  - by apply rollback_ok.
  - by apply triggerRun_ok.
  - unfold cancelRun. destruct (findRun _ _ _); [|done]. by destruct (TERMINAL_STATUSES _).
  - unfold replayRun. destruct (findRun _ _ _) as [r|]; [|done]. destruct (negb _); [done|].
    pose proof (triggerRun_ok fresh job_id now i t "manual" (row_input r) [("replayOf", VStr executionId)] actor st H) as Ht.
    by destruct (triggerRun _ _ _ _ _ _ _ _ _ _).
  - cbn. destruct (createSchedule_spec fresh now t inp (tables st)) as [->|(s & -> & <- & _ & Hnew & Hs & _)]; [done|].
    apply with_schedules_ok; [done|apply NoDup_map_snoc; [apply (ok_schedule_ids _ H)|done]|]. intros x [Hx| ->%list_elem_of_singleton]%elem_of_app; [by apply (ok_schedules _ H)|done].
  - cbn. destruct (updateSchedule_spec now t i inp (tables st)) as [->|(s & u & _ & -> & _)]; [done|].
    by apply update_schedules_ok.
  - cbn. unfold deleteSchedule. destruct (getSchedule t i (tables st)); [|done]. apply with_schedules_ok; [done|apply NoDup_map_bfilter, (ok_schedule_ids _ H)|].
    intros x [Hx _]%elem_of_drop_rows. by apply (ok_schedules _ H).
Qed.

(** The second half of a tick, for whatever row its first half has read. *)
Lemma tick_fire_ok fresh job asOf now next s st :
  store_ok (tables st) -> store_ok (tables (tick_fire fresh job asOf now next s st).1).
Proof.
  intros H. unfold tick_fire, updateNextRunAt. set (d := with_schedules _ _).
  assert (Hd : store_ok d) by by apply update_schedules_ok.
  destruct (existsb _ _); [|done].
  pose proof (triggerRun_ok fresh job now (s_pipeline s) (s_tenant s) "schedule" (VObj 0%N (input_template s))
    [("scheduleId", VStr (s_id s)); ("cronExpr", VStr (cron_expr s))] (Some (s_id s)) (with_tables (fun _ => d) st) Hd) as Ht.
  by destruct (triggerRun _ _ _ _ _ _ _ _ _ _).
Qed.

(** Identifiers are never used twice: not for a pipeline that a trigger under
    way has read. *)
Definition unused (q : service_call) (flight : list RunRow) : Prop :=
  match q with Create fresh _ _ _ _ => fresh ∉ map row_pipelineId flight | _ => True end.

(** The services, the engine's writes to the rows of runs, and triggers whose
    checks and writes other steps come between: [flight] holds the rows that
    passed the checks and are not written yet. *)
Inductive step : run_state * list RunRow -> run_state * list RunRow -> Prop :=
| step_serve t q st flight : unused q flight -> step (st, flight) (serve t q st, flight)
| step_check fresh now i t by_ input meta actor p st flight :
    trigger_check i t (tables st) = Ok p ->
    step (st, flight) (st, new_run fresh now t by_ input meta actor p :: flight)
| step_tick fresh job asOf now next s st flight :
    step (st, flight) ((tick_fire fresh job asOf now next s st).1, flight)
| step_write job r st flight flight' :
    flight ≡ₚ r :: flight' -> step (st, flight) ((trigger_write (row_id r) job r st).1, flight')
| step_start i now st flight :
    step (st, flight) (with_tables (with_runs (update_where (fun r => String.eqb (row_id r) i) (started_row now))) st, flight)
| step_end i s now err st flight :
    step (st, flight) (with_tables (with_runs (update_where (fun r => String.eqb (row_id r) i) (ended_row s now err))) st, flight).

Definition empty_state : run_state :=
  {| tables := {| pipelines := []; versions := []; schedules := []; runs := [] |}; queue := []; flags := [] |}.

(** No operation but creation makes a pipeline, or gives it to another tenant. *)
Definition no_new (d d' : db) : Prop := forall p, p ∈ pipelines d' -> owned d (p_id p) (p_tenant p).

Lemma no_new_refl d d' : pipelines d' = pipelines d -> no_new d d'.
Proof. intros E p Hp. rewrite E in Hp. by exists p. Qed.

Lemma update_pipeline_no_new now i u by_ d d' r : update_pipeline now i u by_ d = Ok (d', r) -> no_new d d'.
Proof.
  unfold update_pipeline. destruct (no_fields u); [done|].
  set (snap := match findById i d, by_ with Some r, Some user => _ | _, _ => _ end).
  destruct snap as [d1|e] eqn:E; [|done]. cbn [mbind result_mbind result_bind].
  assert (Hp : pipelines d1 = pipelines d).
  { revert E. unfold snap, insert_version. destruct (findById i d), by_; try by intros [= <-].
    destruct (existsb _ _); [done|by intros [= <-]]. }
  assert (Hn : no_new d (with_pipelines (update_where (fun r => String.eqb (p_id r) i) (set_fields now u)) d1)).
  { intros p Hq. cbn in Hq. rewrite Hp in Hq. apply elem_of_update_where in Hq as [Hq|(q & Hq & _ & ->)]; [by exists p|by exists q]. }
  clear E snap. destruct (findById i _) as [r1|]; [|by intros [= <- _]]. destruct (name_not_empty _); [|done]. by intros [= <- _].
Qed.

Lemma updatePipeline_no_new now t i u by_ d : no_new d (updatePipeline now t i u by_ d).1.
Proof.
  unfold updatePipeline. destruct (_ ← _; _); [|by apply no_new_refl]. cbn zeta.
  set (d1 := match u_active u with Some false => disableByPipelineId now i d | _ => d end).
  assert (H1 : pipelines d1 = pipelines d) by by unfold d1; destruct (u_active u) as [[]|].
  destruct (update_pipeline _ _ _ _ d1) as [[d2 [r|]]|e] eqn:E; [| |by apply no_new_refl];
    apply update_pipeline_no_new in E; intros p Hp; destruct (E p Hp) as (q & Hq & ?); exists q; by rewrite H1 in Hq.
Qed.

Lemma trigger_write_pipelines fresh job r st : pipelines (tables (trigger_write fresh job r st).1) = pipelines (tables st).
Proof.
  unfold trigger_write, insert_run. destruct (existsb _ _); [done|]. destruct (existsb _ _); [|done]. by destruct job.
Qed.

Lemma triggerRun_pipelines fresh job now i t by_ input meta actor st :
  pipelines (tables (triggerRun fresh job now i t by_ input meta actor st).1) = pipelines (tables st).
Proof. unfold triggerRun. destruct (trigger_check _ _ _); [|done]. apply trigger_write_pipelines. Qed.

Lemma serve_pipelines t q st p :
  p ∈ pipelines (tables (serve t q st)) ->
  owned (tables st) (p_id p) (p_tenant p) \/ (p_tenant p = t /\ match q with Create fresh _ _ _ _ => p_id p = fresh | _ => False end).
Proof.
  destruct q as [fresh uuid now user c|now i u by_|i|now i n user|fresh job now i by_ input meta actor|now i|fresh job now i e actor|fresh now inp|now i inp|i];
    cbn [serve tables with_tables].
  - unfold createPipeline. destruct (_ ← _; _) as [d'|e] eqn:E; [|intros Hp; left; by exists p].
    destruct (check_definition _); [|done]. cbn [mbind result_mbind result_bind] in E. unfold insert_pipeline in E.
    destruct (existsb _ _); [done|]. destruct (_ && _); [|done]. injection E as <-. cbn.
    intros [Hp| ->%list_elem_of_singleton]%elem_of_app; [left; by exists p|by right].
  - intros Hp. left. exact (updatePipeline_no_new _ _ _ _ _ _ p Hp).
  - intros Hp. left. exists p. split; [|done]. revert Hp. unfold deletePipeline. destruct (getPipeline _ _ _); [|done]. cbn zeta.
    destruct (_ <? _)%nat; [done|]. cbn. by intros [? _]%elem_of_drop_rows.
  - intros Hp. left. revert p Hp. unfold rollbackToVersion. destruct (getVersion _ _ _ _); [|by apply no_new_refl].
    destruct (validateDefinition _); [|by apply no_new_refl]. apply updatePipeline_no_new.
  - rewrite triggerRun_pipelines. intros Hp. left. by exists p.
  - unfold cancelRun. destruct (findRun _ _ _); [|left; by exists p]. destruct (TERMINAL_STATUSES _); left; by exists p.
  - unfold replayRun. destruct (findRun _ _ _) as [r|]; [|left; by exists p]. destruct (negb _); [left; by exists p|].
    pose proof (triggerRun_pipelines fresh job now i t "manual" (row_input r) [("replayOf", VStr e)] actor st) as Ht.
    destruct (triggerRun _ _ _ _ _ _ _ _ _ _). cbn in Ht |- *. rewrite Ht. left. by exists p.
  - destruct (createSchedule_spec fresh now t inp (tables st)) as [->|(s & -> & _)]; intros Hp; left; by exists p.
  - destruct (updateSchedule_spec now t i inp (tables st)) as [->|(s & u & _ & -> & _)]; intros Hp; left; by exists p.
  - unfold deleteSchedule. destruct (getSchedule t i (tables st)); intros Hp; left; by exists p.
Qed.

Lemma tick_fire_pipelines fresh job asOf now next s st :
  pipelines (tables (tick_fire fresh job asOf now next s st).1) = pipelines (tables st).
Proof.
  unfold tick_fire, updateNextRunAt. destruct (existsb _ _); [|done].
  match goal with |- context [triggerRun ?a ?b ?c ?d ?e ?f ?g ?h ?i ?j] => pose proof (triggerRun_pipelines a b c d e f g h i j) as Ht end.
  by destruct (triggerRun _ _ _ _ _ _ _ _ _ _).
Qed.

(** What holds between steps. *)
Definition steady (s : run_state * list RunRow) : Prop :=
  store_ok (tables s.1) /\ Forall (run_fits (tables s.1)) s.2.

Lemma run_fits_pipelines d d' r : pipelines d' = pipelines d -> run_fits d r -> run_fits d' r.
Proof. unfold run_fits. by intros ->. Qed.

Lemma step_steady s s' : step s s' -> steady s -> steady s'.
Proof.
  intros Hstep [H Hf]. unfold steady. destruct Hstep; cbn [fst snd] in *.
  - split; [by apply serve_ok|]. apply Forall_forall. intros r Hr. rewrite Forall_forall in Hf. destruct (Hf r Hr) as [H1 H2].
    split; [done|]. intros p Hp E. apply serve_pipelines in Hp as [(p0 & Hp0 & E1 & <-)|[_ Hq]]; [apply H2; congruence|].
    destruct q; try done. destruct H0. rewrite <- Hq, E. by apply list_elem_of_fmap_2.
  - split; [done|]. constructor; [by eapply new_run_fits|done].
  - split; [by apply tick_fire_ok|]. eapply Forall_impl; [exact Hf|]. intros x.
    apply run_fits_pipelines, tick_fire_pipelines.
  - rewrite H0 in Hf. apply Forall_cons in Hf as [Hr Hf]. split; [by apply trigger_write_ok|].
    eapply Forall_impl; [exact Hf|]. intros x. apply run_fits_pipelines, trigger_write_pipelines.
  - split; [|done]. by apply update_runs_ok.
  - split; [|done]. by apply update_runs_ok.
Qed.

Lemma rtc_steady s s' : rtc step s s' -> steady s -> steady s'.
Proof. induction 1; [done|]. eauto using step_steady. Qed.

Lemma empty_steady : steady (empty_state, []).
Proof. split; [|by constructor]. split; cbn; try apply NoDup_nil_2; set_solver. Qed.

(** C7: whatever the order in which requests, triggers under way and the
    engine's writes come, the tables stay coherent: identifiers, slugs of a
    tenant and numbers of a pipeline's versions are unique; an event starts a
    pipeline at most once; every definition
    stored, in a pipeline, a version or the snapshot of a run, passes the checks
    of creation; no version is newer than its pipeline; and versions,
    schedules and runs belong to the tenant of their pipeline. *)
Theorem snapshots_valid st flight : rtc step (empty_state, []) (st, flight) -> store_ok (tables st).
Proof.
  intros H. assert (Hs : steady (st, flight)); [|apply Hs]. by apply (rtc_steady _ _ H), empty_steady.
Qed.
End Steps.

(** ** A concrete history: a pipeline that forbids concurrent runs is created,
    and updated while a trigger that has read it is under way *)

Definition demo_pipeline (second : string) : PipelineDefinition :=
  {| entry := "load"; steps := [WaitStep {| id := "load"; name := second; inputs := None; onError := None; skipIf := None;
       timeout := None; retryConfig := None; fallbackStepId := None |} 10];
     options := Some {| allowConcurrentRuns := Some false; stepTimeout := None |} |}.

Definition demo_create : service_call :=
  Create "p1" "01234567-89ab" 1 "ann"
    {| c_name := "Nightly Load"; c_slug := None; c_description := None; c_definition := demo_pipeline "Load"; c_active := true |}.
Definition demo_update : UpdatePipelineInput :=
  {| u_name := Some "Hourly"; u_description := Some (Some "each hour"); u_definition := Some (demo_pipeline "Load 2"); u_active := None |}.

Definition created : run_state := serve (C := minutely) "acme" demo_create empty_state.
Definition updated : run_state := serve (C := minutely) "acme" (Update 2 "p1" demo_update (Some "bob")) created.

Example created_slug : map p_slug (pipelines (tables created)) = ["nightly-load"].
Proof. vm_compute. reflexivity. Qed.

Lemma snapshots_valid_witness :
  exists st, rtc (step (C := minutely)) (empty_state, []) (st, []) /\ store_ok (tables st)
    /\ map (fun r => name <$> (step_base <$> head (PipelineDef.steps (definition_snapshot r)))) (runs (tables st)) = [Some "Load"]
    /\ map version_number (versions (tables st)) = [1].
Proof.
  assert (H : exists st, rtc (step (C := minutely)) (empty_state, []) (st, [])
    /\ map (fun r => name <$> (step_base <$> head (PipelineDef.steps (definition_snapshot r)))) (runs (tables st)) = [Some "Load"]
    /\ map version_number (versions (tables st)) = [1]).
  { eexists. split; [|split].
    - eapply rtc_l; [apply (step_serve "acme" demo_create); apply not_elem_of_nil|].
      eapply rtc_l; [by apply (step_check "r1" 2 "p1" "acme" "manual" (VObj 0%N []) [] None)|].
      eapply rtc_l; [by apply (step_serve "acme" (Update 2 "p1" demo_update (Some "bob")))|].
      eapply rtc_l; [by apply (step_write (Some "j1"))|]. apply rtc_refl.
    - vm_compute. reflexivity.
    - vm_compute. reflexivity. }
  destruct H as (st & H & ? & ?). exists st. split; [exact H|]. split; [exact (snapshots_valid st [] H)|done].
Defined.
