(* ===== verification/StoreLaws.v ===== *)
(** * What the services promise

    Rollback, the isolation of tenants, the pages of runs, slugs, and what the
    checks of a trigger do not prevent. *)

From S2P Require Import Prelude JsString JsValue JsHost.
From S2P Require Import SsrfBlocklist PipelineDef ExecTracker EngineStep EngineRun.
From S2P Require Import SqlTable PipelineStore RunService ScheduleService StoreSpec.
From Stdlib Require Import Ascii.
From stdpp Require Import relations sets.

(** ** Rollback *)

Lemma find_in i t d r :
  store_ok d -> r ∈ pipelines d -> p_id r = i -> p_tenant r = t ->
  findById i d = Some r /\ getPipeline t i d = Ok r.
Proof.
  intros H Hr <- <-. destruct (getPipeline_ok (p_tenant r) (p_id r) d H) as (p & Hg & Hf); [by exists r|].
  pose proof (findById_spec _ _ _ Hf) as [Hp Hi].
  by rewrite <- (NoDup_map_inj _ _ _ _ (ok_ids _ H) Hr Hp (eq_sym Hi)) in Hf, Hg.
Qed.

(** The row an update leaves is found again. *)
Lemma updated_row now i u by_ d r :
  store_ok d -> findById i d = Some r -> set_fields now u r ∈ pipelines (updated_db now i u by_ r d).
Proof.
  intros H Hr. apply findById_spec in Hr as [Hr Hi]. unfold updated_db. cbn.
  assert (Hp : pipelines (match by_ with Some user => with_versions (fun l => l ++ [snapshot_row r user]) d | None => d end) = pipelines d)
    by by destruct by_.
  rewrite Hp. apply list_elem_of_fmap. exists r. by rewrite Hi, String.eqb_refl.
Qed.

(** What a successful [updatePipeline] leaves. *)
Lemma updatePipeline_inv now t i u by_ d d' r' r :
  store_ok d -> getPipeline t i d = Ok r -> updatePipeline now t i u by_ d = (d', Ok r') ->
  exists d1, (d1 = d \/ d1 = disableByPipelineId now i d) /\ r' = set_fields now u r
    /\ d' = updated_db now i u by_ r d1 /\ update_valid u /\ name_not_empty (p_name r') = true /\ store_ok d1
    /\ findById i d1 = Some r.
Proof.
  intros H Hg. unfold updatePipeline. rewrite Hg. cbn [mbind result_mbind result_bind].
  destruct (match u_definition u with Some def => check_definition def | None => Ok tt end) as [[]|e] eqn:Ec; [|by intros [= _ ?]].
  set (d1 := match u_active u with Some false => disableByPipelineId now i d | _ => d end).
  assert (Hd1 : d1 = d \/ d1 = disableByPipelineId now i d) by (unfold d1; destruct (u_active u) as [[]|]; auto).
  assert (H1 : store_ok d1) by (destruct Hd1 as [->| ->]; [done|by apply disable_ok]).
  assert (Hf : findById i d1 = Some r).
  { apply getPipeline_spec in Hg as (Hr & Hi & Ht). destruct (find_in i t d1 r) as [? _]; try done. by destruct Hd1 as [->| ->]. }
  destruct (no_fields u) eqn:En; [unfold update_pipeline; rewrite En; by intros [= _ ?]|].
  rewrite (update_pipeline_spec _ _ _ _ _ r) by done. destruct (name_not_empty _) eqn:Ename; [|by intros [= _ ?]].
  intros [= <- <-]. exists d1. split_and!; try done. unfold update_valid. by destruct (u_definition u).
Qed.

(** The snapshot that an update by a user leaves. *)
Lemma findVersion_snapshot now i u user d r :
  store_ok d -> findById i d = Some r ->
  findVersion i (S (current_version r)) (updated_db now i u (Some user) r d) = Some (snapshot_row r user).
Proof.
  intros H Hr. apply findById_spec in Hr as [Hr Hi]. unfold findVersion. apply find_row_unique.
  - cbn. set_solver.
  - cbn. by rewrite Hi, String.eqb_refl, Nat.eqb_refl.
  - cbn [versions updated_db with_versions with_pipelines].
    intros v [Hv| ->%list_elem_of_singleton]%elem_of_app [E1%String.eqb_eq E2%Nat.eqb_eq]%andb_true_iff; [|done]. exfalso.
    destruct (ok_versions _ H v Hv) as (_ & p & Hp & E3 & _ & Hn).
    assert (p = r) as -> by (apply (NoDup_map_inj _ _ _ _ (ok_ids _ H) Hp Hr); congruence). lia.
Qed.

(** C14: rollback undoes an update.  After an update by a user, rolling back to
    the version it made gives the name and the definition from before, under a
    new version number; the description too, except that one that was empty is
    not cleared but keeps what the update has set.  The state that the rollback
    replaces is itself kept as a version. *)
Theorem rollback_restores now now' t i u user user' d d1 r r1 :
  store_ok d -> getPipeline t i d = Ok r -> updatePipeline now t i u (Some user) d = (d1, Ok r1) ->
  exists d2 r2, rollbackToVersion now' t i (current_version r1) user' d1 = (d2, Ok r2)
    /\ p_name r2 = p_name r /\ p_definition r2 = p_definition r
    /\ p_description r2 = match p_description r with Some s => Some s | None => p_description r1 end
    /\ p_slug r2 = p_slug r /\ p_active r2 = p_active r1
    /\ current_version r2 = S (S (current_version r))
    /\ getVersion t i (current_version r2) d2 = Ok (snapshot_row r1 user').
Proof.
  intros H Hg Hu. destruct (updatePipeline_inv _ _ _ _ _ _ _ _ _ H Hg Hu) as (d0 & _ & -> & -> & Hval & Hname & H0 & Hf0).
  pose proof (getPipeline_spec _ _ _ _ Hg) as (Hr & Hi & Ht).
  set (r1 := set_fields now u r) in *. set (d1 := updated_db now i u (Some user) r d0).
  assert (H1 : store_ok d1) by by apply updated_db_ok.
  destruct (find_in i t d1 r1) as [Hf1 Hg1]; [done|by apply updated_row|done..|].
  set (back := {| u_name := Some (p_name r);
                  u_description := match p_description r with Some s => Some (Some s) | None => None end;
                  u_definition := Some (p_definition r); u_active := None |}).
  destruct (ok_pipelines _ H r Hr) as (Hsound & Hnr & _).
  assert (Hroll : rollbackToVersion now' t i (current_version r1) user' d1 = updatePipeline now' t i back (Some user') d1).
  { unfold rollbackToVersion, getVersion. rewrite Hg1. cbn [mbind result_mbind result_bind].
    change (current_version r1) with (S (current_version r)).
    unfold d1. rewrite findVersion_snapshot by done. cbn [or_throw snapshot_row v_definition name_at_version description_at_version].
    unfold sound, check_definition in Hsound. destruct (validateDefinition (p_definition r)); done. }
  assert (Hup : updatePipeline now' t i back (Some user') d1 = (updated_db now' i back (Some user') r1 d1, Ok (set_fields now' back r1))).
  { unfold updatePipeline. rewrite Hg1. cbn [mbind result_mbind result_bind back u_definition u_active].
    fold back. rewrite Hsound. rewrite (update_pipeline_spec _ _ _ _ _ r1) by done.
    change (p_name (set_fields now' back r1)) with (p_name r). by rewrite Hnr. }
  rewrite Hroll, Hup. eexists _, _. split; [done|]. split_and!; try done; [by destruct (p_description r)|].
  destruct (find_in i t (updated_db now' i back (Some user') r1 d1) (set_fields now' back r1)) as [_ Hg2];
    [by apply updated_db_ok|by apply updated_row|done..|].
  unfold getVersion. rewrite Hg2. cbn [mbind result_mbind result_bind].
  change (current_version (set_fields now' back r1)) with (S (current_version r1)). by rewrite findVersion_snapshot.
Qed.

Lemma rollback_restores_witness :
  exists d2 r2, rollbackToVersion 3 "acme" "p1" 1 "cat" (tables updated) = (d2, Ok r2)
    /\ p_name r2 = "Nightly Load" /\ p_description r2 = Some "each hour" /\ current_version r2 = 2.
Proof.
  assert (Hok : store_ok (tables created)) by (apply serve_ok; exact (proj1 empty_steady)).
  assert (Hu : exists r r1, getPipeline "acme" "p1" (tables created) = Ok r
    /\ updatePipeline 2 "acme" "p1" demo_update (Some "bob") (tables created) = (tables updated, Ok r1)
    /\ p_name r = "Nightly Load" /\ p_description r = None /\ p_description r1 = Some "each hour"
    /\ current_version r = 0 /\ current_version r1 = 1).
  { eexists _, _. split_and!; [vm_compute; reflexivity|vm_compute; reflexivity|reflexivity..]. }
  destruct Hu as (r & r1 & Hg & Hu & En & Ed & Ed1 & Ev & Ev1).
  destruct (rollback_restores 2 3 "acme" "p1" demo_update "bob" "cat" _ _ r r1 Hok Hg Hu) as (d2 & r2 & H2 & Hn & _ & Hd & _ & _ & Hv & _).
  rewrite Ev1 in H2. exists d2, r2. rewrite Hn, Hd, Hv, En, Ed, Ed1, Ev. split; [exact H2|split_and!; reflexivity].
Defined.

(** ** Tenants *)

(** The rows of tenant [t]. *)
Definition view (t : string) (d : db) : db :=
  {| pipelines := List.filter (fun p => String.eqb (p_tenant p) t) (pipelines d);
     versions := List.filter (fun v => String.eqb (v_tenant v) t) (versions d);
     schedules := List.filter (fun s => String.eqb (s_tenant s) t) (schedules d);
     runs := List.filter (fun r => String.eqb (row_tenantId r) t) (runs d) |}.

Section Mine.
Context {A : Type} (key : A -> string) (t t' : string) (Hne : t <> t').

Lemma filter_snoc_other x (l : list A) :
  key x = t -> List.filter (fun y => String.eqb (key y) t') (l ++ [x]) = List.filter (fun y => String.eqb (key y) t') l.
Proof. intros Hx. rewrite List.filter_app. cbn. rewrite Hx. apply String.eqb_neq in Hne as ->. apply app_nil_r. Qed.

Lemma filter_update_other p f (l : list A) :
  (forall x, x ∈ l -> p x = true -> key x = t) -> (forall x, key (f x) = key x) ->
  List.filter (fun y => String.eqb (key y) t') (update_where p f l) = List.filter (fun y => String.eqb (key y) t') l.
Proof.
  intros Hp Hf. unfold update_where. induction l as [|x l IH]; cbn; [done|]. rewrite IH by (intros; apply Hp; set_solver).
  destruct (p x) eqn:E; [|done]. rewrite Hf, (Hp x) by (try done; by left). by apply String.eqb_neq in Hne as ->.
Qed.

Lemma filter_drop_other p (l : list A) :
  (forall x, x ∈ l -> p x = true -> key x = t) ->
  List.filter (fun y => String.eqb (key y) t') (List.filter (fun x => negb (p x)) l) = List.filter (fun y => String.eqb (key y) t') l.
Proof.
  intros Hp. induction l as [|x l IH]; cbn; [done|]. rewrite <- IH by (intros; apply Hp; set_solver).
  destruct (p x) eqn:E; cbn; [|done]. rewrite (Hp x) by (try done; by left). by apply String.eqb_neq in Hne as ->.
Qed.
End Mine.

Section Isolation.
Context (t t' : string) (Hne : t <> t').

Lemma view_disable now i d : store_ok d -> owned d i t -> view t' (disableByPipelineId now i d) = view t' d.
Proof.
  intros H Ho. unfold view. cbn. f_equal. apply (filter_update_other s_tenant t); [done| |done].
  intros s Hs [Hi%String.eqb_eq _]%andb_true_iff. destruct (ok_schedules _ H s Hs) as (p & Hp & E & <-).
  eapply owned_unique; [done..|congruence].
Qed.

Lemma view_updated now i u by_ r d :
  store_ok d -> findById i d = Some r -> p_tenant r = t -> view t' (updated_db now i u by_ r d) = view t' d.
Proof.
  intros H Hf Ht. apply findById_spec in Hf as [Hr Hi].
  assert (Hp : List.filter (fun p => String.eqb (p_tenant p) t')
                 (update_where (fun r => String.eqb (p_id r) i) (set_fields now u) (pipelines d))
               = List.filter (fun p => String.eqb (p_tenant p) t') (pipelines d)).
  { apply (filter_update_other p_tenant t); [done| |done]. intros p Hp E%String.eqb_eq.
    assert (p = r) as ->; [|done]. apply (NoDup_map_inj _ _ _ _ (ok_ids _ H) Hp Hr). congruence. }
  unfold view, updated_db, with_pipelines, with_versions. destruct by_; cbn [pipelines versions schedules runs]; rewrite Hp; [|done]. f_equal. by apply (filter_snoc_other v_tenant t).
Qed.

Lemma view_updatePipeline now i u by_ d : store_ok d -> view t' (updatePipeline now t i u by_ d).1 = view t' d.
Proof.
  intros H. destruct (updatePipeline now t i u by_ d) as [d' r'] eqn:E. cbn. revert E.
  destruct (getPipeline t i d) as [r|e] eqn:Eg; [|unfold updatePipeline; rewrite Eg; by intros [= <- _]].
  pose proof (getPipeline_spec _ _ _ _ Eg) as (Hr & Hi & Ht).
  assert (Hd : view t' (disableByPipelineId now i d) = view t' d) by (apply view_disable; [done|by exists r]).
  destruct r' as [r'|e].
  - intros E. eapply updatePipeline_inv in E as (d1 & Hd1 & _ & -> & _ & _ & H1 & Hf); [|done..].
    rewrite view_updated by done. by destruct Hd1 as [->| ->].
  - unfold updatePipeline. destruct (_ ← _; _); [|by intros [= <- _]]. cbn zeta.
    set (d1 := match u_active u with Some false => disableByPipelineId now i d | _ => d end).
    assert (Hd1 : view t' d1 = view t' d) by (unfold d1; by destruct (u_active u) as [[]|]).
    destruct (update_pipeline _ _ _ _ d1) as [[d2 [r2|]]|e2] eqn:Eu; [done| |by intros [= <- _]].
    intros [= <- _]. exfalso. assert (H1 : store_ok d1) by (unfold d1; destruct (u_active u) as [[]|]; by try apply disable_ok).
    destruct (find_in i t d1 r) as [Hf _]; try done; [by unfold d1; destruct (u_active u) as [[]|]|].
    destruct (no_fields u) eqn:En; [unfold update_pipeline in Eu; by rewrite En in Eu|].
    rewrite (update_pipeline_spec _ _ _ _ _ r) in Eu by done. by destruct (name_not_empty _).
Qed.

Lemma view_delete i d : store_ok d -> owned d i t -> view t' (delete_pipeline i d) = view t' d.
Proof.
  intros H Ho. unfold view, delete_pipeline. cbn. f_equal.
  - apply (filter_drop_other p_tenant t); [done|]. intros p Hp E%String.eqb_eq. by eapply owned_unique.
  - apply (filter_drop_other v_tenant t); [done|]. intros v Hv E%String.eqb_eq.
    destruct (ok_versions _ H v Hv) as (_ & p & Hp & E1 & <- & _). eapply owned_unique; [done..|congruence].
  - apply (filter_drop_other s_tenant t); [done|]. intros s Hs E%String.eqb_eq.
    destruct (ok_schedules _ H s Hs) as (p & Hp & E1 & <-). eapply owned_unique; [done..|congruence].
  - apply (filter_drop_other row_tenantId t); [done|]. intros r Hr E%String.eqb_eq.
    destruct (ok_runs _ H r Hr) as (_ & p & Hp & E1 & <-). eapply owned_unique; [done..|congruence].
Qed.

(** A schedule that the tenant finds is the only one of its identifier. *)
Lemma own_schedule i d s : store_ok d -> findSchedule t i d = Some s ->
  forall x, x ∈ schedules d -> String.eqb (s_id x) i = true -> s_tenant x = t.
Proof.
  intros H Hf x Hx E%String.eqb_eq. unfold findSchedule in Hf. apply find_row_spec in Hf as [Hs Hf].
  unfold of_tenant_schedule in Hf. apply andb_true_iff in Hf as [Ei%String.eqb_eq <-%String.eqb_eq].
  f_equal. apply (NoDup_map_inj _ _ _ _ (ok_schedule_ids _ H) Hx Hs). congruence.
Qed.

(** What tenant [t] leaves of the others: their rows, the cancellation flags of
    their runs, and no job in their name. *)
Definition apart (st st' : run_state) : Prop :=
  view t' (tables st') = view t' (tables st)
  /\ (forall now r, r ∈ runs (tables st) -> row_tenantId r = t' -> isCancelled now (row_id r) st' = isCancelled now (row_id r) st)
  /\ exists jobs, queue st' = queue st ++ jobs /\ Forall (fun j => payload_tenantId j = t) jobs.

Lemma apart_tables st f : view t' (f (tables st)) = view t' (tables st) -> apart st (with_tables f st).
Proof. intros H. split; [done|]. split; [done|]. exists []. by rewrite app_nil_r. Qed.

Lemma apart_refl st : apart st st.
Proof. split; [done|]. split; [done|]. exists []. by rewrite app_nil_r. Qed.

Lemma view_trigger_write fresh job r st : row_id r = fresh -> row_tenantId r = t -> apart st (trigger_write fresh job r st).1.
Proof.
  intros Hi Ht. unfold trigger_write, insert_run. destruct (existsb _ (runs _)) eqn:E; [apply apart_refl|].
  destruct (existsb _ (pipelines _)); [|apply apart_refl]. split; [|split; [done|]].
  - assert (Hnew : List.filter (fun x => String.eqb (row_tenantId x) t') (runs (tables st) ++ [r])
                 = List.filter (fun x => String.eqb (row_tenantId x) t') (runs (tables st))).
    { by apply (filter_snoc_other row_tenantId t). }
    unfold view, with_runs. destruct job as [j|]; cbn [fst tables pipelines versions schedules runs]; f_equal; [|done].
    rewrite <- Hnew. apply (filter_update_other row_tenantId t); [done| |done].
    intros x [Hx| ->%list_elem_of_singleton]%elem_of_app Ex%String.eqb_eq; [|done]. exfalso.
    apply (existsb_false _ _ _ E) in Hx. apply orb_false_iff in Hx as [Hx%String.eqb_neq _]. congruence.
  - eexists. split; [done|]. by repeat constructor.
Qed.

Lemma view_triggerRun fresh job now i by_ input meta actor st :
  apart st (triggerRun fresh job now i t by_ input meta actor st).1.
Proof. unfold triggerRun. destruct (trigger_check _ _ _); [|apply apart_refl]. by apply view_trigger_write. Qed.

Lemma view_createPipeline fresh uuid now user c d : view t' (createPipeline fresh uuid now t user c d).1 = view t' d.
Proof.
  unfold createPipeline. destruct (_ ← _; _) as [d'|e] eqn:E; [|done].
  apply bind_ok in E as (? & _ & E). unfold insert_pipeline in E.
  destruct (existsb _ _); [done|]. destruct (_ && _); [|done]. injection E as <-.
  unfold view. cbn [fst with_pipelines pipelines versions schedules runs]. f_equal. by apply (filter_snoc_other p_tenant t).
Qed.

(** C25: tenants do not reach each other.  Whatever one tenant asks for, the rows
    of another tenant's pipelines, versions, schedules and runs stay as they are,
    its runs are not cancelled, and every job queued is in the name of the tenant
    who asks. *)
Theorem tenant_isolation {C : CronParser} q st : store_ok (tables st) -> apart st (serve t q st).
Proof.
  intros H. destruct q as [fresh uuid now user c|now i u by_|i|now i n user|fresh job now i by_ input meta actor|now i|fresh job now i e actor|fresh now inp|now i inp|i]; cbn [serve].
  - apply apart_tables, view_createPipeline.
  - by apply apart_tables, view_updatePipeline.
  - apply apart_tables. unfold deletePipeline. destruct (getPipeline t i (tables st)) as [p|] eqn:Eg; [|done]. cbn zeta.
    destruct (_ <? _)%nat; [done|]. apply view_delete; [done|]. apply getPipeline_spec in Eg as (? & ? & ?). by exists p.
  - apply apart_tables. unfold rollbackToVersion. destruct (getVersion _ _ _ _); [|done].
    destruct (validateDefinition _); [|done]. by apply view_updatePipeline.
  - apply view_triggerRun.
  - unfold cancelRun. destruct (findRun t i (tables st)) as [r|] eqn:Ef; [|apply apart_refl].
    destruct (TERMINAL_STATUSES _); [apply apart_refl|]. unfold findRun in Ef. apply find_row_spec in Ef as [Hr Ef].
    apply andb_true_iff in Ef as [Ei%String.eqb_eq Et%String.eqb_eq]. split; [done|]. split.
    + intros now' r' Hr' Ht'. unfold isCancelled. cbn. rewrite jm_get_set_ne; [done|]. intros E. apply Hne.
      rewrite <- Et, <- Ht'. f_equal. apply (NoDup_map_inj _ _ _ _ (ok_run_ids _ H) Hr Hr'). congruence.
    + exists []. by rewrite app_nil_r.
  - unfold replayRun. destruct (findRun _ _ _) as [r|]; [|apply apart_refl]. destruct (negb _); [apply apart_refl|].
    pose proof (view_triggerRun fresh job now i "manual" (row_input r) [("replayOf", VStr e)] actor st) as Ht.
    by destruct (triggerRun _ _ _ _ _ _ _ _ _ _).
  - apply apart_tables. destruct (createSchedule_spec fresh now t inp (tables st)) as [->|(s & -> & _ & Hs & _)]; [done|].
    unfold view. cbn [with_schedules pipelines versions schedules runs]. f_equal. by apply (filter_snoc_other s_tenant t).
  - apply apart_tables. destruct (updateSchedule_spec now t i inp (tables st)) as [->|(s & u & Hf & -> & _)]; [done|].
    unfold view. cbn [with_schedules pipelines versions schedules runs]. f_equal.
    apply (filter_update_other s_tenant t); [done| |done]. by eapply own_schedule.
  - apply apart_tables. unfold deleteSchedule. destruct (getSchedule t i (tables st)) as [s|] eqn:Es; [|done].
    unfold getSchedule in Es. destruct (findSchedule t i (tables st)) as [s'|] eqn:Ef; [|done].
    unfold view. cbn [delete_schedule with_schedules fst pipelines versions schedules runs]. f_equal.
    apply (filter_drop_other s_tenant t); [done|]. by eapply own_schedule.
Qed.
End Isolation.

(** Another tenant asks for the deletion of a pipeline that is not its own. *)
Lemma tenant_isolation_witness :
  "globex" <> "acme" /\ apart "globex" "acme" updated (serve (C := minutely) "globex" (DeletePipeline "p1") updated)
  /\ length (pipelines (view "acme" (tables updated))) = 1.
Proof.
  assert (Hne : "globex" <> "acme") by discriminate.
  split; [exact Hne|]. split; [|vm_compute; reflexivity].
  apply (tenant_isolation "globex" "acme" Hne (C := minutely)).
  apply serve_ok, serve_ok. exact (proj1 empty_steady).
Defined.

(** ** The pages of runs *)

(** Following [nextCursor]: the runs of all the pages. *)
Fixpoint all_runs (fuel : nat) (t : string) (limit : nat) (s : option RunStatus) (p : option string)
    (cursor : option string) (st : run_state) : option (list RunRow) :=
  match fuel with
  | O => None
  | S fuel =>
      match listRuns t cursor limit s p st with
      | (page, None) => Some page
      | (page, Some c) => rest ← all_runs fuel t limit s p (Some c) st; Some (page ++ rest)
      end
  end.

(** Identifiers in the order of creation, as the cursor assumes. *)
Definition ids_in_order (l : list RunRow) : Prop :=
  forall a b, a ∈ l -> b ∈ l -> text_lt (row_id a) (row_id b) = true -> (row_createdAt a <= row_createdAt b)%Z.

Lemma text_lt_irrefl s : text_lt s s = false.
Proof. unfold text_lt. by rewrite lex_refl. Qed.

Lemma lex_eq l k : lex_compare l k = Eq -> l = k.
Proof.
  revert k. induction l as [|a l IH]; intros [|b k]; cbn; try done.
  destruct (N.compare_spec (code a) (code b)) as [E|E|E]; try done. intros ->%IH. f_equal.
  unfold code in E. rewrite <- (ascii_N_embedding a), <- (ascii_N_embedding b). by f_equal.
Qed.

Lemma text_lt_total a b : text_lt a b = false -> text_lt b a = false -> a = b.
Proof.
  unfold text_lt. rewrite (lex_antisym (explode a) (explode b)).
  destruct (lex_compare (explode a) (explode b)) eqn:E; try done. intros _ _. apply lex_eq in E.
  by rewrite <- (implode_explode a), <- (implode_explode b), E.
Qed.

Lemma lex_lt_trans l k m : lex_compare l k = Lt -> lex_compare k m = Lt -> lex_compare l m = Lt.
Proof.
  intros H1 H2. pose proof (lex_trans l k m) as H. rewrite H1, H2 in H. destruct (lex_compare l m) eqn:E; [|done|by destruct H].
  apply lex_eq in E as ->. rewrite (lex_antisym m k) in H2. by rewrite H1 in H2.
Qed.

Lemma text_lt_trans a b c : text_lt a b = true -> text_lt b c = true -> text_lt a c = true.
Proof.
  unfold text_lt. destruct (lex_compare (explode a) (explode b)) eqn:E1; try done.
  destruct (lex_compare (explode b) (explode c)) eqn:E2; try done. intros _ _. by rewrite (lex_lt_trans _ _ _ E1 E2).
Qed.

Lemma run_before_spec a b :
  run_before a b = true <->
  (row_createdAt b < row_createdAt a)%Z \/ (row_createdAt a = row_createdAt b /\ text_lt (row_id b) (row_id a) = true).
Proof. unfold run_before. rewrite orb_true_iff, andb_true_iff, Z.ltb_lt, Z.eqb_eq. done. Qed.

Lemma run_before_false a b :
  run_before a b = false ->
  ~ (row_createdAt b < row_createdAt a)%Z /\ (row_createdAt a = row_createdAt b -> text_lt (row_id b) (row_id a) = false).
Proof.
  intros H. split; [|intros E; destruct (text_lt _ _) eqn:El; [|done]]; [intros E|];
    rewrite (proj2 (run_before_spec a b)) in H; auto; discriminate.
Qed.

Lemma run_strict_order l : NoDup (map row_id l) -> strict_order run_before l.
Proof.
  intros Hnd. split.
  - intros x _. destruct (run_before x x) eqn:E; [|done]. apply run_before_spec in E as [|[_ E]]; [lia|].
    by rewrite text_lt_irrefl in E.
  - intros x y z _ _ _. rewrite !run_before_spec. intros [H1|[H1 H2]] [H3|[H3 H4]]; try (left; lia).
    right. split; [lia|]. by eapply text_lt_trans.
  - intros x y Hx Hy [H1 H2]%run_before_false [H3 H4]%run_before_false.
    apply (NoDup_map_inj _ _ _ _ Hnd Hx Hy), text_lt_total; [apply H4|apply H2]; lia.
Qed.

(** When identifiers grow with the time of creation, following the cursors
    of [listRuns] gives every run of the tenant that passes the filters, each
    once and the newest first. *)
Theorem list_runs_complete t limit s p st fuel :
  store_ok (tables st) -> ids_in_order (List.filter (run_filter t s p) (runs (tables st))) ->
  (0 < limit)%nat -> (length (runs (tables st)) < fuel)%nat ->
  all_runs fuel t limit s p None st = Some (order_by run_before (List.filter (run_filter t s p) (runs (tables st)))).
Proof.
  intros H Hids Hlimit Hfuel. set (after := fun c x => text_lt (row_id x) (row_id c)).
  assert (Hpages : forall n c, all_runs n t limit s p (row_id <$> c) st
                   = pages run_before (run_filter t s p) after limit n (runs (tables st)) c).
  { induction n as [|n IH]; intros c; [done|]. cbn [all_runs pages]. unfold listRuns, page_cursor.
    assert (Hsel : findRunsByTenantId t (row_id <$> c) limit s p (tables st)
                   = select run_before (beyond (run_filter t s p) after c) limit (runs (tables st))) by by destruct c.
    rewrite Hsel. destruct (_ =? _)%nat; [|done]. destruct (last _) as [c'|]; [|done]. cbn. by rewrite <- (IH (Some c')). }
  etrans; [exact (Hpages fuel None)|]. pose proof (ok_run_ids _ H) as Hnd.
  apply pages_all; [by eapply NoDup_fmap_1|by apply run_strict_order| |done|done].
  intros c x Hc Hx Hpc Hpx. unfold after.
  assert (Hcf : c ∈ List.filter (run_filter t s p) (runs (tables st))) by by apply elem_of_bfilter.
  assert (Hxf : x ∈ List.filter (run_filter t s p) (runs (tables st))) by by apply elem_of_bfilter.
  destruct (text_lt (row_id x) (row_id c)) eqn:E.
  - symmetry. apply run_before_spec. pose proof (Hids x c Hxf Hcf E).
    destruct (decide (row_createdAt c = row_createdAt x)); [by right|left; lia].
  - symmetry. destruct (run_before c x) eqn:Eb; [|done]. apply run_before_spec in Eb as [Eb|[_ Eb]]; [|congruence].
    destruct (text_lt (row_id c) (row_id x)) eqn:E2; [pose proof (Hids c x Hcf Hxf E2); lia|].
    assert (c = x) as -> by (apply (NoDup_map_inj _ _ _ _ Hnd Hc Hx); by apply text_lt_total). lia.
Qed.

Lemma ids_in_order_check l :
  forallb (fun a => forallb (fun b => implb (text_lt (row_id a) (row_id b)) (row_createdAt a <=? row_createdAt b)%Z) l) l = true ->
  ids_in_order l.
Proof.
  intros H a b Ha Hb Hlt. rewrite forallb_forall in H. apply list_elem_of_In in Ha, Hb.
  specialize (H a Ha). rewrite forallb_forall in H. specialize (H b Hb). rewrite Hlt in H. by apply Z.leb_le.
Qed.

(** Three runs of one pipeline; the identifiers are those of the times. *)
Definition three_runs (ids : list string) : run_state :=
  {| tables := {| pipelines := pipelines (tables created); versions := []; schedules := [];
       runs := imap (fun k i => new_run i (Z.of_nat k) "acme" "manual" (VObj 0%N []) [] None
                 (default {| p_id := "p1"; p_tenant := "acme"; p_name := "p"; p_slug := "p"; p_description := None;
                    p_definition := demo_pipeline "Load"; p_active := true; p_createdAt := 0; p_updatedAt := 0;
                    p_createdBy := "ann"; current_version := 0 |} (head (pipelines (tables created))))) ids |};
     queue := []; flags := [] |}.

Lemma three_runs_ok : store_ok (tables (three_runs ["a"; "b"; "c"])).
Proof.
  pose proof (serve_ok (C := minutely) "acme" demo_create _ (proj1 empty_steady)) as H. fold created in H.
  assert (Hown : owned (tables created) "p1" "acme").
  { eexists. split; [vm_compute; by left|done]. }
  destruct H. split; try done; cbn -[created].
  - decide_now.
  - by intros r r' Hr Hr' E; repeat (apply elem_of_cons in Hr as [->|Hr]; [vm_compute in E; discriminate|]); apply elem_of_nil in Hr.
  - intros r Hr. split; [|]; repeat (apply elem_of_cons in Hr as [->|Hr]; [first [exact Hown|vm_compute; reflexivity]|]); by apply elem_of_nil in Hr.
Qed.

Lemma list_runs_complete_witness :
  map row_id <$> all_runs 4 "acme" 2 None None None (three_runs ["a"; "b"; "c"]) = Some ["c"; "b"; "a"].
Proof.
  rewrite (list_runs_complete "acme" 2 None None (three_runs ["a"; "b"; "c"]) 4).
  - vm_compute. reflexivity.
  - exact three_runs_ok.
  - apply ids_in_order_check. vm_compute. reflexivity.
  - lia.
  - vm_compute. lia.
Defined.

(** With random identifiers a page hides older runs whose identifier is larger. *)
Example list_runs_skips :
  map row_id <$> all_runs 4 "acme" 2 None None None (three_runs ["c"; "a"; "b"]) = Some ["b"; "a"].
Proof. vm_compute. reflexivity. Qed.

(** ** Slugs *)

(** ** Slugs *)

(** A derived slug has the form that the table demands, whatever the name. *)
Lemma deriveSlug_valid uuid name :
  (8 <= String.length uuid)%nat -> forallb slug_char (take 8 (explode uuid)) = true -> SLUG_RE (deriveSlug uuid name) = true.
Proof.
  intros Hlen Huuid. unfold deriveSlug. destruct (SLUG_RE (slug_candidate name)) eqn:E; [done|].
  rewrite <- length_explode in Hlen. revert Hlen Huuid. generalize (explode uuid) as l. intros l Hlen.
  do 8 (destruct l as [|? l]; [cbn in Hlen; lia|]). cbn [take]. intros H.
  unfold SLUG_RE. rewrite explode_app, explode_implode. cbn -[slug_char is_dash] in H |- *. rewrite take_0.
  cbn -[slug_char is_dash]. rewrite !andb_true_iff in H. destruct H as (-> & -> & -> & -> & -> & -> & -> & -> & _). done.
Qed.

(** ** Concurrent triggers *)

(** [allowConcurrentRuns: false] is checked before the run is written: two
    triggers that check before either writes both start a run. *)
Example concurrent_triggers :
  match trigger_check "p1" "acme" (tables created) with
  | Ok p =>
      let r i := new_run i 2 "acme" "manual" (VObj 0%N []) [] None p in
      let st := (trigger_write "r2" None (r "r2") (trigger_write "r1" None (r "r1") created).1).1 in
      countActiveByPipelineId "p1" (tables st)
  | Err _ => 0
  end = 2.
Proof. vm_compute. reflexivity. Qed.
