(* ===== verification/ScheduleSpec.v ===== *)
(** * What the cron loop promises

    However many replicas tick, and whatever requests come between the halves of
    their ticks, a due date of a schedule is claimed once, as long as no update
    of the schedule computes a date before a claim and writes it after; and a
    tick goes ahead only when the latest run of every dependency is completed. *)

From S2P Require Import Prelude JsString JsValue JsHost.
From S2P Require Import PipelineDef EngineStep EngineRun SqlTable PipelineStore RunService ScheduleService StoreSpec StoreLaws.
From stdpp Require Import relations sets sorting.

(** ** Dependencies *)

Definition latest (t i : string) (d : db) (r : RunRow) : Prop :=
  r ∈ runs d /\ row_tenantId r = t /\ row_pipelineId r = i
  /\ forall r', r' ∈ runs d -> row_tenantId r' = t -> row_pipelineId r' = i -> r' = r \/ run_before r r' = true.

Lemma run_filter_spec t i r : run_filter t None (Some i) r = true <-> row_tenantId r = t /\ row_pipelineId r = i.
Proof. unfold run_filter. by rewrite andb_true_r, andb_true_iff, !String.eqb_eq. Qed.

(** The page of one run is the latest run. *)
Lemma latest_page t i d :
  store_ok d ->
  match findRunsByTenantId t None 1 None (Some i) d with
  | r :: _ => latest t i d r
  | [] => forall r, r ∈ runs d -> row_tenantId r = t -> row_pipelineId r = i -> False
  end.
Proof.
  intros H. unfold findRunsByTenantId, select. set (q := fun r => run_filter _ _ _ r && below_cursor None r).
  set (l := order_by run_before (List.filter q (runs d))).
  assert (Hin : forall r, r ∈ l <-> r ∈ runs d /\ row_tenantId r = t /\ row_pipelineId r = i).
  { intros r. unfold l. rewrite order_by_perm, elem_of_bfilter. unfold q. cbn. rewrite andb_true_r. by rewrite run_filter_spec. }
  assert (Hl : ordered run_before l).
  { apply order_by_ordered.
    - apply run_strict_order, NoDup_map_bfilter, (ok_run_ids _ H).
    - apply NoDup_bfilter. by eapply NoDup_fmap_1, (ok_run_ids _ H). }
  destruct l as [|r l]; cbn.
  - intros r Hr Ht Hi. apply (not_elem_of_nil r). by apply Hin.
  - apply StronglySorted_inv in Hl as [_ Hl]. rewrite Forall_forall in Hl.
    destruct (proj1 (Hin r)) as (? & ? & ?); [by left|]. split_and!; try done. intros r' Hr' Ht Hi.
    assert (Hr2 : r' ∈ r :: l) by by apply Hin. apply elem_of_cons in Hr2 as [|]; [by left|right; by apply Hl].
Qed.

(** A tick passes its dependencies exactly when each of them has a latest
    run, in the name of the schedule's tenant, and that run is completed. *)
Theorem dependencies_latest t deps d :
  store_ok d ->
  checkDependencies t deps d = [] <-> forall i, i ∈ deps -> exists r, latest t i d r /\ row_status r = r_completed.
Proof.
  intros H. assert (Hdone : forall i, dependency_done t d i = true <-> exists r, latest t i d r /\ row_status r = r_completed).
  { intros i. unfold dependency_done. pose proof (latest_page t i d H) as Hp.
    destruct (findRunsByTenantId _ _ _ _ _ _) as [|r rest].
    - split; [done|]. intros (r & (Hr & Ht & Hi & _) & _). by destruct (Hp r Hr Ht Hi).
    - rewrite bool_decide_eq_true. split; [intros ?; by exists r|]. intros (r' & Hr' & Hs).
      destruct Hp as (Hr & Ht & Hi & Hmax), Hr' as (Hr' & Ht' & Hi' & Hmax').
      destruct (Hmax r' Hr' Ht' Hi') as [->|E]; [done|]. destruct (Hmax' r Hr Ht Hi) as [->|E']; [done|].
      pose proof (run_strict_order _ (ok_run_ids _ H)) as Ho.
      pose proof (so_trans _ _ Ho r r' r Hr Hr' Hr E E') as Hc. by rewrite (so_irrefl _ _ Ho r Hr) in Hc. }
  unfold checkDependencies. rewrite <- Forall_forall. setoid_rewrite <- Hdone.
  induction deps as [|i deps IH]; cbn; [split; [constructor|done]|]. rewrite Forall_cons.
  destruct (dependency_done t d i); cbn; [rewrite IH; naive_solver|naive_solver].
Qed.

(** ** Claims *)

(** What a request leaves of the due dates. *)
Definition keeps_next (d d' : db) : Prop :=
  forall s', s' ∈ schedules d' -> exists s, s ∈ schedules d /\ s_id s = s_id s' /\ next_run_at s' = next_run_at s.

Lemma keeps_next_eq d d' : schedules d' = schedules d -> keeps_next d d'.
Proof. intros E s Hs. rewrite E in Hs. by exists s. Qed.

#[global] Instance keeps_next_trans : Transitive keeps_next.
Proof.
  intros d1 d2 d3 H12 H23 s Hs. destruct (H23 s Hs) as (s2 & Hs2 & ? & ?). destruct (H12 s2 Hs2) as (s1 & ? & ? & ?).
  exists s1. split; [done|]. split; congruence.
Qed.

Lemma keeps_next_disable now i d : keeps_next d (disableByPipelineId now i d).
Proof. intros s [Hs|(s0 & Hs & _ & ->)]%elem_of_update_where; eauto. Qed.

Lemma keeps_next_update_pipeline now i u by_ d d' r : update_pipeline now i u by_ d = Ok (d', r) -> keeps_next d d'.
Proof.
  intros H. apply keeps_next_eq. revert H. unfold update_pipeline. destruct (no_fields u); [done|]. intros H.
  apply bind_ok in H as (d1 & H1 & H). cbn zeta in H.
  assert (E : schedules d1 = schedules d).
  { destruct (findById i d), by_; try (by injection H1 as <-). unfold insert_version in H1.
    destruct (existsb _ _); [done|]. by injection H1 as <-. }
  rewrite <- E. clear H1. destruct (findById i _) as [r1|]; [|by injection H as <- _].
  destruct (name_not_empty _); [|done]. by injection H as <- _.
Qed.

Lemma keeps_next_updatePipeline now t i u by_ d : keeps_next d (updatePipeline now t i u by_ d).1.
Proof.
  unfold updatePipeline. destruct (_ ← _; _); [|by apply keeps_next_eq]. cbn zeta.
  set (d1 := match u_active u with Some false => disableByPipelineId now i d | _ => d end).
  assert (H1 : keeps_next d d1).
  { unfold d1. destruct (u_active u) as [[]|]; [by apply keeps_next_eq|apply keeps_next_disable|by apply keeps_next_eq]. }
  destruct (update_pipeline _ _ _ _ d1) as [[d2 [r|]]|e] eqn:E; [| |exact H1];
    (etrans; [exact H1|]); by eapply keeps_next_update_pipeline.
Qed.

Lemma triggerRun_schedules fresh job now i t by_ input meta actor st :
  schedules (tables (triggerRun fresh job now i t by_ input meta actor st).1) = schedules (tables st).
Proof.
  unfold triggerRun, trigger_write, insert_run. destruct (trigger_check _ _ _); [|done].
  destruct (existsb _ _); [done|]. destruct (existsb _ _); [|done]. by destruct job.
Qed.

Section Ticks.
Context {C : CronParser} {laws : CronLaws C}.

(** A date comes from the row, from a new schedule or from an update. *)
Lemma serve_next t q st s' :
  s' ∈ schedules (tables (serve t q st)) ->
  (exists s, s ∈ schedules (tables st) /\ s_id s = s_id s' /\ next_run_at s' = next_run_at s)
  \/ exists n, next_run_at s' = Some n /\
     match q with
     | CreateSchedule fresh _ _ => s_id s' = fresh
     | UpdateSchedule _ _ _ => True
     | _ => False
     end.
Proof.
  assert (Hkeep : forall d', tables (serve t q st) = d' -> keeps_next (tables st) d' -> s' ∈ schedules (tables (serve t q st)) ->
    exists s, s ∈ schedules (tables st) /\ s_id s = s_id s' /\ next_run_at s' = next_run_at s) by (intros d' <- Hk Hs; by apply Hk).
  destruct q as [fresh uuid now user c|now i u by_|i|now i n user|fresh job now i by_ input meta actor|now i|fresh job now i e actor|fresh now inp|now i inp|i].
  - intros Hs. left. eapply Hkeep; [done| |done]. apply keeps_next_eq. cbn. unfold createPipeline.
    destruct (_ ← _; _) as [d'|] eqn:E; [|done]. apply bind_ok in E as (? & _ & E). unfold insert_pipeline in E.
    destruct (existsb _ _); [done|]. destruct (_ && _); [|done]. by injection E as <-.
  - intros Hs. left. eapply Hkeep; [done| |done]. apply keeps_next_updatePipeline.
  - intros Hs. left. eapply Hkeep; [done| |done]. cbn. unfold deletePipeline. destruct (getPipeline _ _ _); [|by apply keeps_next_eq].
    cbn zeta. destruct (_ <? _)%nat; [by apply keeps_next_eq|]. intros s [Hs' _]%elem_of_drop_rows. by exists s.
  - intros Hs. left. eapply Hkeep; [done| |done]. cbn. unfold rollbackToVersion. destruct (getVersion _ _ _ _); [|by apply keeps_next_eq].
    destruct (validateDefinition _); [|by apply keeps_next_eq]. apply keeps_next_updatePipeline.
  - intros Hs. left. eapply Hkeep; [done| |done]. apply keeps_next_eq, triggerRun_schedules.
  - intros Hs. left. eapply Hkeep; [done| |done]. apply keeps_next_eq. cbn. unfold cancelRun.
    destruct (findRun _ _ _); [|done]. by destruct (TERMINAL_STATUSES _).
  - intros Hs. left. eapply Hkeep; [done| |done]. apply keeps_next_eq. cbn. unfold replayRun.
    destruct (findRun _ _ _) as [r|]; [|done]. destruct (negb _); [done|].
    pose proof (triggerRun_schedules fresh job now i t "manual" (row_input r) [("replayOf", VStr e)] actor st) as Ht.
    by destruct (triggerRun _ _ _ _ _ _ _ _ _ _).
  - cbn. destruct (createSchedule_spec fresh now t inp (tables st)) as [->|(s & -> & <- & _ & _ & _ & n & Hn & Hc)]; [intros Hs; left; by exists s'|].
    intros [Hs| ->%list_elem_of_singleton]%elem_of_app; [left; by exists s'|right]. by exists n.
  - cbn. destruct (updateSchedule_spec now t i inp (tables st)) as [->|(s0 & u & _ & -> & Hn)]; [intros Hs; left; by exists s'|].
    intros [Hs|(s & Hs & _ & ->)]%elem_of_update_where; [left; by exists s'|]. cbn [set_schedule next_run_at s_id].
    destruct (up_next_run_at u) as [n|]; [right; by exists n|left; by exists s].
  - cbn. unfold deleteSchedule. destruct (getSchedule _ _ _); [|intros Hs; left; by exists s'].
    intros [Hs _]%elem_of_drop_rows. left. by exists s'.
Qed.

(** An update under way: its schedule, what it will write, and the claims made
    before it computed that. *)
Record pending_update : Type := {
  of_schedule : string;
  to_write : ScheduleUpdateInput;
  seen : list (string * Z)
}.

(** Replicas at work: rows that were read, rows with their next date, updates
    under way, the due dates claimed, the schedules that an update has given a
    date it computed before one of their claims, and the time on the wall. *)
Record replicas : Type := {
  shared : run_state;
  reads : list ScheduleRow;
  ready : list (ScheduleRow * Z);
  pending : list pending_update;
  claims : list (string * Z);
  overtaken : list string;
  wall : Z
}.

Definition starting (st : run_state) (now : Z) : replicas :=
  {| shared := st; reads := []; ready := []; pending := []; claims := []; overtaken := []; wall := now |}.

(** The due dates claimed of a schedule. *)
Definition claims_of (i : string) (cl : list (string * Z)) : list (string * Z) :=
  List.filter (fun c => String.eqb c.1 i) cl.
#[global] Arguments claims_of : simpl never.

(** The update writes a date, and its schedule was claimed after the date was computed. *)
Definition late (p : pending_update) (cl : list (string * Z)) : list string :=
  match up_next_run_at (to_write p) with
  | Some _ => if forallb (fun c => bool_decide (c ∈ seen p)) (claims_of (of_schedule p) cl) then [] else [of_schedule p]
  | None => []
  end.

(** Identifiers are not used twice; updates go in their two halves. *)
Definition whole (claims : list (string * Z)) (q : service_call) : Prop :=
  match q with
  | CreateSchedule fresh _ _ => fresh ∉ map fst claims
  | UpdateSchedule _ _ _ => False
  | _ => True
  end.

(** The due date that a tick claims. *)
Definition claimed (s : ScheduleRow) (asOf : Z) (e : tick_end) : list (string * Z) :=
  match e with TickClaimed _ => [(s_id s, default asOf (next_run_at s))] | _ => [] end.

Inductive tick_step : replicas -> replicas -> Prop :=
| tk_time st rd ry pd cl ov now now' :
    (now <= now')%Z ->
    tick_step {| shared := st; reads := rd; ready := ry; pending := pd; claims := cl; overtaken := ov; wall := now |}
              {| shared := st; reads := rd; ready := ry; pending := pd; claims := cl; overtaken := ov; wall := now' |}
| tk_read st rd ry pd cl ov now asOf s :
    (asOf <= now)%Z -> s ∈ findDueSchedules asOf (tables st) ->
    tick_step {| shared := st; reads := rd; ready := ry; pending := pd; claims := cl; overtaken := ov; wall := now |}
              {| shared := st; reads := s :: rd; ready := ry; pending := pd; claims := cl; overtaken := ov; wall := now |}
| tk_check st rd ry pd cl ov now s next :
    s ∈ rd -> tick_check now s (tables st) = inl next ->
    tick_step {| shared := st; reads := rd; ready := ry; pending := pd; claims := cl; overtaken := ov; wall := now |}
              {| shared := st; reads := rd; ready := (s, next) :: ry; pending := pd; claims := cl; overtaken := ov; wall := now |}
| tk_fire st st' rd ry pd cl ov now asOf fresh job s next e :
    (s, next) ∈ ry -> tick_fire fresh job asOf now next s st = (st', e) ->
    tick_step {| shared := st; reads := rd; ready := ry; pending := pd; claims := cl; overtaken := ov; wall := now |}
              {| shared := st'; reads := rd; ready := ry; pending := pd; claims := cl ++ claimed s asOf e;
                 overtaken := ov; wall := now |}
| tk_update_read st rd ry pd cl ov now t i inp u :
    updateSchedule_read now t i inp (tables st) = Ok u ->
    tick_step {| shared := st; reads := rd; ready := ry; pending := pd; claims := cl; overtaken := ov; wall := now |}
              {| shared := st; reads := rd; ready := ry; pending := {| of_schedule := i; to_write := u; seen := cl |} :: pd;
                 claims := cl; overtaken := ov; wall := now |}
| tk_update_write st rd ry pd cl ov now p :
    p ∈ pd ->
    tick_step {| shared := st; reads := rd; ready := ry; pending := pd; claims := cl; overtaken := ov; wall := now |}
              {| shared := with_tables (fun d => (updateSchedule_write now (of_schedule p) (to_write p) d).1) st;
                 reads := rd; ready := ry; pending := pd; claims := cl; overtaken := late p cl ++ ov; wall := now |}
| tk_serve st rd ry pd cl ov now t q :
    whole cl q ->
    tick_step {| shared := st; reads := rd; ready := ry; pending := pd; claims := cl; overtaken := ov; wall := now |}
              {| shared := serve t q st; reads := rd; ready := ry; pending := pd; claims := cl; overtaken := ov; wall := now |}.

(** The due date of a row that was read lies in the past; the next one of a row
    that is ready comes after it; an update under way writes a date after the
    claims it has seen; no date claimed comes back. *)
Record orderly (w : replicas) : Prop := {
  or_store : store_ok (tables (shared w));
  or_once : forall i, i ∉ overtaken w -> NoDup (claims_of i (claims w));
  or_past : forall c, c ∈ claims w -> (c.2 <= wall w)%Z;
  or_gone : forall c s, c ∈ claims w -> c.1 ∉ overtaken w -> s ∈ schedules (tables (shared w)) -> s_id s = c.1 ->
    exists n, next_run_at s = Some n /\ (c.2 < n)%Z;
  or_reads : forall s, s ∈ reads w -> exists n, next_run_at s = Some n /\ (n <= wall w)%Z;
  or_ready : forall s next, (s, next) ∈ ready w -> exists n, next_run_at s = Some n /\ (n <= wall w)%Z /\ (n < next)%Z;
  or_pending : forall p n c, p ∈ pending w -> up_next_run_at (to_write p) = Some n -> c ∈ seen p -> (c.2 < n)%Z
}.

Lemma elem_of_claims_of i c cl : c ∈ claims_of i cl <-> c.1 = i /\ c ∈ cl.
Proof. unfold claims_of. rewrite elem_of_bfilter, String.eqb_eq. tauto. Qed.

Lemma claims_of_app i l l' : claims_of i (l ++ l') = claims_of i l ++ claims_of i l'.
Proof. apply List.filter_app. Qed.

Lemma not_late p cl n c :
  of_schedule p ∉ late p cl -> up_next_run_at (to_write p) = Some n -> c ∈ cl -> c.1 = of_schedule p -> c ∈ seen p.
Proof.
  unfold late. intros H Hn Hc Hi. rewrite Hn in H. destruct (forallb _ _) eqn:E; [|destruct H; by left].
  rewrite forallb_forall in E. apply (bool_decide_unpack _), Is_true_true, E, list_elem_of_In, elem_of_claims_of. done.
Qed.

Lemma due_spec asOf s d : s ∈ findDueSchedules asOf d -> exists n, next_run_at s = Some n /\ (n <= asOf)%Z.
Proof.
  unfold findDueSchedules. rewrite order_by_perm, elem_of_bfilter. intros [_ H]. unfold is_due in H.
  apply andb_true_iff in H as [_ H]. destruct (next_run_at s) as [n|]; [|done]. exists n. split; [done|lia].
Qed.

(** Claiming changes the due date of the rows it claims, and says so. *)
Lemma tick_fire_spec fresh job asOf now next s st st' e :
  tick_fire fresh job asOf now next s st = (st', e) ->
  let due := default asOf (next_run_at s) in
  schedules (tables st') = update_where (claimable (s_id s) due) (advance_schedule asOf next now) (schedules (tables st))
  /\ (claimed s asOf e = [] \/ (claimed s asOf e = [(s_id s, due)]
      /\ exists x, x ∈ schedules (tables st) /\ claimable (s_id s) due x = true)).
Proof.
  unfold tick_fire, updateNextRunAt. intros H. cbn zeta. destruct (existsb _ _) eqn:E.
  - match type of H with context [triggerRun ?a ?b ?c ?d ?e ?f ?g ?h ?i ?j] =>
      pose proof (triggerRun_schedules a b c d e f g h i j) as Ht; destruct (triggerRun a b c d e f g h i j) as [st1 r1] end.
    injection H as <- <-. cbn in Ht. split; [exact Ht|]. right. split; [done|]. apply existsb_elem in E. exact E.
  - injection H as <- <-. split; [done|]. by left.
Qed.

Lemma claimable_spec i due x : claimable i due x = true <-> s_id x = i /\ next_run_at x = Some due /\ enabled x = true.
Proof. unfold claimable. rewrite !andb_true_iff, String.eqb_eq, bool_decide_eq_true. naive_solver. Qed.

Lemma fire_orderly st st' rd ry pd cl ov now asOf fresh job s next e :
  (s, next) ∈ ry -> tick_fire fresh job asOf now next s st = (st', e) ->
  orderly {| shared := st; reads := rd; ready := ry; pending := pd; claims := cl; overtaken := ov; wall := now |} ->
  orderly {| shared := st'; reads := rd; ready := ry; pending := pd; claims := cl ++ claimed s asOf e; overtaken := ov; wall := now |}.
Proof.
  intros Hs Hfire [H0 H1 H2 H3 H4 H5 H6]. cbn in H0, H1, H2, H3, H4, H5, H6.
  pose proof (tick_fire_ok fresh job asOf now next s st H0) as H0'. rewrite Hfire in H0'. cbn in H0'.
  destruct (H5 s next Hs) as (due & Hdue & Hpast & Hnext).
  apply tick_fire_spec in Hfire as [Hrows Hclaim]. rewrite Hdue in Hrows, Hclaim. cbn in Hrows, Hclaim.
  assert (Hnew : claimed s asOf e = [] \/ (claimed s asOf e = [(s_id s, due)]
                 /\ (s_id s ∉ ov -> forall n, (s_id s, n) ∈ cl -> (n < due)%Z)
                 /\ exists x, x ∈ schedules (tables st) /\ claimable (s_id s) due x = true)).
  { destruct Hclaim as [|(Hc & x & Hx & Hcl)]; [by left|right]. split; [done|]. split; [|by exists x].
    apply claimable_spec in Hcl as (Hi & Hn & _).
    intros Hov n Hin. destruct (H3 _ _ Hin Hov Hx Hi) as (n' & Hn' & ?). rewrite Hn in Hn'. by injection Hn' as ->. }
  split; cbn; try done.
  - intros i Hi. rewrite claims_of_app. destruct Hnew as [->|(-> & Hlt & _)]; [rewrite app_nil_r; by apply H1|].
    unfold claims_of at 2. cbn [List.filter fst]. destruct (String.eqb (s_id s) i) eqn:Ei; [|rewrite app_nil_r; by apply H1].
    apply String.eqb_eq in Ei as <-. apply NoDup_app. split_and!; [by apply H1| |apply NoDup_singleton].
    intros c [_ Hc]%elem_of_claims_of ->%list_elem_of_singleton. specialize (Hlt Hi _ Hc). lia.
  - intros c [Hc|Hc]%elem_of_app; [by apply H2|]. destruct Hnew as [E|(E & _)]; rewrite E in Hc; [by apply elem_of_nil in Hc|].
    by apply list_elem_of_singleton in Hc as ->.
  - intros c x Hc Hov Hx Hi. rewrite Hrows in Hx. apply list_elem_of_fmap in Hx as (y & -> & Hy).
    destruct (claimable (s_id s) due y) eqn:Ey; cbn in Hi |- *.
    + exists next. split; [done|]. apply claimable_spec in Ey as (Hyi & Hyn & _). apply elem_of_app in Hc as [Hc|Hc].
      * destruct (H3 c y Hc Hov Hy Hi) as (n & Hn & ?). rewrite Hyn in Hn. injection Hn as <-. lia.
      * destruct Hnew as [E|(E & _)]; rewrite E in Hc; [by apply elem_of_nil in Hc|]. by apply list_elem_of_singleton in Hc as ->.
    + apply elem_of_app in Hc as [Hc|Hc]; [by apply (H3 c y)|]. exfalso.
      destruct Hnew as [E|(E & _ & x & Hx & Ex)]; rewrite E in Hc; [by apply elem_of_nil in Hc|].
      apply list_elem_of_singleton in Hc as ->. cbn in Hi. pose proof Ex as (Hxi & _)%claimable_spec.
      assert (x = y) as -> by (apply (NoDup_map_inj _ _ _ _ (ok_schedule_ids _ H0) Hx Hy); congruence). congruence.
Qed.

Lemma serve_orderly st rd ry pd cl ov now t q :
  whole cl q ->
  orderly {| shared := st; reads := rd; ready := ry; pending := pd; claims := cl; overtaken := ov; wall := now |} ->
  orderly {| shared := serve t q st; reads := rd; ready := ry; pending := pd; claims := cl; overtaken := ov; wall := now |}.
Proof.
  intros Ht [H0 H1 H2 H3 H4 H5 H6]. cbn in *. split; cbn; try done; [by apply serve_ok|].
  intros c s Hc Hov Hs Hi. apply serve_next in Hs as [(s0 & Hs0 & E1 & ->)|(n & Hn & Hq)].
  - apply (H3 c s0 Hc Hov Hs0). congruence.
  - destruct q; try done; cbn in Ht. destruct Ht. rewrite <- Hq, Hi. by apply list_elem_of_fmap_2.
Qed.

Lemma update_read_orderly st rd ry pd cl ov now t i inp u :
  updateSchedule_read now t i inp (tables st) = Ok u ->
  orderly {| shared := st; reads := rd; ready := ry; pending := pd; claims := cl; overtaken := ov; wall := now |} ->
  orderly {| shared := st; reads := rd; ready := ry; pending := {| of_schedule := i; to_write := u; seen := cl |} :: pd;
             claims := cl; overtaken := ov; wall := now |}.
Proof.
  intros [_ Hu]%updateSchedule_read_spec [H0 H1 H2 H3 H4 H5 H6]. cbn in *. split; cbn; try done.
  intros p n c [->|Hp]%elem_of_cons; [|by apply H6]. cbn. intros Hn Hc. rewrite Hn in Hu. destruct Hu as (e & tz & Hu).
  apply next_run_after in Hu. specialize (H2 c Hc). lia.
Qed.

Lemma update_write_orderly st rd ry pd cl ov now p :
  p ∈ pd ->
  orderly {| shared := st; reads := rd; ready := ry; pending := pd; claims := cl; overtaken := ov; wall := now |} ->
  orderly {| shared := with_tables (fun d => (updateSchedule_write now (of_schedule p) (to_write p) d).1) st;
             reads := rd; ready := ry; pending := pd; claims := cl; overtaken := late p cl ++ ov; wall := now |}.
Proof.
  intros Hp [H0 H1 H2 H3 H4 H5 H6]. cbn in *.
  pose proof (updateSchedule_write_spec now (of_schedule p) (to_write p) (tables st)) as Hw. cbn zeta in Hw.
  split; cbn; try done.
  - destruct Hw as [->| ->]; [done|by apply update_schedules_ok].
  - intros i Hi. apply H1. set_solver.
  - intros c s Hc Hov Hs Hi. apply not_elem_of_app in Hov as [Hlate Hov].
    destruct Hw as [E|E]; rewrite E in Hs; [by apply (H3 c s)|]. cbn in Hs.
    apply elem_of_update_where in Hs as [Hs|(s0 & Hs & Hid & ->)]; [by apply (H3 c s)|].
    apply String.eqb_eq in Hid. cbn [set_schedule s_id next_run_at] in *.
    destruct (up_next_run_at (to_write p)) as [n|] eqn:En; [|by apply (H3 c s0)]. exists n. split; [done|].
    eapply H6; [done..|]. eapply not_late; [|done..|congruence]. by rewrite <- Hid, Hi.
Qed.

Lemma tick_step_orderly w w' : tick_step w w' -> orderly w -> orderly w'.
Proof.
  intros Hstep. destruct Hstep as [st rd ry pd cl ov now now' Hle|st rd ry pd cl ov now asOf s Hle Hs
    |st rd ry pd cl ov now s next Hs Hc| | | |];
    [| | |by eapply fire_orderly|by eapply update_read_orderly|by apply update_write_orderly|by apply serve_orderly];
    intros [H0 H1 H2 H3 H4 H5 H6]; cbn in *; split; cbn; try done.
  - intros c Hc. specialize (H2 c Hc). lia.
  - intros s Hs. destruct (H4 s Hs) as (n & ? & ?). exists n. split; [done|lia].
  - intros s n Hs. destruct (H5 s n Hs) as (m & ? & ? & ?). exists m. split_and!; [done|lia|done].
  - intros x [->|Hx]%elem_of_cons; [|by apply H4]. apply due_spec in Hs as (n & ? & ?). exists n. split; [done|lia].
  - intros x n [[= -> ->]|Hx]%elem_of_cons; [|by apply H5]. destruct (H4 s Hs) as (m & ? & ?). exists m. split_and!; [done..|].
    unfold tick_check in Hc. destruct (computeNextRunAt _ _ _) as [nx|] eqn:En; [|done]. apply next_run_after in En.
    destruct (checkDependencies _ _ _); [|done]. injection Hc as <-. lia.
Qed.

(** C15: however many replicas tick and whatever is asked of the services
    between the halves of their ticks, no due date of a schedule is claimed
    twice, so it starts at most one run, unless an update of that schedule has
    computed its next date before a claim of the schedule and written it after:
    such a write is unguarded, and brings back a date already claimed. *)
Theorem ticks_once st now w i :
  store_ok (tables st) -> rtc tick_step (starting st now) w -> i ∉ overtaken w -> NoDup (claims_of i (claims w)).
Proof.
  intros Hok H. assert (Hw : orderly w); [|apply Hw].
  assert (H0 : orderly (starting st now)).
  { split; cbn; [done|constructor|set_solver..]. }
  induction H as [|w1 w2 w3 Hstep _ IH]; [done|]. apply IH. by eapply tick_step_orderly.
Qed.
End Ticks.

(** ** Concrete replicas *)

(** The newest of three runs is completed. *)
Definition newest_done : db :=
  with_runs (update_where (fun r => String.eqb (row_id r) "c") (ended_row r_completed 5 None)) (tables (three_runs ["a"; "b"; "c"])).

Lemma dependencies_latest_witness :
  checkDependencies "acme" ["p1"] newest_done = [] /\ (exists r, latest "acme" "p1" newest_done r /\ row_status r = r_completed).
Proof.
  assert (H : checkDependencies "acme" ["p1"] newest_done = []) by (vm_compute; reflexivity).
  assert (Hok : store_ok newest_done) by (apply update_runs_ok; [exact three_runs_ok|done]).
  split; [exact H|]. apply (proj1 (dependencies_latest "acme" ["p1"] newest_done Hok) H).
  by left.
Defined.

Definition scheduled : run_state :=
  serve (C := minutely) "acme" (CreateSchedule "s1" 5 {| in_pipelineId := "p1"; in_cronExpr := "@hourly"; in_timezone := "UTC";
    in_enabled := true; in_inputTemplate := []; in_dependsOn := None |}) created.

(** An update computed before the due date. *)
Definition hourly_again : UpdateScheduleInput :=
  {| ch_cronExpr := Some "@hourly"; ch_timezone := None; ch_enabled := None; ch_inputTemplate := None; ch_dependsOn := None |}.

(** Two replicas read the schedule and find its next date; the second is too
    late.  An update in between is written before the claim. *)
Lemma ticks_once_witness :
  exists w, rtc (tick_step (C := minutely)) (starting scheduled 59000) w
    /\ claims w = [("s1", 60000%Z)] /\ length (runs (tables (shared w))) = 1 /\ length (ready w) = 2
    /\ overtaken w = [] /\ NoDup (claims_of "s1" (claims w)).
Proof.
  assert (H : exists w, rtc (tick_step (C := minutely)) (starting scheduled 59000) w
    /\ claims w = [("s1", 60000%Z)] /\ length (runs (tables (shared w))) = 1 /\ length (ready w) = 2 /\ overtaken w = []).
  { eexists. split_and!.
    - eapply rtc_l; [apply (tk_update_read _ _ _ _ _ _ _ "acme" "s1" hourly_again); vm_compute; reflexivity|].
      eapply rtc_l; [apply (tk_time _ _ _ _ _ _ _ 60010); lia|].
      eapply rtc_l; [apply tk_update_write; by left|].
      eapply rtc_l; [apply (tk_read _ _ _ _ _ _ _ 60005); [lia|vm_compute; by left]|].
      eapply rtc_l; [eapply tk_check; [by left|vm_compute; reflexivity]|].
      eapply rtc_l; [eapply tk_check; [by left|vm_compute; reflexivity]|].
      eapply rtc_l; [eapply (tk_fire _ _ _ _ _ _ _ _ 60005 "r1" None); [by left|vm_compute; reflexivity]|].
      eapply rtc_l; [eapply (tk_fire _ _ _ _ _ _ _ _ 60006 "r2" None); [by left|vm_compute; reflexivity]|]. apply rtc_refl.
    - reflexivity.
    - reflexivity.
    - reflexivity.
    - reflexivity. }
  destruct H as (w & H & ? & ? & ? & Hov). exists w. split_and!; try done.
  apply (ticks_once (C := minutely) scheduled 59000 w "s1"); [|exact H|rewrite Hov; apply not_elem_of_nil].
  apply serve_ok, serve_ok. exact (proj1 empty_steady).
Defined.

(** The same update, written after the claim: the next tick claims the date
    again.  (This pipeline refuses a second run while the first is active.) *)
Example claimed_again :
  exists w, rtc (tick_step (C := minutely)) (starting scheduled 59000) w
    /\ claims w = [("s1", 60000%Z); ("s1", 60000%Z)] /\ overtaken w = ["s1"].
Proof.
  eexists. split_and!.
  - eapply rtc_l; [apply (tk_update_read _ _ _ _ _ _ _ "acme" "s1" hourly_again); vm_compute; reflexivity|].
    eapply rtc_l; [apply (tk_time _ _ _ _ _ _ _ 60010); lia|].
    eapply rtc_l; [apply (tk_read _ _ _ _ _ _ _ 60005); [lia|vm_compute; by left]|].
    eapply rtc_l; [eapply tk_check; [by left|vm_compute; reflexivity]|].
    eapply rtc_l; [eapply (tk_fire _ _ _ _ _ _ _ _ 60005 "r1" None); [by left|vm_compute; reflexivity]|].
    eapply rtc_l; [apply tk_update_write; by left|].
    eapply rtc_l; [eapply tk_check; [by left|vm_compute; reflexivity]|].
    eapply rtc_l; [eapply (tk_fire _ _ _ _ _ _ _ _ 60010 "r2" None); [by left|vm_compute; reflexivity]|]. apply rtc_refl.
  - reflexivity.
  - reflexivity.
Qed.
