(* ===== verification/TriggerService.v ===== *)
(** * Event and webhook triggers

    services/pipeline/src/services/trigger-service.ts, and the webhook route of
    services/pipeline/src/routes/internal.ts.  JSONata, JSON and HMAC-SHA256 are
    parameters.  [handleEvent] is the handling of a message that nothing comes
    between; the steps of [receiving] are its parts, which other replicas and
    requests come between. *)

From S2P Require Import Prelude JsString JsNumber JsValue JsHost.
From S2P Require Import PipelineDef EngineStep EngineRun SqlTable PipelineStore RunService ScheduleService StoreSpec StoreLaws.
From Stdlib Require Import Ascii.
From stdpp Require Import relations sets.

Class TriggerHost : Type := {
  (** [jsonata(e).evaluate(data)] within its 100 ms *)
  filter_value : string -> value -> result string value;
  (** [JSON.parse] *)
  json_parse : string -> option value;
  (** [createHmac("sha256", secret).update(body).digest("hex")] *)
  hmac_sha256 : string -> string -> string
}.

(** ** Data *)

Inductive trigger_type : Type := trigger_event | trigger_webhook.

#[export] Instance trigger_type_eq_dec : EqDecision trigger_type.
Proof. solve_decision. Defined.

Record TriggerConfig : Type := {
  channel : string;
  cf_eventType : option string;
  filter : option string;
  slug : option string;
  secret : option string
}.

Record TriggerRow : Type := {
  t_id : string;
  t_pipeline : string;
  t_tenant : string;
  t_type : trigger_type;
  config : TriggerConfig;
  t_enabled : bool;
  t_createdAt : Z
}.

(** The properties of the message, whatever JSON they hold; [VUndef] when it has none. *)
Record PlatformEvent : Type := { eventId : value; eventType : value; data : value }.

Definition event_of (message : value) : PlatformEvent :=
  let prop k := match message with VObj _ o => get k o | _ => VUndef end in
  {| eventId := prop "eventId"; eventType := prop "eventType"; data := prop "data" |}.

(** The maps of the service. *)
Record trigger_state : Type := {
  channelTriggerMap : jmap string (list string);
  triggerMap : jmap string TriggerRow
}.

(** ** [loadTriggers] *)

(** [ORDER BY created_at ASC, id ASC] *)
Definition trigger_before (a b : TriggerRow) : bool :=
  (t_createdAt a <? t_createdAt b)%Z || ((t_createdAt a =? t_createdAt b)%Z && text_lt (t_id a) (t_id b)).

Definition findEnabledByType (ty : trigger_type) (rows : list TriggerRow) : list TriggerRow :=
  order_by trigger_before (List.filter (fun t => bool_decide (t_type t = ty) && t_enabled t) rows).

Definition load_one (s : trigger_state) (t : TriggerRow) : trigger_state :=
  {| triggerMap := jm_set (t_id t) t (triggerMap s);
     channelTriggerMap := jm_set (channel (config t))
       (default [] (jm_get (channel (config t)) (channelTriggerMap s)) ++ [t_id t]) (channelTriggerMap s) |}.

Definition loadTriggers (rows : list TriggerRow) (s : trigger_state) : trigger_state :=
  fold_left load_one (findEnabledByType trigger_event rows) s.

Section Service.
Context {H : TriggerHost}.

(** ** [handleEvent] *)

(** Errors and timeouts let the event through. *)
Definition evaluateFilter (e : string) (d : value) : bool :=
  match filter_value e d with Ok v => to_boolean v | Err _ => true end.

(** [config.eventType !== undefined && event.eventType !== config.eventType] *)
Definition wants_type (c : TriggerConfig) (ev : PlatformEvent) : bool :=
  match cf_eventType c with Some ty => strict_eq (eventType ev) (VStr ty) | None => true end.

(** [...(x !== undefined ? { k: x } : {})] *)
Definition given_prop (k : string) (v : value) : obj := match v with VUndef => [] | _ => [(k, v)] end.

Definition event_meta (ch : string) (ev : PlatformEvent) : obj :=
  [("channel", VStr ch)] ++ given_prop "eventType" (eventType ev) ++ given_prop "eventId" (eventId ev).

(** What the database and the queue generate for the k-th trigger, and the time. *)
Record EventEnv : Type := { ev_fresh : nat -> string; ev_job : nat -> option string; ev_clock : nat -> Z }.

(** The checks before the run is triggered; the pipeline is looked up. *)
Definition selects (ev : PlatformEvent) (t : TriggerRow) (d : db) : bool :=
  t_enabled t && bool_decide (t_type t = trigger_event) && wants_type (config t) ev
  && match filter (config t) with Some e => evaluateFilter e (data ev) | None => true end
  && match findById (t_pipeline t) d with Some p => p_active p | None => false end.

(** One trigger; the error of [triggerRun], if any, is logged. *)
Definition handle_one (env : EventEnv) (k : nat) (ch : string) (ev : PlatformEvent) (t : TriggerRow) (st : run_state) :
    run_state :=
  if selects ev t (tables st)
  then (triggerRun (ev_fresh env k) (ev_job env k) (ev_clock env k) (t_pipeline t) (t_tenant t) "event"
          (data ev) (event_meta ch ev) None st).1
  else st.

Fixpoint handle_ids (env : EventEnv) (k : nat) (ch : string) (ev : PlatformEvent) (s : trigger_state) (ids : list string)
    (st : run_state) : run_state :=
  match ids with
  | [] => st
  | i :: ids =>
      handle_ids env (S k) ch ev s ids
        (match jm_get i (triggerMap s) with Some t => handle_one env k ch ev t st | None => st end)
  end.

(** A message that is not JSON is dropped, and [null] has no properties to read. *)
Definition handleEvent (env : EventEnv) (ch : string) (message : string) (s : trigger_state) (st : run_state) :
    run_state :=
  match json_parse message with
  | None | Some VNull => st
  | Some v => handle_ids env 0 ch (event_of v) s (default [] (jm_get ch (channelTriggerMap s))) st
  end.

(** ** The webhook route *)

Definition uuid_group (n : nat) (l : list ascii) : bool := (length l =? n)%nat && forallb is_hex l.

(** [z.string().uuid()] *)
Definition is_uuid (s : string) : bool :=
  match map explode (JsString.split s "-") with
  | [a; b; c; d; e] => uuid_group 8 a && uuid_group 4 b && uuid_group 4 c && uuid_group 4 d && uuid_group 12 e
  | _ => false
  end.

Inductive webhook_answer : Type :=
| MissingSignature                         (* 401 *)
| BadQuery                                 (* 400 *)
| TriggerSignatureInvalid
| Answered (r : result service_error string).

Definition findTrigger (i : string) (rows : list TriggerRow) : option TriggerRow :=
  find_row (fun t => String.eqb (t_id t) i) rows.

Definition signature (t : TriggerRow) (rawBody : string) : string :=
  "sha256=" +:+ hmac_sha256 (default EmptyString (secret (config t))) rawBody.

Definition webhook (fresh : string) (job : option string) (now : Z) (header triggerId tenantId : option string)
    (rawBody : string) (rows : list TriggerRow) (st : run_state) : run_state * webhook_answer :=
  match header with
  | None | Some EmptyString => (st, MissingSignature)
  | Some received =>
      match triggerId, tenantId with
      | Some i, Some tenant =>
          if negb (is_uuid i && is_uuid tenant) then (st, BadQuery)
          else match findTrigger i rows with
               | None => (st, TriggerSignatureInvalid)
               | Some t =>
                   if negb (t_enabled t) || negb (String.eqb (t_tenant t) tenant) then (st, TriggerSignatureInvalid)
                   else if negb (String.eqb (signature t rawBody) received) then (st, TriggerSignatureInvalid)
                   else
                     let inp := default (VObj 0%N []) (json_parse rawBody) in
                     let '(st, r) := triggerRun fresh job now (t_pipeline t) tenant "webhook" inp
                                       [("triggerId", VStr i); ("webhookSlug", VStr (default EmptyString (slug (config t))))]
                                       None st in
                     (st, Answered r)
               end
      | _, _ => (st, BadQuery)
      end
  end.
End Service.

(** ** What triggers promise *)

Section Spec.
Context {H : TriggerHost}.

(** ** Deliveries *)

(** A trigger that an event on a channel has selected. *)
Record delivery : Type := { on_channel : string; of_event : PlatformEvent; of_trigger : TriggerRow }.

(** The services and the triggers under way, of [StoreSpec]; the deliveries
    selected, and those whose checks the run has passed, with its row; and the
    pipelines that events have started, with the text of the event's identifier. *)
Record receiving : Type := {
  base : run_state * list RunRow;
  selected : list delivery;
  passed : list (delivery * RunRow);
  fired : list (string * string)
}.

Definition fires (dl : delivery) (started : result service_error string) : list (string * string) :=
  match started, arrow_text (eventId (of_event dl)) with
  | Ok _, Some e => [(t_pipeline (of_trigger dl), e)]
  | _, _ => []
  end.

(** Runs stay until their pipeline is deleted. *)
Definition kept (d d' : db) : Prop :=
  forall r, r ∈ runs d -> exists r', r' ∈ runs d' /\ run_identity r' = run_identity r.

Inductive event_step `{C : CronParser} : receiving -> receiving -> Prop :=
| ev_select st flight sel pas fi dl :
    selects (of_event dl) (of_trigger dl) (tables st) = true ->
    event_step {| base := (st, flight); selected := sel; passed := pas; fired := fi |}
               {| base := (st, flight); selected := dl :: sel; passed := pas; fired := fi |}
| ev_check st flight sel pas fi dl fresh now p :
    dl ∈ sel -> trigger_check (t_pipeline (of_trigger dl)) (t_tenant (of_trigger dl)) (tables st) = Ok p ->
    let r := new_run fresh now (t_tenant (of_trigger dl)) "event" (data (of_event dl)) (event_meta (on_channel dl) (of_event dl)) None p in
    event_step {| base := (st, flight); selected := sel; passed := pas; fired := fi |}
               {| base := (st, r :: flight); selected := sel; passed := (dl, r) :: pas; fired := fi |}
| ev_write st st' flight flight' sel pas fi dl r job started :
    (dl, r) ∈ pas -> flight ≡ₚ r :: flight' -> trigger_write (row_id r) job r st = (st', started) ->
    event_step {| base := (st, flight); selected := sel; passed := pas; fired := fi |}
               {| base := (st', flight'); selected := sel; passed := pas; fired := fi ++ fires dl started |}
| ev_other b b' sel pas fi :
    step b b' -> kept (tables b.1) (tables b'.1) ->
    event_step {| base := b; selected := sel; passed := pas; fired := fi |}
               {| base := b'; selected := sel; passed := pas; fired := fi |}.

(** What started a pipeline is in its runs, under the key of the index. *)
Record delivered (w : receiving) : Prop := {
  de_steady : steady (base w);
  de_once : NoDup (fired w);
  de_runs : forall k, k ∈ fired w -> exists r, r ∈ runs (tables (base w).1) /\ event_key r = Some k;
  de_passed : forall dl r, (dl, r) ∈ passed w ->
    event_key r = (fun e => (t_pipeline (of_trigger dl), e)) <$> arrow_text (eventId (of_event dl))
}.

Lemma kept_key d d' k : kept d d' -> (exists r, r ∈ runs d /\ event_key r = Some k) -> exists r, r ∈ runs d' /\ event_key r = Some k.
Proof. intros Hk (r & Hr & He). destruct (Hk r Hr) as (r' & Hr' & E). exists r'. split; [done|]. injection E. congruence. Qed.

Lemma event_meta_id ch ev : jm_get "eventId" (event_meta ch ev) = match eventId ev with VUndef => None | v => Some v end.
Proof. unfold event_meta, given_prop. by destruct (eventType ev), (eventId ev). Qed.

(** The identifier of the event is in the row, whatever the channel. *)
Lemma new_run_key fresh now i t input ch ev actor d p :
  trigger_check i t d = Ok p ->
  event_key (new_run fresh now t "event" input (event_meta ch ev) actor p) = (fun e => (i, e)) <$> arrow_text (eventId ev).
Proof.
  intros (_ & <- & _)%trigger_check_spec. unfold event_key. cbn [new_run triggered_by trigger_meta row_pipelineId].
  rewrite event_meta_id. cbn [String.eqb Ascii.eqb Bool.eqb]. by destruct (eventId ev).
Qed.

(** A row that is written is a new one, and no other has its key. *)
Lemma trigger_write_result job r st st' res :
  trigger_write (row_id r) job r st = (st', res) ->
  kept (tables st) (tables st') /\
  match res with
  | Err _ => True
  | Ok _ => (forall x, x ∈ runs (tables st) -> same_event x r = false) /\
            exists r', r' ∈ runs (tables st') /\ run_identity r' = run_identity r
  end.
Proof.
  unfold trigger_write, insert_run. destruct (existsb _ (runs _)) eqn:E; [intros [= <- <-]; split; [by intros x Hx; exists x|done]|].
  destruct (existsb _ (pipelines _)); [|intros [= <- <-]; split; [by intros x Hx; exists x|done]]. intros [= <- <-].
  assert (Hin : forall x, x ∈ runs (tables st) ++ [r] ->
    exists r', r' ∈ runs (match job with Some j => with_runs (update_where (fun x => String.eqb (row_id x) (row_id r)) (set_job j)) (with_runs (fun l => l ++ [r]) (tables st))
      | None => with_runs (fun l => l ++ [r]) (tables st) end)
               /\ run_identity r' = run_identity x).
  { intros x Hx. destruct job as [j|]; [|by exists x].
    exists (if String.eqb (row_id x) (row_id r) then set_job j x else x). split; [|by destruct (String.eqb _ _)].
    cbn. unfold update_where. apply list_elem_of_fmap. by exists x. }
  split; [intros x Hx; apply Hin, elem_of_app; by left|]. split; [|apply Hin, elem_of_app; right; by left].
  intros x Hx. apply (existsb_false _ _ _ E) in Hx. by apply orb_false_iff in Hx as [_ ?].
Qed.

Lemma event_step_delivered `{C : CronParser} w w' : event_step w w' -> delivered w -> delivered w'.
Proof.
  intros Hstep [H1 H2 H3 H4]. destruct Hstep as [| |st st' flight flight' sel pas fi dl r job res Hp Hf Hw|b b' sel pas fi Hs Hk];
    cbn [base selected passed fired] in *.
  - by split.
  - split; cbn [base selected passed fired]; try done.
    + apply (step_steady (st, flight)); [|done]. by eapply step_check.
    + intros dl' r' [[= -> ->]|Hin]%elem_of_cons; [by eapply new_run_key|by apply H4].
  - assert (H1' : steady (st', flight')).
    { eapply (step_steady (st, flight)); [|done]. replace st' with (trigger_write (row_id r) job r st).1 by by rewrite Hw. by apply step_write. }
    apply trigger_write_result in Hw as [Hk Hres]. specialize (H4 dl r Hp) as Hkey. unfold fires.
    destruct res as [j|]; [|rewrite app_nil_r; split; cbn; eauto using kept_key].
    destruct (arrow_text (eventId (of_event dl))) as [e|]; [|rewrite app_nil_r; split; cbn; eauto using kept_key].
    cbn in Hkey. destruct Hres as (Hnew & r' & Hr' & Hid). split; cbn [base selected passed fired]; try done.
    + apply NoDup_app. split_and!; [done| |apply NoDup_singleton]. intros k Hin ->%list_elem_of_singleton.
      destruct (H3 _ Hin) as (x & Hx & Ex). specialize (Hnew x Hx). unfold same_event in Hnew. rewrite Ex, Hkey in Hnew.
      by rewrite bool_decide_eq_true_2 in Hnew.
    + intros k [Hin| ->%list_elem_of_singleton]%elem_of_app; [eauto using kept_key|]. exists r'. split; [done|]. injection Hid. congruence.
  - split; cbn; try done; [by eapply step_steady|]. intros k Hin. eapply kept_key; [done|]. by apply H3.
Qed.

(** The steps of the others, but for the deletion of a pipeline, keep every run. *)
Lemma kept_eq d d' : runs d' = runs d -> kept d d'.
Proof. intros E r Hr. exists r. by rewrite E. Qed.

Lemma update_pipeline_runs now i u by_ d d' r : update_pipeline now i u by_ d = Ok (d', r) -> runs d' = runs d.
Proof.
  unfold update_pipeline. destruct (no_fields u); [done|]. intros Hu. apply bind_ok in Hu as (d1 & H1 & Hu). cbn zeta in Hu.
  assert (E : runs d1 = runs d).
  { destruct (findById i d), by_; try (by injection H1 as <-). unfold insert_version in H1.
    destruct (existsb _ _); [done|]. by injection H1 as <-. }
  rewrite <- E. clear H1. destruct (findById i _) as [r1|]; [|by injection Hu as <- _].
  destruct (name_not_empty _); [|done]. by injection Hu as <- _.
Qed.

Lemma updatePipeline_runs now t i u by_ d : runs (updatePipeline now t i u by_ d).1 = runs d.
Proof.
  unfold updatePipeline. destruct (_ ← _; _); [|done]. cbn zeta.
  set (d1 := match u_active u with Some false => disableByPipelineId now i d | _ => d end).
  assert (H1 : runs d1 = runs d) by (unfold d1; by destruct (u_active u) as [[]|]).
  rewrite <- H1. destruct (update_pipeline _ _ _ _ d1) as [[d2 [r|]]|e] eqn:E; [| |done]; by eapply update_pipeline_runs.
Qed.

Lemma triggerRun_kept fresh job now i t by_ input meta actor st :
  kept (tables st) (tables (triggerRun fresh job now i t by_ input meta actor st).1).
Proof.
  unfold triggerRun. destruct (trigger_check i t (tables st)) as [q|]; [|by apply kept_eq].
  destruct (trigger_write _ _ _ _) as [st' res] eqn:E.
  change fresh with (row_id (new_run fresh now t by_ input meta actor q)) in E at 1. by apply trigger_write_result in E as [? _].
Qed.

Lemma serve_kept `{C : CronParser} t q st :
  (forall i, q <> DeletePipeline i) -> kept (tables st) (tables (serve t q st)).
Proof.
  intros Hq. destruct q as [fresh uuid now user c|now i u by_|i|now i n user|fresh job now i by_ input meta actor|now i|fresh job now i ex actor|fresh now inp|now i inp|i].
  - apply kept_eq. cbn. unfold createPipeline. destruct (_ ← _; _) as [d'|] eqn:E; [|done]. apply bind_ok in E as (? & _ & E).
    unfold insert_pipeline in E. destruct (existsb _ _); [done|]. destruct (_ && _); [|done]. by injection E as <-.
  - apply kept_eq, updatePipeline_runs.
  - by destruct (Hq i).
  - apply kept_eq. cbn. unfold rollbackToVersion. destruct (getVersion _ _ _ _); [|done].
    destruct (validateDefinition _); [|done]. apply updatePipeline_runs.
  - apply triggerRun_kept.
  - apply kept_eq. cbn. unfold cancelRun. destruct (findRun _ _ _); [|done]. by destruct (TERMINAL_STATUSES _).
  - cbn. unfold replayRun. destruct (findRun _ _ _) as [r|]; [|by apply kept_eq]. destruct (negb _); [by apply kept_eq|].
    pose proof (triggerRun_kept fresh job now i t "manual" (row_input r) [("replayOf", VStr ex)] actor st) as Ht.
    by destruct (triggerRun _ _ _ _ _ _ _ _ _ _).
  - apply kept_eq. cbn. by destruct (createSchedule_spec fresh now t inp (tables st)) as [->|(s & -> & _)].
  - apply kept_eq. cbn. by destruct (updateSchedule_spec now t i inp (tables st)) as [->|(s0 & u & _ & -> & _)].
  - apply kept_eq. cbn. unfold deleteSchedule. by destruct (getSchedule _ _ _).
Qed.

(** C35: an event starts a pipeline at most once, whatever the number of
    replicas that receive it, of deliveries, and of triggers that select the
    pipeline, and whatever comes between the parts of their work, as long as no
    runs are deleted with their pipeline: of the deliveries whose events have one
    text for an identifier, one at most starts a run of the pipeline, and the run
    is kept under that identifier. *)
Theorem event_starts_once `{C : CronParser} b w i e :
  steady b -> rtc event_step {| base := b; selected := []; passed := []; fired := [] |} w ->
  NoDup (fired w) /\ ((i, e) ∈ fired w -> exists r, r ∈ runs (tables (base w).1) /\ row_pipelineId r = i
    /\ triggered_by r = "event" /\ (jm_get "eventId" (trigger_meta r) ≫= arrow_text) = Some e).
Proof.
  intros Hb Hrtc. assert (Hw : delivered w).
  { assert (Hinit : delivered {| base := b; selected := []; passed := []; fired := [] |}) by (split; cbn; [done|constructor|set_solver..]).
    clear Hb. induction Hrtc as [|w1 w2 w3 Hstep _ IH]; [done|]. apply IH. by eapply event_step_delivered. }
  split; [apply Hw|]. intros (r & Hr & Hk)%(de_runs _ Hw). exists r. unfold event_key in Hk.
  destruct (String.eqb_spec (triggered_by r) "event") as [E|]; [|done].
  destruct (jm_get "eventId" (trigger_meta r) ≫= arrow_text) as [e0|]; [|done]. by injection Hk as -> ->.
Qed.

Lemma triggerRun_result fresh job now i t by_ inp meta actor st st' r :
  triggerRun fresh job now i t by_ inp meta actor st = (st', r) ->
  match r with
  | Err _ => st' = st
  | Ok new => new = fresh /\ exists row, row ∈ runs (tables st') /\ row_id row = fresh /\ row_pipelineId row = i /\ row_tenantId row = t
  end.
Proof.
  unfold triggerRun. destruct (trigger_check i t (tables st)) as [p|e] eqn:E; [|by intros [= <- <-]].
  apply trigger_check_spec in E as (_ & <- & <-). unfold trigger_write, insert_run.
  destruct (existsb _ (runs _)); [by intros [= <- <-]|]. destruct (existsb _ (pipelines _)); [|by intros [= <- <-]].
  intros [= <- <-]. split; [done|]. set (row := new_run _ _ _ _ _ _ _ _). destruct job as [j|].
  - exists (set_job j row). split; [|done]. cbn. apply (list_elem_of_fmap (fun r => if String.eqb (row_id r) fresh then set_job j r else r)).
    exists row. split; [cbn; by rewrite String.eqb_refl|set_solver].
  - exists row. split; [cbn; set_solver|done].
Qed.

(** C36: a webhook starts a run only for a trigger that is enabled, belongs to the
    tenant named in the query, and whose secret signs the body that came; the run
    is one of the trigger's pipeline, and nothing else changes. *)
Theorem webhook_authentic fresh job now header triggerId tenantId rawBody rows st st' answer :
  webhook fresh job now header triggerId tenantId rawBody rows st = (st', answer) ->
  (st' = st /\ match answer with Answered (Ok _) => False | _ => True end)
  \/ exists t, t ∈ rows /\ t_enabled t = true /\ Some (t_id t) = triggerId /\ Some (t_tenant t) = tenantId
       /\ header = Some (signature t rawBody) /\ answer = Answered (Ok fresh)
       /\ exists r, r ∈ runs (tables st') /\ row_id r = fresh /\ row_pipelineId r = t_pipeline t /\ row_tenantId r = t_tenant t.
Proof.
  unfold webhook. destruct header as [[|c received]|]; [by intros [= <- <-]; left| |by intros [= <- <-]; left].
  destruct triggerId as [i|]; [|by intros [= <- <-]; left]. destruct tenantId as [tenant|]; [|by intros [= <- <-]; left].
  destruct (negb (is_uuid i && is_uuid tenant)); [by intros [= <- <-]; left|].
  destruct (findTrigger i rows) as [t|] eqn:Ef; [|by intros [= <- <-]; left].
  apply find_row_spec in Ef as [Ht Hi%String.eqb_eq].
  destruct (t_enabled t) eqn:Een; [|by intros [= <- <-]; left]. cbn [negb orb].
  destruct (String.eqb_spec (t_tenant t) tenant) as [Htt|]; [|by intros [= <- <-]; left]. cbn [negb].
  destruct (String.eqb_spec (signature t rawBody) (String c received)) as [Hsig|]; [|by intros [= <- <-]; left]. cbn [negb]. cbn zeta.
  destruct (triggerRun _ _ _ _ _ _ _ _ _ _) as [st1 r] eqn:Er. intros [= <- <-]. apply triggerRun_result in Er.
  destruct r as [new|e]; [|left; by subst]. right. destruct Er as (-> & row & ? & ? & ? & ?). exists t.
  split_and!; try done; [by rewrite Hi|by rewrite Htt|by rewrite Hsig|]. exists row. by rewrite Htt.
Qed.
End Spec.

(** ** Concrete triggers

    Filters pass, two texts are events and no other is JSON, and the digest is
    the secret and the body. *)

Definition demo_host : TriggerHost := {|
  filter_value := fun _ _ => Ok (VBool true);
  json_parse := fun s => if String.eqb s "event e1" then Some (VObj 0%N [("eventId", VStr "e1"); ("data", VObj 1%N [])])
                         else if String.eqb s "event" then Some (VObj 0%N [("data", VObj 1%N [])]) else None;
  hmac_sha256 := fun secret body => secret +:+ ":" +:+ body
|}.

Definition demo_trigger (ty : trigger_type) (secret : option string) : TriggerRow :=
  {| t_id := "00000000-0000-4000-8000-00000000000a"; t_pipeline := "p1"; t_tenant := "acme"; t_type := ty;
     config := {| channel := "ontology:updated"; cf_eventType := None; filter := None; slug := None; secret := secret |};
     t_enabled := true; t_createdAt := 0 |}.

Definition replica (prefix : string) : EventEnv :=
  {| ev_fresh := fun k => prefix; ev_job := fun _ => None; ev_clock := fun _ => 7%Z |}.
Definition loaded : trigger_state :=
  loadTriggers [demo_trigger trigger_event None] {| channelTriggerMap := []; triggerMap := [] |}.
(** The pipeline of [created], concurrent runs allowed. *)
Definition open_state : run_state :=
  serve (C := minutely) "acme" (Create "p1" "01234567-89ab" 1 "ann"
    {| c_name := "Nightly Load"; c_slug := None; c_description := None;
       c_definition := {| entry := "load"; steps := steps (demo_pipeline "Load"); options := None |}; c_active := true |}) empty_state.

(** What two replicas make of one message, one after the other; nothing compares
    the tenant of the event with the trigger's. *)
Definition received_twice (message : string) : run_state :=
  handleEvent (H := demo_host) (replica "r2") "ontology:updated" message loaded
    (handleEvent (H := demo_host) (replica "r1") "ontology:updated" message loaded open_state).

Example event_once : map row_tenantId (runs (tables (received_twice "event e1"))) = ["acme"].
Proof. vm_compute. reflexivity. Qed.

(** Without an identifier each replica starts a run. *)
Example anonymous_event : length (runs (tables (received_twice "event"))) = 2.
Proof. vm_compute. reflexivity. Qed.

(** The number 1 and the text 1 are one identifier for the index. *)
Definition numbered : delivery :=
  {| on_channel := "ontology:updated"; of_event := {| eventId := VNum (num_of_Z 1); eventType := VUndef; data := VObj 0%N [] |};
     of_trigger := demo_trigger trigger_event None |}.
Definition named : delivery :=
  {| on_channel := "ontology:updated"; of_event := {| eventId := VStr "1"; eventType := VUndef; data := VObj 0%N [] |};
     of_trigger := demo_trigger trigger_event None |}.

Definition receiving_none : receiving := {| base := (open_state, []); selected := []; passed := []; fired := [] |}.

(** Two deliveries both pass the checks before either is written. *)
Lemma event_starts_once_witness :
  exists w, rtc (event_step (H := demo_host) (C := minutely)) receiving_none w /\ length (passed w) = 2 /\ fired w = [("p1", "1")]
    /\ length (runs (tables (base w).1)) = 1
    /\ NoDup (fired w) /\ (("p1", "1") ∈ fired w -> exists r, r ∈ runs (tables (base w).1) /\ row_pipelineId r = "p1"
         /\ triggered_by r = "event" /\ (jm_get "eventId" (trigger_meta r) ≫= arrow_text) = Some "1").
Proof.
  assert (H : exists w, rtc (event_step (H := demo_host) (C := minutely)) receiving_none w /\ length (passed w) = 2
            /\ fired w = [("p1", "1")] /\ length (runs (tables (base w).1)) = 1).
  { eexists. split_and!.
    - eapply rtc_l; [apply (ev_select _ _ _ _ _ numbered); vm_compute; reflexivity|].
      eapply rtc_l; [apply (ev_select _ _ _ _ _ named); vm_compute; reflexivity|].
      eapply rtc_l; [eapply (ev_check _ _ _ _ _ numbered "r1" 7); [by right; left|vm_compute; reflexivity]|].
      eapply rtc_l; [eapply (ev_check _ _ _ _ _ named "r2" 8); [by left|vm_compute; reflexivity]|].
      eapply rtc_l; [eapply (ev_write _ _ _ _ _ _ _ numbered _ None); [by right; left|by constructor|vm_compute; reflexivity]|].
      eapply rtc_l; [eapply (ev_write _ _ _ _ _ _ _ named _ None); [by left|by constructor|vm_compute; reflexivity]|]. apply rtc_refl.
    - reflexivity.
    - vm_compute. reflexivity.
    - vm_compute. reflexivity. }
  destruct H as (w & Hrtc & ? & ? & ?). exists w. split; [done|]. split; [done|]. split; [done|]. split; [done|].
  apply (event_starts_once (H := demo_host) (C := minutely) (open_state, []) w "p1" "1"); [|exact Hrtc].
  split; [|by constructor]. apply serve_ok. exact (proj1 empty_steady).
Defined.

Definition acme : string := "00000000-0000-4000-8000-00000000000b".
Definition acme_state : run_state :=
  serve (C := minutely) acme demo_create empty_state.
Definition acme_trigger (ty : trigger_type) (sec : option string) : TriggerRow :=
  {| t_id := t_id (demo_trigger ty sec); t_pipeline := "p1"; t_tenant := acme; t_type := ty;
     config := config (demo_trigger ty sec); t_enabled := true; t_createdAt := 0 |}.

Lemma webhook_authentic_witness :
  exists st', webhook (H := demo_host) "r1" None 9 (Some "sha256=key:body") (Some (t_id (acme_trigger trigger_webhook None))) (Some acme)
                "body" [acme_trigger trigger_webhook (Some "key")] acme_state = (st', Answered (Ok "r1"))
    /\ exists r, r ∈ runs (tables st') /\ row_id r = "r1" /\ row_pipelineId r = "p1".
Proof.
  eexists. split; [vm_compute; reflexivity|].
  destruct (webhook_authentic (H := demo_host) "r1" None 9 (Some "sha256=key:body") (Some (t_id (acme_trigger trigger_webhook None))) (Some acme)
              "body" [acme_trigger trigger_webhook (Some "key")] acme_state _ _ eq_refl) as [[_ []]|(t & Ht & _ & _ & _ & _ & _ & r & ? & ? & Hp & _)].
  exists r. split; [assumption|]. split; [assumption|]. rewrite Hp.
  apply list_elem_of_singleton in Ht as ->. reflexivity.
Defined.

(** A trigger without a secret, one for events say, is fired by whoever signs
    with the empty key: the route does not ask for the type of the trigger. *)
Example event_trigger_by_webhook :
  (webhook (H := demo_host) "r1" None 9 (Some "sha256=:body") (Some (t_id (acme_trigger trigger_event None))) (Some acme)
     "body" [acme_trigger trigger_event None] acme_state).2 = Answered (Ok "r1").
Proof. vm_compute. reflexivity. Qed.
