(* ===== verification/NodeBuffer.v ===== *)
(** * Buffers

    The operations of Node's [Buffer] that the pgoutput decoder uses, on lists of
    bytes.  A text is kept as its bytes, which is what UTF-8 makes of bytes below
    128. *)

From S2P Require Import Prelude JsString.
From Stdlib Require Import Ascii.

(** Bytes, each in [0, 256). *)
Abbreviation buffer := (list Z).

Inductive buffer_error : Type :=
| RangeError       (* a read outside the buffer *)
| InvalidTime.     (* [toISOString] of an invalid date *)

Definition byte (b : Z) : Prop := (0 <= b < 256)%Z.
Abbreviation bytes l := (Forall byte l).

Definition blen (b : buffer) : Z := Z.of_nat (length b).

(** ** Big-endian integers *)

Definition be_value (l : buffer) : Z := fold_left (fun v b => v * 256 + b)%Z l 0%Z.

(** The [n] bytes of [v], most significant first. *)
Fixpoint be_bytes (n : nat) (v : Z) : buffer :=
  match n with
  | O => []
  | S n => be_bytes n (v / 256) ++ [(v mod 256)%Z]
  end.

(** The [n] bytes at [offset]. *)
Definition read_bytes (n : nat) (buf : buffer) (offset : Z) : result buffer_error buffer :=
  if (0 <=? offset)%Z && (offset + Z.of_nat n <=? blen buf)%Z
  then Ok (take n (drop (Z.to_nat offset) buf))
  else Err RangeError.

Definition readUInt (n : nat) (buf : buffer) (offset : Z) : result buffer_error Z := be_value <$> read_bytes n buf offset.

Definition readUInt8 := readUInt 1.
Definition readUInt16BE := readUInt 2.
Definition readUInt32BE := readUInt 4.
Definition readBigUInt64BE := readUInt 8.

Definition readInt32BE (buf : buffer) (offset : Z) : result buffer_error Z :=
  (fun v => if (v <? 2 ^ 31)%Z then v else (v - 2 ^ 32)%Z) <$> readUInt 4 buf offset.

(** ** Parts of a buffer *)

(** [buf.toString("utf8", start, end)] *)
Definition utf8_slice (buf : buffer) (start stop : Z) : buffer :=
  let start := Z.max 0 start in
  let stop := Z.max 0 (Z.min stop (blen buf)) in
  take (Z.to_nat (stop - start)) (drop (Z.to_nat start) buf).

(** An index of [subarray], which may count from the end. *)
Definition adjust_offset (offset len : Z) : Z :=
  if (offset <? 0)%Z then Z.max 0 (offset + len) else Z.min offset len.

Definition subarray (buf : buffer) (start stop : Z) : buffer :=
  let start := adjust_offset start (blen buf) in
  let stop := adjust_offset stop (blen buf) in
  take (Z.to_nat (stop - start)) (drop (Z.to_nat start) buf).

Fixpoint find_zero (l : buffer) (k : Z) : option Z :=
  match l with
  | [] => None
  | b :: l => if (b =? 0)%Z then Some k else find_zero l (k + 1)
  end.

(** [buf.indexOf(0, offset)] for an offset that is not negative. *)
Definition index_of_zero (buf : buffer) (offset : Z) : Z :=
  default (-1)%Z (find_zero (drop (Z.to_nat offset) buf) offset).

(** ** Texts *)

Definition char_byte (c : ascii) : Z := Z.of_N (code c).
Definition byte_char (b : Z) : ascii := ascii_of_N (Z.to_N b).

Definition text_bytes (s : string) : buffer := map char_byte (explode s).
Definition bytes_text (l : buffer) : string := implode (map byte_char l).

(** [toString("base64")] *)
Definition base64_char (v : Z) : ascii :=
  (if v <? 26 then byte_char (65 + v)
   else if v <? 52 then byte_char (71 + v)
   else if v <? 62 then byte_char (v - 4)
   else if v =? 62 then "+"%char else "/"%char)%Z.

Fixpoint base64_chars (l : buffer) : list ascii :=
  match l with
  | [] => []
  | [a] => [base64_char (Z.shiftr a 2); base64_char (Z.shiftl (Z.land a 3) 4); "="%char; "="%char]
  | [a; b] =>
      [base64_char (Z.shiftr a 2); base64_char (Z.lor (Z.shiftl (Z.land a 3) 4) (Z.shiftr b 4));
       base64_char (Z.shiftl (Z.land b 15) 2); "="%char]
  | a :: b :: c :: l =>
      [base64_char (Z.shiftr a 2); base64_char (Z.lor (Z.shiftl (Z.land a 3) 4) (Z.shiftr b 4));
       base64_char (Z.lor (Z.shiftl (Z.land b 15) 2) (Z.shiftr c 6)); base64_char (Z.land c 63)] ++ base64_chars l
  end.

Definition base64 (l : buffer) : string := implode (base64_chars l).

Example base64_hello : base64 (text_bytes "hello") = "aGVsbG8=".
Proof. vm_compute. reflexivity. Qed.
Example base64_bytes : base64 [0; 255; 128; 62]%Z = "AP+APg==".
Proof. vm_compute. reflexivity. Qed.

(** ** Lemmas *)

Lemma be_bytes_length n v : length (be_bytes n v) = n.
Proof. revert v. induction n as [|n IH]; intros v; cbn; [done|]. rewrite length_app, IH. cbn. lia. Qed.

Lemma be_bytes_byte n v : bytes (be_bytes n v).
Proof.
  revert v. induction n as [|n IH]; intros v; cbn; [constructor|]. apply Forall_app. split; [done|].
  constructor; [|done]. unfold byte. pose proof (Z.mod_pos_bound v 256). lia.
Qed.

Lemma be_value_app l k : be_value (l ++ k) = (be_value l * 256 ^ Z.of_nat (length k) + be_value k)%Z.
Proof.
  unfold be_value. rewrite fold_left_app. generalize (fold_left (fun v b => v * 256 + b)%Z l 0%Z) as v.
  enough (H : forall k v w, fold_left (fun v b => v * 256 + b)%Z k (v + w)%Z
            = (v * 256 ^ Z.of_nat (length k) + fold_left (fun v b => v * 256 + b)%Z k w)%Z).
  { intros v. specialize (H k v 0%Z). by rewrite Z.add_0_r in H. }
  clear. intros k. induction k as [|b k IH]; intros v w; cbn [fold_left length].
  - cbn. lia.
  - replace ((v + w) * 256 + b)%Z with (v * 256 + (w * 256 + b))%Z by lia. rewrite IH.
    rewrite Nat2Z.inj_succ, Z.pow_succ_r by lia. lia.
Qed.

Lemma be_value_bytes n v : (0 <= v < 256 ^ Z.of_nat n)%Z -> be_value (be_bytes n v) = v.
Proof.
  revert v. induction n as [|n IH]; intros v H; cbn [be_bytes].
  - cbn in *. lia.
  - rewrite Nat2Z.inj_succ, Z.pow_succ_r in H by lia. rewrite be_value_app, IH.
    + cbn. pose proof (Z.div_mod v 256). lia.
    + split; [apply Z.div_pos; lia|apply Z.div_lt_upper_bound; lia].
Qed.

(** The bytes [l] stand in the buffer at [off]. *)
Definition starts_at (buf : buffer) (off : Z) (l : buffer) : Prop :=
  exists front rest, buf = front ++ l ++ rest /\ off = blen front.

Lemma starts_at_whole l : starts_at l 0 l.
Proof. exists [], []. by rewrite app_nil_r. Qed.

Lemma starts_at_app buf off l k :
  starts_at buf off (l ++ k) -> starts_at buf off l /\ starts_at buf (off + blen l) k.
Proof.
  intros (front & rest & -> & ->). split.
  - exists front, (k ++ rest). by rewrite <- app_assoc.
  - exists (front ++ l), rest. rewrite <- !app_assoc. split; [done|]. unfold blen. rewrite length_app. lia.
Qed.

Lemma starts_at_cons buf off b l : starts_at buf off (b :: l) -> starts_at buf off [b] /\ starts_at buf (off + 1) l.
Proof. apply (starts_at_app buf off [b] l). Qed.

Lemma starts_at_pos buf off l : starts_at buf off l -> (0 <= off /\ off + blen l <= blen buf)%Z.
Proof. intros (front & rest & -> & ->). unfold blen. rewrite !length_app. lia. Qed.

Lemma take_drop_at front (l rest : buffer) n :
  Z.to_nat n = length l -> take (Z.to_nat n) (drop (Z.to_nat (blen front)) (front ++ l ++ rest)) = l.
Proof. intros ->. unfold blen. by rewrite Nat2Z.id, drop_app_length, take_app_length. Qed.

Lemma read_bytes_at n buf off l : starts_at buf off l -> length l = n -> read_bytes n buf off = Ok l.
Proof.
  intros Hs <-. pose proof (starts_at_pos _ _ _ Hs) as [H1 H2]. unfold read_bytes.
  rewrite (proj2 (Z.leb_le 0 off)) by lia. unfold blen in *. rewrite (proj2 (Z.leb_le _ _)) by lia. cbn.
  destruct Hs as (front & rest & -> & ->). rewrite <- (Nat2Z.id (length l)) at 1. f_equal. apply take_drop_at. lia.
Qed.

Lemma readUInt_at n buf off v :
  starts_at buf off (be_bytes n v) -> (0 <= v < 256 ^ Z.of_nat n)%Z -> readUInt n buf off = Ok v.
Proof.
  intros Hs Hv. unfold readUInt. rewrite (read_bytes_at _ _ _ _ Hs) by apply be_bytes_length. cbn. by rewrite be_value_bytes.
Qed.

(** A signed integer is its two's complement. *)
Lemma readInt32_at buf off v :
  starts_at buf off (be_bytes 4 (v mod 2 ^ 32)) -> (- 2 ^ 31 <= v < 2 ^ 31)%Z -> readInt32BE buf off = Ok v.
Proof.
  intros Hs Hv. unfold readInt32BE. rewrite (readUInt_at _ _ _ _ Hs) by (cbn; apply Z.mod_pos_bound; lia). cbn. f_equal.
  destruct (Z.ltb_spec (v mod 2 ^ 32) (2 ^ 31)) as [H|H].
  - destruct (Z.le_gt_cases 0 v); [by apply Z.mod_small; lia|].
    rewrite <- (Z_mod_plus_full v 1), Z.mod_small in H by lia. lia.
  - destruct (Z.le_gt_cases 0 v); [rewrite Z.mod_small in H by lia; lia|].
    rewrite <- (Z_mod_plus_full v 1), Z.mod_small by lia. lia.
Qed.

Lemma utf8_slice_at buf off l : starts_at buf off l -> utf8_slice buf off (off + blen l) = l.
Proof.
  intros Hs. pose proof (starts_at_pos _ _ _ Hs) as [H1 H2]. unfold utf8_slice.
  rewrite (Z.max_r 0 off), (Z.min_l (off + blen l)), Z.max_r by (unfold blen in *; lia).
  destruct Hs as (front & rest & -> & ->). apply take_drop_at. unfold blen. lia.
Qed.

Lemma subarray_at buf off l : starts_at buf off l -> subarray buf off (off + blen l) = l.
Proof.
  intros Hs. pose proof (starts_at_pos _ _ _ Hs) as [H1 H2]. unfold subarray, adjust_offset.
  rewrite !(proj2 (Z.ltb_ge _ 0)) by (unfold blen in *; lia). rewrite !Z.min_l by (unfold blen in *; lia).
  destruct Hs as (front & rest & -> & ->). apply take_drop_at. unfold blen. lia.
Qed.

Lemma find_zero_at l rest k : Forall (fun b => b <> 0%Z) l -> find_zero (l ++ 0%Z :: rest) k = Some (k + blen l)%Z.
Proof.
  intros H. revert k. induction H as [|b l Hb _ IH]; intros k; cbn.
  - f_equal. unfold blen. cbn. lia.
  - rewrite (proj2 (Z.eqb_neq b 0) Hb), IH. f_equal. unfold blen. cbn [length]. lia.
Qed.

Lemma index_of_zero_at buf off l :
  starts_at buf off (l ++ [0%Z]) -> Forall (fun b => b <> 0%Z) l -> index_of_zero buf off = (off + blen l)%Z.
Proof.
  intros (front & rest & -> & ->) Hl. unfold index_of_zero, blen at 1. rewrite Nat2Z.id, drop_app_length, <- app_assoc.
  cbn [app]. by rewrite find_zero_at.
Qed.

Lemma bytes_text_bytes s : bytes_text (text_bytes s) = s.
Proof.
  unfold bytes_text, text_bytes. rewrite map_map. rewrite <- (implode_explode s) at 2. f_equal.
  rewrite <- (map_id (explode s)) at 2. apply map_ext. intros c. unfold byte_char, char_byte, code.
  by rewrite N2Z.id, ascii_N_embedding.
Qed.

Lemma text_bytes_length s : length (text_bytes s) = String.length s.
Proof. unfold text_bytes. rewrite length_map. apply length_explode. Qed.
