(* ===== verification/PgOutput.v ===== *)
(** * The pgoutput decoder

    services/ingestion/src/connectors/postgres-cdc/pgoutput-decoder.ts.  The
    second half writes the messages of the protocol's documentation, and the
    decoder gives back what was written.  The positions of lsn.ts come first. *)

From S2P Require Import Prelude JsString JsNumber NodeBuffer JsValue JsHost.
From Stdlib Require Import Ascii.

(** ** WAL positions

    services/ingestion/src/connectors/postgres-cdc/lsn.ts: a position is a 64-bit
    number, written as two groups of hexadecimal digits. *)

(** A digit of [toString(16).toUpperCase()]. *)
Definition hex_char (v : Z) : ascii := if (v <? 10)%Z then byte_char (48 + v) else byte_char (55 + v).

(** [toString(16).toUpperCase()]; the fuel is the number of digits, 16 for 64 bits. *)
Fixpoint hex_digits (fuel : nat) (v : Z) : list ascii :=
  match fuel with
  | O => []
  | S fuel => (if (v <? 16)%Z then [] else hex_digits fuel (v / 16)) ++ [hex_char (v mod 16)]
  end.

(** [padStart(n, "0")] *)
Definition pad_zero (n : nat) (l : list ascii) : list ascii := replicate (n - length l) "0"%char ++ l.

Definition lsn_group (v : Z) : list ascii := pad_zero 8 (hex_digits 16 v).

(** The template of a position from its halves, which the decoder has too. *)
Definition lsn_text (high low : Z) : string := implode (lsn_group high ++ "/"%char :: lsn_group low).

(** The two groups of [LSN_PATTERN]. *)
Definition lsn_groups (s : string) : option (list ascii * list ascii) :=
  let '(high, rest) := span is_hex (explode s) in
  match rest with
  | c :: low =>
      if Ascii.eqb c "/" && forallb is_hex low
         && (1 <=? length high)%nat && (length high <=? 8)%nat && (1 <=? length low)%nat && (length low <=? 8)%nat
      then Some (high, low) else None
  | [] => None
  end.

Inductive lsn_error : Type := InvalidLsn.

Definition parseLsn (s : string) : result lsn_error Z :=
  match lsn_groups s with
  | Some (high, low) => Ok (Z.lor (Z.shiftl (digits_value 16 high) 32) (digits_value 16 low))
  | None => Err InvalidLsn
  end.

Definition formatLsn (v : Z) : string := lsn_text (Z.land (Z.shiftr v 32) (2 ^ 32 - 1)) (Z.land v (2 ^ 32 - 1)).

Definition lsnLessThan (a b : string) : result lsn_error bool :=
  x ← parseLsn a; y ← parseLsn b; Ok (x <? y)%Z.

Definition maxLsn (a b : string) : result lsn_error string :=
  x ← parseLsn a; y ← parseLsn b; Ok (if (y <=? x)%Z then a else b).

(** ** Lemmas *)

Lemma hex_char_spec v : (0 <= v < 16)%Z -> is_hex (hex_char v) = true /\ digit_value (hex_char v) = v.
Proof.
  intros H. assert (Hall : forall k, (k < 16)%nat -> is_hex (hex_char (Z.of_nat k)) = true /\ digit_value (hex_char (Z.of_nat k)) = Z.of_nat k).
  { intros k Hk. do 16 (destruct k as [|k]; [split; vm_compute; reflexivity|]). lia. }
  rewrite <- (Z2Nat.id v) by lia. apply Hall. lia.
Qed.

(** Exactly [n] digits. *)
Fixpoint hex_fixed (n : nat) (v : Z) : list ascii :=
  match n with O => [] | S n => hex_fixed n (v / 16) ++ [hex_char (v mod 16)] end.

Lemma hex_fixed_length n v : length (hex_fixed n v) = n.
Proof. revert v. induction n as [|n IH]; intros v; cbn; [done|]. rewrite length_app, IH. cbn. lia. Qed.

Lemma hex_fixed_zero n : hex_fixed n 0 = replicate n "0"%char.
Proof.
  induction n as [|n IH]; [done|]. cbn [hex_fixed]. rewrite Z.div_0_l, IH by done.
  change (hex_char (0 mod 16)) with "0"%char. by rewrite <- replicate_cons_app.
Qed.

Lemma pad_zero_snoc n l c : pad_zero (S n) (l ++ [c]) = pad_zero n l ++ [c].
Proof. unfold pad_zero. rewrite length_app. cbn [length]. rewrite app_assoc. do 3 f_equal. lia. Qed.

Lemma hex_digits_fixed fuel n v :
  (1 <= n <= fuel)%nat -> (0 <= v < 16 ^ Z.of_nat n)%Z -> pad_zero n (hex_digits fuel v) = hex_fixed n v.
Proof.
  revert fuel v. induction n as [|n IH]; intros fuel v Hn Hv; [lia|]. destruct fuel as [|fuel]; [lia|].
  cbn [hex_digits hex_fixed]. rewrite pad_zero_snoc. f_equal. rewrite Nat2Z.inj_succ, Z.pow_succ_r in Hv by lia.
  destruct (Z.ltb_spec v 16) as [Hlt|Hge].
  - rewrite Z.div_small by lia. rewrite hex_fixed_zero. unfold pad_zero. cbn. by rewrite Nat.sub_0_r, app_nil_r.
  - destruct (decide (n = 0)) as [->|Hn0]; [cbn in Hv; lia|]. apply IH; [lia|].
    split; [apply Z.div_pos; lia|apply Z.div_lt_upper_bound; lia].
Qed.

Lemma hex_fixed_hex n v : (0 <= v)%Z -> Forall (fun c => is_hex c = true) (hex_fixed n v).
Proof.
  revert v. induction n as [|n IH]; intros v Hv; cbn; [constructor|]. apply Forall_app. split; [apply IH, Z.div_pos; lia|].
  constructor; [|done]. apply hex_char_spec, Z.mod_pos_bound. lia.
Qed.

Lemma digits_value_fixed n v : (0 <= v < 16 ^ Z.of_nat n)%Z -> digits_value 16 (hex_fixed n v) = v.
Proof.
  revert v. induction n as [|n IH]; intros v Hv; cbn [hex_fixed]; [cbn in *; lia|].
  rewrite Nat2Z.inj_succ, Z.pow_succ_r in Hv by lia. unfold digits_value in *. rewrite fold_left_app, IH.
  - cbn [fold_left]. rewrite (proj2 (hex_char_spec (v mod 16) (Z.mod_pos_bound v 16 ltac:(lia)))).
    pose proof (Z.div_mod v 16). lia.
  - split; [apply Z.div_pos; lia|apply Z.div_lt_upper_bound; lia].
Qed.

Lemma span_all_stop {A} (f : A -> bool) l c r :
  Forall (fun x => f x = true) l -> f c = false -> span f (l ++ c :: r) = (l, c :: r).
Proof. intros H Hc. induction H as [|x l Hx _ IH]; cbn; [by rewrite Hc|]. by rewrite Hx, IH. Qed.

Lemma span_hex l : Forall (fun c => is_hex c = true) (span is_hex l).1.
Proof.
  induction l as [|c l IH]; cbn; [constructor|]. destruct (is_hex c) eqn:E; [|constructor].
  destruct (span is_hex l). by constructor.
Qed.

Lemma lsn_group_fixed v : (0 <= v < 2 ^ 32)%Z -> lsn_group v = hex_fixed 8 v.
Proof. intros H. apply hex_digits_fixed; [lia|]. exact H. Qed.

Lemma lor_halves high low :
  (0 <= low < 2 ^ 32)%Z -> Z.lor (Z.shiftl high 32) low = (high * 2 ^ 32 + low)%Z.
Proof.
  intros Hl. assert (H0 : Z.land (Z.shiftl high 32) low = 0%Z).
  { apply Z.bits_inj'. intros n Hn. rewrite Z.land_spec, Z.bits_0. destruct (Z.lt_ge_cases n 32) as [H|H].
    - by rewrite Z.shiftl_spec_low.
    - rewrite <- (Z.mod_small low (2 ^ 32)), Z.mod_pow2_bits_high by lia. apply andb_false_r. }
  rewrite <- Z.lxor_lor by done. rewrite <- Z.add_nocarry_lxor by done. by rewrite Z.shiftl_mul_pow2.
Qed.

Lemma lsn_groups_text high low :
  (0 <= high < 2 ^ 32)%Z -> (0 <= low < 2 ^ 32)%Z -> lsn_groups (lsn_text high low) = Some (hex_fixed 8 high, hex_fixed 8 low).
Proof.
  intros Hh Hl. unfold lsn_groups, lsn_text. rewrite explode_implode, !lsn_group_fixed by done.
  rewrite (span_all_stop is_hex) by (try apply hex_fixed_hex; try done; lia).
  rewrite (proj2 (forallb_forall is_hex (hex_fixed 8 low))).
  2:{ intros c Hc%list_elem_of_In. pose proof (hex_fixed_hex 8 low) as H. rewrite Forall_forall in H. apply H; [lia|done]. }
  by rewrite !hex_fixed_length.
Qed.

Lemma parse_lsn_text high low :
  (0 <= high < 2 ^ 32)%Z -> (0 <= low < 2 ^ 32)%Z -> parseLsn (lsn_text high low) = Ok (high * 2 ^ 32 + low)%Z.
Proof.
  intros Hh Hl. unfold parseLsn. rewrite lsn_groups_text by done. f_equal.
  rewrite !digits_value_fixed by done. by apply lor_halves.
Qed.

Lemma format_halves v : (0 <= v < 2 ^ 64)%Z -> formatLsn v = lsn_text (v / 2 ^ 32) (v mod 2 ^ 32).
Proof.
  intros H. unfold formatLsn. change (2 ^ 32 - 1)%Z with (Z.ones 32).
  rewrite !Z.land_ones, Z.shiftr_div_pow2 by lia. rewrite (Z.mod_small (v / _)); [done|].
  split; [apply Z.div_pos; lia|apply Z.div_lt_upper_bound; lia].
Qed.

Lemma half_bounds v : (0 <= v < 2 ^ 64)%Z -> (0 <= v / 2 ^ 32 < 2 ^ 32)%Z /\ (0 <= v mod 2 ^ 32 < 2 ^ 32)%Z.
Proof.
  intros H. split; [split; [apply Z.div_pos; lia|apply Z.div_lt_upper_bound; lia]|apply Z.mod_pos_bound; lia].
Qed.

Lemma parse_format v : (0 <= v < 2 ^ 64)%Z -> parseLsn (formatLsn v) = Ok v.
Proof.
  intros H. destruct (half_bounds v H). rewrite format_halves, parse_lsn_text by done.
  f_equal. pose proof (Z.div_mod v (2 ^ 32)). lia.
Qed.

(** Every text that parses is a 64-bit position. *)
Lemma parse_range s v : parseLsn s = Ok v -> (0 <= v < 2 ^ 64)%Z.
Proof.
  unfold parseLsn, lsn_groups. destruct (span is_hex (explode s)) as [high rest] eqn:E.
  destruct rest as [|c low]; [done|]. destruct (_ && _) eqn:Ec; [|done]. intros [= <-].
  rewrite !andb_true_iff, !Nat.leb_le in Ec. destruct Ec as (((((_ & Hlow) & _) & Hh) & _) & Hl).
  assert (Hhigh : Forall (fun c => is_hex c = true) high).
  { replace high with (span is_hex (explode s)).1 by (by rewrite E). apply span_hex. }
  assert (Hlow' : Forall (fun c => is_hex c = true) low).
  { apply Forall_forall. intros x Hx%list_elem_of_In. by apply (proj1 (forallb_forall _ _) Hlow). }
  assert (Hb : forall l, Forall (fun c => is_hex c = true) l -> (length l <= 8)%nat -> (0 <= digits_value 16 l < 2 ^ 32)%Z).
  { intros l H1 H2. pose proof (digits_value_range l H1) as H3. split; [lia|]. eapply Z.lt_le_trans; [apply H3|].
    change (2 ^ 32)%Z with (16 ^ 8)%Z. apply Z.pow_le_mono_r; lia. }
  pose proof (Hb high Hhigh Hh). pose proof (Hb low Hlow' Hl). rewrite lor_halves by done. lia.
Qed.

(** The greater of a position and the text of another. *)
Lemma max_lsn_format p a b :
  parseLsn p = Ok a -> (0 <= b < 2 ^ 64)%Z ->
  exists m, maxLsn p (formatLsn b) = Ok m /\ parseLsn m = Ok (Z.max a b).
Proof.
  intros Hp Hb. unfold maxLsn. rewrite Hp, parse_format by done. cbn [mbind result_mbind result_bind].
  eexists. split; [done|]. destruct (Z.leb_spec b a); [rewrite Hp|rewrite parse_format by done]; f_equal; lia.
Qed.

(** A position survives being written and read, for all of its 64 bits; the
    order of the texts is that of the positions, and the larger of two texts
    parses to the larger position. *)
Theorem lsn_roundtrip a b :
  (0 <= a < 2 ^ 64)%Z -> (0 <= b < 2 ^ 64)%Z ->
  parseLsn (formatLsn a) = Ok a
  /\ lsnLessThan (formatLsn a) (formatLsn b) = Ok (a <? b)%Z
  /\ (maxLsn (formatLsn a) (formatLsn b) ≫= fun s => parseLsn s) = Ok (Z.max a b)
  /\ formatLsn (a + 2 ^ 64) = formatLsn a.
Proof.
  intros Ha Hb. unfold lsnLessThan, maxLsn. rewrite !parse_format by done. cbn [mbind result_mbind result_bind].
  split_and!; [done|done| |].
  - destruct (Z.leb_spec b a); cbn [mbind result_mbind result_bind]; rewrite parse_format by done; f_equal; lia.
  - unfold formatLsn. change (2 ^ 32 - 1)%Z with (Z.ones 32). rewrite !Z.land_ones, !Z.shiftr_div_pow2 by lia. f_equal.
    + replace (a + 2 ^ 64)%Z with (a + 2 ^ 32 * 2 ^ 32)%Z by lia. rewrite Z.div_add by lia.
      by rewrite <- (Z.mul_1_l (2 ^ 32)) at 2; rewrite Z_mod_plus_full.
    + replace (a + 2 ^ 64)%Z with (a + 2 ^ 32 * 2 ^ 32)%Z by lia. by rewrite Z_mod_plus_full.
Qed.

Lemma lsn_roundtrip_witness :
  parseLsn (formatLsn 94906265625) = Ok 94906265625%Z /\ formatLsn 94906265625 = "00000016/18DAB019"
  /\ maxLsn "0/0" "00000016/18DAB019" = Ok "00000016/18DAB019".
Proof.
  destruct (lsn_roundtrip 94906265625 0) as (H & _); [lia|lia|]. split; [exact H|]. split; vm_compute; reflexivity.
Defined.

Example lsn_refused : map (fun s => is_ok (parseLsn s)) ["0/0"; "/0"; "123456789/0"; "0/0/0"; "G/0"] = [true; false; false; false; false].
Proof. vm_compute. reflexivity. Qed.

(** ** Messages (types.ts) *)

Inductive TupleColumn : Type :=
| col_text (v : string)
| col_binary (v : string)
| col_null
| col_unchanged_toast.

Abbreviation TupleData := (list TupleColumn).

Inductive replica_identity : Type := id_default | id_nothing | id_full | id_index.

Record RelationColumn : Type := { flags : Z; col_name : string; typeId : Z; typeMod : Z }.

Inductive DecodedMessage : Type :=
| RelationMessage (relationId : Z) (schema name : string) (replicaIdentity : replica_identity) (columns : list RelationColumn)
| BeginMessage (lsn : string) (commitTime xid : Z)
| CommitMessage (flags : Z) (lsn endLsn : string) (commitTime : Z)
| InsertMessage (relationId : Z) (new : TupleData)
| UpdateMessage (relationId : Z) (old : option TupleData) (new : TupleData)
| DeleteMessage (relationId : Z) (old key : option TupleData).

(** ** Times *)

Definition PG_EPOCH_MS : Z := 946684800000.

(** [toISOString] throws beyond 8.64e15 milliseconds. *)
Definition pgTimestampToIso (pgMicros : Z) : result buffer_error string :=
  let ms := (PG_EPOCH_MS + pgMicros / 1000)%Z in
  if (Z.abs ms <=? 8640000000000000)%Z then Ok (iso_string ms) else Err InvalidTime.

(** ** Tuples *)

(** The text of one byte; empty beyond the buffer. *)
Definition kind_at (buf : buffer) (offset : Z) : option ascii := byte_char <$> head (utf8_slice buf offset (offset + 1)).

(** One column, and the offset after it. *)
Definition decode_column (buf : buffer) (offset : Z) : result buffer_error (TupleColumn * Z) :=
  let kind := kind_at buf offset in
  let offset := (offset + 1)%Z in
  if bool_decide (kind = Some "n"%char) then Ok (col_null, offset)
  else if bool_decide (kind = Some "u"%char) then Ok (col_unchanged_toast, offset)
  else if bool_decide (kind = Some "t"%char) then
    len ← readInt32BE buf offset;
    let offset := (offset + 4)%Z in
    Ok (col_text (bytes_text (utf8_slice buf offset (offset + len))), offset + len)%Z
  else if bool_decide (kind = Some "b"%char) then
    len ← readInt32BE buf offset;
    let offset := (offset + 4)%Z in
    Ok (col_binary (base64 (subarray buf offset (offset + len))), offset + len)%Z
  else Ok (col_null, offset).

(** The loops of the decoder: [n] items, each from the offset the last one left. *)
Fixpoint decode_many {A} (item : Z -> result buffer_error (A * Z)) (n : nat) (offset : Z) : result buffer_error (list A * Z) :=
  match n with
  | O => Ok ([], offset)
  | S n =>
      '(x, offset) ← item offset;
      '(xs, offset) ← decode_many item n offset;
      Ok (x :: xs, offset)
  end.

Definition decodeTuple (buf : buffer) (offset : Z) : result buffer_error (TupleData * Z) :=
  columnCount ← readUInt16BE buf offset;
  decode_many (decode_column buf) (Z.to_nat columnCount) (offset + 2).

(** ** Messages *)

(** A text that a zero byte ends, and the offset after it. *)
Definition decode_name (buf : buffer) (offset : Z) : string * Z :=
  let stop := index_of_zero buf offset in
  (bytes_text (utf8_slice buf offset stop), stop + 1)%Z.

Definition replicaIdentityMap (b : Z) : replica_identity :=
  if (b =? 100)%Z then id_default else if (b =? 110)%Z then id_nothing
  else if (b =? 102)%Z then id_full else if (b =? 105)%Z then id_index else id_default.

Definition decode_relation_column (buf : buffer) (offset : Z) : result buffer_error (RelationColumn * Z) :=
  fl ← readUInt8 buf offset;
  let '(name, offset) := decode_name buf (offset + 1) in
  ty ← readUInt32BE buf offset;
  modifier ← readInt32BE buf (offset + 4);
  Ok ({| flags := fl; col_name := name; typeId := ty; typeMod := modifier |}, offset + 8)%Z.

Definition decodeRelation (buf : buffer) : result buffer_error DecodedMessage :=
  relationId ← readUInt32BE buf 1;
  let '(schema, offset) := decode_name buf 5 in
  let '(name, offset) := decode_name buf offset in
  identity ← readUInt8 buf offset;
  columnCount ← readUInt16BE buf (offset + 1);
  '(columns, _) ← decode_many (decode_relation_column buf) (Z.to_nat columnCount) (offset + 3);
  Ok (RelationMessage relationId schema name (replicaIdentityMap identity) columns).

Definition decode_lsn (buf : buffer) (offset : Z) : result buffer_error string :=
  high ← readUInt32BE buf offset;
  low ← readUInt32BE buf (offset + 4);
  Ok (lsn_text high low).

Definition decodeBegin (buf : buffer) : result buffer_error DecodedMessage :=
  lsn ← decode_lsn buf 1;
  commitTime ← readBigUInt64BE buf 9;
  xid ← readUInt32BE buf 17;
  Ok (BeginMessage lsn commitTime xid).

Definition decodeCommit (buf : buffer) : result buffer_error DecodedMessage :=
  fl ← readUInt8 buf 1;
  lsn ← decode_lsn buf 2;
  endLsn ← decode_lsn buf 10;
  commitTime ← readBigUInt64BE buf 18;
  Ok (CommitMessage fl lsn endLsn commitTime).

Definition decodeInsert (buf : buffer) : result buffer_error DecodedMessage :=
  relationId ← readUInt32BE buf 1;
  '(new, _) ← decodeTuple buf 6;
  Ok (InsertMessage relationId new).

Definition decodeUpdate (buf : buffer) : result buffer_error DecodedMessage :=
  relationId ← readUInt32BE buf 1;
  let marker := kind_at buf 5 in
  if bool_decide (marker = Some "O"%char) || bool_decide (marker = Some "K"%char) then
    '(old, offset) ← decodeTuple buf 6;
    '(new, _) ← decodeTuple buf (offset + 1);
    Ok (UpdateMessage relationId (Some old) new)
  else
    '(new, _) ← decodeTuple buf 6;
    Ok (UpdateMessage relationId None new).

Definition decodeDelete (buf : buffer) : result buffer_error DecodedMessage :=
  relationId ← readUInt32BE buf 1;
  let marker := kind_at buf 5 in
  if bool_decide (marker = Some "O"%char) then
    '(old, _) ← decodeTuple buf 6; Ok (DeleteMessage relationId (Some old) None)
  else if bool_decide (marker = Some "K"%char) then
    '(key, _) ← decodeTuple buf 6; Ok (DeleteMessage relationId None (Some key))
  else Ok (DeleteMessage relationId None None).

(** [None]: a message that the consumer skips. *)
Definition decodePgOutputMessage (buf : buffer) : result buffer_error (option DecodedMessage) :=
  match buf with
  | [] => Ok None
  | _ =>
      match kind_at buf 0 with
      | Some "R"%char => Some <$> decodeRelation buf
      | Some "B"%char => Some <$> decodeBegin buf
      | Some "C"%char => Some <$> decodeCommit buf
      | Some "I"%char => Some <$> decodeInsert buf
      | Some "U"%char => Some <$> decodeUpdate buf
      | Some "D"%char => Some <$> decodeDelete buf
      | _ => Ok None
      end
  end.

(** ** The protocol: what the server writes *)

Inductive datum : Type :=
| d_null
| d_unchanged
| d_text (s : string)
| d_binary (l : buffer).

Inductive pg_message : Type :=
| PgRelation (oid : Z) (namespace name : string) (identity : replica_identity) (columns : list RelationColumn)
| PgBegin (final_lsn time xid : Z)
| PgCommit (fl commit_lsn end_lsn time : Z)
| PgInsert (oid : Z) (new : list datum)
| PgUpdate (oid : Z) (old : option (ascii * list datum)) (new : list datum)
| PgDelete (oid : Z) (marker : ascii) (old : list datum).

Definition tag (c : ascii) : buffer := [char_byte c].
Definition cstring (s : string) : buffer := text_bytes s ++ [0%Z].

Definition put_datum (d : datum) : buffer :=
  match d with
  | d_null => tag "n"
  | d_unchanged => tag "u"
  | d_text s => tag "t" ++ be_bytes 4 (blen (text_bytes s)) ++ text_bytes s
  | d_binary l => tag "b" ++ be_bytes 4 (blen l) ++ l
  end.

Definition put_tuple (l : list datum) : buffer := be_bytes 2 (Z.of_nat (length l)) ++ flat_map put_datum l.

Definition identity_char (i : replica_identity) : ascii :=
  match i with id_default => "d" | id_nothing => "n" | id_full => "f" | id_index => "i" end.

Definition put_column (c : RelationColumn) : buffer :=
  be_bytes 1 (flags c) ++ cstring (col_name c) ++ be_bytes 4 (typeId c) ++ be_bytes 4 (typeMod c mod 2 ^ 32).

Definition put_message (m : pg_message) : buffer :=
  match m with
  | PgRelation oid ns name i cols =>
      tag "R" ++ be_bytes 4 oid ++ cstring ns ++ cstring name ++ tag (identity_char i)
        ++ be_bytes 2 (Z.of_nat (length cols)) ++ flat_map put_column cols
  | PgBegin lsn time xid => tag "B" ++ be_bytes 8 lsn ++ be_bytes 8 time ++ be_bytes 4 xid
  | PgCommit fl lsn end_lsn time =>
      tag "C" ++ be_bytes 1 fl ++ be_bytes 8 lsn ++ be_bytes 8 end_lsn ++ be_bytes 8 time
  | PgInsert oid new => tag "I" ++ be_bytes 4 oid ++ tag "N" ++ put_tuple new
  | PgUpdate oid (Some (c, old)) new => tag "U" ++ be_bytes 4 oid ++ tag c ++ put_tuple old ++ tag "N" ++ put_tuple new
  | PgUpdate oid None new => tag "U" ++ be_bytes 4 oid ++ tag "N" ++ put_tuple new
  | PgDelete oid c old => tag "D" ++ be_bytes 4 oid ++ tag c ++ put_tuple old
  end.

(** The ranges of the protocol's fields. *)
Definition uint (n : nat) (v : Z) : Prop := (0 <= v < 256 ^ Z.of_nat n)%Z.
Definition no_nul (s : string) : Prop := Forall (fun b => b <> 0%Z) (text_bytes s).

Definition datum_ok (d : datum) : Prop :=
  match d with
  | d_null | d_unchanged => True
  | d_text s => (blen (text_bytes s) < 2 ^ 31)%Z
  | d_binary l => (blen l < 2 ^ 31)%Z
  end.

Definition tuple_ok (l : list datum) : Prop := uint 2 (Z.of_nat (length l)) /\ Forall datum_ok l.

Definition column_ok (c : RelationColumn) : Prop :=
  uint 1 (flags c) /\ no_nul (col_name c) /\ uint 4 (typeId c) /\ (- 2 ^ 31 <= typeMod c < 2 ^ 31)%Z.

Definition message_ok (m : pg_message) : Prop :=
  match m with
  | PgRelation oid ns name _ cols =>
      uint 4 oid /\ no_nul ns /\ no_nul name /\ uint 2 (Z.of_nat (length cols)) /\ Forall column_ok cols
  | PgBegin lsn time xid => uint 8 lsn /\ uint 8 time /\ uint 4 xid
  | PgCommit fl lsn end_lsn time => uint 1 fl /\ uint 8 lsn /\ uint 8 end_lsn /\ uint 8 time
  | PgInsert oid new => uint 4 oid /\ tuple_ok new
  | PgUpdate oid (Some (c, old)) new => uint 4 oid /\ (c = "O"%char \/ c = "K"%char) /\ tuple_ok old /\ tuple_ok new
  | PgUpdate oid None new => uint 4 oid /\ tuple_ok new
  | PgDelete oid c old => uint 4 oid /\ (c = "O"%char \/ c = "K"%char) /\ tuple_ok old
  end.

(** The message as the program has it. *)
Definition seen_datum (d : datum) : TupleColumn :=
  match d with
  | d_null => col_null
  | d_unchanged => col_unchanged_toast
  | d_text s => col_text s
  | d_binary l => col_binary (base64 l)
  end.

Definition seen (m : pg_message) : DecodedMessage :=
  match m with
  | PgRelation oid ns name i cols => RelationMessage oid ns name i cols
  | PgBegin lsn time xid => BeginMessage (formatLsn lsn) time xid
  | PgCommit fl lsn end_lsn time => CommitMessage fl (formatLsn lsn) (formatLsn end_lsn) time
  | PgInsert oid new => InsertMessage oid (map seen_datum new)
  | PgUpdate oid old new => UpdateMessage oid (map seen_datum ∘ snd <$> old) (map seen_datum new)
  | PgDelete oid c old =>
      if Ascii.eqb c "O" then DeleteMessage oid (Some (map seen_datum old)) None
      else DeleteMessage oid None (Some (map seen_datum old))
  end.

(** ** Reading back *)

Lemma blen_app (l k : buffer) : blen (l ++ k) = (blen l + blen k)%Z.
Proof. unfold blen. rewrite length_app. lia. Qed.

Lemma blen_be n v : blen (be_bytes n v) = Z.of_nat n.
Proof. unfold blen. by rewrite be_bytes_length. Qed.

Lemma blen_tag c : blen (tag c) = 1%Z.
Proof. done. Qed.

Lemma kind_at_tag buf off c : starts_at buf off (tag c) -> kind_at buf off = Some c.
Proof.
  intros H. unfold kind_at. replace (off + 1)%Z with (off + blen (tag c))%Z by done. rewrite (utf8_slice_at _ _ _ H).
  cbn. unfold byte_char, char_byte, code. by rewrite N2Z.id, ascii_N_embedding.
Qed.

Lemma decode_datum buf off d :
  starts_at buf off (put_datum d) -> datum_ok d -> decode_column buf off = Ok (seen_datum d, off + blen (put_datum d))%Z.
Proof.
  assert (Hlen : forall s, (blen s < 2 ^ 31)%Z -> be_bytes 4 (blen s) = be_bytes 4 (blen s mod 2 ^ 32)).
  { intros s Hs. rewrite Z.mod_small; [done|]. unfold blen in *. lia. }
  unfold decode_column. destruct d as [| |s|l]; cbn [put_datum]; intros H Hok.
  - by rewrite (kind_at_tag _ _ _ H).
  - by rewrite (kind_at_tag _ _ _ H).
  - apply starts_at_app in H as [Hk H]. change (blen (tag _)) with 1%Z in H. apply starts_at_app in H as [Hl Hs]. rewrite (kind_at_tag _ _ _ Hk). cbn -[Z.add blen tag app be_bytes].
    cbn in Hok. rewrite Hlen in Hl by done. rewrite (readInt32_at _ _ _ Hl) by (unfold blen in *; lia).
    cbn [mbind result_mbind result_bind seen_datum]. rewrite blen_be in Hs. change (Z.of_nat 4) with 4%Z in Hs. rewrite (utf8_slice_at _ _ _ Hs), bytes_text_bytes.
    rewrite !blen_app, blen_be. do 2 f_equal. change (blen (tag "t")) with 1%Z. lia.
  - apply starts_at_app in H as [Hk H]. change (blen (tag _)) with 1%Z in H. apply starts_at_app in H as [Hl Hs]. rewrite (kind_at_tag _ _ _ Hk). cbn -[Z.add blen tag app be_bytes].
    cbn in Hok. rewrite Hlen in Hl by done. rewrite (readInt32_at _ _ _ Hl) by (unfold blen in *; lia).
    cbn [mbind result_mbind result_bind seen_datum]. rewrite blen_be in Hs. change (Z.of_nat 4) with 4%Z in Hs. rewrite (subarray_at _ _ _ Hs).
    rewrite !blen_app, blen_be. do 2 f_equal. change (blen (tag "b")) with 1%Z. lia.
Qed.

(** A loop reads back what a loop wrote. *)
Lemma decode_many_at {A B} buf (item : Z -> result buffer_error (B * Z)) (put : A -> buffer) (view : A -> B) (good : A -> Prop) :
  (forall off a, starts_at buf off (put a) -> good a -> item off = Ok (view a, off + blen (put a))%Z) ->
  forall l off, starts_at buf off (flat_map put l) -> Forall good l ->
    decode_many item (length l) off = Ok (map view l, off + blen (flat_map put l))%Z.
Proof.
  intros Hitem l. induction l as [|a l IH]; intros off H Hl; cbn [flat_map length decode_many map].
  - do 2 f_equal. unfold blen. cbn. lia.
  - cbn [flat_map] in H. apply starts_at_app in H as [Ha H]. apply Forall_cons in Hl as [Hg Hl].
    rewrite (Hitem _ _ Ha Hg). cbn [mbind result_mbind result_bind]. rewrite (IH _ H Hl). cbn [mbind result_mbind result_bind].
    rewrite blen_app. do 2 f_equal. lia.
Qed.

Lemma decode_tuple_at buf off l :
  starts_at buf off (put_tuple l) -> tuple_ok l -> decodeTuple buf off = Ok (map seen_datum l, off + blen (put_tuple l))%Z.
Proof.
  intros H [Hn Hl]. unfold put_tuple in H. apply starts_at_app in H as [Hc H]. unfold decodeTuple, readUInt16BE.
  rewrite (readUInt_at _ _ _ _ Hc Hn). cbn [mbind result_mbind result_bind]. rewrite Nat2Z.id, blen_be in *.
  rewrite (decode_many_at buf _ put_datum seen_datum datum_ok) by (try done; intros; by apply decode_datum).
  unfold put_tuple. rewrite blen_app, blen_be. do 2 f_equal. lia.
Qed.

Lemma decode_name_at buf off s :
  starts_at buf off (cstring s) -> no_nul s -> decode_name buf off = (s, off + blen (cstring s))%Z.
Proof.
  intros H Hs. unfold decode_name. rewrite (index_of_zero_at _ _ _ H Hs). apply starts_at_app in H as [H _].
  rewrite (utf8_slice_at _ _ _ H), bytes_text_bytes. f_equal. unfold cstring. rewrite blen_app. change (blen [0%Z]) with 1%Z. lia.
Qed.

(** Cuts the first part off what stands in the buffer, and names the offset after it. *)
Ltac cut H h off :=
  apply starts_at_app in H as [h H];
  match type of H with
  | starts_at _ ?o _ => replace o with off in H by (rewrite ?blen_be, ?blen_tag; lia)
  end.

(** Reads a field that was written. *)
Ltac read h H := rewrite (readUInt_at _ _ _ _ h H); cbn [mbind result_mbind result_bind].

Lemma decode_column_at buf off c :
  starts_at buf off (put_column c) -> column_ok c -> decode_relation_column buf off = Ok (c, off + blen (put_column c))%Z.
Proof.
  intros H (Hf & Hn & Ht & Hm). unfold put_column in *. rewrite !blen_app, !blen_be.
  unfold decode_relation_column, readUInt8, readUInt32BE.
  cut H hf (off + 1)%Z. read hf Hf. apply starts_at_app in H as [hn H]. rewrite (decode_name_at _ _ _ hn Hn).
  cut H ht (off + 1 + blen (cstring (col_name c)) + 4)%Z. read ht Ht. rewrite (readInt32_at _ _ _ H Hm).
  cbn [mbind result_mbind result_bind]. destruct c. cbn [flags col_name typeId typeMod]. do 2 f_equal. cbn -[Z.add blen]. lia.
Qed.

Lemma be_bytes_app n m v : be_bytes (n + m) v = be_bytes n (v / 256 ^ Z.of_nat m) ++ be_bytes m v.
Proof.
  revert v. induction m as [|m IH]; intros v.
  - rewrite Nat.add_0_r. change (256 ^ Z.of_nat 0)%Z with 1%Z. by rewrite Z.div_1_r, app_nil_r.
  - rewrite <- plus_n_Sm. cbn [be_bytes]. rewrite IH, Z.div_div, <- app_assoc by lia.
    by rewrite Nat2Z.inj_succ, Z.pow_succ_r by lia.
Qed.

Lemma be_bytes_mod m v : be_bytes m (v mod 256 ^ Z.of_nat m) = be_bytes m v.
Proof.
  revert v. induction m as [|m IH]; intros v; [done|]. cbn [be_bytes].
  rewrite Nat2Z.inj_succ, Z.pow_succ_r, Z.rem_mul_r by lia. rewrite (Z.mul_comm 256), Z.div_add, Z_mod_plus_full by lia.
  rewrite (Z.div_small (v mod 256)), Z.add_0_l, IH by (apply Z.mod_pos_bound; lia). by rewrite Z.mod_mod.
Qed.

Lemma decode_lsn_at buf off v : starts_at buf off (be_bytes 8 v) -> uint 8 v -> decode_lsn buf off = Ok (formatLsn v).
Proof.
  intros H Hv. change (uint 8 v) with (0 <= v < 2 ^ 64)%Z in Hv. destruct (half_bounds v Hv) as [Hh Hl].
  rewrite (be_bytes_app 4 4) in H. change (256 ^ Z.of_nat 4)%Z with (2 ^ 32)%Z in H. rewrite <- (be_bytes_mod 4 v) in H.
  cut H hh (off + 4)%Z. unfold decode_lsn, readUInt32BE. read hh Hh. read H Hl. by rewrite format_halves.
Qed.

Lemma decode_pg m c buf k :
  buf = char_byte c :: k -> kind_at buf 0 = Some c ->
  (match c with "R" | "B" | "C" | "I" | "U" | "D" => True | _ => False end)%char ->
  (match c with
   | "R"%char => decodeRelation buf | "B"%char => decodeBegin buf | "C"%char => decodeCommit buf
   | "I"%char => decodeInsert buf | "U"%char => decodeUpdate buf | _ => decodeDelete buf end) = Ok m ->
  decodePgOutputMessage buf = Ok (Some m).
Proof.
  intros Hb Hk Hc H. unfold decodePgOutputMessage. rewrite Hk. rewrite Hb at 1.
  destruct c as [[] [] [] [] [] [] [] []]; try done; by rewrite H.
Qed.

Lemma identity_char_map i : replicaIdentityMap (char_byte (identity_char i)) = i.
Proof. by destruct i. Qed.

Lemma readUInt8_tag buf off c : starts_at buf off (tag c) -> readUInt8 buf off = Ok (char_byte c).
Proof.
  intros H. unfold readUInt8, readUInt. rewrite (read_bytes_at 1 _ _ _ H) by done. cbn. by rewrite Z.add_0_l.
Qed.

Lemma decode_relation_at buf oid ns name i cols :
  starts_at buf 0 (put_message (PgRelation oid ns name i cols)) -> message_ok (PgRelation oid ns name i cols) ->
  decodeRelation buf = Ok (RelationMessage oid ns name i cols).
Proof.
  intros H (Ho & Hns & Hname & Hlen & Hcols). cbn [put_message] in H. unfold decodeRelation, readUInt32BE, readUInt16BE.
  cut H h0 1%Z. cut H h1 5%Z. read h1 Ho. apply starts_at_app in H as [h2 H]. rewrite (decode_name_at _ _ _ h2 Hns).
  apply starts_at_app in H as [h3 H]. rewrite (decode_name_at _ _ _ h3 Hname).
  apply starts_at_app in H as [h4 H]. rewrite (readUInt8_tag _ _ _ h4). cbn [mbind result_mbind result_bind].
  change (blen (tag _)) with 1%Z in H. cut H h5 (5 + blen (cstring ns) + blen (cstring name) + 3)%Z. read h5 Hlen.
  rewrite Nat2Z.id, (decode_many_at buf _ put_column (fun c => c) column_ok) by (try done; intros; by apply decode_column_at).
  cbn [mbind result_mbind result_bind]. by rewrite map_id, identity_char_map.
Qed.

Lemma decode_change_at buf c oid rest :
  starts_at buf 0 (tag c ++ be_bytes 4 oid ++ rest) -> uint 4 oid ->
  readUInt32BE buf 1 = Ok oid /\ starts_at buf 5 rest.
Proof. intros H Ho. cut H h0 1%Z. cut H h1 5%Z. split; [by apply readUInt_at|done]. Qed.

Lemma decode_insert_at buf oid new :
  starts_at buf 0 (put_message (PgInsert oid new)) -> message_ok (PgInsert oid new) ->
  decodeInsert buf = Ok (seen (PgInsert oid new)).
Proof.
  intros H (Ho & Hnew). apply decode_change_at in H as [Hr H]; [|done]. unfold decodeInsert. rewrite Hr. cut H h2 6%Z.
  cbn [mbind result_mbind result_bind]. by rewrite (decode_tuple_at _ _ _ H Hnew).
Qed.

Lemma decode_update_at buf oid old new :
  starts_at buf 0 (put_message (PgUpdate oid old new)) -> message_ok (PgUpdate oid old new) ->
  decodeUpdate buf = Ok (seen (PgUpdate oid old new)).
Proof.
  intros H Hok. unfold decodeUpdate. destruct old as [[c old]|]; cbn [put_message message_ok] in H, Hok.
  - destruct Hok as (Ho & Hc & Hold & Hnew). apply decode_change_at in H as [Hr H]; [|done]. rewrite Hr. cut H h2 6%Z.
    rewrite (kind_at_tag _ _ _ h2). apply starts_at_app in H as [h3 H].
    cbn [mbind result_mbind result_bind]. rewrite (decode_tuple_at _ _ _ h3 Hold).
    apply starts_at_app in H as [h4 H]. change (blen (tag _)) with 1%Z in H.
    destruct Hc as [-> | ->]; cbn [bool_decide orb mbind result_mbind result_bind]; by rewrite (decode_tuple_at _ _ _ H Hnew).
  - destruct Hok as (Ho & Hnew). apply decode_change_at in H as [Hr H]; [|done]. rewrite Hr. cut H h2 6%Z.
    rewrite (kind_at_tag _ _ _ h2). cbn [mbind result_mbind result_bind]. by rewrite (decode_tuple_at _ _ _ H Hnew).
Qed.

Lemma decode_delete_at buf oid c old :
  starts_at buf 0 (put_message (PgDelete oid c old)) -> message_ok (PgDelete oid c old) ->
  decodeDelete buf = Ok (seen (PgDelete oid c old)).
Proof.
  intros H (Ho & Hc & Hold). apply decode_change_at in H as [Hr H]; [|done]. unfold decodeDelete. rewrite Hr. cut H h2 6%Z.
  rewrite (kind_at_tag _ _ _ h2). cbn [mbind result_mbind result_bind].
  destruct Hc as [-> | ->]; cbn [bool_decide]; by rewrite (decode_tuple_at _ _ _ H Hold).
Qed.

Lemma decode_begin_at buf lsn time xid :
  starts_at buf 0 (put_message (PgBegin lsn time xid)) -> message_ok (PgBegin lsn time xid) ->
  decodeBegin buf = Ok (seen (PgBegin lsn time xid)).
Proof.
  intros H (Hl & Ht & Hx). unfold decodeBegin, readBigUInt64BE, readUInt32BE. cbn [put_message] in H.
  cut H h0 1%Z. cut H h1 9%Z. rewrite (decode_lsn_at _ _ _ h1 Hl). cbn [mbind result_mbind result_bind].
  cut H h2 17%Z. read h2 Ht. by read H Hx.
Qed.

Lemma decode_commit_at buf fl lsn end_lsn time :
  starts_at buf 0 (put_message (PgCommit fl lsn end_lsn time)) -> message_ok (PgCommit fl lsn end_lsn time) ->
  decodeCommit buf = Ok (seen (PgCommit fl lsn end_lsn time)).
Proof.
  intros H (Hf & Hl & He & Ht). unfold decodeCommit, readBigUInt64BE, readUInt8. cbn [put_message] in H.
  cut H h0 1%Z. cut H h1 2%Z. read h1 Hf. cut H h2 10%Z. rewrite (decode_lsn_at _ _ _ h2 Hl).
  cbn [mbind result_mbind result_bind]. cut H h3 18%Z. rewrite (decode_lsn_at _ _ _ h3 He).
  cbn [mbind result_mbind result_bind]. by read H Ht.
Qed.

Lemma decode_message m : message_ok m -> decodePgOutputMessage (put_message m) = Ok (Some (seen m)).
Proof.
  intros H. pose proof (starts_at_whole (put_message m)) as Hs.
  assert (Hk : forall c l, starts_at (put_message m) 0 (tag c ++ l) -> kind_at (put_message m) 0 = Some c).
  { intros c l Hc. apply kind_at_tag. by apply starts_at_app in Hc as [Hc _]. }
  destruct m as [| | | |oid [[c old]|] new|]; cbn [put_message] in *;
    (eapply decode_pg; [reflexivity|by eapply Hk|done|]).
  - by apply decode_relation_at.
  - by apply decode_begin_at.
  - by apply decode_commit_at.
  - by apply decode_insert_at.
  - by apply (decode_update_at _ oid (Some (c, old)) new).
  - by apply (decode_update_at _ oid None new).
  - by apply decode_delete_at.
Qed.

(** C22: the decoder gives back every message that the protocol's documentation
    describes: whatever the server writes, relation, begin, commit, insert, update
    or delete, decodes to the message with the same fields, texts as they are and
    binary values in base64. *)
Theorem decode_encode m : message_ok m -> decodePgOutputMessage (put_message m) = Ok (Some (seen m)).
Proof. apply decode_message. Qed.

Lemma decode_encode_witness :
  decodePgOutputMessage (put_message (PgUpdate 16385 (Some ("K"%char, [d_text "7"; d_null])) [d_text "7"; d_unchanged; d_binary [1; 2]%Z]))
  = Ok (Some (UpdateMessage 16385 (Some [col_text "7"; col_null]) [col_text "7"; col_unchanged_toast; col_binary "AQI="])).
Proof.
  rewrite decode_encode; [vm_compute; reflexivity|]. cbn [message_ok]. unfold tuple_ok, uint. cbn -[Z.pow].
  split_and!; try lia; try (by right); repeat constructor; cbn; unfold blen; cbn; lia.
Defined.

(** The messages without a decoder, and a message that ends too early. *)
Example decode_others :
  map decodePgOutputMessage [[]; tag "T" ++ [0; 0; 0; 1]%Z; tag "I" ++ [0; 0]%Z] = [Ok None; Ok None; Err RangeError].
Proof. vm_compute. reflexivity. Qed.

(** The bytes of a column of a kind the decoder does not know are read as the next column. *)
Example decode_unknown_kind :
  decodeTuple ([0; 2]%Z ++ tag "z" ++ put_datum (d_text "n")) 0 = Ok ([col_null; col_text "n"], 9)%Z
  /\ decodeTuple ([0; 2]%Z ++ tag "z" ++ [0; 0; 0; 1]%Z ++ tag "n" ++ put_datum (d_text "n")) 0 = Ok ([col_null; col_null], 4)%Z.
Proof. split; vm_compute; reflexivity. Qed.
