(* ===== verification/CdcStream.v ===== *)
(** * The change stream of a PostgreSQL database

    services/ingestion/src/connectors/postgres-cdc/postgres-cdc-connector.ts: the
    generator that turns replication messages into events and confirms positions
    to the server.  CdcSpec says what the messages mean. *)

From S2P Require Import Prelude JsString JsNumber JsValue JsHost NodeBuffer PgOutput.
From Stdlib Require Import Ascii.
From stdpp Require Import gmap.

Record CachedRelation : Type := {
  schema : string;
  name : string;
  qualifiedName : string;
  columns : list RelationColumn
}.

Inductive cdc_type : Type := cdc_insert | cdc_update | cdc_delete.

Record CdcEvent : Type := {
  type : cdc_type;
  table : string;
  timestamp : string;
  lsn : option string;
  position : option string;
  before : option obj;
  after : option obj
}.

(** ** Rows *)

Definition column_value (col : TupleColumn) : option value :=
  match col with
  | col_text v | col_binary v => Some (VStr v)
  | col_null => Some VNull
  | col_unchanged_toast => None
  end.

Definition put_column_value (relation : CachedRelation) (record : obj) (ic : nat * TupleColumn) : obj :=
  match columns relation !! ic.1, column_value ic.2 with
  | Some relCol, Some v => set (col_name relCol) v record
  | _, _ => record
  end.

Definition tupleToRecord (tuple : TupleData) (relation : CachedRelation) : obj :=
  fold_left (put_column_value relation) (imap pair tuple) [].

(** ** Feedback *)

Inductive cdc_error : Type :=
| BadBuffer (e : buffer_error)
| BadLsn
| StreamError (message : string).

(** The 34 bytes of a status update: three positions, the clock and the reply flag. *)
Definition sendStandbyStatusUpdate (now : Z) (writeLsn flushLsn applyLsn : string) (replyRequested : bool)
    : result lsn_error buffer :=
  let lsn_bytes s := be_bytes 8 <$> parseLsn (if String.eqb s "0/0" then "00000000/00000000" else s) in
  write ← lsn_bytes writeLsn;
  flush ← lsn_bytes flushLsn;
  apply ← lsn_bytes applyLsn;
  let nowMicros := (now * 1000 - PG_EPOCH_MS * 1000)%Z in
  Ok (tag "r" ++ write ++ flush ++ apply ++ be_bytes 8 (nowMicros mod 2 ^ 64) ++ [if replyRequested then 1 else 0]%Z).

(** ** The generator *)

Record generator : Type := {
  relations : gmap Z CachedRelation;
  confirmedLsn : string;
  currentCommitTime : option string;
  currentLsn : option string
}.

Definition started (startPosition : option string) : generator :=
  {| relations := ∅; confirmedLsn := default "0/0" startPosition; currentCommitTime := None; currentLsn := None |}.

(** What the generator does besides waiting. *)
Inductive output : Type :=
| Yield (e : CdcEvent)
| Feedback (buf : buffer).

Definition bad_lsn {A} : result lsn_error A -> result cdc_error A := map_err (fun _ => BadLsn).
Definition bad_buffer {A} : result buffer_error A -> result cdc_error A := map_err BadBuffer.

Definition feedback (now : Z) (g : generator) : result cdc_error (generator * list output) :=
  buf ← bad_lsn (sendStandbyStatusUpdate now (confirmedLsn g) (confirmedLsn g) (confirmedLsn g) false);
  Ok (g, [Feedback buf]).

Definition KEEPALIVE_BYTE : Z := 107.
Definition XLOG_DATA_BYTE : Z := 119.

Section Consume.
Context (tables : list string).

(** A change of a table that the filter lets through. *)
Definition yield_change (now : Z) (g : generator) (relationId : Z) (msgLsn : string) (ty : cdc_type)
    (before after : option TupleData) : generator * list output :=
  match relations g !! relationId with
  | None => (g, [])
  | Some relation =>
      if (0 <? length tables)%nat && negb (existsb (String.eqb (qualifiedName relation)) tables) then (g, [])
      else (g, [Yield {| type := ty; table := qualifiedName relation;
                         timestamp := default (iso_string now) (currentCommitTime g);
                         lsn := Some (default msgLsn (currentLsn g)); position := None;
                         before := (fun t => tupleToRecord t relation) <$> before;
                         after := (fun t => tupleToRecord t relation) <$> after |}])
  end.

Definition handle_message (now : Z) (g : generator) (msgLsn : string) (decoded : DecodedMessage)
    : result cdc_error (generator * list output) :=
  match decoded with
  | RelationMessage relationId schema name _ columns =>
      let relation := {| schema := schema; name := name;
                         qualifiedName := schema +:+ "." +:+ name; columns := columns |} in
      Ok ({| relations := <[relationId := relation]> (relations g); confirmedLsn := confirmedLsn g;
             currentCommitTime := currentCommitTime g; currentLsn := currentLsn g |}, [])
  | BeginMessage _ commitTime _ =>
      time ← bad_buffer (pgTimestampToIso commitTime);
      Ok ({| relations := relations g; confirmedLsn := confirmedLsn g;
             currentCommitTime := Some time; currentLsn := Some msgLsn |}, [])
  | CommitMessage _ _ endLsn _ =>
      confirmed ← bad_lsn (maxLsn (confirmedLsn g) endLsn);
      feedback now {| relations := relations g; confirmedLsn := confirmed; currentCommitTime := None; currentLsn := None |}
  | InsertMessage relationId new => Ok (yield_change now g relationId msgLsn cdc_insert None (Some new))
  | UpdateMessage relationId old new => Ok (yield_change now g relationId msgLsn cdc_update old (Some new))
  | DeleteMessage relationId old key =>
      Ok (yield_change now g relationId msgLsn cdc_delete (match old with Some _ => old | None => key end) None)
  end.

(** One chunk of the replication connection. *)
Definition consume (now : Z) (g : generator) (buf : buffer) : result cdc_error (generator * list output) :=
  if bool_decide (buf !! 0 = Some KEEPALIVE_BYTE) then
    if bool_decide (buf !! 17 = Some 1%Z) then feedback now g else Ok (g, [])
  else if negb (bool_decide (buf !! 0 = Some XLOG_DATA_BYTE)) then Ok (g, [])
  else
    msgLsn ← bad_buffer (decode_lsn buf 1);
    decoded ← bad_buffer (decodePgOutputMessage (subarray buf 25 (blen buf)));
    match decoded with
    | None => Ok (g, [])
    | Some decoded => handle_message now g msgLsn decoded
    end.

(** What the loop finds in its queue, and the feedback timer between two entries. *)
Inductive entry : Type :=
| Chunk (buf : buffer)
| Failed (message : string)
| Finished              (* the end of the connection, or [stopCdcStream] *)
| Tick.

Inductive ending : Type :=
| Waiting (g : generator)
| Returned
| Threw (e : cdc_error).

(** The timer ignores its errors. *)
Definition tick (now : Z) (g : generator) : list output :=
  match feedback now g with Ok (_, o) => o | Err _ => [] end.

Fixpoint stream (g : generator) (entries : list (Z * entry)) : list output * ending :=
  match entries with
  | [] => ([], Waiting g)
  | (now, Finished) :: _ => ([], Returned)
  | (now, Failed m) :: _ => ([], Threw (StreamError m))
  | (now, Tick) :: entries => let '(o, fin) := stream g entries in (tick now g ++ o, fin)
  | (now, Chunk buf) :: entries =>
      match consume now g buf with
      | Err e => ([], Threw e)
      | Ok (g, o) => let '(o', fin) := stream g entries in (o ++ o', fin)
      end
  end.

End Consume.
