(* ===== verification/CdcSpec.v ===== *)
(** * What the change stream means

    The server's side of the replication protocol, as a step relation, and the
    events and confirmations that its messages mean.  The generator of CdcStream
    produces exactly these. *)

From S2P Require Import Prelude JsString JsNumber JsValue JsHost NodeBuffer PgOutput CdcStream.
From Stdlib Require Import Ascii.
From stdpp Require Import gmap sorting.

(** ** The server *)

(** The header of a chunk: where it starts and ends in the log, and when it was sent. *)
Record frame : Type := { wal : Z; wal_end : Z; sent : Z }.

Definition frame_ok (f : frame) : Prop := uint 8 (wal f) /\ uint 8 (wal_end f) /\ uint 8 (sent f).

Definition xlog (f : frame) (message : buffer) : buffer :=
  (tag "w" ++ be_bytes 8 (wal f) ++ be_bytes 8 (wal_end f) ++ be_bytes 8 (sent f)) ++ message.

Definition keepalive (f : frame) (reply : bool) : buffer :=
  tag "k" ++ be_bytes 8 (wal_end f) ++ be_bytes 8 (sent f) ++ [if reply then 1 else 0]%Z.

Record source_table : Type := {
  oid : Z;
  namespace : string;
  relname : string;
  identity : replica_identity;
  attributes : list RelationColumn
}.

Inductive row_change : Type :=
| Inserted (new : list datum)
| Updated (old : option (ascii * list datum)) (new : list datum)
| Deleted (marker : ascii) (old : list datum).

Definition announcement (t : source_table) : pg_message :=
  PgRelation (oid t) (namespace t) (relname t) (identity t) (attributes t).

Definition change_message (t : source_table) (c : row_change) : pg_message :=
  match c with
  | Inserted new => PgInsert (oid t) new
  | Updated old new => PgUpdate (oid t) old new
  | Deleted marker old => PgDelete (oid t) marker old
  end.

(** The tables announced so far, the open transaction (where it begins, when it
    commits), and the position the client has confirmed. *)
Record server : Type := {
  announced : gmap Z source_table;
  open : option (Z * Z);
  acked : Z
}.

(** What a message means. *)
Inductive meaning : Type :=
| Change (t : source_table) (at_ time : Z) (c : row_change)
| Confirm (now upto : Z).

Definition time_ok (time : Z) : Prop := (PG_EPOCH_MS + time / 1000 <= 8640000000000000)%Z.

Definition no_decoder (c : ascii) : Prop := c ∉ ["R"; "B"; "C"; "I"; "U"; "D"]%char.

Inductive sends : server -> Z * entry -> list meaning -> server -> Prop :=
| sends_tick s now : sends s (now, Tick) [Confirm now (acked s)] s
| sends_keepalive s now f reply :
    sends s (now, Chunk (keepalive f reply)) (if reply then [Confirm now (acked s)] else []) s
| sends_other s now f c rest :
    frame_ok f -> no_decoder c -> sends s (now, Chunk (xlog f (tag c ++ rest))) [] s
| sends_relation s now f t :
    frame_ok f -> message_ok (announcement t) ->
    sends s (now, Chunk (xlog f (put_message (announcement t)))) []
      {| announced := <[oid t := t]> (announced s); open := open s; acked := acked s |}
| sends_begin s now f final time xid :
    frame_ok f -> message_ok (PgBegin final time xid) -> time_ok time ->
    sends s (now, Chunk (xlog f (put_message (PgBegin final time xid)))) []
      {| announced := announced s; open := Some (wal f, time); acked := acked s |}
| sends_change s now f t at_ time c :
    frame_ok f -> announced s !! oid t = Some t -> open s = Some (at_, time) -> message_ok (change_message t c) ->
    sends s (now, Chunk (xlog f (put_message (change_message t c)))) [Change t at_ time c] s
| sends_commit s now f fl commit end_ time :
    frame_ok f -> message_ok (PgCommit fl commit end_ time) ->
    sends s (now, Chunk (xlog f (put_message (PgCommit fl commit end_ time)))) [Confirm now (Z.max (acked s) end_)]
      {| announced := announced s; open := None; acked := Z.max (acked s) end_ |}.

Inductive serves : server -> list (Z * entry) -> list meaning -> server -> Prop :=
| serves_nothing s : serves s [] [] s
| serves_more s s1 s2 e es m ms : sends s e m s1 -> serves s1 es ms s2 -> serves s (e :: es) (m ++ ms) s2.

(** ** Events *)

Definition datum_value (d : datum) : option value :=
  match d with
  | d_null => Some VNull
  | d_unchanged => None
  | d_text s => Some (VStr s)
  | d_binary l => Some (VStr (base64 l))
  end.

(** The row: the columns in order, without those whose value is not in the log. *)
Definition row (t : source_table) (data : list datum) : obj :=
  of_entries (omap (fun '(a, d) => pair (col_name a) <$> datum_value d) (zip (attributes t) data)).

Definition table_name (t : source_table) : string := namespace t +:+ "." +:+ relname t.

Definition change_type (c : row_change) : cdc_type :=
  match c with Inserted _ => cdc_insert | Updated _ _ => cdc_update | Deleted _ _ => cdc_delete end.
Definition row_before (c : row_change) : option (list datum) :=
  match c with Inserted _ => None | Updated old _ => snd <$> old | Deleted _ old => Some old end.
Definition row_after (c : row_change) : option (list datum) :=
  match c with Inserted new | Updated _ new => Some new | Deleted _ _ => None end.

Definition commit_time (time : Z) : string := iso_string (PG_EPOCH_MS + time / 1000).

Definition event_of (t : source_table) (at_ time : Z) (c : row_change) : CdcEvent :=
  {| type := change_type c; table := table_name t; timestamp := commit_time time;
     lsn := Some (formatLsn at_); position := None;
     before := row t <$> row_before c; after := row t <$> row_after c |}.

(** The update of status that confirms [upto]. *)
Definition status_update (now upto : Z) : buffer :=
  tag "r" ++ be_bytes 8 upto ++ be_bytes 8 upto ++ be_bytes 8 upto
    ++ be_bytes 8 ((now * 1000 - PG_EPOCH_MS * 1000) mod 2 ^ 64) ++ [0]%Z.

Definition selected (tables : list string) (t : source_table) : bool :=
  (length tables =? 0)%nat || existsb (String.eqb (table_name t)) tables.

Definition outputs_of (tables : list string) (m : meaning) : list output :=
  match m with
  | Change t at_ time c => if selected tables t then [Yield (event_of t at_ time c)] else []
  | Confirm now upto => [Feedback (status_update now upto)]
  end.

(** ** The simulation *)

Definition cached (t : source_table) : CachedRelation :=
  {| schema := namespace t; name := relname t; qualifiedName := table_name t; columns := attributes t |}.

Record simulates (s : server) (g : generator) : Prop := {
  sim_relations : relations g = cached <$> announced s;
  sim_position : parseLsn (confirmedLsn g) = Ok (acked s);
  sim_lsn : currentLsn g = formatLsn ∘ fst <$> open s;
  sim_time : currentCommitTime g = commit_time ∘ snd <$> open s
}.

Lemma put_value_omap rel cols data record :
  columns rel = cols ->
  fold_left (put_column_value rel) (imap pair (map seen_datum data)) record
  = assign record (omap (fun '(a, d) => pair (col_name a) <$> datum_value d) (zip cols data)).
Proof.
  intros <-. assert (H : forall k record,
    fold_left (put_column_value rel) (imap (fun i c => ((k + i)%nat, c)) (map seen_datum data)) record
    = assign record (omap (fun '(a, d) => pair (col_name a) <$> datum_value d) (zip (drop k (columns rel)) data))).
  2:{ apply (H O). }
  induction data as [|d data IH]; intros k record0; cbn [map imap fold_left].
  - by rewrite zip_with_nil_r.
  - rewrite (imap_ext _ (fun i c => ((S k + i)%nat, c))) by (intros; cbn; f_equal; lia). rewrite IH.
    unfold put_column_value. cbn [fst snd]. rewrite Nat.add_0_r. destruct (columns rel !! k) as [a|] eqn:E.
    + rewrite (drop_S _ _ _ E). cbn [zip zip_with omap list_omap]. destruct d; done.
    + apply lookup_ge_None_1 in E. rewrite !drop_ge by lia. done.
Qed.

Lemma tuple_row t data : tupleToRecord (map seen_datum data) (cached t) = row t data.
Proof. by apply put_value_omap. Qed.

Lemma status_update_sent now g s : simulates s g -> feedback now g = Ok (g, [Feedback (status_update now (acked s))]).
Proof.
  intros [_ Hp _ _]. unfold feedback, sendStandbyStatusUpdate.
  assert (H : parseLsn (if String.eqb (confirmedLsn g) "0/0" then "00000000/00000000" else confirmedLsn g) = Ok (acked s)).
  { destruct (String.eqb_spec (confirmedLsn g) "0/0") as [E|E]; [|done]. rewrite E in Hp. by rewrite <- Hp. }
  by rewrite H.
Qed.

Lemma xlog_starts f msg : starts_at (xlog f msg) 0 (xlog f msg) /\ starts_at (xlog f msg) 25 msg.
Proof.
  pose proof (starts_at_whole (xlog f msg)) as H. split; [done|]. unfold xlog in H at 2. apply starts_at_app in H as [_ H].
  rewrite !blen_app, !blen_be in H. exact H.
Qed.

Lemma consume_xlog tables now g f msg :
  frame_ok f ->
  consume tables now g (xlog f msg)
  = (decoded ← bad_buffer (decodePgOutputMessage msg);
     match decoded with
     | None => Ok (g, [])
     | Some decoded => handle_message tables now g (formatLsn (wal f)) decoded
     end).
Proof.
  intros (Hw & _). destruct (xlog_starts f msg) as [H0 H25]. unfold consume.
  assert (Hb : xlog f msg !! 0%nat = Some XLOG_DATA_BYTE) by done. rewrite Hb. cbn [bool_decide negb].
  unfold xlog in H0 at 2. rewrite <- !app_assoc in H0. cut H0 h0 1%Z. apply starts_at_app in H0 as [h1 _].
  rewrite (decode_lsn_at _ _ _ h1 Hw). cbn [bad_buffer map_err mbind result_mbind result_bind].
  pose proof (subarray_at _ _ _ H25) as Hs.
  replace (blen (xlog f msg)) with (25 + blen msg)%Z; [by rewrite Hs|].
  unfold xlog. rewrite !blen_app, !blen_be, blen_tag. lia.
Qed.

Lemma consume_message tables now g f m :
  frame_ok f -> message_ok m ->
  consume tables now g (xlog f (put_message m)) = handle_message tables now g (formatLsn (wal f)) (seen m).
Proof. intros Hf Hm. rewrite consume_xlog by done. by rewrite decode_message by done. Qed.

Lemma no_decoder_none c rest : no_decoder c -> decodePgOutputMessage (tag c ++ rest) = Ok None.
Proof.
  intros H. unfold decodePgOutputMessage. cbn [tag app].
  rewrite (kind_at_tag (char_byte c :: rest) 0 c).
  - unfold no_decoder in H. destruct c as [[] [] [] [] [] [] [] []]; try done; exfalso; apply H; set_solver.
  - exists [], rest. done.
Qed.

(** A change is yielded as the event it means, when the filter lets its table through. *)
Lemma yield_meant tables now s g t at_ time msgLsn c :
  simulates s g -> announced s !! oid t = Some t -> open s = Some (at_, time) ->
  yield_change tables now g (oid t) msgLsn (change_type c) (map seen_datum <$> row_before c) (map seen_datum <$> row_after c)
  = (g, outputs_of tables (Change t at_ time c)).
Proof.
  intros [Hr _ Hl Ht] Ha Ho. unfold yield_change. rewrite Hr, lookup_fmap, Ha. cbn [fmap option_fmap option_map].
  rewrite Hl, Ht, Ho. cbn [fmap option_fmap option_map compose fst snd default from_option qualifiedName cached outputs_of].
  assert (Hsel : (0 <? length tables)%nat && negb (existsb (String.eqb (table_name t)) tables) = negb (selected tables t)).
  { unfold selected. rewrite negb_orb. f_equal. by destruct tables. }
  rewrite Hsel. destruct (selected tables t); cbn [negb]; [|done]. do 4 f_equal. unfold event_of. f_equal.
  - destruct (row_before c); cbn; [|done]. by rewrite tuple_row.
  - destruct (row_after c); cbn; [|done]. by rewrite tuple_row.
Qed.

Lemma handle_change tables now s g t at_ time msgLsn c :
  simulates s g -> announced s !! oid t = Some t -> open s = Some (at_, time) -> message_ok (change_message t c) ->
  handle_message tables now g msgLsn (seen (change_message t c)) = Ok (g, outputs_of tables (Change t at_ time c)).
Proof.
  intros Hs Ha Ho Hok. rewrite <- (yield_meant tables now s g t at_ time msgLsn c Hs Ha Ho).
  destruct c as [new|[[k old]|] new|k old]; cbn [change_message seen]; [done..|].
  cbn [change_message message_ok] in Hok. destruct Hok as (_ & [-> | ->] & _); done.
Qed.

(** One step of the server is one step of the generator. *)
Lemma consume_sent tables s e ms s' g :
  sends s e ms s' -> simulates s g ->
  exists g', simulates s' g'
    /\ match e.2 with
       | Chunk buf => consume tables e.1 g buf = Ok (g', flat_map (outputs_of tables) ms)
       | Tick => g' = g /\ tick e.1 g = flat_map (outputs_of tables) ms
       | _ => False
       end.
Proof.
  intros H Hs. destruct H; cbn [fst snd].
  - exists g. split; [done|]. split; [done|]. unfold tick. by rewrite (status_update_sent _ _ _ Hs).
  - exists g. split; [done|]. unfold consume. destruct reply.
    + change (keepalive f true !! 0%nat) with (Some KEEPALIVE_BYTE).
      change (keepalive f true !! 17%nat) with (Some 1%Z). by rewrite (status_update_sent _ _ _ Hs).
    + change (keepalive f false !! 0%nat) with (Some KEEPALIVE_BYTE).
      change (keepalive f false !! 17%nat) with (Some 0%Z). done.
  - exists g. split; [done|]. rewrite consume_xlog by done. by rewrite no_decoder_none.
  - eexists. split; [|by rewrite consume_message]. destruct Hs as [Hr Hp Hl Ht]. split; try done.
    cbn [relations announced]. rewrite Hr. by rewrite fmap_insert.
  - rewrite consume_message by done. cbn [seen handle_message]. unfold pgTimestampToIso.
    rewrite (proj2 (Z.leb_le _ _)).
    2:{ match goal with Ht : message_ok _ |- _ => destruct Ht as (_ & Ht & _) end. unfold time_ok, uint, PG_EPOCH_MS in *.
        assert (0 <= time / 1000)%Z by (apply Z.div_pos; lia). lia. }
    eexists. split; [|done]. destruct Hs as [Hr Hp Hl Ht]. by split.
  - exists g. split; [done|]. rewrite consume_message by done. erewrite handle_change by done. cbn [flat_map]. by rewrite app_nil_r.
  - rewrite consume_message by done. cbn [seen handle_message].
    match goal with Ht : message_ok _ |- _ => destruct Ht as (_ & _ & He & _) end.
    destruct (max_lsn_format (confirmedLsn g) (acked s) end_) as (m & Hm & Hv); [apply Hs|exact He|].
    rewrite Hm. cbn [bad_lsn map_err mbind result_mbind result_bind].
    match goal with |- exists g', _ /\ feedback _ ?g1 = _ => assert (Hs1 : simulates {| announced := announced s; open := None; acked := Z.max (acked s) end_ |} g1) end.
    { destruct Hs as [Hr Hp Hl Ht]. by split. }
    eexists. split; [exact Hs1|]. by rewrite (status_update_sent _ _ _ Hs1).
Qed.

(** C11: the generator yields the events that the server meant and nothing else.
    Whatever the server sends by the protocol, relations before their changes,
    changes inside transactions, keepalives, messages without a decoder, with the
    feedback timer anywhere between, the run neither stops nor throws; each change
    of a selected table is yielded once, in order, with its table, its rows and
    the position and time of its transaction; and each commit, reply and tick
    confirms the greatest end of a transaction committed so far. *)
Theorem stream_refines tables start a entries ms s' :
  match start with None => a = 0%Z | Some p => parseLsn p = Ok a end ->
  serves {| announced := ∅; open := None; acked := a |} entries ms s' ->
  exists g', stream tables (started start) entries = (flat_map (outputs_of tables) ms, Waiting g')
    /\ simulates s' g'.
Proof.
  intros Ha H. assert (Hs : simulates {| announced := ∅; open := None; acked := a |} (started start)).
  { split; cbn; [by rewrite fmap_empty| |done|done]. destruct start; [done|]. by rewrite Ha. }
  revert Hs. generalize (started start) as g. clear Ha start. induction H as [s|s s1 s2 [now e] es m ms H1 _ IH]; intros g Hs.
  - by exists g.
  - destruct (consume_sent tables _ _ _ _ g H1 Hs) as (g1 & Hs1 & He). destruct (IH g1 Hs1) as (g2 & Hr & Hs2).
    exists g2. split; [|done]. rewrite flat_map_app. cbn [fst snd] in He. destruct e; try done.
    + cbn [stream]. rewrite He, Hr. done.
    + destruct He as [-> He]. cbn [stream]. by rewrite Hr, He.
Qed.

Definition orders : source_table :=
  {| oid := 16385; namespace := "public"; relname := "orders"; identity := id_default;
     attributes := [{| flags := 1; col_name := "id"; typeId := 23; typeMod := -1 |};
                    {| flags := 0; col_name := "note"; typeId := 25; typeMod := -1 |}] |}.

Definition at_wal (w : Z) : frame := {| wal := w; wal_end := w; sent := 0 |}.

(** A transaction of two changes, with a tick of the timer and a keepalive. *)
Definition orders_entries : list (Z * entry) :=
  [(0, Chunk (xlog (at_wal 256) (put_message (PgBegin 512 1000000 7))));
   (0, Chunk (xlog (at_wal 256) (put_message (announcement orders))));
   (0, Chunk (xlog (at_wal 300) (put_message (change_message orders (Inserted [d_text "1"; d_text "new"])))));
   (0, Tick);
   (0, Chunk (xlog (at_wal 310) (put_message (change_message orders (Updated None [d_text "1"; d_unchanged])))));
   (0, Chunk (xlog (at_wal 512) (put_message (PgCommit 0 512 520 1000000))));
   (0, Chunk (keepalive (at_wal 520) true))]%Z.

Lemma stream_refines_witness :
  exists g, stream ["public.orders"] (started (Some "0/10")) orders_entries
  = ([Yield (event_of orders 256 1000000 (Inserted [d_text "1"; d_text "new"]));
      Feedback (status_update 0 16);
      Yield (event_of orders 256 1000000 (Updated None [d_text "1"; d_unchanged]));
      Feedback (status_update 0 520); Feedback (status_update 0 520)], Waiting g)
  /\ event_of orders 256 1000000 (Updated None [d_text "1"; d_unchanged])
     = {| type := cdc_update; table := "public.orders"; timestamp := "2000-01-01T00:00:01.000Z";
          lsn := Some "00000000/00000100"; position := None; before := None; after := Some [("id", VStr "1")] |}.
Proof.
  destruct (stream_refines ["public.orders"] (Some "0/10") 16%Z orders_entries
      [Change orders 256 1000000 (Inserted [d_text "1"; d_text "new"]); Confirm 0 16;
       Change orders 256 1000000 (Updated None [d_text "1"; d_unchanged]); Confirm 0 520; Confirm 0 520]%Z
      {| announced := {[16385%Z := orders]}; open := None; acked := 520 |}) as (g & H & _).
  - reflexivity.
  - assert (Hf : forall w, (0 <= w < 1000)%Z -> frame_ok (at_wal w)).
    { intros w Hw. unfold frame_ok, uint. cbn -[Z.pow]. lia. }
    unfold orders_entries.
    refine (serves_more _ _ _ _ _ [] _ (sends_begin _ _ _ _ _ _ _ _ _) _); [apply Hf; lia|unfold message_ok, uint; lia|done|].
    refine (serves_more _ _ _ _ _ [] _ (sends_relation _ _ _ orders _ _) _); [apply Hf; lia| |].
    { unfold message_ok, announcement, uint, column_ok, uint, no_nul. decide_now. }
    refine (serves_more _ _ _ _ _ [_] _ (sends_change _ _ _ orders _ _ _ _ _ _ _) _); [apply Hf; lia|done|done| |].
    { unfold change_message, message_ok, tuple_ok, uint. cbn -[Z.pow]. split_and!; try lia. repeat constructor; cbn; lia. }
    refine (serves_more _ _ _ _ _ [_] _ (sends_tick _ _) _).
    refine (serves_more _ _ _ _ _ [_] _ (sends_change _ _ _ orders _ _ _ _ _ _ _) _); [apply Hf; lia|done|done| |].
    { unfold change_message, message_ok, tuple_ok, uint. cbn -[Z.pow]. split_and!; try lia. repeat constructor; cbn; lia. }
    refine (serves_more _ _ _ _ _ [_] _ (sends_commit _ _ _ _ _ _ _ _ _) _); [apply Hf; lia|unfold message_ok, uint; lia|].
    refine (serves_more _ _ _ _ _ [_] [] (sends_keepalive _ _ _ true) _). apply serves_nothing.
  - exists g. split; [exact H|]. vm_compute. reflexivity.
Defined.

(** ** Any bytes at all *)

(** The flush positions of the updates of status, as the server reads them. *)
Definition flushed (outputs : list output) : list Z :=
  omap (fun o => match o with
                 | Feedback buf => match readBigUInt64BE buf 9 with Ok p => Some p | Err _ => None end
                 | Yield _ => None
                 end) outputs.

Lemma flushed_update now p o : (0 <= p < 2 ^ 64)%Z -> flushed (Feedback (status_update now p) :: o) = p :: flushed o.
Proof.
  intros Hp. cbn [flushed omap list_omap]. unfold readBigUInt64BE.
  pose proof (starts_at_whole (status_update now p)) as H. unfold status_update in H at 2.
  cut H h0 1%Z. cut H h1 9%Z. apply starts_at_app in H as [h2 _]. rewrite (readUInt_at _ _ _ _ h2); [done|exact Hp].
Qed.

Lemma flushed_yield e o : flushed (Yield e :: o) = flushed o.
Proof. done. Qed.

Definition confirms (g : generator) (a : Z) : Prop := parseLsn (confirmedLsn g) = Ok a.

Lemma feedback_confirms now g a : confirms g a -> feedback now g = Ok (g, [Feedback (status_update now a)]).
Proof.
  intros H. unfold feedback, sendStandbyStatusUpdate.
  destruct (String.eqb_spec (confirmedLsn g) "0/0") as [E|E].
  - unfold confirms in H. rewrite E in H. change (parseLsn "00000000/00000000") with (parseLsn "0/0"). by rewrite H.
  - unfold confirms in H. by rewrite H.
Qed.

Lemma max_lsn_ok p q a m : parseLsn p = Ok a -> maxLsn p q = Ok m -> exists b, parseLsn m = Ok b /\ (a <= b)%Z.
Proof.
  unfold maxLsn. intros Hp. rewrite Hp. cbn [mbind result_mbind result_bind]. destruct (parseLsn q) as [b|] eqn:E; [|done].
  cbn. intros [= <-]. destruct (Z.leb_spec b a); eexists; split; [exact Hp|lia|exact E|lia].
Qed.

Lemma yield_change_flushed tables now g id l ty b a : (yield_change tables now g id l ty b a).1 = g /\ flushed (yield_change tables now g id l ty b a).2 = [].
Proof. unfold yield_change. by repeat case_match. Qed.

Lemma consume_confirms tables now g buf a g' o :
  confirms g a -> consume tables now g buf = Ok (g', o) ->
  exists b, confirms g' b /\ (a <= b)%Z /\ (flushed o = [] \/ flushed o = [b]).
Proof.
  intros Ha. unfold consume. repeat case_match.
  - rewrite (feedback_confirms _ _ _ Ha). intros [= <- <-]. exists a. split_and!; [done|lia|right].
    apply flushed_update. by apply parse_range in Ha.
  - intros [= <- <-]. exists a. split_and!; [done|lia|by left].
  - intros [= <- <-]. exists a. split_and!; [done|lia|by left].
  - destruct (decode_lsn buf 1) as [ml|]; [|done]. destruct (decodePgOutputMessage _) as [[m|]|]; [| |done].
    2:{ intros [= <- <-]. exists a. split_and!; [done|lia|by left]. }
    cbn [bad_buffer map_err mbind result_mbind result_bind].
    destruct m as [id s n i cols|l t x|fl l e t|id new|id old new|id old key]; cbn [handle_message].
    1:{ intros [= <- <-]. exists a. split_and!; [done|lia|by left]. }
    1:{ destruct (pgTimestampToIso t); [|done]. intros [= <- <-]. exists a. split_and!; [done|lia|by left]. }
    1:{ destruct (maxLsn (confirmedLsn g) e) as [m|] eqn:Em; [|done]. destruct (max_lsn_ok _ _ _ _ Ha Em) as (b & Hb & Hab).
        cbn [bad_lsn map_err mbind result_mbind result_bind].
        rewrite (feedback_confirms now _ b) by done. intros [= <- <-]. exists b. split_and!; [done|done|right].
        apply flushed_update. by apply parse_range in Hb. }
    all: intros [= Hy];
      match type of Hy with yield_change ?t ?n ?g ?i ?l ?ty ?b ?x = _ => destruct (yield_change_flushed t n g i l ty b x) as [Hg Ho] end;
      rewrite Hy in Hg, Ho; cbn [fst snd] in Hg, Ho; subst g'; exists a; split_and!; [done|lia|by left].
Qed.

(** Confirmed positions never go back.  Whatever bytes arrive, well formed or
    not, the positions that the generator confirms to the server are in ascending
    order from the position it started at. *)
Theorem feedback_monotone tables start a entries :
  match start with None => a = 0%Z | Some p => parseLsn p = Ok a end ->
  StronglySorted Z.le (a :: flushed (stream tables (started start) entries).1).
Proof.
  intros Ha. assert (Hg : confirms (started start) a).
  { unfold confirms. cbn. destruct start; [done|]. by rewrite Ha. }
  clear Ha. revert Hg. generalize (started start) as g. clear start. revert a.
  induction entries as [|[now e] entries IH]; intros a g Ha; cbn [stream fst flushed omap list_omap]; [by repeat constructor|].
  destruct e as [buf|m| |]; [| by repeat constructor..|].
  - destruct (consume tables now g buf) as [[g' o]|] eqn:E; [|by repeat constructor].
    destruct (consume_confirms _ _ _ _ _ _ _ Ha E) as (b & Hb & Hab & Ho). specialize (IH b g' Hb).
    destruct (stream tables g' entries) as [o' fin]. cbn [fst] in *. unfold flushed in *. rewrite omap_app.
    apply StronglySorted_inv in IH as [IH1 IH2].
    destruct Ho as [-> | ->]; cbn [app].
    + constructor; [done|]. eapply Forall_impl; [exact IH2|]. intros x Hx. cbn in Hx. lia.
    + constructor; [by constructor|]. constructor; [done|]. eapply Forall_impl; [exact IH2|]. intros x Hx. cbn in Hx. lia.
  - specialize (IH a g Ha). unfold tick. rewrite (feedback_confirms _ _ _ Ha).
    destruct (stream tables g entries) as [o' fin]. cbn [fst app] in *. rewrite flushed_update by (by apply parse_range in Ha).
    constructor; [done|]. apply StronglySorted_inv in IH as [_ IH]. constructor; [lia|done].
Qed.

Lemma feedback_monotone_witness :
  StronglySorted Z.le (16%Z :: flushed (stream [] (started (Some "0/10")) orders_entries).1)
  /\ flushed (stream [] (started (Some "0/10")) orders_entries).1 = [16; 520; 520]%Z.
Proof. split; [apply (feedback_monotone [] (Some "0/10") 16%Z); reflexivity|vm_compute; reflexivity]. Defined.

(** A start position that is no position: the first commit throws. *)
Example stream_bad_start :
  (stream [] (started (Some "tip")) orders_entries).2 = Threw BadLsn.
Proof. vm_compute. reflexivity. Qed.
