(* ===== verification/RawTable.v ===== *)
(** * Raw tables

    services/ingestion/src/utils/data-envelope.ts and
    repositories/raw-table-repository.ts.  Every connector has a raw table keyed by
    [_id].  A statement that fails changes nothing.  Dates are milliseconds.  The last part is
    repositories/sync-state-repository.ts, the state of a connector's synchronisation. *)

From S2P Require Import Prelude JsString JsValue SqlTable.
From Stdlib Require Import Ascii.
From stdpp Require Import gmap strings.

(** [uuidv5(name, namespace)], of the package uuid. *)
Class Uuid : Type := uuidv5 : string -> string -> string.

(** The order of texts in the database. *)
Class Collation : Type := text_before : string -> string -> bool.

Inductive sync_mode : Type := full | incremental.

#[export] Instance sync_mode_eq_dec : EqDecision sync_mode.
Proof. solve_decision. Defined.

(** ** Envelopes (data-envelope.ts) *)

Record DataRecord : Type := { sourceId : string; rec_data : obj }.

Record DataEnvelope : Type := {
  _id : string;
  _source : string;
  _ingested_at : Z;
  _connector_id : string;
  _batch_id : string;
  _tenant_id : string;
  _sync_mode : sync_mode;
  _cursor : option string;
  _source_id : string;
  data : obj
}.

Record EnvelopeContext : Type := {
  connectorId : string;
  connectorName : string;
  batchId : string;
  tenantId : string;
  syncMode : sync_mode;
  cursor : option string
}.

Definition connectorIdToTableName (connectorId : string) : string :=
  "raw_" +:+ on_chars (map (fun c => if Ascii.eqb c "-" then "_"%char else c)) connectorId.

Definition lower_hex (c : ascii) : bool := is_digit c || code_in 97 102 c.

Definition hex_group (n : nat) (l : list ascii) : bool := (length l =? n)%nat && forallb lower_hex l.

(** [CONNECTOR_ID_PATTERN] *)
Definition connector_id_pattern (s : string) : bool :=
  match map explode (JsString.split s "_") with
  | [a; b; c; d; e] => hex_group 8 a && hex_group 4 b && hex_group 4 c && hex_group 4 d && hex_group 12 e
  | _ => false
  end.

Definition validateRawTableName (tableName : string) : bool :=
  startsWith tableName "raw_" && connector_id_pattern (implode (drop 4 (explode tableName))).

(** ** Rows *)

Record RawRow : Type := {
  r_source : string;
  r_ingested_at : Z;
  r_connector_id : string;
  r_tenant_id : string;
  r_batch_id : string;
  r_sync_mode : sync_mode;
  r_cursor : option string;
  r_source_id : string;
  deleted_at : option Z;
  r_data : obj
}.

(** A table by its primary key, and the tables of the schema by their names. *)
Abbreviation raw_table := (gmap string RawRow).
Abbreviation raw_db := (gmap string raw_table).

Inductive raw_error : Type :=
| InvalidConnectorId
| InvalidTableName
| NoSuchTable           (* undefined_table *)
| RowTwice.             (* ON CONFLICT DO UPDATE cannot affect row a second time *)

Section Raw.
Context `{Uuid} `{Collation}.

Definition deriveEnvelopeId (connectorId sourceId : string) : string := uuidv5 sourceId connectorId.

Definition normalizeToEnvelope (now : Z) (record : DataRecord) (context : EnvelopeContext) : DataEnvelope :=
  {| _id := deriveEnvelopeId (connectorId context) (sourceId record);
     _source := connectorName context;
     _ingested_at := now;
     _connector_id := connectorId context;
     _batch_id := batchId context;
     _tenant_id := tenantId context;
     _sync_mode := syncMode context;
     _cursor := cursor context;
     _source_id := sourceId record;
     data := rec_data record |}.

Definition qualifiedTableName (connectorId : string) : result raw_error string :=
  let tableName := connectorIdToTableName connectorId in
  if validateRawTableName tableName then Ok ("ingestion." +:+ tableName) else Err InvalidConnectorId.

(** The name from a table name or a connector. *)
Definition tableOrConnector (tableNameOrConnectorId : string) : result raw_error string :=
  if startsWith tableNameOrConnectorId "raw_" then
    if validateRawTableName tableNameOrConnectorId then Ok ("ingestion." +:+ tableNameOrConnectorId) else Err InvalidTableName
  else qualifiedTableName tableNameOrConnectorId.

Definition find_table (qtName : string) (db : raw_db) : result raw_error raw_table :=
  match db !! qtName with Some t => Ok t | None => Err NoSuchTable end.

(** [CREATE TABLE IF NOT EXISTS] *)
Definition createRawTable (connectorId : string) (db : raw_db) : result raw_error raw_db :=
  qtName ← qualifiedTableName connectorId;
  Ok (match db !! qtName with Some _ => db | None => <[qtName := ∅]> db end).

Definition ensureTable := createRawTable.

(** [ON CONFLICT (_id) DO UPDATE]: a row keeps its time, connector, tenant and source. *)
Definition upsert_row (e : DataEnvelope) (old : option RawRow) : RawRow :=
  match old with
  | None =>
      {| r_source := _source e; r_ingested_at := _ingested_at e; r_connector_id := _connector_id e;
         r_tenant_id := _tenant_id e; r_batch_id := _batch_id e; r_sync_mode := _sync_mode e;
         r_cursor := _cursor e; r_source_id := _source_id e; deleted_at := None; r_data := data e |}
  | Some r =>
      {| r_source := _source e; r_ingested_at := r_ingested_at r; r_connector_id := r_connector_id r;
         r_tenant_id := r_tenant_id r; r_batch_id := _batch_id e; r_sync_mode := _sync_mode e;
         r_cursor := _cursor e; r_source_id := r_source_id r; deleted_at := None; r_data := data e |}
  end.

Definition upsert_rows (t : raw_table) (l : list DataEnvelope) : raw_table :=
  fold_left (fun t e => <[_id e := upsert_row e (t !! _id e)]> t) l t.

Definition insertBatch (connectorId : string) (envelopes : list DataEnvelope) (db : raw_db) : result raw_error raw_db :=
  match envelopes with
  | [] => Ok db
  | _ =>
      qtName ← qualifiedTableName connectorId;
      t ← find_table qtName db;
      if bool_decide (NoDup (map _id envelopes)) then Ok (<[qtName := upsert_rows t envelopes]> db) else Err RowTwice
  end.

Definition upsertBatch (tableName : string) (envelopes : list DataEnvelope) (db : raw_db) : result raw_error raw_db :=
  match envelopes with
  | [] => Ok db
  | first :: _ =>
      if validateRawTableName tableName then insertBatch (_connector_id first) envelopes db else Err InvalidTableName
  end.

Definition live (r : RawRow) : bool := match deleted_at r with None => true | Some _ => false end.

Definition soft_delete (now : Z) (r : RawRow) : RawRow :=
  {| r_source := r_source r; r_ingested_at := r_ingested_at r; r_connector_id := r_connector_id r;
     r_tenant_id := r_tenant_id r; r_batch_id := r_batch_id r; r_sync_mode := r_sync_mode r;
     r_cursor := r_cursor r; r_source_id := r_source_id r; deleted_at := Some now; r_data := r_data r |}.

Definition stale_row (connectorId currentBatchId : string) (r : RawRow) : bool :=
  String.eqb (r_connector_id r) connectorId && negb (String.eqb (r_batch_id r) currentBatchId) && live r.

Definition rows (t : raw_table) : list RawRow := map snd (map_to_list t).

Definition softDeleteNotInBatch (now : Z) (connectorId currentBatchId : string) (db : raw_db) : result raw_error (raw_db * nat) :=
  qtName ← qualifiedTableName connectorId;
  t ← find_table qtName db;
  let stale := stale_row connectorId currentBatchId in
  Ok (<[qtName := (fun r => if stale r then soft_delete now r else r) <$> t]> db, length (List.filter stale (rows t))).

Inductive cutoff : Type := OlderThan (date : Z) | Days (n : Z).

Definition cutoff_date (now : Z) (c : cutoff) : Z :=
  match c with OlderThan d => d | Days n => (now - n * 24 * 60 * 60 * 1000)%Z end.

Definition deleteOlderThan (now : Z) (tableNameOrConnectorId : string) (olderThanOrDays : cutoff) (db : raw_db) :
    result raw_error (raw_db * nat) :=
  qtName ← tableOrConnector tableNameOrConnectorId;
  t ← find_table qtName db;
  let old r := (r_ingested_at r <? cutoff_date now olderThanOrDays)%Z in
  Ok (<[qtName := filter (fun kr => old kr.2 = false) t]> db, length (List.filter old (rows t))).

Definition dropTable (tableNameOrConnectorId : string) (db : raw_db) : result raw_error raw_db :=
  qtName ← tableOrConnector tableNameOrConnectorId;
  Ok (base.delete qtName db).

Definition count (connectorId : string) (db : raw_db) : result raw_error nat :=
  qtName ← qualifiedTableName connectorId;
  t ← find_table qtName db;
  Ok (size t).

Definition by_source_id (a b : RawRow) : bool := text_before (r_source_id a) (r_source_id b).

Definition listSourceIds (connectorId : string) (db : raw_db) : result raw_error (list string) :=
  qtName ← qualifiedTableName connectorId;
  t ← find_table qtName db;
  Ok (map r_source_id (order_by by_source_id (List.filter live (rows t)))).

Definition sampleRecords (connectorId : string) (limit : nat) (sourceIds : option (list string)) (db : raw_db) :
    result raw_error (list DataRecord) :=
  qtName ← qualifiedTableName connectorId;
  t ← find_table qtName db;
  let wanted r := match sourceIds with
                  | Some ((_ :: _) as ids) => existsb (String.eqb (r_source_id r)) ids
                  | _ => true
                  end in
  Ok (map (fun r => {| sourceId := r_source_id r; rec_data := r_data r |})
          (select by_source_id (fun r => live r && wanted r) limit (rows t))).

Record fetched : Type := { f_id : string; f_batch_id : string; f_connector_id : string; f_ingested_at : Z; f_data : obj }.

Definition fetchBatch (connectorId batchId : string) (db : raw_db) : result raw_error (list fetched) :=
  qtName ← qualifiedTableName connectorId;
  t ← find_table qtName db;
  let wanted (kr : string * RawRow) := String.eqb (r_connector_id kr.2) connectorId && String.eqb (r_batch_id kr.2) batchId && live kr.2 in
  Ok (map (fun kr => {| f_id := kr.1; f_batch_id := r_batch_id kr.2; f_connector_id := r_connector_id kr.2;
                        f_ingested_at := r_ingested_at kr.2; f_data := r_data kr.2 |})
          (order_by (fun a b => (r_ingested_at a.2 <? r_ingested_at b.2)%Z) (List.filter wanted (map_to_list t)))).

Definition tableExists (tableName : string) (db : raw_db) : result raw_error bool :=
  if validateRawTableName tableName then Ok (bool_decide (is_Some (db !! ("ingestion." +:+ tableName)))) else Err InvalidTableName.

End Raw.

(** ** Lemmas *)

Lemma upsert_rows_cons t e l : upsert_rows t (e :: l) = upsert_rows (<[_id e := upsert_row e (t !! _id e)]> t) l.
Proof. done. Qed.

Lemma upsert_rows_out t l id : id ∉ map _id l -> upsert_rows t l !! id = t !! id.
Proof.
  revert t. induction l as [|e l IH]; intros t H; [done|]. rewrite upsert_rows_cons.
  apply not_elem_of_cons in H as [Hne H]. rewrite IH by done. by rewrite lookup_insert_ne.
Qed.

Lemma upsert_rows_in t l e : NoDup (map _id l) -> e ∈ l -> upsert_rows t l !! _id e = Some (upsert_row e (t !! _id e)).
Proof.
  revert t. induction l as [|x l IH]; intros t Hnd He; [by apply not_elem_of_nil in He|]. rewrite upsert_rows_cons.
  cbn in Hnd. apply NoDup_cons in Hnd as [Hx Hnd]. apply elem_of_cons in He as [->|He].
  - rewrite (upsert_rows_out _ l) by done. by rewrite lookup_insert_eq.
  - rewrite IH by done. rewrite lookup_insert_ne; [done|]. intros E. apply Hx. rewrite E. by apply list_elem_of_fmap_2.
Qed.

Lemma upsert_row_twice e old : upsert_row e (Some (upsert_row e old)) = upsert_row e old.
Proof. by destruct old. Qed.

Lemma upsert_rows_twice t l : NoDup (map _id l) -> upsert_rows (upsert_rows t l) l = upsert_rows t l.
Proof.
  intros Hnd. apply map_eq. intros id. destruct (decide (id ∈ map _id l)) as [Hin|Hout].
  - apply list_elem_of_fmap in Hin as (e & -> & He). rewrite !upsert_rows_in by done. by rewrite upsert_row_twice.
  - by rewrite upsert_rows_out.
Qed.

Lemma live_upsert e old : live (upsert_row e old) = true.
Proof. by destruct old. Qed.

Lemma stale_spec c b r : stale_row c b r = true <-> r_connector_id r = c /\ r_batch_id r <> b /\ live r = true.
Proof.
  unfold stale_row. rewrite !andb_true_iff, negb_true_iff, String.eqb_eq, String.eqb_neq. tauto.
Qed.

Section Laws.
Context `{Uuid}.

(** What a delivered batch does to the tables. *)
Lemma insert_ok c q l db t :
  qualifiedTableName c = Ok q -> db !! q = Some t -> NoDup (map _id l) ->
  insertBatch c l db = Ok (<[q := upsert_rows t l]> db).
Proof.
  intros Hq Ht Hnd. destruct l as [|e l].
  - cbn. by rewrite insert_id.
  - unfold insertBatch, find_table. rewrite Hq. cbn [mbind result_mbind result_bind]. rewrite Ht.
    cbn [mbind result_mbind result_bind]. by rewrite bool_decide_true.
Qed.

Lemma insert_inv c l db db' :
  insertBatch c l db = Ok db' -> l = [] /\ db' = db \/
  exists q t, qualifiedTableName c = Ok q /\ db !! q = Some t /\ NoDup (map _id l) /\ db' = <[q := upsert_rows t l]> db.
Proof.
  unfold insertBatch, find_table. destruct l as [|e l]; [intros [= <-]; by left|].
  destruct (qualifiedTableName c) as [q|]; [|done]. cbn [mbind result_mbind result_bind].
  destruct (db !! q) as [t|] eqn:Et; [|done]. cbn [mbind result_mbind result_bind].
  case_bool_decide; [|done]. intros [= <-]. right. by exists q, t.
Qed.

(** A batch that is delivered again changes nothing.  A batch is accepted
    when no two of its envelopes have one identifier; the tables it leaves accept
    it again and stay as they are. *)
Theorem redelivery_idempotent c l db db' :
  insertBatch c l db = Ok db' -> NoDup (map _id l) /\ insertBatch c l db' = Ok db'.
Proof.
  intros [(-> & ->)|(q & t & Hq & Ht & Hnd & ->)]%insert_inv; [split; [constructor|done]|].
  split; [done|]. rewrite (insert_ok _ q _ _ (upsert_rows t l)) by (try done; by rewrite lookup_insert_eq).
  by rewrite insert_insert_eq, upsert_rows_twice.
Qed.

(** ** Full synchronisation *)

(** The jobs of one full synchronisation of a connector. *)
Inductive sync_op : Type :=
| Deliver (l : list DataEnvelope)
| Cleanup (now : Z).

Definition run_op (c b : string) (db : raw_db) (o : sync_op) : result raw_error raw_db :=
  match o with
  | Deliver l => insertBatch c l db
  | Cleanup now => fst <$> softDeleteNotInBatch now c b db
  end.

(** The row shows the envelope. *)
Definition shows (e : DataEnvelope) (r : RawRow) : Prop :=
  live r = true /\ r_data r = data e /\ r_source r = _source e /\ r_batch_id r = _batch_id e /\ r_cursor r = _cursor e.

Lemma shows_upsert e old : shows e (upsert_row e old).
Proof. by destruct old. Qed.

Section FullSync.
Context (c b q : string) (batches : list (list DataEnvelope)).
Context (Hq : qualifiedTableName c = Ok q).
Context (Henv : forall e, e ∈ concat batches -> _batch_id e = b /\ _connector_id e = c).
Context (Hnd : NoDup (map _id (concat batches))).

Lemma batch_nodup l : l ∈ batches -> NoDup (map _id l).
Proof using Hnd.
  clear Henv. intros Hl. apply list_elem_of_split in Hl as (l1 & l2 & ->). rewrite concat_app, map_app in Hnd. cbn in Hnd.
  apply NoDup_app in Hnd as (_ & _ & H2). rewrite map_app in H2. by apply NoDup_app in H2 as (H2 & _).
Qed.

Lemma in_batch l e : l ∈ batches -> e ∈ l -> e ∈ concat batches.
Proof. intros Hl He. apply list_elem_of_In, in_concat. exists l. by split; apply list_elem_of_In. Qed.

(** What holds after the batches [done] and, once [cleaned], the cleanup. *)
Record progress (t : raw_table) (done : list (list DataEnvelope)) (cleaned : bool) : Prop := {
  pr_connector : forall id r, t !! id = Some r -> r_connector_id r = c;
  pr_shown : forall l e, l ∈ done -> e ∈ l -> exists r, t !! _id e = Some r /\ shows e r;
  pr_other : forall id r, t !! id = Some r -> id ∉ map _id (concat batches) ->
    r_batch_id r <> b /\ (cleaned = true -> live r = false)
}.

Lemma progress_deliver t don cl l :
  l ∈ batches -> (forall k, k ∈ don -> k ∈ batches) -> progress t don cl -> progress (upsert_rows t l) (l :: don) cl.
Proof using Hnd Henv.
  intros Hl Hsub [H1 H2 H3]. pose proof (batch_nodup l Hl) as Hndl. split.
  - intros id r Hr. destruct (decide (id ∈ map _id l)) as [Hin|Hout].
    + apply list_elem_of_fmap in Hin as (e & -> & He). rewrite upsert_rows_in in Hr by done. injection Hr as <-.
      destruct (t !! _id e) as [old|] eqn:E; [by apply (H1 _ _ E)|]. by apply Henv, (in_batch l).
    + rewrite upsert_rows_out in Hr by done. by apply (H1 _ _ Hr).
  - intros k e Hk He. apply elem_of_cons in Hk as [->|Hk].
    + rewrite upsert_rows_in by done. eexists. split; [done|apply shows_upsert].
    + destruct (decide (_id e ∈ map _id l)) as [Hin|Hout].
      * apply list_elem_of_fmap in Hin as (e' & E & He').
        assert (e = e') as ->.
        { eapply (NoDup_map_inj _id); [exact Hnd|by eapply in_batch, He; apply Hsub|by eapply in_batch|done]. }
        rewrite upsert_rows_in by done. eexists. split; [done|apply shows_upsert].
      * rewrite upsert_rows_out by done. by apply (H2 k).
  - intros id r Hr Hid. assert (Hout : id ∉ map _id l).
    { intros (e & -> & He)%list_elem_of_fmap. apply Hid. apply list_elem_of_fmap_2. by apply (in_batch l). }
    rewrite upsert_rows_out in Hr by done. by apply (H3 _ _ Hr).
Qed.

Lemma progress_cleanup t don cl now :
  (forall k, k ∈ don -> k ∈ batches) -> progress t don cl ->
  progress ((fun r => if stale_row c b r then soft_delete now r else r) <$> t) don true.
Proof using Henv.
  intros Hsub [H1 H2 H3]. split.
  - intros id r. rewrite lookup_fmap. destruct (t !! id) as [r0|] eqn:E; [|done]. intros [= <-].
    destruct (stale_row c b r0); by apply (H1 _ _ E).
  - intros l e Hl He. destruct (H2 l e Hl He) as (r & Hr & Hs). rewrite lookup_fmap, Hr. eexists. split; [done|].
    destruct (stale_row c b r) eqn:Est; [|done]. apply stale_spec in Est as (_ & Hb & _).
    destruct Hs as (_ & _ & _ & Hb' & _). destruct Hb. rewrite Hb'. apply Henv, (in_batch l); [by apply Hsub|done].
  - intros id r. rewrite lookup_fmap. destruct (t !! id) as [r0|] eqn:E; [|done]. intros [= <-] Hid.
    destruct (H3 _ _ E Hid) as [Hb Hl]. destruct (stale_row c b r0) eqn:Est; [done|]. split; [done|]. intros _.
    destruct (live r0) eqn:Elive; [|done]. rewrite <- Est. symmetry. apply stale_spec. split_and!; [by apply (H1 _ _ E)|done|done].
Qed.

Lemma run_progress ops db t don cl :
  db !! q = Some t -> (forall k, k ∈ don -> k ∈ batches) -> (forall l, Deliver l ∈ ops -> l ∈ batches) -> progress t don cl ->
  exists db' t' don' cl', foldM (run_op c b) db ops = Ok db' /\ db' !! q = Some t' /\ progress t' don' cl'
    /\ (forall l, Deliver l ∈ ops \/ l ∈ don -> l ∈ don')
    /\ (cl = true \/ (exists now, Cleanup now ∈ ops) -> cl' = true).
Proof using Hnd Henv Hq.
  revert db t don cl. induction ops as [|o ops IH]; intros db t don cl Ht Hsub Hops Hp.
  - exists db, t, don, cl. split_and!; [done|done|done| |].
    + intros l [Hl|Hl]; [by apply not_elem_of_nil in Hl|done].
    + intros [?|(now & Hn)]; [done|by apply not_elem_of_nil in Hn].
  - cbn [foldM]. destruct o as [l|now]; cbn [run_op].
    + rewrite (insert_ok _ q _ _ t) by (try done; apply batch_nodup, Hops; by left).
      cbn [mbind result_mbind result_bind].
      destruct (IH (<[q := upsert_rows t l]> db) (upsert_rows t l) (l :: don) cl) as (db' & t' & don' & cl' & H1 & H2 & H3 & H4 & H5).
      * by rewrite lookup_insert_eq.
      * intros k [->|Hk]%elem_of_cons; [apply Hops; by left|by apply Hsub].
      * intros k Hk. apply Hops. by right.
      * apply progress_deliver; [apply Hops; by left|done|done].
      * exists db', t', don', cl'. split_and!; [done|done|done| |].
        -- intros k [Hk|Hk]; [|by apply H4; right; right]. apply elem_of_cons in Hk as [[= ->]|Hk]; apply H4; [right; by left|by left].
        -- intros [Hc|(now & Hn)]; apply H5; [by left|]. apply elem_of_cons in Hn as [Hn|Hn]; [done|]. right. by exists now.
    + unfold softDeleteNotInBatch, find_table. rewrite Hq. cbn [mbind result_mbind result_bind]. rewrite Ht. cbn.
      destruct (IH (<[q := (fun r => if stale_row c b r then soft_delete now r else r) <$> t]> db)
                  ((fun r => if stale_row c b r then soft_delete now r else r) <$> t) don true) as (db' & t' & don' & cl' & H1 & H2 & H3 & H4 & H5).
      * by rewrite lookup_insert_eq.
      * done.
      * intros k Hk. apply Hops. by right.
      * by apply (progress_cleanup _ _ cl).
      * exists db', t', don', cl'. split_and!; [done|done|done| |].
        -- intros k [Hk|Hk]; apply H4; [left|by right]. apply elem_of_cons in Hk as [Hk|Hk]; done.
        -- intros _. apply H5. by left.
Qed.

End FullSync.

(** A full synchronisation leaves exactly the records of the source, however
    its jobs are interleaved.  Take the batches of one run, with one identifier of
    batch and no two envelopes of one identifier.  Deliver each at least once, in any order
    and any number of times, with at least one cleanup anywhere among the
    deliveries: every job succeeds, every envelope is a live row that shows its
    data, and every other row of the table is deleted. *)
Lemma full_sync_rows c b q batches ops db t :
  qualifiedTableName c = Ok q -> db !! q = Some t ->
  (forall id r, t !! id = Some r -> r_connector_id r = c /\ r_batch_id r <> b) ->
  (forall e, e ∈ concat batches -> _batch_id e = b /\ _connector_id e = c) ->
  NoDup (map _id (concat batches)) ->
  (forall l, Deliver l ∈ ops <-> l ∈ batches) -> (exists now, Cleanup now ∈ ops) ->
  exists db' t', foldM (run_op c b) db ops = Ok db' /\ db' !! q = Some t'
    /\ (forall e, e ∈ concat batches -> exists r, t' !! _id e = Some r /\ shows e r)
    /\ (forall id r, t' !! id = Some r -> live r = true <-> id ∈ map _id (concat batches)).
Proof.
  intros Hq Ht Hold Henv Hnd Hops Hclean.
  destruct (run_progress c b q batches Hq Henv Hnd ops db t [] false) as (db' & t' & don & cl & H1 & H2 & [P1 P2 P3] & H4 & H5).
  - done.
  - intros k Hk. by apply not_elem_of_nil in Hk.
  - intros l Hl. by apply Hops.
  - split; [intros; by eapply Hold|intros l e Hl; by apply not_elem_of_nil in Hl|].
    intros id r Hr _. split; [by eapply Hold|done].
  - assert (Hshow : forall e, e ∈ concat batches -> exists r, t' !! _id e = Some r /\ shows e r).
    { intros e He. apply list_elem_of_In, in_concat in He as (l & Hl & He). apply list_elem_of_In in Hl, He.
      apply (P2 l e); [|done]. apply H4. left. by apply Hops. }
    exists db', t'. split_and!; [done|done|done|]. intros id r Hr. split.
    + intros Hl. destruct (decide (id ∈ map _id (concat batches))) as [|Hout]; [done|].
      destruct (P3 id r Hr Hout) as [_ Hdead]. rewrite (Hdead (H5 (or_intror Hclean))) in Hl. done.
    + intros (e & -> & He)%list_elem_of_fmap. destruct (Hshow e He) as (r' & Hr' & Hs).
      rewrite Hr in Hr'. injection Hr' as <-. apply Hs.
Qed.

End Laws.

(** ** Examples *)

Definition CONNECTOR : string := "0b0b0b0b-0000-4000-8000-000000000001".

(** Identifiers that show what they are made of. *)
#[local] Instance plain_uuid : Uuid := fun name namespace => namespace +:+ "/" +:+ name.

Definition envelope (b id : string) (v : string) : DataEnvelope :=
  normalizeToEnvelope 0 {| sourceId := id; rec_data := [("v", VStr v)] |}
    {| connectorId := CONNECTOR; connectorName := "shop"; batchId := b; tenantId := "t"; syncMode := full; cursor := None |}.

Definition raw_name : string := "ingestion.raw_0b0b0b0b_0000_4000_8000_000000000001".

(** Two old rows, of which one is still in the source. *)
Definition old_table : raw_table := upsert_rows ∅ [envelope "b1" "1" "x"; envelope "b1" "2" "y"].

Definition interleaved : list sync_op :=
  [Deliver [envelope "b2" "3" "c"]; Cleanup 9; Deliver [envelope "b2" "1" "a"]; Deliver [envelope "b2" "3" "c"]].

Lemma full_sync_rows_example :
  exists db' t', foldM (run_op CONNECTOR "b2") {[raw_name := old_table]} interleaved = Ok db' /\ db' !! raw_name = Some t'
    /\ (forall e, e ∈ [envelope "b2" "1" "a"; envelope "b2" "3" "c"] -> exists r, t' !! _id e = Some r /\ shows e r)
    /\ (forall id r, t' !! id = Some r -> live r = true <-> id ∈ [_id (envelope "b2" "1" "a"); _id (envelope "b2" "3" "c")]).
Proof.
  apply (full_sync_rows CONNECTOR "b2" raw_name [[envelope "b2" "1" "a"]; [envelope "b2" "3" "c"]] interleaved _ old_table).
  - vm_compute. reflexivity.
  - vm_compute. reflexivity.
  - intros id r. unfold old_table, upsert_rows. cbn [fold_left]. rewrite lookup_insert_Some. intros [(<- & <-)|(_ & Hr)]; [split; vm_compute; congruence|].
    rewrite lookup_insert_Some in Hr. destruct Hr as [(<- & <-)|(_ & Hr)]; [split; vm_compute; congruence|done].
  - intros e He. cbn in He. apply elem_of_cons in He as [->|He]; [done|]. by apply list_elem_of_singleton in He as ->.
  - decide_now.
  - intros l. unfold interleaved. split.
    + intros Hl. repeat (apply elem_of_cons in Hl as [Hl|Hl]; [try discriminate Hl; injection Hl as ->; (by left) || (right; by left)|]).
      by apply not_elem_of_nil in Hl.
    + intros Hl. apply elem_of_cons in Hl as [->|Hl]; [right; right; by left|]. apply list_elem_of_singleton in Hl as ->. by left.
  - exists 9%Z. right. by left.
Defined.

Lemma redelivery_idempotent_witness :
  exists db', insertBatch CONNECTOR [envelope "b2" "1" "a"] {[raw_name := old_table]} = Ok db'
    /\ insertBatch CONNECTOR [envelope "b2" "1" "a"] db' = Ok db'.
Proof.
  destruct (is_ok_value (insertBatch CONNECTOR [envelope "b2" "1" "a"] {[raw_name := old_table]})) as [db' H];
    [vm_compute; reflexivity|].
  exists db'. split; [exact H|]. apply (redelivery_idempotent CONNECTOR _ _ db' H).
Defined.

(** Two records of one identifier in a batch: the statement fails as a whole. *)
Example row_twice :
  insertBatch CONNECTOR [envelope "b2" "1" "a"; envelope "b2" "1" "b"] {[raw_name := old_table]} = Err RowTwice.
Proof. vm_compute. reflexivity. Qed.

(** The keys of the rows that are not deleted. *)
Definition live_keys (r : result raw_error raw_db) : list string :=
  match r with
  | Ok db => map (fun kr => kr.1) (List.filter (fun kr => live kr.2) (map_to_list (default ∅ (db !! raw_name))))
  | Err _ => []
  end.

(** A batch that is never delivered: its row is in the source, and deleted. *)
Example undelivered_deleted :
  live_keys (foldM (run_op CONNECTOR "b2") {[raw_name := old_table]} [Deliver [envelope "b2" "2" "b"]; Cleanup 9])
  = [_id (envelope "b2" "2" "b")].
Proof. vm_compute. reflexivity. Qed.

(** A job of the run before that comes late: its row comes back. *)
Example late_job_revives :
  live_keys (foldM (run_op CONNECTOR "b2") {[raw_name := old_table]}
    [Deliver [envelope "b2" "2" "b"]; Cleanup 9; Deliver [envelope "b1" "1" "x"]])
  = [_id (envelope "b1" "1" "x"); _id (envelope "b2" "2" "b")].
Proof. vm_compute. reflexivity. Qed.

Example table_names :
  qualifiedTableName CONNECTOR = Ok raw_name
  /\ qualifiedTableName "0B0B0B0B-0000-4000-8000-000000000001" = Err InvalidConnectorId
  /\ qualifiedTableName "x; DROP TABLE y" = Err InvalidConnectorId.
Proof. split_and!; vm_compute; reflexivity. Qed.

(** ** The state of synchronisation

    services/ingestion/src/repositories/sync-state-repository.ts: the table
    [sync_state], keyed by connector. *)

Inductive sync_status : Type := never_run | running | success | failed | cancelled.

#[export] Instance sync_status_eq_dec : EqDecision sync_status.
Proof. solve_decision. Defined.

Record SyncStateRow : Type := {
  last_cursor : option string;
  last_sync_at : option Z;
  last_sync_job_id : option string;
  st_mode : sync_mode;
  status : sync_status;
  last_error : option string;
  last_error_code : option string;
  rows_last_sync : nat;
  rows_total : nat;
  updated_at : Z
}.

Abbreviation sync_states := (gmap string SyncStateRow).

(** The columns that a call sets, [None] where it leaves one as it is. *)
Record Changes : Type := {
  set_cursor : option (option string);
  set_sync_at : option (option Z);
  set_job_id : option (option string);
  set_error : option (option string);
  set_error_code : option (option string);
  set_rows_last : option nat;
  set_rows_total : option nat
}.

Definition no_changes : Changes :=
  {| set_cursor := None; set_sync_at := None; set_job_id := None; set_error := None; set_error_code := None;
     set_rows_last := None; set_rows_total := None |}.

Definition apply_changes (now : Z) (new_status : option sync_status) (c : Changes) (r : SyncStateRow) : SyncStateRow :=
  {| last_cursor := default (last_cursor r) (set_cursor c);
     last_sync_at := default (last_sync_at r) (set_sync_at c);
     last_sync_job_id := default (last_sync_job_id r) (set_job_id c);
     st_mode := st_mode r;
     status := default (status r) new_status;
     last_error := default (last_error r) (set_error c);
     last_error_code := default (last_error_code r) (set_error_code c);
     rows_last_sync := default (rows_last_sync r) (set_rows_last c);
     rows_total := default (rows_total r) (set_rows_total c);
     updated_at := now |}.

(** ** The repository *)

(** The row that [upsert] writes: every column but the key. *)
Definition fresh_state (now : Z) (mode : sync_mode) (new_status : option sync_status) (c : Changes) : SyncStateRow :=
  {| last_cursor := default None (set_cursor c); last_sync_at := default None (set_sync_at c);
     last_sync_job_id := default None (set_job_id c); st_mode := mode; status := default never_run new_status;
     last_error := default None (set_error c); last_error_code := default None (set_error_code c);
     rows_last_sync := default 0%nat (set_rows_last c); rows_total := default 0%nat (set_rows_total c);
     updated_at := now |}.

Definition upsert (now : Z) (connector_id : string) (mode : sync_mode) (new_status : option sync_status) (c : Changes)
    (t : sync_states) : sync_states := <[connector_id := fresh_state now mode new_status c]> t.

Definition create (now : Z) (connectorId : string) (mode : sync_mode) : sync_states -> sync_states :=
  upsert now connectorId mode None no_changes.

Definition findByConnectorId (connectorId : string) (t : sync_states) : option SyncStateRow := t !! connectorId.

Definition findByConnectorIds (connectorIds : list string) (t : sync_states) : gmap string SyncStateRow :=
  filter (fun kr => kr.1 ∈ connectorIds) t.

(** [updateStatus] writes every column of [extra] but the cursor, which it does not look at. *)
Definition updateStatus (now : Z) (connectorId : string) (new_status : sync_status) (extra : Changes) (t : sync_states) :
    sync_states :=
  let extra := {| set_cursor := None; set_sync_at := set_sync_at extra; set_job_id := set_job_id extra;
                  set_error := set_error extra; set_error_code := set_error_code extra;
                  set_rows_last := set_rows_last extra; set_rows_total := set_rows_total extra |} in
  alter (apply_changes now (Some new_status) extra) connectorId t.

Definition updateCursor (now : Z) (connectorId : string) (lastCursor : option string) (t : sync_states) : sync_states :=
  alter (apply_changes now None {| set_cursor := Some lastCursor; set_sync_at := None; set_job_id := None; set_error := None;
                                   set_error_code := None; set_rows_last := None; set_rows_total := None |}) connectorId t.

Definition update (now : Z) (connectorId : string) (new_status : option sync_status) (data : Changes) (t : sync_states) :
    sync_states := alter (apply_changes now new_status data) connectorId t.

Definition stale_sync (now olderThanMs : Z) (r : SyncStateRow) : bool :=
  bool_decide (status r = running) && (updated_at r <? now - olderThanMs)%Z.

Definition findStaleSyncs (now olderThanMs : Z) (t : sync_states) : list string :=
  map fst (List.filter (fun kr => stale_sync now olderThanMs kr.2) (map_to_list t)).

Definition reset_row (now : Z) (r : SyncStateRow) : SyncStateRow :=
  apply_changes now (Some failed)
    {| set_cursor := None; set_sync_at := None; set_job_id := None;
       set_error := Some (Some "Sync timed out — reset by watchdog"); set_error_code := None;
       set_rows_last := None; set_rows_total := None |} r.

Definition resetStaleSyncs (now staleThresholdMs : Z) (t : sync_states) : sync_states * nat :=
  ((fun r => if stale_sync now staleThresholdMs r then reset_row now r else r) <$> t,
   length (findStaleSyncs now staleThresholdMs t)).

(** ** Lemmas *)

Lemma updateStatus_cursor now c st x t d :
  last_cursor <$> (updateStatus now c st x t !! d) = last_cursor <$> (t !! d).
Proof. unfold updateStatus. destruct (decide (c = d)) as [->|Hne]; [rewrite lookup_alter_eq|by rewrite lookup_alter_ne]. by destruct (t !! d). Qed.

Lemma updateStatus_status now c st x t r : t !! c = Some r -> status <$> (updateStatus now c st x t !! c) = Some st.
Proof. intros H. unfold updateStatus. rewrite lookup_alter_eq, H. done. Qed.

Lemma updateCursor_get now c v t r : t !! c = Some r -> last_cursor <$> (updateCursor now c v t !! c) = Some v.
Proof. intros H. unfold updateCursor. rewrite lookup_alter_eq, H. done. Qed.
