(* ===== verification/CdcIngestion.v ===== *)
(** * The ingestion of change streams

    services/ingestion/src/services/cdc-ingestion-service.ts: events are collected
    in batches, each written to the raw table by one statement; a timer and the
    size of the batch start the writes, which run beside the loop that receives.
    A session is one attempt of the loop; its steps are the points where the code
    waits. *)

From S2P Require Import Prelude JsString JsNumber JsValue SqlTable PgOutput CdcStream RawTable.
From stdpp Require Import gmap strings.

Inductive stream_status : Type := st_running | st_stopped | st_error | st_reconnecting.

Record CdcStatus : Type := {
  cdc_status : stream_status;
  currentPosition : option string;
  eventsProcessed : nat;
  startedAt : option Z;
  lastCommittedAt : option Z;
  lastError : option string
}.

(** ** Events as records *)

Definition cdc_type_text (t : cdc_type) : string :=
  match t with cdc_insert => "insert" | cdc_update => "update" | cdc_delete => "delete" end.

(** [event.lsn ?? event.position ?? `${batchId}:${index}`] *)
Definition positionKey (batchId : string) (index : nat) (event : CdcEvent) : string :=
  match lsn event with
  | Some l => l
  | None => match position event with Some p => p | None => batchId +:+ ":" +:+ Z_to_string (Z.of_nat index) end
  end.

Definition event_source (batchId : string) (index : nat) (event : CdcEvent) : string :=
  table event +:+ ":" +:+ cdc_type_text (type event) +:+ ":" +:+ positionKey batchId index event.

Definition optional_entry {A} (k : string) (f : A -> value) (o : option A) : list (string * value) :=
  match o with Some a => [(k, f a)] | None => [] end.

Definition event_data (event : CdcEvent) : obj :=
  [("_cdc_type", VStr (cdc_type_text (type event))); ("_cdc_table", VStr (table event)); ("_cdc_timestamp", VStr (timestamp event))]
  ++ optional_entry "_cdc_lsn" VStr (lsn event) ++ optional_entry "_cdc_position" VStr (position event)
  ++ optional_entry "_cdc_before" (VObj 0%N) (before event) ++ optional_entry "_cdc_after" (VObj 0%N) (after event).

Section Ingestion.
Context `{Uuid}.
Context (c tenant name : string).   (* the connector, its tenant and its name *)

Definition event_envelope (now : Z) (batchId : string) (index : nat) (event : CdcEvent) : DataEnvelope :=
  normalizeToEnvelope now {| sourceId := event_source batchId index event; rec_data := event_data event |}
    {| connectorId := c; connectorName := name; batchId := batchId; tenantId := tenant; syncMode := incremental;
       cursor := Some (positionKey batchId index event) |}.

Definition flushBatch (now : Z) (events : list CdcEvent) (batchId : string) (db : raw_db) : result raw_error raw_db :=
  match events with
  | [] => Ok db
  | _ => db ← createRawTable c db; insertBatch c (imap (event_envelope now batchId) events) db
  end.

(** ** A session *)

(** A [flushNow] under way: what it took, whether the loop waits for it, and, once the
    rows are stored, the position it is about to write. *)
Record flight : Type := {
  toFlush : list CdcEvent;
  flight_batch : string;
  awaited : bool;
  moving : option (option string)
}.

Record session : Type := {
  eventBuffer : list CdcEvent;
  batchTimer : bool;
  batch : string;
  flights : list flight;
  over : option (option string);    (* the loop has ended, with the error it threw *)
  tables : raw_db;
  states : sync_states;
  now_at : CdcStatus;
  (* history, which the code does not keep *)
  stored : list CdcEvent;
  dropped : list CdcEvent
}.

(** What happens between two steps: an event, the timer, the answer of the database to
    a flight (the rows, then the position), and the end of the stream. *)
Inductive happening : Type :=
| Receive (event : CdcEvent)
| TimerFires
| StoreRows (i : nat) (reached : bool) (now : Z)
| MovePosition (i : nat) (reached : bool) (now : Z) (fresh : string)
| StreamEnds
| StreamThrows (message : string).

Definition start_flush (waits : bool) (s : session) : session :=
  match eventBuffer s with
  | [] => s
  | l =>
      {| eventBuffer := []; batchTimer := batchTimer s; batch := batch s;
         flights := flights s ++ [{| toFlush := l; flight_batch := batch s; awaited := waits; moving := None |}];
         over := over s; tables := tables s; states := states s; now_at := now_at s; stored := stored s; dropped := dropped s |}
  end.

Definition set_timer (b : bool) (s : session) : session :=
  {| eventBuffer := eventBuffer s; batchTimer := b; batch := batch s; flights := flights s; over := over s;
     tables := tables s; states := states s; now_at := now_at s; stored := stored s; dropped := dropped s |}.

Definition push_event (event : CdcEvent) (s : session) : session :=
  {| eventBuffer := eventBuffer s ++ [event]; batchTimer := true; batch := batch s; flights := flights s; over := over s;
     tables := tables s; states := states s; now_at := now_at s; stored := stored s; dropped := dropped s |}.

Definition finish (r : option string) (s : session) : session :=
  {| eventBuffer := eventBuffer s; batchTimer := batchTimer s; batch := batch s; flights := flights s; over := Some r;
     tables := tables s; states := states s; now_at := now_at s; stored := stored s; dropped := dropped s |}.

(** A flight that throws: the loop ends with its error if it waits for it, and the
    error is logged otherwise. *)
Definition fail_flight (i : nat) (f : flight) (message : string) (s : session) : session :=
  {| eventBuffer := eventBuffer s; batchTimer := batchTimer s; batch := batch s; flights := base.delete i (flights s);
     over := if awaited f then Some (Some message) else over s;
     tables := tables s; states := states s; now_at := now_at s; stored := stored s;
     dropped := match moving f with None => dropped s ++ toFlush f | Some _ => dropped s end |}.

Definition waits (s : session) : bool := existsb awaited (flights s).

Definition receive (batchSize : nat) (event : CdcEvent) (s : session) : session :=
  let s := push_event event s in
  if (batchSize <=? length (eventBuffer s))%nat then start_flush true (set_timer false s) else s.

(** The rows are stored, and [p] is the position to write. *)
Definition rows_stored (i : nat) (f : flight) (db : raw_db) (p : option string) (st : CdcStatus) (s : session) : session :=
  {| eventBuffer := eventBuffer s; batchTimer := batchTimer s; batch := batch s;
     flights := <[i := {| toFlush := toFlush f; flight_batch := flight_batch f; awaited := awaited f; moving := Some p |}]> (flights s);
     over := over s; tables := db; states := states s; now_at := st; stored := stored s ++ toFlush f; dropped := dropped s |}.

(** The position moves in memory as soon as the rows are stored. *)
Definition store_rows (i : nat) (f : flight) (now : Z) (db : raw_db) (s : session) : session :=
  match last (toFlush f) ≫= lsn with
  | None => rows_stored i f db None (now_at s) s
  | Some newLsn =>
      match maxLsn (default "0/0" (currentPosition (now_at s))) newLsn with
      | Ok advanced =>
          let st := now_at s in
          rows_stored i f db (Some advanced)
            {| cdc_status := cdc_status st; currentPosition := Some advanced; eventsProcessed := eventsProcessed st;
               startedAt := startedAt st; lastCommittedAt := Some now; lastError := lastError st |} s
      | Err _ => fail_flight i {| toFlush := toFlush f; flight_batch := flight_batch f; awaited := awaited f; moving := Some None |}
                   "Invalid LSN" (rows_stored i f db None (now_at s) s)
      end
  end.

Definition move_position (i : nat) (f : flight) (p : option string) (now : Z) (fresh : string) (s : session) : session :=
  let st := now_at s in
  {| eventBuffer := eventBuffer s; batchTimer := batchTimer s; batch := fresh; flights := base.delete i (flights s);
     over := over s; tables := tables s;
     states := match p with Some p => updateCursor now c (Some p) (states s) | None => states s end;
     now_at := {| cdc_status := cdc_status st; currentPosition := currentPosition st;
                  eventsProcessed := eventsProcessed st + length (toFlush f);
                  startedAt := startedAt st; lastCommittedAt := Some now; lastError := lastError st |};
     stored := stored s; dropped := dropped s |}.

(** [None]: what cannot happen in this state. *)
Definition happen (batchSize : nat) (h : happening) (s : session) : option session :=
  match h with
  | Receive event => if waits s || bool_decide (over s <> None) then None else Some (receive batchSize event s)
  | TimerFires => if batchTimer s then Some (start_flush false (set_timer false s)) else None
  | StoreRows i reached now =>
      f ← flights s !! i;
      match moving f with
      | Some _ => None
      | None =>
          if reached then
            match flushBatch now (toFlush f) (flight_batch f) (tables s) with
            | Ok db => Some (store_rows i f now db s)
            | Err _ => Some (fail_flight i f "insert failed" s)
            end
          else Some (fail_flight i f "connection lost" s)
      end
  | MovePosition i reached now fresh =>
      f ← flights s !! i;
      match moving f with
      | None => None
      | Some p => if reached then Some (move_position i f p now fresh s) else Some (fail_flight i f "connection lost" s)
      end
  | StreamEnds =>
      if waits s || bool_decide (over s <> None) then None
      else Some (finish None (start_flush true (set_timer false s)))
  | StreamThrows message => if waits s || bool_decide (over s <> None) then None else Some (finish (Some message) s)
  end.

Fixpoint session_run (batchSize : nat) (l : list happening) (s : session) : option session :=
  match l with
  | [] => Some s
  | h :: l => s ← happen batchSize h s; session_run batchSize l s
  end.

Definition opened (start : option string) (at_ : Z) (first : string) (db : raw_db) (st : sync_states) : session :=
  {| eventBuffer := []; batchTimer := false; batch := first; flights := []; over := None; tables := db; states := st;
     now_at := {| cdc_status := st_running; currentPosition := start; eventsProcessed := 0; startedAt := Some at_;
                  lastCommittedAt := None; lastError := None |};
     stored := []; dropped := [] |}.

End Ingestion.
