(* ===== verification/CdcAccount.v ===== *)
(** * No event is lost silently

    Every event that a session of CdcIngestion has received is in one place: stored,
    in a flight, in the buffer, or dropped by a flight that failed; and the raw table
    has the last of the stored events of each identifier. *)

From S2P Require Import Prelude JsString JsValue SqlTable PgOutput CdcStream CdcSpec RawTable CdcIngestion.
From stdpp Require Import gmap strings.

Lemma elem_of_deleted {A} (x : A) i (l : list A) : x ∈ base.delete i l -> x ∈ l.
Proof.
  rewrite delete_take_drop, elem_of_app. intros [H|H]; [rewrite <- (take_drop i l)|rewrite <- (take_drop (S i) l)]; set_solver.
Qed.

Lemma elem_of_inserted {A} (x y : A) i (l : list A) : x ∈ <[i := y]> l -> x = y \/ x ∈ l.
Proof.
  intros (j & Hj)%list_elem_of_lookup. apply list_lookup_insert_Some in Hj as [(_ & -> & _)|(_ & Hj)]; [by left|].
  right. by eapply list_elem_of_lookup_2.
Qed.

Section Account.
Context `{Uuid}.
Context (c tenant name q : string) (Hq : qualifiedTableName c = Ok q).

(** The identifier of an event that has a position. *)
Definition event_id (e : CdcEvent) : string := deriveEnvelopeId c (event_source EmptyString 0 e).

Definition placed (e : CdcEvent) : Prop := is_Some (lsn e).

Lemma envelope_id now b i e : placed e -> _id (event_envelope c tenant name now b i e) = event_id e.
Proof. intros [l Hl]. unfold event_id, event_envelope, event_source, positionKey. cbn. by rewrite Hl. Qed.

Lemma envelope_ids now b l : Forall placed l -> map _id (imap (event_envelope c tenant name now b) l) = map event_id l.
Proof.
  intros Hl. apply list_eq. intros i. rewrite !list_lookup_fmap, list_lookup_imap.
  destruct (l !! i) as [e|] eqn:E; [|done]. cbn [fmap option_fmap option_map]. rewrite envelope_id; [done|by eapply Forall_lookup_1].
Qed.

(** The row of an event. *)
Definition recorded (t : raw_table) (e : CdcEvent) : Prop :=
  exists r, t !! event_id e = Some r /\ live r = true /\ r_data r = event_data e /\ r_cursor r = lsn e.

(** The last event of an identifier in a list. *)
Definition latest (i : string) (l : list CdcEvent) : option CdcEvent :=
  last (List.filter (fun e => String.eqb (event_id e) i) l).

Lemma latest_app i l k : latest i (l ++ k) = match latest i k with Some e => Some e | None => latest i l end.
Proof.
  unfold latest. rewrite List.filter_app. destruct (List.filter _ k) as [|x m] eqn:E; [by rewrite app_nil_r|].
  rewrite last_app. by destruct (last (x :: m)) eqn:El; [|apply last_None in El].
Qed.

Lemma latest_some i l e : latest i l = Some e -> e ∈ l /\ event_id e = i.
Proof. intros Hl%last_Some_elem_of. by apply elem_of_bfilter in Hl as [? ?%String.eqb_eq]. Qed.

Lemma latest_none i l : latest i l = None -> i ∉ map event_id l.
Proof.
  intros Hl%last_None (e & -> & He)%list_elem_of_fmap.
  assert (Hin : e ∈ List.filter (fun x => String.eqb (event_id x) (event_id e)) l) by (apply elem_of_bfilter; by rewrite String.eqb_refl).
  rewrite Hl in Hin. by apply not_elem_of_nil in Hin.
Qed.

(** With distinct identifiers every event is the last of its own. *)
Lemma latest_distinct l e : NoDup (map event_id l) -> e ∈ l -> latest (event_id e) l = Some e.
Proof.
  intros Hnd He. destruct (latest (event_id e) l) as [e'|] eqn:E.
  - apply latest_some in E as [He' Hi]. f_equal. by apply (NoDup_map_inj event_id l).
  - apply latest_none in E. destruct E. by apply list_elem_of_fmap_2.
Qed.

(** The row of every identifier is that of the last event with it. *)
Definition shows (t : raw_table) (l : list CdcEvent) : Prop := forall i e, latest i l = Some e -> recorded t e.

Definition table_of (db : raw_db) : raw_table := default ∅ (db !! q).

Lemma flush_ok now l b db :
  Forall placed l -> NoDup (map event_id l) ->
  exists db', flushBatch c tenant name now l b db = Ok db'
    /\ forall id, table_of db' !! id = upsert_rows (table_of db) (imap (event_envelope c tenant name now b) l) !! id.
Proof using Hq.
  intros Hl Hnd. destruct l as [|e l]; [by exists db|]. set (k := e :: l) in *. change (flushBatch c tenant name now k b db)
    with (db ← createRawTable c db; insertBatch c (imap (event_envelope c tenant name now b) k) db).
  unfold createRawTable. rewrite Hq. cbn [mbind result_mbind result_bind].
  set (db1 := match db !! q with Some _ => db | None => <[q := ∅]> db end).
  assert (Hdb1 : db1 !! q = Some (table_of db)).
  { unfold db1, table_of. destruct (db !! q) eqn:E; [by rewrite E|]. by rewrite lookup_insert_eq. }
  rewrite (insert_ok c q _ db1 (table_of db)) by (try done; by rewrite envelope_ids).
  eexists. split; [done|]. intros id. unfold table_of at 1. by rewrite lookup_insert_eq.
Qed.

(** A batch with an identifier twice is refused. *)
Lemma flush_refused now l b db :
  Forall placed l -> ~ NoDup (map event_id l) -> flushBatch c tenant name now l b db = Err RowTwice.
Proof using Hq.
  intros Hpl Hnd. destruct l as [|e l]; [destruct Hnd; constructor|]. set (k := e :: l) in *.
  change (flushBatch c tenant name now k b db) with (db ← createRawTable c db; insertBatch c (imap (event_envelope c tenant name now b) k) db).
  unfold createRawTable. rewrite Hq. cbn [mbind result_mbind result_bind].
  set (db1 := match db !! q with Some _ => db | None => <[q := ∅]> db end).
  assert (Hdb1 : is_Some (db1 !! q)).
  { unfold db1. destruct (db !! q) eqn:E; [by rewrite E|]. by rewrite lookup_insert_eq. }
  destruct Hdb1 as [t Ht]. unfold insertBatch, find_table. rewrite Hq. cbn [mbind result_mbind result_bind imap k]. rewrite Ht.
  cbn [mbind result_mbind result_bind]. rewrite bool_decide_false; [done|].
  change (~ NoDup (map _id (imap (event_envelope c tenant name now b) k))). by rewrite envelope_ids.
Qed.

Lemma imap_elem {A B} (f : nat -> A -> B) l x : x ∈ l -> exists i, f i x ∈ imap f l.
Proof.
  intros (i & Hi)%list_elem_of_lookup. exists i. apply list_elem_of_lookup. exists i. by rewrite list_lookup_imap, Hi.
Qed.

Lemma upsert_recorded now l b t e :
  Forall placed l -> NoDup (map event_id l) -> e ∈ l ->
  recorded (upsert_rows t (imap (event_envelope c tenant name now b) l)) e.
Proof.
  intros Hl Hnd He. destruct (imap_elem (event_envelope c tenant name now b) l e He) as (i & Hi).
  pose proof (proj1 (Forall_forall _ _) Hl e He) as Hp. destruct (Hp) as [p Hlsn].
  assert (Hu : upsert_rows t (imap (event_envelope c tenant name now b) l) !! event_id e = Some (upsert_row (event_envelope c tenant name now b i e) (t !! event_id e))).
  { rewrite <- (envelope_id now b i e Hp). apply upsert_rows_in; [by rewrite envelope_ids|done]. }
  eexists. split; [exact Hu|]. destruct (t !! event_id e); cbn; unfold positionKey; rewrite Hlsn; done.
Qed.

Lemma upsert_keeps now l b t e :
  Forall placed l -> event_id e ∉ map event_id l -> recorded t e ->
  recorded (upsert_rows t (imap (event_envelope c tenant name now b) l)) e.
Proof. intros Hl He (r & Hr & Hrest). exists r. split; [|done]. rewrite upsert_rows_out; [done|]. by rewrite envelope_ids. Qed.

Lemma recorded_ext t t' e : (forall id, t' !! id = t !! id) -> recorded t e -> recorded t' e.
Proof. intros Ht (r & Hr & Hrest). exists r. by rewrite Ht. Qed.

(** ** The invariant *)

Definition pending (f : flight) : list CdcEvent := match moving f with None => toFlush f | Some _ => [] end.

Definition in_flight (s : session) : list CdcEvent := flat_map pending (flights s).

(** Where a position can come from. *)
Definition known_position (start : option string) (s : session) (p : option string) : Prop :=
  p = start \/ p = Some "0/0" \/ exists e, e ∈ stored s /\ lsn e = p.

Record accounted (start : option string) (cursor0 : option (option string)) (received : list CdcEvent) (s : session) : Prop := {
  acc_events : received ≡ₚ stored s ++ in_flight s ++ eventBuffer s ++ dropped s;
  acc_rows : shows (table_of (tables s)) (stored s);
  acc_position : known_position start s (currentPosition (now_at s));
  acc_moving : forall f p, f ∈ flights s -> moving f = Some (Some p) -> known_position start s (Some p);
  acc_cursor : forall r, states s !! c = Some r ->
    Some (last_cursor r) = cursor0 \/ known_position start s (last_cursor r)
}.

Definition received_by (h : happening) : list CdcEvent := match h with Receive e => [e] | _ => [] end.
Definition refused (h : happening) : bool :=
  match h with StoreRows _ false _ | MovePosition _ false _ _ => true | _ => false end.

Lemma in_flight_delete i f s :
  flights s !! i = Some f -> flat_map pending (flights s) ≡ₚ pending f ++ flat_map pending (base.delete i (flights s)).
Proof.
  intros Hf. rewrite <- (take_drop_middle _ _ _ Hf) at 1. rewrite delete_take_drop, !flat_map_app. cbn [flat_map].
  rewrite !(Permutation_app_comm (flat_map pending (take i (flights s)))). rewrite <- app_assoc. done.
Qed.

Lemma in_flight_insert i f g s :
  flights s !! i = Some f -> flat_map pending (<[i := g]> (flights s)) ≡ₚ pending g ++ flat_map pending (base.delete i (flights s)).
Proof.
  intros Hf. rewrite insert_take_drop by (by eapply lookup_lt_Some). rewrite delete_take_drop, !flat_map_app. cbn [flat_map].
  rewrite !(Permutation_app_comm (flat_map pending (take i (flights s)))). rewrite <- app_assoc. done.
Qed.

Lemma start_flush_accounted start c0 rcv w s :
  accounted start c0 rcv s -> accounted start c0 rcv (start_flush w s) /\ dropped (start_flush w s) = dropped s.
Proof.
  intros [H1 H2 H3 H4 H5]. unfold start_flush. destruct (eventBuffer s) as [|e l] eqn:Eb; [split; [by split; rewrite ?Eb|done]|].
  split; [|done]. split; cbn [stored eventBuffer dropped flights tables states now_at]; [|done|done| |done].
  - rewrite H1. unfold in_flight. cbn [flights]. rewrite flat_map_app. cbn [flat_map pending moving toFlush app]. by rewrite app_nil_r, <- !app_assoc.
  - intros f p Hf. apply elem_of_app in Hf as [Hf|Hf]; [by apply H4|]. apply list_elem_of_singleton in Hf as ->. done.
Qed.

Lemma set_timer_accounted start c0 rcv b s : accounted start c0 rcv s -> accounted start c0 rcv (set_timer b s).
Proof. intros [H1 H2 H3 H4 H5]. by split. Qed.

Lemma finish_accounted start c0 rcv r s : accounted start c0 rcv s -> accounted start c0 rcv (finish r s).
Proof. intros [H1 H2 H3 H4 H5]. by split. Qed.

Lemma receive_accounted start c0 rcv n e s :
  accounted start c0 rcv s -> accounted start c0 (rcv ++ [e]) (receive n e s) /\ dropped (receive n e s) = dropped s.
Proof.
  intros [H1 H2 H3 H4 H5].
  assert (Hp : accounted start c0 (rcv ++ [e]) (push_event e s)).
  { split; try done. cbn [stored eventBuffer dropped push_event]. rewrite H1. unfold in_flight. cbn [flights push_event].
    rewrite <- !app_assoc. do 3 f_equiv. apply Permutation_app_comm. }
  unfold receive. destruct (n <=? _)%nat; [|done].
  by destruct (start_flush_accounted _ _ _ true _ (set_timer_accounted _ _ _ false _ Hp)) as [? ?].
Qed.

Lemma fail_accounted start c0 rcv i f m s :
  flights s !! i = Some f -> accounted start c0 rcv s ->
  accounted start c0 rcv (fail_flight i f m s)
  /\ (is_Some (moving f) -> dropped (fail_flight i f m s) = dropped s).
Proof.
  intros Hf [H1 H2 H3 H4 H5]. split; [|intros [p Hp]; unfold fail_flight; by rewrite Hp].
  split; cbn [stored eventBuffer dropped flights tables states now_at fail_flight]; [|done|done| |done].
  - rewrite H1. unfold in_flight. cbn [flights]. rewrite (in_flight_delete _ _ _ Hf). unfold pending at 1.
    destruct (moving f); cbn [app]; [done|]. solve_Permutation.
  - intros g p Hg. apply H4. by eapply elem_of_deleted.
Qed.

Lemma known_more start s s' p :
  (forall e, e ∈ stored s -> e ∈ stored s') -> known_position start s p -> known_position start s' p.
Proof. intros Hs [Hp|[Hp|(e & He & Hp)]]; [by left|right; by left|right; right; eauto]. Qed.

Lemma flush_nodup now l b db db' : Forall placed l -> flushBatch c tenant name now l b db = Ok db' -> NoDup (map event_id l).
Proof using Hq.
  intros Hpl Hok. destruct (decide (NoDup (map event_id l))) as [|Hnd]; [done|]. by rewrite (flush_refused now l b db Hpl Hnd) in Hok.
Qed.

(** What a flight stores is in the table, and what was there stays. *)
Lemma flush_recorded now l b db db' don :
  Forall placed l -> shows (table_of db) don ->
  flushBatch c tenant name now l b db = Ok db' -> shows (table_of db') (don ++ l).
Proof using Hq.
  intros Hpl Hdon Hdb. pose proof (flush_nodup _ _ _ _ _ Hpl Hdb) as Hnd.
  destruct (flush_ok now l b db Hpl Hnd) as (db1 & Hdb1 & Htab). rewrite Hdb in Hdb1. injection Hdb1 as <-.
  intros i e. rewrite latest_app. destruct (latest i l) as [e'|] eqn:El; intros He; (eapply recorded_ext; [exact Htab|]).
  - injection He as ->. apply latest_some in El as [Hin _]. by apply upsert_recorded.
  - pose proof (latest_some _ _ _ He) as [_ Hi]. apply upsert_keeps; [done| |by eapply Hdon]. rewrite Hi. by apply latest_none.
Qed.

(** A position to write comes from the flight or was known. *)
Definition next_position (start : option string) (s : session) (f : flight) (p : option string) : Prop :=
  known_position start s p \/ exists e, e ∈ toFlush f /\ lsn e = p.

Lemma next_known start i f db p st s x : next_position start s f x -> known_position start (rows_stored i f db p st s) x.
Proof.
  intros [Hx|(e & He & Hx)]; [eapply known_more; [|exact Hx]; cbn; set_solver|]. right; right. exists e. cbn. set_solver.
Qed.

Lemma rows_stored_accounted start c0 rcv i f db p st s :
  flights s !! i = Some f -> moving f = None -> accounted start c0 rcv s ->
  shows (table_of db) (stored s ++ toFlush f) ->
  (forall x, p = Some x -> next_position start s f (Some x)) -> next_position start s f (currentPosition st) ->
  accounted start c0 rcv (rows_stored i f db p st s).
Proof.
  intros Hf Hm [H1 H2 H3 H4 H5] Hrows Hp Hst.
  split; cbn [stored eventBuffer dropped flights tables states now_at rows_stored].
  - rewrite H1. unfold in_flight. cbn [flights rows_stored]. rewrite (in_flight_insert _ _ _ _ Hf), (in_flight_delete _ _ _ Hf).
    unfold pending at 1 3. rewrite Hm. cbn [moving app]. solve_Permutation.
  - done.
  - by apply next_known.
  - intros g x Hg Hx. apply next_known. apply elem_of_inserted in Hg as [->|Hg]; [apply Hp; by injection Hx as ->|left; by apply (H4 g)].
  - intros r Hr. destruct (H5 r Hr) as [?|Hr']; [by left|right]. apply next_known. by left.
Qed.

(** The rows of a flight are stored. *)
Lemma store_accounted start c0 rcv i f now s db :
  flights s !! i = Some f -> moving f = None -> Forall placed rcv ->
  accounted start c0 rcv s -> flushBatch c tenant name now (toFlush f) (flight_batch f) (tables s) = Ok db ->
  accounted start c0 rcv (store_rows i f now db s) /\ dropped (store_rows i f now db s) = dropped s.
Proof using Hq.
  intros Hf Hm Hpl Hacc Hdb. pose proof Hacc as [H1 H2 H3 H4 H5].
  assert (Hev : rcv ≡ₚ toFlush f ++ stored s ++ flat_map pending (base.delete i (flights s)) ++ eventBuffer s ++ dropped s).
  { rewrite H1. unfold in_flight. rewrite (in_flight_delete _ _ _ Hf). unfold pending at 1. rewrite Hm. solve_Permutation. }
  assert (Hrows : shows (table_of db) (stored s ++ toFlush f)).
  { eapply flush_recorded; [|exact H2|exact Hdb]. rewrite Hev in Hpl. by apply Forall_app in Hpl as [? _]. }
  unfold store_rows. destruct (last (toFlush f) ≫= lsn) as [l|] eqn:El.
  2:{ split; [|done]. apply rows_stored_accounted; try done; by left. }
  apply bind_Some in El as (e & He & Hl). apply last_Some_elem_of in He.
  destruct (maxLsn _ l) as [adv|] eqn:Em.
  - split; [|done]. assert (Hadv : next_position start s f (Some adv)).
    { unfold maxLsn in Em. destruct (parseLsn (default _ _)); [|done]. destruct (parseLsn l); [|done]. cbn in Em. injection Em as <-.
      case_match; [left|right; by exists e]. unfold default. destruct (currentPosition (now_at s)) eqn:Ec; [done|right; by left]. }
    apply rows_stored_accounted; try done. by intros x [= <-].
  - assert (Hacc' : accounted start c0 rcv (rows_stored i f db None (now_at s) s)) by (apply rows_stored_accounted; try done; by left).
    destruct (fail_accounted start c0 rcv i {| toFlush := toFlush f; flight_batch := flight_batch f; awaited := awaited f; moving := Some None |}
      "Invalid LSN" (rows_stored i f db None (now_at s) s)) as [Ha Hd]; [|done|].
    { cbn [flights rows_stored]. apply list_lookup_insert_eq. by eapply lookup_lt_Some. }
    split; [exact Ha|]. by apply Hd.
Qed.

Lemma move_accounted start c0 rcv i f p now fresh s :
  flights s !! i = Some f -> moving f = Some p -> accounted start c0 rcv s ->
  accounted start c0 rcv (move_position c i f p now fresh s).
Proof.
  intros Hf Hm [H1 H2 H3 H4 H5]. split; cbn [stored eventBuffer dropped flights tables states now_at move_position currentPosition]; [|done|done| |].
  - rewrite H1. unfold in_flight. cbn [flights move_position]. rewrite (in_flight_delete _ _ _ Hf). unfold pending at 1. by rewrite Hm.
  - intros g x Hg. apply H4. by eapply elem_of_deleted.
  - intros r. destruct p as [p|]; [|by apply H5]. unfold updateCursor. rewrite lookup_alter_eq.
    destruct (states s !! c) as [r0|] eqn:E; [|done]. cbn. intros [= <-]. right. cbn. apply (H4 f); [by eapply list_elem_of_lookup_2|done].
Qed.

Lemma happen_accounted start c0 rcv n h s s' :
  happen c tenant name n h s = Some s' -> accounted start c0 rcv s ->
  Forall placed (rcv ++ received_by h) ->
  accounted start c0 (rcv ++ received_by h) s'
  /\ (refused h = false -> NoDup (map event_id (rcv ++ received_by h)) -> dropped s' = dropped s).
Proof using Hq.
  intros Hh Hacc. unfold happen in Hh. destruct h as [e| |i reached now|i reached now fresh| |m]; cbn [received_by refused].
  - intros _. case_match; [done|]. injection Hh as <-. destruct (receive_accounted start c0 rcv n e s Hacc). by split.
  - intros _. rewrite app_nil_r. case_match; [|done]. injection Hh as <-.
    destruct (start_flush_accounted start c0 rcv false _ (set_timer_accounted _ _ _ false _ Hacc)). by split.
  - rewrite app_nil_r. intros Hpl. apply bind_Some in Hh as (f & Hf & Hh). destruct (moving f) as [p|] eqn:Em; [done|].
    assert (Hfl : forall m, accounted start c0 rcv (fail_flight i f m s)) by (intros m; by apply fail_accounted).
    destruct reached; [|injection Hh as <-; by split].
    destruct (flushBatch _ _ _ _ _ _ _) as [db|] eqn:Ef; injection Hh as <-.
    + by destruct (store_accounted start c0 rcv i f now s db).
    + split; [done|]. intros _ Hnd. exfalso. pose proof Hacc as [H1 _ _ _ _]. unfold in_flight in H1.
      rewrite (in_flight_delete _ _ _ Hf) in H1. unfold pending at 1 in H1. rewrite Em in H1.
      rewrite H1 in Hpl, Hnd. rewrite !Forall_app in Hpl. rewrite !map_app in Hnd.
      apply NoDup_app in Hnd as (_ & _ & Hnd). apply NoDup_app in Hnd as (Hnd & _). apply NoDup_app in Hnd as (Hnd & _).
      destruct (flush_ok now (toFlush f) (flight_batch f) (tables s)) as (db & Hdb & _); [tauto|done|congruence].
  - rewrite app_nil_r. intros _. apply bind_Some in Hh as (f & Hf & Hh). destruct (moving f) as [p|] eqn:Em; [|done].
    destruct reached; injection Hh as <-.
    + split; [by apply (move_accounted start c0 rcv)|done].
    + destruct (fail_accounted start c0 rcv i f "connection lost" s Hf Hacc) as [Ha Hd]. split; [done|]. intros _ _. apply Hd. by rewrite Em.
  - intros _. rewrite app_nil_r. case_match; [done|]. injection Hh as <-.
    destruct (start_flush_accounted start c0 rcv true _ (set_timer_accounted _ _ _ false _ Hacc)). split; [by apply finish_accounted|done].
  - intros _. rewrite app_nil_r. case_match; [done|]. injection Hh as <-. split; [by apply finish_accounted|done].
Qed.

Lemma session_accounted start c0 n l : forall rcv s s',
  session_run c tenant name n l s = Some s' -> accounted start c0 rcv s ->
  Forall placed (rcv ++ flat_map received_by l) ->
  accounted start c0 (rcv ++ flat_map received_by l) s'
  /\ (Forall (fun h => refused h = false) l -> NoDup (map event_id (rcv ++ flat_map received_by l)) -> dropped s' = dropped s).
Proof using Hq.
  induction l as [|h l IH]; intros rcv s s' Hrun Hacc Hpl; cbn [session_run flat_map] in *.
  - injection Hrun as <-. rewrite app_nil_r. by split.
  - apply bind_Some in Hrun as (s1 & Hh & Hrun). rewrite app_assoc in Hpl |- *.
    destruct (happen_accounted start c0 rcv n h s s1 Hh Hacc) as [Hacc1 Hd1].
    { by apply Forall_app in Hpl as [? _]. }
    destruct (IH _ s1 s' Hrun Hacc1 Hpl) as [Hacc' Hd']. split; [done|].
    intros [Hr Hl]%Forall_cons Hnd. rewrite Hd', Hd1; [done|done| |done|done]. rewrite map_app in Hnd. by apply NoDup_app in Hnd as (? & _).
Qed.

(** Every event of the stream has the position of its transaction. *)
Lemma event_placed t at_ time x : placed (event_of t at_ time x).
Proof. by eexists. Qed.

(** C17: whatever the interleaving of events that have a position (as those of the
    stream have, [event_placed]), timer, database and failures in a session, no event
    is lost silently.  Each event received is stored, under way, in the buffer, or
    dropped by a write that failed.  Events can share an identifier: for each
    identifier of a stored event there is a live row, with the data and the position of
    the last event stored under it.  When the identifiers are distinct and the database
    is reached, nothing is dropped, so once nothing is under way every event received
    has its own row.  And the persisted cursor, unless it is the one that was there, is
    a position of the start or of a stored event. *)
Theorem events_accounted n start at_ first db st l s' :
  session_run c tenant name n l (opened start at_ first db st) = Some s' ->
  let received := flat_map received_by l in
  Forall placed received ->
  received ≡ₚ stored s' ++ in_flight s' ++ eventBuffer s' ++ dropped s'
  /\ (forall x, x ∈ stored s' -> exists e, latest (event_id x) (stored s') = Some e /\ recorded (table_of (tables s')) e)
  /\ (Forall (fun h => refused h = false) l -> NoDup (map event_id received) ->
        dropped s' = [] /\ (flights s' = [] -> eventBuffer s' = [] -> Forall (recorded (table_of (tables s'))) received))
  /\ (forall r, states s' !! c = Some r ->
        Some (last_cursor r) = (last_cursor <$> st !! c) \/ known_position start s' (last_cursor r)).
Proof using Hq.
  intros Hrun received Hpl. set (c0 := last_cursor <$> st !! c).
  assert (Hacc : accounted start c0 [] (opened start at_ first db st)).
  { split; cbn; [done|by intros i e|by left|by intros f p ?%not_elem_of_nil|]. intros r Hr. left. unfold c0. by rewrite Hr. }
  destruct (session_accounted start c0 n l [] _ _ Hrun Hacc Hpl) as [[H1 H2 H3 H4 H5] Hd]. cbn [app] in H1. split_and!; [done| | |done].
  - intros x Hx. destruct (latest (event_id x) (stored s')) as [e|] eqn:E; [exists e; split; [done|by eapply H2]|].
    apply latest_none in E. destruct E. by apply list_elem_of_fmap_2.
  - intros Hl Hnd. pose proof (Hd Hl Hnd) as Hdrop. split; [done|]. intros Hf Hb. unfold received in Hnd |- *.
    assert (E : flat_map received_by l ≡ₚ stored s') by (rewrite H1; unfold in_flight; rewrite Hf, Hb, Hdrop; cbn; by rewrite app_nil_r).
    rewrite E in Hnd |- *. apply Forall_forall. intros e He. by eapply H2, latest_distinct.
Qed.

(** ** Events of one transaction *)

(** The events of a transaction carry the position at which it begins, so two changes
    of one kind to one table have one identifier. *)
Lemma one_identifier t at_ time x y :
  change_type x = change_type y -> event_id (event_of t at_ time x) = event_id (event_of t at_ time y).
Proof. unfold event_id, event_source. cbn. by intros ->. Qed.

(** A batch is stored exactly when its identifiers are distinct. *)
Lemma flush_outcome now l b db :
  Forall placed l -> is_ok (flushBatch c tenant name now l b db) = bool_decide (NoDup (map event_id l)).
Proof using Hq.
  intros Hpl. case_bool_decide as Hnd; [|by rewrite flush_refused].
  destruct (flush_ok now l b db Hpl Hnd) as (db' & -> & _). done.
Qed.

(** Two changes of one kind to one table in one transaction cannot be stored
    by one write: wherever they stand in the batch, the statement fails, and with it
    every event of the batch. *)
Theorem transaction_collides now t at_ time x y l1 l2 l3 b db :
  change_type x = change_type y -> Forall placed (l1 ++ l2 ++ l3) ->
  flushBatch c tenant name now (l1 ++ event_of t at_ time x :: l2 ++ event_of t at_ time y :: l3) b db = Err RowTwice.
Proof using Hq.
  intros Hxy Hpl. rewrite !Forall_app in Hpl. destruct Hpl as (Hp1 & Hp2 & Hp3). apply flush_refused.
  - rewrite !Forall_app, !Forall_cons, Forall_app, Forall_cons. split_and!; try done; by eexists.
  - rewrite map_app. cbn [map]. rewrite map_app. cbn [map]. rewrite (one_identifier t at_ time x y Hxy).
    intros (_ & _ & Hnd)%NoDup_app. apply NoDup_cons in Hnd as [Hnd _]. apply Hnd. set_solver.
Qed.

End Account.

(** ** Examples *)

#[local] Instance plain_ids : Uuid := fun name namespace => namespace +:+ "/" +:+ name.

Definition inserted_at (at_ : Z) (id : string) : CdcEvent := event_of orders at_ 1000000 (Inserted [d_text id; d_null]).

Definition quiet_state : sync_states := create 0 CONNECTOR incremental ∅.

(** A write by the timer is under way while the next batch fills, and finishes last. *)
Definition two_flights : list happening :=
  [Receive (inserted_at 256 "1"); TimerFires; Receive (inserted_at 300 "2"); Receive (inserted_at 320 "3");
   StoreRows 1 true 5; StoreRows 0 true 6; MovePosition 1 true 7 "b2"; MovePosition 0 true 8 "b3"].

(** Two inserts of one transaction, in two writes: the second takes the row of the first. *)
Definition one_transaction : list happening :=
  [Receive (inserted_at 256 "1"); TimerFires; Receive (inserted_at 256 "2"); TimerFires;
   StoreRows 0 true 5; MovePosition 0 true 6 "b2"; StoreRows 0 true 7; MovePosition 0 true 8 "b3"].

Lemma events_accounted_witness :
  (exists s', session_run CONNECTOR "t" "shop" 2 two_flights (opened None 0 "b1" ∅ quiet_state) = Some s'
    /\ Forall (recorded CONNECTOR (table_of raw_name (tables s'))) [inserted_at 256 "1"; inserted_at 300 "2"; inserted_at 320 "3"])
  /\ (exists s', session_run CONNECTOR "t" "shop" 2 one_transaction (opened None 0 "b1" ∅ quiet_state) = Some s'
    /\ stored s' = [inserted_at 256 "1"; inserted_at 256 "2"]
    /\ recorded CONNECTOR (table_of raw_name (tables s')) (inserted_at 256 "2")).
Proof.
  split.
  - destruct (session_run CONNECTOR "t" "shop" 2 two_flights (opened None 0 "b1" ∅ quiet_state)) as [s'|] eqn:E; [|vm_compute in E; discriminate].
    exists s'. split; [done|].
    destruct (events_accounted CONNECTOR "t" "shop" raw_name ltac:(vm_compute; reflexivity) 2 None 0 "b1" ∅ quiet_state two_flights s' E) as (_ & _ & H & _).
    + repeat (constructor; [by eexists|]). constructor.
    + destruct H as [_ H]; [repeat constructor|decide_now|]. apply H; vm_compute in E; injection E as <-; reflexivity.
  - destruct (session_run CONNECTOR "t" "shop" 2 one_transaction (opened None 0 "b1" ∅ quiet_state)) as [s'|] eqn:E; [|vm_compute in E; discriminate].
    exists s'. split; [done|].
    destruct (events_accounted CONNECTOR "t" "shop" raw_name ltac:(vm_compute; reflexivity) 2 None 0 "b1" ∅ quiet_state one_transaction s' E) as (_ & H & _).
    + repeat (constructor; [by eexists|]). constructor.
    + assert (Hs : stored s' = [inserted_at 256 "1"; inserted_at 256 "2"]) by (vm_compute in E; injection E as <-; reflexivity).
      split; [done|]. destruct (H (inserted_at 256 "1")) as (e & He & Hr); [rewrite Hs; by left|]. rewrite Hs in He.
      vm_compute in He. injection He as <-. exact Hr.
Defined.

Lemma transaction_collides_witness :
  flushBatch CONNECTOR "t" "shop" 0 [inserted_at 256 "1"; inserted_at 256 "2"] "b1" ∅ = Err RowTwice.
Proof.
  apply (transaction_collides CONNECTOR "t" "shop" raw_name ltac:(vm_compute; reflexivity) 0 orders 256 1000000
    (Inserted [d_text "1"; d_null]) (Inserted [d_text "2"; d_null]) [] [] []); [done|constructor].
Defined.

(** The write of the timer fails and its event is dropped; the next write moves the
    cursor past it. *)
Example dropped_behind_cursor :
  (fun s => (map lsn (dropped s), map lsn (stored s), last_cursor <$> states s !! CONNECTOR, cdc_status (now_at s)))
    <$> session_run CONNECTOR "t" "shop" 2
          [Receive (inserted_at 256 "1"); TimerFires; StoreRows 0 false 5; Receive (inserted_at 300 "2"); Receive (inserted_at 320 "3");
           StoreRows 0 true 6; MovePosition 0 true 7 "b2"]
          (opened None 0 "b1" ∅ quiet_state)
  = Some ([Some "00000000/00000100"], [Some "00000000/0000012C"; Some "00000000/00000140"],
          Some (Some "00000000/00000140"), st_running).
Proof. vm_compute. reflexivity. Qed.

(** The connector confirms the transaction while both of its events are in the buffer. *)
Example confirmed_in_buffer :
  flushed (stream [] (started None) orders_entries).1 = [0; 520; 520]%Z
  /\ (fun s => (length (stored s), length (eventBuffer s))) <$>
       session_run CONNECTOR "t" "shop" 500
         (omap (fun o => match o with Yield e => Some (Receive e) | Feedback _ => None end) (stream [] (started None) orders_entries).1)
         (opened None 0 "b1" ∅ quiet_state) = Some (0, 2)%nat.
Proof. split; vm_compute; reflexivity. Qed.
