(* ===== verification/CdcService.v ===== *)
(** * Starting, retrying and stopping change streams

    The rest of services/ingestion/src/services/cdc-ingestion-service.ts: the
    status in Redis, the loop of attempts around the sessions of CdcIngestion, and
    the table of active streams.  The configuration and the connections of
    postgres-cdc-connector.ts come first. *)

From S2P Require Import Prelude JsString JsNumber JsValue SqlTable RawTable CdcIngestion.
From Stdlib Require Import Ascii.
From stdpp Require Import gmap strings.

(** ** The configuration of the PostgreSQL change connector

    services/ingestion/src/connectors/postgres-cdc/postgres-cdc-connector.ts: the
    validation of the configuration, the connections the connector keeps, and the
    command that starts replication. *)

Record PostgresCdcConfig : Type := {
  host : string;
  port : Z;
  database : string;
  user : string;
  password : string;
  slotName : string;
  publicationName : string;
  connectTimeoutMs : number
}.

Inductive config_error : Type :=
| MissingField (safeKey : string)
| ControlCharacters
| PasswordTooLong
| BadSlotName
| BadPublicationName
| BadPort.

Definition required : list string := ["host"; "database"; "user"; "password"; "slotName"; "publicationName"].

Definition present (config : obj) (key : string) : bool :=
  match get key config with VStr s => negb (String.eqb s EmptyString) | _ => false end.

(** The key as messages may show it. *)
Definition safe_key (key : string) : string := if String.eqb key "password" then "<credential>" else key.

Definition text_field (key : string) (config : obj) : string :=
  match get key config with VStr s => s | _ => EmptyString end.

Definition control_char (c : ascii) : bool := (code c <=? 31)%N.

Definition identifier_start (c : ascii) : bool := is_alpha c || Ascii.eqb c "_".
Definition identifier_char (c : ascii) : bool := is_alpha c || is_digit c || Ascii.eqb c "_" || Ascii.eqb c "$".

Definition SAFE_IDENTIFIER (s : string) : bool :=
  match explode s with
  | [] => false
  | c :: l => identifier_start c && forallb identifier_char l && (length l <=? 62)%nat
  end.

(** The port, [None] when it is no integer. *)
Definition read_port (config : obj) : option Z :=
  match get "port" config with
  | VNum n => if is_integer n then num_to_Z n else None
  | VStr s => parseInt10 s
  | _ => Some 5432%Z
  end.

Definition parseConfig (config : obj) : result config_error PostgresCdcConfig :=
  match List.find (fun key => negb (present config key)) required with
  | Some key => Err (MissingField (safe_key key))
  | None =>
      let password := text_field "password" config in
      if existsb control_char (explode password) then Err ControlCharacters
      else if (1024 <? String.length password)%nat then Err PasswordTooLong
      else
        let slotName := text_field "slotName" config in
        let publicationName := text_field "publicationName" config in
        if negb (SAFE_IDENTIFIER slotName) then Err BadSlotName
        else if negb (SAFE_IDENTIFIER publicationName) then Err BadPublicationName
        else
          match read_port config with
          | Some port =>
              if (port <? 1)%Z || (65535 <? port)%Z then Err BadPort
              else Ok {| host := text_field "host" config; port := port; database := text_field "database" config;
                         user := text_field "user" config; password := password; slotName := slotName;
                         publicationName := publicationName;
                         connectTimeoutMs := match get "connectTimeoutMs" config with VNum n => n | _ => num_of_Z 10000 end |}
          | None => Err BadPort
          end
  end.

(** The command of [startCdcStream]. *)
Definition start_replication (config : PostgresCdcConfig) (startPosition : option string) : string :=
  "START_REPLICATION SLOT " +:+ str quote +:+ slotName config +:+ str quote +:+ " LOGICAL " +:+ default "0/0" startPosition
  +:+ " (proto_version '1', publication_names '" +:+ publicationName config +:+ "')".

(** ** The connector's state *)

(** [opened] counts the control connections that nobody has closed. *)
Record connector : Type := {
  controlClient : bool;
  activeConfig : option PostgresCdcConfig;
  stopController : bool;
  opened : nat
}.

Definition unconnected : connector := {| controlClient := false; activeConfig := None; stopController := false; opened := 0 |}.

Inductive connect_outcome : Type := RefusedByServer | SlotFailed | Accepted.

(** The configuration stays when the connection fails. *)
Definition connect (config : obj) (outcome : connect_outcome) (k : connector) : connector * result (option config_error) unit :=
  match parseConfig config with
  | Err e => (k, Err (Some e))
  | Ok parsed =>
      match outcome with
      | RefusedByServer =>
          ({| controlClient := controlClient k; activeConfig := Some parsed; stopController := stopController k; opened := opened k |}, Err None)
      | SlotFailed =>
          ({| controlClient := true; activeConfig := Some parsed; stopController := stopController k; opened := S (opened k) |}, Err None)
      | Accepted =>
          ({| controlClient := true; activeConfig := Some parsed; stopController := stopController k; opened := S (opened k) |}, Ok tt)
      end
  end.

Definition disconnect (k : connector) : connector :=
  {| controlClient := false; activeConfig := None; stopController := stopController k;
     opened := if controlClient k then opened k - 1 else opened k |}.

(** [None]: called before [connect]. *)
Definition startCdcStream (startPosition : option string) (k : connector) : option (connector * string) :=
  config ← activeConfig k;
  Some ({| controlClient := controlClient k; activeConfig := Some config; stopController := true; opened := opened k |},
        start_replication config startPosition).

(** The connector afterwards, and whether a stream was told to stop. *)
Definition stopCdcStream (k : connector) : connector * bool :=
  ({| controlClient := controlClient k; activeConfig := activeConfig k; stopController := false; opened := opened k |}, stopController k).

(** ** What an accepted configuration is *)

Lemma find_none_forall {A} (f : A -> bool) l : List.find f l = None -> forallb (fun x => negb (f x)) l = true.
Proof. induction l as [|x l IH]; cbn; [done|]. destruct (f x); [done|]. apply IH. Qed.

Lemma identifier_chars s : SAFE_IDENTIFIER s = true -> Forall (fun c => identifier_char c = true) (explode s) /\ (1 <= String.length s <= 63)%nat.
Proof.
  unfold SAFE_IDENTIFIER. rewrite <- (length_explode s). destruct (explode s) as [|c l]; [done|].
  rewrite !andb_true_iff, Nat.leb_le. intros ((Hc & Hl) & Hlen). split; [|cbn; lia]. constructor.
  - unfold identifier_start, identifier_char in *. apply orb_true_iff in Hc as [-> | ->]; [done|by rewrite !orb_true_r].
  - apply Forall_forall. intros x Hx%list_elem_of_In. by apply (proj1 (forallb_forall _ _) Hl).
Qed.

(** An accepted configuration is complete and safe to write into a command:
    every required field is a text that is not empty, the password is short and has
    no control characters, the port is a port, and the slot and the publication are
    identifiers, without the quotes that would end them in the command; and no
    error message shows the password's key. *)
Theorem accepted_config config k :
  match parseConfig config with
  | Ok parsed =>
      Forall (fun key => present config key = true) required
      /\ (1 <= port parsed <= 65535)%Z
      /\ Forall (fun c => control_char c = false) (explode (password parsed)) /\ (String.length (password parsed) <= 1024)%nat
      /\ Forall (fun c => identifier_char c = true /\ c <> quote) (explode (slotName parsed))
      /\ Forall (fun c => identifier_char c = true /\ c <> "'"%char) (explode (publicationName parsed))
      /\ (String.length (slotName parsed) <= 63)%nat
  | Err (MissingField key) => key <> "password"
  | Err _ => fst (connect config Accepted k) = k
  end.
Proof.
  unfold connect. assert (Hp : parseConfig config = parseConfig config) by done. unfold parseConfig at 1 in Hp.
  destruct (List.find _ required) as [key|] eqn:Ef.
  { rewrite <- Hp. unfold safe_key. destruct (String.eqb_spec key "password"); [done|done]. }
  destruct (existsb control_char _) eqn:Ec; [by rewrite <- Hp|]. destruct (Nat.ltb_spec 1024 (String.length (text_field "password" config))) as [|Hlen]; [by rewrite <- Hp|].
  destruct (SAFE_IDENTIFIER (text_field "slotName" config)) eqn:Es; cbn [negb] in Hp; [|by rewrite <- Hp].
  destruct (SAFE_IDENTIFIER (text_field "publicationName" config)) eqn:Epub; cbn [negb] in Hp; [|by rewrite <- Hp].
  destruct (read_port config) as [p|]; [|by rewrite <- Hp].
  destruct ((p <? 1)%Z || (65535 <? p)%Z) eqn:Eport; [by rewrite <- Hp|]. apply orb_false_iff in Eport as [E1 E2]. apply Z.ltb_ge in E1, E2.
  rewrite <- Hp. cbn [port password slotName publicationName].
  apply identifier_chars in Es as [Hs Hslen]. apply identifier_chars in Epub as [Hpub _]. split_and!.
  - apply find_none_forall in Ef. apply Forall_forall. intros key Hk%list_elem_of_In.
    pose proof (proj1 (forallb_forall _ _) Ef key Hk) as H. cbn in H. by rewrite negb_involutive in H.
  - lia.
  - lia.
  - apply Forall_forall. intros c Hc. by apply (existsb_false _ _ _ Ec).
  - done.
  - eapply Forall_impl; [exact Hs|]. intros c Hc. split; [done|]. by intros ->.
  - eapply Forall_impl; [exact Hpub|]. intros c Hc. split; [done|]. by intros ->.
  - lia.
Qed.

Definition shop_config (slot : string) : obj :=
  [("host", VStr "db"); ("port", VStr "5433"); ("database", VStr "shop"); ("user", VStr "cdc"); ("password", VStr "secret");
   ("slotName", VStr slot); ("publicationName", VStr "pub")].

Example configs :
  (port <$> parseConfig (shop_config "slot_1"), is_ok (parseConfig (shop_config "s'; DROP")), parseConfig [("host", VStr "db")])
  = (Ok 5433%Z, false, Err (MissingField "database")).
Proof. vm_compute. reflexivity. Qed.

(** Connecting again without disconnecting leaves the first connection open. *)
Example connections_left :
  let k := (connect (shop_config "slot_1") Accepted (connect (shop_config "slot_1") Accepted unconnected).1).1 in
  (opened k, opened (disconnect k)) = (2%nat, 1%nat).
Proof. vm_compute. reflexivity. Qed.

(** The start position is written into the command as it is. *)
Example start_unchecked :
  (fun c => start_replication c (Some "0/0 (x) --")) <$> parseConfig (shop_config "slot_1")
  = Ok ("START_REPLICATION SLOT " +:+ str quote +:+ "slot_1" +:+ str quote +:+ " LOGICAL 0/0 (x) -- (proto_version '1', publication_names 'pub')").
Proof. vm_compute. reflexivity. Qed.

(** ** The status in Redis *)

(** A status and the seconds it stays. *)
Abbreviation status_store := (gmap string (CdcStatus * option Z)).

Definition CDC_STATUS_TERMINAL_TTL_SECONDS : Z := 86400.

Definition isTerminal (st : CdcStatus) : bool :=
  match cdc_status st with st_stopped | st_error => true | st_running | st_reconnecting => false end.

Definition writeStatus (c : string) (st : CdcStatus) (redis : status_store) : status_store :=
  <["ingestion:cdc:status:" +:+ c := (st, if isTerminal st then Some CDC_STATUS_TERMINAL_TTL_SECONDS else None)]> redis.

Definition readStatus (c : string) (redis : status_store) : option CdcStatus :=
  fst <$> redis !! ("ingestion:cdc:status:" +:+ c).

(** ** The loop of attempts *)

Definition MAX_RECONNECT_ATTEMPTS : nat := 5.
Definition RECONNECT_BASE_DELAY_MS : Z := 2000.

Definition delay_ms (attempt : nat) : Z := (RECONNECT_BASE_DELAY_MS * 2 ^ (Z.of_nat attempt - 1))%Z.

(** How a session ends: the stream ends, something throws, or the connector is gone. *)
Inductive attempt_end : Type :=
| Clean
| Threw (message : string)
| Gone (message : string).

(** One turn of the loop, as the environment decides it: whether the stream has been
    stopped when the turn begins and while it waits, whether the connector connects,
    what the session does to the status, and how it ends. *)
Record turn : Type := {
  stopped_before : bool;
  stopped_waiting : bool;
  connects : bool;
  session_status : CdcStatus -> CdcStatus;
  turn_end : attempt_end
}.

Inductive effect : Type :=
| Wrote (st : CdcStatus)
| Slept (ms : Z)
| Connected.

Definition with_status (x : stream_status) (st : CdcStatus) : CdcStatus :=
  {| cdc_status := x; currentPosition := currentPosition st; eventsProcessed := eventsProcessed st; startedAt := startedAt st;
     lastCommittedAt := lastCommittedAt st; lastError := lastError st |}.
Definition with_error (e : option string) (st : CdcStatus) : CdcStatus :=
  {| cdc_status := cdc_status st; currentPosition := currentPosition st; eventsProcessed := eventsProcessed st; startedAt := startedAt st;
     lastCommittedAt := lastCommittedAt st; lastError := e |}.

(** After the loop. *)
Definition terminate (attempt : nat) (st : CdcStatus) : list effect * CdcStatus :=
  let exhausted := (MAX_RECONNECT_ATTEMPTS <? attempt)%nat in
  let st := with_status (if exhausted then st_error else st_stopped) st in
  let st := if exhausted then with_error (Some (default "Max reconnect attempts exceeded" (lastError st))) st else st in
  ([Wrote st], st).

(** The wait before an attempt that is not the first. *)
Definition wait_before (attempt : nat) (st : CdcStatus) : list effect * CdcStatus :=
  if (0 <? attempt)%nat then
    let st := with_status st_reconnecting st in ([Wrote st; Slept (delay_ms attempt)], st)
  else ([], st).

Definition connect_effects (t : turn) (st : CdcStatus) : list effect * CdcStatus :=
  if connects t then
    let st := with_status st_running st in ([Connected; Wrote st], session_status t st)
  else ([], st).

(** [None]: the turns given do not end the loop. *)
Fixpoint runStreamLoop (attempt : nat) (turns : list turn) (st : CdcStatus) : option (list effect * CdcStatus) :=
  match turns with
  | [] => if (MAX_RECONNECT_ATTEMPTS <? attempt)%nat then Some (terminate attempt st) else None
  | t :: turns =>
      if stopped_before t || (MAX_RECONNECT_ATTEMPTS <? attempt)%nat then Some (terminate attempt st)
      else
        let '(waited, st) := wait_before attempt st in
        if (0 <? attempt)%nat && stopped_waiting t then prod_map (app waited) id <$> Some (terminate attempt st)
        else
          let '(connected, st) := connect_effects t st in
          let log := waited ++ connected in
          match turn_end t with
          | Clean => prod_map (app log) id <$> Some (terminate attempt st)
          | Gone m => prod_map (app log) id <$> Some (terminate (S attempt) (with_error (Some m) st))
          | Threw m => prod_map (app log) id <$> runStreamLoop (S attempt) turns (with_error (Some m) st)
          end
  end.

(** ** Active streams *)

(** [st_token] tells two streams of a connector apart. *)
Record ActiveStream : Type := { stream_tenant : string; stream_status_of : CdcStatus; aborted : bool; st_token : nat }.

Record StartCdcOptions : Type := {
  opt_tables : option (list string);
  opt_start : option string;
  opt_batchSize : option nat;
  opt_timeout : option Z
}.

Record CdcOptions : Type := { cdc_tables : list string; startPosition : option string; batchSize : nat; batchTimeoutMs : Z }.

(** The service, with every loop that it has started. *)
Record cdc_service : Type := {
  activeStreams : gmap string ActiveStream;
  cdc_redis : status_store;
  loops : list (nat * string * CdcOptions)
}.

Inductive start_result : Type := AlreadyRunning | ConnectorNotFound | Starting (options : CdcOptions).

Section Service.
Context (tenant_of : string -> option string) (cursors : sync_states).

(** [startCdcIngestion], before and after it waits for the connector and the cursor. *)
Definition start_lookup (c tenantId : string) (o : StartCdcOptions) (s : cdc_service) : start_result :=
  if bool_decide (is_Some (activeStreams s !! c)) then AlreadyRunning
  else if negb (bool_decide (tenant_of c = Some tenantId)) then ConnectorNotFound
  else Starting
    {| cdc_tables := default [] (opt_tables o);
       startPosition := match opt_start o with
                        | Some p => Some p
                        | None => findByConnectorId c cursors ≫= last_cursor
                        end;
       batchSize := default 500%nat (opt_batchSize o);
       batchTimeoutMs := default 1000%Z (opt_timeout o) |}.

Definition start_commit (c tenantId : string) (now : Z) (options : CdcOptions) (s : cdc_service) : cdc_service :=
  let st := {| cdc_status := st_running; currentPosition := startPosition options; eventsProcessed := 0; startedAt := Some now;
               lastCommittedAt := None; lastError := None |} in
  {| activeStreams := <[c := {| stream_tenant := tenantId; stream_status_of := st; aborted := false; st_token := length (loops s) |}]> (activeStreams s);
     cdc_redis := writeStatus c st (cdc_redis s);
     loops := loops s ++ [(length (loops s), c, options)] |}.

Definition stopCdcIngestion (c : string) (s : cdc_service) : cdc_service :=
  match activeStreams s !! c with
  | None => s
  | Some a =>
      {| activeStreams := <[c := {| stream_tenant := stream_tenant a; stream_status_of := stream_status_of a; aborted := true; st_token := st_token a |}]> (activeStreams s);
         cdc_redis := cdc_redis s; loops := loops s |}
  end.

(** The end of [runStreamLoop]: the status is written and the stream removed. *)
Definition loop_ended (c : string) (st : CdcStatus) (s : cdc_service) : cdc_service :=
  {| activeStreams := base.delete c (activeStreams s); cdc_redis := writeStatus c st (cdc_redis s); loops := loops s |}.

Definition getCdcStatus (c : string) (s : cdc_service) : option CdcStatus :=
  match activeStreams s !! c with
  | Some a => Some (stream_status_of a)
  | None => readStatus c (cdc_redis s)
  end.

End Service.

(** ** The schedule of attempts *)

Definition sleeps (l : list effect) : list Z := omap (fun e => match e with Slept ms => Some ms | _ => None end) l.
Definition connections (l : list effect) : nat := length (List.filter (fun e => match e with Connected => true | _ => false end) l).

Definition schedule : list Z := [2000; 4000; 8000; 16000; 32000]%Z.

Lemma sleeps_app l k : sleeps (l ++ k) = sleeps l ++ sleeps k.
Proof. apply omap_app. Qed.

Lemma connections_app l k : connections (l ++ k) = (connections l + connections k)%nat.
Proof. unfold connections. by rewrite List.filter_app, length_app. Qed.

Lemma sleeps_wait n st : (n <= 5)%nat -> sleeps (wait_before n st).1 ++ drop n schedule = drop (n - 1) schedule.
Proof. intros Hn. do 6 (destruct n as [|n]; [done|]). lia. Qed.

Lemma connects_once t st : (connections (connect_effects t st).1 <= 1)%nat /\ sleeps (connect_effects t st).1 = [].
Proof. unfold connect_effects. destruct (connects t); split; cbn; done || lia. Qed.

Lemma wait_connects n st : connections (wait_before n st).1 = 0%nat.
Proof. unfold wait_before. by destruct (0 <? n)%nat. Qed.

Lemma terminate_effects n st : sleeps (terminate n st).1 = [] /\ connections (terminate n st).1 = 0%nat /\ isTerminal (terminate n st).2 = true.
Proof. unfold terminate. by destruct (_ <? n)%nat. Qed.

(** What the loop does from attempt [n] on. *)
Lemma loop_bounds turns : forall n st log st',
  (n <= 6)%nat -> runStreamLoop n turns st = Some (log, st') ->
  sleeps log `prefix_of` drop (n - 1) schedule /\ (connections log <= 6 - n)%nat /\ isTerminal st' = true.
Proof.
  induction turns as [|t turns IH]; intros n st log st' Hn Hrun; cbn [runStreamLoop] in Hrun.
  - destruct (_ <? n)%nat; [|done]. destruct (terminate_effects n st) as (H1 & H2 & H3). destruct (terminate n st) as [l s]. injection Hrun as <- <-.
    cbn [fst snd] in *. rewrite H1, H2. split_and!; [apply prefix_nil|lia|done].
  - destruct (stopped_before t || (MAX_RECONNECT_ATTEMPTS <? n)%nat) eqn:Eb.
    { destruct (terminate_effects n st) as (H1 & H2 & H3). destruct (terminate n st) as [l s]. injection Hrun as <- <-.
      cbn [fst snd] in *. rewrite H1, H2. split_and!; [apply prefix_nil|lia|done]. }
    apply orb_false_iff in Eb as [_ Eb]. apply Nat.ltb_ge in Eb. unfold MAX_RECONNECT_ATTEMPTS in Eb.
    pose proof (sleeps_wait n st Eb) as Hw. pose proof (wait_connects n st) as Hc. destruct (wait_before n st) as [waited st1].
    cbn [fst snd] in Hw, Hc.
    assert (Hend : forall m st2 pre, sleeps pre = sleeps waited -> (connections pre <= 6 - n)%nat ->
      Some (log, st') = prod_map (app pre) id <$> Some (terminate m st2) ->
      sleeps log `prefix_of` drop (n - 1) schedule /\ (connections log <= 6 - n)%nat /\ isTerminal st' = true).
    { intros m st2 pre Hs Hp. destruct (terminate_effects m st2) as (H1 & H2 & H3). destruct (terminate m st2) as [l s]. cbn [fst snd] in H1, H2, H3. intros [= -> ->]. cbn [fst snd id].
      rewrite sleeps_app, connections_app, H1, H2, Hs, app_nil_r. split_and!; [|lia|done]. rewrite <- Hw. by apply prefix_app_r. }
    destruct ((0 <? n)%nat && stopped_waiting t); [eapply Hend; [| |by symmetry]; [done|lia]|].
    destruct (connects_once t st1) as [Hc1 Hs1]. destruct (connect_effects t st1) as [connected st2]. cbn [fst snd] in Hc1, Hs1.
    assert (Hpre : sleeps (waited ++ connected) = sleeps waited /\ (connections (waited ++ connected) <= 1)%nat).
    { rewrite sleeps_app, connections_app, Hs1, app_nil_r. split; [done|lia]. }
    destruct Hpre as [Hpre1 Hpre2].
    destruct (turn_end t); [eapply Hend; [| |by symmetry]; [done|lia]| |eapply Hend; [| |by symmetry]; [done|lia]].
    destruct (runStreamLoop (S n) turns _) as [[l s]|] eqn:Er; [|done]. cbn in Hrun. injection Hrun as <- <-.
    destruct (IH (S n) _ _ _ ltac:(lia) Er) as (H1 & H2 & H3). cbn [Nat.sub] in H1. rewrite Nat.sub_0_r in H1.
    rewrite sleeps_app, connections_app, Hpre1. split_and!; [|lia|done]. rewrite <- Hw. by apply prefix_app.
Qed.

(** Turns enough end the loop. *)
Lemma loop_total turns : forall n st, (6 - n <= length turns)%nat -> is_Some (runStreamLoop n turns st).
Proof.
  induction turns as [|t turns IH]; intros n st Hn; cbn [runStreamLoop].
  - destruct (Nat.ltb_spec MAX_RECONNECT_ATTEMPTS n) as [_|H]; [done|]. unfold MAX_RECONNECT_ATTEMPTS in H. cbn in Hn. lia.
  - destruct (stopped_before t || _); [done|]. destruct (wait_before n st) as [w st1]. destruct (_ && stopped_waiting t); [done|].
    destruct (connect_effects t st1) as [k st2]. destruct (turn_end t); [done| |done].
    destruct (IH (S n) (with_error (Some message) st2)) as [[l s] Hl]; [cbn in Hn; lia|]. by rewrite Hl.
Qed.

(** A turn that fails, and is not stopped. *)
Definition fails (message : string) (t : turn) : Prop :=
  stopped_before t = false /\ stopped_waiting t = false /\ turn_end t = Threw message.

Lemma loop_fails n m t turns st :
  fails m t -> (n <= 5)%nat ->
  exists log st1, runStreamLoop n (t :: turns) st = prod_map (app log) id <$> runStreamLoop (S n) turns (with_error (Some m) st1)
    /\ sleeps log = sleeps (wait_before n st).1.
Proof.
  intros (H1 & H2 & H3) Hn. cbn [runStreamLoop]. rewrite H1, H2, H3, andb_false_r.
  destruct (Nat.ltb_spec MAX_RECONNECT_ATTEMPTS n) as [H|_]; [unfold MAX_RECONNECT_ATTEMPTS in H; lia|]. cbn [orb].
  destruct (wait_before n st) as [w st1]. destruct (connects_once t st1) as [_ Hs]. destruct (connect_effects t st1) as [k st2].
  exists (w ++ k), st2. split; [done|]. cbn [fst snd] in *. by rewrite sleeps_app, Hs, app_nil_r.
Qed.

Lemma loop_spent turns st : runStreamLoop 6 turns st = Some (terminate 6 st).
Proof. destruct turns as [|t turns]; [done|]. cbn [runStreamLoop]. by rewrite orb_true_r. Qed.

(** The loop of attempts ends.  Whatever the environment does, six turns end
    it; it connects at most six times and waits 2, 4, 8, 16 and 32 seconds at most,
    in this order; the status it leaves is terminal, and it is the error, with the
    message of the last failure, when six attempts fail one after the other. *)
Theorem reconnect_bounded turns st :
  (6 <= length turns)%nat ->
  exists log st', runStreamLoop 0 turns st = Some (log, st')
    /\ sleeps log `prefix_of` schedule /\ (connections log <= 6)%nat /\ isTerminal st' = true
    /\ (forall ms, Forall2 fails ms (take 6 turns) ->
          sleeps log = schedule /\ cdc_status st' = st_error /\ lastError st' = last ms).
Proof.
  intros Hlen. destruct (loop_total turns 0 st) as [[log st'] Hrun]; [lia|]. exists log, st'. split; [done|].
  destruct (loop_bounds turns 0 st log st' ltac:(lia) Hrun) as (H1 & H2 & H3). split_and!; [done|done|done|]. intros ms Hms.
  destruct turns as [|t0 [|t1 [|t2 [|t3 [|t4 [|t5 turns]]]]]]; cbn in Hlen; try lia. cbn [take firstn] in Hms.
  repeat match goal with H : Forall2 _ _ (_ :: _) |- _ => apply Forall2_cons_inv_r in H as (? & ? & ? & H & ->) end.
  apply Forall2_nil_inv_r in Hms as ->.
  do 6 (match goal with Hrun : runStreamLoop ?n (?t :: ?k) ?s = _, Hf : fails ?m ?t |- _ =>
    let l := fresh "l" in let s1 := fresh "s" in let Hr := fresh "Hr" in let Hs := fresh "Hs" in
    destruct (loop_fails n m t k s Hf ltac:(lia)) as (l & s1 & Hr & Hs); rewrite Hr in Hrun; clear Hr;
    destruct (runStreamLoop (S n) k (with_error (Some m) s1)) as [[? ?]|] eqn:?; [|done];
    cbn in Hrun; injection Hrun as <- <- end).
  match goal with Hrun : runStreamLoop 6 turns _ = _ |- _ => rewrite loop_spent in Hrun; injection Hrun as <- <- end.
  split_and!; [|done|done].
  rewrite !sleeps_app. repeat match goal with H : sleeps _ = _ |- _ => rewrite H; clear H end. done.
Qed.

Definition failing (m : string) : turn :=
  {| stopped_before := false; stopped_waiting := false; connects := true; session_status := fun st => st; turn_end := Threw m |}.

Definition fresh_status : CdcStatus :=
  {| cdc_status := st_running; currentPosition := None; eventsProcessed := 0; startedAt := Some 0%Z; lastCommittedAt := None; lastError := None |}.

Lemma reconnect_bounded_witness :
  exists log st', runStreamLoop 0 (map failing ["a"; "b"; "c"; "d"; "e"; "f"]) fresh_status = Some (log, st')
    /\ sleeps log = schedule /\ cdc_status st' = st_error /\ lastError st' = Some "f".
Proof.
  destruct (reconnect_bounded (map failing ["a"; "b"; "c"; "d"; "e"; "f"]) fresh_status) as (log & st' & H & _ & _ & _ & Hf); [cbn; lia|].
  exists log, st'. split; [exact H|]. apply (Hf ["a"; "b"; "c"; "d"; "e"; "f"]). repeat constructor.
Defined.

(** Failures count over the whole life of the loop: sessions that ran for hours between
    them do not reset the count.  A stream that the server ends is not retried. *)
Example server_ends_stream :
  (cdc_status ∘ snd) <$> runStreamLoop 0
    [{| stopped_before := false; stopped_waiting := false; connects := true; session_status := fun st => st; turn_end := Clean |}] fresh_status
  = Some st_stopped.
Proof. reflexivity. Qed.

(** A connector that was deleted: the stream counts as stopped. *)
Example deleted_is_stopped :
  (fun r => (cdc_status r.2, lastError r.2)) <$> runStreamLoop 0
    [{| stopped_before := false; stopped_waiting := false; connects := false; session_status := fun st => st; turn_end := Gone "gone" |}] fresh_status
  = Some (st_stopped, Some "gone").
Proof. reflexivity. Qed.

(** Two starts that both look before either is registered run two loops; stopping the
    connector stops the second only. *)
Definition idle : cdc_service := {| activeStreams := ∅; cdc_redis := ∅; loops := [] |}.
Definition no_options : StartCdcOptions := {| opt_tables := None; opt_start := None; opt_batchSize := None; opt_timeout := None |}.

Example started_twice :
  let look := start_lookup (fun _ => Some "t") ∅ "c" "t" no_options in
  match look idle, look idle with
  | Starting o1, Starting o2 =>
      let s := stopCdcIngestion "c" (start_commit "c" "t" 2 o2 (start_commit "c" "t" 1 o1 idle)) in
      length (loops s) = 2%nat /\ (fun a => (st_token a, aborted a)) <$> activeStreams s !! "c" = Some (1%nat, true)
  | _, _ => False
  end.
Proof. vm_compute. split; reflexivity. Qed.
