(* ===== verification/SyncService.v ===== *)
(** * Synchronisation

    services/ingestion/src/services/sync-service.ts: a sync job reads its source
    page by page and sends each page as a batch job; batch jobs write the raw
    table.  The jobs run beside one another: an operation here is what one of them
    does between two points where another may act.  The package BullMQ is the two
    lists of jobs; its retries are further calls of the same operations.  The last part
    has what triggering, cancelling and undoing do. *)

From S2P Require Import Prelude JsString JsNumber JsValue RawTable SqlTable PgOutput.
From Stdlib Require Import Ascii.
From stdpp Require Import gmap strings pretty.

(** ** Data *)

Record ConnectorRow : Type := {
  co_tenant : string;
  co_name : string;
  co_mode : sync_mode;
  is_enabled : bool
}.

Inductive progress_status : Type := p_queued | p_running | p_success | p_failed | p_cancelled.

#[export] Instance progress_status_eq_dec : EqDecision progress_status.
Proof. solve_decision. Defined.

Record BatchError : Type := { e_batch : string; e_message : string; e_code : string; e_records : nat }.

Record SyncProgress : Type := {
  pg_connector : string;
  pg_tenant : string;
  pg_status : progress_status;
  pg_mode : sync_mode;
  totalBatches : nat;
  completedBatches : nat;
  failedBatches : nat;
  totalRecords : nat;
  processedRecords : nat;
  startedAt : option Z;
  completedAt : option Z;
  lastBatchAt : option Z;
  errors : list BatchError
}.

Inductive job_state : Type := Waiting | Active | Delayed | Completed | JobFailed.

#[export] Instance job_state_eq_dec : EqDecision job_state.
Proof. solve_decision. Defined.

Record SyncJob : Type := {
  bull_id : nat;               (* BullMQ's own identifier *)
  sj_state : job_state;
  sj_connector : string;
  sj_tenant : string;
  sj_mode : sync_mode;
  syncJobId : string
}.

(** The records of a batch, in the job or in a file. *)
Inductive batch_records : Type := Inline (records : list DataRecord) | InFile (path : string).

Record BatchJob : Type := {
  bj_sync : string;
  bj_connector : string;
  bj_tenant : string;
  bj_batch : string;
  batchSeqNum : nat;
  bj_mode : sync_mode;
  bj_cursor : option string;
  recordCount : nat;
  bj_records : batch_records
}.

Record world : Type := {
  connectors : gmap string ConnectorRow;
  states : sync_states;
  raw : raw_db;
  progress_of : gmap string (SyncProgress * option Z);   (* with the seconds the key stays *)
  syncQueue : list SyncJob;
  batchQueue : list BatchJob;
  files : gmap string (list DataRecord);
  ontologyQueue : list (string * string * nat);
  next_id : nat
}.

Definition with_states (f : sync_states -> sync_states) (w : world) : world :=
  {| connectors := connectors w; states := f (states w); raw := raw w; progress_of := progress_of w; syncQueue := syncQueue w;
     batchQueue := batchQueue w; files := files w; ontologyQueue := ontologyQueue w; next_id := next_id w |}.
Definition with_raw (db : raw_db) (w : world) : world :=
  {| connectors := connectors w; states := states w; raw := db; progress_of := progress_of w; syncQueue := syncQueue w;
     batchQueue := batchQueue w; files := files w; ontologyQueue := ontologyQueue w; next_id := next_id w |}.
Definition with_progress (f : gmap string (SyncProgress * option Z) -> gmap string (SyncProgress * option Z)) (w : world) : world :=
  {| connectors := connectors w; states := states w; raw := raw w; progress_of := f (progress_of w); syncQueue := syncQueue w;
     batchQueue := batchQueue w; files := files w; ontologyQueue := ontologyQueue w; next_id := next_id w |}.
Definition with_sync_queue (f : list SyncJob -> list SyncJob) (w : world) : world :=
  {| connectors := connectors w; states := states w; raw := raw w; progress_of := progress_of w; syncQueue := f (syncQueue w);
     batchQueue := batchQueue w; files := files w; ontologyQueue := ontologyQueue w; next_id := next_id w |}.
Definition add_sync_job (j : SyncJob) (w : world) : world :=
  {| connectors := connectors w; states := states w; raw := raw w; progress_of := progress_of w; syncQueue := syncQueue w ++ [j];
     batchQueue := batchQueue w; files := files w; ontologyQueue := ontologyQueue w; next_id := S (next_id w) |}.
Definition with_batches (f : list BatchJob -> list BatchJob) (w : world) : world :=
  {| connectors := connectors w; states := states w; raw := raw w; progress_of := progress_of w; syncQueue := syncQueue w;
     batchQueue := f (batchQueue w); files := files w; ontologyQueue := ontologyQueue w; next_id := next_id w |}.
Definition with_files (f : gmap string (list DataRecord) -> gmap string (list DataRecord)) (w : world) : world :=
  {| connectors := connectors w; states := states w; raw := raw w; progress_of := progress_of w; syncQueue := syncQueue w;
     batchQueue := batchQueue w; files := f (files w); ontologyQueue := ontologyQueue w; next_id := next_id w |}.
Definition add_map_job (j : string * string * nat) (w : world) : world :=
  {| connectors := connectors w; states := states w; raw := raw w; progress_of := progress_of w; syncQueue := syncQueue w;
     batchQueue := batchQueue w; files := files w; ontologyQueue := ontologyQueue w ++ [j]; next_id := next_id w |}.

(** ** Progress *)

Definition PROGRESS_TERMINAL_TTL_SECONDS : Z := 604800.

Definition writeProgress (id : string) (p : SyncProgress) : world -> world :=
  let terminal := match pg_status p with p_success | p_failed | p_cancelled => true | p_queued | p_running => false end in
  with_progress (insert id (p, if terminal then Some PROGRESS_TERMINAL_TTL_SECONDS else None)).

Definition getSyncProgress (id : string) (w : world) : option SyncProgress := fst <$> progress_of w !! id.

(** The two scripts that run inside Redis; they keep the time the key stays. *)
Definition incrementBatchProgress (now : Z) (id : string) (records : nat) : world -> world :=
  with_progress (alter (fun '(p, ttl) =>
    ({| pg_connector := pg_connector p; pg_tenant := pg_tenant p; pg_status := pg_status p; pg_mode := pg_mode p;
        totalBatches := totalBatches p; completedBatches := completedBatches p + 1; failedBatches := failedBatches p;
        totalRecords := totalRecords p; processedRecords := processedRecords p + records; startedAt := startedAt p;
        completedAt := completedAt p; lastBatchAt := Some now; errors := errors p |}, ttl)) id).

Definition incrementFailedBatch (id : string) (e : BatchError) : world -> world :=
  with_progress (alter (fun '(p, ttl) =>
    ({| pg_connector := pg_connector p; pg_tenant := pg_tenant p; pg_status := pg_status p; pg_mode := pg_mode p;
        totalBatches := totalBatches p; completedBatches := completedBatches p; failedBatches := failedBatches p + 1;
        totalRecords := totalRecords p; processedRecords := processedRecords p; startedAt := startedAt p;
        completedAt := completedAt p; lastBatchAt := lastBatchAt p; errors := errors p ++ [e] |}, ttl)) id).

Definition fresh_progress (c tenant : string) (st : progress_status) (mode : sync_mode) (started : option Z) : SyncProgress :=
  {| pg_connector := c; pg_tenant := tenant; pg_status := st; pg_mode := mode; totalBatches := 0; completedBatches := 0;
     failedBatches := 0; totalRecords := 0; processedRecords := 0; startedAt := started; completedAt := None;
     lastBatchAt := None; errors := [] |}.

Definition set_pg_status (st : progress_status) (completed : option Z) (errs : list BatchError) (p : SyncProgress) : SyncProgress :=
  {| pg_connector := pg_connector p; pg_tenant := pg_tenant p; pg_status := st; pg_mode := pg_mode p; totalBatches := totalBatches p;
     completedBatches := completedBatches p; failedBatches := failedBatches p; totalRecords := totalRecords p;
     processedRecords := processedRecords p; startedAt := startedAt p; completedAt := completed;
     lastBatchAt := lastBatchAt p; errors := errs |}.

Definition count_batch (now : Z) (total batches : nat) (p : SyncProgress) : SyncProgress :=
  {| pg_connector := pg_connector p; pg_tenant := pg_tenant p; pg_status := pg_status p; pg_mode := pg_mode p; totalBatches := batches;
     completedBatches := completedBatches p; failedBatches := failedBatches p; totalRecords := total;
     processedRecords := processedRecords p; startedAt := startedAt p; completedAt := completedAt p;
     lastBatchAt := Some now; errors := errors p |}.

(** ** Triggering and cancelling *)

Inductive trigger_error : Type := ConnectorNotFoundError | ConnectorDisabledError | SyncAlreadyRunningError.

Record trigger_options : Type := { opt_mode : option sync_mode; opt_force : bool }.

Definition with_error (message : string) : Changes :=
  {| set_cursor := None; set_sync_at := None; set_job_id := None; set_error := Some (Some message); set_error_code := None;
     set_rows_last := None; set_rows_total := None |}.

Definition live_job (c : string) (j : SyncJob) : bool :=
  (bool_decide (sj_state j = Active) || bool_decide (sj_state j = Waiting)) && String.eqb (sj_connector j) c.

(** A request between two of its awaits: what it has to do next, with the mode of
    the sync where that is settled. *)
Inductive trigger_phase : Type :=
| AtConnector
| AtState (mode : sync_mode)
| AtJobs (mode : sync_mode)
| AtReset (mode : sync_mode)
| AtAdd (mode : sync_mode)
| AtMark (mode : sync_mode)
| AtSeed (mode : sync_mode)
| Returned (r : result trigger_error string).

Definition trigger_admit (c tenantId : string) (w : world) : result trigger_error ConnectorRow :=
  match connectors w !! c with
  | None => Err ConnectorNotFoundError
  | Some connector =>
      if negb (String.eqb (co_tenant connector) tenantId) then Err ConnectorNotFoundError
      else if negb (is_enabled connector) then Err ConnectorDisabledError
      else Ok connector
  end.

(** The guard's first read: the row of the state says that a sync runs. *)
Definition state_running (c : string) (w : world) : bool :=
  bool_decide (status <$> findByConnectorId c (states w) = Some running).

Definition trigger_reset (now : Z) (c : string) : world -> world :=
  with_states (updateStatus now c failed (with_error "Previous sync interrupted — reset by trigger guard")).

Definition trigger_add (uuid c tenantId : string) (mode : sync_mode) (w : world) : world :=
  add_sync_job {| bull_id := next_id w; sj_state := Waiting; sj_connector := c; sj_tenant := tenantId; sj_mode := mode; syncJobId := uuid |} w.

Definition trigger_mark (now : Z) (c : string) : world -> world := with_states (updateStatus now c running no_changes).

Definition trigger_seed (uuid c tenantId : string) (mode : sync_mode) : world -> world :=
  writeProgress uuid (fresh_progress c tenantId p_queued mode None).

(** One of the awaits, and the code up to the next; [uuid] is [crypto.randomUUID()].
    Other requests and the workers act between two turns. *)
Definition trigger_turn (now : Z) (uuid c tenantId : string) (o : trigger_options) (at_ : trigger_phase) (w : world) :
    world * trigger_phase :=
  match at_ with
  | AtConnector =>
      match trigger_admit c tenantId w with
      | Err e => (w, Returned (Err e))
      | Ok connector =>
          let mode := default (co_mode connector) (opt_mode o) in (w, if opt_force o then AtAdd mode else AtState mode)
      end
  | AtState mode => (w, if state_running c w then AtJobs mode else AtAdd mode)
  | AtJobs mode => (w, if existsb (live_job c) (syncQueue w) then Returned (Err SyncAlreadyRunningError) else AtReset mode)
  | AtReset mode => (trigger_reset now c w, AtAdd mode)
  | AtAdd mode => (trigger_add uuid c tenantId mode w, AtMark mode)
  | AtMark mode => (trigger_mark now c w, AtSeed mode)
  | AtSeed mode => (trigger_seed uuid c tenantId mode w, Returned (Ok uuid))
  | Returned r => (w, Returned r)
  end.

Fixpoint trigger_turns (n : nat) (now : Z) (uuid c tenantId : string) (o : trigger_options) (wp : world * trigger_phase) : world * trigger_phase :=
  match n with
  | O => wp
  | S n => let '(w, at_) := wp in trigger_turns n now uuid c tenantId o (trigger_turn now uuid c tenantId o at_ w)
  end.

(** The whole request, with nothing between its turns. *)
Definition triggerSync (now : Z) (uuid c tenantId : string) (o : trigger_options) (w : world) : world * trigger_phase :=
  trigger_turns 7 now uuid c tenantId o (w, AtConnector).

(** [syncQueue.getJob(id)]: by BullMQ's identifier. *)
Definition getJob (id : string) (w : world) : option SyncJob :=
  List.find (fun j => String.eqb (Z_to_string (Z.of_nat (bull_id j))) id) (syncQueue w).

Definition cancelSync (id : string) (w : world) : world :=
  match getJob id w with
  | None => w
  | Some j =>
      let w := if bool_decide (sj_state j = Waiting) || bool_decide (sj_state j = Delayed)
               then with_sync_queue (List.filter (fun k => negb (bull_id k =? bull_id j)%nat)) w else w in
      match getSyncProgress id w with
      | None => w
      | Some p => writeProgress id (set_pg_status p_cancelled (completedAt p) (errors p) p) w
      end
  end.

Definition executeWatchdog (now staleThresholdMs : Z) (w : world) : world * nat :=
  let '(t, n) := resetStaleSyncs now staleThresholdMs (states w) in (with_states (fun _ => t) w, n).

(** ** The sync job *)

(** A page of the source, from the sandbox or the built-in reader. *)
Inductive page : Type :=
| Page (records : list DataRecord) (nextCursor : option string) (hasMore : bool)
| FetchFailed (message code : string).

(** The variables of the loop, and the progress that the job writes whole. *)
Record run : Type := {
  run_job : SyncJob;
  run_batch : string;
  run_cursor : option string;
  run_seq : nat;
  run_total : nat;
  run_progress : SyncProgress
}.

Inductive phase : Type := Paging (r : run) | Succeeded | Failed | Cancelled.

Section Jobs.
Context `{Uuid}.
Context (json_bytes : list DataRecord -> Z) (threshold : Z) (tmpdir : string).

Definition job_changes (message : option string) (job : SyncJob) : Changes :=
  {| set_cursor := None; set_sync_at := None; set_job_id := Some (Some (syncJobId job));
     set_error := (fun m => Some m) <$> message; set_error_code := None; set_rows_last := None; set_rows_total := None |}.

(** The handler of what the job throws. *)
Definition fail_sync (now : Z) (message code : string) (job : SyncJob) (p : SyncProgress) (w : world) : world * phase :=
  let w := with_states (updateStatus now (sj_connector job) failed (job_changes (Some message) job)) w in
  let p := set_pg_status p_failed (Some now)
             (errors p ++ [{| e_batch := "sync"; e_message := message; e_code := code; e_records := 0 |}]) p in
  (writeProgress (syncJobId job) p w, Failed).

(** Up to the loop; [batchId] is [crypto.randomUUID()]. *)
Definition start_sync (now : Z) (batchId : string) (job : SyncJob) (w : world) : world * phase :=
  let c := sj_connector job in
  let p := fresh_progress c (sj_tenant job) p_running (sj_mode job) (Some now) in
  let w := writeProgress (syncJobId job) p w in
  match connectors w !! c with
  | None => fail_sync now "not found during sync" "INGESTION_CONNECTOR_NOT_FOUND" job p w
  | Some _ =>
      match createRawTable c (raw w) with
      | Err _ => fail_sync now "Invalid connector ID" "Error" job p w
      | Ok db =>
          let w := with_raw db w in
          let cursor := if bool_decide (sj_mode job = incremental) then findByConnectorId c (states w) ≫= last_cursor else None in
          (w, Paging {| run_job := job; run_batch := batchId; run_cursor := cursor; run_seq := 0; run_total := 0; run_progress := p |})
      end
  end.

Definition BATCH_QUEUE_MAX : Z := 50000.

Definition tmp_file (now : Z) (id : string) (seq : nat) : string :=
  tmpdir +:+ "/op-batch-" +:+ id +:+ "-" +:+ Z_to_string (Z.of_nat seq) +:+ "-" +:+ Z_to_string now +:+ ".json".

(** A page with records becomes a batch job. *)
Definition dispatch (now : Z) (records : list DataRecord) (r : run) (w : world) : world * run :=
  let job := run_job r in
  let total := (run_total r + length records)%nat in
  let seq := S (run_seq r) in
  let p := count_batch now total seq (run_progress r) in
  let w := writeProgress (syncJobId job) p w in
  let in_file := (threshold <=? json_bytes records)%Z in
  let path := tmp_file now (syncJobId job) seq in
  let w := if in_file then with_files (insert path records) w else w in
  let bj := {| bj_sync := syncJobId job; bj_connector := sj_connector job; bj_tenant := sj_tenant job; bj_batch := run_batch r;
               batchSeqNum := seq; bj_mode := sj_mode job; bj_cursor := run_cursor r; recordCount := length records;
               bj_records := if in_file then InFile path else Inline records |} in
  (with_batches (fun q => q ++ [bj]) w,
   {| run_job := job; run_batch := run_batch r; run_cursor := run_cursor r; run_seq := seq; run_total := total; run_progress := p |}).

(** After the loop. *)
Definition finish_sync (now : Z) (r : run) (w : world) : world * phase :=
  let job := run_job r in
  let c := sj_connector job in
  let cleaned := if bool_decide (sj_mode job = full) && (0 <? run_seq r)%nat
                 then fst <$> softDeleteNotInBatch now c (run_batch r) (raw w) else Ok (raw w) in
  match cleaned with
  | Err _ => fail_sync now "cleanup failed" "Error" job (run_progress r) w
  | Ok db =>
      let w := with_raw db w in
      match count c db with
      | Err _ => fail_sync now "count failed" "Error" job (run_progress r) w
      | Ok rowsTotal =>
          let w := with_states (updateStatus now c success
            {| set_cursor := Some <$> run_cursor r; set_sync_at := Some (Some now); set_job_id := Some (Some (syncJobId job));
               set_error := Some None; set_error_code := None; set_rows_last := Some (run_total r); set_rows_total := Some rowsTotal |}) w in
          (writeProgress (syncJobId job) (set_pg_status p_success (Some now) (errors (run_progress r)) (run_progress r)) w, Succeeded)
      end
  end.

(** One turn of the loop. *)
Definition sync_turn (now : Z) (fetched : page) (r : run) (w : world) : world * phase :=
  let job := run_job r in
  let c := sj_connector job in
  if bool_decide (pg_status <$> getSyncProgress (syncJobId job) w = Some p_cancelled) then
    let w := with_states (updateStatus now c cancelled (job_changes None job)) w in
    (writeProgress (syncJobId job) (set_pg_status p_cancelled (Some now) (errors (run_progress r)) (run_progress r)) w, Cancelled)
  else if (BATCH_QUEUE_MAX <=? Z.of_nat (length (batchQueue w)))%Z then
    fail_sync now "ingestion:batch queue at capacity — sync will retry." "INGESTION_QUEUE_FULL" job (run_progress r) w
  else
    match fetched with
    | FetchFailed message code => fail_sync now message code job (run_progress r) w
    | Page records nextCursor hasMore =>
        let '(w, r) := match records with [] => (w, r) | _ => dispatch now records r w end in
        let w := match nextCursor with Some cur => with_states (updateCursor now c (Some cur)) w | None => w end in
        let r := {| run_job := job; run_batch := run_batch r; run_cursor := nextCursor; run_seq := run_seq r;
                    run_total := run_total r; run_progress := run_progress r |} in
        if hasMore then (w, Paging r) else finish_sync now r w
    end.

(** ** The batch job *)

Definition batch_envelopes (now : Z) (name : string) (j : BatchJob) (records : list DataRecord) : list DataEnvelope :=
  map (fun record => normalizeToEnvelope now record
    {| connectorId := bj_connector j; connectorName := name; batchId := bj_batch j; tenantId := bj_tenant j;
       syncMode := bj_mode j; cursor := bj_cursor j |}) records.

Definition job_records (j : BatchJob) (w : world) : option (list DataRecord) :=
  match bj_records j with Inline l => Some l | InFile path => files w !! path end.

(** [false]: the job throws, and BullMQ may run it again. *)
Definition processBatchJob (now : Z) (j : BatchJob) (w : world) : world * bool :=
  match job_records j w with
  | None => (w, false)
  | Some records =>
      let failed message code :=
        (incrementFailedBatch (bj_sync j)
           {| e_batch := bj_batch j; e_message := message; e_code := code; e_records := length records |} w, false) in
      match connectors w !! bj_connector j with
      | None => failed "not found during batch processing" "INGESTION_CONNECTOR_NOT_FOUND"
      | Some connector =>
          match insertBatch (bj_connector j) (batch_envelopes now (co_name connector) j records) (raw w) with
          | Err _ => failed "insert failed" "error"
          | Ok db =>
              let w := add_map_job (bj_connector j, bj_batch j, batchSeqNum j) (with_raw db w) in
              let w := incrementBatchProgress now (bj_sync j) (length records) w in
              (match bj_records j with InFile path => with_files (base.delete path) w | Inline _ => w end, true)
          end
      end
  end.

End Jobs.

(** ** Triggering, cancelling and undoing a synchronisation

    What two requests of SyncService do: the guard of a trigger refuses a second
    one, unless it comes between the turns of the first, and the identifier that
    a trigger returns is not one that a cancellation finds. *)

(** ** Triggering *)

Lemma job_id_digits n : Forall (fun c => is_digit c = true) (explode (Z_to_string (Z.of_nat n))).
Proof. unfold Z_to_string. rewrite (proj2 (Z.ltb_ge _ 0)) by lia. apply pretty_N_digits. Qed.

Lemma getJob_uuid id w : "-"%char ∈ explode id -> getJob id w = None.
Proof.
  intros Hid. unfold getJob. induction (syncQueue w) as [|j l IH]; [done|]. cbn.
  destruct (String.eqb_spec (Z_to_string (Z.of_nat (bull_id j))) id) as [E|_]; [|done].
  pose proof (job_id_digits (bull_id j)) as Hd. rewrite E in Hd. by apply (proj1 (Forall_forall _ _) Hd) in Hid.
Qed.

(** The identifier returned is the one that was generated. *)
Lemma triggerSync_id now uuid c tenant o w w1 id : triggerSync now uuid c tenant o w = (w1, Returned (Ok id)) -> id = uuid.
Proof.
  assert (H : forall n wp, (forall i, wp.2 = Returned (Ok i) -> i = uuid) ->
    forall i, (trigger_turns n now uuid c tenant o wp).2 = Returned (Ok i) -> i = uuid).
  { induction n as [|n IH]; intros wp Hp; [done|]. destruct wp as [w0 at_]. apply IH. intros i.
    destruct at_; cbn; repeat case_match; try done; [by intros [= ->]|]. intros E. by apply Hp. }
  intros E%(f_equal snd). exact (H 7%nat (w, AtConnector) (fun i (Ei : AtConnector = Returned (Ok i)) => ltac:(discriminate Ei)) id E).
Qed.

(** A sync cannot be cancelled by the identifier that triggering it returns.
    The identifier is a UUID, which has hyphens, and the queue is asked for a job by
    the number that BullMQ gave it: in no state of the world does cancelling by
    that identifier change anything. *)
Theorem cancel_no_effect now uuid c tenant o w w1 id :
  "-"%char ∈ explode uuid -> triggerSync now uuid c tenant o w = (w1, Returned (Ok id)) ->
  forall w2, cancelSync id w2 = w2.
Proof.
  intros Hu Ht w2. assert (id = uuid) as -> by by eapply triggerSync_id.
  unfold cancelSync. by rewrite getJob_uuid.
Qed.

(** A trigger that nothing comes between: refused, it changes nothing; accepted,
    it queues one waiting job for the connector, under the tenant that owns it, with
    a queued progress and a state that runs. *)
Theorem trigger_alone now uuid c tenant o w w1 r :
  triggerSync now uuid c tenant o w = (w1, Returned r) ->
  match r with
  | Err _ => w1 = w
  | Ok id =>
      id = uuid /\ (exists row, connectors w !! c = Some row /\ co_tenant row = tenant /\ is_enabled row = true)
      /\ (exists j, syncQueue w1 = syncQueue w ++ [j] /\ sj_connector j = c /\ sj_tenant j = tenant /\ syncJobId j = uuid /\ sj_state j = Waiting)
      /\ (pg_status <$> getSyncProgress uuid w1) = Some p_queued
      /\ (is_Some (states w !! c) -> state_running c w1 = true)
  end.
Proof.
  assert (Hend : forall mode w0, connectors w0 = connectors w -> syncQueue w0 = syncQueue w -> (is_Some (states w !! c) -> is_Some (states w0 !! c)) ->
    let w' := trigger_seed uuid c tenant mode (trigger_mark now c (trigger_add uuid c tenant mode w0)) in
    (exists j, syncQueue w' = syncQueue w ++ [j] /\ sj_connector j = c /\ sj_tenant j = tenant /\ syncJobId j = uuid /\ sj_state j = Waiting)
    /\ (pg_status <$> getSyncProgress uuid w') = Some p_queued /\ (is_Some (states w !! c) -> state_running c w' = true)).
  { intros mode w0 Hc Hq Hs. cbn zeta. split_and!.
    - cbn. rewrite Hq. eexists. split; [done|]. done.
    - unfold getSyncProgress. cbn. by rewrite lookup_insert_eq.
    - intros [st Hst]%Hs. unfold state_running, findByConnectorId. cbn. unfold updateStatus. by rewrite lookup_alter_eq, Hst. }
  unfold triggerSync, trigger_admit. cbn -[state_running existsb trigger_seed trigger_mark trigger_add trigger_reset trigger_admit].
  unfold trigger_admit. destruct (connectors w !! c) as [row|] eqn:Er; [|by intros [= <- <-]].
  destruct (String.eqb_spec (co_tenant row) tenant) as [Et|Et]; cbn [negb]; [|by intros [= <- <-]].
  destruct (is_enabled row) eqn:Ee; cbn [negb]; [|by intros [= <- <-]].
  assert (Hrow : exists row0, Some row = Some row0 /\ co_tenant row0 = tenant /\ is_enabled row0 = true) by (by exists row).
  cbn -[state_running existsb trigger_seed trigger_mark trigger_add trigger_reset].
  destruct (opt_force o); cbn -[state_running existsb trigger_seed trigger_mark trigger_add trigger_reset].
  { intros [= <- <-]. split; [done|]. split; [done|]. by apply Hend. }
  destruct (state_running c w); cbn -[state_running existsb trigger_seed trigger_mark trigger_add trigger_reset].
  2: { intros [= <- <-]. split; [done|]. split; [done|]. by apply Hend. }
  destruct (existsb _ _); cbn -[state_running existsb trigger_seed trigger_mark trigger_add trigger_reset]; [by intros [= <- <-]|].
  intros [= <- <-]. split; [done|]. split; [done|]. apply Hend; [done|done|].
  intros [st Hst]. cbn. unfold updateStatus. rewrite lookup_alter_eq, Hst. by eexists.
Qed.

Definition one_world : world :=
  {| connectors := {["c" := {| co_tenant := "t"; co_name := "shop"; co_mode := full; is_enabled := true |}]}; states := create 0 "c" full ∅;
     raw := ∅; progress_of := ∅; syncQueue := []; batchQueue := []; files := ∅; ontologyQueue := []; next_id := 1 |}.

Definition unforced : trigger_options := {| opt_mode := None; opt_force := false |}.

Lemma cancel_no_effect_witness :
  let r := triggerSync 5 "a-1" "c" "t" unforced one_world in
  r.2 = Returned (Ok "a-1") /\ cancelSync "a-1" r.1 = r.1 /\ length (syncQueue r.1) = 1%nat.
Proof.
  split; [vm_compute; reflexivity|]. split; [|vm_compute; reflexivity].
  refine (cancel_no_effect 5 "a-1" "c" "t" unforced one_world _ "a-1" _ eq_refl _). cbn. right. by left.
Defined.

(** The number that BullMQ gave the job does find it. *)
Example cancel_by_number :
  length (syncQueue (cancelSync "1" (triggerSync 5 "a-1" "c" "t" unforced one_world).1)) = 0%nat.
Proof. vm_compute. reflexivity. Qed.

(** The second trigger is refused; once the job is gone the guard resets the state and
    lets the next one through. *)
Example triggers :
  let w1 := (triggerSync 5 "a-1" "c" "t" unforced one_world).1 in
  let w2 := with_sync_queue (fun _ => []) w1 in
  ((triggerSync 6 "a-2" "c" "t" unforced w1).2, (triggerSync 6 "a-2" "c" "t" unforced w2).2, (triggerSync 6 "a-2" "c" "u" unforced w2).2)
  = (Returned (Err SyncAlreadyRunningError), Returned (Ok "a-2"), Returned (Err ConnectorNotFoundError)).
Proof. vm_compute. reflexivity. Qed.

(** Two requests that overlap are both accepted: the second reads the state before
    the first marks it, although the job of the first is in the queue. *)
Example overlapping_triggers :
  let first := trigger_turns 3 5 "a-1" "c" "t" unforced (one_world, AtConnector) in
  let second := trigger_turns 7 6 "a-2" "c" "t" unforced (first.1, AtConnector) in
  let rest := trigger_turns 7 7 "a-1" "c" "t" unforced (second.1, first.2) in
  (second.2, rest.2, map syncJobId (syncQueue rest.1)) = (Returned (Ok "a-2"), Returned (Ok "a-1"), ["a-1"; "a-2"]).
Proof. vm_compute. reflexivity. Qed.
