(* ===== verification/SyncRun.v ===== *)
(** * A full synchronisation and its batch jobs

    The sync job of SyncService beside its batch jobs: whatever their
    interleaving, a full synchronisation that succeeds leaves exactly the records
    of its source. *)

From S2P Require Import Prelude JsString JsNumber JsValue SqlTable PgOutput RawTable SyncService.
From Stdlib Require Import Ascii.
From stdpp Require Import gmap strings pretty.

(** The next action: a turn of the sync job, or a batch job of the queue. *)
Inductive action : Type :=
| Turn (now : Z) (fetched : page)
| RunBatch (i : nat) (now : Z).

(** The records that the page of a turn brings. *)
Definition page_records (a : action) : list (list DataRecord) :=
  match a with Turn _ (Page ((_ :: _) as records) _ _) => [records] | _ => [] end.

Lemma Forall2_impl_l {A B} (R S : A -> B -> Prop) (P : A -> Prop) l k :
  Forall2 R l k -> Forall P l -> (forall x y, R x y -> P x -> S x y) -> Forall2 S l k.
Proof. intros H HP HRS. induction H; [constructor|]. apply Forall_cons in HP as [? ?]. constructor; auto. Qed.

Section Run.
Context `{Uuid}.
Context (json_bytes : list DataRecord -> Z) (threshold : Z) (tmpdir : string).

(** The world and the phase after an action; [None]: no such job. *)
Definition act (a : action) (wp : world * phase) : option (world * phase) :=
  let '(w, ph) := wp in
  match a with
  | Turn now fetched =>
      match ph with Paging r => Some (sync_turn json_bytes threshold tmpdir now fetched r w) | _ => None end
  | RunBatch i now =>
      j ← batchQueue w !! i;
      let '(w, done) := processBatchJob now j w in
      Some (with_batches (fun l => if done : bool then base.delete i l else l) w, ph)
  end.

Fixpoint acts (l : list action) (wp : world * phase) : option (world * phase) :=
  match l with
  | [] => Some wp
  | a :: l => wp ← act a wp; acts l wp
  end.

(** ** File names *)

Lemma tmp_file_seq now now' id seq seq' : tmp_file tmpdir now id seq = tmp_file tmpdir now' id seq' -> seq = seq'.
Proof.
  unfold tmp_file. intros E. apply (f_equal explode) in E. rewrite !explode_app in E.
  do 4 apply app_inv_head in E. unfold Z_to_string at 1 3 in E. rewrite !(proj2 (Z.ltb_ge _ 0)) in E by lia.
  apply (f_equal (fun l => (span is_digit l).1)) in E. cbn [explode app] in E.
  rewrite !(span_all_stop is_digit) in E by (try apply pretty_N_digits; done). cbn [fst] in E.
  apply (f_equal implode) in E. rewrite !implode_explode in E. apply (inj pretty) in E. lia.
Qed.

(** ** The invariant *)

Context (c b q id : string) (row : ConnectorRow) (db0 : raw_db).
Context (Hq : qualifiedTableName c = Ok q).

(** A waiting job and its page. *)
Definition job_for (w : world) (j : BatchJob) (records : list DataRecord) : Prop :=
  bj_connector j = c /\ bj_batch j = b /\ job_records j w = Some records
  /\ match bj_records j with Inline _ => True | InFile path => exists now, path = tmp_file tmpdir now id (batchSeqNum j) end.

(** The envelopes of a page, written at some time. *)
Definition written (records : list DataRecord) (l : list DataEnvelope) : Prop :=
  exists now j, l = batch_envelopes now (co_name row) j records /\ bj_connector j = c /\ bj_batch j = b.

Record run_inv (w : world) (ph : phase) (sent : list (list DataRecord)) : Prop := {
  inv_row : connectors w !! c = Some row;
  inv_seqs : NoDup (map batchSeqNum (batchQueue w));
  inv_paging : forall r, ph = Paging r ->
    sj_connector (run_job r) = c /\ syncJobId (run_job r) = id /\ sj_mode (run_job r) = full /\ run_batch r = b
    /\ (sent <> [] -> 0 < run_seq r)%nat /\ Forall (fun j => batchSeqNum j <= run_seq r)%nat (batchQueue w);
  inv_split : ph = Failed \/ ph = Cancelled \/
    exists waiting delivered ops,
      Forall2 (job_for w) (batchQueue w) waiting /\ sent ≡ₚ waiting ++ delivered.*1
      /\ Forall (fun d => written d.1 d.2) delivered
      /\ foldM (run_op c b) db0 ops = Ok (raw w) /\ (forall l, Deliver l ∈ ops <-> l ∈ delivered.*2)
      /\ (ph = Succeeded -> sent <> [] -> exists now, Cleanup now ∈ ops)
}.

Lemma job_for_files w w' j records : files w' = files w -> job_for w j records -> job_for w' j records.
Proof. unfold job_for, job_records. by intros ->. Qed.

(** What the jobs do not look at. *)
Lemma run_inv_ext w w' ph sent :
  connectors w' = connectors w -> batchQueue w' = batchQueue w -> files w' = files w -> raw w' = raw w ->
  run_inv w ph sent -> run_inv w' ph sent.
Proof.
  intros Hc Hb Hf Hr [H1 H2 H3 H4]. split; rewrite ?Hc, ?Hb, ?Hr; try done.
  destruct H4 as [?|[?|(wt & dl & ops & Hw & Hrest)]]; [by left|right; by left|right; right]. exists wt, dl, ops. split; [|done].
  eapply Forall2_impl; [exact Hw|]. intros j records. by apply job_for_files.
Qed.

(** A phase after which nothing is claimed. *)
Lemma run_inv_stopped w w' ph ph' sent sent' :
  connectors w' = connectors w -> batchQueue w' = batchQueue w -> ph' = Failed \/ ph' = Cancelled ->
  run_inv w ph sent -> run_inv w' ph' sent'.
Proof.
  intros Hc Hb Hph [H1 H2 _ _]. split; rewrite ?Hc, ?Hb; try done.
  - intros r ->. by destruct Hph.
  - destruct Hph; [by left|right; by left].
Qed.

Lemma other_path now now' seq seq' path :
  path = tmp_file tmpdir now id seq -> seq <> seq' -> path <> tmp_file tmpdir now' id seq'.
Proof. intros -> Hne E. apply Hne. by eapply tmp_file_seq. Qed.

Lemma job_for_insert w w' j records path now seq l :
  files w' = <[path := l]> (files w) -> path = tmp_file tmpdir now id seq -> batchSeqNum j <> seq ->
  job_for w j records -> job_for w' j records.
Proof.
  intros Hf Hpath Hne (H1 & H2 & H3 & H4). split_and!; [done|done| |done]. unfold job_records in *. rewrite Hf.
  destruct (bj_records j) as [l'|path']; [done|]. destruct H4 as [now' Hp]. rewrite lookup_insert_ne; [done|].
  rewrite Hp. eapply (other_path now); [done|]. congruence.
Qed.

Lemma job_for_delete w w' j records path now seq :
  files w' = base.delete path (files w) -> path = tmp_file tmpdir now id seq -> batchSeqNum j <> seq ->
  job_for w j records -> job_for w' j records.
Proof.
  intros Hf Hpath Hne (H1 & H2 & H3 & H4). split_and!; [done|done| |done]. unfold job_records in *. rewrite Hf.
  destruct (bj_records j) as [l'|path']; [done|]. destruct H4 as [now' Hp]. rewrite lookup_delete_ne; [done|].
  rewrite Hp. eapply (other_path now); [done|]. congruence.
Qed.

(** A page becomes a job. *)
Lemma dispatch_inv now records r w sent :
  run_inv w (Paging r) sent ->
  let '(w1, r1) := dispatch json_bytes threshold tmpdir now records r w in run_inv w1 (Paging r1) (sent ++ [records]).
Proof.
  intros [H1 H2 H3 H4]. destruct (H3 r eq_refl) as (Hc & Hid & Hm & Hb & Hs & Hseq). unfold dispatch.
  set (in_file := (threshold <=? json_bytes records)%Z). set (path := tmp_file tmpdir now (syncJobId (run_job r)) (S (run_seq r))).
  set (bj := {| bj_sync := _ |}). set (w0 := writeProgress _ _ w).
  assert (Hbj : forall w', (in_file = true -> files w' = <[path := records]> (files w)) -> job_for w' bj records).
  { intros w' Hf. unfold job_for, job_records, bj. cbn [bj_connector bj_batch bj_records batchSeqNum].
    destruct in_file; [|done]. rewrite Hf by done. unfold path. rewrite Hid. split_and!; [done|done|by rewrite lookup_insert_eq|by exists now]. }
  set (w1 := if in_file then with_files (insert path records) w0 else w0).
  assert (Hw1 : connectors w1 = connectors w /\ batchQueue w1 = batchQueue w /\ raw w1 = raw w
    /\ files w1 = if in_file then <[path := records]> (files w) else files w) by (unfold w1; by destruct in_file).
  destruct Hw1 as (E1 & E2 & E3 & E4). split; cbn [connectors batchQueue raw with_batches].
  - by rewrite E1.
  - rewrite E2. apply NoDup_map_snoc; [done|]. cbn [batchSeqNum bj]. intros (j & Ej & Hj)%list_elem_of_fmap.
    pose proof (proj1 (Forall_forall _ _) Hseq j Hj) as Hle. cbn in Hle. lia.
  - intros r' [= <-]. cbn [run_job run_batch run_seq]. split_and!; [done|done|done|done|lia|].
    rewrite E2, Forall_app. split; [eapply Forall_impl; [exact Hseq|]; intros j Hj; cbn in Hj; lia|]. by repeat constructor.
  - right; right. destruct H4 as [|[|(wt & dl & ops & Hw & Hp & Hd & Hf & Hops & _)]]; [done|done|].
    exists (wt ++ [records]), dl, ops. rewrite E3. split_and!; [|by rewrite Hp, <- !app_assoc, (Permutation_app_comm [records])|done|done|done|done].
    rewrite E2. apply Forall2_app.
    + assert (Hall : Forall (fun j => batchSeqNum j <> S (run_seq r)) (batchQueue w)).
      { eapply Forall_impl; [exact Hseq|]. intros j Hj. cbn in Hj. lia. }
      eapply Forall2_impl_l; [exact Hw|exact Hall|]. intros j recs Hj Hne.
      unfold w1. destruct in_file; [|by eapply job_for_files, Hj].
      eapply (job_for_insert w _ j recs path now (S (run_seq r))); [done|by unfold path; rewrite Hid|exact Hne|exact Hj].
    + constructor; [|constructor]. apply Hbj. intros E. cbn [files with_batches]. by rewrite E4, E.
Qed.

(** After the loop. *)
Lemma finish_inv now r w sent w' ph' :
  run_inv w (Paging r) sent -> finish_sync now r w = (w', ph') -> run_inv w' ph' sent.
Proof.
  intros Hinv. pose proof Hinv as [H1 H2 H3 H4]. destruct (H3 r eq_refl) as (Hc & Hid & Hm & Hb & Hs & Hseq).
  unfold finish_sync. rewrite Hm, Hc, Hb. cbn [bool_decide andb].
  assert (Hfail : forall m db, fail_sync now m "Error" (run_job r) (run_progress r) (with_raw db w) = (w', ph') -> run_inv w' ph' sent).
  { intros m db [= <- <-]. eapply run_inv_stopped; [..|exact Hinv]; [done|done|by left]. }
  destruct ((0 <? run_seq r)%nat) eqn:E0; rewrite bool_decide_true by done; cbn [andb].
  - destruct (softDeleteNotInBatch now c b (raw w)) as [[db n]|] eqn:Ed; cbn [fmap result_fmap fst]; [|apply (Hfail _ (raw w))].
    destruct (count c db); [|apply Hfail]. intros [= <- <-]. split; [done|done|by intros r'|]. right; right.
    destruct H4 as [|[|(wt & dl & ops & Hw & Hp & Hd & Hf & Hops & _)]]; [done|done|].
    exists wt, dl, (ops ++ [Cleanup now]). split_and!; [|done|done| | |].
    + eapply Forall2_impl; [exact Hw|]. intros j recs. by apply job_for_files.
    + rewrite foldM_app, Hf. cbn [mbind result_mbind result_bind foldM run_op]. rewrite Ed. done.
    + intros l. rewrite elem_of_app, <- Hops. split; [|by left]. intros [Hl|Hl]; [done|]. by apply list_elem_of_singleton in Hl.
    + intros _ _. exists now. apply elem_of_app. right. by left.
  - destruct (count c (raw w)); [|apply Hfail]. intros [= <- <-].
    split; [done|done|by intros r'|]. right; right.
    destruct H4 as [|[|(wt & dl & ops & Hw & Hp & Hd & Hf & Hops & _)]]; [done|done|].
    exists wt, dl, ops. split_and!; [|done|done|done|done|].
    + eapply Forall2_impl; [exact Hw|]. intros j recs. by apply job_for_files.
    + intros _ Hne. apply Nat.ltb_ge in E0. specialize (Hs Hne). lia.
Qed.

Lemma turn_inv now fetched r w sent w' ph' :
  run_inv w (Paging r) sent -> sync_turn json_bytes threshold tmpdir now fetched r w = (w', ph') ->
  run_inv w' ph' (sent ++ page_records (Turn now fetched)).
Proof.
  intros Hinv. unfold sync_turn. case_bool_decide.
  { intros [= <- <-]. eapply run_inv_stopped; [..|exact Hinv]; [done|done|by right]. }
  destruct (_ <=? _)%Z. { intros [= <- <-]. eapply run_inv_stopped; [..|exact Hinv]; [done|done|by left]. }
  destruct fetched as [records next more|m code]; [|intros [= <- <-]; eapply run_inv_stopped; [..|exact Hinv]; [done|done|by left]].
  assert (Hd : forall w1 r1, (match records with [] => (w, r) | _ => dispatch json_bytes threshold tmpdir now records r w end) = (w1, r1) ->
    run_inv w1 (Paging r1) (sent ++ page_records (Turn now (Page records next more)))).
  { intros w1 r1 E. destruct records as [|x l]; cbn [page_records].
    - injection E as <- <-. by rewrite app_nil_r.
    - pose proof (dispatch_inv now (x :: l) r w sent Hinv) as Hdis. by rewrite E in Hdis. }
  destruct (match records with [] => (w, r) | _ => _ end) as [w1 r1]. specialize (Hd w1 r1 eq_refl).
  set (w2 := match next with Some cur => _ | None => w1 end). set (r2 := {| run_job := run_job r |}).
  assert (H2 : run_inv w2 (Paging r2) (sent ++ page_records (Turn now (Page records next more)))).
  { assert (Hw2 : run_inv w2 (Paging r1) (sent ++ page_records (Turn now (Page records next more)))).
    { eapply run_inv_ext; [..|exact Hd]; unfold w2; by destruct next. }
    destruct Hw2 as [G1 G2 G3 G4]. split; [done|done| |].
    - intros r' [= <-]. destruct Hinv as [_ _ H3 _]. destruct (H3 r eq_refl) as (K1 & K2 & K3 & _).
      destruct (G3 r1 eq_refl) as (K4 & K5 & K6 & K7 & K8 & K9). by split_and!.
    - destruct G4 as [|[|(wt & dl & ops & G)]]; [done|done|]. right; right. exists wt, dl, ops. destruct G as (?&?&?&?&?&?). by split_and!. }
  destruct more; [intros [= <- <-]; exact H2|]. intros E. eapply finish_inv; [exact H2|]. revert E. unfold r2. cbn [run_job]. done.
Qed.

(** A batch job of the queue. *)
Lemma batch_inv i now w ph sent j w1 don :
  run_inv w ph sent -> batchQueue w !! i = Some j -> processBatchJob now j w = (w1, don) ->
  run_inv (with_batches (fun l => if don : bool then base.delete i l else l) w1) ph sent.
Proof.
  intros Hinv Hj. unfold processBatchJob.
  assert (Hno : forall w0, connectors w0 = connectors w -> batchQueue w0 = batchQueue w -> files w0 = files w -> raw w0 = raw w ->
    run_inv (with_batches (fun l => l) w0) ph sent).
  { intros w0 ? ? ? ?. by eapply run_inv_ext; [..|exact Hinv]. }
  destruct (job_records j w) as [records|] eqn:Er; [|intros [= <- <-]; by apply Hno].
  destruct (connectors w !! bj_connector j) as [row'|] eqn:Erow; [|intros [= <- <-]; by apply Hno].
  destruct (insertBatch _ _ _) as [db|] eqn:Edb; [|intros [= <- <-]; by apply Hno].
  intros [= <- <-]. destruct Hinv as [H1 H2 H3 H4].
  set (w2 := match bj_records j with Inline _ => _ | InFile path => _ end).
  assert (E : connectors w2 = connectors w /\ batchQueue w2 = batchQueue w /\ raw w2 = db
    /\ files w2 = match bj_records j with Inline _ => files w | InFile path => base.delete path (files w) end) by (unfold w2; by destruct (bj_records j)).
  destruct E as (E1 & E2 & E3 & E4).
  assert (Hseqs : NoDup (map batchSeqNum (base.delete i (batchQueue w)))).
  { rewrite delete_take_drop. rewrite <- (take_drop_middle _ _ _ Hj), !map_app in H2. rewrite map_app. cbn [map] in H2.
    apply NoDup_app in H2 as (N1 & N2 & N3). apply NoDup_cons in N3 as [_ N3]. apply NoDup_app. split_and!; [done| |done]. set_solver. }
  split; cbn [connectors batchQueue raw with_batches]; rewrite ?E1, ?E2, ?E3; [done|done| |].
  - intros r Hr. destruct (H3 r Hr) as (K1 & K2 & K3 & K4 & K5 & K6). split_and!; try done. by apply Forall_delete.
  - destruct H4 as [?|[?|(wt & dl & ops & Hw & Hp & Hd & Hf & Hops & Hcl)]]; [by left|right; by left|right; right].
    destruct (Forall2_lookup_l _ _ _ _ _ Hw Hj) as (recs & Hrecs & Hjob). destruct (Hjob) as (J1 & J2 & J3 & J4).
    rewrite Er in J3. injection J3 as ->. rewrite J1 in Erow, Edb. rewrite H1 in Erow. injection Erow as <-.
    exists (base.delete i wt), ((recs, batch_envelopes now (co_name row) j recs) :: dl), (ops ++ [Deliver (batch_envelopes now (co_name row) j recs)]).
    split_and!.
    + assert (Hother : Forall (fun k => batchSeqNum k <> batchSeqNum j) (base.delete i (batchQueue w))).
      { rewrite delete_take_drop. rewrite <- (take_drop_middle _ _ _ Hj), map_app in H2. cbn [map] in H2.
        apply NoDup_app in H2 as (_ & N2 & N3). apply NoDup_cons in N3 as [N3 _].
        apply Forall_app. split; apply Forall_forall; intros k Hk Ek.
        - apply (N2 (batchSeqNum k)); [by apply list_elem_of_fmap_2|]. rewrite Ek. by left.
        - apply N3. rewrite <- Ek. by apply list_elem_of_fmap_2. }
      eapply Forall2_impl_l; [apply Forall2_delete, Hw|exact Hother|]. intros k recs' Hk Hne.
      destruct (bj_records j) as [l|path] eqn:Ebr; [eapply job_for_files, Hk; exact E4|].
      destruct J4 as [now' Hpath]. eapply job_for_delete; [exact E4|exact Hpath|exact Hne|exact Hk].
    + rewrite Hp. cbn [fmap list_fmap fst]. transitivity ((recs :: base.delete i wt) ++ dl.*1); [|solve_Permutation].
      apply Permutation_app_tail. by apply delete_Permutation.
    + constructor; [|done]. cbn. by exists now, j.
    + rewrite foldM_app, Hf. cbn [mbind result_mbind result_bind foldM run_op]. rewrite Edb. done.
    + intros l. rewrite elem_of_app, Hops. cbn [fmap list_fmap snd]. set_solver.
    + intros Hs Hne. destruct (Hcl Hs Hne) as [n Hn]. exists n. apply elem_of_app. by left.
Qed.

Lemma acts_inv l : forall w ph sent w' ph',
  run_inv w ph sent -> acts l (w, ph) = Some (w', ph') -> run_inv w' ph' (sent ++ flat_map page_records l).
Proof.
  induction l as [|a l IH]; intros w ph sent w' ph' Hinv Hrun; cbn [acts flat_map] in *.
  - injection Hrun as <- <-. by rewrite app_nil_r.
  - apply bind_Some in Hrun as ([w1 ph1] & Ha & Hrun). rewrite app_assoc. eapply IH; [|exact Hrun].
    destruct a as [now fetched|i now]; cbn [act] in Ha.
    + destruct ph as [r| | |]; try done. injection Ha as Ha. by eapply turn_inv.
    + apply bind_Some in Ha as (j & Hj & Ha). destruct (processBatchJob now j w) as [w0 don] eqn:Ej. injection Ha as <- <-.
      rewrite app_nil_r. by eapply batch_inv.
Qed.

End Run.

Lemma concat_perm {A} (l k : list (list A)) : l ≡ₚ k -> concat l ≡ₚ concat k.
Proof.
  induction 1 as [|x l k _ IH|x y l|l k m _ IH1 _ IH2]; cbn; [done|by rewrite IH| |by rewrite IH1].
  by rewrite !app_assoc, (Permutation_app_comm x y).
Qed.

Section Whole.
Context `{Uuid}.
Context (c b : string) (row : ConnectorRow).

Definition record_id (r : DataRecord) : string := deriveEnvelopeId c (sourceId r).

Lemma written_ids dl : Forall (fun d => written c b row d.1 d.2) dl -> map _id (concat dl.*2) = map record_id (concat dl.*1).
Proof.
  induction 1 as [|[recs l] dl Hw _ IH]; [done|]. cbn [fmap list_fmap fst snd concat]. rewrite !map_app. f_equal; [|exact IH].
  destruct Hw as (now & j & E & Hc & _). cbn [fst snd] in E. rewrite E. unfold batch_envelopes. rewrite map_map.
  apply map_ext. intros r. unfold record_id. cbn. by rewrite Hc.
Qed.

Lemma written_records dl :
  Forall (fun d => written c b row d.1 d.2) dl ->
  (forall e, e ∈ concat dl.*2 -> _batch_id e = b /\ _connector_id e = c)
  /\ (forall r, r ∈ concat dl.*1 -> exists e, e ∈ concat dl.*2 /\ _id e = record_id r /\ data e = rec_data r).
Proof.
  induction 1 as [|[recs l] dl Hw _ [IH1 IH2]]; [split; intros x Hx; by apply not_elem_of_nil in Hx|].
  destruct Hw as (now & j & E & Hc & Hb). cbn [fst snd] in E. cbn [fmap list_fmap fst snd concat]. split.
  - intros e [He|He]%elem_of_app; [|by apply IH1]. rewrite E in He. apply list_elem_of_fmap in He as (r & -> & _). done.
  - intros r [Hr|Hr]%elem_of_app.
    + exists (normalizeToEnvelope now r {| connectorId := bj_connector j; connectorName := co_name row; batchId := bj_batch j;
        tenantId := bj_tenant j; syncMode := bj_mode j; cursor := bj_cursor j |}).
      split; [apply elem_of_app; left; rewrite E; apply list_elem_of_fmap; by exists r|]. split; [unfold record_id; cbn; by rewrite Hc|done].
    + destruct (IH2 r Hr) as (e & He & Hrest). exists e. split; [apply elem_of_app; by right|done].
Qed.

Lemma start_sync_inv tmpdir now0 job q w0 w1 r1 :
  qualifiedTableName c = Ok q -> sj_connector job = c -> sj_mode job = full -> connectors w0 !! c = Some row -> batchQueue w0 = [] ->
  start_sync now0 b job w0 = (w1, Paging r1) ->
  raw w1 !! q = Some (default ∅ (raw w0 !! q)) /\ run_inv tmpdir c b (syncJobId job) row (raw w1) w1 (Paging r1) [].
Proof.
  intros Hq Hc Hm Hrow Hb0. unfold start_sync. rewrite Hc. cbn [connectors writeProgress with_progress]. rewrite Hrow.
  unfold createRawTable. rewrite Hq. cbn [mbind result_mbind result_bind]. rewrite Hm. intros [= <- <-].
  cbn [raw with_raw writeProgress with_progress]. split.
  - destruct (raw w0 !! q) as [t|] eqn:E; [by rewrite E|]. by rewrite lookup_insert_eq.
  - split; cbn [connectors batchQueue raw with_raw writeProgress with_progress]; [done|by rewrite Hb0; constructor| |].
    + intros r [= <-]. cbn [run_job run_batch run_seq]. split_and!; try done. by rewrite Hb0.
    + right; right. exists [], [], []. rewrite Hb0. split_and!; try done. intros l. split; intros Hl; by apply not_elem_of_nil in Hl.
Qed.

End Whole.

(** C6: a full synchronisation from end to end.  The sync job pages through its
    source while workers run its batch jobs, in any order, again after failures,
    before and after its cleanup, with small pages in the jobs and large ones in
    files.  When the sync job has succeeded and its queue is empty, the table shows
    the records of the pages, each with its data, and every other row is deleted;
    provided the pages were not all empty and no two records have one identifier. *)
Theorem full_sync_end_to_end `{Uuid} json_bytes threshold tmpdir c q b row job now0 w0 w1 r1 l w' :
  qualifiedTableName c = Ok q -> sj_connector job = c -> sj_mode job = full ->
  connectors w0 !! c = Some row -> batchQueue w0 = [] ->
  (forall k r, default ∅ (raw w0 !! q) !! k = Some r -> r_connector_id r = c /\ r_batch_id r <> b) ->
  start_sync now0 b job w0 = (w1, Paging r1) ->
  acts json_bytes threshold tmpdir l (w1, Paging r1) = Some (w', Succeeded) -> batchQueue w' = [] ->
  let records := concat (flat_map page_records l) in
  records <> [] -> NoDup (map (record_id c) records) ->
  exists t, raw w' !! q = Some t
    /\ (forall x, x ∈ records -> exists r, t !! record_id c x = Some r /\ live r = true /\ r_data r = rec_data x)
    /\ (forall k r, t !! k = Some r -> live r = true <-> k ∈ map (record_id c) records).
Proof.
  intros Hq Hc Hm Hrow Hb0 Hold Hstart Hacts Hb' records Hne Hnd.
  destruct (start_sync_inv c b row tmpdir now0 job q w0 w1 r1 Hq Hc Hm Hrow Hb0 Hstart) as [Hraw Hinv].
  pose proof (acts_inv json_bytes threshold tmpdir c b q (syncJobId job) row (raw w1) Hq l w1 _ [] w' _ Hinv Hacts) as [_ _ _ Hsplit].
  destruct Hsplit as [|[|(wt & dl & ops & Hw & Hp & Hd & Hf & Hops & Hcl)]]; [done|done|].
  rewrite Hb' in Hw. apply Forall2_nil_inv_l in Hw as ->. cbn [app] in Hp.
  assert (Hrec : records ≡ₚ concat dl.*1) by (by apply concat_perm).
  destruct (written_records c b row dl Hd) as [Henv Hdata]. pose proof (written_ids c b row dl Hd) as Hids.
  destruct (full_sync_rows c b q dl.*2 ops (raw w1) _ Hq Hraw Hold Henv) as (db' & t & Hrun & Ht & Hshow & Hlive).
  - rewrite Hids. by rewrite <- Hrec.
  - exact Hops.
  - apply Hcl; [done|]. intros E. apply Hne. unfold records. cbn [app] in E. by rewrite E.
  - rewrite Hf in Hrun. injection Hrun as <-. exists t. split_and!; [done| |].
    + intros x Hx. rewrite Hrec in Hx. destruct (Hdata x Hx) as (e & He & Hid & Hde).
      destruct (Hshow e He) as (r & Hr & Hs1 & Hs2 & _). exists r. rewrite <- Hid, <- Hde. by split_and!.
    + intros k r Hr. rewrite (Hlive k r Hr), Hids. by rewrite Hrec.
Qed.

(** ** Examples *)

#[local] Instance plain_uuids : Uuid := fun name namespace => namespace +:+ "/" +:+ name.

Definition rec (id v : string) : DataRecord := {| sourceId := id; rec_data := [("v", VStr v)] |}.

Definition shop_row : ConnectorRow := {| co_tenant := "t"; co_name := "shop"; co_mode := full; is_enabled := true |}.

Definition shop_world (t : raw_table) : world :=
  {| connectors := {[CONNECTOR := shop_row]}; states := create 0 CONNECTOR full ∅; raw := {[raw_name := t]}; progress_of := ∅;
     syncQueue := []; batchQueue := []; files := ∅; ontologyQueue := []; next_id := 1 |}.

Definition shop_job : SyncJob :=
  {| bull_id := 1; sj_state := Active; sj_connector := CONNECTOR; sj_tenant := "t"; sj_mode := full; syncJobId := "0000-0001" |}.

(** Pages of two records go to files. *)
Definition by_count (l : list DataRecord) : Z := Z.of_nat (length l).

Definition shop_actions : list action :=
  [Turn 10 (Page [rec "1" "a"; rec "3" "c"] (Some "p2") true); RunBatch 0 11; Turn 12 (Page [rec "4" "d"] None false); RunBatch 0 13].

Definition run_shop (t : raw_table) (l : list action) : option (world * phase) :=
  acts by_count 2 "/tmp" l (start_sync 9 "b2" shop_job (shop_world t)).

Lemma full_sync_end_to_end_witness :
  exists w' t, run_shop old_table shop_actions = Some (w', Succeeded) /\ raw w' !! raw_name = Some t
    /\ (forall k r, t !! k = Some r -> live r = true <-> k ∈ map (record_id CONNECTOR) [rec "1" "a"; rec "3" "c"; rec "4" "d"]).
Proof.
  destruct (start_sync 9 "b2" shop_job (shop_world old_table)) as [w1 ph1] eqn:Es.
  destruct ph1 as [r1| | |]; [|vm_compute in Es; discriminate..].
  destruct (run_shop old_table shop_actions) as [[w' ph]|] eqn:E; [|vm_compute in E; discriminate].
  destruct ph as [r| | |]; [vm_compute in E; discriminate| |vm_compute in E; discriminate..].
  unfold run_shop in E. rewrite Es in E.
  destruct (full_sync_end_to_end by_count 2 "/tmp" CONNECTOR raw_name "b2" shop_row shop_job 9 (shop_world old_table) w1 r1 shop_actions w')
    as (t & Ht & _ & Hlive); try (vm_compute; reflexivity).
  - intros k r. change (default ∅ (raw (shop_world old_table) !! raw_name)) with old_table. unfold old_table, upsert_rows. cbn [fold_left].
    rewrite lookup_insert_Some. intros [(_ & <-)|(_ & Hr)]; [split; vm_compute; congruence|].
    rewrite lookup_insert_Some in Hr. destruct Hr as [(_ & <-)|(_ & Hr)]; [split; vm_compute; congruence|done].
  - exact Es.
  - exact E.
  - assert (Hb : batchQueue <$> (fst <$> run_shop old_table shop_actions) = Some []) by (vm_compute; reflexivity).
    unfold run_shop in Hb. rewrite Es, E in Hb. by injection Hb.
  - done.
  - decide_now.
  - exists w', t. split_and!; [done|done|exact Hlive].
Defined.

Definition live_of (r : option (world * phase)) : list string :=
  match r with
  | Some (w, _) => map (fun kr => r_source_id kr.2) (List.filter (fun kr => live kr.2) (map_to_list (default ∅ (raw w !! raw_name))))
  | None => []
  end.

(** An emptied source: the sync succeeds and its old rows stay. *)
Example emptied_source : live_of (run_shop old_table [Turn 10 (Page [] None false)]) = ["1"; "2"].
Proof. vm_compute. reflexivity. Qed.

(** One batch holds a record twice: its job fails each time, the sync has succeeded, and
    all of its rows are deleted. *)
Example repeated_record :
  let r := run_shop old_table [Turn 10 (Page [rec "1" "a"; rec "1" "b"] None false); RunBatch 0 11; RunBatch 0 12] in
  (live_of r, snd <$> r, (fun wp => failedBatches <$> getSyncProgress "0000-0001" wp.1) <$> r) = ([], Some Succeeded, Some (Some 2%nat)).
Proof. vm_compute. reflexivity. Qed.

(** The sync job writes its own copy of the progress: the batches that ran before its
    last write are not counted, and a cancellation before a write is undone. *)
Example counts_lost :
  (fun wp => (fun p => (totalBatches p, completedBatches p, processedRecords p)) <$> getSyncProgress "0000-0001" wp.1)
    <$> run_shop ∅ [Turn 10 (Page [rec "1" "a"] (Some "p2") true); RunBatch 0 11; Turn 12 (Page [rec "2" "b"] None false); RunBatch 0 13]
  = Some (Some (2, 1, 1)%nat).
Proof. vm_compute. reflexivity. Qed.

(** An incremental sync fails after a page was queued: the persisted cursor is past the
    page, whose batch job has not run. *)
Example cursor_before_rows :
  (fun wp => (last_cursor <$> states wp.1 !! CONNECTOR, status <$> states wp.1 !! CONNECTOR, length (batchQueue wp.1)))
    <$> acts by_count 2 "/tmp" [Turn 10 (Page [rec "1" "a"] (Some "p2") true); Turn 12 (FetchFailed "timeout" "Error")]
          (start_sync 9 "b2" {| bull_id := 1; sj_state := Active; sj_connector := CONNECTOR; sj_tenant := "t"; sj_mode := incremental;
                                syncJobId := "0000-0001" |} (shop_world ∅))
  = Some (Some (Some "p2"), Some failed, 1%nat).
Proof. vm_compute. reflexivity. Qed.

(** The worker runs the whole job between the [add] of the trigger and its mark: the
    sync has succeeded, and its state says that it runs. *)
Example mark_after_end :
  let '(w, at_) := trigger_turns 3 8 "0000-0001" CONNECTOR "t" unforced (shop_world ∅, AtConnector) in
  (fun wp => (fun s => (snd wp, status s)) <$> states (trigger_turn 20 "0000-0001" CONNECTOR "t" unforced at_ wp.1).1 !! CONNECTOR)
    <$> acts by_count 2 "/tmp" [Turn 10 (Page [rec "1" "a"] None false)] (start_sync 9 "b2" shop_job w)
  = Some (Some (Succeeded, running)).
Proof. vm_compute. reflexivity. Qed.
