(* ===== verification/AuthStore.v ===== *)
(** * The data of the authentication service

    The tables of services/auth/src/db/migrations that the service writes, with
    their constraints, and its keys in Redis.  A table is a list of rows; times are
    milliseconds.  The first part has the commands of Redis on keys with a time to live. *)

From S2P Require Import Prelude JsString JsNumber SqlTable.
From Stdlib Require Import Ascii.
From stdpp Require Import gmap strings.

(** ** Keys with a time to live

    The commands of Redis that the authentication service sends: SET with EX, GET,
    DEL, the script that reads and deletes a key, the commands on sets, EXPIRE and
    INCR.  The keys with one prefix are one map, from the rest of the key; times
    are milliseconds. *)

Record timed (A : Type) : Type := { content : A; expires : option Z }.
Arguments content {A} _.
Arguments expires {A} _.

Abbreviation keys A := (gmap string (timed A)).

(** Redis answers with an error; the message is not used. *)
Inductive redis_error : Type := InvalidExpireTime.

Definition lives (now : Z) (expires : option Z) : bool :=
  match expires with Some t => (now <? t)%Z | None => true end.

Section Keys.
Context {A : Type}.
Implicit Types (m : keys A) (k : string) (now ttl : Z).

Definition get now k m : option A :=
  match m !! k with
  | Some e => if lives now (expires e) then Some (content e) else None
  | None => None
  end.

(** [SET k a EX ttl]; [ttl] in seconds. *)
Definition set_ex now k (a : A) ttl m : result redis_error (keys A) :=
  if (0 <? ttl)%Z then Ok (<[k := {| content := a; expires := Some (now + ttl * 1000)%Z |}]> m) else Err InvalidExpireTime.

Definition del k m : keys A := base.delete k m.

Definition del_all (ks : list string) m : keys A := fold_left (fun m k => del k m) ks m.

(** [GET] and [DEL] in one script. *)
Definition getdel now k m : option A * keys A :=
  match get now k m with Some a => (Some a, del k m) | None => (None, m) end.

(** [EXPIRE k ttl], [ttl > 0]; without effect on a key that is not there. *)
Definition expire now k ttl m : keys A :=
  match get now k m with
  | Some a => <[k := {| content := a; expires := Some (now + ttl * 1000)%Z |}]> m
  | None => m
  end.

(** Replaces the value of a key and keeps the time it has left; a new key has none. *)
Definition keep_ttl now k (a : A) m : keys A :=
  <[k := {| content := a; expires := match m !! k with Some e => if lives now (expires e) then expires e else None | None => None end |}]> m.

Lemma get_set_ex now now' k k' a ttl m m' :
  set_ex now k a ttl m = Ok m' ->
  get now' k' m' = if decide (k = k') then (if (now' <? now + ttl * 1000)%Z then Some a else None) else get now' k' m.
Proof.
  unfold set_ex. destruct (0 <? ttl)%Z; [|done]. intros [= <-]. unfold get. case_decide as E.
  - subst. by rewrite lookup_insert_eq.
  - by rewrite lookup_insert_ne by done.
Qed.

Lemma get_del now k k' m : get now k' (del k m) = if decide (k = k') then None else get now k' m.
Proof.
  unfold get, del. case_decide as E; [subst; by rewrite lookup_delete_eq|by rewrite lookup_delete_ne by done].
Qed.

Lemma get_del_all now k ks m : get now k (del_all ks m) = if decide (k ∈ ks) then None else get now k m.
Proof.
  unfold del_all. revert m. induction ks as [|x ks IH]; intros m; cbn [fold_left].
  - rewrite decide_False by apply not_elem_of_nil. done.
  - rewrite IH, get_del. destruct (decide (k ∈ ks)) as [Hin|Hin].
    + rewrite decide_True by (by right). done.
    + destruct (decide (x = k)) as [->|Hne].
      * rewrite decide_True by (by left). done.
      * rewrite decide_False; [done|]. intros [?|?]%elem_of_cons; congruence.
Qed.

Lemma getdel_spec now k m : getdel now k m = (get now k m, if get now k m then del k m else m).
Proof. unfold getdel. by destruct (get now k m). Qed.

Lemma get_getdel now now' k k' m :
  (now <= now')%Z -> get now' k' (getdel now k m).2 = if decide (k = k') then None else get now' k' m.
Proof.
  intros Hle. rewrite getdel_spec. cbn [snd]. destruct (get now k m) as [a|] eqn:E; [apply get_del|].
  case_decide as Ek; [|done]. subst k'. revert E. unfold get. destruct (m !! k) as [e|]; [|done].
  unfold lives. destruct (expires e) as [t|]; [|done]. destruct (Z.ltb_spec now t), (Z.ltb_spec now' t); try done. lia.
Qed.

Lemma get_later now now' k m : (now <= now')%Z -> get now k m = None -> get now' k m = None.
Proof.
  intros Hle. unfold get. destruct (m !! k) as [e|]; [|done]. unfold lives. destruct (expires e) as [t|]; [|done].
  destruct (Z.ltb_spec now t), (Z.ltb_spec now' t); try done. lia.
Qed.

Lemma get_sooner now now' k m a : (now <= now')%Z -> get now' k m = Some a -> get now k m = Some a.
Proof.
  intros Hle. unfold get. destruct (m !! k) as [e|]; [|done]. unfold lives. destruct (expires e) as [t|]; [|done].
  destruct (Z.ltb_spec now t), (Z.ltb_spec now' t); try done. lia.
Qed.

Lemma get_expire now k k' ttl m : (0 < ttl)%Z -> get now k' (expire now k ttl m) = get now k' m.
Proof.
  intros Ht. unfold expire. destruct (get now k m) as [a|] eqn:E; [|done]. destruct (decide (k = k')) as [->|Hne].
  - rewrite E. unfold get. rewrite lookup_insert_eq. cbn. by rewrite (proj2 (Z.ltb_lt _ _)) by lia.
  - unfold get. by rewrite lookup_insert_ne by done.
Qed.

Lemma get_keep_ttl now k k' a m : get now k' (keep_ttl now k a m) = if decide (k = k') then Some a else get now k' m.
Proof.
  unfold get, keep_ttl. case_decide as E; [subst; rewrite lookup_insert_eq|by rewrite lookup_insert_ne by done]. cbn [content expires].
  destruct (m !! k') as [e|]; [|done]. destruct (lives now (expires e)) eqn:El; [by rewrite El|done].
Qed.
End Keys.

(** ** Sets *)

Section Sets.
Implicit Types (m : keys (gset string)) (k x : string) (now ttl : Z).

Definition smembers now k m : gset string := default ∅ (get now k m).

Definition sadd now k x m : keys (gset string) := keep_ttl now k ({[x]} ∪ smembers now k m) m.

(** A set without members is no key. *)
Definition srem now k x m : keys (gset string) :=
  match get now k m with
  | Some s => if bool_decide (s ∖ {[x]} = ∅) then del k m else keep_ttl now k (s ∖ {[x]}) m
  | None => m
  end.

Lemma smembers_sadd now k k' x m :
  smembers now k' (sadd now k x m) = if decide (k = k') then {[x]} ∪ smembers now k' m else smembers now k' m.
Proof.
  unfold smembers at 1, sadd. rewrite get_keep_ttl. case_decide; [by subst|done].
Qed.

Lemma smembers_srem now k k' x m :
  smembers now k' (srem now k x m) = if decide (k = k') then smembers now k' m ∖ {[x]} else smembers now k' m.
Proof.
  unfold srem. destruct (get now k m) as [s|] eqn:E.
  - case_bool_decide as Es; unfold smembers; [rewrite get_del|rewrite get_keep_ttl];
      case_decide as Ek; try done; subst k'; rewrite E; cbn; [by rewrite Es|done].
  - case_decide as Ek; [|done]. subst k'. unfold smembers. rewrite E. cbn. set_solver.
Qed.

Lemma smembers_expire now k k' ttl m : (0 < ttl)%Z -> smembers now k' (expire now k ttl m) = smembers now k' m.
Proof. intros H. unfold smembers. by rewrite get_expire. Qed.
End Sets.

(** ** Counters *)

(** [INCR], and [EXPIRE] when the counter is new, in one script. *)
Definition incr_expire (now : Z) (k : string) (window : Z) (m : keys Z) : Z * keys Z :=
  let count := (default 0 (get now k m) + 1)%Z in
  let m := keep_ttl now k count m in
  (count, if (count =? 1)%Z then expire now k window m else m).

(** ** Rows *)

Record TenantRow : Type := { t_id : string; t_name : string }.

Record UserRow : Type := {
  u_id : string;
  u_tenant : string;
  email : string;
  password_hash : option string;
  email_verified : bool;
  is_active : bool;
  display_name : option string;
  roles : list string;
  last_login_at : option Z;
  failed_login_count : Z;
  locked_until : option Z;
  password_history : list string
}.

Record SessionRow : Type := {
  se_id : string;
  se_user : string;
  se_tenant : string;
  refresh_token_jti : string;
  family_id : string;
  created_at : Z;
  last_used_at : Z;
  expires_at : Z;
  revoked_at : option Z;
  revoked_reason : option string
}.

Record ResetRow : Type := { rr_jti : string; rr_user : string; rr_expires : Z; used_at : option Z }.

(** The value of a key [auth:refresh:...]. *)
Record RefreshTokenPayload : Type := {
  userId : string;
  tenantId : string;
  sessionId : string;
  jti : string;
  familyId : string
}.

#[export] Instance payload_eq_dec : EqDecision RefreshTokenPayload.
Proof. solve_decision. Defined.

(** ** Errors: one constructor for each throw *)

Inductive auth_error : Type :=
| TenantNotFoundError
| ConflictError
| UnauthorizedError (message : string)
| SessionRevokedError
| TokenReplayDetectedError (sessions : nat)
| ResetTokenInvalidError (message : string)
| ResetTokenExpiredError
| ResetTokenUsedError
| VerifyTokenInvalidError (message : string)
| VerifyTokenExpiredError
| VerifyTokenUsedError
| EmailAlreadyVerifiedError
| PasswordReuseError
| EmptyPassword
| RoleNotIterable                       (* a role that is the name of an inherited property *)
| NotConfigured (variable : string)     (* a variable of the environment that is absent or malformed *)
| ConstraintViolated (name : string)    (* the database *)
| RedisFailed.

(** ** The world *)

Record auth_db : Type := {
  tenants : list TenantRow;
  users : list UserRow;
  sessions : list SessionRow;
  reset_tokens : list ResetRow
}.

Record auth_redis : Type := {
  refresh : keys RefreshTokenPayload;     (* auth:refresh:... *)
  token_family : keys string;             (* auth:token-family:... *)
  refresh_family : keys (gset string);    (* auth:refresh-family:... *)
  user_sessions : keys (gset string);     (* auth:user-sessions:... *)
  revoked_token : keys unit;              (* revocation:... *)
  revoked_user : keys unit;               (* revocation:user:... *)
  reset_gate : keys unit;                 (* reset:... *)
  verify_gate : keys unit                 (* auth:verify:... *)
}.

Record world : Type := { db : auth_db; redis : auth_redis }.

Definition with_users (us : list UserRow) (d : auth_db) : auth_db :=
  {| tenants := tenants d; users := us; sessions := sessions d; reset_tokens := reset_tokens d |}.
Definition with_sessions (ss : list SessionRow) (d : auth_db) : auth_db :=
  {| tenants := tenants d; users := users d; sessions := ss; reset_tokens := reset_tokens d |}.
Definition with_resets (rs : list ResetRow) (d : auth_db) : auth_db :=
  {| tenants := tenants d; users := users d; sessions := sessions d; reset_tokens := rs |}.

Definition on_db (f : auth_db -> auth_db) (w : world) : world := {| db := f (db w); redis := redis w |}.
Definition on_redis (f : auth_redis -> auth_redis) (w : world) : world := {| db := db w; redis := f (redis w) |}.

Definition with_tokens (rf : keys RefreshTokenPayload) (tf : keys string) (fs us : keys (gset string)) (r : auth_redis) : auth_redis :=
  {| refresh := rf; token_family := tf; refresh_family := fs; user_sessions := us;
     revoked_token := revoked_token r; revoked_user := revoked_user r; reset_gate := reset_gate r; verify_gate := verify_gate r |}.
Definition with_revoked (rt ru : keys unit) (r : auth_redis) : auth_redis :=
  {| refresh := refresh r; token_family := token_family r; refresh_family := refresh_family r; user_sessions := user_sessions r;
     revoked_token := rt; revoked_user := ru; reset_gate := reset_gate r; verify_gate := verify_gate r |}.
Definition with_gates (rg vg : keys unit) (r : auth_redis) : auth_redis :=
  {| refresh := refresh r; token_family := token_family r; refresh_family := refresh_family r; user_sessions := user_sessions r;
     revoked_token := revoked_token r; revoked_user := revoked_user r; reset_gate := rg; verify_gate := vg |}.

(** ** Statements *)

Definition by_email (tenant mail : string) (u : UserRow) : bool :=
  String.eqb (u_tenant u) tenant && String.eqb (toLowerCase (email u)) (toLowerCase mail).

Definition find_user (id : string) (d : auth_db) : option UserRow := find_row (fun u => String.eqb (u_id u) id) (users d).
Definition find_email (tenant mail : string) (d : auth_db) : option UserRow := find_row (by_email tenant mail) (users d).
Definition find_session (id : string) (d : auth_db) : option SessionRow := find_row (fun s => String.eqb (se_id s) id) (sessions d).

Definition update_user (id : string) (f : UserRow -> UserRow) (d : auth_db) : auth_db :=
  with_users (update_where (fun u => String.eqb (u_id u) id) f (users d)) d.

(** The columns a session's row changes. *)
Definition set_jti (new_jti : string) (used : option Z) (s : SessionRow) : SessionRow :=
  {| se_id := se_id s; se_user := se_user s; se_tenant := se_tenant s; refresh_token_jti := new_jti; family_id := family_id s;
     created_at := created_at s; last_used_at := default (last_used_at s) used; expires_at := expires_at s;
     revoked_at := revoked_at s; revoked_reason := revoked_reason s |}.

Definition revoke (now : Z) (reason : string) (s : SessionRow) : SessionRow :=
  {| se_id := se_id s; se_user := se_user s; se_tenant := se_tenant s; refresh_token_jti := refresh_token_jti s; family_id := family_id s;
     created_at := created_at s; last_used_at := last_used_at s; expires_at := expires_at s;
     revoked_at := Some now; revoked_reason := Some reason |}.

Definition not_revoked (s : SessionRow) : bool := match revoked_at s with None => true | Some _ => false end.

(** [UPDATE auth.sessions SET revoked_at = now(), revoked_reason = ... WHERE p] *)
Definition revoke_sessions (now : Z) (reason : string) (p : SessionRow -> bool) (d : auth_db) : auth_db :=
  with_sessions (update_where p (revoke now reason) (sessions d)) d.

Definition of_user (user : string) (s : SessionRow) : bool := String.eqb (se_user s) user && not_revoked s.
Definition of_family (family : string) (s : SessionRow) : bool := String.eqb (family_id s) family && not_revoked s.

(** [UPDATE auth.sessions SET refresh_token_jti = ... WHERE id = ...], with the unique
    constraint on the column. *)
Definition update_jti (id new_jti : string) (used : option Z) (d : auth_db) : result auth_error auth_db :=
  if existsb (fun s => String.eqb (refresh_token_jti s) new_jti && negb (String.eqb (se_id s) id)) (sessions d)
  then Err (ConstraintViolated "sessions_refresh_token_jti_unique")
  else Ok (with_sessions (update_where (fun s => String.eqb (se_id s) id) (set_jti new_jti used) (sessions d)) d).

Definition new_session (now : Z) (id user tenant first_jti family : string) (expires : Z) : SessionRow :=
  {| se_id := id; se_user := user; se_tenant := tenant; refresh_token_jti := first_jti; family_id := family;
     created_at := now; last_used_at := now; expires_at := expires; revoked_at := None; revoked_reason := None |}.

Definition insert_session (s : SessionRow) (d : auth_db) : result auth_error auth_db :=
  if existsb (fun x => String.eqb (se_id x) (se_id s)) (sessions d) then Err (ConstraintViolated "sessions_pkey")
  else if existsb (fun x => String.eqb (refresh_token_jti x) (refresh_token_jti s)) (sessions d)
  then Err (ConstraintViolated "sessions_refresh_token_jti_unique")
  else if (expires_at s <=? created_at s)%Z then Err (ConstraintViolated "sessions_expires_after_created")
  else if negb (existsb (fun u => String.eqb (u_id u) (se_user s)) (users d)) then Err (ConstraintViolated "sessions_user_id_fkey")
  else if negb (existsb (fun t => String.eqb (t_id t) (se_tenant s)) (tenants d)) then Err (ConstraintViolated "sessions_tenant_id_fkey")
  else Ok (with_sessions (sessions d ++ [s]) d).

(** [email ~* '^[^@\s]+@[^@\s]+\.[^@\s]+$'] *)
Definition users_email_format (mail : string) : bool :=
  match split_char "@" mail with
  | [local; domain] =>
      negb (existsb is_space (explode mail)) && negb (String.eqb local "")
      && existsb (fun c => Ascii.eqb c ".") (removelast (tail (explode domain)))
  | _ => false
  end.

Definition insert_user (u : UserRow) (d : auth_db) : result auth_error auth_db :=
  if existsb (fun x => String.eqb (u_id x) (u_id u)) (users d) then Err (ConstraintViolated "users_pkey")
  else if existsb (fun x => String.eqb (u_tenant x) (u_tenant u) && String.eqb (email x) (email u)) (users d)
  then Err (ConstraintViolated "users_email_per_tenant_unique")
  else if negb (existsb (fun t => String.eqb (t_id t) (u_tenant u)) (tenants d)) then Err (ConstraintViolated "users_tenant_id_fkey")
  else if negb (users_email_format (email u)) then Err (ConstraintViolated "users_email_format")
  else Ok (with_users (users d ++ [u]) d).

Definition redis_ok {A} (r : result redis_error A) : result auth_error A := map_err (fun _ => RedisFailed) r.

(** ** Actions: what a request does to the world, with what it answers or throws *)

Definition act (A : Type) : Type := world -> result auth_error A * world.

#[export] Instance act_mret : MRet act := fun A a w => (Ok a, w).
#[export] Instance act_mbind : MBind act := fun A B f m w =>
  match m w with (Ok a, w) => f a w | (Err e, w) => (Err e, w) end.

Definition throw {A} (e : auth_error) : act A := fun w => (Err e, w).
Definition answer {A} (r : result auth_error A) : act A := fun w => (r, w).
Definition ask {A} (f : world -> A) : act A := fun w => (Ok (f w), w).
Definition inspect {A} (f : world -> result auth_error A) : act A := fun w => (f w, w).
Definition run {A} (f : world -> A * world) : act A := fun w => let '(a, w) := f w in (Ok a, w).
Definition modify (f : world -> world) : act unit := fun w => (Ok tt, f w).

(** One statement, or one transaction: all of it or nothing. *)
Definition statement (f : world -> result auth_error world) : act unit :=
  fun w => match f w with Ok w => (Ok tt, w) | Err e => (Err e, w) end.

Definition db_statement (f : auth_db -> result auth_error auth_db) : act unit :=
  statement (fun w => d ← f (db w); Ok {| db := d; redis := redis w |}).

Lemma act_bind {A B} (m : act A) (f : A -> act B) w :
  (m ≫= f) w = match m w with (Ok a, w) => f a w | (Err e, w) => (Err e, w) end.
Proof. done. Qed.

Lemma act_answer {A B} (r : result auth_error A) (f : A -> act B) w :
  (answer r ≫= f) w = match r with Ok a => f a w | Err e => (Err e, w) end.
Proof. by destruct r. Qed.

Lemma act_inspect {A B} (g : world -> result auth_error A) (f : A -> act B) w :
  (inspect g ≫= f) w = match g w with Ok a => f a w | Err e => (Err e, w) end.
Proof. unfold inspect. rewrite act_bind. by destruct (g w). Qed.

Lemma act_ask {A B} (g : world -> A) (f : A -> act B) w : (ask g ≫= f) w = f (g w) w.
Proof. done. Qed.

Lemma act_modify {B} g (f : unit -> act B) w : (modify g ≫= f) w = f tt (g w).
Proof. done. Qed.

Lemma act_run {A B} (g : world -> A * world) (f : A -> act B) w : (run g ≫= f) w = f (fst (g w)) (snd (g w)).
Proof. unfold run. rewrite act_bind. by destruct (g w). Qed.

Lemma act_statement {B} g (f : unit -> act B) w :
  (statement g ≫= f) w = match g w with Ok w' => f tt w' | Err e => (Err e, w) end.
Proof. unfold statement. rewrite act_bind. by destruct (g w). Qed.

Lemma act_db {B} g (f : unit -> act B) w :
  (db_statement g ≫= f) w = match g (db w) with Ok d => f tt {| db := d; redis := redis w |} | Err e => (Err e, w) end.
Proof. unfold db_statement. rewrite act_statement. by destruct (g (db w)). Qed.

(** What holds between the world before and the world after an action, however it ends. *)
Section Related.
Context (R : relation world) `{!PreOrder R}.

Definition related {A} (m : act A) : Prop := forall w, R w (snd (m w)).

Lemma related_bind {A B} (m : act A) (f : A -> act B) : related m -> (forall a, related (f a)) -> related (m ≫= f).
Proof.
  intros Hm Hf w. rewrite act_bind. specialize (Hm w). destruct (m w) as [[a|err] w'] eqn:E; cbn [snd] in *; [|done].
  etransitivity; [exact Hm|apply Hf].
Qed.

Lemma related_throw {A} err : related (throw (A := A) err).
Proof. by intros w. Qed.
Lemma related_ret {A} (a : A) : related (mret a).
Proof. by intros w. Qed.
Lemma related_answer {A} (r : result auth_error A) : related (answer r).
Proof. by intros w. Qed.
Lemma related_ask {A} (f : world -> A) : related (ask f).
Proof. by intros w. Qed.
Lemma related_inspect {A} (f : world -> result auth_error A) : related (inspect f).
Proof. by intros w. Qed.
Lemma related_modify f : (forall w, R w (f w)) -> related (modify f).
Proof. intros H w. apply H. Qed.
Lemma related_run {A} (f : world -> A * world) : (forall w, R w (snd (f w))) -> related (run f).
Proof. intros H w. unfold run. specialize (H w). by destruct (f w). Qed.
Lemma related_statement f : (forall w w', f w = Ok w' -> R w w') -> related (statement f).
Proof. intros H w. unfold statement. specialize (H w). destruct (f w) as [w'|err]; [by apply H|done]. Qed.
Lemma related_db f : (forall w d, f (db w) = Ok d -> R w {| db := d; redis := redis w |}) -> related (db_statement f).
Proof. intros H. apply related_statement. intros w w'. destruct (f (db w)) eqn:E; cbn; [|done]. intros [= <-]. by apply H. Qed.
End Related.

#[export] Hint Resolve related_throw related_ret related_answer related_ask related_inspect : platform.

(** Goes through the binds of an action. *)
Ltac related_step :=
  match goal with
  | |- related _ (_ ≫= _) => apply related_bind; [exact _|try by eauto with platform nocore|intros ?]
  | |- related _ (modify _) => apply related_modify; intros ?
  | |- related _ (if ?b then _ else _) => destruct b
  | |- related _ (match ?o with _ => _ end) => destruct o
  | |- related _ _ => by eauto with platform nocore
  end.

(** ** Settings *)

(** [process.env] *)
Abbreviation env := (string -> option string).

(** A positive number of the environment, or its default. *)
Definition positive_setting (name : string) (fallback : Z) (e : env) : result auth_error Z :=
  match e name with
  | None => Ok fallback
  | Some raw =>
      match parseInt10 raw with
      | Some n => if (n <=? 0)%Z then Err (NotConfigured name) else Ok n
      | None => Err (NotConfigured name)
      end
  end.

Definition getJwtExpirySeconds (e : env) : result auth_error Z := positive_setting "OP_JWT_EXPIRY_SECONDS" 900 e.
Definition getRefreshTokenTtlSeconds (e : env) : result auth_error Z := positive_setting "OP_REFRESH_TOKEN_TTL_SECONDS" 604800 e.

Lemma positive_setting_pos name fallback e n : (0 < fallback)%Z -> positive_setting name fallback e = Ok n -> (0 < n)%Z.
Proof.
  intros Hf. unfold positive_setting. destruct (e name) as [raw|]; [|by intros [= <-]].
  destruct (parseInt10 raw) as [k|]; [|done]. destruct (Z.leb_spec k 0); [done|]. by intros [= <-].
Qed.
