(* ===== verification/TokenService.v ===== *)
(** * Access tokens and refresh tokens

    services/auth/src/services/token-service.ts.  Access tokens are JWTs, signed
    and verified by the package jose; refresh tokens are keys in Redis, and each
    use of one replaces it.  The parts of [rotateRefreshToken] and of the answer to
    a replay are operations of their own: other requests come between them. *)

From S2P Require Import Prelude JsString JsValue SqlTable AuthStore.
From stdpp Require Import gmap strings.

(** ** Scopes *)

Definition ALL_SCOPES : list string :=
  ["data:read"; "data:write"; "ontology:read"; "ontology:write"; "pipelines:read"; "pipelines:trigger"; "pipelines:manage";
   "apps:read"; "apps:deploy"; "apps:manage"; "plugins:read"; "plugins:manage"; "users:read"; "users:manage"; "logs:read";
   "logs:export"; "audit:read"; "webhooks:manage"; "execution:read"; "execution:run"; "lineage:read"; "admin"].

Definition PREDEFINED_ROLE_SCOPES : list (string * list string) :=
  [("platform-admin", ["admin"]);
   ("tenant-admin",
     ["data:read"; "data:write"; "ontology:read"; "ontology:write"; "pipelines:manage"; "apps:manage"; "apps:deploy"; "apps:read";
      "execution:read"; "execution:run"; "plugins:read"; "plugins:manage"; "users:read"; "users:manage"; "logs:read"; "logs:export";
      "audit:read"; "webhooks:manage"; "lineage:read"]);
   ("developer",
     ["data:read"; "data:write"; "ontology:read"; "pipelines:manage"; "apps:manage"; "apps:deploy"; "apps:read"; "execution:read";
      "execution:run"; "plugins:read"; "logs:read"; "audit:read"; "lineage:read"]);
   ("editor",
     ["data:read"; "data:write"; "ontology:read"; "pipelines:manage"; "apps:manage"; "apps:read"; "execution:read"; "logs:read";
      "audit:read"; "lineage:read"]);
   ("viewer", ["data:read"; "ontology:read"; "pipelines:read"; "apps:read"; "logs:read"; "lineage:read"])].

(** [new Set] of a list: its elements in the order of their first occurrence. *)
Definition add_to_set (l : list string) (x : string) : list string := if mem x l then l else l ++ [x].

(** [PREDEFINED_ROLE_SCOPES[role]]; what is inherited cannot be iterated over. *)
Definition role_scopes (role : string) : result auth_error (list string) :=
  match jm_get role PREDEFINED_ROLE_SCOPES with
  | Some scopes => Ok scopes
  | None => if mem role ("__proto__" :: object_proto) then Err RoleNotIterable else Ok []
  end.

Definition resolveScopes (roles : list string) : result auth_error (list string) :=
  union ← foldM (fun union role => scopes ← role_scopes role; Ok (fold_left add_to_set scopes union)) [] roles;
  Ok (if mem "admin" union then ALL_SCOPES else union).

(** ** JSON Web Tokens *)

Inductive JwtAlgorithm : Type := HS256 | EdDSA.

#[export] Instance algorithm_eq_dec : EqDecision JwtAlgorithm.
Proof. solve_decision. Defined.

Inductive claim : Type :=
| CStr (s : string)
| CNum (z : Z)
| CBool (b : bool)
| CArr (l : list claim)
| CNull
| COther.                               (* an object *)

Definition payload : Type := list (string * claim).

Inductive jwt_error : Type := JwtExpired | JwtInvalid.

(** The package jose and Node's keys.  [jwt_verify] takes the issuer and the audience
    to insist on; [header_alg] is the [alg] of a token's header, [None] where the
    header cannot be read. *)
Class Jwt : Type := {
  key : Type;
  secret_key : string -> key;
  pem_private : string -> option key;
  pem_public : string -> option key;
  jwt_sign : JwtAlgorithm -> key -> payload -> string;
  jwt_verify : JwtAlgorithm -> key -> option string -> option string -> Z -> string -> result jwt_error payload;
  header_alg : string -> option (option string)
}.

Section Tokens.
Context {jwt : Jwt} (e : env).

Definition getJwtAlgorithm : result auth_error JwtAlgorithm :=
  match e "OP_JWT_ALGORITHM" with
  | None => Ok HS256
  | Some raw =>
      if String.eqb raw "HS256" then Ok HS256 else if String.eqb raw "EdDSA" then Ok EdDSA else Err (NotConfigured "OP_JWT_ALGORITHM")
  end.

(** A variable that must be there and not empty. *)
Definition required (name : string) : result auth_error string :=
  match e name with
  | Some raw => if String.eqb raw "" then Err (NotConfigured name) else Ok raw
  | None => Err (NotConfigured name)
  end.

Definition getJwtSecret : result auth_error key := secret_key <$> required "OP_JWT_SECRET".

Definition loadEdDsaPrivateKey : result auth_error key :=
  raw ← required "OP_JWT_PRIVATE_KEY"; or_throw (NotConfigured "OP_JWT_PRIVATE_KEY") (pem_private raw).

Definition loadEdDsaPublicKey : result auth_error key :=
  raw ← required "OP_JWT_PUBLIC_KEY"; or_throw (NotConfigured "OP_JWT_PUBLIC_KEY") (pem_public raw).

Record UserForToken : Type := {
  uf_id : string;
  uf_tenant : string;
  uf_roles : list string;
  emailVerified : bool;
  uf_email : option string;
  displayName : option string
}.

(** [...(x ? { k: x } : {})] *)
Definition when_truthy (k : string) (x : option string) : payload :=
  match x with Some s => if String.eqb s "" then [] else [(k, CStr s)] | None => [] end.

Definition seconds (now : Z) : Z := (now / 1000)%Z.

Definition access_payload (now expirySeconds : Z) (access_jti : string) (scopes : list string) (user : UserForToken) : payload :=
  [("sub", CStr (uf_id user)); ("tid", CStr (uf_tenant user)); ("roles", CArr (map CStr (uf_roles user)));
   ("scopes", CArr (map CStr scopes)); ("ev", CBool (emailVerified user)); ("unverified", CBool (negb (emailVerified user)));
   ("jti", CStr access_jti)]
  ++ when_truthy "email" (uf_email user) ++ when_truthy "displayName" (displayName user)
  ++ [("iat", CNum (seconds now)); ("exp", CNum (seconds now + expirySeconds)%Z); ("iss", CStr "oneplatform"); ("aud", CStr "oneplatform")].

Definition issueAccessToken (now : Z) (access_jti : string) (user : UserForToken) : result auth_error string :=
  expirySeconds ← getJwtExpirySeconds e;
  algorithm ← getJwtAlgorithm;
  scopes ← resolveScopes (uf_roles user);
  let p := access_payload now expirySeconds access_jti scopes user in
  match algorithm with
  | EdDSA => k ← loadEdDsaPrivateKey; Ok (jwt_sign EdDSA k p)
  | HS256 => k ← getJwtSecret; Ok (jwt_sign HS256 k p)
  end.

(** ** Refresh tokens *)

Definition MONTH : Z := (30 * 24 * 60 * 60)%Z.

(** What a pipeline leaves of a key whose command fails: the other commands run. *)
Definition unless_failed {A} (old : A) (r : result redis_error A) : A := match r with Ok new => new | Err _ => old end.

Definition issueRefreshToken (now : Z) (token : string) (p : RefreshTokenPayload) (w : world) : result auth_error world :=
  ttl ← getRefreshTokenTtlSeconds e;
  let r := redis w in
  rf ← redis_ok (set_ex now token p ttl (refresh r));
  tf ← redis_ok (set_ex now token (familyId p) ttl (token_family r));
  let fs := expire now (familyId p) MONTH (sadd now (familyId p) token (refresh_family r)) in
  let us := expire now (userId p) MONTH (sadd now (userId p) token (user_sessions r)) in
  Ok (on_redis (with_tokens rf tf fs us) w).

(** ** Verification and revocation of access tokens *)

Definition claim_of (k : string) (p : payload) : option claim := jm_get k p.

Record JwtClaims : Type := {
  c_sub : string;
  c_iat : Z;
  c_exp : Z;
  c_jti : string;
  c_tid : string;
  c_roles : list claim;
  c_scopes : list claim;
  c_ev : bool;
  c_unverified : bool
}.

(** The custom claims, where all are there with their types. *)
Definition typed_claims (p : payload) : option JwtClaims :=
  match claim_of "sub" p, claim_of "tid" p, claim_of "roles" p, claim_of "scopes" p, claim_of "ev" p, claim_of "unverified" p,
        claim_of "jti" p, claim_of "iat" p, claim_of "exp" p with
  | Some (CStr sub), Some (CStr tid), Some (CArr roles), Some (CArr scopes), Some (CBool ev), Some (CBool unverified),
    Some (CStr jti), Some (CNum iat), Some (CNum exp) =>
      Some {| c_sub := sub; c_iat := iat; c_exp := exp; c_jti := jti; c_tid := tid; c_roles := roles; c_scopes := scopes;
              c_ev := ev; c_unverified := unverified |}
  | _, _, _, _, _, _, _, _, _ => None
  end.

(** [`revocation:${claims["jti"]}`]; a claim that is no text makes a key that nobody sets. *)
Definition jti_revoked (now : Z) (p : payload) (r : auth_redis) : bool :=
  match claim_of "jti" p with
  | Some (CStr j) => bool_decide (is_Some (get now j (revoked_token r)))
  | _ => false
  end.

Definition user_revoked (now : Z) (p : payload) (r : auth_redis) : bool :=
  match claim_of "sub" p with
  | Some (CStr u) => bool_decide (is_Some (get now u (revoked_user r)))
  | _ => false
  end.

Definition token_algorithm (token : string) : option JwtAlgorithm :=
  match header_alg token with
  | Some (Some alg) => if String.eqb alg "EdDSA" then Some EdDSA else if String.eqb alg "HS256" then Some HS256 else None
  | _ => None
  end.

Definition verifyAccessToken (now : Z) (token : string) (w : world) : option JwtClaims :=
  match token_algorithm token with
  | None => None
  | Some algorithm =>
      match (match algorithm with EdDSA => loadEdDsaPublicKey | HS256 => getJwtSecret end) with
      | Err _ => None
      | Ok k =>
          match jwt_verify algorithm k (Some "oneplatform") (Some "oneplatform") now token with
          | Err _ => None
          | Ok p => if jti_revoked now p (redis w) || user_revoked now p (redis w) then None else typed_claims p
          end
      end
  end.

Definition revokeAccessToken (now : Z) (access_jti : string) (expUnixSeconds : Z) (w : world) : result auth_error world :=
  let remainingSeconds := (expUnixSeconds - seconds now)%Z in
  if (remainingSeconds <=? 0)%Z then Ok w
  else
    expirySeconds ← getJwtExpirySeconds e;
    rt ← redis_ok (set_ex now access_jti tt (Z.min remainingSeconds expirySeconds) (revoked_token (redis w)));
    Ok (on_redis (fun r => with_revoked rt (revoked_user r) r) w).

(** ** Rotation *)

(** Step 1: reads and deletes the token. *)
Definition rotate_consume (now : Z) (oldToken : string) (w : world) : option RefreshTokenPayload * world :=
  let '(found, rf) := getdel now oldToken (refresh (redis w)) in
  (found, on_redis (fun r => with_tokens rf (token_family r) (refresh_family r) (user_sessions r) r) w).

(** Step 2: the session; the seconds that it has left. *)
Definition rotate_check (now : Z) (p : RefreshTokenPayload) (w : world) : result auth_error Z :=
  match find_session (sessionId p) (db w) with
  | None => Err (UnauthorizedError "Session not found.")
  | Some s =>
      if negb (not_revoked s) then Err SessionRevokedError
      else
        let remainingMs := (expires_at s - now)%Z in
        if (remainingMs <=? 0)%Z then Err (UnauthorizedError "Session has expired.") else Ok (remainingMs / 1000)%Z
  end.

Definition with_jti (newJti : string) (p : RefreshTokenPayload) : RefreshTokenPayload :=
  {| userId := userId p; tenantId := tenantId p; sessionId := sessionId p; jti := newJti; familyId := familyId p |}.

(** Steps 3 and 4: the transaction. *)
Definition rotate_commit (now : Z) (newJti : string) (p : RefreshTokenPayload) (w : world) : result auth_error world :=
  d ← update_jti (sessionId p) newJti (Some now) (db w);
  Ok {| db := d; redis := redis w |}.

(** Step 4: the pipeline, and whether one of its commands failed. *)
Definition rotate_write (now remainingSeconds : Z) (oldToken newToken newJti : string) (p : RefreshTokenPayload) (w : world) : bool * world :=
  let r := redis w in
  let rf := set_ex now newToken (with_jti newJti p) remainingSeconds (refresh r) in
  let tf := set_ex now newToken (familyId p) remainingSeconds (token_family r) in
  let fs := expire now (familyId p) MONTH (sadd now (familyId p) newToken (srem now (familyId p) oldToken (refresh_family r))) in
  let us := sadd now (userId p) newToken (srem now (userId p) oldToken (user_sessions r)) in
  (negb (is_ok rf && is_ok tf), on_redis (with_tokens (unless_failed (refresh r) rf) (unless_failed (token_family r) tf) fs us) w).

Definition token_user (u : UserRow) : UserForToken :=
  {| uf_id := u_id u; uf_tenant := u_tenant u; uf_roles := roles u; emailVerified := email_verified u; uf_email := Some (email u);
     displayName := display_name u |}.

(** Step 5. *)
Definition rotate_finish (now : Z) (access_jti : string) (p : RefreshTokenPayload) (w : world) : result auth_error (string * Z) :=
  match find_user (userId p) (db w) with
  | None => Err (UnauthorizedError "User not found.")
  | Some user =>
      accessToken ← issueAccessToken now access_jti (token_user user);
      expiresIn ← getJwtExpirySeconds e;
      Ok (accessToken, expiresIn)
  end.

(** ** Replay *)

(** The family of a token that was used before. *)
Definition replay_family (now : Z) (oldToken : string) (w : world) : option string :=
  match get now oldToken (token_family (redis w)) with
  | Some f => if String.eqb f "" then None else Some f
  | None => None
  end.

(** The number of sessions it revokes. *)
Definition replay_revoke (now : Z) (family : string) (w : world) : nat * world :=
  (length (List.filter (of_family family) (sessions (db w))), on_db (revoke_sessions now "token_replay_detected" (of_family family)) w).

Definition replay_clean (now : Z) (family : string) (w : world) : world :=
  let r := redis w in
  let tokens := elements (smembers now family (refresh_family r)) in
  on_redis (with_tokens (del_all tokens (refresh r)) (del_all tokens (token_family r)) (del family (refresh_family r)) (user_sessions r)) w.

(** Its two halves without another request between them. *)
Definition detectAndHandleReplay (now : Z) (oldToken : string) : act unit :=
  found ← ask (replay_family now oldToken);
  match found with
  | None => mret tt
  | Some family =>
      n ← run (replay_revoke now family);
      modify (replay_clean now family) ≫= fun _ =>
      if (0 <? n)%nat then throw (TokenReplayDetectedError n) else mret tt
  end.

(** The random values of one rotation. *)
Record rotation_values : Type := { newJti : string; newToken : string; accessJti : string }.

Record RotateResult : Type := { accessToken : string; refreshToken : string; expiresIn : Z }.

(** The whole, where no other request comes between its steps and the clock stands still. *)
Definition rotateRefreshToken (now : Z) (v : rotation_values) (oldToken : string) : act RotateResult :=
  found ← run (rotate_consume now oldToken);
  match found with
  | None =>
      detectAndHandleReplay now oldToken ≫= fun _ => throw (UnauthorizedError "Refresh token not found or already used.")
  | Some p =>
      remaining ← inspect (rotate_check now p);
      statement (rotate_commit now (newJti v) p) ≫= fun _ =>
      failed ← run (A := bool) (rotate_write now remaining oldToken (newToken v) (newJti v) p);
      if (failed : bool) then throw RedisFailed
      else
        issued ← inspect (rotate_finish now (accessJti v) p);
        mret {| accessToken := fst issued; refreshToken := newToken v; expiresIn := snd issued |}
  end.

End Tokens.
