(* ===== verification/AuthService.v ===== *)
(** * Registration, login, logout and passwords

    services/auth/src/services/auth-service.ts and password-service.ts.  A login
    is two operations, what it reads and what it writes, with the comparison of
    the password between them; so is a change of password.  Events are left out,
    and so is sending mail, which is the caller's. *)

From S2P Require Import Prelude JsString JsNumber SqlTable AuthStore TokenService.
From stdpp Require Import gmap strings.

(** The package bcrypt: [bcrypt_hash password rounds salt], and the comparison. *)
Class Bcrypt : Type := {
  bcrypt_hash : string -> Z -> string -> string;
  bcrypt_compare : string -> string -> bool
}.

Section Auth.
Context {jwt : Jwt} {bcrypt : Bcrypt} (e : env).

(** ** Passwords *)

Definition MIN_BCRYPT_ROUNDS : Z := 10.
Definition DEFAULT_BCRYPT_ROUNDS : Z := 12.

Definition resolveRounds : result auth_error Z :=
  match e "OP_BCRYPT_ROUNDS" with
  | None => Ok DEFAULT_BCRYPT_ROUNDS
  | Some raw =>
      match parseInt10 raw with
      | None => Err (NotConfigured "OP_BCRYPT_ROUNDS")
      | Some n => if (n <? MIN_BCRYPT_ROUNDS)%Z then Err (NotConfigured "OP_BCRYPT_ROUNDS") else Ok n
      end
  end.

Definition hash (password salt : string) : result auth_error string :=
  rounds ← resolveRounds;
  if String.eqb password "" then Err EmptyPassword else Ok (bcrypt_hash password rounds salt).

(** The answer, and the number of comparisons that bcrypt makes for it. *)
Definition compare (password storedHash : string) : bool * nat :=
  if String.eqb password "" || String.eqb storedHash "" then (false, 0) else (bcrypt_compare password storedHash, 1).

Definition compareDummy (password : string) : bool * nat := (false, 1).

(** ** Settings *)

Definition PASSWORD_HISTORY_DEPTH : nat := 5.

Definition lockout_setting (name : string) (fallback : Z) : Z :=
  match e name with
  | Some raw => match parseInt10 raw with Some n => if (1 <=? n)%Z then n else fallback | None => fallback end
  | None => fallback
  end.

Definition readLockoutMaxAttempts : Z := lockout_setting "OP_LOCKOUT_MAX_ATTEMPTS" 5.
Definition readLockoutDurationMs : Z := (lockout_setting "OP_LOCKOUT_DURATION_MINUTES" 30 * 60 * 1000)%Z.

Definition truthy (o : option string) : bool := match o with Some s => negb (String.eqb s "") | None => false end.

Definition getPurposeTokenSecret : result auth_error key :=
  match e "OP_PURPOSE_TOKEN_SECRET" with
  | Some dedicated => if String.eqb dedicated "" then getJwtSecret e else Ok (secret_key dedicated)
  | None => getJwtSecret e
  end.

Definition requireEmailVerification : bool := bool_decide (e "OP_REQUIRE_EMAIL_VERIFICATION" = Some "true").
Definition getBaseUrl : string := default "http://localhost:3000" (e "OP_BASE_URL").
Definition hasSmtp : bool := truthy (e "OP_SMTP_HOST").
Definition isDev : bool := bool_decide (e "NODE_ENV" = Some "development") || bool_decide (e "NODE_ENV" = Some "test").

(** A token for one purpose, valid for [lifetime] seconds. *)
Definition purpose_token (now lifetime : Z) (user purpose token_jti : string) : result auth_error string :=
  k ← getPurposeTokenSecret;
  Ok (jwt_sign HS256 k
        [("sub", CStr user); ("purpose", CStr purpose); ("jti", CStr token_jti); ("iat", CNum (seconds now));
         ("exp", CNum (seconds now + lifetime)%Z)]).

(** ** Sessions *)

(** The random values of a session and its tokens. *)
Record session_values : Type := {
  sv_session : string; sv_family : string; sv_first_jti : string; sv_access_jti : string; sv_refresh_jti : string; sv_token : string
}.

(** The two tokens of a session that has a row. *)
Definition session_tokens (now : Z) (v : session_values) (user : UserForToken) : act (string * string) :=
  access ← answer (issueAccessToken e now (sv_access_jti v) user);
  statement (issueRefreshToken e now (sv_token v)
    {| userId := uf_id user; tenantId := uf_tenant user; sessionId := sv_session v; jti := sv_refresh_jti v; familyId := sv_family v |}) ≫= fun _ =>
  db_statement (update_jti (sv_session v) (sv_refresh_jti v) None) ≫= fun _ =>
  mret (access, sv_token v).

(** The end of a registration or a login: the session and its tokens. *)
Definition open_session (now : Z) (v : session_values) (user : UserForToken) : act (string * string) :=
  ttl ← answer (getRefreshTokenTtlSeconds e);
  db_statement (insert_session (new_session now (sv_session v) (uf_id user) (uf_tenant user) (sv_first_jti v) (sv_family v) (now + ttl * 1000)%Z)) ≫= fun _ =>
  session_tokens now v user.

(** ** Registration *)

Record RegisterInput : Type := { in_email : string; in_password : string; in_displayName : option string; in_tenant : string }.

Inductive RegisterResult : Type :=
| MustVerify (user : string) (verifyLink : option string)
| Registered (user accessToken refreshToken : string) (expiresIn : Z).

(** What a registration reads. *)
Definition register_check (data : RegisterInput) (w : world) : result auth_error unit :=
  if negb (existsb (fun t => String.eqb (t_id t) (in_tenant data)) (tenants (db w))) then Err TenantNotFoundError
  else match find_email (in_tenant data) (in_email data) (db w) with Some _ => Err ConflictError | None => Ok tt end.

Definition new_user (id tenant mail hashed : string) (verified : bool) (name : option string) : UserRow :=
  {| u_id := id; u_tenant := tenant; email := toLowerCase mail; password_hash := Some hashed; email_verified := verified;
     is_active := true; display_name := name; roles := ["viewer"]; last_login_at := None; failed_login_count := 0;
     locked_until := None; password_history := [] |}.

Definition register_commit (now : Z) (new_id salt verify_jti : string) (v : session_values) (data : RegisterInput) : act RegisterResult :=
  hashed ← answer (hash (in_password data) salt);
  db_statement (insert_user (new_user new_id (in_tenant data) (in_email data) hashed (negb requireEmailVerification) (in_displayName data))) ≫= fun _ =>
  if requireEmailVerification then
    token ← answer (purpose_token now 86400 new_id "email-verify" verify_jti);
    statement (fun w => vg ← redis_ok (set_ex now verify_jti tt 86400 (verify_gate (redis w)));
                        Ok (on_redis (fun r => with_gates (reset_gate r) vg r) w)) ≫= fun _ =>
    if negb hasSmtp && negb isDev then throw (NotConfigured "OP_SMTP_HOST")
    else mret (MustVerify new_id (if hasSmtp || negb isDev then None else Some (getBaseUrl +:+ "/verify-email?token=" +:+ token)))
  else
    tokens ← open_session now v
      {| uf_id := new_id; uf_tenant := in_tenant data; uf_roles := ["viewer"]; emailVerified := true; uf_email := Some (in_email data);
         displayName := in_displayName data |};
    seconds ← answer (getJwtExpirySeconds e);
    mret (Registered new_id (fst tokens) (snd tokens) seconds).

Definition register (now : Z) (new_id salt verify_jti : string) (v : session_values) (data : RegisterInput) : act RegisterResult :=
  inspect (register_check data) ≫= fun _ => register_commit now new_id salt verify_jti v data.

(** ** Login *)

Record LoginInput : Type := { lg_email : string; lg_password : string; lg_tenant : string }.

Inductive login_decision : Type :=
| Refused                          (* nothing of the account is touched *)
| WrongPassword (user : UserRow)
| RightPassword (user : UserRow).

Definition locked (now : Z) (u : UserRow) : bool := match locked_until u with Some t => (now <? t)%Z | None => false end.

(** Steps 1 to 5, on the row that was read, with the number of comparisons made. *)
Definition login_decide (now : Z) (password : string) (found : option UserRow) : login_decision * nat :=
  match found with
  | None => (Refused, snd (compareDummy password))
  | Some user =>
      if locked now user then (Refused, snd (compareDummy password))
      else if negb (is_active user) then (Refused, snd (compareDummy password))
      else
        match password_hash user with
        | None => (Refused, snd (compareDummy password))
        | Some h => let '(valid, n) := compare password h in (if valid then RightPassword user else WrongPassword user, n)
        end
  end.

Definition login_read (now : Z) (data : LoginInput) (w : world) : login_decision * nat :=
  login_decide now (lg_password data) (find_email (lg_tenant data) (lg_email data) (db w)).

Definition set_failures (count : Z) (until : option Z) (u : UserRow) : UserRow :=
  {| u_id := u_id u; u_tenant := u_tenant u; email := email u; password_hash := password_hash u; email_verified := email_verified u;
     is_active := is_active u; display_name := display_name u; roles := roles u; last_login_at := last_login_at u;
     failed_login_count := count; locked_until := until; password_history := password_history u |}.

Definition set_login (now : Z) (u : UserRow) : UserRow :=
  {| u_id := u_id u; u_tenant := u_tenant u; email := email u; password_hash := password_hash u; email_verified := email_verified u;
     is_active := is_active u; display_name := display_name u; roles := roles u; last_login_at := Some now;
     failed_login_count := 0; locked_until := None; password_history := password_history u |}.

(** The failure of the row that was read, written at [now]. *)
Definition record_failure (now : Z) (user : UserRow) (w : world) : world :=
  let newFailCount := (failed_login_count user + 1)%Z in
  let shouldLock := (readLockoutMaxAttempts <=? newFailCount)%Z in
  on_db (update_user (u_id user) (set_failures newFailCount (if shouldLock then Some (now + readLockoutDurationMs)%Z else None))) w.

Record LoginResult : Type := { lr_access : string; lr_refresh : string; lr_expiresIn : Z; lr_user : UserRow }.

Definition invalid_credentials : auth_error := UnauthorizedError "Invalid email or password.".

(** The rest, after the decision. *)
Definition login_finish (now : Z) (v : session_values) (d : login_decision) : act LoginResult :=
  match d with
  | Refused => throw invalid_credentials
  | WrongPassword user => modify (record_failure now user) ≫= fun _ => throw invalid_credentials
  | RightPassword user =>
      modify (on_db (update_user (u_id user) (set_login now))) ≫= fun _ =>
      tokens ← open_session now v (token_user user);
      seconds ← answer (getJwtExpirySeconds e);
      mret {| lr_access := fst tokens; lr_refresh := snd tokens; lr_expiresIn := seconds; lr_user := user |}
  end.

Definition login (now : Z) (v : session_values) (data : LoginInput) : act LoginResult :=
  decision ← ask (fun w => fst (login_read now data w));
  login_finish now v decision.

(** ** Logout *)

(** Deletes the refresh tokens that the set of a user names, and the set. *)
Definition clear_user_tokens (now : Z) (user : string) (w : world) : world :=
  on_redis (fun r =>
    let tokens := elements (smembers now user (user_sessions r)) in
    with_tokens (del_all tokens (refresh r)) (del_all tokens (token_family r)) (refresh_family r) (del user (user_sessions r)) r) w.

Definition forget_token (now : Z) (token user : string) (w : world) : world :=
  on_redis (fun r =>
    with_tokens (del token (refresh r)) (del token (token_family r)) (refresh_family r) (srem now user token (user_sessions r)) r) w.

Definition logout (now : Z) (refreshToken : option string) (accessTokenJti : string) (accessTokenExp : Z) (user : string) (all : bool) : act unit :=
  statement (revokeAccessToken e now accessTokenJti accessTokenExp) ≫= fun _ =>
  if all then
    modify (clear_user_tokens now user) ≫= fun _ =>
    modify (on_db (revoke_sessions now "logout" (of_user user)))
  else
    match refreshToken with
    | None => mret tt
    | Some token =>
        found ← ask (fun w => get now token (refresh (redis w)));
        match found with
        | None => mret tt
        | Some p =>
            modify (forget_token now token (userId p)) ≫= fun _ =>
            modify (on_db (revoke_sessions now "logout" (fun s => String.eqb (se_id s) (sessionId p))))
        end
    end.

(** ** Forgotten passwords *)

Definition insert_reset (now : Z) (reset_jti user : string) (d : auth_db) : result auth_error auth_db :=
  if existsb (fun r => String.eqb (rr_jti r) reset_jti) (reset_tokens d) then Err (ConstraintViolated "password_reset_tokens_pkey")
  else if negb (existsb (fun u => String.eqb (u_id u) user) (users d)) then Err (ConstraintViolated "password_reset_tokens_user_id_fkey")
  else Ok (with_resets (reset_tokens d ++ [{| rr_jti := reset_jti; rr_user := user; rr_expires := (now + 3600 * 1000)%Z; used_at := None |}]) d).

(** The answer is the same message always; with it comes the link, in development. *)
Definition forgotPassword (now : Z) (reset_jti mail tenant : string) : act (option string) :=
  found ← ask (fun w => find_email tenant mail (db w));
  match found with
  | None => mret None
  | Some user =>
      if negb (is_active user) then mret None
      else
        token ← answer (purpose_token now 3600 (u_id user) "password-reset" reset_jti);
        statement (fun w => rg ← redis_ok (set_ex now reset_jti tt 3600 (reset_gate (redis w)));
                            Ok (on_redis (fun r => with_gates rg (verify_gate r) r) w)) ≫= fun _ =>
        db_statement (insert_reset now reset_jti (u_id user)) ≫= fun _ =>
        if hasSmtp then mret None
        else if negb isDev then throw (NotConfigured "OP_SMTP_HOST")
        else mret (Some (getBaseUrl +:+ "/reset-password?token=" +:+ token))
  end.

(** ** Purpose tokens *)

Definition truthy_claim (k : string) (p : payload) : option string :=
  match claim_of k p with Some (CStr s) => if String.eqb s "" then None else Some s | _ => None end.

(** The user and the identifier that a token for [purpose] names; [expired] and
    [invalid] are the errors of the caller.  Every token signed with this key has
    texts in both claims. *)
Definition read_purpose_token (now : Z) (purpose : string) (expired : auth_error) (invalid : string -> auth_error)
    (malformed other_purpose token : string) : result auth_error (string * string) :=
  k ← map_err (fun _ => invalid malformed) getPurposeTokenSecret;
  match jwt_verify HS256 k None None now token with
  | Err JwtExpired => Err expired
  | Err JwtInvalid => Err (invalid malformed)
  | Ok p =>
      match claim_of "purpose" p with
      | Some (CStr q) =>
          if negb (String.eqb q purpose) then Err (invalid other_purpose)
          else match truthy_claim "sub" p, truthy_claim "jti" p with
               | Some user, Some j => Ok (user, j)
               | _, _ => Err (invalid "Token is missing required claims.")
               end
      | _ => Err (invalid other_purpose)
      end
  end.

(** The script that lets one request through. *)
Definition pass_reset_gate (now : Z) (reset_jti : string) (w : world) : option unit * world :=
  let '(found, rg) := getdel now reset_jti (reset_gate (redis w)) in (found, on_redis (fun r => with_gates rg (verify_gate r) r) w).
Definition pass_verify_gate (now : Z) (verify_jti : string) (w : world) : option unit * world :=
  let '(found, vg) := getdel now verify_jti (verify_gate (redis w)) in (found, on_redis (fun r => with_gates (reset_gate r) vg r) w).

(** ** Changing a password *)

(** The hashes that a new password may not match. *)
Definition recent_hashes (current : string) (history : list string) : list string :=
  current :: take (PASSWORD_HISTORY_DEPTH - 1) history.

Definition updated_history (current : option string) (history : list string) : list string :=
  take PASSWORD_HISTORY_DEPTH (option_list current ++ history).

Definition set_password (newHash : string) (history : list string) (u : UserRow) : UserRow :=
  {| u_id := u_id u; u_tenant := u_tenant u; email := email u; password_hash := Some newHash; email_verified := email_verified u;
     is_active := is_active u; display_name := display_name u; roles := roles u; last_login_at := last_login_at u;
     failed_login_count := failed_login_count u; locked_until := locked_until u; password_history := history |}.

(** The new hash and history for the row [u], or the refusal. *)
Definition password_change (newPassword salt : string) (u : UserRow) : result auth_error (string * list string) :=
  newHash ← hash newPassword salt;
  let reused := match password_hash u with
                | Some current => existsb (fun h => fst (compare newPassword h)) (recent_hashes current (password_history u))
                | None => false
                end in
  if reused then Err PasswordReuseError else Ok (newHash, updated_history (password_hash u) (password_history u)).

(** The transaction of [resetPassword] ([reset_jti] is given) and [changePassword]. *)
Definition password_commit (now : Z) (reason user newHash : string) (history : list string) (reset_jti : option string) (d : auth_db) : auth_db :=
  let d := update_user user (set_password newHash history) d in
  let d := match reset_jti with
           | Some j => with_resets (update_where (fun r => String.eqb (rr_jti r) j)
                         (fun r => {| rr_jti := rr_jti r; rr_user := rr_user r; rr_expires := rr_expires r; used_at := Some now |}) (reset_tokens d)) d
           | None => d
           end in
  revoke_sessions now reason (of_user user) d.

(** What follows the transaction: the tokens of the user in Redis, and the key that
    refuses the user's access tokens. *)
Definition revoke_user (now : Z) (user : string) : act unit :=
  modify (clear_user_tokens now user) ≫= fun _ =>
  expiry ← answer (getJwtExpirySeconds e);
  statement (fun w => ru ← redis_ok (set_ex now user tt expiry (revoked_user (redis w)));
                      Ok (on_redis (fun r => with_revoked (revoked_token r) ru r) w)).

Definition password_write (now : Z) (reason user newHash : string) (history : list string) (reset_jti : option string) : act unit :=
  modify (on_db (password_commit now reason user newHash history reset_jti)) ≫= fun _ => revoke_user now user.

(** [resetPassword] up to the transaction: what it will write. *)
Definition reset_read (now : Z) (token newPassword salt : string) : act (string * string * (string * list string)) :=
  claims ← answer (read_purpose_token now "password-reset" ResetTokenExpiredError ResetTokenInvalidError
    "Password reset token is invalid or malformed." "Token was not issued for password reset." token);
  passed ← run (A := option unit) (pass_reset_gate now (snd claims));
  match passed with
  | None => throw ResetTokenUsedError
  | Some _ =>
      found ← ask (fun w => find_user (fst claims) (db w));
      match found with
      | None => throw (ResetTokenInvalidError "User associated with this reset token no longer exists.")
      | Some u => change ← answer (password_change newPassword salt u); mret (claims, change)
      end
  end.

Definition resetPassword (now : Z) (salt token newPassword : string) : act unit :=
  r ← reset_read now token newPassword salt;
  let '(user, reset_jti, (newHash, history)) := r in
  password_write now "password_reset" user newHash history (Some reset_jti).

Definition change_read (user currentPassword newPassword salt : string) (w : world) : result auth_error (string * list string) :=
  match find_user user (db w) with
  | None => Err (UnauthorizedError "User not found.")
  | Some u =>
      match password_hash u with
      | None => Err (UnauthorizedError "Account does not use password authentication.")
      | Some h =>
          if negb (fst (compare currentPassword h)) then Err (UnauthorizedError "Current password is incorrect.")
          else password_change newPassword salt u
      end
  end.

Definition changePassword (now : Z) (salt user currentPassword newPassword : string) : act unit :=
  change ← inspect (change_read user currentPassword newPassword salt);
  password_write now "password_changed" user (fst change) (snd change) None.

(** ** Verification of an address *)

Definition set_verified (u : UserRow) : UserRow :=
  {| u_id := u_id u; u_tenant := u_tenant u; email := email u; password_hash := password_hash u; email_verified := true;
     is_active := is_active u; display_name := display_name u; roles := roles u; last_login_at := last_login_at u;
     failed_login_count := failed_login_count u; locked_until := locked_until u; password_history := password_history u |}.

Definition verifyEmail (now : Z) (token : string) : act string :=
  claims ← answer (read_purpose_token now "email-verify" VerifyTokenExpiredError VerifyTokenInvalidError
    "Email verification token is invalid or malformed." "Token was not issued for email verification." token);
  passed ← run (A := option unit) (pass_verify_gate now (snd claims));
  match passed with
  | None => throw VerifyTokenUsedError
  | Some _ =>
      found ← ask (fun w => find_user (fst claims) (db w));
      match found with
      | None => throw (VerifyTokenInvalidError "User not found.")
      | Some u =>
          if email_verified u then throw EmailAlreadyVerifiedError
          else modify (on_db (update_user (fst claims) set_verified)) ≫= fun _ => mret (fst claims)
      end
  end.

End Auth.
