(* ===== verification/LockoutSpec.v ===== *)
(** * What a login gives away, and how often a password can be guessed

    The logins of AuthService on one account: every failure looks the same, and
    attempts that follow one another are held to a bound.  Attempts that overlap
    are not. *)

From S2P Require Import Prelude JsString JsNumber SqlTable AuthStore TokenService AuthService.
From stdpp Require Import gmap strings.

Lemma find_update_where {A} (p q : A -> bool) f l x :
  (forall y, p (f y) = p y) -> find_row p l = Some x -> q x = true -> find_row p (update_where q f l) = Some (f x).
Proof.
  unfold find_row, update_where. intros Hp. induction l as [|y l IH]; cbn [List.filter map head]; [done|].
  destruct (p y) eqn:Ep.
  - cbn [head]. intros [= ->] ->. cbn [List.filter]. by rewrite Hp, Ep.
  - intros Hf Hq. destruct (q y); cbn [List.filter]; rewrite ?Hp, Ep; by apply IH.
Qed.

(** ** Every failure looks the same *)

Section Lockout.
Context {jwt : Jwt} {bcrypt : Bcrypt} (e : env).

(** The row that the logins of [data] read. *)
Definition account (data : LoginInput) (w : world) : option UserRow := find_email (lg_tenant data) (lg_email data) (db w).

Lemma account_failure data w u now : account data w = Some u ->
  forall user, u_id user = u_id u ->
  account data (record_failure e now user w) =
    Some (set_failures (failed_login_count user + 1)
            (if (readLockoutMaxAttempts e <=? failed_login_count user + 1)%Z then Some (now + readLockoutDurationMs e)%Z else None) u).
Proof.
  intros Hu user Hid. unfold account, find_email, record_failure, on_db, update_user, with_users in *. cbn [db users].
  apply (find_update_where (by_email _ _) _ (set_failures _ _)); [done|done|]. cbn beta. rewrite Hid. apply String.eqb_refl.
Qed.

(** ** The bound on guesses *)

Record attempt : Type := { at_time : Z; at_values : session_values; at_password : string }.

Definition try_login (data : LoginInput) (a : attempt) : act LoginResult :=
  login e (at_time a) (at_values a) {| lg_email := lg_email data; lg_password := at_password a; lg_tenant := lg_tenant data |}.

Definition decision (data : LoginInput) (a : attempt) (w : world) : login_decision :=
  fst (login_decide (at_time a) (at_password a) (account data w)).

(** The attempts one after the other, and how many of them test their password
    against the account's. *)
Fixpoint run_attempts (data : LoginInput) (ats : list attempt) (w : world) : list login_decision * world :=
  match ats with
  | [] => ([], w)
  | a :: ats =>
      let '(ds, w') := run_attempts data ats (snd (try_login data a w)) in (decision data a w :: ds, w')
  end.

Definition is_guess (d : login_decision) : bool := match d with Refused => false | _ => true end.
Definition is_right (d : login_decision) : bool := match d with RightPassword _ => true | _ => false end.
Definition guesses (ds : list login_decision) : nat := length (List.filter is_guess ds).

Lemma login_world data a w : snd (try_login data a w) = snd (login_finish e (at_time a) (at_values a) (decision data a w) w).
Proof. done. Qed.

(** A wrong guess on the account [u]. *)
Lemma wrong_step data a w u : account data w = Some u -> decision data a w = WrongPassword u ->
  account data (snd (try_login data a w)) =
    Some (set_failures (failed_login_count u + 1)
            (if (readLockoutMaxAttempts e <=? failed_login_count u + 1)%Z then Some (at_time a + readLockoutDurationMs e)%Z else None) u).
Proof. intros Hu Hd. rewrite login_world, Hd. cbn. by apply account_failure. Qed.

Lemma refused_step data a w : decision data a w = Refused -> snd (try_login data a w) = w.
Proof. intros Hd. by rewrite login_world, Hd. Qed.

(** What a decision says of the row. *)
Lemma decision_spec data a w u : account data w = Some u ->
  match decision data a w with
  | Refused => True
  | WrongPassword v | RightPassword v => v = u /\ locked (at_time a) u = false
  end.
Proof.
  intros Hu. unfold decision, login_decide. rewrite Hu.
  destruct (locked (at_time a) u); [done|]. destruct (is_active u); [|done]. cbn. destruct (password_hash u); [|done].
  destruct (compare _ _) as [[] ?]; done.
Qed.

Definition times (ats : list attempt) : list Z := map at_time ats.

(** The times ascend from [t]; the last of them. *)
Fixpoint ascending (t : Z) (ats : list attempt) : Prop :=
  match ats with [] => True | a :: ats => (t <= at_time a)%Z /\ ascending (at_time a) ats end.

Fixpoint last_time (t : Z) (ats : list attempt) : Z :=
  match ats with [] => t | a :: ats => last_time (at_time a) ats end.

Lemma ascending_last t ats : ascending t ats -> (t <= last_time t ats)%Z.
Proof. revert t. induction ats as [|a ats IH]; cbn; [lia|]. intros t [H1 H2]. specialize (IH _ H2). lia. Qed.

Lemma ascending_weaken t t' ats : (t' <= t)%Z -> ascending t ats -> ascending t' ats.
Proof. destruct ats as [|a ats]; cbn; [done|]. intros H [H1 H2]. split; [lia|done]. Qed.

Lemma lockout_setting_pos name fallback : (1 <= fallback)%Z -> (1 <= lockout_setting e name fallback)%Z.
Proof.
  intros Hf. unfold lockout_setting. destruct (e name) as [raw|]; [|done]. destruct (parseInt10 raw) as [n|]; [|done].
  destruct (Z.leb_spec 1 n); done.
Qed.

Lemma duration_pos : (0 < readLockoutDurationMs e)%Z.
Proof. unfold readLockoutDurationMs. pose proof (lockout_setting_pos "OP_LOCKOUT_DURATION_MINUTES" 30 ltac:(lia)). lia. Qed.

Lemma attempts_pos : (1 <= readLockoutMaxAttempts e)%Z.
Proof. by apply lockout_setting_pos. Qed.

(** Once the account has been locked, every further guess is a lock apart. *)
Lemma guesses_locked data ats t last w u :
  account data w = Some u -> ascending last ats -> (t <= last)%Z ->
  (readLockoutMaxAttempts e <= failed_login_count u)%Z -> locked_until u = Some (t + readLockoutDurationMs e)%Z ->
  forallb (fun d => negb (is_right d)) (run_attempts data ats w).1 = true ->
  (Z.of_nat (guesses (run_attempts data ats w).1) * readLockoutDurationMs e <= last_time last ats - t)%Z.
Proof.
  pose proof duration_pos as HD. revert t last w u. induction ats as [|a ats IH]; intros t last w u Hu Hasc Ht Hc Hl; cbn [run_attempts].
  - cbn. lia.
  - destruct Hasc as [Ha Hasc]. cbn [last_time].
    pose proof (decision_spec data a w u Hu) as Hd. destruct (decision data a w) as [|v|v] eqn:Ed.
    + rewrite (refused_step _ _ _ Ed). destruct (run_attempts data ats w) as [ds w'] eqn:Er. cbn [fst forallb is_right]. intros Hr.
      specialize (IH t (at_time a) w u Hu Hasc ltac:(lia) Hc Hl). rewrite Er in IH. cbn [fst] in IH. apply IH. exact Hr.
    + destruct Hd as [-> Hnl]. pose proof (wrong_step data a w u Hu Ed) as Hw.
      rewrite (proj2 (Z.leb_le _ _)) in Hw by lia.
      specialize (IH (at_time a) (at_time a) _ _ Hw Hasc ltac:(lia)). cbn [failed_login_count locked_until set_failures] in IH.
      specialize (IH ltac:(lia) eq_refl). destruct (run_attempts data ats _) as [ds w'] eqn:Er. cbn [fst forallb is_right] in *. intros Hr.
      specialize (IH Hr). unfold locked in Hnl. rewrite Hl in Hnl. apply Z.ltb_ge in Hnl.
      change (guesses (WrongPassword u :: ds)) with (S (guesses ds)). lia.
    + destruct (run_attempts data ats _) as [ds w'] eqn:Er. by cbn.
Qed.

Lemma guesses_open data ats last w u :
  account data w = Some u -> ascending last ats -> (failed_login_count u < readLockoutMaxAttempts e)%Z ->
  forallb (fun d => negb (is_right d)) (run_attempts data ats w).1 = true ->
  (Z.of_nat (guesses (run_attempts data ats w).1)
     <= readLockoutMaxAttempts e - failed_login_count u + (last_time last ats - last) / readLockoutDurationMs e)%Z.
Proof.
  pose proof duration_pos as HD. revert last w u. induction ats as [|a ats IH]; intros last w u Hu Hasc Hc; cbn [run_attempts].
  - cbn. rewrite Z.sub_diag, Z.div_0_l by lia. lia.
  - destruct Hasc as [Ha Hasc]. cbn [last_time]. pose proof (ascending_last _ _ Hasc) as Hlt.
    assert (Hmono : ((last_time (at_time a) ats - at_time a) / readLockoutDurationMs e <= (last_time (at_time a) ats - last) / readLockoutDurationMs e)%Z)
      by (apply Z.div_le_mono; lia).
    pose proof (decision_spec data a w u Hu) as Hd. destruct (decision data a w) as [|v|v] eqn:Ed.
    + rewrite (refused_step _ _ _ Ed). specialize (IH (at_time a) w u Hu Hasc Hc).
      destruct (run_attempts data ats w) as [ds w'] eqn:Er. cbn [fst forallb is_right] in *. intros Hr.
      specialize (IH Hr). change (guesses (Refused :: ds)) with (guesses ds). lia.
    + destruct Hd as [-> Hnl]. pose proof (wrong_step data a w u Hu Ed) as Hw.
      destruct (Z.leb_spec (readLockoutMaxAttempts e) (failed_login_count u + 1)) as [Hlock|Hopen].
      * pose proof (guesses_locked data ats (at_time a) (at_time a) _ _ Hw Hasc ltac:(lia)) as Hg.
        cbn [failed_login_count locked_until set_failures] in Hg. specialize (Hg ltac:(lia) eq_refl).
        destruct (run_attempts data ats _) as [ds w'] eqn:Er. cbn [fst forallb is_right] in *. intros Hr. specialize (Hg Hr).
        change (guesses (WrongPassword u :: ds)) with (S (guesses ds)).
        assert (Z.of_nat (guesses ds) <= (last_time (at_time a) ats - at_time a) / readLockoutDurationMs e)%Z by (apply Z.div_le_lower_bound; lia).
        lia.
      * specialize (IH (at_time a) _ _ Hw Hasc). cbn [failed_login_count set_failures] in IH. specialize (IH ltac:(lia)).
        destruct (run_attempts data ats _) as [ds w'] eqn:Er. cbn [fst forallb is_right] in *. intros Hr. specialize (IH Hr).
        change (guesses (WrongPassword u :: ds)) with (S (guesses ds)). lia.
    + destruct (run_attempts data ats _) as [ds w'] eqn:Er. by cbn.
Qed.

(** C20: Attempts on one account that follow one another, none with the right password,
    test at most the configured number of passwords, and then one for each time that
    a lock lasts. *)
Theorem guesses_bounded data ats t w u :
  account data w = Some u -> failed_login_count u = 0%Z -> ascending t ats ->
  forallb (fun d => negb (is_right d)) (run_attempts data ats w).1 = true ->
  (Z.of_nat (guesses (run_attempts data ats w).1)
     <= readLockoutMaxAttempts e + (last_time t ats - t) / readLockoutDurationMs e)%Z.
Proof.
  intros Hu Hc Hasc Hr. pose proof attempts_pos. pose proof (guesses_open data ats t w u Hu Hasc ltac:(lia) Hr). lia.
Qed.

(** ** Attempts that overlap *)

(** The writes of attempts that all read the world [w0]. *)
Definition finish_all (data : LoginInput) (w0 : world) (ats : list attempt) (w : world) : world :=
  fold_left (fun w a => snd (login_finish e (at_time a) (at_values a) (decision data a w0) w)) ats w.

Lemma finish_all_account data w0 u ats : Forall (fun a => decision data a w0 = WrongPassword u) ats ->
  forall w row, account data w = Some row -> u_id row = u_id u ->
  account data (finish_all data w0 ats w) =
    match last ats with
    | None => Some row
    | Some a => Some (set_failures (failed_login_count u + 1)
                  (if (readLockoutMaxAttempts e <=? failed_login_count u + 1)%Z then Some (at_time a + readLockoutDurationMs e)%Z else None) row)
    end.
Proof.
  unfold finish_all. induction 1 as [|a ats Hd _ IH]; intros w row Hw Hid; [done|]. cbn [fold_left].
  rewrite Hd. etransitivity; [apply (IH _ _ (account_failure data w row (at_time a) Hw u (eq_sym Hid)) Hid)|].
  destruct ats as [|b ats]; [done|]. rewrite last_cons_cons. destruct (last (b :: ats)) as [c|] eqn:E; [done|by apply last_None in E].
Qed.

(** Wrong passwords that are all tested before the first failure is recorded count
    as one failure, however many they are. *)
Theorem overlapping_guesses data ats w u :
  account data w = Some u -> ats <> [] -> Forall (fun a => decision data a w = WrongPassword u) ats ->
  (failed_login_count u + 1 < readLockoutMaxAttempts e)%Z ->
  exists row, account data (finish_all data w ats w) = Some row /\ failed_login_count row = (failed_login_count u + 1)%Z /\ locked_until row = None.
Proof.
  intros Hu Hne Hd Hc. pose proof (finish_all_account data w u ats Hd w u Hu eq_refl) as H.
  destruct (last ats) as [a|] eqn:El; [|by apply last_None in El].
  rewrite (proj2 (Z.leb_gt _ _)) in H by lia. eexists. by split_and!.
Qed.

(** Each login makes one comparison of bcrypt and, unless it has the right password
    of an active account that is not locked, ends with the same error. *)
Theorem failures_uniform now v data w :
  lg_password data <> "" ->
  (forall u h, account data w = Some u -> password_hash u = Some h -> h <> "") ->
  snd (login_read now data w) = 1 /\
  match fst (login_read now data w) with
  | RightPassword u =>
      account data w = Some u /\ locked now u = false /\ is_active u = true /\
      exists h, password_hash u = Some h /\ bcrypt_compare (lg_password data) h = true
  | _ => fst (login e now v data w) = Err invalid_credentials
  end.
Proof.
  intros Hp Hh.
  change (login e now v data w) with (login_finish e now v (fst (login_read now data w)) w).
  change (login_read now data w) with (login_decide now (lg_password data) (account data w)). unfold login_decide.
  destruct (account data w) as [u|] eqn:Hu; [|done]. destruct (locked now u) eqn:Hl; [done|].
  destruct (is_active u) eqn:Ha; [|done]. cbn [negb]. destruct (password_hash u) as [h|] eqn:Hpw; [|done].
  unfold compare. rewrite (proj2 (String.eqb_neq _ _) Hp), (proj2 (String.eqb_neq _ _) (Hh u h eq_refl Hpw)). cbn [orb].
  destruct (bcrypt_compare (lg_password data) h) eqn:Ec; [|done]. split; [done|]. cbn [fst]. split_and!; eauto.
Qed.
End Lockout.
