(* ===== verification/AuthSystem.v ===== *)
(** * The authentication service under many requests

    The requests of AuthService and TokenService as steps between which other
    requests come, and what a step may do to the sessions and their tokens.  The last
    part states what is relied on of jose and bcrypt, with a model of both. *)

From S2P Require Import Prelude JsString JsValue SqlTable AuthStore TokenService AuthService.
From Stdlib Require Import Ascii.
From stdpp Require Import countable gmap strings.

(** ** Steps *)

Section System.
Context {jwt : Jwt} {bcrypt : Bcrypt} (e : env).

Inductive rotation_state : Type := Consumed | Checked (remaining : Z) | Committed (remaining : Z) (newJti : string).

(** What a request holds between two of its steps. *)
Inductive pending : Type :=
| LoggingIn (d : login_decision)
| Registering (data : RegisterInput)
| Changing (reason user newHash : string) (history : list string) (reset_jti : option string)
| Rotating (old : string) (p : RefreshTokenPayload) (st : rotation_state)
| Replaying (family : string).

Record sys : Type := { at_world : world; clock : Z; requests : list pending }.

(** The families that a world, or a request under way, knows. *)
Definition family_known (f : string) (s : sys) : Prop :=
  (exists r, r ∈ sessions (db (at_world s)) /\ family_id r = f).

(** Random values are new. *)
Definition fresh_session (v : session_values) (s : sys) : Prop :=
  ~ family_known (sv_family v) s /\ refresh (redis (at_world s)) !! sv_token v = None.

Inductive step : sys -> sys -> Prop :=
| start_login s now data : (clock s <= now)%Z ->
    step s {| at_world := at_world s; clock := now; requests := requests s ++ [LoggingIn (fst (login_read now data (at_world s)))] |}
| finish_login s now v d l1 l2 : (clock s <= now)%Z -> requests s = l1 ++ LoggingIn d :: l2 -> fresh_session v s ->
    step s {| at_world := snd (login_finish e now v d (at_world s)); clock := now; requests := l1 ++ l2 |}
| start_register s now data : (clock s <= now)%Z -> register_check data (at_world s) = Ok tt ->
    step s {| at_world := at_world s; clock := now; requests := requests s ++ [Registering data] |}
| finish_register s now new_id salt verify_jti v data l1 l2 : (clock s <= now)%Z -> requests s = l1 ++ Registering data :: l2 -> fresh_session v s ->
    step s {| at_world := snd (register_commit e now new_id salt verify_jti v data (at_world s)); clock := now; requests := l1 ++ l2 |}
| do_logout s now token access_jti access_exp user all : (clock s <= now)%Z ->
    step s {| at_world := snd (logout e now token access_jti access_exp user all (at_world s)); clock := now; requests := requests s |}
| do_forgot s now reset_jti mail tenant : (clock s <= now)%Z ->
    existsb (fun r => String.eqb (rr_jti r) reset_jti) (reset_tokens (db (at_world s))) = false ->
    step s {| at_world := snd (forgotPassword e now reset_jti mail tenant (at_world s)); clock := now; requests := requests s |}
| do_verify s now token : (clock s <= now)%Z ->
    step s {| at_world := snd (verifyEmail e now token (at_world s)); clock := now; requests := requests s |}
| start_reset s now token newPassword salt w' user reset_jti newHash history : (clock s <= now)%Z ->
    reset_read e now token newPassword salt (at_world s) = (Ok (user, reset_jti, (newHash, history)), w') ->
    step s {| at_world := w'; clock := now; requests := requests s ++ [Changing "password_reset" user newHash history (Some reset_jti)] |}
| refuse_reset s now token newPassword salt w' err : (clock s <= now)%Z ->
    reset_read e now token newPassword salt (at_world s) = (Err err, w') ->
    step s {| at_world := w'; clock := now; requests := requests s |}
| start_change s now user current newPassword salt newHash history : (clock s <= now)%Z ->
    change_read e user current newPassword salt (at_world s) = Ok (newHash, history) ->
    step s {| at_world := at_world s; clock := now; requests := requests s ++ [Changing "password_changed" user newHash history None] |}
| finish_change s now reason user newHash history reset_jti l1 l2 : (clock s <= now)%Z ->
    requests s = l1 ++ Changing reason user newHash history reset_jti :: l2 ->
    step s {| at_world := snd (password_write e now reason user newHash history reset_jti (at_world s)); clock := now; requests := l1 ++ l2 |}
| start_rotation s now old p w' : (clock s <= now)%Z -> rotate_consume now old (at_world s) = (Some p, w') ->
    step s {| at_world := w'; clock := now; requests := requests s ++ [Rotating old p Consumed] |}
| check_rotation s now old p remaining l1 l2 : (clock s <= now)%Z -> requests s = l1 ++ Rotating old p Consumed :: l2 ->
    rotate_check now p (at_world s) = Ok remaining ->
    step s {| at_world := at_world s; clock := now; requests := l1 ++ Rotating old p (Checked remaining) :: l2 |}
| commit_rotation s now old p remaining newJti w' l1 l2 : (clock s <= now)%Z -> requests s = l1 ++ Rotating old p (Checked remaining) :: l2 ->
    rotate_commit now newJti p (at_world s) = Ok w' ->
    step s {| at_world := w'; clock := now; requests := l1 ++ Rotating old p (Committed remaining newJti) :: l2 |}
| write_rotation s now old p remaining newJti newToken l1 l2 : (clock s <= now)%Z ->
    requests s = l1 ++ Rotating old p (Committed remaining newJti) :: l2 -> refresh (redis (at_world s)) !! newToken = None ->
    step s {| at_world := snd (rotate_write now remaining old newToken newJti p (at_world s)); clock := now; requests := l1 ++ l2 |}
| start_replay s now old family : (clock s <= now)%Z -> fst (rotate_consume now old (at_world s)) = None ->
    replay_family now old (at_world s) = Some family ->
    step s {| at_world := snd (replay_revoke now family (at_world s)); clock := now; requests := requests s ++ [Replaying family] |}
| finish_replay s now family l1 l2 : (clock s <= now)%Z -> requests s = l1 ++ Replaying family :: l2 ->
    step s {| at_world := replay_clean now family (at_world s); clock := now; requests := l1 ++ l2 |}
| drop_request s r l1 l2 : requests s = l1 ++ r :: l2 ->    (* a request that fails, or whose process stops *)
    step s {| at_world := at_world s; clock := clock s; requests := l1 ++ l2 |}.

Inductive steps : sys -> sys -> Prop :=
| steps_refl s : steps s s
| steps_trans s1 s2 s3 : steps s1 s2 -> step s2 s3 -> steps s1 s3.

(** A deployment without sessions. *)
Definition initial (s : sys) : Prop :=
  sessions (db (at_world s)) = [] /\ refresh (redis (at_world s)) = ∅ /\ token_family (redis (at_world s)) = ∅
  /\ revoked_user (redis (at_world s)) = ∅ /\ reset_gate (redis (at_world s)) = ∅ /\ requests s = [].

Definition reachable (s : sys) : Prop := exists s0, initial s0 /\ steps s0 s.

(** ** What most operations may do: end things *)

(** A session's row keeps what it is about, and does not come back to life. *)
Record keeps (r r' : SessionRow) : Prop := {
  keeps_id : se_id r' = se_id r;
  keeps_user : se_user r' = se_user r;
  keeps_family : family_id r' = family_id r;
  keeps_revoked : not_revoked r = false -> not_revoked r' = false
}.

Record ends (now : Z) (w w' : world) : Prop := {
  ends_sessions : Forall2 keeps (sessions (db w)) (sessions (db w'));
  ends_refresh : refresh (redis w') ⊆ refresh (redis w);
  ends_family : token_family (redis w') ⊆ token_family (redis w);
  ends_user u x : revoked_user (redis w) !! u = Some x ->
    exists x', revoked_user (redis w') !! u = Some x' /\
      (x' = x \/ exists s, getJwtExpirySeconds e = Ok s /\ expires x' = Some (now + s * 1000)%Z);
  ends_new u x' : revoked_user (redis w') !! u = Some x' -> revoked_user (redis w) !! u = Some x' \/
      exists s, getJwtExpirySeconds e = Ok s /\ expires x' = Some (now + s * 1000)%Z
}.

Lemma keeps_refl r : keeps r r.
Proof. by split. Qed.

Lemma keeps_trans r1 r2 r3 : keeps r1 r2 -> keeps r2 r3 -> keeps r1 r3.
Proof. intros [] []. split; congruence || auto. Qed.

Lemma all_keep l : Forall2 keeps l l.
Proof. induction l; constructor; [apply keeps_refl|done]. Qed.

Lemma ends_refl now w : ends now w w.
Proof. split; [apply all_keep|done|done|by eauto|by eauto]. Qed.

Lemma ends_trans now w1 w2 w3 : ends now w1 w2 -> ends now w2 w3 -> ends now w1 w3.
Proof.
  intros [A1 A2 A3 A4 A5] [B1 B2 B3 B4 B5]. split.
  - revert A1 B1. clear. revert w2 w3. intros w2 w3. generalize (sessions (db w1)) (sessions (db w2)) (sessions (db w3)).
    intros l1 l2 l3 H. revert l3. induction H as [|x y l1 l2 Hxy H IH]; intros l3 H3; inversion H3; subst; constructor; [by eapply keeps_trans|auto].
  - by etransitivity.
  - by etransitivity.
  - intros u x Hx. destruct (A4 u x Hx) as (x2 & Hx2 & Hc). destruct (B4 u x2 Hx2) as (x3 & Hx3 & Hc3).
    exists x3. split; [done|]. destruct Hc3 as [->|?]; [done|by right].
  - intros u x Hx. destruct (B5 u x Hx) as [H2|?]; [|by right]. by apply A5.
Qed.

#[export] Instance ends_preorder now : PreOrder (ends now).
Proof. split; [intros w; apply ends_refl|intros w1 w2 w3; apply ends_trans]. Qed.

(** An action that only ends things. *)
Abbreviation ending now m := (related (ends now) m).

(** Changes that leave sessions and tokens alone. *)
Definition apart (w w' : world) : Prop :=
  sessions (db w') = sessions (db w) /\ refresh (redis w') = refresh (redis w) /\ token_family (redis w') = token_family (redis w)
  /\ revoked_user (redis w') = revoked_user (redis w).

Lemma ends_apart now w w' : apart w w' -> ends now w w'.
Proof. intros (H1 & H2 & H3 & H4). split; rewrite ?H1, ?H2, ?H3, ?H4; eauto using all_keep. Qed.

Lemma all_keep_update p f l : (forall r, p r = true -> keeps r (f r)) -> Forall2 keeps l (update_where p f l).
Proof. intros H. induction l as [|r l IH]; cbn; constructor; [|done]. destruct (p r) eqn:E; [by apply H|apply keeps_refl]. Qed.

Lemma ends_rows now w w' p f :
  (forall r, p r = true -> keeps r (f r)) -> sessions (db w') = update_where p f (sessions (db w)) -> redis w' = redis w -> ends now w w'.
Proof. intros Hf Hs Hr. split; rewrite ?Hs, ?Hr; eauto. by apply all_keep_update. Qed.

Lemma keeps_revoke now reason r : keeps r (revoke now reason r).
Proof. by split. Qed.
Lemma keeps_jti j used r : keeps r (set_jti j used r).
Proof. by split. Qed.

Lemma ends_revoke now reason p w : ends now w (on_db (revoke_sessions now reason p) w).
Proof. eapply ends_rows; [intros r _; apply (keeps_revoke now reason)|reflexivity|reflexivity]. Qed.

Lemma del_subseteq {A} k (m : keys A) : del k m ⊆ m.
Proof. apply delete_subseteq. Qed.
Lemma del_all_subseteq {A} ks (m : keys A) : del_all ks m ⊆ m.
Proof.
  unfold del_all. revert m. induction ks as [|k ks IH]; intros m; cbn [fold_left]; [done|].
  etransitivity; [apply IH|apply del_subseteq].
Qed.
Lemma getdel_subseteq {A} now k (m : keys A) : snd (getdel now k m) ⊆ m.
Proof. unfold getdel. destruct (get now k m); cbn; [apply del_subseteq|done]. Qed.

Lemma ends_tokens now w rf tf fs us : rf ⊆ refresh (redis w) -> tf ⊆ token_family (redis w) -> ends now w (on_redis (with_tokens rf tf fs us) w).
Proof. intros H1 H2. split; cbn; eauto using all_keep. Qed.

Lemma ends_clear now user w : ends now w (clear_user_tokens now user w).
Proof. apply ends_tokens; apply del_all_subseteq. Qed.
Lemma ends_forget now token user w : ends now w (forget_token now token user w).
Proof. apply ends_tokens; apply del_subseteq. Qed.
Lemma ends_clean now family w : ends now w (replay_clean now family w).
Proof. apply ends_tokens; apply del_all_subseteq. Qed.
Lemma ends_consume now old w : ends now w (snd (rotate_consume now old w)).
Proof.
  unfold rotate_consume. pose proof (getdel_subseteq now old (refresh (redis w))) as H.
  destruct (getdel now old (refresh (redis w))) as [o rf]. by apply ends_tokens.
Qed.

Lemma ends_commit now newJti p w w' : rotate_commit now newJti p w = Ok w' -> ends now w w'.
Proof.
  unfold rotate_commit, update_jti. destruct (existsb _ _); [done|]. intros [= <-].
  eapply ends_rows; [intros r _; apply (keeps_jti newJti (Some now))|reflexivity|reflexivity].
Qed.

(** ** The handlers *)

#[local] Hint Resolve ends_refl ends_revoke ends_clear ends_forget : platform.
#[local] Hint Extern 1 (ends _ _ (on_db (update_user _ _) _)) => apply ends_apart; done : platform.
#[local] Hint Extern 2 (PreOrder (ends _)) => apply ends_preorder : platform.

Ltac ending_tac := repeat (related_step || (progress eauto with platform nocore)).

(** A statement on other keys of Redis, or other tables. *)
Lemma ending_apart now f : (forall w w', f w = Ok w' -> apart w w') -> ending now (statement f).
Proof. intros H. apply related_statement; [exact _|]. intros w w' E. apply ends_apart. by apply H. Qed.

Ltac apart_tac :=
  apply ending_apart; intros ? ?; cbn;
  repeat match goal with
  | |- context [set_ex ?n ?k ?a ?t ?m] => destruct (set_ex n k a t m); cbn
  | |- context [if ?b then _ else _] => destruct b; cbn
  end; try discriminate; intros [= <-]; done.

Lemma logout_ends now token access_jti access_exp user all : ending now (logout e now token access_jti access_exp user all).
Proof.
  unfold logout. apply related_bind; [exact _| |intros _; ending_tac].
  apply ending_apart. intros w w'. unfold revokeAccessToken. destruct (_ <=? 0)%Z; [by intros [= <-]|].
  destruct (getJwtExpirySeconds e); cbn; [|done]. destruct (set_ex _ _ _ _ _); cbn; [|done]. by intros [= <-].
Qed.

Lemma forgot_ends now reset_jti mail tenant : ending now (forgotPassword e now reset_jti mail tenant).
Proof.
  unfold forgotPassword. ending_tac.
  - apart_tac.
  - apply ending_apart. unfold insert_reset. intros w w'. cbn. destruct (existsb _ _); cbn; [done|].
    destruct (negb _); cbn; [done|]. by intros [= <-].
Qed.

Lemma gate_apart now w j : apart w (snd (pass_reset_gate now j w)) /\ apart w (snd (pass_verify_gate now j w)).
Proof.
  unfold pass_reset_gate, pass_verify_gate. split; [by destruct (getdel now j (reset_gate _))|by destruct (getdel now j (verify_gate _))].
Qed.

Lemma verify_ends now token : ending now (verifyEmail e now token).
Proof.
  unfold verifyEmail. ending_tac. apply related_run. intros w. apply ends_apart, (gate_apart now w (snd a)).
Qed.

Lemma reset_read_ends now token newPassword salt : ending now (reset_read e now token newPassword salt).
Proof.
  unfold reset_read. ending_tac. apply related_run. intros w. apply ends_apart, (gate_apart now w (snd a)).
Qed.

Lemma ends_refuse now user s ru w : getJwtExpirySeconds e = Ok s -> set_ex now user tt s (revoked_user (redis w)) = Ok ru ->
  ends now w (on_redis (fun r => with_revoked (revoked_token r) ru r) w).
Proof.
  unfold set_ex. intros Hs. destruct (0 <? s)%Z; [|done]. intros [= <-].
  split; cbn; [apply all_keep|done|done| |]; intros u x; destruct (decide (u = user)) as [->|Hne].
  - intros _. rewrite lookup_insert_eq. eexists. split; [done|]. right. by exists s.
  - rewrite lookup_insert_ne by done. eauto.
  - rewrite lookup_insert_eq. intros [= <-]. right. by exists s.
  - rewrite lookup_insert_ne by done. eauto.
Qed.

Lemma revoke_user_ends now user : ending now (revoke_user e now user).
Proof.
  unfold revoke_user. apply related_bind; [exact _|by apply related_modify; intros w; apply ends_clear|intros _].
  intros w. unfold mbind, act_mbind, answer. destruct (getJwtExpirySeconds e) as [s|err] eqn:Es; [|apply ends_refl].
  unfold statement. destruct (set_ex now user tt s (revoked_user (redis w))) as [ru|] eqn:E; cbn; [|apply ends_refl].
  by eapply ends_refuse.
Qed.

Lemma ends_password_commit now reason user newHash history reset_jti w :
  ends now w (on_db (password_commit now reason user newHash history reset_jti) w).
Proof.
  unfold password_commit. destruct reset_jti as [j|]; (eapply ends_rows; [intros r _; apply (keeps_revoke now reason)|reflexivity|reflexivity]).
Qed.

Lemma password_write_ends now reason user newHash history reset_jti : ending now (password_write e now reason user newHash history reset_jti).
Proof.
  apply related_bind; [exact _|apply related_modify; intros w; apply ends_password_commit|intros _; apply revoke_user_ends].
Qed.

(** ** The two operations that begin something *)

(** A new session, with at most one token. *)
Record begins (v : session_values) (w w' : world) : Prop := {
  begins_session : exists r, sessions (db w') = sessions (db w) ++ [r] /\ se_id r = sv_session v /\ family_id r = sv_family v
    /\ sv_session v ∉ map se_id (sessions (db w));
  begins_refresh t x : refresh (redis w') !! t = Some x -> refresh (redis w) !! t = Some x \/
    t = sv_token v /\ sessionId (content x) = sv_session v /\ familyId (content x) = sv_family v;
  begins_family t x : token_family (redis w') !! t = Some x -> token_family (redis w) !! t = Some x \/ content x = sv_family v;
  begins_user : revoked_user (redis w') = revoked_user (redis w)
}.

Definition opens (now : Z) (v : session_values) (w w' : world) : Prop := ends now w w' \/ begins v w w'.

Lemma insert_session_ok s d d' : insert_session s d = Ok d' ->
  d' = with_sessions (sessions d ++ [s]) d /\ se_id s ∉ map se_id (sessions d).
Proof.
  unfold insert_session. destruct (existsb (fun x => String.eqb (se_id x) (se_id s)) (sessions d)) eqn:E; [done|].
  repeat (case_match; [done|]). intros [= <-]. split; [done|]. intros (r & Hr & Hin)%list_elem_of_fmap.
  pose proof (existsb_false _ _ _ E Hin) as Hno. cbn in Hno. rewrite Hr in Hno. by rewrite String.eqb_refl in Hno.
Qed.

Lemma update_where_none {A} (p : A -> bool) f l : (forall x, x ∈ l -> p x = false) -> update_where p f l = l.
Proof.
  unfold update_where. induction l as [|x l IH]; cbn; intros H; [done|].
  rewrite (H x) by (by left). f_equal. apply IH. intros y Hy. apply H. by right.
Qed.

(** An action that keeps a property, however it ends. *)
Definition maintains {A} (P : world -> Prop) (m : act A) : Prop := forall w, P w -> P (snd (m w)).

Lemma maintains_bind {A B} P (m : act A) (f : A -> act B) : maintains P m -> (forall a, maintains P (f a)) -> maintains P (m ≫= f).
Proof.
  intros Hm Hf w Hw. unfold mbind, act_mbind. specialize (Hm w Hw). destruct (m w) as [[a|err] w'] eqn:E; cbn [snd] in *; [|done].
  by apply Hf.
Qed.

Lemma maintains_answer {A} P (r : result auth_error A) : maintains P (answer r).
Proof. by intros w. Qed.
Lemma maintains_ret {A} P (a : A) : maintains P (mret a).
Proof. by intros w. Qed.
Lemma maintains_statement P f : (forall w w', P w -> f w = Ok w' -> P w') -> maintains P (statement f).
Proof. intros H w Hw. unfold statement. destruct (f w) eqn:E; [by eapply H|done]. Qed.

Lemma begins_issue now v p w w1 w2 : sessionId p = sv_session v -> familyId p = sv_family v ->
  begins v w w1 -> issueRefreshToken e now (sv_token v) p w1 = Ok w2 -> begins v w w2.
Proof.
  intros Hse Hfa [Hs Hr Hf Hu]. unfold issueRefreshToken. destruct (getRefreshTokenTtlSeconds e) as [s|]; cbn; [|done].
  unfold set_ex. destruct (0 <? s)%Z; cbn; [|done]. intros [= <-].
  split; cbn; [exact Hs| | |exact Hu]; intros t x; (destruct (decide (sv_token v = t)) as [<-|Hne];
    [rewrite lookup_insert_eq; intros [= <-]; by right|rewrite lookup_insert_ne by done; auto]).
Qed.

Lemma begins_jti v j w w1 w2 : begins v w w1 ->
  (d ← update_jti (sv_session v) j None (db w1); Ok {| db := d; redis := redis w1 |}) = Ok w2 -> begins v w w2.
Proof.
  intros [(r & Hs & Hr & Hf & Hn) H3 H4 H5]. unfold update_jti. destruct (existsb _ _); cbn; [done|]. intros [= <-]. split; cbn; [|done..].
  rewrite Hs. unfold update_where. rewrite map_app.
  fold (update_where (fun s => String.eqb (se_id s) (sv_session v)) (set_jti j None) (sessions (db w))).
  rewrite update_where_none.
  - cbn. rewrite Hr, String.eqb_refl. eexists. split; [reflexivity|]. by split_and!.
  - intros x Hx. apply String.eqb_neq. intros Hc. apply Hn. rewrite <- Hc. by apply list_elem_of_fmap_2.
Qed.

Lemma tokens_begin now v user w0 : maintains (begins v w0) (session_tokens e now v user).
Proof.
  unfold session_tokens. apply maintains_bind; [apply maintains_answer|intros access].
  apply maintains_bind; [apply maintains_statement; intros w1 w2; by apply begins_issue|intros _].
  apply maintains_bind; [apply maintains_statement; intros w1 w2; by apply begins_jti|intros _]. apply maintains_ret.
Qed.

Lemma open_session_opens now v user w : opens now v w (snd (open_session e now v user w)).
Proof.
  unfold open_session, opens. rewrite act_answer. destruct (getRefreshTokenTtlSeconds e) as [ttl|]; [|left; apply ends_refl].
  rewrite act_db. destruct (insert_session _ (db w)) as [d|] eqn:Ei; [|left; apply ends_refl].
  apply insert_session_ok in Ei as [-> Hid]. right. apply tokens_begin.
  split; [eexists; split; [reflexivity|done]|auto|auto|done].
Qed.

Lemma opens_after now v w w1 w2 : apart w w1 -> opens now v w1 w2 -> opens now v w w2.
Proof.
  intros (Hs & Hr & Hf & Hu) [H|[B1 B2 B3 B4]]; [left|right].
  - eapply ends_trans; [by apply ends_apart|exact H].
  - split; rewrite <- ?Hs, <- ?Hr, <- ?Hf, <- ?Hu; eauto.
Qed.

Lemma login_finish_opens now v d w : opens now v w (snd (login_finish e now v d w)).
Proof.
  destruct d as [|u|u]; cbn [login_finish].
  - left. apply ends_refl.
  - left. by apply ends_apart.
  - rewrite act_modify. set (w1 := on_db (update_user (u_id u) (set_login now)) w).
    apply (opens_after now v w w1); [done|]. pose proof (open_session_opens now v (token_user u) w1) as H.
    rewrite act_bind. destruct (open_session e now v (token_user u) w1) as [[t|err] w2]; [|exact H].
    rewrite act_answer. by destruct (getJwtExpirySeconds e).
Qed.

Lemma insert_user_apart u d d' : insert_user u d = Ok d' -> sessions d' = sessions d.
Proof. unfold insert_user. repeat (case_match; [done|]). by intros [= <-]. Qed.

Lemma register_opens now new_id salt verify_jti v data w : opens now v w (snd (register_commit e now new_id salt verify_jti v data w)).
Proof.
  unfold register_commit. rewrite act_answer. destruct (hash e (in_password data) salt) as [h|]; [|left; apply ends_refl].
  rewrite act_db. destruct (insert_user _ (db w)) as [d|] eqn:Ei; [|left; apply ends_refl].
  apply insert_user_apart in Ei. set (w1 := {| db := d; redis := redis w |}).
  apply (opens_after now v w w1); [by split_and!|]. destruct (requireEmailVerification e).
  - left. match goal with |- ends _ _ (snd (?m w1)) => enough (Hm : ending now m) by apply Hm end.
    ending_tac. apart_tac.
  - rewrite act_bind. pose proof (open_session_opens now v
      {| uf_id := new_id; uf_tenant := in_tenant data; uf_roles := ["viewer"]; emailVerified := true; uf_email := Some (in_email data);
         displayName := in_displayName data |} w1) as H.
    destruct (open_session e now v _ w1) as [[t|err] w2]; [|exact H]. rewrite act_answer. by destruct (getJwtExpirySeconds e).
Qed.

(** ** The invariant *)

Definition session_of (p : RefreshTokenPayload) (w : world) : Prop :=
  exists r, r ∈ sessions (db w) /\ se_id r = sessionId p /\ family_id r = familyId p.

(** The payloads of the rotations under way. *)
Definition rotating (l : list pending) : list RefreshTokenPayload :=
  omap (fun r => match r with Rotating _ p _ => Some p | _ => None end) l.

Record coherent (s : sys) : Prop := {
  co_ids : NoDup (map se_id (sessions (db (at_world s))));
  co_token t x : refresh (redis (at_world s)) !! t = Some x -> session_of (content x) (at_world s);
  co_rotating p : p ∈ rotating (requests s) -> session_of p (at_world s);
  co_family t x : token_family (redis (at_world s)) !! t = Some x -> family_known (content x) s;
  co_single t1 t2 x1 x2 : refresh (redis (at_world s)) !! t1 = Some x1 -> refresh (redis (at_world s)) !! t2 = Some x2 ->
    familyId (content x1) = familyId (content x2) -> t1 = t2;
  co_apart t x p : refresh (redis (at_world s)) !! t = Some x -> p ∈ rotating (requests s) -> familyId (content x) <> familyId p;
  co_nodup : NoDup (map familyId (rotating (requests s)));
  co_user u x : revoked_user (redis (at_world s)) !! u = Some x ->
    exists t k, getJwtExpirySeconds e = Ok k /\ expires x = Some t /\ (t <= clock s + k * 1000)%Z
}.

Lemma rotating_app l1 l2 : rotating (l1 ++ l2) = rotating l1 ++ rotating l2.
Proof. apply omap_app. Qed.

Lemma keep_ids l l' : Forall2 keeps l l' -> map se_id l' = map se_id l.
Proof. induction 1 as [|r r' l l' [H] _ IH]; cbn; congruence. Qed.

Lemma keep_row l l' r : Forall2 keeps l l' -> r ∈ l -> exists r', r' ∈ l' /\ keeps r r'.
Proof.
  intros H Hr. apply list_elem_of_lookup in Hr as [i Hi]. destruct (Forall2_lookup_l _ _ _ _ _ H Hi) as (r' & Hr' & Hk).
  exists r'. split; [by eapply list_elem_of_lookup_2|done].
Qed.

Lemma session_of_ends now p w w' : ends now w w' -> session_of p w -> session_of p w'.
Proof.
  intros [H _ _ _ _] (r & Hr & Hid & Hf). destruct (keep_row _ _ _ H Hr) as (r' & Hr' & [K1 K2 K3 _]).
  exists r'. split_and!; congruence || done.
Qed.

Lemma known_ends now f s w' q t : ends now (at_world s) w' -> family_known f s -> family_known f {| at_world := w'; clock := t; requests := q |}.
Proof.
  intros [H _ _ _ _] (r & Hr & Hf). destruct (keep_row _ _ _ H Hr) as (r' & Hr' & [K1 K2 K3 _]). exists r'. split; [done|congruence].
Qed.

Lemma coherent_initial s : initial s -> coherent s.
Proof.
  intros (H1 & H2 & H3 & H4 & _ & H5). split; rewrite ?H1, ?H2, ?H3, ?H4, ?H5; cbn; try (by constructor); intros *; rewrite ?lookup_empty; try done;
    intros ?%not_elem_of_nil; done.
Qed.

(** Ending things, and requests, keeps the invariant. *)
Lemma coherent_ends s now w' q k : coherent s -> (clock s <= now)%Z -> ends now (at_world s) w' ->
  rotating (requests s) ≡ₚ rotating q ++ k -> coherent {| at_world := w'; clock := now; requests := q |}.
Proof.
  intros [C1 C2 C3 C4 C5 C6 C7 C8] Hnow He Hq. pose proof He as [E1 E2 E3 E4 E5].
  assert (Hin : forall p, p ∈ rotating q -> p ∈ rotating (requests s)) by (intros p Hp; rewrite Hq; apply elem_of_app; by left).
  split; cbn [at_world clock requests].
  - by rewrite (keep_ids _ _ E1).
  - intros t x Hx. eapply session_of_ends; [exact He|]. apply (C2 t x). by eapply lookup_weaken.
  - intros p Hp. eapply session_of_ends; [exact He|]. by apply C3, Hin.
  - intros t x Hx. eapply known_ends; [exact He|]. apply (C4 t x). by eapply lookup_weaken.
  - intros t1 t2 x1 x2 H1 H2. apply (C5 t1 t2 x1 x2); by eapply lookup_weaken.
  - intros t x p Hx Hp. apply (C6 t x p); [by eapply lookup_weaken|by apply Hin].
  - rewrite Hq, map_app in C7. by apply NoDup_app in C7 as [C7 _].
  - intros u x Hx. destruct (E5 u x Hx) as [Hold|(n & Hn & Ht)].
    + destruct (C8 u x Hold) as (t & n & Hn & Ht & Hle). exists t, n. split_and!; [done|done|lia].
    + exists (now + n * 1000)%Z, n. split_and!; [done|done|lia].
Qed.

Lemma coherent_begins s now v w' q k : coherent s -> (clock s <= now)%Z -> fresh_session v s -> begins v (at_world s) w' ->
  rotating (requests s) ≡ₚ rotating q ++ k -> coherent {| at_world := w'; clock := now; requests := q |}.
Proof.
  intros [C1 C2 C3 C4 C5 C6 C7 C8] Hnow [Hf Ht] [(r & Hs & Hid & Hfam & Hnew) B2 B3 B4] Hq.
  assert (Hin : forall p, p ∈ rotating q -> p ∈ rotating (requests s)) by (intros p Hp; rewrite Hq; apply elem_of_app; by left).
  assert (Hof : forall p, session_of p (at_world s) -> session_of p w').
  { intros p (x & Hx & H). exists x. split; [|done]. rewrite Hs. apply elem_of_app. by left. }
  assert (Hno : forall p, session_of p (at_world s) -> familyId p <> sv_family v).
  { intros p (x & Hx & _ & Hxf) Hc. apply Hf. exists x. split; [done|congruence]. }
  split; cbn [at_world clock requests].
  - rewrite Hs. by apply NoDup_map_snoc; rewrite ?Hid.
  - intros t x Hx. destruct (B2 t x Hx) as [Hold|(_ & Hse & Hfx)]; [by eapply Hof, C2|].
    exists r. rewrite Hs. split_and!; [apply elem_of_app; right; by left|congruence|congruence].
  - intros p Hp. by apply Hof, C3, Hin.
  - intros t x Hx. destruct (B3 t x Hx) as [Hold|Hfx].
    + destruct (C4 t x Hold) as (y & Hy & Hyf). exists y. cbn. rewrite Hs. split; [apply elem_of_app; by left|done].
    + exists r. cbn. rewrite Hs. split; [apply elem_of_app; right; by left|congruence].
  - intros t1 t2 x1 x2 H1 H2 Heq. destruct (B2 t1 x1 H1) as [O1|(T1 & _ & F1)], (B2 t2 x2 H2) as [O2|(T2 & _ & F2)].
    + by apply (C5 t1 t2 x1 x2).
    + destruct (Hno (content x1)); [by eapply C2|congruence].
    + destruct (Hno (content x2)); [by eapply C2|congruence].
    + congruence.
  - intros t x p Hx Hp Heq. destruct (B2 t x Hx) as [O|(_ & _ & F)]; [by apply (C6 t x p O (Hin p Hp))|].
    apply (Hno p); [by apply C3, Hin|congruence].
  - rewrite Hq, map_app in C7. by apply NoDup_app in C7 as [C7 _].
  - intros u x. rewrite B4. intros Hx. destruct (C8 u x Hx) as (t & n & Hn & Htx & Hle). exists t, n. split_and!; [done|done|lia].
Qed.

Lemma coherent_opens s now v w' q k : coherent s -> (clock s <= now)%Z -> fresh_session v s -> opens now v (at_world s) w' ->
  rotating (requests s) ≡ₚ rotating q ++ k -> coherent {| at_world := w'; clock := now; requests := q |}.
Proof. intros C Hn Hf [H|H] Hq; [by eapply coherent_ends|by eapply coherent_begins]. Qed.

Lemma coherent_consume s now old p w' : coherent s -> (clock s <= now)%Z -> rotate_consume now old (at_world s) = (Some p, w') ->
  coherent {| at_world := w'; clock := now; requests := requests s ++ [Rotating old p Consumed] |}.
Proof.
  intros C Hnow Hc.
  assert (Hp : exists x, refresh (redis (at_world s)) !! old = Some x /\ content x = p /\ refresh (redis w') !! old = None).
  { revert Hc. unfold rotate_consume, getdel, get. destruct (refresh _ !! old) as [x|] eqn:Ex; [|done].
    destruct (lives now (expires x)); [|done]. intros [= <- <-]. exists x. split_and!; [done|done|]. cbn. apply lookup_delete_eq. }
  destruct Hp as (x & Hx & Hxp & Hgone).
  assert (He : ends now (at_world s) w') by (pose proof (ends_consume now old (at_world s)) as H; by rewrite Hc in H).
  pose proof (coherent_ends s now w' (requests s) [] C Hnow He ltac:(by rewrite app_nil_r)) as [D1 D2 D3 D4 D5 D6 D7 D8].
  cbn [at_world clock requests] in *. pose proof (ends_refresh _ _ _ He) as Hsub.
  assert (Hr : rotating (requests s ++ [Rotating old p Consumed]) = rotating (requests s) ++ [p]) by (by rewrite rotating_app).
  split; cbn [at_world clock requests]; try done; rewrite ?Hr.
  - intros q [Hq| ->%list_elem_of_singleton]%elem_of_app; [by apply D3|].
    eapply session_of_ends; [exact He|]. rewrite <- Hxp. by eapply (co_token _ C).
  - intros t y q Hy [Hq| ->%list_elem_of_singleton]%elem_of_app; [by apply (D6 t y q)|]. intros Heq.
    assert (Ht : t = old) by (apply (co_single _ C t old y x); [by eapply lookup_weaken|done|congruence]). congruence.
  - rewrite map_app. apply NoDup_app. split_and!; [done| |apply NoDup_singleton].
    intros f (q & -> & Hq)%list_elem_of_fmap Heq%list_elem_of_singleton. apply (co_apart _ C old x q Hx Hq). by rewrite Hxp.
Qed.

Lemma coherent_write s now remaining old newToken newJti p l1 l2 : coherent s -> (clock s <= now)%Z ->
  requests s = l1 ++ Rotating old p (Committed remaining newJti) :: l2 -> refresh (redis (at_world s)) !! newToken = None ->
  coherent {| at_world := snd (rotate_write now remaining old newToken newJti p (at_world s)); clock := now; requests := l1 ++ l2 |}.
Proof.
  intros [C1 C2 C3 C4 C5 C6 C7 C8] Hnow Hreq Hnew. set (w' := snd _).
  assert (Hr : rotating (requests s) ≡ₚ rotating (l1 ++ l2) ++ [p]).
  { rewrite Hreq, !rotating_app. change (rotating (Rotating old p _ :: l2)) with (p :: rotating l2).
    rewrite <- app_assoc. apply Permutation_app_head. by rewrite Permutation_app_comm. }
  assert (Hin : forall q, q ∈ rotating (l1 ++ l2) -> q ∈ rotating (requests s)) by (intros q Hq; rewrite Hr; apply elem_of_app; by left).
  assert (Hpin : p ∈ rotating (requests s)) by (rewrite Hr; apply elem_of_app; right; by left).
  assert (Htok : forall t x, refresh (redis w') !! t = Some x -> refresh (redis (at_world s)) !! t = Some x \/ t = newToken /\ content x = with_jti newJti p).
  { intros t x. unfold w', rotate_write, set_ex, unless_failed. cbn. destruct (0 <? remaining)%Z; [|by left].
    destruct (decide (newToken = t)) as [<-|Hne]; [rewrite lookup_insert_eq; intros [= <-]; by right|rewrite lookup_insert_ne by done; by left]. }
  assert (Hfam : forall t x, token_family (redis w') !! t = Some x -> token_family (redis (at_world s)) !! t = Some x \/ content x = familyId p).
  { intros t x. unfold w', rotate_write, set_ex, unless_failed. cbn. destruct (0 <? remaining)%Z; [|by left].
    destruct (decide (newToken = t)) as [<-|Hne]; [rewrite lookup_insert_eq; intros [= <-]; by right|rewrite lookup_insert_ne by done; by left]. }
  rewrite Hr, map_app in C7. apply NoDup_app in C7 as (C7 & Hdis & _).
  assert (Hpf : forall q, q ∈ rotating (l1 ++ l2) -> familyId q <> familyId p).
  { intros q Hq Heq. apply (Hdis (familyId q)); [by apply list_elem_of_fmap_2|rewrite Heq; by left]. }
  split; cbn [at_world clock requests]; try done.
  - intros t x Hx. destruct (Htok t x Hx) as [Ho|[-> ->]]; [by eapply C2|]. exact (C3 p Hpin).
  - intros q Hq. by apply C3, Hin.
  - intros t x Hx. destruct (Hfam t x Hx) as [Ho| ->]; [by eapply C4|]. destruct (C3 p Hpin) as (r & Hrr & _ & Hf). by exists r.
  - intros t1 t2 x1 x2 H1 H2 Heq. destruct (Htok t1 x1 H1) as [O1|[-> E1]], (Htok t2 x2 H2) as [O2|[-> E2]].
    + by apply (C5 t1 t2 x1 x2).
    + destruct (C6 t1 x1 p O1 Hpin). by rewrite Heq, E2.
    + destruct (C6 t2 x2 p O2 Hpin). by rewrite <- Heq, E1.
    + done.
  - intros t x q Hx Hq. destruct (Htok t x Hx) as [Ho|[-> ->]]; [apply (C6 t x q Ho), Hin, Hq|]. intros Heq. by apply (Hpf q Hq).
  - intros u x Hx. destruct (C8 u x Hx) as (t & n & Hn & Ht & Hle). exists t, n. split_and!; [done|done|lia].
Qed.

Lemma rotating_none r l1 l2 : rotating [r] = [] -> rotating (l1 ++ r :: l2) = rotating (l1 ++ l2).
Proof. intros H. change (l1 ++ r :: l2) with (l1 ++ [r] ++ l2). rewrite !rotating_app, H. done. Qed.

Lemma rotating_drop r l1 l2 : exists k, rotating (l1 ++ r :: l2) ≡ₚ rotating (l1 ++ l2) ++ k.
Proof.
  exists (rotating [r]). change (l1 ++ r :: l2) with (l1 ++ [r] ++ l2). rewrite !rotating_app. solve_Permutation.
Qed.

Lemma coherent_step s s' : coherent s -> step s s' -> coherent s'.
Proof.
  intros C H.
  assert (Hk : forall q r, rotating [r] = [] -> q = requests s ++ [r] -> rotating (requests s) ≡ₚ rotating q ++ []).
  { intros q r Hr ->. by rewrite rotating_app, Hr, !app_nil_r. }
  assert (Hd : forall r l1 l2, rotating [r] = [] -> requests s = l1 ++ r :: l2 -> rotating (requests s) ≡ₚ rotating (l1 ++ l2) ++ []).
  { intros r l1 l2 Hr ->. by rewrite rotating_none, app_nil_r. }
  assert (Hs : rotating (requests s) ≡ₚ rotating (requests s) ++ []) by (by rewrite app_nil_r).
  destruct H.
  - eapply coherent_ends; [done|done|apply ends_refl|eapply Hk; [|reflexivity]; done].
  - eapply coherent_opens; [done|done|done|apply login_finish_opens|eapply Hd; [|eassumption]; done].
  - eapply coherent_ends; [done|done|apply ends_refl|eapply Hk; [|reflexivity]; done].
  - eapply coherent_opens; [done|done|done|apply register_opens|eapply Hd; [|eassumption]; done].
  - eapply coherent_ends; [done|done|apply logout_ends|exact Hs].
  - eapply coherent_ends; [done|done|apply forgot_ends|exact Hs].
  - eapply coherent_ends; [done|done|apply verify_ends|exact Hs].
  - eapply coherent_ends; [done|done| |eapply Hk; [|reflexivity]; done]. pose proof (reset_read_ends now token newPassword salt (at_world s)) as E.
    by rewrite H0 in E.
  - eapply coherent_ends; [done|done| |exact Hs]. pose proof (reset_read_ends now token newPassword salt (at_world s)) as E.
    by rewrite H0 in E.
  - eapply coherent_ends; [done|done|apply ends_refl|eapply Hk; [|reflexivity]; done].
  - eapply coherent_ends; [done|done|apply password_write_ends|eapply Hd; [|eassumption]; done].
  - by apply coherent_consume.
  - eapply coherent_ends; [done|done|apply ends_refl|]. rewrite H0. rewrite !rotating_app. by rewrite app_nil_r.
  - eapply coherent_ends; [done|done|by eapply ends_commit|]. rewrite H0. rewrite !rotating_app. by rewrite app_nil_r.
  - by eapply coherent_write.
  - eapply coherent_ends; [done|done|apply ends_revoke|eapply Hk; [|reflexivity]; done].
  - eapply coherent_ends; [done|done|apply ends_clean|eapply Hd; [|eassumption]; done].
  - destruct (rotating_drop r l1 l2) as [k Hr]. eapply coherent_ends; [done|lia|apply ends_refl|]. rewrite H. exact Hr.
Qed.

Lemma coherent_steps s s' : coherent s -> steps s s' -> coherent s'.
Proof. intros C H. induction H as [|s1 s2 s3 H IH Hs]; [done|]. eapply coherent_step; [by apply IH|done]. Qed.

Lemma coherent_reachable s : reachable s -> coherent s.
Proof. intros (s0 & H0 & H). eapply coherent_steps; [by apply coherent_initial|done]. Qed.

Lemma clock_step s s' : step s s' -> (clock s <= clock s')%Z.
Proof. intros H. destruct H; cbn; lia. Qed.
Lemma clock_steps s s' : steps s s' -> (clock s <= clock s')%Z.
Proof. intros H. induction H as [|s1 s2 s3 _ IH Hs]; [lia|]. apply clock_step in Hs. lia. Qed.

(** ** What stays ended *)

(** The sessions that a step leaves: those it had, kept, and at most a new one. *)
Lemma step_sessions s s' : step s s' ->
  exists l, Forall2 keeps (sessions (db (at_world s))) l /\
    (sessions (db (at_world s')) = l \/
     exists r, sessions (db (at_world s')) = l ++ [r] /\ ~ family_known (family_id r) s /\ se_id r ∉ map se_id (sessions (db (at_world s)))).
Proof.
  assert (He : forall now w', ends now (at_world s) w' ->
    exists l, Forall2 keeps (sessions (db (at_world s))) l /\ (sessions (db w') = l \/
      exists r, sessions (db w') = l ++ [r] /\ ~ family_known (family_id r) s /\ se_id r ∉ map se_id (sessions (db (at_world s))))).
  { intros now w' [H _ _ _ _]. eexists. split; [exact H|by left]. }
  assert (Ho : forall now v w', fresh_session v s -> opens now v (at_world s) w' ->
    exists l, Forall2 keeps (sessions (db (at_world s))) l /\ (sessions (db w') = l \/
      exists r, sessions (db w') = l ++ [r] /\ ~ family_known (family_id r) s /\ se_id r ∉ map se_id (sessions (db (at_world s))))).
  { intros now v w' [Hf _] [H|[(r & Hs & Hid & Hfam & Hn) _ _ _]]; [by eapply He|].
    eexists. split; [apply all_keep|]. right. exists r. split_and!; [done|by rewrite Hfam|by rewrite Hid]. }
  intros H. destruct H; cbn [at_world].
  all: try (by apply (He now), ends_refl).
  - eapply Ho; [done|apply login_finish_opens].
  - eapply Ho; [done|apply register_opens].
  - eapply He, logout_ends.
  - eapply He, forgot_ends.
  - eapply He, verify_ends.
  - eapply (He now). pose proof (reset_read_ends now token newPassword salt (at_world s)) as E. by rewrite H0 in E.
  - eapply (He now). pose proof (reset_read_ends now token newPassword salt (at_world s)) as E. by rewrite H0 in E.
  - eapply He, password_write_ends.
  - eapply (He now). pose proof (ends_consume now old (at_world s)) as E. by rewrite H0 in E.
  - eapply He. by eapply ends_commit.
  - eexists. split; [apply all_keep|by left].
  - eapply He, ends_revoke.
  - eapply He, ends_clean.
  - apply (He (clock s)), ends_refl.
Qed.

(** The sessions with these identifiers are there, and revoked. *)
Definition closed (ids : list string) (s : sys) : Prop :=
  ids ⊆ map se_id (sessions (db (at_world s))) /\
  forall r, r ∈ sessions (db (at_world s)) -> se_id r ∈ ids -> not_revoked r = false.

(** The family is there, and all its sessions revoked. *)
Definition ended_family (f : string) (s : sys) : Prop :=
  family_known f s /\ forall r, r ∈ sessions (db (at_world s)) -> family_id r = f -> not_revoked r = false.

Lemma keep_back l l' r' : Forall2 keeps l l' -> r' ∈ l' -> exists r, r ∈ l /\ keeps r r'.
Proof.
  intros H Hr. apply list_elem_of_lookup in Hr as [i Hi]. destruct (Forall2_lookup_r _ _ _ _ _ H Hi) as (r & Hr & Hk).
  exists r. split; [by eapply list_elem_of_lookup_2|done].
Qed.

Lemma closed_step ids s s' : closed ids s -> step s s' -> closed ids s'.
Proof.
  intros [Hin Hr] H. destruct (step_sessions s s' H) as (l & Hl & Hs). pose proof (keep_ids _ _ Hl) as Hids.
  assert (Hold : forall r, r ∈ l -> se_id r ∈ ids -> not_revoked r = false).
  { intros r' Hr' Hid. destruct (keep_back _ _ _ Hl Hr') as (r & Hrr & [K1 K2 K3 K4]). apply K4, Hr; [done|congruence]. }
  destruct Hs as [Hs|(r & Hs & _ & Hn)]; split; rewrite Hs.
  - by rewrite Hids.
  - done.
  - rewrite map_app, Hids. intros x Hx. apply elem_of_app. left. by apply Hin.
  - intros r' [Hr'| ->%list_elem_of_singleton]%elem_of_app Hid; [by apply Hold|]. destruct Hn. by apply Hin.
Qed.

Lemma ended_step f s s' : ended_family f s -> step s s' -> ended_family f s'.
Proof.
  intros [(k & Hk & Hkf) Hr] H. destruct (step_sessions s s' H) as (l & Hl & Hs).
  assert (Hold : forall r, r ∈ l -> family_id r = f -> not_revoked r = false).
  { intros r' Hr' Hid. destruct (keep_back _ _ _ Hl Hr') as (r & Hrr & [K1 K2 K3 K4]). apply K4, Hr; [done|congruence]. }
  destruct (keep_row _ _ _ Hl Hk) as (k' & Hk' & [_ _ K3 _]).
  destruct Hs as [Hs|(r & Hs & Hn & _)]; split; try (exists k'); rewrite Hs.
  - split; [done|congruence].
  - done.
  - split; [apply elem_of_app; by left|congruence].
  - intros r' [Hr'| ->%list_elem_of_singleton]%elem_of_app Hid; [by apply Hold|]. destruct Hn. rewrite Hid. by exists k.
Qed.

Lemma closed_steps ids s s' : closed ids s -> steps s s' -> closed ids s'.
Proof. intros C H. induction H; [done|]. eapply closed_step; [by apply IHsteps|done]. Qed.
Lemma ended_steps f s s' : ended_family f s -> steps s s' -> ended_family f s'.
Proof. intros C H. induction H; [done|]. eapply ended_step; [by apply IHsteps|done]. Qed.

(** A token whose session is revoked. *)
Lemma rotation_refused s now v t p : coherent s ->
  get now t (refresh (redis (at_world s))) = Some p ->
  (forall r, r ∈ sessions (db (at_world s)) -> se_id r = sessionId p -> not_revoked r = false) ->
  fst (rotateRefreshToken e now v t (at_world s)) = Err SessionRevokedError.
Proof.
  intros C Hg Hr. unfold rotateRefreshToken. rewrite act_run. unfold rotate_consume at 1 2. rewrite getdel_spec, Hg. cbn [fst snd].
  rewrite act_inspect. set (w' := on_redis _ _).
  assert (Hof : session_of p (at_world s)).
  { revert Hg. unfold get. destruct (refresh _ !! t) as [x|] eqn:Ex; [|done]. destruct (lives now (expires x)); [|done]. intros [= <-].
    by eapply (co_token _ C). }
  destruct Hof as (r & Hin & Hid & _).
  assert (Hf : find_session (sessionId p) (db w') = Some r).
  { apply find_row_unique; [done|by apply String.eqb_eq|]. intros y Hy Hyid%String.eqb_eq.
    eapply NoDup_map_inj; [apply (co_ids _ C)|done|done|congruence]. }
  unfold rotate_check. rewrite Hf, (Hr r Hin Hid). done.
Qed.
End System.

(** ** What the authentication service relies on

    The documented behaviour of the packages jose and bcrypt, as far as theorems
    use it, and a model of both in which tokens can be computed. *)

Definition algorithm_name (a : JwtAlgorithm) : string := match a with HS256 => "HS256" | EdDSA => "EdDSA" end.

(** The claims that jose checks: the time, and the issuer and audience asked for. *)
Definition in_time (now : Z) (p : payload) : Prop := forall x, claim_of "exp" p = Some (CNum x) -> (seconds now < x)%Z.
Definition names (k : string) (wanted : option string) (p : payload) : Prop :=
  match wanted with Some s => claim_of k p = Some (CStr s) | None => True end.

(** [matches a k k']: what is signed with [k] is verified with [k']. *)
Class JwtLaws (jwt : Jwt) (matches : JwtAlgorithm -> key -> key -> Prop) : Prop := {
  verify_signed a k iss aud now token p :
    jwt_verify a k iss aud now token = Ok p <->
    exists k0, matches a k0 k /\ token = jwt_sign a k0 p /\ in_time now p /\ names "iss" iss p /\ names "aud" aud p;
  sign_payload a a' k k' p p' : jwt_sign a k p = jwt_sign a' k' p' -> p = p';
  header_signed a k p : header_alg (jwt_sign a k p) = Some (Some (algorithm_name a));
  secret_matches s s' : matches HS256 (secret_key s) (secret_key s') <-> s = s'
}.

(** A hash is not empty, and matches the password that it is made of. *)
Class BcryptLaws (bcrypt : Bcrypt) : Prop := {
  hash_compare p rounds salt : bcrypt_compare p (bcrypt_hash p rounds salt) = true;
  hash_text p rounds salt : bcrypt_hash p rounds salt <> ""
}.

(** ** A model *)

Fixpoint claim_tree (c : claim) : gen_tree (string + Z + bool) :=
  match c with
  | CStr s => GenLeaf (inl (inl s))
  | CNum z => GenLeaf (inl (inr z))
  | CBool b => GenLeaf (inr b)
  | CArr l => GenNode 0 (map claim_tree l)
  | CNull => GenNode 2 []
  | COther => GenNode 1 []
  end.

Fixpoint tree_claim (t : gen_tree (string + Z + bool)) : claim :=
  match t with
  | GenLeaf (inl (inl s)) => CStr s
  | GenLeaf (inl (inr z)) => CNum z
  | GenLeaf (inr b) => CBool b
  | GenNode 0 l => CArr (map tree_claim l)
  | GenNode 2 _ => CNull
  | GenNode _ _ => COther
  end.

Fixpoint tree_claim_tree (c : claim) : tree_claim (claim_tree c) = c :=
  match c with
  | CArr l => f_equal CArr ((fix go (l : list claim) : map tree_claim (map claim_tree l) = l :=
      match l with [] => eq_refl | c :: l => f_equal2 cons (tree_claim_tree c) (go l) end) l)
  | _ => eq_refl
  end.

#[export] Instance claim_eq_dec : EqDecision claim.
Proof.
  intros c c'. destruct (decide (claim_tree c = claim_tree c')) as [H|H].
  - left. rewrite <- (tree_claim_tree c), H. apply tree_claim_tree.
  - right. by intros ->.
Defined.

#[export] Instance claim_countable : Countable claim.
Proof. apply (inj_countable' claim_tree tree_claim), tree_claim_tree. Defined.

Fixpoint bits_text (p : positive) : string :=
  match p with xH => "" | xO p => String "0" (bits_text p) | xI p => String "1" (bits_text p) end.
Fixpoint text_bits (s : string) : positive :=
  match s with EmptyString => xH | String c s => if Ascii.eqb c "1" then xI (text_bits s) else xO (text_bits s) end.

Lemma text_bits_text p : text_bits (bits_text p) = p.
Proof. induction p as [p IH|p IH|]; [| |done]; cbn [bits_text text_bits]; cbn; by rewrite IH. Qed.

(** A token names its algorithm, its key and its payload. *)
Definition toy_sign (a : JwtAlgorithm) (k : string) (p : payload) : string := bits_text (encode (algorithm_name a, k, p)).
Definition toy_read (token : string) : option (string * string * payload) :=
  t ← decode (text_bits token);
  if String.eqb (bits_text (encode t)) token then Some t else None.

Definition in_timeb (now : Z) (p : payload) : bool :=
  match claim_of "exp" p with Some (CNum x) => (seconds now <? x)%Z | _ => true end.
Definition namesb (k : string) (wanted : option string) (p : payload) : bool :=
  match wanted with Some s => bool_decide (claim_of k p = Some (CStr s)) | None => true end.

Definition toy_verify (a : JwtAlgorithm) (k : string) (iss aud : option string) (now : Z) (token : string) : result jwt_error payload :=
  match toy_read token with
  | Some (alg, k', p) =>
      if String.eqb alg (algorithm_name a) && String.eqb k' k && namesb "iss" iss p && namesb "aud" aud p then
        if in_timeb now p then Ok p else Err JwtExpired
      else Err JwtInvalid
  | None => Err JwtInvalid
  end.

Definition toy_jwt : Jwt := {|
  key := string; secret_key s := s; pem_private := Some; pem_public := Some; jwt_sign := toy_sign; jwt_verify := toy_verify;
  header_alg token := match toy_read token with Some (alg, _, _) => Some (Some alg) | None => None end
|}.

Definition toy_matches (a : JwtAlgorithm) (k k' : string) : Prop := k = k'.

Lemma toy_read_sign a k p : toy_read (toy_sign a k p) = Some (algorithm_name a, k, p).
Proof. unfold toy_read, toy_sign. rewrite text_bits_text, decode_encode. cbn [mbind option_bind]. by rewrite String.eqb_refl. Qed.

Lemma toy_read_spec token alg k p : toy_read token = Some (alg, k, p) -> token = bits_text (encode (alg, k, p)).
Proof.
  unfold toy_read. destruct (decode (text_bits token)) as [t|]; cbn [mbind option_bind]; [|done].
  destruct (String.eqb _ token) eqn:E; [|done]. intros [= ->]. by apply String.eqb_eq in E.
Qed.

Lemma in_timeb_spec now p : in_timeb now p = true <-> in_time now p.
Proof.
  unfold in_timeb, in_time. destruct (claim_of "exp" p) as [[s|z|b|l| |]|]; try (by split; [intros _ ? [=]|]).
  rewrite Z.ltb_lt. split; [by intros H x [= <-]|auto].
Qed.

Lemma namesb_spec k wanted p : namesb k wanted p = true <-> names k wanted p.
Proof. unfold namesb, names. destruct wanted; [apply bool_decide_eq_true|done]. Qed.

#[export] Instance toy_jwt_laws : JwtLaws toy_jwt toy_matches.
Proof.
  split; cbn [jwt_verify jwt_sign header_alg secret_key toy_jwt key].
  - intros a k iss aud now token p. unfold toy_verify. split.
    + destruct (toy_read token) as [[[alg k'] p']|] eqn:Er; [|done]. destruct (_ && _) eqn:E; [|done].
      rewrite !andb_true_iff, !String.eqb_eq, !namesb_spec in E. destruct E as [[[-> ->] H1] H2].
      destruct (in_timeb now p') eqn:Et; [|done]. apply in_timeb_spec in Et. intros [= <-].
      exists k. split_and!; try done. by apply toy_read_spec in Er.
    + intros (k0 & -> & -> & Ht & H1 & H2). rewrite toy_read_sign. apply namesb_spec in H1, H2. apply in_timeb_spec in Ht.
      by rewrite !String.eqb_refl, H1, H2, Ht.
  - intros a a' k k' p p' H. pose proof (toy_read_sign a k p) as E. rewrite H, toy_read_sign in E. congruence.
  - intros a k p. by rewrite toy_read_sign.
  - done.
Qed.

Definition toy_bcrypt : Bcrypt := {|
  bcrypt_hash p rounds salt := "$" +:+ p;
  bcrypt_compare p h := String.eqb h ("$" +:+ p)
|}.

#[export] Instance toy_bcrypt_laws : BcryptLaws toy_bcrypt.
Proof. split; [intros; apply String.eqb_refl|done]. Qed.
