(* ===== verification/TokenSpec.v ===== *)
(** * What holds of tokens

    The theorems on the tokens of AuthSystem's service: one holder of a family,
    what a replay and a change of password end, what a token says when it is
    verified, and three things that the comments do not promise. *)

From S2P Require Import Prelude JsString JsValue SqlTable AuthStore TokenService AuthService AuthSystem.
From stdpp Require Import gmap strings.

Section Tokens.
Context {jwt : Jwt} {bcrypt : Bcrypt} (e : env).

(** C4: Whatever requests interleave, a family of refresh tokens has one holder at
    most: one token that can be used, or one rotation under way. *)
Theorem one_holder s : reachable e s ->
  let r := refresh (redis (at_world s)) in
  (forall now t1 t2 p1 p2, get now t1 r = Some p1 -> get now t2 r = Some p2 -> familyId p1 = familyId p2 -> t1 = t2) /\
  (forall now t p q, get now t r = Some p -> q ∈ rotating (requests s) -> familyId p <> familyId q) /\
  NoDup (map familyId (rotating (requests s))).
Proof.
  intros Hs. apply coherent_reachable in Hs as C. cbn zeta.
  assert (Hg : forall now t p, get now t (refresh (redis (at_world s))) = Some p ->
            exists x, refresh (redis (at_world s)) !! t = Some x /\ content x = p).
  { intros now t p. unfold get. destruct (_ !! t) as [x|]; [|done]. destruct (lives _ _); [|done]. intros [= <-]. by exists x. }
  split_and!; [| |apply (co_nodup _ _ C)].
  - intros now t1 t2 p1 p2 H1 H2. destruct (Hg _ _ _ H1) as (x1 & L1 & <-), (Hg _ _ _ H2) as (x2 & L2 & <-).
    by apply (co_single _ _ C t1 t2).
  - intros now t p q H1 Hq. destruct (Hg _ _ _ H1) as (x & L & <-). by apply (co_apart _ _ C t x q).
Qed.

(** ** What ends *)

Lemma sessions_of_revoke now reason p d r : r ∈ sessions (revoke_sessions now reason p d) ->
  exists r0, r0 ∈ sessions d /\ (p r0 = true /\ r = revoke now reason r0 \/ p r0 = false /\ r = r0).
Proof.
  unfold revoke_sessions. cbn. unfold update_where. intros (r0 & -> & Hr)%list_elem_of_fmap. exists r0. split; [done|].
  destruct (p r0); auto.
Qed.

Lemma family_ended now family s : family_known family s -> ended_family family
  {| at_world := snd (replay_revoke now family (at_world s)); clock := now; requests := requests s ++ [Replaying family] |}.
Proof.
  intros (r & Hr & Hf). split.
  - destruct (keep_row _ _ _ (ends_sessions e now _ _ (ends_revoke e now "token_replay_detected" (of_family family) (at_world s))) Hr) as (r' & Hr' & [_ _ K _]).
    exists r'. split; [done|congruence].
  - cbn [at_world]. intros x Hx Hxf. apply sessions_of_revoke in Hx as (r0 & _ & [[_ ->]|[Hp ->]]); [done|].
    unfold of_family in Hp. rewrite Hxf, String.eqb_refl in Hp. by destruct (not_revoked r0).
Qed.

(** C16: Once a used token has been presented again, no token of its family is worth
    anything: no rotation that starts later succeeds. *)
Theorem replay_ends_family s1 s2 now old family :
  reachable e s1 -> (clock s1 <= now)%Z ->
  fst (rotate_consume now old (at_world s1)) = None -> replay_family now old (at_world s1) = Some family ->
  steps e {| at_world := snd (replay_revoke now family (at_world s1)); clock := now; requests := requests s1 ++ [Replaying family] |} s2 ->
  forall now' v t p, get now' t (refresh (redis (at_world s2))) = Some p -> familyId p = family ->
    fst (rotateRefreshToken e now' v t (at_world s2)) = Err SessionRevokedError.
Proof.
  intros H1 Hnow Hnone Hfam Hsteps now' v t p Hg Hp. pose proof (coherent_reachable e s1 H1) as C1.
  assert (Hk : family_known family s1).
  { revert Hfam. unfold replay_family, get. destruct (token_family _ !! old) as [x|] eqn:Ex; [|done].
    destruct (lives now (expires x)); [|done]. destruct (String.eqb (content x) ""); [done|]. intros [= <-]. by eapply (co_family _ _ C1). }
  pose proof (ended_steps e _ _ _ (family_ended now family s1 Hk) Hsteps) as [_ Hend].
  assert (C2 : coherent e s2) by (eapply coherent_steps; [|exact Hsteps]; eapply coherent_step; [exact C1|by eapply start_replay]).
  apply rotation_refused with p; [done|done|]. intros r Hr Hid.
  assert (Hof : session_of p (at_world s2)).
  { revert Hg. unfold get. destruct (refresh _ !! t) as [x|] eqn:Ex; [|done]. destruct (lives now' (expires x)); [|done]. intros [= <-].
    by eapply (co_token _ _ C2). }
  destruct Hof as (r' & Hr' & Hid' & Hf'). apply Hend; [done|].
  rewrite <- Hp, <- Hf'. f_equal. eapply NoDup_map_inj; [apply (co_ids _ _ C2)|done|done|congruence].
Qed.

(** The user's access tokens are refused since [tr], for the lifetime of one. *)
Definition refused_since (tr : Z) (user : string) (s : sys) : Prop :=
  (tr <= clock s)%Z /\ exists x tx k, revoked_user (redis (at_world s)) !! user = Some x /\ getJwtExpirySeconds e = Ok k /\
    expires x = Some tx /\ (tr + k * 1000 <= tx)%Z.

Lemma refusal_step tr user s s' : refused_since tr user s -> step e s s' -> refused_since tr user s'.
Proof.
  intros [Htr (x & tx & k & Hx & Hk & Hxt & Hle)] H. pose proof (clock_step e s s' H) as Hc. split; [lia|].
  assert (He : forall now w', (clock s <= now)%Z -> ends e now (at_world s) w' ->
    exists x tx k, revoked_user (redis w') !! user = Some x /\ getJwtExpirySeconds e = Ok k /\ expires x = Some tx /\ (tr + k * 1000 <= tx)%Z).
  { intros now w' Hn [_ _ _ E _]. destruct (E user x Hx) as (x' & Hx' & [->|(k' & Hk' & Ht')]); [by exists x, tx, k|].
    exists x', (now + k' * 1000)%Z, k'. rewrite Hk in Hk'. injection Hk' as <-. split_and!; [done|done|done|lia]. }
  assert (Ho : forall now v w', (clock s <= now)%Z -> opens e now v (at_world s) w' ->
    exists x tx k, revoked_user (redis w') !! user = Some x /\ getJwtExpirySeconds e = Ok k /\ expires x = Some tx /\ (tr + k * 1000 <= tx)%Z).
  { intros now v w' Hn [E|[_ _ _ B]]; [by eapply He|]. rewrite B. by exists x, tx, k. }
  destruct H; cbn [at_world].
  all: try (by exists x, tx, k).
  - eapply Ho; [done|apply login_finish_opens].
  - eapply Ho; [done|apply register_opens].
  - eapply He; [done|apply logout_ends].
  - eapply He; [done|apply forgot_ends].
  - eapply He; [done|apply verify_ends].
  - eapply He; [done|]. pose proof (reset_read_ends e now token newPassword salt (at_world s)) as E. by rewrite H0 in E.
  - eapply He; [done|]. pose proof (reset_read_ends e now token newPassword salt (at_world s)) as E. by rewrite H0 in E.
  - eapply He; [done|apply password_write_ends].
  - eapply He; [done|]. pose proof (ends_consume e now old (at_world s)) as E. by rewrite H0 in E.
  - eapply He; [done|by eapply ends_commit].
Qed.

Lemma refusal_steps tr user s s' : refused_since tr user s -> steps e s s' -> refused_since tr user s'.
Proof. intros C H. induction H; [done|]. eapply refusal_step; [by apply IHsteps|done]. Qed.

Lemma claim_exp now k j scopes user : claim_of "exp" (access_payload now k j scopes user) = Some (CNum (seconds now + k)%Z).
Proof.
  unfold access_payload, claim_of, when_truthy. destruct (uf_email user) as [m|], (displayName user) as [n|];
    repeat (destruct (String.eqb _ _)); reflexivity.
Qed.

(** What an issued token is. *)
Lemma issued_token now j user token : issueAccessToken e now j user = Ok token ->
  exists a k expiry scopes, token = jwt_sign a k (access_payload now expiry j scopes user) /\
    getJwtExpirySeconds e = Ok expiry /\ getJwtAlgorithm e = Ok a /\ resolveScopes (uf_roles user) = Ok scopes /\
    (match a with EdDSA => loadEdDsaPrivateKey e | HS256 => getJwtSecret e end) = Ok k.
Proof.
  unfold issueAccessToken. destruct (getJwtExpirySeconds e) as [expiry|]; cbn; [|done].
  destruct (getJwtAlgorithm e) as [a|]; cbn; [|done]. destruct (resolveScopes (uf_roles user)) as [scopes|]; cbn; [|done].
  destruct a; [destruct (getJwtSecret e) as [k|]|destruct (loadEdDsaPrivateKey e) as [k|]]; cbn; try done; intros [= <-];
    by eexists _, k, expiry, scopes.
Qed.

Context {matches : JwtAlgorithm -> key -> key -> Prop} {laws : JwtLaws jwt matches}.

Lemma old_token_refused tr user s issued j uf token now :
  refused_since tr user s -> uf_id uf = user -> (issued <= tr)%Z -> issueAccessToken e issued j uf = Ok token -> (clock s <= now)%Z ->
  verifyAccessToken e now token (at_world s) = None.
Proof.
  intros [Htr (x & tx & k & Hx & Hk & Hxt & Hle)] Hu Hi Ht Hnow.
  apply issued_token in Ht as (a & k0 & expiry & scopes & -> & Hexp & _ & _ & _). rewrite Hk in Hexp. injection Hexp as <-.
  unfold verifyAccessToken. destruct (token_algorithm _) as [a'|]; [|done]. destruct (match a' with EdDSA => _ | HS256 => _ end) as [k'|]; [|done].
  destruct (jwt_verify a' k' _ _ now _) as [p|] eqn:Ev; [|done].
  apply verify_signed in Ev as (k1 & _ & Hs & Htime & _ & _). apply sign_payload in Hs. subst p.
  pose proof (Htime _ (claim_exp _ _ _ _ _)) as Hlt.
  assert (Hrev : user_revoked now (access_payload issued k j scopes uf) (redis (at_world s)) = true).
  { unfold user_revoked. change (claim_of "sub" _) with (Some (CStr (uf_id uf))). rewrite Hu. apply bool_decide_eq_true.
    unfold get. rewrite Hx. unfold lives. rewrite Hxt. destruct (Z.ltb_spec now tx); [by eexists|].
    unfold seconds in Hlt. assert (issued / 1000 + k <= now / 1000)%Z; [|lia].
    rewrite <- Z.div_add by lia. apply Z.div_le_mono; lia. }
  rewrite Hrev. by rewrite orb_true_r.
Qed.

Lemma password_write_done now reason user newHash history reset_jti w w' :
  password_write e now reason user newHash history reset_jti w = (Ok tt, w') ->
  exists x k, revoked_user (redis w') !! user = Some x /\ getJwtExpirySeconds e = Ok k /\ expires x = Some (now + k * 1000)%Z /\
    sessions (db w') = update_where (of_user user) (revoke now reason) (sessions (db w)).
Proof.
  unfold password_write, revoke_user. rewrite act_modify, act_modify, act_answer.
  destruct (getJwtExpirySeconds e) as [k|]; [|done]. unfold statement, set_ex. destruct (0 <? k)%Z; cbn; [|done].
  intros [= <-]. eexists _, k. cbn. rewrite lookup_insert_eq. split_and!; [done|done|done|].
  unfold password_commit. by destruct reset_jti.
Qed.

(** C3: A change or reset of a password ends what was there before it: the sessions of
    the user cannot be continued, and access tokens issued until then are refused. *)
Theorem password_change_final s1 s3 now reason user newHash history reset_jti l1 l2 :
  reachable e s1 -> (clock s1 <= now)%Z -> requests s1 = l1 ++ Changing reason user newHash history reset_jti :: l2 ->
  fst (password_write e now reason user newHash history reset_jti (at_world s1)) = Ok tt ->
  steps e {| at_world := snd (password_write e now reason user newHash history reset_jti (at_world s1)); clock := now; requests := l1 ++ l2 |} s3 ->
  (forall now' v t p r, get now' t (refresh (redis (at_world s3))) = Some p ->
     r ∈ sessions (db (at_world s1)) -> se_user r = user -> se_id r = sessionId p ->
     fst (rotateRefreshToken e now' v t (at_world s3)) = Err SessionRevokedError) /\
  (forall issued j uf token now', uf_id uf = user -> (issued <= now)%Z -> issueAccessToken e issued j uf = Ok token ->
     (clock s3 <= now')%Z -> verifyAccessToken e now' token (at_world s3) = None).
Proof.
  intros H1 Hnow Hreq Hok Hsteps. pose proof (coherent_reachable e s1 H1) as C1.
  destruct (password_write e now reason user newHash history reset_jti (at_world s1)) as [o w2] eqn:Ew. cbn [fst snd] in *. subst o.
  pose proof (password_write_done _ _ _ _ _ _ _ _ Ew) as (x & k & Hx & Hk & Hxt & Hss).
  set (s2 := {| at_world := w2; clock := now; requests := l1 ++ l2 |}) in *.
  assert (Hst : step e s1 s2).
  { pose proof (finish_change e s1 now reason user newHash history reset_jti l1 l2 Hnow Hreq) as H. by rewrite Ew in H. }
  assert (C3 : coherent e s3) by (eapply coherent_steps; [by eapply coherent_step|exact Hsteps]).
  split.
  - intros now' v t p r Hg Hr Hru Hrid. apply rotation_refused with p; [done|done|].
    assert (Hcl : closed [se_id r] s2).
    { split; cbn [at_world s2].
      - intros y ->%list_elem_of_singleton. rewrite Hss, map_update_where by done. by apply list_elem_of_fmap_2.
      - intros y Hy Hyid%list_elem_of_singleton. rewrite Hss in Hy. unfold update_where in Hy. apply list_elem_of_fmap in Hy as (y0 & -> & Hy0).
        assert (y0 = r) as ->.
        { eapply NoDup_map_inj; [apply (co_ids _ _ C1)|done|done|]. by destruct (of_user user y0). }
        unfold of_user. rewrite Hru, String.eqb_refl. cbn [andb]. by destruct (not_revoked r) eqn:En. }
    pose proof (closed_steps e _ _ _ Hcl Hsteps) as [_ Hall]. intros y Hy Hyid. apply Hall; [done|]. rewrite Hyid, <- Hrid. by left.
  - intros issued j uf token now' Hu Hi Ht Hn. eapply (old_token_refused now); [|done|done|done|done].
    eapply refusal_steps; [|exact Hsteps]. split; [cbn; lia|]. exists x, (now + k * 1000)%Z, k. split_and!; try done; lia.
Qed.

(** Tokens issued after the change are refused as well, while the key that refuses
    the old ones lasts. *)
Theorem new_tokens_refused now reason user newHash history reset_jti w w' k issued j uf token now' :
  password_write e now reason user newHash history reset_jti w = (Ok tt, w') -> getJwtExpirySeconds e = Ok k ->
  uf_id uf = user -> issueAccessToken e issued j uf = Ok token -> (now' < now + k * 1000)%Z ->
  verifyAccessToken e now' token w' = None.
Proof.
  intros Hw Hk Hu Ht Hlt. apply password_write_done in Hw as (x & k' & Hx & Hk' & Hxt & _). rewrite Hk in Hk'. injection Hk' as <-.
  apply issued_token in Ht as (a & k0 & expiry & scopes & -> & _).
  unfold verifyAccessToken. destruct (token_algorithm _) as [a'|]; [|done]. destruct (match a' with EdDSA => _ | HS256 => _ end) as [k'|]; [|done].
  destruct (jwt_verify a' k' _ _ now' _) as [p|] eqn:Ev; [|done].
  apply verify_signed in Ev as (k1 & _ & Hs & _). apply sign_payload in Hs. subst p.
  assert (Hrev : user_revoked now' (access_payload issued expiry j scopes uf) (redis w') = true).
  { unfold user_revoked. change (claim_of "sub" _) with (Some (CStr (uf_id uf))). rewrite Hu. apply bool_decide_eq_true.
    unfold get. rewrite Hx. unfold lives. rewrite Hxt. rewrite (proj2 (Z.ltb_lt _ _) Hlt). by eexists. }
  rewrite Hrev. by rewrite orb_true_r.
Qed.

(** ** What a token says *)

(** An access token that has been issued is verified, until it expires or is
    revoked, to what was put in. *)
Theorem access_roundtrip issued j uf token now w expiry scopes :
  issueAccessToken e issued j uf = Ok token -> getJwtExpirySeconds e = Ok expiry -> resolveScopes (uf_roles uf) = Ok scopes ->
  (forall k k', getJwtAlgorithm e = Ok EdDSA -> loadEdDsaPrivateKey e = Ok k -> loadEdDsaPublicKey e = Ok k' -> matches EdDSA k k') ->
  (getJwtAlgorithm e = Ok EdDSA -> is_ok (loadEdDsaPublicKey e) = true) ->
  (seconds now < seconds issued + expiry)%Z ->
  get now j (revoked_token (redis w)) = None -> get now (uf_id uf) (revoked_user (redis w)) = None ->
  verifyAccessToken e now token w =
    Some {| c_sub := uf_id uf; c_iat := seconds issued; c_exp := (seconds issued + expiry)%Z; c_jti := j; c_tid := uf_tenant uf;
            c_roles := map CStr (uf_roles uf); c_scopes := map CStr scopes; c_ev := emailVerified uf; c_unverified := negb (emailVerified uf) |}.
Proof.
  intros Ht He Hs Hpair Hpub Hlt Hj Hu. apply issued_token in Ht as (a & k & expiry' & scopes' & -> & He' & Ha & Hs' & Hk).
  rewrite He in He'. injection He' as <-. rewrite Hs in Hs'. injection Hs' as <-.
  unfold verifyAccessToken, token_algorithm. rewrite header_signed. set (p := access_payload issued expiry j scopes uf).
  assert (Hin : in_time now p) by (intros x; unfold p; rewrite claim_exp; intros [= <-]; done).
  assert (Hn : names "iss" (Some "oneplatform") p /\ names "aud" (Some "oneplatform") p).
  { unfold names, p, access_payload, claim_of, when_truthy. destruct (uf_email uf) as [m|], (displayName uf) as [n|];
      repeat (destruct (String.eqb _ _)); split; reflexivity. }
  assert (Htyped : typed_claims p = Some {| c_sub := uf_id uf; c_iat := seconds issued; c_exp := (seconds issued + expiry)%Z; c_jti := j;
    c_tid := uf_tenant uf; c_roles := map CStr (uf_roles uf); c_scopes := map CStr scopes; c_ev := emailVerified uf; c_unverified := negb (emailVerified uf) |}).
  { unfold typed_claims, p, access_payload, claim_of, when_truthy. destruct (uf_email uf) as [m|], (displayName uf) as [n|];
      repeat (destruct (String.eqb _ _)); reflexivity. }
  assert (Hrev : jti_revoked now p (redis w) || user_revoked now p (redis w) = false).
  { unfold jti_revoked, user_revoked. change (claim_of "jti" p) with (Some (CStr j)). change (claim_of "sub" p) with (Some (CStr (uf_id uf))).
    cbv beta iota. rewrite Hj, Hu. done. }
  destruct Hn as [Hn1 Hn2].
  assert (Hv : forall k', matches a k k' -> jwt_verify a k' (Some "oneplatform") (Some "oneplatform") now (jwt_sign a k p) = Ok p).
  { intros k' Hm. apply verify_signed. by exists k. }
  assert (Hal : (if String.eqb (algorithm_name a) "EdDSA" then Some EdDSA
                 else if String.eqb (algorithm_name a) "HS256" then Some HS256 else None) = Some a) by (by destruct a).
  rewrite Hal. destruct a.
  - rewrite Hk. rewrite Hv; [by rewrite Hrev|].
    unfold getJwtSecret in Hk. destruct (required e "OP_JWT_SECRET") as [s|]; [|done]. injection Hk as <-. by apply secret_matches.
  - specialize (Hpub Ha). destruct (loadEdDsaPublicKey e) as [k'|] eqn:Ek; [|done]. rewrite Hv; [by rewrite Hrev|].
    by apply (Hpair k k' Ha Hk).
Qed.
End Tokens.

(** ** Rotation by itself *)

Section Rotation.
Context {jwt : Jwt} (e : env).

(** A rotation up to its session. *)
Lemma rotate_start now v old w p :
  get now old (refresh (redis w)) = Some p ->
  rotateRefreshToken e now v old w =
    (let w1 := snd (rotate_consume now old w) in
     match rotate_check now p w1 with
     | Err err => (Err err, w1)
     | Ok remaining =>
         match rotate_commit now (newJti v) p w1 with
         | Err err => (Err err, w1)
         | Ok w2 =>
             let '(failed, w3) := rotate_write now remaining old (newToken v) (newJti v) p w2 in
             if failed : bool then (Err RedisFailed, w3)
             else match rotate_finish e now (accessJti v) p w3 with
                  | Err err => (Err err, w3)
                  | Ok issued => (Ok {| accessToken := fst issued; refreshToken := newToken v; expiresIn := snd issued |}, w3)
                  end
         end
     end).
Proof.
  intros Hg. unfold rotateRefreshToken. rewrite act_run.
  assert (Hf : fst (rotate_consume now old w) = Some p) by (unfold rotate_consume; rewrite getdel_spec, Hg; done).
  rewrite Hf. cbn zeta. set (w1 := snd (rotate_consume now old w)). rewrite act_inspect. destruct (rotate_check now p w1); [|done].
  rewrite act_statement. destruct (rotate_commit now (newJti v) p w1) as [w2|]; [|done].
  rewrite act_run. destruct (rotate_write now a old (newToken v) (newJti v) p w2) as [[] w3]; cbn [fst snd]; [done|].
  rewrite act_inspect. by destruct (rotate_finish e now (accessJti v) p w3).
Qed.

(** In the last second of a session its token cannot be rotated: the request fails,
    and the token is gone. *)
Theorem rotation_last_second now v old w p r :
  get now old (refresh (redis w)) = Some p -> find_session (sessionId p) (db w) = Some r -> revoked_at r = None ->
  (0 < expires_at r - now < 1000)%Z -> existsb (fun s => String.eqb (refresh_token_jti s) (newJti v)) (sessions (db w)) = false ->
  newToken v <> old ->
  let '(answered, w') := rotateRefreshToken e now v old w in
  answered = Err RedisFailed /\ get now old (refresh (redis w')) = None /\ get now (newToken v) (refresh (redis w')) = get now (newToken v) (refresh (redis w)).
Proof.
  intros Hg Hf Hr Ht Hj Hne. rewrite (rotate_start now v old w p Hg). cbn zeta. set (w1 := snd (rotate_consume now old w)).
  assert (Hw1 : db w1 = db w /\ refresh (redis w1) = del old (refresh (redis w))).
  { unfold w1, rotate_consume. rewrite getdel_spec, Hg. done. }
  destruct Hw1 as [Hdb Href].
  unfold rotate_check. rewrite Hdb, Hf. unfold not_revoked. rewrite Hr. cbn [negb]. rewrite (proj2 (Z.leb_gt _ _)) by lia.
  assert (Hq : ((expires_at r - now) / 1000 = 0)%Z) by (apply Z.div_small; lia). rewrite Hq.
  unfold rotate_commit, update_jti. rewrite Hdb.
  destruct (existsb (fun s => String.eqb (refresh_token_jti s) (newJti v) && _) (sessions (db w))) eqn:E.
  { exfalso. apply existsb_exists in E as (x & Hx & Hc). apply andb_true_iff in Hc as [Hc _].
    assert (existsb (fun s => String.eqb (refresh_token_jti s) (newJti v)) (sessions (db w)) = true) by (apply existsb_exists; eauto). congruence. }
  cbn. rewrite Href. rewrite !get_del, decide_True by done. by rewrite decide_False by done.
Qed.

(** A rotation of a user's only token takes the time to live from the set of the
    user's tokens. *)
Theorem rotation_drops_ttl now remaining old new j p w x :
  user_sessions (redis w) !! userId p = Some x -> lives now (expires x) = true -> content x = {[old]} ->
  user_sessions (redis (snd (rotate_write now remaining old new j p w))) !! userId p = Some {| content := {[new]}; expires := None |}.
Proof.
  intros Hx Hl Hc. unfold rotate_write. cbn.
  assert (Hs : srem now (userId p) old (user_sessions (redis w)) = del (userId p) (user_sessions (redis w))).
  { unfold srem, get. rewrite Hx, Hl, Hc. rewrite bool_decide_true; [done|]. set_solver. }
  rewrite Hs. unfold sadd, keep_ttl, smembers. rewrite get_del, decide_True by done. cbn. rewrite lookup_insert_eq.
  unfold del. rewrite lookup_delete_eq. do 2 f_equal. set_solver.
Qed.
End Rotation.
