(* ===== verification/PasswordSpec.v ===== *)
(** * What holds of passwords

    A new password is none of the last five, over any history of changes and
    resets that do not overlap; a reset link works once; and asking for a link tells nothing, where
    mail is configured. *)

From S2P Require Import Prelude JsString JsValue SqlTable AuthStore TokenService AuthService LockoutSpec AuthSystem.
From stdpp Require Import gmap strings.

Section Passwords.
Context {jwt : Jwt} {bcrypt : Bcrypt} {laws : BcryptLaws bcrypt} (e : env).

(** ** The history of passwords *)

(** The row has the hashes of the last six of these passwords, the newest first. *)
Definition remembers (ps : list string) (u : UserRow) : Prop :=
  ps = [] \/
  exists current, password_hash u = Some current /\
    forall i p, ps !! i = Some p -> i < 6 -> exists rounds salt, (current :: password_history u) !! i = Some (bcrypt_hash p rounds salt).

Lemma hash_ok password salt h : hash e password salt = Ok h -> password <> "" /\ exists rounds, h = bcrypt_hash password rounds salt.
Proof.
  unfold hash. destruct (resolveRounds e) as [n|]; cbn; [|done]. destruct (String.eqb_spec password ""); [done|]. intros [= <-]. eauto.
Qed.

Lemma password_change_history new salt u newHash history ps :
  password_change e new salt u = Ok (newHash, history) -> remembers ps u ->
  (forall i p, ps !! i = Some p -> i < 5 -> p <> new) /\ remembers (new :: ps) (set_password newHash history u).
Proof.
  unfold password_change. destruct (hash e new salt) as [h|] eqn:Eh; cbn [mbind result_mbind result_bind]; [|done].
  apply hash_ok in Eh as (Hne & rounds & ->). intros Hc [->|(current & Hcur & Hrem)].
  - split; [by intros i p Hi|]. destruct (match password_hash u with Some _ => _ | None => _ end); [done|]. injection Hc as <- <-.
    right. eexists. split; [done|]. intros [|i] p; [|done]. cbn. intros [= <-] _. by eexists _, _.
  - rewrite Hcur in Hc. destruct (existsb _ _) eqn:Er; [done|]. injection Hc as <- <-. split.
    + intros i p Hi Hlt ->. destruct (Hrem i new Hi ltac:(lia)) as (r & s & Hl).
      assert (Hin : bcrypt_hash new r s ∈ recent_hashes current (password_history u)).
      { unfold recent_hashes. change (current :: take _ _) with (take 5 (current :: password_history u)).
        apply list_elem_of_lookup. exists i. rewrite lookup_take_lt by lia. done. }
      pose proof (existsb_false _ _ _ Er Hin) as Hno. cbn in Hno. revert Hno. unfold compare.
      rewrite (proj2 (String.eqb_neq _ _) Hne), (proj2 (String.eqb_neq _ _) (hash_text _ _ _)). cbn. by rewrite hash_compare.
    + right. eexists. split; [done|]. intros [|i] p; [intros [= <-] _; by eexists _, _|]. intros Hi Hlt.
      destruct (Hrem i p Hi ltac:(lia)) as (r & s & Hl). exists r, s.
      change (take 5 (current :: password_history u) !! i = Some (bcrypt_hash p r s)). rewrite lookup_take_lt by lia. exact Hl.
Qed.

Lemma find_user_update user f d u : (forall x, u_id (f x) = u_id x) ->
  find_user user d = Some u -> find_user user (update_user user f d) = Some (f u).
Proof.
  intros Hf Hu. unfold find_user, update_user. cbn. apply (find_update_where _ _ f); [intros y; cbn; by rewrite Hf|exact Hu|].
  by apply find_row_spec in Hu as [_ ?].
Qed.

Lemma password_write_user now reason user newHash history reset_jti w u o w' :
  find_user user (db w) = Some u -> password_write e now reason user newHash history reset_jti w = (o, w') ->
  find_user user (db w') = Some (set_password newHash history u).
Proof.
  intros Hu. unfold password_write. rewrite act_modify. set (w1 := on_db _ w). intros Hw.
  assert (H1 : find_user user (db w1) = Some (set_password newHash history u)).
  { unfold w1, password_commit. cbn. destruct reset_jti; cbn; by apply (find_user_update user (set_password newHash history) (db w)). }
  assert (Hdb : db w' = db w1).
  { revert Hw. unfold revoke_user. rewrite act_modify, act_answer. destruct (getJwtExpirySeconds e) as [k|]; [|by intros [= _ <-]].
    unfold statement. destruct (set_ex _ _ _ _ _); cbn; by intros [= _ <-]. }
  by rewrite Hdb.
Qed.

(** The new passwords that requests have set for a user, one request after the other, the
    newest first.  Anything else may happen between, as long as it leaves the user's
    password. *)
Inductive password_run (user : string) : list string -> world -> Prop :=
| run_start w : is_Some (find_user user (db w)) -> password_run user [] w
| run_change ps w w' now salt current new :
    password_run user ps w -> changePassword e now salt user current new w = (Ok tt, w') -> password_run user (new :: ps) w'
| run_reset ps w w' now salt token new reset_jti :
    password_run user ps w -> resetPassword e now salt token new w = (Ok tt, w') ->
    read_purpose_token e now "password-reset" ResetTokenExpiredError ResetTokenInvalidError
      "Password reset token is invalid or malformed." "Token was not issued for password reset." token = Ok (user, reset_jti) ->
    password_run user (new :: ps) w'
| run_other ps w w' u u' :
    password_run user ps w -> find_user user (db w) = Some u -> find_user user (db w') = Some u' ->
    password_hash u' = password_hash u -> password_history u' = password_history u -> password_run user ps w'.

Lemma pass_reset_gate_db now j w : db (snd (pass_reset_gate now j w)) = db w.
Proof. unfold pass_reset_gate. by destruct (getdel now j _). Qed.

Lemma change_done now salt user current new w w' : changePassword e now salt user current new w = (Ok tt, w') ->
  exists u newHash history, find_user user (db w) = Some u /\ password_change e new salt u = Ok (newHash, history) /\
    password_write e now "password_changed" user newHash history None w = (Ok tt, w').
Proof.
  unfold changePassword. rewrite act_inspect. unfold change_read. destruct (find_user user (db w)) as [u|] eqn:Eu; [|done].
  destruct (password_hash u) as [h|]; [|done]. destruct (negb _); [done|].
  destruct (password_change e new salt u) as [[newHash history]|] eqn:Ec; [|done]. intros Hw. by exists u, newHash, history.
Qed.

Lemma reset_done now salt token new w w' user reset_jti :
  read_purpose_token e now "password-reset" ResetTokenExpiredError ResetTokenInvalidError
    "Password reset token is invalid or malformed." "Token was not issued for password reset." token = Ok (user, reset_jti) ->
  resetPassword e now salt token new w = (Ok tt, w') ->
  exists u newHash history, find_user user (db w) = Some u /\ password_change e new salt u = Ok (newHash, history) /\
    is_Some (fst (pass_reset_gate now reset_jti w)) /\
    password_write e now "password_reset" user newHash history (Some reset_jti) (snd (pass_reset_gate now reset_jti w)) = (Ok tt, w').
Proof.
  intros Ht. unfold resetPassword. rewrite act_bind. unfold reset_read. rewrite Ht, act_answer, act_run. cbn [fst snd].
  destruct (fst (pass_reset_gate now reset_jti w)) as [[]|]; [|done]. rewrite act_ask, pass_reset_gate_db.
  destruct (find_user user (db w)) as [u|] eqn:Eu; [|done]. rewrite act_answer.
  destruct (password_change e new salt u) as [[newHash history]|] eqn:Ec; [|done]. cbn. intros Hw. exists u, newHash, history.
  split_and!; [done|done|by eexists|done].
Qed.

Lemma run_remembers user ps w : password_run user ps w ->
  (exists u, find_user user (db w) = Some u /\ remembers ps u) /\
  (forall i j p q, i < j -> j <= i + 5 -> ps !! i = Some p -> ps !! j = Some q -> p <> q).
Proof.
  intros Hrun. assert (Hnew : forall ps new u newHash history salt,
    password_change e new salt u = Ok (newHash, history) -> remembers ps u ->
    (forall i j p q, i < j -> j <= i + 5 -> ps !! i = Some p -> ps !! j = Some q -> p <> q) ->
    forall i j p q, i < j -> j <= i + 5 -> (new :: ps) !! i = Some p -> (new :: ps) !! j = Some q -> p <> q).
  { clear Hrun w ps user. intros ps new u newHash history salt Hc Hr IH [|i] [|j] p q Hij Hle; try lia; cbn.
    - intros [= <-] Hj. apply not_eq_sym. eapply (proj1 (password_change_history _ _ _ _ _ _ Hc Hr)); [exact Hj|lia].
    - apply (IH i j); lia. }
  induction Hrun as [w [u Hu]|ps w w' now salt current new _ [(u & Hu & Hr) IH] Hc|ps w w' now salt token new rj _ [(u & Hu & Hr) IH] Hc Ht|
                  ps w w' u u' _ [(u0 & Hu0 & Hr) IH] Hu Hu' Hh Hhist].
  - split; [|by intros i j p q]. exists u. split; [done|by left].
  - apply change_done in Hc as (u1 & newHash & history & Hu1 & Hc & Hw). rewrite Hu in Hu1. injection Hu1 as <-.
    split; [|by eapply Hnew]. eexists. split; [by eapply password_write_user|]. by eapply password_change_history.
  - eapply reset_done in Hc as (u1 & newHash & history & Hu1 & Hc & _ & Hw); [|exact Ht]. rewrite Hu in Hu1. injection Hu1 as <-.
    split; [|by eapply Hnew]. eexists. split; [eapply password_write_user; [|exact Hw]; by rewrite pass_reset_gate_db|].
    by eapply password_change_history.
  - split; [|done]. exists u'. split; [done|]. rewrite Hu in Hu0. injection Hu0 as <-.
    destruct Hr as [->|(c & Hc & Hr)]; [by left|right]. exists c. rewrite Hh, Hhist. done.
Qed.

(** C21: However often a user's password is changed and reset, by requests of which each
    reads the user's row and writes it before the next one reads it, it is none of the five
    that were set before it.  (For requests that overlap see
    [AuthExample.overlapping_changes].) *)
Theorem six_distinct user ps w : password_run user ps w ->
  forall i j p q, i < j -> j <= i + 5 -> ps !! i = Some p -> ps !! j = Some q -> p <> q.
Proof. intros H. by apply run_remembers in H as [_ ?]. Qed.

(** ** A reset link works once *)

(** Leaves the gates of reset links, and the identifiers of the links, as they are. *)
Definition calm (w w' : world) : Prop :=
  reset_gate (redis w') = reset_gate (redis w) /\ map rr_jti (reset_tokens (db w')) = map rr_jti (reset_tokens (db w)).

#[local] Instance calm_preorder : PreOrder calm.
Proof. split; [by intros w|]. intros w1 w2 w3 [H1 H2] [H3 H4]. split; congruence. Qed.

#[local] Hint Extern 1 (calm _ _) => done : platform.

Lemma calm_statement f : (forall w w', f w = Ok w' -> calm w w') -> related calm (statement f).
Proof. intros H. apply related_statement; [exact _|done]. Qed.

Lemma calm_issue now token p : related calm (statement (issueRefreshToken e now token p)).
Proof.
  apply calm_statement. intros w w'. unfold issueRefreshToken. destruct (getRefreshTokenTtlSeconds e) as [s|]; cbn; [|done].
  unfold set_ex. destruct (0 <? s)%Z; cbn; [|done]. by intros [= <-].
Qed.

Lemma calm_db f : (forall d d', f d = Ok d' -> reset_tokens d' = reset_tokens d) -> related calm (db_statement f).
Proof. intros H. apply related_db; [exact _|]. intros w d Hd. split; [done|]. cbn. by rewrite (H _ _ Hd). Qed.

Lemma insert_session_resets s d d' : insert_session s d = Ok d' -> reset_tokens d' = reset_tokens d.
Proof. intros H. by apply insert_session_ok in H as [-> _]. Qed.
Lemma update_jti_resets id j used d d' : update_jti id j used d = Ok d' -> reset_tokens d' = reset_tokens d.
Proof. unfold update_jti. destruct (existsb _ _); [done|]. by intros [= <-]. Qed.
Lemma insert_user_resets u d d' : insert_user u d = Ok d' -> reset_tokens d' = reset_tokens d.
Proof. unfold insert_user. repeat (case_match; [done|]). by intros [= <-]. Qed.

#[local] Hint Resolve calm_issue : platform.
#[local] Hint Extern 2 (related calm (db_statement (insert_session _))) => (apply calm_db; intros ? ?; apply insert_session_resets) : platform.
#[local] Hint Extern 2 (related calm (db_statement (update_jti _ _ _))) => (apply calm_db; intros ? ?; apply update_jti_resets) : platform.
#[local] Hint Extern 2 (related calm (db_statement (insert_user _))) => (apply calm_db; intros ? ?; apply insert_user_resets) : platform.

Ltac calm_tac := repeat (related_step || (progress eauto with platform nocore)).

Lemma calm_open now v user : related calm (open_session e now v user).
Proof. unfold open_session, session_tokens. calm_tac. Qed.
#[local] Hint Resolve calm_open : platform.

Lemma calm_login now v d : related calm (login_finish e now v d).
Proof. unfold login_finish. calm_tac. Qed.

Lemma calm_register now new_id salt verify_jti v data : related calm (register_commit e now new_id salt verify_jti v data).
Proof.
  unfold register_commit. calm_tac.
Qed.

Lemma calm_logout now token access_jti access_exp user all : related calm (logout e now token access_jti access_exp user all).
Proof.
  unfold logout. apply related_bind; [exact _| |intros _; calm_tac]. apply calm_statement. intros w w'. unfold revokeAccessToken.
  destruct (_ <=? 0)%Z; [by intros [= <-]|]. destruct (getJwtExpirySeconds e); cbn; [|done]. destruct (set_ex _ _ _ _ _); cbn; [|done]. by intros [= <-].
Qed.

Lemma calm_verify now token : related calm (verifyEmail e now token).
Proof.
  unfold verifyEmail. calm_tac. apply related_run. intros w. unfold pass_verify_gate. by destruct (getdel now (snd a) _).
Qed.

Lemma calm_password now reason user newHash history reset_jti : related calm (password_write e now reason user newHash history reset_jti).
Proof.
  unfold password_write, revoke_user. apply related_bind; [exact _| |intros _; calm_tac].
  - apply related_modify. intros w. split; [done|]. unfold password_commit. destruct reset_jti; [|done]. by apply (map_update_where rr_jti).
  - apply calm_statement. intros w w'. destruct (set_ex _ _ _ _ _); cbn; [|done]. by intros [= <-].
Qed.

(** The gates that are there belong to links that have a row. *)
Definition gates_known (w : world) : Prop := forall j x, reset_gate (redis w) !! j = Some x -> j ∈ map rr_jti (reset_tokens (db w)).
(** A link that has been used. *)
Definition spent (j : string) (w : world) : Prop := reset_gate (redis w) !! j = None /\ j ∈ map rr_jti (reset_tokens (db w)).

Lemma calm_keeps j w w' : calm w w' -> gates_known w /\ spent j w -> gates_known w' /\ spent j w'.
Proof.
  intros [Hg Ht] [K [S1 S2]]. split; [|split].
  - intros i x. rewrite Hg, Ht. apply K.
  - by rewrite Hg.
  - by rewrite Ht.
Qed.

Lemma pass_gate_keeps j now i w : gates_known w /\ spent j w -> gates_known (snd (pass_reset_gate now i w)) /\ spent j (snd (pass_reset_gate now i w)).
Proof.
  unfold pass_reset_gate. rewrite getdel_spec. cbn. intros [K [S1 S2]]. destruct (get now i (reset_gate (redis w))); [|done].
  unfold gates_known, spent. cbn. unfold del. split_and!; [|by rewrite lookup_delete_None; right|done].
  intros i' x. rewrite lookup_delete_Some. intros [_ H]. by eapply K.
Qed.

Lemma reset_read_spec now token new salt w : 
  snd (reset_read e now token new salt w) =
    match read_purpose_token e now "password-reset" ResetTokenExpiredError ResetTokenInvalidError
      "Password reset token is invalid or malformed." "Token was not issued for password reset." token with
    | Ok claims => snd (pass_reset_gate now (snd claims) w)
    | Err _ => w
    end.
Proof.
  unfold reset_read. rewrite act_answer. destruct (read_purpose_token _ _ _ _ _ _ _ token) as [claims|]; [|done]. rewrite act_run.
  destruct (fst (pass_reset_gate now (snd claims) w)); [|done]. rewrite act_ask. destruct (find_user _ _); [|done].
  rewrite act_answer. by destruct (password_change _ _ _ _).
Qed.

Lemma reset_read_keeps j now token new salt w w' o : reset_read e now token new salt w = (o, w') ->
  gates_known w /\ spent j w -> gates_known w' /\ spent j w'.
Proof.
  intros H. pose proof (reset_read_spec now token new salt w) as E. rewrite H in E. cbn [snd] in E. subst w'.
  destruct (read_purpose_token _ _ _ _ _ _ _ token) as [claims|]; [apply pass_gate_keeps|done].
Qed.

(** What a request for a link does to the gates and the links. *)
Lemma forgot_world now i mail tenant w : existsb (fun r => String.eqb (rr_jti r) i) (reset_tokens (db w)) = false ->
  let w' := snd (forgotPassword e now i mail tenant w) in
  calm w w' \/ exists x, reset_gate (redis w') = <[i := x]> (reset_gate (redis w)) /\
                         map rr_jti (reset_tokens (db w')) = map rr_jti (reset_tokens (db w)) ++ [i].
Proof.
  intros Hi. cbn zeta. unfold forgotPassword. rewrite act_ask. destruct (find_email tenant mail (db w)) as [u|] eqn:Eu; [|by left].
  destruct (negb (is_active u)); [by left|]. rewrite act_answer. destruct (purpose_token _ _ _ _ _ _); [|by left].
  rewrite act_statement. unfold set_ex. change (0 <? 3600)%Z with true. cbn [redis_ok map_err mbind result_mbind result_bind]. rewrite act_db. unfold insert_reset. cbn [db on_redis]. rewrite Hi.
  assert (Hin : existsb (fun x => String.eqb (u_id x) (u_id u)) (users (db w)) = true).
  { apply existsb_exists. apply find_row_spec in Eu as [Hu _]. exists u. split; [by apply list_elem_of_In|apply String.eqb_refl]. }
  rewrite Hin. cbn [negb]. right. destruct (hasSmtp e); [|destruct (negb (isDev e))];
    (eexists; split; [reflexivity|]; cbn; by rewrite map_app).
Qed.

Lemma forgot_keeps j now i mail tenant w : existsb (fun r => String.eqb (rr_jti r) i) (reset_tokens (db w)) = false ->
  gates_known w /\ spent j w ->
  gates_known (snd (forgotPassword e now i mail tenant w)) /\ spent j (snd (forgotPassword e now i mail tenant w)).
Proof.
  intros Hi Hw. destruct (forgot_world now i mail tenant w Hi) as [Hc|(x & Hg & Ht)]; [by eapply calm_keeps|].
  destruct Hw as [K [S1 S2]]. unfold gates_known, spent. rewrite Hg, Ht. split_and!.
  - intros i' y. destruct (decide (i = i')) as [<-|Hne]; [intros _; apply elem_of_app; right; by left|].
    rewrite lookup_insert_ne by done. intros Hy. apply elem_of_app. left. by eapply K.
  - rewrite lookup_insert_ne; [done|]. intros ->. apply list_elem_of_fmap in S2 as (r & -> & Hr).
    pose proof (existsb_false _ _ _ Hi Hr) as H. cbn in H. by rewrite String.eqb_refl in H.
  - apply elem_of_app. by left.
Qed.

Lemma spent_step j s s' : step e s s' -> gates_known (at_world s) /\ spent j (at_world s) -> gates_known (at_world s') /\ spent j (at_world s').
Proof.
  intros H. destruct H; cbn [at_world]; try done.
  - eapply calm_keeps, calm_login.
  - eapply calm_keeps, calm_register.
  - eapply calm_keeps, calm_logout.
  - by apply forgot_keeps.
  - eapply calm_keeps, calm_verify.
  - by eapply reset_read_keeps.
  - by eapply reset_read_keeps.
  - eapply calm_keeps, calm_password.
  - apply calm_keeps. revert H0. unfold rotate_consume. rewrite getdel_spec. by intros [= _ <-].
  - apply calm_keeps. revert H1. unfold rotate_commit, update_jti. destruct (existsb _ _); [done|]. by intros [= <-].
Qed.

Lemma spent_steps j s s' : steps e s s' -> gates_known (at_world s) /\ spent j (at_world s) -> gates_known (at_world s') /\ spent j (at_world s').
Proof. induction 1; [done|]. intros Hs. eapply spent_step; [done|by apply IHsteps]. Qed.

Lemma known_step s s' : step e s s' -> gates_known (at_world s) -> gates_known (at_world s').
Proof.
  assert (Hc : forall w w', calm w w' -> gates_known w -> gates_known w') by (intros w w' [Hg Ht] K i x; rewrite Hg, Ht; apply K).
  assert (Hp : forall now i w, gates_known w -> gates_known (snd (pass_reset_gate now i w))).
  { intros now i w K i' x. unfold pass_reset_gate. rewrite getdel_spec. cbn. destruct (get now i (reset_gate (redis w))); [|apply K].
    unfold del. rewrite lookup_delete_Some. intros [_ H]. by eapply K. }
  assert (Hr : forall now token new salt w w' o, reset_read e now token new salt w = (o, w') -> gates_known w -> gates_known w').
  { intros now token new salt w w' o H. pose proof (reset_read_spec now token new salt w) as E. rewrite H in E. cbn [snd] in E. subst w'.
    destruct (read_purpose_token _ _ _ _ _ _ _ token) as [claims|]; [apply Hp|done]. }
  intros H. destruct H; cbn [at_world]; try done.
  - eapply Hc, calm_login.
  - eapply Hc, calm_register.
  - eapply Hc, calm_logout.
  - destruct (forgot_world now reset_jti mail tenant (at_world s) H0) as [H1|(x & Hg & Ht)]; [by apply Hc|].
    intros K i y. rewrite Hg, Ht. destruct (decide (reset_jti = i)) as [<-|Hne]; [intros _; apply elem_of_app; right; by left|].
    rewrite lookup_insert_ne by done. intros Hy. apply elem_of_app. left. by eapply K.
  - eapply Hc, calm_verify.
  - by eapply Hr.
  - by eapply Hr.
  - eapply Hc, calm_password.
  - apply Hc. revert H0. unfold rotate_consume. rewrite getdel_spec. by intros [= _ <-].
  - apply Hc. revert H1. unfold rotate_commit, update_jti. destruct (existsb _ _); [done|]. by intros [= <-].
Qed.

Lemma known_reachable s : reachable e s -> gates_known (at_world s).
Proof.
  intros (s0 & (_ & _ & _ & _ & Hg & _) & H). induction H as [s|s1 s2 s3 H IH Hs].
  - intros j x. by rewrite Hg, lookup_empty.
  - eapply known_step; [exact Hs|]. by apply IH.
Qed.

Definition reads_as (now : Z) (token user reset_jti : string) : Prop :=
  read_purpose_token e now "password-reset" ResetTokenExpiredError ResetTokenInvalidError
    "Password reset token is invalid or malformed." "Token was not issued for password reset." token = Ok (user, reset_jti).

(** A link for resetting a password works once: after one request has passed its
    gate, whether or not it then sets a password, no later request does. *)
Theorem reset_link_once s1 s2 now salt token new user reset_jti :
  reachable e s1 -> (clock s1 <= now)%Z -> reads_as now token user reset_jti ->
  fst (resetPassword e now salt token new (at_world s1)) <> Err ResetTokenUsedError ->
  forall w1 rs, w1 = snd (reset_read e now token new salt (at_world s1)) ->
  steps e {| at_world := w1; clock := now; requests := rs |} s2 ->
  forall now' salt' token' new' user', reads_as now' token' user' reset_jti ->
    fst (resetPassword e now' salt' token' new' (at_world s2)) = Err ResetTokenUsedError.
Proof.
  intros H1 Hnow Ht Hok w1 rs -> Hsteps now' salt' token' new' user' Ht'.
  pose proof (known_reachable s1 H1) as K. pose proof (reset_read_spec now token new salt (at_world s1)) as E.
  unfold reads_as in Ht, Ht'. rewrite Ht in E. cbn [snd] in E.
  assert (Hg : is_Some (get now reset_jti (reset_gate (redis (at_world s1))))).
  { destruct (get now reset_jti (reset_gate (redis (at_world s1)))) as [[]|] eqn:Eg; [by eexists|]. destruct Hok.
    unfold resetPassword. rewrite act_bind. unfold reset_read. rewrite Ht, act_answer, act_run. unfold pass_reset_gate at 1 2. cbn [fst snd].
    rewrite getdel_spec, Eg. done. }
  assert (Hs : gates_known (snd (reset_read e now token new salt (at_world s1))) /\ spent reset_jti (snd (reset_read e now token new salt (at_world s1)))).
  { rewrite E. destruct Hg as [[] Hg]. unfold pass_reset_gate. rewrite getdel_spec, Hg. unfold gates_known, spent, del. cbn. split_and!.
    - intros j x. rewrite lookup_delete_Some. intros [_ Hx]. by eapply K.
    - apply lookup_delete_eq.
    - revert Hg. unfold get. destruct (reset_gate _ !! reset_jti) as [x|] eqn:Ex; [|done]. intros _. by eapply K. }
  apply (spent_steps reset_jti _ _ Hsteps) in Hs as [_ [Hs _]].
  unfold resetPassword. rewrite act_bind. unfold reset_read. rewrite Ht', act_answer, act_run. unfold pass_reset_gate at 1 2. cbn [fst snd].
  rewrite getdel_spec. unfold get. rewrite Hs. done.
Qed.

(** What asking for a link answers.  With mail configured it is the same for every
    address; without, outside development, it fails for the addresses of accounts. *)
Theorem forgot_answers now j mail tenant w k :
  getPurposeTokenSecret e = Ok k -> existsb (fun r => String.eqb (rr_jti r) j) (reset_tokens (db w)) = false ->
  fst (forgotPassword e now j mail tenant w) =
    match find_email tenant mail (db w) with
    | Some u =>
        if negb (is_active u) || hasSmtp e then Ok None
        else if isDev e then
          Ok (Some (getBaseUrl e +:+ "/reset-password?token=" +:+
                    jwt_sign HS256 k [("sub", CStr (u_id u)); ("purpose", CStr "password-reset"); ("jti", CStr j);
                                      ("iat", CNum (seconds now)); ("exp", CNum (seconds now + 3600)%Z)]))
        else Err (NotConfigured "OP_SMTP_HOST")
    | None => Ok None
    end.
Proof.
  intros Hk Hj. unfold forgotPassword. rewrite act_ask. destruct (find_email tenant mail (db w)) as [u|] eqn:Eu; [|done].
  destruct (is_active u); cbn [negb orb]; [|done]. unfold purpose_token. rewrite Hk. rewrite act_answer. cbn [mbind result_mbind result_bind].
  rewrite act_statement. unfold set_ex. change (0 <? 3600)%Z with true. cbn [redis_ok map_err mbind result_mbind result_bind]. rewrite act_db. unfold insert_reset. cbn [db on_redis]. rewrite Hj.
  assert (Hin : existsb (fun x => String.eqb (u_id x) (u_id u)) (users (db w)) = true).
  { apply existsb_exists. apply find_row_spec in Eu as [Hu _]. exists u. split; [by apply list_elem_of_In|apply String.eqb_refl]. }
  rewrite Hin. cbn [negb]. destruct (hasSmtp e); [done|]. by destruct (isDev e).
Qed.
End Passwords.
