(* ===== verification/AuthExample.v ===== *)
(** * The authentication service at work

    A small deployment, on the model of jose and bcrypt of AuthSystem, in which the
    theorems on logins, tokens and passwords apply. *)

From S2P Require Import Prelude JsString JsValue SqlTable AuthStore TokenService AuthService LockoutSpec AuthSystem TokenSpec PasswordSpec.
From stdpp Require Import gmap strings.

#[local] Existing Instance toy_jwt.
#[local] Existing Instance toy_bcrypt.

Definition toy_env : env := fun k =>
  if String.eqb k "OP_JWT_SECRET" then Some "s" else if String.eqb k "OP_SMTP_HOST" then Some "mail" else None.

Definition ann : UserRow :=
  {| u_id := "ann"; u_tenant := "t"; email := "ann@a.b"; password_hash := Some "$pw"; email_verified := true; is_active := true;
     display_name := None; roles := ["viewer"]; last_login_at := None; failed_login_count := 0; locked_until := None; password_history := [] |}.

Definition toy_world : world :=
  {| db := {| tenants := [{| t_id := "t"; t_name := "T" |}]; users := [ann]; sessions := []; reset_tokens := [] |};
     redis := {| refresh := ∅; token_family := ∅; refresh_family := ∅; user_sessions := ∅; revoked_token := ∅; revoked_user := ∅;
                 reset_gate := ∅; verify_gate := ∅ |} |}.

Definition toy_values : session_values :=
  {| sv_session := "s1"; sv_family := "f1"; sv_first_jti := "j0"; sv_access_jti := "a1"; sv_refresh_jti := "j1"; sv_token := "r1" |}.

Definition ann_login : LoginInput := {| lg_email := "Ann@a.b"; lg_password := "pw"; lg_tenant := "t" |}.
Definition try_at (t : Z) (p : string) : attempt := {| at_time := t; at_values := toy_values; at_password := p |}.

(** ** Logins *)

Lemma guesses_bounded_witness :
  (Z.of_nat (guesses (run_attempts toy_env ann_login [try_at 0 "a"; try_at 1 "b"; try_at 2 "c"; try_at 3 "d"; try_at 4 "x"; try_at 5 "y"; try_at 1800004 "z"] toy_world).1)
    <= readLockoutMaxAttempts toy_env + (1800004 - 0) / readLockoutDurationMs toy_env)%Z.
Proof.
  apply (guesses_bounded toy_env ann_login
    [try_at 0 "a"; try_at 1 "b"; try_at 2 "c"; try_at 3 "d"; try_at 4 "x"; try_at 5 "y"; try_at 1800004 "z"] 0 toy_world ann).
  - reflexivity.
  - reflexivity.
  - cbn. repeat split; lia.
  - vm_compute. reflexivity.
Defined.

Lemma overlapping_guesses_witness :
  exists row, account ann_login (finish_all toy_env ann_login toy_world (map (fun p => try_at 0 p) ["a"; "b"; "c"; "d"; "x"; "y"; "z"]) toy_world) = Some row
    /\ failed_login_count row = 1%Z /\ locked_until row = None.
Proof.
  apply (overlapping_guesses toy_env ann_login (map (fun p => try_at 0 p) ["a"; "b"; "c"; "d"; "x"; "y"; "z"]) toy_world ann).
  - reflexivity.
  - discriminate.
  - repeat constructor.
  - vm_compute. reflexivity.
Defined.

(** ** A session, its rotation, and a replay *)

Definition sys0 : sys := {| at_world := toy_world; clock := 0; requests := [] |}.

Definition logged_in : sys :=
  {| at_world := snd (login_finish toy_env 10 toy_values (RightPassword ann) toy_world); clock := 10; requests := [] |}.

Definition payload1 : RefreshTokenPayload := {| userId := "ann"; tenantId := "t"; sessionId := "s1"; jti := "j1"; familyId := "f1" |}.

Definition consumed : sys :=
  {| at_world := snd (rotate_consume 20 "r1" (at_world logged_in)); clock := 20; requests := [Rotating "r1" payload1 Consumed] |}.

Lemma login_reachable : reachable toy_env logged_in.
Proof.
  exists sys0. split; [by repeat split|].
  eapply steps_trans; [eapply steps_trans; [apply steps_refl|apply (start_login toy_env sys0 5 ann_login); cbn; lia]|].
  refine (finish_login toy_env {| at_world := toy_world; clock := 5; requests := [LoggingIn (RightPassword ann)] |} 10 toy_values (RightPassword ann) [] [] _ eq_refl _);
    [cbn; lia|]. split; [|reflexivity]. intros (r & Hr & _). by apply not_elem_of_nil in Hr.
Qed.

Lemma consumed_reachable : reachable toy_env consumed.
Proof.
  destruct login_reachable as (s0 & H0 & H). exists s0. split; [done|]. eapply steps_trans; [exact H|].
  apply (start_rotation toy_env logged_in 20 "r1" payload1); [cbn; lia|]. vm_compute. reflexivity.
Qed.

Lemma one_holder_witness :
  rotating (requests consumed) = [payload1] /\
  forall now t p, get now t (refresh (redis (at_world consumed))) = Some p -> familyId p <> "f1".
Proof.
  split; [reflexivity|]. intros now t p Hg.
  exact (proj1 (proj2 (one_holder toy_env consumed consumed_reachable)) now t p payload1 Hg ltac:(by left)).
Defined.

(** The rotation ends, and the old token comes again. *)
Definition committed_world : world := match rotate_commit 20 "j2" payload1 (at_world consumed) with Ok w => w | Err _ => toy_world end.
Definition rotated : sys :=
  {| at_world := snd (rotate_write 20 604799 "r1" "r2" "j2" payload1 committed_world); clock := 20; requests := [] |}.

Lemma rotated_reachable : reachable toy_env rotated.
Proof.
  destruct consumed_reachable as (s0 & H0 & H). exists s0. split; [done|].
  eapply steps_trans; [eapply steps_trans; [eapply steps_trans; [exact H|]|]|].
  - apply (check_rotation toy_env consumed 20 "r1" payload1 604799 [] []); [cbn; lia|reflexivity|]. vm_compute. reflexivity.
  - apply (commit_rotation toy_env _ 20 "r1" payload1 604799 "j2" committed_world [] []); [cbn; lia|reflexivity|]. vm_compute. reflexivity.
  - refine (write_rotation toy_env {| at_world := committed_world; clock := 20; requests := [Rotating "r1" payload1 (Committed 604799 "j2")] |}
      20 "r1" payload1 604799 "j2" "r2" [] [] _ eq_refl _); [cbn; lia|]. vm_compute. reflexivity.
Qed.

Definition payload2 : RefreshTokenPayload := with_jti "j2" payload1.
Definition other_values : rotation_values := {| newJti := "j3"; newToken := "r3"; accessJti := "a3" |}.

Lemma replay_ends_family_witness :
  get 40 "r2" (refresh (redis (at_world rotated))) = Some payload2 /\
  fst (rotateRefreshToken toy_env 40 other_values "r2" (snd (replay_revoke 30 "f1" (at_world rotated)))) = Err SessionRevokedError.
Proof.
  split; [vm_compute; reflexivity|].
  refine (replay_ends_family toy_env rotated _ 30 "r1" "f1" rotated_reachable _ _ _ (steps_refl _ _) 40 other_values "r2" payload2 _ _).
  - cbn. lia.
  - vm_compute. reflexivity.
  - vm_compute. reflexivity.
  - vm_compute. reflexivity.
  - reflexivity.
Defined.

(** ** A change of password *)

Definition changing : sys :=
  {| at_world := at_world logged_in; clock := 20; requests := [Changing "password_changed" "ann" "$new" ["$pw"] None] |}.

Lemma changing_reachable : reachable toy_env changing.
Proof.
  destruct login_reachable as (s0 & H0 & H). exists s0. split; [done|]. eapply steps_trans; [exact H|].
  apply (start_change toy_env logged_in 20 "ann" "pw" "new" "x"); [cbn; lia|]. vm_compute. reflexivity.
Qed.

Definition access1 : string := match issueAccessToken toy_env 10 "a1" (token_user ann) with Ok t => t | Err _ => "" end.

Definition changed : world := snd (password_write toy_env 30 "password_changed" "ann" "$new" ["$pw"] None (at_world changing)).

Lemma password_change_final_witness :
  is_Some (verifyAccessToken toy_env 25 access1 (at_world changing)) /\ verifyAccessToken toy_env 40 access1 changed = None.
Proof.
  split; [vm_compute; by eexists|].
  refine (proj2 (password_change_final toy_env changing {| at_world := changed; clock := 30; requests := [] |} 30 "password_changed" "ann" "$new" ["$pw"] None [] []
    changing_reachable _ eq_refl _ (steps_refl _ _)) 10%Z "a1" (token_user ann) access1 40%Z eq_refl _ _ _).
  - cbn. lia.
  - vm_compute. reflexivity.
  - lia.
  - vm_compute. reflexivity.
  - cbn. lia.
Defined.

Lemma access_roundtrip_witness :
  verifyAccessToken toy_env 899999 access1 (at_world logged_in) =
    Some {| c_sub := "ann"; c_iat := 0; c_exp := 900; c_jti := "a1"; c_tid := "t"; c_roles := [CStr "viewer"];
            c_scopes := map CStr ["data:read"; "ontology:read"; "pipelines:read"; "apps:read"; "logs:read"; "lineage:read"];
            c_ev := true; c_unverified := false |}.
Proof.
  apply (access_roundtrip toy_env 10 "a1" (token_user ann) access1 899999 (at_world logged_in) 900
    ["data:read"; "ontology:read"; "pipelines:read"; "apps:read"; "logs:read"; "lineage:read"]); try (vm_compute; reflexivity); done.
Defined.

(** ** Passwords *)

Definition after_change (p q : string) (w : world) : world := snd (changePassword toy_env 10 "x" "ann" p q w).

Fixpoint after_changes (p : string) (l : list string) (w : world) : world :=
  match l with [] => w | q :: l => after_changes q l (after_change p q w) end.

Fixpoint all_changed (p : string) (l : list string) (w : world) : bool :=
  match l with [] => true | q :: l => is_ok (fst (changePassword toy_env 10 "x" "ann" p q w)) && all_changed q l (after_change p q w) end.

Lemma run_changes l : forall p ps w, password_run toy_env "ann" ps w -> all_changed p l w = true ->
  password_run toy_env "ann" (rev l ++ ps) (after_changes p l w).
Proof.
  induction l as [|q l IH]; intros p ps w Hw Hl; [done|]. cbn in Hl |- *. apply andb_true_iff in Hl as [Hq Hl].
  rewrite <- app_assoc. apply IH; [|done]. eapply (run_change toy_env "ann" ps w _ 10 "x" p q); [done|].
  unfold after_change. destruct (changePassword toy_env 10 "x" "ann" p q w) as [[[]|] w']; done.
Qed.

Definition six_passwords : list string := ["one"; "two"; "three"; "four"; "five"; "six"].

(** Six changes in turn; the first of the six passwords is refused, and the one before is
    free again. *)
Lemma six_distinct_witness :
  password_run toy_env "ann" (rev six_passwords) (after_changes "pw" six_passwords toy_world) /\ "six" <> "one" /\
  fst (changePassword toy_env 10 "x" "ann" "six" "two" (after_changes "pw" six_passwords toy_world)) = Err PasswordReuseError /\
  fst (changePassword toy_env 10 "x" "ann" "six" "pw" (after_changes "pw" six_passwords toy_world)) = Ok tt.
Proof.
  assert (H : password_run toy_env "ann" (rev six_passwords) (after_changes "pw" six_passwords toy_world)).
  { rewrite <- (app_nil_r (rev six_passwords)). apply run_changes; [constructor; by eexists|vm_compute; reflexivity]. }
  split_and!; [exact H| |vm_compute; reflexivity..].
  exact (six_distinct toy_env "ann" _ _ H 0 5 "six" "one" ltac:(lia) ltac:(lia) eq_refl eq_refl).
Defined.

(** Two changes that overlap: both have read the row when the first is written.  The second
    writes the history that it has read, so the password of the first is not in it and can be
    set again at once. *)
Definition write_change (now : Z) (c : result auth_error (string * list string)) (w : world) : world :=
  match c with Ok (h, history) => snd (password_write toy_env now "password_changed" "ann" h history None w) | Err _ => w end.

Example overlapping_changes :
  let c1 := change_read toy_env "ann" "pw" "one" "x" toy_world in
  let c2 := change_read toy_env "ann" "pw" "two" "x" toy_world in
  is_ok c1 = true /\ is_ok c2 = true /\
  fst (changePassword toy_env 12 "x" "ann" "two" "one" (write_change 11 c2 (write_change 10 c1 toy_world))) = Ok tt.
Proof. split_and!; vm_compute; reflexivity. Qed.

Definition reset_token : string := match purpose_token toy_env 5 3600 "ann" "password-reset" "k1" with Ok t => t | Err _ => "" end.
Definition asked : sys := {| at_world := snd (forgotPassword toy_env 5 "k1" "ann@a.b" "t" toy_world); clock := 5; requests := [] |}.

Lemma asked_reachable : reachable toy_env asked.
Proof.
  exists sys0. split; [by repeat split|]. eapply steps_trans; [apply steps_refl|].
  apply (do_forgot toy_env sys0 5 "k1" "ann@a.b" "t"); [cbn; lia|reflexivity].
Qed.

(** The first use of the link is refused, because it names the password that ann has;
    the second use finds the link spent. *)
Lemma reset_link_once_witness :
  fst (resetPassword toy_env 6 "x" reset_token "pw" (at_world asked)) = Err PasswordReuseError /\
  fst (resetPassword toy_env 7 "x" reset_token "new" (snd (reset_read toy_env 6 reset_token "pw" "x" (at_world asked)))) = Err ResetTokenUsedError.
Proof.
  split; [vm_compute; reflexivity|].
  refine (reset_link_once toy_env asked {| at_world := _; clock := 6; requests := [] |} 6 "x" reset_token "pw" "ann" "k1" asked_reachable _ _ _
    _ [] eq_refl (steps_refl _ _) 7 "x" reset_token "new" "ann" _).
  - cbn. lia.
  - vm_compute. reflexivity.
  - vm_compute. discriminate.
  - vm_compute. reflexivity.
Defined.
