(* ===== verification/ApiKeyService.v ===== *)
(** * API keys

    services/auth/src/services/api-key-service.ts, over the table auth.api_keys with
    its constraints and the keys in Redis that revoke one.  A key's time of creation
    has the microseconds of the database; the code sees its milliseconds. *)

From S2P Require Import Prelude JsString JsNumber JsValue SqlTable AuthStore TokenService AuthService AuthSystem.
From Stdlib Require Import Ascii.
From stdpp Require Import gmap strings.

Record ApiKeyRow : Type := {
  ak_id : string;
  ak_user : string;
  ak_tenant : string;
  ak_name : string;
  key_hash : string;
  key_prefix : string;
  scopes : list string;
  ak_expires : option Z;
  ak_last_used : option Z;
  ak_created : Z;                 (* microseconds *)
  ak_revoked : option Z;
  revoked_by : option string
}.

Record key_world : Type := { base : world; api_keys : list ApiKeyRow; key_revocation : keys unit }.

Definition with_keys (l : list ApiKeyRow) (w : key_world) : key_world :=
  {| base := base w; api_keys := l; key_revocation := key_revocation w |}.
Definition with_key_revocation (m : keys unit) (w : key_world) : key_world :=
  {| base := base w; api_keys := api_keys w; key_revocation := m |}.

Inductive key_error : Type :=
| ForbiddenScope (scope : string)
| NotOwner
| KeyNotFound
| InvalidCursor
| KeyConstraint (name : string)
| KeyRedis.

(** ** Creation *)

Definition KEY_PREFIX_TEXT : string := "op_live_".
Definition PREFIX_CHARS : nat := 8.

(** [s.substring(0, n)] and [s.substring(n)] *)
Definition first_chars (n : nat) (s : string) : string := implode (take n (explode s)).
Definition from_char (n : nat) (s : string) : string := implode (drop n (explode s)).

(** The full key and its prefix; [randomPart] is random. *)
Definition generateRawKey (randomPart : string) : string * string :=
  (KEY_PREFIX_TEXT +:+ randomPart, first_chars PREFIX_CHARS randomPart).

Definition getBcryptRounds (e : env) : Z :=
  match e "OP_BCRYPT_ROUNDS" with
  | None => DEFAULT_BCRYPT_ROUNDS
  | Some raw =>
      match parseInt10 raw with
      | None => DEFAULT_BCRYPT_ROUNDS
      | Some n => if (n <? MIN_BCRYPT_ROUNDS)%Z then DEFAULT_BCRYPT_ROUNDS else n
      end
  end.

(** The checks come before the unique indexes, and the references last. *)
Definition insert_key (r : ApiKeyRow) (w : key_world) : result key_error key_world :=
  if String.eqb (trim (ak_name r)) "" then Err (KeyConstraint "api_keys_name_not_empty")
  else if negb (String.length (key_prefix r) =? PREFIX_CHARS)%nat then Err (KeyConstraint "api_keys_prefix_length")
  else if existsb (fun x => String.eqb (ak_id x) (ak_id r)) (api_keys w) then Err (KeyConstraint "api_keys_pkey")
  else if existsb (fun x => String.eqb (ak_user x) (ak_user r) && String.eqb (ak_name x) (ak_name r)) (api_keys w)
  then Err (KeyConstraint "api_keys_name_per_user")
  else if negb (existsb (fun u => String.eqb (u_id u) (ak_user r)) (users (db (base w)))) then Err (KeyConstraint "api_keys_user_id_fkey")
  else if negb (existsb (fun t => String.eqb (t_id t) (ak_tenant r)) (tenants (db (base w)))) then Err (KeyConstraint "api_keys_tenant_id_fkey")
  else Ok (with_keys (api_keys w ++ [r]) w).

Record CreateApiKeyInput : Type := { ck_name : string; ck_scopes : list string; ck_expires : option Z }.

(** The random values of a new key, and its time. *)
Record key_values : Type := { kv_id : string; kv_random : string; kv_salt : string; kv_created : Z }.

Definition new_key {bcrypt : Bcrypt} (e : env) (v : key_values) (user tenant name : string) (requested : list string) (expires : option Z) : ApiKeyRow :=
  let '(fullKey, prefix) := generateRawKey (kv_random v) in
  {| ak_id := kv_id v; ak_user := user; ak_tenant := tenant; ak_name := name; key_hash := bcrypt_hash fullKey (getBcryptRounds e) (kv_salt v);
     key_prefix := prefix; scopes := requested; ak_expires := expires; ak_last_used := None; ak_created := kv_created v; ak_revoked := None;
     revoked_by := None |}.

Section Keys.
Context {bcrypt : Bcrypt} (e : env).

Definition create (v : key_values) (userId tenantId : string) (data : CreateApiKeyInput) (callerScopes : list string) (w : key_world) :
    result key_error (string * key_world) :=
  match List.find (fun s => negb (mem s callerScopes)) (ck_scopes data) with
  | Some s => Err (ForbiddenScope s)
  | None =>
      w ← insert_key (new_key e v userId tenantId (ck_name data) (ck_scopes data) (ck_expires data)) w;
      Ok (fst (generateRawKey (kv_random v)), w)
  end.

(** ** Validation *)

Record UserContext : Type := {
  uc_user : string; uc_tenant : string; uc_roles : list string; uc_scopes : list string; uc_verified : bool
}.

(** The rows that a lookup by prefix gives: at most five. *)
Definition candidate (now : Z) (prefix : string) (r : ApiKeyRow) : bool :=
  String.eqb (key_prefix r) prefix && (match ak_revoked r with None => true | _ => false end)
  && (match ak_expires r with None => true | Some t => (now <? t)%Z end).

Definition candidates (now : Z) (prefix : string) (w : key_world) : list ApiKeyRow :=
  take 5 (List.filter (candidate now prefix) (api_keys w)).

Definition validate (now : Z) (key : string) (w : key_world) : option UserContext :=
  if negb (startsWith key KEY_PREFIX_TEXT) then None
  else
    let prefix := first_chars PREFIX_CHARS (from_char (String.length KEY_PREFIX_TEXT) key) in
    if (String.length prefix <? PREFIX_CHARS)%nat then None
    else
      match List.find (fun r => bcrypt_compare key (key_hash r)) (candidates now prefix w) with
      | None => None
      | Some r =>
          match get now (ak_id r) (key_revocation w) with
          | Some _ => None
          | None =>
              let found := find_user (ak_user r) (db (base w)) in
              Some {| uc_user := ak_user r; uc_tenant := ak_tenant r; uc_roles := default [] (roles <$> found); uc_scopes := scopes r;
                      uc_verified := default true (email_verified <$> found) |}
          end
      end.

Definition set_last_used (now : Z) (r : ApiKeyRow) : ApiKeyRow :=
  {| ak_id := ak_id r; ak_user := ak_user r; ak_tenant := ak_tenant r; ak_name := ak_name r; key_hash := key_hash r; key_prefix := key_prefix r;
     scopes := scopes r; ak_expires := ak_expires r; ak_last_used := Some now; ak_created := ak_created r; ak_revoked := ak_revoked r;
     revoked_by := revoked_by r |}.

(** The update that follows a validation later, by itself. *)
Definition touch (now : Z) (id : string) (w : key_world) : key_world :=
  with_keys (update_where (fun r => String.eqb (ak_id r) id) (set_last_used now) (api_keys w)) w.

(** ** Revocation and rotation *)

Definition REVOCATION_TTL_SECONDS : Z := (30 * 24 * 60 * 60)%Z.

Definition set_revoked (now : Z) (by_user : string) (r : ApiKeyRow) : ApiKeyRow :=
  {| ak_id := ak_id r; ak_user := ak_user r; ak_tenant := ak_tenant r; ak_name := ak_name r; key_hash := key_hash r; key_prefix := key_prefix r;
     scopes := scopes r; ak_expires := ak_expires r; ak_last_used := ak_last_used r; ak_created := ak_created r; ak_revoked := Some now;
     revoked_by := Some by_user |}.

Definition key_live (r : ApiKeyRow) : bool := match ak_revoked r with None => true | Some _ => false end.

Definition flag_revoked (now : Z) (keyId : string) (w : key_world) : result key_error key_world :=
  m ← map_err (fun _ => KeyRedis) (set_ex now keyId tt REVOCATION_TTL_SECONDS (key_revocation w));
  Ok (with_key_revocation m w).

(** [revoke] has the tenant of the caller, [revokeAsAdmin] has none. *)
Definition revoke_where (now : Z) (keyId revokedBy : string) (tenant : option string) (w : key_world) : result key_error key_world :=
  let p r := String.eqb (ak_id r) keyId && (match tenant with Some t => String.eqb (ak_tenant r) t | None => true end) && key_live r in
  if existsb p (api_keys w) then flag_revoked now keyId (with_keys (update_where p (set_revoked now revokedBy) (api_keys w)) w)
  else Err KeyNotFound.

Definition revoke (now : Z) (keyId revokedBy tenantId : string) (w : key_world) : result key_error key_world :=
  revoke_where now keyId revokedBy (Some tenantId) w.

Definition revokeAsAdmin (now : Z) (keyId revokedBy : string) (w : key_world) : result key_error key_world :=
  revoke_where now keyId revokedBy None w.

(** The transaction of a rotation changes both rows or none. *)
Definition rotate (now : Z) (v : key_values) (keyId userId tenantId : string) (w : key_world) : result key_error (string * key_world) :=
  match find_row (fun r => String.eqb (ak_id r) keyId && String.eqb (ak_tenant r) tenantId && key_live r) (api_keys w) with
  | None => Err KeyNotFound
  | Some existing =>
      if negb (String.eqb (ak_user existing) userId) then Err NotOwner
      else
        let w1 := with_keys (update_where (fun r => String.eqb (ak_id r) keyId) (set_revoked now userId) (api_keys w)) w in
        w2 ← insert_key (new_key e v (ak_user existing) (ak_tenant existing) (ak_name existing) (scopes existing) (ak_expires existing)) w1;
        w3 ← flag_revoked now keyId w2;
        Ok (fst (generateRawKey (kv_random v)), w3)
  end.

(** ** Listing *)

Inductive key_status : Type := k_active | k_revoked | k_all.

Definition of_status (st : key_status) (r : ApiKeyRow) : bool :=
  match st with k_active => key_live r | k_revoked => negb (key_live r) | k_all => true end.

(** [createdAt.toISOString()], as microseconds. *)
Definition to_millis (micros : Z) : Z := (micros / 1000 * 1000)%Z.

Record key_cursor : Type := { kc_created : Z; kc_id : string }.

(** [(created_at, id) < ($1, $2)] *)
Definition below_key (c : key_cursor) (r : ApiKeyRow) : bool :=
  (ak_created r <? kc_created c)%Z || (ak_created r =? kc_created c)%Z && text_lt (ak_id r) (kc_id c).

Definition newer_key (a b : ApiKeyRow) : bool :=
  (ak_created b <? ak_created a)%Z || (ak_created b =? ak_created a)%Z && text_lt (ak_id b) (ak_id a).

Definition clamp_limit (limit : option Z) : nat := Z.to_nat (Z.min (Z.max (default 50%Z limit) 1) 200).

Record key_page : Type := { page_keys : list ApiKeyRow; page_next : option key_cursor; page_total : nat }.

Definition key_list (mine : ApiKeyRow -> bool) (st : key_status) (limit : option Z) (cursor : option key_cursor) (w : key_world) : key_page :=
  let matching r := mine r && of_status st r in
  let n := clamp_limit limit in
  let rows := select newer_key (fun r => matching r && match cursor with Some c => below_key c r | None => true end) n (api_keys w) in
  {| page_keys := rows;
     page_next := if (length rows =? n)%nat then (fun r => {| kc_created := to_millis (ak_created r); kc_id := ak_id r |}) <$> last rows else None;
     page_total := length (List.filter matching (api_keys w)) |}.

Definition list_keys (userId : string) := key_list (fun r => String.eqb (ak_user r) userId).

(** The join with the users drops a key without one; the total counts it. *)
Definition listAllKeys (st : key_status) (limit : option Z) (cursor : option key_cursor) (w : key_world) : key_page :=
  let joined r := existsb (fun u => String.eqb (u_id u) (ak_user r)) (users (db (base w))) in
  let page := key_list joined st limit cursor w in
  {| page_keys := page_keys page; page_next := page_next page; page_total := length (List.filter (of_status st) (api_keys w)) |}.
End Keys.

(** ** Rotation never succeeds *)

Section Spec.
Context {bcrypt : Bcrypt} (e : env).

Lemma existsb_update {A} (p q : A -> bool) f l : (forall x, q (f x) = q x) -> existsb q (update_where p f l) = existsb q l.
Proof.
  intros H. unfold update_where. induction l as [|x l IH]; cbn; [done|]. rewrite IH. f_equal. destruct (p x); auto.
Qed.

Lemma rotate_refused now v keyId userId tenantId w r :
  find_row (fun r => String.eqb (ak_id r) keyId && String.eqb (ak_tenant r) tenantId && key_live r) (api_keys w) = Some r -> ak_user r = userId ->
  exists name, rotate e now v keyId userId tenantId w = Err (KeyConstraint name) /\
    (kv_id v ∉ map ak_id (api_keys w) -> String.length (first_chars PREFIX_CHARS (kv_random v)) = PREFIX_CHARS -> trim (ak_name r) <> "" ->
     name = "api_keys_name_per_user").
Proof.
  intros Hf Hu. unfold rotate. rewrite Hf, Hu, String.eqb_refl. cbn [negb]. apply find_row_spec in Hf as [Hin _]. unfold insert_key. cbn [api_keys with_keys].
  rewrite !existsb_update by done. cbn [new_key generateRawKey ak_name key_prefix ak_id ak_user].
  destruct (String.eqb_spec (trim (ak_name r)) ""); [by eexists|].
  destruct (Nat.eqb_spec (String.length (first_chars PREFIX_CHARS (kv_random v))) PREFIX_CHARS); cbn [negb]; [|by eexists].
  destruct (existsb (fun x => String.eqb (ak_id x) _) _) eqn:Eid.
  - eexists. split; [reflexivity|]. intros Hnew. destruct Hnew. apply existsb_exists in Eid as (x & Hx & Hid). apply list_elem_of_In in Hx.
    apply String.eqb_eq in Hid. rewrite <- Hid. by apply list_elem_of_fmap_2.
  - rewrite (proj2 (existsb_exists _ (api_keys w))); [by eexists|]. exists r. split; [by apply list_elem_of_In|]. by rewrite Hu, !String.eqb_refl.
Qed.

Lemma rotate_fails now v keyId userId tenantId w : is_ok (rotate e now v keyId userId tenantId w) = false.
Proof.
  destruct (find_row (fun r => String.eqb (ak_id r) keyId && String.eqb (ak_tenant r) tenantId && key_live r) (api_keys w)) as [r|] eqn:Ef.
  - destruct (String.eqb_spec (ak_user r) userId) as [Hu|Hu]; [|apply String.eqb_neq in Hu; unfold rotate; by rewrite Ef, Hu].
    destruct (rotate_refused now v keyId userId tenantId w r Ef Hu) as (name & -> & _). done.
  - unfold rotate. by rewrite Ef.
Qed.

(** Rotating a key that the caller owns always fails, with the constraint on the names
    when nothing else is wrong: the new row takes the name of the old one, which the table,
    having the revoked row still, refuses. *)
Theorem rotate_never_succeeds now v keyId userId tenantId w r :
  find_row (fun r => String.eqb (ak_id r) keyId && String.eqb (ak_tenant r) tenantId && key_live r) (api_keys w) = Some r -> ak_user r = userId ->
  is_ok (rotate e now v keyId userId tenantId w) = false /\
  (kv_id v ∉ map ak_id (api_keys w) -> String.length (first_chars PREFIX_CHARS (kv_random v)) = PREFIX_CHARS -> trim (ak_name r) <> "" ->
   rotate e now v keyId userId tenantId w = Err (KeyConstraint "api_keys_name_per_user")).
Proof.
  intros Hf Hu. split; [apply rotate_fails|]. intros H1 H2 H3.
  destruct (rotate_refused now v keyId userId tenantId w r Hf Hu) as (name & -> & Hn). by rewrite Hn.
Qed.

(** ** A key works until it is revoked *)

Lemma is_prefix_app p l : is_prefix p (p ++ l) = true.
Proof. induction p as [|c p IH]; cbn; [done|]. by rewrite Ascii.eqb_refl. Qed.

Lemma key_text random : startsWith (KEY_PREFIX_TEXT +:+ random) KEY_PREFIX_TEXT = true /\
  from_char (String.length KEY_PREFIX_TEXT) (KEY_PREFIX_TEXT +:+ random) = random.
Proof. split; [unfold startsWith; rewrite explode_app; apply is_prefix_app|]. unfold from_char. rewrite explode_app. apply implode_explode. Qed.

Lemma find_last {A} (p : A -> bool) l x : (forall y, y ∈ l -> p y = false) -> p x = true -> List.find p (l ++ [x]) = Some x.
Proof.
  intros Hl Hx. induction l as [|y l IH]; cbn; [by rewrite Hx|]. rewrite Hl by (by left). apply IH. intros z Hz. apply Hl. by right.
Qed.

Lemma insert_key_ok r w w' : insert_key r w = Ok w' ->
  w' = with_keys (api_keys w ++ [r]) w /\ ak_id r ∉ map ak_id (api_keys w) /\ String.length (key_prefix r) = PREFIX_CHARS.
Proof.
  unfold insert_key. case_match; [done|]. destruct (negb (_ =? _)%nat) eqn:El; [done|].
  destruct (existsb (fun x => String.eqb (ak_id x) (ak_id r)) _) eqn:E; [done|]. do 3 (case_match; [done|]). intros [= <-]. split_and!; [done| |].
  - intros (x & Hx & Hin)%list_elem_of_fmap. pose proof (existsb_false _ _ _ E Hin) as Hne. cbn in Hne.
    rewrite Hx in Hne. by rewrite String.eqb_refl in Hne.
  - apply negb_false_iff, Nat.eqb_eq in El. exact El.
Qed.

(** A key that has been created has scopes of its creator only, and validates to
    them until it expires or is revoked, if fewer than five keys share its prefix. *)
Theorem created_key_validates `{!BcryptLaws bcrypt}
    v user tenant data callers w key w' now :
  create e v user tenant data callers w = Ok (key, w') ->
  (match ck_expires data with Some t => (now < t)%Z | None => True end) -> get now (kv_id v) (key_revocation w) = None ->
  (length (List.filter (candidate now (first_chars PREFIX_CHARS (kv_random v))) (api_keys w)) < 5)%nat ->
  (forall r, r ∈ api_keys w -> bcrypt_compare key (key_hash r) = false) ->
  (forall s, s ∈ ck_scopes data -> s ∈ callers) /\
  validate now key w' =
    Some {| uc_user := user; uc_tenant := tenant; uc_roles := default [] (roles <$> find_user user (db (base w)));
            uc_scopes := ck_scopes data; uc_verified := default true (email_verified <$> find_user user (db (base w))) |}.
Proof.
  unfold create. destruct (List.find _ (ck_scopes data)) eqn:Ef; [done|]. intros Hc Hexp Hrev Hfew Hother. split.
  { intros s Hs. pose proof (find_none _ _ Ef s (proj1 (list_elem_of_In _ _) Hs)) as H. apply negb_false_iff in H.
    revert H. unfold mem. intros (x & Hx & ->%String.eqb_eq)%existsb_exists. by apply list_elem_of_In. }
  unbind Hc as w1 Hi. injection Hc as <- <-. apply insert_key_ok in Hi as (-> & _ & Hlen). cbn [fst generateRawKey] in *.
  set (r := new_key e v user tenant (ck_name data) (ck_scopes data) (ck_expires data)) in *.
  unfold validate. rewrite (proj1 (key_text _)). cbn [negb]. rewrite (proj2 (key_text _)).
  change (key_prefix r) with (first_chars PREFIX_CHARS (kv_random v)) in Hlen. rewrite Hlen. cbn [Nat.ltb Nat.leb PREFIX_CHARS].
  assert (Hcand : candidates now (first_chars PREFIX_CHARS (kv_random v)) (with_keys (api_keys w ++ [r]) w)
            = List.filter (candidate now (first_chars PREFIX_CHARS (kv_random v))) (api_keys w) ++ [r]).
  { unfold candidates. cbn [api_keys with_keys]. rewrite List.filter_app. cbn [List.filter].
    assert (Hr : candidate now (first_chars PREFIX_CHARS (kv_random v)) r = true).
    { unfold candidate, r. cbn. rewrite String.eqb_refl. destruct (ck_expires data); [|done]. by rewrite (proj2 (Z.ltb_lt _ _) Hexp). }
    rewrite Hr. apply take_ge. rewrite length_app. change (length [r]) with 1%nat. lia. }
  cbn [fst] in *. rewrite Hcand, (find_last _ _ r); [| |apply hash_compare].
  - cbn [key_revocation with_keys]. change (ak_id r) with (kv_id v). by rewrite Hrev.
  - intros y Hy. apply elem_of_bfilter in Hy as [Hy _]. by apply Hother.
Qed.

(** What the requests do to the table and the keys; what else the world has may change. *)
Inductive key_step : key_world -> key_world -> Prop :=
| do_create w v user tenant data callers key w' : create e v user tenant data callers w = Ok (key, w') -> key_step w w'
| do_revoke w now keyId by_user tenant w' : revoke_where now keyId by_user tenant w = Ok w' -> key_step w w'
| do_rotate w now v keyId user tenant key w' : rotate e now v keyId user tenant w = Ok (key, w') -> key_step w w'
| do_touch w now id : key_step w (touch now id w)
| do_other w b : key_step w {| base := b; api_keys := api_keys w; key_revocation := key_revocation w |}.

Inductive key_steps : key_world -> key_world -> Prop :=
| key_refl w : key_steps w w
| key_trans w1 w2 w3 : key_steps w1 w2 -> key_step w2 w3 -> key_steps w1 w3.

(** The key is there, and every row of it is revoked. *)
Definition key_ended (id : string) (w : key_world) : Prop :=
  id ∈ map ak_id (api_keys w) /\ forall r, r ∈ api_keys w -> ak_id r = id -> key_live r = false.

Lemma ended_update id p f w : (forall r, ak_id (f r) = ak_id r /\ (key_live r = false -> key_live (f r) = false)) ->
  key_ended id w -> key_ended id (with_keys (update_where p f (api_keys w)) w).
Proof.
  intros Hf [Hin Hall]. split; cbn.
  - rewrite map_update_where; [done|]. intros r _. apply Hf.
  - intros r' [Hr|(r & Hr & _ & ->)]%elem_of_update_where Hid; [by apply Hall|]. destruct (Hf r) as [H1 H2]. apply H2, Hall; [done|congruence].
Qed.

Lemma flag_ended id now k w w' : flag_revoked now k w = Ok w' -> key_ended id w -> key_ended id w'.
Proof. unfold flag_revoked. destruct (set_ex _ _ _ _ _); cbn; [|done]. by intros [= <-]. Qed.

Lemma ended_key_step id w w' : key_step w w' -> key_ended id w -> key_ended id w'.
Proof.
  intros H. destruct H.
  - unfold create in H. destruct (List.find _ _); [done|]. unbind H as w1 Hi. injection H as _ <-.
    apply insert_key_ok in Hi as (-> & Hnew & _). intros [Hin Hall]. split; cbn.
    + rewrite map_app. apply elem_of_app. by left.
    + intros r [Hr| ->%list_elem_of_singleton]%elem_of_app Hid; [by apply Hall|]. destruct Hnew. by subst id.
  - unfold revoke_where in H. destruct (existsb _ _); [|done]. intros Hw. eapply flag_ended; [exact H|]. by apply ended_update.
  - pose proof (rotate_fails now v keyId user tenant w) as Hn. by rewrite H in Hn.
  - apply ended_update. done.
  - done.
Qed.

Lemma ended_key_steps id w w' : key_steps w w' -> key_ended id w -> key_ended id w'.
Proof. induction 1; [done|]. intros Hw. eapply ended_key_step; [done|by apply IHkey_steps]. Qed.

(** A key that has been revoked is never accepted again. *)
Theorem revoked_key_final now keyId by_user tenant w w1 w2 key now' :
  NoDup (map ak_id (api_keys w)) -> revoke_where now keyId by_user tenant w = Ok w1 -> key_steps w1 w2 ->
  (forall r, r ∈ api_keys w2 -> bcrypt_compare key (key_hash r) = true -> ak_id r = keyId) ->
  validate now' key w2 = None.
Proof.
  intros Hnd Hr Hs Hkey.
  assert (H1 : key_ended keyId w1).
  { revert Hr. unfold revoke_where. set (p := fun r : ApiKeyRow => _). destruct (existsb p (api_keys w)) eqn:Ep; [|done]. intros Hf.
    eapply flag_ended; [exact Hf|]. apply existsb_exists in Ep as (r & Hin & Hp). apply list_elem_of_In in Hin.
    unfold p in Hp. apply andb_true_iff in Hp as [[Hid Ht]%andb_true_iff Hl]. apply String.eqb_eq in Hid.
    split; cbn [api_keys with_keys].
    - rewrite map_update_where by done. rewrite <- Hid. by apply list_elem_of_fmap_2.
    - intros x Hx Hxid. unfold update_where in Hx. apply list_elem_of_fmap in Hx as (x0 & -> & Hx0). destruct (p x0) eqn:E; [done|].
      assert (x0 = r) as -> by (eapply NoDup_map_inj; [exact Hnd|done|done|congruence]).
      unfold p in E. by rewrite Hid, String.eqb_refl, Ht, Hl in E. }
  apply (ended_key_steps _ _ _ Hs) in H1 as [_ Hall]. unfold validate. destruct (negb _); [done|]. destruct (_ <? _)%nat; [done|].
  destruct (List.find _ _) as [r|] eqn:Ef; [|done]. exfalso. apply find_some in Ef as [Hin Hc].
  apply list_elem_of_In in Hin. unfold candidates in Hin. apply elem_of_take in Hin as (i & Hi & _).
  apply list_elem_of_lookup_2, elem_of_bfilter in Hi as [Hi Hcand].
  pose proof (Hall r Hi (Hkey r Hi Hc)) as Hl. unfold candidate, key_live in *. destruct (ak_revoked r); [|done].
  by rewrite andb_false_r in Hcand.
Qed.

Definition set_active (b : bool) (u : UserRow) : UserRow :=
  {| u_id := u_id u; u_tenant := u_tenant u; email := email u; password_hash := password_hash u; email_verified := email_verified u;
     is_active := b; display_name := display_name u; roles := roles u; last_login_at := last_login_at u;
     failed_login_count := failed_login_count u; locked_until := locked_until u; password_history := password_history u |}.

Lemma find_set_active user id d :
  (fun u => (roles u, email_verified u)) <$> find_user id (update_user user (set_active false) d) = (fun u => (roles u, email_verified u)) <$> find_user id d.
Proof.
  unfold find_user, update_user, find_row, update_where. cbn. generalize (users d). intros l. induction l as [|u l IH]; cbn; [done|].
  destruct (String.eqb (u_id u) user); cbn; destruct (String.eqb (u_id u) id); cbn; done.
Qed.

(** Deactivating a user leaves the user's API keys as they are. *)
Theorem deactivation_keeps_keys now key user w :
  validate now key {| base := on_db (update_user user (set_active false)) (base w); api_keys := api_keys w; key_revocation := key_revocation w |}
  = validate now key w.
Proof.
  unfold validate. destruct (negb _); [done|]. destruct (_ <? _)%nat; [done|]. unfold candidates. cbn [api_keys base key_revocation db on_db].
  destruct (List.find _ _) as [r|]; [|done]. destruct (get now (ak_id r) (key_revocation w)); [done|].
  pose proof (find_set_active user (ak_user r) (db (base w))) as H.
  destruct (find_user (ak_user r) (update_user user (set_active false) (db (base w)))), (find_user (ak_user r) (db (base w))); cbn in *; try done.
  injection H as -> ->. done.
Qed.
End Spec.

(** ** Examples *)

#[local] Existing Instance toy_bcrypt.

Definition a_user (id : string) : UserRow :=
  {| u_id := id; u_tenant := "t"; email := id; password_hash := None; email_verified := true; is_active := true; display_name := None;
     roles := ["viewer"]; last_login_at := None; failed_login_count := 0; locked_until := None; password_history := [] |}.

Definition key_base : world :=
  {| db := {| tenants := [{| t_id := "t"; t_name := "T" |}]; users := [a_user "ann"]; sessions := []; reset_tokens := [] |};
     redis := {| refresh := ∅; token_family := ∅; refresh_family := ∅; user_sessions := ∅; revoked_token := ∅; revoked_user := ∅;
                 reset_gate := ∅; verify_gate := ∅ |} |}.

Definition some_values (id random : string) (created : Z) : key_values := {| kv_id := id; kv_random := random; kv_salt := ""; kv_created := created |}.

Definition created_world (l : list (key_values * string)) : key_world :=
  foldl (fun w x => match create (fun _ => None) x.1 "ann" "t" {| ck_name := x.2; ck_scopes := ["data:read"]; ck_expires := None |} ["data:read"; "data:write"] w with
                    | Ok (_, w) => w
                    | Err _ => w
                    end) {| base := key_base; api_keys := []; key_revocation := ∅ |} l.

Definition one_key : key_world := created_world [(some_values "k1" "12345678abc" 1001500, "first")].

Lemma created_key_validates_witness :
  validate 5 "op_live_12345678abc" one_key =
  Some {| uc_user := "ann"; uc_tenant := "t"; uc_roles := ["viewer"]; uc_scopes := ["data:read"]; uc_verified := true |}.
Proof.
  apply (created_key_validates (fun _ => None) (some_values "k1" "12345678abc" 1001500) "ann" "t"
    {| ck_name := "first"; ck_scopes := ["data:read"]; ck_expires := None |} ["data:read"; "data:write"] (created_world []) "op_live_12345678abc" one_key 5).
  - vm_compute. reflexivity.
  - exact I.
  - vm_compute. reflexivity.
  - vm_compute. lia.
  - intros r H. exfalso. revert H. apply not_elem_of_nil.
Defined.

Definition key_revoked : key_world :=
  match revoke_where 6 "k1" "ann" (Some "t") one_key with Ok w => w | Err _ => one_key end.

Lemma revoked_key_final_witness : validate 7 "op_live_12345678abc" key_revoked = None.
Proof.
  apply (revoked_key_final (fun _ => None) 6 "k1" "ann" (Some "t") one_key key_revoked key_revoked).
  - vm_compute. repeat constructor. apply not_elem_of_nil.
  - vm_compute. reflexivity.
  - apply key_refl.
  - intros r Hr _. assert (map ak_id (api_keys key_revoked) = ["k1"]) as Hm by (vm_compute; reflexivity).
    apply (list_elem_of_fmap_2 ak_id) in Hr. change (ak_id <$> api_keys key_revoked) with (map ak_id (api_keys key_revoked)) in Hr.
    rewrite Hm in Hr. by apply list_elem_of_singleton in Hr.
Defined.

Definition two_keys : key_world :=
  created_world [(some_values "a" "12345678abc" 1001500, "first"); (some_values "b" "12345678abd" 1001200, "second")].

(** A key that was created in the same millisecond as the last of a page, and before
    it, is on no page. *)
Theorem list_keys_skips :
  let first := list_keys "ann" k_all (Some 1%Z) None two_keys in
  map ak_id (page_keys first) = ["a"] /\ page_total first = 2 /\
  exists c, page_next first = Some c /\ page_keys (list_keys "ann" k_all (Some 1%Z) (Some c) two_keys) = [].
Proof. split_and!; [vm_compute; reflexivity|vm_compute; reflexivity|]. eexists. split; vm_compute; reflexivity. Qed.
