(* ===== verification/ServiceRbac.v ===== *)
(** * Which service may call which

    packages/core/src/service-rbac.ts: the matrix of calls between the services, and
    the check of a call against it. *)

From S2P Require Import Prelude JsString JsValue.
From Stdlib Require Import Ascii.
From stdpp Require Import strings.

Record RbacRule : Type := { target : string; rule_method : string; pathPattern : string }.

Definition rule (t m p : string) : RbacRule := {| target := t; rule_method := m; pathPattern := p |}.

Definition MATRIX : list (string * list RbacRule) :=
  [("gateway-service", [rule "*" "*" "*"]);
   ("ingestion-service",
     [rule "ontology-service" "POST" "/internal/ontology/map"; rule "ontology-service" "POST" "/internal/ontology/infer";
      rule "pipeline-service" "POST" "/internal/pipeline/trigger"; rule "execution-service" "POST" "/internal/execution/run";
      rule "execution-service" "POST" "/internal/execution/connector-run"; rule "plugin-service" "GET" "/internal/plugins/connectors"]);
   ("ontology-service", [rule "execution-service" "POST" "/internal/execution/run"]);
   ("pipeline-service",
     [rule "execution-service" "POST" "/internal/execution/run"; rule "ontology-service" "GET" "/internal/ontology/schema";
      rule "plugin-service" "GET" "/internal/plugins/hooks"; rule "ingestion-service" "POST" "/internal/ingestion/sync"]);
   ("app-service",
     [rule "auth-service" "GET" "/internal/auth/validate"; rule "auth-service" "POST" "/internal/auth/guest-sessions";
      rule "auth-service" "POST" "/internal/oauth/clients"; rule "auth-service" "DELETE" "/internal/oauth/clients/*";
      rule "ontology-service" "GET" "/internal/ontology/schema"; rule "ontology-service" "GET" "/internal/data/*";
      rule "ontology-service" "POST" "/internal/data/*"; rule "ontology-service" "GET" "/internal/ontology/type-declarations";
      rule "pipeline-service" "POST" "/internal/pipeline/trigger"; rule "execution-service" "POST" "/internal/execution/run";
      rule "logging-service" "GET" "/internal/logging/query"; rule "plugin-service" "GET" "/internal/plugins/widgets"]);
   ("execution-service",
     [rule "plugin-service" "GET" "/internal/plugins/*/bundle"; rule "ingestion-service" "GET" "/internal/ingestion/credentials/*/field/*";
      rule "plugin-service" "GET" "/internal/plugins/cache/*/*/*"; rule "plugin-service" "PUT" "/internal/plugins/cache/*/*/*";
      rule "plugin-service" "DELETE" "/internal/plugins/cache/*/*/*"; rule "plugin-service" "POST" "/internal/plugins/*/drain-complete"]);
   ("plugin-service",
     [rule "execution-service" "POST" "/internal/execution/run"; rule "execution-service" "POST" "/internal/execution/plugin-drain";
      rule "execution-service" "POST" "/internal/execution/plugin-cache-invalidate";
      rule "execution-service" "POST" "/internal/execution/plugin-cache-prefetch"; rule "ingestion-service" "POST" "/internal/ingestion/connectors";
      rule "ingestion-service" "DELETE" "/internal/ingestion/connectors/instance/*";
      rule "ingestion-service" "DELETE" "/internal/ingestion/connectors/plugin/*"])].

Definition same_segment (x : string * string) : bool := String.eqb x.1 "*" || String.eqb x.1 x.2.

Definition matchesPattern (pattern path : string) : bool :=
  if String.eqb pattern "*" then true
  else if negb (includes pattern "*") then String.eqb pattern path
  else
    let patternParts := split_char "/" pattern in
    let pathParts := split_char "/" path in
    (length patternParts =? length pathParts)%nat && forallb same_segment (combine patternParts pathParts).

Definition rule_allows (targetService method path : string) (r : RbacRule) : bool :=
  (String.eqb (target r) "*" || String.eqb (target r) targetService)
  && (String.eqb (rule_method r) "*" || String.eqb (rule_method r) method)
  && matchesPattern (pathPattern r) path.

(** What [MATRIX] inherits is no list of rules: the call of [some] throws. *)
Inductive rbac_error : Type := SomeIsNotAFunction.

Definition isServiceCallAllowed (callerService targetService method path : string) : result rbac_error bool :=
  match jm_get callerService MATRIX with
  | Some rules => Ok (existsb (rule_allows targetService method path) rules)
  | None => if mem callerService ("__proto__" :: object_proto) then Err SomeIsNotAFunction else Ok false
  end.

(** ** Patterns *)

(** A star is one segment, whatever it is. *)
Definition segment_matches (p s : string) : Prop := p = "*" \/ p = s.

Lemma forallb_combine (l k : list string) :
  (length l =? length k)%nat && forallb same_segment (combine l k) = true <-> Forall2 segment_matches l k.
Proof.
  revert k. induction l as [|x l IH]; intros [|y k]; cbn; try (split; [done|intros H; inversion H]).
  - constructor.
  - rewrite Forall2_cons, <- IH. unfold same_segment, segment_matches. cbn.
    rewrite !andb_true_iff, orb_true_iff, !String.eqb_eq. tauto.
Qed.

Lemma includes_char s c : includes s (str c) = true <-> c ∈ explode s.
Proof.
  unfold includes, indexOf. cbn [explode str]. generalize (explode s). intros l.
  transitivity (is_Some (index_from [c] l)); [destruct (index_from [c] l); split; intros H; try done; by destruct H|].
  induction l as [|a l IH]; cbn.
  - split; [intros [? [=]]|by intros ?%elem_of_nil].
  - destruct (Ascii.eqb_spec c a) as [->|Hne]; cbn; [by split; [left|eexists]|].
    rewrite fmap_is_Some, IH, elem_of_cons. naive_solver.
Qed.

Lemma split_char_elem c a p s : s ∈ split_char c p -> a ∈ explode s -> a ∈ explode p.
Proof.
  revert s. induction p as [|b p IH]; intros s; cbn [split_char explode].
  - intros ->%list_elem_of_singleton. done.
  - destruct (Ascii.eqb b c).
    + intros [->|Hin]%elem_of_cons Ha; [by apply elem_of_nil in Ha|]. right. by eapply IH.
    + pose proof (split_char_nonempty c p) as Hne. destruct (split_char c p) as [|h t]; [done|].
      intros [->|Hin]%elem_of_cons Ha; [|right; eapply IH; [by right|done]].
      cbn [explode] in Ha. apply elem_of_cons in Ha as [->|Ha]; [by left|]. right. eapply IH; [by left|done].
Qed.

Lemma star_segment p : "*" ∈ split_char "/" p -> includes p "*" = true.
Proof. intros H. apply (includes_char p "*"). eapply split_char_elem; [exact H|]. by left. Qed.

(** A pattern matches a path segment by segment, or is the star that matches every path. *)
Lemma matches_spec pattern path :
  matchesPattern pattern path = true <-> pattern = "*" \/ Forall2 segment_matches (split_char "/" pattern) (split_char "/" path).
Proof.
  unfold matchesPattern. destruct (String.eqb_spec pattern "*") as [->|Hne]; [by split; [left|]|].
  destruct (includes pattern "*") eqn:Ei; cbn [negb].
  - rewrite forallb_combine. naive_solver.
  - rewrite String.eqb_eq. split.
    + intros ->. right. apply Forall2_same_length_lookup. split; [done|]. intros i x y H1 H2. right. congruence.
    + intros [?|H]; [done|]. assert (split_char "/" pattern = split_char "/" path) as E.
      { assert (Hs : forall s, s ∈ split_char "/" pattern -> s <> "*").
        { intros s Hin ->. rewrite (star_segment _ Hin) in Ei. done. }
        revert H Hs. generalize (split_char "/" pattern), (split_char "/" path). induction 1 as [|x y l k Hxy H IH]; intros Hs; [done|].
        destruct Hxy as [->| ->]; [by destruct (Hs "*"); [left|]|]. f_equal. apply IH. intros s Hin. apply Hs. by right. }
      rewrite <- (join_split_char "/" pattern), <- (join_split_char "/" path). by f_equal.
Qed.

(** ** What the matrix allows *)

Lemma allowed_rule caller targetService method path :
  isServiceCallAllowed caller targetService method path = Ok true <->
  exists rules r, jm_get caller MATRIX = Some rules /\ r ∈ rules /\ rule_allows targetService method path r = true.
Proof.
  unfold isServiceCallAllowed. destruct (jm_get caller MATRIX) as [rules|].
  - split.
    + intros [= (r & Hin & Hr)%existsb_elem]. eauto.
    + intros (? & r & [= <-] & Hin & Hr). f_equal. apply existsb_elem. eauto.
  - split; [by case_match|]. intros (? & ? & ? & _). done.
Qed.

Lemma rule_allows_spec t m path r :
  rule_allows t m path r = true <-> (target r = "*" \/ target r = t) /\ (rule_method r = "*" \/ rule_method r = m) /\ matchesPattern (pathPattern r) path = true.
Proof. unfold rule_allows. rewrite !andb_true_iff, !orb_true_iff, !String.eqb_eq. tauto. Qed.

(** What a rule gives to a service that is not the gateway. *)
Definition confined (caller : string) (r : RbacRule) : bool :=
  mem (target r) ["auth-service"; "ontology-service"; "pipeline-service"; "ingestion-service"; "execution-service"; "plugin-service"; "logging-service"]
  && negb (String.eqb (target r) caller) && mem (rule_method r) ["GET"; "POST"; "PUT"; "DELETE"]
  && match split_char "/" (pathPattern r) with
     | s0 :: s1 :: s2 :: _ => String.eqb s0 "" && String.eqb s1 "internal" && negb (String.eqb s2 "*")
     | _ => false
     end.

Lemma matrix_confined caller rules r : jm_get caller MATRIX = Some rules -> caller <> "gateway-service" -> r ∈ rules -> confined caller r = true.
Proof.
  intros Hg Hne Hin. apply jm_get_elem_of in Hg.
  assert (H : forallb (fun x => String.eqb x.1 "gateway-service" || forallb (confined x.1) x.2) MATRIX = true) by (vm_compute; reflexivity).
  pose proof (proj1 (forallb_elem _ _) H _ Hg) as Hx. cbn [fst snd] in Hx. apply String.eqb_neq in Hne. rewrite Hne in Hx.
  by apply (proj1 (forallb_elem _ _) Hx).
Qed.

(** A service other than the gateway calls another service than itself and never the
    gateway, with one of four methods, and below /internal/ only, whatever the path is. *)
Theorem calls_confined caller targetService method path :
  isServiceCallAllowed caller targetService method path = Ok true -> caller <> "gateway-service" ->
  targetService <> caller /\ targetService <> "gateway-service" /\ method ∈ ["GET"; "POST"; "PUT"; "DELETE"] /\ startsWith path "/internal/" = true.
Proof.
  intros (rules & r & Hg & Hin & Hr)%allowed_rule Hne.
  pose proof (matrix_confined _ _ _ Hg Hne Hin) as Hc. unfold confined in Hc.
  apply andb_true_iff in Hc as [[[Ht Hn]%andb_true_iff Hm]%andb_true_iff Hp].
  apply rule_allows_spec in Hr as (Ht' & Hm' & Hp'). apply mem_spec in Ht, Hm.
  apply negb_true_iff, String.eqb_neq in Hn.
  assert (targetService = target r) as -> by (destruct Ht' as [Hs|]; [rewrite Hs in Ht; revert Ht; decide_now|done]).
  assert (method = rule_method r) as -> by (destruct Hm' as [Hs|]; [rewrite Hs in Hm; revert Hm; decide_now|done]).
  split_and!; [done|intros E; rewrite E in Ht; revert Ht; decide_now|done|].
  apply matches_spec in Hp' as [Hs|H]; [by rewrite Hs in Hp|].
  destruct (split_char "/" (pathPattern r)) as [|s0 [|s1 [|s2 rest]]]; try done.
  apply andb_true_iff in Hp as [[->%String.eqb_eq ->%String.eqb_eq]%andb_true_iff _].
  apply startsWith_spec. rewrite <- (join_split_char "/" path).
  apply Forall2_cons_inv_l in H as (y0 & l0 & H0 & H & ->). apply Forall2_cons_inv_l in H as (y1 & l1 & H1 & H & ->).
  apply Forall2_cons_inv_l in H as (y2 & l2 & _ & _ & ->).
  destruct H0 as [?| <-]; [done|]. destruct H1 as [?| <-]; [done|]. by exists (JsString.join "/" (y2 :: l2)).
Qed.

(** ** Examples *)

Example bundle_of_a_plugin : matchesPattern "/internal/plugins/*/bundle" "/internal/plugins/abc-123/bundle" = true.
Proof. reflexivity. Qed.
Example bundle_deeper : matchesPattern "/internal/plugins/*/bundle" "/internal/plugins/abc/123/bundle" = false.
Proof. reflexivity. Qed.
Example inherited_caller : isServiceCallAllowed "constructor" "plugin-service" "GET" "/internal/plugins/hooks" = Err SomeIsNotAFunction.
Proof. reflexivity. Qed.

Lemma calls_confined_witness :
  "plugin-service" <> "execution-service" /\ "plugin-service" <> "gateway-service" /\ "GET" ∈ ["GET"; "POST"; "PUT"; "DELETE"] /\
  startsWith "/internal/plugins/p1/bundle" "/internal/" = true.
Proof. apply (calls_confined "execution-service" "plugin-service" "GET" "/internal/plugins/p1/bundle"); [vm_compute; reflexivity|discriminate]. Defined.
