(* ===== verification/HttpAuth.v ===== *)
(** * Authentication of requests

    packages/core/src/middleware: credential-extractor.ts (where a request has its
    credential), jwt-validator.ts (the user that a token stands for) and auth.ts (the
    routes without authentication and the middleware that every service installs). *)

From S2P Require Import Prelude JsString JsNumber JsValue AuthStore TokenService AuthSystem TokenSpec ServiceRbac.
From Stdlib Require Import Ascii.
From stdpp Require Import gmap strings.

(** ** Requests *)

(** The path of the URL, and the headers that are looked at. *)
Record Request : Type := {
  method : string;
  path : string;
  authorization : option string;
  cookie : option string;
  x_api_key : option string;
  x_service_token : option string;
  x_user_context : option string;
  x_user_context_signature : option string
}.

(** A user as the handlers see it; a field has whatever the claims had in it. *)
Record UserContext : Type := {
  uc_userId : option claim;
  uc_tenantId : option claim;
  uc_roles : claim;
  uc_scopes : claim;
  isGuest : bool;
  isService : bool;
  uc_emailVerified : bool;
  uc_email : option claim;
  uc_displayName : option claim
}.

Inductive credential : Type :=
| jwt_token (token : string)
| api_key_text (key : string).

(** ** Where a request has its credential *)

Definition CredentialExtractor : Type := Request -> option credential.

(** [header.slice(7)] *)
Definition bearer (header : string) : option string :=
  if startsWith header "Bearer " then Some (implode (drop 7 (explode header))) else None.

Definition BearerTokenExtractor : CredentialExtractor := fun c => header ← authorization c; jwt_token <$> bearer header.

Definition COOKIE_NAME : list ascii := explode "op_access_token=".

Fixpoint until_semicolon (l : list ascii) : list ascii :=
  match l with
  | [] => []
  | c :: l => if Ascii.eqb c ";" then [] else c :: until_semicolon l
  end.

(** The name, and then at least one character up to a semicolon. *)
Definition cookie_here (l : list ascii) : option string :=
  if is_prefix COOKIE_NAME l then
    match until_semicolon (drop (length COOKIE_NAME) l) with
    | [] => None
    | t => Some (implode t)
    end
  else None.

(** After a semicolon and spaces, at the first place where it is there. *)
Fixpoint cookie_after (l : list ascii) : option string :=
  match l with
  | [] => None
  | c :: l =>
      if Ascii.eqb c ";" then
        match cookie_here (trim_start l) with
        | Some t => Some t
        | None => cookie_after l
        end
      else cookie_after l
  end.

(** Its leftmost match: at the head of the text, or after a semicolon and spaces. *)
Definition cookie_match (header : string) : option string :=
  match cookie_here (explode header) with
  | Some t => Some t
  | None => cookie_after (explode header)
  end.

Definition CookieTokenExtractor : CredentialExtractor := fun c => jwt_token <$> cookie_match (default "" (cookie c)).

Definition ApiKeyExtractor : CredentialExtractor := fun c =>
  match x_api_key c with
  | Some key => if String.eqb key "" then None else Some (api_key_text key)
  | None => None
  end.

Fixpoint createCredentialChain (extractors : list CredentialExtractor) : CredentialExtractor := fun c =>
  match extractors with
  | [] => None
  | extractor :: rest =>
      match extractor c with
      | Some result => Some result
      | None => createCredentialChain rest c
      end
  end.

(** ** Routes without authentication *)

(** One piece of a compiled pattern: a character, [.*], or [[^/]+]. *)
Inductive glob_item : Type := Lit (c : ascii) | AnyRun | Segment.

Inductive public_route : Type :=
| exact_route (path : string)
| wildcard_route (items : list glob_item).

Definition strip_slash (s : string) : string :=
  if endsWith s "/" && (1 <? String.length s)%nat then implode (take (String.length s - 1) (explode s)) else s.

Definition glob_of_segment (seg : string) : list glob_item :=
  if startsWith seg ":" then [Segment] else map Lit (explode seg).

Fixpoint join_segments (l : list (list glob_item)) : list glob_item :=
  match l with
  | [] => []
  | [s] => s
  | s :: l => s ++ Lit "/" :: join_segments l
  end.

Definition compile_route (route : string) : public_route :=
  let normalized := strip_slash route in
  if includes normalized "*" then
    wildcard_route (map (fun c => if Ascii.eqb c "*" then AnyRun else Lit c) (explode normalized))
  else if includes normalized ":" then wildcard_route (join_segments (map glob_of_segment (split_char "/" normalized)))
  else exact_route normalized.

Definition line_end (c : ascii) : bool := Ascii.eqb c newline || Ascii.eqb c creturn.

(** A run of good characters, and then the rest. *)
Fixpoint run_match (good : ascii -> bool) (rest : list ascii -> bool) (l : list ascii) : bool :=
  rest l || match l with a :: l => good a && run_match good rest l | [] => false end.

Definition not_slash (c : ascii) : bool := negb (Ascii.eqb c "/").

(** The compiled pattern on the whole text. *)
Fixpoint glob_match (items : list glob_item) (l : list ascii) : bool :=
  match items with
  | [] => match l with [] => true | _ => false end
  | Lit c :: items => match l with a :: l => Ascii.eqb c a && glob_match items l | [] => false end
  | AnyRun :: items => run_match (fun c => negb (line_end c)) (glob_match items) l
  | Segment :: items => match l with a :: l => not_slash a && run_match not_slash (glob_match items) l | [] => false end
  end.

Definition route_matches (path : string) (r : public_route) : bool :=
  match r with
  | exact_route p => String.eqb p path
  | wildcard_route items => glob_match items (explode path)
  end.

Definition isPublicRoute (publicRoutes : list string) (rawPath : string) : bool :=
  existsb (route_matches (strip_slash rawPath)) (map compile_route publicRoutes).

(** ** The user that a token stands for *)

Definition ELEVATED_ROLES : list string := ["platform-admin"; "tenant-admin"; "developer"; "editor"].

Definition UNVERIFIED_SCOPES : list string := ["data:read"; "ontology:read"; "pipelines:read"; "apps:read"; "logs:read"].

Definition is_text (s : string) (c : claim) : bool := match c with CStr t => String.eqb s t | _ => false end.

(** [x ?? []] *)
Definition or_empty (x : option claim) : claim :=
  match x with None | Some CNull => CArr [] | Some c => c end.

Definition truthy (x : option claim) : bool :=
  match x with
  | None | Some CNull => false
  | Some (CStr s) => negb (String.eqb s "")
  | Some (CNum z) => negb (z =? 0)%Z
  | Some (CBool b) => b
  | Some (CArr _) | Some COther => true
  end.

(** [jwt_crash] is an exception that the validator does not catch. *)
Inductive validation : Type :=
| jwt_valid (user : UserContext)
| jwt_invalid (message : string)
| jwt_crash.

(** What is left of the roles of a user without a verified address. *)
Definition cap_roles (l : list claim) : claim :=
  let kept := List.filter (fun r => negb (existsb (fun s => is_text s r) ELEVATED_ROLES)) l in
  if existsb (is_text "viewer") kept then CArr kept else CArr [CStr "viewer"].

Section Validator.
Context {jwt : Jwt}.

Record JwtValidatorConfig : Type := {
  secretBytes : key;
  edDsaPublicKey : option key;
  issuer : option string;
  audience : option string
}.

Definition readTokenAlgorithm (token : string) : JwtAlgorithm :=
  match header_alg token with
  | Some (Some alg) => if String.eqb alg "EdDSA" then EdDSA else HS256
  | _ => HS256
  end.

Definition context_of_claims (claims : payload) : validation :=
  let isUnverified := match claim_of "unverified" claims with Some (CBool true) => true | _ => false end in
  let user roles scopes :=
    jwt_valid {| uc_userId := claim_of "sub" claims; uc_tenantId := claim_of "tid" claims; uc_roles := roles; uc_scopes := scopes;
                 isGuest := false; isService := false; uc_emailVerified := negb isUnverified;
                 uc_email := if truthy (claim_of "email" claims) then claim_of "email" claims else None;
                 uc_displayName := if truthy (claim_of "displayName" claims) then claim_of "displayName" claims else None |} in
  let roles := or_empty (claim_of "roles" claims) in
  if isUnverified then
    match roles with
    | CArr l => user (cap_roles l) (CArr (map CStr UNVERIFIED_SCOPES))
    | _ => jwt_crash                    (* no method filter *)
    end
  else user roles (or_empty (claim_of "scopes" claims)).

Definition validate (cfg : JwtValidatorConfig) (now : Z) (token : string) (r : auth_redis) : validation :=
  let verified :=
    match readTokenAlgorithm token with
    | EdDSA =>
        match edDsaPublicKey cfg with
        | None => Err "EdDSA token received but no public key is configured."
        | Some k => map_err (fun _ => "Invalid or expired token.") (jwt_verify EdDSA k (issuer cfg) (audience cfg) now token)
        end
    | HS256 => map_err (fun _ => "Invalid or expired token.") (jwt_verify HS256 (secretBytes cfg) (issuer cfg) (audience cfg) now token)
    end in
  match verified with
  | Err message => jwt_invalid message
  | Ok claims =>
      if negb (truthy (claim_of "jti" claims)) then jwt_invalid "Token missing required jti claim."
      else if jti_revoked now claims r || user_revoked now claims r then jwt_invalid "Token has been revoked."
      else context_of_claims claims
  end.

(** ** The middleware *)

Record AuthMiddlewareConfig : Type := {
  jwtSecret : string;
  jwtPublicKey : option string;           (* the PEM text *)
  validateApiKey : string -> option UserContext;
  publicRoutes : list string;
  cf_issuer : option string;
  cf_audience : option string;
  credentialExtractors : list CredentialExtractor
}.

(** A request goes on to the handlers, with a user where one is set, or is answered. *)
Inductive outcome : Type :=
| Next (user : option UserContext)
| Reply (status : Z) (message : string)
| Crash.

(** Throws where the public key cannot be read. *)
Definition validator_config (config : AuthMiddlewareConfig) : option JwtValidatorConfig :=
  let cfg k := {| secretBytes := secret_key (jwtSecret config); edDsaPublicKey := k; issuer := cf_issuer config; audience := cf_audience config |} in
  match jwtPublicKey config with
  | None => Some (cfg None)
  | Some raw => if String.eqb raw "" then Some (cfg None) else (fun k => cfg (Some k)) <$> pem_public raw
  end.

Definition credentialChain (config : AuthMiddlewareConfig) : CredentialExtractor :=
  createCredentialChain (credentialExtractors config ++ [BearerTokenExtractor; CookieTokenExtractor; ApiKeyExtractor]).

Definition is_internal (path : string) : bool := String.eqb path "/internal" || startsWith path "/internal/".

Definition authenticate (config : AuthMiddlewareConfig) (cfg : JwtValidatorConfig) (now : Z) (r : auth_redis) (c : credential) : outcome :=
  match c with
  | jwt_token token =>
      match validate cfg now token r with
      | jwt_valid user => Next (Some user)
      | jwt_invalid message => Reply 401 message
      | jwt_crash => Crash
      end
  | api_key_text key =>
      match validateApiKey config key with
      | Some user => Next (Some user)
      | None => Reply 401 "Invalid API key."
      end
  end.

Definition authMiddleware (config : AuthMiddlewareConfig) (cfg : JwtValidatorConfig) (now : Z) (r : auth_redis) (c : Request) : outcome :=
  if isPublicRoute (publicRoutes config) (path c) then Next None
  else if is_internal (path c) then Next None
  else
    match credentialChain config c with
    | None => Reply 401 "Authentication required."
    | Some credential => authenticate config cfg now r credential
    end.
End Validator.

(** ** The cookie *)

Definition cookie_of (p : list ascii) : option string :=
  if is_prefix COOKIE_NAME p then match drop (length COOKIE_NAME) p with [] => None | t => Some (implode t) end else None.

(** The pieces between semicolons, without the spaces before them. *)
Definition cookies (header : string) : list (list ascii) :=
  match split_char ";" header with
  | [] => []
  | p :: ps => explode p :: map (fun s => trim_start (explode s)) ps
  end.

Lemma until_semicolon_split s : exists ps, split_char ";" s = implode (until_semicolon (explode s)) :: ps.
Proof.
  induction s as [|c s [ps IH]]; cbn [split_char explode until_semicolon]; [by eexists|].
  destruct (Ascii.eqb c ";"); [by eexists|]. rewrite IH. by eexists.
Qed.

Lemma until_semicolon_prefix p l : Forall (fun c => c <> ";"%char) p ->
  is_prefix p (until_semicolon l) = is_prefix p l /\ (is_prefix p l = true -> until_semicolon (drop (length p) l) = drop (length p) (until_semicolon l)).
Proof.
  intros H. revert l. induction H as [|c p Hc _ IH]; intros [|a l]; try done. cbn [is_prefix until_semicolon length drop].
  destruct (Ascii.eqb_spec a ";") as [->|Ha].
  - rewrite (proj2 (Ascii.eqb_neq c ";") Hc). done.
  - cbn [is_prefix drop]. destruct (Ascii.eqb c a); [apply IH|done].
Qed.

Lemma cookie_here_of l : cookie_here l = cookie_of (until_semicolon l).
Proof.
  unfold cookie_here, cookie_of. destruct (until_semicolon_prefix COOKIE_NAME l) as [H1 H2]; [by repeat constructor|].
  rewrite H1. destruct (is_prefix COOKIE_NAME l); [|done]. by rewrite H2.
Qed.

Lemma until_semicolon_trim l : until_semicolon (trim_start l) = trim_start (until_semicolon l).
Proof.
  induction l as [|c l IH]; [done|]. cbn [trim_start until_semicolon]. destruct (Ascii.eqb_spec c ";") as [->|Hc]; [done|].
  cbn [trim_start]. destruct (is_space c); [done|]. cbn [until_semicolon]. by rewrite (proj2 (Ascii.eqb_neq c ";") Hc).
Qed.

Lemma cookie_after_spec s :
  cookie_after (explode s) = head (omap cookie_of (map (fun t => trim_start (explode t)) (tail (split_char ";" s)))).
Proof.
  induction s as [|c s IH]; [done|]. cbn [explode cookie_after split_char]. destruct (until_semicolon_split s) as [ps Hps].
  destruct (Ascii.eqb c ";").
  - cbn [tail]. rewrite Hps in IH |- *. cbn [tail] in IH. cbn [map omap list_omap].
    rewrite explode_implode, cookie_here_of, until_semicolon_trim, IH. by destruct (cookie_of _).
  - rewrite IH, Hps. done.
Qed.

(** The cookie that is read is the first one of its name that is not empty. *)
Theorem cookie_match_spec header : cookie_match header = head (omap cookie_of (cookies header)).
Proof.
  unfold cookie_match, cookies. rewrite cookie_here_of, cookie_after_spec. destruct (until_semicolon_split header) as [ps ->].
  cbn [map omap list_omap tail]. rewrite explode_implode. by destruct (cookie_of _).
Qed.

(** ** Patterns of routes *)

Definition item_matches (i : glob_item) (l : list ascii) : Prop :=
  match i with
  | Lit c => l = [c]
  | AnyRun => Forall (fun c => line_end c = false) l
  | Segment => l <> [] /\ Forall (fun c => c <> "/"%char) l
  end.

Definition in_language (items : list glob_item) (l : list ascii) : Prop :=
  exists pieces, l = concat pieces /\ Forall2 item_matches items pieces.

Lemma language_nil l : in_language [] l <-> l = [].
Proof. split; [intros (p & -> & H); by inversion H|intros ->; by exists []]. Qed.

Lemma language_cons i items l : in_language (i :: items) l <-> exists a b, l = a ++ b /\ item_matches i a /\ in_language items b.
Proof.
  split.
  - intros (pieces & -> & (a & pieces' & Ha & Hp & ->)%Forall2_cons_inv_l). exists a, (concat pieces'). split_and!; [done|done|by exists pieces'].
  - intros (a & b & -> & Ha & pieces & -> & Hp). exists (a :: pieces). split; [done|by constructor].
Qed.

Lemma run_spec good rest l :
  run_match good rest l = true <-> exists a b, l = a ++ b /\ Forall (fun c => good c = true) a /\ rest b = true.
Proof.
  induction l as [|c l IH]; cbn [run_match].
  - rewrite orb_false_r. split; [intros H; by exists [], []|]. intros (a & b & [-> ->]%eq_sym%app_eq_nil & _ & H). done.
  - rewrite orb_true_iff, andb_true_iff, IH. split.
    + intros [H|(Hc & a & b & -> & Ha & Hb)]; [by exists [], (c :: l)|exists (c :: a), b; split_and!; [done|by constructor|done]].
    + intros ([|x a] & b & E & Ha & Hb); [left; cbn in E; by subst b|]. right. injection E as <- ->.
      apply Forall_cons in Ha as [Hc Ha]. split; [done|]. by exists a, b.
Qed.

Lemma glob_match_spec items l : glob_match items l = true <-> in_language items l.
Proof.
  revert l. induction items as [|[c| |] items IH]; intros l.
  - rewrite language_nil. by destruct l.
  - rewrite language_cons. cbn. destruct l as [|a l].
    + split; [done|]. intros (x & y & E & -> & _). done.
    + rewrite andb_true_iff, Ascii.eqb_eq, IH. split.
      * intros [-> H]. by exists [a], l.
      * intros (x & y & E & -> & H). injection E as -> ->. done.
  - rewrite language_cons. cbn [glob_match item_matches]. rewrite run_spec. setoid_rewrite IH. setoid_rewrite negb_true_iff. done.
  - rewrite language_cons. cbn [glob_match item_matches]. destruct l as [|c l].
    + split; [done|]. intros ([|x a] & b & E & [Hn _] & _); done.
    + rewrite andb_true_iff, run_spec. unfold not_slash. setoid_rewrite IH. setoid_rewrite negb_true_iff. setoid_rewrite Ascii.eqb_neq. split.
      * intros (Hc & a & b & -> & Ha & Hb). exists (c :: a), b. split_and!; [done|done|by constructor|done].
      * intros ([|x a] & b & E & [Hn Ha] & Hb); [done|]. injection E as <- ->. apply Forall_cons in Ha as [Hc Ha].
        split; [done|]. by exists a, b.
Qed.

Lemma language_app i1 i2 l : in_language (i1 ++ i2) l <-> exists a b, l = a ++ b /\ in_language i1 a /\ in_language i2 b.
Proof.
  split.
  - intros (pieces & -> & (p1 & p2 & H1 & H2 & ->)%Forall2_app_inv_l). exists (concat p1), (concat p2).
    split_and!; [apply concat_app|by exists p1|by exists p2].
  - intros (a & b & -> & (p1 & -> & H1) & (p2 & -> & H2)). exists (p1 ++ p2). split; [by rewrite concat_app|by apply Forall2_app].
Qed.

Lemma language_lits m l : in_language (map Lit m) l <-> l = m.
Proof.
  revert l. induction m as [|c m IH]; intros l; cbn [map]; [apply language_nil|]. rewrite language_cons. setoid_rewrite IH. split.
  - by intros (a & b & -> & -> & ->).
  - intros ->. by exists [c], m.
Qed.

(** A segment of a route that begins with a colon stands for any segment that is not empty. *)
Definition param_matches (r s : string) : Prop := if startsWith r ":" then s <> "" else r = s.

Definition slash_free (s : string) : Prop := Forall (fun c => c <> "/"%char) (explode s).

Lemma split_slash_free s : Forall slash_free (split_char "/" s).
Proof.
  assert (H0 : slash_free "") by apply Forall_nil_2.
  assert (H1 : forall c t, c <> "/"%char -> slash_free t -> slash_free (String c t)) by (intros c t Hc Ht; by apply Forall_cons).
  induction s as [|c s IH]; cbn [split_char]; [by constructor|]. destruct (Ascii.eqb_spec c "/") as [->|Hc]; [by constructor|].
  destruct (split_char "/" s) as [|h t]; [constructor; [by apply (H1 c "")|done]|]. apply Forall_cons in IH as [Hh Ht]. constructor; [by apply H1|done].
Qed.

Lemma segment_language r l : slash_free r -> in_language (glob_of_segment r) l <-> exists s, l = explode s /\ slash_free s /\ param_matches r s.
Proof.
  intros Hr. unfold glob_of_segment, param_matches. destruct (startsWith r ":").
  - rewrite language_cons. setoid_rewrite language_nil. cbn [item_matches]. split.
    + intros (a & b & -> & [Ha1 Ha2] & ->). rewrite app_nil_r. exists (implode a). unfold slash_free. rewrite explode_implode.
      split_and!; [done|done|]. intros E. apply Ha1. rewrite <- (explode_implode a), E. done.
    + intros (s & -> & Hs & Hne). exists (explode s), []. rewrite app_nil_r. split_and!; [done| |done|done]. by destruct s.
  - rewrite language_lits. split; [intros ->; by exists r|]. by intros (s & -> & _ & <-).
Qed.

Lemma params_language rs l : rs <> [] -> Forall slash_free rs ->
  in_language (join_segments (map glob_of_segment rs)) l <->
  exists ss, l = explode (JsString.join "/" ss) /\ Forall slash_free ss /\ Forall2 param_matches rs ss.
Proof.
  intros Hne H. revert l. induction H as [|r rs Hr Hrs IH]; intros l; [done|]. destruct rs as [|r' rs].
  - cbn [map join_segments]. rewrite segment_language by done. split.
    + intros (s & -> & Hs & Hm). exists [s]. split_and!; [done|by constructor|by constructor].
    + intros (ss & -> & Hss & (s & ss' & Hm & ->%Forall2_nil_inv_l & ->)%Forall2_cons_inv_l). apply Forall_cons in Hss as [Hs _]. by exists s.
  - change (join_segments (map glob_of_segment (r :: r' :: rs))) with
      (glob_of_segment r ++ Lit "/" :: join_segments (map glob_of_segment (r' :: rs))).
    rewrite language_app. setoid_rewrite language_cons. cbn [item_matches]. specialize (IH ltac:(done)). setoid_rewrite IH.
    setoid_rewrite (segment_language r); [|done]. split.
    + intros (? & ? & -> & (s & -> & Hs & Hm) & ? & ? & -> & -> & ss & -> & Hss & Hms). exists (s :: ss). split_and!; [|by constructor|by constructor].
      rewrite join_cons by (intros ->; inversion Hms). by rewrite explode_app.
    + intros (ss & -> & Hss & (s & ss' & Hm & Hms & ->)%Forall2_cons_inv_l). apply Forall_cons in Hss as [Hs Hss].
      rewrite join_cons by (intros ->; inversion Hms). rewrite explode_app. exists (explode s), (explode ("/" +:+ JsString.join "/" ss')).
      split_and!; [done|by exists s|]. exists ["/"%char], (explode (JsString.join "/" ss')). split_and!; [done|done|by exists ss'].
Qed.

Definition star_items (s : string) : list glob_item := map (fun c => if Ascii.eqb c "*" then AnyRun else Lit c) (explode s).

(** What a route of the configuration leaves public: with stars a language of texts,
    without them the paths that agree with it segment by segment. *)
Definition route_allows (route path : string) : Prop :=
  let normalized := strip_slash route in
  if includes normalized "*" then in_language (star_items normalized) (explode path)
  else Forall2 param_matches (split_char "/" normalized) (split_char "/" path).

Lemma no_colon_params n : includes n ":" = false -> Forall (fun r => startsWith r ":" = false) (split_char "/" n).
Proof.
  intros Hn. apply Forall_forall. intros r Hr. apply not_true_iff_false. intros [t ->]%startsWith_spec.
  apply not_true_iff_false in Hn. apply Hn, (includes_char n ":"). eapply split_char_elem; [exact Hr|]. by left.
Qed.

(** A path needs no authentication exactly when a route of the configuration allows
    it, both without the slash at their end. *)
Theorem public_route_spec routes rawPath :
  isPublicRoute routes rawPath = true <-> exists route, route ∈ routes /\ route_allows route (strip_slash rawPath).
Proof.
  unfold isPublicRoute. rewrite existsb_elem. setoid_rewrite list_elem_of_fmap. generalize (strip_slash rawPath). intros p.
  transitivity (exists route, route ∈ routes /\ route_matches p (compile_route route) = true); [naive_solver|].
  apply exist_proper. intros route. apply and_iff_compat_l. unfold compile_route, route_allows.
  destruct (includes (strip_slash route) "*"); [apply glob_match_spec|].
  destruct (includes (strip_slash route) ":") eqn:Ec; cbn [route_matches].
  - rewrite glob_match_spec, params_language; [|apply split_char_nonempty|apply split_slash_free]. split.
    + intros (ss & E%explode_inj & Hss & Hm). rewrite E, (split_char_join "/"); [done|intros ->; inversion Hm as [Hx|]; by apply eq_sym, split_char_nonempty in Hx|done].
    + intros Hm. exists (split_char "/" p). split_and!; [f_equal; symmetry; apply (join_split_char "/")|apply split_slash_free|done].
  - rewrite String.eqb_eq. split.
    + intros <-. apply no_colon_params in Ec. induction Ec as [|r rs Hr _ IH]; constructor; [|done]. unfold param_matches. by rewrite Hr.
    + intros Hm. rewrite <- (join_split_char "/" (strip_slash route)), <- (join_split_char "/" p). f_equal. apply no_colon_params in Ec.
      induction Hm as [|r q rs ss Hrq _ IH]; [done|]. apply Forall_cons in Ec as [Hr Ec]. unfold param_matches in Hrq. rewrite Hr in Hrq. subst q.
      f_equal. by apply IH.
Qed.

(** ** Tokens *)

Lemma cap_roles_spec l : exists kept, cap_roles l = CArr kept /\ CStr "viewer" ∈ kept /\ forall s, s ∈ ELEVATED_ROLES -> CStr s ∉ kept.
Proof.
  unfold cap_roles. set (kept := List.filter _ l). destruct (existsb (is_text "viewer") kept) eqn:E.
  - exists kept. split_and!; [done| |].
    + apply existsb_elem in E as (c & Hc & Ht). destruct c; try done. apply String.eqb_eq in Ht as <-. done.
    + intros s Hs [_ Hin]%elem_of_bfilter. apply negb_true_iff, not_true_iff_false in Hin. apply Hin, existsb_elem.
      exists s. split; [done|apply String.eqb_refl].
  - exists [CStr "viewer"]. split_and!; [done|by left|]. intros s Hs Hin. apply list_elem_of_singleton in Hin as [= ->].
    revert Hs. decide_now.
Qed.

(** The context of claims that do not say that the address is unverified has its roles and
    scopes as they are; otherwise they are capped. *)
Lemma context_of_claims_spec claims user : context_of_claims claims = jwt_valid user ->
  uc_userId user = claim_of "sub" claims /\ isService user = false /\
  (uc_emailVerified user = false -> exists kept, uc_roles user = CArr kept /\ (forall s, s ∈ ELEVATED_ROLES -> CStr s ∉ kept) /\
    uc_scopes user = CArr (map CStr UNVERIFIED_SCOPES)).
Proof.
  unfold context_of_claims. destruct (match claim_of "unverified" claims with Some (CBool true) => true | _ => false end).
  - destruct (or_empty (claim_of "roles" claims)) as [| | |l| |]; try done. intros [= <-]. split_and!; [done|done|]. intros _.
    destruct (cap_roles_spec l) as (kept & Hk & _ & He). by exists kept.
  - intros [= <-]. done.
Qed.

Section Laws.
Context {jwt : Jwt} {matches : JwtAlgorithm -> key -> key -> Prop} {laws : JwtLaws jwt matches}.

(** The key that a token with this algorithm is verified with. *)
Definition verification_key (cfg : JwtValidatorConfig) (a : JwtAlgorithm) (k : key) : Prop :=
  match a with HS256 => k = secretBytes cfg | EdDSA => edDsaPublicKey cfg = Some k end.

(** A token that somebody signed, in time and for this platform, and that nobody revoked. *)
Definition genuine (cfg : JwtValidatorConfig) (now : Z) (r : auth_redis) (token : string) (p : payload) : Prop :=
  exists a k k0, verification_key cfg a k /\ matches a k0 k /\ token = jwt_sign a k0 p /\ in_time now p /\
    names "iss" (issuer cfg) p /\ names "aud" (audience cfg) p /\ jti_revoked now p r = false /\ user_revoked now p r = false.

Lemma validated cfg now token r user : validate cfg now token r = jwt_valid user ->
  exists p, genuine cfg now r token p /\ context_of_claims p = jwt_valid user.
Proof.
  unfold validate. set (verified := match readTokenAlgorithm token with EdDSA => _ | HS256 => _ end).
  assert (Hv : forall p, verified = Ok p -> exists a k, verification_key cfg a k /\ jwt_verify a k (issuer cfg) (audience cfg) now token = Ok p).
  { intros p. unfold verified. destruct (readTokenAlgorithm token).
    - intros H%map_err_ok. by exists HS256, (secretBytes cfg).
    - destruct (edDsaPublicKey cfg) as [k|] eqn:Ek; [|done]. intros H%map_err_ok. by exists EdDSA, k. }
  destruct verified as [p|]; [|done]. destruct (Hv p eq_refl) as (a & k & Hk & (k0 & Hm & -> & Ht & Hi & Ha)%verify_signed).
  destruct (negb _); [done|]. destruct (jti_revoked now p r) eqn:Ej; [done|]. destruct (user_revoked now p r) eqn:Eu; [done|]. cbn [orb].
  intros Hc. exists p. split; [by exists a, k, k0|done].
Qed.

(** C33: A token is taken only if it was signed with a key of the platform, has not
    expired, names the platform and is not revoked; the user is the one that it names, and a
    user without a verified address has no elevated role and the five reading scopes. *)
Theorem validate_sound cfg now token r user : validate cfg now token r = jwt_valid user ->
  (exists p, genuine cfg now r token p /\ uc_userId user = claim_of "sub" p) /\
  (uc_emailVerified user = false -> exists kept, uc_roles user = CArr kept /\ (forall s, s ∈ ELEVATED_ROLES -> CStr s ∉ kept) /\
    uc_scopes user = CArr (map CStr UNVERIFIED_SCOPES)).
Proof.
  intros (p & Hg & (Hs & _ & Hcap)%context_of_claims_spec)%validated. split; [by exists p|done].
Qed.

(** A handler behind the middleware runs for a public route, for a route between
    services, or with the user of a credential of the request. *)
Lemma middleware_next config cfg now r c user : authMiddleware config cfg now r c = Next user ->
  (user = None /\ (isPublicRoute (publicRoutes config) (path c) = true \/ is_internal (path c) = true)) \/
  exists u, user = Some u /\
    ((exists token, credentialChain config c = Some (jwt_token token) /\ validate cfg now token r = jwt_valid u) \/
     (exists k, credentialChain config c = Some (api_key_text k) /\ validateApiKey config k = Some u)).
Proof.
  unfold authMiddleware. destruct (isPublicRoute _ _); [intros [= <-]; left; auto|]. destruct (is_internal _); [intros [= <-]; left; auto|].
  destruct (credentialChain config c) as [[token|k]|]; [| |done]; cbn [authenticate].
  - destruct (validate cfg now token r) as [u| |] eqn:E; [|done|done]. intros [= <-]. right. exists u. split; [done|]. left. by exists token.
  - destruct (validateApiKey config k) as [u|] eqn:E; [|done]. intros [= <-]. right. exists u. split; [done|]. right. by exists k.
Qed.
End Laws.

Section Issued.
Context {jwt : Jwt} {matches : JwtAlgorithm -> key -> key -> Prop} {laws : JwtLaws jwt matches} (e : env).

Definition of_platform (wanted : option string) : Prop := forall s, wanted = Some s -> s = "oneplatform".

(** A text that is not empty. *)
Definition shown (x : option string) : option string := m ← x; if String.eqb m "" then None else Some m.

Lemma truthy_shown x : (if truthy (CStr <$> shown x) then CStr <$> shown x else None) = CStr <$> shown x.
Proof. destruct x as [m|]; [|done]. unfold shown. cbn. destruct (String.eqb m "") eqn:E; [done|]. cbn. by rewrite E. Qed.

Lemma access_claims now expiry j scopes uf :
  let p := access_payload now expiry j scopes uf in
  claim_of "sub" p = Some (CStr (uf_id uf)) /\ claim_of "tid" p = Some (CStr (uf_tenant uf)) /\
  claim_of "roles" p = Some (CArr (map CStr (uf_roles uf))) /\ claim_of "scopes" p = Some (CArr (map CStr scopes)) /\
  claim_of "unverified" p = Some (CBool (negb (emailVerified uf))) /\ claim_of "jti" p = Some (CStr j) /\
  claim_of "iss" p = Some (CStr "oneplatform") /\ claim_of "aud" p = Some (CStr "oneplatform") /\
  claim_of "email" p = CStr <$> shown (uf_email uf) /\ claim_of "displayName" p = CStr <$> shown (displayName uf).
Proof.
  unfold access_payload, claim_of, when_truthy, shown. destruct (uf_email uf) as [m|], (displayName uf) as [n|]; cbn [mbind option_bind].
  1: destruct (String.eqb m ""), (String.eqb n "").
  5: destruct (String.eqb m "").
  7: destruct (String.eqb n "").
  all: split_and!; reflexivity.
Qed.

(** What a verified token of a user shows. *)
Definition issued_context (uf : UserForToken) (scopes : list string) : UserContext :=
  {| uc_userId := Some (CStr (uf_id uf)); uc_tenantId := Some (CStr (uf_tenant uf));
     uc_roles := if emailVerified uf then CArr (map CStr (uf_roles uf)) else cap_roles (map CStr (uf_roles uf));
     uc_scopes := CArr (map CStr (if emailVerified uf then scopes else UNVERIFIED_SCOPES));
     isGuest := false; isService := false; uc_emailVerified := emailVerified uf;
     uc_email := CStr <$> shown (uf_email uf);
     uc_displayName := CStr <$> shown (displayName uf) |}.

Lemma context_of_issued now expiry j scopes uf :
  context_of_claims (access_payload now expiry j scopes uf) = jwt_valid (issued_context uf scopes).
Proof.
  pose proof (access_claims now expiry j scopes uf) as (H1 & H2 & H3 & H4 & H5 & _ & _ & _ & H6 & H7). unfold context_of_claims.
  rewrite H1, H2, H3, H4, H5, H6, H7, !truthy_shown. unfold issued_context. by destruct (emailVerified uf).
Qed.

(** C32: A token that the authentication service has issued is taken by every service with
    the same keys, until it expires or is revoked, for the user it was issued to, with the
    roles and scopes of the user, or the capped ones if the address is not verified. *)
Theorem issued_token_taken cfg issued j uf token now r expiry scopes algorithm :
  issueAccessToken e issued j uf = Ok token -> getJwtExpirySeconds e = Ok expiry -> resolveScopes (uf_roles uf) = Ok scopes ->
  getJwtAlgorithm e = Ok algorithm ->
  (forall k, (match algorithm with EdDSA => loadEdDsaPrivateKey e | HS256 => getJwtSecret e end) = Ok k ->
     exists k', verification_key cfg algorithm k' /\ matches algorithm k k') ->
  of_platform (issuer cfg) -> of_platform (audience cfg) -> j <> "" -> (seconds now < seconds issued + expiry)%Z ->
  get now j (revoked_token r) = None -> get now (uf_id uf) (revoked_user r) = None ->
  validate cfg now token r = jwt_valid (issued_context uf scopes).
Proof.
  intros Ht He Hs Ha Hkey Hi Hau Hj Hlt Hjr Hur. apply issued_token in Ht as (a & k & expiry' & scopes' & -> & He' & Ha' & Hs' & Hk).
  rewrite He in He'. injection He' as <-. rewrite Hs in Hs'. injection Hs' as <-. rewrite Ha in Ha'. injection Ha' as <-.
  destruct (Hkey k Hk) as (k' & Hvk & Hm). set (p := access_payload issued expiry j scopes uf).
  pose proof (access_claims issued expiry j scopes uf) as (H1 & _ & _ & _ & _ & H2 & H3 & H4 & _). fold p in H1, H2, H3, H4.
  assert (Hv : jwt_verify algorithm k' (issuer cfg) (audience cfg) now (jwt_sign algorithm k p) = Ok p).
  { apply verify_signed. exists k. split_and!; [done|done| | |].
    - intros x. unfold p. rewrite claim_exp. intros [= <-]. done.
    - unfold names. destruct (issuer cfg) as [s|]; [|done]. by rewrite H3, (Hi s).
    - unfold names. destruct (audience cfg) as [s|]; [|done]. by rewrite H4, (Hau s). }
  unfold validate, readTokenAlgorithm. rewrite header_signed.
  assert (Hrest : forall message, match Ok (E := string) p with
      | Err m => jwt_invalid message
      | Ok claims => if negb (truthy (claim_of "jti" claims)) then jwt_invalid "Token missing required jti claim."
                     else if jti_revoked now claims r || user_revoked now claims r then jwt_invalid "Token has been revoked."
                     else context_of_claims claims
      end = jwt_valid (issued_context uf scopes)).
  { intros _. unfold jti_revoked, user_revoked. rewrite H1, H2. cbn [truthy]. rewrite (proj2 (String.eqb_neq j "") Hj), Hjr, Hur. apply context_of_issued. }
  destruct algorithm; cbn [algorithm_name verification_key] in *.
  - subst k'. change (String.eqb "HS256" "EdDSA") with false. cbv iota. rewrite Hv. apply (Hrest "").
  - rewrite Hvk. change (String.eqb "EdDSA" "EdDSA") with true. cbv iota. rewrite Hv. apply (Hrest "").
Qed.

(** Where tokens are signed with EdDSA and a service has no public key, as every
    service is installed, it refuses every token of the platform. *)
Theorem eddsa_refused cfg issued j uf token now r :
  getJwtAlgorithm e = Ok EdDSA -> edDsaPublicKey cfg = None -> issueAccessToken e issued j uf = Ok token ->
  validate cfg now token r = jwt_invalid "EdDSA token received but no public key is configured.".
Proof.
  intros Ha Hk Ht. apply issued_token in Ht as (a & k & expiry & scopes & -> & _ & Ha' & _). rewrite Ha in Ha'. injection Ha' as <-.
  unfold validate, readTokenAlgorithm. by rewrite header_signed, Hk.
Qed.
End Issued.
