(* ===== verification/ServiceAuth.v ===== *)
(** * Authentication of the calls between services

    packages/core/src/service-token.ts (the token that a service sends),
    middleware/service-auth.ts (the check of it, and of the user that the call acts for)
    and the order of the middlewares in app.ts; at the end both middlewares at work. *)

From S2P Require Import Prelude JsString JsNumber JsValue AuthStore TokenService AuthSystem.
From S2P Require Import TokenSpec ServiceRbac HttpAuth SqlTable AuthService AuthExample.
From Stdlib Require Import Ascii.
From stdpp Require Import gmap strings.

(** jose's keys, Node's HMAC and decoders, and the router of hono.  [unverified_payload]
    decodes the middle part of a token, [context_fields] the header X-User-Context as the
    properties of a JSON value; [None] where that throws. *)
Class ServiceHost (jwt : Jwt) : Type := {
  import_pkcs8 : string -> option key;
  import_spki : string -> option key;
  unverified_payload : string -> option payload;
  hmac_hex : string -> string -> string;
  context_fields : string -> option payload;
  routed_path : string -> string
}.

(** ** The token of a service *)

Section Signer.
Context {jwt : Jwt} (serviceName : string) (privateKey : key).

Record cached_token : Type := { cached_text : string; cached_until : Z }.

Definition service_payload (now : Z) : payload :=
  [("sub", CStr serviceName); ("role", CStr "service"); ("iat", CNum now); ("exp", CNum (now + 300)%Z);
   ("jti", CStr ("svc-" +:+ serviceName +:+ "-" +:+ Z_to_string now))].

Definition sign (now : Z) (cached : option cached_token) : string * option cached_token :=
  let now := seconds now in
  let fresh :=
    let token := jwt_sign EdDSA privateKey (service_payload now) in
    (token, Some {| cached_text := token; cached_until := (now + 300)%Z |}) in
  match cached with
  | Some c => if (60 <? cached_until c - now)%Z then (cached_text c, cached) else fresh
  | None => fresh
  end.
End Signer.

(** ** The middleware *)

(** [String(x)], as the name of a property. *)
Fixpoint property_text (c : claim) : string :=
  match c with
  | CStr s => s
  | CNum z => Z_to_string z
  | CBool b => if b then "true" else "false"
  | CNull => "null"
  | COther => "[object Object]"
  | CArr l => JsString.join "," (map (fun c => match c with CNull => "" | _ => property_text c end) l)
  end.

Definition property_name (x : option claim) : string := match x with Some c => property_text c | None => "undefined" end.

(** [Buffer.from(s, "hex")] of hexadecimal digits. *)
Fixpoint hex_bytes (l : list ascii) : list Z :=
  match l with
  | a :: b :: l => (digit_value a * 16 + digit_value b)%Z :: hex_bytes l
  | _ => []
  end.

(** Hexadecimal digits, at least one. *)
Definition is_hex_text (s : string) : bool := negb (String.eqb s "") && forallb is_hex (explode s).

Definition same_bytes (l k : list Z) : bool := bool_decide (l = k).

Section Middleware.
Context {jwt : Jwt} {host : ServiceHost jwt} (e : env).

Record ServiceAuthConfig : Type := { targetService : string; servicePublicKeys : list (string * string) }.

Definition getHmacKey : option string :=
  match e "OP_JWT_SECRET" with Some s => if String.eqb s "" then None else Some s | None => None end.

(** [None] where the secret is missing, which throws. *)
Definition signUserContext (headerValue : string) : option string := (fun k => hmac_hex k headerValue) <$> getHmacKey.

Definition verifyUserContextSignature (headerValue receivedSig : string) : option bool :=
  expected ← signUserContext headerValue;
  let expectedBuf := hex_bytes (explode expected) in
  let isValidHex := is_hex_text receivedSig in
  let same_length := (String.length receivedSig =? String.length expected)%nat in
  let receivedBuf := if same_length && isValidHex then hex_bytes (explode receivedSig) else expectedBuf in
  Some (same_bytes expectedBuf receivedBuf && same_length && isValidHex).

Definition all_texts (c : option claim) : bool :=
  match c with Some (CArr l) => forallb (fun x => match x with CStr _ => true | _ => false end) l | _ => false end.
Definition is_a_text (c : option claim) : bool := match c with Some (CStr _) => true | _ => false end.
Definition is_a_bool (c : option claim) : bool := match c with Some (CBool _) => true | _ => false end.
Definition flag (c : option claim) : bool := match c with Some (CBool b) => b | _ => false end.

(** The user in the header, where the fields have their types. *)
Definition forwarded_user (fields : payload) : option UserContext :=
  if is_a_text (claim_of "userId" fields) && is_a_text (claim_of "tenantId" fields) && all_texts (claim_of "roles" fields)
     && all_texts (claim_of "scopes" fields) && is_a_bool (claim_of "isService" fields) && is_a_bool (claim_of "isGuest" fields)
     && is_a_bool (claim_of "emailVerified" fields)
  then Some {| uc_userId := claim_of "userId" fields; uc_tenantId := claim_of "tenantId" fields; uc_roles := or_empty (claim_of "roles" fields);
               uc_scopes := or_empty (claim_of "scopes" fields); isGuest := flag (claim_of "isGuest" fields);
               isService := flag (claim_of "isService" fields); uc_emailVerified := flag (claim_of "emailVerified" fields);
               uc_email := claim_of "email" fields; uc_displayName := claim_of "displayName" fields |}
  else None.

Definition service_user (sub : option claim) : UserContext :=
  {| uc_userId := sub; uc_tenantId := Some (CStr ""); uc_roles := CArr [CStr "service"]; uc_scopes := CArr [CStr "admin"];
     isGuest := false; isService := true; uc_emailVerified := true; uc_email := None; uc_displayName := None |}.

(** A header that is absent or empty. *)
Definition header_value (x : option string) : option string :=
  match x with Some s => if String.eqb s "" then None else Some s | None => None end.

(** The user that the call acts for, once the token has been accepted. *)
Definition context_user (sub : option claim) (c : Request) : outcome :=
  match header_value (x_user_context c) with
  | None => Next (Some (service_user sub))
  | Some header =>
      match header_value (x_user_context_signature c) with
      | None => Reply 401 "X-User-Context-Signature is missing or invalid."
      | Some sig =>
          match verifyUserContextSignature header sig with
          | None => Crash
          | Some false => Reply 401 "X-User-Context-Signature is missing or invalid."
          | Some true =>
              match context_fields header with
              | None => Reply 401 "Malformed X-User-Context."
              | Some fields =>
                  match forwarded_user fields with
                  | Some user => Next (Some user)
                  | None => Reply 401 "X-User-Context has missing or invalid fields."
                  end
              end
          end
      end
  end.

(** The public key that is registered for a caller; [None] where there is none.  A name
    that objects inherit gives what [importSPKI] refuses. *)
Definition caller_key (config : ServiceAuthConfig) (callerService : string) : option (option key) :=
  match jm_get callerService (servicePublicKeys config) with
  | Some pem => if String.eqb pem "" then None else Some (import_spki pem)
  | None => if mem callerService ("__proto__" :: object_proto) then Some None else None
  end.

Definition serviceAuthMiddleware (config : ServiceAuthConfig) (now : Z) (c : Request) : outcome :=
  match header_value (x_service_token c), header_value (x_user_context c) with
  | None, Some _ => Reply 401 "X-User-Context requires a valid X-Service-Token."
  | None, None => Reply 401 "X-Service-Token is required on internal routes."
  | Some serviceToken, _ =>
      match unverified_payload serviceToken with
      | None => Reply 401 "Malformed service token."
      | Some unverified =>
          match caller_key config (property_name (claim_of "sub" unverified)) with
          | None => Reply 401 "Service token issued by an unrecognized service."
          | Some None => Reply 401 "Invalid or expired service token."
          | Some (Some publicKey) =>
              match jwt_verify EdDSA publicKey None None now serviceToken with
              | Err _ => Reply 401 "Invalid or expired service token."
              | Ok claims =>
                  match isServiceCallAllowed (property_name (claim_of "sub" claims)) (targetService config) (method c) (path c) with
                  | Err _ => Crash
                  | Ok false => Reply 403 "Service is not authorized."
                  | Ok true => context_user (claim_of "sub" claims) c
                  end
              end
          end
      end
  end.

(** ** The order of the middlewares *)

Definition createApp (config : AuthMiddlewareConfig) (cfg : JwtValidatorConfig) (service : ServiceAuthConfig) (now : Z) (r : auth_redis)
    (c : Request) : outcome :=
  match authMiddleware config cfg now r c with
  | Next user => if is_internal (routed_path (path c)) then serviceAuthMiddleware service now c else Next user
  | answer => answer
  end.
End Middleware.

(** ** Signatures *)

Lemma hex_char c : is_hex c = true ->
  (0 <= digit_value c < 16)%Z /\ digit_value (lower_char c) = digit_value c /\ is_hex (lower_char c) = true.
Proof. destruct c as [[] [] [] [] [] [] [] []]; vm_compute; intros H; try discriminate H; split_and!; congruence. Qed.

Lemma hex_lower_inj c d : is_hex c = true -> is_hex d = true -> digit_value c = digit_value d -> lower_char c = lower_char d.
Proof.
  assert (H : forall c, is_hex c = true -> lower_char c = match digit_value c with
      | 0 => "0" | 1 => "1" | 2 => "2" | 3 => "3" | 4 => "4" | 5 => "5" | 6 => "6" | 7 => "7" | 8 => "8" | 9 => "9"
      | 10 => "a" | 11 => "b" | 12 => "c" | 13 => "d" | 14 => "e" | _ => "f" end%Z%char).
  { intros x. destruct x as [[] [] [] [] [] [] [] []]; vm_compute; intros Hx; congruence. }
  intros Hc Hd E. rewrite (H c Hc), (H d Hd). by rewrite E.
Qed.

Lemma lower_is_hex c : is_hex (lower_char c) = true -> is_hex c = true.
Proof. destruct c as [[] [] [] [] [] [] [] []]; vm_compute; congruence. Qed.

Lemma pair_ind {A} (P : list A -> Prop) : P [] -> (forall a, P [a]) -> (forall a b l, P l -> P (a :: b :: l)) -> forall l, P l.
Proof.
  intros H0 H1 H2 l. enough (P l /\ forall a, P (a :: l)) by naive_solver. induction l as [|b l [IH1 IH2]]; [auto|].
  split; [done|]. intros a. by apply H2.
Qed.

(** Two texts of the same even number of digits give the same bytes exactly when they
    differ in the case of letters only. *)
Lemma hex_bytes_inj l k : forallb is_hex l = true -> forallb is_hex k = true -> length l = length k -> Nat.even (length l) = true ->
  hex_bytes l = hex_bytes k <-> map lower_char l = map lower_char k.
Proof.
  revert k. induction l as [|a|a b l IH] using pair_ind; intros k; [destruct k; done|done|].
  destruct k as [|c [|d k]]; [done|done|]. cbn [forallb length map hex_bytes]. rewrite !andb_true_iff.
  intros (Ha & Hb & Hl) (Hc & Hd & Hk) [= Hlen] Hev. specialize (IH k Hl Hk Hlen Hev).
  pose proof (hex_char a Ha) as (Ra & La & _). pose proof (hex_char b Hb) as (Rb & Lb & _).
  pose proof (hex_char c Hc) as (Rc & Lc & _). pose proof (hex_char d Hd) as (Rd & Ld & _). split.
  - intros [= E El]. assert (digit_value a = digit_value c /\ digit_value b = digit_value d) as [Eac Ebd] by lia.
    f_equal; [by apply hex_lower_inj|]. f_equal; [by apply hex_lower_inj|]. by apply IH.
  - intros [= Eac Ebd El]. assert (digit_value a = digit_value c) as -> by congruence. assert (digit_value b = digit_value d) as -> by congruence.
    f_equal. by apply IH.
Qed.

(** What jose, Node and hono do. *)
Class ServiceHostLaws (jwt : Jwt) (host : ServiceHost jwt) : Prop := {
  verified_payload a k iss aud now token p : jwt_verify a k iss aud now token = Ok p -> unverified_payload token = Some p;
  digest_hex k d : forallb is_hex (explode (hmac_hex k d)) = true;
  digest_lower k d : toLowerCase (hmac_hex k d) = hmac_hex k d;
  digest_length k d : String.length (hmac_hex k d) = 64%nat;
  routed_internal p : is_internal p = true -> is_internal (routed_path p) = true
}.

Section Laws.
Context {jwt : Jwt} {matches : JwtAlgorithm -> key -> key -> Prop} {laws : JwtLaws jwt matches}.
Context {host : ServiceHost jwt} {host_laws : ServiceHostLaws jwt host} (e : env).

Lemma length_toLowerCase s : String.length (toLowerCase s) = String.length s.
Proof. unfold toLowerCase, on_chars. by rewrite <- !length_explode, explode_implode, length_map. Qed.

(** A signature is taken exactly when it is the digest, in digits of any case. *)
Theorem signature_spec headerValue sig k : getHmacKey e = Some k ->
  verifyUserContextSignature e headerValue sig = Some (bool_decide (toLowerCase sig = hmac_hex k headerValue)).
Proof.
  intros Hk. unfold verifyUserContextSignature, signUserContext. rewrite Hk. cbn [fmap option_fmap option_map mbind option_bind].
  set (d := hmac_hex k headerValue). f_equal. apply eq_true_iff_eq. rewrite bool_decide_eq_true.
  pose proof (digest_hex k headerValue) as Hh. pose proof (digest_lower k headerValue) as Hl. pose proof (digest_length k headerValue) as Hn.
  fold d in Hh, Hl, Hn. assert (Hhl : map lower_char (explode d) = explode d).
  { rewrite <- Hl at 2. unfold toLowerCase, on_chars. by rewrite explode_implode. }
  split.
  - intros ((Hs & Hlen)%andb_true_iff & Hhex)%andb_true_iff. rewrite Hlen, Hhex in Hs. cbn [andb] in Hs. apply bool_decide_eq_true in Hs.
    unfold is_hex_text in Hhex. apply andb_true_iff in Hhex as [_ Hhex]. apply Nat.eqb_eq in Hlen.
    apply hex_bytes_inj in Hs; [|done|done|by rewrite !length_explode|by rewrite length_explode, Hn].
    unfold toLowerCase, on_chars. rewrite <- Hs, Hhl. apply implode_explode.
  - intros E. assert (Hlen : String.length sig = String.length d) by (by rewrite <- E, length_toLowerCase).
    assert (Hm : map lower_char (explode sig) = explode d) by (rewrite <- E; unfold toLowerCase, on_chars; by rewrite explode_implode).
    assert (Hhex : forallb is_hex (explode sig) = true).
    { apply forallb_elem. intros c Hc. apply lower_is_hex. apply (proj1 (forallb_elem _ _) Hh). rewrite <- Hm. by apply list_elem_of_fmap_2. }
    assert (Hht : is_hex_text sig = true) by (unfold is_hex_text; rewrite Hhex; destruct sig; [cbn in Hlen; lia|done]).
    rewrite Hlen, Nat.eqb_refl, Hht. cbn [andb]. rewrite !andb_true_r. apply bool_decide_eq_true.
    apply hex_bytes_inj; [done|done|by rewrite !length_explode|by rewrite length_explode, Hn|]. by rewrite Hhl, Hm.
Qed.

(** The user that an accepted call acts for: the service itself, or the user in the header
    whose digest the call has. *)
Definition acts_for (sub : option claim) (c : Request) (user : UserContext) : Prop :=
  match header_value (x_user_context c) with
  | None => user = service_user sub
  | Some header =>
      exists sig k fields, header_value (x_user_context_signature c) = Some sig /\ getHmacKey e = Some k /\
        toLowerCase sig = hmac_hex k header /\ context_fields header = Some fields /\ forwarded_user fields = Some user
  end.

Lemma context_user_next sub c u : context_user e sub c = Next u -> exists user, u = Some user /\ acts_for sub c user.
Proof.
  unfold context_user, acts_for. destruct (header_value (x_user_context c)) as [header|]; [|intros [= <-]; by eexists].
  destruct (header_value (x_user_context_signature c)) as [sig|]; [|done].
  destruct (getHmacKey e) as [k|] eqn:Ek.
  - rewrite (signature_spec _ _ k Ek). case_bool_decide as Hs; [|done]. destruct (context_fields header) as [fields|] eqn:Ef; [|done].
    destruct (forwarded_user fields) as [user|] eqn:Eu; [|done]. intros [= <-]. exists user. split; [done|]. by exists sig, k, fields.
  - unfold verifyUserContextSignature, signUserContext. rewrite Ek. done.
Qed.

(** A call by [caller]: its token is signed with the key registered for it and in time, and
    the matrix allows it. *)
Definition authentic_call (config : ServiceAuthConfig) (now : Z) (c : Request) (p : payload) : Prop :=
  exists token pem k k0, x_service_token c = Some token /\ jm_get (property_name (claim_of "sub" p)) (servicePublicKeys config) = Some pem /\
    import_spki pem = Some k /\ matches EdDSA k0 k /\ token = jwt_sign EdDSA k0 p /\ in_time now p /\
    isServiceCallAllowed (property_name (claim_of "sub" p)) (targetService config) (method c) (path c) = Ok true.

(** A call between services goes on only with a token that was signed with the key
    registered for the service that it names, in time, for a call that the matrix allows;
    it acts for that service, or for a user whose context is signed with the secret. *)
Theorem call_authentic config now c u : serviceAuthMiddleware e config now c = Next u ->
  exists p user, u = Some user /\ authentic_call config now c p /\ acts_for (claim_of "sub" p) c user.
Proof.
  unfold serviceAuthMiddleware. destruct (header_value (x_service_token c)) as [token|] eqn:Et; [|by destruct (header_value (x_user_context c))].
  destruct (unverified_payload token) as [unverified|] eqn:Eu; [|done].
  destruct (caller_key config _) as [[k|]|] eqn:Ek; [|done|done].
  destruct (jwt_verify EdDSA k None None now token) as [p|] eqn:Ev; [|done].
  pose proof (verified_payload _ _ _ _ _ _ _ Ev) as Hp. rewrite Eu in Hp. injection Hp as ->.
  destruct (isServiceCallAllowed _ _ _ _) as [[|]|] eqn:Ea; [|done|done]. intros (user & -> & Hfor)%context_user_next.
  apply verify_signed in Ev as (k0 & Hm & -> & Ht & _ & _). exists p, user. split_and!; [done| |done].
  unfold caller_key in Ek. destruct (jm_get _ (servicePublicKeys config)) as [pem|] eqn:Epem; [|by case_match].
  destruct (String.eqb pem ""); [done|]. injection Ek as Ek. exists (jwt_sign EdDSA k0 p), pem, k, k0. split_and!; try done.
  unfold header_value in Et. destruct (x_service_token c) as [t|]; [|done]. destruct (String.eqb t ""); [done|]. by injection Et as ->.
Qed.

(** C34: In a service as it is installed, a handler of an internal route runs only for an
    authentic call, and every other handler with a user unless its route is public. *)
Theorem handlers_guarded config cfg service now r c u : createApp e config cfg service now r c = Next u ->
  (is_internal (routed_path (path c)) = true -> exists p, authentic_call service now c p) /\
  (isPublicRoute (publicRoutes config) (path c) = false -> is_Some u).
Proof.
  unfold createApp. destruct (authMiddleware config cfg now r c) as [user| |] eqn:Ea; [|done|done].
  destruct (is_internal (routed_path (path c))) eqn:Ei.
  - intros (p & usr & -> & Hp & _)%call_authentic. split; [intros _; by exists p|by eexists].
  - intros [= <-]. split; [done|]. intros Hpub. apply middleware_next in Ea as [[_ [Hp|Hp]]|(x & -> & _)]; [by rewrite Hp in Hpub| |by eexists].
    apply routed_internal in Hp. congruence.
Qed.
End Laws.

(** ** The tokens that a service sends *)

Section Sent.
Context {jwt : Jwt} {matches : JwtAlgorithm -> key -> key -> Prop} {laws : JwtLaws jwt matches}.
Context {host : ServiceHost jwt} {host_laws : ServiceHostLaws jwt host} (e : env) (serviceName : string) (privateKey : key).

(** The cached token is one that the signer made. *)
Definition cache_made (cached : option cached_token) : Prop :=
  forall c, cached = Some c -> exists t, cached_text c = jwt_sign EdDSA privateKey (service_payload serviceName t) /\ cached_until c = (t + 300)%Z.

Lemma sign_spec now cached token cached' : cache_made cached -> sign serviceName privateKey now cached = (token, cached') ->
  cache_made cached' /\ exists t, token = jwt_sign EdDSA privateKey (service_payload serviceName t) /\ (seconds now + 60 < t + 300)%Z.
Proof.
  intros Hc. unfold sign. assert (Hfresh : forall tc,
      (jwt_sign EdDSA privateKey (service_payload serviceName (seconds now)),
       Some {| cached_text := jwt_sign EdDSA privateKey (service_payload serviceName (seconds now)); cached_until := (seconds now + 300)%Z |}) = tc ->
      cache_made tc.2 /\ exists t, tc.1 = jwt_sign EdDSA privateKey (service_payload serviceName t) /\ (seconds now + 60 < t + 300)%Z).
  { intros tc <-. split; cbn; [intros c [= <-]; by exists (seconds now)|]. exists (seconds now). split; [done|lia]. }
  destruct cached as [c|]; [|intros H; by apply Hfresh in H].
  destruct (60 <? cached_until c - seconds now)%Z eqn:El; [|intros H; by apply Hfresh in H].
  intros [= <- <-]. split; [done|]. destruct (Hc c eq_refl) as (t & Ht & Hu). exists t. split; [done|]. apply Z.ltb_lt in El. lia.
Qed.

(** The requests that a signer answers, one after the other. *)
Fixpoint sign_all (times : list Z) (cached : option cached_token) : option cached_token :=
  match times with [] => cached | t :: times => sign_all times (sign serviceName privateKey t cached).2 end.

Lemma sign_all_made times cached : cache_made cached -> cache_made (sign_all times cached).
Proof.
  revert cached. induction times as [|t times IH]; intros cached Hc; cbn; [done|]. apply IH.
  destruct (sign serviceName privateKey t cached) as [token cached'] eqn:E. by destruct (sign_spec _ _ _ _ Hc E).
Qed.

(** Whatever tokens a service has sent before, the one that it sends now is taken, for
    a minute at least, by every service that has its public key, for the calls that the
    matrix allows it. *)
Theorem sent_token_taken config times now token cached' now' pem k c :
  sign serviceName privateKey now (sign_all times None) = (token, cached') ->
  jm_get serviceName (servicePublicKeys config) = Some pem -> pem <> "" -> import_spki pem = Some k -> matches EdDSA privateKey k ->
  x_service_token c = Some token -> token <> "" -> header_value (x_user_context c) = None ->
  isServiceCallAllowed serviceName (targetService config) (method c) (path c) = Ok true ->
  (seconds now' <= seconds now + 60)%Z ->
  serviceAuthMiddleware e config now' c = Next (Some (service_user (Some (CStr serviceName)))).
Proof.
  intros Hs Hpem Hne Hk Hm Hc Hn Hu Ha Ht. assert (Hmade : cache_made (sign_all times None)) by (apply sign_all_made; by intros ?).
  destruct (sign_spec _ _ _ _ Hmade Hs) as (_ & t & Htok & Hlive). unfold serviceAuthMiddleware. rewrite Hc. cbn [header_value].
  rewrite (proj2 (String.eqb_neq token "") Hn).
  assert (Hv : jwt_verify EdDSA k None None now' token = Ok (service_payload serviceName t)).
  { apply verify_signed. exists privateKey. split_and!; [done|done| |done|done]. intros x [= <-]. lia. }
  rewrite (verified_payload _ _ _ _ _ _ _ Hv). change (claim_of "sub" (service_payload serviceName t)) with (Some (CStr serviceName)).
  cbn [property_name property_text]. unfold caller_key. rewrite Hpem, (proj2 (String.eqb_neq pem "") Hne), Hk, Hv.
  change (claim_of "sub" (service_payload serviceName t)) with (Some (CStr serviceName)). cbn [property_name property_text]. rewrite Ha.
  unfold context_user. by rewrite Hu.
Qed.
End Sent.

(** ** Authentication of requests at work

    The middlewares on the model of jose of AuthSystem: examples, and the theorems on
    tokens and on calls between services applied to a small deployment. *)

#[local] Existing Instance toy_jwt.

(** ** Where a request has its credential *)

Example cookie_second : cookie_match "theme=dark;  op_access_token=abc; lang=en" = Some "abc".
Proof. reflexivity. Qed.
Example cookie_other_name : cookie_match "x_op_access_token=abc" = None.
Proof. reflexivity. Qed.
Example cookie_empty : cookie_match "op_access_token=; op_access_token=b" = Some "b".
Proof. reflexivity. Qed.

(** ** Public routes *)

Definition auth_routes : list string :=
  ["/healthz"; "/api/v1/auth/reset-password/*"; "/api/v1/oauth/:provider/authorize"].

Example route_exact : isPublicRoute auth_routes "/healthz/" = true.
Proof. reflexivity. Qed.
Example route_below : isPublicRoute auth_routes "/api/v1/auth/reset-password/a/b" = true.
Proof. reflexivity. Qed.
Example route_itself : isPublicRoute auth_routes "/api/v1/auth/reset-password" = false.
Proof. reflexivity. Qed.
Example route_param : isPublicRoute auth_routes "/api/v1/oauth/google/authorize" = true.
Proof. reflexivity. Qed.
Example route_param_deep : isPublicRoute auth_routes "/api/v1/oauth/a/b/authorize" = false.
Proof. reflexivity. Qed.

(** A role of a tenant's own is not among the elevated ones and is kept. *)
Example own_role_kept : cap_roles [CStr "viewer"; CStr "auditor"; CStr "editor"] = CArr [CStr "viewer"; CStr "auditor"].
Proof. reflexivity. Qed.

(** ** Tokens of users *)

Definition toy_config : JwtValidatorConfig :=
  {| secretBytes := "s" : key; edDsaPublicKey := None; issuer := Some "oneplatform"; audience := Some "oneplatform" |}.

Definition unverified_user : UserForToken :=
  {| uf_id := "ann"; uf_tenant := "t"; uf_roles := ["viewer"]; emailVerified := false; uf_email := Some "ann@a.b"; displayName := None |}.

Definition issued_token : string := match issueAccessToken toy_env 0 "j" unverified_user with Ok t => t | Err _ => "" end.

Definition viewer_scopes : list string := ["data:read"; "ontology:read"; "pipelines:read"; "apps:read"; "logs:read"; "lineage:read"].

Lemma toy_secret k : getJwtSecret toy_env = Ok k -> k = ("s" : key).
Proof. vm_compute. by intros [= <-]. Qed.

Lemma issued_token_taken_witness : validate toy_config 5000 issued_token (redis toy_world) = jwt_valid (issued_context unverified_user viewer_scopes).
Proof.
  apply (issued_token_taken (jwt := toy_jwt) (matches := toy_matches) toy_env toy_config 0 "j" unverified_user issued_token 5000 (redis toy_world) 900 viewer_scopes HS256).
  - vm_compute. reflexivity.
  - vm_compute. reflexivity.
  - vm_compute. reflexivity.
  - vm_compute. reflexivity.
  - intros k ->%toy_secret. eexists. split; reflexivity.
  - by intros s [= <-].
  - by intros s [= <-].
  - discriminate.
  - vm_compute. reflexivity.
  - vm_compute. reflexivity.
  - vm_compute. reflexivity.
Defined.

Definition taken_user : UserContext := match validate toy_config 5000 issued_token (redis toy_world) with jwt_valid u => u | _ => service_user None end.

Lemma validate_sound_witness :
  (exists p, genuine (jwt := toy_jwt) (matches := toy_matches) toy_config 5000 (redis toy_world) issued_token p /\ uc_userId taken_user = claim_of "sub" p) /\
  (uc_emailVerified taken_user = false -> exists kept, uc_roles taken_user = CArr kept /\ (forall s, s ∈ ELEVATED_ROLES -> CStr s ∉ kept) /\
    uc_scopes taken_user = CArr (map CStr UNVERIFIED_SCOPES)).
Proof. apply (validate_sound (jwt := toy_jwt) (matches := toy_matches) toy_config 5000 issued_token (redis toy_world) taken_user). vm_compute. reflexivity. Defined.

(** ** Calls between services *)

Definition toy_digest : string := "00000000000000000000000000000000000000000000000000000000000000ff".

Definition toy_host : ServiceHost toy_jwt := {|
  import_pkcs8 := Some : string -> option key;
  import_spki := Some : string -> option key;
  unverified_payload token := snd <$> toy_read token;
  hmac_hex k d := toy_digest;
  context_fields h := None;
  routed_path p := p
|}.

#[local] Existing Instance toy_host.

#[export] Instance toy_host_laws : ServiceHostLaws toy_jwt toy_host.
Proof.
  split; cbn [unverified_payload hmac_hex routed_path toy_host]; try done.
  intros a k iss aud now token p. cbn [jwt_verify toy_jwt]. unfold toy_verify.
  destruct (toy_read token) as [[[alg k'] p']|]; [|done]. destruct (_ && _); [|done]. by destruct (in_timeb now p'); intros [= ->].
Qed.

Definition k_key : key := "k".

Definition execution_signer (now : Z) (cached : option cached_token) : string * option cached_token :=
  sign (jwt := toy_jwt) "execution-service" k_key now cached.

Definition sent_token : string := fst (execution_signer 200000 (sign_all "execution-service" k_key [0; 100000]%Z None)).

Definition bundle_request : Request :=
  {| method := "GET"; path := "/internal/plugins/p1/bundle"; authorization := None; cookie := None; x_api_key := None;
     x_service_token := Some sent_token; x_user_context := None; x_user_context_signature := None |}.

Definition plugin_service : ServiceAuthConfig := {| targetService := "plugin-service"; servicePublicKeys := [("execution-service", "k")] |}.

Lemma sent_token_taken_witness :
  serviceAuthMiddleware toy_env plugin_service 260000 bundle_request = Next (Some (service_user (Some (CStr "execution-service")))).
Proof.
  apply (sent_token_taken (jwt := toy_jwt) (matches := toy_matches) toy_env "execution-service" k_key plugin_service [0; 100000]%Z 200000 sent_token
    (snd (execution_signer 200000 (sign_all "execution-service" k_key [0; 100000]%Z None))) 260000 "k" k_key bundle_request).
  - unfold sent_token, execution_signer. apply surjective_pairing.
  - vm_compute. reflexivity.
  - discriminate.
  - reflexivity.
  - reflexivity.
  - reflexivity.
  - vm_compute. discriminate.
  - reflexivity.
  - vm_compute. reflexivity.
  - vm_compute. discriminate.
Defined.

Definition plugin_app : AuthMiddlewareConfig :=
  {| jwtSecret := "s"; jwtPublicKey := None; validateApiKey := fun _ => None; publicRoutes := ["/healthz"; "/readyz"];
     cf_issuer := Some "oneplatform"; cf_audience := Some "oneplatform"; credentialExtractors := [] |}.

Lemma handlers_guarded_witness :
  (is_internal (routed_path (path bundle_request)) = true -> exists p, authentic_call (jwt := toy_jwt) (matches := toy_matches) plugin_service 260000 bundle_request p) /\
  (isPublicRoute (publicRoutes plugin_app) (path bundle_request) = false -> is_Some (Some (service_user (Some (CStr "execution-service"))))).
Proof.
  apply (handlers_guarded (jwt := toy_jwt) (matches := toy_matches) toy_env plugin_app toy_config plugin_service 260000 (redis toy_world) bundle_request
    (Some (service_user (Some (CStr "execution-service"))))).
  vm_compute. reflexivity.
Defined.
