(* ===== verification/EntityRbac.v ===== *)
(** * Permissions on entities

    services/auth/src/services/rbac-service.ts: what the roles of a user allow on the
    entities of a type, which fields they hide and which rows they leave. *)

From S2P Require Import Prelude JsString JsValue ServiceRbac.
From stdpp Require Import strings.

Record EntityPermissionRow : Type := {
  ep_tenant : string;
  ep_role : string;
  entity_type : string;
  actions : list string;
  deny_read : list string;                 (* [] where the column has none *)
  deny_write : list string;
  row_filter : list (string * string)
}.

(** The user, as far as this service looks at it. *)
Record RbacUser : Type := { ru_tenant : string; ru_roles : list string; ru_scopes : list string }.

Definition PRIVILEGED_ROLES : list string := ["platform-admin"; "tenant-admin"].

Definition hasScope (user : RbacUser) (scope : string) : bool := mem "admin" (ru_scopes user) || mem scope (ru_scopes user).

Definition hasRole (user : RbacUser) (role : string) : bool := mem role (ru_roles user).

Definition privileged (user : RbacUser) : bool := existsb (fun r => mem r PRIVILEGED_ROLES) (ru_roles user).

(** The rows of the table come in the order in which the database gives them; the query
    asks for none. *)
Definition fetchEntityPermissions (tenantId entityType : string) (roles : list string) (table : list EntityPermissionRow) : list EntityPermissionRow :=
  match roles with
  | [] => []
  | _ => List.filter (fun row => String.eqb (ep_tenant row) tenantId && mem (entity_type row) [entityType; "*"] && mem (ep_role row) roles) table
  end.

Definition rows_for (user : RbacUser) (entityType : string) : list EntityPermissionRow -> list EntityPermissionRow :=
  fetchEntityPermissions (ru_tenant user) entityType (ru_roles user).

Definition canAccessEntity (user : RbacUser) (entityType action : string) (table : list EntityPermissionRow) : bool :=
  if privileged user then true
  else existsb (fun row => mem action (actions row) || mem "admin" (actions row)) (rows_for user entityType table).

(** ** Fields *)

(** A set is the list of its elements in the order of their insertion. *)
Definition intersectSets (sets : list (list string)) : list string :=
  match sets with
  | [] => []
  | first :: rest => fold_left (fun intersection set => List.filter (fun item => mem item set) intersection) rest first
  end.

Record FieldRestrictions : Type := { denyRead : list string; denyWrite : list string }.

Definition getFieldRestrictions (user : RbacUser) (entityType : string) (table : list EntityPermissionRow) : FieldRestrictions :=
  if privileged user then {| denyRead := []; denyWrite := [] |}
  else
    let rows := rows_for user entityType table in
    {| denyRead := intersectSets (map (fun r => firsts (deny_read r)) rows);
       denyWrite := intersectSets (map (fun r => firsts (deny_write r)) rows) |}.

(** ** Rows *)

(** [field in merged]: a property of its own or an inherited one. *)
Definition in_merged (field : string) (merged : jmap string string) : bool :=
  jm_has field merged || mem field ("__proto__" :: object_proto).

Definition merge_condition (merged : jmap string string) (c : string * string) : jmap string string :=
  if in_merged c.1 merged then merged else jm_set c.1 c.2 merged.

Definition merge_rows (rows : list EntityPermissionRow) : jmap string string :=
  fold_left (fun merged row => fold_left merge_condition (row_filter row) merged) rows [].

Definition getRowFilter (user : RbacUser) (entityType : string) (table : list EntityPermissionRow) : jmap string string :=
  if privileged user then [] else merge_rows (rows_for user entityType table).

(** ** What the fields are *)

Lemma elem_of_rows_for user entityType table row : row ∈ rows_for user entityType table <->
  row ∈ table /\ ep_tenant row = ru_tenant user /\ (entity_type row = entityType \/ entity_type row = "*") /\ ep_role row ∈ ru_roles user.
Proof.
  unfold rows_for, fetchEntityPermissions. destruct (ru_roles user) as [|r rs] eqn:E.
  - split; [by intros ?%elem_of_nil|]. intros (_ & _ & _ & H). by apply elem_of_nil in H.
  - rewrite elem_of_bfilter, !andb_true_iff, String.eqb_eq, !mem_spec, !elem_of_cons, elem_of_nil. tauto.
Qed.

Lemma elem_of_intersectSets sets x : x ∈ intersectSets sets <-> sets <> [] /\ forall s, s ∈ sets -> x ∈ s.
Proof.
  destruct sets as [|first rest]; cbn [intersectSets]; [split; [by intros ?%elem_of_nil|naive_solver]|].
  transitivity (x ∈ first /\ forall s, s ∈ rest -> x ∈ s); [|split; [intros [H1 H2]; split; [done|]; by intros s [->|]%elem_of_cons; auto|
    intros [_ H]; split; [apply H; by left|intros s Hs; apply H; by right]]].
  revert first. induction rest as [|s rest IH]; intros first; cbn [fold_left].
  - split; [intros H; split; [done|]; by intros s ?%elem_of_nil|tauto].
  - rewrite IH, elem_of_bfilter, mem_spec. split.
    + intros [[H1 H2] H3]. split; [done|]. intros t [->|Ht]%elem_of_cons; auto.
    + intros [H1 H2]. split_and!; [done|apply H2; by left|]. intros t Ht. apply H2. by right.
Qed.

(** A field is hidden from a user without a privileged role exactly when there are rows for
    the user's roles and every one of them denies it. *)
Theorem hidden_fields user entityType table f :
  f ∈ denyRead (getFieldRestrictions user entityType table) <->
  privileged user = false /\ (exists row, row ∈ rows_for user entityType table) /\
  forall row, row ∈ rows_for user entityType table -> f ∈ deny_read row.
Proof.
  unfold getFieldRestrictions. destruct (privileged user); cbn [denyRead]; [split; [by intros ?%elem_of_nil|by intros [? _]]|].
  rewrite elem_of_intersectSets. set (rows := rows_for user entityType table). split.
  - intros [Hne H]. split_and!; [done|destruct rows as [|r rows]; [done|exists r; by left]|].
    intros row Hrow. apply elem_of_firsts. apply H. by apply (list_elem_of_fmap_2 (fun r => firsts (deny_read r))).
  - intros (_ & (r & Hr) & H). split; [intros Hn; apply map_eq_nil in Hn; rewrite Hn in Hr; by apply elem_of_nil in Hr|].
    intros s (row & -> & Hrow)%list_elem_of_fmap. apply elem_of_firsts. by apply H.
Qed.

(** ** What the conditions are *)

Definition inherited (field : string) : bool := mem field ("__proto__" :: object_proto).

(** All conditions of the rows, in order. *)
Definition conditions (rows : list EntityPermissionRow) : list (string * string) := flat_map row_filter rows.

Lemma merge_rows_conditions rows : merge_rows rows = fold_left merge_condition (conditions rows) [].
Proof.
  unfold merge_rows, conditions. generalize (@nil (string * string)). induction rows as [|r rows IH]; intros m; cbn; [done|].
  by rewrite fold_left_app, IH.
Qed.

Lemma merged_get l m f : jm_get f (fold_left merge_condition l m) =
  match jm_get f m with
  | Some v => Some v
  | None => if inherited f then None else snd <$> List.find (fun c => String.eqb c.1 f) l
  end.
Proof.
  revert m. induction l as [|[g v] l IH]; intros m; cbn [fold_left].
  - destruct (jm_get f m); [done|]. by destruct (inherited f).
  - rewrite IH. unfold merge_condition, in_merged. cbn [fst snd List.find]. fold (inherited g).
    destruct (jm_has g m || inherited g) eqn:E.
    + destruct (jm_get f m) as [w|] eqn:Ef; [done|]. destruct (inherited f) eqn:Ei; [done|].
      destruct (String.eqb_spec g f) as [->|Hne]; [|done]. rewrite Ei, orb_false_r in E. apply jm_has_true in E.
      by apply jm_get_None in Ef.
    + apply orb_false_iff in E as [E1 E2]. rewrite jm_get_set. destruct (decide (g = f)) as [->|Hne].
      * apply jm_has_false, jm_get_None in E1. rewrite E1, E2, String.eqb_refl. done.
      * rewrite (proj2 (String.eqb_neq g f) Hne). done.
Qed.

Lemma row_filter_get user entityType table f : privileged user = false ->
  jm_get f (getRowFilter user entityType table) =
  if inherited f then None else snd <$> List.find (fun c => String.eqb c.1 f) (conditions (rows_for user entityType table)).
Proof. intros Hp. unfold getRowFilter. by rewrite Hp, merge_rows_conditions, merged_get. Qed.

Lemma elem_of_conditions rows c : c ∈ conditions rows <-> exists row, row ∈ rows /\ c ∈ row_filter row.
Proof. unfold conditions. rewrite list_elem_of_In, in_flat_map. setoid_rewrite <- list_elem_of_In. done. Qed.

(** The rows of a user say the same about a field, and name no inherited property. *)
Definition consistent (rows : list EntityPermissionRow) : Prop :=
  (forall f v w, (f, v) ∈ conditions rows -> (f, w) ∈ conditions rows -> v = w) /\ (forall f v, (f, v) ∈ conditions rows -> inherited f = false).

Lemma find_condition l f v : snd <$> List.find (fun c : string * string => String.eqb c.1 f) l = Some v -> (f, v) ∈ l.
Proof.
  destruct (List.find _ l) as [[g w]|] eqn:E; [|done]. intros [= <-]. apply find_some in E as [Hin Hg%String.eqb_eq]. cbn in Hg. subst g. by apply list_elem_of_In.
Qed.

Lemma consistent_get user entityType table f v : privileged user = false -> consistent (rows_for user entityType table) ->
  jm_get f (getRowFilter user entityType table) = Some v <-> (f, v) ∈ conditions (rows_for user entityType table).
Proof.
  intros Hp [Hsame Hown]. rewrite row_filter_get by done. split.
  - destruct (inherited f); [done|]. apply find_condition.
  - intros Hin. rewrite (Hown f v Hin). destruct (List.find _ _) as [[g w]|] eqn:E.
    + apply find_some in E as [Hg Hf%String.eqb_eq]. cbn in Hf. subst g. apply list_elem_of_In in Hg. cbn. f_equal. by eapply Hsame.
    + pose proof (find_none _ _ E (f, v) (proj1 (list_elem_of_In _ _) Hin)) as H. cbn in H. by rewrite String.eqb_refl in H.
Qed.

(** What passes the filter of a user passes the filters of all the roles of the user,
    and the other way round, when the roles agree on the fields they share. *)
Theorem filter_ands user entityType table (holds : string -> string -> Prop) :
  privileged user = false -> consistent (rows_for user entityType table) ->
  (forall f v, jm_get f (getRowFilter user entityType table) = Some v -> holds f v) <->
  (forall row, row ∈ rows_for user entityType table -> forall f v, (f, v) ∈ row_filter row -> holds f v).
Proof.
  intros Hp Hc. setoid_rewrite consistent_get; [|done|done]. setoid_rewrite elem_of_conditions. naive_solver.
Qed.

(** What passes the filters of all roles passes the filter of the user, always. *)
Lemma filter_weaker user entityType table (holds : string -> string -> Prop) f v :
  (forall row, row ∈ rows_for user entityType table -> forall g w, (g, w) ∈ row_filter row -> holds g w) ->
  jm_get f (getRowFilter user entityType table) = Some v -> holds f v.
Proof.
  intros H. destruct (privileged user) eqn:Hp; [unfold getRowFilter; by rewrite Hp|]. rewrite row_filter_get by done.
  destruct (inherited f); [done|]. intros (row & Hr & Hin)%find_condition%elem_of_conditions. by eapply H.
Qed.

Lemma rows_for_perm user entityType table table' : table ≡ₚ table' -> rows_for user entityType table ≡ₚ rows_for user entityType table'.
Proof.
  intros H. unfold rows_for, fetchEntityPermissions. destruct (ru_roles user); [done|]. generalize (fun row : EntityPermissionRow =>
    String.eqb (ep_tenant row) (ru_tenant user) && mem (entity_type row) [entityType; "*"] && mem (ep_role row) (s :: l)) as p. intros p.
  induction H as [|x l1 l2 _ IH|x y l1|l1 l2 l3 _ IH1 _ IH2]; cbn.
  - done.
  - destruct (p x); [by rewrite IH|done].
  - destruct (p x), (p y); try done. apply perm_swap.
  - by rewrite IH1.
Qed.

(** The order in which the database gives the rows does not matter where they agree. *)
Theorem filter_order_free user entityType table table' f : table ≡ₚ table' -> consistent (rows_for user entityType table) ->
  jm_get f (getRowFilter user entityType table) = jm_get f (getRowFilter user entityType table').
Proof.
  intros Hperm Hc. destruct (privileged user) eqn:Hp; [unfold getRowFilter; by rewrite Hp|].
  pose proof (rows_for_perm user entityType _ _ Hperm) as Hr.
  assert (Hin : forall c, c ∈ conditions (rows_for user entityType table) <-> c ∈ conditions (rows_for user entityType table')).
  { intros c. rewrite !elem_of_conditions. by setoid_rewrite Hr. }
  assert (Hc' : consistent (rows_for user entityType table')).
  { destruct Hc as [H1 H2]. split; intros *; rewrite <- !Hin; eauto. }
  apply option_eq. intros v. rewrite !consistent_get by done. apply Hin.
Qed.

(** ** Examples *)

Definition permission (role : string) (filter : list (string * string)) : EntityPermissionRow :=
  {| ep_tenant := "t"; ep_role := role; entity_type := "customer"; actions := ["read"]; deny_read := []; deny_write := []; row_filter := filter |}.

Definition a_user : RbacUser := {| ru_tenant := "t"; ru_roles := ["sales"; "support"]; ru_scopes := [] |}.

Definition two_regions : list EntityPermissionRow := [permission "support" [("region", "EU")]; permission "sales" [("region", "US")]].

(** Where they do not agree the first row of the database wins, whatever the order of the
    roles of the user is. *)
Theorem filter_by_database_order :
  jm_get "region" (getRowFilter a_user "customer" two_regions) = Some "EU" /\
  jm_get "region" (getRowFilter a_user "customer" (rev two_regions)) = Some "US".
Proof. split; vm_compute; reflexivity. Qed.

(** A condition on a field that is the name of an inherited property is dropped. *)
Theorem inherited_condition_dropped : getRowFilter a_user "customer" [permission "sales" [("constructor", "acme")]] = [].
Proof. vm_compute. reflexivity. Qed.

Lemma filter_ands_witness :
  (forall f v, jm_get f (getRowFilter a_user "customer" [permission "sales" [("region", "US"); ("ownerId", "$userId")]]) = Some v -> f <> v) <->
  (forall row, row ∈ rows_for a_user "customer" [permission "sales" [("region", "US"); ("ownerId", "$userId")]] -> forall f v, (f, v) ∈ row_filter row -> f <> v).
Proof.
  apply (filter_ands a_user "customer" [permission "sales" [("region", "US"); ("ownerId", "$userId")]] (fun f v => f <> v)); [reflexivity|].
  assert (E : conditions (rows_for a_user "customer" [permission "sales" [("region", "US"); ("ownerId", "$userId")]])
    = [("region", "US"); ("ownerId", "$userId")]) by (vm_compute; reflexivity).
  split; rewrite E.
  - intros f v w H1 H2. repeat (apply elem_of_cons in H1 as [H1|H1]; [|]); [| |by apply elem_of_nil in H1];
      repeat (apply elem_of_cons in H2 as [H2|H2]; [|]); try (by apply elem_of_nil in H2); congruence.
  - intros f v H. repeat (apply elem_of_cons in H as [H|H]; [injection H as -> _; reflexivity|]). by apply elem_of_nil in H.
Defined.
