(* ===== verification/Bootstrap.v ===== *)
(** * First-run setup

    services/auth/src/services/bootstrap-service.ts and routes/bootstrap.ts: the one request
    that makes the first tenant and its administrator, its rate limit, and the display of
    the master key.  The pieces of a request are operations of their own, since requests
    overlap. *)

From S2P Require Import Prelude JsString JsNumber JsValue SqlTable AuthStore TokenService AuthService AuthSystem AuthExample ServiceRbac HttpAuth ServiceAuth.
From Stdlib Require Import Ascii.
From stdpp Require Import gmap strings.

(** ** The rate limit of an address *)

Record RateLimitEntry : Type := { entry_count : Z; windowStartMs : Z }.

Definition RATE_LIMIT_WINDOW_MS : Z := (10 * 60 * 1000)%Z.
Definition RATE_LIMIT_MAX_ATTEMPTS : Z := 3.

Definition attempts_map : Type := jmap string RateLimitEntry.

(** [Err] has the seconds to wait. *)
Definition checkBootstrapRateLimit (now : Z) (ipAddress : string) (m : attempts_map) : result Z attempts_map :=
  let fresh := jm_set ipAddress {| entry_count := 1; windowStartMs := now |} m in
  match jm_get ipAddress m with
  | None => Ok fresh
  | Some entry =>
      if (RATE_LIMIT_WINDOW_MS <=? now - windowStartMs entry)%Z then Ok fresh
      else if (RATE_LIMIT_MAX_ATTEMPTS <=? entry_count entry)%Z
      then Err (- ((- (RATE_LIMIT_WINDOW_MS - (now - windowStartMs entry))) / 1000))%Z     (* the ceiling *)
      else Ok (jm_set ipAddress {| entry_count := entry_count entry + 1; windowStartMs := windowStartMs entry |} m)
  end.

(** The timer. *)
Definition startRateLimiterCleanup (now : Z) (m : attempts_map) : attempts_map :=
  List.filter (fun x => negb (RATE_LIMIT_WINDOW_MS <=? now - windowStartMs x.2)%Z) m.

(** ** The token *)

Definition padEnd (n : nat) (s : string) : string := s +:+ implode (repeat "0"%char (n - String.length s)).

(** [Buffer.from(s, "hex")]: the bytes before the first pair that is not hexadecimal. *)
Fixpoint from_hex (l : list ascii) : list Z :=
  match l with
  | a :: b :: l => if is_hex a && is_hex b then (digit_value a * 16 + digit_value b)%Z :: from_hex l else []
  | _ => []
  end.

Definition DUMMY_64_CHAR_HEX : string := implode (repeat "0"%char 64).

(** [timingSafeEqual]; [None] where the lengths differ, which throws. *)
Definition timingSafeEqual (a b : list Z) : option bool :=
  if (length a =? length b)%nat then Some (bool_decide (a = b)) else None.

Definition token_matches (bootstrapToken : string) (inMemoryToken : option string) : option bool :=
  let rawProvided := from_hex (explode (padEnd 64 bootstrapToken)) in
  let providedBytes := if (length rawProvided =? 32)%nat then rawProvided else repeat 0%Z 32 in
  timingSafeEqual providedBytes (from_hex (explode (padEnd 64 (default DUMMY_64_CHAR_HEX inMemoryToken)))).

(** ** The slug of a tenant *)

Definition slug_char (c : ascii) : bool := is_lower c || is_digit c.

(** [replace(/[^a-z0-9]+/g, "-")]; [dashed] says whether the run has had its dash. *)
Fixpoint dash_runs (dashed : bool) (l : list ascii) : list ascii :=
  match l with
  | [] => []
  | c :: l => if slug_char c then c :: dash_runs false l else if dashed then dash_runs true l else "-"%char :: dash_runs true l
  end.

Fixpoint strip_dashes (l : list ascii) : list ascii :=
  match l with c :: l' => if Ascii.eqb c "-" then strip_dashes l' else l | [] => [] end.

Definition slugify (name : string) : string :=
  let dashed := dash_runs false (explode (trim (toLowerCase name))) in
  implode (take 64 (rev (strip_dashes (rev (strip_dashes dashed))))).

(** [slug ~ '^[a-z0-9][a-z0-9\-]{1,62}[a-z0-9]$'] *)
Definition tenants_slug_format (slug : string) : bool :=
  let l := explode slug in
  (3 <=? length l)%nat && (length l <=? 64)%nat && forallb (fun c => slug_char c || Ascii.eqb c "-") l
  && match head l with Some c => slug_char c | None => false end && match last l with Some c => slug_char c | None => false end.

(** ** The state *)

Record boot_world : Type := {
  auth : world;
  slugs : list string;                       (* of the tenants *)
  bootstrap_completed : bool;                (* the single row of auth.bootstrap_state *)
  inMemoryToken : option string;
  bootstrapAttemptsByIp : attempts_map
}.

Definition with_auth (a : world) (w : boot_world) : boot_world :=
  {| auth := a; slugs := slugs w; bootstrap_completed := bootstrap_completed w; inMemoryToken := inMemoryToken w;
     bootstrapAttemptsByIp := bootstrapAttemptsByIp w |}.
Definition with_attempts (m : attempts_map) (w : boot_world) : boot_world :=
  {| auth := auth w; slugs := slugs w; bootstrap_completed := bootstrap_completed w; inMemoryToken := inMemoryToken w; bootstrapAttemptsByIp := m |}.
Definition clearInMemoryToken (w : boot_world) : boot_world :=
  {| auth := auth w; slugs := slugs w; bootstrap_completed := bootstrap_completed w; inMemoryToken := None;
     bootstrapAttemptsByIp := bootstrapAttemptsByIp w |}.

Inductive boot_error : Type :=
| RateLimitError (retryAfterSeconds : Z)
| LengthsDiffer
| BootstrapTokenMissingError
| BootstrapAlreadyCompletedError
| BootstrapInvalidTokenError
| BootFailed (err : auth_error).

Record BootstrapInput : Type := { bi_email : string; bi_password : string; bi_tenantName : string; bi_token : string; bi_ip : string }.

(** The status, with the token while the setup is open. *)
Definition getStatus (w : boot_world) : bool * option string :=
  (bootstrap_completed w, if bootstrap_completed w then None else inMemoryToken w).

(** ** The request *)

(** Step 1. *)
Definition boot_arrive (now : Z) (data : BootstrapInput) (w : boot_world) : result boot_error boot_world :=
  m ← map_err RateLimitError (checkBootstrapRateLimit now (bi_ip data) (bootstrapAttemptsByIp w));
  Ok (with_attempts m w).

(** Steps 3 and 4; [alreadyCompleted] is what step 2 read. *)
Definition boot_guard (alreadyCompleted : bool) (data : BootstrapInput) (w : boot_world) : result boot_error unit :=
  tokenMatch ← or_throw LengthsDiffer (token_matches (bi_token data) (inMemoryToken w));
  match inMemoryToken w with
  | None => Err BootstrapTokenMissingError
  | Some _ =>
      if alreadyCompleted then Err BootstrapAlreadyCompletedError
      else if (tokenMatch : bool) then Ok tt
      else Err BootstrapInvalidTokenError
  end.

(** Step 6, with the lock. *)
Definition boot_check (w : boot_world) : result boot_error unit :=
  if bootstrap_completed w then Err BootstrapAlreadyCompletedError else Ok tt.

Record boot_values : Type := { bv_tenant : string; bv_user : string; bv_salt : string; bv_session : session_values }.

Definition insert_tenant (id name slug : string) (w : boot_world) : result auth_error boot_world :=
  let d := db (auth w) in
  if String.eqb (trim name) "" then Err (ConstraintViolated "tenants_name_not_empty")
  else if negb (tenants_slug_format slug) then Err (ConstraintViolated "tenants_slug_format")
  else if existsb (fun t => String.eqb (t_id t) id) (tenants d) then Err (ConstraintViolated "tenants_pkey")
  else if mem slug (slugs w) then Err (ConstraintViolated "tenants_slug_unique")
  else Ok {| auth := {| db := {| tenants := tenants d ++ [{| t_id := id; t_name := name |}]; users := users d; sessions := sessions d; reset_tokens := reset_tokens d |};
                        redis := redis (auth w) |};
             slugs := slugs w ++ [slug]; bootstrap_completed := bootstrap_completed w; inMemoryToken := inMemoryToken w;
             bootstrapAttemptsByIp := bootstrapAttemptsByIp w |}.

Definition admin_row (v : boot_values) (data : BootstrapInput) (hashed : string) : UserRow :=
  {| u_id := bv_user v; u_tenant := bv_tenant v; email := toLowerCase (bi_email data); password_hash := Some hashed; email_verified := true;
     is_active := true; display_name := None; roles := ["platform-admin"]; last_login_at := None; failed_login_count := 0;
     locked_until := None; password_history := [] |}.

Section Requests.
Context {jwt : Jwt} {bcrypt : Bcrypt} (e : env).

(** Step 7, the transaction. *)
Definition boot_commit (v : boot_values) (data : BootstrapInput) (w : boot_world) : result boot_error boot_world :=
  map_err BootFailed (
    w1 ← insert_tenant (bv_tenant v) (bi_tenantName data) (slugify (bi_tenantName data)) w;
    hashed ← hash e (bi_password data) (bv_salt v);
    d ← insert_user (admin_row v data hashed) (db (auth w1));
    Ok {| auth := {| db := d; redis := redis (auth w1) |}; slugs := slugs w1; bootstrap_completed := true; inMemoryToken := inMemoryToken w1;
          bootstrapAttemptsByIp := bootstrapAttemptsByIp w1 |}).

Definition admin_user (v : boot_values) (data : BootstrapInput) : UserForToken :=
  {| uf_id := bv_user v; uf_tenant := bv_tenant v; uf_roles := ["platform-admin"]; emailVerified := true; uf_email := Some (bi_email data);
     displayName := None |}.

(** Steps 8 and 9: the session, the tokens, and the end of the token in memory. *)
Definition boot_finish (now : Z) (v : boot_values) (data : BootstrapInput) (w : boot_world) : result boot_error (string * string) * boot_world :=
  match open_session e now (bv_session v) (admin_user v data) (auth w) with
  | (Ok tokens, a) => (Ok tokens, clearInMemoryToken (with_auth a w))
  | (Err err, a) => (Err (BootFailed err), with_auth a w)
  end.

(** The whole, where no other request comes between. *)
Definition bootstrap (now : Z) (v : boot_values) (data : BootstrapInput) (w : boot_world) : result boot_error (string * string) * boot_world :=
  match boot_arrive now data w with
  | Err err => (Err err, w)
  | Ok w1 =>
      match (boot_guard (bootstrap_completed w1) data w1 ≫= fun _ => boot_check w1) ≫= (fun _ => boot_commit v data w1) with
      | Err err => (Err err, w1)
      | Ok w2 => boot_finish now v data w2
      end
  end.
End Requests.

(** ** The master key *)

Definition MASTER_KEY_SERVED_TTL_SEC : Z := 3600.

Inductive key_answer : Type := BootstrapCompleted | AlreadyServed | Unavailable | ServedKey (hex : string).

(** What the route reads, before it asks for the key. *)
Definition master_key_check (now : Z) (w : boot_world) (served : keys unit) : option key_answer :=
  if bootstrap_completed w then Some BootstrapCompleted
  else match get now "served" served with Some _ => Some AlreadyServed | None => None end.

(** [SET k 1 EX ttl NX] *)
Definition set_nx_ex (now : Z) (k : string) (ttl : Z) (m : keys unit) : option (keys unit) :=
  match get now k m with
  | Some _ => None
  | None => Some (<[k := {| content := tt; expires := Some (now + ttl * 1000)%Z |}]> m)
  end.

(** The rest; other requests may have come since. *)
Definition master_key_serve (now : Z) (hex : option string) (served : keys unit) : key_answer * keys unit :=
  match hex with
  | None => (Unavailable, served)
  | Some hex =>
      match set_nx_ex now "served" MASTER_KEY_SERVED_TTL_SEC served with
      | None => (AlreadyServed, served)
      | Some served => (ServedKey hex, served)
      end
  end.

Definition master_key (now : Z) (hex : option string) (w : boot_world) (served : keys unit) : key_answer * keys unit :=
  match master_key_check now w served with
  | Some answer => (answer, served)
  | None => master_key_serve now hex served
  end.

(** ** The token, compared *)

Lemma from_hex_digits l : forallb is_hex l = true -> from_hex l = hex_bytes l.
Proof.
  induction l as [|a|a b l IH] using pair_ind; cbn [forallb from_hex hex_bytes]; [done|done|].
  rewrite !andb_true_iff. intros (-> & -> & H). cbn [andb]. by rewrite IH.
Qed.

Lemma length_hex_bytes l : length (hex_bytes l) = (length l / 2)%nat.
Proof.
  induction l as [|a|a b l IH] using pair_ind; [done|done|]. cbn [hex_bytes length].
  replace (S (S (length l))) with (length l + 1 * 2)%nat by lia. rewrite Nat.div_add by lia. lia.
Qed.

Lemma padEnd_full n s : String.length s = n -> padEnd n s = s.
Proof. intros <-. unfold padEnd. rewrite Nat.sub_diag. apply string_app_nil_r. Qed.

(** Tokens of 64 hexadecimal digits, as the schema of the route wants them. *)
Definition token_text (s : string) : Prop := String.length s = 64%nat /\ forallb is_hex (explode s) = true.

Lemma token_matches_spec provided expected : token_text provided -> token_text expected ->
  token_matches provided (Some expected) = Some (bool_decide (toLowerCase provided = toLowerCase expected)).
Proof.
  intros [Hl1 Hh1] [Hl2 Hh2]. unfold token_matches. change (default DUMMY_64_CHAR_HEX (Some expected)) with expected. rewrite !padEnd_full, !from_hex_digits by done.
  assert (Hlen : forall s, String.length s = 64%nat -> length (hex_bytes (explode s)) = 32%nat) by (intros s H; by rewrite length_hex_bytes, length_explode, H).
  rewrite (Hlen provided) by done. cbn [Nat.eqb]. unfold timingSafeEqual. rewrite !Hlen by done. cbn [Nat.eqb]. f_equal.
  apply bool_decide_ext. rewrite hex_bytes_inj; [|done|done|by rewrite !length_explode, Hl1, Hl2|by rewrite length_explode, Hl1].
  unfold toLowerCase, on_chars. split; [by intros ->|]. intros H. by rewrite <- (explode_implode (map _ _)), H, explode_implode.
Qed.

(** Whoever asks for the status of an open setup gets the token that the setup asks
    for, and with it passes its check. *)
Theorem status_opens_setup data w expected :
  bootstrap_completed w = false -> inMemoryToken w = Some expected -> token_text expected -> (getStatus w).2 = Some (bi_token data) ->
  boot_guard (bootstrap_completed w) data w = Ok tt.
Proof.
  intros Hc Ht Hx. unfold getStatus, boot_guard. rewrite Hc, Ht. intros [= ->]. rewrite token_matches_spec by done.
  by rewrite bool_decide_eq_true_2.
Qed.

(** ** The rate limit *)

Inductive limiter_event : Type := Attempt (ip : string) | Cleanup.

Definition limiter_step (now : Z) (ev : limiter_event) (m : attempts_map) : attempts_map :=
  match ev with
  | Attempt ip => match checkBootstrapRateLimit now ip m with Ok m' => m' | Err _ => m end
  | Cleanup => startRateLimiterCleanup now m
  end.

(** How many attempts of an address are let through. *)
Fixpoint let_through (ip : string) (evs : list (Z * limiter_event)) (m : attempts_map) : Z :=
  match evs with
  | [] => 0
  | (now, ev) :: evs =>
      (match ev with
       | Attempt ip' => if String.eqb ip' ip && is_ok (checkBootstrapRateLimit now ip m) then 1 else 0
       | Cleanup => 0
       end + let_through ip evs (limiter_step now ev m))%Z
  end.

Fixpoint in_order (t : Z) (evs : list (Z * limiter_event)) : Prop :=
  match evs with [] => True | (now, _) :: evs => (t <= now)%Z /\ in_order now evs end.

Definition last_event (t : Z) (evs : list (Z * limiter_event)) : Z := default t (last (map fst evs)).

(** Entries count from one to three, and began before [t]. *)
Definition entries_ok (t : Z) (m : attempts_map) : Prop :=
  NoDup (jm_keys m) /\ forall ip x, jm_get ip m = Some x -> (1 <= entry_count x <= RATE_LIMIT_MAX_ATTEMPTS /\ windowStartMs x <= t)%Z.

Lemma get_cleanup now ip m : NoDup (jm_keys m) ->
  jm_get ip (startRateLimiterCleanup now m) =
  match jm_get ip m with Some x => if (RATE_LIMIT_WINDOW_MS <=? now - windowStartMs x)%Z then None else Some x | None => None end.
Proof.
  unfold startRateLimiterCleanup. induction m as [|[k x] m IH]; [done|]. cbn [jm_keys map fst List.filter]. intros [Hk Hnd]%NoDup_cons. fold (jm_keys m) in *.
  specialize (IH Hnd). cbn [snd]. cbn [jm_get]. destruct (decide (ip = k)) as [->|Hne].
  - destruct (RATE_LIMIT_WINDOW_MS <=? now - windowStartMs x)%Z; cbn [negb].
    + rewrite IH. apply jm_get_None in Hk. by rewrite Hk.
    + cbn [jm_get]. by rewrite decide_True by done.
  - destruct (RATE_LIMIT_WINDOW_MS <=? now - windowStartMs x)%Z; cbn [negb]; [done|]. cbn [jm_get]. by rewrite decide_False by done.
Qed.

Lemma limiter_ok t now ip m m' : (t <= now)%Z -> entries_ok t m -> checkBootstrapRateLimit now ip m = Ok m' -> entries_ok now m'.
Proof.
  intros Ht [Hnd Hm]. unfold checkBootstrapRateLimit.
  assert (Hset : forall x, (1 <= entry_count x <= RATE_LIMIT_MAX_ATTEMPTS /\ windowStartMs x <= now)%Z -> entries_ok now (jm_set ip x m)).
  { intros x Hx. split; [by apply jm_set_NoDup|]. intros ip' y. rewrite jm_get_set. case_decide; [by intros [= <-]|].
    intros Hy. specialize (Hm ip' y Hy). lia. }
  destruct (jm_get ip m) as [x|] eqn:Ex; [|intros [= <-]; apply Hset; cbn; unfold RATE_LIMIT_MAX_ATTEMPTS; lia].
  destruct (Hm ip x Ex) as [Hc Hs]. destruct (_ <=? _)%Z; [intros [= <-]; apply Hset; cbn; unfold RATE_LIMIT_MAX_ATTEMPTS; lia|].
  destruct (Z.leb_spec RATE_LIMIT_MAX_ATTEMPTS (entry_count x)); [done|]. intros [= <-]. apply Hset. cbn. lia.
Qed.

Lemma limiter_step_ok t now ev m : (t <= now)%Z -> entries_ok t m -> entries_ok now (limiter_step now ev m).
Proof.
  intros Ht Hm. destruct ev as [ip|]; cbn [limiter_step].
  - destruct (checkBootstrapRateLimit now ip m) as [m'|] eqn:E; [by eapply limiter_ok|].
    destruct Hm as [Hnd Hm]. split; [done|]. intros ip' x Hx. specialize (Hm ip' x Hx). lia.
  - destruct Hm as [Hnd Hm]. split; [apply (NoDup_map_bfilter fst); exact Hnd|]. intros ip x. rewrite get_cleanup by done.
    destruct (jm_get ip m) as [y|] eqn:Ey; [|done]. destruct (_ <=? _)%Z; [done|]. intros [= ->]. specialize (Hm ip x Ey). lia.
Qed.

(** What may still be let through, up to [last]. *)
Definition allowance (ip : string) (m : attempts_map) (t last : Z) : Z :=
  match jm_get ip m with
  | None => (RATE_LIMIT_MAX_ATTEMPTS * ((last - t) / RATE_LIMIT_WINDOW_MS + 1))%Z
  | Some x => (RATE_LIMIT_MAX_ATTEMPTS - entry_count x + RATE_LIMIT_MAX_ATTEMPTS * ((last - windowStartMs x) / RATE_LIMIT_WINDOW_MS))%Z
  end.

Lemma allowance_later ip m t now last : entries_ok t m -> (t <= now <= last)%Z -> (allowance ip m now last <= allowance ip m t last)%Z.
Proof.
  intros _ Ht. unfold allowance. destruct (jm_get ip m); [done|]. unfold RATE_LIMIT_MAX_ATTEMPTS, RATE_LIMIT_WINDOW_MS.
  pose proof (Z.div_le_mono (last - now) (last - t) (10 * 60 * 1000)). lia.
Qed.

(** A window that ends leaves room for the windows that begin later. *)
Lemma next_window (start now last : Z) : (RATE_LIMIT_WINDOW_MS <= now - start)%Z ->
  ((last - now) / RATE_LIMIT_WINDOW_MS + 1 <= (last - start) / RATE_LIMIT_WINDOW_MS)%Z.
Proof.
  intros H. replace ((last - now) / RATE_LIMIT_WINDOW_MS + 1)%Z with ((last - now + 1 * RATE_LIMIT_WINDOW_MS) / RATE_LIMIT_WINDOW_MS)%Z
    by (rewrite Z.div_add by done; lia). apply Z.div_le_mono; [done|lia].
Qed.

Lemma allowance_step ip t now last ev m : entries_ok t m -> (t <= now <= last)%Z ->
  ((match ev with Attempt ip' => if String.eqb ip' ip && is_ok (checkBootstrapRateLimit now ip m) then 1 else 0 | Cleanup => 0 end)
   + allowance ip (limiter_step now ev m) now last <= allowance ip m t last)%Z.
Proof.
  intros Hm Ht. pose proof (allowance_later ip m t now last Hm Ht) as Hlater. destruct Hm as [Hnd Hm]. destruct ev as [ip'|]; cbn [limiter_step].
  - destruct (String.eqb_spec ip' ip) as [->|Hne]; cbn [andb].
    + unfold checkBootstrapRateLimit. destruct (jm_get ip m) as [x|] eqn:Ex.
      * destruct (Hm ip x Ex) as [Hc Hs]. destruct (Z.leb_spec RATE_LIMIT_WINDOW_MS (now - windowStartMs x)) as [Hw|Hw].
        -- pose proof (next_window (windowStartMs x) now last Hw). unfold allowance. rewrite jm_get_set_eq, Ex. cbn [is_ok entry_count windowStartMs].
           unfold RATE_LIMIT_MAX_ATTEMPTS in *. lia.
        -- destruct (Z.leb_spec RATE_LIMIT_MAX_ATTEMPTS (entry_count x)); cbn [is_ok]; [lia|].
           unfold allowance. rewrite jm_get_set_eq, Ex. cbn [entry_count windowStartMs]. lia.
      * cbn [is_ok]. unfold allowance at 1. rewrite jm_get_set_eq. cbn [entry_count windowStartMs]. revert Hlater. unfold allowance. rewrite Ex.
        unfold RATE_LIMIT_MAX_ATTEMPTS. lia.
    + assert (Hsame : forall m', checkBootstrapRateLimit now ip' m = Ok m' -> jm_get ip m' = jm_get ip m).
      { intros m'. unfold checkBootstrapRateLimit. assert (forall x, jm_get ip (jm_set ip' x m) = jm_get ip m) as Hs by (intros x; by rewrite jm_get_set_ne).
        destruct (jm_get ip' m); [|intros [= <-]; apply Hs]. destruct (_ <=? _)%Z; [intros [= <-]; apply Hs|]. destruct (_ <=? _)%Z; [done|].
        intros [= <-]. apply Hs. }
      destruct (checkBootstrapRateLimit now ip' m) as [m'|] eqn:E; [|lia]. unfold allowance at 1. rewrite (Hsame m' eq_refl). exact Hlater.
  - unfold allowance at 1. rewrite get_cleanup by done. destruct (jm_get ip m) as [x|] eqn:Ex; [|unfold allowance in Hlater; rewrite Ex in Hlater; unfold allowance; by rewrite Ex].
    destruct (Hm ip x Ex) as [Hc Hs]. unfold allowance. rewrite Ex. destruct (Z.leb_spec RATE_LIMIT_WINDOW_MS (now - windowStartMs x)) as [Hw|Hw]; [|lia].
    pose proof (next_window (windowStartMs x) now last Hw). unfold RATE_LIMIT_MAX_ATTEMPTS in *. lia.
Qed.

Lemma last_event_cons t now ev evs : last_event t ((now, ev) :: evs) = last_event now evs.
Proof. unfold last_event. cbn [map fst]. rewrite last_cons. by destruct (last (map fst evs)). Qed.

Lemma last_event_later t evs : in_order t evs -> (t <= last_event t evs)%Z.
Proof.
  revert t. induction evs as [|[now ev] evs IH]; intros t; [done|]. intros [H1 H2]. rewrite last_event_cons. specialize (IH now H2). lia.
Qed.

Lemma let_through_allowance ip evs : forall t m, entries_ok t m -> in_order t evs ->
  (let_through ip evs m <= allowance ip m t (last_event t evs))%Z.
Proof.
  induction evs as [|[now ev] evs IH]; intros t m Hm Ho.
  - cbn [let_through]. unfold allowance, last_event. cbn. destruct (jm_get ip m) as [x|] eqn:Ex; unfold RATE_LIMIT_MAX_ATTEMPTS in *.
    + destruct (proj2 Hm ip x Ex) as [Hc Hs]. pose proof (Z.div_pos (t - windowStartMs x) RATE_LIMIT_WINDOW_MS ltac:(lia) ltac:(done)).
      unfold RATE_LIMIT_MAX_ATTEMPTS in *. lia.
    + rewrite Z.sub_diag, Z.div_0_l by done. lia.
  - destruct Ho as [Hle Ho]. cbn [let_through]. rewrite last_event_cons. pose proof (last_event_later now evs Ho) as Hlast.
    specialize (IH now (limiter_step now ev m) (limiter_step_ok t now ev m Hle Hm) Ho).
    pose proof (allowance_step ip t now (last_event now evs) ev m Hm ltac:(lia)). lia.
Qed.

(** From one address at most three requests are let through, and three more for each
    ten minutes that pass, whatever other addresses do and whenever the timer cleans up. *)
Theorem attempts_bounded ip evs t : in_order t evs ->
  (let_through ip evs [] <= RATE_LIMIT_MAX_ATTEMPTS * ((last_event t evs - t) / RATE_LIMIT_WINDOW_MS + 1))%Z.
Proof. intros Ho. apply (let_through_allowance ip evs t []); [|done]. split; [constructor|done]. Qed.

(** ** Requests that overlap *)

Section Overlap.
Context {jwt : Jwt} {bcrypt : Bcrypt} (e : env).

Record boot_request : Type := { br_data : BootstrapInput; br_values : boot_values }.

(** How far a request is: it has passed the rate limit, has read the flag, waits for the
    lock, has the lock and has read the flag again, or has committed. *)
Inductive boot_phase : Type := Arrived | FlagRead (flag : bool) | Waiting | Locked | Committed.

Definition holds_lock (p : boot_phase) : bool := match p with Locked | Committed => true | _ => false end.

(** The database gives the lock to one connection at a time. *)
Definition lock_free (pend : list (boot_request * boot_phase)) : Prop := forall r p, (r, p) ∈ pend -> holds_lock p = false.

Definition boot_state : Type := boot_world * list (boot_request * boot_phase).

Inductive boot_step : boot_state -> boot_state -> Prop :=
| step_arrive w w' pend r now : boot_arrive now (br_data r) w = Ok w' -> boot_step (w, pend) (w', pend ++ [(r, Arrived)])
| step_read w l1 l2 r : boot_step (w, l1 ++ (r, Arrived) :: l2) (w, l1 ++ (r, FlagRead (bootstrap_completed w)) :: l2)
| step_guard w l1 l2 r flag : boot_guard flag (br_data r) w = Ok tt -> boot_step (w, l1 ++ (r, FlagRead flag) :: l2) (w, l1 ++ (r, Waiting) :: l2)
| step_lock w l1 l2 r : lock_free (l1 ++ (r, Waiting) :: l2) -> boot_check w = Ok tt -> boot_step (w, l1 ++ (r, Waiting) :: l2) (w, l1 ++ (r, Locked) :: l2)
| step_commit w w' l1 l2 r : boot_commit e (br_values r) (br_data r) w = Ok w' -> boot_step (w, l1 ++ (r, Locked) :: l2) (w', l1 ++ (r, Committed) :: l2)
| step_finish w l1 l2 r now : boot_step (w, l1 ++ (r, Committed) :: l2) ((boot_finish e now (br_values r) (br_data r) w).2, l1 ++ l2)
| step_end w l1 l2 r p : boot_step (w, l1 ++ (r, p) :: l2) (w, l1 ++ l2)      (* an answer with an error, or a crash *)
| step_cleanup w pend now : boot_step (w, pend) (with_attempts (startRateLimiterCleanup now (bootstrapAttemptsByIp w)) w, pend).

Inductive boot_steps : boot_state -> boot_state -> Prop :=
| boot_refl s : boot_steps s s
| boot_trans s1 s2 s3 : boot_steps s1 s2 -> boot_step s2 s3 -> boot_steps s1 s3.

Definition right_token (t : string) (r : boot_request) : Prop := token_matches (bi_token (br_data r)) (Some t) = Some true.

Definition all_users (w : boot_world) : list UserRow := users (db (auth w)).

(** What is so as long as the service runs: nothing has been set up, or one request that
    had the token has made one administrator. *)
Definition set_up_by (t : string) (us : list UserRow) (w : boot_world) : Prop :=
  (all_users w = us /\ bootstrap_completed w = false) \/
  (exists r hashed, all_users w = us ++ [admin_row (br_values r) (br_data r) hashed] /\ bootstrap_completed w = true /\ right_token t r).

Definition phase_ok (t : string) (w : boot_world) (x : boot_request * boot_phase) : Prop :=
  match x.2 with
  | Waiting => right_token t x.1
  | Locked => right_token t x.1 /\ bootstrap_completed w = false
  | Arrived | FlagRead _ | Committed => True
  end.

Definition boot_inv (t : string) (us : list UserRow) (s : boot_state) : Prop :=
  (inMemoryToken s.1 = None \/ inMemoryToken s.1 = Some t) /\ set_up_by t us s.1 /\
  Forall (phase_ok t s.1) s.2 /\ length (List.filter (fun x => holds_lock x.2) s.2) <= 1.

Lemma filter_middle {A} (p : A -> bool) l1 x l2 :
  length (List.filter p (l1 ++ x :: l2)) = length (List.filter p l1) + (if p x then 1 else 0) + length (List.filter p l2).
Proof. rewrite List.filter_app, length_app. cbn [List.filter]. destruct (p x); cbn [length]; lia. Qed.

Lemma filter_out {A} (p : A -> bool) l1 l2 : length (List.filter p (l1 ++ l2)) = length (List.filter p l1) + length (List.filter p l2).
Proof. by rewrite List.filter_app, length_app. Qed.

Lemma guard_token t flag data w : (inMemoryToken w = None \/ inMemoryToken w = Some t) -> boot_guard flag data w = Ok tt ->
  token_matches (bi_token data) (Some t) = Some true.
Proof.
  intros [Hn|Hs]; unfold boot_guard; [rewrite Hn|rewrite Hs].
  - by destruct (token_matches _ _).
  - destruct (token_matches (bi_token data) (Some t)) as [b|]; [|done]. cbn. destruct flag; [done|]. by destruct b.
Qed.

Lemma commit_spec v data w w' : boot_commit e v data w = Ok w' ->
  exists hashed, all_users w' = all_users w ++ [admin_row v data hashed] /\ bootstrap_completed w' = true /\ inMemoryToken w' = inMemoryToken w.
Proof.
  unfold boot_commit. intros H%map_err_ok. unbind H as w1 Ht. unbind H as hashed Hh. unbind H as d Hd. injection H as <-.
  assert (Hw1 : users (db (auth w1)) = all_users w /\ inMemoryToken w1 = inMemoryToken w).
  { unfold insert_tenant in Ht. do 4 (case_match; [done|]). by injection Ht as <-. }
  exists hashed. unfold all_users at 1. cbn. unfold insert_user in Hd. do 4 (case_match; [done|]). injection Hd as <-. cbn.
  destruct Hw1 as [-> ->]. done.
Qed.

Definition same_users : relation world := fun w w' => users (db w) = users (db w').

#[local] Instance same_users_preorder : PreOrder same_users.
Proof. split; [by intros w|]. intros w1 w2 w3 H1 H2. unfold same_users in *. congruence. Qed.

Lemma open_session_users now v user : related same_users (open_session e now v user).
Proof.
  assert (Hi : forall x, related same_users (db_statement (insert_session x))).
  { intros x. apply related_db; [exact _|intros w d]. unfold insert_session. do 5 (case_match; [done|]). by intros [= <-]. }
  assert (Hu : forall id j used, related same_users (db_statement (update_jti id j used))).
  { intros id j used. apply related_db; [exact _|intros w d]. unfold update_jti. case_match; [done|]. by intros [= <-]. }
  assert (Hr : forall token p, related same_users (statement (issueRefreshToken e now token p))).
  { intros token p. apply related_statement; [exact _|intros w w']. unfold issueRefreshToken. intros H. unbind H as ttl Ht. unbind H as rf Hrf. unbind H as tf Htf.
    by injection H as <-. }
  unfold open_session, session_tokens. repeat related_step.
Qed.

Lemma boot_finish_spec now v data w : let w' := (boot_finish e now v data w).2 in
  all_users w' = all_users w /\ bootstrap_completed w' = bootstrap_completed w /\ (inMemoryToken w' = None \/ inMemoryToken w' = inMemoryToken w).
Proof.
  unfold boot_finish. pose proof (open_session_users now (bv_session v) (admin_user v data) (auth w)) as H. unfold same_users in H.
  destruct (open_session e now _ _ (auth w)) as [[tokens|err] a]; cbn [snd] in *; unfold all_users; cbn; rewrite H; auto.
Qed.

Lemma phase_ok_same t w w' x : bootstrap_completed w' = bootstrap_completed w -> phase_ok t w x -> phase_ok t w' x.
Proof. unfold phase_ok. intros ->. done. Qed.

Lemma forall_middle {A} (P : A -> Prop) l1 x l2 : Forall P (l1 ++ x :: l2) <-> P x /\ Forall P (l1 ++ l2).
Proof. rewrite !Forall_app, Forall_cons. tauto. Qed.

(** Without the lock a request is not in the phases that have it. *)
Lemma not_locked t w w' l : length (List.filter (fun x : boot_request * boot_phase => holds_lock x.2) l) = 0 ->
  Forall (phase_ok t w) l -> Forall (phase_ok t w') l.
Proof.
  intros H0 Hl. rewrite Forall_forall in Hl |- *. intros [r p] Hx. specialize (Hl _ Hx). destruct p; try exact Hl.
  exfalso. apply length_zero_iff_nil in H0. assert ((r, Locked) ∈ List.filter (fun x : boot_request * boot_phase => holds_lock x.2) l) as H by (by apply elem_of_bfilter).
  rewrite H0 in H. by apply elem_of_nil in H.
Qed.

Lemma lock_free_none pend : lock_free pend -> length (List.filter (fun x => holds_lock x.2) pend) = 0.
Proof.
  intros H. destruct (List.filter _ pend) as [|[r p] l] eqn:E; [done|].
  assert ((r, p) ∈ List.filter (fun x : boot_request * boot_phase => holds_lock x.2) pend) as [Hin Hp]%elem_of_bfilter by (rewrite E; by left).
  cbn in Hp. by rewrite (H r p Hin) in Hp.
Qed.

Lemma boot_step_inv t us s s' : boot_step s s' -> boot_inv t us s -> boot_inv t us s'.
Proof.
  intros Hs (Ht & Hset & Hph & Hlock). destruct Hs as [w w' pend r now Ha|w l1 l2 r|w l1 l2 r flag Hg|w l1 l2 r Hfree Hc|w w' l1 l2 r Hc|w l1 l2 r now|w l1 l2 r p|w pend now];
    unfold boot_inv; cbn [fst snd] in *.
  - unfold boot_arrive in Ha. unbind Ha as m Hm. injection Ha as <-. split_and!; [done|done| |].
    + apply Forall_app. split; [eapply Forall_impl; [exact Hph|]; intros x; by apply phase_ok_same|by repeat constructor].
    + rewrite List.filter_app, length_app. cbn. lia.
  - split_and!; [done|done| |].
    + apply forall_middle in Hph as [_ Hph]. by apply forall_middle.
    + rewrite filter_middle in *. cbn in *. lia.
  - split_and!; [done|done| |].
    + apply forall_middle in Hph as [_ Hph]. apply forall_middle. split; [|done]. cbn. by apply (guard_token t flag _ w).
    + rewrite filter_middle in *. cbn in *. lia.
  - apply lock_free_none in Hfree. split_and!; [done|done| |].
    + apply forall_middle in Hph as [Hr Hph]. apply forall_middle. split; [|done]. cbn in *. split; [done|]. unfold boot_check in Hc.
      by destruct (bootstrap_completed w).
    + rewrite filter_middle in *. cbn in *. lia.
  - apply forall_middle in Hph as [[Hr Hfalse] Hph]. cbn [fst snd] in *. destruct (commit_spec _ _ _ _ Hc) as (hashed & Hu & Hcomp & Htok).
    rewrite filter_middle in Hlock. cbn [holds_lock snd] in Hlock. split_and!.
    + by rewrite Htok.
    + right. exists r, hashed. destruct Hset as [[Hus _]|(? & ? & _ & Hx & _)]; [|congruence]. by rewrite Hu, Hus.
    + apply forall_middle. split; [done|]. apply (not_locked t w); [|done]. rewrite filter_out. lia.
    + rewrite filter_middle. cbn [holds_lock snd]. lia.
  - apply forall_middle in Hph as [_ Hph]. destruct (boot_finish_spec now (br_values r) (br_data r) w) as (Hu & Hcomp & Htok).
    rewrite filter_middle in Hlock. split_and!.
    + destruct Htok as [->| ->]; auto.
    + unfold set_up_by in *. by rewrite Hu, Hcomp.
    + eapply Forall_impl; [exact Hph|]. intros x. by apply phase_ok_same.
    + rewrite filter_out. lia.
  - apply forall_middle in Hph as [_ Hph]. rewrite filter_middle in Hlock. split_and!; [done|done|done|]. rewrite filter_out. lia.
  - split_and!; [done|done| |done]. eapply Forall_impl; [exact Hph|]. intros x. by apply phase_ok_same.
Qed.

(** C31: In every interleaving of requests, failures and crashes the setup makes at most
    one administrator, for a request that presented the token, and then it is completed. *)
Theorem setup_once t w0 w pend :
  inMemoryToken w0 = Some t -> bootstrap_completed w0 = false -> boot_steps (w0, []) (w, pend) -> set_up_by t (all_users w0) w.
Proof.
  intros Ht Hc Hs. enough (boot_inv t (all_users w0) (w, pend)) as H by apply H. revert Hs. generalize (w, pend). intros s Hs.
  remember (w0, []) as s0 eqn:E0. induction Hs as [s|s1 s2 s3 Hs IH H]; subst.
  - split_and!; cbn; [auto|by left|constructor|lia].
  - eapply boot_step_inv; [exact H|]. by apply IH.
Qed.
End Overlap.

(** ** Slugs *)

Definition slug_or_dash (c : ascii) : bool := slug_char c || Ascii.eqb c "-".

Lemma dash_runs_chars dashed l : Forall (fun c => slug_or_dash c = true) (dash_runs dashed l).
Proof.
  revert dashed. induction l as [|c l IH]; intros dashed; cbn [dash_runs]; [constructor|]. destruct (slug_char c) eqn:E.
  - constructor; [unfold slug_or_dash; by rewrite E|apply IH].
  - destruct dashed; [apply IH|]. constructor; [done|apply IH].
Qed.

Lemma strip_dashes_suffix l : exists d, l = d ++ strip_dashes l.
Proof.
  induction l as [|c l [d IH]]; [by exists []|]. cbn [strip_dashes]. destruct (Ascii.eqb c "-"); [|by exists []]. exists (c :: d). cbn. by f_equal.
Qed.

Lemma strip_dashes_head l : head (strip_dashes l) <> Some "-"%char.
Proof. induction l as [|c l IH]; [done|]. cbn [strip_dashes]. destruct (Ascii.eqb_spec c "-"); [done|]. cbn. congruence. Qed.

(** What is left of the characters when both ends have been stripped. *)
Lemma stripped_prefix l : exists k, strip_dashes l = rev (strip_dashes (rev (strip_dashes l))) ++ k.
Proof.
  destruct (strip_dashes_suffix (rev (strip_dashes l))) as [d H]. exists (rev d). rewrite <- rev_app_distr, <- H. symmetry. apply rev_involutive.
Qed.

(** The slug of a name has the characters that the column allows, at most 64 of them, and
    does not begin with a dash; so the column refuses it exactly when it is shorter than
    three characters or was cut after a dash. *)
Theorem slug_spec name : let l := explode (slugify name) in
  Forall (fun c => slug_or_dash c = true) l /\ length l <= 64 /\ head l <> Some "-"%char /\
  (tenants_slug_format (slugify name) = true <-> 3 <= length l /\ last l <> Some "-"%char).
Proof.
  unfold slugify. rewrite explode_implode. set (d := dash_runs false _). set (s := rev (strip_dashes (rev (strip_dashes d)))).
  assert (Hd : Forall (fun c => slug_or_dash c = true) d) by apply dash_runs_chars.
  destruct (strip_dashes_suffix d) as [d1 E1]. destruct (stripped_prefix d) as [d2 E2]. fold s in E2.
  assert (Hs : Forall (fun c => slug_or_dash c = true) s) by (rewrite E1, Forall_app in Hd; destruct Hd as [_ Hd]; rewrite E2, Forall_app in Hd; apply Hd).
  assert (Hh : head s <> Some "-"%char) by (pose proof (strip_dashes_head d) as H; rewrite E2 in H; destruct s; [done|exact H]).
  assert (Ht : Forall (fun c => slug_or_dash c = true) (take 64 s)) by by apply Forall_take.
  assert (Hth : head (take 64 s) <> Some "-"%char) by (destruct s; [done|exact Hh]).
  assert (Hlen : length (take 64 s) <= 64) by (rewrite length_take; lia).
  split_and!; [done|done|done|]. unfold tenants_slug_format. rewrite explode_implode. revert Ht Hth Hlen. generalize (take 64 s). clear. intros l Hc Hh Hl.
  assert (Hend : forall o : option ascii, (forall c, o = Some c -> c ∈ l) -> o <> None ->
    (match o with Some c => slug_char c | None => false end) = true <-> o <> Some "-"%char).
  { intros [c|] Hin Hn; [|done]. rewrite Forall_forall in Hc. specialize (Hc c (Hin c eq_refl)). unfold slug_or_dash in Hc. split.
    - intros H [= ->]. done.
    - intros H. destruct (slug_char c); [done|]. cbn in Hc. apply Ascii.eqb_eq in Hc. congruence. }
  rewrite !andb_true_iff, !Nat.leb_le. assert (Hall : forallb (fun c => slug_char c || Ascii.eqb c "-") l = true).
  { apply forallb_elem. rewrite Forall_forall in Hc. exact Hc. }
  split.
  - intros ((((H3 & _) & _) & _) & H2). split; [done|]. destruct (last l) as [c|] eqn:E; [|done]. apply Hend; [|done|done].
    intros x [= <-]. by apply last_Some_elem_of.
  - intros [H3 H2]. destruct l as [|c l]; [cbn in H3; lia|]. split_and!; try done.
    + destruct (Hend (Some c) ltac:(intros x [= <-]; by left) ltac:(done)) as [_ H]. by apply H.
    + destruct (last (c :: l)) as [x|] eqn:E; [|by apply last_None in E].
      destruct (Hend (Some x) ltac:(intros y [= <-]; by apply last_Some_elem_of) ltac:(done)) as [_ H]. by apply H.
Qed.

Example slug_ordinary : slugify "  Acme & Sons, Ltd. " = "acme-sons-ltd".
Proof. vm_compute. reflexivity. Qed.

(** Names that the schema of the route accepts and the column refuses. *)
Theorem refused_names :
  tenants_slug_format (slugify "A.B") = true /\ tenants_slug_format (slugify "HP!") = false /\
  tenants_slug_format (slugify (implode (repeat "a"%char 63) +:+ " b")) = false.
Proof. split_and!; vm_compute; reflexivity. Qed.

(** ** The master key *)

(** The answers to requests for the key, at their times, when the setup stays open. *)
Fixpoint key_requests (hex : option string) (times : list Z) (served : keys unit) : list (Z * key_answer) :=
  match times with
  | [] => []
  | now :: times => let '(answer, served) := master_key_serve now hex served in (now, answer) :: key_requests hex times served
  end.

Definition is_served (a : key_answer) : bool := match a with ServedKey _ => true | _ => false end.

Fixpoint times_from (t : Z) (times : list Z) : Prop := match times with [] => True | x :: times => (t <= x)%Z /\ times_from x times end.

Lemma not_served_while hex ends times served t : times_from t times ->
  served !! "served" = Some {| content := tt; expires := Some ends |} ->
  forall x a, (x, a) ∈ key_requests hex times served -> is_served a = true -> (ends <= x)%Z.
Proof.
  revert ends served t. induction times as [|now times IH]; intros ends served t Ht Hs x a; cbn [key_requests]; [by intros ?%elem_of_nil|].
  destruct Ht as [Hle Ht]. unfold master_key_serve. destruct hex as [hex|].
  - unfold set_nx_ex, get. rewrite Hs. cbn [content expires lives]. destruct (Z.ltb_spec now ends) as [Hlt|Hge].
    + intros [[= -> ->]|Hin]%elem_of_cons Ha; [done|]. by eapply IH.
    + intros [[= -> ->]|Hin]%elem_of_cons Ha; [done|]. enough (now + MASTER_KEY_SERVED_TTL_SEC * 1000 <= x)%Z by (unfold MASTER_KEY_SERVED_TTL_SEC in *; lia).
      eapply IH; [exact Ht| |exact Hin|exact Ha]. by rewrite lookup_insert_eq.
  - intros [[= -> ->]|Hin]%elem_of_cons Ha; [done|]. by eapply IH.
Qed.

(** However requests for the master key overlap, two of them are given the key only
    an hour apart, or more. *)
Theorem key_served_spaced hex times t l1 l2 l3 x y a b : times_from t times ->
  key_requests hex times ∅ = l1 ++ (x, a) :: l2 ++ (y, b) :: l3 -> is_served a = true -> is_served b = true ->
  (x + MASTER_KEY_SERVED_TTL_SEC * 1000 <= y)%Z.
Proof.
  generalize (∅ : keys unit). revert t l1. induction times as [|now times IH]; intros t l1 served Ht; cbn [key_requests]; [by destruct l1|].
  destruct Ht as [Hle Ht]. destruct (master_key_serve now hex served) as [answer served'] eqn:E.
  destruct l1 as [|z l1]; cbn [app].
  - intros [= -> -> Hk] Ha Hb. unfold master_key_serve in E. destruct hex as [hex|]; [|by injection E as <- _].
    unfold set_nx_ex in E. destruct (get x "served" served); [by injection E as <- _|]. injection E as <- <-.
    eapply not_served_while; [exact Ht|by rewrite lookup_insert_eq| |exact Hb]. rewrite Hk. apply elem_of_app. right. by left.
  - intros [= _ Hk] Ha Hb. by eapply IH.
Qed.

(** An hour later the key is given out again. *)
Theorem key_served_again : map (fun x => is_served x.2) (key_requests (Some "k") [0; 1; 3599999; 3600000]%Z ∅) = [true; false; false; true].
Proof. vm_compute. reflexivity. Qed.

(** ** A setup *)

#[local] Existing Instance toy_jwt.
#[local] Existing Instance toy_bcrypt.

Definition toy_token : string := implode (repeat "a"%char 64).

Definition toy_setup : BootstrapInput :=
  {| bi_email := "Root@a.b"; bi_password := "pw"; bi_tenantName := "Acme"; bi_token := toUpperCase toy_token; bi_ip := "1.2.3.4" |}.

Definition toy_boot_values : boot_values := {| bv_tenant := "t1"; bv_user := "u1"; bv_salt := "x"; bv_session := toy_values |}.

Definition boot0 : boot_world :=
  {| auth := {| db := {| tenants := []; users := []; sessions := []; reset_tokens := [] |};
                redis := {| refresh := ∅; token_family := ∅; refresh_family := ∅; user_sessions := ∅; revoked_token := ∅; revoked_user := ∅;
                            reset_gate := ∅; verify_gate := ∅ |} |};
     slugs := []; bootstrap_completed := false; inMemoryToken := Some toy_token; bootstrapAttemptsByIp := [] |}.

Definition or_same (w : boot_world) (r : result boot_error boot_world) : boot_world := match r with Ok w' => w' | Err _ => w end.

Definition boot1 : boot_world := or_same boot0 (boot_arrive 5 toy_setup boot0).
Definition boot2 : boot_world := or_same boot1 (boot_commit toy_env toy_boot_values toy_setup boot1).
Definition boot3 : boot_world := (boot_finish toy_env 6 toy_boot_values toy_setup boot2).2.

Example setup_done : (bootstrap_completed boot3, inMemoryToken boot3, slugs boot3, map u_id (all_users boot3), length (sessions (db (auth boot3)))) =
  (true, None, ["acme"], ["u1"], 1).
Proof. vm_compute. reflexivity. Qed.

(** The same request in one piece gives the tokens, and a second one is refused. *)
Example setup_whole : is_ok (bootstrap toy_env 5 toy_boot_values toy_setup boot0).1 = true /\
  (bootstrap toy_env 6 toy_boot_values toy_setup boot3).1 = Err BootstrapTokenMissingError.
Proof. split; vm_compute; reflexivity. Qed.

Lemma setup_once_witness : set_up_by toy_token [] boot3.
Proof.
  apply (setup_once toy_env toy_token boot0 boot3 []); [reflexivity|reflexivity|]. set (r := {| br_data := toy_setup; br_values := toy_boot_values |}).
  eapply boot_trans; [|apply (step_finish toy_env boot2 [] [] r 6)].
  eapply boot_trans; [|apply (step_commit toy_env boot1 boot2 [] [] r); vm_compute; reflexivity].
  eapply boot_trans; [|apply (step_lock toy_env boot1 [] [] r);
    [intros r' p Hin; apply list_elem_of_singleton in Hin; injection Hin as _ ->; reflexivity|vm_compute; reflexivity]].
  eapply boot_trans; [|apply (step_guard toy_env boot1 [] [] r false); vm_compute; reflexivity].
  eapply boot_trans; [|apply (step_read toy_env boot1 [] [] r)].
  eapply boot_trans; [|apply (step_arrive toy_env boot0 boot1 [] r 5); vm_compute; reflexivity]. apply boot_refl.
Defined.

Lemma attempts_bounded_witness :
  (let_through "1.2.3.4" [(0, Attempt "1.2.3.4"); (1, Attempt "1.2.3.4"); (2, Attempt "5.6.7.8"); (3, Attempt "1.2.3.4"); (4, Attempt "1.2.3.4");
                          (600000, Cleanup); (600001, Attempt "1.2.3.4")] [] <=
   RATE_LIMIT_MAX_ATTEMPTS * ((600001 - 0) / RATE_LIMIT_WINDOW_MS + 1))%Z.
Proof.
  apply (attempts_bounded "1.2.3.4" [(0, Attempt "1.2.3.4"); (1, Attempt "1.2.3.4"); (2, Attempt "5.6.7.8"); (3, Attempt "1.2.3.4"); (4, Attempt "1.2.3.4");
    (600000, Cleanup); (600001, Attempt "1.2.3.4")]%Z 0).
  cbn. repeat split; lia.
Defined.
