(* ===== verification/GuestSession.v ===== *)
(** * Guest sessions

    services/auth/src/services/guest-session-service.ts: sessions for visitors of public
    apps, kept in Redis for a day, with a limit for each address. *)

From S2P Require Import Prelude JsString SqlTable AuthStore.
From stdpp Require Import gmap strings.

Definition GUEST_SESSION_TTL_SECONDS : Z := 86400.
Definition GUEST_RATE_LIMIT_WINDOW_SECONDS : Z := 60.
Definition GUEST_RATE_LIMIT_MAX_PER_WINDOW : Z := 30.

Record GuestSessionPayload : Type := { gs_tenant : string; gs_app : string; gs_created : Z; gs_ip : option string }.

(** The keys [guest-session:...] and [guest-session:rate:...]. *)
Record guest_redis : Type := { guest_sessions : keys GuestSessionPayload; guest_rates : keys Z }.

Inductive guest_error : Type := TenantRequired | AppRequired | RateLimitExceeded | GuestRedis.

(** The count of an address, where there is one; [false] where it is over the limit. *)
Definition guest_rate (now : Z) (ipAddress : option string) (r : guest_redis) : bool * guest_redis :=
  match ipAddress with
  | Some ip =>
      if String.eqb ip "" then (true, r)
      else
        let '(currentCount, rates) := incr_expire now ip GUEST_RATE_LIMIT_WINDOW_SECONDS (guest_rates r) in
        (negb (GUEST_RATE_LIMIT_MAX_PER_WINDOW <? currentCount)%Z, {| guest_sessions := guest_sessions r; guest_rates := rates |})
  | None => (true, r)
  end.

(** [token] is random: 64 hexadecimal digits. *)
Definition create (now : Z) (token tenantId appId : string) (ipAddress : option string) (r : guest_redis) : result guest_error (string * Z) * guest_redis :=
  if String.eqb tenantId "" then (Err TenantRequired, r)
  else if String.eqb appId "" then (Err AppRequired, r)
  else
    let '(within, r) := guest_rate now ipAddress r in
    if within then
      match set_ex now token {| gs_tenant := tenantId; gs_app := appId; gs_created := now; gs_ip := ipAddress |} GUEST_SESSION_TTL_SECONDS (guest_sessions r) with
      | Ok m => (Ok (token, (now + GUEST_SESSION_TTL_SECONDS * 1000)%Z), {| guest_sessions := m; guest_rates := guest_rates r |})
      | Err _ => (Err GuestRedis, r)
      end
    else (Err RateLimitExceeded, r).

Definition validate (now : Z) (token : string) (r : guest_redis) : option GuestSessionPayload :=
  if String.eqb token "" || negb (String.length token =? 64)%nat then None else get now token (guest_sessions r).

(** A request: its time, its random token, and what it asks for. *)
Record guest_request : Type := { gr_time : Z; gr_token : string; gr_tenant : string; gr_app : string; gr_address : option string }.

Definition answer_request (q : guest_request) (r : guest_redis) : result guest_error (string * Z) * guest_redis :=
  create (gr_time q) (gr_token q) (gr_tenant q) (gr_app q) (gr_address q) r.

Fixpoint in_time_order (t : Z) (qs : list guest_request) : Prop :=
  match qs with [] => True | q :: qs => (t <= gr_time q)%Z /\ in_time_order (gr_time q) qs end.

Definition last_request (t : Z) (qs : list guest_request) : Z := default t (last (map gr_time qs)).

(** How many sessions an address is given. *)
Fixpoint sessions_given (ip : string) (qs : list guest_request) (r : guest_redis) : Z :=
  match qs with
  | [] => 0
  | q :: qs =>
      let '(answer, r) := answer_request q r in
      ((if bool_decide (gr_address q = Some ip) && is_ok answer then 1 else 0) + sessions_given ip qs r)%Z
  end.

(** ** The limit *)

Definition WINDOW_MS : Z := (GUEST_RATE_LIMIT_WINDOW_SECONDS * 1000)%Z.

(** The counter of an address and the end of its window. *)
Definition counter (t : Z) (ip : string) (m : keys Z) : option (Z * Z) :=
  match m !! ip with
  | Some x => match expires x with Some ends => if (t <? ends)%Z then Some (content x, ends) else None | None => None end
  | None => None
  end.

(** Counters are positive, and end within a window from now. *)
Definition counters_ok (t : Z) (m : keys Z) : Prop :=
  forall ip x, m !! ip = Some x -> (1 <= content x)%Z /\ exists ends, expires x = Some ends /\ (ends <= t + WINDOW_MS)%Z.

Lemma incr_expire_spec t ip m : counters_ok t m ->
  incr_expire t ip GUEST_RATE_LIMIT_WINDOW_SECONDS m =
  match counter t ip m with
  | Some (n, ends) => ((n + 1)%Z, <[ip := {| content := (n + 1)%Z; expires := Some ends |}]> m)
  | None => (1%Z, <[ip := {| content := 1%Z; expires := Some (t + WINDOW_MS)%Z |}]> m)
  end.
Proof.
  intros Hm. unfold incr_expire, counter, get. destruct (m !! ip) as [x|] eqn:E.
  - destruct (Hm ip x E) as (Hc & ends & He & _). rewrite He. cbn [lives]. destruct (t <? ends)%Z eqn:El.
    + change (default 0%Z (Some (content x))) with (content x). unfold keep_ttl. rewrite E, He. cbn [lives]. rewrite El.
      destruct (Z.eqb_spec (content x + 1) 1); [lia|done].
    + change (default 0%Z None + 1)%Z with 1%Z. cbn [Z.eqb Pos.eqb]. unfold expire, keep_ttl, get. rewrite E, He. cbn [lives]. rewrite El, lookup_insert_eq.
      cbn [content expires lives]. by rewrite insert_insert_eq.
  - change (default 0%Z None + 1)%Z with 1%Z. cbn [Z.eqb Pos.eqb]. unfold expire, keep_ttl, get. rewrite E, lookup_insert_eq.
    cbn [content expires lives]. by rewrite insert_insert_eq.
Qed.

(** What an address may still be given, up to [last]. *)
Definition room (ip : string) (m : keys Z) (t last : Z) : Z :=
  match counter t ip m with
  | Some (n, ends) => (Z.max 0 (GUEST_RATE_LIMIT_MAX_PER_WINDOW - n) + GUEST_RATE_LIMIT_MAX_PER_WINDOW * ((last - ends) / WINDOW_MS + 1))%Z
  | None => (GUEST_RATE_LIMIT_MAX_PER_WINDOW * ((last - t) / WINDOW_MS + 1))%Z
  end.

Lemma room_later ip m t now last : (t <= now <= last)%Z -> counters_ok t m -> (room ip m now last <= room ip m t last)%Z.
Proof.
  intros Ht Hm. unfold room, counter. unfold GUEST_RATE_LIMIT_MAX_PER_WINDOW.
  assert (Hmono : forall x y, (x <= y)%Z -> ((last - y) / WINDOW_MS <= (last - x) / WINDOW_MS)%Z) by (intros x y H; apply Z.div_le_mono; [done|lia]).
  destruct (m !! ip) as [x|] eqn:E; [|specialize (Hmono t now); lia]. destruct (Hm ip x E) as (Hc & ends & -> & He).
  destruct (Z.ltb_spec now ends), (Z.ltb_spec t ends); try lia; [specialize (Hmono ends now)|specialize (Hmono t now)]; lia.
Qed.

Lemma room_step ip t last m : counters_ok t m -> (t <= last)%Z ->
  let '(count, m') := incr_expire t ip GUEST_RATE_LIMIT_WINDOW_SECONDS m in
  counters_ok t m' /\ ((if (GUEST_RATE_LIMIT_MAX_PER_WINDOW <? count)%Z then 0 else 1) + room ip m' t last <= room ip m t last)%Z /\
  forall ip', ip' <> ip -> room ip' m' t last = room ip' m t last.
Proof.
  intros Hm Hle. rewrite incr_expire_spec by done.
  assert (Hother : forall x ip', ip' <> ip -> room ip' (<[ip := x]> m) t last = room ip' m t last).
  { intros x ip' Hne. unfold room, counter. by rewrite lookup_insert_ne by done. }
  assert (Hok : forall x, (1 <= content x)%Z -> (exists ends, expires x = Some ends /\ ends <= t + WINDOW_MS)%Z -> counters_ok t (<[ip := x]> m)).
  { intros x H1 H2 ip' y. destruct (decide (ip' = ip)) as [->|Hne]; [rewrite lookup_insert_eq; by intros [= <-]|rewrite lookup_insert_ne by done; apply Hm]. }
  destruct (counter t ip m) as [[n ends]|] eqn:Ec; split_and!; try apply Hother.
  - unfold counter in Ec. destruct (m !! ip) as [x|] eqn:E; [|done]. destruct (Hm ip x E) as (Hc & en & He & Hen). rewrite He in Ec.
    destruct (t <? en)%Z; [|done]. injection Ec as <- <-. apply Hok; cbn; [lia|by exists en].
  - unfold room. rewrite Ec. unfold counter in *. rewrite lookup_insert_eq. cbn [content expires]. destruct (m !! ip) as [x|]; [|done].
    destruct (expires x) as [en|]; [|done]. destruct (t <? en)%Z eqn:El; [|done]. injection Ec as <- <-. rewrite El.
    destruct (Z.ltb_spec GUEST_RATE_LIMIT_MAX_PER_WINDOW (content x + 1)); lia.
  - apply Hok; cbn; [lia|]. eexists. split; [done|lia].
  - unfold room. rewrite Ec. unfold counter. rewrite lookup_insert_eq. cbn [content expires]. rewrite (proj2 (Z.ltb_lt (t) (t + WINDOW_MS)%Z)) by (change WINDOW_MS with 60000%Z; lia).
    replace ((last - (t + WINDOW_MS)) / WINDOW_MS + 1)%Z with ((last - t) / WINDOW_MS)%Z.
    + cbn. unfold GUEST_RATE_LIMIT_MAX_PER_WINDOW. lia.
    + replace (last - t)%Z with (last - (t + WINDOW_MS) + 1 * WINDOW_MS)%Z at 1 by lia. rewrite Z.div_add by done. done.
Qed.

Lemma counters_later t now m : (t <= now)%Z -> counters_ok t m -> counters_ok now m.
Proof. intros Hle Hm ip x Hx. destruct (Hm ip x Hx) as (Hc & ends & He & Hen). split; [done|]. exists ends. split; [done|lia]. Qed.

Lemma request_room ip q t last r : counters_ok t (guest_rates r) -> (t <= gr_time q <= last)%Z -> ip <> "" ->
  let '(answer, r') := answer_request q r in
  counters_ok (gr_time q) (guest_rates r') /\
  ((if bool_decide (gr_address q = Some ip) && is_ok answer then 1 else 0) + room ip (guest_rates r') (gr_time q) last <= room ip (guest_rates r) t last)%Z.
Proof.
  intros Hm Ht Hip. pose proof (room_later ip (guest_rates r) t (gr_time q) last Ht Hm) as Hlater.
  apply (counters_later t (gr_time q)) in Hm; [|lia]. unfold answer_request, create.
  assert (Hsame : counters_ok (gr_time q) (guest_rates r) /\
    (0 + room ip (guest_rates r) (gr_time q) last <= room ip (guest_rates r) t last)%Z) by (split; [done|lia]).
  destruct (String.eqb (gr_tenant q) ""); [cbn; by rewrite andb_false_r|]. destruct (String.eqb (gr_app q) ""); [cbn; by rewrite andb_false_r|].
  unfold guest_rate. destruct (gr_address q) as [a|] eqn:Ea; [|rewrite bool_decide_eq_false_2 by done; exact Hsame].
  destruct (String.eqb_spec a "") as [->|Hne].
  { rewrite bool_decide_eq_false_2 by congruence. exact Hsame. }
  pose proof (room_step a (gr_time q) last (guest_rates r) Hm ltac:(lia)) as Hstep.
  destruct (incr_expire _ a _ _) as [count rates]. destruct Hstep as (Hok & Hroom & Hother).
  assert (Hgoal : forall answer : result guest_error (string * Z), (is_ok answer = true -> (count <= GUEST_RATE_LIMIT_MAX_PER_WINDOW)%Z) ->
    counters_ok (gr_time q) rates /\
    ((if bool_decide (Some a = Some ip) && is_ok answer then 1 else 0) + room ip rates (gr_time q) last <= room ip (guest_rates r) t last)%Z).
  { intros answer Hans. split; [done|]. destruct (decide (a = ip)) as [->|Hai].
    - rewrite bool_decide_eq_true_2 by done. cbn [andb]. destruct (is_ok answer); [specialize (Hans eq_refl)|];
        destruct (Z.ltb_spec GUEST_RATE_LIMIT_MAX_PER_WINDOW count); lia.
    - rewrite bool_decide_eq_false_2 by congruence. rewrite (Hother ip) by done. cbn [andb]. lia. }
  cbn [guest_rates]. destruct (Z.ltb_spec GUEST_RATE_LIMIT_MAX_PER_WINDOW count); cbn [negb].
  - by apply Hgoal.
  - destruct (set_ex _ _ _ _ _); by apply Hgoal.
Qed.

Lemma last_request_cons t q qs : last_request t (q :: qs) = last_request (gr_time q) qs.
Proof. unfold last_request. cbn [map]. rewrite last_cons. by destruct (last (map gr_time qs)). Qed.

Lemma last_request_later t qs : in_time_order t qs -> (t <= last_request t qs)%Z.
Proof.
  revert t. induction qs as [|q qs IH]; intros t; [done|]. intros [H1 H2]. rewrite last_request_cons. specialize (IH _ H2). lia.
Qed.

Lemma given_room ip qs : ip <> "" -> forall t r, counters_ok t (guest_rates r) -> in_time_order t qs ->
  (sessions_given ip qs r <= room ip (guest_rates r) t (last_request t qs))%Z.
Proof.
  intros Hip. induction qs as [|q qs IH]; intros t r Hm Ho.
  - cbn [sessions_given]. unfold last_request. cbn. unfold room, counter. destruct (guest_rates r !! ip) as [x|] eqn:E.
    + destruct (Hm ip x E) as (Hc & ends & He & Hen). rewrite He. destruct (t <? ends)%Z.
      * pose proof (Z.div_le_mono (- WINDOW_MS) (t - ends) WINDOW_MS ltac:(done) ltac:(lia)) as H. change (- WINDOW_MS / WINDOW_MS)%Z with (-1)%Z in H.
        unfold GUEST_RATE_LIMIT_MAX_PER_WINDOW. lia.
      * rewrite Z.sub_diag, Z.div_0_l by done. done.
    + rewrite Z.sub_diag, Z.div_0_l by done. done.
  - destruct Ho as [Hle Ho]. cbn [sessions_given]. rewrite last_request_cons. pose proof (last_request_later _ _ Ho) as Hlast.
    pose proof (request_room ip q t (last_request (gr_time q) qs) r Hm ltac:(lia) Hip) as Hstep.
    destruct (answer_request q r) as [answer r']. destruct Hstep as [Hm' Hroom]. specialize (IH _ r' Hm' Ho). lia.
Qed.

(** An address is given at most thirty sessions, and thirty more for each minute that
    passes, whatever other addresses do. *)
Theorem guests_bounded ip qs t sessions : ip <> "" -> in_time_order t qs ->
  (sessions_given ip qs {| guest_sessions := sessions; guest_rates := ∅ |}
     <= GUEST_RATE_LIMIT_MAX_PER_WINDOW * ((last_request t qs - t) / WINDOW_MS + 1))%Z.
Proof.
  intros Hip Ho. set (r := {| guest_sessions := sessions; guest_rates := ∅ |}).
  assert (Hr : counters_ok t (guest_rates r)) by (intros ip' x Hx; cbn in Hx; by rewrite lookup_empty in Hx).
  pose proof (given_room ip qs Hip t r Hr Ho) as H. unfold room, counter in H. cbn [guest_rates r] in H. by rewrite lookup_empty in H.
Qed.

(** A session is found for a day, with what it was made for. *)
Theorem guest_validates now token tenantId appId ipAddress r answer r' now' :
  create now token tenantId appId ipAddress r = (Ok answer, r') -> String.length token = 64 ->
  validate now' token r' =
    if (now' <? now + GUEST_SESSION_TTL_SECONDS * 1000)%Z
    then Some {| gs_tenant := tenantId; gs_app := appId; gs_created := now; gs_ip := ipAddress |} else None.
Proof.
  unfold create. destruct (String.eqb tenantId ""); [done|]. destruct (String.eqb appId ""); [done|].
  destruct (guest_rate now ipAddress r) as [within r1]. destruct within; [|done].
  destruct (set_ex now token _ _ _) as [m|] eqn:E; [|done]. intros [= _ <-] Hlen. unfold validate. rewrite Hlen.
  destruct token as [|c token]; [done|]. cbn [String.eqb Nat.eqb orb negb guest_sessions]. apply (get_set_ex _ now' _ (String c token)) in E.
  rewrite E. by rewrite decide_True by done.
Qed.
