(* ===== verification/GraphqlLexer.v ===== *)
(** * GraphQL: tokens and lexer

    [class Lexer] of [services/gateway/src/graphql/parser.ts].  The source is
    its list of UTF-16 code units, which is also what names and string values
    are made of.  The parser asks for one token at a time; tokens do not depend
    on the parser, so [lex] gives them all. *)

From S2P Require Import Prelude JsString JsNumber.
From Stdlib Require Import Ascii.

(** ** Text as code units *)

Definition text : Type := list N.

Definition u (s : string) : text := map code (explode s).
Definition ch (c : ascii) : N := code c.

Declare Scope text_scope.
Delimit Scope text_scope with text.
Notation "s =t t" := (bool_decide (s = t)) (at level 70) : text_scope.
Open Scope text_scope.

Definition unicode_space (c : N) : bool :=
  (existsb (N.eqb c) [0x1680; 0x2028; 0x2029; 0x202F; 0x205F; 0x3000; 0xFEFF]
   || ((0x2000 <=? c) && (c <=? 0x200A)))%N.

(** A string of bytes that [parseInt] and [parseFloat] read as they read the
    text: units beyond 255 are white space or stop the number. *)
Definition narrow (t : text) : string :=
  implode (map (fun c => if (c <? 256)%N then ascii_of_N c
                         else if unicode_space c then " "%char else "?"%char) t).

(** ** Tokens *)

Inductive TokenType : Type := NAME | STRING | INT | FLOAT | PUNCTUATOR | EOF.

#[export] Instance TokenType_eq_dec : EqDecision TokenType.
Proof. solve_decision. Defined.

Record Token : Type := { ttype : TokenType; tvalue : text; tline : nat; tcolumn : nat }.

#[export] Instance Token_eq_dec : EqDecision Token.
Proof. solve_decision. Defined.

(** ** Lexer *)

Record Lexer : Type := { rest : text; line : nat; column : nat }.

(** [this.advance()] past the unit [c], whose rest is [l]. *)
Definition past (c : N) (l : text) (lx : Lexer) : Lexer :=
  if (c =? 10)%N then {| rest := l; line := S (line lx); column := 1 |}
  else {| rest := l; line := line lx; column := S (column lx) |}.

(** [this.advance()]; at the end it gives the empty string and moves on. *)
Definition advance_char (lx : Lexer) : option N * Lexer :=
  match rest lx with
  | [] => (None, {| rest := []; line := line lx; column := S (column lx) |})
  | c :: l => (Some c, past c l lx)
  end.

Definition is_blank (c : N) : bool := existsb (N.eqb c) [32; 9; 10; 13; 44]%N.

(** [comment] tells whether the inner loop, over a comment, is running. *)
Fixpoint skip_blanks (comment : bool) (l : text) (lx : Lexer) : Lexer :=
  match l with
  | [] => lx
  | c :: l' =>
      if comment && negb (c =? 10)%N then skip_blanks true l' (past c l' lx)
      else if is_blank c then skip_blanks false l' (past c l' lx)
      else if (c =? 35)%N then skip_blanks true l' (past c l' lx)
      else lx
  end.

Definition skipWhitespaceAndComments (lx : Lexer) : Lexer := skip_blanks false (rest lx) lx.

Definition PUNCTUATORS : list N := map code (explode "{}()[]:=@!|&").

Definition isDigit (c : N) : bool := ((48 <=? c) && (c <=? 57))%N.
Definition isNameStart (c : N) : bool :=
  (((97 <=? c) && (c <=? 122)) || ((65 <=? c) && (c <=? 90)) || (c =? 95))%N.
Definition isNameContinue (c : N) : bool := isNameStart c || isDigit c.

(** The longest run of units that satisfy [p]. *)
Fixpoint read_while (p : N -> bool) (l : text) (lx : Lexer) : text * Lexer :=
  match l with
  | c :: l' =>
      if p c then let '(v, lx') := read_while p l' (past c l' lx) in (c :: v, lx')
      else ([], lx)
  | [] => ([], lx)
  end.

Definition read_run (p : N -> bool) (lx : Lexer) : text * Lexer := read_while p (rest lx) lx.

(** [String.fromCharCode(parseInt(hex, 16))] *)
Definition unescape_hex (hex : text) : N :=
  match parseInt16 (narrow hex) with
  | Some z => Z.to_N (z mod 65536)
  | None => 0%N
  end.

(** [this.pos += 4; this.column += 4] *)
Definition skip4 (lx : Lexer) : Lexer :=
  {| rest := drop 4 (rest lx); line := line lx; column := column lx + 4 |}.

(** The units an escape adds and the lexer after it. *)
Definition read_escape (lx : Lexer) : text * Lexer :=
  let '(esc, lx) := advance_char lx in
  match esc with
  | None => ([], lx)
  | Some e =>
      if (e =? 110)%N then ([10%N], lx)
      else if (e =? 114)%N then ([13%N], lx)
      else if (e =? 116)%N then ([9%N], lx)
      else if (e =? 117)%N then ([unescape_hex (take 4 (rest lx))], skip4 lx)
      else ([e], lx)
  end.

(** The loop of [readString], after the opening quote; every turn consumes a
    unit, so the length of the rest is enough fuel. *)
Fixpoint read_chars (fuel : nat) (lx : Lexer) : text * Lexer :=
  match fuel, rest lx with
  | S fuel, c :: l =>
      let lx1 := past c l lx in
      if (c =? 34)%N then ([], lx1)
      else if (c =? 92)%N then
        let '(v, lx2) := read_escape lx1 in
        let '(w, lx3) := read_chars fuel lx2 in (v ++ w, lx3)
      else let '(w, lx2) := read_chars fuel lx1 in (c :: w, lx2)
  | _, _ => ([], lx)
  end.

Definition readString (lx : Lexer) : text * Lexer :=
  let '(_, lx1) := advance_char lx in read_chars (length (rest lx1)) lx1.

(** An optional unit among [cs], kept. *)
Definition read_opt (cs : list N) (lx : Lexer) : text * Lexer :=
  match rest lx with
  | c :: l => if existsb (N.eqb c) cs then ([c], past c l lx) else ([], lx)
  | [] => ([], lx)
  end.

Definition nonempty {A} (l : list A) : bool := match l with [] => false | _ => true end.

Definition readNumber (lx : Lexer) : bool * text * Lexer :=
  let '(sign, lx) := read_opt [45%N] lx in
  let '(ip, lx) := read_run isDigit lx in
  let '(dot, lx) := read_opt [46%N] lx in
  let '(fp, lx) := if nonempty dot then read_run isDigit lx else ([], lx) in
  let '(e, lx) := read_opt [101; 69]%N lx in
  let '(es, lx) := if nonempty e then read_opt [43; 45]%N lx else ([], lx) in
  let '(ed, lx) := if nonempty e then read_run isDigit lx else ([], lx) in
  (nonempty dot || nonempty e, sign ++ ip ++ dot ++ fp ++ e ++ es ++ ed, lx).

(** [next()] on a lexer that has skipped blanks and stands on [c]. *)
Definition next_at (c : N) (l : text) (lx : Lexer) : Token * Lexer :=
  let tok t v := {| ttype := t; tvalue := v; tline := line lx; tcolumn := column lx |} in
  if existsb (N.eqb c) PUNCTUATORS then (tok PUNCTUATOR [c], past c l lx)
  else if take 3 (rest lx) =t u "..." then
    (tok PUNCTUATOR (u "..."), snd (advance_char (snd (advance_char (snd (advance_char lx))))))
  else if (c =? 34)%N then let '(v, lx') := readString lx in (tok STRING v, lx')
  else if (c =? 45)%N || isDigit c then
    let '(isFloat, raw, lx') := readNumber lx in (tok (if isFloat then FLOAT else INT) raw, lx')
  else if isNameStart c then
    let '(v, lx') := read_run isNameContinue lx in (tok NAME v, lx')
  else (tok NAME [c], past c l lx).

Definition next (lx : Lexer) : Token * Lexer :=
  let lx := skipWhitespaceAndComments lx in
  match rest lx with
  | [] => ({| ttype := EOF; tvalue := []; tline := line lx; tcolumn := column lx |}, lx)
  | c :: l => next_at c l lx
  end.

(** The tokens before the end of the source, and the [EOF] token [next] gives
    from then on.  [None] would mean that the fuel does not suffice. *)
Fixpoint lex_loop (fuel : nat) (lx : Lexer) : option (list Token * Token) :=
  let '(t, lx') := next lx in
  if decide (ttype t = EOF) then Some ([], t)
  else match fuel with
       | O => None
       | S fuel => '(ts, eof) ← lex_loop fuel lx'; Some (t :: ts, eof)
       end.

Definition lex (source : text) : option (list Token * Token) :=
  lex_loop (length source) {| rest := source; line := 1; column := 1 |}.

(** ** Every source is lexed *)

Lemma past_rest c l lx : rest (past c l lx) = l.
Proof. unfold past. by case_match. Qed.

Lemma advance_char_rest lx : length (rest (snd (advance_char lx))) <= length (rest lx).
Proof. unfold advance_char. destruct (rest lx); cbn; rewrite ?past_rest; lia. Qed.

Lemma skip_blanks_rest comment l lx :
  rest lx = l -> length (rest (skip_blanks comment l lx)) <= length l.
Proof.
  revert comment lx; induction l as [|c l IH]; intros comment lx E; cbn [skip_blanks]; [cbn; by rewrite E|].
  assert (H : forall b, length (rest (skip_blanks b l (past c l lx))) <= length (c :: l))
    by (intros b; cbn; etrans; [apply IH, past_rest|]; lia).
  repeat case_match; auto. by rewrite E.
Qed.

Lemma read_while_rest p l lx :
  rest lx = l -> length (rest (snd (read_while p l lx))) <= length l.
Proof.
  revert lx; induction l as [|c l IH]; intros lx E; cbn [read_while]; [cbn; by rewrite E|].
  destruct (p c); [|cbn; by rewrite E]. specialize (IH (past c l lx) (past_rest _ _ _)).
  destruct (read_while p l (past c l lx)); cbn in *. lia.
Qed.

Lemma read_run_rest p lx : length (rest (snd (read_run p lx))) <= length (rest lx).
Proof. by apply read_while_rest. Qed.

Lemma read_run_progress p c l lx :
  rest lx = c :: l -> p c = true -> length (rest (snd (read_run p lx))) < length (rest lx).
Proof.
  intros E Hp. unfold read_run. rewrite E. cbn [read_while]. rewrite Hp.
  pose proof (read_while_rest p l (past c l lx) (past_rest _ _ _)).
  destruct (read_while p l (past c l lx)); cbn in *. lia.
Qed.

Lemma read_opt_rest cs lx : length (rest (snd (read_opt cs lx))) <= length (rest lx).
Proof.
  unfold read_opt. destruct (rest lx) as [|c l] eqn:E; [cbn; by rewrite E|].
  case_match; cbn; rewrite ?past_rest, ?E; cbn; lia.
Qed.

Lemma read_escape_rest lx : length (rest (snd (read_escape lx))) <= length (rest lx).
Proof.
  unfold read_escape. pose proof (advance_char_rest lx).
  destruct (advance_char lx) as [[e|] lx1]; cbn in *; [|done].
  repeat case_match; cbn; rewrite ?length_drop; lia.
Qed.

Lemma read_chars_rest fuel lx : length (rest (snd (read_chars fuel lx))) <= length (rest lx).
Proof.
  revert lx; induction fuel as [|fuel IH]; intros lx; cbn [read_chars]; [done|].
  destruct (rest lx) as [|c l] eqn:E; [cbn; by rewrite E|].
  destruct (c =? 34)%N; [cbn; rewrite past_rest; lia|]. destruct (c =? 92)%N.
  - pose proof (read_escape_rest (past c l lx)) as Hr. rewrite past_rest in Hr.
    destruct (read_escape (past c l lx)) as [v lx2]. specialize (IH lx2).
    destruct (read_chars fuel lx2). cbn in *. lia.
  - specialize (IH (past c l lx)). rewrite past_rest in IH.
    destruct (read_chars fuel (past c l lx)). cbn in *. lia.
Qed.

Lemma readString_rest c l lx :
  rest lx = c :: l -> length (rest (snd (readString lx))) < length (rest lx).
Proof.
  intros E. unfold readString, advance_char. rewrite E.
  pose proof (read_chars_rest (length (rest (past c l lx))) (past c l lx)) as H.
  rewrite past_rest in *. cbn. lia.
Qed.

(** The parts of a number after its integer part. *)
Lemma number_tail_rest (b : bool) p lx :
  length (rest (snd (if b then read_run p lx else ([], lx)))) <= length (rest lx).
Proof. destruct b; [apply read_run_rest | done]. Qed.

Lemma opt_tail_rest (b : bool) cs lx :
  length (rest (snd (if b then read_opt cs lx else ([], lx)))) <= length (rest lx).
Proof. destruct b; [apply read_opt_rest | done]. Qed.

Lemma readNumber_rest c l lx :
  rest lx = c :: l -> (c =? 45)%N || isDigit c = true ->
  length (rest (snd (readNumber lx))) < length (rest lx).
Proof.
  intros E Hc. unfold readNumber.
  assert (H : length (rest (snd (read_run isDigit (snd (read_opt [45%N] lx))))) < length (rest lx)).
  { pose proof (read_run_rest isDigit (snd (read_opt [45%N] lx))) as Hr.
    unfold read_opt in *. rewrite E in *. cbn [existsb] in *. rewrite orb_false_r in *.
    destruct (c =? 45)%N; cbn [snd] in *.
    - rewrite past_rest in Hr. cbn. lia.
    - rewrite <- E. by eapply read_run_progress. }
  destruct (read_opt [45%N] lx) as [sign lx0]. cbn [snd] in H.
  destruct (read_run isDigit lx0) as [ip lx1]. cbn [snd] in H.
  pose proof (read_opt_rest [46%N] lx1) as H1. destruct (read_opt [46%N] lx1) as [dot lx2].
  pose proof (number_tail_rest (nonempty dot) isDigit lx2) as H2.
  destruct (if nonempty dot then _ else _) as [fp lx3].
  pose proof (read_opt_rest [101; 69]%N lx3) as H3. destruct (read_opt _ lx3) as [e lx4].
  pose proof (opt_tail_rest (nonempty e) [43; 45]%N lx4) as H4.
  destruct (if nonempty e then read_opt _ _ else _) as [es lx5].
  pose proof (number_tail_rest (nonempty e) isDigit lx5) as H5.
  destruct (if nonempty e then read_run _ _ else _) as [ed lx6].
  cbn [snd] in *. lia.
Qed.

Lemma isNameStart_continue c : isNameStart c = true -> isNameContinue c = true.
Proof. unfold isNameContinue. by intros ->. Qed.

Lemma next_at_spec c l lx :
  rest lx = c :: l ->
  ttype (fst (next_at c l lx)) <> EOF /\
  length (rest (snd (next_at c l lx))) < length (rest lx).
Proof.
  intros E. unfold next_at.
  destruct (existsb _ PUNCTUATORS); [cbn; rewrite past_rest, E; cbn; split; [done | lia]|].
  destruct (take 3 (rest lx) =t u "...") eqn:Ed.
  { split; [done|]. cbn [fst snd].
    pose proof (advance_char_rest (snd (advance_char (snd (advance_char lx))))).
    pose proof (advance_char_rest (snd (advance_char lx))).
    assert (length (rest (snd (advance_char lx))) < length (rest lx))
      by (unfold advance_char; rewrite E; cbn; rewrite past_rest; lia).
    lia. }
  destruct (c =? 34)%N.
  { pose proof (readString_rest c l lx E). destruct (readString lx). done. }
  destruct ((c =? 45)%N || isDigit c) eqn:Hd.
  { pose proof (readNumber_rest c l lx E Hd). destruct (readNumber lx) as [[[] raw] lx']; done. }
  destruct (isNameStart c) eqn:Hn.
  { pose proof (read_run_progress isNameContinue c l lx E (isNameStart_continue c Hn)).
    destruct (read_run isNameContinue lx). done. }
  cbn. rewrite past_rest, E. cbn. split; [done | lia].
Qed.

Lemma next_spec lx :
  let '(t, lx') := next lx in
  ttype t = EOF \/ length (rest lx') < length (rest lx).
Proof.
  unfold next. pose proof (skip_blanks_rest false (rest lx) lx eq_refl) as Hs.
  change (skip_blanks false (rest lx) lx) with (skipWhitespaceAndComments lx) in Hs.
  destruct (rest (skipWhitespaceAndComments lx)) as [|c l] eqn:E; [by left|].
  pose proof (next_at_spec c l _ E) as [_ H].
  destruct (next_at c l _) as [t lx']. right. rewrite E in H. cbn in *. lia.
Qed.

Lemma lex_loop_total fuel lx : length (rest lx) <= fuel -> is_Some (lex_loop fuel lx).
Proof.
  revert lx; induction fuel as [|fuel IH]; intros lx Hf; cbn [lex_loop];
    pose proof (next_spec lx) as H; destruct (next lx) as [t lx'];
    (destruct (decide (ttype t = EOF)) as [Ht|Ht]; [by eexists|]); destruct H as [H|H]; try done; try lia.
  destruct (IH lx') as [[ts eof] ->]; [lia|]. by eexists.
Qed.

Lemma lex_total source : is_Some (lex source).
Proof. by apply lex_loop_total. Qed.

(** The tokens before [EOF] are none of them [EOF], the last one is. *)
Lemma lex_types source ts eof :
  lex source = Some (ts, eof) -> Forall (fun t => ttype t <> EOF) ts /\ ttype eof = EOF.
Proof.
  unfold lex. generalize {| rest := source; line := 1; column := 1 |}. generalize (length source).
  intros fuel; revert ts; induction fuel as [|fuel IH]; intros ts lx; cbn [lex_loop];
    destruct (next lx) as [t lx'];
    (destruct (decide (ttype t = EOF)) as [Ht|Ht]; [by intros [= <- <-]|]); [done|].
  destruct (lex_loop fuel lx') as [[ts' eof']|] eqn:E; [|done]. cbn. intros [= <- <-].
  destruct (IH _ _ E) as [H1 H2]. by split; [constructor|].
Qed.

Example lex_ex :
  option_map (fun p => map (fun t => (ttype t, tvalue t)) (fst p)) (lex (u "query { a(n: -1.5e3) ...F }"))
  = Some [(NAME, u "query"); (PUNCTUATOR, u "{"); (NAME, u "a"); (PUNCTUATOR, u "(");
          (NAME, u "n"); (PUNCTUATOR, u ":"); (FLOAT, u "-1.5e3"); (PUNCTUATOR, u ")");
          (PUNCTUATOR, u "..."); (NAME, u "F"); (PUNCTUATOR, u "}")].
Proof. vm_compute. reflexivity. Qed.
