(* ===== verification/GraphqlParser.v ===== *)
(** * GraphQL: parser

    [class Parser] and [selectionSetDepth] of
    [services/gateway/src/graphql/parser.ts], with the syntax trees of
    [services/gateway/src/graphql/types.ts].  The mutable parser object is a
    state monad; [None] stands for a run that the fuel cuts short, which
    [parse_total] excludes.  The depth argument that [parseSelectionSet] and
    [parseField] pass on is never read and is left out. *)

From S2P Require Import Prelude JsString JsNumber GraphqlLexer.
From Stdlib Require Import Ascii.

(** ** Syntax trees *)

Inductive GraphQLValue : Type :=
| StringValue (v : text)
| IntValue (n : number)
| FloatValue (n : number)
| BooleanValue (b : bool)
| NullValue
| EnumValue (v : text)
| ListValue (values : list GraphQLValue)
| ObjectValue (fields : jmap text GraphQLValue)
| Variable_ (name : text).

Record GraphQLArgument : Type := { arg_name : text; arg_value : GraphQLValue }.

(** A [GraphQLSelectionSet] is its list of selections. *)
Inductive GraphQLSelection : Type :=
| Field (alias : option text) (name : text) (args : list GraphQLArgument)
    (directives : list text) (sub : option (list GraphQLSelection))
| InlineFragment (typeCondition : option text) (sub : list GraphQLSelection)
| FragmentSpread (name : text).

Definition GraphQLSelectionSet : Type := list GraphQLSelection.

Record GraphQLFragmentDefinition : Type := {
  frag_name : text;
  frag_type : text;
  frag_set : GraphQLSelectionSet
}.

Record GraphQLVariableDefinition : Type := {
  var_name : text;
  var_type : text;
  var_nullable : bool;
  var_isList : bool;
  var_default : option GraphQLValue
}.

Inductive operation_kind : Type := query | mutation | subscription.

Record GraphQLOperationDefinition : Type := {
  op_kind : operation_kind;
  op_name : option text;
  op_variables : list GraphQLVariableDefinition;
  op_set : GraphQLSelectionSet
}.

Definition Fragments : Type := jmap text GraphQLFragmentDefinition.

Record GraphQLDocument : Type := {
  operations : list GraphQLOperationDefinition;
  fragments : Fragments
}.

(** The messages of [ParseError]. *)
Inductive parse_message : Type :=
| ExpectedToken (type : TokenType) (value : option text) (got : text)
| DuplicateFragment (name : text)
| UnknownOperation (got : text)
| ExpectedVariable (got : text)
| ExpectedBrace (got : text)
| ExpectedFieldName (got : text)
| TooManyAliases (maxAliases : Z)
| UnexpectedInValue (got : text)
| FragmentCycle
| TooDeep (maxDepth : Z) (depth : nat).

Record ParseError : Type := { message : parse_message; err_line : nat; err_column : nat }.

(** ** The parser object

    [toks] are the current token and those the lexer will give, up to [EOF],
    whose position is [eof_at]. *)

Record Parser : Type := {
  toks : list Token;
  eof_at : nat * nat;
  errors : list ParseError;
  aliasCount : Z
}.

Definition M (A : Type) : Type := Parser -> option (A * Parser).

#[export] Instance M_ret : MRet M := fun A a s => Some (a, s).
#[export] Instance M_bind : MBind M := fun A B f m s =>
  match m s with Some (a, s') => f a s' | None => None end.

Definition current (s : Parser) : Token :=
  match toks s with
  | t :: _ => t
  | [] => {| ttype := EOF; tvalue := []; tline := fst (eof_at s); tcolumn := snd (eof_at s) |}
  end.

Definition with_toks (ts : list Token) (s : Parser) : Parser :=
  {| toks := ts; eof_at := eof_at s; errors := errors s; aliasCount := aliasCount s |}.

(** [this.advance()]; at the end the lexer gives [EOF] again. *)
Definition advance : M Token := fun s => Some (current s, with_toks (tail (toks s)) s).

Definition peek : M Token := fun s => Some (current s, s).

Definition cv (s : Parser) : text := tvalue (current s).
Definition ct (s : Parser) : TokenType := ttype (current s).
Definition at_value (v : string) (s : Parser) : bool := cv s =t u v.
Definition at_type (t : TokenType) (s : Parser) : bool := bool_decide (ct s = t).

(** [this.errors.push(...)] with the position of the current token. *)
Definition push_error (m : text -> parse_message) : M unit := fun s =>
  Some (tt, {| toks := toks s; eof_at := eof_at s;
               errors := errors s ++ [{| message := m (cv s);
                                         err_line := tline (current s);
                                         err_column := tcolumn (current s) |}];
               aliasCount := aliasCount s |}).

(** [if (test) a else b] on the parser object. *)
Definition when {A} (test : Parser -> bool) (a b : M A) : M A := fun s =>
  if test s then a s else b s.

Definition expect (type : TokenType) (value : option string) : M Token :=
  when (fun s => negb (at_type type s)
                 || match value with Some v => negb (at_value v s) | None => false end)
    (_ ← push_error (ExpectedToken type (u <$> value)); advance)
    advance.

Definition out_of_fuel {A} : M A := fun _ => None.

(** [while (test) body], collecting what the body gives. *)
Fixpoint loop {A} (fuel : nat) (test : Parser -> bool) (body : M A) : M (list A) :=
  when test
    match fuel with
    | O => out_of_fuel
    | S fuel => x ← body; xs ← loop fuel test body; mret (x :: xs)
    end
    (mret []).

(** [this.cv() !== close && this.ct() !== "EOF"] *)
Definition inside (close : string) (s : Parser) : bool :=
  negb (at_value close s) && negb (at_type EOF s).

(** ** Values *)

(** [parseInt(raw, 10)] and [parseFloat(raw)] of a number token. *)
Definition int_of (raw : text) : number :=
  match parseInt10 (narrow raw) with
  | Some 0%Z => S754_zero (match raw with c :: _ => (c =? 45)%N | [] => false end)
  | Some z => num_of_Z z
  | None => NaN
  end.

Definition float_of (raw : text) : number := JsNumber.parseFloat (narrow raw).

(** [fields[key] = value] on a plain object: the key [__proto__] sets its
    prototype and adds no field. *)
Definition object_of (fields : list (text * GraphQLValue)) : jmap text GraphQLValue :=
  fold_left (fun o '(k, v) => if k =t u "__proto__" then o else jm_set k v o) fields [].

Fixpoint parseValue (fuel : nat) : M GraphQLValue :=
  match fuel with
  | O => out_of_fuel
  | S fuel =>
      tok ← peek;
      if tvalue tok =t u "$" then
        _ ← advance; name ← expect NAME None; mret (Variable_ (tvalue name))
      else match ttype tok with
      | STRING => _ ← advance; mret (StringValue (tvalue tok))
      | INT => _ ← advance; mret (IntValue (int_of (tvalue tok)))
      | FLOAT => _ ← advance; mret (FloatValue (float_of (tvalue tok)))
      | _ =>
          if tvalue tok =t u "true" then _ ← advance; mret (BooleanValue true)
          else if tvalue tok =t u "false" then _ ← advance; mret (BooleanValue false)
          else if tvalue tok =t u "null" then _ ← advance; mret NullValue
          else if tvalue tok =t u "[" then
            _ ← advance;
            values ← loop fuel (inside "]") (parseValue fuel);
            _ ← expect PUNCTUATOR (Some "]");
            mret (ListValue values)
          else if tvalue tok =t u "{" then
            _ ← advance;
            fields ← loop fuel (inside "}")
              (key ← expect NAME None;
               _ ← expect PUNCTUATOR (Some ":");
               v ← parseValue fuel;
               mret (tvalue key, v));
            _ ← expect PUNCTUATOR (Some "}");
            mret (ObjectValue (object_of fields))
          else if bool_decide (ttype tok = NAME) then
            _ ← advance; mret (EnumValue (tvalue tok))
          else
            _ ← push_error UnexpectedInValue; _ ← advance; mret NullValue
      end
  end.

(** ** Variables *)

Definition parseTypeRef : M (text * bool * bool) :=
  '(typeName, isList) ←
    when (at_value "[")
      (_ ← advance;
       name ← expect NAME None;
       _ ← when (at_value "!") (_ ← advance; mret tt) (mret tt);
       _ ← expect PUNCTUATOR (Some "]");
       mret (tvalue name, true))
      (name ← expect NAME None; mret (tvalue name, false));
  nullable ← when (at_value "!") (_ ← advance; mret false) (mret true);
  mret (typeName, nullable, isList).

Definition parseVariableDefinition (fuel : nat) : M (option GraphQLVariableDefinition) :=
  when (fun s => negb (at_value "$" s))
    (_ ← push_error ExpectedVariable; _ ← advance; mret None)
    (_ ← advance;
     name ← expect NAME None;
     _ ← expect PUNCTUATOR (Some ":");
     '(typeName, nullable, isList) ← parseTypeRef;
     d ← when (at_value "=") (_ ← advance; v ← parseValue fuel; mret (Some v)) (mret None);
     mret (Some {| var_name := tvalue name; var_type := typeName; var_nullable := nullable;
                   var_isList := isList; var_default := d |})).

(** ** Fields and selection sets *)

(** The loop over the arguments of a directive: up to the parenthesis that
    closes the [depth2] open ones. *)
Fixpoint skip_directive_args (depth2 : nat) (ts : list Token) : list Token :=
  match depth2, ts with
  | O, _ | _, [] => ts
  | S d, t :: ts =>
      skip_directive_args
        (if tvalue t =t u "(" then S depth2 else if tvalue t =t u ")" then d else depth2) ts
  end.

Definition skip_args : M unit := fun s =>
  Some (tt, with_toks (skip_directive_args 1 (toks s)) s).

Definition parseDirective : M text :=
  _ ← advance;
  name ← expect NAME None;
  _ ← when (at_value "(")
        (_ ← advance; skip_args)
        (mret tt);
  mret (tvalue name).

Definition parseArgument (fuel : nat) : M GraphQLArgument :=
  name ← expect NAME None;
  _ ← expect PUNCTUATOR (Some ":");
  v ← parseValue fuel;
  mret {| arg_name := tvalue name; arg_value := v |}.

Definition parseArguments (fuel : nat) : M (list GraphQLArgument) :=
  when (at_value "(")
    (_ ← advance;
     args ← loop fuel (inside ")") (parseArgument fuel);
     _ ← expect PUNCTUATOR (Some ")");
     mret args)
    (mret []).

Section Limits.
Context (maxDepth maxAliases : Z).

(** [this.aliasCount++] and the test that follows: whether the count is
    still allowed. *)
Definition count_alias : M bool := fun s =>
  Some ((aliasCount s + 1 <=? maxAliases)%Z,
        {| toks := toks s; eof_at := eof_at s; errors := errors s;
           aliasCount := aliasCount s + 1 |}).

(** What follows the name of a field; [sub] parses its selection set. *)
Definition parse_field_rest (fuel : nat) (sub : M (option GraphQLSelectionSet))
    (alias : option text) (name : text) : M (option GraphQLSelection) :=
  args ← parseArguments fuel;
  directives ← loop fuel (at_value "@") parseDirective;
  selectionSet ← when (at_value "{") sub (mret None);
  mret (Some (Field alias name args directives selectionSet)).

Definition parseField (fuel : nat) (sub : M (option GraphQLSelectionSet))
    : M (option GraphQLSelection) :=
  when (fun s => negb (at_type NAME s))
    (_ ← push_error ExpectedFieldName; _ ← advance; mret None)
    (first ← advance;
     when (at_value ":")
       (_ ← advance;
        name ← expect NAME None;
        allowed ← count_alias;
        if (allowed : bool) then parse_field_rest fuel sub (Some (tvalue first)) (tvalue name)
        else _ ← push_error (fun _ => TooManyAliases maxAliases); mret None)
       (parse_field_rest fuel sub None (tvalue first))).

Definition inline_fragment (typeCondition : option text) (sub : option GraphQLSelectionSet)
    : option GraphQLSelection :=
  InlineFragment typeCondition <$> sub.

Definition parseSelection (fuel : nat) (sub : M (option GraphQLSelectionSet))
    : M (option GraphQLSelection) :=
  when (at_value "...")
    (_ ← advance;
     when (at_value "on")
       (_ ← advance;
        typeCondition ← expect NAME None;
        subSet ← sub;
        mret (inline_fragment (Some (tvalue typeCondition)) subSet))
       (when (at_type NAME)
          (name ← advance; mret (Some (FragmentSpread (tvalue name))))
          (subSet ← sub; mret (inline_fragment None subSet))))
    (parseField fuel sub).

(** The entries a parse gave, without the failed ones. *)
Definition present {A} (l : list (option A)) : list A := omap (fun x => x) l.

Fixpoint parseSelectionSet (fuel : nat) : M (option GraphQLSelectionSet) :=
  match fuel with
  | O => out_of_fuel
  | S fuel =>
      when (fun s => negb (at_value "{" s))
        (_ ← push_error ExpectedBrace; mret None)
        (_ ← advance;
         selections ← loop fuel (inside "}") (parseSelection fuel (parseSelectionSet fuel));
         _ ← expect PUNCTUATOR (Some "}");
         mret (Some (present selections)))
  end.

(** ** Operations and fragments *)

Definition parse_operation_rest (fuel : nat) (kind : operation_kind) (name : option text)
    : M (option GraphQLOperationDefinition) :=
  vars ← when (at_value "(")
    (_ ← advance;
     vars ← loop fuel (inside ")") (parseVariableDefinition fuel);
     _ ← expect PUNCTUATOR (Some ")");
     mret (present vars))
    (mret []);
  set ← parseSelectionSet fuel;
  mret ((fun sels => {| op_kind := kind; op_name := name; op_variables := vars; op_set := sels |})
        <$> set).

Definition kind_of (v : text) : option operation_kind :=
  if v =t u "query" then Some query
  else if v =t u "mutation" then Some mutation
  else if v =t u "subscription" then Some subscription
  else None.

Definition parseOperation (fuel : nat) : M (option GraphQLOperationDefinition) :=
  tok ← peek;
  match kind_of (tvalue tok) with
  | Some kind =>
      _ ← advance;
      name ← when (at_type NAME) (t ← advance; mret (Some (tvalue t))) (mret None);
      parse_operation_rest fuel kind name
  | None =>
      if tvalue tok =t u "{" then parse_operation_rest fuel query None
      else _ ← push_error UnknownOperation; _ ← advance; mret None
  end.

Definition parseFragmentDefinition (fuel : nat) : M (option GraphQLFragmentDefinition) :=
  _ ← expect NAME (Some "fragment");
  name ← expect NAME None;
  _ ← expect NAME (Some "on");
  typeCondition ← expect NAME None;
  set ← parseSelectionSet fuel;
  mret ((fun sels => {| frag_name := tvalue name; frag_type := tvalue typeCondition;
                        frag_set := sels |}) <$> set).

(** One turn of the loop of [parse]. *)
Definition parseDefinition (fuel : nat) (doc : GraphQLDocument) : M GraphQLDocument :=
  when (at_value "fragment")
    (frag ← parseFragmentDefinition fuel;
     match frag with
     | None => mret doc
     | Some f =>
         if jm_has (frag_name f) (fragments doc) then
           _ ← push_error (fun _ => DuplicateFragment (frag_name f)); mret doc
         else mret {| operations := operations doc;
                      fragments := jm_set (frag_name f) f (fragments doc) |}
     end)
    (op ← parseOperation fuel;
     mret {| operations := operations doc ++ present [op]; fragments := fragments doc |}).

Fixpoint parseDefinitions (fuel : nat) (doc : GraphQLDocument) : M GraphQLDocument :=
  when (fun s => negb (at_type EOF s))
    match fuel with
    | O => out_of_fuel
    | S fuel => doc ← parseDefinition fuel doc; parseDefinitions fuel doc
    end
    (mret doc).

(** ** Depth *)

Inductive depth : Type := Fin (n : nat) | Infinity.

Definition max_depth (a b : depth) : depth :=
  match a, b with Fin n, Fin m => Fin (Nat.max n m) | _, _ => Infinity end.

(** The loop of [selectionSetDepth]; [rec] is the recursive call. *)
Fixpoint depth_loop (frs : Fragments)
    (rec : GraphQLSelectionSet -> nat -> list text -> option depth)
    (current : nat) (visited : list text) (sels : GraphQLSelectionSet) (max : depth)
    : option depth :=
  match sels with
  | [] => Some max
  | FragmentSpread name :: sels =>
      if bool_decide (name ∈ visited) then Some Infinity
      else match jm_get name frs with
           | None => depth_loop frs rec current visited sels max
           | Some f =>
               d ← rec (frag_set f) current (name :: visited);
               depth_loop frs rec current visited sels (max_depth max d)
           end
  | InlineFragment _ sub :: sels =>
      d ← rec sub (S current) visited;
      depth_loop frs rec current visited sels (max_depth max d)
  | Field _ _ _ _ sub :: sels =>
      let max := max_depth max (Fin (S current)) in
      match sub with
      | None => depth_loop frs rec current visited sels max
      | Some sub =>
          d ← rec sub (S current) visited;
          depth_loop frs rec current visited sels (max_depth max d)
      end
  end.

Fixpoint selectionSetDepth (fuel : nat) (frs : Fragments) (sels : GraphQLSelectionSet)
    (current : nat) (visited : list text) : option depth :=
  match fuel with
  | O => None
  | S fuel =>
      depth_loop frs (selectionSetDepth fuel frs) current visited sels (Fin current)
  end.

(** Nesting of selection sets, fragments not expanded: what bounds the
    recursion. *)
Fixpoint selection_height (sel : GraphQLSelection) : nat :=
  let sub_height sub := S (list_max (map selection_height sub)) in
  match sel with
  | Field _ _ _ _ (Some sub) => sub_height sub
  | InlineFragment _ sub => sub_height sub
  | _ => 0
  end.

Definition set_height (sels : GraphQLSelectionSet) : nat := list_max (map selection_height sels).

Definition fragment_height (p : text * GraphQLFragmentDefinition) : nat :=
  S (set_height (frag_set (snd p))).

Definition depth_fuel (frs : Fragments) (sels : GraphQLSelectionSet) : nat :=
  S (set_height sels + list_sum (map fragment_height frs)).

Definition exceeds (d : depth) : bool :=
  match d with Fin n => (maxDepth <? Z.of_nat n)%Z | Infinity => true end.

Definition limit_error (m : parse_message) : ParseError :=
  {| message := m; err_line := 1; err_column := 1 |}.

(** The loop over the operations: the first one that is too deep. *)
Fixpoint check_depth (frs : Fragments) (ops : list GraphQLOperationDefinition)
    : option (option ParseError) :=
  match ops with
  | [] => Some None
  | op :: ops =>
      d ← selectionSetDepth (depth_fuel frs (op_set op)) frs (op_set op) 0 [];
      if exceeds d then
        Some (Some (limit_error (match d with
                                 | Infinity => FragmentCycle
                                 | Fin n => TooDeep maxDepth n
                                 end)))
      else check_depth frs ops
  end.

Inductive ParseResult : Type :=
| Parsed (document : GraphQLDocument)
| Failed (errs : list ParseError).

Definition parse_fuel (ts : list Token) : nat := S (S (length ts)).

Definition parse_tokens (ts : list Token) (eof : nat * nat) : option ParseResult :=
  let s := {| toks := ts; eof_at := eof; errors := []; aliasCount := 0 |} in
  '(doc, s) ← parseDefinitions (parse_fuel ts) {| operations := []; fragments := [] |} s;
  match errors s with
  | [] =>
      e ← check_depth (fragments doc) (operations doc);
      Some match e with None => Parsed doc | Some e => Failed [e] end
  | errs => Some (Failed errs)
  end.

Definition parse (source : text) : option ParseResult :=
  '(ts, eof) ← lex source; parse_tokens ts (tline eof, tcolumn eof).
End Limits.

Record ParseOptions : Type := { opt_maxDepth : option Z; opt_maxAliases : option Z }.

Definition parseDocument (source : text) (options : ParseOptions) : option ParseResult :=
  parse (default 5%Z (opt_maxDepth options)) (default 50%Z (opt_maxAliases options)) source.
