(* ===== verification/GraphqlLimits.v ===== *)
(** * GraphQL: termination and limits

    The parser of [GraphqlParser.v] gives a result for every source, and a
    document it accepts respects the limits on depth and aliases. *)

From S2P Require Import Prelude JsString GraphqlLexer GraphqlParser.

(** ** Termination: how many tokens a parser consumes

    [runs n m]: on fewer than [n] tokens [m] gives a result and does not add
    tokens; [eats n m]: if there is a token, it consumes one at least. *)

Definition len (s : Parser) : nat := length (toks s).

Definition runs {A} (n : nat) (m : M A) : Prop := forall s, len s < n ->
  exists x s', m s = Some (x, s') /\ len s' <= len s.

Definition eats {A} (n : nat) (m : M A) : Prop := forall s, len s < n -> toks s <> [] ->
  exists x s', m s = Some (x, s') /\ len s' < len s.

Lemma bind_run {A B} (m : M A) (f : A -> M B) s x s' :
  m s = Some (x, s') -> (m ≫= f) s = f x s'.
Proof. intros E. unfold mbind, M_bind. by rewrite E. Qed.

(** Tests that fail at the end of the source. *)
Definition live (test : Parser -> bool) : Prop := forall s, test s = true -> toks s <> [].

Section Combinators.
Context {A B : Type}.
Implicit Types (m : M A) (f : A -> M B).

Lemma runs_ret n (x : A) : runs n (mret x).
Proof. intros s _. by exists x, s. Qed.

Lemma runs_bind n m f : runs n m -> (forall x, runs n (f x)) -> runs n (m ≫= f).
Proof.
  intros Hm Hf s Hs. destruct (Hm s Hs) as (x & s1 & E & Hl).
  destruct (Hf x s1) as (y & s2 & E2 & Hl2); [lia|].
  exists y, s2. rewrite (bind_run _ _ _ _ _ E). split; [done | lia].
Qed.

Lemma eats_bind n m f : eats n m -> (forall x, runs n (f x)) -> eats n (m ≫= f).
Proof.
  intros Hm Hf s Hs Hne. destruct (Hm s Hs Hne) as (x & s1 & E & Hl).
  destruct (Hf x s1) as (y & s2 & E2 & Hl2); [lia|].
  exists y, s2. rewrite (bind_run _ _ _ _ _ E). split; [done | lia].
Qed.

(** After a consumed token one unit of fuel less is enough. *)
Lemma eats_then n m f : eats (S n) m -> (forall x, runs n (f x)) -> eats (S n) (m ≫= f).
Proof.
  intros Hm Hf s Hs Hne. destruct (Hm s Hs Hne) as (x & s1 & E & Hl).
  destruct (Hf x s1) as (y & s2 & E2 & Hl2); [lia|].
  exists y, s2. rewrite (bind_run _ _ _ _ _ E). split; [done | lia].
Qed.

Lemma runs_when n test m1 m2 : runs n m1 -> runs n m2 -> runs n (when test m1 m2).
Proof. intros H1 H2 s Hs. unfold when. destruct (test s); auto. Qed.

Lemma eats_when n test m1 m2 : eats n m1 -> eats n m2 -> eats n (when test m1 m2).
Proof. intros H1 H2 s Hs Hne. unfold when. destruct (test s); auto. Qed.

(** A branch taken only when there is a token. *)
Lemma runs_when_live n test m1 m2 :
  live test -> eats n m1 -> runs n m2 -> runs n (when test m1 m2).
Proof.
  intros Hl H1 H2 s Hs. unfold when. destruct (test s) eqn:E; [|auto].
  destruct (H1 s Hs (Hl s E)) as (x & s' & ? & ?). exists x, s'. split; [done | lia].
Qed.

Lemma runs_mono n n' m : n' <= n -> runs n m -> runs n' m.
Proof. intros Hn Hm s Hs. apply Hm. lia. Qed.

Lemma loop_runs n fuel test m : live test -> n <= S fuel -> eats n m -> runs n (loop fuel test m).
Proof.
  intros Hl Hn Hm s Hs. revert s Hs. assert (H : forall fuel s, len s < n -> len s <= fuel ->
    exists x s', loop fuel test m s = Some (x, s') /\ len s' <= len s).
  { clear Hn fuel. intros fuel; induction fuel as [|fuel IH]; intros s Hs Hf;
      cbn [loop]; unfold when; (destruct (test s) eqn:E; [|by exists [], s]).
    - destruct (Hl s E). unfold len in Hf. by destruct (toks s); [|cbn in Hf; lia].
    - destruct (Hm s Hs (Hl s E)) as (x & s1 & E1 & Hl1).
      destruct (IH s1) as (xs & s2 & E2 & Hl2); [lia..|].
      exists (x :: xs), s2. rewrite (bind_run _ _ _ _ _ E1), (bind_run _ _ _ _ _ E2). split; [done | lia]. }
  intros s Hs. apply H; lia.
Qed.
End Combinators.

Lemma eats_advance n : eats n advance.
Proof.
  intros s _ Hne. eexists _, _. split; [reflexivity|]. unfold len. cbn.
  destruct (toks s); cbn; [done | lia].
Qed.

Lemma runs_advance n : runs n advance.
Proof.
  intros s _. eexists _, _. split; [reflexivity|]. unfold len. cbn.
  destruct (toks s); cbn; lia.
Qed.

Lemma runs_push n m : runs n (push_error m).
Proof. intros s _. by eexists _, _. Qed.

Lemma eats_push_then {A} n m (k : M A) : eats n k -> eats n (_ ← push_error m; k).
Proof.
  intros Hk s Hs Hne. rewrite (bind_run (push_error m) (fun _ => k) s tt _ eq_refl).
  match goal with |- context [k ?s'] => exact (Hk s' Hs Hne) end.
Qed.

Lemma eats_expect n t v : eats n (expect t v).
Proof. apply eats_when; [apply eats_push_then|]; apply eats_advance. Qed.

Lemma runs_expect n t v : runs n (expect t v).
Proof. apply runs_when; [apply runs_bind; [apply runs_push | intros _] | ]; apply runs_advance. Qed.

Lemma runs_skip_args n : runs n skip_args.
Proof.
  intros s _. eexists _, _. split; [reflexivity|]. unfold len. cbn.
  assert (H : forall ts d, length (skip_directive_args d ts) <= length ts); [|apply H].
  intros ts; induction ts as [|t ts IH]; intros [|d]; cbn [skip_directive_args length]; try lia.
  etrans; [apply IH | lia].
Qed.

Lemma live_inside close : live (inside close).
Proof. intros s H E. unfold inside, at_type, ct, current in H. rewrite E in H. by destruct (at_value _ _). Qed.

Lemma live_value v : v <> EmptyString -> live (at_value v).
Proof.
  intros Hv s H E. unfold at_value, cv, current in H. rewrite E in H. cbn in H.
  destruct v; [done|]. by apply bool_decide_eq_true in H.
Qed.

#[local] Hint Resolve runs_ret runs_advance eats_advance runs_push runs_expect eats_expect
  runs_skip_args live_inside : core.
#[local] Hint Extern 1 (live (at_value _)) => (by apply live_value) : core.

(** Structural steps over the parser's combinators. *)
Ltac step_runs := repeat first
  [ progress auto
  | apply runs_bind; [|intros ?]
  | apply runs_when
  | match goal with |- runs _ (let '(_, _) := ?p in _) => destruct p end
  | match goal with |- runs _ (if ?b then _ else _) => destruct b end
  | match goal with |- runs _ match ?o with _ => _ end => destruct o end ].

Lemma current_end s :
  toks s = [] ->
  current s = {| ttype := EOF; tvalue := []; tline := fst (eof_at s); tcolumn := snd (eof_at s) |}.
Proof. unfold current. by intros ->. Qed.

Lemma parseValue_runs n : runs n (parseValue n) /\ eats n (parseValue n).
Proof.
  induction n as [|n [IHr IHe]]; [split; intros s Hs; lia|].
  assert (He : eats (S n) (parseValue (S n))).
  { intros s Hs Hne. cbn [parseValue].
    change (peek ≫= ?f) with (fun s => f (current s) s). cbv beta.
    revert s Hs Hne. intros s.
    assert (H : forall (m : M GraphQLValue), eats (S n) m -> len s < S n -> toks s <> [] ->
      exists x s', m s = Some (x, s') /\ len s' < len s) by auto.
    repeat case_match; apply H;
      first [ apply eats_push_then | idtac ];
      (apply eats_then; [apply eats_advance|intros ?]); step_runs.
    all: apply loop_runs; auto.
    all: apply eats_bind; [auto | intros ?]; step_runs. }
  split; [|done]. intros s Hs. destruct (toks s) eqn:E.
  - cbn [parseValue]. change (peek ≫= ?f) with (fun s => f (current s) s). cbv beta.
    rewrite (current_end s E). eexists _, _. split; [reflexivity|].
    unfold len. cbn. rewrite E. done.
  - destruct (He s Hs) as (x & s' & ? & ?); [by rewrite E|]. exists x, s'. split; [done|lia].
Qed.

#[local] Hint Extern 1 (runs _ (parseValue _)) => apply parseValue_runs : core.
#[local] Hint Extern 1 (eats _ (parseValue _)) => apply parseValue_runs : core.

Lemma parseArguments_runs n : runs n (parseArguments n).
Proof.
  apply runs_when; [|auto]. apply runs_bind; [auto|intros _]. apply runs_bind; [|intros; step_runs].
  apply loop_runs; auto. apply eats_bind; [auto|intros]. step_runs.
Qed.

Lemma parseTypeRef_runs n : runs n parseTypeRef.
Proof. unfold parseTypeRef. step_runs. Qed.

Lemma parseDirective_eats n : eats n parseDirective.
Proof. apply eats_bind; [auto|intros]. step_runs. Qed.

#[local] Hint Resolve parseArguments_runs parseTypeRef_runs parseDirective_eats : core.

Section Parsers.
Context (maxAliases : Z).

Lemma field_rest_runs n sub alias name :
  runs n sub -> runs n (parse_field_rest n sub alias name).
Proof.
  intros Hsub. unfold parse_field_rest. step_runs. apply loop_runs; auto.
Qed.

Lemma count_alias_runs n : runs n (count_alias maxAliases).
Proof. intros s _. by eexists _, _. Qed.

#[local] Hint Resolve field_rest_runs count_alias_runs : core.

Lemma parseField_eats n sub : runs n sub -> eats n (parseField maxAliases n sub).
Proof.
  intros Hsub. apply eats_when.
  - apply eats_push_then, eats_bind; [auto|intros; step_runs].
  - apply eats_bind; [auto|intros]. step_runs.
Qed.

Lemma parseSelection_eats n sub : runs n sub -> eats n (parseSelection maxAliases n sub).
Proof.
  intros Hsub. apply eats_when; [|by apply parseField_eats].
  apply eats_bind; [auto|intros]. step_runs.
Qed.

(** A selection set consumes its brace; without one nothing is consumed. *)
Lemma parseSelectionSet_spec n s :
  len s < n ->
  exists x s', parseSelectionSet maxAliases n s = Some (x, s') /\ len s' <= len s /\
    (at_value "{" s = true -> len s' < len s).
Proof.
  revert s; induction n as [|n IH]; intros s Hs; [lia|]. cbn [parseSelectionSet].
  unfold when. destruct (at_value "{" s) eqn:E; cbn [negb]; [|by eexists _, _].
  assert (Hne : toks s <> []) by by apply (live_value "{").
  assert (Hsub : runs n (parseSelectionSet maxAliases n)).
  { intros s1 Hs1. destruct (IH s1 Hs1) as (x & s2 & ? & ? & _). by exists x, s2. }
  match goal with |- exists x s', ?m s = _ /\ _ => assert (He : eats (S n) m) end.
  { apply eats_then; [auto|intros _]. apply runs_bind; [|intros; step_runs].
    apply loop_runs; auto. by apply parseSelection_eats. }
  destruct (He s Hs Hne) as (x & s' & ? & ?). exists x, s'. split_and!; [done | lia | done].
Qed.

Lemma parseSelectionSet_runs n : runs n (parseSelectionSet maxAliases n).
Proof.
  intros s Hs. destruct (parseSelectionSet_spec n s Hs) as (x & s' & ? & ? & _). by exists x, s'.
Qed.

#[local] Hint Resolve parseSelectionSet_runs : core.

Lemma parseVariableDefinition_eats n : eats n (parseVariableDefinition n).
Proof.
  apply eats_when; [apply eats_push_then|]; (apply eats_bind; [auto|intros]); step_runs.
Qed.

Lemma operation_rest_runs n kind name : runs n (parse_operation_rest maxAliases n kind name).
Proof.
  unfold parse_operation_rest. step_runs.
  apply loop_runs; auto using parseVariableDefinition_eats.
Qed.

Lemma parseFragmentDefinition_eats n : eats n (parseFragmentDefinition maxAliases n).
Proof. apply eats_bind; [auto|intros]. step_runs. Qed.

#[local] Hint Resolve operation_rest_runs parseFragmentDefinition_eats : core.

Lemma parseOperation_eats n : eats n (parseOperation maxAliases n).
Proof.
  intros s Hs Hne. unfold parseOperation. rewrite (bind_run peek _ s (current s) s eq_refl).
  assert (Hm : forall m : M (option GraphQLOperationDefinition), eats n m ->
    exists x s', m s = Some (x, s') /\ len s' < len s) by auto.
  destruct (kind_of _).
  - apply Hm, eats_bind; [auto|intros]. step_runs.
  - destruct (tvalue (current s) =t u "{") eqn:E.
    + assert (Hp : at_value "(" s = false).
      { unfold at_value, cv. apply bool_decide_eq_true in E. by rewrite E. }
      unfold parse_operation_rest. erewrite bind_run; [|unfold when; by rewrite Hp].
      destruct (parseSelectionSet_spec n s Hs) as (x & s' & Ex & _ & Hl).
      rewrite (bind_run _ _ _ _ _ Ex). eexists _, _. split; [reflexivity | auto].
    + apply Hm, eats_push_then, eats_bind; [auto|intros; step_runs].
Qed.

Lemma parseDefinition_eats n doc : eats n (parseDefinition maxAliases n doc).
Proof.
  apply eats_when; (apply eats_bind; [auto using parseOperation_eats|intros]); step_runs.
Qed.

Lemma parseDefinitions_total fuel doc s :
  S (len s) < fuel -> is_Some (parseDefinitions maxAliases fuel doc s).
Proof.
  revert doc s; induction fuel as [|fuel IH]; intros doc s Hs; [lia|]. cbn [parseDefinitions].
  unfold when. destruct (at_type EOF s) eqn:E; cbn [negb]; [by eexists|].
  assert (Hne : toks s <> []).
  { intros Ht. unfold at_type, ct, current in E. by rewrite Ht in E. }
  destruct (parseDefinition_eats fuel doc s) as (doc' & s' & E' & Hl); [lia|done|].
  rewrite (bind_run _ _ _ _ _ E'). apply IH. lia.
Qed.
End Parsers.

(** ** Termination of the depth computation *)

#[local] Arguments fragment_height : simpl never.

Definition unvisited (visited : list text) (frs : Fragments) : list (text * GraphQLFragmentDefinition) :=
  List.filter (fun p => negb (bool_decide (fst p ∈ visited))) frs.

Definition depth_measure (frs : Fragments) (sels : GraphQLSelectionSet) (visited : list text) : nat :=
  set_height sels + list_sum (map fragment_height (unvisited visited frs)).

Lemma list_max_elem (l : list nat) n : n ∈ l -> n <= list_max l.
Proof.
  intros Hn. pose proof (list_max_le l (list_max l)) as [H _].
  specialize (H (Nat.le_refl _)). rewrite List.Forall_forall in H. by apply H, list_elem_of_In.
Qed.

Lemma unvisited_visit name f frs visited :
  name ∉ visited -> (name, f) ∈ frs ->
  fragment_height (name, f) + list_sum (map fragment_height (unvisited (name :: visited) frs))
  <= list_sum (map fragment_height (unvisited visited frs)).
Proof.
  intros Hv. unfold unvisited, list_sum.
  assert (Hle : forall frs, foldr Nat.add 0 (map fragment_height
      (List.filter (fun p => negb (bool_decide (fst p ∈ name :: visited))) frs))
    <= foldr Nat.add 0 (map fragment_height (List.filter (fun p => negb (bool_decide (fst p ∈ visited))) frs))).
  { intros l. induction l as [|p l IH]; cbn; [lia|].
    destruct (decide (fst p ∈ visited)) as [H|H].
    - rewrite !bool_decide_eq_true_2 by (done || by constructor). done.
    - rewrite (bool_decide_eq_false_2 _ H). cbn. case_bool_decide; cbn; lia. }
  induction frs as [|p frs IH]; [by intros ?%elem_of_nil|]. rewrite elem_of_cons. cbn.
  intros [<-|Hin].
  - rewrite (bool_decide_eq_true_2 (name ∈ name :: visited)) by constructor.
    rewrite (bool_decide_eq_false_2 (name ∈ visited)) by done. cbn. specialize (Hle frs). lia.
  - specialize (IH Hin). destruct (decide (fst p ∈ visited)) as [H|H].
    + rewrite !bool_decide_eq_true_2 by (done || by constructor). done.
    + rewrite (bool_decide_eq_false_2 _ H). cbn. case_bool_decide; cbn; lia.
Qed.

Lemma sub_height sub sel sels :
  sel ∈ sels ->
  match sel with
  | Field _ _ _ _ (Some sub') | InlineFragment _ sub' => sub = sub'
  | _ => False
  end -> set_height sub < set_height sels.
Proof.
  intros Hin Hsub. unfold set_height at 2.
  pose proof (list_max_elem (map selection_height sels) (selection_height sel)) as H.
  assert (selection_height sel = S (set_height sub)).
  { destruct sel as [? ? ? ? [?|]| |]; cbn; [by subst | done | by subst | done]. }
  rewrite list_elem_of_fmap in H. assert (selection_height sel <= list_max (map selection_height sels))
    by (apply H; by exists sel). lia.
Qed.

Lemma selectionSetDepth_total fuel frs sels current visited :
  depth_measure frs sels visited < fuel ->
  is_Some (selectionSetDepth fuel frs sels current visited).
Proof.
  revert sels current visited; induction fuel as [|fuel IH]; intros sels cur visited Hf; [lia|].
  cbn [selectionSetDepth]. generalize (Fin cur) as max.
  assert (Hin : forall sel, sel ∈ sels -> sel ∈ sels) by auto. revert Hin.
  generalize sels at 1 3. intros l; induction l as [|sel l IHl]; intros Hl max; [by eexists|].
  assert (Hl' : forall sel, sel ∈ l -> sel ∈ sels) by (intros; apply Hl; by constructor).
  specialize (IHl Hl'). pose proof (Hl sel (list_elem_of_here _ _)) as Hsel.
  assert (Hrec : forall sub c, set_height sub < set_height sels ->
    is_Some (selectionSetDepth fuel frs sub c visited)).
  { intros sub c Hh. apply IH. unfold depth_measure in *. lia. }
  destruct sel as [al nm ar ds [sub|]|cond sub|name]; cbn [depth_loop].
  - destruct (Hrec sub (S cur)) as [d ->]; [by apply (sub_height _ _ _ Hsel)|]. apply IHl.
  - apply IHl.
  - destruct (Hrec sub (S cur)) as [d ->]; [by apply (sub_height _ _ _ Hsel)|]. apply IHl.
  - case_bool_decide as Hv; [by eexists|].
    destruct (jm_get name frs) as [f|] eqn:Ef; [|apply IHl].
    destruct (IH (frag_set f) cur (name :: visited)) as [d ->]; [|apply IHl].
    pose proof (unvisited_visit name f frs visited Hv (jm_get_elem_of _ _ _ Ef)) as Hu.
    unfold depth_measure, fragment_height in *. cbn [snd] in *. lia.
Qed.

Lemma unvisited_nil frs : unvisited [] frs = frs.
Proof.
  unfold unvisited. induction frs as [|p frs IH]; cbn; [done|].
  rewrite bool_decide_eq_false_2 by apply not_elem_of_nil. cbn. by rewrite IH.
Qed.

Lemma check_depth_total maxDepth frs ops : is_Some (check_depth maxDepth frs ops).
Proof.
  induction ops as [|op ops IH]; cbn [check_depth]; [by eexists|].
  destruct (selectionSetDepth_total (depth_fuel frs (op_set op)) frs (op_set op) 0 []) as [d ->].
  - unfold depth_measure, depth_fuel. rewrite unvisited_nil. lia.
  - cbn. destruct (exceeds _ _); [by eexists | done].
Qed.

(** ** The depth limit *)

(** [reach frs current sels d]: after expanding fragments, the set [sels]
    standing at depth [current] has a field or an inline fragment at depth
    [d]. *)
Inductive reach (frs : Fragments) : nat -> GraphQLSelectionSet -> nat -> Prop :=
| reach_field current sels alias name args directives sub :
    Field alias name args directives sub ∈ sels -> reach frs current sels (S current)
| reach_sub current sels alias name args directives sub d :
    Field alias name args directives (Some sub) ∈ sels ->
    reach frs (S current) sub d -> reach frs current sels d
| reach_inline current sels cond sub :
    InlineFragment cond sub ∈ sels -> reach frs current sels (S current)
| reach_inline_sub current sels cond sub d :
    InlineFragment cond sub ∈ sels -> reach frs (S current) sub d -> reach frs current sels d
| reach_spread current sels name f d :
    FragmentSpread name ∈ sels -> jm_get name frs = Some f ->
    reach frs current (frag_set f) d -> reach frs current sels d.

(** A finite result bounds the running maximum and every recursive call. *)
Lemma depth_loop_bound frs rec cur visited sels max n :
  depth_loop frs rec cur visited sels max = Some (Fin n) ->
  (exists m, max = Fin m /\ m <= n) /\
  forall sel, sel ∈ sels ->
    match sel with
    | Field _ _ _ _ sub =>
        S cur <= n /\
        match sub with
        | Some sub => exists d, rec sub (S cur) visited = Some (Fin d) /\ d <= n
        | None => True
        end
    | InlineFragment _ sub => exists d, rec sub (S cur) visited = Some (Fin d) /\ d <= n
    | FragmentSpread name =>
        forall f, jm_get name frs = Some f ->
          exists d, rec (frag_set f) cur (name :: visited) = Some (Fin d) /\ d <= n
    end.
Proof.
  revert max; induction sels as [|sel sels IH]; intros max; cbn [depth_loop].
  - intros [= ->]. split; [by exists n|]. by intros sel ?%elem_of_nil.
  - assert (Hmax : forall d max', depth_loop frs rec cur visited sels (max_depth max' d) = Some (Fin n) ->
      (exists m, max' = Fin m /\ m <= n) /\ (exists m, d = Fin m /\ m <= n)).
    { intros d max' H. destruct (IH _ H) as [(m & E & Hm) _].
      destruct max' as [m1|], d as [m2|]; cbn in E; try done. injection E as <-.
      split; eexists; split; try done; lia. }
    destruct sel as [al nm ar ds sub|cond sub|name].
    + destruct sub as [sub|].
      * destruct (rec sub (S cur) visited) as [d|] eqn:Er; [|done]. intros H.
        destruct (Hmax _ _ H) as [(m & E & Hm) (d' & -> & Hd)].
        destruct max as [m0|]; [|done]. cbn in E. injection E as <-.
        split; [exists m0; split; [done | lia]|].
        intros sel. rewrite elem_of_cons. intros [->|Hin]; [|by apply (IH _ H)].
        split; [lia|]. by exists d'.
      * intros H. destruct (Hmax _ _ H) as [Hm (d & [= <-] & Hd)]. split; [done|].
        intros sel. rewrite elem_of_cons. intros [->|Hin]; [done | by apply (IH _ H)].
    + destruct (rec sub (S cur) visited) as [d|] eqn:Er; [|done]. intros H.
      destruct (Hmax _ _ H) as [Hm (d' & -> & Hd)]. split; [done|].
      intros sel. rewrite elem_of_cons. intros [->|Hin]; [by exists d' | by apply (IH _ H)].
    + case_bool_decide as Hvis; [done|]. destruct (jm_get name frs) as [f|] eqn:Ef.
      * destruct (rec (frag_set f) cur (name :: visited)) as [d|] eqn:Er; [|done]. intros H.
        destruct (Hmax _ _ H) as [Hm (d' & -> & Hd)]. split; [done|].
        intros sel. rewrite elem_of_cons. intros [->|Hin]; [|by apply (IH _ H)].
        intros f'. rewrite Ef. intros [= <-]. by exists d'.
      * intros H. split; [by apply (IH _ H)|]. intros sel. rewrite elem_of_cons.
        intros [->|Hin]; [by intros f'; rewrite Ef | by apply (IH _ H)].
Qed.

Lemma selectionSetDepth_bound frs cur sels d :
  reach frs cur sels d ->
  forall fuel visited n, selectionSetDepth fuel frs sels cur visited = Some (Fin n) -> d <= n.
Proof.
  induction 1; intros [|fuel] visited n E; try done; cbn [selectionSetDepth] in E;
    apply depth_loop_bound in E as [_ Hall];
    match goal with H : _ ∈ _ |- _ => specialize (Hall _ H); cbn in Hall end.
  - by destruct Hall.
  - destruct Hall as [_ (d' & E & Hd)]. etrans; [by eapply IHreach | done].
  - destruct Hall as (d' & E & Hd). destruct fuel; [done|]. cbn [selectionSetDepth] in E.
    apply depth_loop_bound in E as [(m & [= <-] & Hm) _]. lia.
  - destruct Hall as (d' & E & Hd). etrans; [by eapply IHreach | done].
  - destruct (Hall f) as (d' & E & Hd); [done|]. etrans; [by eapply IHreach | done].
Qed.

Lemma check_depth_bound maxDepth frs ops :
  check_depth maxDepth frs ops = Some None ->
  Forall (fun op => forall d, reach frs 0 (op_set op) d -> (Z.of_nat d <= maxDepth)%Z) ops.
Proof.
  induction ops as [|op ops IH]; cbn [check_depth]; [constructor|].
  destruct (selectionSetDepth _ _ _ _ _) as [dp|] eqn:E; [|done]. cbn.
  destruct dp as [n|]; cbn; [|done]. destruct (Z.ltb_spec maxDepth (Z.of_nat n)); [done|].
  intros H1. constructor; [|auto]. intros d Hd.
  pose proof (selectionSetDepth_bound _ _ _ _ Hd _ _ _ E). lia.
Qed.

(** ** The alias limit *)

Definition Zsum {A} (w : A -> Z) (l : list A) : Z := fold_right (fun x n => (w x + n)%Z) 0%Z l.

Lemma Zsum_app {A} (w : A -> Z) l k : Zsum w (l ++ k) = (Zsum w l + Zsum w k)%Z.
Proof. unfold Zsum. induction l as [|x l IH]; cbn; lia. Qed.

Definition alias_one (alias : option text) : Z := match alias with Some _ => 1 | None => 0 end.

Fixpoint selection_aliases (sel : GraphQLSelection) : Z :=
  match sel with
  | Field alias _ _ _ (Some sub) => alias_one alias + Zsum selection_aliases sub
  | Field alias _ _ _ None => alias_one alias
  | InlineFragment _ sub => Zsum selection_aliases sub
  | FragmentSpread _ => 0
  end.

Definition set_aliases : GraphQLSelectionSet -> Z := Zsum selection_aliases.

Definition document_aliases (doc : GraphQLDocument) : Z :=
  Zsum (fun op => set_aliases (op_set op)) (operations doc)
  + Zsum (fun p => set_aliases (frag_set (snd p))) (fragments doc).

Definition weigh {A} (w : A -> Z) (o : option A) : Z := match o with Some x => w x | None => 0 end.

Section Aliases.
Context (maxAliases : Z).
Local Open Scope Z_scope.

(** [m] only adds errors; a run that ends without errors has counted [w x]
    aliases and kept the count within the limit. *)
Definition counts {A} (w : A -> Z) (m : M A) : Prop := forall s x s', m s = Some (x, s') ->
  (exists es, errors s' = errors s ++ es) /\
  (errors s' = [] ->
     aliasCount s' = aliasCount s + w x /\
     (aliasCount s <= maxAliases -> aliasCount s' <= maxAliases)).

Definition quiet {A} (m : M A) : Prop := counts (fun _ => 0) m.

Lemma counts_ret {A} (w : A -> Z) x : w x = 0 -> counts w (mret x).
Proof. intros Hw s y s' [= <- <-]. split; [by exists []; rewrite app_nil_r | intros _; lia]. Qed.

Lemma bind_inv {A B} (m : M A) (f : A -> M B) s y s' :
  (m ≫= f) s = Some (y, s') -> exists x s1, m s = Some (x, s1) /\ f x s1 = Some (y, s').
Proof. unfold mbind, M_bind. destruct (m s) as [[x s1]|]; [eauto | done]. Qed.

Lemma counts_bind {A B} (v : A -> Z) (w : B -> Z) (m : M A) (f : A -> M B) :
  counts v m -> (forall x, counts (fun y => w y - v x) (f x)) -> counts w (m ≫= f).
Proof.
  intros Hm Hf s y s' (x & s1 & E1 & E2)%bind_inv.
  destruct (Hm _ _ _ E1) as [[es1 He1] Hc1]. destruct (Hf _ _ _ _ E2) as [[es2 He2] Hc2].
  split; [exists (es1 ++ es2); by rewrite He2, He1, app_assoc|]. intros Hnil.
  assert (H1 : errors s1 = []) by (rewrite He2 in Hnil; apply app_eq_nil in Hnil; tauto).
  specialize (Hc1 H1). specialize (Hc2 Hnil). lia.
Qed.

Lemma counts_after {A B} (w : B -> Z) (m : M A) (f : A -> M B) :
  quiet m -> (forall x, counts w (f x)) -> counts w (m ≫= f).
Proof.
  intros Hm Hf. apply (counts_bind (fun _ => 0)); [done|].
  intros x s y s' E. destruct (Hf _ _ _ _ E) as [He Hc]. split; [done|].
  intros Hnil. specialize (Hc Hnil). lia.
Qed.

Lemma counts_when {A} (w : A -> Z) test m1 m2 :
  counts w m1 -> counts w m2 -> counts w (when test m1 m2).
Proof. intros H1 H2 s. unfold when. destruct (test s); auto. Qed.

(** A run that records an error is not held to a count. *)
Lemma counts_error {A} (v w : A -> Z) e (f : unit -> M A) :
  counts v (f tt) -> counts w (push_error e ≫= f).
Proof.
  intros Hf s y s' ([] & s1 & [= <-] & E2)%bind_inv.
  destruct (Hf _ _ _ E2) as [[es He] _]. cbn in He. rewrite <- app_assoc in He.
  split; [by eexists|]. intros Hnil. rewrite Hnil in He. by destruct (errors s).
Qed.

Lemma quiet_advance : quiet advance.
Proof. intros s x s' [= <- <-]. split; [by exists []; rewrite app_nil_r | intros _; cbn; lia]. Qed.

Lemma quiet_peek : quiet peek.
Proof. intros s x s' [= <- <-]. split; [by exists []; rewrite app_nil_r | intros _; lia]. Qed.

Lemma quiet_skip_args : quiet skip_args.
Proof. intros s x s' [= <- <-]. split; [by exists []; rewrite app_nil_r | intros _; cbn; lia]. Qed.

Lemma counts_none {A} (w : A -> Z) : counts w out_of_fuel.
Proof. intros s x s'. done. Qed.

Lemma quiet_expect t v : quiet (expect t v).
Proof.
  apply counts_when; [|apply quiet_advance]. apply (counts_error (fun _ => 0)), quiet_advance.
Qed.

Lemma counts_loop {A} (w : A -> Z) fuel test m :
  counts w m -> counts (Zsum w) (loop fuel test m).
Proof.
  intros Hm. induction fuel as [|fuel IH]; cbn [loop]; (apply counts_when; [|by apply counts_ret]).
  - apply counts_none.
  - apply (counts_bind w); [done|]. intros x. apply (counts_bind (Zsum w)).
    + intros s y s' E. destruct (IH _ _ _ E) as [He Hc]. split; [done | exact Hc].
    + intros xs. apply counts_ret. unfold Zsum. cbn. lia.
Qed.

Lemma quiet_loop {A} fuel test (m : M A) : quiet m -> quiet (loop fuel test m).
Proof.
  intros Hm. assert (H0 : forall l : list A, Zsum (fun _ => 0) l = 0)
    by (intros l; unfold Zsum; induction l; cbn; lia).
  intros s x s' E. destruct (counts_loop _ _ _ _ Hm _ _ _ E) as [He Hc]. split; [done|].
  rewrite H0 in Hc. exact Hc.
Qed.

#[local] Hint Resolve quiet_advance quiet_peek quiet_skip_args quiet_expect counts_none : core.
#[local] Hint Extern 1 (counts _ (mret _)) => (apply counts_ret; done) : core.
#[local] Hint Extern 1 (quiet (mret _)) => (apply counts_ret; done) : core.

Ltac step_counts := repeat first
  [ progress auto
  | match goal with |- counts (fun _ => 0) ?m => solve [change (quiet m); auto] end
  | apply (counts_error (fun _ => 0))
  | apply counts_after; [|intros ?]
  | apply counts_when
  | apply quiet_loop
  | match goal with |- counts _ (let '(_, _) := ?p in _) => destruct p end
  | match goal with |- counts _ (if ?b then _ else _) => destruct b end
  | match goal with |- counts _ match ?o with _ => _ end => destruct o end ].

Lemma quiet_parseValue n : quiet (parseValue n).
Proof. induction n as [|n IH]; cbn [parseValue]; unfold quiet in *; step_counts. Qed.

#[local] Hint Resolve quiet_parseValue : core.

Lemma quiet_parseArguments n : quiet (parseArguments n).
Proof. unfold quiet, parseArguments, parseArgument. step_counts. Qed.

Lemma quiet_directive : quiet parseDirective.
Proof. unfold quiet, parseDirective. step_counts. Qed.

Lemma quiet_variable n : quiet (parseVariableDefinition n).
Proof. unfold quiet, parseVariableDefinition, parseTypeRef. step_counts. Qed.

#[local] Hint Resolve quiet_parseArguments quiet_directive quiet_variable : core.

Lemma counts_option {A B} (v : A -> Z) (w : B -> Z) (m : M (option A)) (g : option A -> B) :
  counts (weigh v) m -> (forall o, w (g o) = weigh v o) -> counts w (x ← m; mret (g x)).
Proof.
  intros Hm Hg. apply (counts_bind (weigh v)); [done|]. intros x. apply counts_ret.
  rewrite Hg. lia.
Qed.

Lemma counts_field_rest n sub alias name :
  counts (weigh set_aliases) sub ->
  counts (fun o => weigh selection_aliases o - alias_one alias) (parse_field_rest n sub alias name).
Proof.
  intros Hsub. unfold parse_field_rest. apply counts_after; [apply quiet_parseArguments|intros args].
  apply counts_after; [apply quiet_loop, quiet_directive | intros directives].
  apply (counts_bind (weigh set_aliases)).
  - apply counts_when; [done|]. by apply counts_ret.
  - intros [sels|]; apply counts_ret; cbn; [unfold set_aliases|]; lia.
Qed.

Lemma counts_parseField n sub :
  counts (weigh set_aliases) sub -> counts (weigh selection_aliases) (parseField maxAliases n sub).
Proof.
  intros Hsub. apply counts_when; [step_counts|].
  apply counts_after; [auto|intros first]. apply counts_when.
  - apply counts_after; [auto|intros _]. apply counts_after; [auto|intros name].
    intros s y s' (ok & s1 & [= <- <-] & E2)%bind_inv. cbn [aliasCount errors] in *.
    destruct (Z.leb_spec (aliasCount s + 1) maxAliases) as [Hle|Hgt].
    + destruct (counts_field_rest n sub (Some (tvalue first)) (tvalue name) Hsub _ _ _ E2) as [He Hc].
      cbn in *. split; [done|]. intros Hnil. specialize (Hc Hnil). lia.
    + apply bind_inv in E2 as ([] & s2 & [= <-] & [= <- <-]). cbn.
      split; [by eexists|]. intros Hnil. by destruct (errors s).
  - intros s x s' E. destruct (counts_field_rest n sub None _ Hsub _ _ _ E) as [He Hc].
    split; [done|]. intros Hnil. specialize (Hc Hnil). cbn in Hc. lia.
Qed.

Lemma counts_parseSelection n sub :
  counts (weigh set_aliases) sub -> counts (weigh selection_aliases) (parseSelection maxAliases n sub).
Proof.
  intros Hsub. apply counts_when; [|by apply counts_parseField].
  apply counts_after; [auto|intros _]. apply counts_when.
  - apply counts_after; [auto|intros _]. apply counts_after; [auto|intros cond].
    by apply (counts_option set_aliases); [|intros [sels|]].
  - apply counts_when; [step_counts|]. by apply (counts_option set_aliases); [|intros [sels|]].
Qed.

Lemma Zsum_present {A} (w : A -> Z) l : Zsum w (present l) = Zsum (weigh w) l.
Proof. unfold present, Zsum. induction l as [|[x|] l IH]; cbn in *; [done | by rewrite IH | by rewrite IH]. Qed.

Lemma counts_parseSelectionSet n : counts (weigh set_aliases) (parseSelectionSet maxAliases n).
Proof.
  induction n as [|n IH]; cbn [parseSelectionSet]; [apply counts_none|].
  apply counts_when; [step_counts|]. apply counts_after; [auto|intros _].
  apply (counts_bind (Zsum (weigh selection_aliases))); [by apply counts_loop, counts_parseSelection|].
  intros sels. apply counts_after; [auto|intros _]. apply counts_ret. cbn.
  unfold set_aliases. rewrite Zsum_present. lia.
Qed.

Lemma counts_operation_rest n kind name :
  counts (weigh (fun op => set_aliases (op_set op))) (parse_operation_rest maxAliases n kind name).
Proof.
  unfold parse_operation_rest. apply counts_after; [unfold quiet; step_counts|intros vars].
  apply (counts_option set_aliases); [apply counts_parseSelectionSet | by intros [sels|]].
Qed.

Lemma counts_parseOperation n :
  counts (weigh (fun op => set_aliases (op_set op))) (parseOperation maxAliases n).
Proof.
  unfold parseOperation. apply counts_after; [auto|intros tok].
  destruct (kind_of _).
  - apply counts_after; [auto|intros _]. apply counts_after; [unfold quiet; step_counts|intros nm].
    apply counts_operation_rest.
  - destruct (_ =t _); [apply counts_operation_rest | step_counts].
Qed.

Lemma counts_parseFragment n :
  counts (weigh (fun f => set_aliases (frag_set f))) (parseFragmentDefinition maxAliases n).
Proof.
  unfold parseFragmentDefinition. do 4 (apply counts_after; [auto|intros ?]).
  apply (counts_option set_aliases); [apply counts_parseSelectionSet | by intros [sels|]].
Qed.

Lemma counts_parseDefinition n doc :
  counts (fun doc' => document_aliases doc' - document_aliases doc) (parseDefinition maxAliases n doc).
Proof.
  apply counts_when.
  - apply (counts_bind _ _ _ _ (counts_parseFragment n)). intros [f|].
    + destruct (jm_has (frag_name f) (fragments doc)) eqn:E.
      * apply (counts_error (fun _ => 0)). by apply counts_ret.
      * apply counts_ret. unfold document_aliases. cbn [operations fragments weigh].
        rewrite jm_keys_set_new by by apply jm_has_false. rewrite Zsum_app. unfold Zsum. cbn. lia.
    + apply counts_ret. cbn. lia.
  - apply (counts_bind _ _ _ _ (counts_parseOperation n)). intros [op|]; apply counts_ret;
      unfold document_aliases; cbn [operations fragments weigh present omap list_omap];
      rewrite ?app_nil_r, ?Zsum_app; unfold Zsum; cbn; lia.
Qed.

Lemma counts_parseDefinitions n doc :
  counts (fun doc' => document_aliases doc' - document_aliases doc)
    (parseDefinitions maxAliases n doc).
Proof.
  revert doc; induction n as [|n IH]; intros doc; cbn [parseDefinitions];
    (apply counts_when; [|apply counts_ret; lia]); [apply counts_none|].
  apply (counts_bind _ _ _ _ (counts_parseDefinition n doc)). intros doc1 s x s' E.
  destruct (IH _ _ _ _ E) as [He Hc]. split; [done|]. intros Hnil. specialize (Hc Hnil). lia.
Qed.
End Aliases.

(** ** Properties *)

(** The parser terminates. Every source, well formed or not, gives a
    result under every limit: the error recovery never loops, and neither does
    the expansion of cyclic fragments in the depth check. *)
Theorem parse_total source options : is_Some (parseDocument source options).
Proof.
  unfold parseDocument, parse. destruct (lex_total source) as [[ts eof] ->].
  cbn [mbind option_bind]. unfold parse_tokens.
  destruct (parseDefinitions_total (default 50%Z (opt_maxAliases options)) (parse_fuel ts)
    {| operations := []; fragments := [] |}
    {| toks := ts; eof_at := (tline eof, tcolumn eof); errors := []; aliasCount := 0 |})
    as [[doc s] ->]; [unfold len, parse_fuel; cbn; lia|]. cbn [mbind option_bind].
  destruct (errors s); [|by eexists].
  destruct (check_depth_total (default 5%Z (opt_maxDepth options)) (fragments doc) (operations doc))
    as [e ->].
  by eexists.
Qed.

(** What an accepted document cannot do. However its fragments spread
    into each other, expanding an operation never reaches a field or an inline
    fragment deeper than [maxDepth] (so no fragment cycle is reachable), and the
    operations and fragments together have at most [maxAliases] aliases. *)
Theorem parse_limits source options doc :
  parseDocument source options = Some (Parsed doc) ->
  Forall (fun op => forall d, reach (fragments doc) 0 (op_set op) d ->
            (Z.of_nat d <= default 5 (opt_maxDepth options))%Z) (operations doc) /\
  (0 <= default 50 (opt_maxAliases options) ->
   document_aliases doc <= default 50 (opt_maxAliases options))%Z.
Proof.
  unfold parseDocument, parse. destruct (lex source) as [[ts eof]|]; [|done].
  cbn [mbind option_bind]. unfold parse_tokens.
  set (s0 := {| toks := ts; eof_at := _; errors := _; aliasCount := _ |}).
  set (mA := default 50%Z (opt_maxAliases options)). set (doc0 := {| operations := []; fragments := [] |}).
  destruct (parseDefinitions mA (parse_fuel ts) doc0 s0) as [[doc1 s]|] eqn:E; [|done].
  cbn [mbind option_bind]. destruct (errors s) eqn:Ee; [|done].
  destruct (check_depth _ _ _) as [[e|]|] eqn:Ed; [done| |done]. cbn. intros [= <-].
  split; [by apply check_depth_bound|]. intros Hpos.
  destruct (counts_parseDefinitions mA _ _ _ _ _ E) as [_ Hc]. specialize (Hc Ee).
  assert (document_aliases doc0 = 0%Z) by done. subst s0. cbn [aliasCount] in Hc. lia.
Qed.

Definition no_options : ParseOptions := {| opt_maxDepth := None; opt_maxAliases := None |}.

Definition sample_query : text := u "{ me: user { ...F } } fragment F on User { a b { c } }".

Lemma parse_limits_witness :
  exists doc, parseDocument sample_query no_options = Some (Parsed doc) /\
    document_aliases doc = 1%Z /\ (document_aliases doc <= 50)%Z /\
    Forall (fun op => forall d, reach (fragments doc) 0 (op_set op) d -> (Z.of_nat d <= 5)%Z)
      (operations doc).
Proof.
  eexists. split; [vm_compute; reflexivity|]. split; [vm_compute; reflexivity|].
  split.
  - apply (parse_limits sample_query no_options); [vm_compute; reflexivity | done].
  - apply (parse_limits sample_query no_options). vm_compute. reflexivity.
Defined.

Example cycle_rejected :
  parseDocument (u "{ ...A } fragment A on T { ...B } fragment B on T { x ...A }") no_options
  = Some (Failed [{| message := FragmentCycle; err_line := 1; err_column := 1 |}]).
Proof. vm_compute. reflexivity. Qed.

Example depth_rejected :
  parseDocument (u "{ a { b { c { d { e { f } } } } } }") no_options
  = Some (Failed [{| message := TooDeep 5 6; err_line := 1; err_column := 1 |}]).
Proof. vm_compute. reflexivity. Qed.
