(* ===== verification/GraphqlGrammar.v ===== *)
(** * GraphQL: the grammar, and that the parser accepts it

    The productions of GraphQL for the subset the parser supports, as relations
    between tokens and trees, and the completeness of the parser of
    [GraphqlParser.v] with respect to them.  The relations have their own words,
    numbers and objects: of the parser they use the trees alone. *)

From S2P Require Import Prelude JsString JsNumber GraphqlLexer GraphqlParser GraphqlLimits.
From Stdlib Require Import Ascii.

(** ** The grammar *)

(** The text of a name starts with a letter or an underscore. *)
Definition name_start (c : N) : bool :=
  (((65 <=? c) && (c <=? 90)) || (c =? 95) || ((97 <=? c) && (c <=? 122)))%N.

Definition proper (v : text) : Prop :=
  match v with c :: _ => name_start c = true | [] => False end.

Definition is_name (t : Token) : Prop := ttype t = NAME /\ proper (tvalue t).
Definition punct (v : string) (t : Token) : Prop := ttype t = PUNCTUATOR /\ tvalue t = u v.
Definition keyword (v : string) (t : Token) : Prop := ttype t = NAME /\ tvalue t = u v.

(** The first token is not one with the text [v]. *)
Definition not_first (v : string) (ts : list Token) : Prop :=
  match ts with t :: _ => tvalue t <> u v | [] => True end.

(** An integer: a sign and digits, and the number they are. *)
Definition int_text (neg : bool) (ds : list N) : text :=
  (if neg then [45%N] else []) ++ map (fun d => 48 + d)%N ds.

Definition int_number (neg : bool) (ds : list N) : number :=
  let z := fold_left (fun acc d => acc * 10 + Z.of_N d)%Z ds 0%Z in
  if (z =? 0)%Z then S754_zero neg else num_of_Z (if neg then - z else z)%Z.

Definition operation_text (kind : operation_kind) : string :=
  match kind with query => "query" | mutation => "mutation" | subscription => "subscription" end.

(** Values. The lexer gives [$] as a one-character name.  A string that reads
    [$], or [[]] inside a list, is excluded: see [quoted_punctuation].  The fields
    of an object have distinct names, and none is [__proto__]: see
    [proto_field_lost]. *)
Inductive value_tokens : list Token -> GraphQLValue -> Prop :=
| value_variable d n : keyword "$" d -> is_name n -> value_tokens [d; n] (Variable_ (tvalue n))
| value_string t :
    ttype t = STRING -> tvalue t <> u "$" -> value_tokens [t] (StringValue (tvalue t))
| value_int t neg ds :
    ttype t = INT -> tvalue t = int_text neg ds -> ds <> [] -> Forall (fun d => d < 10)%N ds ->
    value_tokens [t] (IntValue (int_number neg ds))
| value_float t :
    ttype t = FLOAT -> tvalue t <> u "$" -> value_tokens [t] (FloatValue (JsNumber.parseFloat (narrow (tvalue t))))
| value_true t : keyword "true" t -> value_tokens [t] (BooleanValue true)
| value_false t : keyword "false" t -> value_tokens [t] (BooleanValue false)
| value_null t : keyword "null" t -> value_tokens [t] NullValue
| value_enum t :
    is_name t -> tvalue t ∉ [u "true"; u "false"; u "null"] ->
    value_tokens [t] (EnumValue (tvalue t))
| value_list l tss vs r :
    punct "[" l -> punct "]" r ->
    Forall2 (fun ts v => value_tokens ts v /\ not_first "]" ts) tss vs ->
    value_tokens (l :: concat tss ++ [r]) (ListValue vs)
| value_object l tss fs r :
    punct "{" l -> punct "}" r ->
    Forall2 (fun ts f => exists k c ts', ts = k :: c :: ts' /\ is_name k /\ punct ":" c /\
               fst f = tvalue k /\ value_tokens ts' (snd f)) tss fs ->
    NoDup (map fst fs) -> u "__proto__" ∉ map fst fs ->
    value_tokens (l :: concat tss ++ [r]) (ObjectValue fs).

Definition argument_tokens (ts : list Token) (a : GraphQLArgument) : Prop :=
  exists k c ts', ts = k :: c :: ts' /\ is_name k /\ punct ":" c /\
    arg_name a = tvalue k /\ value_tokens ts' (arg_value a).

Inductive arguments_tokens : list Token -> list GraphQLArgument -> Prop :=
| no_arguments : arguments_tokens [] []
| some_arguments l tss args r :
    punct "(" l -> punct ")" r -> Forall2 argument_tokens tss args ->
    arguments_tokens (l :: concat tss ++ [r]) args.

(** The arguments of a directive are skipped; they hold no parenthesis. *)
Inductive directive_tokens : list Token -> text -> Prop :=
| directive_plain a n : punct "@" a -> is_name n -> directive_tokens [a; n] (tvalue n)
| directive_args a n l ts r :
    punct "@" a -> is_name n -> punct "(" l -> punct ")" r ->
    Forall (fun t => tvalue t <> u "(" /\ tvalue t <> u ")") ts ->
    directive_tokens (a :: n :: l :: ts ++ [r]) (tvalue n).

Inductive selection_tokens : list Token -> GraphQLSelection -> Prop :=
| sel_field n ta args tds ds ts sub :
    is_name n -> field_tokens ta args tds ds ts sub ->
    selection_tokens (n :: ta ++ concat tds ++ ts) (Field None (tvalue n) args ds sub)
| sel_aliased a c n ta args tds ds ts sub :
    is_name a -> punct ":" c -> is_name n -> field_tokens ta args tds ds ts sub ->
    selection_tokens (a :: c :: n :: ta ++ concat tds ++ ts)
      (Field (Some (tvalue a)) (tvalue n) args ds sub)
| sel_inline d o n ts sub :
    punct "..." d -> keyword "on" o -> is_name n -> set_tokens ts sub ->
    selection_tokens (d :: o :: n :: ts) (InlineFragment (Some (tvalue n)) sub)
| sel_bare d ts sub :
    punct "..." d -> set_tokens ts sub ->
    selection_tokens (d :: ts) (InlineFragment None sub)
| sel_spread d n :
    punct "..." d -> is_name n -> tvalue n <> u "on" ->
    selection_tokens [d; n] (FragmentSpread (tvalue n))
with field_tokens : list Token -> list GraphQLArgument -> list (list Token) -> list text ->
    list Token -> option GraphQLSelectionSet -> Prop :=
| field_leaf ta args tds ds :
    arguments_tokens ta args -> Forall2 directive_tokens tds ds ->
    field_tokens ta args tds ds [] None
| field_node ta args tds ds ts sub :
    arguments_tokens ta args -> Forall2 directive_tokens tds ds -> set_tokens ts sub ->
    field_tokens ta args tds ds ts (Some sub)
with set_tokens : list Token -> GraphQLSelectionSet -> Prop :=
| set_braces l tss sels r :
    punct "{" l -> punct "}" r -> Forall2 selection_tokens tss sels ->
    set_tokens (l :: concat tss ++ [r]) sels.

(** Type references: name, nullable, list. *)
Inductive type_tokens : list Token -> text -> bool -> bool -> Prop :=
| type_named n : is_name n -> type_tokens [n] (tvalue n) true false
| type_required n b : is_name n -> punct "!" b -> type_tokens [n; b] (tvalue n) false false
| type_list l n i r b :
    punct "[" l -> is_name n -> (i = [] \/ exists x, i = [x] /\ punct "!" x) -> punct "]" r ->
    (b = [] \/ exists x, b = [x] /\ punct "!" x) ->
    type_tokens (l :: n :: i ++ r :: b) (tvalue n) (bool_decide (b = [])) true.

Inductive variable_tokens : list Token -> GraphQLVariableDefinition -> Prop :=
| variable_plain d n c tt tn nl il :
    keyword "$" d -> is_name n -> punct ":" c -> type_tokens tt tn nl il ->
    variable_tokens (d :: n :: c :: tt)
      {| var_name := tvalue n; var_type := tn; var_nullable := nl; var_isList := il;
         var_default := None |}
| variable_default d n c tt tn nl il e tv v :
    keyword "$" d -> is_name n -> punct ":" c -> type_tokens tt tn nl il ->
    punct "=" e -> value_tokens tv v ->
    variable_tokens (d :: n :: c :: tt ++ e :: tv)
      {| var_name := tvalue n; var_type := tn; var_nullable := nl; var_isList := il;
         var_default := Some v |}.

Inductive variables_tokens : list Token -> list GraphQLVariableDefinition -> Prop :=
| no_variables : variables_tokens [] []
| some_variables l tss vars r :
    punct "(" l -> punct ")" r -> Forall2 variable_tokens tss vars ->
    variables_tokens (l :: concat tss ++ [r]) vars.

Inductive operation_tokens : list Token -> GraphQLOperationDefinition -> Prop :=
| op_anonymous ts sels :
    set_tokens ts sels ->
    operation_tokens ts
      {| op_kind := query; op_name := None; op_variables := []; op_set := sels |}
| op_keyword k kind n nm tv vars ts sels :
    keyword (operation_text kind) k ->
    (n = [] /\ nm = None \/ exists x, n = [x] /\ is_name x /\ nm = Some (tvalue x)) ->
    variables_tokens tv vars -> set_tokens ts sels ->
    operation_tokens (k :: n ++ tv ++ ts)
      {| op_kind := kind; op_name := nm; op_variables := vars; op_set := sels |}.

Inductive fragment_tokens : list Token -> GraphQLFragmentDefinition -> Prop :=
| fragment_def k n o t ts sels :
    keyword "fragment" k -> is_name n -> keyword "on" o -> is_name t -> set_tokens ts sels ->
    fragment_tokens (k :: n :: o :: t :: ts)
      {| frag_name := tvalue n; frag_type := tvalue t; frag_set := sels |}.

(** A document, from what has been read to what it holds at the end; fragment
    names are distinct. *)
Inductive document_tokens : list Token -> GraphQLDocument -> GraphQLDocument -> Prop :=
| document_end doc : document_tokens [] doc doc
| document_operation ts ts' op doc doc' :
    operation_tokens ts op ->
    document_tokens ts'
      {| operations := operations doc ++ [op]; fragments := fragments doc |} doc' ->
    document_tokens (ts ++ ts') doc doc'
| document_fragment ts ts' f doc doc' :
    fragment_tokens ts f -> jm_has (frag_name f) (fragments doc) = false ->
    document_tokens ts'
      {| operations := operations doc; fragments := jm_set (frag_name f) f (fragments doc) |} doc' ->
    document_tokens (ts ++ ts') doc doc'.

(** ** Running the parser over given tokens *)

(** The parser object after the tokens before [r] and [k] aliases. *)
Definition after (r : list Token) (k : Z) (s : Parser) : Parser :=
  {| toks := r; eof_at := eof_at s; errors := errors s; aliasCount := aliasCount s + k |}.

Lemma after_after r k r' k' s : after r k (after r' k' s) = after r (k' + k) s.
Proof. unfold after. cbn. f_equal. lia. Qed.

Lemma with_toks_after r s : with_toks r s = after r 0 s.
Proof. unfold with_toks, after. f_equal. lia. Qed.

Lemma advance_run t r s : toks s = t :: r -> advance s = Some (t, after r 0 s).
Proof. unfold advance, current. intros ->. cbn. by rewrite with_toks_after. Qed.

Lemma at_value_cons v t r s : toks s = t :: r -> at_value v s = (tvalue t =t u v).
Proof. unfold at_value, cv, current. by intros ->. Qed.

Lemma at_type_cons ty t r s : toks s = t :: r -> at_type ty s = bool_decide (ttype t = ty).
Proof. unfold at_type, ct, current. by intros ->. Qed.

Lemma when_true {A} test (a b : M A) s : test s = true -> when test a b s = a s.
Proof. unfold when. by intros ->. Qed.

Lemma when_false {A} test (a b : M A) s : test s = false -> when test a b s = b s.
Proof. unfold when. by intros ->. Qed.

Lemma proper_ne v w : proper v -> match explode w with c :: _ => name_start (code c) = false | [] => True end ->
  v <> u w.
Proof. intros Hv Hw ->. unfold u in Hv. destruct (explode w); cbn in *; [done | congruence]. Qed.

Lemma expect_type_run ty t r s :
  toks s = t :: r -> ttype t = ty -> expect ty None s = Some (t, after r 0 s).
Proof.
  intros Hs Ht. unfold expect. rewrite when_false; [by apply advance_run|].
  rewrite (at_type_cons _ _ _ _ Hs), bool_decide_eq_true_2 by done. done.
Qed.

Lemma expect_value_run ty v t r s :
  toks s = t :: r -> ttype t = ty -> tvalue t = u v -> expect ty (Some v) s = Some (t, after r 0 s).
Proof.
  intros Hs Ht Hv. unfold expect. rewrite when_false; [by apply advance_run|].
  rewrite (at_type_cons _ _ _ _ Hs), (at_value_cons _ _ _ _ Hs).
  by rewrite !bool_decide_eq_true_2.
Qed.

Lemma expect_name_run t r s : toks s = t :: r -> is_name t -> expect NAME None s = Some (t, after r 0 s).
Proof. intros Hs [Ht _]. by apply expect_type_run. Qed.

Lemma expect_punct_run v t r s :
  toks s = t :: r -> punct v t -> expect PUNCTUATOR (Some v) s = Some (t, after r 0 s).
Proof. intros Hs [Ht Hv]. by apply expect_value_run. Qed.

(** Running a loop over items that follow each other: [follow] is what the
    rest after an item must satisfy. *)
Section Loop.
Context {A : Type} (P : list Token -> A -> Prop) (w : A -> Z) (max : Z).
Context (test : Parser -> bool) (body : M A) (follow : list Token -> Prop) (n : nat).
Context (Hbody : forall ts x r s, P ts x -> toks s = ts ++ r -> follow r -> len s < n ->
  (aliasCount s + w x <= max)%Z -> body s = Some (x, after r (w x) s)).
Context (Hitem : forall ts x, P ts x -> ts <> [] /\
  forall r, follow (ts ++ r) /\ forall s, toks s = ts ++ r -> test s = true).
Context (Hw : forall x, (0 <= w x)%Z).

Lemma Zsum_nonneg l : (0 <= Zsum w l)%Z.
Proof. unfold Zsum. induction l as [|x l IH]; cbn; [lia|]. specialize (Hw x). lia. Qed.

Lemma loop_run tss xs r fuel s :
  Forall2 P tss xs -> follow r -> (forall s, toks s = r -> test s = false) ->
  toks s = concat tss ++ r -> len s < n -> len s <= fuel ->
  (aliasCount s + Zsum w xs <= max)%Z ->
  loop fuel test body s = Some (xs, after r (Zsum w xs) s).
Proof.
  intros H Hr Hend. revert fuel s. induction H as [|ts x tss xs Hx H IH]; intros fuel s Hs Hn Hf Ha.
  - assert (E : loop fuel test body s = Some ([], s)) by
      (destruct fuel; cbn [loop]; by rewrite when_false by by apply Hend).
    rewrite E. f_equal. f_equal. unfold after. destruct s; cbn in *. rewrite Hs. f_equal. lia.
  - destruct (Hitem ts x Hx) as [Hne Hts]. cbn [concat] in Hs. rewrite <- app_assoc in Hs.
    destruct (Hts (concat tss ++ r)) as [_ Htest]. specialize (Htest s Hs).
    assert (Hlen : length (concat tss ++ r) < len s)
      by (unfold len; rewrite Hs, (length_app ts); destruct ts; cbn; [done|lia]).
    destruct fuel as [|fuel]; [lia|]. cbn [loop]. rewrite when_true by done.
    pose proof (Zsum_nonneg xs). change (Zsum w (x :: xs)) with (w x + Zsum w xs)%Z in *.
    rewrite (bind_run body _ s x (after (concat tss ++ r) (w x) s)).
    + rewrite (bind_run _ _ _ xs (after r (Zsum w xs) (after (concat tss ++ r) (w x) s))).
      * by rewrite after_after.
      * apply IH; unfold len in *; cbn in *; try done; lia.
    + apply (Hbody ts); try done; [|lia]. destruct tss as [|ts2 tss]; [done|].
      inversion H as [|? x2 ? ? Hx2]; subst. cbn [concat]. rewrite <- app_assoc.
      by apply (Hitem ts2 x2 Hx2).
Qed.
End Loop.

Lemma run_peek {A} (f : Token -> M A) t r s :
  toks s = t :: r -> (peek ≫= f) s = f t s.
Proof. intros Hs. unfold mbind, M_bind, peek, current. by rewrite Hs. Qed.

Lemma run_advance {A} (f : Token -> M A) t r s :
  toks s = t :: r -> (advance ≫= f) s = f t (after r 0 s).
Proof. intros Hs. by rewrite (bind_run _ _ _ _ _ (advance_run _ _ _ Hs)). Qed.

Lemma run_name {A} (f : Token -> M A) t r s :
  toks s = t :: r -> is_name t -> (expect NAME None ≫= f) s = f t (after r 0 s).
Proof. intros Hs Ht. by rewrite (bind_run _ _ _ _ _ (expect_name_run _ _ _ Hs Ht)). Qed.

Lemma run_punct {A} (f : Token -> M A) v t r s :
  toks s = t :: r -> punct v t -> (expect PUNCTUATOR (Some v) ≫= f) s = f t (after r 0 s).
Proof. intros Hs Ht. by rewrite (bind_run _ _ _ _ _ (expect_punct_run _ _ _ _ Hs Ht)). Qed.

Lemma proper_at_value v t r s :
  toks s = t :: r -> is_name t ->
  match explode v with c :: _ => name_start (code c) = false | [] => True end ->
  at_value v s = false.
Proof.
  intros Hs [_ Ht] Hv. rewrite (at_value_cons _ _ _ _ Hs). apply bool_decide_eq_false_2.
  by apply proper_ne.
Qed.

Lemma text_at_value v v' t r s :
  toks s = t :: r -> tvalue t = u v' -> at_value v s = bool_decide (u v' = u v).
Proof. intros Hs Hv. by rewrite (at_value_cons _ _ _ _ Hs), Hv. Qed.

(** The test of a loop that reads up to [close]. *)
Lemma inside_true close t r s :
  toks s = t :: r -> ttype t <> EOF -> tvalue t <> u close -> inside close s = true.
Proof.
  intros Hs Ht Hv. unfold inside. rewrite (at_value_cons _ _ _ _ Hs), (at_type_cons _ _ _ _ Hs).
  by rewrite !bool_decide_eq_false_2.
Qed.

Lemma inside_false close t r s : toks s = t :: r -> punct close t -> inside close s = false.
Proof.
  intros Hs [_ Hv]. unfold inside. rewrite (at_value_cons _ _ _ _ Hs), Hv.
  by rewrite bool_decide_eq_true_2.
Qed.

Lemma name_not_eof t : is_name t -> ttype t <> EOF.
Proof. intros [-> _]. done. Qed.

Lemma value_first ts v : value_tokens ts v -> exists t r, ts = t :: r /\ ttype t <> EOF.
Proof.
  destruct 1; repeat match goal with
    | H : keyword _ _ |- _ => destruct H | H : punct _ _ |- _ => destruct H
    | H : is_name _ |- _ => destruct H end; eexists _, _; split; try done; congruence.
Qed.

(** Distinct fields are the object's, in their order. *)
Lemma object_of_distinct fs : NoDup (map fst fs) -> u "__proto__" ∉ map fst fs -> object_of fs = fs.
Proof.
  unfold object_of. intros Hnd Hp. assert (H : forall o, NoDup (map fst (o ++ fs)) ->
    fold_left (fun o '(k, v) => if k =t u "__proto__" then o else jm_set k v o) fs o = o ++ fs); [|by apply (H [])].
  clear Hnd. induction fs as [|[k v] fs IH]; intros o Hnd; [by rewrite app_nil_r|]. cbn [map fst] in Hp.
  apply not_elem_of_cons in Hp as [Hk Hp]. cbn [fold_left]. rewrite bool_decide_eq_false_2 by congruence.
  rewrite jm_keys_set_new.
  - rewrite IH; [by rewrite <- app_assoc|done|by rewrite <- app_assoc].
  - rewrite map_app in Hnd. apply NoDup_app in Hnd as (_ & Hd & _). intros Hin. apply (Hd k Hin). by left.
Qed.

(** The integer that the parser reads. *)
Lemma digit_char d : (d < 10)%N -> is_digit (ascii_of_N (48 + d)) = true /\ digit_value (ascii_of_N (48 + d)) = Z.of_N d
  /\ is_space (ascii_of_N (48 + d)) = false /\ code (ascii_of_N (48 + d)) = (48 + d)%N.
Proof.
  intros Hd. assert (H : d ∈ map N.of_nat (seq 0 10)).
  { apply list_elem_of_fmap. exists (N.to_nat d). split; [lia|]. apply elem_of_seq. lia. }
  revert H. cbn [map seq]. rewrite !elem_of_cons, elem_of_nil. intuition subst; vm_compute; done.
Qed.

Lemma span_whole {A} (p : A -> bool) l : Forall (fun x => p x = true) l -> span p l = (l, []).
Proof. induction 1 as [|x l Hx _ IH]; cbn; [done|]. by rewrite Hx, IH. Qed.

Lemma int_of_text neg ds : ds <> [] -> Forall (fun d => d < 10)%N ds -> int_of (int_text neg ds) = int_number neg ds.
Proof.
  intros Hne Hd. set (chars := map (fun d => ascii_of_N (48 + d)) ds).
  assert (Hnar : explode (narrow (int_text neg ds)) = (if neg then ["-"%char] else []) ++ chars).
  { unfold narrow. rewrite explode_implode. unfold int_text. rewrite map_app. f_equal; [by destruct neg|].
    unfold chars. rewrite map_map. apply map_ext_in. intros d Hin%list_elem_of_In. rewrite Forall_forall in Hd. specialize (Hd d Hin).
    by rewrite (proj2 (N.ltb_lt (48 + d) 256)) by lia. }
  assert (Hall : Forall (fun c => is_digit c = true) chars).
  { apply Forall_fmap. eapply Forall_impl; [exact Hd|]. intros d Hx. by apply digit_char. }
  assert (Hval : digits_value 10 chars = fold_left (fun acc d => acc * 10 + Z.of_N d)%Z ds 0%Z).
  { unfold digits_value, chars. clear -Hd. generalize 0%Z. induction Hd as [|d ds Hx _ IH]; intros acc; [done|]. cbn [map fold_left].
    destruct (digit_char d Hx) as (_ & -> & _). apply IH. }
  assert (Hparse : parseInt10 (narrow (int_text neg ds)) = Some (signed neg (digits_value 10 chars))).
  { unfold parseInt10. rewrite Hnar. destruct ds as [|d ds']; [done|]. apply Forall_cons in Hd as [Hd0 _].
    destruct (digit_char d Hd0) as (_ & _ & Hsp & Hcode).
    assert (Htrim : trim_start ((if neg then ["-"%char] else []) ++ chars) = (if neg then ["-"%char] else []) ++ chars).
    { destruct neg; [done|]. unfold chars. cbn [app map trim_start]. by rewrite Hsp. }
    rewrite Htrim. assert (Hsign : read_sign ((if neg then ["-"%char] else []) ++ chars) = (neg, chars)).
    { destruct neg; [done|]. unfold chars. cbn [app map read_sign]. rewrite Hcode.
      rewrite (proj2 (N.eqb_neq _ 45)), (proj2 (N.eqb_neq _ 43)) by lia. done. }
    rewrite Hsign, span_whole by done. done. }
  unfold int_of, int_number. rewrite Hparse, Hval. set (z := fold_left _ _ _).
  destruct (Z.eqb_spec z 0) as [->|Hz].
  - destruct neg; cbn [signed Z.opp]; f_equal.
    destruct ds as [|d ds']; [done|]. cbn. apply Forall_cons in Hd as [Hd0 _]. destruct d; [done|]. cbn. apply N.eqb_neq. lia.
  - unfold signed. destruct neg; destruct z; done.
Qed.

Definition any_rest (_ : list Token) : Prop := True.

(** The running state after a loop that counts no alias. *)
Lemma Zsum_zero {A} (l : list A) : Zsum (fun _ => 0%Z) l = 0%Z.
Proof. unfold Zsum. induction l; cbn; lia. Qed.

Lemma quiet_loop_run {A} (P : list Token -> A -> Prop) test (body : M A) n tss xs r fuel s :
  (forall ts x r s, P ts x -> toks s = ts ++ r -> len s < n -> body s = Some (x, after r 0 s)) ->
  (forall ts x, P ts x -> ts <> [] /\ forall r s, toks s = ts ++ r -> test s = true) ->
  Forall2 P tss xs -> (forall s, toks s = r -> test s = false) ->
  toks s = concat tss ++ r -> len s < n -> len s <= fuel ->
  loop fuel test body s = Some (xs, after r 0 s).
Proof.
  intros Hbody Hitem H Hend Hs Hn Hf.
  rewrite (loop_run P (fun _ => 0%Z) (aliasCount s) test body any_rest n)
    with (tss := tss) (xs := xs) (r := r); rewrite ?Zsum_zero; try done; try lia.
  - intros ts x r' s' Hx Hs' _ Hn' _. by apply (Hbody ts).
  - intros ts x Hx. destruct (Hitem ts x Hx) as [Hne Ht]. split; [done|].
    intros r'. split; [done|]. intros s'. apply Ht.
Qed.

(** Decides the equalities between literal texts. *)
Ltac decide_texts :=
  repeat match goal with
  | |- context [bool_decide (u ?a = u ?b)] =>
      let v := eval vm_compute in (bool_decide (u a = u b)) in
      change (bool_decide (u a = u b)) with v
  end; cbv iota.

Lemma parseValue_run n ts v r s :
  value_tokens ts v -> toks s = ts ++ r -> len s < n -> parseValue n s = Some (v, after r 0 s).
Proof.
  revert ts v r s; induction n as [|n IH]; intros ts v r s Hv Hs Hn; [lia|].
  cbn [parseValue].
  destruct Hv as [d nm [Hd1 Hd2] Hnm|t Ht Hne|t neg ds Ht Htx Hne Hds|t Ht Hne|t [Ht Hv]|t [Ht Hv]|t [Ht Hv]
                 |t Hnm Hne|l tss vs cl [Hl1 Hl2] Hc H|l tss fs cl [Hl1 Hl2] Hc H Hnd Hproto];
    cbn [app] in Hs; rewrite (run_peek _ _ _ _ Hs); cbv beta.
  - rewrite Hd2. rewrite bool_decide_eq_true_2 by done. cbv iota.
    rewrite (run_advance _ _ _ _ Hs). rewrite (run_name _ nm r) by done. by rewrite after_after.
  - rewrite (bool_decide_eq_false_2 _ Hne), Ht. cbv iota. by rewrite (run_advance _ _ _ _ Hs).
  - rewrite (bool_decide_eq_false_2 (tvalue t = u "$")).
    2: { rewrite Htx. destruct neg, ds as [|d ds]; try done. intros [= Hd _]. lia. }
    rewrite Ht. cbv iota. rewrite (run_advance _ _ _ _ Hs). by rewrite Htx, int_of_text.
  - rewrite (bool_decide_eq_false_2 _ Hne), Ht. cbv iota. by rewrite (run_advance _ _ _ _ Hs).
  - rewrite Ht, Hv. decide_texts. by rewrite (run_advance _ _ _ _ Hs).
  - rewrite Ht, Hv. decide_texts. by rewrite (run_advance _ _ _ _ Hs).
  - rewrite Ht, Hv. decide_texts. by rewrite (run_advance _ _ _ _ Hs).
  - destruct Hnm as [Ht Hp]. rewrite !not_elem_of_cons in Hne. destruct Hne as (N1 & N2 & N3 & _).
    rewrite !(bool_decide_eq_false_2 (tvalue t = _)) by (done || by apply proper_ne).
    rewrite Ht. rewrite bool_decide_eq_true_2 by done. cbv iota. by rewrite (run_advance _ _ _ _ Hs).
  - rewrite Hl1, Hl2. decide_texts. rewrite (run_advance _ _ _ _ Hs).
    assert (Hs1 : toks (after ((concat tss ++ [cl]) ++ r) 0 s) = concat tss ++ cl :: r)
      by (cbn; by rewrite <- app_assoc).
    assert (Hn1 : len (after ((concat tss ++ [cl]) ++ r) 0 s) < n)
      by (unfold len in *; rewrite Hs in Hn; cbn in *; lia).
    erewrite bind_run; [|eapply (quiet_loop_run (fun ts v => value_tokens ts v /\ not_first "]" ts) _ _ n)].
    + rewrite (run_punct _ _ cl r) by done. by rewrite !after_after.
    + intros ts' x r' s' [Hx _] Hs' Hn'. by apply (IH ts').
    + intros ts' x [Hx Hf]. destruct (value_first _ _ Hx) as (t & r' & -> & Ht). split; [done|].
      intros r2 s' Hs'. by eapply inside_true.
    + done.
    + intros s' Hs'. by eapply inside_false.
    + exact Hs1.
    + exact Hn1.
    + lia.
  - rewrite Hl1, Hl2. decide_texts. rewrite (run_advance _ _ _ _ Hs).
    assert (Hs1 : toks (after ((concat tss ++ [cl]) ++ r) 0 s) = concat tss ++ cl :: r)
      by (cbn; by rewrite <- app_assoc).
    assert (Hn1 : len (after ((concat tss ++ [cl]) ++ r) 0 s) < n)
      by (unfold len in *; rewrite Hs in Hn; cbn in *; lia).
    erewrite bind_run; [|eapply (quiet_loop_run (fun ts f => exists k c ts', ts = k :: c :: ts' /\
       is_name k /\ punct ":" c /\ fst f = tvalue k /\ value_tokens ts' (snd f)) _ _ n)].
    + rewrite (run_punct _ _ cl r) by done. rewrite !after_after. by rewrite object_of_distinct.
    + intros ts' f r' s' (k & c & ts2 & -> & Hk & Hcc & Hf & Hv) Hs' Hn'. cbn [app] in Hs'.
      rewrite (run_name _ _ _ _ Hs' Hk).
      rewrite (run_punct _ ":" c (ts2 ++ r')) by done. rewrite after_after.
      rewrite (bind_run _ _ _ (snd f) (after r' 0 (after (ts2 ++ r') (0 + 0) s'))).
      * rewrite after_after. rewrite <- Hf. by destruct f.
      * apply (IH ts2); [done | done |]. unfold len in *. rewrite Hs' in Hn'. cbn in *. lia.
    + intros ts' f (k & c & ts2 & -> & Hk & _). split; [done|].
      intros r2 s' Hs'. eapply inside_true; [exact Hs' | by apply name_not_eof|].
      apply proper_ne; [apply Hk | done].
    + done.
    + intros s' Hs'. by eapply inside_false.
    + exact Hs1.
    + exact Hn1.
    + lia.
Qed.

(** ** Fields and selection sets *)

(** The next token does not read [v]. *)
Definition no (v : string) (ts : list Token) : Prop := forall s, toks s = ts -> at_value v s = false.

Lemma no_punct v w t l : punct w t -> u w <> u v -> no v (t :: l).
Proof. intros [_ Hw] Hne s Hs. rewrite (at_value_cons _ _ _ _ Hs), Hw. by apply bool_decide_eq_false_2. Qed.

Lemma no_name v t l :
  is_name t -> match explode v with c :: _ => name_start (code c) = false | [] => True end ->
  no v (t :: l).
Proof. intros Ht Hv s Hs. by apply (proper_at_value v t l). Qed.

Lemma arguments_run n ts args r s :
  arguments_tokens ts args -> no "(" r -> toks s = ts ++ r -> len s <= n -> parseArguments n s = Some (args, after r 0 s).
Proof.
  intros H Hr Hs Hn. unfold parseArguments. destruct H as [|l tss args cl Hl Hcl H].
  - rewrite when_false by by apply Hr. unfold mret, M_ret. f_equal. f_equal.
    unfold after. destruct s; cbn in *. rewrite Hs. f_equal. lia.
  - cbn [app] in Hs. rewrite when_true.
    2: { rewrite (text_at_value _ "(" _ _ _ Hs) by apply Hl. done. }
    rewrite (run_advance _ _ _ _ Hs).
    assert (Hs1 : toks (after ((concat tss ++ [cl]) ++ r) 0 s) = concat tss ++ cl :: r)
      by (cbn; by rewrite <- app_assoc).
    assert (Hn1 : len (after ((concat tss ++ [cl]) ++ r) 0 s) < n)
      by (unfold len in *; rewrite Hs in Hn; cbn in *; lia).
    erewrite bind_run; [|eapply (quiet_loop_run argument_tokens _ _ n _ args (cl :: r))].
    + rewrite (run_punct _ _ cl r) by done. by rewrite !after_after.
    + intros ts' a r' s' (k & c & ts2 & -> & Hk & Hcc & Hf & Hv) Hs' Hn'. cbn [app] in Hs'.
      unfold parseArgument. rewrite (run_name _ _ _ _ Hs' Hk).
      rewrite (run_punct _ ":" c (ts2 ++ r')) by done. rewrite after_after.
      rewrite (bind_run _ _ _ (arg_value a) (after r' 0 (after (ts2 ++ r') (0 + 0) s'))).
      * rewrite after_after. rewrite <- Hf. by destruct a.
      * apply (parseValue_run n ts2); [done | done |]. unfold len in *. rewrite Hs' in Hn'. cbn in *. lia.
    + intros ts' a (k & c & ts2 & -> & Hk & _). split; [done|].
      intros r2 s' Hs'. eapply inside_true; [exact Hs' | by apply name_not_eof|].
      apply proper_ne; [apply Hk | done].
    + done.
    + intros s' Hs'. by eapply inside_false.
    + exact Hs1.
    + exact Hn1.
    + lia.
Qed.

Lemma skip_directive_run ts c r :
  Forall (fun t => tvalue t <> u "(" /\ tvalue t <> u ")") ts -> punct ")" c ->
  skip_directive_args 1 (ts ++ c :: r) = r.
Proof.
  intros H [_ Hc]. induction H as [|t ts [H1 H2] _ IH]; cbn [app skip_directive_args].
  - rewrite Hc. decide_texts. by destruct r.
  - by rewrite (bool_decide_eq_false_2 _ H1), (bool_decide_eq_false_2 _ H2).
Qed.

Lemma directive_run ts d r s :
  directive_tokens ts d -> no "(" r -> toks s = ts ++ r -> parseDirective s = Some (d, after r 0 s).
Proof.
  intros H Hr Hs. unfold parseDirective. destruct H as [a n Ha Hn|a n l ts cl Ha Hn Hl Hcl H];
    cbn [app] in Hs; rewrite (run_advance _ _ _ _ Hs).
  - rewrite (run_name _ n r), after_after by done.
    rewrite (bind_run _ _ _ tt (after r (0 + 0) s)); [done|].
    by rewrite when_false by by apply Hr.
  - rewrite (run_name _ n (l :: (ts ++ [cl]) ++ r)), after_after by done.
    rewrite (bind_run _ _ _ tt (after r (0 + 0) s)); [done|].
    rewrite when_true by (by rewrite (text_at_value _ "(" l ((ts ++ [cl]) ++ r)) by (done || apply Hl)).
    rewrite (run_advance _ l ((ts ++ [cl]) ++ r)), after_after by done. unfold skip_args. f_equal. f_equal.
    rewrite with_toks_after. cbn [toks after]. rewrite <- app_assoc. cbn [app].
    by rewrite skip_directive_run, after_after.
Qed.

(** What may follow a field. *)
Definition settled (r : list Token) : Prop := no ":" r /\ no "(" r /\ no "@" r /\ no "{" r.

Lemma settled_name t l : is_name t -> settled (t :: l).
Proof. intros Ht. repeat split; by apply no_name. Qed.

Lemma settled_punct w t l :
  punct w t -> u w ∉ [u ":"; u "("; u "@"; u "{"] -> settled (t :: l).
Proof.
  intros Ht Hw. rewrite !not_elem_of_cons in Hw. repeat split; eapply no_punct; try done; tauto.
Qed.

Lemma directives_first tds ds ts r :
  Forall2 directive_tokens tds ds ->
  (ts = [] \/ exists l, exists t, ts = l :: t /\ punct "{" l) ->
  settled r -> no ":" (concat tds ++ ts ++ r) /\ no "(" (concat tds ++ ts ++ r).
Proof.
  intros H Hts (R1 & R2 & _). destruct H as [|td d tds ds Hd _]; cbn [concat app].
  - destruct Hts as [->|(l & t & -> & Hl)]; [done|]. split; by eapply no_punct.
  - destruct Hd; cbn [app]; split; by eapply no_punct.
Qed.

Lemma selection_aliases_nonneg sel : (0 <= selection_aliases sel)%Z.
Proof.
  revert sel. fix IH 1. intros [[a|] nm ar ds [sub|]|cond sub|name];
    cbn [selection_aliases alias_one]; try lia.
  1, 2: enough (0 <= Zsum selection_aliases sub)%Z by lia.
  all: unfold Zsum; induction sub as [|x l IHl]; cbn [fold_right]; [lia|];
    specialize (IH x); lia.
Qed.

Section Complete.
Context (maxAliases : Z).

(** The parser of sub-selections is right on fewer than [n] tokens. *)
Definition sets_run (n : nat) (sub : M (option GraphQLSelectionSet)) : Prop :=
  forall ts sels r s, set_tokens ts sels -> toks s = ts ++ r -> len s < n ->
    (aliasCount s + set_aliases sels <= maxAliases)%Z ->
    sub s = Some (Some sels, after r (set_aliases sels) s).

Definition sub_aliases (set : option GraphQLSelectionSet) : Z :=
  match set with Some l => set_aliases l | None => 0 end.

Lemma sub_aliases_nonneg set : (0 <= sub_aliases set)%Z.
Proof.
  destruct set as [l|]; [|done].
  apply (Zsum_nonneg selection_aliases), selection_aliases_nonneg.
Qed.

Lemma set_first ts sels : set_tokens ts sels -> exists l t, ts = l :: t /\ punct "{" l.
Proof. destruct 1 as [l tss sels r Hl Hr _]. eauto. Qed.

Lemma field_rest_run n sub alias name ta args tds ds ts set r s :
  sets_run n sub -> field_tokens ta args tds ds ts set -> settled r ->
  toks s = ta ++ concat tds ++ ts ++ r -> len s < n ->
  (aliasCount s + sub_aliases set <= maxAliases)%Z ->
  parse_field_rest n sub alias name s =
    Some (Some (Field alias name args ds set),
          after r (sub_aliases set) s).
Proof.
  intros Hsub H Hr Hs Hn Ha.
  assert (Hfirst : ts = [] \/ exists l, exists t, ts = l :: t /\ punct "{" l).
  { destruct H as [|? ? ? ? ts' ? _ _ Hset]; [by left | right].
    destruct (set_first _ _ Hset) as (l & t & ? & ?). eauto. }
  assert (Hargs : arguments_tokens ta args) by by destruct H.
  assert (Hds : Forall2 directive_tokens tds ds) by by destruct H.
  destruct (directives_first tds ds ts r Hds Hfirst Hr) as [_ Hno].
  unfold parse_field_rest.
  rewrite (bind_run _ _ _ _ _ (arguments_run n ta args _ s Hargs Hno Hs ltac:(lia))).
  set (s1 := after (concat tds ++ ts ++ r) 0 s).
  assert (Hn1 : len s1 < n) by (unfold len in *; rewrite Hs, length_app in Hn; cbn; lia).
  assert (Hend : no "@" (ts ++ r) /\ no "(" (ts ++ r)).
  { destruct Hfirst as [->|(l & t & -> & Hl)]; cbn [app]; [by destruct Hr as (?&?&?&?)|].
    split; by eapply no_punct. }
  rewrite (bind_run _ _ _ ds (after (ts ++ r) 0 s1)).
  2: { rewrite <- (Zsum_zero ds).
       apply (loop_run directive_tokens (fun _ => 0%Z) (aliasCount s1) _ _ (no "(") n)
         with (tss := tds); rewrite ?Zsum_zero; try done; try lia.
       - intros ts' d r' s' Hd Hs' Hf' _ _. by apply (directive_run ts').
       - intros ts' d Hd. split; [by destruct Hd|]. intros r'. split.
         + destruct Hd; cbn [app]; by eapply no_punct.
         + intros s' Hs'. destruct Hd as [a ? Haa|a ? ? ? ? Haa]; cbn [app] in Hs';
             rewrite (text_at_value _ "@" _ _ _ Hs') by apply Haa; done.
       - apply Hend.
       - intros s' Hs'. by apply Hend. }
  assert (Hn2 : len (after (ts ++ r) 0 s1) < n)
    by (unfold len in *; cbn in *; rewrite length_app in Hn1; lia).
  destruct H as [|? ? ? ? ts' set' _ _ Hset].
  - rewrite (bind_run _ _ _ None (after ([] ++ r) 0 s1)).
    + unfold s1. by rewrite !after_after.
    + rewrite when_false; [done|]. by apply Hr.
  - rewrite (bind_run _ _ _ (Some set') (after r (set_aliases set') (after (ts' ++ r) 0 s1))).
    + unfold s1. rewrite !after_after. by rewrite !Z.add_0_l.
    + destruct (set_first _ _ Hset) as (l & t & -> & Hl).
      rewrite when_true by by rewrite (text_at_value _ "{" l (t ++ r)) by (done || apply Hl).
      apply (Hsub (l :: t)); try done. unfold s1. cbn in *. lia.
Qed.

Lemma selection_aliases_field alias name args ds set :
  selection_aliases (Field alias name args ds set)
  = (alias_one alias + sub_aliases set)%Z.
Proof. destruct set; cbn; [done | lia]. Qed.

Lemma field_after_name ta args tds ds ts set r :
  field_tokens ta args tds ds ts set -> settled r ->
  no ":" (ta ++ concat tds ++ ts ++ r).
Proof.
  intros H Hr.
  assert (Hfirst : ts = [] \/ exists l, exists t, ts = l :: t /\ punct "{" l).
  { destruct H as [|? ? ? ? ts' ? _ _ Hset]; [by left | right].
    destruct (set_first _ _ Hset) as (l & t & ? & ?). eauto. }
  assert (Hargs : arguments_tokens ta args) by by destruct H.
  assert (Hds : Forall2 directive_tokens tds ds) by by destruct H.
  destruct (directives_first tds ds ts r Hds Hfirst Hr) as [Hno _].
  destruct Hargs; cbn [app]; [done | by eapply no_punct].
Qed.

Lemma selection_run n sub ts sel r s :
  sets_run n sub -> selection_tokens ts sel -> settled r -> toks s = ts ++ r -> len s < n ->
  (aliasCount s + selection_aliases sel <= maxAliases)%Z ->
  parseSelection maxAliases n sub s = Some (Some sel, after r (selection_aliases sel) s).
Proof.
  intros Hsub H Hr Hs Hn Ha. unfold parseSelection. destruct H as
    [nm ta args tds ds ts set Hnm Hf|a c nm ta args tds ds ts set Hal Hc Hnm Hf
    |d o nm ts set Hd Ho Hnm Hset|d ts set Hd Hset|d nm Hd Hnm Hon]; cbn [app] in Hs.
  - rewrite when_false by by apply (proper_at_value _ _ _ _ Hs Hnm).
    unfold parseField. rewrite when_false.
    2: { rewrite (at_type_cons _ _ _ _ Hs). by rewrite bool_decide_eq_true_2 by apply Hnm. }
    rewrite (run_advance _ _ _ _ Hs). rewrite <- !app_assoc in *.
    rewrite when_false by by apply (field_after_name _ _ _ _ _ _ _ Hf Hr).
    rewrite selection_aliases_field in *. cbn [alias_one] in *.
    rewrite (field_rest_run n sub None (tvalue nm) ta args tds ds ts set r); try done.
    + by rewrite after_after.
    + unfold len in *. rewrite Hs in Hn. cbn in *. lia.
    + cbn. lia.
  - rewrite when_false by by apply (proper_at_value _ _ _ _ Hs Hal).
    unfold parseField. rewrite when_false.
    2: { rewrite (at_type_cons _ _ _ _ Hs). by rewrite bool_decide_eq_true_2 by apply Hal. }
    rewrite (run_advance _ _ _ _ Hs). rewrite <- !app_assoc in *.
    rewrite when_true by by rewrite (text_at_value _ ":" c (nm :: ta ++ concat tds ++ ts ++ r)) by (done || apply Hc).
    rewrite (run_advance _ c (nm :: ta ++ concat tds ++ ts ++ r)) by done.
    rewrite (run_name _ nm (ta ++ concat tds ++ ts ++ r)) by done. rewrite !after_after.
    rewrite selection_aliases_field in *. cbn [alias_one] in *.
    pose proof (sub_aliases_nonneg set) as Hk.
    set (s1 := after (ta ++ concat tds ++ ts ++ r) (0 + 0 + 0) s).
    rewrite (bind_run (count_alias maxAliases) _ s1 true (after (ta ++ concat tds ++ ts ++ r) 1 s1)).
    + rewrite (field_rest_run n sub (Some (tvalue a)) (tvalue nm) ta args tds ds ts set r); try done.
      * unfold s1. rewrite !after_after. do 3 f_equal; lia.
      * unfold len in *. rewrite Hs in Hn. cbn in *. lia.
      * unfold s1. cbn. lia.
    + unfold count_alias. rewrite (proj2 (Z.leb_le _ _)) by (unfold s1; cbn; lia). done.
  - rewrite when_true by by rewrite (text_at_value _ "..." _ _ _ Hs) by apply Hd.
    rewrite (run_advance _ _ _ _ Hs).
    rewrite when_true by by rewrite (text_at_value _ "on" o (nm :: ts ++ r)) by (done || apply Ho).
    rewrite (run_advance _ o (nm :: ts ++ r)) by done.
    rewrite (run_name _ nm (ts ++ r)) by done. rewrite !after_after.
    erewrite bind_run; [|apply (Hsub ts set r)]; try done.
    + by rewrite after_after.
    + unfold len in *. rewrite Hs in Hn. cbn in *. lia.
    + cbn in *. unfold set_aliases. lia.
  - rewrite when_true by by rewrite (text_at_value _ "..." _ _ _ Hs) by apply Hd.
    rewrite (run_advance _ _ _ _ Hs).
    destruct (set_first _ _ Hset) as (l & t & -> & Hl). cbn [app].
    rewrite when_false by by rewrite (text_at_value _ "{" l (t ++ r)) by (done || apply Hl).
    rewrite when_false.
    2: { rewrite (at_type_cons _ l (t ++ r)) by done. destruct Hl as [-> _]. done. }
    erewrite bind_run; [|apply (Hsub (l :: t) set r)]; try done.
    + by rewrite after_after.
    + unfold len in *. rewrite Hs in Hn. cbn in *. lia.
    + cbn in *. unfold set_aliases. lia.
  - rewrite when_true by by rewrite (text_at_value _ "..." _ _ _ Hs) by apply Hd.
    rewrite (run_advance _ _ _ _ Hs).
    rewrite when_false.
    2: { rewrite (at_value_cons _ nm r) by done. by apply bool_decide_eq_false_2. }
    rewrite when_true.
    2: { rewrite (at_type_cons _ nm r) by done. by rewrite bool_decide_eq_true_2 by apply Hnm. }
    rewrite (run_advance _ nm r) by done. by rewrite !after_after.
Qed.

Lemma present_some {A} (l : list A) : present (map Some l) = l.
Proof. unfold present. induction l as [|x l IH]; cbn; [done|]. by rewrite IH. Qed.

Lemma Zsum_some {A} (w : A -> Z) l : Zsum (weigh w) (map Some l) = Zsum w l.
Proof. unfold Zsum. induction l as [|x l IH]; cbn; [done|]. by rewrite IH. Qed.

Lemma selection_first ts sel :
  selection_tokens ts sel -> exists t r, ts = t :: r /\ (is_name t \/ punct "..." t).
Proof. destruct 1; eauto 6. Qed.

Lemma set_run n : sets_run n (parseSelectionSet maxAliases n).
Proof.
  induction n as [|n IH]; intros ts sels r s H Hs Hn Ha; [lia|].
  destruct H as [l tss sels cl Hl Hcl H]. cbn [app] in Hs. cbn [parseSelectionSet].
  rewrite when_false by by rewrite (text_at_value _ "{" _ _ _ Hs) by apply Hl.
  rewrite (run_advance _ _ _ _ Hs).
  set (s1 := after ((concat tss ++ [cl]) ++ r) 0 s).
  assert (Hs1 : toks s1 = concat tss ++ cl :: r) by (unfold s1; cbn; by rewrite <- app_assoc).
  assert (Hn1 : len s1 < n) by (unfold len, s1 in *; rewrite Hs in Hn; cbn in *; lia).
  rewrite (bind_run _ _ _ (map Some sels) (after (cl :: r) (set_aliases sels) s1)).
  - rewrite (run_punct _ _ cl r) by done. unfold s1. rewrite !after_after, present_some.
    unfold mret, M_ret. do 3 f_equal. lia.
  - unfold set_aliases. rewrite <- Zsum_some.
    apply (loop_run (fun ts o => exists sel, o = Some sel /\ selection_tokens ts sel)
             (weigh selection_aliases) maxAliases _ _ settled n) with (tss := tss).
    + intros ts' o r' s' (sel & -> & Hsel) Hs' Hf Hn' Ha'. by apply (selection_run n _ ts').
    + intros ts' o (sel & -> & Hsel). destruct (selection_first _ _ Hsel) as (t & r' & -> & Ht).
      split; [done|]. intros r2. split.
      * destruct Ht as [Ht|Ht]; [by apply settled_name|]. eapply settled_punct; [exact Ht | decide_now].
      * intros s' Hs'. eapply inside_true; [exact Hs' | |].
        -- destruct Ht as [Ht|[-> _]]; [by apply name_not_eof | done].
        -- destruct Ht as [[_ Ht]|[_ ->]]; [by apply proper_ne | done].
    + intros [sel|]; cbn; [apply selection_aliases_nonneg | lia].
    + apply Forall2_fmap_r. eapply Forall2_impl; [exact H|]. intros ts' sel Hsel. by exists sel.
    + eapply settled_punct; [exact Hcl | decide_now].
    + intros s' Hs'. by eapply inside_false.
    + done.
    + done.
    + lia.
    + rewrite Zsum_some. unfold s1, set_aliases in *. cbn. lia.
Qed.

(** ** Variables, operations, fragments *)

Lemma skip_bang_run {A} (b : list Token) (x y : A) r s :
  (b = [] \/ exists t, b = [t] /\ punct "!" t) -> no "!" r -> toks s = b ++ r ->
  when (at_value "!") (_ ← advance; mret x) (mret y) s
  = Some (if bool_decide (b = []) then y else x, after r 0 s).
Proof.
  intros [->|(t & -> & Ht)] Hr Hs; cbn [app] in Hs.
  - rewrite when_false by by apply Hr. unfold mret, M_ret. f_equal. f_equal.
    unfold after. destruct s; cbn in *. rewrite Hs. f_equal. lia.
  - rewrite when_true by by rewrite (text_at_value _ "!" _ _ _ Hs) by apply Ht.
    by rewrite (run_advance _ _ _ _ Hs).
Qed.

Lemma type_run ts tn nl il r s :
  type_tokens ts tn nl il -> no "!" r -> toks s = ts ++ r ->
  parseTypeRef s = Some (tn, nl, il, after r 0 s).
Proof.
  intros H Hr Hs. unfold parseTypeRef.
  assert (Hplain : forall nm b s, is_name nm -> (b = [] \/ exists t, b = [t] /\ punct "!" t) ->
    toks s = nm :: b ++ r ->
    parseTypeRef s = Some (tvalue nm, bool_decide (b = []), false, after r 0 s)).
  { clear -Hr. intros nm b s Hn Hb Hs. unfold parseTypeRef.
    rewrite (bind_run _ _ _ (tvalue nm, false) (after (b ++ r) 0 s)).
    - erewrite bind_run; [|by apply (skip_bang_run b)].
      rewrite after_after. by destruct (bool_decide (b = [])).
    - rewrite when_false by by apply (proper_at_value _ _ _ _ Hs).
      by rewrite (run_name _ _ _ _ Hs). }
  destruct H as [n Hn|n b Hn Hb|l n i cl b Hl Hn Hi Hcl Hb]; cbn [app] in Hs.
  - apply (Hplain n [] s); auto.
  - apply (Hplain n [b] s); [done | right; by exists b | done].
  - rewrite (bind_run _ _ _ (tvalue n, true) (after (b ++ r) 0 s)).
    + erewrite bind_run; [|by apply (skip_bang_run b)].
      rewrite after_after. by destruct (bool_decide (b = [])).
    + rewrite when_true by by rewrite (text_at_value _ "[" _ _ _ Hs) by apply Hl.
      rewrite (run_advance _ _ _ _ Hs). rewrite (run_name _ n ((i ++ cl :: b) ++ r)) by done.
      rewrite <- app_assoc. cbn [app].
      erewrite bind_run.
      2: { apply (skip_bang_run i); [done | | done].
           eapply no_punct; [exact Hcl | decide_now]. }
      rewrite (run_punct _ _ cl (b ++ r)) by done. by rewrite !after_after.
Qed.

Lemma variable_run n ts d r s :
  variable_tokens ts d -> no "!" r -> no "=" r -> toks s = ts ++ r -> len s < n ->
  parseVariableDefinition n s = Some (Some d, after r 0 s).
Proof.
  intros H Hr1 Hr2 Hs Hn. unfold parseVariableDefinition.
  destruct H as [dl nm c tt tn nl il Hd Hnm Hc Ht|dl nm c tt tn nl il e tv v Hd Hnm Hc Ht He Hv];
    cbn [app] in Hs;
    (rewrite when_false by by rewrite (text_at_value _ "$" _ _ _ Hs) by apply Hd);
    rewrite (run_advance _ _ _ _ Hs).
  - rewrite (run_name _ nm (c :: tt ++ r)) by done. rewrite (run_punct _ _ c (tt ++ r)) by done.
    erewrite bind_run; [|by apply (type_run tt)]. cbv beta iota.
    erewrite bind_run; [|by rewrite when_false by by apply Hr2]. by rewrite !after_after.
  - rewrite <- app_assoc in *. cbn [app] in *.
    rewrite (run_name _ nm (c :: tt ++ e :: tv ++ r)) by done.
    rewrite (run_punct _ _ c (tt ++ e :: tv ++ r)) by done.
    erewrite bind_run; [|apply (type_run tt tn nl il (e :: tv ++ r)); try done].
    2: { eapply no_punct; [exact He | decide_now]. }
    cbv beta iota.
    erewrite bind_run.
    2: { rewrite when_true by by rewrite (text_at_value _ "=" e (tv ++ r)) by (done || apply He).
         rewrite (run_advance _ e (tv ++ r)) by done.
         erewrite bind_run; [|apply (parseValue_run n tv v r)]; [reflexivity | done | done |].
         unfold len in *. rewrite Hs in Hn. cbn in *. rewrite length_app in Hn. cbn in Hn. lia. }
    by rewrite !after_after, !Z.add_0_l.
Qed.

Lemma variable_first ts d : variable_tokens ts d -> exists t r, ts = t :: r /\ keyword "$" t.
Proof. destruct 1; eauto. Qed.

Lemma no_keyword v w t l : keyword w t -> u w <> u v -> no v (t :: l).
Proof. intros [_ Hw] Hne s Hs. rewrite (at_value_cons _ _ _ _ Hs), Hw. by apply bool_decide_eq_false_2. Qed.

Lemma operation_rest_run n kind nm tv vars ts sels r s :
  variables_tokens tv vars -> set_tokens ts sels -> toks s = tv ++ ts ++ r -> len s < n ->
  (aliasCount s + set_aliases sels <= maxAliases)%Z ->
  parse_operation_rest maxAliases n kind nm s =
    Some (Some {| op_kind := kind; op_name := nm; op_variables := vars; op_set := sels |},
          after r (set_aliases sels) s).
Proof.
  intros H Hset Hs Hn Ha. unfold parse_operation_rest.
  rewrite (bind_run _ _ _ vars (after (ts ++ r) 0 s)).
  - erewrite bind_run; [|apply (set_run n ts sels r)]; try done.
    + cbn. by rewrite after_after.
    + unfold len in *. rewrite Hs, length_app in Hn. cbn. lia.
    + cbn. lia.
  - destruct H as [|l tss vars cl Hl Hcl H]; cbn [app] in Hs.
    + rewrite when_false.
      * unfold mret, M_ret. f_equal. f_equal. unfold after. destruct s; cbn in *. rewrite Hs. f_equal. lia.
      * destruct (set_first _ _ Hset) as (l & t & -> & Hl). cbn [app] in Hs.
        by rewrite (text_at_value _ "{" _ _ _ Hs) by apply Hl.
    + rewrite when_true by by rewrite (text_at_value _ "(" _ _ _ Hs) by apply Hl.
      rewrite (run_advance _ _ _ _ Hs).
      set (s1 := after ((concat tss ++ [cl]) ++ ts ++ r) 0 s).
      assert (Hs1 : toks s1 = concat tss ++ cl :: ts ++ r) by (unfold s1; cbn; by rewrite <- app_assoc).
      assert (Hn1 : len s1 < n) by (unfold len, s1 in *; rewrite Hs in Hn; cbn in *; lia).
      rewrite (bind_run _ _ _ (map Some vars) (after (cl :: ts ++ r) 0 s1)).
      * rewrite (run_punct _ _ cl (ts ++ r)) by done. unfold s1. by rewrite !after_after, present_some.
      * rewrite <- (Zsum_zero (map Some vars)).
        apply (loop_run (fun ts o => exists d, o = Some d /\ variable_tokens ts d)
             (fun _ => 0%Z) (aliasCount s1) _ _ (fun r => no "!" r /\ no "=" r) n) with (tss := tss);
          rewrite ?Zsum_zero; try done; try lia.
        -- intros ts' o r' s' (d & -> & Hd) Hs' [Hf1 Hf2] Hn' _. by apply (variable_run n ts').
        -- intros ts' o (d & -> & Hd). destruct (variable_first _ _ Hd) as (t & r' & -> & Ht).
           split; [done|]. intros r2. split.
           ++ split; eapply no_keyword; try exact Ht; decide_now.
           ++ intros s' Hs'. eapply inside_true; [exact Hs' | by destruct Ht as [-> _] |].
              destruct Ht as [_ ->]. decide_now.
        -- apply Forall2_fmap_r. eapply Forall2_impl; [exact H|]. intros ts' d Hd. by exists d.
        -- split; eapply no_punct; try exact Hcl; decide_now.
        -- intros s' Hs'. by eapply inside_false.
Qed.

Lemma operation_run n ts op r s :
  operation_tokens ts op -> toks s = ts ++ r -> len s < n ->
  (aliasCount s + set_aliases (op_set op) <= maxAliases)%Z ->
  parseOperation maxAliases n s = Some (Some op, after r (set_aliases (op_set op)) s).
Proof.
  intros H Hs Hn Ha. unfold parseOperation. destruct H as [ts sels Hset|k kind nms nm tv vars ts sels [Hk1 Hk2] Hnm Hv Hset].
  - destruct (set_first _ _ Hset) as (l & t & -> & Hl). cbn [app] in Hs.
    rewrite (run_peek _ _ _ _ Hs). destruct Hl as [Hl1 Hl2]. rewrite Hl2.
    change (kind_of (u "{")) with (@None operation_kind). cbv iota. decide_texts.
    apply (operation_rest_run n _ _ [] [] (l :: t)); try done. constructor.
  - cbn [app] in Hs. rewrite (run_peek _ _ _ _ Hs), Hk2.
    replace (kind_of (u (operation_text kind))) with (Some kind) by (by destruct kind). cbv iota. rewrite (run_advance _ _ _ _ Hs).
    rewrite <- !app_assoc.
    rewrite (bind_run _ _ _ nm (after (tv ++ ts ++ r) 0 (after (nms ++ tv ++ ts ++ r) 0 s))).
    + rewrite (operation_rest_run n kind nm tv vars ts sels r); try done.
      * cbn [op_set]. by rewrite !after_after.
      * unfold len in *. rewrite Hs in Hn. cbn in *. rewrite !length_app in *. lia.
      * cbn [op_set aliasCount after] in *. lia.
    + destruct Hnm as [[-> ->]|(x & -> & Hx & ->)]; cbn [app].
      * rewrite when_false; [by rewrite after_after|].
        assert (Hp : exists t l, tv ++ ts ++ r = t :: l /\ ttype t = PUNCTUATOR).
        { destruct Hv as [|l tss vars cl Hl Hcl H]; [|destruct Hl; cbn; eauto].
          destruct (set_first _ _ Hset) as (l & t & -> & [Hl _]). cbn. eauto. }
        destruct Hp as (t & l & E & Ht). rewrite (at_type_cons _ t l), Ht by (cbn; exact E). done.
      * rewrite when_true.
        2: { rewrite (at_type_cons _ x (tv ++ ts ++ r)) by done. by rewrite bool_decide_eq_true_2 by apply Hx. }
        by rewrite (run_advance _ x (tv ++ ts ++ r)) by done.
Qed.

Lemma fragment_run n ts f r s :
  fragment_tokens ts f -> toks s = ts ++ r -> len s < n ->
  (aliasCount s + set_aliases (frag_set f) <= maxAliases)%Z ->
  parseFragmentDefinition maxAliases n s = Some (Some f, after r (set_aliases (frag_set f)) s).
Proof.
  intros H Hs Hn Ha. unfold parseFragmentDefinition.
  destruct H as [k nm o t ts sels [Hk1 Hk2] Hnm [Ho1 Ho2] Ht Hset]. cbn [app] in Hs.
  rewrite (bind_run _ _ _ _ _ (expect_value_run NAME "fragment" _ _ _ Hs Hk1 Hk2)).
  rewrite (run_name _ nm (o :: t :: ts ++ r)) by done.
  erewrite bind_run; [|by apply (expect_value_run NAME "on" o (t :: ts ++ r))].
  rewrite (run_name _ t (ts ++ r)) by done.
  erewrite bind_run; [|apply (set_run n ts sels r)]; try done.
  - cbn. by rewrite !after_after.
  - unfold len in *. rewrite Hs in Hn. cbn in *. lia.
  - cbn [frag_set aliasCount after] in *. lia.
Qed.

Lemma document_aliases_op doc op :
  document_aliases {| operations := operations doc ++ [op]; fragments := fragments doc |}
  = (document_aliases doc + set_aliases (op_set op))%Z.
Proof.
  unfold document_aliases. cbn [operations fragments]. rewrite Zsum_app. unfold Zsum. cbn. lia.
Qed.

Lemma document_aliases_fragment doc f :
  jm_has (frag_name f) (fragments doc) = false ->
  document_aliases {| operations := operations doc;
                      fragments := jm_set (frag_name f) f (fragments doc) |}
  = (document_aliases doc + set_aliases (frag_set f))%Z.
Proof.
  intros H. unfold document_aliases. cbn [operations fragments].
  rewrite jm_keys_set_new by by apply jm_has_false. rewrite Zsum_app. unfold Zsum. cbn. lia.
Qed.

Lemma document_aliases_mono ts doc doc' :
  document_tokens ts doc doc' -> (document_aliases doc <= document_aliases doc')%Z.
Proof.
  induction 1 as [doc|ts ts' op doc doc' _ _ IH|ts ts' f doc doc' _ Hf _ IH]; [lia|..].
  - rewrite document_aliases_op in IH. pose proof (sub_aliases_nonneg (Some (op_set op))) as Hs.
    cbn [sub_aliases] in Hs. lia.
  - rewrite document_aliases_fragment in IH by done.
    pose proof (sub_aliases_nonneg (Some (frag_set f))) as Hs. cbn [sub_aliases] in Hs. lia.
Qed.

Lemma definitions_run fuel ts doc doc' s :
  document_tokens ts doc doc' -> toks s = ts -> S (len s) < fuel ->
  (aliasCount s + (document_aliases doc' - document_aliases doc) <= maxAliases)%Z ->
  parseDefinitions maxAliases fuel doc s
  = Some (doc', after [] (document_aliases doc' - document_aliases doc) s).
Proof.
  intros H; revert fuel s.
  induction H as [doc|ts ts' op doc doc' Hop Hts IH|ts ts' f doc doc' Hf Hnew Hts IH];
    intros fuel s Hs Hn Ha; (destruct fuel as [|fuel]; [lia|]); cbn [parseDefinitions].
  - rewrite when_false.
    + unfold mret, M_ret. f_equal. f_equal. unfold after. destruct s; cbn in *. rewrite Hs. f_equal. lia.
    + unfold at_type, ct, current. by rewrite Hs.
  - assert (Hfirst : exists t l, ts = t :: l /\ ttype t <> EOF /\ tvalue t <> u "fragment").
    { destruct Hop as [ts sels Hset|k kind nms nm tv vars ts sels [Hk1 Hk2] _ _ _].
      - destruct (set_first _ _ Hset) as (l & t & -> & [Hl1 Hl2]).
        exists l, t. rewrite Hl1, Hl2. split_and!; try done.
      - exists k, (nms ++ tv ++ ts). rewrite Hk1, Hk2. split_and!; try done. by destruct kind. }
    destruct Hfirst as (t & l & -> & Ht1 & Ht2). cbn [app] in Hs.
    rewrite when_true by by rewrite (at_type_cons _ _ _ _ Hs), bool_decide_eq_false_2.
    pose proof (document_aliases_mono _ _ _ Hts) as Hmono. rewrite document_aliases_op in Hmono.
    rewrite (bind_run _ _ _ {| operations := operations doc ++ [op]; fragments := fragments doc |}
               (after ts' (set_aliases (op_set op)) s)).
    + rewrite IH.
      * rewrite after_after, document_aliases_op. do 3 f_equal. lia.
      * done.
      * unfold len in *. rewrite Hs in Hn. cbn in *. rewrite length_app in Hn. lia.
      * rewrite document_aliases_op. cbn [aliasCount after]. lia.
    + unfold parseDefinition. rewrite when_false.
      2: { rewrite (at_value_cons _ _ _ _ Hs). by apply bool_decide_eq_false_2. }
      erewrite bind_run; [|apply (operation_run fuel (t :: l) op ts')]; try done; lia.
  - assert (Hfirst : exists t l, ts = t :: l /\ keyword "fragment" t) by (destruct Hf; eauto).
    destruct Hfirst as (t & l & -> & Hk). cbn [app] in Hs.
    rewrite when_true.
    2: { rewrite (at_type_cons _ _ _ _ Hs). destruct Hk as [-> _]. done. }
    pose proof (document_aliases_mono _ _ _ Hts) as Hmono.
    rewrite document_aliases_fragment in Hmono by done.
    rewrite (bind_run _ _ _ {| operations := operations doc;
               fragments := jm_set (frag_name f) f (fragments doc) |}
               (after ts' (set_aliases (frag_set f)) s)).
    + rewrite IH.
      * rewrite after_after, document_aliases_fragment by done. do 3 f_equal. lia.
      * done.
      * unfold len in *. rewrite Hs in Hn. cbn in *. rewrite length_app in Hn. lia.
      * rewrite document_aliases_fragment by done. cbn [aliasCount after]. lia.
    + unfold parseDefinition.
      rewrite when_true by by rewrite (text_at_value _ "fragment" _ _ _ Hs) by apply Hk.
      erewrite bind_run; [|apply (fragment_run fuel (t :: l) f ts')]; try done; try lia.
      cbv iota. by rewrite Hnew.
Qed.
End Complete.

(** ** Properties *)

(** C39: completeness. Every document of the GraphQL grammar (the subset of
    [document_tokens], whose object values have distinct fields other than
    [__proto__]) is parsed to exactly its tree, without errors, when its
    aliases are within the limit and its operations pass the depth check. *)
Theorem parse_complete maxDepth maxAliases ts eof doc :
  document_tokens ts {| operations := []; fragments := [] |} doc ->
  (document_aliases doc <= maxAliases)%Z ->
  check_depth maxDepth (fragments doc) (operations doc) = Some None ->
  parse_tokens maxDepth maxAliases ts eof = Some (Parsed doc).
Proof.
  intros H Ha Hd. unfold parse_tokens.
  rewrite (definitions_run maxAliases (parse_fuel ts) ts _ doc); try done.
  - cbn [mbind option_bind errors after]. by rewrite Hd.
  - unfold len, parse_fuel. cbn. lia.
  - cbn [aliasCount]. change (document_aliases {| operations := []; fragments := [] |}) with 0%Z. lia.
Qed.

(** A string literal. *)
Definition quoted (s : string) : text := 34%N :: u s ++ [34%N].

(** Tokens are compared by their text, whatever their type. The string
    ["$"] is read as the start of a variable, so a query that is not GraphQL is
    accepted with a variable for its argument, and valid queries whose string
    is ["$"], or ["]"] in a list, are rejected. *)
Theorem quoted_punctuation :
  parseDocument (u "{ a(x: " ++ quoted "$" ++ u " y) }") no_options =
    Some (Parsed {| operations := [{| op_kind := query; op_name := None; op_variables := [];
      op_set := [Field None (u "a") [{| arg_name := u "x"; arg_value := Variable_ (u "y") |}] [] None] |}];
      fragments := [] |}) /\
  (exists es, parseDocument (u "{ a(x: " ++ quoted "$" ++ u ") }") no_options = Some (Failed es)) /\
  (exists es, parseDocument (u "{ a(x: [" ++ quoted "]" ++ u "]) }") no_options = Some (Failed es)).
Proof. split_and!; [|eexists|eexists]; vm_compute; reflexivity. Qed.

(** An object value loses a field named [__proto__], which GraphQL allows. *)
Theorem proto_field_lost :
  parseDocument (u "{ a(x: { __proto__: 1 b: 2 }) }") no_options =
    Some (Parsed {| operations := [{| op_kind := query; op_name := None; op_variables := [];
      op_set := [Field None (u "a") [{| arg_name := u "x"; arg_value := ObjectValue [(u "b", IntValue (num_of_Z 2))] |}] [] None] |}];
      fragments := [] |}).
Proof. vm_compute. reflexivity. Qed.

(** ** Witness *)

Definition tok (ty : TokenType) (v : string) : Token :=
  {| ttype := ty; tvalue := u v; tline := 1; tcolumn := 1 |}.

(** [{ me: user(id: 1) ...F } fragment F on U { b }] *)
Definition sample_tokens : list Token :=
  [tok PUNCTUATOR "{"; tok NAME "me"; tok PUNCTUATOR ":"; tok NAME "user"; tok PUNCTUATOR "(";
   tok NAME "id"; tok PUNCTUATOR ":"; tok INT "1"; tok PUNCTUATOR ")"; tok PUNCTUATOR "...";
   tok NAME "F"; tok PUNCTUATOR "}";
   tok NAME "fragment"; tok NAME "F"; tok NAME "on"; tok NAME "U"; tok PUNCTUATOR "{";
   tok NAME "b"; tok PUNCTUATOR "}"].

Definition sample_document : GraphQLDocument :=
  {| operations := [{| op_kind := query; op_name := None; op_variables := [];
       op_set := [Field (Some (u "me")) (u "user")
                    [{| arg_name := u "id"; arg_value := IntValue (num_of_Z 1) |}] [] None;
                  FragmentSpread (u "F")] |}];
     fragments := [(u "F", {| frag_name := u "F"; frag_type := u "U";
                              frag_set := [Field None (u "b") [] [] None] |})] |}.

Lemma sample_set :
  set_tokens (take 12 sample_tokens)
    [Field (Some (u "me")) (u "user")
       [{| arg_name := u "id"; arg_value := IntValue (num_of_Z 1) |}] [] None;
     FragmentSpread (u "F")].
Proof.
  apply (set_braces (tok PUNCTUATOR "{")
    [[tok NAME "me"; tok PUNCTUATOR ":"; tok NAME "user"; tok PUNCTUATOR "("; tok NAME "id";
      tok PUNCTUATOR ":"; tok INT "1"; tok PUNCTUATOR ")"];
     [tok PUNCTUATOR "..."; tok NAME "F"]]); [done..|].
  constructor; [|constructor; [|constructor]].
  - apply (sel_aliased (tok NAME "me") (tok PUNCTUATOR ":") (tok NAME "user")
      [tok PUNCTUATOR "("; tok NAME "id"; tok PUNCTUATOR ":"; tok INT "1"; tok PUNCTUATOR ")"]
      _ [] [] []); [done..|].
    constructor; [|constructor].
    apply (some_arguments (tok PUNCTUATOR "(") [[tok NAME "id"; tok PUNCTUATOR ":"; tok INT "1"]]);
      [done..|].
    constructor; [|constructor]. exists (tok NAME "id"), (tok PUNCTUATOR ":"), [tok INT "1"].
    split_and!; try done. apply (value_int (tok INT "1") false [1%N]); [done|done|done|by repeat constructor].
  - by apply (sel_spread (tok PUNCTUATOR "...") (tok NAME "F")).
Qed.

Lemma sample_fragment :
  fragment_tokens (drop 12 sample_tokens)
    {| frag_name := u "F"; frag_type := u "U"; frag_set := [Field None (u "b") [] [] None] |}.
Proof.
  apply (fragment_def (tok NAME "fragment") (tok NAME "F") (tok NAME "on") (tok NAME "U"));
    [done..|].
  apply (set_braces (tok PUNCTUATOR "{") [[tok NAME "b"]]); [done..|].
  constructor; [|constructor].
  apply (sel_field (tok NAME "b") [] [] [] [] []); [done|]. repeat constructor.
Qed.

Lemma parse_complete_witness :
  parse_tokens 5 50 sample_tokens (1, 1) = Some (Parsed sample_document).
Proof.
  apply (parse_complete 5 50 sample_tokens (1, 1) sample_document).
  - apply (document_operation (take 12 sample_tokens) (drop 12 sample_tokens)
      {| op_kind := query; op_name := None; op_variables := [];
         op_set := [Field (Some (u "me")) (u "user")
                      [{| arg_name := u "id"; arg_value := IntValue (num_of_Z 1) |}] [] None;
                    FragmentSpread (u "F")] |}).
    + constructor. exact sample_set.
    + apply (document_fragment (drop 12 sample_tokens) [] _ _ _ sample_fragment); [done|].
      constructor.
  - vm_compute. congruence.
  - vm_compute. reflexivity.
Defined.
