(* ===== verification/GraphqlValidate.v ===== *)
(** * GraphQL: validation against the schema

    [validateDocument] of [services/gateway/src/graphql/parser.ts]. *)

From S2P Require Import Prelude JsString JsValue GraphqlLexer GraphqlParser.

Record GraphQLArgDefinition : Type := { argdef_type : text; argdef_nullable : bool }.

Record GraphQLFieldDefinition : Type := {
  field_type : text;
  field_nullable : bool;
  field_isList : bool;
  field_args : option (list (text * GraphQLArgDefinition))
}.

Definition FieldMap : Type := list (text * GraphQLFieldDefinition).

Inductive GraphQLTypeEntry : Type :=
| ObjectType (name : text) (fields : FieldMap)
| EnumType (name : text) (values : list text).

Record GraphQLSchema : Type := {
  types : jmap text GraphQLTypeEntry;
  queryFields : FieldMap;
  mutationFields : FieldMap
}.

Inductive validation_message : Type :=
| UnknownFragment (name : text)
| UnknownField (name path : text)
| UnknownArgument (arg field : text).

Record ValidationError : Type := { vmessage : validation_message; vpath : text }.

(** Keys that a lookup in a plain object finds without an own property. *)
Definition inherited (k : text) : bool :=
  existsb (fun n => bool_decide (u n = k)) ("__proto__" :: object_proto).

(** What [parentFields[name]] gives: a definition, an inherited function
    (truthy, but without [args] or [type]), or nothing. *)
Inductive lookup : Type := Own (f : GraphQLFieldDefinition) | Inherited | Absent.

Definition lookup_field (fields : FieldMap) (name : text) : lookup :=
  match jm_get name fields with
  | Some f => Own f
  | None => if inherited name then Inherited else Absent
  end.

Definition known_arg (args : list (text * GraphQLArgDefinition)) (name : text) : bool :=
  jm_has name args || inherited name.

(** The child fields to recurse into: those of a nonempty object type. *)
Definition child_fields (schema : GraphQLSchema) (f : GraphQLFieldDefinition) : option FieldMap :=
  match jm_get (field_type f) (types schema) with
  | Some (ObjectType _ ((_ :: _) as fields)) => Some fields
  | _ => None
  end.

Definition dotted (path name : text) : text := path ++ u "." ++ name.

Definition argument_errors (f : GraphQLFieldDefinition) (args : list GraphQLArgument)
    (path name : text) : list ValidationError :=
  match field_args f with
  | None => []
  | Some defs =>
      flat_map (fun a => if known_arg defs (arg_name a) then []
                         else [{| vmessage := UnknownArgument (arg_name a) name;
                                  vpath := dotted path name |}]) args
  end.

Section Validate.
Context (schema : GraphQLSchema) (doc : GraphQLDocument).

(** The errors of one selection, in the order in which they are pushed. *)
Fixpoint validateSelection (parentFields : FieldMap) (path : text) (sel : GraphQLSelection)
    : list ValidationError :=
  match sel with
  | FragmentSpread name =>
      if jm_has name (fragments doc) then []
      else [{| vmessage := UnknownFragment name; vpath := path |}]
  | InlineFragment _ sub => flat_map (validateSelection parentFields path) sub
  | Field _ name args _ sub =>
      match lookup_field parentFields name with
      | Absent => [{| vmessage := UnknownField name path; vpath := dotted path name |}]
      | Inherited => []
      | Own f =>
          argument_errors f args path name ++
          match sub, child_fields schema f with
          | Some sub, Some fields => flat_map (validateSelection fields (dotted path name)) sub
          | _, _ => []
          end
      end
  end.

Definition validateSelectionSet (set : GraphQLSelectionSet) (parentFields : FieldMap)
    (path : text) : list ValidationError :=
  flat_map (validateSelection parentFields path) set.

Definition kind_name (k : operation_kind) : text :=
  match k with
  | query => u "query"
  | mutation => u "mutation"
  | subscription => u "subscription"
  end.

Definition validate_operation (op : GraphQLOperationDefinition) : list ValidationError :=
  validateSelectionSet (op_set op)
    match op_kind op with mutation => mutationFields schema | _ => queryFields schema end
    (kind_name (op_kind op)).
End Validate.

Definition validateDocument (doc : GraphQLDocument) (schema : GraphQLSchema)
    : list ValidationError :=
  flat_map (validate_operation schema doc) (operations doc).

(** ** What validation means *)

Section Valid.
Context (schema : GraphQLSchema) (doc : GraphQLDocument).

(** A selection that the schema allows on an object with the fields
    [parentFields]. *)
Inductive valid (parentFields : FieldMap) : GraphQLSelection -> Prop :=
| valid_spread name : jm_has name (fragments doc) = true -> valid parentFields (FragmentSpread name)
| valid_inline cond sub :
    Forall (valid parentFields) sub -> valid parentFields (InlineFragment cond sub)
| valid_inherited alias name args ds sub :
    lookup_field parentFields name = Inherited -> valid parentFields (Field alias name args ds sub)
| valid_field alias name args ds sub f :
    lookup_field parentFields name = Own f ->
    (forall defs a, field_args f = Some defs -> a ∈ args -> known_arg defs (arg_name a) = true) ->
    (forall set fields, sub = Some set -> child_fields schema f = Some fields ->
       Forall (valid fields) set) ->
    valid parentFields (Field alias name args ds sub).

Lemma argument_errors_nil f args path name :
  argument_errors f args path name = [] <->
  forall defs a, field_args f = Some defs -> a ∈ args -> known_arg defs (arg_name a) = true.
Proof.
  unfold argument_errors. destruct (field_args f) as [defs|]; [|by split].
  rewrite flat_map_nil, Forall_forall. split.
  - intros H ? a [= <-] Ha. specialize (H a Ha). by destruct (known_arg defs (arg_name a)).
  - intros H a Ha. by rewrite (H defs a).
Qed.

Lemma validateSelection_nil sel parentFields path :
  validateSelection schema doc parentFields path sel = [] <-> valid parentFields sel.
Proof.
  revert sel parentFields path. fix IH 1. intros sel parentFields path.
  destruct sel as [al nm ar ds sub|cond sub|nm]; cbn [validateSelection].
  - destruct (lookup_field parentFields nm) as [f| |] eqn:E.
    + assert (Hsub : match sub, child_fields schema f with
        | Some sub, Some fields => flat_map (validateSelection schema doc fields (dotted path nm)) sub
        | _, _ => [] end = [] <->
        forall set fields, sub = Some set -> child_fields schema f = Some fields -> Forall (valid fields) set).
      { destruct sub as [sub|]; [|by split]. destruct (child_fields schema f) as [fields|]; [|by split].
        assert (Hs : flat_map (validateSelection schema doc fields (dotted path nm)) sub = []
                     <-> Forall (valid fields) sub).
        { clear -IH. induction sub as [|x l IHl]; cbn [flat_map]; [by split|].
          rewrite Forall_cons, <- IHl, <- (IH x fields (dotted path nm)).
          split; [by intros ?%app_eq_nil | by intros [-> ->]]. }
        rewrite Hs. split; [by intros H ? ? [= <-] [= <-] | intros H; by apply H]. }
      split.
      * intros [Ha Hs]%app_eq_nil. eapply valid_field; [exact E | | by apply Hsub].
        by apply (proj1 (argument_errors_nil _ _ _ _) Ha).
      * intros H. inversion H as [| |? ? ? ? ? Hl|? ? ? ? ? f' Hl Ha Hs]; subst; [congruence|].
        assert (f' = f) as -> by congruence.
        by rewrite (proj2 (argument_errors_nil _ _ _ _) Ha), (proj2 Hsub Hs).
    + split; [by intros _; apply valid_inherited | done].
    + split; [done|]. intros H. inversion H; congruence.
  - assert (Hs : flat_map (validateSelection schema doc parentFields path) sub = []
                 <-> Forall (valid parentFields) sub).
    { clear -IH. induction sub as [|x l IHl]; cbn [flat_map]; [by split|].
      rewrite Forall_cons, <- IHl, <- (IH x parentFields path).
      split; [by intros ?%app_eq_nil | by intros [-> ->]]. }
    rewrite Hs. split; [by constructor | intros H; by inversion H].
  - destruct (jm_has nm (fragments doc)) eqn:E; split; try done.
    + intros _. by constructor.
    + intros H. inversion H. congruence.
Qed.
End Valid.

(** ** Properties *)

(** Validation reports no error exactly for the documents the schema
    allows: every spread names a fragment of the document, every field exists
    on its parent, with only arguments its definition has, and below it the
    same holds for the fields of its type. *)
Theorem validate_spec doc schema :
  validateDocument doc schema = [] <->
  Forall (fun op => Forall (valid schema doc
     match op_kind op with mutation => mutationFields schema | _ => queryFields schema end)
     (op_set op)) (operations doc).
Proof.
  unfold validateDocument. rewrite flat_map_nil. apply Forall_iff. intros op.
  unfold validate_operation, validateSelectionSet. rewrite flat_map_nil. apply Forall_iff.
  intros sel. apply validateSelection_nil.
Qed.

(** Validation looks fields up through the prototype of the schema object:
    a query for the field [toString], with any arguments and selections below
    it, is valid against every schema, even an empty one. *)
Theorem inherited_field_valid schema alias args ds sub :
  validateDocument
    {| operations := [{| op_kind := query; op_name := None; op_variables := [];
                         op_set := [Field alias (u "toString") args ds sub] |}];
       fragments := [] |}
    {| types := types schema; queryFields := []; mutationFields := [] |} = [].
Proof. reflexivity. Qed.
