(* ===== verification/IpText.v ===== *)
(** * The text of IP addresses

    Dotted IPv4 addresses and masks, shared by the SSRF guard and the IP
    allowlist, and JavaScript's operators on 32-bit integers. *)

From S2P Require Import Prelude JsString JsNumber.
From Stdlib Require Import Ascii.

(** ** 32-bit integer operators

    [<<], [|], [&], [~] and [>>> 0] on JavaScript numbers: the operands are
    taken modulo [2 ^ 32] to signed 32-bit integers. *)

Local Open Scope Z_scope.

Definition to_uint32 (z : Z) : Z := z mod 2 ^ 32.
Definition to_int32 (z : Z) : Z := (z + 2 ^ 31) mod 2 ^ 32 - 2 ^ 31.

Definition shl32 (a n : Z) : Z := to_int32 (Z.shiftl (to_int32 a) (to_uint32 n mod 32)).
Definition or32 (a b : Z) : Z := Z.lor (to_int32 a) (to_int32 b).
Definition and32 (a b : Z) : Z := Z.land (to_int32 a) (to_int32 b).
Definition not32 (a : Z) : Z := Z.lnot (to_int32 a).

Definition uint32 (z : Z) : Prop := 0 <= z < 2 ^ 32.

Lemma to_int32_mod z : to_int32 z mod 2 ^ 32 = z mod 2 ^ 32.
Proof.
  unfold to_int32. rewrite Zminus_mod_idemp_l. f_equal. lia.
Qed.

Lemma to_int32_congr a b : a mod 2 ^ 32 = b mod 2 ^ 32 -> to_int32 a = to_int32 b.
Proof.
  intros H. unfold to_int32. f_equal.
  by rewrite <- (Zplus_mod_idemp_l a), <- (Zplus_mod_idemp_l b), H.
Qed.

Lemma to_uint32_id z : uint32 z -> to_uint32 z = z.
Proof. intros H. by apply Z.mod_small. Qed.

Lemma to_uint32_int32 z : to_uint32 (to_int32 z) = to_uint32 z.
Proof. apply to_int32_mod. Qed.

Lemma to_int32_inj a b : uint32 a -> uint32 b -> to_int32 a = to_int32 b -> a = b.
Proof.
  intros Ha Hb E. rewrite <- (to_uint32_id a), <- (to_uint32_id b) by done.
  by rewrite <- (to_uint32_int32 a), <- (to_uint32_int32 b), E.
Qed.

(** The low bits of a signed value are those of the unsigned one. *)
Lemma land_mod_pow2 a b n :
  0 <= n -> Z.land a b mod 2 ^ n = Z.land (a mod 2 ^ n) (b mod 2 ^ n).
Proof.
  intros Hn. rewrite <- !Z.land_ones by done. apply Z.bits_inj'. intros i Hi.
  rewrite !Z.land_spec. destruct (Z.testbit (Z.ones n) i), (Z.testbit a i), (Z.testbit b i); done.
Qed.

Lemma lor_mod_pow2 a b n :
  0 <= n -> Z.lor a b mod 2 ^ n = Z.lor (a mod 2 ^ n) (b mod 2 ^ n).
Proof.
  intros Hn. rewrite <- !Z.land_ones by done. apply Z.bits_inj'. intros i Hi.
  rewrite !Z.land_spec, !Z.lor_spec, !Z.land_spec.
  destruct (Z.testbit (Z.ones n) i), (Z.testbit a i), (Z.testbit b i); done.
Qed.

Lemma to_int32_range z : - 2 ^ 31 <= to_int32 z < 2 ^ 31.
Proof. unfold to_int32. pose proof (Z.mod_pos_bound (z + 2 ^ 31) (2 ^ 32)). lia. Qed.

Lemma to_int32_id z : - 2 ^ 31 <= z < 2 ^ 31 -> to_int32 z = z.
Proof. intros H. unfold to_int32. rewrite Z.mod_small; lia. Qed.

Lemma high_bit z n i : 0 <= n -> 0 <= z < 2 ^ n -> n <= i -> Z.testbit z i = false.
Proof.
  intros Hn Hz Hi. apply Z.testbit_false; [lia|]. rewrite Z.div_small; [done|].
  assert (2 ^ n <= 2 ^ i) by (apply Z.pow_le_mono_r; lia). lia.
Qed.

(** A bitwise operation on signed values is the signed view of the operation
    on unsigned ones. *)
Lemma land_range a b :
  - 2 ^ 31 <= a < 2 ^ 31 -> - 2 ^ 31 <= b < 2 ^ 31 -> - 2 ^ 31 <= Z.land a b < 2 ^ 31.
Proof.
  intros Ha Hb.
  assert (Hbits : forall z, - 2 ^ 31 <= z < 2 ^ 31 <-> forall i, 31 <= i -> Z.testbit z i = (z <? 0)).
  { intros z. split.
    - intros Hz i Hi. destruct (Z.ltb_spec z 0) as [Hneg|Hpos].
      + rewrite <- (Z.lnot_involutive z), Z.lnot_spec by lia.
        by rewrite (high_bit _ 31) by (unfold Z.lnot; lia).
      + by rewrite (high_bit _ 31) by lia.
    - intros H. destruct (Z.ltb_spec z 0) as [Hneg|Hpos].
      + split; [|lia]. destruct (Z.le_gt_cases (- 2 ^ 31) z) as [|Hlt]; [done|]. exfalso.
        assert (Hl : 2 ^ 31 <= Z.lnot z) by (unfold Z.lnot; lia).
        assert (31 <= Z.log2 (Z.lnot z)) by (apply Z.log2_le_pow2; lia).
        specialize (H (Z.log2 (Z.lnot z)) ltac:(lia)).
        pose proof (Z.bit_log2 (Z.lnot z) ltac:(lia)) as Hb2.
        rewrite Z.lnot_spec in Hb2 by lia. by rewrite H in Hb2.
      + split; [lia|]. destruct (Z.lt_ge_cases z (2 ^ 31)) as [|Hge]; [done|]. exfalso.
        assert (31 <= Z.log2 z) by (apply Z.log2_le_pow2; lia).
        specialize (H (Z.log2 z) ltac:(lia)). by rewrite (Z.bit_log2 z) in H by lia. }
  apply Hbits. intros i Hi. rewrite Z.land_spec.
  rewrite (proj1 (Hbits a) Ha i Hi), (proj1 (Hbits b) Hb i Hi).
  destruct (Z.ltb_spec a 0), (Z.ltb_spec b 0); cbn; symmetry;
    [apply Z.ltb_lt, Z.land_neg; lia
    | apply Z.ltb_ge; apply Z.land_nonneg; lia ..].
Qed.

Lemma and32_unsigned a b : and32 a b = to_int32 (Z.land (to_uint32 a) (to_uint32 b)).
Proof.
  unfold and32. rewrite <- (to_int32_id (Z.land _ _)) by (apply land_range; apply to_int32_range).
  apply to_int32_congr. rewrite land_mod_pow2 by done. rewrite !to_int32_mod.
  unfold to_uint32. rewrite land_mod_pow2 by done. by rewrite !Z.mod_mod.
Qed.

(** Masking with the [w - k] high bits of a [w]-bit value clears the [k] low
    ones. *)
Lemma land_high_bits w x k :
  0 <= k <= w -> 0 <= x < 2 ^ w -> Z.land x (2 ^ w - 2 ^ k) = x / 2 ^ k * 2 ^ k.
Proof.
  intros Hk Hx. rewrite <- Z.shiftl_mul_pow2, <- Z.shiftr_div_pow2 by lia.
  apply Z.bits_inj'. intros i Hi. rewrite Z.land_spec, Z.shiftl_spec by done.
  assert (Hmask : 2 ^ w - 2 ^ k = Z.shiftl (Z.ones (w - k)) k).
  { rewrite Z.shiftl_mul_pow2, Z.ones_equiv by lia.
    assert (2 ^ w = 2 ^ (w - k) * 2 ^ k) as -> by (rewrite <- Z.pow_add_r by lia; f_equal; lia).
    unfold Z.pred. ring. }
  rewrite Hmask, Z.shiftl_spec by done. destruct (Z.lt_ge_cases i k).
  - rewrite !(Z.testbit_neg_r _ (i - k)) by lia. apply andb_false_r.
  - rewrite Z.shiftr_spec by lia. replace (i - k + k) with i by lia.
    destruct (Z.lt_ge_cases i w).
    + rewrite Z.ones_spec_low by lia. apply andb_true_r.
    + by rewrite (high_bit x w) by lia.
Qed.

Lemma land_high_mask x k :
  0 <= k <= 32 -> uint32 x -> Z.land x (2 ^ 32 - 2 ^ k) = x / 2 ^ k * 2 ^ k.
Proof. apply land_high_bits. Qed.

Definition all_chars (p : ascii -> bool) (s : string) : bool := forallb p (explode s).

(** The dotted text of four octets. *)
Definition dotted_ipv4 (a b c d : Z) : string :=
  JsString.join "." (map Z_to_string [a; b; c; d]).

Definition byte (z : Z) : Prop := 0 <= z < 256.

(** What the two parsers need of the text of an octet. *)
Lemma byte_digits z :
  byte z ->
  parseInt10 (Z_to_string z) = Some z /\ Z_to_string z <> EmptyString /\
  forallb is_digit (explode (Z_to_string z)) = true /\ (String.length (Z_to_string z) <= 3)%nat.
Proof.
  intros Hz.
  assert (H : forallb (fun z => bool_decide (parseInt10 (Z_to_string z) = Some z)
      && negb (String.eqb (Z_to_string z) EmptyString)
      && forallb is_digit (explode (Z_to_string z))
      && (String.length (Z_to_string z) <=? 3)%nat) (seqZ 0 256) = true) by (vm_compute; reflexivity).
  rewrite forallb_elem in H. specialize (H z). rewrite elem_of_seqZ in H.
  specialize (H ltac:(unfold byte in Hz; lia)). rewrite !andb_true_iff in H.
  destruct H as [[[H1 H2] H3] H4]. apply bool_decide_eq_true in H1. apply Nat.leb_le in H4.
  split_and!; try done. intros E. by rewrite E in H2.
Qed.

Lemma byte_chars z (P : ascii -> Prop) :
  byte z -> (forall c, is_digit c = true -> P c) -> Forall P (explode (Z_to_string z)).
Proof.
  intros (_ & _ & H & _)%byte_digits HP. rewrite forallb_elem in H.
  apply Forall_forall. auto.
Qed.

Lemma dotted_chars a b c d (P : ascii -> Prop) :
  byte a -> byte b -> byte c -> byte d ->
  (forall c, is_digit c = true -> P c) -> P "."%char -> Forall P (explode (dotted_ipv4 a b c d)).
Proof.
  intros. apply Forall_explode_join; [by repeat constructor|].
  repeat constructor; by apply byte_chars.
Qed.

Lemma dotted_split a b c d :
  byte a -> byte b -> byte c -> byte d ->
  split_char "."%char (dotted_ipv4 a b c d) = map Z_to_string [a; b; c; d].
Proof.
  intros. apply split_char_join; [done|].
  repeat constructor; apply byte_chars; try done; by intros x Hx ->.
Qed.

Lemma digit_lower c : is_digit c = true -> lower_char c = c.
Proof. destruct c as [[] [] [] [] [] [] [] []]; vm_compute; try done. Qed.

Lemma dotted_first a b c d :
  byte a -> exists x l, explode (dotted_ipv4 a b c d) = x :: l /\ is_digit x = true.
Proof.
  intros (_ & Hne & Hd & _)%byte_digits. unfold dotted_ipv4. cbn [map].
  rewrite join_cons by done. rewrite explode_app.
  destruct (explode (Z_to_string a)) as [|x l] eqn:E.
  - exfalso. apply Hne. by apply explode_inj.
  - cbn in Hd. apply andb_true_iff in Hd as [Hx _]. cbn. eauto.
Qed.

(** The block [network/prefix] as a range: the high bits agree. *)
Definition in_range (network prefix n : Z) : bool :=
  n / 2 ^ (32 - prefix) =? network / 2 ^ (32 - prefix).

Lemma block_test n network k :
  0 <= k < 32 -> uint32 n -> uint32 network -> network mod 2 ^ k = 0 ->
  (and32 n (2 ^ 32 - 2 ^ k) =? to_int32 network) = (n / 2 ^ k =? network / 2 ^ k).
Proof.
  intros Hk Hn Hw Hm. assert (Hk2 : 0 < 2 ^ k <= 2 ^ 31) by (split; [lia|apply Z.pow_le_mono_r; lia]).
  assert (Hmask : uint32 (2 ^ 32 - 2 ^ k)) by (unfold uint32; lia).
  rewrite and32_unsigned, !to_uint32_id, land_high_mask by (done || lia).
  assert (Hq : 0 <= n / 2 ^ k * 2 ^ k <= n)
    by (split; [apply Z.mul_nonneg_nonneg; [apply Z.div_pos; unfold uint32 in Hn; lia | lia]
               | rewrite Z.mul_comm; apply Z.mul_div_le; lia]).
  assert (Hw2 : network = network / 2 ^ k * 2 ^ k)
    by (rewrite Z.mul_comm; pose proof (Z.div_mod network (2 ^ k)); lia).
  destruct (Z.eqb_spec (n / 2 ^ k) (network / 2 ^ k)) as [E|E].
  - rewrite E, <- Hw2. apply Z.eqb_refl.
  - apply Z.eqb_neq. intros E2. apply to_int32_inj in E2; [| |done].
    + apply E. rewrite <- E2. by rewrite Z.div_mul by lia.
    + unfold uint32 in *. lia.
Qed.
