(* ===== verification/SsrfGuard.v ===== *)
(** * Gateway: SSRF guard for webhook URLs

    [services/gateway/src/utils/ssrf-guard.ts]: blocked address ranges, blocked
    host names and the validation of a webhook URL. *)

From S2P Require Import Prelude JsString JsNumber IpText JsValue.
From Stdlib Require Import Ascii.
From stdpp Require Import pretty.

Local Open Scope Z_scope.

(** ** IPv4 ranges *)

Record CidrBlock : Type := { base : Z; mask : Z }.

(** The integer a parsed number stands for under a bitwise operator: 0 for
    NaN, and the nearest binary64 value for large ones. *)
Definition int_bits (o : option Z) : Z :=
  match o with
  | Some z => default 0 (num_to_Z (num_of_Z z))
  | None => 0
  end.

(** [-1] for a text that has not four parts. *)
Definition ipv4ToInt (ip : string) : Z :=
  let parts := split_char "."%char ip in
  if negb (length parts =? 4)%nat then -1
  else to_uint32
    (fold_left (fun acc octet => or32 (shl32 acc 8) (int_bits (parseInt10 octet))) parts 0).

Definition parseCidr (cidr : string) : CidrBlock :=
  let parts := split_char "/"%char cidr in
  let addr := default EmptyString (parts !! 0%nat) in
  let prefix := int_bits (parseInt10 (default "32" (parts !! 1%nat))) in
  let m := if prefix =? 0 then 0 else to_uint32 (shl32 (not32 0) (32 - prefix)) in
  {| base := and32 (ipv4ToInt addr) m; mask := m |}.

Definition BLOCKED_CIDR_BLOCKS : list CidrBlock :=
  map parseCidr
    ["0.0.0.0/8"; "10.0.0.0/8"; "172.16.0.0/12"; "192.168.0.0/16"; "127.0.0.0/8";
     "169.254.0.0/16"; "100.64.0.0/10"].

Definition in_blocked_block (n : Z) : bool :=
  existsb (fun b => and32 n (mask b) =? base b) BLOCKED_CIDR_BLOCKS.

(** ** Addresses *)

(** [[0-9a-f]] *)
Definition is_lower_hex (c : ascii) : bool := is_digit c || code_in 97 102 c.

(** The prefixes [fe80::/10] and [fc00::/7], on the lower-case text. *)
Definition link_local (l : list ascii) : bool :=
  match l with
  | f :: e :: x :: y :: _ =>
      (code f =? 102)%N && (code e =? 101)%N
      && existsb (Ascii.eqb x) (explode "89ab") && is_lower_hex y
  | _ => false
  end.

Definition unique_local (l : list ascii) : bool :=
  match l with
  | f :: c :: x :: y :: _ =>
      (code f =? 102)%N && ((code c =? 99)%N || (code c =? 100)%N)
      && is_lower_hex x && is_lower_hex y
  | _ => false
  end.

(** What follows [::ffff:], if the text starts with it. *)
Definition mapped_rest (s : string) : option string :=
  if startsWith s "::ffff:" then Some (implode (drop 7 (explode s))) else None.

(** [/^\d+\.\d+\.\d+\.\d+$/] *)
Definition is_dotted (s : string) : bool :=
  let parts := split_char "."%char s in
  (length parts =? 4)%nat
  && forallb (fun p => negb (String.eqb p EmptyString) && all_chars is_digit p) parts.

(** [/^([0-9a-f]{1,4}):([0-9a-f]{1,4})$/] *)
Definition hex_group (s : string) : bool :=
  (1 <=? String.length s)%nat && (String.length s <=? 4)%nat && all_chars is_lower_hex s.

Definition hex_pair (s : string) : option (string * string) :=
  match split_char ":"%char s with
  | [h; l] => if hex_group h && hex_group l then Some (h, l) else None
  | _ => None
  end.

Definition isBlockedIpRange (ip : string) : bool :=
  let lower := toLowerCase ip in
  if String.eqb lower "::1" then true
  else if String.eqb lower "::" then true
  else if link_local (explode lower) then true
  else if unique_local (explode lower) then true
  else
    let plain :=
      let asInt := ipv4ToInt lower in
      if asInt =? -1 then false else in_blocked_block asInt in
    match mapped_rest lower with
    | Some r =>
        if is_dotted r then
          let asInt := ipv4ToInt r in negb (asInt =? -1) && in_blocked_block asInt
        else match hex_pair r with
             | Some (h, l) =>
                 in_blocked_block
                   (to_uint32 (or32 (shl32 (int_bits (parseInt16 h)) 16) (int_bits (parseInt16 l))))
             | None => plain
             end
    | None => plain
    end.

(** ** Host names *)

Definition BLOCKED_HOSTNAME_PATTERNS : list string :=
  ["169.254.169.254"; "metadata.google.internal"; "metadata.google.com";
   "kubernetes.default"; "kubernetes.default.svc"; "kubernetes.default.svc.cluster.local"].

Definition isBlockedHostname (hostname : string) : bool :=
  let lower := toLowerCase hostname in
  if String.eqb lower "localhost" then true
  else if String.eqb lower "0.0.0.0" then true
  else if endsWith lower ".local" then true
  else if negb (includes lower ".") && endsWith lower "-service" then true
  else if existsb (fun p => String.eqb lower p || endsWith lower ("." +:+ p))
            BLOCKED_HOSTNAME_PATTERNS then true
  else if mem "metadata" (split_char "."%char lower) then true
  else String.eqb lower "kubernetes.default" || startsWith lower "kubernetes.default.".

(** ** URLs *)

(** What the runtime provides: the URL parser (protocol and host name, [None]
    for a text [new URL] refuses) and the DNS lookups ([None] when the promise
    is rejected). *)
Class Network : Type := {
  parse_url : string -> option (string * string);
  resolve4 : string -> option (list string);
  resolve6 : string -> option (list string)
}.

Inductive webhook_error : Type :=
| InvalidUrl (url : string)
| InvalidProtocol (protocol : string)
| BlockedHostname (hostname : string)
| Unresolved (hostname : string)
| BlockedAddress (ip : string).

Section Webhook.
Context {net : Network}.

Fixpoint check_addresses (ips : list string) : result webhook_error unit :=
  match ips with
  | [] => Ok tt
  | ip :: ips => if isBlockedIpRange ip then Err (BlockedAddress ip) else check_addresses ips
  end.

Definition all_addresses (hostname : string) : list string :=
  default [] (resolve4 hostname) ++ default [] (resolve6 hostname).

(** [env] is [process.env["OP_WEBHOOK_ALLOW_HTTP"]]. *)
Definition validateWebhookUrl (env : option string) (url : string) : result webhook_error unit :=
  match parse_url url with
  | None => Err (InvalidUrl url)
  | Some (protocol, hostname) =>
      let allowHttp := match env with Some v => String.eqb v "true" | None => false end in
      if negb (String.eqb protocol "https:") && negb (allowHttp && String.eqb protocol "http:")
      then Err (InvalidProtocol protocol)
      else if isBlockedHostname hostname then Err (BlockedHostname hostname)
      else match all_addresses hostname with
           | [] => Err (Unresolved hostname)
           | ips => check_addresses ips
           end
  end.
End Webhook.

(** ** Lemmas *)

Definition blocked_ranges : list (Z * Z) :=
  [(0, 8); (10 * 2 ^ 24, 8); (172 * 2 ^ 24 + 16 * 2 ^ 16, 12); (192 * 2 ^ 24 + 168 * 2 ^ 16, 16);
   (127 * 2 ^ 24, 8); (169 * 2 ^ 24 + 254 * 2 ^ 16, 16); (100 * 2 ^ 24 + 64 * 2 ^ 16, 10)].

Lemma blocks_eq :
  BLOCKED_CIDR_BLOCKS =
  map (fun '(n, p) => {| base := to_int32 n; mask := 2 ^ 32 - 2 ^ (32 - p) |}) blocked_ranges.
Proof. vm_compute. reflexivity. Qed.

Lemma in_blocked_block_spec n :
  uint32 n -> in_blocked_block n = existsb (fun '(network, p) => in_range network p n) blocked_ranges.
Proof.
  intros Hn. unfold in_blocked_block. rewrite blocks_eq. unfold blocked_ranges, in_range.
  cbn [map existsb base mask].
  rewrite !block_test; [done|..]; first [lia | exact Hn | unfold uint32; lia | reflexivity].
Qed.

Lemma byte_text z :
  byte z ->
  parseInt10 (Z_to_string z) = Some z /\ int_bits (Some z) = z /\
  Z_to_string z <> EmptyString /\ forallb is_digit (explode (Z_to_string z)) = true.
Proof.
  intros Hz. destruct (byte_digits z Hz) as (H1 & H2 & H3 & _). split_and!; try done.
  assert (Hb : forallb (fun z => int_bits (Some z) =? z) (seqZ 0 256) = true)
    by (vm_compute; reflexivity).
  rewrite forallb_elem in Hb. apply Z.eqb_eq, Hb, elem_of_seqZ. unfold byte in Hz. lia.
Qed.

(** Appending an octet to the accumulator. *)
Lemma push_octet acc n :
  byte n -> to_uint32 (or32 (shl32 acc 8) n) = (to_uint32 acc * 2 ^ 8) mod 2 ^ 32 + n.
Proof.
  intros Hn. unfold byte in Hn. unfold to_uint32, or32. rewrite lor_mod_pow2, !to_int32_mod by done.
  unfold shl32. rewrite !to_int32_mod. change (to_uint32 8 mod 32) with 8.
  rewrite Z.shiftl_mul_pow2 by done. rewrite <- Zmult_mod_idemp_l, to_int32_mod.
  rewrite (Z.mod_small n) by lia. set (x := acc mod 2 ^ 32).
  assert (Hx : (x * 2 ^ 8) mod 2 ^ 32 = (x mod 2 ^ 24) * 2 ^ 8).
  { replace (2 ^ 32) with (2 ^ 24 * 2 ^ 8) by done. by rewrite Zmult_mod_distr_r. }
  rewrite Hx. assert (Hland : Z.land (x mod 2 ^ 24 * 2 ^ 8) n = 0).
  { rewrite <- Z.shiftl_mul_pow2 by done. apply Z.bits_inj'. intros i Hi.
    rewrite Z.land_spec, Z.bits_0, Z.shiftl_spec by done. destruct (Z.lt_ge_cases i 8).
    - by rewrite Z.testbit_neg_r by lia.
    - rewrite (high_bit n 8) by lia. apply andb_false_r. }
  rewrite Z.add_nocarry_lxor by done. by rewrite Z.lxor_lor.
Qed.

Lemma fold_octets a b c d :
  byte a -> byte b -> byte c -> byte d ->
  to_uint32 (fold_left (fun acc octet => or32 (shl32 acc 8) (int_bits (parseInt10 octet)))
    (map Z_to_string [a; b; c; d]) 0) = a * 2 ^ 24 + b * 2 ^ 16 + c * 2 ^ 8 + d.
Proof.
  intros Ha Hb Hc Hd. cbn [map fold_left].
  destruct (byte_text a Ha) as (-> & -> & _), (byte_text b Hb) as (-> & -> & _),
    (byte_text c Hc) as (-> & -> & _), (byte_text d Hd) as (-> & -> & _).
  rewrite !push_octet by done. change (to_uint32 0 * 2 ^ 8 mod 2 ^ 32) with 0.
  unfold byte in *. rewrite (Z.mod_small ((0 + a) * 2 ^ 8)) by lia.
  rewrite (Z.mod_small (((0 + a) * 2 ^ 8 + b) * 2 ^ 8)) by lia.
  rewrite Z.mod_small by lia. lia.
Qed.

Lemma ipv4ToInt_dotted a b c d :
  byte a -> byte b -> byte c -> byte d ->
  ipv4ToInt (dotted_ipv4 a b c d) = a * 2 ^ 24 + b * 2 ^ 16 + c * 2 ^ 8 + d.
Proof. intros. unfold ipv4ToInt. rewrite dotted_split by done. by apply fold_octets. Qed.

(** The documented private ranges, octet by octet. *)
Definition private_ipv4 (a b : Z) : bool :=
  (a =? 0) || (a =? 10) || ((a =? 172) && (16 <=? b) && (b <=? 31)) || ((a =? 192) && (b =? 168))
  || (a =? 127) || ((a =? 169) && (b =? 254)) || ((a =? 100) && (64 <=? b) && (b <=? 127)).

Lemma blocked_octets a b c d :
  byte a -> byte b -> byte c -> byte d ->
  in_blocked_block (a * 2 ^ 24 + b * 2 ^ 16 + c * 2 ^ 8 + d) = private_ipv4 a b.
Proof.
  unfold byte. intros Ha Hb Hc Hd. rewrite in_blocked_block_spec by (unfold uint32; lia).
  unfold blocked_ranges, in_range. cbn [existsb].
  set (n := a * 2 ^ 24 + b * 2 ^ 16 + c * 2 ^ 8 + d).
  assert (H24 : n / 2 ^ 24 = a) by (symmetry; apply (Z.div_unique_pos _ _ _ (b * 2 ^ 16 + c * 2 ^ 8 + d)); lia).
  assert (H16 : n / 2 ^ 16 = a * 256 + b) by (symmetry; apply (Z.div_unique_pos _ _ _ (c * 2 ^ 8 + d)); lia).
  assert (H20 : n / 2 ^ 20 = a * 16 + b / 16).
  { symmetry. apply (Z.div_unique_pos _ _ _ (b mod 16 * 2 ^ 16 + c * 2 ^ 8 + d)).
    - pose proof (Z.mod_pos_bound b 16). lia.
    - pose proof (Z.div_mod b 16). unfold n. lia. }
  assert (H22 : n / 2 ^ 22 = a * 4 + b / 64).
  { symmetry. apply (Z.div_unique_pos _ _ _ (b mod 64 * 2 ^ 16 + c * 2 ^ 8 + d)).
    - pose proof (Z.mod_pos_bound b 64). lia.
    - pose proof (Z.div_mod b 64). unfold n. lia. }
  replace (32 - 8) with 24 by lia. replace (32 - 12) with 20 by lia.
  replace (32 - 16) with 16 by lia. replace (32 - 10) with 22 by lia.
  rewrite H24, H16, H20, H22. clearbody n. clear H24 H16 H20 H22.
  pose proof (Z.div_mod b 16). pose proof (Z.mod_pos_bound b 16).
  pose proof (Z.div_mod b 64). pose proof (Z.mod_pos_bound b 64).
  change (0 / 2 ^ 24) with 0. change (10 * 2 ^ 24 / 2 ^ 24) with 10.
  change ((172 * 2 ^ 24 + 16 * 2 ^ 16) / 2 ^ 20) with (172 * 16 + 1).
  change ((192 * 2 ^ 24 + 168 * 2 ^ 16) / 2 ^ 16) with (192 * 256 + 168).
  change (127 * 2 ^ 24 / 2 ^ 24) with 127.
  change ((169 * 2 ^ 24 + 254 * 2 ^ 16) / 2 ^ 16) with (169 * 256 + 254).
  change ((100 * 2 ^ 24 + 64 * 2 ^ 16) / 2 ^ 22) with (100 * 4 + 1).
  unfold private_ipv4. apply eq_true_iff_eq.
  rewrite !orb_true_iff, !andb_true_iff, !Z.eqb_eq, !Z.leb_le. lia.
Qed.

Lemma hex_lower c : is_lower_hex c = true -> lower_char c = c.
Proof. destruct c as [[] [] [] [] [] [] [] []]; vm_compute; try done. Qed.

Lemma dotted_lower a b c d :
  byte a -> byte b -> byte c -> byte d -> toLowerCase (dotted_ipv4 a b c d) = dotted_ipv4 a b c d.
Proof. intros. apply toLowerCase_id, dotted_chars; try done. apply digit_lower. Qed.

Lemma dotted_is_dotted a b c d :
  byte a -> byte b -> byte c -> byte d -> is_dotted (dotted_ipv4 a b c d) = true.
Proof.
  intros Ha Hb Hc Hd. unfold is_dotted. rewrite dotted_split by done.
  cbn [map length forallb]. unfold all_chars.
  destruct (byte_text a Ha) as (_ & _ & Na & ->), (byte_text b Hb) as (_ & _ & Nb & ->),
    (byte_text c Hc) as (_ & _ & Nc & ->), (byte_text d Hd) as (_ & _ & Nd & ->).
  by rewrite !(proj2 (String.eqb_neq _ _)).
Qed.

(** A text that starts with a digit is no IPv6 special case. *)
Lemma digit_not_special x l s :
  explode s = x :: l -> is_digit x = true ->
  String.eqb s "::1" = false /\ String.eqb s "::" = false /\
  link_local (explode s) = false /\ unique_local (explode s) = false /\ mapped_rest s = None.
Proof.
  intros E Hx.
  assert (H58 : Ascii.eqb ":"%char x = false) by (apply Ascii.eqb_neq; intros <-; done).
  assert (H102 : (code x =? 102)%N = false).
  { apply N.eqb_neq. intros H. unfold is_digit, code_in in Hx. rewrite H in Hx. done. }
  split_and!.
  - apply String.eqb_neq. intros ->. injection E as <- _. done.
  - apply String.eqb_neq. intros ->. injection E as <- _. done.
  - rewrite E. unfold link_local. rewrite H102. by repeat case_match.
  - rewrite E. unfold unique_local. rewrite H102. by repeat case_match.
  - unfold mapped_rest, startsWith. rewrite E. cbn [explode is_prefix]. by rewrite H58.
Qed.

(** A text that starts with [::ffff:] and something more. *)
Lemma mapped_not_special s :
  s <> EmptyString ->
  String.eqb ("::ffff:" +:+ s) "::1" = false /\ String.eqb ("::ffff:" +:+ s) "::" = false /\
  link_local (explode ("::ffff:" +:+ s)) = false /\ unique_local (explode ("::ffff:" +:+ s)) = false /\
  mapped_rest ("::ffff:" +:+ s) = Some s.
Proof.
  intros Hne. destruct s as [|c s]; [done|]. split_and!; try done.
  unfold mapped_rest. rewrite (proj2 (startsWith_spec _ _)) by by eexists. f_equal.
  change (drop 7 _) with (explode (String c s)). apply implode_explode.
Qed.

Lemma hex_group_chars h : hex_group h = true -> Forall (fun c => is_lower_hex c = true) (explode h).
Proof.
  unfold hex_group, all_chars. rewrite !andb_true_iff. intros [_ H].
  apply Forall_forall. by apply forallb_elem.
Qed.

Lemma hex_not c x : is_lower_hex x = true -> is_lower_hex c = false -> x <> c.
Proof. congruence. Qed.

Lemma toLowerCase_mapped s :
  Forall (fun c => lower_char c = c) (explode s) -> toLowerCase ("::ffff:" +:+ s) = "::ffff:" +:+ s.
Proof.
  intros H. apply toLowerCase_id. rewrite explode_app. apply Forall_app. split; [|done].
  by repeat constructor.
Qed.

(** ** Properties *)

(** For IPv4 addresses the guard blocks exactly the documented ranges
    (0/8, 10/8, 172.16/12, 192.168/16, 127/8, 169.254/16, 100.64/10), and an
    IPv4-mapped IPv6 address is blocked exactly when its IPv4 address is, in
    the dotted and in the hexadecimal spelling. *)
Theorem blocked_ipv4 a b c d h l :
  byte a -> byte b -> byte c -> byte d ->
  hex_group h = true -> hex_group l = true ->
  int_bits (parseInt16 h) = a * 256 + b -> int_bits (parseInt16 l) = c * 256 + d ->
  isBlockedIpRange (dotted_ipv4 a b c d) = private_ipv4 a b /\
  isBlockedIpRange ("::ffff:" +:+ dotted_ipv4 a b c d) = private_ipv4 a b /\
  isBlockedIpRange ("::ffff:" +:+ h +:+ ":" +:+ l) = private_ipv4 a b.
Proof.
  intros Ha Hb Hc Hd Hh Hl Eh El.
  assert (Hint := ipv4ToInt_dotted a b c d Ha Hb Hc Hd).
  assert (Hblock := blocked_octets a b c d Ha Hb Hc Hd).
  assert (Hne : (a * 2 ^ 24 + b * 2 ^ 16 + c * 2 ^ 8 + d =? -1) = false)
    by (apply Z.eqb_neq; unfold byte in *; lia).
  split_and!.
  - unfold isBlockedIpRange. rewrite dotted_lower by done.
    destruct (dotted_first a b c d Ha) as (x & r & E & Hx).
    destruct (digit_not_special x r _ E Hx) as (-> & -> & -> & -> & ->).
    by rewrite Hint, Hne.
  - unfold isBlockedIpRange. rewrite toLowerCase_mapped by (apply dotted_chars; try done; apply digit_lower).
    destruct (mapped_not_special (dotted_ipv4 a b c d)) as (-> & -> & -> & -> & ->).
    { intros E. destruct (dotted_first a b c d Ha) as (x & r & E2 & _). by rewrite E in E2. }
    rewrite dotted_is_dotted by done. by rewrite Hint, Hne.
  - assert (Hhc := hex_group_chars h Hh). assert (Hlc := hex_group_chars l Hl).
    unfold isBlockedIpRange.
    assert (Hchars : Forall (fun x => lower_char x = x /\ x <> "."%char) (explode (h +:+ ":" +:+ l))).
    { rewrite !explode_app, !Forall_app. split_and!; [| by repeat constructor |];
        (eapply Forall_impl; [eassumption|]); intros x Hx; split; try (by apply hex_lower);
        by apply (hex_not _ _ Hx). }
    rewrite toLowerCase_mapped by (eapply Forall_impl; [exact Hchars|]; by intros x []).
    destruct (mapped_not_special (h +:+ ":" +:+ l)) as (-> & -> & -> & -> & ->).
    { intros E. apply (f_equal explode) in E. rewrite !explode_app in E. by destruct (explode h). }
    assert (is_dotted (h +:+ ":" +:+ l) = false) as ->.
    { unfold is_dotted. rewrite split_char_one; [done|].
      eapply Forall_impl; [exact Hchars|]. by intros x []. }
    unfold hex_pair. change (":" +:+ l) with (String ":" l).
    assert (Hcolon : forall s, Forall (fun c => is_lower_hex c = true) (explode s) ->
      Forall (fun x => x <> ":"%char) (explode s))
      by (intros s Hs; eapply Forall_impl; [exact Hs|]; intros x Hx; by apply (hex_not _ _ Hx)).
    rewrite split_char_app, split_char_one by auto. rewrite Hh, Hl. cbn [andb].
    rewrite Eh, El, <- Hblock. f_equal. unfold byte in *.
    unfold to_uint32, or32, shl32. rewrite lor_mod_pow2, !to_int32_mod by done.
    change (to_uint32 16 mod 32) with 16. rewrite (to_int32_id (a * 256 + b)) by lia.
    rewrite Z.shiftl_mul_pow2 by done. rewrite !Z.mod_small by lia.
    assert (Hland : Z.land ((a * 256 + b) * 2 ^ 16) (c * 256 + d) = 0).
    { rewrite <- Z.shiftl_mul_pow2 by done. apply Z.bits_inj'. intros i Hi.
      rewrite Z.land_spec, Z.bits_0, Z.shiftl_spec by done. destruct (Z.lt_ge_cases i 16).
      - by rewrite Z.testbit_neg_r by lia.
      - rewrite (high_bit (c * 256 + d) 16) by lia. apply andb_false_r. }
    rewrite <- Z.lxor_lor, <- Z.add_nocarry_lxor by done. lia.
Qed.

(** What a webhook URL that passes cannot be. Its protocol is https (or
    http when the environment allows it), its host name is not blocked, it
    resolves, and none of the IPv4 and IPv6 addresses it resolves to is in a
    blocked range. *)
Theorem webhook_safe {net : Network} env url :
  validateWebhookUrl env url = Ok tt ->
  exists protocol hostname, parse_url url = Some (protocol, hostname) /\
    (protocol = "https:" \/ protocol = "http:" /\ env = Some "true") /\
    isBlockedHostname hostname = false /\
    all_addresses hostname <> [] /\
    Forall (fun ip => isBlockedIpRange ip = false) (all_addresses hostname).
Proof.
  unfold validateWebhookUrl. destruct (parse_url url) as [[protocol hostname]|]; [|done].
  destruct (negb (String.eqb protocol "https:") && _) eqn:Ep; [done|].
  destruct (isBlockedHostname hostname) eqn:Eh; [done|].
  intros H. exists protocol, hostname. split_and!; try done.
  - apply andb_false_iff in Ep as [Ep|Ep]; apply negb_false_iff in Ep.
    + left. by apply String.eqb_eq.
    + apply andb_true_iff in Ep as [E1 E2]. right. split; [by apply String.eqb_eq|].
      destruct env as [v|]; [|done]. by apply String.eqb_eq in E1 as ->.
  - by destruct (all_addresses hostname).
  - destruct (all_addresses hostname) as [|ip ips]; [done|]. revert H. generalize (ip :: ips).
    intros l; induction l as [|x l IH]; intros H; [constructor|]. cbn [check_addresses] in H.
    destruct (isBlockedIpRange x) eqn:Ex; [done|]. constructor; auto.
Qed.

(** ** Witnesses *)

Lemma blocked_ipv4_witness :
  isBlockedIpRange "127.0.0.1" = true /\ isBlockedIpRange "::ffff:127.0.0.1" = true /\
  isBlockedIpRange "::ffff:7f00:0001" = true.
Proof.
  apply (blocked_ipv4 127 0 0 1 "7f00" "0001"); try (by unfold byte; lia); reflexivity.
Defined.

(** Every URL is an https URL of the host after its scheme; one host resolves. *)
Definition sample_network : Network := {|
  parse_url := fun url => Some ("https:", implode (drop 8 (explode url)));
  resolve4 := fun h => if String.eqb h "hooks.example.com" then Some ["93.184.216.34"] else None;
  resolve6 := fun _ => None
|}.

Lemma webhook_safe_witness :
  exists protocol hostname,
    parse_url (Network := sample_network) "https://hooks.example.com" = Some (protocol, hostname) /\
    (protocol = "https:" \/ protocol = "http:" /\ @None string = Some "true") /\
    isBlockedHostname hostname = false /\
    all_addresses (net := sample_network) hostname <> [] /\
    Forall (fun ip => isBlockedIpRange ip = false) (all_addresses (net := sample_network) hostname).
Proof.
  apply (webhook_safe (net := sample_network) None "https://hooks.example.com").
  vm_compute. reflexivity.
Defined.

(** The comment in [isBlockedHostname] names "my-metadata.example.com" as a
    host the segment test catches; it does not. *)
Example metadata_segment :
  isBlockedHostname "metadata.example.com" = true /\
  isBlockedHostname "my-metadata.example.com" = false.
Proof. split; vm_compute; reflexivity. Qed.
