(* ===== verification/CircuitBreaker.v ===== *)
(** * Gateway: circuit breaker

    [services/gateway/src/utils/circuit-breaker.ts]: the state of one breaker,
    the two halves of [execute] (before and after the awaited call), the calls
    in flight, and a specification of the breaker for calls that do not
    overlap: a machine of two states, without the window of the file's header. *)

From S2P Require Import Prelude.

Local Open Scope Z_scope.

(** ** The breaker *)

Inductive BreakerState : Type := Closed | Open | HalfOpen.

#[export] Instance BreakerState_eq_dec : EqDecision BreakerState.
Proof. solve_decision. Defined.

Record CircuitBreakerOptions : Type := { failureThreshold : Z; resetTimeoutMs : Z }.

Record breaker : Type := {
  state : BreakerState;
  consecutiveFailures : Z;
  openedAt : option Z;
  probeInFlight : bool
}.

(** [createCircuitBreaker] *)
Definition createCircuitBreaker : breaker :=
  {| state := Closed; consecutiveFailures := 0; openedAt := None; probeInFlight := false |}.

Definition transitionToOpen (now : Z) (b : breaker) : breaker :=
  {| state := Open; consecutiveFailures := consecutiveFailures b; openedAt := Some now;
     probeInFlight := probeInFlight b |}.

Definition transitionToClosed (b : breaker) : breaker :=
  {| state := Closed; consecutiveFailures := 0; openedAt := None;
     probeInFlight := probeInFlight b |}.

Definition transitionToHalfOpen (b : breaker) : breaker :=
  {| state := HalfOpen; consecutiveFailures := 0; openedAt := openedAt b;
     probeInFlight := false |}.

Definition set_probe (p : bool) (b : breaker) : breaker :=
  {| state := state b; consecutiveFailures := consecutiveFailures b; openedAt := openedAt b;
     probeInFlight := p |}.

Definition set_failures (n : Z) (b : breaker) : breaker :=
  {| state := state b; consecutiveFailures := n; openedAt := openedAt b;
     probeInFlight := probeInFlight b |}.

Section Breaker.
Context (options : CircuitBreakerOptions).

Definition checkHalfOpenTransition (now : Z) (b : breaker) : breaker :=
  match state b, openedAt b with
  | Open, Some t => if resetTimeoutMs options <=? now - t then transitionToHalfOpen b else b
  | _, _ => b
  end.

(** [execute] up to the call of [fn]: [None] when it throws
    [CircuitBreakerOpenError]; the state is changed in both cases. *)
Definition execute_enter (now : Z) (b : breaker) : bool * breaker :=
  let b := checkHalfOpenTransition now b in
  match state b with
  | Open => (false, b)
  | HalfOpen => if probeInFlight b then (false, b) else (true, set_probe true b)
  | Closed => (true, b)
  end.

(** [execute] after [fn] has returned. *)
Definition execute_success (b : breaker) : breaker :=
  match state b with
  | HalfOpen => transitionToClosed (set_probe false b)
  | _ => set_failures 0 b
  end.

(** [execute] after [fn] has thrown. *)
Definition execute_failure (now : Z) (b : breaker) : breaker :=
  let b := set_failures (consecutiveFailures b + 1) b in
  match state b with
  | HalfOpen => transitionToOpen now (set_probe false b)
  | _ => if failureThreshold options <=? consecutiveFailures b then transitionToOpen now b else b
  end.

(** One call that runs alone: it starts at [t0]; if [fn] is called it ends at
    [t1], with a result or an exception. *)
Inductive outcome : Type := Rejected | Returned | Threw.

Definition execute (t0 t1 : Z) (ok : bool) (b : breaker) : outcome * breaker :=
  match execute_enter t0 b with
  | (false, b) => (Rejected, b)
  | (true, b) =>
      if ok then (Returned, execute_success b) else (Threw, execute_failure t1 b)
  end.

Fixpoint execute_all (calls : list (Z * Z * bool)) (b : breaker) : list outcome * breaker :=
  match calls with
  | [] => ([], b)
  | (t0, t1, ok) :: calls =>
      let '(o, b) := execute t0 t1 ok b in
      let '(os, b) := execute_all calls b in (o :: os, b)
  end.

(** ** Calls in flight *)

(** A breaker with the time and, for each call in flight, the state in which
    it was let through. *)
Record system : Type := { brk : breaker; now : Z; in_flight : list BreakerState }.

Inductive event : Type :=
| Clock (t : Z)
| Call
| Succeed (i : nat)
| Throw (i : nat).

Definition remove_at {A} (i : nat) (l : list A) : list A := take i l ++ drop (S i) l.

(** [None] when there is no such call in flight; the flag says whether a call
    was rejected. *)
Definition step (e : event) (s : system) : option (bool * system) :=
  match e with
  | Clock t => Some (false, {| brk := brk s; now := t; in_flight := in_flight s |})
  | Call =>
      let '(go, b) := execute_enter (now s) (brk s) in
      Some (negb go, {| brk := b; now := now s;
                        in_flight := if go then in_flight s ++ [state b] else in_flight s |})
  | Succeed i =>
      if decide (i < length (in_flight s))%nat
      then Some (false, {| brk := execute_success (brk s); now := now s;
                           in_flight := remove_at i (in_flight s) |})
      else None
  | Throw i =>
      if decide (i < length (in_flight s))%nat
      then Some (false, {| brk := execute_failure (now s) (brk s); now := now s;
                           in_flight := remove_at i (in_flight s) |})
      else None
  end.

Fixpoint run (es : list event) (s : system) : option system :=
  match es with
  | [] => Some s
  | e :: es => '(_, s) ← step e s; run es s
  end.

Definition initial (t : Z) : system :=
  {| brk := createCircuitBreaker; now := t; in_flight := [] |}.

Inductive reachable : system -> Prop :=
| reach_initial t : reachable (initial t)
| reach_step s e r s' : reachable s -> step e s = Some (r, s') -> reachable s'.

(** ** The specification *)

(** For calls that do not overlap: closed with a number of consecutive
    failures, or open since a time. *)
Inductive spec_state : Type :=
| SClosed (failures : Z)
| SOpen (since : Z).

Definition spec_call (t0 t1 : Z) (ok : bool) (s : spec_state) : outcome * spec_state :=
  match s with
  | SClosed n =>
      if ok then (Returned, SClosed 0)
      else (Threw, if failureThreshold options <=? n + 1 then SOpen t1 else SClosed (n + 1))
  | SOpen t =>
      if t0 - t <? resetTimeoutMs options then (Rejected, SOpen t)
      else if ok then (Returned, SClosed 0) else (Threw, SOpen t1)
  end.

Fixpoint spec_calls (calls : list (Z * Z * bool)) (s : spec_state) : list outcome * spec_state :=
  match calls with
  | [] => ([], s)
  | (t0, t1, ok) :: calls =>
      let '(o, s) := spec_call t0 t1 ok s in
      let '(os, s) := spec_calls calls s in (o :: os, s)
  end.

(** The breaker states that stand for a specification state. *)
Definition implements (b : breaker) (s : spec_state) : Prop :=
  match s with
  | SClosed n => state b = Closed /\ consecutiveFailures b = n /\ probeInFlight b = false
  | SOpen t => state b = Open /\ openedAt b = Some t /\ probeInFlight b = false
  end.

Lemma execute_refines t0 t1 ok b s :
  implements b s ->
  (execute t0 t1 ok b).1 = (spec_call t0 t1 ok s).1 /\
  implements (execute t0 t1 ok b).2 (spec_call t0 t1 ok s).2.
Proof.
  destruct b as [st n o p]. destruct s as [k|t]; cbn; intros (-> & -> & ->).
  - unfold execute, execute_enter; cbn. destruct ok; cbn; [done|].
    unfold execute_failure; cbn. by case_match.
  - unfold execute, execute_enter, checkHalfOpenTransition; cbn.
    destruct (Z.leb_spec (resetTimeoutMs options) (t0 - t)); destruct (Z.ltb_spec (t0 - t) (resetTimeoutMs options));
      try lia; cbn; [|done].
    by destruct ok.
Qed.

Lemma execute_all_refines calls b s :
  implements b s ->
  (execute_all calls b).1 = (spec_calls calls s).1 /\
  implements (execute_all calls b).2 (spec_calls calls s).2.
Proof.
  revert b s. induction calls as [|[[t0 t1] ok] calls IH]; intros b s Hb; cbn; [done|].
  destruct (execute_refines t0 t1 ok b s Hb) as [Ho Hs].
  destruct (execute t0 t1 ok b) as [o b'], (spec_call t0 t1 ok s) as [o' s']. cbn in Ho, Hs.
  destruct (IH b' s' Hs) as [Hos Hs'].
  destruct (execute_all calls b'), (spec_calls calls s'). cbn in *. by subst.
Qed.

(** ** The invariant *)

Definition breaker_inv (s : system) : Prop :=
  match state (brk s) with
  | Closed => probeInFlight (brk s) = false /\
              0 <= consecutiveFailures (brk s) < failureThreshold options
  | Open => probeInFlight (brk s) = false /\ is_Some (openedAt (brk s))
  | HalfOpen => probeInFlight (brk s) = true /\ in_flight s <> []
  end.

Lemma failure_open b t :
  state (execute_failure t b) = Open \/
  state b = Closed /\ state (execute_failure t b) = Closed /\
  consecutiveFailures b + 1 < failureThreshold options \/
  state b = Open.
Proof.
  destruct b as [[] n o p]; unfold execute_failure; cbn; [|by auto|by auto].
  destruct (Z.leb_spec (failureThreshold options) (n + 1)); auto.
Qed.

Lemma inv_step s e r s' :
  0 < failureThreshold options -> breaker_inv s -> step e s = Some (r, s') -> breaker_inv s'.
Proof.
  intros Hpos Hinv. destruct s as [[st n o p] t l]. unfold breaker_inv in Hinv. cbn in Hinv.
  destruct e as [t'| |i|i]; cbn [step brk now in_flight].
  - intros [= <- <-]. exact Hinv.
  - unfold execute_enter, checkHalfOpenTransition. cbn.
    destruct st, o as [t0|]; cbn; try (destruct Hinv as [-> Hinv]);
      repeat case_match; intros; simplify_eq/=; unfold breaker_inv; cbn;
      split; try done; try by eexists. by destruct l.
  - case_decide; [|done]. intros [= <- <-]. unfold breaker_inv, execute_success; cbn.
    destruct st, Hinv as [-> Hinv]; cbn; split; try done; lia.
  - case_decide; [|done]. intros [= <- <-]. unfold breaker_inv, execute_failure; cbn.
    destruct st, Hinv as [-> Hinv]; cbn; [| |by split; [|eexists]].
    + destruct (Z.leb_spec (failureThreshold options) (n + 1)); cbn; split; try done; try by eexists.
      lia.
    + destruct (_ <=? _); cbn; split; try done; by eexists.
Qed.

Lemma reachable_inv s : 0 < failureThreshold options -> reachable s -> breaker_inv s.
Proof.
  intros Hpos. induction 1; [|by eapply inv_step].
  unfold breaker_inv; cbn. split; [done|lia].
Qed.

Lemma run_reachable es s s' : reachable s -> run es s = Some s' -> reachable s'.
Proof.
  revert s. induction es as [|e es IH]; intros s Hs H; cbn in H; [by simplify_eq|].
  destruct (step e s) as [[r s1]|] eqn:E; [|done]. cbn in H. eauto using reachable.
Qed.
End Breaker.

Arguments reachable options s : clear implicits.

(** ** Properties *)

(** C37: for calls that do not overlap the breaker is a machine of two states,
    closed with a count of consecutive failures and open since a time: the same
    calls are rejected, let through and failed, in every sequence.  The machine
    has no window: however far apart they are, failures with no success between
    them count together, unlike in the design's text and the file's header. *)
Theorem breaker_refines options calls :
  (execute_all options calls createCircuitBreaker).1 = (spec_calls options calls (SClosed 0)).1 /\
  implements (execute_all options calls createCircuitBreaker).2
             (spec_calls options calls (SClosed 0)).2.
Proof. by apply execute_all_refines. Qed.

(** Five failures an hour apart open the breaker. *)
Example failures_hours_apart :
  let calls := map (fun h => (h * 3600000, h * 3600000 + 5000, false)) [0; 1; 2; 3; 4] in
  state (execute_all {| failureThreshold := 5; resetTimeoutMs := 10000 |} calls createCircuitBreaker).2 = Open.
Proof. vm_compute. reflexivity. Qed.

(** With calls that overlap in any way, and whatever the clock does: a
    closed breaker is below the threshold and lets every call through; an open
    breaker has the time it was opened, rejects every call until the reset
    timeout has passed and lets the next one through, so it cannot stay open
    for ever; a half-open breaker rejects every call, but has a call in flight
    and is no longer half-open when any call ends, so it cannot stay half-open
    for ever. *)
Theorem breaker_never_stuck options s (b := brk s) :
  0 < failureThreshold options -> reachable options s ->
  match state b with
  | Closed => consecutiveFailures b < failureThreshold options /\
              execute_enter options (now s) b = (true, b)
  | Open => exists t, openedAt b = Some t /\
      (now s - t < resetTimeoutMs options -> execute_enter options (now s) b = (false, b)) /\
      (resetTimeoutMs options <= now s - t ->
        exists b', execute_enter options (now s) b = (true, b') /\ state b' = HalfOpen)
  | HalfOpen =>
      execute_enter options (now s) b = (false, b) /\ in_flight s <> [] /\
      state (execute_success b) = Closed /\ state (execute_failure options (now s) b) = Open
  end.
Proof.
  intros Hpos Hs%reachable_inv; [|done]. subst b. unfold breaker_inv in Hs.
  destruct s as [[[] n o p] t l]; cbn in *.
  - destruct Hs as [-> [_ Hn]]. by repeat split.
  - destruct Hs as [-> [t0 ->]]. exists t0. split; [done|].
    unfold execute_enter, checkHalfOpenTransition; cbn. split; intros H.
    + apply Z.lt_nge, Z.leb_nle in H. by rewrite H.
    + apply Z.leb_le in H. rewrite H. cbn. by eexists.
  - destruct Hs as [-> Hl]. by repeat split.
Qed.

(** The defaults of the design. *)
Definition default_options : CircuitBreakerOptions :=
  {| failureThreshold := 5; resetTimeoutMs := 10000 |}.

(** Six calls start while the breaker is closed and five fail; the sixth fails
    while the probe is in flight. *)
Definition late_failure : list event :=
  [Call; Call; Call; Call; Call; Call; Throw 0; Throw 0; Throw 0; Throw 0; Throw 0;
   Clock 10000; Call; Throw 0; Clock 20000; Call].

(** One probe at a time is not guaranteed: a call that was let through
    before the breaker opened and fails while the probe runs counts as the
    probe, so that a second probe is let through while the first is still in
    flight. *)
Theorem two_probes :
  exists s, run default_options late_failure (initial 0) = Some s /\
            reachable default_options s /\ in_flight s = [HalfOpen; HalfOpen].
Proof.
  destruct (run default_options late_failure (initial 0)) as [s|] eqn:E; [|vm_compute in E; done].
  exists s. split; [done|]. split.
  - eapply run_reachable; [apply reach_initial|exact E].
  - vm_compute in E. injection E as <-. reflexivity.
Qed.

(** ** Witnesses *)

(** Five failures in a row have opened the breaker. *)
Lemma breaker_never_stuck_witness :
  exists s t, run default_options (take 11 late_failure) (initial 0) = Some s /\
    state (brk s) = Open /\ openedAt (brk s) = Some t /\
    execute_enter default_options (now s) (brk s) = (false, brk s).
Proof.
  assert (H : exists s, run default_options (take 11 late_failure) (initial 0) = Some s)
    by (eexists; vm_compute; reflexivity).
  destruct H as [s H]. exists s.
  assert (Hr : reachable default_options s) by (eapply run_reachable; [apply reach_initial|exact H]).
  pose proof (breaker_never_stuck default_options s ltac:(reflexivity) Hr) as P.
  assert (E : state (brk s) = Open) by (vm_compute in H; injection H as <-; reflexivity).
  cbn zeta in P. rewrite E in P. destruct P as (t & Ht & Hrej & _). exists t.
  split; [exact H|]. split; [done|]. split; [done|]. apply Hrej.
  vm_compute in H. injection H as <-. injection Ht as <-. reflexivity.
Defined.
