(* ===== verification/RateLimiter.v ===== *)
(** * Gateway: sliding-window rate limiter

    [services/gateway/src/utils/sliding-window-rate-limiter.ts]: the decision
    the Lua script takes in Redis, the in-memory fallback with its eviction,
    and [check], which chooses between them. *)

From S2P Require Import Prelude JsString JsNumber.
From Stdlib Require Import QArith Qround Sorting.Sorted.
From stdpp Require Import pretty.

Local Open Scope Z_scope.

(** ** The Lua script

    The reply and whether [KEYS[1]] is incremented.  The arithmetic is exact:
    [check] passes a multiple of the window, for which no rounding occurs. *)

Definition SLIDING_WINDOW_LUA (current previous windowStart windowMs limit : Z) :
    (Z * Z * Z) * bool :=
  let elapsed := windowStart mod windowMs in
  let effective :=
    (inject_Z previous * (1 - inject_Z elapsed / inject_Z windowMs) + inject_Z current)%Q in
  if Qle_bool (inject_Z limit) effective then ((0, Qfloor effective, -1), false)
  else
    let remaining := limit - Qfloor effective - 1 in
    let reset := (windowStart + windowMs) / 1000 in
    ((1, remaining, reset), true).

(** ** The in-memory fallback *)

Definition IN_MEMORY_MAX_ENTRIES : nat := Z.to_nat 10000.
Definition IN_MEMORY_TTL_MS : Z := 2 * 60 * 1000.

Record InMemoryWindow : Type := { timestamps : list Z; lastAccessedAt : Z }.

Definition windows : Type := jmap string InMemoryWindow.

(** The key with the smallest [lastAccessedAt], the first one among equals. *)
Definition oldest_step (acc : option (string * Z)) (e : string * InMemoryWindow) :
    option (string * Z) :=
  let '(k, w) := e in
  match acc with
  | Some (_, t) => if lastAccessedAt w <? t then Some (k, lastAccessedAt w) else acc
  | None => Some (k, lastAccessedAt w)
  end.

(** The first pass: the entries not past the TTL. *)
Definition fresh_entries (now : Z) (m : windows) : windows :=
  filter (fun e : string * InMemoryWindow => now - lastAccessedAt e.2 <= IN_MEMORY_TTL_MS) m.

Definition evictStaleInMemoryEntries (now : Z) (m : windows) : windows :=
  let m := fresh_entries now m in
  if decide (IN_MEMORY_MAX_ENTRIES <= length m)%nat then
    match fold_left oldest_step m None with
    | Some (k, _) => jm_delete k m
    | None => m
    end
  else m.

Record memory_result : Type := { mem_allowed : bool; mem_remaining : Z; mem_resetAt : Z }.

Definition prune (windowStart : Z) (ts : list Z) : list Z :=
  (span (fun t => t <=? windowStart) ts).2.

(** Eviction happens only when the map is full. *)
Definition make_room (now : Z) (m : windows) : windows :=
  if decide (IN_MEMORY_MAX_ENTRIES <= length m)%nat then evictStaleInMemoryEntries now m else m.

Definition inMemoryCheck (key : string) (instanceLimit windowMs now : Z) (m : windows) :
    memory_result * windows :=
  let windowStart := now - windowMs in
  let m := make_room now m in
  let ts := match jm_get key m with Some w => timestamps w | None => [] end in
  let ts := prune windowStart ts in
  let count := Z.of_nat (length ts) in
  let resetAt := (now + windowMs) / 1000 in
  if instanceLimit <=? count then
    ({| mem_allowed := false; mem_remaining := 0; mem_resetAt := resetAt |},
     jm_set key {| timestamps := ts; lastAccessedAt := now |} m)
  else
    ({| mem_allowed := true; mem_remaining := instanceLimit - count - 1; mem_resetAt := resetAt |},
     jm_set key {| timestamps := ts ++ [now]; lastAccessedAt := now |} m).

(** ** [check] *)

(** The commands of Redis the script uses, on the contents of the server, and
    whether the round trip succeeds. *)
Class Redis : Type := {
  db : Type;
  redis_get : string -> db -> option Z;
  redis_incr : string -> db -> db;
  redis_pexpire : string -> Z -> db -> db;
  redis_up : db -> bool
}.

Record RateLimitResult : Type :=
  { allowed : bool; remaining : Z; resetAt : Z; policy : string }.

Section Limiter.
Context {redis : Redis}.

Record limiter : Type := { redisHealthy : bool; server : db; memory : windows }.

Definition on_error (l : limiter) : limiter :=
  {| redisHealthy := false; server := server l; memory := memory l |}.
Definition on_ready (l : limiter) : limiter :=
  {| redisHealthy := true; server := server l; memory := memory l |}.

Context (windowMs fallbackReplicaCount : Z).

Definition window_key (key : string) (start : Z) : string := key +:+ ":" +:+ Z_to_string start.

(** [Math.floor(limit * burstMultiplier)], [None] when it is not finite. *)
Definition effective_limit (limit : Z) (burstMultiplier : number) : option Z :=
  num_to_Z (num_floor (num_mul (num_of_Z limit) burstMultiplier)).

Definition run_script (key : string) (now limit : Z) (d : db) : (Z * Z * Z) * db :=
  let windowStart := now / windowMs * windowMs in
  let currentKey := window_key key windowStart in
  let prevKey := window_key key (windowStart - windowMs) in
  let '(reply, incr) :=
    SLIDING_WINDOW_LUA (default 0 (redis_get currentKey d)) (default 0 (redis_get prevKey d))
      windowStart windowMs limit in
  (reply, if incr then redis_pexpire currentKey (windowMs * 2) (redis_incr currentKey d) else d).

Definition fallback (key : string) (now limit : Z) (l : limiter) : RateLimitResult * limiter :=
  let replicaCount := Z.max 1 fallbackReplicaCount in
  let '(r, m) := inMemoryCheck key (limit / replicaCount) windowMs now (memory l) in
  ({| allowed := mem_allowed r; remaining := mem_remaining r; resetAt := mem_resetAt r;
      policy := "in-memory-fallback" |},
   {| redisHealthy := redisHealthy l; server := server l; memory := m |}).

(** With the effective limit. *)
Definition check (key : string) (limit now : Z) (l : limiter) : RateLimitResult * limiter :=
  if negb (redisHealthy l) then fallback key now limit l
  else if redis_up (server l) then
    let '((a, rem, reset), d) := run_script key now limit (server l) in
    ({| allowed := a =? 1; remaining := Z.max 0 rem;
        resetAt := if 0 <? reset then reset else (now + windowMs) / 1000;
        policy := "redis-sliding-window" |},
     {| redisHealthy := true; server := d; memory := memory l |})
  else fallback key now limit (on_error l).

(** Checks of one key at several times. *)
Fixpoint check_all (key : string) (limit : Z) (times : list Z) (l : limiter) :
    list RateLimitResult * limiter :=
  match times with
  | [] => ([], l)
  | now :: times =>
      let '(r, l) := check key limit now l in
      let '(rs, l) := check_all key limit times l in (r :: rs, l)
  end.
End Limiter.

(** ** Specification of the fallback: the log of the requests let through *)

Section Log.
Context (limit windowMs : Z).

Definition in_window (key : string) (now : Z) (log : list (string * Z)) : list (string * Z) :=
  filter (fun e => e.1 = key /\ now - windowMs < e.2) log.

Definition log_check (r : string * Z) (log : list (string * Z)) : bool * list (string * Z) :=
  if limit <=? Z.of_nat (length (in_window r.1 r.2 log)) then (false, log)
  else (true, log ++ [r]).

Fixpoint log_run (rs : list (string * Z)) (log : list (string * Z)) :
    list bool * list (string * Z) :=
  match rs with
  | [] => ([], log)
  | r :: rs => let '(b, log) := log_check r log in
               let '(bs, log) := log_run rs log in (b :: bs, log)
  end.

Fixpoint memory_run (rs : list (string * Z)) (m : windows) : list bool * windows :=
  match rs with
  | [] => ([], m)
  | (key, now) :: rs =>
      let '(r, m) := inMemoryCheck key limit windowMs now m in
      let '(bs, m) := memory_run rs m in (mem_allowed r :: bs, m)
  end.
End Log.

(** ** Lemmas: the log *)

Definition log_times (key : string) (log : list (string * Z)) : list Z :=
  map snd (filter (fun e : string * Z => e.1 = key) log).

Definition times_of (key : string) (m : windows) : list Z :=
  match jm_get key m with Some w => timestamps w | None => [] end.

Lemma log_times_app key l1 l2 : log_times key (l1 ++ l2) = log_times key l1 ++ log_times key l2.
Proof. unfold log_times. by rewrite filter_app, map_app. Qed.

Lemma in_window_times windowMs key now log :
  length (in_window windowMs key now log)
  = length (filter (fun t => now - windowMs < t) (log_times key log)).
Proof.
  unfold in_window, log_times. induction log as [|[k t] log IH]; [done|].
  rewrite !filter_cons. cbn [fst snd].
  destruct (decide (k = key)); [|rewrite decide_False by (by intros [])]; [|exact IH].
  cbn [map]. rewrite filter_cons. cbn [snd].
  destruct (decide (now - windowMs < t)).
  - rewrite decide_True by done. cbn. by rewrite IH.
  - rewrite decide_False by (by intros []). exact IH.
Qed.

Lemma filter_none {A} (P : A -> Prop) `{!forall x, Decision (P x)} l :
  Forall (fun x => ~ P x) l -> filter P l = [].
Proof.
  induction 1 as [|x l Hx _ IH]; [done|]. by rewrite filter_cons, decide_False.
Qed.

Lemma filter_all {A} (P : A -> Prop) `{!forall x, Decision (P x)} l :
  Forall P l -> filter P l = l.
Proof.
  induction 1 as [|x l Hx _ IH]; [done|]. by rewrite filter_cons, decide_True, IH.
Qed.

(** On sorted times, dropping from the front keeps exactly the recent ones. *)
Lemma prune_spec s ts :
  StronglySorted Z.le ts ->
  exists d, ts = d ++ prune s ts /\ Forall (fun t => t <= s) d /\
            prune s ts = filter (fun t => s < t) ts.
Proof.
  unfold prune. induction 1 as [|t ts Hs IH Ht]; [by exists []|]. cbn [span].
  destruct (Z.leb_spec t s) as [H|H].
  - destruct IH as (d & E & Hd & Hf). destruct (span (fun t => t <=? s) ts) as [a b]. cbn [snd] in *.
    exists (t :: d). rewrite filter_cons, decide_False by lia.
    split_and!; [by rewrite E at 1 | by constructor | exact Hf].
  - exists []. split_and!; [done|done|]. cbn [snd]. symmetry. apply filter_all.
    constructor; [done|]. eapply Forall_impl; [exact Ht|]. cbn. lia.
Qed.

Lemma sorted_snoc ts now :
  StronglySorted Z.le ts -> Forall (fun t => t <= now) ts -> StronglySorted Z.le (ts ++ [now]).
Proof.
  induction 1 as [|t ts Hs IH Ht]; intros Hall; cbn.
  - by repeat constructor.
  - apply Forall_cons in Hall as [H1 H2]. constructor; [by apply IH|].
    apply Forall_app; split; [done|by repeat constructor].
Qed.

Lemma sorted_app_r (l1 l2 : list Z) : StronglySorted Z.le (l1 ++ l2) -> StronglySorted Z.le l2.
Proof. induction l1; cbn; [done|]. inversion 1. auto. Qed.

Lemma log_times_bound key log t :
  Forall (fun e => e.2 <= t) log -> Forall (fun x => x <= t) (log_times key log).
Proof.
  intros H. apply Forall_forall. intros x Hx. unfold log_times in Hx.
  apply list_elem_of_fmap in Hx as ([k y] & -> & Hy). apply list_elem_of_filter in Hy as [_ Hy].
  rewrite Forall_forall in H. by apply (H (k, y)).
Qed.

(** ** Lemmas: the map simulates the log *)

Section Simulation.
Context (limit windowMs : Z) (ks : list string).

Record simulates (t : Z) (m : windows) (log : list (string * Z)) : Prop := {
  sim_keys : NoDup (jm_keys m) /\ jm_keys m ⊆ ks;
  sim_past : Forall (fun e => e.2 <= t) log;
  sim_sorted : forall k, StronglySorted Z.le (log_times k log);
  sim_times : forall k, exists d,
    log_times k log = d ++ times_of k m /\ Forall (fun x => x <= t - windowMs) d
}.

Lemma simulates_size t m log :
  simulates t m log -> (length m <= length ks)%nat.
Proof.
  intros [[Hnd Hsub] _ _ _]. transitivity (length (jm_keys m)).
  - unfold jm_keys. by rewrite length_map.
  - apply submseteq_length, NoDup_submseteq; [done|]. exact Hsub.
Qed.

Lemma set_keys key w (m : windows) :
  key ∈ ks -> NoDup (jm_keys m) /\ jm_keys m ⊆ ks ->
  NoDup (jm_keys (jm_set key w m)) /\ jm_keys (jm_set key w m) ⊆ ks.
Proof.
  intros Hk [Hnd Hsub]. split; [by apply jm_set_NoDup|].
  intros x Hx. apply jm_keys_set_subseteq in Hx as [->|Hx]; [done|]. by apply Hsub.
Qed.

Lemma times_of_set key w m k :
  times_of k (jm_set key w m) = if decide (key = k) then timestamps w else times_of k m.
Proof. unfold times_of. rewrite jm_get_set. by case_decide. Qed.

Lemma check_simulates t key now m log :
  (length ks < IN_MEMORY_MAX_ENTRIES)%nat -> key ∈ ks -> t <= now -> simulates t m log ->
  let '(r, m') := inMemoryCheck key limit windowMs now m in
  let '(b, log') := log_check limit windowMs (key, now) log in
  mem_allowed r = b /\ simulates now m' log'.
Proof.
  intros Hks Hkey Ht Hsim. pose proof (simulates_size _ _ _ Hsim) as Hsize.
  destruct Hsim as [Hkeys Hpast Hsorted Htimes].
  unfold inMemoryCheck, log_check. cbn [fst snd].
  unfold make_room. rewrite decide_False by lia. fold (times_of key m).
  destruct (Htimes key) as (d & Ed & Hd).
  assert (Hts : StronglySorted Z.le (times_of key m)) by (eapply sorted_app_r; by rewrite <- Ed).
  destruct (prune_spec (now - windowMs) _ Hts) as (d2 & Ed2 & Hd2 & Ef).
  rewrite in_window_times, Ed, filter_app, filter_none, app_nil_l, <- Ef
    by (eapply Forall_impl; [exact Hd|]; cbn; lia).
  set (p := prune (now - windowMs) (times_of key m)) in *.
  assert (Hold : forall k, exists d, log_times k log = d ++
      (if decide (key = k) then p else times_of k m) /\ Forall (fun x => x <= now - windowMs) d).
  { intros k. destruct (decide (key = k)) as [<-|Hne].
    - exists (d ++ d2). rewrite <- app_assoc, <- Ed2. split; [done|]. apply Forall_app. split; [|done].
      eapply Forall_impl; [exact Hd|]. cbn. lia.
    - destruct (Htimes k) as (dk & Ek & Hdk). exists dk. split; [done|].
      eapply Forall_impl; [exact Hdk|]. cbn. lia. }
  assert (Hpast' : Forall (fun e => e.2 <= now) log) by (eapply Forall_impl; [exact Hpast|]; cbn; lia).
  destruct (limit <=? _); cbn; (split; [done|]); split; try by apply set_keys.
  - done.
  - done.
  - intros k. rewrite times_of_set. exact (Hold k).
  - apply Forall_app; split; [done|]. by repeat constructor.
  - intros k. rewrite log_times_app. unfold log_times at 2. rewrite filter_cons. cbn [fst].
    destruct (decide (key = k)); cbn; [|by rewrite app_nil_r].
    apply sorted_snoc; [done|]. by apply log_times_bound.
  - intros k. rewrite times_of_set, log_times_app. unfold log_times at 2. rewrite filter_cons. cbn [fst].
    destruct (Hold k) as (dk & Ek & Hdk). exists dk. split; [|done]. rewrite Ek.
    destruct (decide (key = k)); cbn; [by rewrite <- app_assoc|by rewrite app_nil_r].
Qed.

Lemma run_simulates rs t m log :
  (length ks < IN_MEMORY_MAX_ENTRIES)%nat -> Forall (fun r => r.1 ∈ ks) rs ->
  StronglySorted Z.le (t :: map snd rs) -> simulates t m log ->
  (memory_run limit windowMs rs m).1 = (log_run limit windowMs rs log).1.
Proof.
  intros Hks. revert t m log. induction rs as [|[key now] rs IH]; intros t m log Hrs Hs Hsim; [done|].
  apply Forall_cons in Hrs as [Hk Hrs]. cbn [map snd fst] in *.
  inversion Hs as [|? ? Hs' Hle]; subst. apply Forall_cons in Hle as [Hle _].
  pose proof (check_simulates t key now m log Hks Hk Hle Hsim) as H.
  cbn [memory_run log_run]. destruct (inMemoryCheck _ _ _ _ _) as [r m'], (log_check _ _ _ _) as [b log'].
  destruct H as [-> Hsim']. specialize (IH now m' log' Hrs Hs' Hsim').
  destruct (memory_run _ _ rs m'), (log_run _ _ rs log'). cbn in *. by rewrite IH.
Qed.

Lemma simulates_initial t : simulates t [] [].
Proof.
  split; [split; [constructor|by intros ? []%elem_of_nil] | constructor | intros; constructor|].
  intros k. by exists [].
Qed.
End Simulation.

(** ** Lemmas: the bound of the log *)

Lemma log_run_app limit windowMs rs log :
  exists new, (log_run limit windowMs rs log).2 = log ++ new.
Proof.
  revert log. induction rs as [|r rs IH]; intros log; cbn; [by exists []; rewrite app_nil_r|].
  unfold log_check. destruct (limit <=? _).
  - destruct (IH log) as [new E]. destruct (log_run _ _ rs log). by exists new.
  - destruct (IH (log ++ [r])) as [new E]. destruct (log_run _ _ rs (log ++ [r])).
    exists (r :: new). cbn in *. by rewrite E, <- app_assoc.
Qed.

(** Requests of [key] in the window that ends at [t]. *)
Definition count_between (windowMs : Z) (key : string) (t : Z) (log : list (string * Z)) : Z :=
  Z.of_nat (length (filter (fun e : string * Z => e.1 = key /\ t - windowMs < e.2 <= t) log)).

Lemma count_between_snoc windowMs key t log r :
  count_between windowMs key t (log ++ [r]) =
  count_between windowMs key t log +
  (if decide (r.1 = key /\ t - windowMs < r.2 <= t) then 1 else 0).
Proof.
  unfold count_between. rewrite filter_app, length_app, filter_cons.
  destruct (decide (r.1 = key /\ t - windowMs < r.2 <= t)); cbn; lia.
Qed.

Lemma log_check_bound limit windowMs r log :
  Forall (fun e => e.2 <= r.2) log ->
  (forall key t, count_between windowMs key t log <= Z.max 0 limit) ->
  forall key t, count_between windowMs key t (log_check limit windowMs r log).2 <= Z.max 0 limit.
Proof.
  intros Hpast Hc key t. unfold log_check.
  destruct (Z.leb_spec limit (Z.of_nat (length (in_window windowMs r.1 r.2 log)))) as [|Hlt]; [apply Hc|].
  cbn [snd]. rewrite count_between_snoc. case_decide as Hr; [|specialize (Hc key t); lia].
  destruct Hr as [<- [Hr1 Hr2]].
  enough (count_between windowMs r.1 t log <= Z.of_nat (length (in_window windowMs r.1 r.2 log))) by lia.
  unfold count_between, in_window. apply inj_le, submseteq_length, sublist_submseteq.
  clear -Hr2. induction log as [|e log IH]; [done|]. rewrite !filter_cons.
  case_decide as H1; case_decide as H2; [by apply sublist_skip| |by apply sublist_cons|done].
  exfalso. apply H2. destruct H1. split; [done|lia].
Qed.

Lemma log_run_bound limit windowMs rs t0 log :
  StronglySorted Z.le (t0 :: map snd rs) -> Forall (fun e => e.2 <= t0) log ->
  (forall key t, count_between windowMs key t log <= Z.max 0 limit) ->
  forall key t, count_between windowMs key t (log_run limit windowMs rs log).2 <= Z.max 0 limit.
Proof.
  revert t0 log. induction rs as [|r rs IH]; intros t0 log Hs Hpast Hc; [done|].
  cbn [map] in Hs. inversion Hs as [|? ? Hs' Hle]; subst. apply Forall_cons in Hle as [Hle _].
  assert (Hpast' : Forall (fun e => e.2 <= r.2) log) by (eapply Forall_impl; [exact Hpast|]; cbn; lia).
  pose proof (log_check_bound limit windowMs r log Hpast' Hc) as Hc'.
  cbn [log_run]. destruct (log_check limit windowMs r log) as [b log'] eqn:E.
  assert (Hpast2 : Forall (fun e => e.2 <= r.2) log').
  { unfold log_check in E. destruct (limit <=? _) in E; simplify_eq; [done|].
    apply Forall_app; split; [done|by repeat constructor]. }
  specialize (IH r.2 log' Hs' Hpast2 Hc'). by destruct (log_run _ _ rs log').
Qed.

(** ** Lemmas: eviction *)

(** The candidate among the entries seen so far. *)
Definition oldest_inv (seen : windows) (acc : option (string * Z)) : Prop :=
  match acc with
  | Some (k, t) => (exists w, (k, w) ∈ seen /\ lastAccessedAt w = t) /\
                   Forall (fun e => t <= lastAccessedAt e.2) seen
  | None => seen = []
  end.

Lemma oldest_fold rest seen acc :
  oldest_inv seen acc -> oldest_inv (seen ++ rest) (fold_left oldest_step rest acc).
Proof.
  revert seen acc. induction rest as [|[k w] rest IH]; intros seen acc Hinv; cbn [fold_left].
  - by rewrite app_nil_r.
  - rewrite (cons_middle (k, w) seen rest), app_assoc. apply IH. unfold oldest_step.
    destruct acc as [[k' t]|]; cbn in Hinv.
    + destruct Hinv as [(w' & Hin & <-) Hall].
      destruct (Z.ltb_spec (lastAccessedAt w) (lastAccessedAt w')); cbn; split.
      * exists w. split; [|done]. apply elem_of_app; right. by constructor.
      * apply Forall_app; split; [|by repeat constructor].
        eapply Forall_impl; [exact Hall|]. cbn. lia.
      * exists w'. split; [|done]. apply elem_of_app. by left.
      * apply Forall_app; split; [done|by repeat constructor].
    + subst seen. cbn. split; [|by repeat constructor]. exists w. split; [|done]. by constructor.
Qed.

Lemma oldest_spec m : oldest_inv m (fold_left oldest_step m None).
Proof. by apply (oldest_fold m [] None). Qed.

Lemma delete_shorter k w (m : windows) : (k, w) ∈ m -> (length (jm_delete k m) < length m)%nat.
Proof.
  unfold jm_delete. induction m as [|[k' w'] m IH]; [by intros ?%elem_of_nil|].
  intros [[= <- <-]|H]%elem_of_cons; cbn.
  - rewrite bool_decide_true by done. cbn.
    pose proof (List.filter_length_le (fun e : string * InMemoryWindow => negb (bool_decide (k = e.1))) m).
    cbn in *. lia.
  - specialize (IH H). case_bool_decide; cbn in *; lia.
Qed.

Lemma evict_length now m :
  (length m <= IN_MEMORY_MAX_ENTRIES)%nat ->
  (length (evictStaleInMemoryEntries now m) < IN_MEMORY_MAX_ENTRIES)%nat.
Proof.
  intros Hm. unfold evictStaleInMemoryEntries.
  assert (Hf : (length (fresh_entries now m) <= length m)%nat) by apply length_filter.
  case_decide as H; [|lia]. pose proof (oldest_spec (fresh_entries now m)) as Ho.
  destruct (fold_left oldest_step (fresh_entries now m) None) as [[k t]|]; cbn in Ho.
  - destruct Ho as [(w & Hin & _) _]. apply delete_shorter in Hin. lia.
  - exfalso. rewrite Ho in H. unfold IN_MEMORY_MAX_ENTRIES in H. change (length []) with 0%nat in H. lia.
Qed.

Lemma elem_of_delete k (m : windows) e : e ∈ jm_delete k m <-> e ∈ m /\ e.1 <> k.
Proof.
  unfold jm_delete. rewrite !list_elem_of_In, filter_In, negb_true_iff, bool_decide_eq_false.
  naive_solver.
Qed.

(** What eviction removes: entries past the TTL, and one entry that no fresh
    entry is older than. *)
Lemma evict_kept now (m : windows) e :
  NoDup (jm_keys m) -> e ∈ m -> now - lastAccessedAt e.2 <= IN_MEMORY_TTL_MS ->
  e ∈ evictStaleInMemoryEntries now m \/
  forall e', e' ∈ evictStaleInMemoryEntries now m -> lastAccessedAt e.2 <= lastAccessedAt e'.2.
Proof.
  intros Hnd He Hfresh. unfold evictStaleInMemoryEntries.
  assert (Hin : e ∈ fresh_entries now m) by (apply list_elem_of_filter; done).
  assert (Hnd' : NoDup (jm_keys (fresh_entries now m))).
  { refine (sublist_NoDup _ _ Hnd _). apply fmap_sublist, sublist_filter. }
  case_decide; [|by left]. pose proof (oldest_spec (fresh_entries now m)) as Ho.
  destruct (fold_left oldest_step (fresh_entries now m) None) as [[k t]|]; [|by left].
  destruct Ho as [(w & Hw & <-) Hall]. destruct e as [k' w']. cbn [fst snd] in *.
  destruct (decide (k' = k)) as [->|Hk].
  - right. intros e' [He' _]%elem_of_delete.
    assert (E : Some w = Some w') by (by rewrite <- (jm_elem_of_get k w _ Hnd' Hw), <- (jm_elem_of_get k w' _ Hnd' Hin)).
    injection E as ->. rewrite Forall_forall in Hall. by apply Hall.
  - left. by apply elem_of_delete.
Qed.

(** Checks of any keys with any limits, windows and times. *)
Fixpoint memory_checks (cs : list (string * Z * Z * Z)) (m : windows) : windows :=
  match cs with
  | [] => m
  | (key, limit, windowMs, now) :: cs =>
      memory_checks cs (inMemoryCheck key limit windowMs now m).2
  end.

Lemma check_length key limit windowMs now m :
  (length m <= IN_MEMORY_MAX_ENTRIES)%nat ->
  (length (inMemoryCheck key limit windowMs now m).2 <= IN_MEMORY_MAX_ENTRIES)%nat.
Proof.
  intros Hm. unfold inMemoryCheck.
  assert (Hm' : (length (make_room now m) < IN_MEMORY_MAX_ENTRIES)%nat).
  { unfold make_room. case_decide; [by apply evict_length|lia]. }
  destruct (limit <=? _); cbn [snd];
    (apply Nat.le_trans with (S (length (make_room now m))); [apply jm_set_length|exact Hm']).
Qed.

(** ** Lemmas: the script *)

Lemma Z_to_string_inj a b : Z_to_string a = Z_to_string b -> a = b.
Proof.
  assert (Hne : forall (x y : N), "-" +:+ pretty x <> pretty y).
  { intros x y E. pose proof (pretty_N_digits y) as H. rewrite <- E, explode_app in H.
    by apply Forall_cons in H as [? _]. }
  unfold Z_to_string. destruct (Z.ltb_spec a 0), (Z.ltb_spec b 0); intros E.
  - apply append_inj, (inj pretty) in E. lia.
  - by apply Hne in E.
  - symmetry in E. by apply Hne in E.
  - apply (inj pretty) in E. lia.
Qed.

(** On a window boundary nothing of the window has elapsed. *)
Lemma script_boundary current previous windowStart windowMs limit :
  0 < windowMs -> windowStart mod windowMs = 0 ->
  SLIDING_WINDOW_LUA current previous windowStart windowMs limit =
  (if limit <=? previous + current then ((0, previous + current, -1), false)
   else ((1, limit - (previous + current) - 1, (windowStart + windowMs) / 1000), true)).
Proof.
  intros Hw Hm. unfold SLIDING_WINDOW_LUA. rewrite Hm.
  assert (E : (inject_Z previous * (1 - inject_Z 0 / inject_Z windowMs) + inject_Z current
               == inject_Z (previous + current))%Q).
  { rewrite inject_Z_plus. unfold Qdiv. rewrite Qmult_0_l. ring. }
  rewrite (Qfloor_comp _ _ E), Qfloor_Z.
  assert (Hle : Qle_bool (inject_Z limit) (inject_Z previous * (1 - inject_Z 0 / inject_Z windowMs) + inject_Z current)
                = (limit <=? previous + current)).
  { apply eq_true_iff_eq. rewrite Qle_bool_iff, Z.leb_le, E. by rewrite <- Zle_Qle. }
  by rewrite Hle.
Qed.

(** ** Properties *)

(** The in-memory fallback lets a request through exactly when fewer than
    the limit of the earlier requests of its key that were let through lie in
    the window ending now, for every interleaving of keys at times that do not
    decrease and below the eviction threshold; so no window of the given length
    ever holds more than the limit for a key. *)
Theorem memory_window limit windowMs ks t0 rs :
  (length ks < IN_MEMORY_MAX_ENTRIES)%nat -> Forall (fun r => r.1 ∈ ks) rs ->
  StronglySorted Z.le (t0 :: map snd rs) ->
  (memory_run limit windowMs rs []).1 = (log_run limit windowMs rs []).1 /\
  forall key t, count_between windowMs key t (log_run limit windowMs rs []).2 <= Z.max 0 limit.
Proof.
  intros Hks Hrs Hs. split.
  - eapply run_simulates; [done..|]. apply simulates_initial.
  - eapply log_run_bound; [done|constructor|]. intros key t. unfold count_between. cbn. lia.
Qed.

(** The fallback never tracks more than 10,000 keys, whatever is checked
    at whatever times; and eviction only removes entries past the TTL and one
    entry that was used no later than any that stay. *)
Theorem memory_bounded cs now (m : windows) :
  (length (memory_checks cs []) <= IN_MEMORY_MAX_ENTRIES)%nat /\
  (NoDup (jm_keys m) -> forall e, e ∈ m -> now - lastAccessedAt e.2 <= IN_MEMORY_TTL_MS ->
    e ∈ evictStaleInMemoryEntries now m \/
    forall e', e' ∈ evictStaleInMemoryEntries now m -> lastAccessedAt e.2 <= lastAccessedAt e'.2).
Proof.
  split; [|intros Hnd e; by apply evict_kept].
  assert (H : forall m, (length m <= IN_MEMORY_MAX_ENTRIES)%nat ->
              (length (memory_checks cs m) <= IN_MEMORY_MAX_ENTRIES)%nat).
  { clear. induction cs as [|[[[key limit] w] now] cs IH]; intros m Hm; [done|].
    apply IH. by apply check_length. }
  apply H. cbn [length]. lia.
Qed.

Definition sample_checks : list (string * Z * Z * Z) := [("a", 1, 10, 5); ("b", 1, 10, 6)].

Definition sample_windows : windows :=
  [("a", {| timestamps := [5]; lastAccessedAt := 5 |})].

Lemma memory_bounded_witness :
  (length (memory_checks sample_checks []) <= IN_MEMORY_MAX_ENTRIES)%nat /\
  (("a", {| timestamps := [5]; lastAccessedAt := 5 |}) ∈ evictStaleInMemoryEntries 6 sample_windows \/
   forall e', e' ∈ evictStaleInMemoryEntries 6 sample_windows -> 5 <= lastAccessedAt e'.2).
Proof.
  destruct (memory_bounded sample_checks 6 sample_windows) as [H1 H2].
  split; [exact H1|]. apply (H2 ltac:(apply NoDup_singleton)
    ("a", {| timestamps := [5]; lastAccessedAt := 5 |}));
    [by constructor|unfold IN_MEMORY_TTL_MS; cbn; lia].
Defined.

(** What the commands of Redis do, while a counter has not expired. *)
Class RedisLaws (redis : Redis) : Prop := {
  get_incr_eq k d : redis_get k (redis_incr k d) = Some (default 0 (redis_get k d) + 1);
  get_incr_ne k k' d : k <> k' -> redis_get k' (redis_incr k d) = redis_get k' d;
  get_pexpire k k' ms d : 0 < ms -> redis_get k' (redis_pexpire k ms d) = redis_get k' d;
  always_up d : redis_up d = true
}.

Definition counter {redis : Redis} (windowMs : Z) (key : string) (q : Z) (d : db) : Z :=
  default 0 (redis_get (window_key key (q * windowMs)) d).

Lemma redis_check_step {redis : Redis} {laws : RedisLaws redis} windowMs replicas key limit now q (l : limiter) :
  0 < windowMs -> now / windowMs = q -> redisHealthy l = true ->
  let base := counter windowMs key (q - 1) (server l) + counter windowMs key q (server l) in
  let '(r, l') := check windowMs replicas key limit now l in
  allowed r = (base <? limit) /\
  remaining r = Z.max 0 (if base <? limit then limit - base - 1 else base) /\
  redisHealthy l' = true /\
  counter windowMs key (q - 1) (server l') + counter windowMs key q (server l')
    = (if base <? limit then base + 1 else base).
Proof.
  intros Hw Hq Hup base. unfold check. rewrite Hup, always_up. cbn [negb]. unfold run_script.
  rewrite Hq. replace (q * windowMs - windowMs) with ((q - 1) * windowMs) by lia.
  rewrite script_boundary by (done || by apply Z.mod_mul; lia).
  fold (counter windowMs key q (server l)) (counter windowMs key (q - 1) (server l)). fold base.
  rewrite Z.leb_antisym. destruct (Z.ltb_spec base limit) as [Hlt|Hge]; cbn; [|done].
  split_and!; [done|done|done|].
  unfold counter. rewrite !get_pexpire by lia. rewrite get_incr_eq, get_incr_ne.
  { unfold base, counter. cbn [from_option id]. lia. }
  intros E. unfold window_key in E. apply append_inj, append_inj, Z_to_string_inj in E. nia.
Qed.

(** With Redis healthy, all checks of a key inside one window see the
    whole count of the previous window plus the current one: the i-th check
    passes exactly when previous + current + i is below the limit, wherever in
    the window it happens.  The count of the previous window is never scaled
    by the elapsed fraction, and a denied check reports as remaining not zero
    but the count. *)
Theorem redis_fixed_window {redis : Redis} {laws : RedisLaws redis} windowMs replicas key limit q times (l : limiter) :
  0 < windowMs -> Forall (fun now => now / windowMs = q) times -> redisHealthy l = true ->
  let base := counter windowMs key (q - 1) (server l) + counter windowMs key q (server l) in
  forall i r, (check_all windowMs replicas key limit times l).1 !! i = Some r ->
  allowed r = (base + Z.of_nat i <? limit) /\
  remaining r = Z.max 0 (if base + Z.of_nat i <? limit then limit - base - Z.of_nat i - 1
                         else Z.max base limit).
Proof.
  intros Hw Htimes. revert l. induction Htimes as [|now times Hq _ IH]; intros l Hup base i r; [done|].
  cbn [check_all]. pose proof (redis_check_step windowMs replicas key limit now q l Hw Hq Hup) as Hstep.
  cbn zeta in Hstep. fold base in Hstep. destruct (check _ _ _ _ _ l) as [r0 l'].
  destruct Hstep as (Ha & Hr & Hup' & Hbase). specialize (IH l' Hup'). cbn zeta in IH.
  rewrite Hbase in IH. destruct (check_all _ _ _ _ times l') as [rs l'']. cbn [fst] in IH |- *.
  destruct i as [|i]; cbn; intros H.
  - injection H as <-. rewrite Z.add_0_r. split; [done|]. rewrite Hr.
    destruct (Z.ltb_spec base limit); lia.
  - specialize (IH i r H) as [-> ->].
    destruct (Z.ltb_spec base limit).
    + replace (base + 1 + Z.of_nat i) with (base + Z.of_nat (S i)) by lia. split; [done|].
      destruct (Z.ltb_spec (base + Z.of_nat (S i)) limit); lia.
    + replace (base + Z.of_nat i <? limit) with false by (symmetry; apply Z.ltb_ge; lia).
      replace (base + Z.of_nat (S i) <? limit) with false by (symmetry; apply Z.ltb_ge; lia). done.
Qed.

(** ** Witnesses *)

Lemma memory_window_witness :
  (memory_run 2 1000 [("a", 0); ("a", 10); ("b", 20); ("a", 30); ("a", 1005)] []).1
  = [true; true; true; false; true].
Proof.
  rewrite (proj1 (memory_window 2 1000 ["a"; "b"] 0
    [("a", 0); ("a", 10); ("b", 20); ("a", 30); ("a", 1005)]
    ltac:(unfold IN_MEMORY_MAX_ENTRIES; cbn [length]; lia) ltac:(repeat constructor)
    ltac:(repeat constructor; cbn; lia))).
  vm_compute. reflexivity.
Defined.

(** A server that keeps every counter. *)
Definition sample_redis : Redis := {|
  db := string -> option Z;
  redis_get := fun k d => d k;
  redis_incr := fun k d k' => if String.eqb k k' then Some (default 0 (d k) + 1) else d k';
  redis_pexpire := fun _ _ d => d;
  redis_up := fun _ => true
|}.

Lemma sample_redis_laws : RedisLaws sample_redis.
Proof.
  split; cbn; try done; intros.
  - by rewrite String.eqb_refl.
  - by rewrite (proj2 (String.eqb_neq k k')).
Qed.

Definition sample_server : db (Redis := sample_redis) :=
  fun k => if String.eqb k "k:0" then Some 2 else None.

(** Two requests in the previous window and a limit of three: the last moment
    of the window still allows only one. *)
Lemma redis_fixed_window_witness :
  map allowed (check_all (redis := sample_redis) 1000 1 "k" 3 [1000; 1999]
    {| redisHealthy := true;
       server := sample_server;
       memory := [] |}).1 = [true; false].
Proof.
  pose proof (redis_fixed_window (laws := sample_redis_laws) 1000 1 "k" 3 1 [1000; 1999]
    {| redisHealthy := true;
       server := sample_server;
       memory := [] |} ltac:(lia) ltac:(repeat constructor) ltac:(reflexivity)) as H.
  cbn zeta in H.
  destruct (check_all _ _ _ _ _ _).1 as [|r0 [|r1 [|r2 rs]]] eqn:E.
  1,2,4: vm_compute in E; discriminate E.
  pose proof (proj1 (H 0%nat r0 eq_refl)) as H0. pose proof (proj1 (H 1%nat r1 eq_refl)) as H1.
  cbn [map]. rewrite H0, H1. vm_compute. reflexivity.
Defined.
