(* ===== verification/IpAllowlist.v ===== *)
(** * Core: IP allowlist

    [packages/core/src/middleware/ip-allowlist.ts]: the client address of a
    request, IPv4 and IPv6 parsing, CIDR matching and the middleware's
    decision. *)

From S2P Require Import Prelude JsString JsNumber IpText.
From Stdlib Require Import Ascii.

Local Open Scope Z_scope.

(** ** The client address *)

Definition stripPortSuffix (ip : string) : string :=
  let colons :=
    if (length (split_char ":"%char ip) - 1 =? 1)%nat
    then implode (take (default 0%nat (indexOf ip ":")) (explode ip))
    else ip in
  if startsWith ip "[" then
    match indexOf ip "]" with
    | Some bracketEnd => implode (take (bracketEnd - 1) (drop 1 (explode ip)))
    | None => colons
    end
  else colons.

(** The argument is the [x-real-ip] header; no other header is read. *)
Definition parseIpFromRequest (realIp : option string) : string :=
  match realIp with
  | Some h => if String.eqb h EmptyString then EmptyString else stripPortSuffix (trim h)
  | None => EmptyString
  end.

(** ** Parsing *)

(** What follows [/^::ffff:/i]. *)
Definition mapped_suffix (ip : string) : option string :=
  if startsWith (toLowerCase ip) "::ffff:" then Some (implode (drop 7 (explode ip))) else None.

Definition sized (lo hi : nat) (p : ascii -> bool) (s : string) : bool :=
  (lo <=? String.length s)%nat && (String.length s <=? hi)%nat && all_chars p s.

(** [\d{1,3}\.\d{1,3}\.\d{1,3}\.\d{1,3}] *)
Definition dotted_digits (s : string) : bool :=
  let parts := split_char "."%char s in
  (length parts =? 4)%nat && forallb (sized 1 3 is_digit) parts.

(** [[0-9a-f]{1,4}], in any case *)
Definition is_group (s : string) : bool := sized 1 4 is_hex s.

(** [parseInt(g, 16)] of a group *)
Definition group_value (g : string) : Z := default 0 (parseInt16 g).

Definition hex_bytes (hi lo : Z) : string :=
  JsString.join "."
    (map Z_to_string
       [Z.land (Z.shiftr hi 8) 255; Z.land hi 255; Z.land (Z.shiftr lo 8) 255; Z.land lo 255]).

Definition normaliseIp (ip : string) : string :=
  match mapped_suffix ip with
  | Some r =>
      if dotted_digits r then r
      else match split_char ":"%char r with
           | [h; l] =>
               if is_group h && is_group l then hex_bytes (group_value h) (group_value l) else ip
           | _ => ip
           end
  | None => ip
  end.

(** The loop over the parts.  [parseInt] gives NaN ([None]) for a part without
    leading digits; [String(NaN)] is "NaN", and NaN passes both comparisons. *)
Fixpoint parse_octets (result : Z) (parts : list string) : option Z :=
  match parts with
  | [] => Some result
  | part :: parts =>
      match parseInt10 part with
      | Some n =>
          if negb (String.eqb (Z_to_string n) part) || (n <? 0) || (255 <? n) then None
          else parse_octets (to_uint32 (result * 256 + n)) parts
      | None => if String.eqb "NaN" part then parse_octets 0 parts else None
      end
  end.

Definition parseIpv4 (ip : string) : option Z :=
  let parts := split_char "."%char ip in
  if negb (length parts =? 4)%nat then None else parse_octets 0 parts.

Fixpoint group_list (parts : list string) : option (list Z) :=
  match parts with
  | [] => Some []
  | p :: parts => if is_group p then cons (group_value p) <$> group_list parts else None
  end.

Definition parseGroups (s : string) : option (list Z) :=
  if String.eqb s EmptyString then Some [] else group_list (split_char ":"%char s).

Definition expandIpv6 (ip : string) : option (list Z) :=
  if includes (toLowerCase ip) "::ffff:" && negb (String.eqb (normaliseIp ip) ip) then None
  else
    match split ip "::" with
    | [s] => groups ← parseGroups s;
             if negb (length groups =? 8)%nat then None else Some groups
    | [l; r] =>
        left ← parseGroups l;
        right ← parseGroups r;
        let zeros := 8 - Z.of_nat (length left) - Z.of_nat (length right) in
        if zeros <? 0 then None else Some (left ++ replicate (Z.to_nat zeros) 0 ++ right)
    | _ => None
    end.

(** ** Matching *)

(** A prefix length after [parseInt]: [None] is NaN, which passes the range
    checks when the text is "NaN". *)
Definition prefix_ok (max : Z) (text : string) : bool :=
  match parseInt10 text with
  | Some p => negb ((p <? 0) || (max <? p) || negb (String.eqb (Z_to_string p) text))
  | None => String.eqb "NaN" text
  end.

(** A shift by NaN is a shift by 0. *)
Definition match_ipv4 (ipv4 cidrIpv4 : Z) (prefix : option Z) : bool :=
  if bool_decide (prefix = Some 0) then true
  else
    let mask := to_uint32 (shl32 4294967295 (default 0 (Z.sub 32 <$> prefix))) in
    to_uint32 (and32 ipv4 mask) =? to_uint32 (and32 cidrIpv4 mask).

(** The loop over the groups, with the bits left. *)
Fixpoint match_groups (bitsLeft : option Z) (ip cidr : list Z) : bool :=
  match ip, cidr with
  | g :: ip, h :: cidr =>
      match bitsLeft with
      | Some b =>
          if b <=? 0 then true
          else
            let bits := Z.min b 16 in
            let mask := and32 (shl32 65535 (16 - bits)) 65535 in
            if and32 g mask =? and32 h mask then match_groups (Some (b - 16)) ip cidr else false
      | None => if and32 g 65535 =? and32 h 65535 then match_groups None ip cidr else false
      end
  | _, _ => true
  end.

Definition isIpInCidr (ip cidr : string) : bool :=
  let normIp := normaliseIp ip in
  let '(cidrAddress, prefixLenStr) :=
    match last_index_char "/"%char (explode cidr) with
    | None => (cidr, None)
    | Some i => (implode (take i (explode cidr)), Some (implode (drop (S i) (explode cidr))))
    end in
  let normCidr := normaliseIp cidrAddress in
  match parseIpv4 normIp, parseIpv4 normCidr with
  | Some ipv4, Some cidrIpv4 =>
      match prefixLenStr with
      | None => ipv4 =? cidrIpv4
      | Some s => if prefix_ok 32 s then match_ipv4 ipv4 cidrIpv4 (parseInt10 s) else false
      end
  | _, _ =>
      match expandIpv6 normIp, expandIpv6 normCidr with
      | Some ipv6, Some cidrIpv6 =>
          match prefixLenStr with
          | None => bool_decide (ipv6 = cidrIpv6)
          | Some s => if prefix_ok 128 s then match_groups (parseInt10 s) ipv6 cidrIpv6 else false
          end
      | _, _ => false
      end
  end.

Definition isIpInAllowlist (ip : string) (allowlist : list string) : bool :=
  existsb (fun entry => isIpInCidr (normaliseIp ip) (trim entry)) allowlist.

(** ** The middleware *)

Inductive decision : Type :=
| Next
| NoClientIp
| NotAllowed (context : string).

Definition createIpAllowlistMiddleware (allowlist : list string) (context : option string)
    (realIp : option string) : decision :=
  if (length allowlist =? 0)%nat then Next
  else
    let clientIp := parseIpFromRequest realIp in
    if String.eqb clientIp EmptyString then NoClientIp
    else if negb (isIpInAllowlist clientIp allowlist) then NotAllowed (default "IP" context)
    else Next.

(** The address forms and ranges of the documentation. *)
Example allowlist_examples :
  isIpInCidr "192.168.1.77" "192.168.1.0/24" = true /\
  isIpInCidr "::ffff:c0a8:014d" "192.168.1.0/24" = true /\
  isIpInCidr "2001:db8::1" "2001:db8::/32" = true /\
  isIpInCidr "2001:db9::1" "2001:db8::/32" = false /\
  isIpInCidr "10.0.0.1" "2001:db8::/32" = false /\
  parseIpFromRequest (Some "[::1]:8080") = "::1" /\
  parseIpFromRequest (Some "192.168.1.1:12345") = "192.168.1.1".
Proof. split_and!; vm_compute; reflexivity. Qed.

(** A part "NaN" is accepted as an octet, and a prefix "NaN" as a full one. *)
Example nan_octets :
  parseIpv4 "10.0.0.NaN" = Some 0 /\ isIpInCidr "0.0.0.0" "10.0.0.NaN" = true /\
  isIpInCidr "10.0.0.1" "10.0.0.1/NaN" = true.
Proof. split_and!; vm_compute; reflexivity. Qed.

(** ** Lemmas: IPv4 *)

Lemma parse_octets_bytes acc l :
  Forall byte l -> parse_octets acc (map Z_to_string l)
  = Some (fold_left (fun r n => to_uint32 (r * 256 + n)) l acc).
Proof.
  intros H. revert acc. induction H as [|n l Hn _ IH]; intros acc; [done|].
  cbn [map parse_octets fold_left]. destruct (byte_digits n Hn) as (-> & _).
  rewrite String.eqb_refl. unfold byte in Hn.
  rewrite (proj2 (Z.ltb_ge n 0)), (proj2 (Z.ltb_ge 255 n)) by lia. apply IH.
Qed.

(** The address as an integer. *)
Definition ipv4 (a b c d : Z) : Z := a * 2 ^ 24 + b * 2 ^ 16 + c * 2 ^ 8 + d.

Lemma ipv4_range a b c d : byte a -> byte b -> byte c -> byte d -> uint32 (ipv4 a b c d).
Proof. unfold byte, uint32, ipv4. lia. Qed.

Lemma parseIpv4_dotted a b c d :
  byte a -> byte b -> byte c -> byte d -> parseIpv4 (dotted_ipv4 a b c d) = Some (ipv4 a b c d).
Proof.
  intros Ha Hb Hc Hd. unfold parseIpv4. rewrite dotted_split by done.
  cbn [length map Nat.eqb negb].
  etrans; [apply (parse_octets_bytes 0 [a; b; c; d]); repeat (apply Forall_cons_2; [done|]); apply Forall_nil_2|]. cbn [fold_left]. f_equal.
  unfold to_uint32, ipv4, byte in *.
  rewrite (Z.mod_small (0 * 256 + a)) by lia.
  rewrite (Z.mod_small ((0 * 256 + a) * 256 + b)) by lia.
  rewrite (Z.mod_small (((0 * 256 + a) * 256 + b) * 256 + c)) by lia.
  rewrite Z.mod_small by lia. lia.
Qed.

Lemma dotted_dotted_digits a b c d :
  byte a -> byte b -> byte c -> byte d -> dotted_digits (dotted_ipv4 a b c d) = true.
Proof.
  intros Ha Hb Hc Hd. unfold dotted_digits. rewrite dotted_split by done.
  assert (H : forall z, byte z -> sized 1 3 is_digit (Z_to_string z) = true).
  { intros z Hz. destruct (byte_digits z Hz) as (_ & Hne & Hdig & Hlen).
    unfold sized, all_chars. rewrite Hdig, (proj2 (Nat.leb_le _ _) Hlen), !andb_true_r.
    apply Nat.leb_le. destruct (Z_to_string z); [done|cbn; lia]. }
  cbn [map length forallb]. by rewrite !H.
Qed.

(** A text that starts with neither a colon is no mapped address. *)
Lemma mapped_suffix_none c s : lower_char c <> ":"%char -> mapped_suffix (String c s) = None.
Proof.
  intros Hc. unfold mapped_suffix, toLowerCase, on_chars, startsWith. rewrite explode_implode.
  cbn [explode map is_prefix]. rewrite (proj2 (Ascii.eqb_neq _ _)); [done|]. congruence.
Qed.

Lemma mapped_suffix_some s : mapped_suffix ("::ffff:" +:+ s) = Some s.
Proof.
  unfold mapped_suffix.
  assert (H : startsWith (toLowerCase ("::ffff:" +:+ s)) "::ffff:" = true).
  { apply startsWith_spec. exists (toLowerCase s). unfold toLowerCase, on_chars.
    rewrite explode_app, map_app, implode_app. done. }
  rewrite H. f_equal. change (drop 7 _) with (explode s). apply implode_explode.
Qed.

Lemma hex_bytes_dotted h l a b c d :
  byte a -> byte b -> byte c -> byte d -> h = a * 256 + b -> l = c * 256 + d ->
  hex_bytes h l = dotted_ipv4 a b c d.
Proof.
  unfold byte. intros Ha Hb Hc Hd -> ->. unfold hex_bytes, dotted_ipv4.
  change 255 with (Z.ones 8). rewrite !Z.land_ones, !Z.shiftr_div_pow2 by done.
  change (2 ^ 8) with 256.
  assert (Hdiv : forall x y, 0 <= x < 256 -> 0 <= y < 256 -> ((x * 256 + y) / 256) mod 256 = x).
  { intros x y Hx Hy. rewrite Z.div_add_l, (Z.div_small y), Z.add_0_r by lia. by apply Z.mod_small. }
  assert (Hmod : forall x y, 0 <= y < 256 -> (x * 256 + y) mod 256 = y).
  { intros x y Hy. rewrite Z.add_comm, Z.mod_add by done. by apply Z.mod_small. }
  rewrite !Hdiv, !Hmod by done. reflexivity.
Qed.

(** The spellings of an IPv4 address the code documents. *)
Inductive spells (a b c d : Z) : string -> Prop :=
| spells_dotted : spells a b c d (dotted_ipv4 a b c d)
| spells_mapped : spells a b c d ("::ffff:" +:+ dotted_ipv4 a b c d)
| spells_hex h l :
    is_group h = true -> is_group l = true ->
    group_value h = a * 256 + b -> group_value l = c * 256 + d ->
    spells a b c d ("::ffff:" +:+ h +:+ ":" +:+ l).

Lemma sized_chars lo hi p s : sized lo hi p s = true -> Forall (fun c => p c = true) (explode s).
Proof.
  unfold sized, all_chars. rewrite !andb_true_iff. intros [_ H].
  apply Forall_forall. by apply forallb_elem.
Qed.

Lemma group_no c g : is_group g = true -> is_hex c = false -> Forall (fun x => x <> c) (explode g).
Proof.
  intros H Hc. eapply Forall_impl; [by eapply sized_chars|]. cbn. intros x Hx ->. congruence.
Qed.

Lemma normaliseIp_spelling a b c d ip :
  byte a -> byte b -> byte c -> byte d -> spells a b c d ip ->
  normaliseIp ip = dotted_ipv4 a b c d.
Proof.
  intros Ha Hb Hc Hd [| |h l Hh Hl Eh El]; unfold normaliseIp.
  - destruct (dotted_first a b c d Ha) as (x & r & E & Hx).
    rewrite <- (implode_explode (dotted_ipv4 a b c d)), E. cbn [implode].
    rewrite mapped_suffix_none; [done|]. rewrite digit_lower by done. by intros ->.
  - by rewrite mapped_suffix_some, dotted_dotted_digits.
  - rewrite mapped_suffix_some.
    assert (dotted_digits (h +:+ ":" +:+ l) = false) as ->.
    { unfold dotted_digits. rewrite split_char_one; [done|].
      rewrite !explode_app, !Forall_app. split_and!; [by apply group_no|by repeat constructor|by apply group_no]. }
    change (":" +:+ l) with (String ":" l).
    rewrite split_char_app, split_char_one by (by apply group_no). rewrite Hh, Hl. cbn [andb].
    by apply hex_bytes_dotted.
Qed.

(** ** Lemmas: the parts of an entry *)

Lemma last_index_none c l : Forall (fun x => x <> c) l -> last_index_char c l = None.
Proof.
  induction 1 as [|x l Hx _ IH]; [done|]. cbn. rewrite IH. by rewrite (proj2 (Ascii.eqb_neq x c)).
Qed.

Lemma last_index_app c l r :
  Forall (fun x => x <> c) r -> last_index_char c (l ++ c :: r) = Some (length l).
Proof.
  intros Hr. induction l as [|x l IH]; cbn.
  - by rewrite last_index_none, Ascii.eqb_refl.
  - by rewrite IH.
Qed.

Lemma entry_split addr p :
  byte p ->
  last_index_char "/"%char (explode (addr +:+ "/" +:+ Z_to_string p)) = Some (length (explode addr)) /\
  implode (take (length (explode addr)) (explode (addr +:+ "/" +:+ Z_to_string p))) = addr /\
  implode (drop (S (length (explode addr))) (explode (addr +:+ "/" +:+ Z_to_string p))) = Z_to_string p.
Proof.
  intros Hp. rewrite explode_app. change (explode ("/" +:+ Z_to_string p))
    with ("/"%char :: explode (Z_to_string p)). split_and!.
  - apply last_index_app. apply byte_chars; [done|]. by intros c Hc ->.
  - by rewrite take_app_length, implode_explode.
  - rewrite cons_middle, app_assoc. rewrite drop_app_length' by (rewrite length_app; cbn; lia).
    apply implode_explode.
Qed.

Lemma prefix_ok_byte max p : byte p -> prefix_ok max (Z_to_string p) = (p <=? max).
Proof.
  intros Hp. unfold prefix_ok. destruct (byte_digits p Hp) as (-> & _).
  rewrite String.eqb_refl, orb_false_r. unfold byte in Hp.
  rewrite (proj2 (Z.ltb_ge p 0)) by lia. cbn [orb]. symmetry. apply Z.leb_antisym.
Qed.

Lemma match_ipv4_spec n m p :
  uint32 n -> uint32 m -> 0 <= p <= 32 ->
  match_ipv4 n m (Some p) = (n / 2 ^ (32 - p) =? m / 2 ^ (32 - p)).
Proof.
  intros Hn Hm Hp. unfold match_ipv4. case_bool_decide as H0.
  - injection H0 as ->. unfold uint32 in *. by rewrite !Z.div_small by (cbn; lia).
  - cbn [fmap option_fmap option_map from_option id].
    assert (Hmask : forall k, 0 <= k < 32 -> to_uint32 (shl32 4294967295 k) = 2 ^ 32 - 2 ^ k).
    { assert (H : forallb (fun k => to_uint32 (shl32 4294967295 k) =? 2 ^ 32 - 2 ^ k) (seqZ 0 32) = true)
        by (vm_compute; reflexivity).
      intros k Hk. rewrite forallb_elem in H. apply Z.eqb_eq, H, elem_of_seqZ. lia. }
    assert (Hp0 : p <> 0) by congruence. set (k := 32 - p) in *.
    assert (Hk : 0 <= k < 32) by (subst k; lia). cbn beta iota. fold k. rewrite Hmask by done.
    assert (Hk2 : 0 < 2 ^ k <= 2 ^ 31) by (split; [lia|apply Z.pow_le_mono_r; lia]).
    assert (Hu : uint32 (2 ^ 32 - 2 ^ k)) by (unfold uint32; lia).
    rewrite !and32_unsigned, !to_uint32_int32, !(to_uint32_id (2 ^ 32 - 2 ^ k)),
      (to_uint32_id n), (to_uint32_id m), !land_high_mask by (done || lia).
    assert (Hd : forall x, uint32 x -> to_uint32 (x / 2 ^ k * 2 ^ k) = x / 2 ^ k * 2 ^ k).
    { intros x Hx. apply to_uint32_id. unfold uint32 in *.
      pose proof (Z.mul_div_le x (2 ^ k)). pose proof (Z.div_pos x (2 ^ k)). nia. }
    rewrite !Hd by done. destruct (Z.eqb_spec (n / 2 ^ k) (m / 2 ^ k)) as [->|E]; [apply Z.eqb_refl|].
    apply Z.eqb_neq. intros E2. apply E. nia.
Qed.

(** ** Lemmas: IPv6 text *)

(** No two colons in a row, and no colon at the end. *)
Fixpoint single_colons (l : list ascii) : bool :=
  match l with
  | [] => true
  | c :: l =>
      (if Ascii.eqb c ":" then match l with d :: _ => negb (Ascii.eqb d ":") | [] => false end
       else true) && single_colons l
  end.

Definition colons : list ascii := explode "::".

Lemma index_from_single l r :
  single_colons l = true -> index_from colons (l ++ colons ++ r) = Some (length l).
Proof.
  induction l as [|c l IH]; intros H; [done|]. cbn [single_colons] in H.
  apply andb_true_iff in H as [Hc Hl]. specialize (IH Hl).
  assert (Hp : is_prefix colons ((c :: l) ++ colons ++ r) = false).
  { cbn [app is_prefix colons explode]. rewrite (Ascii.eqb_sym ":"%char c).
    destruct (Ascii.eqb c ":"); [|done]. destruct l as [|d l]; [done|]. cbn.
    rewrite (Ascii.eqb_sym ":"%char d). by destruct (Ascii.eqb d ":"). }
  cbn [index_from app]. cbn [app] in Hp. rewrite Hp. by rewrite IH.
Qed.

Lemma index_from_none l : single_colons l = true -> index_from colons l = None.
Proof.
  induction l as [|c l IH]; intros H; [done|]. cbn [single_colons] in H.
  apply andb_true_iff in H as [Hc Hl].
  assert (Hp : is_prefix colons (c :: l) = false).
  { cbn [is_prefix colons explode]. rewrite (Ascii.eqb_sym ":"%char c).
    destruct (Ascii.eqb c ":"); [|done]. destruct l as [|d l]; [done|]. cbn.
    rewrite (Ascii.eqb_sym ":"%char d). by destruct (Ascii.eqb d ":"). }
  cbn [index_from]. rewrite Hp. by rewrite IH.
Qed.

Lemma single_colons_app l r :
  Forall (fun c => c <> ":"%char) l -> single_colons r = true -> single_colons (l ++ r) = true.
Proof.
  induction 1 as [|c l Hc _ IH]; intros Hr; [done|]. cbn.
  rewrite (proj2 (Ascii.eqb_neq c ":")) by done. by apply IH.
Qed.

Lemma group_nonempty g : is_group g = true -> exists c r, explode g = c :: r /\ c <> ":"%char.
Proof.
  intros H. pose proof (group_no ":" g H eq_refl) as Hf. destruct g as [|c g]; [done|].
  cbn [explode] in *. apply Forall_cons in Hf as [Hc _]. eauto.
Qed.

Lemma single_colons_groups gs :
  Forall (fun g => is_group g = true) gs ->
  single_colons (explode (join ":" gs)) = true.
Proof.
  induction 1 as [|g gs Hg Hgs IH]; [done|]. destruct gs as [|g2 gs].
  - cbn [join]. rewrite <- (app_nil_r (explode g)). apply single_colons_app; [by apply group_no|done].
  - rewrite join_cons, !explode_app by done. apply single_colons_app; [by apply group_no|].
    apply Forall_cons in Hgs as [Hg2 _]. destruct (group_nonempty g2 Hg2) as (c & r & E & Hc).
    assert (Ej : exists r', explode (join ":" (g2 :: gs)) = c :: r').
    { destruct gs; [by exists r|]. rewrite join_cons, explode_app, E by done. by eexists. }
    destruct Ej as [r' Ej]. rewrite Ej in IH |- *. cbn [explode app].
    change (single_colons (":"%char :: c :: r')) with (negb (Ascii.eqb c ":") && single_colons (c :: r')).
    rewrite IH. by rewrite (proj2 (Ascii.eqb_neq c ":")).
Qed.

Lemma group_list_groups gs :
  Forall (fun g => is_group g = true) gs -> group_list gs = Some (map group_value gs).
Proof. induction 1 as [|g gs Hg _ IH]; [done|]. cbn. by rewrite Hg, IH. Qed.

Lemma parseGroups_groups gs :
  Forall (fun g => is_group g = true) gs -> parseGroups (join ":" gs) = Some (map group_value gs).
Proof.
  intros H. destruct gs as [|g gs]; [done|]. unfold parseGroups.
  rewrite (proj2 (String.eqb_neq _ _)).
  - rewrite split_char_join; [by apply group_list_groups|done|].
    eapply Forall_impl; [exact H|]. intros x Hx. by apply group_no.
  - intros E. apply (f_equal explode) in E. apply Forall_cons in H as [Hg _].
    destruct (group_nonempty g Hg) as (c & r & Eg & _). destruct gs as [|g2 gs].
    + cbn in E. by rewrite Eg in E.
    + by rewrite join_cons, explode_app, Eg in E.
Qed.

Lemma split_colons_one s : single_colons (explode s) = true -> split s "::" = [s].
Proof.
  intros H. unfold split. cbn [split_fuel]. fold colons. rewrite index_from_none by done.
  by rewrite implode_explode.
Qed.

Lemma split_colons_two s t :
  single_colons (explode s) = true -> single_colons (explode t) = true ->
  split (s +:+ "::" +:+ t) "::" = [s; t].
Proof.
  intros Hs Ht. unfold split. cbn [split_fuel].
  rewrite !explode_app. fold colons. rewrite index_from_single by done.
  rewrite take_app_length, implode_explode. f_equal.
  rewrite app_assoc, drop_app_length' by (rewrite length_app; cbn; lia).
  set (n := String.length _). assert (n <> 0%nat).
  { unfold n. rewrite <- length_explode, !explode_app, !length_app. cbn. lia. }
  destruct n; [done|]. cbn [split_fuel]. rewrite index_from_none by done.
  by rewrite implode_explode.
Qed.

(** ** Lemmas: IPv6 matching *)

(** Eight groups as an integer of [16 * n] bits. *)
Fixpoint groups_value (gs : list Z) : Z :=
  match gs with
  | [] => 0
  | g :: gs => g * 2 ^ (16 * Z.of_nat (length gs)) + groups_value gs
  end.

Definition is_u16 (g : Z) : Prop := 0 <= g < 2 ^ 16.

Lemma groups_value_range gs : Forall is_u16 gs -> 0 <= groups_value gs < 2 ^ (16 * Z.of_nat (length gs)).
Proof.
  induction 1 as [|g gs Hg _ IH]; [cbn; lia|]. cbn [groups_value length].
  replace (16 * Z.of_nat (S (length gs))) with (16 + 16 * Z.of_nat (length gs)) by lia.
  rewrite Z.pow_add_r by lia. set (P := 2 ^ (16 * Z.of_nat (length gs))) in *.
  unfold is_u16 in Hg. nia.
Qed.

Lemma group_mask_spec g b :
  is_u16 g -> 0 < b <= 16 ->
  and32 g (and32 (shl32 65535 (16 - b)) 65535) = g / 2 ^ (16 - b) * 2 ^ (16 - b).
Proof.
  intros Hg Hb.
  assert (Hmask : forallb (fun b => and32 (shl32 65535 (16 - b)) 65535 =? 2 ^ 16 - 2 ^ (16 - b)) (seqZ 1 16) = true)
    by (vm_compute; reflexivity).
  rewrite forallb_elem in Hmask. specialize (Hmask b).
  rewrite elem_of_seqZ, Z.eqb_eq in Hmask. rewrite Hmask by lia. set (k := 16 - b) in *.
  assert (Hk : 0 <= k < 16) by (subst k; lia). clear Hmask.
  unfold is_u16 in Hg. unfold and32.
  assert (Hk2 : 0 < 2 ^ k <= 2 ^ 16) by (split; [lia|apply Z.pow_le_mono_r; lia]).
  rewrite !to_int32_id by lia. by apply land_high_bits; lia.
Qed.

Lemma match_groups_done b ip cidr : b <= 0 -> match_groups (Some b) ip cidr = true.
Proof.
  intros Hb. destruct ip, cidr; try done. cbn [match_groups]. by rewrite (proj2 (Z.leb_le b 0)).
Qed.

(** Comparing a first group and the rest of the bits. *)
Lemma div_groups g v P b m :
  0 <= v < P -> P = 2 ^ m -> 0 <= b <= m ->
  (g * P + v) / 2 ^ (m - b) = g * 2 ^ b + v / 2 ^ (m - b).
Proof.
  intros Hv -> Hb. replace (2 ^ m) with (2 ^ b * 2 ^ (m - b)) by (rewrite <- Z.pow_add_r by lia; f_equal; lia).
  rewrite Z.mul_assoc. apply Z.div_add_l. apply Z.pow_nonzero; lia.
Qed.

Lemma match_groups_spec ip cidr b :
  Forall is_u16 ip -> Forall is_u16 cidr -> length ip = length cidr ->
  0 <= b <= 16 * Z.of_nat (length ip) ->
  match_groups (Some b) ip cidr =
  (groups_value ip / 2 ^ (16 * Z.of_nat (length ip) - b)
   =? groups_value cidr / 2 ^ (16 * Z.of_nat (length ip) - b)).
Proof.
  intros Hip. revert cidr b. induction Hip as [|g ip Hg Hip IH]; intros cidr b Hc Hlen Hb.
  - destruct cidr; [|done]. symmetry. apply Z.eqb_refl.
  - destruct cidr as [|h cidr]; [done|]. apply Forall_cons in Hc as [Hh Hc]. injection Hlen as Hlen.
    pose proof (groups_value_range _ Hip) as Hv. pose proof (groups_value_range _ Hc) as Hw.
    rewrite <- Hlen in Hw. destruct (Z.eq_dec b 0) as [->|Hb0].
    { rewrite match_groups_done by done. rewrite Z.sub_0_r.
      pose proof (groups_value_range (g :: ip) ltac:(by constructor)) as H1.
      pose proof (groups_value_range (h :: cidr) ltac:(by constructor)) as H2.
      cbn [length] in H1, H2 |- *. rewrite <- Hlen in H2. by rewrite !Z.div_small by done. }
    cbn [match_groups groups_value length] in Hb |- *. rewrite <- Hlen.
    rewrite (proj2 (Z.leb_gt b 0)) by lia. rewrite !group_mask_spec by (done || lia).
    set (m := 16 * Z.of_nat (length ip)) in *. set (P := 2 ^ m) in *.
    replace (16 * Z.of_nat (S (length ip))) with (m + 16) in * by lia.
    destruct (Z.le_gt_cases b 16) as [Hle|Hgt].
    + rewrite match_groups_done, Z.min_l by lia.
      replace (m + 16 - b) with (m + (16 - b)) by lia. rewrite Z.pow_add_r by lia. fold P.
      set (k := 2 ^ (16 - b)). assert (Hk : 0 < k) by (apply Z.pow_pos_nonneg; lia).
      rewrite <- !Z.div_div by lia. rewrite !Z.div_add_l, !(Z.div_small _ P), !Z.add_0_r by lia.
      destruct (Z.eqb_spec (g / k * k) (h / k * k)), (Z.eqb_spec (g / k) (h / k)); nia.
    + rewrite Z.min_r by lia. change (2 ^ (16 - 16)) with 1. rewrite !Z.div_1_r, !Z.mul_1_r.
      replace (m + 16 - b) with (m - (b - 16)) by lia.
      rewrite !(div_groups _ _ P (b - 16) m) by (done || lia). rewrite IH by (done || lia). fold m.
      set (B := 2 ^ (b - 16)). assert (HB : 0 < B) by (apply Z.pow_pos_nonneg; lia).
      assert (Hq : forall v, 0 <= v < P -> 0 <= v / 2 ^ (m - (b - 16)) < B).
      { intros v Hv'. split; [apply Z.div_pos; [lia|apply Z.pow_pos_nonneg; lia]|].
        apply Z.div_lt_upper_bound; [apply Z.pow_pos_nonneg; lia|].
        unfold B. rewrite <- Z.pow_add_r by lia. replace (m - (b - 16) + (b - 16)) with m by lia. lia. }
      specialize (Hq _ Hv) as Hq1. specialize (Hq _ Hw).
      destruct (Z.eqb_spec g h) as [->|Hne].
      * destruct (Z.eqb_spec (groups_value ip / 2 ^ (m - (b - 16))) (groups_value cidr / 2 ^ (m - (b - 16)))) as [->|E];
          [by rewrite Z.eqb_refl|]. symmetry. apply Z.eqb_neq. lia.
      * symmetry. apply Z.eqb_neq. nia.
Qed.

(** ** Lemmas: the characters of a group, and no text is both kinds of address *)

Lemma hex_char_facts c :
  is_hex c = true ->
  is_space c = false /\ (code c =? 45)%N = false /\ (code c =? 43)%N = false /\
  (code c =? 120)%N = false /\ (code c =? 88)%N = false.
Proof. destruct c as [[] [] [] [] [] [] [] []]; vm_compute; intros; try done. Qed.

Lemma span_all p l : Forall (fun c : ascii => p c = true) l -> span p l = (l, []).
Proof. induction 1 as [|c l Hc _ IH]; [done|]. cbn. by rewrite Hc, IH. Qed.

Lemma group_value_range g : is_group g = true -> is_u16 (group_value g).
Proof.
  intros Hg. pose proof (sized_chars _ _ _ _ Hg) as Hchars.
  assert (Hlen : (length (explode g) <= 4)%nat).
  { unfold is_group, sized in Hg. rewrite !andb_true_iff, !Nat.leb_le in Hg. rewrite length_explode. lia. }
  assert (Hval : group_value g = digits_value 16 (explode g)).
  { unfold group_value, parseInt16. destruct (explode g) as [|c l] eqn:E.
    - destruct g; [done|]. by cbn in E.
    - apply Forall_cons in Hchars as [Hc Hl]. destruct (hex_char_facts c Hc) as (Hs & Hm & Hp & _).
      cbn [trim_start]. rewrite Hs. cbn [read_sign]. rewrite Hm, Hp.
      assert (Hx : match c :: l with
        | z :: x :: r => if (code z =? 48)%N && ((code x =? 120)%N || (code x =? 88)%N) then r else c :: l
        | _ => c :: l end = c :: l).
      { destruct l as [|x r]; [done|]. apply Forall_cons in Hl as [Hx _].
        destruct (hex_char_facts x Hx) as (_ & _ & _ & -> & ->). by rewrite andb_false_r. }
      rewrite Hx, span_all by by constructor. done. }
  rewrite Hval. pose proof (digits_value_range _ Hchars) as H.
  assert (16 ^ Z.of_nat (length (explode g)) <= 16 ^ 4) by (apply Z.pow_le_mono_r; lia).
  unfold is_u16. lia.
Qed.

Lemma index_from_drop p l i :
  index_from p l = Some i -> drop i l = p ++ drop (i + length p) l.
Proof.
  revert i. induction l as [|c l IH]; intros i; cbn [index_from].
  - destruct (is_prefix p []) eqn:E; [|done]. intros [= <-].
    apply is_prefix_spec in E as [k Ek]. destruct p; [done|done].
  - destruct (is_prefix p (c :: l)) eqn:E.
    + intros [= <-]. apply is_prefix_spec in E as [k Ek]. rewrite Ek. cbn [Nat.add drop].
      by rewrite drop_app_length.
    + destruct (index_from p l) as [j|]; [|done]. intros [= <-]. cbn [Nat.add drop]. by apply IH.
Qed.

(** No character is lost by [split], but those of the separator. *)
Lemma split_fuel_char fuel sep l c :
  c ∈ l -> c ∉ sep -> exists s, s ∈ split_fuel fuel sep l /\ c ∈ explode s.
Proof.
  revert l. induction fuel as [|fuel IH]; intros l Hl Hsep; cbn [split_fuel].
  - exists (implode l). rewrite explode_implode. split; [by constructor|done].
  - destruct (index_from sep l) as [i|] eqn:E.
    + apply index_from_drop in E. rewrite <- (take_drop i l), E in Hl.
      apply elem_of_app in Hl as [Hl|[Hl|Hl]%elem_of_app]; [|done|].
      * exists (implode (take i l)). rewrite explode_implode. split; [by constructor|done].
      * destruct (IH _ Hl Hsep) as (s & Hs & Hc). exists s. split; [by constructor|done].
    + exists (implode l). rewrite explode_implode. split; [by constructor|done].
Qed.

Lemma elem_of_join c sep l :
  c ∈ explode (join sep l) -> c ∈ explode sep \/ exists p, p ∈ l /\ c ∈ explode p.
Proof.
  induction l as [|p l IH]; [by intros ?%not_elem_of_nil|]. destruct l as [|q l].
  - right. exists p. split; [by constructor|done].
  - rewrite join_cons, !explode_app, !elem_of_app by done. intros [H|[H|H]]; [|by left|].
    + right. exists p. split; [by constructor|done].
    + destruct (IH H) as [|(r & Hr & Hc)]; [by left|]. right. exists r. split; [by constructor|done].
Qed.

Lemma group_list_dot ps p : p ∈ ps -> "."%char ∈ explode p -> group_list ps = None.
Proof.
  intros Hp Hdot. induction ps as [|q ps IH]; [by apply not_elem_of_nil in Hp|]. cbn [group_list].
  apply elem_of_cons in Hp as [->|Hp].
  - destruct (is_group q) eqn:Eg; [|done]. exfalso.
    pose proof (group_no "." q Eg eq_refl) as Hf. rewrite Forall_forall in Hf. by apply (Hf _ Hdot).
  - destruct (is_group q); [|done]. by rewrite IH.
Qed.

Lemma parseGroups_dot s : "."%char ∈ explode s -> parseGroups s = None.
Proof.
  intros Hdot. unfold parseGroups. destruct (String.eqb_spec s EmptyString) as [->|Hne].
  { by apply not_elem_of_nil in Hdot. }
  rewrite <- (join_split_char ":" s) in Hdot. apply elem_of_join in Hdot as [H|(p & Hp & Hc)].
  - by apply list_elem_of_singleton in H.
  - by eapply group_list_dot.
Qed.

Lemma expandIpv6_not_ipv4 s g : expandIpv6 s = Some g -> parseIpv4 s = None.
Proof.
  intros H. destruct (parseIpv4 s) as [n|] eqn:E; [|done]. exfalso.
  assert (Hdot : "."%char ∈ explode s).
  { destruct (decide ("."%char ∈ explode s)) as [|Hno]; [done|]. exfalso. unfold parseIpv4 in E.
    rewrite split_char_one in E; [done|]. apply Forall_forall. by intros x Hx ->. }
  unfold expandIpv6 in H. destruct (_ && _); [done|].
  destruct (split_fuel_char (S (String.length s)) colons (explode s) "." Hdot) as (p & Hp & Hc).
  { unfold colons. cbn. rewrite !elem_of_cons. intros [E1|[E1|E1]]; [done|done|].
    by apply not_elem_of_nil in E1. }
  apply parseGroups_dot in Hc. change (split_fuel _ _ _) with (split s "::") in Hp.
  destruct (split s "::") as [|l [|r [|x t]]]; try done.
  - apply list_elem_of_singleton in Hp as ->. by rewrite Hc in H.
  - apply elem_of_cons in Hp as [->|Hp]; [by rewrite Hc in H|].
    apply list_elem_of_singleton in Hp as ->. rewrite Hc in H. by destruct (parseGroups l).
Qed.

Lemma group_list_range ps gs : group_list ps = Some gs -> Forall is_u16 gs.
Proof.
  revert gs. induction ps as [|p ps IH]; intros gs; cbn; [by intros [= <-]|].
  destruct (is_group p) eqn:E; [|done]. destruct (group_list ps); [|done]. intros [= <-].
  constructor; [by apply group_value_range|by apply IH].
Qed.

Lemma parseGroups_range s gs : parseGroups s = Some gs -> Forall is_u16 gs.
Proof. unfold parseGroups. destruct (String.eqb s _); [by intros [= <-]|apply group_list_range]. Qed.

Lemma expandIpv6_range s g : expandIpv6 s = Some g -> Forall is_u16 g /\ length g = 8%nat.
Proof.
  unfold expandIpv6. destruct (_ && _); [done|]. destruct (split s "::") as [|l [|r [|x t]]]; try done.
  - destruct (parseGroups l) as [gs|] eqn:E; [|done]. cbn.
    destruct (Nat.eqb_spec (length gs) 8); [|done]. intros [= <-]. split; [by eapply parseGroups_range|done].
  - destruct (parseGroups l) as [gl|] eqn:El; [|done]. destruct (parseGroups r) as [gr|] eqn:Er; [|done]. cbn.
    case_match eqn:Ez; [done|]. apply Z.ltb_ge in Ez. intros [= <-]. split.
    + apply Forall_app; split; [by eapply parseGroups_range|]. apply Forall_app; split.
      * apply Forall_replicate. unfold is_u16. lia.
      * by eapply parseGroups_range.
    + rewrite !length_app, length_replicate. lia.
Qed.

(** ** Lemmas: entries *)

Lemma isIpInCidr_prefix ip addr p :
  byte p ->
  isIpInCidr ip (addr +:+ "/" +:+ Z_to_string p) =
  match parseIpv4 (normaliseIp ip), parseIpv4 (normaliseIp addr) with
  | Some n, Some m => if p <=? 32 then match_ipv4 n m (Some p) else false
  | _, _ =>
      match expandIpv6 (normaliseIp ip), expandIpv6 (normaliseIp addr) with
      | Some g, Some h => if p <=? 128 then match_groups (Some p) g h else false
      | _, _ => false
      end
  end.
Proof.
  intros Hp. unfold isIpInCidr. destruct (entry_split addr p Hp) as (-> & -> & ->).
  rewrite !prefix_ok_byte by done. by destruct (byte_digits p Hp) as (-> & _).
Qed.

(** A port suffix is removed. *)
Lemma strip_ipv4 a b c d port :
  byte a -> byte b -> byte c -> byte d -> Forall (fun x => x <> ":"%char) (explode port) ->
  stripPortSuffix (dotted_ipv4 a b c d) = dotted_ipv4 a b c d /\
  stripPortSuffix (dotted_ipv4 a b c d +:+ ":" +:+ port) = dotted_ipv4 a b c d.
Proof.
  intros Ha Hb Hc Hd Hport. set (ip := dotted_ipv4 a b c d).
  assert (Hip : Forall (fun x => x <> ":"%char) (explode ip))
    by (apply dotted_chars; try done; by intros x Hx ->).
  destruct (dotted_first a b c d Ha) as (x & l & E & Hx). fold ip in E.
  assert (Hbr : forall s, startsWith (ip +:+ s) "[" = false).
  { intros s. unfold startsWith. rewrite explode_app, E. cbn [explode app is_prefix].
    rewrite (proj2 (Ascii.eqb_neq _ _)); [done|]. by intros <-. }
  split; unfold stripPortSuffix.
  - rewrite <- (string_app_nil_r ip) at 1. rewrite Hbr. by rewrite split_char_one.
  - rewrite Hbr. change (":" +:+ port) with (String ":" port).
    rewrite split_char_app, split_char_one by done. cbn [length Nat.sub Nat.eqb].
    assert (Hidx : forall l r, Forall (fun x => x <> ":"%char) l ->
              index_from [":"%char] (l ++ ":"%char :: r) = Some (length l)).
    { clear. intros l r. induction 1 as [|y l Hy _ IH]; [done|]. cbn [app index_from is_prefix].
      rewrite (proj2 (Ascii.eqb_neq ":"%char y)) by (intros <-; done). cbn [andb]. by rewrite IH. }
    unfold indexOf. rewrite explode_app. cbn [explode]. rewrite Hidx by done. cbn [default from_option].
    unfold id. by rewrite take_app_length, implode_explode.
Qed.

(** ** Properties *)

(** An IPv4 address in any documented spelling (dotted, or IPv4-mapped
    IPv6 in dotted or hexadecimal form) matches an entry [addr/p], spelt in any
    of the same ways, exactly when the first [p] bits agree; a prefix above 32
    matches nothing. *)
Theorem cidr_ipv4 ip addr a b c d e f g h p :
  byte a -> byte b -> byte c -> byte d -> byte e -> byte f -> byte g -> byte h -> byte p ->
  spells a b c d ip -> spells e f g h addr ->
  isIpInCidr ip (addr +:+ "/" +:+ Z_to_string p) =
  (p <=? 32) && (ipv4 a b c d / 2 ^ (32 - p) =? ipv4 e f g h / 2 ^ (32 - p)).
Proof.
  intros ????????? Hip Haddr. rewrite isIpInCidr_prefix by done.
  rewrite (normaliseIp_spelling a b c d ip) by done.
  rewrite (normaliseIp_spelling e f g h addr) by done.
  rewrite !parseIpv4_dotted by done. destruct (Z.leb_spec p 32); [|done].
  apply match_ipv4_spec; [by apply ipv4_range..|]. unfold byte in *. lia.
Qed.

(** Two texts that expand to IPv6 groups match at prefix [p] exactly when
    the first [p] of the 128 bits agree, and an IPv6 text never parses as IPv4;
    a prefix above 128 matches nothing. *)
Theorem cidr_ipv6 ip addr g h p :
  byte p -> expandIpv6 (normaliseIp ip) = Some g -> expandIpv6 (normaliseIp addr) = Some h ->
  isIpInCidr ip (addr +:+ "/" +:+ Z_to_string p) =
  (p <=? 128) && (groups_value g / 2 ^ (128 - p) =? groups_value h / 2 ^ (128 - p)).
Proof.
  intros Hp Hg Hh. rewrite isIpInCidr_prefix by done.
  rewrite (expandIpv6_not_ipv4 _ _ Hg), Hg, Hh.
  apply expandIpv6_range in Hg as [Hg Lg]. apply expandIpv6_range in Hh as [Hh Lh].
  destruct (Z.leb_spec p 128); [|done]. cbn [andb].
  rewrite match_groups_spec by (done || congruence || (rewrite Lg; unfold byte in Hp; lia)).
  by rewrite Lg.
Qed.

(** The IPv6 parser on the texts of the grammar: groups of one to four
    hexadecimal digits joined by colons are read when there are eight, and with
    one [::] when there are at most eight, the missing ones being zero.  (A
    text that is an IPv4-mapped address is left to the IPv4 parser.) *)
Theorem expand_ipv6 left right :
  Forall (fun g => is_group g = true) left -> Forall (fun g => is_group g = true) right ->
  let long := join ":" left in
  let short := join ":" left +:+ "::" +:+ join ":" right in
  (normaliseIp long = long ->
   expandIpv6 long = if (length left =? 8)%nat then Some (map group_value left) else None) /\
  (normaliseIp short = short ->
   expandIpv6 short =
     if (length left + length right <=? 8)%nat
     then Some (map group_value left ++ replicate (8 - length left - length right) 0
                ++ map group_value right)
     else None).
Proof.
  intros Hl Hr long short. split; intros Hn; unfold expandIpv6; rewrite Hn, String.eqb_refl, andb_false_r.
  - rewrite split_colons_one by by apply single_colons_groups.
    unfold long. rewrite parseGroups_groups by done. cbn. rewrite length_map.
    by destruct (length left =? 8)%nat.
  - unfold short. rewrite split_colons_two by by apply single_colons_groups.
    rewrite !parseGroups_groups by done. cbn [mbind option_bind]. rewrite !length_map.
    destruct (Nat.leb_spec (length left + length right) 8).
    + rewrite (proj2 (Z.ltb_ge _ _)) by lia. do 4 f_equal. lia.
    + by rewrite (proj2 (Z.ltb_lt _ _)) by lia.
Qed.

(** The middleware lets a request through exactly when the list is empty
    or the address in [x-real-ip], without its port, is in the list; without
    that header it fails closed; and the port of an IPv4 address never
    matters. *)
Theorem middleware_decision allowlist context realIp a b c d port :
  byte a -> byte b -> byte c -> byte d -> Forall (fun x => x <> ":"%char) (explode port) ->
  (createIpAllowlistMiddleware allowlist context realIp = Next <->
   allowlist = [] \/
   exists entry, entry ∈ allowlist /\ parseIpFromRequest realIp <> EmptyString /\
     isIpInCidr (normaliseIp (parseIpFromRequest realIp)) (trim entry) = true) /\
  (allowlist <> [] -> createIpAllowlistMiddleware allowlist context None = NoClientIp) /\
  stripPortSuffix (dotted_ipv4 a b c d +:+ ":" +:+ port) = stripPortSuffix (dotted_ipv4 a b c d).
Proof.
  intros Ha Hb Hc Hd Hport. split_and!.
  - unfold createIpAllowlistMiddleware. destruct allowlist as [|e l]; [cbn; naive_solver|].
    cbn [length Nat.eqb]. destruct (String.eqb_spec (parseIpFromRequest realIp) EmptyString) as [E|E].
    + split; [done|]. rewrite E. by intros [|(? & _ & ? & _)].
    + unfold isIpInAllowlist. destruct (existsb _ (e :: l)) eqn:Ex; cbn [negb].
      * split; [|done]. intros _. right. apply existsb_elem in Ex as (x & Hx & H). eauto.
      * split; [done|]. intros [|(x & Hx & _ & H)]; [done|].
        assert (existsb (fun entry => isIpInCidr (normaliseIp (parseIpFromRequest realIp)) (trim entry)) (e :: l) = true)
          by (apply existsb_elem; eauto). congruence.
  - by destruct allowlist.
  - destruct (strip_ipv4 a b c d port) as [-> ->]; done.
Qed.

(** ** Witnesses *)

Lemma cidr_ipv4_witness : isIpInCidr "::ffff:c0a8:014d" "192.168.1.0/24" = true.
Proof.
  etrans; [apply (cidr_ipv4 "::ffff:c0a8:014d" "192.168.1.0" 192 168 1 77 192 168 1 0 24)|];
    try (by unfold byte; lia).
  - apply (spells_hex 192 168 1 77 "c0a8" "014d"); reflexivity.
  - apply (spells_dotted 192 168 1 0).
  - reflexivity.
Defined.

Lemma cidr_ipv6_witness : isIpInCidr "2001:db8::1" "2001:db8::/32" = true.
Proof.
  etrans; [apply (cidr_ipv6 "2001:db8::1" "2001:db8::" [8193; 3512; 0; 0; 0; 0; 0; 1]
                    [8193; 3512; 0; 0; 0; 0; 0; 0] 32)|];
    try (by unfold byte; lia); vm_compute; reflexivity.
Defined.

Lemma expand_ipv6_witness :
  expandIpv6 "2001:db8::1" = Some [8193; 3512; 0; 0; 0; 0; 0; 1].
Proof.
  refine (eq_trans (proj2 (expand_ipv6 ["2001"; "db8"] ["1"] _ _) _) _);
    [by repeat constructor|by repeat constructor|vm_compute; reflexivity..].
Defined.

Lemma middleware_decision_witness :
  createIpAllowlistMiddleware ["10.0.0.0/8"] None (Some "10.1.2.3:443") = Next.
Proof.
  apply (middleware_decision ["10.0.0.0/8"] None (Some "10.1.2.3:443") 10 1 2 3 "443");
    try (by unfold byte; lia); [by repeat constructor|].
  right. exists "10.0.0.0/8". split_and!; [by constructor|by vm_compute|vm_compute; reflexivity].
Defined.
