(* ===== verification/DiffService.v ===== *)
(** * App builder: line diff

    [services/app/src/services/diff-service.ts]: the longest-common-subsequence
    table and its traceback, the grouping into hunks with context, and the diff
    of two snapshots. *)

From S2P Require Import Prelude JsString JsValue JsHost.
From Stdlib Require Import Ascii.

(** ** Data *)

Inductive DiffOperation : Type := Equal | Insert | Delete.

#[export] Instance DiffOperation_eq_dec : EqDecision DiffOperation.
Proof. solve_decision. Defined.

Record LineDiff : Type := { operation : DiffOperation; lineNumber : nat; content : string }.

Record DiffHunk : Type := {
  oldStart : nat; oldLines : nat; newStart : nat; newLines : nat; lines : list LineDiff
}.

Record FileDiff : Type := {
  path : string; hunks : list DiffHunk; additions : nat; deletions : nat
}.

Record SnapshotDiff : Type := {
  added : list string; removed : list string; modified : list FileDiff
}.

(** ** The edit script *)

(** The cells of one row of [dp] after the first, from the row above. *)
Fixpoint dp_cells (x : string) (above : list nat) (left : nat) (news : list string) : list nat :=
  match news, above with
  | y :: news, d :: above =>
      let c := if String.eqb x y then S d else Nat.max (hd 0 above) left in
      c :: dp_cells x above c news
  | _, _ => []
  end.

Definition dp_row (x : string) (above : list nat) (news : list string) : list nat :=
  0 :: dp_cells x above 0 news.

Fixpoint dp_rows (olds : list string) (above : list nat) (news : list string) : list (list nat) :=
  match olds with
  | [] => []
  | x :: olds => let row := dp_row x above news in row :: dp_rows olds row news
  end.

Definition dp_table (olds news : list string) : list (list nat) :=
  let first := replicate (S (length news)) 0 in first :: dp_rows olds first news.

Definition cell (dp : list (list nat)) (i j : nat) : nat := nth j (nth i dp []) 0.

(** The traceback; every round lowers [i + j], so that many rounds suffice. *)
Fixpoint traceback (fuel : nat) (dp : list (list nat)) (olds news : list string)
    (i j : nat) (diffs : list LineDiff) : list LineDiff :=
  match fuel with
  | O => diffs
  | S fuel =>
      let insert := traceback fuel dp olds news i (j - 1)
        (diffs ++ [{| operation := Insert; lineNumber := j;
                      content := nth (j - 1) news EmptyString |}]) in
      let delete := traceback fuel dp olds news (i - 1) j
        (diffs ++ [{| operation := Delete; lineNumber := i;
                      content := nth (i - 1) olds EmptyString |}]) in
      match i, j with
      | O, O => diffs
      | O, S _ => insert
      | S _, O => delete
      | S i', S j' =>
          if String.eqb (nth i' olds EmptyString) (nth j' news EmptyString)
          then traceback fuel dp olds news i' j'
                 (diffs ++ [{| operation := Equal; lineNumber := j;
                               content := nth j' news EmptyString |}])
          else if cell dp i' j <=? cell dp i j' then insert else delete
      end
  end.

Definition computeLineDiffs (olds news : list string) : list LineDiff :=
  let m := length olds in
  let n := length news in
  rev (traceback (m + n) (dp_table olds news) olds news m n []).

(** ** Hunks *)

Definition CONTEXT_LINES : nat := 3.

Definition is_change (d : LineDiff) : bool := negb (bool_decide (operation d = Equal)).

Fixpoint changed_indices (idx : nat) (diffs : list LineDiff) : list nat :=
  match diffs with
  | [] => []
  | d :: diffs =>
      if is_change d then idx :: changed_indices (S idx) diffs else changed_indices (S idx) diffs
  end.

(** The loop over the changed indices after the first, with the current range;
    [len] is the number of diffs. *)
Fixpoint build_ranges (len rangeStart rangeEnd : nat) (changed : list nat) : list (nat * nat) :=
  match changed with
  | [] => [(rangeStart, rangeEnd)]
  | k :: changed =>
      let expandedStart := k - CONTEXT_LINES in
      if expandedStart <=? rangeEnd + 1
      then build_ranges len rangeStart (Nat.min (len - 1) (k + CONTEXT_LINES)) changed
      else (rangeStart, rangeEnd)
             :: build_ranges len expandedStart (Nat.min (len - 1) (k + CONTEXT_LINES)) changed
  end.

Definition is_old (d : LineDiff) : bool :=
  match operation d with Equal | Delete => true | Insert => false end.
Definition is_new (d : LineDiff) : bool :=
  match operation d with Equal | Insert => true | Delete => false end.

Definition count (p : LineDiff -> bool) (l : list LineDiff) : nat := length (List.filter p l).

(** The lines of a hunk, renumbered from its start. *)
Fixpoint hunk_lines (localOld localNew : nat) (l : list LineDiff) : list LineDiff :=
  match l with
  | [] => []
  | d :: l =>
      match operation d with
      | Equal => {| operation := Equal; lineNumber := localNew; content := content d |}
                   :: hunk_lines (S localOld) (S localNew) l
      | Delete => {| operation := Delete; lineNumber := localOld; content := content d |}
                    :: hunk_lines (S localOld) localNew l
      | Insert => {| operation := Insert; lineNumber := localNew; content := content d |}
                    :: hunk_lines localOld (S localNew) l
      end
  end.

Definition range_hunk (diffs : list LineDiff) (r : nat * nat) : DiffHunk :=
  let '(s, e) := r in
  let before := take s diffs in
  let inside := take (S e - s) (drop s diffs) in
  {| oldStart := count is_old before + 1;
     oldLines := count is_old inside;
     newStart := count is_new before + 1;
     newLines := count is_new inside;
     lines := hunk_lines (count is_old before + 1) (count is_new before + 1) inside |}.

Definition groupIntoHunks (diffs : list LineDiff) : list DiffHunk :=
  match changed_indices 0 diffs with
  | [] => []
  | k :: changed =>
      map (range_hunk diffs)
        (build_ranges (length diffs) (k - CONTEXT_LINES)
           (Nat.min (length diffs - 1) (k + CONTEXT_LINES)) changed)
  end.

(** ** Files and snapshots *)

(** [s.replace(/\r\n/g, "\n")] *)
Fixpoint crlf (l : list ascii) : list ascii :=
  match l with
  | [] => []
  | c :: l' =>
      match l' with
      | d :: l'' => if Ascii.eqb c creturn && Ascii.eqb d newline then newline :: crlf l''
                    else c :: crlf l'
      | [] => [c]
      end
  end.

Definition splitLines (s : string) : list string :=
  let parts := split_char newline (on_chars crlf s) in
  if bool_decide (parts = [EmptyString]) then [] else parts.

Definition diffFile (p oldContent newContent : string) : option FileDiff :=
  if String.eqb oldContent newContent then None
  else
    let lineDiffs := computeLineDiffs (splitLines oldContent) (splitLines newContent) in
    Some {| path := p; hunks := groupIntoHunks lineDiffs;
            additions := count (fun d => bool_decide (operation d = Insert)) lineDiffs;
            deletions := count (fun d => bool_decide (operation d = Delete)) lineDiffs |}.

(** A stable sort by [le]. *)
Fixpoint insert_by {A} (le : A -> A -> bool) (x : A) (l : list A) : list A :=
  match l with
  | [] => [x]
  | y :: l => if le x y then x :: y :: l else y :: insert_by le x l
  end.
Definition sort_by {A} (le : A -> A -> bool) (l : list A) : list A :=
  fold_right (insert_by le) [] l.

(** [a.localeCompare(b) <= 0] *)
Definition locale_le {host : Host} (a b : string) : bool :=
  match locale_compare a b with Gt => false | _ => true end.

Definition computeDiff {host : Host} (oldFiles newFiles : jmap string string) : SnapshotDiff :=
  let oldPaths := jm_keys oldFiles in
  let newPaths := jm_keys newFiles in
  {| added := sort_by String.leb (List.filter (fun p => negb (mem p oldPaths)) newPaths);
     removed := sort_by String.leb (List.filter (fun p => negb (mem p newPaths)) oldPaths);
     modified := sort_by (fun a b => locale_le (path a) (path b))
       (omap (fun p =>
          if negb (mem p newPaths) then None
          else diffFile p (default EmptyString (jm_get p oldFiles))
                          (default EmptyString (jm_get p newFiles))) oldPaths) |}.

Example diff_example :
  map (fun h => (oldStart h, oldLines h, newStart h, newLines h))
    (groupIntoHunks (computeLineDiffs ["a"; "b"; "c"] ["a"; "x"; "c"; "d"])) = [(1, 3, 1, 4)].
Proof. vm_compute. reflexivity. Qed.

(** ** The longest common subsequence *)

Fixpoint lcs (xs : list string) : list string -> nat :=
  fix go (ys : list string) : nat :=
    match xs, ys with
    | x :: xs', y :: ys' => if String.eqb x y then S (lcs xs' ys') else Nat.max (lcs xs' ys) (go ys')
    | _, _ => 0
    end.

Lemma lcs_nil_r xs : lcs xs [] = 0.
Proof. by destruct xs. Qed.

Lemma lcs_cons x xs y ys :
  lcs (x :: xs) (y :: ys) =
  if String.eqb x y then S (lcs xs ys) else Nat.max (lcs xs (y :: ys)) (lcs (x :: xs) ys).
Proof. done. Qed.

(** No common subsequence is longer. *)
Lemma lcs_max xs ys zs : zs `sublist_of` xs -> zs `sublist_of` ys -> length zs <= lcs xs ys.
Proof.
  revert ys zs. induction xs as [|x xs IHx]; intros ys zs Hx Hy.
  { apply sublist_nil_r in Hx as ->. cbn. lia. }
  revert zs Hx Hy. induction ys as [|y ys IHy]; intros zs Hx Hy.
  { apply sublist_nil_r in Hy as ->. cbn. lia. }
  rewrite lcs_cons. destruct (String.eqb_spec x y) as [<-|Hne].
  - destruct zs as [|z zs]; [cbn; lia|]. cbn [length]. apply le_n_S, IHx.
    + apply sublist_cons_r in Hx as [Hx|(? & [= _ ->] & Hx)]; [|done].
      etrans; [apply sublist_cons; reflexivity|exact Hx].
    + apply sublist_cons_r in Hy as [Hy|(? & [= _ ->] & Hy)]; [|done].
      etrans; [apply sublist_cons; reflexivity|exact Hy].
  - apply sublist_cons_r in Hx as Hx'. destruct Hx' as [Hx'|(zs' & -> & Hx')].
    + transitivity (lcs xs (y :: ys)); [by apply IHx|lia].
    + apply sublist_cons_r in Hy as [Hy|(? & [= -> _] & _)]; [|done].
      transitivity (lcs (x :: xs) ys); [by apply IHy|lia].
Qed.

(** Prefixes, reversed: the entries of the table. *)
Definition prefix_lcs (olds news : list string) (i j : nat) : nat :=
  lcs (rev (take i olds)) (rev (take j news)).

Lemma rev_take_S (l : list string) i :
  i < length l -> rev (take (S i) l) = nth i l EmptyString :: rev (take i l).
Proof.
  intros H. rewrite (take_S_r l i (nth i l EmptyString)).
  - by rewrite rev_app_distr.
  - by apply nth_lookup_Some in H || (rewrite nth_lookup; destruct (lookup_lt_is_Some_2 l i H) as [z ->]).
Qed.

Lemma prefix_lcs_S olds news i j :
  i < length olds -> j < length news ->
  prefix_lcs olds news (S i) (S j) =
  if String.eqb (nth i olds EmptyString) (nth j news EmptyString) then S (prefix_lcs olds news i j)
  else Nat.max (prefix_lcs olds news i (S j)) (prefix_lcs olds news (S i) j).
Proof.
  intros Hi Hj. unfold prefix_lcs. rewrite !rev_take_S by done. by rewrite lcs_cons.
Qed.

Lemma prefix_lcs_0_r olds news i : prefix_lcs olds news i 0 = 0.
Proof. unfold prefix_lcs. apply lcs_nil_r. Qed.

(** One row: the cells are the entries when the row above is. *)
Lemma dp_cells_spec olds news i x above left j rest :
  i < length olds -> x = nth i olds EmptyString -> drop j news = rest -> j + length rest = length news ->
  length above = S (length rest) ->
  (forall k, k <= length rest -> nth k above 0 = prefix_lcs olds news i (j + k)) ->
  left = prefix_lcs olds news (S i) j ->
  length (dp_cells x above left rest) = length rest /\
  forall k, k < length rest ->
    nth k (dp_cells x above left rest) 0 = prefix_lcs olds news (S i) (S (j + k)).
Proof.
  intros Hi Hx. revert above left j.
  induction rest as [|y rest IH]; intros above left j Hrest Hlen Habove Hcells Hleft.
  { split; [by destruct above|cbn; lia]. }
  destruct above as [|d above]; [done|]. injection Habove as Habove. cbn [length] in Hlen, Hcells.
  assert (Hy : nth j news EmptyString = y).
  { rewrite <- (Nat.add_0_r j), <- nth_skipn, Hrest. done. }
  assert (Hc : (if String.eqb x y then S d else Nat.max (hd 0 above) left)
               = prefix_lcs olds news (S i) (S j)).
  { rewrite prefix_lcs_S by lia. rewrite <- Hx, Hy.
    pose proof (Hcells 0 ltac:(lia)) as H0. pose proof (Hcells 1 ltac:(lia)) as H1.
    cbn in H0. rewrite Nat.add_0_r in H0. rewrite Nat.add_1_r in H1. rewrite <- H0, <- H1, <- Hleft.
    destruct above; [done|]. done. }
  cbn [dp_cells length]. rewrite Hc.
  destruct (IH above (prefix_lcs olds news (S i) (S j)) (S j)) as [Hl Hk].
  - by rewrite <- (Nat.add_1_r j), <- drop_drop, Hrest.
  - lia.
  - done.
  - intros k Hk. specialize (Hcells (S k) ltac:(lia)). cbn in Hcells. rewrite Hcells. f_equal. lia.
  - done.
  - split; [by rewrite Hl|]. intros [|k] Hlt; cbn [nth]; [by rewrite Nat.add_0_r|].
    rewrite Hk by lia. do 2 f_equal. lia.
Qed.

Definition row_ok (olds news : list string) (i : nat) (row : list nat) : Prop :=
  length row = S (length news) /\ forall j, j <= length news -> nth j row 0 = prefix_lcs olds news i j.

Lemma dp_row_ok olds news i above :
  i < length olds -> row_ok olds news i above ->
  row_ok olds news (S i) (dp_row (nth i olds EmptyString) above news).
Proof.
  intros Hi [Hlen Hrow].
  destruct (dp_cells_spec olds news i (nth i olds EmptyString) above 0 0 news) as [Hl Hk];
    [done|done|done|done|done|done|by rewrite prefix_lcs_0_r|].
  split; unfold dp_row; [cbn [length]; by rewrite Hl|].
  intros [|j] Hj; cbn [nth]; [by rewrite prefix_lcs_0_r|]. by rewrite Hk by lia.
Qed.

Lemma dp_rows_ok olds news i above rest :
  drop i olds = rest -> i + length rest = length olds -> row_ok olds news i above ->
  forall k, k < length rest -> row_ok olds news (S (i + k)) (nth k (dp_rows rest above news) []).
Proof.
  revert i above. induction rest as [|x rest IH]; intros i above Hrest Hlen Hrow k Hk; [cbn in Hk; lia|].
  cbn [length] in Hlen, Hk.
  assert (Hx : nth i olds EmptyString = x).
  { rewrite <- (Nat.add_0_r i), <- nth_skipn, Hrest. done. }
  assert (Hr : row_ok olds news (S i) (dp_row x above news)) by (rewrite <- Hx; apply dp_row_ok; [lia|done]).
  cbn [dp_rows]. destruct k as [|k]; cbn [nth]; [by rewrite Nat.add_0_r|].
  replace (S (i + S k)) with (S (S i + k)) by lia. apply IH; [|lia|done|lia].
  by rewrite <- (Nat.add_1_r i), <- drop_drop, Hrest.
Qed.

Lemma cell_spec olds news i j :
  i <= length olds -> j <= length news ->
  cell (dp_table olds news) i j = prefix_lcs olds news i j.
Proof.
  intros Hi Hj. unfold cell, dp_table.
  assert (H0 : row_ok olds news 0 (replicate (S (length news)) 0)).
  { split; [apply length_replicate|]. intros k Hk. unfold prefix_lcs.
    transitivity 0; [|by destruct (rev (take k news))]. clear. revert k.
    induction (S (length news)) as [|n IH]; intros [|k]; cbn; auto. }
  destruct i as [|i]; cbn [nth]; [by apply H0|].
  apply (dp_rows_ok olds news 0 _ olds); [done|done|done|lia|done].
Qed.

(** ** The edit script *)

Definition old_side (ds : list LineDiff) : list string := map content (List.filter is_old ds).
Definition new_side (ds : list LineDiff) : list string := map content (List.filter is_new ds).

Definition is_equal (d : LineDiff) : bool := bool_decide (operation d = Equal).

(** Line numbers count the lines of the side a line belongs to. *)
Fixpoint numbered (o n : nat) (ds : list LineDiff) : Prop :=
  match ds with
  | [] => True
  | d :: ds =>
      lineNumber d = S (match operation d with Delete => o | _ => n end) /\
      numbered (if is_old d then S o else o) (if is_new d then S n else n) ds
  end.

Lemma old_side_app a b : old_side (a ++ b) = old_side a ++ old_side b.
Proof. unfold old_side. by rewrite List.filter_app, map_app. Qed.

Lemma new_side_app a b : new_side (a ++ b) = new_side a ++ new_side b.
Proof. unfold new_side. by rewrite List.filter_app, map_app. Qed.

Lemma count_app p a b : count p (a ++ b) = count p a + count p b.
Proof. unfold count. by rewrite List.filter_app, length_app. Qed.

Lemma count_old ds : count is_old ds = length (old_side ds).
Proof. unfold count, old_side. by rewrite length_map. Qed.
Lemma count_new ds : count is_new ds = length (new_side ds).
Proof. unfold count, new_side. by rewrite length_map. Qed.

Lemma numbered_app o n a b :
  numbered o n (a ++ b) <->
  numbered o n a /\ numbered (o + count is_old a) (n + count is_new a) b.
Proof.
  revert o n. induction a as [|d a IH]; intros o n; cbn [app numbered].
  - unfold count. cbn. rewrite !Nat.add_0_r. naive_solver.
  - rewrite IH. unfold count. cbn [List.filter].
    destruct (is_old d), (is_new d); cbn [length]; rewrite ?Nat.add_succ_r; cbn; tauto.
Qed.

(** The script from the start to position [(i, j)]. *)
Record script (olds news : list string) (i j : nat) (es : list LineDiff) : Prop := {
  script_old : old_side es = take i olds;
  script_new : new_side es = take j news;
  script_numbered : numbered 0 0 es;
  script_equal : count is_equal es = prefix_lcs olds news i j
}.

Lemma script_snoc olds news i j es d i' j' :
  script olds news i j es ->
  old_side [d] = drop i (take i' olds) -> i <= i' -> new_side [d] = drop j (take j' news) -> j <= j' ->
  lineNumber d = S (match operation d with Delete => i | _ => j end) ->
  i <= length olds -> j <= length news ->
  count is_equal [d] + prefix_lcs olds news i j = prefix_lcs olds news i' j' ->
  script olds news i' j' (es ++ [d]).
Proof.
  intros [Ho Hn Hnum He] Hdo Hi Hdn Hj Hline Hlo Hln Heq. split.
  - rewrite old_side_app, Ho, Hdo. rewrite <- (take_drop i (take i' olds)) at 2.
    by rewrite take_take, Nat.min_l.
  - rewrite new_side_app, Hn, Hdn. rewrite <- (take_drop j (take j' news)) at 2.
    by rewrite take_take, Nat.min_l.
  - apply numbered_app. split; [done|]. cbn [numbered]. split; [|done].
    rewrite Hline, count_old, count_new, Ho, Hn, !length_take, !Nat.min_l by done. done.
  - rewrite count_app, He. lia.
Qed.

Lemma drop_take_S (l : list string) i :
  i < length l -> drop i (take (S i) l) = [nth i l EmptyString].
Proof.
  intros H. rewrite (take_S_r l i (nth i l EmptyString)).
  - by rewrite drop_app_length' by (rewrite length_take; lia).
  - rewrite nth_lookup. by destruct (lookup_lt_is_Some_2 l i H) as [z ->].
Qed.

Lemma drop_take_same (l : list string) i : drop i (take i l) = [].
Proof. apply drop_ge. rewrite length_take. lia. Qed.

Lemma prefix_lcs_0_l olds news j : prefix_lcs olds news 0 j = 0.
Proof. unfold prefix_lcs. generalize (rev (take j news)). change (rev (take 0 olds)) with (@nil string). by intros []. Qed.

(** The traceback adds to [diffs] the reverse of a script. *)
Lemma traceback_script olds news fuel i j diffs :
  i <= length olds -> j <= length news -> i + j <= fuel ->
  exists es, traceback fuel (dp_table olds news) olds news i j diffs = diffs ++ rev es /\
             script olds news i j es.
Proof.
  revert i j diffs. induction fuel as [|fuel IH]; intros i j diffs Hi Hj Hfuel.
  { assert (i = 0) as -> by lia. assert (j = 0) as -> by lia. exists []. split; [by rewrite app_nil_r|].
    by split. }
  assert (Hgo : forall i' j' d, i' <= i -> j' <= j -> i' + j' <= fuel ->
    (forall es, script olds news i' j' es -> script olds news i j (es ++ [d])) ->
    exists es, traceback fuel (dp_table olds news) olds news i' j' (diffs ++ [d]) = diffs ++ rev es /\
               script olds news i j es).
  { intros i' j' d Hi' Hj' Hf Hs. destruct (IH i' j' (diffs ++ [d])) as (es & E & Hes); [lia..|].
    exists (es ++ [d]). split; [|by apply Hs]. by rewrite E, rev_app_distr, <- app_assoc. }
  destruct i as [|i], j as [|j]; cbn [traceback].
  - exists []. split; [by rewrite app_nil_r|]. by split.
  - apply Hgo; [lia..|]. intros es Hes. cbn in Hes. rewrite Nat.sub_0_r in *.
    eapply script_snoc; [exact Hes|..]; try done; try lia;
      rewrite ?drop_take_same, ?drop_take_S, ?prefix_lcs_0_l by lia; unfold old_side, new_side, count; cbn; rewrite ?Nat.sub_0_r; done.
  - apply Hgo; [lia..|]. intros es Hes. cbn in Hes. rewrite Nat.sub_0_r in *.
    eapply script_snoc; [exact Hes|..]; try done; try lia;
      rewrite ?drop_take_same, ?drop_take_S, ?prefix_lcs_0_r by lia; unfold old_side, new_side, count; cbn; rewrite ?Nat.sub_0_r; done.
  - pose proof (prefix_lcs_S olds news i j ltac:(lia) ltac:(lia)) as Hlcs.
    replace (S j - 1) with j by lia. replace (S i - 1) with i by lia.
    destruct (String.eqb_spec (nth i olds EmptyString) (nth j news EmptyString)) as [E|E];
      [|rewrite !cell_spec by lia; destruct (Nat.leb_spec (prefix_lcs olds news i (S j)) (prefix_lcs olds news (S i) j))];
      (apply Hgo; [lia..|]; intros es Hes; eapply script_snoc; [exact Hes|..]; try done; try lia);
      rewrite ?drop_take_same, ?drop_take_S by lia; unfold old_side, new_side, count; cbn.
    all: try congruence; try lia.
    all: match goal with |- length ?l + _ = _ => change l with (@nil LineDiff) end; cbn; lia.
Qed.

Lemma computeLineDiffs_script olds news :
  script olds news (length olds) (length news) (computeLineDiffs olds news).
Proof.
  unfold computeLineDiffs.
  destruct (traceback_script olds news (length olds + length news) (length olds) (length news) [])
    as (es & E & Hes); [lia..|].
  rewrite E. cbn [app]. by rewrite rev_involutive.
Qed.

(** ** Applying hunks *)

(** A patch: the old lines up to each hunk, then the hunk's new side in place
    of its old side. *)
Fixpoint apply_hunks (pos : nat) (olds : list string) (hs : list DiffHunk) : list string :=
  match hs with
  | [] => drop pos olds
  | h :: hs => take (oldStart h - 1 - pos) (drop pos olds) ++ new_side (lines h)
                 ++ apply_hunks (oldStart h - 1 + oldLines h) olds hs
  end.

Definition changed (ds : list LineDiff) (q : nat) : Prop :=
  exists d, ds !! q = Some d /\ is_change d = true.

Lemma changed_lt ds q : changed ds q -> q < length ds.
Proof. intros (d & H & _). by apply lookup_lt_Some in H. Qed.

(** From position [p] the ranges are in order, apart, inside the script, and
    nothing changes outside them. *)
Fixpoint covers (ds : list LineDiff) (p : nat) (rs : list (nat * nat)) : Prop :=
  match rs with
  | [] => forall q, p <= q -> ~ changed ds q
  | (s, e) :: rs =>
      p <= s <= e /\ e < length ds /\ (forall q, p <= q < s -> ~ changed ds q) /\ covers ds (S e) rs
  end.

Lemma changed_indices_elem i ds k :
  k ∈ changed_indices i ds <-> exists q, k = i + q /\ changed ds q.
Proof.
  revert i. induction ds as [|d ds IH]; intros i; cbn [changed_indices].
  - split; [by intros ?%not_elem_of_nil|]. by intros (q & _ & x & H & _).
  - assert (Htail : k ∈ changed_indices (S i) ds <-> exists q, k = i + S q /\ changed (d :: ds) (S q)).
    { rewrite IH. split; intros (q & -> & Hq); exists q; (split; [lia|exact Hq]). }
    destruct (is_change d) eqn:Ed.
    + rewrite elem_of_cons, Htail. split.
      * intros [->|(q & -> & Hq)]; [|by exists (S q)]. exists 0. split; [lia|]. by exists d.
      * intros ([|q] & -> & Hq); [left; lia|right; eauto].
    + rewrite Htail. split; [intros (q & -> & Hq); by exists (S q)|].
      intros ([|q] & -> & Hq); [|eauto]. destruct Hq as (x & [= <-] & Hx). congruence.
Qed.

(** The indices are increasing. *)
Lemma changed_indices_sorted i ds :
  match changed_indices i ds with
  | [] => True
  | k :: ks => changed_indices (S k) (drop (S k - i) ds) = ks /\ i <= k
  end.
Proof.
  revert i. induction ds as [|d ds IH]; intros i; cbn [changed_indices]; [done|].
  destruct (is_change d).
  - split; [|done]. by rewrite Nat.sub_succ_l, Nat.sub_diag by lia.
  - specialize (IH (S i)). destruct (changed_indices (S i) ds) as [|k ks]; [done|].
    destruct IH as [IH Hk]. split; [|lia]. rewrite <- IH. f_equal.
    rewrite (Nat.sub_succ_l i k) by lia. cbn [drop]. done.
Qed.

(** The loop invariant: [c] is the last changed index in the current range,
    and [changed_indices (S c) (drop (S c) ds)] are the ones to come. *)
Lemma build_ranges_covers ds p rs c :
  p <= rs <= c -> c < length ds ->
  (forall q, p <= q < rs -> ~ changed ds q) ->
  covers ds p
    (build_ranges (length ds) rs (Nat.min (length ds - 1) (c + CONTEXT_LINES))
       (changed_indices (S c) (drop (S c) ds))).
Proof.
  remember (length ds - c) as n eqn:En. revert p rs c En.
  induction (lt_wf n) as [n _ IH]; intros p rs c -> Hp Hc Hun. unfold CONTEXT_LINES in *.
  pose proof (changed_indices_sorted (S c) (drop (S c) ds)) as Hs.
  pose proof (changed_indices_elem (S c) (drop (S c) ds)) as Hel.
  assert (Hch : forall q, changed ds (S c + q) <-> changed (drop (S c) ds) q).
  { intros q. unfold changed. by rewrite lookup_drop. }
  destruct (changed_indices (S c) (drop (S c) ds)) as [|k ks] eqn:Ek; cbn [build_ranges].
  - cbn [covers]. split_and!; [lia|lia|lia|exact Hun|]. intros q Hq Hqc.
    apply (not_elem_of_nil q), Hel. exists (q - S c). split; [lia|]. apply Hch.
    by replace (S c + (q - S c)) with q by lia.
  - destruct Hs as [Hks Hk]. rewrite drop_drop in Hks. replace (S c + (S k - S c)) with (S k) in Hks by lia.
    assert (Hkc : changed ds k).
    { destruct (proj1 (Hel k) ltac:(by constructor)) as (q & -> & Hq). by apply Hch. }
    pose proof (changed_lt _ _ Hkc) as Hkl.
    assert (Hgap : forall q, S c <= q < k -> ~ changed ds q).
    { intros q Hq Hqc.
      assert (Hin : q ∈ k :: ks).
      { apply Hel. exists (q - S c). split; [lia|]. apply Hch. by replace (S c + (q - S c)) with q by lia. }
      apply elem_of_cons in Hin as [->|Hin]; [lia|]. rewrite <- Hks in Hin.
      apply changed_indices_elem in Hin as (q' & -> & _). lia. }
    rewrite <- Hks. unfold CONTEXT_LINES. destruct (Nat.leb_spec (k - 3) (Nat.min (length ds - 1) (c + 3) + 1)).
    + apply (IH (length ds - k)); [lia|done|lia|lia|exact Hun].
    + cbn [covers]. split_and!; [lia|lia|lia|exact Hun|].
      apply (IH (length ds - k)); [lia|done|lia|lia|]. intros q Hq. apply Hgap. lia.
Qed.

Lemma hunk_lines_numbered o n l : numbered o n l -> hunk_lines (S o) (S n) l = l.
Proof.
  revert o n. induction l as [|[op ln c] l IH]; intros o n; [done|]. cbn [numbered lineNumber].
  unfold is_old, is_new. cbn [operation hunk_lines content].
  by destruct op; intros [-> H]; rewrite IH.
Qed.

Lemma unchanged_sides ds a b :
  a <= b -> (forall q, a <= q < b -> ~ changed ds q) ->
  old_side (take (b - a) (drop a ds)) = new_side (take (b - a) (drop a ds)).
Proof.
  intros Hab Hun.
  assert (Hall : Forall (fun d => is_change d = false) (take (b - a) (drop a ds))).
  { apply Forall_lookup. intros q d Hq. apply lookup_take_Some in Hq as [Hq Hlt].
    rewrite lookup_drop in Hq. destruct (is_change d) eqn:E; [|done].
    exfalso. apply (Hun (a + q)); [lia|]. by exists d. }
  induction Hall as [|d l Hd _ IH]; [done|]. unfold is_change in Hd.
  apply negb_false_iff, bool_decide_eq_true in Hd. unfold old_side, new_side in *.
  cbn [List.filter]. unfold is_old at 1, is_new at 1. rewrite Hd. cbn [map]. by rewrite IH.
Qed.

Section Patch.
Context (ds : list LineDiff) (Hnum : numbered 0 0 ds).

Lemma take_take_drop {A} (l : list A) a b : a <= b -> take b l = take a l ++ take (b - a) (drop a l).
Proof.
  intros H. rewrite <- (take_drop a (take b l)) at 1. rewrite take_take, Nat.min_l by done.
  f_equal. apply skipn_firstn_comm.
Qed.

(** What a hunk holds: the part of the script in its range. *)
Lemma range_hunk_spec s e :
  s <= e ->
  lines (range_hunk ds (s, e)) = take (S e - s) (drop s ds) /\
  oldStart (range_hunk ds (s, e)) = S (length (old_side (take s ds))) /\
  newStart (range_hunk ds (s, e)) = S (length (new_side (take s ds))) /\
  oldLines (range_hunk ds (s, e)) = length (old_side (take (S e - s) (drop s ds))) /\
  newLines (range_hunk ds (s, e)) = length (new_side (take (S e - s) (drop s ds))).
Proof.
  intros Hse. cbn [range_hunk lines oldStart newStart oldLines newLines].
  rewrite !count_old, !count_new, !Nat.add_1_r. split_and!; try done.
  apply hunk_lines_numbered.
  rewrite <- (take_drop s ds) in Hnum. apply numbered_app in Hnum as [_ H].
  rewrite count_old, count_new in H. cbn in H.
  rewrite <- (take_drop (S e - s) (drop s ds)) in H. by apply numbered_app in H as [H _].
Qed.

Lemma drop_side_prefix p :
  drop (length (old_side (take p ds))) (old_side ds) = old_side (drop p ds) /\
  drop (length (new_side (take p ds))) (new_side ds) = new_side (drop p ds).
Proof.
  split.
  - rewrite <- (take_drop p ds) at 2. rewrite old_side_app. apply drop_app_length.
  - rewrite <- (take_drop p ds) at 2. rewrite new_side_app. apply drop_app_length.
Qed.

Lemma apply_hunks_covers p rs :
  covers ds p rs ->
  apply_hunks (length (old_side (take p ds))) (old_side ds) (map (range_hunk ds) rs)
  = new_side (drop p ds).
Proof.
  revert p. induction rs as [|[s e] rs IH]; intros p Hc; cbn [map apply_hunks covers] in *.
  - rewrite (proj1 (drop_side_prefix p)).
    pose proof (unchanged_sides ds p (Nat.max p (length ds)) ltac:(lia)) as H.
    rewrite take_ge in H by (rewrite length_drop; lia). apply H. intros q Hq. apply Hc. lia.
  - destruct Hc as ([Hps Hse] & He & Hun & Hc).
    destruct (range_hunk_spec s e Hse) as (-> & -> & _ & -> & _).
    rewrite (proj1 (drop_side_prefix p)).
    rewrite (take_take_drop ds p s Hps), old_side_app, length_app.
    replace (S (length (old_side (take p ds)) + length (old_side (take (s - p) (drop p ds)))) - 1
             - length (old_side (take p ds))) with (length (old_side (take (s - p) (drop p ds)))) by lia.
    assert (Edrop : drop p ds = take (s - p) (drop p ds) ++ drop s ds).
    { rewrite <- (take_drop (s - p) (drop p ds)) at 1. rewrite drop_drop. do 2 f_equal. lia. }
    assert (Eold : old_side (drop p ds) = old_side (take (s - p) (drop p ds)) ++ old_side (drop s ds))
      by (rewrite <- old_side_app; by rewrite <- Edrop).
    assert (Enew0 : new_side (drop p ds) = new_side (take (s - p) (drop p ds)) ++ new_side (drop s ds))
      by (rewrite <- new_side_app; by rewrite <- Edrop).
    rewrite Eold, take_app_length, Enew0, <- (unchanged_sides ds p s Hps Hun). f_equal.
    assert (Edrop2 : drop s ds = take (S e - s) (drop s ds) ++ drop (S e) ds).
    { rewrite <- (take_drop (S e - s) (drop s ds)) at 1. rewrite drop_drop. do 2 f_equal. lia. }
    assert (Enew : new_side (drop s ds) = new_side (take (S e - s) (drop s ds)) ++ new_side (drop (S e) ds))
      by (rewrite <- new_side_app; by rewrite <- Edrop2).
    rewrite Enew. f_equal. rewrite <- (IH (S e) Hc). f_equal.
    rewrite (take_take_drop ds p (S e)), (take_take_drop (drop p ds) (s - p) (S e - p)) by lia.
    rewrite !old_side_app, !length_app, drop_drop.
    replace (p + (s - p)) with s by lia. replace (S e - p - (s - p)) with (S e - s) by lia. lia.
Qed.

Lemma covers_hunks :
  exists rs, groupIntoHunks ds = map (range_hunk ds) rs /\ covers ds 0 rs.
Proof.
  unfold groupIntoHunks.
  pose proof (changed_indices_sorted 0 ds) as Hs. pose proof (changed_indices_elem 0 ds) as Hel.
  destruct (changed_indices 0 ds) as [|k ks].
  - exists []. split; [done|]. intros q _ Hq. apply (not_elem_of_nil q), Hel. by exists q.
  - destruct Hs as [<- _]. eexists. split; [done|]. rewrite Nat.sub_0_r.
    assert (Hk : changed ds k) by (by destruct (proj1 (Hel k) ltac:(by constructor)) as (q & -> & Hq)).
    pose proof (changed_lt _ _ Hk). apply build_ranges_covers; [lia|done|].
    intros q Hq Hqc. assert (Hin : q ∈ k :: changed_indices (S k) (drop (S k - 0) ds)) by (apply Hel; by exists q).
    apply elem_of_cons in Hin as [->|Hin]; [unfold CONTEXT_LINES in *; lia|].
    apply changed_indices_elem in Hin as (q' & -> & _). unfold CONTEXT_LINES in *. lia.
Qed.
End Patch.

Lemma rev_sublist (xs ys : list string) : xs `sublist_of` ys -> rev xs `sublist_of` rev ys.
Proof.
  induction 1 as [|x xs ys _ IH|x xs ys _ IH]; cbn; [done|by apply sublist_app|].
  rewrite <- (app_nil_r (rev xs)). apply sublist_app; [done|apply sublist_nil_l].
Qed.

(** ** Lemmas: sorting keeps the elements *)

Lemma insert_by_perm {A} (le : A -> A -> bool) x l : insert_by le x l ≡ₚ x :: l.
Proof.
  induction l as [|y l IH]; [done|]. cbn. destruct (le x y); [done|]. rewrite IH. constructor.
Qed.

Lemma sort_by_perm {A} (le : A -> A -> bool) (l : list A) : sort_by le l ≡ₚ l.
Proof. induction l as [|x l IH]; [done|]. cbn. by rewrite insert_by_perm, IH. Qed.

Lemma elem_of_sorted_filter (le : string -> string -> bool) (l k : list string) p :
  p ∈ sort_by le (List.filter (fun p => negb (mem p k)) l) <-> p ∈ l /\ p ∉ k.
Proof.
  rewrite (sort_by_perm le), list_elem_of_In, filter_In, <- list_elem_of_In, negb_true_iff.
  rewrite <- not_true_iff_false, mem_spec. done.
Qed.

Lemma operation_eqb (a b : DiffOperation) :
  bool_decide (a = b) =
  match a, b with Equal, Equal | Insert, Insert | Delete, Delete => true | _, _ => false end.
Proof. by destruct a, b. Qed.

Lemma script_counts ds :
  count is_old ds = count is_equal ds + count (fun d => bool_decide (operation d = Delete)) ds /\
  count is_new ds = count is_equal ds + count (fun d => bool_decide (operation d = Insert)) ds.
Proof.
  unfold count, is_equal, is_old, is_new.
  induction ds as [|[op ln c] ds [IH1 IH2]]; [done|]. cbn [List.filter operation].
  destruct op; rewrite !operation_eqb; cbn iota; cbn [length]; rewrite IH1, IH2; split; lia.
Qed.

(** The hunks of a script patch the old side to the new side. *)
Lemma hunks_of_script olds news (hs := groupIntoHunks (computeLineDiffs olds news)) :
  apply_hunks 0 olds hs = news /\
  Forall (fun h => old_side (lines h) = take (oldLines h) (drop (oldStart h - 1) olds) /\
                   new_side (lines h) = take (newLines h) (drop (newStart h - 1) news)) hs.
Proof.
  subst hs. destruct (computeLineDiffs_script olds news) as [Ho Hn Hnum _].
  rewrite firstn_all in Ho, Hn. set (ds := computeLineDiffs olds news) in *.
  destruct (covers_hunks ds) as (rs & -> & Hc). rewrite <- Ho, <- Hn. split.
  - exact (apply_hunks_covers ds Hnum 0 rs Hc).
  - clear -Hc Hnum.
    assert (Hp : exists p, covers ds p rs) by by exists 0. clear Hc. destruct Hp as [p Hc]. revert p Hc.
    induction rs as [|[s e] rs IH]; intros p Hc; [constructor|].
    destruct Hc as ([_ Hse] & _ & _ & Hc). cbn [map]. constructor; [|by apply (IH (S e))].
    destruct (range_hunk_spec ds Hnum s e Hse) as (-> & -> & -> & -> & ->).
    rewrite !Nat.sub_succ, !Nat.sub_0_r.
    destruct (drop_side_prefix ds s) as [-> ->].
    assert (E : drop s ds = take (S e - s) (drop s ds) ++ drop (S e - s) (drop s ds)) by by rewrite take_drop.
    split; rewrite E at 3; rewrite ?old_side_app, ?new_side_app; by rewrite take_app_length.
Qed.

(** ** Properties *)

(** The edit script turns the old lines into the new ones: its equal and
    deleted lines are the old file, its equal and inserted lines the new file,
    each with its 1-based number in that file; and it is as short as possible:
    no common subsequence of the two files has more lines than the script
    keeps, so the table and the traceback compute a longest one. *)
Theorem diff_script olds news zs (ds := computeLineDiffs olds news) :
  zs `sublist_of` olds -> zs `sublist_of` news ->
  old_side ds = olds /\ new_side ds = news /\ numbered 0 0 ds /\ length zs <= count is_equal ds.
Proof.
  intros Hx Hy. destruct (computeLineDiffs_script olds news) as [Ho Hn Hnum He].
  rewrite firstn_all in Ho, Hn. split_and!; [done|done|done|].
  subst ds. rewrite He. unfold prefix_lcs. rewrite !firstn_all.
  rewrite <- (length_rev zs). by apply lcs_max; apply rev_sublist.
Qed.

(** The hunks are a patch: replacing, in the old file, the lines each hunk
    names by the hunk's new side gives the new file, and every hunk quotes the
    old and new lines its header names, context included. *)
Theorem hunks_patch olds news (hs := groupIntoHunks (computeLineDiffs olds news)) :
  apply_hunks 0 olds hs = news /\
  Forall (fun h => old_side (lines h) = take (oldLines h) (drop (oldStart h - 1) olds) /\
                   new_side (lines h) = take (newLines h) (drop (newStart h - 1) news)) hs.
Proof. apply hunks_of_script. Qed.

(** The lines that a script keeps are lines of both sides, in order. *)
Lemma kept_sublist ds :
  map content (List.filter is_equal ds) `sublist_of` old_side ds /\ map content (List.filter is_equal ds) `sublist_of` new_side ds.
Proof.
  unfold old_side, new_side, is_equal, is_old, is_new. induction ds as [|[op ln c] ds [IH1 IH2]]; [split; constructor|].
  cbn [List.filter operation]. destruct op; rewrite !operation_eqb; cbn; split; first [exact IH1|exact IH2|by constructor].
Qed.

(** C29: the diff of two snapshots: added and removed are the paths of one side
    only; modified holds exactly the paths of both sides whose contents
    differ, with hunks that patch the old lines to the new ones.  The counts are
    the least there can be: a longest common subsequence of the two files is
    kept, the other new lines are additions and the other old ones deletions. *)
Theorem snapshot_diff {host : Host} oldFiles newFiles (d := computeDiff oldFiles newFiles) :
  (forall p, p ∈ added d <-> p ∈ jm_keys newFiles /\ p ∉ jm_keys oldFiles) /\
  (forall p, p ∈ removed d <-> p ∈ jm_keys oldFiles /\ p ∉ jm_keys newFiles) /\
  (forall p, p ∈ map path (modified d) <->
     exists o n, jm_get p oldFiles = Some o /\ jm_get p newFiles = Some n /\ o <> n) /\
  Forall (fun f => exists o n, jm_get (path f) oldFiles = Some o /\ jm_get (path f) newFiles = Some n /\
     apply_hunks 0 (splitLines o) (hunks f) = splitLines n /\
     exists kept, kept `sublist_of` splitLines o /\ kept `sublist_of` splitLines n /\
       (forall zs, zs `sublist_of` splitLines o -> zs `sublist_of` splitLines n -> length zs <= length kept) /\
       length (splitLines o) = length kept + deletions f /\ length (splitLines n) = length kept + additions f) (modified d).
Proof.
  assert (Hmod : forall f, f ∈ modified d <-> exists o n, jm_get (path f) oldFiles = Some o /\
            jm_get (path f) newFiles = Some n /\ diffFile (path f) o n = Some f).
  { intros f. unfold d, computeDiff. cbn [modified]. rewrite (sort_by_perm _), list_elem_of_omap.
    assert (Hpath : forall p o n, diffFile p o n = Some f -> path f = p)
      by (intros p o n; unfold diffFile; destruct (String.eqb o n); [done|by intros [= <-]]).
    split.
    - intros (p & Hp & H). destruct (mem p (jm_keys newFiles)) eqn:Em; [|done]. cbn [negb] in H.
      apply mem_spec in Em. rewrite (Hpath _ _ _ H).
      destruct (jm_get p oldFiles) as [o|] eqn:Eo; [|by apply jm_get_None in Eo].
      destruct (jm_get p newFiles) as [n|] eqn:En; [|by apply jm_get_None in En]. by exists o, n.
    - intros (o & n & Ho & Hn & H). exists (path f).
      assert (Ho' : path f ∈ jm_keys oldFiles).
      { apply jm_has_true. unfold jm_has. by rewrite Ho. }
      assert (Hn' : path f ∈ jm_keys newFiles).
      { apply jm_has_true. unfold jm_has. by rewrite Hn. }
      split; [done|]. apply mem_spec in Hn' as ->. by rewrite Ho, Hn. }
  split_and!.
  - intros p. apply elem_of_sorted_filter.
  - intros p. apply elem_of_sorted_filter.
  - intros p. rewrite list_elem_of_fmap. split.
    + intros (f & -> & (o & n & Ho & Hn & H)%Hmod). exists o, n. split_and!; try done.
      intros ->. unfold diffFile in H. by rewrite String.eqb_refl in H.
    + intros (o & n & Ho & Hn & Hne). destruct (diffFile p o n) as [f|] eqn:E.
      * assert (path f = p) as <- by (unfold diffFile in E; rewrite (proj2 (String.eqb_neq o n)) in E by done; by injection E as <-).
        exists f. split; [done|]. apply Hmod. eauto.
      * unfold diffFile in E. by rewrite (proj2 (String.eqb_neq o n)) in E.
  - apply Forall_forall. intros f (o & n & Ho & Hn & H)%Hmod. exists o, n. split_and!; [done|done|..];
      unfold diffFile in H; destruct (String.eqb o n); try done; injection H as <-; cbn [hunks additions deletions].
    + apply hunks_of_script.
    + destruct (computeLineDiffs_script (splitLines o) (splitLines n)) as [Hos Hns _ He].
      rewrite firstn_all in Hos, Hns. set (ds := computeLineDiffs _ _) in *.
      exists (map content (List.filter is_equal ds)). destruct (kept_sublist ds) as [Ho' Hn']. rewrite Hos in Ho'. rewrite Hns in Hn'.
      split_and!; [done|done| | |].
      * intros zs Hx Hy. rewrite length_map. fold (count is_equal ds). rewrite He. unfold prefix_lcs. rewrite !firstn_all, <- (length_rev zs).
        by apply lcs_max; apply rev_sublist.
      * rewrite length_map. apply (f_equal length) in Hos. rewrite <- count_old in Hos. destruct (script_counts ds). unfold count in *. lia.
      * rewrite length_map. apply (f_equal length) in Hns. rewrite <- count_new in Hns. destruct (script_counts ds). unfold count in *. lia.
Qed.

(** ** Witness *)

Lemma diff_script_witness :
  count is_equal (computeLineDiffs ["a"; "b"; "c"] ["a"; "x"; "c"]) = 2 /\
  2 <= count is_equal (computeLineDiffs ["a"; "b"; "c"] ["a"; "x"; "c"]).
Proof.
  split; [vm_compute; reflexivity|].
  apply (diff_script ["a"; "b"; "c"] ["a"; "x"; "c"] ["a"; "c"]); repeat constructor.
Defined.
