(* ===== verification/QueryCache.v ===== *)
(** * App SDK: query cache

    [packages/app-sdk/src/cache/QueryCache.ts]: entries and listeners by cache
    key, the optimistic updates, snapshots and invalidation.  Every operation
    also gives the listeners it calls, in order; what the listeners do is not
    modelled. *)

From S2P Require Import Prelude JsString JsNumber JsValue.
From Stdlib Require Import Ascii.

Local Open Scope Z_scope.

(** ** State *)

(** [pagination], [error] and [promise] are carried along only. *)
Record CacheEntry : Type := {
  data : option (list obj);
  pagination : value;
  error : value;
  fetchedAt : Z;
  promise : value
}.

Definition listener : Type := N.

Record QueryCache : Type := {
  entries : jmap string CacheEntry;
  listeners : jmap string (list listener)
}.

Definition with_data (d : option (list obj)) (e : CacheEntry) : CacheEntry :=
  {| data := d; pagination := pagination e; error := error e; fetchedAt := fetchedAt e;
     promise := promise e |}.

Definition with_entries (m : jmap string CacheEntry) (c : QueryCache) : QueryCache :=
  {| entries := m; listeners := listeners c |}.

(** ** Keys and listeners *)

(** [{"entity":] *)
Definition entity_prefix : string := "{" +:+ json_quote "entity" +:+ ":".

Definition keyBelongsToEntity (key entity : string) : bool :=
  startsWith key (entity_prefix +:+ json_quote entity).

(** The listeners [notifyListeners] calls. *)
Definition notifyListeners (key : string) (c : QueryCache) : list listener :=
  default [] (jm_get key (listeners c)).

Definition notify_all (keys : list string) (c : QueryCache) : list listener :=
  flat_map (fun k => notifyListeners k c) keys.

Definition subscribe (key : string) (l : listener) (c : QueryCache) : QueryCache :=
  let ls := default [] (jm_get key (listeners c)) in
  {| entries := entries c;
     listeners := jm_set key (if decide (l ∈ ls) then ls else ls ++ [l]) (listeners c) |}.

Definition unsubscribe (key : string) (l : listener) (c : QueryCache) : QueryCache :=
  match jm_get key (listeners c) with
  | None => c
  | Some ls =>
      let ls := List.filter (fun x => negb (bool_decide (x = l))) ls in
      {| entries := entries c;
         listeners := match ls with
                      | [] => jm_delete key (listeners c)
                      | _ => jm_set key ls (listeners c)
                      end |}
  end.

(** ** Reading and writing *)

Definition get (key : string) (c : QueryCache) : option CacheEntry := jm_get key (entries c).

Definition isStale (now : Z) (key : string) (staleTime : Z) (c : QueryCache) : bool :=
  match get key c with
  | None => true
  | Some e => staleTime <? now - fetchedAt e
  end.

Definition set (key : string) (e : CacheEntry) (c : QueryCache) : QueryCache * list listener :=
  let c := with_entries (jm_set key e (entries c)) c in (c, notifyListeners key c).

(** ** Optimistic updates *)

(** The loop of the optimistic operations: [f] gives the new entry, [None] for
    an entry that is skipped.  Setting a key that is there keeps its place. *)
Definition update_entity (entity : string) (f : CacheEntry -> option CacheEntry) (c : QueryCache) :
    QueryCache * list listener :=
  let touched (k : string) (e : CacheEntry) :=
    if keyBelongsToEntity k entity then f e else None in
  (with_entries (map (fun '(k, e) => (k, default e (touched k e))) (entries c)) c,
   notify_all
     (map fst (List.filter (fun '(k, e) => match touched k e with Some _ => true | None => false end)
                 (entries c))) c).

(** [record[k] === s] *)
Definition field_is (k s : string) (record : obj) : bool :=
  strict_eq (JsValue.get k record) (VStr s).

Definition on_data (f : list obj -> list obj) (e : CacheEntry) : option CacheEntry :=
  match data e with
  | Some d => Some (with_data (Some (f d)) e)
  | None => None
  end.

Definition optimisticCreate (entity : string) (record : obj) :=
  update_entity entity (fun e => Some (with_data (Some (default [] (data e) ++ [record])) e)).

Definition optimisticUpdate (entity id : string) (patch : obj) :=
  update_entity entity
    (on_data (map (fun record => if field_is "id" id record then assign (assign [] record) patch
                                 else record))).

Definition optimisticRemove (entity id : string) :=
  update_entity entity (on_data (List.filter (fun record => negb (field_is "id" id record)))).

Definition confirmCreate (entity optimisticId : string) (serverRecord : obj) :=
  update_entity entity
    (on_data (map (fun record => if field_is "_optimisticId" optimisticId record then serverRecord
                                 else record))).

(** ** Snapshots and invalidation *)

Definition snapshot (entity : string) (c : QueryCache) : jmap string CacheEntry :=
  List.filter (fun '(k, _) => keyBelongsToEntity k entity) (entries c).

Fixpoint restoreSnapshot (entity : string) (snap : jmap string CacheEntry) (c : QueryCache) :
    QueryCache * list listener :=
  match snap with
  | [] => (c, [])
  | (k, e) :: snap =>
      if keyBelongsToEntity k entity then
        let '(c, ls) := set k e c in
        let '(c, ls') := restoreSnapshot entity snap c in (c, ls ++ ls')
      else restoreSnapshot entity snap c
  end.

Definition invalidate (entity : string) (c : QueryCache) : QueryCache * list listener :=
  let keys := List.filter (fun k => keyBelongsToEntity k entity) (jm_keys (entries c)) in
  (with_entries (fold_left (fun m k => jm_delete k m) keys (entries c)) c, notify_all keys c).

Definition clear (c : QueryCache) : QueryCache * list listener :=
  (with_entries [] c, notify_all (jm_keys (entries c)) c).

(** The operations of a mutation. *)
Inductive operation : Type :=
| OCreate (record : obj)
| OUpdate (id : string) (patch : obj)
| ORemove (id : string)
| OConfirm (optimisticId : string) (serverRecord : obj)
| OInvalidate.

Definition perform (entity : string) (op : operation) : QueryCache -> QueryCache * list listener :=
  match op with
  | OCreate record => optimisticCreate entity record
  | OUpdate id patch => optimisticUpdate entity id patch
  | ORemove id => optimisticRemove entity id
  | OConfirm oid record => confirmCreate entity oid record
  | OInvalidate => invalidate entity
  end.

Definition perform_all (ops : list (string * operation)) (c : QueryCache) : QueryCache :=
  fold_left (fun c '(entity, op) => (perform entity op c).1) ops c.

(** ** Lemmas: quoted strings do not run into one another *)

(** Reads one character of a JSON string body. *)
Definition unescape (l : list ascii) : option (ascii * list ascii) :=
  match l with
  | [] => None
  | c :: u =>
      if Ascii.eqb c quote then None
      else if Ascii.eqb c backslash then
        match u with
        | d :: u' =>
            if Ascii.eqb d "b" then Some (ascii_of_N 8, u')
            else if Ascii.eqb d "t" then Some (ascii_of_N 9, u')
            else if Ascii.eqb d "n" then Some (ascii_of_N 10, u')
            else if Ascii.eqb d "f" then Some (ascii_of_N 12, u')
            else if Ascii.eqb d "r" then Some (ascii_of_N 13, u')
            else if Ascii.eqb d "u" then
              match u' with
              | _ :: _ :: x :: y :: u'' =>
                  Some (ascii_of_N (Z.to_N (digit_value x * 16 + digit_value y)), u'')
              | _ => None
              end
            else Some (d, u')
        | [] => None
        end
      else Some (c, u)
  end.

Lemma unescape_escape c u : unescape (json_escape c ++ u) = Some (c, u).
Proof. destruct c as [[] [] [] [] [] [] [] []]; vm_compute; reflexivity. Qed.

Lemma escape_prefix_free l l' u u' :
  flat_map json_escape l ++ quote :: u = flat_map json_escape l' ++ quote :: u' -> l = l' /\ u = u'.
Proof.
  assert (Hq : forall v, unescape (quote :: v) = None) by (intros; reflexivity).
  revert l'. induction l as [|c l IH]; intros [|c' l'] E; cbn [flat_map] in E.
  - by injection E as ->.
  - apply (f_equal unescape) in E. cbn [app] in E. rewrite <- app_assoc, unescape_escape, Hq in E. done.
  - apply (f_equal unescape) in E. cbn [app] in E. rewrite <- app_assoc, unescape_escape, Hq in E. done.
  - apply (f_equal unescape) in E. rewrite <- !app_assoc, !unescape_escape in E. injection E as <- E.
    destruct (IH _ E) as [-> ->]. done.
Qed.

Lemma json_quote_prefix_free s s' t t' :
  json_quote s +:+ t = json_quote s' +:+ t' -> s = s'.
Proof.
  intros E. apply (f_equal explode) in E. rewrite !explode_app in E. unfold json_quote in E.
  rewrite !explode_implode in E. cbn [app] in E. injection E as E.
  rewrite <- !app_assoc in E. cbn [app] in E. apply escape_prefix_free in E as [E _].
  by apply explode_inj.
Qed.

(** A key belongs to one entity at most. *)
Lemma belongs_unique key e e' :
  keyBelongsToEntity key e = true -> keyBelongsToEntity key e' = true -> e = e'.
Proof.
  unfold keyBelongsToEntity. intros [t ->]%startsWith_spec [t' E]%startsWith_spec.
  rewrite !string_app_assoc in E. apply append_inj in E. by apply json_quote_prefix_free in E.
Qed.

Lemma belongs_built e e' rest :
  keyBelongsToEntity (entity_prefix +:+ json_quote e +:+ rest) e' = true <-> e = e'.
Proof.
  assert (H : keyBelongsToEntity (entity_prefix +:+ json_quote e +:+ rest) e = true).
  { apply startsWith_spec. exists rest. by rewrite string_app_assoc. }
  split; [|by intros <-]. intros H'. by apply (belongs_unique _ _ _ H).
Qed.

(** ** Lemmas: what an operation does to one key *)

Definition entry_effect (op : operation) (e : CacheEntry) : option CacheEntry :=
  match op with
  | OCreate record => Some (with_data (Some (default [] (data e) ++ [record])) e)
  | OUpdate id patch =>
      Some (default e (on_data (map (fun record =>
        if field_is "id" id record then assign (assign [] record) patch else record)) e))
  | ORemove id => Some (default e (on_data (List.filter (fun record => negb (field_is "id" id record))) e))
  | OConfirm oid r =>
      Some (default e (on_data (map (fun record => if field_is "_optimisticId" oid record then r else record)) e))
  | OInvalidate => None
  end.

Lemma get_update_entity entity f c k :
  get k (update_entity entity f c).1 =
  if keyBelongsToEntity k entity then (fun e => default e (f e)) <$> get k c else get k c.
Proof.
  unfold get, update_entity, with_entries. cbn [fst entries].
  induction (entries c) as [|[k' e] m IH]; [by destruct (keyBelongsToEntity k entity)|].
  cbn [map jm_get]. destruct (decide (k = k')) as [->|]; [|exact IH].
  by destruct (keyBelongsToEntity k' entity).
Qed.

Lemma get_delete_all ks m (k : string) :
  jm_get k (fold_left (fun m k => jm_delete k m) ks m) =
  if decide (k ∈ ks) then None else jm_get k (m : jmap string CacheEntry).
Proof.
  revert m. induction ks as [|k' ks IH]; intros m; cbn [fold_left].
  - by rewrite decide_False by apply not_elem_of_nil.
  - rewrite IH, jm_get_delete. pose proof (elem_of_cons ks k k'). repeat case_decide; naive_solver.
Qed.

Lemma get_perform entity op c k :
  get k (perform entity op c).1 =
  if keyBelongsToEntity k entity then get k c ≫= entry_effect op else get k c.
Proof.
  destruct op; cbn [perform]; unfold optimisticCreate, optimisticUpdate, optimisticRemove, confirmCreate;
    rewrite ?get_update_entity; try by (destruct (keyBelongsToEntity k entity), (get k c)).
  unfold get, invalidate, with_entries. cbn [fst entries]. rewrite get_delete_all.
  assert (Hin : k ∈ List.filter (fun k => keyBelongsToEntity k entity) (jm_keys (entries c)) <->
                k ∈ jm_keys (entries c) /\ keyBelongsToEntity k entity = true).
  { by rewrite !list_elem_of_In, filter_In. }
  destruct (keyBelongsToEntity k entity) eqn:Ek; case_decide as Hd; rewrite Hin in Hd.
  - by destruct (jm_get k (entries c)).
  - destruct (jm_get k (entries c)) as [e|] eqn:Eg; [|done]. exfalso. apply Hd. split; [|done].
    apply jm_has_true. unfold jm_has. by rewrite Eg.
  - naive_solver.
  - done.
Qed.

(** The effect of a sequence on one key: that of the operations of the key's
    entity. *)
Lemma get_perform_all ops c k :
  get k (perform_all ops c) =
  fold_left (fun o '(entity, op) => if keyBelongsToEntity k entity then o ≫= entry_effect op else o)
    ops (get k c).
Proof.
  revert c. induction ops as [|[entity op] ops IH]; intros c; [done|].
  cbn [perform_all fold_left]. fold (perform_all ops (perform entity op c).1).
  by rewrite IH, get_perform.
Qed.

Lemma effects_none ops k :
  fold_left (fun o '(entity, op) => if keyBelongsToEntity k entity then o ≫= entry_effect op else o)
    ops None = None.
Proof.
  induction ops as [|[entity op] ops IH]; [done|]. cbn [fold_left].
  by destruct (keyBelongsToEntity k entity).
Qed.

Lemma get_restore entity snap c k :
  NoDup (jm_keys snap) ->
  get k (restoreSnapshot entity snap c).1 =
  if keyBelongsToEntity k entity then
    match jm_get k snap with Some e => Some e | None => get k c end
  else get k c.
Proof.
  revert c. induction snap as [|[k' e] snap IH]; intros c Hnd; cbn [restoreSnapshot jm_get].
  { by destruct (keyBelongsToEntity k entity). }
  apply NoDup_cons in Hnd as [Hk' Hnd].
  destruct (keyBelongsToEntity k' entity) eqn:Ek'.
  - cbn [set]. specialize (IH (with_entries (jm_set k' e (entries c)) c) Hnd).
    destruct (restoreSnapshot entity snap _) as [c2 ls]. cbn [fst] in *. rewrite IH.
    unfold get, with_entries. cbn [entries]. rewrite jm_get_set.
    destruct (keyBelongsToEntity k entity) eqn:Ek.
    + destruct (decide (k = k')) as [->|Hne]; [|by rewrite decide_False by done].
      rewrite decide_True by done. by rewrite (proj2 (jm_get_None k' snap)).
    + rewrite decide_False by congruence. done.
  - rewrite IH by done. destruct (keyBelongsToEntity k entity) eqn:Ek; [|done].
    by rewrite decide_False by congruence.
Qed.

Lemma get_snapshot entity c k :
  keyBelongsToEntity k entity = true -> jm_get k (snapshot entity c) = get k c.
Proof.
  intros Hk. unfold snapshot, get. induction (entries c) as [|[k' e] m IH]; [done|].
  cbn [List.filter jm_get]. destruct (decide (k = k')) as [<-|Hne].
  - rewrite Hk. cbn [jm_get]. by rewrite decide_True.
  - destruct (keyBelongsToEntity k' entity); [|exact IH]. cbn [jm_get]. by rewrite decide_False.
Qed.

Lemma snapshot_NoDup entity c : NoDup (jm_keys (entries c)) -> NoDup (jm_keys (snapshot entity c)).
Proof.
  unfold snapshot, jm_keys. induction (entries c) as [|[k e] m IH]; intros H; [constructor|].
  apply NoDup_cons in H as [Hk H]. cbn [List.filter]. destruct (keyBelongsToEntity k entity); [|by apply IH].
  cbn [map fst]. constructor; [|by apply IH]. contradict Hk.
  apply list_elem_of_fmap in Hk as ((k2 & e2) & -> & Hin).
  rewrite list_elem_of_In, filter_In in Hin. destruct Hin as [Hin _].
  apply list_elem_of_fmap. exists (k2, e2). split; [done|]. by apply list_elem_of_In.
Qed.

(** ** Lemmas: notifications *)

Lemma elem_of_notify_all l keys c :
  l ∈ notify_all keys c <-> exists k, k ∈ keys /\ l ∈ notifyListeners k c.
Proof. unfold notify_all. rewrite list_elem_of_In, in_flat_map. by setoid_rewrite <- list_elem_of_In. Qed.

Lemma perform_notifies entity op c l :
  l ∈ (perform entity op c).2 ->
  exists k, keyBelongsToEntity k entity = true /\ is_Some (get k c) /\ l ∈ notifyListeners k c.
Proof.
  assert (Hkey : forall k, k ∈ jm_keys (entries c) -> is_Some (get k c)).
  { intros k Hk. apply jm_has_true in Hk. unfold jm_has, get in *. by destruct (jm_get k (entries c)). }
  assert (Hup : forall f, l ∈ (update_entity entity f c).2 ->
    exists k, keyBelongsToEntity k entity = true /\ is_Some (get k c) /\ l ∈ notifyListeners k c).
  { intros f (k & Hk & Hl)%elem_of_notify_all. apply list_elem_of_fmap in Hk as ((k' & e) & -> & Hin).
    rewrite list_elem_of_In, filter_In in Hin. destruct Hin as [Hin Ht]. cbn in Ht. exists k'.
    destruct (keyBelongsToEntity k' entity) eqn:E; [|done]. split_and!; [done| |done].
    apply Hkey, list_elem_of_fmap. exists (k', e). split; [done|]. by apply list_elem_of_In. }
  destruct op; cbn [perform]; try apply Hup.
  intros (k & Hk & Hl)%elem_of_notify_all. rewrite list_elem_of_In, filter_In in Hk.
  destruct Hk as [Hk E]. apply list_elem_of_In in Hk. exists k. auto.
Qed.

(** ** Properties *)

(** Rolling back a failed mutation: whatever optimistic updates and
    invalidations of whatever entities ran since the snapshot of an entity,
    restoring it gives every entry of the entity back, and leaves every other
    entry as the operations of the other entities made it. *)
Theorem rollback entity ops c k :
  NoDup (jm_keys (entries c)) ->
  get k (restoreSnapshot entity (snapshot entity c) (perform_all ops c)).1 =
  if keyBelongsToEntity k entity then get k c
  else get k (perform_all (filter (fun o => o.1 <> entity) ops) c).
Proof.
  intros Hnd. rewrite get_restore by by apply snapshot_NoDup.
  destruct (keyBelongsToEntity k entity) eqn:Ek.
  - rewrite get_snapshot by done. destruct (get k c) as [e|] eqn:Eg; [done|].
    by rewrite get_perform_all, Eg, effects_none.
  - rewrite !get_perform_all. generalize (get k c).
    induction ops as [|[entity' op] ops IH]; intros o; [done|]. cbn [fold_left].
    rewrite filter_cons. cbn [fst]. case_decide as Hd; cbn [fold_left]; rewrite IH; [done|].
    subst. by rewrite Ek.
Qed.

(** Entities do not touch one another: a key built for an entity belongs
    to no other one, however the names extend each other; an operation of an
    entity leaves the entries of every other entity alone and calls only
    listeners of entries of its own. *)
Theorem entity_isolation entity op c :
  (forall e rest, keyBelongsToEntity (entity_prefix +:+ json_quote e +:+ rest) entity = true
                  <-> e = entity) /\
  (forall k, keyBelongsToEntity k entity = false -> get k (perform entity op c).1 = get k c) /\
  (forall l, l ∈ (perform entity op c).2 ->
     exists k, keyBelongsToEntity k entity = true /\ is_Some (get k c) /\ l ∈ notifyListeners k c).
Proof.
  split_and!.
  - intros e rest. apply belongs_built.
  - intros k Hk. by rewrite get_perform, Hk.
  - intros l. apply perform_notifies.
Qed.

(** ** Witnesses *)

Definition sample_entry : CacheEntry :=
  {| data := Some [[("id", VStr "1")]]; pagination := VNull; error := VNull; fetchedAt := 0;
     promise := VNull |}.

Definition sample_key (e : string) : string := entity_prefix +:+ json_quote e +:+ "}".

Definition sample_cache : QueryCache :=
  {| entries := [(sample_key "order", sample_entry); (sample_key "orderItems", sample_entry)];
     listeners := [(sample_key "order", [7%N])] |}.

Lemma rollback_witness :
  get (sample_key "order")
    (restoreSnapshot "order" (snapshot "order" sample_cache)
       (perform_all [("order", ORemove "1"); ("orderItems", OInvalidate)] sample_cache)).1
  = Some sample_entry.
Proof.
  refine (eq_trans (rollback "order" [("order", ORemove "1"); ("orderItems", OInvalidate)]
                      sample_cache (sample_key "order") _) _);
    [decide_now | vm_compute; reflexivity].
Defined.

Lemma entity_isolation_witness :
  get (sample_key "orderItems") (perform "order" OInvalidate sample_cache).1 = Some sample_entry.
Proof.
  refine (eq_trans (proj1 (proj2 (entity_isolation "order" OInvalidate sample_cache))
                      (sample_key "orderItems") _) _); vm_compute; reflexivity.
Defined.
