(* ===== verification/PermissionCache.v ===== *)
(** * App SDK: permission cache

    [packages/app-sdk/src/cache/PermissionCache.ts]: the flat snapshot and its
    check, and the life of an instance: seeding, refreshing and destruction,
    with requests in flight. *)

From S2P Require Import Prelude JsString.
From Stdlib Require Import Ascii.

(** ** State *)

Definition permissions : Type := jmap string (list string).

Record PermissionCache : Type := {
  snapshot : jmap string bool;
  listeners : list N;
  refreshTimer : bool;
  destroyed : bool
}.

Definition new_cache : PermissionCache :=
  {| snapshot := []; listeners := []; refreshTimer := false; destroyed := false |}.

(** ** The snapshot *)

Definition permission_key (action resource : string) : string := action +:+ ":" +:+ resource.

Definition flat_snapshot (perms : permissions) : jmap string bool :=
  fold_left (fun next '(resource, actions) =>
      fold_left (fun next action => jm_set (permission_key action resource) true next) actions next)
    perms [].

Definition applySnapshot (perms : permissions) (c : PermissionCache) : PermissionCache :=
  {| snapshot := flat_snapshot perms; listeners := listeners c; refreshTimer := refreshTimer c;
     destroyed := destroyed c |}.

Definition allowed (key : string) (c : PermissionCache) : bool :=
  match jm_get key (snapshot c) with Some b => b | None => false end.

Definition check (action resource : string) (c : PermissionCache) : bool :=
  if allowed "admin:*" c then true
  else if allowed (permission_key "admin" resource) c then true
  else if allowed (permission_key action "*") c then true
  else allowed (permission_key action resource) c.

(** ** Life cycle *)

Definition set_timer (b : bool) (c : PermissionCache) : PermissionCache :=
  {| snapshot := snapshot c; listeners := listeners c; refreshTimer := b; destroyed := destroyed c |}.
Definition set_destroyed (b : bool) (c : PermissionCache) : PermissionCache :=
  {| snapshot := snapshot c; listeners := listeners c; refreshTimer := refreshTimer c; destroyed := b |}.
Definition set_listeners (ls : list N) (c : PermissionCache) : PermissionCache :=
  {| snapshot := snapshot c; listeners := ls; refreshTimer := refreshTimer c; destroyed := destroyed c |}.

Definition startBackgroundRefresh (c : PermissionCache) : PermissionCache := set_timer true c.

Definition destroy (c : PermissionCache) : PermissionCache :=
  set_listeners [] (set_timer false (set_destroyed true c)).

Definition subscribe (l : N) (c : PermissionCache) : PermissionCache :=
  if decide (l ∈ listeners c) then c else set_listeners (listeners c ++ [l]) c.
Definition unsubscribe (l : N) (c : PermissionCache) : PermissionCache :=
  set_listeners (List.filter (fun x => negb (bool_decide (x = l))) (listeners c)) c.

(** A request in flight, by the method that waits for it. *)
Inductive request : Type := Seed | Refresh.

(** [seed] and [refresh] up to the request; [None]: no request is made. *)
Definition seed_start (c : PermissionCache) : PermissionCache := set_destroyed false c.
Definition refresh_starts (c : PermissionCache) : bool := negb (destroyed c).

(** [seed] and [refresh] after the response, with the listeners called. *)
Definition respond (r : request) (perms : permissions) (c : PermissionCache) :
    PermissionCache * list N :=
  match r with
  | Seed => (startBackgroundRefresh (applySnapshot perms c), [])
  | Refresh => if destroyed c then (c, []) else (applySnapshot perms c, listeners c)
  end.

Record system : Type := { cache : PermissionCache; in_flight : list request }.

Inductive event : Type :=
| SeedCall
| RefreshCall
| Tick
| Response (i : nat) (perms : permissions)
| Failure (i : nat)
| Destroy
| Subscribe (l : N)
| Unsubscribe (l : N).

Definition start_refresh (s : system) : system :=
  if refresh_starts (cache s) then {| cache := cache s; in_flight := in_flight s ++ [Refresh] |} else s.

(** The listeners called and the next state. *)
Definition step (e : event) (s : system) : list N * system :=
  let c := cache s in
  let fl := in_flight s in
  match e with
  | SeedCall => ([], {| cache := seed_start c; in_flight := fl ++ [Seed] |})
  | RefreshCall => ([], start_refresh s)
  | Tick => ([], if refreshTimer c then start_refresh s else s)
  | Response i perms =>
      match fl !! i with
      | Some r => let '(c, ls) := respond r perms c in
                  (ls, {| cache := c; in_flight := delete i fl |})
      | None => ([], s)
      end
  | Failure i => ([], {| cache := c; in_flight := delete i fl |})
  | Destroy => ([], {| cache := destroy c; in_flight := fl |})
  | Subscribe l => ([], {| cache := subscribe l c; in_flight := fl |})
  | Unsubscribe l => ([], {| cache := unsubscribe l c; in_flight := fl |})
  end.

(** All listeners called, and the last state. *)
Fixpoint run (es : list event) (s : system) : list N * system :=
  match es with
  | [] => ([], s)
  | e :: es => let '(ls, s) := step e s in let '(ls', s) := run es s in (ls ++ ls', s)
  end.

(** ** Lemmas: keys *)

Definition no_colon (s : string) : Prop := Forall (fun c => c <> ":"%char) (explode s).

Lemma split_first_colon l l' r r' :
  Forall (fun c => c <> ":"%char) l -> Forall (fun c => c <> ":"%char) l' ->
  l ++ ":"%char :: r = l' ++ ":"%char :: r' -> l = l' /\ r = r'.
Proof.
  intros Hl. revert l'. induction Hl as [|c l Hc _ IH]; intros l' Hl' E.
  - destruct Hl' as [|c l' Hc]; cbn in E; [by injection E as ->|]. by injection E as <-.
  - destruct Hl' as [|c' l' Hc' Hl']; cbn in E; [by injection E as ->|]. injection E as -> E.
    by destruct (IH l' Hl' E) as [-> ->].
Qed.

Lemma permission_key_inj a a' r r' :
  no_colon a -> no_colon a' -> permission_key a r = permission_key a' r' -> a = a' /\ r = r'.
Proof.
  intros Ha Ha' E. apply (f_equal explode) in E. unfold permission_key in E.
  rewrite !explode_app in E. apply split_first_colon in E as [E1 E2]; [|done|done].
  split; by apply explode_inj.
Qed.

(** The response allows the action on the resource. *)
Definition granted (perms : permissions) (action resource : string) : Prop :=
  exists actions, (resource, actions) ∈ perms /\ action ∈ actions.

Definition actions_ok (perms : permissions) : Prop :=
  forall resource actions, (resource, actions) ∈ perms -> Forall no_colon actions.

Lemma flat_actions key resource actions next :
  jm_get key (fold_left (fun next action => jm_set (permission_key action resource) true next) actions next)
  = if decide (key ∈ map (fun a => permission_key a resource) actions) then Some true
    else jm_get key next.
Proof.
  revert next. induction actions as [|a actions IH]; intros next; cbn [fold_left map].
  - by rewrite decide_False by apply not_elem_of_nil.
  - rewrite IH, jm_get_set.
    pose proof (elem_of_cons (map (fun a => permission_key a resource) actions) key (permission_key a resource)).
    repeat case_decide; naive_solver.
Qed.

Lemma flat_snapshot_get perms next key :
  jm_get key (fold_left (fun next '(resource, actions) =>
      fold_left (fun next action => jm_set (permission_key action resource) true next) actions next)
    perms next) = Some true <->
  (exists resource actions action, (resource, actions) ∈ perms /\ action ∈ actions /\
     key = permission_key action resource) \/ jm_get key next = Some true.
Proof.
  revert next. induction perms as [|[resource actions] perms IH]; intros next; cbn [fold_left].
  - split; [by right|]. by intros [(? & ? & ? & ?%not_elem_of_nil & _)|].
  - rewrite IH, flat_actions. case_decide as Hd.
    + apply list_elem_of_fmap in Hd as (a & -> & Ha). split; [|by right]. intros _. left.
      exists resource, actions, a. split_and!; [by constructor|done|done].
    + split.
      * intros [(r & acts & a & Hin & Ha & ->)|]; [|by right]. left. exists r, acts, a.
        split_and!; [by constructor|done|done].
      * intros [(r & acts & a & Hin & Ha & ->)|]; [|by right]. left. exists r, acts, a.
        split_and!; [|done|done]. apply elem_of_cons in Hin as [[= -> ->]|Hin]; [|done].
        exfalso. apply Hd, list_elem_of_fmap. by exists a.
Qed.

Lemma allowed_spec perms c action resource :
  actions_ok perms -> no_colon action ->
  allowed (permission_key action resource) (applySnapshot perms c) = true <->
  granted perms action resource.
Proof.
  intros Hok Ha. unfold allowed, applySnapshot. cbn [snapshot].
  assert (E : match jm_get (permission_key action resource) (flat_snapshot perms) with
              | Some b => b | None => false end = true <->
              jm_get (permission_key action resource) (flat_snapshot perms) = Some true).
  { destruct (jm_get _ _) as [[]|]; split; congruence. }
  rewrite E. unfold flat_snapshot. rewrite flat_snapshot_get. unfold granted. split.
  - intros [(r & acts & a & Hin & Hact & Ek)|H]; [|done].
    specialize (Hok _ _ Hin). rewrite Forall_forall in Hok.
    apply permission_key_inj in Ek as [-> ->]; [|done|by apply Hok]. by exists acts.
  - intros (acts & Hin & Hact). left. by exists resource, acts, action.
Qed.

(** ** Properties *)

(** After a response has been applied, [check] grants exactly what the
    documented precedence grants on the response: admin on everything or on the
    resource, the action on everything or on the resource. *)
Theorem check_spec perms c action resource :
  actions_ok perms -> no_colon action ->
  check action resource (applySnapshot perms c) = true <->
  granted perms "admin" "*" \/ granted perms "admin" resource \/
  granted perms action "*" \/ granted perms action resource.
Proof.
  intros Hok Ha. assert (Hadmin : no_colon "admin") by by repeat constructor.
  rewrite <- !(allowed_spec perms c) by done. unfold check.
  change (permission_key "admin" "*") with "admin:*".
  destruct (allowed "admin:*" _), (allowed (permission_key "admin" resource) _),
    (allowed (permission_key action "*") _); naive_solver.
Qed.

(** An event that neither seeds nor concerns a seed in flight. *)
Definition seedless (s : system) : Prop := Forall (fun r => r = Refresh) (in_flight s).

Lemma destroyed_step e s :
  e <> SeedCall -> destroyed (cache s) = true -> refreshTimer (cache s) = false -> seedless s ->
  let '(ls, s') := step e s in
  ls = [] /\ snapshot (cache s') = snapshot (cache s) /\ destroyed (cache s') = true /\
  refreshTimer (cache s') = false /\ seedless s'.
Proof.
  intros He Hd Ht Hs. unfold seedless in *. destruct e as [| | |i perms|i| |l|l]; cbn [step]; try done.
  - unfold start_refresh, refresh_starts. rewrite Hd. done.
  - rewrite Ht. done.
  - destruct (in_flight s !! i) as [r|] eqn:E; [|done].
    assert (r = Refresh) as -> by (by rewrite Forall_lookup in Hs; apply (Hs i)).
    cbn [respond]. rewrite Hd. cbn. split_and!; try done. by apply Forall_delete.
  - cbn. split_and!; try done. by apply Forall_delete.
  - cbn. unfold subscribe. case_decide; by split_and!.
Qed.

(** A destroyed cache stays quiet: as long as it is not seeded again and
    no seed was in flight, no tick, call or late response changes its snapshot,
    starts a request timer or calls a listener, in any order of events. *)
Theorem destroyed_quiet es s :
  Forall (fun e => e <> SeedCall) es -> seedless s ->
  let s0 := (step Destroy s).2 in
  (run es s0).1 = [] /\ snapshot (cache (run es s0).2) = snapshot (cache s) /\
  refreshTimer (cache (run es s0).2) = false.
Proof.
  intros Hes Hs s0.
  assert (H : forall s1, destroyed (cache s1) = true -> refreshTimer (cache s1) = false -> seedless s1 ->
    (run es s1).1 = [] /\ snapshot (cache (run es s1).2) = snapshot (cache s1) /\
    refreshTimer (cache (run es s1).2) = false).
  { clear -Hes. induction Hes as [|e es He _ IH]; intros s1 Hd Ht Hs1; [done|]. cbn [run].
    pose proof (destroyed_step e s1 He Hd Ht Hs1) as Hstep. destruct (step e s1) as [ls s2].
    destruct Hstep as (-> & Hsnap & Hd2 & Ht2 & Hs2). specialize (IH s2 Hd2 Ht2 Hs2).
    destruct (run es s2) as [ls' s3]. cbn in *. by rewrite <- Hsnap. }
  exact (H s0 eq_refl eq_refl Hs).
Qed.

(** A seed in flight when the cache is destroyed is not guarded: its response
    writes the snapshot and starts the refresh timer of the destroyed cache. *)
Example late_seed :
  let s := (run [SeedCall; Destroy; Response 0 [("invoice", ["read"])]]
              {| cache := new_cache; in_flight := [] |}).2 in
  destroyed (cache s) = true /\ refreshTimer (cache s) = true /\
  check "read" "invoice" (cache s) = true.
Proof. split_and!; vm_compute; reflexivity. Qed.

(** ** Witnesses *)

Lemma check_spec_witness :
  check "delete" "invoice" (applySnapshot [("invoice", ["read"; "admin"])] new_cache) = true.
Proof.
  apply (check_spec [("invoice", ["read"; "admin"])] new_cache "delete" "invoice").
  - intros r acts [[= -> ->]|H%not_elem_of_nil]%elem_of_cons; [|done]. by repeat constructor.
  - by repeat constructor.
  - right. left. exists ["read"; "admin"]. split; [by constructor|by repeat constructor].
Defined.

Lemma destroyed_quiet_witness :
  (run [Response 0 [("a", ["read"])]; Tick]
     (step Destroy {| cache := new_cache; in_flight := [Refresh] |}).2).1 = [].
Proof.
  apply (destroyed_quiet [Response 0 [("a", ["read"])]; Tick]
           {| cache := new_cache; in_flight := [Refresh] |}); by repeat constructor.
Defined.
