(* ===== verification/GraphConverter.v ===== *)
(** * Front end: pipeline definitions and graphs

    [packages/frontend/src/components/pipeline-editor/graph-converter.ts] and
    the types of graph-model.ts: the conversion in both directions, the
    topological sort and the layered layout. *)

From S2P Require Import Prelude JsString JsValue.

Local Open Scope Z_scope.

(** ** Data *)

(** A step: the destructured properties and the others. *)
Record ConvertibleStep : Type := {
  step_id : string;
  step_name : string;
  step_type : string;
  thenStepId : option string;
  elseStepId : option string;
  rest : obj
}.

(** The options of a definition are read by nothing here: the graph does not
    keep them, and the definition made from a graph has none. *)
Record ConvertibleDefinition : Type := {
  version : Z;
  entryStepId : string;
  steps : list ConvertibleStep
}.

Record GraphNode : Type := {
  node_id : string;
  node_type : string;
  position : Z * Z;
  config : obj;
  label : string
}.

(** The id of an edge is the text of its two parts around an arrow. *)
Record GraphEdge : Type := {
  edge_id : string * string;
  source : string;
  target : string;
  edge_label : option string
}.

Record PipelineGraph : Type := { nodes : list GraphNode; edges : list GraphEdge }.

Definition NODE_WIDTH : Z := 200.
Definition NODE_HEIGHT : Z := 72.
Definition GRID_SIZE : Z := 20.
Definition LAYER_GAP_X : Z := NODE_WIDTH + 60.
Definition LAYER_GAP_Y : Z := NODE_HEIGHT + 40.
Definition LAYOUT_ORIGIN_X : Z := GRID_SIZE * 2.
Definition LAYOUT_ORIGIN_Y : Z := GRID_SIZE * 2.

(** The [throw] sites; [OutOfFuel] is the model's. *)
Inductive conv_error : Type :=
| UnsupportedVersion
| NoSteps
| NoEntryStepId
| EntryNotFound
| EmptyGraph
| NoRoot
| OutOfFuel.

(** ** Definition to graph *)

Definition validateDefinitionForConversion (d : ConvertibleDefinition) : result conv_error unit :=
  if negb (version d =? 1) then Err UnsupportedVersion
  else if (length (steps d) =? 0)%nat then Err NoSteps
  else if String.eqb (entryStepId d) EmptyString then Err NoEntryStepId
  else if negb (mem (entryStepId d) (map step_id (steps d))) then Err EntryNotFound
  else Ok tt.

Definition opt_str (o : option string) : value :=
  match o with Some s => VStr s | None => VUndef end.

Definition defined (v : value) : bool := match v with VUndef => false | _ => true end.

(** [{ thenStepId, elseStepId, ...rest }] *)
Definition raw_config (s : ConvertibleStep) : obj :=
  assign (of_entries [("thenStepId", opt_str (thenStepId s)); ("elseStepId", opt_str (elseStepId s))])
    (rest s).

(** ... and the properties that are [undefined] deleted. *)
Definition step_config (s : ConvertibleStep) : obj :=
  List.filter (fun '(_, v) => defined v) (raw_config s).

Definition step_node (s : ConvertibleStep) : GraphNode :=
  {| node_id := step_id s; node_type := step_type s; position := (0, 0);
     config := step_config s; label := step_name s |}.

(** One branch of a conditional step. *)
Definition branch_edge (ids : list string) (s : ConvertibleStep) (branch : string)
    (t : option string) : list GraphEdge :=
  match t with
  | Some t => if mem t ids
              then [{| edge_id := (step_id s, branch); source := step_id s; target := t;
                       edge_label := Some branch |}]
              else []
  | None => []
  end.

Definition step_edges (ids : list string) (s next : ConvertibleStep) : list GraphEdge :=
  if String.eqb (step_type s) "conditional"
  then branch_edge ids s "then" (thenStepId s) ++ branch_edge ids s "else" (elseStepId s)
  else [{| edge_id := (step_id s, step_id next); source := step_id s; target := step_id next;
           edge_label := None |}].

(** The loop over the steps that have a successor. *)
Fixpoint edges_from (ids : list string) (l : list ConvertibleStep) : list GraphEdge :=
  match l with
  | s :: l' =>
      match l' with
      | next :: _ => step_edges ids s next ++ edges_from ids l'
      | [] => []
      end
  | [] => []
  end.

Definition buildEdgesFromDefinition (d : ConvertibleDefinition) : list GraphEdge :=
  edges_from (map step_id (steps d)) (steps d).

(** ** Adjacency *)

(** [adjList.get(source)?.push(target)] over the edges, for the nodes' ids. *)
Definition adjacency (ids : list string) (es : list GraphEdge) : jmap string (list string) :=
  fold_left (fun m e => match jm_get (source e) m with
                        | Some l => jm_set (source e) (l ++ [target e]) m
                        | None => m
                        end) es
    (fold_left (fun m i => jm_set i [] m) ids []).

(** ** Layout *)

Definition layer_map : Type := jmap string Z.

(** The loop over the neighbours of a node in layer [layer]. *)
Fixpoint relax (layer : Z) (neighbors : list string) (layerOf : layer_map)
    (queue : list (string * Z)) : layer_map * list (string * Z) :=
  match neighbors with
  | [] => (layerOf, queue)
  | n :: neighbors =>
      let newLayer := layer + 1 in
      let existing := default (-1) (jm_get n layerOf) in
      if existing <? newLayer
      then relax layer neighbors (jm_set n newLayer layerOf) (queue ++ [(n, newLayer)])
      else relax layer neighbors layerOf queue
  end.

(** The [while] loop: [None] when the fuel runs out. *)
Fixpoint layer_loop (fuel : nat) (adj : jmap string (list string)) (layerOf : layer_map)
    (queue : list (string * Z)) : option layer_map :=
  match queue with
  | [] => Some layerOf
  | (id, layer) :: queue =>
      match fuel with
      | O => None
      | S fuel =>
          if layer <? default 0 (jm_get id layerOf) then layer_loop fuel adj layerOf queue
          else
            let '(layerOf, queue) := relax layer (default [] (jm_get id adj)) layerOf queue in
            layer_loop fuel adj layerOf queue
      end
  end.

(** The nodes that were not reached, one layer each. *)
Fixpoint disconnected (next : Z) (ids : list string) (layerOf : layer_map) : layer_map :=
  match ids with
  | [] => layerOf
  | i :: ids => if jm_has i layerOf then disconnected next ids layerOf
                else disconnected (next + 1) ids (jm_set i next layerOf)
  end.

Definition set_position (p : Z * Z) (n : GraphNode) : GraphNode :=
  {| node_id := node_id n; node_type := node_type n; position := p; config := config n;
     label := label n |}.

(** [nodeMap.get(id)] is the last node with that id. *)
Fixpoint set_last (i : string) (p : Z * Z) (l : list GraphNode) : list GraphNode :=
  match l with
  | [] => []
  | n :: l => if String.eqb (node_id n) i && negb (mem i (map node_id l))
              then set_position p n :: l else n :: set_last i p l
  end.

Definition place_layer (ns : list GraphNode) (l : Z * list GraphNode) : list GraphNode :=
  let '(layer, layerNodes) := l in
  fold_left (fun ns '(index, n) =>
      set_last (node_id n)
        (LAYOUT_ORIGIN_X + layer * LAYER_GAP_X, LAYOUT_ORIGIN_Y + Z.of_nat index * LAYER_GAP_Y) ns)
    (imap pair layerNodes) ns.

Definition applyAutoLayout (fuel : nat) (ns : list GraphNode) (es : list GraphEdge) (entry : string) :
    option (list GraphNode) :=
  match ns with
  | [] => Some []
  | _ =>
      let ids := map node_id ns in
      layerOf ← layer_loop fuel (adjacency ids es) [(entry, 0)] [(entry, 0)];
      let maxLayer := fold_left Z.max (jm_values layerOf) 0 in
      let layerOf := disconnected (maxLayer + 1) ids layerOf in
      let layers := groups_of (fun n => default 0 (jm_get (node_id n) layerOf)) ns in
      Some (fold_left place_layer layers ns)
  end.

Definition pipelineDefinitionToGraph (fuel : nat) (d : ConvertibleDefinition) :
    result conv_error PipelineGraph :=
  _ ← validateDefinitionForConversion d;
  let es := buildEdgesFromDefinition d in
  match applyAutoLayout fuel (map step_node (steps d)) es (entryStepId d) with
  | Some ns => Ok {| nodes := ns; edges := es |}
  | None => Err OutOfFuel
  end.

(** ** Graph to definition *)

Definition findEntryNode (g : PipelineGraph) : result conv_error string :=
  match List.filter (fun n => negb (mem (node_id n) (map target (edges g)))) (nodes g) with
  | [] => Err NoRoot
  | n :: _ => Ok (node_id n)
  end.

Definition node_map (ns : list GraphNode) : jmap string GraphNode :=
  fold_left (fun m n => jm_set (node_id n) n m) ns [].

Definition in_degrees (g : PipelineGraph) : jmap string Z :=
  fold_left (fun m e => jm_set (target e) (default 0 (jm_get (target e) m) + 1) m) (edges g)
    (fold_left (fun m n => jm_set (node_id n) 0 m) (nodes g) []).

Definition no_incoming (inDegree : jmap string Z) (i : string) : bool :=
  default 0 (jm_get i inDegree) =? 0.

(** The loop over the neighbours. *)
Fixpoint release (neighbors : list string) (inDegree : jmap string Z) (queue : list string) :
    jmap string Z * list string :=
  match neighbors with
  | [] => (inDegree, queue)
  | n :: neighbors =>
      let remaining := default 0 (jm_get n inDegree) - 1 in
      release neighbors (jm_set n remaining inDegree)
        (if remaining =? 0 then queue ++ [n] else queue)
  end.

Fixpoint kahn_loop (fuel : nat) (m : jmap string GraphNode) (adj : jmap string (list string))
    (inDegree : jmap string Z) (queue : list string) (out : list GraphNode) :
    option (list GraphNode) :=
  match queue with
  | [] => Some out
  | current :: queue =>
      match fuel with
      | O => None
      | S fuel =>
          let out := match jm_get current m with Some n => out ++ [n] | None => out end in
          let '(inDegree, queue) := release (default [] (jm_get current adj)) inDegree queue in
          kahn_loop fuel m adj inDegree queue out
      end
  end.

(** Enough for every graph whose ids are distinct. *)
Definition kahn_fuel (g : PipelineGraph) : nat := S (length (nodes g) + length (edges g)).

Definition topologicalSort (g : PipelineGraph) (entryId : string) : option (list GraphNode) :=
  let ids := map node_id (nodes g) in
  let inDegree := in_degrees g in
  let queue := (if no_incoming inDegree entryId then [entryId] else [])
               ++ List.filter (fun i => negb (String.eqb i entryId) && no_incoming inDegree i) ids in
  out ← kahn_loop (kahn_fuel g) (node_map (nodes g)) (adjacency ids (edges g)) inDegree queue [];
  Some (out ++ List.filter (fun n => negb (mem (node_id n) (map node_id out))) (nodes g)).

(** [{ id, name: label, type, ...config }] *)
Definition node_step (n : GraphNode) : obj :=
  assign (of_entries [("id", VStr (node_id n)); ("name", VStr (label n)); ("type", VStr (node_type n))])
    (config n).

(** The version, the entry and the steps of the result. *)
Definition graphToPipelineDefinition (g : PipelineGraph) : result conv_error (Z * string * list obj) :=
  if (length (nodes g) =? 0)%nat then Err EmptyGraph
  else
    entry ← findEntryNode g;
    match topologicalSort g entry with
    | Some l => Ok (1, entry, map node_step l)
    | None => Err OutOfFuel
    end.

(** ** Lemmas: maps of the graph *)

Definition ids_of (g : PipelineGraph) : list string := map node_id (nodes g).

(** Distinct ids, and edges between nodes. *)
Record wf_graph (g : PipelineGraph) : Prop := {
  wf_ids : NoDup (ids_of g);
  wf_source : forall e, e ∈ edges g -> source e ∈ ids_of g;
  wf_target : forall e, e ∈ edges g -> target e ∈ ids_of g
}.

Definition acyclic (es : list GraphEdge) : Prop :=
  exists rank : string -> nat, forall e, e ∈ es -> (rank (source e) < rank (target e))%nat.

Definition successors (es : list GraphEdge) (i : string) : list string :=
  map target (filter (fun e => source e = i) es).

Lemma get_fold_const {A V} (key : A -> string) (f : A -> V) (l : list A) m i :
  (forall a b, a ∈ l -> b ∈ l -> key a = key b -> f a = f b) ->
  (exists a, a ∈ l /\ key a = i /\ jm_get i (fold_left (fun m a => jm_set (key a) (f a) m) l m) = Some (f a)) \/
  ((i ∉ map key l) /\ jm_get i (fold_left (fun m a => jm_set (key a) (f a) m) l m) = jm_get i m).
Proof.
  revert m. induction l as [|a l IH]; intros m Hf; cbn [fold_left map].
  { right. split; [apply not_elem_of_nil|done]. }
  destruct (IH (jm_set (key a) (f a) m)) as [(b & Hb & Hk & E)|[Hno E]].
  { intros x y Hx Hy. apply Hf; by constructor. }
  - left. exists b. split_and!; [by constructor|done|done].
  - rewrite E, jm_get_set. destruct (decide (key a = i)) as [Ha|Ha].
    + left. exists a. split_and!; [by constructor|done|done].
    + right. split; [|done]. rewrite elem_of_cons. naive_solver.
Qed.

Lemma adjacency_get ids es i :
  i ∈ ids -> jm_get i (adjacency ids es) = Some (successors es i).
Proof.
  intros Hi. unfold adjacency, successors.
  assert (H : forall m l, jm_get i m = Some l ->
    jm_get i (fold_left (fun m e => match jm_get (source e) m with
                          | Some l => jm_set (source e) (l ++ [target e]) m | None => m end) es m)
    = Some (l ++ map target (filter (fun e => source e = i) es))).
  { clear. induction es as [|e es IH]; intros m l Hm; cbn [fold_left]; [by rewrite app_nil_r|].
    rewrite filter_cons. destruct (decide (source e = i)) as [<-|Hne].
    - rewrite Hm. rewrite (IH _ (l ++ [target e])) by apply jm_get_set_eq. cbn [map]. by rewrite <- app_assoc.
    - apply IH. destruct (jm_get (source e) m); [|done]. by rewrite jm_get_set_ne. }
  rewrite (H _ []); [done|].
  destruct (get_fold_const (fun i => i) (fun _ : string => @nil string) ids [] i) as [(a & _ & -> & E)|[Hno _]];
    [done|exact E|]. rewrite map_id in Hno. done.
Qed.

Definition occurrences (v : string) (l : list string) : nat := length (filter (fun x => x = v) l).

(** The edges into [v] whose source has not been emitted. *)
Definition pending (es : list GraphEdge) (done : list string) (v : string) : nat :=
  length (filter (fun e => target e = v /\ source e ∉ done) es).

Lemma in_degrees_get g v :
  default 0 (jm_get v (in_degrees g)) = Z.of_nat (pending (edges g) [] v).
Proof.
  unfold in_degrees.
  assert (H : forall es m, default 0 (jm_get v (fold_left (fun m e =>
      jm_set (target e) (default 0 (jm_get (target e) m) + 1) m) es m))
      = default 0 (jm_get v m) + Z.of_nat (pending es [] v)).
  { unfold pending. induction es as [|e es IH]; intros m; cbn [fold_left]; [cbn; lia|].
    rewrite IH, jm_get_set, filter_cons. destruct (decide (target e = v)) as [<-|Hne].
    - rewrite decide_True by (split; [done|apply not_elem_of_nil]). cbn [from_option length id]. lia.
    - rewrite decide_False by naive_solver. done. }
  rewrite H.
  destruct (get_fold_const node_id (fun _ => 0) (nodes g) [] v) as [(a & _ & _ & ->)|[_ ->]]; done.
Qed.

Lemma node_map_get ns n :
  NoDup (map node_id ns) -> n ∈ ns -> jm_get (node_id n) (node_map ns) = Some n.
Proof.
  intros Hnd Hn. unfold node_map.
  assert (Hinj : forall a b, a ∈ ns -> b ∈ ns -> node_id a = node_id b -> a = b).
  { clear n Hn. induction ns as [|x ns IH]; intros a b Ha Hb E; [by apply not_elem_of_nil in Ha|].
    cbn [map] in Hnd. apply NoDup_cons in Hnd as [Hx Hnd].
    apply elem_of_cons in Ha as [->|Ha], Hb as [->|Hb]; try done.
    - exfalso. apply Hx. rewrite E. apply list_elem_of_fmap. by exists b.
    - exfalso. apply Hx. rewrite <- E. apply list_elem_of_fmap. by exists a.
    - by apply IH. }
  destruct (get_fold_const node_id (fun n => n) ns [] (node_id n)) as [(a & Ha & E & ->)|[Hno _]]; [done| |].
  - f_equal. by apply Hinj.
  - exfalso. apply Hno, list_elem_of_fmap. by exists n.
Qed.

(** ** Lemmas: the loop of Kahn's algorithm *)

Lemma pending_snoc es D x v :
  x ∉ D -> pending es D v = (pending es (D ++ [x]) v + occurrences v (successors es x))%nat.
Proof.
  intros Hx. unfold pending, occurrences, successors.
  induction es as [|e es IH]; [done|]. rewrite !filter_cons.
  destruct (decide (source e = x)) as [<-|Hs].
  - cbn [map]. rewrite filter_cons.
    rewrite (decide_False (P := target e = v /\ source e ∉ D ++ [source e]))
      by (intros [_ H]; apply H, elem_of_app; right; by constructor).
    destruct (decide (target e = v)).
    + rewrite decide_True by done. cbn [length]. lia.
    + rewrite decide_False by naive_solver. exact IH.
  - destruct (decide (target e = v /\ source e ∉ D)) as [[Ht Hn]|Hn].
    + rewrite decide_True; [cbn [length]; lia|]. split; [done|].
      rewrite elem_of_app, list_elem_of_singleton. naive_solver.
    + rewrite decide_False; [exact IH|]. rewrite elem_of_app. naive_solver.
Qed.

Lemma pending_zero es D v :
  pending es D v = 0%nat <-> forall e, e ∈ es -> target e = v -> source e ∈ D.
Proof.
  unfold pending. rewrite length_zero_iff_nil. split.
  - intros H e He Ht. destruct (decide (source e ∈ D)) as [|Hn]; [done|]. exfalso.
    apply (not_elem_of_nil e). rewrite <- H. by apply list_elem_of_filter.
  - intros H. destruct (filter _ es) as [|e l] eqn:E; [done|]. exfalso.
    assert (He : e ∈ filter (fun e => target e = v /\ source e ∉ D) es) by (rewrite E; constructor).
    apply list_elem_of_filter in He as [[Ht Hn] He]. by apply Hn, (H e).
Qed.

Section Kahn.
Context (g : PipelineGraph) (Hwf : wf_graph g).

(** [D] are the ids taken from the queue, [Q] the queue, [pend] the edges still
    to be released into each id. *)
Record sorted_so_far (D Q : list string) (deg : jmap string Z) (pend : string -> nat) : Prop := {
  sf_NoDup : NoDup (D ++ Q);
  sf_ids : forall v, v ∈ D ++ Q -> v ∈ ids_of g;
  sf_deg : forall v, v ∈ ids_of g -> default 0 (jm_get v deg) = Z.of_nat (pend v);
  sf_ready : forall v, v ∈ ids_of g -> v ∈ D ++ Q <-> pend v = 0%nat;
  sf_order : forall l1 v l2, D ++ Q = l1 ++ v :: l2 ->
    forall e, e ∈ edges g -> target e = v -> source e ∈ l1
}.

Lemma snoc_split {A} (l : list A) x l1 v l2 :
  l ++ [x] = l1 ++ v :: l2 -> (exists l2', l2 = l2' ++ [x] /\ l = l1 ++ v :: l2') \/ l2 = [] /\ l1 = l /\ v = x.
Proof.
  intros E. destruct l2 as [|y l2 _] using rev_ind.
  - right. apply app_inj_tail in E as [-> ->]. done.
  - left. exists l2. rewrite app_comm_cons, app_assoc in E. by apply app_inj_tail in E as [-> ->].
Qed.

Lemma release_inv D ns Q deg :
  (forall n, n ∈ ns -> n ∈ ids_of g) ->
  sorted_so_far D Q deg (fun v => pending (edges g) D v + occurrences v ns)%nat ->
  sorted_so_far D (release ns deg Q).2 (release ns deg Q).1 (pending (edges g) D).
Proof.
  revert Q deg. induction ns as [|n ns IH]; intros Q deg Hns [Hnd Hids Hdeg Hready Hord]; cbn [release].
  { unfold occurrences in *. cbn in *. split; try done.
    - intros v Hv. rewrite Hdeg by done. f_equal. lia.
    - intros v Hv. rewrite Hready by done. rewrite Nat.add_0_r. done. }
  assert (Hn : n ∈ ids_of g) by (apply Hns; constructor).
  assert (Hocc : forall v, occurrences v (n :: ns) = ((if decide (n = v) then 1 else 0) + occurrences v ns)%nat)
    by (intros v; unfold occurrences; rewrite filter_cons; by case_decide).
  assert (Hrem : default 0 (jm_get n deg) - 1 = Z.of_nat (pending (edges g) D n + occurrences n ns)).
  { rewrite Hdeg, Hocc, decide_True by done. lia. }
  assert (HnDQ : n ∉ D ++ Q).
  { rewrite Hready, Hocc, decide_True by done. lia. }
  rewrite Hrem. apply IH; [intros x Hx; apply Hns; by constructor|].
  assert (Hdeg' : forall v, v ∈ ids_of g ->
    default 0 (jm_get v (jm_set n (Z.of_nat (pending (edges g) D n + occurrences n ns)) deg))
    = Z.of_nat (pending (edges g) D v + occurrences v ns)).
  { intros v Hv. rewrite jm_get_set. destruct (decide (n = v)) as [<-|Hne]; [done|].
    rewrite Hdeg, Hocc, decide_False by done. lia. }
  destruct (Z.eqb_spec (Z.of_nat (pending (edges g) D n + occurrences n ns)) 0) as [E|E].
  - split; [| |exact Hdeg'| |].
    + rewrite app_assoc. apply NoDup_app. split_and!; [done| |apply NoDup_singleton].
      intros x Hx Hs%list_elem_of_singleton. by subst.
    + intros v. rewrite app_assoc, elem_of_app, list_elem_of_singleton. intros [Hv|Hv]; [by apply Hids|by subst].
    + intros v Hv. rewrite app_assoc, elem_of_app, list_elem_of_singleton, Hready, Hocc by done.
      destruct (decide (n = v)) as [<-|Hne]; [split; [intros _; lia|by right]|]. split; [intros [?|?]; [lia|congruence]|by left].
    + intros l1 v l2 El e He Ht. rewrite app_assoc in El. apply snoc_split in El as [(l2' & -> & El)|(-> & -> & ->)].
      * by eapply Hord.
      * apply elem_of_app. left. apply (pending_zero (edges g) D n); [lia|done|done].
  - split; [done|done|exact Hdeg'| |done].
    intros v Hv. rewrite Hready, Hocc by done. destruct (decide (n = v)) as [<-|]; [|done]. split; lia.
Qed.

Lemma pop_inv D x Q deg :
  sorted_so_far D (x :: Q) deg (pending (edges g) D) ->
  sorted_so_far (D ++ [x]) Q deg (fun v => pending (edges g) (D ++ [x]) v + occurrences v (successors (edges g) x))%nat.
Proof.
  intros [Hnd Hids Hdeg Hready Hord].
  assert (Hx : x ∉ D).
  { apply NoDup_app in Hnd as (_ & H & _). intros Hin. apply (H x Hin). constructor. }
  split; rewrite <- ?app_assoc; cbn [app]; try done.
  - intros v Hv. rewrite Hdeg by done. by rewrite (pending_snoc _ D x).
  - intros v Hv. rewrite <- (pending_snoc _ D x) by done. by apply Hready.
Qed.

Lemma kahn_loop_spec fuel D Q deg out :
  sorted_so_far D Q deg (pending (edges g) D) -> (length (ids_of g) <= length D + fuel)%nat ->
  map node_id out = D -> out ⊆ nodes g ->
  exists D' deg' out', kahn_loop fuel (node_map (nodes g)) (adjacency (ids_of g) (edges g)) deg Q out = Some out' /\
    sorted_so_far D' [] deg' (pending (edges g) D') /\ map node_id out' = D' /\ out' ⊆ nodes g.
Proof.
  revert D Q deg out. induction fuel as [|fuel IH]; intros D Q deg out Hinv Hfuel Hout Hsub.
  - destruct Q as [|x Q]; [by exists D, deg, out|]. exfalso.
    destruct Hinv as [Hnd Hids _ _ _].
    assert (H : (length (D ++ x :: Q) <= length (ids_of g))%nat).
    { apply submseteq_length, NoDup_submseteq; [done|]. intros v Hv. by apply Hids. }
    rewrite length_app in H. cbn [length] in H. lia.
  - destruct Q as [|x Q]; [by exists D, deg, out|]. cbn [kahn_loop].
    assert (Hx : x ∈ ids_of g) by (apply (sf_ids _ _ _ _ Hinv); apply elem_of_app; right; constructor).
    apply list_elem_of_fmap in Hx as Hx'. destruct Hx' as (n & -> & Hn).
    rewrite node_map_get by (done || apply Hwf). rewrite adjacency_get by done. cbn [from_option id].
    apply pop_inv, release_inv in Hinv.
    + destruct (release _ deg Q) as [deg2 Q2]. cbn [fst snd] in Hinv.
      apply (IH (D ++ [node_id n])); [done|rewrite length_app; cbn; lia| |].
      * by rewrite map_app, Hout.
      * intros y Hy. apply elem_of_app in Hy as [Hy|Hy%list_elem_of_singleton]; [by apply Hsub|by subst].
    + intros v Hv. unfold successors in Hv. apply list_elem_of_fmap in Hv as (e & -> & He).
      apply list_elem_of_filter in He as [_ He]. by apply Hwf.
Qed.

Lemma all_emitted D deg :
  acyclic (edges g) -> sorted_so_far D [] deg (pending (edges g) D) ->
  forall v, v ∈ ids_of g -> v ∈ D.
Proof.
  intros [rank Hrank] [_ _ _ Hready _] v. rewrite app_nil_r in Hready.
  remember (rank v) as k eqn:Ek. revert v Ek. induction (lt_wf k) as [k _ IH]. intros v -> Hv.
  apply Hready; [done|]. apply pending_zero. intros e He <-.
  apply (IH (rank (source e))); [by apply Hrank|done|by apply Hwf].
Qed.

Lemma initial_inv entry :
  entry ∈ ids_of g ->
  sorted_so_far []
    ((if no_incoming (in_degrees g) entry then [entry] else [])
       ++ List.filter (fun i => negb (String.eqb i entry) && no_incoming (in_degrees g) i) (ids_of g))
    (in_degrees g) (pending (edges g) []).
Proof.
  intros He.
  assert (Hno : forall v, no_incoming (in_degrees g) v = true <-> pending (edges g) [] v = 0%nat).
  { intros v. unfold no_incoming. rewrite in_degrees_get, Z.eqb_eq. lia. }
  assert (Hmem : forall v, v ∈ (if no_incoming (in_degrees g) entry then [entry] else [])
       ++ List.filter (fun i => negb (String.eqb i entry) && no_incoming (in_degrees g) i) (ids_of g)
       <-> v ∈ ids_of g /\ pending (edges g) [] v = 0%nat).
  { intros v. rewrite elem_of_app, elem_of_bfilter, andb_true_iff, negb_true_iff, String.eqb_neq, Hno. rewrite <- Hno.
    destruct (decide (v = entry)) as [->|Hne].
    - destruct (no_incoming (in_degrees g) entry) eqn:E; rewrite ?list_elem_of_singleton.
      + naive_solver.
      + split; [intros [?%not_elem_of_nil|]; naive_solver|]. naive_solver.
    - destruct (no_incoming (in_degrees g) entry); rewrite ?list_elem_of_singleton; [naive_solver|].
      split; [intros [?%not_elem_of_nil|]; naive_solver|naive_solver]. }
  split; cbn [app].
  - apply NoDup_app. split_and!.
    + destruct (no_incoming (in_degrees g) entry); [apply NoDup_singleton|constructor].
    + intros x Hx [_ Hin]%elem_of_bfilter. apply andb_true_iff in Hin as [Hin _]. destruct (no_incoming (in_degrees g) entry); [|by apply not_elem_of_nil in Hx].
      apply list_elem_of_singleton in Hx as ->. by rewrite String.eqb_refl in Hin.
    + apply NoDup_ListNoDup, List.NoDup_filter, NoDup_ListNoDup, Hwf.
  - intros v Hv. by apply Hmem in Hv as [Hv _].
  - intros v _. apply in_degrees_get.
  - intros v Hv. rewrite Hmem. tauto.
  - intros l1 v l2 E e Hin Ht. exfalso.
    assert (Hv : v ∈ l1 ++ v :: l2) by (apply elem_of_app; right; constructor).
    rewrite <- E in Hv. apply Hmem in Hv as [_ Hv].
    apply (not_elem_of_nil (source e)). by apply (proj1 (pending_zero _ _ _) Hv e).
Qed.
End Kahn.

(** ** Topological sort *)

Lemma map_split_inv {A B} (f : A -> B) l l1 y l2 :
  map f l = l1 ++ y :: l2 -> exists k1 x k2, l = k1 ++ x :: k2 /\ map f k1 = l1 /\ f x = y.
Proof.
  revert l1. induction l as [|x l IH]; intros l1 E; [by destruct l1|].
  destruct l1 as [|z l1]; cbn in E; injection E as E1 E2.
  - exists [], x, l. by subst.
  - destruct (IH _ E2) as (k1 & a & k2 & -> & <- & <-). exists (x :: k1), a, k2. by subst.
Qed.

Lemma sorted_graph g entry :
  wf_graph g -> acyclic (edges g) -> entry ∈ ids_of g ->
  exists l, topologicalSort g entry = Some l /\ l ≡ₚ nodes g /\
    forall l1 n l2, l = l1 ++ n :: l2 ->
    forall e, e ∈ edges g -> target e = node_id n -> source e ∈ map node_id l1.
Proof.
  intros Hwf Hac He. unfold topologicalSort. cbn zeta.
  pose proof (initial_inv g Hwf entry He) as Hinit.
  destruct (kahn_loop_spec g Hwf (kahn_fuel g) [] _ _ [] Hinit) as (D & deg & out & E & Hinv & Hout & Hsub).
  { unfold ids_of, kahn_fuel. rewrite length_map. cbn [length]. lia. }
  { done. }
  { by intros x Hx%not_elem_of_nil. }
  unfold ids_of in E. rewrite E. cbn [mbind option_bind].
  pose proof (all_emitted g Hwf D deg Hac Hinv) as Hall.
  assert (Hnil : List.filter (fun n => negb (mem (node_id n) (map node_id out))) (nodes g) = []).
  { destruct (List.filter _ (nodes g)) as [|n l] eqn:Ef; [done|]. exfalso.
    assert (Hn : n ∈ List.filter (fun n => negb (mem (node_id n) (map node_id out))) (nodes g))
      by (rewrite Ef; constructor).
    apply elem_of_bfilter in Hn as [Hn Hm]. apply negb_true_iff, not_true_iff_false in Hm.
    apply Hm, mem_spec. rewrite Hout. apply Hall, list_elem_of_fmap. by exists n. }
  rewrite Hnil, app_nil_r. exists out. destruct Hinv as [Hnd Hids _ _ Hord]. rewrite app_nil_r in *.
  split_and!; [done| |].
  - assert (Hndo : NoDup out) by (apply (NoDup_fmap_1 node_id); change (NoDup (map node_id out)); by rewrite Hout).
    assert (Hndn : NoDup (nodes g)) by (apply (NoDup_fmap_1 node_id); apply Hwf).
    apply NoDup_Permutation; [done|done|]. intros n. split; [apply Hsub|]. intros Hn.
    assert (Hin : node_id n ∈ D) by (apply Hall, list_elem_of_fmap; by exists n).
    rewrite <- Hout in Hin. apply list_elem_of_fmap in Hin as (n' & Eid & Hn').
    assert (Some n = Some n') as [= ->]; [|done].
    rewrite <- (node_map_get (nodes g) n) by (done || apply Hwf). rewrite Eid.
    apply node_map_get; [apply Hwf|by apply Hsub].
  - intros l1 n l2 El e Hin Ht. subst out. rewrite map_app in Hout. cbn [map] in Hout.
    by apply (Hord (map node_id l1) (node_id n) (map node_id l2)).
Qed.

(** ** Lemmas: chains *)

(** A permutation that keeps every element after its predecessor is the
    identity. *)
Lemma chain_order (l ids : list string) :
  l ≡ₚ ids -> NoDup ids ->
  (forall k a b, ids !! k = Some a -> ids !! S k = Some b ->
     forall l1 l2, l = l1 ++ b :: l2 -> a ∈ l1) ->
  l = ids.
Proof.
  intros Hp Hnd Hord.
  assert (Hk : forall k, (k <= length ids)%nat -> take k l = take k ids).
  { induction k as [|k IH]; intros Hk; [done|]. specialize (IH ltac:(lia)).
    destruct (lookup_lt_is_Some_2 l k ltac:(rewrite Hp; lia)) as [x Hx].
    assert (Hj : exists j, ids !! j = Some x).
    { apply list_elem_of_lookup. rewrite <- Hp. apply list_elem_of_lookup. by exists k. }
    destruct Hj as [j Hj].
    assert (Hjk : j = k).
    { destruct (Nat.lt_trichotomy j k) as [Hlt|[|Hgt]]; [|done|].
      - exfalso. assert (Hl : l !! j = Some x).
        { rewrite <- (lookup_take_lt l k) by done. rewrite IH. by rewrite lookup_take_lt. }
        assert (NoDup l) as Hndl by (by rewrite Hp).
        pose proof (NoDup_lookup l j k x Hndl Hl Hx). lia.
      - exfalso. destruct j as [|j]; [lia|].
        destruct (lookup_lt_is_Some_2 ids j) as [a Ha]; [apply lookup_lt_Some in Hj; lia|].
        pose proof (Hord j a x Ha Hj (take k l) (drop (S k) l)) as Hin.
        rewrite take_drop_middle in Hin by done. specialize (Hin eq_refl). rewrite IH in Hin.
        apply list_elem_of_lookup in Hin as [i Hi]. apply lookup_take_Some in Hi as [Hi Hik].
        pose proof (NoDup_lookup ids i j a Hnd Hi Ha). lia. }
    subst j. rewrite (take_S_r l k x), (take_S_r ids k x) by done. by rewrite IH. }
  rewrite <- (firstn_all l), <- (firstn_all ids). rewrite (Permutation_length Hp). apply Hk. done.
Qed.

Definition sequential (l : list ConvertibleStep) : Prop :=
  forall k s, l !! k = Some s -> (S k < length l)%nat -> step_type s <> "conditional".

Lemma sequential_tail s l : sequential (s :: l) -> sequential l.
Proof. intros H k x Hx Hk. apply (H (S k) x Hx). cbn. lia. Qed.

(** The edges of a sequential definition are its consecutive pairs. *)
Lemma sequential_edges ids l e :
  sequential l ->
  e ∈ edges_from ids l <->
  exists k a b, l !! k = Some a /\ l !! S k = Some b /\
    e = {| edge_id := (step_id a, step_id b); source := step_id a; target := step_id b; edge_label := None |}.
Proof.
  induction l as [|s l IH]; intros Hseq.
  { cbn. split; [by intros ?%not_elem_of_nil|]. by intros (k & a & b & H & _). }
  destruct l as [|next l].
  { cbn. split; [by intros ?%not_elem_of_nil|]. by intros ([|k] & a & b & _ & H & _). }
  cbn [edges_from]. change (match l with | [] => [] | n :: _ => step_edges ids next n ++ edges_from ids l end)
    with (edges_from ids (next :: l)).
  rewrite elem_of_app, (IH (sequential_tail _ _ Hseq)). unfold step_edges.
  rewrite (proj2 (String.eqb_neq _ _) (Hseq 0%nat s eq_refl ltac:(cbn; lia))), list_elem_of_singleton.
  split.
  - intros [->|(k & a & b & Ha & Hb & ->)]; [by exists 0%nat, s, next|by exists (S k), a, b].
  - intros ([|k] & a & b & Ha & Hb & ->); [left; by simplify_eq/=|right; by exists k, a, b].
Qed.

(** ** Layout *)

Inductive reaches (es : list GraphEdge) (entry : string) : string -> Prop :=
| reaches_entry : reaches es entry entry
| reaches_edge e : e ∈ es -> reaches es entry (source e) -> reaches es entry (target e).

Section Layout.
Context (ids : list string) (es : list GraphEdge) (entry : string).
Context (Hentry : entry ∈ ids) (Htarget : forall e, e ∈ es -> target e ∈ ids).

Lemma reaches_ids v : reaches es entry v -> v ∈ ids.
Proof. intros []; [done|by apply Htarget]. Qed.

Lemma elem_of_successors u n : n ∈ successors es u <-> exists e, e ∈ es /\ source e = u /\ target e = n.
Proof.
  unfold successors. split.
  - intros (e & -> & [? ?]%list_elem_of_filter)%list_elem_of_fmap. by exists e.
  - intros (e & He & Hs & <-). apply list_elem_of_fmap. exists e. split; [done|]. by apply list_elem_of_filter.
Qed.

(** The layer [l] of [v] is below those of its successors. *)
Definition settled (layerOf : layer_map) (v : string) (l : Z) : Prop :=
  forall e, e ∈ es -> source e = v -> exists l', jm_get (target e) layerOf = Some l' /\ l < l'.

(** What is known of the layers while the queue is [queue]. *)
Record layers_ok (layerOf : layer_map) (queue : list (string * Z)) : Prop := {
  lo_reach : forall v l, jm_get v layerOf = Some l -> reaches es entry v /\ 0 <= l;
  lo_queue : forall v l, (v, l) ∈ queue -> exists l', jm_get v layerOf = Some l' /\ 0 <= l <= l';
  lo_done : forall v l, jm_get v layerOf = Some l -> (v, l) ∈ queue \/ settled layerOf v l
}.

Definition above (layerOf layerOf' : layer_map) : Prop :=
  forall v l, jm_get v layerOf = Some l -> exists l', jm_get v layerOf' = Some l' /\ l <= l'.

Lemma above_set n l layerOf : default (-1) (jm_get n layerOf) < l -> above layerOf (jm_set n l layerOf).
Proof.
  intros Hlt v k Hv. rewrite jm_get_set. destruct (decide (n = v)) as [<-|]; [|exists k; split; [done|lia]].
  exists l. rewrite Hv in Hlt. cbn in Hlt. split; [done|lia].
Qed.

Lemma above_trans L1 L2 L3 : above L1 L2 -> above L2 L3 -> above L1 L3.
Proof.
  intros H1 H2 v l Hv. destruct (H1 v l Hv) as (l' & Hl' & ?). destruct (H2 v l' Hl') as (l'' & ? & ?).
  exists l''. split; [done|lia].
Qed.

Lemma settled_above L1 L2 v l : above L1 L2 -> settled L1 v l -> settled L2 v l.
Proof.
  intros Hab Hs e He Hv. destruct (Hs e He Hv) as (l' & Hl' & ?). destruct (Hab _ _ Hl') as (l'' & ? & ?).
  exists l''. split; [done|lia].
Qed.

(** Relaxing the neighbours [ns] of [u], which is in layer [layer]. *)
Lemma relax_spec layer u ns layerOf queue :
  (forall n, n ∈ ns -> reaches es entry n) -> 0 <= layer ->
  (forall v l, jm_get v layerOf = Some l -> reaches es entry v /\ 0 <= l) ->
  (forall v l, (v, l) ∈ queue -> exists l', jm_get v layerOf = Some l' /\ 0 <= l <= l') ->
  (forall v l, jm_get v layerOf = Some l -> (v, l) ∈ queue \/ (v = u /\ l = layer) \/ settled layerOf v l) ->
  let '(layerOf', queue') := relax layer ns layerOf queue in
  (forall v l, jm_get v layerOf' = Some l -> reaches es entry v /\ 0 <= l) /\
  (forall v l, (v, l) ∈ queue' -> exists l', jm_get v layerOf' = Some l' /\ 0 <= l <= l') /\
  (forall v l, jm_get v layerOf' = Some l -> (v, l) ∈ queue' \/ (v = u /\ l = layer) \/ settled layerOf' v l) /\
  (forall n, n ∈ ns -> exists l', jm_get n layerOf' = Some l' /\ layer < l') /\ above layerOf layerOf'.
Proof.
  revert layerOf queue. induction ns as [|n ns IH]; intros layerOf queue Hns Hl Hreach Hq Hdone; cbn [relax].
  { split_and!; try done; [by intros n ?%not_elem_of_nil|]. intros v l H. exists l. split; [done|lia]. }
  assert (Hn : reaches es entry n) by (apply Hns; constructor).
  assert (Hns' : forall x, x ∈ ns -> reaches es entry x) by (intros x Hx; apply Hns; by constructor).
  destruct (Z.ltb_spec (default (-1) (jm_get n layerOf)) (layer + 1)) as [Hlt|Hge].
  - pose proof (above_set _ _ _ Hlt) as Hab. pose proof (jm_get_set_eq n (layer + 1) layerOf) as Hget.
    specialize (IH (jm_set n (layer + 1) layerOf) (queue ++ [(n, layer + 1)]) Hns' Hl).
    destruct (relax layer ns _ _) as [L3 q3]. destruct IH as (H1 & H2 & H3 & H4 & H5).
    + intros v l. rewrite jm_get_set. destruct (decide (n = v)) as [<-|]; [|apply Hreach].
      intros [= <-]. split; [done|lia].
    + intros v l [Hv|[= -> ->]%list_elem_of_singleton]%elem_of_app; [|exists (layer + 1); split; [done|lia]].
      destruct (Hq v l Hv) as (l' & Hl' & Hle). destruct (Hab v l' Hl') as (l'' & Hl'' & ?).
      exists l''. split; [done|lia].
    + intros v l. rewrite elem_of_app. destruct (decide (n = v)) as [<-|Hnv].
      * rewrite Hget. intros [= <-]. left. right. constructor.
      * rewrite jm_get_set_ne by done. intros Hv. destruct (Hdone v l Hv) as [Hin|[Heq|Hall]]; [by left; left|by right; left|].
        right. right. by eapply settled_above.
    + split_and!; [done|done|done| |by eapply above_trans].
      intros x [->|Hx]%elem_of_cons; [|by apply H4].
      destruct (H5 n (layer + 1) Hget) as (l' & ? & ?). exists l'. split; [done|lia].
  - specialize (IH layerOf queue Hns' Hl Hreach Hq Hdone). destruct (relax layer ns layerOf queue) as [L3 q3].
    destruct IH as (H1 & H2 & H3 & H4 & H5). split_and!; try done.
    intros x [->|Hx]%elem_of_cons; [|by apply H4].
    destruct (jm_get n layerOf) as [l|] eqn:E; cbn in Hge; [|lia].
    destruct (H5 n l E) as (l' & ? & ?). exists l'. split; [done|lia].
Qed.

(** Taking an item from the queue: it is stale, or its neighbours are relaxed. *)
Lemma skip_ok u layer lu layerOf queue :
  layers_ok layerOf ((u, layer) :: queue) -> jm_get u layerOf = Some lu -> layer < lu -> layers_ok layerOf queue.
Proof.
  intros [Hreach Hq Hdone] Hlu Hlt. split; [done|intros v l Hv; apply Hq; by constructor|].
  intros v l Hv. destruct (Hdone v l Hv) as [[[= -> ->]|Hin]%elem_of_cons|]; [|by left|by right].
  rewrite Hlu in Hv. simplify_eq. lia.
Qed.

Lemma relax_ok u layer layerOf queue :
  layers_ok layerOf ((u, layer) :: queue) -> jm_get u layerOf = Some layer ->
  let r := relax layer (successors es u) layerOf queue in layers_ok r.1 r.2 /\ above layerOf r.1.
Proof.
  intros [Hreach Hq Hdone] Hu. cbn zeta. destruct (Hreach u layer Hu) as [Hru Hl].
  pose proof (relax_spec layer u (successors es u) layerOf queue) as Hrel.
  destruct (relax layer (successors es u) layerOf queue) as [L2 q2]. cbn [fst snd].
  destruct Hrel as (H1 & H2 & H3 & H4 & H5); [|done|done| | |].
  - intros n (e & He & <- & <-)%elem_of_successors. by apply reaches_edge.
  - intros v l Hv. apply Hq. by constructor.
  - intros v l Hv. destruct (Hdone v l Hv) as [[[= -> ->]|Hin]%elem_of_cons|]; [by right; left|by left|by right; right].
  - split; [|done]. split; [done|done|]. intros v l Hv.
    destruct (H3 v l Hv) as [?|[[-> ->]|?]]; [by left| |by right].
    right. intros e He Hs. apply H4, elem_of_successors. by exists e.
Qed.

Lemma layer_loop_ok fuel layerOf queue L :
  layers_ok layerOf queue -> layer_loop fuel (adjacency ids es) layerOf queue = Some L ->
  layers_ok L [] /\ above layerOf L.
Proof.
  assert (Hrefl : forall L, above L L) by (intros L' v l Hv; exists l; split; [done|lia]).
  revert layerOf queue. induction fuel as [|fuel IH]; intros layerOf [|[u layer] queue] Hok; cbn [layer_loop];
    try (by intros [= <-]).
  destruct (lo_queue _ _ Hok u layer ltac:(constructor)) as (lu & Hlu & Hle).
  rewrite Hlu. cbn [from_option id]. destruct (Z.ltb_spec layer lu) as [Hlt|Hge].
  - apply IH. by eapply skip_ok.
  - assert (lu = layer) as -> by lia.
    rewrite adjacency_get by (by eapply reaches_ids, lo_reach). cbn [from_option id].
    destruct (relax_ok u layer layerOf queue Hok Hlu) as [Hok2 Hab].
    destruct (relax layer (successors es u) layerOf queue) as [L2 q2]. intros Hrun.
    destruct (IH _ _ Hok2 Hrun) as [? ?]. split; [done|]. by eapply above_trans.
Qed.

Lemma initial_ok : layers_ok [(entry, 0)] [(entry, 0)].
Proof.
  assert (Hget : forall v l, jm_get v [(entry, 0)] = Some l -> v = entry /\ l = 0).
  { intros v l. cbn. case_decide; [by intros [= <-]|done]. }
  split.
  - intros v l [-> ->]%Hget. split; [constructor|lia].
  - intros v l [= -> ->]%list_elem_of_singleton. exists 0. cbn. rewrite decide_True by done. split; [done|lia].
  - intros v l [-> ->]%Hget. left. constructor.
Qed.

(** When the loop ends, every edge from a reachable node leads to a later layer. *)
Lemma layers_forward fuel L :
  layer_loop fuel (adjacency ids es) [(entry, 0)] [(entry, 0)] = Some L ->
  forall v, reaches es entry v -> exists l, jm_get v L = Some l /\ 0 <= l /\ settled L v l.
Proof.
  intros [[Hreach _ Hdone] Hab]%(layer_loop_ok _ _ _ _ initial_ok) v Hv.
  assert (Hstep : forall v l, jm_get v L = Some l -> 0 <= l /\ settled L v l).
  { intros x l Hx. split; [by apply (Hreach x l)|]. by destruct (Hdone x l Hx) as [?%not_elem_of_nil|]. }
  assert (Hsome : is_Some (jm_get v L)).
  { induction Hv as [|e He _ [l Hl]].
    - destruct (Hab entry 0) as (l & Hl & _); [cbn; by rewrite decide_True|by exists l].
    - destruct (proj2 (Hstep _ _ Hl) e He eq_refl) as (l' & Hl' & _). by exists l'. }
  destruct Hsome as [l Hl]. exists l. split; [done|]. by apply Hstep.
Qed.

(** The loop ends when no cycle is reachable. *)
Section Ends.
Context (rank : string -> nat).
Context (Hrank : forall e, e ∈ es -> reaches es entry (source e) -> (rank (source e) < rank (target e))%nat).

Let R : nat := max_list (map rank ids).

Lemma rank_bound i : i ∈ ids -> (rank i <= R)%nat.
Proof. intros H. unfold R. apply max_list_elem_of_le. apply list_elem_of_fmap. by exists i. Qed.

Definition bounded (layerOf : layer_map) : Prop :=
  forall v l, jm_get v layerOf = Some l -> l <= Z.of_nat (rank v).

(** Room left above the layers. *)
Definition room (layerOf : layer_map) (v : string) : nat :=
  match jm_get v layerOf with Some l => R - Z.to_nat l | None => S R end.
Definition total_room (layerOf : layer_map) : nat := sum_list (map (room layerOf) ids).

Lemma sum_list_lt (f f' : string -> nat) l v :
  (forall x, f' x <= f x)%nat -> v ∈ l -> (f' v < f v)%nat ->
  (sum_list (map f' l) < sum_list (map f l))%nat.
Proof.
  intros Hle. assert (Hall : forall k, (sum_list (map f' k) <= sum_list (map f k))%nat).
  { induction k as [|x k IH]; cbn; [done|]. specialize (Hle x). lia. }
  intros Hv Hlt. induction l as [|x l IH]; [by apply not_elem_of_nil in Hv|].
  cbn. apply elem_of_cons in Hv as [->|Hv].
  - specialize (Hall l). lia.
  - specialize (IH Hv). specialize (Hle x). lia.
Qed.

Lemma room_set n l layerOf :
  n ∈ ids -> 0 < l -> default (-1) (jm_get n layerOf) < l -> l <= Z.of_nat (rank n) ->
  (total_room (jm_set n l layerOf) < total_room layerOf)%nat.
Proof.
  intros Hn H0 Hlt Hl. pose proof (rank_bound n Hn) as HR. apply (sum_list_lt _ _ _ n); [|done|].
  - intros x. unfold room. rewrite jm_get_set. destruct (decide (n = x)) as [<-|]; [|done].
    destruct (jm_get n layerOf) as [k|] eqn:E; cbn in Hlt; lia.
  - unfold room. rewrite jm_get_set_eq. destruct (jm_get n layerOf) as [k|] eqn:E; cbn in Hlt; lia.
Qed.

Lemma relax_room layer ns layerOf queue :
  (forall n, n ∈ ns -> n ∈ ids /\ layer + 1 <= Z.of_nat (rank n)) -> 0 <= layer -> bounded layerOf ->
  let r := relax layer ns layerOf queue in
  bounded r.1 /\ (total_room r.1 + length r.2 <= total_room layerOf + length queue)%nat.
Proof.
  cbn zeta. revert layerOf queue. induction ns as [|n ns IH]; intros layerOf queue Hns Hl Hb; cbn [relax]; [done|].
  destruct (Hns n ltac:(constructor)) as [Hn Hnr].
  assert (Hns' : forall x, x ∈ ns -> x ∈ ids /\ layer + 1 <= Z.of_nat (rank x)) by (intros x Hx; apply Hns; by constructor).
  destruct (Z.ltb_spec (default (-1) (jm_get n layerOf)) (layer + 1)) as [Hlt|Hge]; [|by apply IH].
  pose proof (room_set n (layer + 1) layerOf Hn ltac:(lia) Hlt Hnr) as Hroom.
  destruct (IH (jm_set n (layer + 1) layerOf) (queue ++ [(n, layer + 1)]) Hns' Hl) as [Hb' Hle].
  - intros v l. rewrite jm_get_set. destruct (decide (n = v)) as [<-|]; [|apply Hb]. by intros [= <-].
  - split; [done|]. rewrite length_app in Hle. cbn [length] in Hle. lia.
Qed.

Lemma layer_loop_ends fuel layerOf queue :
  layers_ok layerOf queue -> bounded layerOf -> (total_room layerOf + length queue <= fuel)%nat ->
  is_Some (layer_loop fuel (adjacency ids es) layerOf queue).
Proof.
  revert layerOf queue. induction fuel as [|fuel IH]; intros layerOf [|[u layer] queue] Hok Hb Hfuel;
    cbn [layer_loop length] in *; try (by eexists); [lia|].
  destruct (lo_queue _ _ Hok u layer ltac:(constructor)) as (lu & Hlu & Hle).
  rewrite Hlu. cbn [from_option id]. destruct (Z.ltb_spec layer lu) as [Hlt|Hge].
  - apply IH; [by eapply skip_ok|done|lia].
  - assert (lu = layer) as -> by lia. destruct (lo_reach _ _ Hok u layer Hlu) as [Hru _].
    rewrite adjacency_get by (by apply reaches_ids). cbn [from_option id].
    destruct (relax_ok u layer layerOf queue Hok Hlu) as [Hok2 _].
    destruct (relax_room layer (successors es u) layerOf queue) as [Hb2 Hroom]; [|lia|done|].
    + intros n (e & He & Hs & <-)%elem_of_successors. split; [by apply Htarget|].
      rewrite <- Hs in Hru. specialize (Hrank e He Hru). pose proof (Hb u layer Hlu). subst u. lia.
    + destruct (relax layer (successors es u) layerOf queue) as [L2 q2]. apply IH; [done|done|]. cbn [fst snd] in *. lia.
Qed.

Lemma layers_end : exists fuel L, layer_loop fuel (adjacency ids es) [(entry, 0)] [(entry, 0)] = Some L.
Proof.
  eexists. apply layer_loop_ends; [apply initial_ok| |apply le_n].
  intros v l. cbn. case_decide; [intros [= <-]; lia|done].
Qed.
End Ends.
End Layout.

(** ** Lemmas: positions *)

Definition unplaced (n : GraphNode) : GraphNode := set_position (0, 0) n.

Lemma set_last_unplaced i p l : map unplaced (set_last i p l) = map unplaced l.
Proof. induction l as [|n l IH]; [done|]. cbn. destruct (_ && _); cbn; [done|by rewrite IH]. Qed.

Lemma place_layer_unplaced ns l : map unplaced (place_layer ns l) = map unplaced ns.
Proof.
  destruct l as [layer k]. unfold place_layer. generalize (imap pair k). clear k. intros k.
  revert ns. induction k as [|[j n] k IH]; intros ns; cbn [fold_left]; [done|].
  by rewrite IH, set_last_unplaced.
Qed.

Lemma unplaced_ids ns : map node_id (map unplaced ns) = map node_id ns.
Proof. rewrite map_map. by apply map_ext. Qed.

Lemma set_last_elem i p l n :
  NoDup (map node_id l) -> n ∈ set_last i p l -> node_id n = i /\ position n = p \/ node_id n <> i /\ n ∈ l.
Proof.
  induction l as [|m l IH]; cbn; intros Hnd Hn; [by apply not_elem_of_nil in Hn|].
  apply NoDup_cons in Hnd as [Hm Hnd].
  destruct (String.eqb_spec (node_id m) i) as [<-|Hne]; cbn in Hn.
  - assert (mem (node_id m) (map node_id l) = false) as Hf
      by (apply not_true_iff_false; by rewrite mem_spec).
    rewrite Hf in Hn. cbn in Hn. apply elem_of_cons in Hn as [->|Hn]; [by left|].
    right. split; [|by constructor]. intros E. apply Hm, list_elem_of_fmap. by exists n.
  - apply elem_of_cons in Hn as [->|Hn]; [right; split; [done|constructor]|].
    destruct (IH Hnd Hn) as [|[? ?]]; [by left|]. right. split; [done|by constructor].
Qed.

(** Updates whose position is a function of the id, in the first coordinate. *)
Lemma updates_spec (X : string -> Z) (us : list (string * (Z * Z))) ns n :
  NoDup (map node_id ns) -> (forall i p, (i, p) ∈ us -> p.1 = X i) ->
  n ∈ fold_left (fun ns '(i, p) => set_last i p ns) us ns ->
  (position n).1 = X (node_id n) \/ (node_id n ∉ map fst us) /\ n ∈ ns.
Proof.
  revert ns. induction us as [|[i p] us IH]; intros ns Hnd HX Hn; cbn [fold_left map] in *.
  { right. split; [apply not_elem_of_nil|done]. }
  destruct (IH (set_last i p ns)) as [|[Hno Hin]].
  - rewrite <- unplaced_ids, set_last_unplaced, unplaced_ids. done.
  - intros j q Hj. apply HX. by constructor.
  - done.
  - by left.
  - apply set_last_elem in Hin as [[Hid Hp]|[Hid Hin]]; [| |done].
    + left. rewrite Hid, Hp. apply HX. constructor.
    + right. split; [|done]. rewrite elem_of_cons. naive_solver.
Qed.

(** The updates of a layer. *)
Definition layer_updates (l : Z * list GraphNode) : list (string * (Z * Z)) :=
  map (fun '(index, n) => (node_id n,
    (LAYOUT_ORIGIN_X + l.1 * LAYER_GAP_X, LAYOUT_ORIGIN_Y + Z.of_nat index * LAYER_GAP_Y)))
    (imap pair l.2).

Lemma place_layers_updates layers ns :
  fold_left place_layer layers ns
  = fold_left (fun ns '(i, p) => set_last i p ns) (flat_map layer_updates layers) ns.
Proof.
  revert ns. induction layers as [|[layer k] layers IH]; intros ns; cbn [fold_left flat_map]; [done|].
  rewrite fold_left_app, IH. f_equal. unfold place_layer, layer_updates. cbn [fst snd].
  generalize (imap pair k). clear. intros k. revert ns.
  induction k as [|[j n] k IH]; intros ns; cbn [fold_left map]; [done|]. apply IH.
Qed.

Lemma elem_of_imap_pair {A} (l : list A) j x : (j, x) ∈ imap pair l -> x ∈ l.
Proof. intros (i & y & [= <- <-] & H)%elem_of_lookup_imap. by apply list_elem_of_lookup_2 in H. Qed.

Lemma imap_pair_elem {A} (l : list A) x : x ∈ l -> exists j, (j, x) ∈ imap pair l.
Proof.
  intros [j H]%list_elem_of_lookup. exists j. apply elem_of_lookup_imap. exists j, x. done.
Qed.

Lemma disconnected_keep next ids L i l :
  jm_get i L = Some l -> jm_get i (disconnected next ids L) = Some l.
Proof.
  revert next L. induction ids as [|j ids IH]; intros next L Hi; cbn [disconnected]; [done|].
  destruct (jm_has j L) eqn:E; apply IH; [done|]. rewrite jm_get_set_ne; [done|]. intros ->.
  unfold jm_has in E. by rewrite Hi in E.
Qed.

(** The x coordinate is that of the node's layer. *)
Lemma layout_x (layer : GraphNode -> Z) (X : string -> Z) ns n :
  NoDup (map node_id ns) ->
  (forall m, m ∈ ns -> X (node_id m) = LAYOUT_ORIGIN_X + layer m * LAYER_GAP_X) ->
  n ∈ fold_left place_layer (groups_of layer ns) ns -> (position n).1 = X (node_id n).
Proof.
  intros Hnd HX Hn. rewrite place_layers_updates in Hn.
  assert (Hgroup : forall l k, (l, k) ∈ groups_of layer ns -> k = with_key layer l ns).
  { intros l k H. unfold groups_of, tabulate in H. by apply list_elem_of_fmap in H as (x & [= <- <-] & _). }
  destruct (updates_spec X (flat_map layer_updates (groups_of layer ns)) ns n) as [|[Hno Hin]]; [done| |done|done|].
  - intros i p Hp. apply list_elem_of_In, in_flat_map in Hp as ([l k] & Hl & Hp).
    apply list_elem_of_In in Hl, Hp. apply Hgroup in Hl as ->. unfold layer_updates in Hp. cbn [fst snd] in Hp.
    apply list_elem_of_fmap in Hp as ([j m] & [= -> ->] & Hm). apply elem_of_imap_pair, elem_of_with_key in Hm as [Hm <-].
    cbn [fst]. by rewrite HX.
  - exfalso. apply Hno.
    assert (Hg : (layer n, with_key layer (layer n) ns) ∈ groups_of layer ns).
    { unfold groups_of, tabulate. apply list_elem_of_fmap. exists (layer n). split; [done|].
      apply elem_of_firsts, list_elem_of_fmap. by exists n. }
    destruct (imap_pair_elem (with_key layer (layer n) ns) n) as [j Hj]; [by apply elem_of_with_key|].
    apply list_elem_of_fmap. eexists (node_id n, _). split; [done|].
    apply list_elem_of_In, in_flat_map. eexists. split; [apply list_elem_of_In; exact Hg|].
    apply list_elem_of_In. unfold layer_updates. cbn [fst snd]. apply list_elem_of_fmap. by exists (j, n).
Qed.

(** ** Lemmas: step objects *)

(** [o[k]], the prototype's properties apart. *)
Definition read (k : string) (o : obj) : value := default VUndef (own_get k o).

(** A step as the object it was destructured from. *)
Definition step_obj (s : ConvertibleStep) : obj :=
  assign (of_entries [("id", VStr (step_id s)); ("name", VStr (step_name s)); ("type", VStr (step_type s));
    ("thenStepId", opt_str (thenStepId s)); ("elseStepId", opt_str (elseStepId s))]) (rest s).

(** What destructuring leaves in [rest]. *)
Record step_ok (s : ConvertibleStep) : Prop := {
  so_NoDup : NoDup (map fst (rest s));
  so_keys : forall k, k ∈ map fst (rest s) -> k ∉ ["id"; "name"; "type"; "thenStepId"; "elseStepId"]
}.

Lemma own_get_of_entries k l : NoDup (map fst l) -> own_get k (of_entries l) = own_get k l.
Proof. intros H. unfold of_entries. rewrite own_get_assign by done. by destruct (own_get k l). Qed.

Lemma own_get_filter_defined k (o : obj) :
  NoDup (map fst o) ->
  own_get k (List.filter (fun '(_, v) => defined v) o)
  = match own_get k o with Some v => if defined v then Some v else None | None => None end.
Proof.
  unfold own_get. induction o as [|[k' v] o IH]; intros Hnd; [done|].
  cbn [map] in Hnd. apply NoDup_cons in Hnd as [Hk Hnd]. cbn [List.filter].
  specialize (IH Hnd). cbn [jm_get]. destruct (defined v) eqn:Ed; cbn [jm_get].
  - destruct (decide (k = k')) as [<-|]; [by rewrite Ed|done].
  - destruct (decide (k = k')) as [<-|]; [|done]. rewrite Ed, IH.
    assert (jm_get k o = None) as -> by (by apply jm_get_None). done.
Qed.

Lemma raw_config_NoDup s : NoDup (map fst (raw_config s)).
Proof. apply (assign_NoDup _ (rest s)), (assign_NoDup [] _). constructor. Qed.

Lemma step_config_NoDup s : NoDup (map fst (step_config s)).
Proof.
  eapply sublist_NoDup; [apply (raw_config_NoDup s)|]. unfold step_config. generalize (raw_config s).
  intros o. induction o as [|[k' v] o IH]; cbn; [constructor|]. destruct (defined v); cbn; by constructor.
Qed.

(** The step of a node made from a step reads like the step. *)
Lemma step_node_step s k : step_ok s -> read k (node_step (step_node s)) = read k (step_obj s).
Proof.
  intros [Hnd Hkeys]. unfold read, node_step, step_obj, step_node. cbn [config node_id label node_type].
  rewrite (own_get_assign _ _ _ (step_config_NoDup s)). unfold step_config.
  rewrite (own_get_filter_defined _ _ (raw_config_NoDup s)). unfold raw_config.
  rewrite !(own_get_assign _ _ _ Hnd).
  rewrite !own_get_of_entries by (apply (bool_decide_unpack _); by vm_compute).
  destruct (own_get k (rest s)) as [v|] eqn:E.
  - assert (Hk : k ∈ map fst (rest s)) by (apply jm_has_true; unfold jm_has, own_get in *; by rewrite E).
    specialize (Hkeys k Hk). destruct v; cbn; try done.
    rewrite !not_elem_of_cons in Hkeys. destruct_and!. by rewrite !decide_False.
  - unfold own_get. cbn. destruct (thenStepId s), (elseStepId s); cbn; repeat case_decide; subst; done.
Qed.

(** ** Graph to definition *)

(** A graph without cycles has a node that no edge enters. *)
Lemma root_exists g :
  wf_graph g -> acyclic (edges g) -> nodes g <> [] ->
  exists n l, List.filter (fun n => negb (mem (node_id n) (map target (edges g)))) (nodes g) = n :: l.
Proof.
  intros Hwf [rank Hrank] Hne. destruct (List.filter _ (nodes g)) as [|n l] eqn:E; [|by eexists _, _].
  exfalso. assert (Hno : forall k v, rank v = k -> v ∉ ids_of g).
  { intros k. induction (lt_wf k) as [k _ IH]. intros v <- Hv.
    apply list_elem_of_fmap in Hv as (n & -> & Hn).
    assert (Hm : mem (node_id n) (map target (edges g)) = true).
    { destruct (mem _ _) eqn:Em; [done|]. exfalso. apply (not_elem_of_nil n). rewrite <- E.
      apply elem_of_bfilter. by rewrite Em. }
    apply mem_spec, list_elem_of_fmap in Hm as (e & Ht & He). rewrite Ht in IH.
    apply (IH (rank (source e)) (Hrank e He) (source e) eq_refl). by apply Hwf. }
  destruct (nodes g) as [|n l] eqn:En; [done|]. apply (Hno _ (node_id n) eq_refl).
  unfold ids_of. rewrite En. constructor.
Qed.

Lemma findEntryNode_root g entry :
  findEntryNode g = Ok entry -> entry ∈ ids_of g /\ forall e, e ∈ edges g -> target e <> entry.
Proof.
  unfold findEntryNode. destruct (List.filter _ (nodes g)) as [|n l] eqn:E; [done|]. intros [= <-].
  assert (Hn : n ∈ List.filter (fun n => negb (mem (node_id n) (map target (edges g)))) (nodes g))
    by (rewrite E; constructor).
  apply elem_of_bfilter in Hn as [Hn Hm]. split; [apply list_elem_of_fmap; by exists n|].
  intros e He Ht. apply negb_true_iff, not_true_iff_false in Hm. apply Hm, mem_spec, list_elem_of_fmap.
  by exists e.
Qed.

Lemma kahn_loop_prefix fuel m adj deg Q out out' :
  kahn_loop fuel m adj deg Q out = Some out' -> exists k, out' = out ++ k.
Proof.
  revert deg Q out. induction fuel as [|fuel IH]; intros deg [|x Q] out; cbn [kahn_loop];
    try (intros [= <-]; exists []; by rewrite app_nil_r).
  destruct (release _ deg Q) as [deg' Q']. intros (k & ->)%IH.
  destruct (jm_get x m); [rewrite <- app_assoc|]; by eexists.
Qed.

(** A root given as the entry comes first. *)
Lemma topologicalSort_head g entry l :
  NoDup (ids_of g) -> entry ∈ ids_of g -> (forall e, e ∈ edges g -> target e <> entry) ->
  topologicalSort g entry = Some l -> head (map node_id l) = Some entry.
Proof.
  intros Hnd He Hroot. unfold topologicalSort. cbn zeta.
  assert (no_incoming (in_degrees g) entry = true) as ->.
  { unfold no_incoming. rewrite in_degrees_get, (proj2 (pending_zero _ _ _)); [done|].
    intros e Hin Ht. by destruct (Hroot e Hin). }
  cbn [app kahn_fuel kahn_loop]. unfold kahn_fuel. cbn [kahn_loop].
  apply list_elem_of_fmap in He as (n & -> & Hn). rewrite (node_map_get _ _ Hnd Hn).
  destruct (release _ _ _) as [deg Q]. intros (out & (k & ->)%kahn_loop_prefix & E)%bind_Some.
  injection E as <-. done.
Qed.

Lemma filter_first {A} (p : A -> bool) l x rest :
  List.filter p l = x :: rest -> exists l1 l2, l = l1 ++ x :: l2 /\ forall y, y ∈ l1 -> p y = false.
Proof.
  induction l as [|y l IH]; cbn; [done|]. destruct (p y) eqn:Hy.
  - intros [= -> _]. exists [], l. split; [done|]. by intros z ?%elem_of_nil.
  - intros (l1 & l2 & -> & H)%IH. exists (y :: l1), l2. split; [done|]. by intros z [->|Hz]%elem_of_cons; [|apply H].
Qed.

(** C40: a graph with distinct node ids, edges between its nodes and no cycle
    always converts to a definition of version 1: its steps are those of the
    nodes, each once, in an order in which the source of every edge comes
    before its target, and the entry step is the first of them: of the nodes
    that no edge enters the first one, when there are several (see
    [two_roots_convert]; the comment of [findEntryNode] has a second root refused). *)
Theorem definition_order g :
  wf_graph g -> acyclic (edges g) -> nodes g <> [] ->
  exists entry l, graphToPipelineDefinition g = Ok (1, entry, map node_step l) /\
    l ≡ₚ nodes g /\ head (map node_id l) = Some entry /\
    (exists n1 r n2, nodes g = n1 ++ r :: n2 /\ node_id r = entry /\
       (forall e, e ∈ edges g -> target e <> entry) /\
       forall n, n ∈ n1 -> exists e, e ∈ edges g /\ target e = node_id n) /\
    forall l1 n l2, l = l1 ++ n :: l2 ->
    forall e, e ∈ edges g -> target e = node_id n -> source e ∈ map node_id l1.
Proof.
  intros Hwf Hac Hne. destruct (root_exists g Hwf Hac Hne) as (r & rs & Er).
  assert (Hfind : findEntryNode g = Ok (node_id r)) by (unfold findEntryNode; by rewrite Er).
  destruct (findEntryNode_root g _ Hfind) as [Hin Hroot].
  destruct (sorted_graph g (node_id r) Hwf Hac Hin) as (l & El & Hp & Hord).
  destruct (filter_first _ _ _ _ Er) as (n1 & n2 & En & Hn1).
  exists (node_id r), l. split_and!; [|done| | |done].
  - unfold graphToPipelineDefinition.
    destruct (Nat.eqb_spec (length (nodes g)) 0) as [E0|_]; [by apply length_zero_iff_nil in E0|].
    rewrite Hfind. cbn [mbind result_mbind result_bind]. by rewrite El.
  - by apply (topologicalSort_head g); [apply Hwf| | |].
  - exists n1, r, n2. split_and!; [done|done|done|]. intros n Hn. specialize (Hn1 n Hn). cbv beta in Hn1.
    apply negb_false_iff, mem_spec, list_elem_of_fmap in Hn1 as (e & -> & He). by exists e.
Qed.

(** ** The layout *)

(** No edge that can be taken from the entry is on a cycle. *)
Definition acyclic_from (es : list GraphEdge) (entry : string) : Prop :=
  exists rank : string -> nat,
    forall e, e ∈ es -> reaches es entry (source e) -> (rank (source e) < rank (target e))%nat.

Lemma applyAutoLayout_loop fuel ns es entry ns' :
  ns <> [] -> applyAutoLayout fuel ns es entry = Some ns' <->
  exists L, layer_loop fuel (adjacency (map node_id ns) es) [(entry, 0)] [(entry, 0)] = Some L /\
    let L' := disconnected (fold_left Z.max (jm_values L) 0 + 1) (map node_id ns) L in
    ns' = fold_left place_layer (groups_of (fun n => default 0 (jm_get (node_id n) L')) ns) ns.
Proof.
  intros Hne. destruct ns as [|n ns]; [done|]. unfold applyAutoLayout. rewrite bind_Some.
  split; intros (L & HL & E); exists L; (split; [done|]); [by injection E as <-|by subst].
Qed.

Lemma applyAutoLayout_unplaced fuel ns es entry ns' :
  applyAutoLayout fuel ns es entry = Some ns' -> map unplaced ns' = map unplaced ns.
Proof.
  destruct (decide (ns = [])) as [->|Hne]; [by intros [= <-]|].
  intros (L & _ & ->)%applyAutoLayout_loop; [|done]. cbn zeta.
  generalize (groups_of (fun n => default 0 (jm_get (node_id n)
    (disconnected (fold_left Z.max (jm_values L) 0 + 1) (map node_id ns) L))) ns). intros ls.
  clear Hne. revert ns. induction ls as [|l ls IH]; intros ns; cbn [fold_left]; [done|].
  by rewrite IH, place_layer_unplaced.
Qed.

Lemma applyAutoLayout_ends ns es entry :
  entry ∈ map node_id ns -> (forall e, e ∈ es -> target e ∈ map node_id ns) -> acyclic_from es entry ->
  exists fuel ns', applyAutoLayout fuel ns es entry = Some ns'.
Proof.
  intros He Ht [rank Hrank]. destruct (layers_end _ _ _ He Ht rank Hrank) as (fuel & L & HL).
  exists fuel. eexists. apply applyAutoLayout_loop; [by intros ->; apply not_elem_of_nil in He|]. by exists L.
Qed.

(** The layout of a graph whose edges lead to its nodes ends exactly when
    no cycle can be reached from the entry: on a reachable cycle the loop runs
    for ever. *)
Theorem layout_terminates ns es entry :
  entry ∈ map node_id ns -> (forall e, e ∈ es -> target e ∈ map node_id ns) ->
  (exists fuel ns', applyAutoLayout fuel ns es entry = Some ns') <-> acyclic_from es entry.
Proof.
  intros He Ht. split; [|by apply applyAutoLayout_ends].
  intros (fuel & ns' & (L & HL & _)%applyAutoLayout_loop); [|by intros ->; apply not_elem_of_nil in He].
  exists (fun v => Z.to_nat (default 0 (jm_get v L))). intros e Hin Hreach.
  destruct (layers_forward _ _ _ He Ht _ _ HL _ Hreach) as (l & Hl & H0 & Hs).
  destruct (Hs e Hin eq_refl) as (l' & Hl' & Hlt). rewrite Hl, Hl'. cbn. lia.
Qed.

(** A layout changes nothing but the positions, and each edge that leaves
    a node reachable from the entry leads at least one layer to the right. *)
Theorem layout_forward fuel ns es entry ns' :
  NoDup (map node_id ns) -> entry ∈ map node_id ns -> (forall e, e ∈ es -> target e ∈ map node_id ns) ->
  applyAutoLayout fuel ns es entry = Some ns' ->
  map unplaced ns' = map unplaced ns /\
  forall e a b, e ∈ es -> reaches es entry (source e) -> a ∈ ns' -> b ∈ ns' ->
    node_id a = source e -> node_id b = target e -> (position a).1 + LAYER_GAP_X <= (position b).1.
Proof.
  intros Hnd He Ht Hrun. split; [by eapply applyAutoLayout_unplaced|].
  apply applyAutoLayout_loop in Hrun as (L & HL & ->); [|by intros ->; apply not_elem_of_nil in He].
  cbn zeta. set (L' := disconnected _ _ _). intros e a b Hin Hreach Ha Hb Ea Eb.
  set (X := fun i => LAYOUT_ORIGIN_X + default 0 (jm_get i L') * LAYER_GAP_X).
  rewrite (layout_x (fun n => default 0 (jm_get (node_id n) L')) X ns a Hnd (fun _ _ => eq_refl) Ha).
  rewrite (layout_x (fun n => default 0 (jm_get (node_id n) L')) X ns b Hnd (fun _ _ => eq_refl) Hb).
  destruct (layers_forward _ _ _ He Ht _ _ HL _ Hreach) as (l & Hl & _ & Hs).
  destruct (Hs e Hin eq_refl) as (l' & Hl' & Hlt).
  unfold X, L'. rewrite Ea, Eb, (disconnected_keep _ _ _ _ _ Hl), (disconnected_keep _ _ _ _ _ Hl').
  unfold LAYER_GAP_X, NODE_WIDTH. cbn [from_option id]. lia.
Qed.

(** ** Round trip *)

(** The position of an id in the list of ids. *)
Definition index_of (ids : list string) (i : string) : nat :=
  match list_find (fun j => i = j) ids with Some (k, _) => k | None => 0 end.

Lemma index_of_lookup ids k i : NoDup ids -> ids !! k = Some i -> index_of ids i = k.
Proof.
  intros Hnd Hk. unfold index_of.
  destruct (list_find_elem_of (fun j => i = j) ids i) as [[j x] E]; [by apply list_elem_of_lookup; exists k|done|].
  rewrite E. apply list_find_Some in E as (Hj & -> & _). by apply (NoDup_lookup ids j k x).
Qed.

Lemma lookup_map {A B} (f : A -> B) l k x : l !! k = Some x -> map f l !! k = Some (f x).
Proof. intros H. change (map f l) with (f <$> l). by rewrite list_lookup_fmap, H. Qed.

Lemma same_ids l ns :
  NoDup (map node_id ns) -> l ≡ₚ ns -> map node_id l = map node_id ns -> l = ns.
Proof.
  intros Hnd Hp E. apply list_eq. intros i.
  assert (Hi : node_id <$> l !! i = node_id <$> ns !! i).
  { rewrite <- !list_lookup_fmap. change (map node_id l !! i = map node_id ns !! i). by rewrite E. }
  destruct (l !! i) as [a|] eqn:Ea, (ns !! i) as [b|] eqn:Eb; cbn in Hi; try done.
  injection Hi as Hi. rewrite <- (node_map_get ns a), <- (node_map_get ns b); [by rewrite Hi|done| |done|].
  - by apply list_elem_of_lookup_2 in Eb.
  - rewrite <- Hp. by apply list_elem_of_lookup_2 in Ea.
Qed.

Section Sequential.
Context (l : list ConvertibleStep) (Hseq : sequential l) (Hnd : NoDup (map step_id l)).

Let es : list GraphEdge := edges_from (map step_id l) l.

Lemma sequential_target e : e ∈ es -> source e ∈ map step_id l /\ target e ∈ map step_id l.
Proof.
  intros (k & a & b & Ha & Hb & ->)%(sequential_edges _ _ _ Hseq). cbn.
  split; apply list_elem_of_lookup; eexists; by apply lookup_map.
Qed.

Lemma sequential_acyclic : acyclic es.
Proof.
  exists (index_of (map step_id l)). intros e (k & a & b & Ha & Hb & ->)%sequential_edges; [|done]. cbn.
  rewrite (index_of_lookup _ k _ Hnd (lookup_map step_id _ _ _ Ha)).
  rewrite (index_of_lookup _ (S k) _ Hnd (lookup_map step_id _ _ _ Hb)). lia.
Qed.

(** Nothing enters the first step. *)
Lemma sequential_first s l' : l = s :: l' -> forall e, e ∈ es -> target e <> step_id s.
Proof.
  intros El e (k & a & b & Ha & Hb & ->)%sequential_edges; [|done]. cbn. intros E.
  assert (Hs : map step_id l !! 0%nat = Some (step_id s)) by (by rewrite El).
  pose proof (lookup_map step_id _ _ _ Hb) as Hb'. rewrite E in Hb'.
  pose proof (NoDup_lookup _ 0 (S k) _ Hnd Hs Hb'). lia.
Qed.

(** Any placement of the nodes of the steps converts back to the steps. *)
Lemma sequential_back s l' ns :
  l = s :: l' -> map unplaced ns = map step_node l ->
  graphToPipelineDefinition {| nodes := ns; edges := es |}
  = Ok (1, step_id s, map node_step (map step_node l)).
Proof.
  intros El Hns. set (g := {| nodes := ns; edges := es |}).
  assert (Hids : ids_of g = map step_id l).
  { unfold ids_of, g. cbn [nodes]. rewrite <- unplaced_ids, Hns, map_map. by apply map_ext. }
  assert (Hwf : wf_graph g).
  { split; rewrite Hids; [done|..]; intros e He; by apply (sequential_target e). }
  assert (Hsteps : map node_step ns = map node_step (map step_node l))
    by (rewrite <- Hns, map_map; by apply map_ext).
  destruct ns as [|n ns']; [by rewrite El in Hns|].
  assert (Hn : node_id n = step_id s) by (pose proof (f_equal (map node_id) Hns) as H; rewrite El in H; cbn in H; congruence).
  assert (Hfind : findEntryNode g = Ok (step_id s)).
  { unfold findEntryNode, g. cbn [nodes edges List.filter].
    assert (mem (node_id n) (map target es) = false) as ->; [|cbn; by rewrite Hn].
    apply not_true_iff_false. rewrite mem_spec. intros (e & Ht & He)%list_elem_of_fmap.
    apply (sequential_first s l' El e He). by rewrite <- Hn. }
  destruct (sorted_graph g (step_id s) Hwf sequential_acyclic) as (o & Eo & Hp & Hord).
  { rewrite Hids, El. constructor. }
  assert (o = n :: ns') as ->.
  { apply (same_ids o (nodes g)); [apply Hwf|done|]. apply chain_order; [by rewrite Hp|apply Hwf|].
    change (map node_id (nodes g)) with (ids_of g). rewrite Hids.
    intros k a b Ha Hb l1 l2 E. apply map_split_inv in E as (k1 & x & k2 & -> & <- & <-).
    change (map step_id l) with (step_id <$> l) in Ha, Hb.
    apply list_lookup_fmap_Some in Ha as (sa & -> & Ha), Hb as (sb & Eb & Hb).
    apply (Hord k1 x k2 eq_refl {| edge_id := (step_id sa, step_id sb); source := step_id sa;
      target := step_id sb; edge_label := None |}); [|done].
    apply sequential_edges; [done|]. by exists k, sa, sb. }
  unfold graphToPipelineDefinition. change (length (nodes g) =? 0)%nat with false. cbn iota.
  rewrite Hfind. cbn [mbind result_mbind result_bind]. by rewrite Eo, Hsteps.
Qed.
End Sequential.

(** A valid definition without conditional steps before the last, that
    starts at its first step and whose ids are distinct, always converts to a
    graph, and the graph converts back to the same version, entry and sequence
    of steps: each new step reads, at every key, as the old one. *)
Theorem sequential_roundtrip d s l' :
  validateDefinitionForConversion d = Ok tt -> steps d = s :: l' -> entryStepId d = step_id s ->
  sequential (steps d) -> NoDup (map step_id (steps d)) -> Forall step_ok (steps d) ->
  exists fuel g l, pipelineDefinitionToGraph fuel d = Ok g /\
    graphToPipelineDefinition g = Ok (version d, entryStepId d, l) /\
    Forall2 (fun o s => forall k, read k o = read k (step_obj s)) l (steps d).
Proof.
  intros Hvalid Hl Hentry Hseq Hnd Hok.
  assert (Hids : map node_id (map step_node (steps d)) = map step_id (steps d))
    by (rewrite map_map; by apply map_ext).
  destruct (sequential_acyclic _ Hseq Hnd) as [rank Hrank].
  destruct (applyAutoLayout_ends (map step_node (steps d)) (edges_from (map step_id (steps d)) (steps d))
    (entryStepId d)) as (fuel & ns & Hrun).
  { rewrite Hids, Hl, Hentry. constructor. }
  { rewrite Hids. intros e He. by apply (sequential_target _ Hseq). }
  { exists rank. intros e He _. by apply Hrank. }
  eexists fuel, {| nodes := ns; edges := _ |}, _. split_and!.
  - unfold pipelineDefinitionToGraph. rewrite Hvalid. cbn [mbind result_mbind result_bind].
    unfold buildEdgesFromDefinition. by rewrite Hrun.
  - rewrite (sequential_back _ Hseq Hnd s l' ns Hl).
    + assert (version d = 1) as -> by (unfold validateDefinitionForConversion in Hvalid; by destruct (Z.eqb_spec (version d) 1)).
      by rewrite Hentry.
    + rewrite (applyAutoLayout_unplaced _ _ _ _ _ Hrun), map_map. by apply map_ext.
  - rewrite map_map. clear -Hok. induction Hok as [|x l Hx _ IH]; cbn [map]; constructor; [|done].
    intros k. by apply step_node_step.
Qed.

(** ** Concrete graphs *)

Definition node (i : string) : GraphNode :=
  {| node_id := i; node_type := "transform"; position := (0, 0); config := []; label := i |}.

Definition edge (a b : string) : GraphEdge :=
  {| edge_id := (a, b); source := a; target := b; edge_label := None |}.

(** Two ways from [a] to [d]; the nodes are not listed in order. *)
Definition diamond : PipelineGraph :=
  {| nodes := [node "d"; node "c"; node "a"; node "b"];
     edges := [edge "a" "b"; edge "a" "d"; edge "b" "c"; edge "c" "d"] |}.

Lemma diamond_wf : wf_graph diamond.
Proof.
  split.
  - apply (bool_decide_unpack _). by vm_compute.
  - intros e He. unfold ids_of. repeat (apply elem_of_cons in He as [->|He]; [apply (bool_decide_unpack _); by vm_compute|]). by apply not_elem_of_nil in He.
  - intros e He. unfold ids_of. repeat (apply elem_of_cons in He as [->|He]; [apply (bool_decide_unpack _); by vm_compute|]). by apply not_elem_of_nil in He.
Qed.

Lemma diamond_rank e : e ∈ edges diamond -> (index_of ["a"; "b"; "c"; "d"] (source e) < index_of ["a"; "b"; "c"; "d"] (target e))%nat.
Proof.
  intros He. repeat (apply elem_of_cons in He as [->|He]; [vm_compute; lia|]). by apply not_elem_of_nil in He.
Qed.

Example diamond_definition :
  graphToPipelineDefinition diamond = Ok (1, "a", map node_step [node "a"; node "b"; node "c"; node "d"]).
Proof. by vm_compute. Qed.

Example diamond_layout :
  option_map (map position) (applyAutoLayout 20 (nodes diamond) (edges diamond) "a")
  = Some [(820, 40); (560, 40); (40, 40); (300, 40)].
Proof. by vm_compute. Qed.

(** A graph with two roots converts, and the first is the entry. *)
Definition two_roots : PipelineGraph :=
  {| nodes := [node "a"; node "b"; node "c"]; edges := [edge "a" "c"; edge "b" "c"] |}.

Example two_roots_convert :
  graphToPipelineDefinition two_roots = Ok (1, "a", map node_step [node "a"; node "b"; node "c"]).
Proof. by vm_compute. Qed.

Lemma definition_order_witness :
  exists entry l, graphToPipelineDefinition diamond = Ok (1, entry, map node_step l) /\
    l ≡ₚ nodes diamond /\ head (map node_id l) = Some entry /\
    (exists n1 r n2, nodes diamond = n1 ++ r :: n2 /\ node_id r = entry /\
       (forall e, e ∈ edges diamond -> target e <> entry) /\
       forall n, n ∈ n1 -> exists e, e ∈ edges diamond /\ target e = node_id n) /\
    forall l1 n l2, l = l1 ++ n :: l2 ->
    forall e, e ∈ edges diamond -> target e = node_id n -> source e ∈ map node_id l1.
Proof.
  apply (definition_order diamond); [apply diamond_wf| |done].
  exists (index_of ["a"; "b"; "c"; "d"]). apply diamond_rank.
Defined.

(** A conditional step that leads to itself: reached, and on a cycle. *)
Definition looping : list GraphEdge := edges_from ["if"; "end"]
  [ {| step_id := "if"; step_name := "If"; step_type := "conditional"; thenStepId := Some "if";
       elseStepId := Some "end"; rest := [] |};
    {| step_id := "end"; step_name := "End"; step_type := "transform"; thenStepId := None;
       elseStepId := None; rest := [] |} ].

Lemma layout_terminates_witness :
  ~ exists fuel ns, applyAutoLayout fuel [node "if"; node "end"] looping "if" = Some ns.
Proof.
  rewrite (layout_terminates [node "if"; node "end"] looping "if").
  - intros [rank Hrank].
    specialize (Hrank {| edge_id := ("if", "then"); source := "if"; target := "if"; edge_label := Some "then" |}).
    cbn in Hrank. apply (Nat.lt_irrefl (rank "if")), Hrank; [constructor|constructor].
  - constructor.
  - intros e He. change looping with [ {| edge_id := ("if", "then"); source := "if"; target := "if"; edge_label := Some "then" |};
      {| edge_id := ("if", "else"); source := "if"; target := "end"; edge_label := Some "else" |} ] in He.
    repeat (apply elem_of_cons in He as [->|He]; [apply (bool_decide_unpack _); by vm_compute|]). by apply not_elem_of_nil in He.
Defined.

Definition placed : list GraphNode :=
  default [] (applyAutoLayout 20 (nodes diamond) (edges diamond) "a").

Lemma layout_forward_witness :
  map unplaced placed = map unplaced (nodes diamond) /\
  forall e a b, e ∈ edges diamond -> reaches (edges diamond) "a" (source e) -> a ∈ placed -> b ∈ placed ->
    node_id a = source e -> node_id b = target e -> (position a).1 + LAYER_GAP_X <= (position b).1.
Proof.
  apply (layout_forward 20 (nodes diamond) (edges diamond) "a" placed).
  - apply diamond_wf.
  - apply (bool_decide_unpack _). by vm_compute.
  - apply diamond_wf.
  - by vm_compute.
Defined.

Definition two_steps : ConvertibleDefinition :=
  {| version := 1; entryStepId := "read";
     steps := [ {| step_id := "read"; step_name := "Read"; step_type := "source"; thenStepId := None;
                   elseStepId := None; rest := [("table", VStr "orders")] |};
                {| step_id := "write"; step_name := "Write"; step_type := "sink"; thenStepId := None;
                   elseStepId := None; rest := [("label", VStr "x"); ("mode", VUndef)] |} ] |}.

Lemma sequential_roundtrip_witness :
  exists fuel g l, pipelineDefinitionToGraph fuel two_steps = Ok g /\
    graphToPipelineDefinition g = Ok (version two_steps, entryStepId two_steps, l) /\
    Forall2 (fun o s => forall k, read k o = read k (step_obj s)) l (steps two_steps).
Proof.
  apply (sequential_roundtrip two_steps (hd (Build_ConvertibleStep "x" "x" "x" None None []) (steps two_steps))
    (tl (steps two_steps))); try done.
  - intros [|[|k]] s [= <-] Hk; done.
  - apply (bool_decide_unpack _). by vm_compute.
  - repeat constructor; cbn; try (apply (bool_decide_unpack _); by vm_compute);
      intros k Hk; repeat (apply elem_of_cons in Hk as [->|Hk]; [apply (bool_decide_unpack _); by vm_compute|]);
      by apply not_elem_of_nil in Hk.
Defined.

(** The branches of a conditional last step have no edges. *)
Example last_conditional :
  edges_from ["a"; "b"]
    [ {| step_id := "a"; step_name := "A"; step_type := "transform"; thenStepId := None; elseStepId := None; rest := [] |};
      {| step_id := "b"; step_name := "B"; step_type := "conditional"; thenStepId := Some "a"; elseStepId := None; rest := [] |} ]
  = [edge "a" "b"].
Proof. done. Qed.
