(* ===== verification/PgIdentifier.v ===== *)
(** * The ontology service: identifiers and quoting

    services/ontology/src/utils/pg-identifier.ts and the errors of
    services/ontology/src/services/errors.ts that the modelled operations raise.  The
    text that [x.replace(/q/g, qq)] gives is [double q].  The second half is the lexical structure of SQL, by
    which the files on statements say what the database reads. *)

From S2P Require Import Prelude JsString JsValue JsNumber.
From Stdlib Require Import Ascii.
From stdpp Require Import strings pretty.

(** ** Errors *)

Inductive ontology_error : Type :=
| EntityNotFoundError (message : string)
| ReservedSlugError (message : string)
| SlugConflictError (message : string)
| RefNotFoundError (message : string)
| MigrationInProgressError (message : string)
| MigrationPlanExpiredError (message : string)
| MigrationWrongStateError (message : string)
| MigrationNotFoundError (message : string)
| EntityHasDataError (message : string)
| QueryValidationError (message : string)
| QueryTimeoutError (message : string)
| ValidationError (message : string)
| ConflictError (message : string)
| PlainError (message : string)              (* [new Error(message)] *)
| TypeError                                  (* raised by the language *)
| DatabaseError (code : string).             (* rejected by the database *)

(** ** Doubling a quote *)

Definition squote : ascii := ascii_of_N 39.
#[global] Arguments squote : simpl never.

Fixpoint double (q : ascii) (s : string) : string :=
  match s with
  | EmptyString => EmptyString
  | String c s => if Ascii.eqb c q then String q (String q (double q s)) else String c (double q s)
  end.

Definition quoted (q : ascii) (s : string) : string := String q (double q s +:+ str q).

(** ** Identifiers *)

(** The database keeps the first 63 bytes of a name. *)
Definition pg_name (s : string) : string := String.substring 0 63 s.
#[global] Arguments pg_name : simpl never.

(** [[a-z0-9_]] *)
Definition slug_tail (c : ascii) : bool := is_lower c || is_digit c || (code c =? 95)%N.

(** [/^[a-z][a-z0-9_]*$/] *)
Definition PG_IDENTIFIER_REGEX (slug : string) : bool :=
  match explode slug with
  | c :: l => is_lower c && forallb slug_tail l
  | [] => false
  end.

Definition quotePgIdentifier (slug : string) : result ontology_error string :=
  if PG_IDENTIFIER_REGEX slug then Ok (quoted quote slug)
  else Err (PlainError ("Invalid PostgreSQL identifier: " +:+ str quote +:+ slug +:+ str quote)).

Definition remove_hyphens (s : string) : string :=
  on_chars (List.filter (fun c => negb (Ascii.eqb c "-"))) s.

Definition tenantSchemaName (tenantId : string) : string := "tenant_" +:+ remove_hyphens tenantId.

Definition RESERVED_SLUGS : list string := ["bulk"; "id"; "migrations"; "validate"; "drafts"; "mappings"].

Definition isReservedSlug (slug : string) : bool := startsWith slug "_" || mem slug RESERVED_SLUGS.

(** [.replace(/\s+/g, "_")] *)
Fixpoint underscore_spaces (spaced : bool) (l : list ascii) : list ascii :=
  match l with
  | [] => []
  | c :: l =>
      if is_space c then if spaced then underscore_spaces true l else "_"%char :: underscore_spaces true l
      else c :: underscore_spaces false l
  end.

Fixpoint drop_underscores (l : list ascii) : list ascii :=
  match l with
  | [] => []
  | c :: l' => if Ascii.eqb c "_" then drop_underscores l' else l
  end.

Definition deriveSlug (name : string) : string :=
  on_chars (fun l => rev (drop_underscores (rev (drop_underscores
    (List.filter slug_tail (underscore_spaces false (map lower_char l))))))) name.

(** ** Laws *)

Lemma double_id q s : Forall (fun c => Ascii.eqb c q = false) (explode s) -> double q s = s.
Proof. induction s as [|c s IH]; cbn; [done|]. intros [H Hs]%Forall_cons. rewrite H. by rewrite IH. Qed.

Lemma PG_IDENTIFIER_REGEX_chars s :
  PG_IDENTIFIER_REGEX s = true -> Forall (fun c => slug_tail c = true) (explode s).
Proof.
  unfold PG_IDENTIFIER_REGEX. destruct (explode s) as [|c l]; [done|]. intros [Hc Hl]%andb_true_iff.
  constructor; [unfold slug_tail; by rewrite Hc|]. apply Forall_forall. by apply forallb_elem.
Qed.

(** An identifier needs no doubling: it holds no quote. *)
Lemma quotePgIdentifier_ok s q :
  quotePgIdentifier s = Ok q <-> PG_IDENTIFIER_REGEX s = true /\ q = quoted quote s.
Proof. unfold quotePgIdentifier. destruct (PG_IDENTIFIER_REGEX s); naive_solver. Qed.

Lemma drop_underscores_suffix l : exists k, l = k ++ drop_underscores l.
Proof.
  induction l as [|c l [k IH]]; cbn; [by exists []|]. destruct (Ascii.eqb c "_"); [|by exists []].
  exists (c :: k). cbn. by f_equal.
Qed.

Lemma drop_underscores_head l : head (drop_underscores l) <> Some "_"%char.
Proof.
  induction l as [|c l IH]; cbn; [done|]. destruct (Ascii.eqb c "_") eqn:E; [done|]. cbn. intros [= ->].
  by rewrite Ascii.eqb_refl in E.
Qed.

Lemma Forall_drop_underscores (P : ascii -> Prop) l : Forall P l -> Forall P (drop_underscores l).
Proof. destruct (drop_underscores_suffix l) as [k E]. rewrite E at 1. by intros [_ ?]%Forall_app. Qed.

Lemma last_rev {A} (l : list A) : last (rev l) = head l.
Proof. destruct l as [|x l]; [done|]. cbn. by rewrite last_snoc. Qed.

Lemma drop_underscores_rev_head l :
  head l <> Some "_"%char -> head (rev (drop_underscores (rev l))) <> Some "_"%char.
Proof.
  intros H. destruct (drop_underscores_suffix (rev l)) as [k E]. apply (f_equal (@rev _)) in E.
  rewrite rev_involutive, rev_app_distr in E. rewrite E in H. destruct (rev (drop_underscores (rev l))); [done|exact H].
Qed.

(** What [deriveSlug] gives has only the characters of a slug and no underscore at either
    end; it is a valid identifier exactly when it is not empty and does not start with a
    digit. *)
Theorem derived_slug name :
  let l := explode (deriveSlug name) in
  Forall (fun c => slug_tail c = true) l /\ head l <> Some "_"%char /\ last l <> Some "_"%char /\
  (PG_IDENTIFIER_REGEX (deriveSlug name) = true <-> exists c k, l = c :: k /\ is_digit c = false).
Proof.
  unfold deriveSlug, on_chars. set (m := List.filter slug_tail _).
  assert (Hm : Forall (fun c => slug_tail c = true) m).
  { apply Forall_forall. intros c. unfold m. by intros [_ ?]%elem_of_bfilter. }
  set (d := rev _). assert (Hd : Forall (fun c => slug_tail c = true) d).
  { unfold d. apply Forall_rev, Forall_drop_underscores, Forall_rev, Forall_drop_underscores, Hm. }
  assert (Hh : head d <> Some "_"%char) by apply drop_underscores_rev_head, drop_underscores_head.
  rewrite explode_implode. split_and!; [done|done| |].
  - unfold d. rewrite last_rev. apply drop_underscores_head.
  - unfold PG_IDENTIFIER_REGEX. rewrite explode_implode. split.
    + destruct d as [|c k]; [done|]. intros [Hc _]%andb_true_iff. exists c, k. split; [done|].
      revert Hc. clear. destruct c as [[] [] [] [] [] [] [] []]; vm_compute; congruence.
    + intros (c & k & E & Hc). rewrite E in *. apply andb_true_iff. split.
      * apply Forall_cons in Hd as [Hd _]. revert Hd Hc Hh. clear. cbn [head].
        destruct c as [[] [] [] [] [] [] [] []]; vm_compute; congruence.
      * apply forallb_elem. apply Forall_cons in Hd as [_ Hd]. by rewrite Forall_forall in Hd.
Qed.

(** ** The lexical structure of SQL

    What the statements that the ontology service builds are read against: words,
    quoted identifiers, string literals, numbers, placeholders, operators and comments,
    as the documentation of PostgreSQL gives them (with standard-conforming strings).
    The lexer is a machine over characters, so the reading of a text that is put together
    from pieces is put together from the readings of the pieces. *)

Inductive token : Type :=
| TWord (s : string)                         (* a keyword or an unquoted name *)
| TIdent (s : string)
| TLit (s : string)
| TNum (s : string)
| TParam (n : N)
| TOp (s : string)
| TSym (c : ascii)
| TVal (v : value)                           (* a placeholder with the value bound to it *)
| TBad.                                      (* an unterminated token *)

Inductive lex_state : Type :=
| Start
| InWord (a : string)
| InIdent (a : string) | IdentQuote (a : string)
| InLit (a : string) | LitQuote (a : string)
| InNum (a : string)
| InDollar | InParam (n : N)
| InOp (a : string)
| InComment | InBlock | BlockStar.

Definition is_op (c : ascii) : bool := existsb (Ascii.eqb c) (explode "+-/<>=~!@#%^&|`?:").

Definition start (c : ascii) : list token * lex_state :=
  if is_space c then ([], Start)
  else if Ascii.eqb c quote then ([], InIdent EmptyString)
  else if Ascii.eqb c squote then ([], InLit EmptyString)
  else if Ascii.eqb c "$" then ([], InDollar)
  else if is_digit c then ([], InNum (str c))
  else if is_word c then ([], InWord (str c))
  else if is_op c then ([], InOp (str c))
  else ([TSym c], Start).

(** The character [c] ends a token. *)
Definition close (t : token) (c : ascii) : list token * lex_state := (t :: (start c).1, (start c).2).

Definition step (st : lex_state) (c : ascii) : list token * lex_state :=
  match st with
  | Start => start c
  | InWord a => if is_word c || Ascii.eqb c "$" then ([], InWord (a +:+ str c)) else close (TWord a) c
  | InIdent a => if Ascii.eqb c quote then ([], IdentQuote a) else ([], InIdent (a +:+ str c))
  | IdentQuote a => if Ascii.eqb c quote then ([], InIdent (a +:+ str c)) else close (TIdent a) c
  | InLit a => if Ascii.eqb c squote then ([], LitQuote a) else ([], InLit (a +:+ str c))
  | LitQuote a => if Ascii.eqb c squote then ([], InLit (a +:+ str c)) else close (TLit a) c
  | InNum a => if is_digit c || Ascii.eqb c "." then ([], InNum (a +:+ str c)) else close (TNum a) c
  | InDollar => if is_digit c then ([], InParam (Z.to_N (digit_value c))) else close TBad c
  | InParam n => if is_digit c then ([], InParam (10 * n + Z.to_N (digit_value c))%N) else close (TParam n) c
  | InOp a =>
      if String.eqb a "-" && Ascii.eqb c "-" then ([], InComment)
      else if String.eqb a "/" && Ascii.eqb c "*" then ([], InBlock)
      else if is_op c then ([], InOp (a +:+ str c)) else close (TOp a) c
  | InComment => if Ascii.eqb c newline then ([], Start) else ([], InComment)
  | InBlock => if Ascii.eqb c "*" then ([], BlockStar) else ([], InBlock)
  | BlockStar => if Ascii.eqb c "/" then ([], Start) else if Ascii.eqb c "*" then ([], BlockStar) else ([], InBlock)
  end.

(** The tokens of a text that ends in a state. *)
Definition flush (st : lex_state) : list token :=
  match st with
  | Start | InComment => []
  | InWord a => [TWord a]
  | IdentQuote a => [TIdent a]
  | LitQuote a => [TLit a]
  | InNum a => [TNum a]
  | InParam n => [TParam n]
  | InOp a => [TOp a]
  | InIdent _ | InLit _ | InDollar | InBlock | BlockStar => [TBad]
  end.

Fixpoint run (st : lex_state) (s : string) : list token * lex_state :=
  match s with
  | EmptyString => ([], st)
  | String c s => let '(ts, st1) := step st c in let '(us, st2) := run st1 s in (ts ++ us, st2)
  end.

Definition lex_from (st : lex_state) (s : string) : list token := (run st s).1 ++ flush (run st s).2.

Definition lex (s : string) : list token := lex_from Start s.

(** Each placeholder with its value: [$1] is the first of [params]. *)
Definition resolve1 (params : list value) (t : token) : token :=
  match t with
  | TParam n => match params !! (N.to_nat n - 1)%nat with Some v => TVal v | None => TBad end
  | t => t
  end.

Definition resolve (params : list value) : list token -> list token := map (resolve1 params).

(** ** Reading piece by piece *)

Lemma run_app st s t :
  run st (s +:+ t) = ((run st s).1 ++ (run (run st s).2 t).1, (run (run st s).2 t).2).
Proof.
  revert st. induction s as [|c s IH]; intros st; [rewrite append_nil; cbn; by destruct (run st t)|]. rewrite append_cons. cbn [run].
  destruct (step st c) as [ts st1]. rewrite IH. destruct (run st1 s) as [us st2]. cbn [fst snd].
  by rewrite app_assoc.
Qed.

Lemma lex_from_app st s t : lex_from st (s +:+ t) = (run st s).1 ++ lex_from (run st s).2 t.
Proof. unfold lex_from. rewrite run_app. cbn. by rewrite app_assoc. Qed.

Lemma lex_from_cons st c s : lex_from st (String c s) = (step st c).1 ++ lex_from (step st c).2 s.
Proof.
  unfold lex_from. cbn. destruct (step st c) as [ts st1]. cbn. destruct (run st1 s) as [us st2]. cbn.
  by rewrite app_assoc.
Qed.

Lemma lex_from_closed st t c s :
  step st c = close t c -> lex_from st (String c s) = t :: lex (String c s).
Proof. intros H. unfold lex. rewrite !lex_from_cons, H. done. Qed.

(** A constant text, up to the state after it. *)
Lemma lex_const st s ts st' t : run st s = (ts, st') -> lex_from st (s +:+ t) = ts ++ lex_from st' t.
Proof. intros H. by rewrite lex_from_app, H. Qed.

Lemma lex_start s ts t : run Start s = (ts, Start) -> lex (s +:+ t) = ts ++ lex t.
Proof. apply lex_const. Qed.

Lemma run_ident a s : run (InIdent a) (double quote s) = ([], InIdent (a +:+ s)).
Proof.
  revert a. induction s as [|c s IH]; intros a; cbn [double]; [by rewrite string_app_nil_r|].
  assert (Ea : a +:+ String c s = (a +:+ str c) +:+ s) by (by rewrite string_app_assoc). rewrite Ea.
  destruct (Ascii.eqb c quote) eqn:E.
  - apply Ascii.eqb_eq in E as ->. cbn [run step]. rewrite Ascii.eqb_refl. cbn [step]. rewrite Ascii.eqb_refl.
    by rewrite IH.
  - cbn [run step]. rewrite E. by rewrite IH.
Qed.

Lemma run_lit a s : run (InLit a) (double squote s) = ([], InLit (a +:+ s)).
Proof.
  revert a. induction s as [|c s IH]; intros a; cbn [double]; [by rewrite string_app_nil_r|].
  assert (Ea : a +:+ String c s = (a +:+ str c) +:+ s) by (by rewrite string_app_assoc). rewrite Ea.
  destruct (Ascii.eqb c squote) eqn:E.
  - apply Ascii.eqb_eq in E as ->. cbn [run step]. rewrite Ascii.eqb_refl. cbn [step]. rewrite Ascii.eqb_refl.
    by rewrite IH.
  - cbn [run step]. rewrite E. by rewrite IH.
Qed.

Lemma run_quoted_ident s : run Start (quoted quote s) = ([], IdentQuote s).
Proof.
  unfold quoted. cbn [run step]. change (start quote) with (@nil token, InIdent EmptyString).
  cbv beta iota. rewrite run_app, run_ident. reflexivity.
Qed.

Lemma run_quoted_lit s : run Start (quoted squote s) = ([], LitQuote s).
Proof.
  unfold quoted. cbn [run step]. change (start squote) with (@nil token, InLit EmptyString).
  cbv beta iota. rewrite run_app, run_lit. reflexivity.
Qed.

(** The text of a number, after a dollar sign. *)
Definition step_digit (n : N) (c : ascii) : N := (10 * n + Z.to_N (digit_value c))%N.

Lemma run_param n s :
  Forall (fun c => is_digit c = true) (explode s) -> run (InParam n) s = ([], InParam (fold_left step_digit (explode s) n)).
Proof.
  revert n. induction s as [|c s IH]; intros n; cbn [explode]; [done|]. intros [Hc Hs]%Forall_cons.
  cbn [run step]. rewrite Hc. by rewrite IH.
Qed.

Lemma fold_pretty x s :
  fold_left step_digit (explode (pretty_N_go x s)) 0%N = fold_left step_digit (explode s) x.
Proof.
  revert s. induction (N.lt_wf_0 x) as [x _ IH]; intros s. destruct (decide (0 < x)%N) as [Hx|Hx].
  - rewrite pretty_N_go_step by done. rewrite IH by (by apply N.div_lt). cbn [explode fold_left]. f_equal.
    unfold step_digit. assert (Hm := N.mod_lt x 10 ltac:(done)).
    assert (Hd : Z.to_N (digit_value (pretty_N_char (x mod 10))) = (x mod 10)%N).
    { assert (He : exists k, (k < 10)%nat /\ (x mod 10)%N = N.of_nat k) by (exists (N.to_nat (x mod 10)); lia).
      destruct He as (k & Hk & ->). do 10 (destruct k as [|k]; [reflexivity|]). lia. }
    rewrite Hd. rewrite (N.div_mod x 10) at 3 by done. lia.
  - assert (x = 0%N) as -> by lia. done.
Qed.

Lemma pretty_value (n : N) : fold_left step_digit (explode (pretty n)) 0%N = n.
Proof.
  unfold pretty, pretty_N. case_decide; [by subst|]. apply fold_pretty.
Qed.

Lemma run_placeholder (n : N) : run Start ("$" +:+ pretty n) = ([], InParam n).
Proof.
  assert (Hd := pretty_N_digits n). assert (Hv := pretty_value n). assert (Hne : pretty n <> EmptyString).
  { unfold pretty, pretty_N. case_decide; [done|]. intros E. apply (f_equal (fun s => fold_left step_digit (explode s) 0%N)) in E.
    rewrite fold_pretty in E. cbn in E. done. }
  destruct (pretty n) as [|c s]; [done|]. cbn [explode] in Hd, Hv. apply Forall_cons in Hd as [Hc Hs].
  change ("$" +:+ String c s) with (String "$" (String c s)). cbn [run step]. change (start "$") with (@nil token, InDollar).
  cbv beta iota. cbn [run step]. rewrite Hc. rewrite run_param by done. cbn [fold_left] in Hv.
  unfold step_digit at 2 in Hv. rewrite N.mul_0_r, N.add_0_l in Hv. by rewrite Hv.
Qed.

(** ** Texts that end where a separator follows *)

Definition is_sep (c : ascii) : bool := existsb (Ascii.eqb c) (String.list_ascii_of_string " ,)" ++ [newline]).

(** [reads s ts]: the text [s] has the tokens [ts], and none of them goes on behind a
    separator. *)
Definition reads (s : string) (ts : list token) : Prop :=
  lex s = ts /\ forall c t, is_sep c = true -> lex (s +:+ String c t) = ts ++ lex (String c t).

Definition closes (t : token) (st : lex_state) : Prop :=
  flush st = [t] /\ forall c, is_sep c = true -> step st c = close t c.

Lemma reads_run s ts t st : run Start s = (ts, st) -> closes t st -> reads s (ts ++ [t]).
Proof.
  intros Hr [Hf Hc]. split; [unfold lex, lex_from; by rewrite Hr, <- Hf|]. intros c u Hs.
  unfold lex. rewrite (lex_const _ _ _ _ _ Hr), (lex_from_closed _ _ _ _ (Hc c Hs)), <- app_assoc. done.
Qed.

Lemma sep_cases (P : ascii -> Prop) : P " "%char -> P ","%char -> P ")"%char -> P newline -> forall c, is_sep c = true -> P c.
Proof.
  intros H1 H2 H3 H4 c. unfold is_sep. cbn [app existsb String.list_ascii_of_string].
  intros [->%Ascii.eqb_eq|[->%Ascii.eqb_eq|[->%Ascii.eqb_eq|[->%Ascii.eqb_eq|[=]]%orb_prop]%orb_prop]%orb_prop]%orb_prop; done.
Qed.

Lemma closes_ident a : closes (TIdent a) (IdentQuote a).
Proof. split; [done|]. by apply sep_cases. Qed.
Lemma closes_lit a : closes (TLit a) (LitQuote a).
Proof. split; [done|]. by apply sep_cases. Qed.
Lemma closes_word a : closes (TWord a) (InWord a).
Proof. split; [done|]. by apply sep_cases. Qed.
Lemma closes_num a : closes (TNum a) (InNum a).
Proof. split; [done|]. by apply sep_cases. Qed.
Lemma closes_param n : closes (TParam n) (InParam n).
Proof. split; [done|]. by apply sep_cases. Qed.

Lemma reads_ident s : reads (quoted quote s) [TIdent s].
Proof. apply (reads_run _ [] _ _ (run_quoted_ident s)), closes_ident. Qed.

Lemma reads_lit s : reads (quoted squote s) [TLit s].
Proof. apply (reads_run _ [] _ _ (run_quoted_lit s)), closes_lit. Qed.

Lemma reads_param n : reads ("$" +:+ pretty n) [TParam n].
Proof. apply (reads_run _ [] _ _ (run_placeholder n)), closes_param. Qed.

(** What stands before, when it leaves the machine at its start. *)
Lemma reads_before p ps s ts : run Start p = (ps, Start) -> reads s ts -> reads (p +:+ s) (ps ++ ts).
Proof.
  intros Hp [H1 H2]. split; [unfold lex; rewrite (lex_const _ _ _ _ _ Hp); by f_equal|].
  intros c t Hc. rewrite string_app_assoc. unfold lex. rewrite (lex_const _ _ _ _ _ Hp), <- app_assoc. f_equal. by apply H2.
Qed.

(** What stands behind, from a separator on. *)
Lemma reads_behind s ts c t us : is_sep c = true -> reads s ts -> reads (String c t) us -> reads (s +:+ String c t) (ts ++ us).
Proof.
  intros Hc [H1 H2] [H3 H4]. split; [rewrite H2 by done; by f_equal|]. intros d u Hd.
  rewrite string_app_assoc. change (String c t +:+ String d u) with (String c (t +:+ String d u)).
  rewrite H2 by done. rewrite <- app_assoc. f_equal. by apply (H4 d u).
Qed.

(** An identifier before a dot. *)
Lemma reads_dot a s ts : reads s ts -> reads (quoted quote a +:+ "." +:+ s) (TIdent a :: TSym "." :: ts).
Proof.
  intros H. rewrite <- string_app_assoc. apply (reads_before _ [TIdent a; TSym "."]); [|done].
  rewrite run_app, run_quoted_ident. reflexivity.
Qed.

(** Two texts with something between them that starts with a separator. *)
Lemma reads_sep s ts mid ms c m t us :
  mid = String c m -> is_sep c = true -> run Start mid = (ms, Start) ->
  reads s ts -> reads t us -> reads (s +:+ mid +:+ t) (ts ++ ms ++ us).
Proof.
  intros E Hc Hm Hs Ht. assert (H : reads (mid +:+ t) (ms ++ us)) by by apply reads_before.
  subst mid. rewrite append_cons in *. by apply reads_behind.
Qed.

(** A list of texts, joined. *)
Fixpoint joined (sep : list token) (l : list (list token)) : list token :=
  match l with
  | [] => []
  | [ts] => ts
  | ts :: l => ts ++ sep ++ joined sep l
  end.

Lemma reads_join sep ss c m l tss :
  sep = String c m -> is_sep c = true -> run Start sep = (ss, Start) ->
  l <> [] -> Forall2 reads l tss -> reads (JsString.join sep l) (joined ss tss).
Proof.
  intros E Hc Hs Hl H. induction H as [|s ts l tss Hr Hall IH]; [done|].
  destruct Hall as [|s2 ts2 l tss Hr2 Hall]; [done|]. rewrite join_cons by done.
  change (joined ss (ts :: ts2 :: tss)) with (ts ++ ss ++ joined ss (ts2 :: tss)).
  eapply reads_sep; [exact E|done..|]. by apply IH.
Qed.

(** A constant text at the end. *)
Lemma reads_end s ts t us c m :
  t = String c m -> is_sep c = true -> run Start t = (us, Start) -> reads s ts -> reads (s +:+ t) (ts ++ us).
Proof.
  intros E Hc Ht Hs. subst t. apply reads_behind; [done..|].
  split; [unfold lex, lex_from; by rewrite Ht, app_nil_r|]. intros d u Hd. unfold lex. by rewrite (lex_const _ _ _ _ _ Ht).
Qed.

(** ** Literals *)

(** The two ways of quoting can be read back, whatever the text holds. *)
Theorem quoting_roundtrip s :
  lex (quoted quote s) = [TIdent s] /\ lex (quoted squote s) = [TLit s].
Proof. split; [apply reads_ident|apply reads_lit]. Qed.
