(* ===== verification/OntologyCatalog.v ===== *)
(** * The ontology service: the catalogue

    The tables ontology.entities, ontology.fields, ontology.relationships and
    ontology.migrations with the constraints of
    services/ontology/src/db/migrations/001_initial_schema.sql, and the statements of
    entity-repository.ts, field-repository.ts, relationship-repository.ts and
    migration-repository.ts on them.  The rows of a table stand in the order of their insertion. *)

From S2P Require Import Prelude JsString JsValue SqlTable PgIdentifier.
From stdpp Require Import strings.

(** ** Rows *)

Record EntityRow : Type := {
  e_id : string;
  e_tenant : string;
  e_name : string;
  e_slug : string;
  e_version : Z;
  e_description : option string;
  e_is_public : bool;
  e_deleted_at : option Z
}.

Inductive rule_type : Type := RMin | RMax | RMinLength | RMaxLength | RPattern | REmail | RUrl.

#[export] Instance rule_type_eq_dec : EqDecision rule_type.
Proof. solve_decision. Defined.

(** The value of a rule is a number or, for a pattern, a text. *)
Record ValidationRule : Type := { r_type : rule_type; r_value : value; r_message : option string }.

Record FieldRow : Type := {
  f_id : string;
  f_entity : string;
  f_tenant : string;
  f_name : string;
  f_slug : string;
  f_type : string;
  f_required : bool;
  f_nullable : bool;
  f_default : option value;                (* [None] is SQL's NULL, [Some VNull] JSON's *)
  f_rules : list ValidationRule;
  f_enum_values : option (list string);
  f_array_item_type : option string;
  f_ref_entity : option string;
  f_indexed : bool;
  f_unique : bool;
  f_sort_order : Z;
  f_system : bool;
  f_deleted_at : option Z
}.

Inductive migration_status : Type := MPending | MConfirmed | MRunning | MComplete | MFailed | MRolledBack.

#[export] Instance migration_status_eq_dec : EqDecision migration_status.
Proof. solve_decision. Defined.

(** An entry of the list of fields in a plan of change; [None] is an absent property. *)
Record PlanField : Type := {
  pf_slug : string;
  pf_isNew : bool;
  pf_default : option string;
  pf_isRemoved : bool
}.

Record MigrationRow : Type := {
  m_id : string;
  m_tenant : string;
  m_entity : string;
  m_from : Z;
  m_to : Z;
  m_change_type : string;
  m_fields : option (list PlanField);      (* [change_plan.fields] *)
  m_status : migration_status;
  m_view : option string;
  m_confirmed_by : option string;
  m_created_at : Z
}.

Inductive relationship_type : Type := OneToOne | OneToMany | ManyToMany.

#[export] Instance relationship_type_eq_dec : EqDecision relationship_type.
Proof. solve_decision. Defined.

Record RelationshipRow : Type := {
  l_id : string;
  l_tenant : string;
  l_from : string;
  l_to : string;
  l_type : relationship_type;
  l_from_field : string;
  l_to_field : option string;
  l_join : option string;
  l_cascade : bool
}.

Record catalog : Type := {
  entities : list EntityRow; fields : list FieldRow; relationships : list RelationshipRow; migrations : list MigrationRow
}.

Definition with_entities (l : list EntityRow) (c : catalog) : catalog :=
  {| entities := l; fields := fields c; relationships := relationships c; migrations := migrations c |}.
Definition with_fields (l : list FieldRow) (c : catalog) : catalog :=
  {| entities := entities c; fields := l; relationships := relationships c; migrations := migrations c |}.
Definition with_relationships (l : list RelationshipRow) (c : catalog) : catalog :=
  {| entities := entities c; fields := fields c; relationships := l; migrations := migrations c |}.
Definition with_migrations (l : list MigrationRow) (c : catalog) : catalog :=
  {| entities := entities c; fields := fields c; relationships := relationships c; migrations := l |}.

Definition live {A} (deleted : A -> option Z) (r : A) : bool := match deleted r with None => true | Some _ => false end.

(** ** Constraints *)

Definition violated (name : string) : ontology_error := DatabaseError name.

Definition name_length (name : string) : bool := (1 <=? String.length name)%nat && (String.length name <=? 64)%nat.

Definition insert_entity (r : EntityRow) (c : catalog) : result ontology_error catalog :=
  if negb (PG_IDENTIFIER_REGEX (e_slug r)) then Err (violated "chk_entity_slug")
  else if negb (name_length (e_name r)) then Err (violated "chk_entity_name_length")
  else if existsb (fun x => String.eqb (e_tenant x) (e_tenant r) && String.eqb (e_slug x) (e_slug r)) (entities c)
  then Err (violated "uq_entity_tenant_slug")
  else Ok (with_entities (entities c ++ [r]) c).

Definition field_types : list string := ["string"; "number"; "boolean"; "date"; "json"; "reference"; "enum"; "array"].

Definition is_some {A} (o : option A) : bool := match o with Some _ => true | None => false end.

(** The key that a foreign key refers to. *)
Definition has_entity (id : string) (c : catalog) : bool := existsb (fun e => String.eqb (e_id e) id) (entities c).

Definition insert_field (r : FieldRow) (c : catalog) : result ontology_error catalog :=
  if negb (PG_IDENTIFIER_REGEX (f_slug r)) then Err (violated "chk_field_slug")
  else if negb (name_length (f_name r)) then Err (violated "chk_field_name_length")
  else if negb (mem (f_type r) field_types) then Err (violated "chk_field_type")
  else if String.eqb (f_type r) "enum" && negb (match f_enum_values r with Some (_ :: _) => true | _ => false end)
  then Err (violated "chk_enum_values")
  else if String.eqb (f_type r) "array" && negb (is_some (f_array_item_type r)) then Err (violated "chk_array_item_type")
  else if String.eqb (f_type r) "reference" && negb (is_some (f_ref_entity r)) then Err (violated "chk_ref_entity")
  else if f_required r && f_nullable r && negb (is_some (f_default r)) then Err (violated "chk_required_not_nullable")
  else if existsb (fun x => String.eqb (f_entity x) (f_entity r) && String.eqb (f_slug x) (f_slug r)) (fields c)
  then Err (violated "uq_field_entity_slug")
  else if negb (has_entity (f_entity r) c) then Err (violated "fields_entity_id_fkey")
  else if negb (match f_ref_entity r with Some id => has_entity id c | None => true end)
  then Err (violated "fields_ref_entity_id_fkey")
  else Ok (with_fields (fields c ++ [r]) c).

Definition insert_relationship (r : RelationshipRow) (c : catalog) : result ontology_error catalog :=
  if bool_decide (l_type r = ManyToMany) && negb (is_some (l_join r)) then Err (violated "chk_mn_join_table")
  else if String.eqb (l_from r) (l_to r) then Err (violated "chk_no_self_ref")
  else if existsb (fun x => String.eqb (l_from x) (l_from r) && String.eqb (l_from_field x) (l_from_field r)) (relationships c)
  then Err (violated "uq_relationship")
  else if negb (has_entity (l_from r) c) then Err (violated "relationships_from_entity_id_fkey")
  else if negb (has_entity (l_to r) c) then Err (violated "relationships_to_entity_id_fkey")
  else Ok (with_relationships (relationships c ++ [r]) c).

Definition change_types : list string :=
  ["add_field"; "remove_field"; "rename_field"; "change_field_type"; "add_entity"; "remove_entity";
   "add_relationship"; "remove_relationship"; "change_validation"; "compound"].

Definition insert_migration (r : MigrationRow) (c : catalog) : result ontology_error catalog :=
  if negb (mem (m_change_type r) change_types) then Err (violated "chk_migration_change_type")
  else if negb (has_entity (m_entity r) c) then Err (violated "migrations_entity_id_fkey")
  else Ok (with_migrations (migrations c ++ [r]) c).

(** ** Queries *)

Definition entity_findBySlug (tenantId slug : string) (c : catalog) : option EntityRow :=
  find_row (fun r => String.eqb (e_tenant r) tenantId && String.eqb (e_slug r) slug && live e_deleted_at r) (entities c).

Definition entity_findById (tenantId id : string) (c : catalog) : option EntityRow :=
  find_row (fun r => String.eqb (e_tenant r) tenantId && String.eqb (e_id r) id && live e_deleted_at r) (entities c).

(** [ORDER BY sort_order, created_at] *)
Definition findByEntityId (entityId : string) (c : catalog) : list FieldRow :=
  order_by (fun a b => f_sort_order a <? f_sort_order b)%Z
    (List.filter (fun r => String.eqb (f_entity r) entityId && live f_deleted_at r) (fields c)).

Definition active_status (s : migration_status) : bool :=
  match s with MPending | MConfirmed | MRunning => true | _ => false end.

Definition migration_findById (id : string) (c : catalog) : option MigrationRow :=
  find_row (fun r => String.eqb (m_id r) id) (migrations c).

(** [ORDER BY created_at DESC LIMIT 1] *)
Definition findActiveByEntityId (entityId : string) (c : catalog) : option MigrationRow :=
  head (order_by (fun a b => m_created_at b <? m_created_at a)%Z
    (List.filter (fun r => String.eqb (m_entity r) entityId && active_status (m_status r)) (migrations c))).

(** ** Statements *)

Definition bumpVersion (id : string) (c : catalog) : catalog :=
  with_entities (update_where (fun r => String.eqb (e_id r) id && live e_deleted_at r)
    (fun r => {| e_id := e_id r; e_tenant := e_tenant r; e_name := e_name r; e_slug := e_slug r; e_version := e_version r + 1;
                 e_description := e_description r; e_is_public := e_is_public r; e_deleted_at := e_deleted_at r |}) (entities c)) c.

Definition set_status (s : migration_status) (view by_ : option string) (r : MigrationRow) : MigrationRow :=
  {| m_id := m_id r; m_tenant := m_tenant r; m_entity := m_entity r; m_from := m_from r; m_to := m_to r;
     m_change_type := m_change_type r; m_fields := m_fields r; m_status := s; m_view := view; m_confirmed_by := by_;
     m_created_at := m_created_at r |}.

Definition update_migration (p : MigrationRow -> bool) (f : MigrationRow -> MigrationRow) (c : catalog) : catalog :=
  with_migrations (update_where p f (migrations c)) c.

Definition in_state (id : string) (s : migration_status) (r : MigrationRow) : bool :=
  String.eqb (m_id r) id && bool_decide (m_status r = s).

(** [RETURNING *]: whether a row was changed. *)
Definition setConfirmed (id userId : string) (c : catalog) : bool * catalog :=
  (existsb (in_state id MPending) (migrations c),
   update_migration (in_state id MPending) (fun r => set_status MConfirmed (m_view r) (Some userId) r) c).

Definition setRunning (id view : string) (c : catalog) : catalog :=
  update_migration (in_state id MConfirmed) (fun r => set_status MRunning (Some view) (m_confirmed_by r) r) c.

Definition setComplete (id : string) (c : catalog) : catalog :=
  update_migration (in_state id MRunning) (fun r => set_status MComplete (m_view r) (m_confirmed_by r) r) c.

Definition setFailed (id : string) (c : catalog) : catalog :=
  update_migration (fun r => String.eqb (m_id r) id) (fun r => set_status MFailed (m_view r) (m_confirmed_by r) r) c.

Definition setRolledBack (id : string) (c : catalog) : catalog :=
  update_migration (fun r => String.eqb (m_id r) id) (fun r => set_status MRolledBack (m_view r) (m_confirmed_by r) r) c.

(** At the start of the service: a migration that was running has failed. *)
Definition healStuckMigrations (c : catalog) : catalog :=
  update_migration (fun r => bool_decide (m_status r = MRunning)) (fun r => set_status MFailed (m_view r) (m_confirmed_by r) r) c.

(** ** What the constraints keep *)

(** Every slug of the catalogue is a valid identifier. *)
Definition catalog_ok (c : catalog) : Prop :=
  Forall (fun e => PG_IDENTIFIER_REGEX (e_slug e) = true) (entities c) /\
  Forall (fun f => PG_IDENTIFIER_REGEX (f_slug f) = true) (fields c).

Lemma insert_entity_ok r c c' : catalog_ok c -> insert_entity r c = Ok c' -> catalog_ok c'.
Proof.
  intros [He Hf]. unfold insert_entity. case_matches. intros [= <-]. split; [|done]. cbn.
  apply Forall_app. split; [done|]. constructor; [|done]. by destruct (PG_IDENTIFIER_REGEX (e_slug r)).
Qed.

Lemma insert_field_ok r c c' : catalog_ok c -> insert_field r c = Ok c' -> catalog_ok c'.
Proof.
  intros [He Hf]. unfold insert_field. destruct (PG_IDENTIFIER_REGEX (f_slug r)) eqn:E; [|done]. cbn [negb].
  repeat (match goal with |- context [if ?b then _ else _] => destruct b end; [done|]). intros [= <-]. split; [done|].
  apply Forall_app. split; [done|]. by constructor.
Qed.

Lemma entity_findBySlug_spec t s c e :
  entity_findBySlug t s c = Some e -> e ∈ entities c /\ e_tenant e = t /\ e_slug e = s.
Proof.
  intros [He Hp]%find_row_spec. rewrite !andb_true_iff, !String.eqb_eq in Hp. tauto.
Qed.

Lemma elem_of_findByEntityId id c f :
  f ∈ findByEntityId id c <-> f ∈ fields c /\ f_entity f = id /\ f_deleted_at f = None.
Proof.
  unfold findByEntityId. rewrite order_by_perm, elem_of_bfilter, andb_true_iff, String.eqb_eq. unfold live.
  destruct (f_deleted_at f); naive_solver.
Qed.
