(* ===== verification/DdlBuilder.v ===== *)
(** * The ontology service: data definition

    services/ontology/src/utils/ddl-builder.ts and field-type-to-pg.ts: the statements that
    create and change the tables of a tenant, and the view that a migration reads
    through.  The second half states what the statements say. *)

From S2P Require Import Prelude JsString JsNumber JsValue JsHost PgIdentifier OntologyCatalog.
From Stdlib Require Import Ascii.
From stdpp Require Import strings pretty.

(** [Record<FieldType, string>]; the types are checked by the schemas. *)
Definition FIELD_TYPE_MAP : jmap string string :=
  [("string", "TEXT"); ("number", "NUMERIC(19, 4)"); ("boolean", "BOOLEAN"); ("date", "TIMESTAMPTZ"); ("json", "JSONB");
   ("reference", "UUID"); ("enum", "TEXT"); ("array", "JSONB")].

Definition fieldTypeToPostgres (fieldType : string) : string := default "undefined" (jm_get fieldType FIELD_TYPE_MAP).

Record FieldDDLSpec : Type := {
  d_slug : string;
  d_type : string;
  d_required : bool;
  d_nullable : bool;
  d_default : value;
  d_unique : bool;
  d_enum_values : list string;               (* [] when absent *)
  d_ref : option string
}.

(** [CREATE TABLE ...] and its kin, from their parts. *)
Definition table_name (schema entity : string) : result ontology_error string :=
  s ← quotePgIdentifier schema; e ← quotePgIdentifier entity; Ok (s +:+ "." +:+ e).

Definition escapeSqlString (val : string) : string := quoted squote val.

(** [Number(value)] *)
Definition to_number (v : value) : option number :=
  match v with
  | VUndef | VFun _ => Some NaN
  | VNull => Some (num_of_Z 0)
  | VBool b => Some (num_of_Z (if b then 1 else 0))
  | VNum n => Some n
  | VStr s => Some (num_of_string s)
  | VArr _ _ | VObj _ _ => num_of_string <$> to_string v
  end.

Definition formatDefaultValue (v : value) (fieldType : string) : result ontology_error string :=
  if String.eqb fieldType "json" || String.eqb fieldType "array" then
    text ← or_throw TypeError (json_stringify v); Ok (escapeSqlString text +:+ "::jsonb")
  else if String.eqb fieldType "boolean" then Ok (if to_boolean v then "true" else "false")
  else if String.eqb fieldType "number" then
    num ← or_throw TypeError (to_number v);
    if is_finite num then Ok (num_to_string num)
    else text ← or_throw TypeError (to_string v); Err (PlainError ("Invalid number default value: " +:+ text))
  else text ← or_throw TypeError (to_string v); Ok (escapeSqlString text).

Definition enum_list (vals : list string) : string := JsString.join ", " (map escapeSqlString vals).

Definition buildColumnDef (field : FieldDDLSpec) (schema : string) : result ontology_error string :=
  col ← quotePgIdentifier (d_slug field);
  ref ← match d_ref field with
    | Some (String _ _ as r) =>
        if String.eqb (d_type field) "reference" then
          refTable ← table_name schema r; Ok ["REFERENCES " +:+ refTable +:+ "(" +:+ quoted quote "_id" +:+ ")"]
        else Ok []
    | _ => Ok []
    end;
  dflt ← (if is_nullish (d_default field) then Ok []
          else text ← formatDefaultValue (d_default field) (d_type field); Ok ["DEFAULT " +:+ text]);
  Ok (JsString.join " "
    (["  " +:+ col; fieldTypeToPostgres (d_type field)] ++ ref ++ (if d_nullable field then [] else ["NOT NULL"]) ++
     (if d_unique field then ["UNIQUE"] else []) ++ dflt ++
     match d_enum_values field with
     | [] => []
     | vals => if String.eqb (d_type field) "enum" then ["CHECK (" +:+ col +:+ " IN (" +:+ enum_list vals +:+ "))"] else []
     end)).

(** The columns that every table has, with their definitions. *)
Definition systemColumns : list string :=
  ["  " +:+ quoted quote "_id" +:+ "           UUID        PRIMARY KEY DEFAULT gen_random_uuid()";
   "  " +:+ quoted quote "_ingested_by" +:+ "  UUID";
   "  " +:+ quoted quote "_created_at" +:+ "   TIMESTAMPTZ NOT NULL DEFAULT now()";
   "  " +:+ quoted quote "_updated_at" +:+ "   TIMESTAMPTZ NOT NULL DEFAULT now()";
   "  " +:+ quoted quote "_version" +:+ "      INTEGER     NOT NULL DEFAULT 1";
   "  " +:+ quoted quote "_source_id" +:+ "    TEXT"].

Definition buildCreateTableDDL (schema entity : string) (fs : list FieldDDLSpec) : result ontology_error string :=
  table ← table_name schema entity;
  userColumns ← traverse (fun f => buildColumnDef f schema) fs;
  Ok ("CREATE TABLE " +:+ table +:+ " (" +:+ str newline +:+ JsString.join ("," +:+ str newline) (systemColumns ++ userColumns) +:+
      str newline +:+ ")").

(** [/^[a-f0-9]+$/] *)
Definition hex_text (s : string) : bool :=
  negb (String.eqb s EmptyString) && forallb (fun c => is_digit c || code_in 97 102 c) (explode s).

Definition statement_sep : string := ";" +:+ str newline.

Definition buildRlsDDL (schema entity tenantId : string) : result ontology_error string :=
  table ← table_name schema entity;
  policyName ← quotePgIdentifier ("tenant_isolation_" +:+ entity);
  let tenantSafe := remove_hyphens tenantId in
  if negb (hex_text tenantSafe) then Err (PlainError ("Invalid tenant ID for RLS policy: " +:+ str quote +:+ tenantId +:+ str quote))
  else Ok (JsString.join statement_sep
    ["ALTER TABLE " +:+ table +:+ " ENABLE ROW LEVEL SECURITY";
     "CREATE POLICY " +:+ policyName +:+ " ON " +:+ table +:+ " USING (current_setting('app.tenant_id') = '" +:+ tenantSafe +:+ "')"]).

Definition buildAddColumnDDL (schema entity : string) (field : FieldDDLSpec) : result ontology_error string :=
  table ← table_name schema entity;
  col ← quotePgIdentifier (d_slug field);
  dflt ← (if is_nullish (d_default field) then Ok EmptyString
          else text ← formatDefaultValue (d_default field) (d_type field); Ok (" DEFAULT " +:+ text));
  let first := "ALTER TABLE " +:+ table +:+ " ADD COLUMN " +:+ col +:+ " " +:+ fieldTypeToPostgres (d_type field) +:+
    (if d_nullable field then EmptyString else " NOT NULL") +:+ dflt in
  unique ← (if d_unique field then
      name ← quotePgIdentifier ("uq_" +:+ entity +:+ "_" +:+ d_slug field);
      Ok ["ALTER TABLE " +:+ table +:+ " ADD CONSTRAINT " +:+ name +:+ " UNIQUE (" +:+ col +:+ ")"]
    else Ok []);
  check ← match d_enum_values field with
    | [] => Ok []
    | vals =>
        if String.eqb (d_type field) "enum" then
          name ← quotePgIdentifier ("chk_" +:+ entity +:+ "_" +:+ d_slug field +:+ "_enum");
          Ok ["ALTER TABLE " +:+ table +:+ " ADD CONSTRAINT " +:+ name +:+ " CHECK (" +:+ col +:+ " IN (" +:+ enum_list vals +:+ "))"]
        else Ok []
    end;
  Ok (JsString.join statement_sep ([first] ++ unique ++ check)).

Definition buildDropColumnDDL (schema entity field : string) : result ontology_error string :=
  table ← table_name schema entity; col ← quotePgIdentifier field;
  Ok ("ALTER TABLE " +:+ table +:+ " DROP COLUMN IF EXISTS " +:+ col).

Definition buildCreateIndexDDL (schema entity field : string) (concurrent gin : bool) : result ontology_error string :=
  table ← table_name schema entity;
  indexName ← quotePgIdentifier ("idx_" +:+ entity +:+ "_" +:+ field);
  col ← quotePgIdentifier field;
  let start := "CREATE INDEX" +:+ (if concurrent then " CONCURRENTLY" else EmptyString) +:+ " IF NOT EXISTS " +:+ indexName +:+ " ON " +:+ table in
  Ok (if gin then start +:+ " USING GIN (" +:+ col +:+ " jsonb_path_ops)" else start +:+ " (" +:+ col +:+ ")").

Definition buildJoinTableDDL (schema from to name : string) (cascadeDelete : bool) : result ontology_error string :=
  table ← table_name schema name;
  fromTable ← table_name schema from;
  toTable ← table_name schema to;
  fromCol ← quotePgIdentifier (from +:+ "_id");
  toCol ← quotePgIdentifier (to +:+ "_id");
  let deleteAction := if cascadeDelete then "ON DELETE CASCADE" else "ON DELETE RESTRICT" in
  let nl := str newline in
  Ok ("CREATE TABLE " +:+ table +:+ " (" +:+ nl +:+
      "  " +:+ fromCol +:+ " UUID NOT NULL REFERENCES " +:+ fromTable +:+ "(" +:+ quoted quote "_id" +:+ ") " +:+ deleteAction +:+ "," +:+ nl +:+
      "  " +:+ toCol +:+ "   UUID NOT NULL REFERENCES " +:+ toTable +:+ "(" +:+ quoted quote "_id" +:+ ")   " +:+ deleteAction +:+ "," +:+ nl +:+
      "  " +:+ quoted quote "created_at" +:+ " TIMESTAMPTZ NOT NULL DEFAULT now()," +:+ nl +:+
      "  PRIMARY KEY (" +:+ fromCol +:+ ", " +:+ toCol +:+ ")" +:+ nl +:+ ")").

(** [[from, to].sort()] compares code units. *)
Definition deriveJoinTableName (from to : string) : string :=
  match lex_compare (explode from) (explode to) with
  | Gt => to +:+ "_" +:+ from
  | _ => from +:+ "_" +:+ to
  end.

(** ** The view of a migration *)

(** The pattern of a string literal, behind its first quote: quotes inside come in pairs. *)
Fixpoint literal_body (l : list ascii) : bool :=
  match l with
  | [] => false
  | c :: l =>
      if Ascii.eqb c squote then
        match l with
        | [] => true
        | d :: l => Ascii.eqb d squote && literal_body l
        end
      else literal_body l
  end.

Definition string_literal (expr : string) : bool :=
  match explode expr with c :: l => Ascii.eqb c squote && literal_body l | [] => false end.

(** Nothing, or a point and digits. *)
Definition fraction (l : list ascii) : bool :=
  match l with
  | [] => true
  | c :: l => Ascii.eqb c "." && negb (bool_decide (l = [])) && forallb is_digit l
  end.

(** [0] or digits that do not start with it, then a fraction. *)
Definition unsigned_literal (l : list ascii) : bool :=
  match l with
  | [] => false
  | c :: l => if Ascii.eqb c "0" then fraction l else is_digit c && fraction (span is_digit l).2
  end.

Definition numeric_literal (expr : string) : bool :=
  match explode expr with
  | c :: l => if Ascii.eqb c "-" then unsigned_literal l else unsigned_literal (c :: l)
  | [] => false
  end.

Definition validateDefaultExpression (expr : string) : result ontology_error unit :=
  if mem expr ["NULL"; "TRUE"; "FALSE"] || string_literal expr || numeric_literal expr then Ok tt
  else Err (PlainError ("Invalid defaultExpression in change_plan: " +:+ str quote +:+ expr +:+ str quote +:+
    ". Must be NULL, TRUE, FALSE, a single-quoted string literal, or a finite numeric literal.")).

Definition buildUnionViewName (entity migrationId : string) : string :=
  "v_" +:+ entity +:+ "_migration_" +:+ implode (take 12 (explode (remove_hyphens migrationId))).

Definition viewColumns : list string := ["_id"; "_created_at"; "_updated_at"; "_version"; "_source_id"; "_ingested_by"].

(** [f.isNew && f.defaultExpression !== undefined && f.defaultExpression !== "NULL"] *)
Definition discriminates (f : PlanField) : bool :=
  pf_isNew f && match pf_default f with Some e => negb (String.eqb e "NULL") | None => false end.

Definition quote_slug (f : PlanField) : result ontology_error string := quotePgIdentifier (pf_slug f).

(** A field in the single selection. *)
Definition coalesced_field (f : PlanField) : result ontology_error string :=
  q ← quote_slug f;
  match pf_default f with
  | Some (String _ _ as e) =>
      if pf_isNew f && negb (String.eqb e "NULL") then Ok ("COALESCE(" +:+ q +:+ ", " +:+ e +:+ ") AS " +:+ q) else Ok q
  | _ => Ok q
  end.

(** A field in the selection of the rows from before the migration. *)
Definition unmigrated_field (f : PlanField) : result ontology_error string :=
  q ← quote_slug f;
  Ok (if pf_isNew f then default "NULL" (pf_default f) +:+ " AS " +:+ q else q).

Definition check_defaults (fs : list PlanField) : result ontology_error (list unit) :=
  traverse (fun f => match pf_default f with Some e => validateDefaultExpression e | None => Ok tt end) fs.

Definition buildUnionViewDDL (schema entity migrationId : string) (fs : list PlanField) : result ontology_error string :=
  table ← table_name schema entity;
  qualifiedView ← table_name schema (buildUnionViewName entity migrationId);
  let systemSelect := JsString.join ", " (map (quoted quote) viewColumns) in
  _ ← check_defaults fs;
  let activeFields := List.filter (fun f => negb (pf_isRemoved f)) fs in
  let nl := str newline in
  match List.find discriminates fs with
  | None =>
      fieldList ← traverse coalesced_field activeFields;
      Ok ("CREATE VIEW " +:+ qualifiedView +:+ " AS" +:+ nl +:+ "  SELECT " +:+ systemSelect +:+ ", " +:+ JsString.join ", " fieldList +:+ nl +:+
          "  FROM " +:+ table)
  | Some d =>
      migrated ← traverse quote_slug activeFields;
      unmigrated ← traverse unmigrated_field activeFields;
      disc ← quote_slug d;
      Ok ("CREATE VIEW " +:+ qualifiedView +:+ " AS" +:+ nl +:+
          "  SELECT " +:+ systemSelect +:+ ", " +:+ JsString.join ", " migrated +:+ nl +:+ "  FROM " +:+ table +:+ nl +:+
          "  WHERE " +:+ disc +:+ " IS NOT NULL" +:+ nl +:+ "UNION ALL" +:+ nl +:+
          "  SELECT " +:+ systemSelect +:+ ", " +:+ JsString.join ", " unmigrated +:+ nl +:+ "  FROM " +:+ table +:+ nl +:+
          "  WHERE " +:+ disc +:+ " IS NULL")
  end.

Definition buildDropViewDDL (schema view : string) : result ontology_error string :=
  v ← table_name schema view; Ok ("DROP VIEW IF EXISTS " +:+ v).

(** ** Data definition: what the statements say

    The default expressions that a plan of change may hold are constants, and the view of
    a migration, read as SQL, splits the rows of the table in two. *)

(** ** Constants *)

Inductive constant_tokens : list token -> Prop :=
| const_word s : s ∈ ["NULL"; "TRUE"; "FALSE"] -> constant_tokens [TWord s]
| const_lit s : constant_tokens [TLit s]
| const_num s : constant_tokens [TNum s]
| const_minus s : constant_tokens [TOp "-"; TNum s].

Lemma literal_body_quoted n : forall l, (length l <= n)%nat -> literal_body l = true ->
  exists s, l = explode (double squote s +:+ str squote).
Proof.
  induction n as [|n IH]; intros [|c l] Hn H; try done; [cbn in Hn; lia|]. cbn [literal_body length] in *.
  destruct (Ascii.eqb c squote) eqn:E.
  - apply Ascii.eqb_eq in E as ->. destruct l as [|d l]; [by exists EmptyString|]. apply andb_true_iff in H as [Hd%Ascii.eqb_eq Hl]. subst d.
    destruct (IH l) as [s ->]; [cbn in Hn; lia|done|]. exists (String squote s). cbn [double]. by rewrite Ascii.eqb_refl.
  - destruct (IH l) as [s ->]; [lia|done|]. exists (String c s). cbn [double]. by rewrite E.
Qed.

Lemma string_literal_quoted e : string_literal e = true <-> exists s, e = quoted squote s.
Proof.
  unfold string_literal, quoted. split.
  - destruct (explode e) as [|c l] eqn:E; [done|]. intros [->%Ascii.eqb_eq Hl]%andb_true_iff.
    destruct (literal_body_quoted (length l) l) as [s Hs]; [done..|]. exists s. apply explode_inj. rewrite E, Hs. done.
  - intros [s ->]. cbn [explode]. rewrite Ascii.eqb_refl. cbn [andb]. induction s as [|c s IH]; [done|]. cbn [double].
    destruct (Ascii.eqb c squote) eqn:E; rewrite ?append_cons; cbn [explode literal_body]; rewrite ?Ascii.eqb_refl, ?E; exact IH.
Qed.

Lemma run_num a s : Forall (fun c => is_digit c = true \/ c = "."%char) (explode s) -> run (InNum a) s = ([], InNum (a +:+ s)).
Proof.
  revert a. induction s as [|c s IH]; intros a; cbn [explode]; [by rewrite string_app_nil_r|]. intros [Hc Hs]%Forall_cons.
  cbn [run step]. assert (is_digit c || Ascii.eqb c "." = true) as -> by (destruct Hc as [Hc| ->]; [by rewrite Hc|by destruct (is_digit ".")]).
  rewrite IH by done. by rewrite string_app_assoc.
Qed.

Lemma span_taken {A} (p : A -> bool) l : Forall (fun x => p x = true) (span p l).1.
Proof. induction l as [|x l IH]; cbn; [done|]. destruct (p x) eqn:E; [|done]. destruct (span p l). cbn in *. by constructor. Qed.

Lemma unsigned_literal_chars l : unsigned_literal l = true ->
  Forall (fun c => is_digit c = true \/ c = "."%char) l /\ exists c k, l = c :: k /\ is_digit c = true.
Proof.
  assert (Hf : forall k, fraction k = true -> Forall (fun c => is_digit c = true \/ c = "."%char) k).
  { intros [|c k]; [done|]. cbn [fraction]. intros [[->%Ascii.eqb_eq _]%andb_true_iff Hk]%andb_true_iff. constructor; [by right|].
    apply Forall_forall. rewrite forallb_elem in Hk. auto. }
  destruct l as [|c l]; [done|]. cbn [unsigned_literal]. destruct (Ascii.eqb c "0") eqn:E.
  - apply Ascii.eqb_eq in E as ->. intros H. split; [constructor; [by left|by apply Hf]|by eexists _, _].
  - intros [Hc Hk]%andb_true_iff. split; [|by eexists _, _]. constructor; [by left|]. rewrite <- (span_app is_digit l). apply Forall_app. split; [|by apply Hf].
    eapply Forall_impl; [apply span_taken|]. auto.
Qed.

Lemma reads_number s : unsigned_literal (explode s) = true -> run Start s = ([], InNum s).
Proof.
  intros (Hall & c & k & E & Hc)%unsigned_literal_chars. destruct s as [|d s]; [done|]. cbn [explode] in *. injection E as -> _.
  apply Forall_cons in Hall as [_ Hall]. cbn [run step]. assert (start c = ([], InNum (str c))) as ->.
  { revert Hc. clear. destruct c as [[] [] [] [] [] [] [] []]; vm_compute; congruence. }
  rewrite run_num by done. done.
Qed.

(** An expression that the check lets pass is one constant, wherever it stands. *)
Lemma default_constant e : validateDefaultExpression e = Ok tt -> exists ts, constant_tokens ts /\ reads e ts.
Proof.
  unfold validateDefaultExpression. destruct (mem e _) eqn:Em.
  - intros _. apply mem_spec in Em. exists [TWord e]. split; [by constructor|].
    repeat (apply elem_of_cons in Em as [->|Em]; [eapply (reads_run _ [] _ (InWord _)); [done|apply closes_word]|]). by apply not_elem_of_nil in Em.
  - destruct (string_literal e) eqn:Es; [intros _; apply string_literal_quoted in Es as [s ->]; exists [TLit s]; split; [constructor|apply reads_lit]|].
    destruct (numeric_literal e) eqn:En; [|done]. intros _. unfold numeric_literal in En. destruct e as [|c s]; [done|]. cbn [explode] in En.
    destruct (Ascii.eqb c "-") eqn:Ec.
    + apply Ascii.eqb_eq in Ec as ->. exists [TOp "-"; TNum s]. split; [constructor|]. apply (reads_run _ [TOp "-"] _ (InNum s)); [|apply closes_num].
      assert (Hr := reads_number _ En). destruct (unsigned_literal_chars _ En) as (_ & d & k & E & Hd). destruct s as [|d' s]; [done|].
      cbn [explode] in E. injection E as -> _. cbn [run] in *. cbn [step] in *. change (start "-") with (@nil token, InOp "-"). cbv beta iota.
      cbn [step]. assert (String.eqb "-" "-" && Ascii.eqb d "-" = false) as -> by (revert Hd; clear; destruct d as [[] [] [] [] [] [] [] []]; vm_compute; congruence).
      change (String.eqb "-" "/") with false. cbn [andb]. assert (is_op d = false) as -> by (revert Hd; clear; destruct d as [[] [] [] [] [] [] [] []]; vm_compute; congruence).
      unfold close. destruct (start d) as [ts st]. cbn [fst snd]. destruct (run st s) as [us st2]. injection Hr as Hn ->. by apply app_eq_nil in Hn as [-> ->].
    + exists [TNum (String c s)]. split; [constructor|]. apply (reads_run _ [] _ (InNum (String c s))); [|apply closes_num]. by apply reads_number.
Qed.

(** ** The view of a migration *)

Definition name_tokens (schema name : string) : list token := [TIdent schema; TSym "."; TIdent name].

Definition comma : list token := [TSym ","].

(** The tokens of a selection of columns from a table. *)
Definition selection (schema entity : string) (columns : list (list token)) : list token :=
  [TWord "SELECT"] ++ joined comma (map (fun c => [TIdent c]) viewColumns) ++ comma ++ joined comma columns ++
  [TWord "FROM"] ++ name_tokens schema entity.

Definition kept_column (f : PlanField) : list token := [TIdent (pf_slug f)].

(** A column of the rows from before the migration: new fields have their default, which
    is read as a constant. *)
Inductive old_column (f : PlanField) : list token -> Prop :=
| old_kept : pf_isNew f = false -> old_column f [TIdent (pf_slug f)]
| old_null : pf_isNew f = true -> pf_default f = None -> old_column f [TWord "NULL"; TWord "AS"; TIdent (pf_slug f)]
| old_default e ts : pf_isNew f = true -> pf_default f = Some e -> constant_tokens ts -> lex e = ts ->
    old_column f (ts ++ [TWord "AS"; TIdent (pf_slug f)]).

Definition active (fs : list PlanField) : list PlanField := List.filter (fun f => negb (pf_isRemoved f)) fs.

Lemma table_name_ok schema entity t : table_name schema entity = Ok t -> t = quoted quote schema +:+ "." +:+ quoted quote entity.
Proof.
  unfold table_name. intros H. unbind H as a Ha. unbind H as b Hb. injection H as <-.
  apply quotePgIdentifier_ok in Ha as [_ ->]. by apply quotePgIdentifier_ok in Hb as [_ ->].
Qed.

Lemma reads_name schema entity t : table_name schema entity = Ok t -> reads t (name_tokens schema entity).
Proof. intros ->%table_name_ok. apply (reads_dot schema _ [TIdent entity]), reads_ident. Qed.

Lemma reads_slug f q : quote_slug f = Ok q -> reads q (kept_column f).
Proof. intros [_ ->]%quotePgIdentifier_ok. apply reads_ident. Qed.

Lemma slugs_read fs l : traverse quote_slug fs = Ok l -> Forall2 reads l (map kept_column fs).
Proof.
  intros H%traverse_ok. apply Forall2_fmap_r, Forall2_flip. eapply Forall2_impl; [exact H|]. intros f q. apply reads_slug.
Qed.

(** Without a field that discriminates, no field is coalesced. *)
Lemma coalesced_reads f q : discriminates f = false -> coalesced_field f = Ok q -> reads q (kept_column f).
Proof.
  unfold discriminates, coalesced_field. intros Hd H. unbind H as s Hs. destruct (pf_default f) as [[|c e]|].
  - injection H as <-. by apply reads_slug.
  - rewrite Hd in H. injection H as <-. by apply reads_slug.
  - injection H as <-. by apply reads_slug.
Qed.

Lemma unmigrated_reads f q : (forall e, pf_default f = Some e -> validateDefaultExpression e = Ok tt) -> unmigrated_field f = Ok q ->
  exists ts, old_column f ts /\ reads q ts.
Proof.
  unfold unmigrated_field. intros Hv H. unbind H as s Hs. injection H as <-. apply reads_slug in Hs.
  destruct (pf_isNew f) eqn:En; [|by exists [TIdent (pf_slug f)]; split; [constructor|]].
  destruct (pf_default f) as [e|] eqn:Ed; cbn [default].
  - destruct (default_constant e (Hv e eq_refl)) as (ts & Hc & Hr). exists (ts ++ [TWord "AS"; TIdent (pf_slug f)]). split.
    + by apply (old_default _ e); [| | |apply Hr].
    + by eapply (reads_sep _ _ " AS " [TWord "AS"] _ _ _ [TIdent (pf_slug f)]).
  - exists [TWord "NULL"; TWord "AS"; TIdent (pf_slug f)]. split; [by constructor|].
    apply (reads_before "NULL AS " [TWord "NULL"; TWord "AS"]); done.
Qed.

Lemma reads_selection schema entity table columns tss :
  table_name schema entity = Ok table -> Forall2 reads columns tss ->
  reads ("SELECT " +:+ JsString.join ", " (map (quoted quote) viewColumns) +:+ ", " +:+ JsString.join ", " columns +:+ str newline +:+ "  FROM " +:+ table)
    (selection schema entity tss).
Proof.
  intros Ht Hc. apply (reads_before "SELECT " [TWord "SELECT"]); [done|].
  eapply (reads_sep _ _ ", " comma); [done..| |].
  - eapply (reads_join ", " comma); [done..|]. apply Forall2_fmap, Forall_Forall2_diag, Forall_true. intros c. apply reads_ident.
  - rewrite <- (string_app_assoc (str newline)). eapply (reads_sep _ _ (str newline +:+ "  FROM ") [TWord "FROM"]); [done..| |by apply reads_name].
    destruct columns as [|c cs]; [inversion Hc; subst; split; [done|by intros]|]. by eapply (reads_join ", " comma).
Qed.

Lemma unmigrated_list fs us l : check_defaults fs = Ok us -> traverse unmigrated_field (active fs) = Ok l ->
  exists old, Forall2 old_column (active fs) old /\ Forall2 reads l old.
Proof.
  intros Hd Hl. apply traverse_ok in Hd, Hl.
  assert (Hv : forall f, f ∈ active fs -> forall e, pf_default f = Some e -> validateDefaultExpression e = Ok tt).
  { intros f [Hf _]%elem_of_bfilter e He. apply list_elem_of_lookup in Hf as [i Hi]. destruct (Forall2_lookup_l _ _ _ _ _ Hd Hi) as (u & _ & Hu).
    rewrite He in Hu. by destruct u. }
  induction Hl as [|f q fl l Hq _ IH]; [by exists []|].
  destruct (unmigrated_reads f q (Hv f ltac:(by left)) Hq) as (ts & Ho & Hr).
  destruct IH as (old & Hos & Hrs); [intros g Hg; apply Hv; by right|]. exists (ts :: old). split; by constructor.
Qed.

(** The statement that creates the view, read as SQL.  When some new field has a default
    that is not NULL, the first such field tells the rows apart: those where it is set are
    shown as they are, the others with the defaults of the new fields, each a constant.
    Otherwise the rows are shown as they are.  Fields that the plan removes are not
    shown. *)
Theorem view_reads schema entity migrationId fs sql :
  buildUnionViewDDL schema entity migrationId fs = Ok sql ->
  let head := [TWord "CREATE"; TWord "VIEW"] ++ name_tokens schema (buildUnionViewName entity migrationId) ++ [TWord "AS"] in
  let kept := selection schema entity (map kept_column (active fs)) in
  match List.find discriminates fs with
  | None => lex sql = head ++ kept
  | Some d =>
      exists old, Forall2 old_column (active fs) old /\
        lex sql = head ++ kept ++ [TWord "WHERE"; TIdent (pf_slug d); TWord "IS"; TWord "NOT"; TWord "NULL"; TWord "UNION"; TWord "ALL"] ++
                  selection schema entity old ++ [TWord "WHERE"; TIdent (pf_slug d); TWord "IS"; TWord "NULL"]
  end.
Proof.
  unfold buildUnionViewDDL. intros H. unbind H as table Ht. unbind H as view Hv. unbind H as us Hd. cbv zeta in H |- *. fold (active fs) in H.
  apply reads_name in Hv. assert (Hh : forall t us, reads t us -> reads ("CREATE VIEW " +:+ view +:+ (" AS" +:+ str newline +:+ "  ") +:+ t)
    (([TWord "CREATE"; TWord "VIEW"] ++ name_tokens schema (buildUnionViewName entity migrationId) ++ [TWord "AS"]) ++ us)).
  { intros t vs Hr. rewrite <- !app_assoc. apply reads_before; [done|]. by eapply reads_sep. }
  destruct (List.find discriminates fs) as [d|] eqn:Ef.
  - unbind H as migrated Hm. unbind H as unmigrated Hu. unbind H as disc Hdisc. injection H as <-.
    apply slugs_read in Hm. apply reads_slug in Hdisc. assert (Hold := unmigrated_list _ _ _ Hd Hu). destruct Hold as (old & Ho & Hr).
    exists old. split; [done|]. assert (Hnull : reads (disc +:+ " IS NULL") (kept_column d ++ [TWord "IS"; TWord "NULL"])).
    { apply reads_behind; [done..|]. apply (reads_run _ [TWord "IS"] _ (InWord "NULL")); [done|apply closes_word]. }
    assert (Hsel := reads_sep _ _ (str newline +:+ "  WHERE ") [TWord "WHERE"] _ _ _ _ eq_refl eq_refl eq_refl (reads_selection _ _ _ _ _ Ht Hr) Hnull).
    assert (Hboth := reads_sep _ _ (" IS NOT NULL" +:+ str newline +:+ "UNION ALL" +:+ str newline +:+ "  ")
      [TWord "IS"; TWord "NOT"; TWord "NULL"; TWord "UNION"; TWord "ALL"] _ _ _ _ eq_refl eq_refl eq_refl Hdisc Hsel).
    assert (Hall := reads_sep _ _ (str newline +:+ "  WHERE ") [TWord "WHERE"] _ _ _ _ eq_refl eq_refl eq_refl (reads_selection _ _ _ _ _ Ht Hm) Hboth).
    apply Hh in Hall as [Hlex _]. etransitivity; [|etransitivity; [exact Hlex|]].
    + f_equal. rewrite !string_app_assoc. reflexivity.
    + unfold kept_column. by rewrite <- !app_assoc.
  - unbind H as l Hl. injection H as <-. assert (Hr : Forall2 reads l (map kept_column (active fs))).
    { apply traverse_ok in Hl. apply Forall2_fmap_r, Forall2_flip. eapply Forall2_impl_elem; [exact Hl|]. intros f q Hf Hq. apply coalesced_reads; [|exact Hq].
      unfold active in Hf. apply elem_of_bfilter in Hf as [Hf _]. eapply List.find_none; [exact Ef|]. by apply list_elem_of_In. }
    destruct (Hh _ _ (reads_selection _ _ _ _ _ Ht Hr)) as [Hlex _]. exact Hlex.
Qed.

(** The values of an enumeration are read back as they were given, whatever they hold. *)
Theorem enum_values_read vals : lex (enum_list vals) = joined comma (map (fun v => [TLit v]) vals).
Proof.
  assert (Hr : Forall2 reads (map escapeSqlString vals) (map (fun v => [TLit v]) vals)).
  { apply Forall2_fmap, Forall_Forall2_diag, Forall_true. intros v. apply reads_lit. }
  unfold enum_list. destruct vals as [|v vals]; [done|]. by eapply (reads_join ", " comma).
Qed.

(** A view whose plan keeps no field is not a statement: a comma stands before FROM. *)
Example empty_view : exists sql,
  buildUnionViewDDL "tenant_1" "person" "m1" [{| pf_slug := "age"; pf_isNew := false; pf_default := None; pf_isRemoved := true |}] = Ok sql /\
  exists before after, lex sql = before ++ [TSym ","; TWord "FROM"] ++ after.
Proof.
  eexists. split; [vm_compute; reflexivity|].
  eexists ([TWord "CREATE"; TWord "VIEW"] ++ name_tokens "tenant_1" "v_person_migration_m1" ++ [TWord "AS"; TWord "SELECT"] ++
           joined comma (map (fun c => [TIdent c]) viewColumns)), _. vm_compute. reflexivity.
Qed.

(** The tables that join two pairs of entities can have the same name. *)
Example join_names_collide : deriveJoinTableName "a_b" "c" = deriveJoinTableName "a" "b_c".
Proof. done. Qed.
