(* ===== verification/ChangePlan.v ===== *)
(** * The ontology service: changes and plans

    [classifyChange] of services/ontology/src/services/migration-service.ts, which tells
    changes that are applied at once from those that need a migration, and
    [buildMigrationFieldSpec] of entity-service.ts, the fields of a migration's plan. *)

From S2P Require Import Prelude JsString JsNumber JsValue JsHost SqlTable PgIdentifier OntologyCatalog DdlBuilder.
From Stdlib Require Import Ascii.
From stdpp Require Import strings sets list.

(** ** Changes *)

(** A field that is added; an absent default is [VUndef]. *)
Record DiffField : Type := {
  df_slug : string; df_type : string; df_required : bool; df_nullable : bool; df_default : value
}.

Record FieldUpdate : Type := {
  uf_slug : string;
  uf_name : option string;
  uf_rules : option (list ValidationRule);
  uf_indexed : option bool;
  uf_unique : option bool;
  uf_default : value
}.

(** Absent lists are empty. *)
Record EntityDiff : Type := {
  addFields : list DiffField;
  removeFieldSlugs : list string;
  renameFields : list (string * string);
  updateFields : list FieldUpdate;
  metadataOnly : bool;
  nameChanged : bool;
  descriptionChanged : bool;
  isPublicChanged : bool
}.

Record ChangeDescription : Type := { cd_type : string; cd_slug : option string; cd_details : option string }.

Inductive ChangeClassification : Type := backward_compatible | breaking.

Definition rule_number (r : ValidationRule) : number := match r_value r with VNum n => n | _ => NaN end.

(** [new Map(existing.map((r) => [r.type, r]))] *)
Definition rules_by_type (existing : list ValidationRule) : jmap rule_type ValidationRule :=
  fold_left (fun m r => jm_set (r_type r) r m) existing [].

(** Whether a rule forbids more than the one of its type before. *)
Definition rule_tightens (prev : option ValidationRule) (rule : ValidationRule) : bool :=
  match prev with
  | None => true
  | Some prev =>
      match r_type rule with
      | RMin | RMinLength => num_ltb (rule_number prev) (rule_number rule)
      | RMax | RMaxLength => num_ltb (rule_number rule) (rule_number prev)
      | _ => false
      end
  end.

Definition isValidationMoreRestrictive (existing updated : list ValidationRule) : bool :=
  existsb (fun rule => rule_tightens (jm_get (r_type rule) (rules_by_type existing)) rule) updated.

(** The changes, each with whether it breaks. *)
Definition metadata_change (on : bool) (details : string) : list (bool * ChangeDescription) :=
  if on then [(false, {| cd_type := "update_metadata"; cd_slug := None; cd_details := Some details |})] else [].

Definition field_change (type slug : string) : ChangeDescription := {| cd_type := type; cd_slug := Some slug; cd_details := None |}.

Definition added (hasData : bool) (f : DiffField) : bool * ChangeDescription :=
  let b := df_required f && negb (df_nullable f) && (match df_default f with VUndef => true | _ => false end) && hasData in
  (b, field_change (if b then "add_required_field_no_default" else "add_field") (df_slug f)).

Definition updated (existingFields : list FieldRow) (hasData : bool) (u : FieldUpdate) : list (bool * ChangeDescription) :=
  match List.find (fun f => String.eqb (f_slug f) (uf_slug u)) existingFields with
  | None => []
  | Some existing =>
      match uf_rules u with
      | Some rules =>
          let b := isValidationMoreRestrictive (f_rules existing) rules && hasData in
          [(b, field_change (if b then "tighten_validation" else "relax_validation") (uf_slug u))]
      | None => []
      end ++
      (if is_some (uf_name u) || is_some (uf_indexed u) || is_some (uf_unique u)
       then [(false, field_change "update_field_metadata" (uf_slug u))] else [])
  end.

Definition all_changes (diff : EntityDiff) (existingFields : list FieldRow) (hasData : bool) : list (bool * ChangeDescription) :=
  metadata_change (nameChanged diff) "name changed" ++ metadata_change (descriptionChanged diff) "description changed" ++
  metadata_change (isPublicChanged diff) "isPublic changed" ++
  map (added hasData) (addFields diff) ++
  map (fun '(from, to) => (true, {| cd_type := "rename_field"; cd_slug := Some from; cd_details := Some ("renamed to " +:+ to) |})) (renameFields diff) ++
  map (fun slug => (true, field_change "remove_field" slug)) (removeFieldSlugs diff) ++
  flat_map (updated existingFields hasData) (updateFields diff).

Definition classifyChange (diff : EntityDiff) (existingFields : list FieldRow) (hasData : bool) : ChangeClassification * list ChangeDescription :=
  let l := all_changes diff existingFields hasData in
  (if existsb fst l then breaking else backward_compatible, map snd l).

Definition WIDEN_MAP : jmap string (list string) :=
  [("number", ["string"]); ("boolean", ["string"]); ("date", ["string"]); ("enum", ["string"])].

Definition isTypeWiden (fromType toType : string) : bool :=
  match jm_get fromType WIDEN_MAP with Some to => mem toType to | None => false end.

(** ** Plans *)

Definition default_expression (f : DiffField) : result ontology_error string :=
  match df_default f with
  | VUndef => Ok "NULL"
  | VStr s => Ok (quoted squote s)
  | VNum n => if is_finite n then Ok (num_to_string n)
              else Err (ValidationError ("Field '" +:+ df_slug f +:+ "': defaultValue must be a string, finite number, or boolean"))
  | VBool b => Ok (if b then "TRUE" else "FALSE")
  | _ => Err (ValidationError ("Field '" +:+ df_slug f +:+ "': defaultValue must be a string, finite number, or boolean"))
  end.

Definition new_field (f : DiffField) : result ontology_error PlanField :=
  e ← default_expression f;
  Ok {| pf_slug := df_slug f; pf_isNew := true; pf_default := Some e; pf_isRemoved := false |}.

Definition old_field (diff : EntityDiff) (f : FieldRow) : PlanField :=
  {| pf_slug := f_slug f; pf_isNew := false; pf_default := None; pf_isRemoved := mem (f_slug f) (removeFieldSlugs diff) |}.

Definition buildMigrationFieldSpec (existingFields : list FieldRow) (diff : EntityDiff) : result ontology_error (list PlanField) :=
  news ← traverse new_field (addFields diff);
  Ok (map (old_field diff) existingFields ++ news).

(** ** Rules that do not tighten *)

Section Rules.
(** Whether a text fits a pattern, is an address or a URL: the validation library's. *)
Context (fits : string -> value -> bool) (is_email is_url : value -> bool).

(** The size that a bound on numbers or on lengths looks at. *)
Definition size (v : value) : option number :=
  match v with VNum n => Some n | VStr s => Some (num_of_Z (Z.of_nat (String.length s))) | _ => None end.

Definition bounded (p : number -> bool) (v : value) : bool := match size v with Some n => p n | None => true end.

(** What a rule asks of a value of its field's type. *)
Definition obeys (v : value) (r : ValidationRule) : bool :=
  match r_type r with
  | RMin | RMinLength => bounded (fun n => num_leb (rule_number r) n) v
  | RMax | RMaxLength => bounded (fun n => num_leb n (rule_number r)) v
  | RPattern => match r_value r with VStr p => fits p v | _ => true end
  | REmail => is_email v
  | RUrl => is_url v
  end.

Lemma rules_by_type_get l m t r : jm_get t (fold_left (fun m r => jm_set (r_type r) r m) l m) = Some r ->
  r ∈ l /\ r_type r = t \/ jm_get t m = Some r.
Proof.
  revert m. induction l as [|x l IH]; intros m; cbn [fold_left]; [auto|]. intros [[H1 H2]|H]%IH; [left; split; [by right|done]|].
  rewrite jm_get_set in H. case_decide; [|auto]. injection H as <-. left. split; [by left|done].
Qed.

Lemma num_not_less a b : is_nan a = false -> is_nan b = false -> num_ltb a b = false -> num_leb b a = true.
Proof.
  intros Ha Hb. unfold num_ltb, num_leb, SFltb, SFleb. rewrite (num_compare_swap a b).
  destruct (num_compare_total a b Ha Hb) as [[] ->]; done.
Qed.

(** No rule of the new list tightens the one of its type: a value that obeys the rules
    before obeys the new ones - unless a new rule is a pattern, of which only the presence
    is compared. *)
Theorem relaxed_rules existing updated v :
  isValidationMoreRestrictive existing updated = false ->
  Forall (fun r => r_type r <> RPattern /\ is_nan (rule_number r) = false) updated ->
  Forall (fun r => is_nan (rule_number r) = false) existing ->
  forallb (obeys v) existing = true -> forallb (obeys v) updated = true.
Proof.
  intros Hr Hu He Hv. apply forallb_elem. intros r Hin. unfold isValidationMoreRestrictive in Hr.
  rewrite Forall_forall in Hu. rewrite Forall_forall in He. destruct (Hu r Hin) as [Hp Hn].
  assert (Ht : rule_tightens (jm_get (r_type r) (rules_by_type existing)) r = false) by exact (existsb_false _ _ r Hr Hin).
  destruct (jm_get (r_type r) (rules_by_type existing)) as [prev|] eqn:E; [|done]. cbn [rule_tightens] in Ht.
  apply rules_by_type_get in E as [[Hprev Et]|E]; [|done]. rewrite forallb_elem in Hv. specialize (Hv prev Hprev). specialize (He prev Hprev).
  unfold obeys in *. rewrite Et in Hv. destruct (r_type r); try done.
  all: unfold bounded in *; destruct (size v) as [n|]; [|done]; eauto using num_leb_trans, num_not_less.
Qed.
End Rules.

(** A pattern can be replaced by any other, and counts as relaxed. *)
Example pattern_replaced :
  isValidationMoreRestrictive [{| r_type := RPattern; r_value := VStr "^a"; r_message := None |}]
    [{| r_type := RPattern; r_value := VStr "^abc$"; r_message := None |}] = false.
Proof. done. Qed.

(** ** Changes that are applied at once *)

(** What is applied at once removes and renames nothing, and when there are rows, every
    added field that they must have has a value for them and no rule is tightened. *)
Theorem compatible_changes diff existingFields hasData :
  (classifyChange diff existingFields hasData).1 = backward_compatible <->
  removeFieldSlugs diff = [] /\ renameFields diff = [] /\
  (hasData = true ->
    Forall (fun f => df_required f = true -> df_nullable f = false -> df_default f <> VUndef) (addFields diff) /\
    forall u rules existing, u ∈ updateFields diff -> uf_rules u = Some rules ->
      List.find (fun f => String.eqb (f_slug f) (uf_slug u)) existingFields = Some existing ->
      isValidationMoreRestrictive (f_rules existing) rules = false).
Proof.
  unfold classifyChange. cbn [fst]. destruct (existsb fst _) eqn:E.
  - split; [done|]. intros (Hrem & Hren & Hd). exfalso. apply existsb_elem in E as ([b ch] & Hin & Hb). cbn in Hb. subst b.
    unfold all_changes in Hin. rewrite Hrem, Hren in Hin. rewrite !elem_of_app in Hin.
    assert (Hm : forall on text, (true, ch) ∉ metadata_change on text) by (intros [] text; cbn; set_solver).
    destruct Hin as [?|[?|[?|[Ha|[Hn|[Hn|Hu]]]]]]; try by eapply Hm.
    + apply list_elem_of_fmap in Ha as (f & Hf & Hin). unfold added in Hf. injection Hf as Hf _. symmetry in Hf. rewrite !andb_true_iff, negb_true_iff in Hf.
      destruct Hf as (((H1 & H2) & H3) & H4). destruct (Hd H4) as [Hall _]. rewrite Forall_forall in Hall.
      apply (Hall f Hin H1 H2). by destruct (df_default f).
    + by apply not_elem_of_nil in Hn.
    + by apply not_elem_of_nil in Hn.
    + apply list_elem_of_In, in_flat_map in Hu as (u & Hin%list_elem_of_In & Hu%list_elem_of_In). unfold updated in Hu.
      destruct (List.find _ existingFields) as [ex|] eqn:Ef; [|by apply not_elem_of_nil in Hu]. apply elem_of_app in Hu as [Hu|Hu].
      * destruct (uf_rules u) as [rules|] eqn:Er; [|by apply not_elem_of_nil in Hu]. apply list_elem_of_singleton in Hu. injection Hu as Hb _.
        symmetry in Hb. apply andb_true_iff in Hb as [Hb Hdat]. destruct (Hd Hdat) as [_ Hall]. by rewrite (Hall u rules ex) in Hb.
      * destruct (_ || _); set_solver.
  - split; [intros _|done]. assert (Hk : forall b ch, (b, ch) ∈ all_changes diff existingFields hasData -> b = false).
    { intros b ch Hin. by apply (existsb_false _ _ _ E) in Hin. }
    unfold all_changes in Hk. split_and!.
    + destruct (removeFieldSlugs diff) as [|s l] eqn:El; [done|]. exfalso. assert (true = false); [|done].
      apply (Hk true (field_change "remove_field" s)). rewrite !elem_of_app. do 5 right. left. by left.
    + destruct (renameFields diff) as [|[from to] l] eqn:El; [done|]. exfalso. assert (true = false); [|done].
      eapply (Hk true). rewrite !elem_of_app. do 4 right. left. by left.
    + intros Hdat. split.
      * apply Forall_forall. intros f Hf H1 H2 H3. destruct (added hasData f) as [b ch] eqn:Ea.
        assert (b = false). { apply (Hk b ch). rewrite !elem_of_app. do 3 right. left. rewrite <- Ea. by apply list_elem_of_fmap_2. }
        unfold added in Ea. rewrite H1, H2, H3, Hdat in Ea. cbn in Ea. congruence.
      * intros u rules ex Hu Hr Hf. destruct (isValidationMoreRestrictive (f_rules ex) rules) eqn:Em; [|done]. exfalso.
        assert (true = false); [|done]. apply (Hk true (field_change "tighten_validation" (uf_slug u))).
        rewrite !elem_of_app. do 6 right. apply list_elem_of_In, in_flat_map. exists u. split; [by apply list_elem_of_In|].
        apply list_elem_of_In. unfold updated. rewrite Hf, Hr, Em, Hdat. cbn. by left.
Qed.

(** ** Plans can be carried out *)

Lemma traverse_some {E A B} (f : A -> result E B) l : Forall (fun x => exists y, f x = Ok y) l -> exists ys, traverse f l = Ok ys.
Proof. induction 1 as [|x l [y Hy] _ [ys IH]]; [by eexists|]. cbn. rewrite Hy. cbn. rewrite IH. by eexists. Qed.

(** A number whose text has no exponent. *)
Definition plain_default (f : DiffField) : Prop :=
  forall n, df_default f = VNum n -> numeric_literal (num_to_string n) = true.

Lemma default_accepted f e : plain_default f -> default_expression f = Ok e -> validateDefaultExpression e = Ok tt.
Proof.
  unfold plain_default, default_expression, validateDefaultExpression. intros Hp H. destruct (df_default f) as [| |b|n|s| | |]; try done.
  - by injection H as <-.
  - injection H as <-. by destruct b.
  - destruct (is_finite n); [|done]. injection H as <-. rewrite (Hp n eq_refl). by rewrite orb_true_r.
  - injection H as <-. assert (string_literal (quoted squote s) = true) as -> by (apply string_literal_quoted; by eexists).
    by rewrite orb_true_r.
Qed.

Lemma view_name_ok entity migrationId :
  PG_IDENTIFIER_REGEX entity = true -> Forall (fun c => slug_tail c = true) (explode (remove_hyphens migrationId)) ->
  PG_IDENTIFIER_REGEX (buildUnionViewName entity migrationId) = true.
Proof.
  intros He%PG_IDENTIFIER_REGEX_chars Hm. unfold buildUnionViewName.
  change (forallb slug_tail (explode (entity +:+ "_migration_" +:+ implode (take 12 (explode (remove_hyphens migrationId))))) = true).
  rewrite !explode_app, explode_implode, !forallb_app. rewrite (proj2 (forallb_elem _ _)) by by rewrite Forall_forall in He.
  cbn [andb]. apply andb_true_iff. split; [done|]. apply forallb_elem. intros c Hc. rewrite Forall_forall in Hm. apply Hm.
  eapply elem_of_submseteq; [exact Hc|]. apply sublist_submseteq, sublist_take.
Qed.

(** C24: The plan of a breaking change, as it is stored, gives a view if it keeps a field:
    with valid slugs and default values that are texts, truth values or numbers written
    without an exponent - any text, whatever it holds - [confirmMigration] can build its
    statement, and the statement, read as SQL, shows every field but the removed ones; rows
    from before the migration show the new fields with their defaults, each one constant.
    (What a plan that keeps none gives is [DdlBuilder.empty_view]; for an exponent see
    [exponent_refused].) *)
Theorem plan_viewable schema entity migrationId existingFields diff fs :
  PG_IDENTIFIER_REGEX schema = true -> PG_IDENTIFIER_REGEX entity = true ->
  Forall (fun c => slug_tail c = true) (explode (remove_hyphens migrationId)) ->
  Forall (fun f => PG_IDENTIFIER_REGEX (f_slug f) = true) existingFields ->
  Forall (fun f => PG_IDENTIFIER_REGEX (df_slug f) = true /\ plain_default f) (addFields diff) ->
  buildMigrationFieldSpec existingFields diff = Ok fs -> active fs <> [] ->
  exists sql, buildUnionViewDDL schema entity migrationId fs = Ok sql /\
    let head := [TWord "CREATE"; TWord "VIEW"] ++ name_tokens schema (buildUnionViewName entity migrationId) ++ [TWord "AS"] in
    let kept := selection schema entity (map kept_column (active fs)) in
    match List.find discriminates fs with
    | None => lex sql = head ++ kept
    | Some d =>
        exists old, Forall2 old_column (active fs) old /\
          lex sql = head ++ kept ++ [TWord "WHERE"; TIdent (pf_slug d); TWord "IS"; TWord "NOT"; TWord "NULL"; TWord "UNION"; TWord "ALL"] ++
                    selection schema entity old ++ [TWord "WHERE"; TIdent (pf_slug d); TWord "IS"; TWord "NULL"]
    end.
Proof.
  intros Hs He Hm Hf Ha H _. cut (exists sql, buildUnionViewDDL schema entity migrationId fs = Ok sql).
  { intros [sql Hsql]. exists sql. split; [done|]. by apply view_reads. }
  assert (Hall : Forall (fun f => PG_IDENTIFIER_REGEX (pf_slug f) = true /\
    match pf_default f with Some e => validateDefaultExpression e = Ok tt | None => True end) fs).
  { unfold buildMigrationFieldSpec in H. unbind H as news Hn. injection H as <-. apply Forall_app. split.
    - apply Forall_fmap. eapply Forall_impl; [exact Hf|]. by intros f ?.
    - apply traverse_ok in Hn. clear -Hn Ha. induction Hn as [|f p l ps Hp _ IH]; [constructor|]. apply Forall_cons in Ha as [[Hsl Hpl] Ha].
      constructor; [|by apply IH]. unfold new_field in Hp. unbind Hp as e Hd. injection Hp as <-. split; [done|]. by eapply default_accepted. }
  unfold buildUnionViewDDL, table_name, quotePgIdentifier. rewrite Hs, He, (view_name_ok _ _ He Hm). cbn [mbind result_mbind result_bind].
  assert (exists us, check_defaults fs = Ok us) as [us ->].
  { clear -Hall. induction Hall as [|f fs [_ Hf] _ [us IH]]; [by eexists|]. unfold check_defaults in *. cbn [traverse].
    destruct (pf_default f); [rewrite Hf|]; cbn; rewrite IH; by eexists. }
  cbn [mbind result_mbind result_bind]. fold (active fs). assert (Hact : Forall (fun f => quote_slug f = Ok (quoted quote (pf_slug f))) (active fs)).
  { apply Forall_forall. intros f [Hin _]%elem_of_bfilter. rewrite Forall_forall in Hall. unfold quote_slug, quotePgIdentifier.
    by destruct (Hall f Hin) as [-> _]. }
  assert (Hsome : forall f q, quote_slug f = Ok q -> (exists t, coalesced_field f = Ok t) /\ exists t, unmigrated_field f = Ok t).
  { intros f q Hq. unfold coalesced_field, unmigrated_field. rewrite Hq. cbn. split; [|by eexists].
    destruct (pf_default f) as [[]|]; [by eexists| |by eexists]. destruct (_ && _); by eexists. }
  rewrite Forall_forall in Hact. destruct (List.find discriminates fs) as [d|] eqn:Ed.
  - destruct (traverse_some quote_slug (active fs)) as [l1 ->]; [apply Forall_forall; eauto|]. cbn [mbind result_mbind result_bind].
    destruct (traverse_some unmigrated_field (active fs)) as [l2 ->]; [apply Forall_forall; intros f Hin; by eapply Hsome, Hact|].
    cbn [mbind result_mbind result_bind]. apply List.find_some in Ed as [Hd%list_elem_of_In _]. rewrite Forall_forall in Hall.
    unfold quote_slug, quotePgIdentifier. destruct (Hall d Hd) as [-> _]. by eexists.
  - destruct (traverse_some coalesced_field (active fs)) as [l1 ->]; [apply Forall_forall; intros f Hin; by eapply Hsome, Hact|]. by eexists.
Qed.

(** A witness: a column removed, a text default that holds a quote and SQL. *)
Definition ex_row (slug : string) : FieldRow :=
  {| f_id := slug; f_entity := "e1"; f_tenant := "t1"; f_name := slug; f_slug := slug; f_type := "string"; f_required := false;
     f_nullable := true; f_default := None; f_rules := []; f_enum_values := None; f_array_item_type := None; f_ref_entity := None;
     f_indexed := false; f_unique := false; f_sort_order := 0; f_system := false; f_deleted_at := None |}.

Definition ex_added (slug : string) (v : value) : DiffField :=
  {| df_slug := slug; df_type := "string"; df_required := true; df_nullable := false; df_default := v |}.

Definition ex_diff (l : list DiffField) : EntityDiff :=
  {| addFields := l; removeFieldSlugs := ["age"]; renameFields := []; updateFields := []; metadataOnly := false; nameChanged := false;
     descriptionChanged := false; isPublicChanged := false |}.

Lemma plan_viewable_witness :
  let diff := ex_diff [ex_added "label" (VStr (str squote +:+ "; DROP TABLE x --")); ex_added "size" (VNum (num_of_Z (-12)))] in
  (classifyChange diff [ex_row "name"; ex_row "age"] true).1 = breaking /\
  exists fs sql, buildMigrationFieldSpec [ex_row "name"; ex_row "age"] diff = Ok fs /\
    buildUnionViewDDL "tenant_1" "person" "4f0a-77" fs = Ok sql /\ map pf_slug (active fs) = ["name"; "label"; "size"].
Proof.
  cbv zeta. set (diff := ex_diff _). split; [reflexivity|].
  destruct (buildMigrationFieldSpec [ex_row "name"; ex_row "age"] diff) as [fs|] eqn:E; [|vm_compute in E; discriminate E].
  exists fs. destruct (plan_viewable "tenant_1" "person" "4f0a-77" [ex_row "name"; ex_row "age"] diff fs) as (sql & Hsql & _);
    [reflexivity|reflexivity|repeat constructor|repeat constructor| |exact E| |].
  - repeat constructor; intros n Hn; try discriminate Hn. injection Hn as <-. vm_compute. reflexivity.
  - vm_compute in E. by injection E as <-.
  - exists sql. split; [reflexivity|]. split; [exact Hsql|]. vm_compute in E. injection E as <-. reflexivity.
Defined.

(** A number that is written with an exponent is stored in a plan and refused when the plan
    is to be carried out. *)
Example exponent_refused : exists fs,
  buildMigrationFieldSpec [] (ex_diff [ex_added "size" (VNum (num_of_Z (10 ^ 21)))]) = Ok fs /\
  is_ok (buildUnionViewDDL "tenant_1" "person" "m1" fs) = false.
Proof. eexists. split; [vm_compute; reflexivity|]. vm_compute. reflexivity. Qed.
