(* ===== verification/EntityService.v ===== *)
(** * The ontology service: entities

    services/ontology/src/services/entity-service.ts over the catalogue and the tables of
    the tenants.  A transaction is one step: its statements take effect together or not at
    all.  Reads before it are steps of their own, so other operations come in between.
    [refused] is a statement that the database refuses for a reason outside the model (a
    time-out, a lost connection, a name in use).  The last parts are the operations of
    migration-service.ts on migrations. *)

From S2P Require Import Prelude JsString JsNumber JsValue JsHost SqlTable PgIdentifier.
From S2P Require Import OntologyCatalog DdlBuilder ChangePlan.
From stdpp Require Import strings sets list.

(** ** The state *)

Record Table : Type := { t_columns : list string; t_rows : Z }.

(** The table of a relationship between many and many, and the tables that its foreign
    keys refer to. *)
Record JoinTable : Type := { j_place : string * string; j_from : string * string; j_to : string * string }.

Inductive event : Type :=
| OntologyChanged (tenantId : string) (newVersion : Z) (added removed modified : list string) (changeType : string)
| MigrationStarted (tenantId entityType : string) (fromVersion toVersion : Z) (migrationId : string)
| MigrationCompleted (tenantId entityType migrationId : string)
| MigrationFailed (tenantId entityType migrationId : string).

Record world : Type := {
  cat : catalog;
  tables : jmap (string * string) Table;      (* of entities, by schema and name *)
  joins : list JoinTable;
  views : list (string * string);
  bus : list event                            (* published, the latest first *)
}.

Definition with_cat (c : catalog) (w : world) : world :=
  {| cat := c; tables := tables w; joins := joins w; views := views w; bus := bus w |}.
Definition with_tables (t : jmap (string * string) Table) (w : world) : world :=
  {| cat := cat w; tables := t; joins := joins w; views := views w; bus := bus w |}.
Definition with_joins (l : list JoinTable) (w : world) : world :=
  {| cat := cat w; tables := tables w; joins := l; views := views w; bus := bus w |}.
Definition with_views (v : list (string * string)) (w : world) : world :=
  {| cat := cat w; tables := tables w; joins := joins w; views := v; bus := bus w |}.
Definition publish (e : event) (w : world) : world :=
  {| cat := cat w; tables := tables w; joins := joins w; views := views w; bus := e :: bus w |}.

(** Where the table of a slug of a tenant is. *)
Definition table_place (tenantId slug : string) : string * string := (tenantSchemaName tenantId, pg_name slug).
Definition place_of (e : EntityRow) : string * string := table_place (e_tenant e) (e_slug e).

(** [countDataRows]: the statement fails where there is no table. *)
Definition countDataRows (p : string * string) (w : world) : result ontology_error Z :=
  match jm_get p (tables w) with Some t => Ok (t_rows t) | None => Err (DatabaseError "42P01") end.

(** ** Data definition in the database *)

Definition SYSTEM_TABLE_COLUMNS : list string := ["_id"; "_ingested_by"; "_created_at"; "_updated_at"; "_version"; "_source_id"].

(** A name is free when no table has it. *)
Definition name_taken (p : string * string) (w : world) : bool :=
  jm_has p (tables w) || existsb (fun j => bool_decide (j_place j = p)) (joins w).

Definition create_table (p : string * string) (columns : list string) (w : world) : result ontology_error world :=
  if name_taken p w then Err (DatabaseError "42P07")
  else if negb (bool_decide (NoDup columns)) then Err (DatabaseError "42701")
  else Ok (with_tables (jm_set p {| t_columns := columns; t_rows := 0 |} (tables w)) w).

(** A column that must be set and has no default cannot be added where there are rows. *)
Definition add_column (p : string * string) (f : FieldDDLSpec) (w : world) : result ontology_error world :=
  match jm_get p (tables w) with
  | None => Err (DatabaseError "42P01")
  | Some t =>
      let col := pg_name (d_slug f) in
      if mem col (t_columns t) then Err (DatabaseError "42701")
      else if negb (d_nullable f) && is_nullish (d_default f) && (0 <? t_rows t)%Z then Err (DatabaseError "23502")
      else Ok (with_tables (jm_set p {| t_columns := t_columns t ++ [col]; t_rows := t_rows t |} (tables w)) w)
  end.

(** The two columns of a join table need different names, its foreign keys tables. *)
Definition create_join_table (j : JoinTable) (fromCol toCol : string) (w : world) : result ontology_error world :=
  if name_taken (j_place j) w then Err (DatabaseError "42P07")
  else if bool_decide (pg_name fromCol = pg_name toCol) then Err (DatabaseError "42701")
  else if negb (jm_has (j_from j) (tables w) && jm_has (j_to j) (tables w)) then Err (DatabaseError "42P01")
  else Ok (with_joins (joins w ++ [j]) w).

(** [DROP TABLE IF EXISTS]: not while a join table refers to it. *)
Definition drop_table (p : string * string) (w : world) : result ontology_error world :=
  if existsb (fun j => bool_decide (j_from j = p) || bool_decide (j_to j = p)) (joins w) then Err (DatabaseError "2BP01")
  else Ok (with_tables (jm_delete p (tables w)) w).

Definition refuse {A} (refused : option string) (a : A) : result ontology_error A :=
  match refused with Some code => Err (DatabaseError code) | None => Ok a end.

(** [ddl.split(";\n")]: with a separator inside a literal, the first piece ends within the
    literal, which the database refuses. *)
Definition split_statements (ddl : string) (expected : nat) : result ontology_error unit :=
  if bool_decide (length (JsString.split ddl statement_sep) = expected) then Ok tt else Err (DatabaseError "42601").

(** ** Input *)

Record FieldInput : Type := {
  i_name : string;
  i_slug : option string;
  i_type : string;
  i_required : option bool;
  i_nullable : option bool;
  i_default : value;                         (* [VUndef] when absent *)
  i_rules : list ValidationRule;
  i_enum_values : option (list string);
  i_array_item_type : option string;
  i_ref : option string;
  i_indexed : option bool;
  i_unique : option bool
}.

Record CreateEntityInput : Type := {
  c_name : string; c_slug : option string; c_description : option string; c_isPublic : option bool; c_fields : list FieldInput
}.

Record PatchEntityInput : Type := {
  p_name : option string;
  p_description : option (option string);    (* [Some None] is null *)
  p_isPublic : option bool;
  p_addFields : list FieldInput;
  p_removeFieldSlugs : list string;
  p_renameFields : list (string * string);
  p_updateFields : list FieldUpdate
}.

Definition slug_of (f : FieldInput) : string := default (deriveSlug (i_name f)) (i_slug f).

Definition toFieldDDLSpec (f : FieldInput) : FieldDDLSpec :=
  {| d_slug := slug_of f; d_type := i_type f; d_required := default false (i_required f); d_nullable := default true (i_nullable f);
     d_default := i_default f; d_unique := default false (i_unique f); d_enum_values := default [] (i_enum_values f); d_ref := i_ref f |}.

(** [if (f.fieldType === "reference" && f.refEntitySlug)] *)
Definition resolveRefEntityId (tenantId : string) (f : FieldInput) (c : catalog) : result ontology_error (option string) :=
  match i_ref f with
  | Some (String _ _ as slug) =>
      if String.eqb (i_type f) "reference" then
        match entity_findBySlug tenantId slug c with
        | Some e => Ok (Some (e_id e))
        | None => Err (RefNotFoundError ("Referenced entity '" +:+ slug +:+ "' not found."))
        end
      else Ok None
  | _ => Ok None
  end.

(** The row that is inserted for a field. *)
Definition field_row (id entityId tenantId : string) (ref : option string) (order : Z) (f : FieldInput) : FieldRow :=
  {| f_id := id; f_entity := entityId; f_tenant := tenantId; f_name := i_name f; f_slug := slug_of f; f_type := i_type f;
     f_required := default false (i_required f); f_nullable := default true (i_nullable f);
     f_default := match i_default f with VUndef => None | v => Some v end;
     f_rules := i_rules f; f_enum_values := i_enum_values f; f_array_item_type := i_array_item_type f; f_ref_entity := ref;
     f_indexed := default false (i_indexed f); f_unique := default false (i_unique f); f_sort_order := order; f_system := false;
     f_deleted_at := None |}.

(** ** [createEntity] *)

(** The checks of the fields before the transaction: their references, in order. *)
Fixpoint check_fields (tenantId : string) (fs : list FieldInput) (c : catalog) : result ontology_error (list (option string)) :=
  match fs with
  | [] => Ok []
  | f :: fs =>
      if isReservedSlug (slug_of f) then Err (ReservedSlugError ("Field slug '" +:+ slug_of f +:+ "' is reserved."))
      else r ← resolveRefEntityId tenantId f c; rs ← check_fields tenantId fs c; Ok (r :: rs)
  end.

(** The rows of the fields of an entity, with their positions. *)
Fixpoint field_rows (ids : nat -> string) (entityId tenantId : string) (i : nat) (fs : list FieldInput) (refs : list (option string)) : list FieldRow :=
  match fs, refs with
  | f :: fs, r :: refs => field_row (ids i) entityId tenantId r (Z.of_nat i) f :: field_rows ids entityId tenantId (S i) fs refs
  | _, _ => []
  end.

Record CreateTicket : Type := { ct_tenant : string; ct_slug : string; ct_refs : list (option string); ct_input : CreateEntityInput }.

(** What is read and checked before the transaction. *)
Definition create_read (tenantId : string) (input : CreateEntityInput) (w : world) : result ontology_error CreateTicket :=
  let slug := default (deriveSlug (c_name input)) (c_slug input) in
  if isReservedSlug slug then Err (ReservedSlugError ("Slug '" +:+ slug +:+ "' is reserved."))
  else match entity_findBySlug tenantId slug (cat w) with
  | Some _ => Err (SlugConflictError ("Entity slug '" +:+ slug +:+ "' already exists."))
  | None =>
      refs ← check_fields tenantId (c_fields input) (cat w);
      Ok {| ct_tenant := tenantId; ct_slug := slug; ct_refs := refs; ct_input := input |}
  end.

Definition new_entity (id : string) (t : CreateTicket) : EntityRow :=
  {| e_id := id; e_tenant := ct_tenant t; e_name := c_name (ct_input t); e_slug := ct_slug t; e_version := 1;
     e_description := c_description (ct_input t); e_is_public := default false (c_isPublic (ct_input t)); e_deleted_at := None |}.

Definition create_transaction (ids : nat -> string) (id : string) (refused : option string) (t : CreateTicket) (w : world)
  : result ontology_error world :=
  let schema := tenantSchemaName (ct_tenant t) in
  _ ← quotePgIdentifier schema;
  c1 ← insert_entity (new_entity id t) (cat w);
  c2 ← foldM (fun c r => insert_field r c) c1 (field_rows ids id (ct_tenant t) 0 (c_fields (ct_input t)) (ct_refs t));
  let specs := map toFieldDDLSpec (c_fields (ct_input t)) in
  _ ← buildCreateTableDDL schema (ct_slug t) specs;
  w1 ← create_table (table_place (ct_tenant t) (ct_slug t)) (SYSTEM_TABLE_COLUMNS ++ map (fun f => pg_name (d_slug f)) specs) (with_cat c2 w);
  rls ← buildRlsDDL schema (ct_slug t) (ct_tenant t);
  _ ← split_statements rls 2;
  refuse refused w1.

(** The transaction, then the event; the indexes change nothing that is modelled. *)
Definition create_commit (ids : nat -> string) (id : string) (refused : option string) (t : CreateTicket) (w : world)
  : result ontology_error unit * world :=
  match create_transaction ids id refused t w with
  | Err e => (Err e, w)
  | Ok w1 => (Ok tt, publish (OntologyChanged (ct_tenant t) 1 [ct_slug t] [] [] "add_entity") w1)
  end.

(** ** [patchEntity] *)

Definition diff_field (f : FieldInput) : DiffField :=
  {| df_slug := slug_of f; df_type := i_type f; df_required := default false (i_required f);
     df_nullable := default true (i_nullable f); df_default := i_default f |}.

Definition entity_diff (input : PatchEntityInput) : EntityDiff :=
  {| addFields := map diff_field (p_addFields input); removeFieldSlugs := p_removeFieldSlugs input; renameFields := p_renameFields input;
     updateFields := p_updateFields input;
     metadataOnly := bool_decide (p_addFields input = [] ) && bool_decide (p_removeFieldSlugs input = []) &&
                     bool_decide (p_renameFields input = []) && match p_updateFields input with [] => true | _ => false end;
     nameChanged := is_some (p_name input); descriptionChanged := is_some (p_description input); isPublicChanged := is_some (p_isPublic input) |}.

Record PatchTicket : Type := { pt_tenant : string; pt_entity : EntityRow; pt_fields : list FieldRow; pt_input : PatchEntityInput }.

Inductive patch_outcome : Type :=
| Planned (migrationId : string) (changes : list ChangeDescription)   (* the plan is stored *)
| Compatible (t : PatchTicket).                                       (* applied next *)

(** The checks, the classification and, for a breaking change, the plan: the reads before
    it are taken together, the insertion is the last statement. *)
Definition plan_row (id : string) (now : Z) (e : EntityRow) (changes : list ChangeDescription) (fs : list PlanField) : MigrationRow :=
  {| m_id := id; m_tenant := e_tenant e; m_entity := e_id e; m_from := e_version e; m_to := e_version e + 1;
     m_change_type := match changes with [c] => cd_type c | _ => "compound" end;
     m_fields := Some fs; m_status := MPending; m_view := None; m_confirmed_by := None; m_created_at := now |}.

(** What is read first. *)
Definition patch_read (tenantId entityType : string) (input : PatchEntityInput) (w : world)
  : result ontology_error (PatchTicket * (ChangeClassification * list ChangeDescription)) :=
  match entity_findBySlug tenantId entityType (cat w) with
  | None => Err (EntityNotFoundError ("Entity '" +:+ entityType +:+ "' not found."))
  | Some e =>
      match findActiveByEntityId (e_id e) (cat w) with
      | Some _ => Err (MigrationInProgressError "A migration is already in progress for this entity.")
      | None =>
          let fs := findByEntityId (e_id e) (cat w) in
          n ← countDataRows (place_of e) w;
          Ok ({| pt_tenant := tenantId; pt_entity := e; pt_fields := fs; pt_input := input |},
              classifyChange (entity_diff input) fs (0 <? n)%Z)
      end
  end.

Definition store_plan (id : string) (now : Z) (t : PatchTicket) (changes : list ChangeDescription) (w : world)
  : result ontology_error world :=
  fs ← buildMigrationFieldSpec (pt_fields t) (entity_diff (pt_input t));
  c ← insert_migration (plan_row id now (pt_entity t) changes fs) (cat w);
  Ok (with_cat c w).

Definition requiresNotNullDDL (input : PatchEntityInput) : bool :=
  existsb (fun f => default false (i_required f) && negb (default true (i_nullable f)) && match i_default f with VUndef => true | _ => false end)
    (p_addFields input).

Definition conflict : ontology_error :=
  ConflictError "Entity was modified since you last fetched it. Fetch the latest version and retry.".

Definition same_version (e : EntityRow) (r : EntityRow) : bool :=
  String.eqb (e_id r) (e_id e) && String.eqb (e_tenant r) (e_tenant e) && (e_version r =? e_version e)%Z && live e_deleted_at r.

Definition patched (input : PatchEntityInput) (r : EntityRow) : EntityRow :=
  {| e_id := e_id r; e_tenant := e_tenant r; e_name := default (e_name r) (p_name input); e_slug := e_slug r; e_version := e_version r + 1;
     e_description := default (e_description r) (p_description input); e_is_public := default (e_is_public r) (p_isPublic input);
     e_deleted_at := e_deleted_at r |}.

(** [UPDATE ... WHERE id AND tenant_id AND version AND deleted_at IS NULL RETURNING *] *)
Definition update_entity (e : EntityRow) (input : PatchEntityInput) (c : catalog) : result ontology_error catalog :=
  if existsb (same_version e) (entities c) then
    if match p_name input with Some n => name_length n | None => true end
    then Ok (with_entities (update_where (same_version e) (patched input) (entities c)) c)
    else Err (violated "chk_entity_name_length")
  else Err conflict.

(** One added field: its reference, its row, its column. *)
Definition add_field (ids : nat -> string) (t : PatchTicket) (w : world) (i : nat) (f : FieldInput) : result ontology_error world :=
  let e := pt_entity t in
  ref ← resolveRefEntityId (pt_tenant t) f (cat w);
  c ← insert_field (field_row (ids i) (e_id e) (pt_tenant t) ref (Z.of_nat (length (pt_fields t) + i)) f) (cat w);
  let spec := toFieldDDLSpec f in
  ddl ← buildAddColumnDDL (tenantSchemaName (pt_tenant t)) (e_slug e) spec;
  _ ← split_statements ddl (1 + (if d_unique spec then 1 else 0) +
    (match d_enum_values spec with [] => 0 | _ => if String.eqb (d_type spec) "enum" then 1 else 0 end));
  add_column (table_place (pt_tenant t) (e_slug e)) spec (with_cat c w).

Fixpoint add_fields (ids : nat -> string) (t : PatchTicket) (w : world) (i : nat) (fs : list FieldInput) : result ontology_error world :=
  match fs with
  | [] => Ok w
  | f :: fs => w1 ← add_field ids t w i f; add_fields ids t w1 (S i) fs
  end.

Definition updated_field (u : FieldUpdate) (r : FieldRow) : FieldRow :=
  {| f_id := f_id r; f_entity := f_entity r; f_tenant := f_tenant r; f_name := default (f_name r) (uf_name u); f_slug := f_slug r;
     f_type := f_type r; f_required := f_required r; f_nullable := f_nullable r;
     f_default := match uf_default u with VUndef => f_default r | v => Some v end;
     f_rules := default (f_rules r) (uf_rules u); f_enum_values := f_enum_values r; f_array_item_type := f_array_item_type r;
     f_ref_entity := f_ref_entity r; f_indexed := default (f_indexed r) (uf_indexed u); f_unique := default (f_unique r) (uf_unique u);
     f_sort_order := f_sort_order r; f_system := f_system r; f_deleted_at := f_deleted_at r |}.

Definition update_field (existing : list FieldRow) (c : catalog) (u : FieldUpdate) : result ontology_error catalog :=
  match List.find (fun f => String.eqb (f_slug f) (uf_slug u)) existing with
  | None => Ok c
  | Some f =>
      if match uf_name u with Some n => name_length n | None => true end
      then Ok (with_fields (update_where (fun r => String.eqb (f_id r) (f_id f) && live f_deleted_at r) (updated_field u) (fields c)) c)
      else Err (violated "chk_field_name_length")
  end.

Definition patch_transaction (ids : nat -> string) (refused : option string) (t : PatchTicket) (w : world) : result ontology_error world :=
  let e := pt_entity t in
  let input := pt_input t in
  _ ← (if requiresNotNullDDL input then
         n ← countDataRows (table_place (pt_tenant t) (e_slug e)) w;
         if (0 <? n)%Z then Err (ConflictError ("Cannot add a required NOT NULL column without a default: the table now has " +:+ Z_to_string n +:+
           " row(s). Add a defaultValue or mark the field nullable."))
         else Ok tt
       else Ok tt);
  c1 ← update_entity e input (cat w);
  w2 ← add_fields ids t (with_cat c1 w) 0 (p_addFields input);
  c3 ← foldM (update_field (pt_fields t)) (cat w2) (p_updateFields input);
  refuse refused (with_cat c3 w2).

(** The version in the event is that of the entity when it is read again. *)
Definition patch_commit (ids : nat -> string) (refused : option string) (t : PatchTicket) (w : world) : result ontology_error unit * world :=
  match patch_transaction ids refused t w with
  | Err e => (Err e, w)
  | Ok w1 =>
      match entity_findBySlug (pt_tenant t) (e_slug (pt_entity t)) (cat w1) with
      | None => (Err (EntityNotFoundError "Entity disappeared."), w1)
      | Some e => (Ok tt, publish (OntologyChanged (pt_tenant t) (e_version e) [] [] [e_slug e] "other") w1)
      end
  end.

(** ** [deleteEntity] and [cleanupDeletedEntities] *)

Definition delete_read (tenantId entityType : string) (confirm : bool) (w : world) : result ontology_error EntityRow :=
  match entity_findBySlug tenantId entityType (cat w) with
  | None => Err (EntityNotFoundError ("Entity '" +:+ entityType +:+ "' not found."))
  | Some e =>
      n ← countDataRows (place_of e) w;
      if (0 <? n)%Z && negb confirm then
        Err (EntityHasDataError ("Entity '" +:+ entityType +:+ "' has " +:+ Z_to_string n +:+ " records. Pass confirm=true to proceed."))
      else Ok e
  end.

Definition deleted_entity (now : Z) (r : EntityRow) : EntityRow :=
  {| e_id := e_id r; e_tenant := e_tenant r; e_name := e_name r; e_slug := e_slug r; e_version := e_version r;
     e_description := e_description r; e_is_public := e_is_public r; e_deleted_at := Some now |}.

Definition deleted_field (now : Z) (r : FieldRow) : FieldRow :=
  {| f_id := f_id r; f_entity := f_entity r; f_tenant := f_tenant r; f_name := f_name r; f_slug := f_slug r; f_type := f_type r;
     f_required := f_required r; f_nullable := f_nullable r; f_default := f_default r; f_rules := f_rules r;
     f_enum_values := f_enum_values r; f_array_item_type := f_array_item_type r; f_ref_entity := f_ref_entity r;
     f_indexed := f_indexed r; f_unique := f_unique r; f_sort_order := f_sort_order r; f_system := f_system r; f_deleted_at := Some now |}.

(** The two statements of [deleteEntity], each on its own, and the event. *)
Definition softDelete (now : Z) (e : EntityRow) (w : world) : world :=
  with_cat (with_entities (update_where (fun r => String.eqb (e_id r) (e_id e) && String.eqb (e_tenant r) (e_tenant e) && live e_deleted_at r)
    (deleted_entity now) (entities (cat w))) (cat w)) w.

Definition softDeleteByEntityId (now : Z) (e : EntityRow) (w : world) : world :=
  with_cat (with_fields (update_where (fun r => String.eqb (f_entity r) (e_id e) && live f_deleted_at r) (deleted_field now)
    (fields (cat w))) (cat w)) w.

Definition delete_publish (e : EntityRow) (w : world) : world :=
  publish (OntologyChanged (e_tenant e) (e_version e + 1) [] [e_slug e] [] "remove_entity") w.

(** [ORDER BY deleted_at] *)
Definition findDeletedOlderThan (tenantId : string) (before : Z) (c : catalog) : list EntityRow :=
  order_by (fun a b => default 0 (e_deleted_at a) <? default 0 (e_deleted_at b))%Z
    (List.filter (fun r => String.eqb (e_tenant r) tenantId && match e_deleted_at r with Some d => (d <? before)%Z | None => false end) (entities c)).

(** A row of the catalogue stays as long as a migration or a field of another entity refers
    to it; its relationships go with it. *)
Definition hard_delete (e : EntityRow) (c : catalog) : result ontology_error catalog :=
  let fs := List.filter (fun f => negb (String.eqb (f_entity f) (e_id e))) (fields c) in
  if existsb (fun m => String.eqb (m_entity m) (e_id e)) (migrations c) then Err (DatabaseError "23503")
  else if existsb (fun f => bool_decide (f_ref_entity f = Some (e_id e))) fs then Err (violated "chk_ref_entity")
  else Ok {| entities := List.filter (fun r => negb (String.eqb (e_id r) (e_id e))) (entities c); fields := fs;
             relationships := List.filter (fun l => negb (String.eqb (l_from l) (e_id e) || String.eqb (l_to l) (e_id e))) (relationships c);
             migrations := migrations c |}.

(** The transaction of one entity in [cleanupDeletedEntities], from the row in the list
    that was read before the first of them. *)
Definition cleanup_one (refused : option string) (e : EntityRow) (w : world) : result ontology_error world :=
  _ ← table_name (tenantSchemaName (e_tenant e)) (e_slug e);
  w1 ← drop_table (place_of e) w;
  c ← hard_delete e (cat w1);
  refuse refused (with_cat c w1).

(** A failure is logged, and the loop goes on. *)
Definition cleanup_turn (refused : option string) (e : EntityRow) (w : world) : world :=
  match cleanup_one refused e w with Ok w1 => w1 | Err _ => w end.

(** ** [createRelationship]

    [createRelationshipService] of services/ontology/src/services/relationship-service.ts:
    the two entities are read, then one transaction makes the join table, or the column and
    its field, and the row of the relationship.  [deleteRelationship] has no route. *)

Record CreateRelationshipInput : Type := {
  fromEntitySlug : string; toEntitySlug : string; relationshipType : relationship_type;
  fromFieldName : string; toFieldName : option string; cascadeDelete : option bool
}.

Record LinkTicket : Type := { lt_tenant : string; lt_from : EntityRow; lt_to : EntityRow; lt_input : CreateRelationshipInput }.

Definition link_read (tenantId : string) (input : CreateRelationshipInput) (w : world) : result ontology_error LinkTicket :=
  match entity_findBySlug tenantId (fromEntitySlug input) (cat w) with
  | None => Err (EntityNotFoundError ("Entity '" +:+ fromEntitySlug input +:+ "' not found."))
  | Some from =>
      match entity_findBySlug tenantId (toEntitySlug input) (cat w) with
      | None => Err (RefNotFoundError ("Target entity '" +:+ toEntitySlug input +:+ "' not found."))
      | Some to => Ok {| lt_tenant := tenantId; lt_from := from; lt_to := to; lt_input := input |}
      end
  end.

Definition join_table_name (t : LinkTicket) : string := deriveJoinTableName (e_slug (lt_from t)) (e_slug (lt_to t)).
Definition link_place (t : LinkTicket) (e : EntityRow) : string * string := table_place (lt_tenant t) (e_slug e).

Definition join_table (t : LinkTicket) : JoinTable :=
  {| j_place := table_place (lt_tenant t) (join_table_name t); j_from := link_place t (lt_from t); j_to := link_place t (lt_to t) |}.

Definition fk_column (e : EntityRow) : string := e_slug e +:+ "_id".

(** The column as [ALTER TABLE] adds it: it may be null and has no default. *)
Definition fk_spec (t : LinkTicket) : FieldDDLSpec :=
  {| d_slug := fk_column (lt_to t); d_type := "reference"; d_required := false; d_nullable := true; d_default := VUndef;
     d_unique := false; d_enum_values := []; d_ref := None |}.

Definition fk_field (id : string) (t : LinkTicket) : FieldRow :=
  {| f_id := id; f_entity := e_id (lt_from t); f_tenant := lt_tenant t; f_name := fromFieldName (lt_input t);
     f_slug := fk_column (lt_to t); f_type := "reference"; f_required := false; f_nullable := true; f_default := None; f_rules := [];
     f_enum_values := None; f_array_item_type := None; f_ref_entity := Some (e_id (lt_to t)); f_indexed := false; f_unique := false;
     f_sort_order := 0; f_system := true; f_deleted_at := None |}.

Definition relationship_row (id : string) (join : option string) (t : LinkTicket) : RelationshipRow :=
  {| l_id := id; l_tenant := lt_tenant t; l_from := e_id (lt_from t); l_to := e_id (lt_to t); l_type := relationshipType (lt_input t);
     l_from_field := fromFieldName (lt_input t);
     l_to_field := match toFieldName (lt_input t) with Some (String _ _ as n) => Some n | _ => None end;
     l_join := join; l_cascade := default false (cascadeDelete (lt_input t)) |}.

(** The column is a foreign key on the other table, which is there. *)
Definition add_fk_column (t : LinkTicket) (w : world) : result ontology_error world :=
  let schema := tenantSchemaName (lt_tenant t) in
  _ ← table_name schema (e_slug (lt_from t));
  _ ← table_name schema (e_slug (lt_to t));
  _ ← quotePgIdentifier (fk_column (lt_to t));
  w1 ← add_column (link_place t (lt_from t)) (fk_spec t) w;
  if jm_has (link_place t (lt_to t)) (tables w) then Ok w1 else Err (DatabaseError "42P01").

Definition link_transaction (fid rid : string) (refused : option string) (t : LinkTicket) (w : world) : result ontology_error world :=
  '(join, w1) ← (if decide (relationshipType (lt_input t) = ManyToMany) then
      let name := join_table_name t in
      _ ← buildJoinTableDDL (tenantSchemaName (lt_tenant t)) (e_slug (lt_from t)) (e_slug (lt_to t)) name
            (default false (cascadeDelete (lt_input t)));
      w1 ← create_join_table (join_table t) (fk_column (lt_from t)) (fk_column (lt_to t)) w;
      Ok (Some name, w1)
    else
      w1 ← add_fk_column t w;
      c ← insert_field (fk_field fid t) (cat w1);
      Ok (None, with_cat c w1));
  c ← insert_relationship (relationship_row rid join t) (cat w1);
  refuse refused (with_cat c w1).

(** No event is published; the index that follows changes nothing that is modelled. *)
Definition link_commit (fid rid : string) (refused : option string) (t : LinkTicket) (w : world) : result ontology_error unit * world :=
  match link_transaction fid rid refused t w with Ok w1 => (Ok tt, w1) | Err e => (Err e, w) end.

(** ** The ontology service: migrations

    [createMigrationService] of services/ontology/src/services/migration-service.ts.  A
    confirmation reads the migration and its entity, then runs one transaction; the other
    operations are given as the sequences of their statements. *)

Definition PLAN_EXPIRY_MS : Z := 60 * 60 * 1000.

Definition status_name (s : migration_status) : string :=
  match s with
  | MPending => "pending_confirmation" | MConfirmed => "confirmed" | MRunning => "running" | MComplete => "complete"
  | MFailed => "failed" | MRolledBack => "rolled_back"
  end.

(** ** The view *)

(** The view refers to the columns of every field that it shows. *)
Definition create_view (p : string * string) (view : string * string) (fs : list PlanField) (w : world) : result ontology_error world :=
  if bool_decide (view ∈ views w) then Err (DatabaseError "42P07")
  else match jm_get p (tables w) with
  | None => Err (DatabaseError "42P01")
  | Some t =>
      if forallb (fun f => pf_isRemoved f || mem (pg_name (pf_slug f)) (t_columns t)) fs
      then Ok (with_views (view :: views w) w)
      else Err (DatabaseError "42703")
  end.

Definition drop_view (schema view : string) (w : world) : result ontology_error world :=
  _ ← buildDropViewDDL schema view;
  Ok (with_views (List.filter (fun v => negb (bool_decide (v = (schema, pg_name view)))) (views w)) w).

(** ** [confirmMigration] *)

Record ConfirmTicket : Type := { cf_migration : MigrationRow; cf_entity : EntityRow }.

Definition confirm_read (migrationId : string) (now : Z) (w : world) : result ontology_error ConfirmTicket :=
  match migration_findById migrationId (cat w) with
  | None => Err (MigrationNotFoundError ("Migration " +:+ migrationId +:+ " not found."))
  | Some m =>
      if negb (bool_decide (m_status m = MPending)) then
        Err (MigrationWrongStateError ("Migration is in '" +:+ status_name (m_status m) +:+ "' state, expected 'pending_confirmation'."))
      else if (PLAN_EXPIRY_MS <? now - m_created_at m)%Z then
        Err (MigrationPlanExpiredError "Migration confirmation window (1 hour) has expired.")
      else match entity_findById (m_tenant m) (m_entity m) (cat w) with
      | None => Err (MigrationNotFoundError "Entity no longer exists.")
      | Some e => Ok {| cf_migration := m; cf_entity := e |}
      end
  end.

(** [held]: another transaction holds the advisory lock of the entity. *)
Definition confirm_transaction (held : bool) (refused : option string) (userId : string) (t : ConfirmTicket) (w : world)
  : result ontology_error world :=
  let m := cf_migration t in
  if held then Err (MigrationInProgressError "Another migration is already running for this entity.")
  else
    let '(confirmed, c1) := setConfirmed (m_id m) userId (cat w) in
    if negb confirmed then Err (MigrationWrongStateError "Migration state changed concurrently.")
    else
      let schema := tenantSchemaName (m_tenant m) in
      let viewName := buildUnionViewName (e_slug (cf_entity t)) (m_id m) in
      w1 ← match m_fields m with
        | Some fs =>
            _ ← buildUnionViewDDL schema (e_slug (cf_entity t)) (m_id m) fs;
            create_view (table_place (m_tenant m) (e_slug (cf_entity t))) (schema, pg_name viewName) fs (with_cat c1 w)
        | None => Ok (with_cat c1 w)
        end;
      refuse refused (with_cat (setRunning (m_id m) viewName (cat w1)) w1).

Definition confirm_commit (held : bool) (refused : option string) (userId : string) (t : ConfirmTicket) (w : world)
  : result ontology_error unit * world :=
  match confirm_transaction held refused userId t w with
  | Err e => (Err e, w)
  | Ok w1 =>
      let m := cf_migration t in
      (Ok tt, publish (MigrationStarted (m_tenant m) (e_slug (cf_entity t)) (m_from m) (m_to m) (m_id m)) w1)
  end.

(** ** [completeMigration], [failMigration] *)

Definition drop_of (m : MigrationRow) (w : world) : result ontology_error world :=
  match m_view m with
  | Some (String _ _ as v) => drop_view (tenantSchemaName (m_tenant m)) v w
  | _ => Ok w
  end.

Definition completeMigration (migrationId : string) (w : world) : result ontology_error unit * world :=
  match migration_findById migrationId (cat w) with
  | None => (Ok tt, w)
  | Some m =>
      match entity_findById (m_tenant m) (m_entity m) (cat w) with
      | None => (Ok tt, w)
      | Some e =>
          match drop_of m w with
          | Err err => (Err err, w)
          | Ok w1 =>
              let w2 := with_cat (bumpVersion (m_entity m) (setComplete migrationId (cat w1))) w1 in
              (Ok tt, publish (MigrationCompleted (m_tenant m) (e_slug e) migrationId)
                        (publish (OntologyChanged (m_tenant m) (e_version e + 1) [] [] [e_slug e] "migration_complete") w2))
          end
      end
  end.

(** An error of the statement that drops the view is swallowed, one that is thrown before
    the statement is not. *)
Definition failMigration (migrationId : string) (w : world) : result ontology_error unit * world :=
  match migration_findById migrationId (cat w) with
  | None => (Ok tt, w)
  | Some m =>
      match drop_of m w with
      | Err err => (Err err, w)
      | Ok w1 =>
          let w2 := with_cat (setFailed migrationId (cat w1)) w1 in
          let slug := match entity_findById (m_tenant m) (m_entity m) (cat w2) with Some e => e_slug e | None => "unknown" end in
          (Ok tt, publish (MigrationFailed (m_tenant m) slug migrationId) w2)
      end
  end.

(** ** [rollbackMigration] *)

Inductive shadow_status : Type := SActive | SDropped | SCorrupt | SUnavailable.

(** A batch with the columns that the database reports for its table. *)
Record ShadowBatch : Type := { sb_schema : string; sb_table : string; sb_status : shadow_status; sb_columns : list string }.

(** The list of columns that the rows of a shadow table are copied with. *)
Definition rollback_columns (target shadow : list string) : result ontology_error string :=
  let commonCols := List.filter (fun c => mem c shadow) target in
  match commonCols with
  | [] => Err (PlainError "No common columns")
  | _ => cols ← traverse quotePgIdentifier commonCols; Ok (JsString.join ", " cols)
  end.

(** The state of a batch after its turn: the rows are back and the shadow table is gone, or
    the transaction was rolled back.  A name that cannot be quoted ends the whole
    operation. *)
Definition rollback_batch (schema entity : string) (target : list string) (refused : option string) (b : ShadowBatch)
  : result ontology_error shadow_status :=
  match sb_status b with
  | SCorrupt | SUnavailable => Ok (sb_status b)
  | _ =>
      _ ← table_name (sb_schema b) (sb_table b);
      _ ← table_name schema entity;
      match (cols ← rollback_columns target (sb_columns b); refuse refused cols) with
      | Ok _ => Ok SDropped
      | Err _ => Ok SUnavailable
      end
  end.

(** The batches in reverse order, then the view and the state. *)
Definition rollbackMigration (migrationId : string) (refused : option string) (batches : list ShadowBatch) (w : world)
  : result ontology_error (list shadow_status) * world :=
  match migration_findById migrationId (cat w) with
  | None => (Ok [], w)
  | Some m =>
      match entity_findById (m_tenant m) (m_entity m) (cat w) with
      | None => (Ok [], w)
      | Some e =>
          let schema := tenantSchemaName (m_tenant m) in
          let target := match jm_get (table_place (m_tenant m) (e_slug e)) (tables w) with Some t => t_columns t | None => [] end in
          match traverse (rollback_batch schema (e_slug e) target refused) (rev batches) with
          | Err err => (Err err, w)
          | Ok statuses =>
              match drop_of m w with
              | Err err => (Err err, w)
              | Ok w1 => (Ok statuses, with_cat (setRolledBack migrationId (cat w1)) w1)
              end
          end
      end
  end.

(** ** No batch comes back *)

(** Tables have the column [_id], whose name [quotePgIdentifier] refuses: no rollback ever
    copies the rows of a batch back, and yet the migration is marked as rolled back. *)
Theorem rollback_restores_nothing migrationId refused batches w m e t :
  migration_findById migrationId (cat w) = Some m -> entity_findById (m_tenant m) (m_entity m) (cat w) = Some e ->
  jm_get (table_place (m_tenant m) (e_slug e)) (tables w) = Some t -> "_id" ∈ t_columns t ->
  Forall (fun b => "_id" ∈ sb_columns b) batches ->
  match rollbackMigration migrationId refused batches w with
  | (Ok statuses, w') => Forall (fun s => s <> SDropped) statuses /\ tables w' = tables w
  | (Err _, w') => w' = w
  end.
Proof.
  intros Hm He Ht Hid Hb. unfold rollbackMigration. rewrite Hm, He, Ht.
  destruct (traverse _ (rev batches)) as [statuses|] eqn:E; [|done]. unfold drop_of, drop_view.
  assert (Hs : Forall (fun s => s <> SDropped) statuses).
  { apply traverse_ok in E. apply Forall_rev in Hb. revert E Hb. generalize (rev batches). intros l E. induction E as [|b s l ss Hbs _ IH]; [done|].
    intros [Hb Hl]%Forall_cons. constructor; [|by apply IH]. unfold rollback_batch in Hbs.
    assert (Hc : exists e, rollback_columns (t_columns t) (sb_columns b) = Err e).
    { unfold rollback_columns. assert (Hin : "_id" ∈ List.filter (fun c => mem c (sb_columns b)) (t_columns t)).
      { apply elem_of_bfilter. split; [done|]. by apply mem_spec. }
      destruct (List.filter _ _) as [|c cs] eqn:Ec; [by apply not_elem_of_nil in Hin|].
      destruct (traverse quotePgIdentifier (c :: cs)) as [l'|err] eqn:El; [|by eexists]. apply traverse_ok in El.
      apply list_elem_of_lookup in Hin as [i Hi]. destruct (Forall2_lookup_l _ _ _ _ _ El Hi) as (q & _ & Hq). by vm_compute in Hq. }
    destruct Hc as [err Hc]. rewrite Hc in Hbs. cbn [mbind result_mbind result_bind] in Hbs.
    destruct (sb_status b); try by injection Hbs as <-.
    all: unbind Hbs as x Hx; unbind Hbs as y Hy; by injection Hbs as <-. }
  destruct (m_view m) as [[|c v]|]; [by split| |by split]. destruct (buildDropViewDDL _ _); cbn; [by split|done].
Qed.
