(* ===== verification/OntologySystem.v ===== *)
(** * The ontology service: all operations together

    The steps of the entity, relationship and migration services, in any order and
    overlapping: what an operation has read is a ticket, and its transaction uses the ticket
    whenever it comes; the cleanup of deleted entities works on the list that it read.  The
    catalogue and the tables of the tenants agree as long as no two runs of the cleanup for
    one tenant overlap, and a patch changes exactly the entity that it has read. *)

From S2P Require Import Prelude JsString JsNumber JsValue SqlTable PgIdentifier OntologyCatalog.
From S2P Require Import DdlBuilder ChangePlan EntityService.
From stdpp Require Import strings sets list sorting.

(** ** Steps *)

Record sys : Type := {
  sw : world;
  used : list string;                        (* identifiers that were given out *)
  creates : list CreateTicket;
  patches : list PatchTicket;
  links : list LinkTicket;
  deletes : list EntityRow;                  (* read by [deleteEntity] *)
  gone : list EntityRow;                     (* whose row it has marked *)
  cleanups : list (string * list EntityRow); (* runs of the cleanup: the tenant, the rows still to come *)
  overlapped : bool;                         (* a run has begun during another of its tenant *)
  confirms : list ConfirmTicket
}.

Definition with_world (w : world) (s : sys) : sys :=
  {| sw := w; used := used s; creates := creates s; patches := patches s; links := links s; deletes := deletes s; gone := gone s;
     cleanups := cleanups s; overlapped := overlapped s; confirms := confirms s |}.
Definition use_ids (l : list string) (s : sys) : sys :=
  {| sw := sw s; used := l ++ used s; creates := creates s; patches := patches s; links := links s; deletes := deletes s; gone := gone s;
     cleanups := cleanups s; overlapped := overlapped s; confirms := confirms s |}.
Definition add_create (t : CreateTicket) (s : sys) : sys :=
  {| sw := sw s; used := used s; creates := t :: creates s; patches := patches s; links := links s; deletes := deletes s; gone := gone s;
     cleanups := cleanups s; overlapped := overlapped s; confirms := confirms s |}.
Definition add_patch (t : PatchTicket) (s : sys) : sys :=
  {| sw := sw s; used := used s; creates := creates s; patches := t :: patches s; links := links s; deletes := deletes s; gone := gone s;
     cleanups := cleanups s; overlapped := overlapped s; confirms := confirms s |}.
Definition add_link (t : LinkTicket) (s : sys) : sys :=
  {| sw := sw s; used := used s; creates := creates s; patches := patches s; links := t :: links s; deletes := deletes s; gone := gone s;
     cleanups := cleanups s; overlapped := overlapped s; confirms := confirms s |}.
Definition add_delete (e : EntityRow) (s : sys) : sys :=
  {| sw := sw s; used := used s; creates := creates s; patches := patches s; links := links s; deletes := e :: deletes s; gone := gone s;
     cleanups := cleanups s; overlapped := overlapped s; confirms := confirms s |}.
Definition add_gone (e : EntityRow) (s : sys) : sys :=
  {| sw := sw s; used := used s; creates := creates s; patches := patches s; links := links s; deletes := deletes s; gone := e :: gone s;
     cleanups := cleanups s; overlapped := overlapped s; confirms := confirms s |}.
Definition add_confirm (t : ConfirmTicket) (s : sys) : sys :=
  {| sw := sw s; used := used s; creates := creates s; patches := patches s; links := links s; deletes := deletes s; gone := gone s;
     cleanups := cleanups s; overlapped := overlapped s; confirms := t :: confirms s |}.
Definition with_cleanups (l : list (string * list EntityRow)) (s : sys) : sys :=
  {| sw := sw s; used := used s; creates := creates s; patches := patches s; links := links s; deletes := deletes s; gone := gone s;
     cleanups := l; overlapped := overlapped s; confirms := confirms s |}.

(** A run of the cleanup of the tenant has rows to come. *)
Definition cleaning (tenantId : string) (s : sys) : bool :=
  existsb (fun r => String.eqb r.1 tenantId && match r.2 with [] => false | _ => true end) (cleanups s).

(** A run begins with the list of its rows. *)
Definition begin_cleanup (tenantId : string) (rows : list EntityRow) (s : sys) : sys :=
  {| sw := sw s; used := used s; creates := creates s; patches := patches s; links := links s; deletes := deletes s; gone := gone s;
     cleanups := (tenantId, rows) :: cleanups s; overlapped := overlapped s || cleaning tenantId s; confirms := confirms s |}.

(** Identifiers that the database generates: new and different. *)
Definition fresh (l : list string) (s : sys) : Prop := NoDup l /\ forall x, x ∈ l -> x ∉ used s.

Definition first_ids (ids : nat -> string) {A} (l : list A) : list string := map ids (seq 0 (length l)).

(** A migration that a step has started. *)
Definition label : Type := option string.

Inductive step : label -> sys -> sys -> Prop :=
| step_create_read s tenantId input t : create_read tenantId input (sw s) = Ok t -> step None s (add_create t s)
| step_create_commit s ids id refused t : t ∈ creates s -> fresh (id :: first_ids ids (c_fields (ct_input t))) s ->
    step None s (use_ids (id :: first_ids ids (c_fields (ct_input t))) (with_world (create_commit ids id refused t (sw s)).2 s))
| step_patch_read s tenantId entityType input t cls : patch_read tenantId entityType input (sw s) = Ok (t, cls) ->
    step None s (add_patch t s)
| step_plan s id now t changes w : t ∈ patches s -> fresh [id] s -> store_plan id now t changes (sw s) = Ok w ->
    step None s (use_ids [id] (with_world w s))
| step_patch_commit s ids refused t : t ∈ patches s -> fresh (first_ids ids (p_addFields (pt_input t))) s ->
    step None s (use_ids (first_ids ids (p_addFields (pt_input t))) (with_world (patch_commit ids refused t (sw s)).2 s))
| step_link_read s tenantId input t : link_read tenantId input (sw s) = Ok t -> step None s (add_link t s)
| step_link_commit s fid rid refused t : t ∈ links s -> fresh [fid; rid] s ->
    step None s (use_ids [fid; rid] (with_world (link_commit fid rid refused t (sw s)).2 s))
| step_delete_read s tenantId entityType confirm e : delete_read tenantId entityType confirm (sw s) = Ok e ->
    step None s (add_delete e s)
| step_delete_entity s now e : e ∈ deletes s -> step None s (add_gone e (with_world (softDelete now e (sw s)) s))
| step_delete_fields s now e : e ∈ gone s -> step None s (with_world (delete_publish e (softDeleteByEntityId now e (sw s))) s)
| step_cleanup_read s tenantId before :
    step None s (begin_cleanup tenantId (findDeletedOlderThan tenantId before (cat (sw s))) s)
| step_cleanup s refused tenantId e l k1 k2 : cleanups s = k1 ++ (tenantId, e :: l) :: k2 ->
    step None s (with_cleanups (k1 ++ (tenantId, l) :: k2) (with_world (cleanup_turn refused e (sw s)) s))
| step_cleanup_end s r k1 k2 : cleanups s = k1 ++ r :: k2 -> step None s (with_cleanups (k1 ++ k2) s)
| step_rows s p t n : jm_get p (tables (sw s)) = Some t ->
    step None s (with_world (with_tables (jm_set p {| t_columns := t_columns t; t_rows := n |} (tables (sw s))) (sw s)) s)
| step_confirm_read s id now t : confirm_read id now (sw s) = Ok t -> step None s (add_confirm t s)
| step_confirm_commit s held refused userId t : t ∈ confirms s ->
    step (match (confirm_commit held refused userId t (sw s)).1 with Ok _ => Some (m_id (cf_migration t)) | Err _ => None end)
      s (with_world (confirm_commit held refused userId t (sw s)).2 s)
| step_complete s id : step None s (with_world (completeMigration id (sw s)).2 s)
| step_fail s id : step None s (with_world (failMigration id (sw s)).2 s)
| step_rollback s id refused batches : step None s (with_world (rollbackMigration id refused batches (sw s)).2 s)
| step_heal s : step None s (with_world (with_cat (healStuckMigrations (cat (sw s))) (sw s)) s).

Inductive trace : list string -> sys -> sys -> Prop :=
| trace_nil s : trace [] s s
| trace_step tr s s1 l s2 : trace tr s s1 -> step l s1 s2 -> trace (tr ++ match l with Some id => [id] | None => [] end) s s2.

Definition empty_sys : sys :=
  {| sw := {| cat := {| entities := []; fields := []; relationships := []; migrations := [] |}; tables := []; joins := []; views := []; bus := [] |};
     used := []; creates := []; patches := []; links := []; deletes := []; gone := []; cleanups := []; overlapped := false; confirms := [] |}.

(** ** The catalogue and the tables agree *)

(** What the agreement looks at: the identifier, the place and the tenant of each entity, the
    entity and the slug of each field, the columns of each table. *)
Definition ents (c : catalog) : list (string * (string * string) * string) := map (fun e => (e_id e, place_of e, e_tenant e)) (entities c).
Definition flds (c : catalog) : list (string * string) := map (fun f => (f_entity f, pg_name (f_slug f))) (fields c).
Definition col_list (l : jmap (string * string) Table) : jmap (string * string) (list string) := map (fun '(k, t) => (k, t_columns t)) l.
Definition cols (w : world) : jmap (string * string) (list string) := col_list (tables w).

Definition ent_id (x : string * (string * string) * string) : string := x.1.1.
Definition ent_place (x : string * (string * string) * string) : string * string := x.1.2.

(** The slugs of the fields of an entity. *)
Definition slugs_of (id : string) (F : list (string * string)) : list string :=
  map snd (List.filter (fun f => String.eqb (fst f) id) F).

Record agree (E : list (string * (string * string) * string)) (F : list (string * string)) (T : jmap (string * string) (list string)) : Prop := {
  ag_ids : NoDup (map ent_id E);
  ag_fields : Forall (fun f => f.1 ∈ map ent_id E) F;
  ag_keys : NoDup (jm_keys T);
  ag_places : jm_keys T ≡ₚ map ent_place E;
  ag_columns : forall x cs, x ∈ E -> jm_get (ent_place x) T = Some cs -> cs ≡ₚ SYSTEM_TABLE_COLUMNS ++ slugs_of (ent_id x) F
}.

(** The part of it that does not look at the tables. *)
Record rows_ok (E : list (string * (string * string) * string)) (F : list (string * string)) : Prop := {
  ro_ids : NoDup (map ent_id E);
  ro_fields : forall f, f ∈ F -> f.1 ∈ map ent_id E
}.

Lemma rows_create E F id p sl l : rows_ok E F -> id ∉ map ent_id E -> rows_ok (E ++ [(id, p, sl)]) (F ++ map (pair id) l).
Proof.
  intros [Hids Hf] Hid. split; rewrite map_app.
  - apply NoDup_app. split_and!; [done| |apply NoDup_singleton]. by intros x Hx ->%list_elem_of_singleton.
  - intros f [Hin|(x & -> & _)%list_elem_of_fmap]%elem_of_app; apply elem_of_app; [left; by apply Hf|right; by left].
Qed.

Lemma rows_add E F id l : rows_ok E F -> id ∈ map ent_id E -> rows_ok E (F ++ map (pair id) l).
Proof. intros [Hids Hf] Hid. split; [done|]. by intros f [Hin|(x & -> & _)%list_elem_of_fmap]%elem_of_app; [apply Hf|]. Qed.

Lemma rows_remove E F id : rows_ok E F ->
  rows_ok (List.filter (fun y => negb (String.eqb (ent_id y) id)) E) (List.filter (fun f => negb (String.eqb f.1 id)) F).
Proof.
  intros [Hids Hf]. split; [by apply NoDup_map_bfilter|]. intros f [Hin Hne]%elem_of_bfilter.
  destruct (proj1 (list_elem_of_fmap _ _ _) (Hf f Hin)) as (y & E1 & Hy). rewrite E1.
  apply (list_elem_of_fmap_2 ent_id), elem_of_bfilter. split; [done|]. by rewrite <- E1.
Qed.

Definition rows (c : catalog) : Prop := rows_ok (ents c) (flds c).

Definition coherent (w : world) : Prop := agree (ents (cat w)) (flds (cat w)) (cols w).

Lemma slugs_of_app id F G : slugs_of id (F ++ G) = slugs_of id F ++ slugs_of id G.
Proof. unfold slugs_of. by rewrite List.filter_app, map_app. Qed.

Lemma slugs_of_none id F : Forall (fun f => f.1 <> id) F -> slugs_of id F = [].
Proof.
  induction 1 as [|[e sl] F He _ IH]; [done|]. unfold slugs_of. cbn. cbn in He. apply String.eqb_neq in He. by rewrite He.
Qed.

Lemma slugs_of_own id l : slugs_of id (map (pair id) l) = l.
Proof. induction l as [|sl l IH]; [done|]. unfold slugs_of in *. cbn. rewrite String.eqb_refl. cbn. by rewrite IH. Qed.

Lemma NoDup_key_eq {A B} (k : A -> B) l x y : NoDup (map k l) -> x ∈ l -> y ∈ l -> k x = k y -> x = y.
Proof. apply NoDup_map_inj. Qed.

(** A new entity with its fields and its table. *)
Lemma agree_create E F T id p sl l :
  agree E F T -> id ∉ map ent_id E -> p ∉ jm_keys T ->
  agree (E ++ [(id, p, sl)]) (F ++ map (pair id) l) (jm_set p (SYSTEM_TABLE_COLUMNS ++ l) T).
Proof.
  intros [Hids Hf Hk Hp Hc] Hid Hpl. rewrite Forall_forall in Hf. split.
  - rewrite map_app. apply NoDup_app. split_and!; [done| |apply NoDup_singleton]. by intros x Hx ->%list_elem_of_singleton.
  - rewrite map_app. apply Forall_app. split.
    + apply Forall_forall. intros f Hin. apply elem_of_app. left. by apply Hf.
    + apply Forall_fmap, Forall_true. intros x. apply elem_of_app. right. by left.
  - by apply jm_set_NoDup.
  - rewrite jm_keys_set_new by done. unfold jm_keys in *. rewrite !map_app. by rewrite Hp.
  - intros x cs [Hx|Hx]%elem_of_app Hg; rewrite slugs_of_app.
    + assert (Hne : ent_place x <> p).
      { intros <-. apply Hpl. rewrite Hp. by apply list_elem_of_fmap_2. }
      rewrite jm_get_set_ne in Hg by done. rewrite (Hc x cs Hx Hg). rewrite (slugs_of_none _ (map _ l)); [by rewrite app_nil_r|].
      apply Forall_fmap, Forall_true. intros y E1. change (id = ent_id x) in E1. rewrite E1 in Hid. apply Hid. by apply list_elem_of_fmap_2.
    + apply list_elem_of_singleton in Hx as ->. cbn [ent_place ent_id fst snd] in *. rewrite jm_get_set_eq in Hg. injection Hg as <-.
      rewrite slugs_of_own, slugs_of_none; [done|]. apply Forall_forall. intros f Hin <-. apply Hid. by apply Hf.
Qed.

(** A field with its column. *)
Lemma agree_add E F T x cs sl :
  agree E F T -> x ∈ E -> jm_get (ent_place x) T = Some cs ->
  agree E (F ++ [(ent_id x, sl)]) (jm_set (ent_place x) (cs ++ [sl]) T).
Proof.
  intros [Hids Hf Hk Hp Hc] Hx Hg. assert (Hin : ent_place x ∈ jm_keys T) by (apply jm_has_true; unfold jm_has; by rewrite Hg). split.
  - done.
  - apply Forall_app. split; [done|]. constructor; [|done]. by apply (list_elem_of_fmap_2 ent_id).
  - by apply jm_set_NoDup.
  - by rewrite jm_keys_set_old.
  - intros y ds Hy Hgy. rewrite slugs_of_app. destruct (decide (ent_place x = ent_place y)) as [E1|E1].
    + assert (x = y) as <-. { apply (NoDup_map_inj ent_place E); [by rewrite <- Hp|done..]. }
      rewrite jm_get_set_eq in Hgy. injection Hgy as <-. rewrite (Hc x cs Hx Hg). rewrite <- app_assoc. f_equiv.
      unfold slugs_of at 3. cbn. by rewrite String.eqb_refl.
    + rewrite jm_get_set_ne in Hgy by done. rewrite (Hc y ds Hy Hgy). rewrite (slugs_of_none _ [_]); [by rewrite app_nil_r|].
      constructor; [|done]. intros E2. change (ent_id x = ent_id y) in E2. apply E1. f_equal. by apply (NoDup_map_inj ent_id E).
Qed.

Lemma perm_of_eq {A} (l k : list A) : l = k -> l ≡ₚ k.
Proof. by intros ->. Qed.

Lemma bfilter_map {A B} (g : A -> B) (q : B -> bool) l : List.filter q (map g l) = map g (List.filter (fun x => q (g x)) l).
Proof. induction l as [|x l IH]; [done|]. cbn. rewrite IH. by destruct (q (g x)). Qed.

Lemma bfilter_ext {A} (q r : A -> bool) l : (forall x, x ∈ l -> q x = r x) -> List.filter q l = List.filter r l.
Proof.
  induction l as [|x l IH]; intros H; [done|]. cbn. rewrite (H x) by by left. rewrite IH; [done|]. intros y Hy. apply H. by right.
Qed.

Lemma bfilter_bfilter {A} (q r : A -> bool) l : List.filter q (List.filter r l) = List.filter (fun x => r x && q x) l.
Proof. induction l as [|x l IH]; [done|]. cbn. destruct (r x); cbn; by rewrite IH. Qed.

(** An entity, its fields and its table are removed. *)
Lemma agree_remove E F T x :
  agree E F T -> x ∈ E ->
  agree (List.filter (fun y => negb (String.eqb (ent_id y) (ent_id x))) E) (List.filter (fun f => negb (String.eqb f.1 (ent_id x))) F)
    (jm_delete (ent_place x) T).
Proof.
  intros [Hids Hf Hk Hp Hc] Hx. rewrite Forall_forall in Hf.
  assert (Hpl : NoDup (map ent_place E)) by by rewrite <- Hp. split.
  - by apply NoDup_map_bfilter.
  - apply Forall_forall. intros f [Hin Hne]%elem_of_bfilter. destruct (proj1 (list_elem_of_fmap _ _ _) (Hf f Hin)) as (y & E1 & Hy).
    rewrite E1. apply (list_elem_of_fmap_2 ent_id), elem_of_bfilter. split; [done|]. by rewrite <- E1.
  - rewrite jm_keys_delete. by apply NoDup_bfilter.
  - rewrite jm_keys_delete, (bfilter_perm _ _ _ Hp), bfilter_map. apply perm_of_eq. f_equal. apply bfilter_ext. intros y Hy.
    destruct (bool_decide_reflect (ent_place x = ent_place y)) as [E1|E1], (String.eqb_spec (ent_id y) (ent_id x)) as [E2|E2]; try done.
    + destruct E2. f_equal. symmetry. by apply (NoDup_map_inj ent_place E).
    + destruct E1. f_equal. symmetry. by apply (NoDup_map_inj ent_id E).
  - intros y cs [Hy Hne]%elem_of_bfilter Hg. rewrite jm_get_delete in Hg. case_decide; [done|]. rewrite (Hc y cs Hy Hg). f_equiv.
    unfold slugs_of. apply perm_of_eq. f_equal. rewrite bfilter_bfilter. apply bfilter_ext. intros f _.
    destruct (String.eqb_spec f.1 (ent_id y)) as [E1|E1]; [|by rewrite andb_false_r]. by rewrite E1, Hne.
Qed.

(** ** The operations keep the agreement *)

Lemma no_table_keys (w : world) p : jm_has p (tables w) = false -> p ∉ jm_keys (cols w).
Proof.
  intros H. apply jm_has_false in H. assert (E : jm_keys (cols w) = jm_keys (tables w)); [|by rewrite E].
  unfold cols, col_list, jm_keys. rewrite map_map. apply map_ext. by intros [k t].
Qed.

Lemma cols_get p w : jm_get p (cols w) = t_columns <$> jm_get p (tables w).
Proof.
  unfold cols, col_list. generalize (tables w). intros l. induction l as [|[k t] l IH]; [done|]. cbn. case_decide; [done|]. exact IH.
Qed.

Lemma cols_set p t l : col_list (jm_set p t l) = jm_set p (t_columns t) (col_list l).
Proof. unfold col_list in *. induction l as [|[k u] l IH]; [done|]. cbn. case_decide; cbn; [done|]. by rewrite IH. Qed.

Lemma cols_delete p l : col_list (jm_delete p l) = jm_delete p (col_list l).
Proof. unfold jm_delete, col_list in *. induction l as [|[k u] l IH]; [done|]. cbn. case_bool_decide; cbn; by rewrite IH. Qed.

Lemma cols_set_same p t u l : jm_get p l = Some t -> t_columns u = t_columns t ->
  col_list (jm_set p u l) = col_list l.
Proof.
  intros H E. rewrite cols_set. unfold col_list. induction l as [|[k v] l IH]; [done|]. cbn in *. case_decide; [|by rewrite IH].
  injection H as ->. by rewrite E.
Qed.

(** Statements that change neither identifiers, places nor slugs. *)
Lemma ents_update p f l : (forall e, e_id (f e) = e_id e /\ place_of (f e) = place_of e /\ e_tenant (f e) = e_tenant e) ->
  map (fun e => (e_id e, place_of e, e_tenant e)) (update_where p f l) = map (fun e => (e_id e, place_of e, e_tenant e)) l.
Proof. intros H. apply (map_update_where (fun e => (e_id e, place_of e, e_tenant e))). intros e _. by destruct (H e) as (-> & -> & ->). Qed.

Lemma flds_update p f l : (forall e, f_entity (f e) = f_entity e /\ f_slug (f e) = f_slug e) ->
  map (fun e => (f_entity e, pg_name (f_slug e))) (update_where p f l) = map (fun e => (f_entity e, pg_name (f_slug e))) l.
Proof. intros H. apply (map_update_where (fun e => (f_entity e, pg_name (f_slug e)))). intros e _. by destruct (H e) as (-> & ->). Qed.

Lemma insert_migration_inv r c c' : insert_migration r c = Ok c' -> c' = with_migrations (migrations c ++ [r]) c.
Proof. unfold insert_migration. destruct (negb _); [done|]. destruct (negb _); [done|]. by intros [= <-]. Qed.

Lemma insert_entity_inv r c c' : insert_entity r c = Ok c' -> c' = with_entities (entities c ++ [r]) c.
Proof. unfold insert_entity. repeat (match goal with |- context [if ?b then _ else _] => destruct b end; [done|]). by intros [= <-]. Qed.

Lemma insert_field_inv r c c' : insert_field r c = Ok c' -> c' = with_fields (fields c ++ [r]) c.
Proof. unfold insert_field. repeat (match goal with |- context [if ?b then _ else _] => destruct b end; [done|]). by intros [= <-]. Qed.

Lemma insert_fields_inv rows c c' : foldM (fun c r => insert_field r c) c rows = Ok c' -> c' = with_fields (fields c ++ rows) c.
Proof.
  revert c. induction rows as [|r rows IH]; intros c; cbn.
  - intros [= <-]. rewrite app_nil_r. by destruct c.
  - intros H. unbind H as c1 H1. apply insert_field_inv in H1 as ->. rewrite (IH _ H). cbn. by rewrite <- app_assoc.
Qed.

Lemma field_rows_flds ids id tenantId i fs refs : length refs = length fs ->
  map (fun f => (f_entity f, pg_name (f_slug f))) (field_rows ids id tenantId i fs refs) = map (pair id) (map (fun f => pg_name (slug_of f)) fs).
Proof.
  revert i refs. induction fs as [|f fs IH]; intros i [|r refs] H; try done. cbn. by rewrite IH by (cbn in H; lia).
Qed.

Lemma check_fields_length tenantId fs c refs : check_fields tenantId fs c = Ok refs -> length refs = length fs.
Proof.
  revert refs. induction fs as [|f fs IH]; intros refs; cbn; [by intros [= <-]|]. destruct (isReservedSlug _); [done|].
  intros H. unbind H as r Hr. unbind H as rs Hrs. injection H as <-. cbn. by rewrite (IH _ Hrs).
Qed.

Lemma name_free p w : name_taken p w = false -> p ∉ jm_keys (cols w) /\ forall j, j ∈ joins w -> j_place j <> p.
Proof.
  unfold name_taken. intros [Ht Hj]%orb_false_iff. split; [by apply no_table_keys|]. intros j Hin E.
  apply not_true_iff_false in Hj. apply Hj, existsb_elem. exists j. split; [done|]. by apply bool_decide_eq_true.
Qed.

(** What the statements of the transactions make of the catalogue and the tables. *)
Lemma create_effect ids id refused t w w' :
  create_transaction ids id refused t w = Ok w' -> length (ct_refs t) = length (c_fields (ct_input t)) ->
  let p := table_place (ct_tenant t) (ct_slug t) in
  let l := map (fun f => pg_name (slug_of f)) (c_fields (ct_input t)) in
  name_taken p w = false /\ ents (cat w') = ents (cat w) ++ [(id, p, ct_tenant t)] /\ flds (cat w') = flds (cat w) ++ map (pair id) l /\
  cols w' = jm_set p (SYSTEM_TABLE_COLUMNS ++ l) (cols w) /\ relationships (cat w') = relationships (cat w) /\ joins w' = joins w.
Proof.
  intros H Hl. unfold create_transaction in H. unbind H as q Hq. unbind H as c1 H1. unbind H as c2 H2. unbind H as ddl Hddl.
  unbind H as w1 Ht. unbind H as rls Hr. unbind H as u Hu. unfold refuse in H. destruct refused; [done|]. injection H as <-.
  apply insert_entity_inv in H1 as ->. apply insert_fields_inv in H2 as ->. unfold create_table in Ht.
  destruct (name_taken _ _) eqn:Eh; [done|]. destruct (negb _); [done|]. injection Ht as <-. unfold ents, flds, cols in *. cbn in *.
  rewrite !map_app, cols_set, field_rows_flds by done. cbn. split_and!; try done. by rewrite map_map.
Qed.

Lemma create_coherent ids id refused t w w' :
  coherent w -> length (ct_refs t) = length (c_fields (ct_input t)) -> id ∉ map ent_id (ents (cat w)) ->
  create_transaction ids id refused t w = Ok w' -> coherent w'.
Proof.
  intros Hc Hl Hid H. apply create_effect in H as (Hn & He & Hf & Ht & _); [|done]. unfold coherent. rewrite He, Hf, Ht.
  apply agree_create; [done..|]. by apply name_free.
Qed.

(** The entity is where the ticket says. *)
Definition located (tenantId : string) (e : EntityRow) (c : catalog) : Prop :=
  exists x, x ∈ ents c /\ ent_id x = e_id e /\ ent_place x = table_place tenantId (e_slug e).

Definition placed (tenantId : string) (e : EntityRow) (c : catalog) : Prop :=
  forall x, x ∈ ents c -> ent_id x = e_id e -> ent_place x = table_place tenantId (e_slug e).

Lemma placed_located tenantId e c : placed tenantId e c -> e_id e ∈ map e_id (entities c) -> located tenantId e c.
Proof.
  intros Hp (r & Er & Hr)%list_elem_of_fmap. exists (e_id r, place_of r, e_tenant r).
  assert (Hx : (e_id r, place_of r, e_tenant r) ∈ ents c) by by apply (list_elem_of_fmap_2 (fun e => (e_id e, place_of e, e_tenant e))).
  split_and!; [done|by symmetry|]. by apply Hp.
Qed.

Lemma has_entity_ids id c : has_entity id c = true -> id ∈ map e_id (entities c).
Proof. intros (r & Hr & <-%String.eqb_eq)%existsb_elem. by apply list_elem_of_fmap_2. Qed.

Lemma ents_ids c : map ent_id (ents c) = map e_id (entities c).
Proof. unfold ents. rewrite map_map. done. Qed.

Lemma insert_field_keys r c c' : insert_field r c = Ok c' -> f_entity r ∈ map e_id (entities c).
Proof.
  unfold insert_field. do 8 (match goal with |- context [if ?b then _ else _] => destruct b end; [done|]).
  destruct (has_entity (f_entity r) c) eqn:E; [|done]. intros _. by apply has_entity_ids.
Qed.

Lemma add_column_inv p f w w' : add_column p f w = Ok w' ->
  cat w' = cat w /\ joins w' = joins w /\
  exists cs, jm_get p (cols w) = Some cs /\ cols w' = jm_set p (cs ++ [pg_name (d_slug f)]) (cols w).
Proof.
  unfold add_column. destruct (jm_get _ (tables w)) as [tb|] eqn:Et; [|done].
  destruct (mem _ _); [done|]. destruct (_ && _); [done|]. intros [= <-]. cbn. split_and!; [done..|].
  exists (t_columns tb). rewrite cols_get, Et. split; [done|]. unfold cols. cbn. by rewrite cols_set.
Qed.

Lemma keys_kept {A} (p : string * string) (a b : A) l : jm_get p l = Some a -> jm_keys (jm_set p b l) = jm_keys l.
Proof. intros H. apply jm_keys_set_old, jm_has_true. unfold jm_has. by rewrite H. Qed.

Lemma add_field_inv ids t w i f w' : add_field ids t w i f = Ok w' ->
  let p := table_place (pt_tenant t) (e_slug (pt_entity t)) in
  entities (cat w') = entities (cat w) /\ flds (cat w') = flds (cat w) ++ [(e_id (pt_entity t), pg_name (slug_of f))] /\
  relationships (cat w') = relationships (cat w) /\ joins w' = joins w /\
  exists cs, jm_get p (cols w) = Some cs /\ cols w' = jm_set p (cs ++ [pg_name (slug_of f)]) (cols w).
Proof.
  unfold add_field. intros H. unbind H as ref Hr. unbind H as c Hc. unbind H as ddl Hd. unbind H as u Hu.
  apply insert_field_inv in Hc as ->. apply add_column_inv in H as (-> & Hj & Hcs). split_and!; try done.
  unfold flds. cbn. by rewrite map_app.
Qed.

Lemma add_fields_effect ids t fs : forall w i w', add_fields ids t w i fs = Ok w' ->
  ents (cat w') = ents (cat w) /\ (exists l, flds (cat w') = flds (cat w) ++ map (pair (e_id (pt_entity t))) l) /\
  jm_keys (cols w') = jm_keys (cols w) /\ relationships (cat w') = relationships (cat w) /\ joins w' = joins w /\
  (coherent w -> located (pt_tenant t) (pt_entity t) (cat w) -> coherent w').
Proof.
  induction fs as [|f fs IH]; intros w i w' H; cbn in H.
  { injection H as <-. split_and!; try done. exists []. by rewrite app_nil_r. }
  unbind H as w1 H1. apply add_field_inv in H1 as (He & Hf & Hr & Hj & cs & Hg & Hcols). unfold ents in *.
  destruct (IH _ _ _ H) as (He' & (l & Hf') & Hk' & Hr' & Hj' & Hc'). split_and!; try congruence.
  - exists (pg_name (slug_of f) :: l). rewrite Hf', Hf, <- app_assoc. done.
  - rewrite Hk', Hcols. by eapply keys_kept.
  - intros Hc (x & Hx & Hid & Hp). apply Hc'; [|exists x; unfold ents; by rewrite He].
    unfold coherent, ents in *. rewrite He, Hf, Hcols, <- Hid, <- Hp. apply agree_add; [done..|]. by rewrite Hp.
Qed.

Lemma update_fields_flds existing us : forall c c', foldM (update_field existing) c us = Ok c' ->
  flds c' = flds c /\ entities c' = entities c /\ relationships c' = relationships c /\ migrations c' = migrations c.
Proof.
  induction us as [|u us IH]; intros c c'; cbn; [by intros [= <-]|]. intros H. unbind H as c1 H1. destruct (IH _ _ H) as (-> & -> & -> & ->).
  unfold update_field in H1. destruct (List.find _ existing); [|by injection H1 as <-]. destruct (match uf_name u with Some n => _ | None => _ end); [|done].
  injection H1 as <-. split; [|done]. by apply flds_update.
Qed.

Lemma update_entity_inv e input c c' : update_entity e input c = Ok c' ->
  (exists r, r ∈ entities c /\ same_version e r = true) /\ c' = with_entities (update_where (same_version e) (patched input) (entities c)) c.
Proof.
  unfold update_entity. destruct (existsb _ _) eqn:E; [|done]. destruct (match p_name input with Some n => _ | None => _ end); [|done].
  intros [= <-]. split; [|done]. by apply existsb_elem in E.
Qed.

Lemma patch_effect ids refused t w w' : patch_transaction ids refused t w = Ok w' ->
  ents (cat w') = ents (cat w) /\ (exists l, flds (cat w') = flds (cat w) ++ map (pair (e_id (pt_entity t))) l) /\
  e_id (pt_entity t) ∈ map ent_id (ents (cat w)) /\
  jm_keys (cols w') = jm_keys (cols w) /\ relationships (cat w') = relationships (cat w) /\ joins w' = joins w /\
  (coherent w -> placed (pt_tenant t) (pt_entity t) (cat w) -> coherent w').
Proof.
  intros H. unfold patch_transaction in H. unbind H as u Hu. unbind H as c1 H1. unbind H as w2 H2. unbind H as c3 H3.
  unfold refuse in H. destruct refused; [done|]. injection H as <-. apply update_entity_inv in H1 as [(r & Hr & Hv) ->].
  assert (Hin : e_id (pt_entity t) ∈ map ent_id (ents (cat w))).
  { unfold same_version in Hv. rewrite !andb_true_iff, !String.eqb_eq in Hv. destruct Hv as (((<- & _) & _) & _).
    rewrite ents_ids. by apply list_elem_of_fmap_2. }
  set (c1 := with_entities _ _) in *. assert (He1 : ents c1 = ents (cat w)) by by apply ents_update.
  assert (Hf1 : flds c1 = flds (cat w) /\ relationships c1 = relationships (cat w)) by done. destruct Hf1 as [Hf1 Hr1]. clearbody c1.
  apply add_fields_effect in H2 as (He2 & (l & Hf2) & Hk2 & Hr2 & Hj2 & Hc2).
  apply update_fields_flds in H3 as (Hf & He & Hr3 & _). cbn in *. assert (He3 : ents c3 = ents (cat w2)) by (unfold ents; by rewrite He).
  split_and!; try congruence.
  - exists l. by rewrite Hf, Hf2, Hf1.
  - exact Hk2.
  - intros Hc Hp. unfold coherent in *. cbn. rewrite He3, Hf. apply Hc2; [cbn; by rewrite He1, Hf1|].
    apply placed_located; [intros x; cbn; rewrite He1; apply Hp|]. cbn; by rewrite <- ents_ids, He1.
Qed.

Lemma cleanup_effect refused e w w' : cleanup_one refused e w = Ok w' ->
  (forall j, j ∈ joins w -> j_from j <> place_of e /\ j_to j <> place_of e) /\
  ents (cat w') = List.filter (fun x => negb (String.eqb (ent_id x) (e_id e))) (ents (cat w)) /\
  flds (cat w') = List.filter (fun f => negb (String.eqb f.1 (e_id e))) (flds (cat w)) /\
  relationships (cat w') = List.filter (fun l => negb (String.eqb (l_from l) (e_id e) || String.eqb (l_to l) (e_id e))) (relationships (cat w)) /\
  cols w' = jm_delete (place_of e) (cols w) /\ joins w' = joins w.
Proof.
  intros H. unfold cleanup_one in H. unbind H as q Hq. unbind H as w1 Hw. unbind H as c Hd. unfold refuse in H. destruct refused; [done|].
  injection H as <-. unfold drop_table in Hw. destruct (existsb _ _) eqn:Ej; [done|]. injection Hw as <-.
  unfold hard_delete in Hd. destruct (existsb _ (migrations _)); [done|]. destruct (existsb (fun f => bool_decide _) _); [done|]. injection Hd as <-.
  unfold ents, flds, cols. cbn. rewrite cols_delete, !bfilter_map. split_and!; try done. intros j Hj. apply not_true_iff_false in Ej.
  split; intros E; apply Ej, existsb_elem; exists j; split; try done; apply orb_true_iff; [left|right]; by apply bool_decide_eq_true.
Qed.

Lemma cleanup_coherent refused e w w' :
  coherent w -> (e_id e, place_of e, e_tenant e) ∈ ents (cat w) -> cleanup_one refused e w = Ok w' -> coherent w'.
Proof.
  intros Hc He (_ & E1 & E2 & _ & E3 & _)%cleanup_effect. unfold coherent. rewrite E1, E2, E3.
  by apply (agree_remove _ _ _ (e_id e, place_of e, e_tenant e)).
Qed.

(** A relationship makes a column with its field, or a join table. *)
Lemma link_effect fid rid refused t w w' : link_transaction fid rid refused t w = Ok w' ->
  exists join, entities (cat w') = entities (cat w) /\ relationships (cat w') = relationships (cat w) ++ [relationship_row rid join t] /\
  e_id (lt_from t) ∈ map e_id (entities (cat w)) /\ e_id (lt_to t) ∈ map e_id (entities (cat w)) /\
  ((relationshipType (lt_input t) = ManyToMany /\ join = Some (join_table_name t) /\ fields (cat w') = fields (cat w) /\
    tables w' = tables w /\ joins w' = joins w ++ [join_table t] /\ name_taken (j_place (join_table t)) w = false) \/
   (relationshipType (lt_input t) <> ManyToMany /\ fields (cat w') = fields (cat w) ++ [fk_field fid t] /\ joins w' = joins w /\
    exists cs, jm_get (link_place t (lt_from t)) (cols w) = Some cs /\
      cols w' = jm_set (link_place t (lt_from t)) (cs ++ [pg_name (fk_column (lt_to t))]) (cols w))).
Proof.
  unfold link_transaction. intros H. unbind H as [join w1] H1. unbind H as c Hc. unfold refuse in H. destruct refused; [done|].
  injection H as <-. assert (Hk : c = with_relationships (relationships (cat w1) ++ [relationship_row rid join t]) (cat w1) /\
    has_entity (e_id (lt_from t)) (cat w1) = true /\ has_entity (e_id (lt_to t)) (cat w1) = true).
  { unfold insert_relationship in Hc. do 3 (match type of Hc with (if ?b then _ else _) = _ => destruct b end; [done|]). cbn in Hc.
    destruct (has_entity (e_id (lt_from t)) _); [|done]. destruct (has_entity (e_id (lt_to t)) _); [|done]. by injection Hc as <-. }
  destruct Hk as (-> & Hfrom%has_entity_ids & Hto%has_entity_ids). exists join. destruct (decide _) as [Em|Em].
  - unbind H1 as ddl Hddl. unbind H1 as w2 H2. injection H1 as <- <-. unfold create_join_table in H2.
    destruct (name_taken _ _) eqn:En; [done|]. case_bool_decide; [done|]. destruct (negb _); [done|]. injection H2 as <-. cbn in *.
    split_and!; try done. left. by split_and!.
  - unbind H1 as w2 H2. unbind H1 as c2 H3. injection H1 as <- <-. apply insert_field_inv in H3 as ->. unfold add_fk_column in H2.
    unbind H2 as q1 Hq1. unbind H2 as q2 Hq2. unbind H2 as q3 Hq3. unbind H2 as w3 H3. destruct (jm_has _ _); [|done]. injection H2 as <-.
    apply add_column_inv in H3 as (Ec & Ej & cs & Hg & Hcols). cbn in *. rewrite Ec in *. split_and!; try done. right. split_and!; try done.
    exists cs. by split.
Qed.

Lemma link_coherent fid rid refused t w w' :
  coherent w -> placed (lt_tenant t) (lt_from t) (cat w) -> link_transaction fid rid refused t w = Ok w' -> coherent w'.
Proof.
  intros Hc Hp (join & He & _ & Hfrom & _ & [(_ & _ & Hf & Ht & _)|(_ & Hf & _ & cs & Hg & Ht)])%link_effect.
  - unfold coherent, ents, flds, cols in *. by rewrite He, Hf, Ht.
  - destruct (placed_located _ _ _ Hp Hfrom) as (x & Hx & Hid & Hpl). unfold coherent, ents, flds in *. rewrite He, Hf, Ht, map_app.
    unfold link_place in *. rewrite <- Hpl in *. cbn [map]. change (f_entity (fk_field fid t)) with (e_id (lt_from t)). rewrite <- Hid.
    by apply agree_add.
Qed.

(** The operations on migrations change the versions of entities, migrations and views. *)
Definition calm (w w' : world) : Prop :=
  ents (cat w') = ents (cat w) /\ fields (cat w') = fields (cat w) /\ tables w' = tables w /\
  relationships (cat w') = relationships (cat w) /\ joins w' = joins w.

Lemma calm_coherent w w' : calm w w' -> coherent w -> coherent w'.
Proof. intros (He & Hf & Ht & _). unfold coherent, cols. rewrite He, Ht. unfold flds. by rewrite Hf. Qed.

Lemma create_view_calm p v fs w w' : create_view p v fs w = Ok w' -> calm w w' /\ cat w' = cat w.
Proof. unfold create_view. case_bool_decide; [done|]. destruct (jm_get _ _); [|done]. destruct (forallb _ _); [|done]. by intros [= <-]. Qed.

Lemma drop_of_calm m w w' : drop_of m w = Ok w' -> calm w w' /\ cat w' = cat w.
Proof.
  unfold drop_of, drop_view. destruct (m_view m) as [[|c v]|]; [by intros [= <-]| |by intros [= <-]]. intros H. unbind H as q Hq. by injection H as <-.
Qed.

Lemma confirm_calm held refused userId t w w' : confirm_transaction held refused userId t w = Ok w' -> calm w w' /\ entities (cat w') = entities (cat w).
Proof.
  unfold confirm_transaction. destruct held; [done|]. unfold setConfirmed. destruct (negb _); [done|]. intros H. unbind H as w1 H1.
  unfold refuse in H. destruct refused; [done|]. injection H as <-. set (c1 := update_migration _ _ _) in H1.
  assert (H2 : calm (with_cat c1 w) w1 /\ cat w1 = c1).
  { destruct (m_fields (cf_migration t)) as [fs|]; [|by injection H1 as <-]. unbind H1 as ddl Hd. apply create_view_calm in H1 as [? ?]. done. }
  destruct H2 as [(He & Hf & Ht & Hr & Hj) Hc1]. cbn in *. subst c1. unfold calm. cbn. rewrite Hc1. by split_and!.
Qed.

Lemma complete_calm id w : calm w (completeMigration id w).2.
Proof.
  unfold completeMigration. destruct (migration_findById _ _) as [m|]; [|done]. destruct (entity_findById _ _ _) as [e|]; [|done].
  destruct (drop_of m w) as [w1|] eqn:Ed; [|done]. apply drop_of_calm in Ed as [(H1 & H2 & H3 & H4 & H5) Hc]. split_and!; cbn; rewrite ?Hc; try done.
  by apply ents_update.
Qed.

Lemma fail_calm id w : calm w (failMigration id w).2.
Proof.
  unfold failMigration. destruct (migration_findById _ _) as [m|]; [|done].
  destruct (drop_of m w) as [w1|] eqn:Ed; [|done]. apply drop_of_calm in Ed as [(H1 & H2 & H3 & H4 & H5) Hc]. by split_and!.
Qed.

Lemma rollback_calm id refused batches w : calm w (rollbackMigration id refused batches w).2.
Proof.
  unfold rollbackMigration. destruct (migration_findById _ _) as [m|]; [|done]. destruct (entity_findById _ _ _) as [e|]; [|done].
  destruct (traverse _ _); [|done]. destruct (drop_of m w) as [w1|] eqn:Ed; [|done]. apply drop_of_calm in Ed as [(H1 & H2 & H3 & H4 & H5) Hc]. by split_and!.
Qed.

(** ** Every reachable state *)

Record sys_inv (s : sys) : Prop := {
  si_rows : rows (cat (sw s));
  si_used : forall x, x ∈ ents (cat (sw s)) -> ent_id x ∈ used s;
  si_creates : forall t, t ∈ creates s -> length (ct_refs t) = length (c_fields (ct_input t));
  si_patches : forall t, t ∈ patches s -> e_id (pt_entity t) ∈ used s /\ placed (pt_tenant t) (pt_entity t) (cat (sw s));
  si_links : forall t e, t ∈ links s -> e = lt_from t \/ e = lt_to t -> e_id e ∈ used s /\ placed (lt_tenant t) e (cat (sw s))
}.

Lemma inv_use s l : sys_inv s -> sys_inv (use_ids l s).
Proof.
  intros [H1 H2 H3 H4 H5]. assert (Hu : forall x, x ∈ used s -> x ∈ l ++ used s) by (intros x Hx; apply elem_of_app; by right).
  split; cbn; [done|auto|done|..].
  - intros t Ht. destruct (H4 t Ht). auto.
  - intros t e Ht He. destruct (H5 t e Ht He). auto.
Qed.

(** A step after which the catalogue has the same entities, or fewer, or new ones. *)
Lemma inv_world s l w : sys_inv s -> rows (cat w) ->
  (forall x, x ∈ ents (cat w) -> x ∈ ents (cat (sw s)) \/ ent_id x ∈ l /\ ent_id x ∉ used s) ->
  sys_inv (use_ids l (with_world w s)).
Proof.
  intros [H1 H2 H3 H4 H5] Hr Hx. assert (Hu : forall x, x ∈ used s -> x ∈ l ++ used s) by (intros x Hin; apply elem_of_app; by right).
  assert (Hp : forall tid e, e_id e ∈ used s -> placed tid e (cat (sw s)) -> placed tid e (cat w)).
  { intros tid e He Hp x [Hin|[_ Hn]]%Hx Hid; [by apply Hp|]. by rewrite Hid in Hn. }
  split; cbn; [done|..|done| |].
  - intros x [?|[? _]]%Hx; [by apply Hu, H2|apply elem_of_app; by left].
  - intros t Ht. destruct (H4 t Ht). auto.
  - intros t e Ht He. destruct (H5 t e Ht He). auto.
Qed.

Lemma inv_fewer s w : sys_inv s -> rows (cat w) -> ents (cat w) ⊆ ents (cat (sw s)) -> sys_inv (with_world w s).
Proof. intros Hi Hr He. apply (inv_world s []); auto. Qed.

Lemma inv_calm s w : sys_inv s -> calm (sw s) w -> sys_inv (with_world w s).
Proof.
  intros Hi (He & Hf & _). apply inv_fewer; [done| |by rewrite He]. destruct Hi as [H1 _ _ _ _].
  unfold rows, flds in *. by rewrite He, Hf.
Qed.

Lemma patch_read_spec tenantId etype input w t cls : patch_read tenantId etype input w = Ok (t, cls) ->
  pt_tenant t = tenantId /\ pt_entity t ∈ entities (cat w) /\ e_tenant (pt_entity t) = tenantId /\ e_deleted_at (pt_entity t) = None /\
  pt_fields t = findByEntityId (e_id (pt_entity t)) (cat w).
Proof.
  unfold patch_read, entity_findBySlug. destruct (find_row _ _) as [e|] eqn:E; [|done]. destruct (findActiveByEntityId _ _); [done|].
  intros H. unbind H as n Hn. injection H as <- _. cbn. apply find_row_spec in E as [Hin Hp].
  rewrite !andb_true_iff, !String.eqb_eq in Hp. unfold live in Hp. destruct (e_deleted_at e); [|tauto]. by destruct Hp.
Qed.

Lemma create_read_length tenantId input w t : create_read tenantId input w = Ok t -> length (ct_refs t) = length (c_fields (ct_input t)).
Proof.
  unfold create_read. destruct (isReservedSlug _); [done|]. destruct (entity_findBySlug _ _ _); [done|]. intros H. unbind H as refs Hr.
  injection H as <-. cbn. by eapply check_fields_length.
Qed.

Lemma elem_ents e c : e ∈ entities c -> (e_id e, place_of e, e_tenant e) ∈ ents c.
Proof. apply (list_elem_of_fmap_2 (fun e => (e_id e, place_of e, e_tenant e))). Qed.

Lemma read_placed tenantId e c : rows c -> e ∈ entities c -> e_tenant e = tenantId -> placed tenantId e c.
Proof.
  intros [Hids _] He <- x Hx Hid. by rewrite (NoDup_map_inj ent_id (ents c) x _ Hids Hx (elem_ents _ _ He) Hid).
Qed.

(** What each step does to the catalogue. *)
Lemma link_read_spec tenantId input w t : link_read tenantId input w = Ok t ->
  lt_tenant t = tenantId /\ forall e, e = lt_from t \/ e = lt_to t -> e ∈ entities (cat w) /\ e_tenant e = tenantId.
Proof.
  unfold link_read. destruct (entity_findBySlug _ _ _) as [from|] eqn:E1; [|done]. destruct (entity_findBySlug _ (toEntitySlug _) _) as [to|] eqn:E2; [|done].
  intros [= <-]. apply entity_findBySlug_spec in E1 as (? & ? & _), E2 as (? & ? & _). split; [done|]. by intros e [-> | ->].
Qed.

Lemma soft_delete_calm now e w : calm w (softDelete now e w).
Proof. split_and!; try done. by apply ents_update. Qed.

Lemma cleanup_rows refused e w w' : rows (cat w) -> cleanup_one refused e w = Ok w' ->
  rows (cat w') /\ ents (cat w') ⊆ ents (cat w).
Proof.
  intros Hr (_ & E1 & E2 & _)%cleanup_effect. unfold rows. rewrite E1, E2. split; [by apply rows_remove|]. by intros x [? _]%elem_of_bfilter.
Qed.

Lemma link_rows fid rid refused t w w' : rows (cat w) -> link_transaction fid rid refused t w = Ok w' ->
  rows (cat w') /\ ents (cat w') = ents (cat w).
Proof.
  intros Hr (join & He & _ & Hfrom & _ & Hcase)%link_effect.
  assert (Ee : ents (cat w') = ents (cat w)) by (unfold ents; by rewrite He). split; [|done]. unfold rows in *. rewrite Ee.
  destruct Hcase as [(_ & _ & Hf & _)|(_ & Hf & _)]; unfold flds in *; rewrite Hf; [done|]. rewrite map_app.
  apply (rows_add _ _ (e_id (lt_from t)) [_]); [done|]. by rewrite ents_ids.
Qed.

Lemma heal_calm w : calm w (with_cat (healStuckMigrations (cat w)) w).
Proof. done. Qed.

Lemma step_inv l s s' : step l s s' -> sys_inv s -> sys_inv s'.
Proof.
  intros Hs Hi. assert (Hi' := Hi). destruct Hi' as [H1 H2 H3 H4 H5]. destruct Hs as
    [s tid input t Hr|s ids id refused t Ht Hid|s tid et input t cls Hr|s id now t changes w Ht Hid Hst|s ids refused t Ht Hfr
    |s tid input t Hr|s fid rid refused t Ht Hid|s tid et confirm e Hr|s now e He|s now e He|s tid before|s refused tid e l k1 k2 Hk|s r k1 k2 Hk
    |s p t n Hg|s id now t Hr|s held refused uid t Ht|s id|s id|s id refused batches|s].
  - split; cbn; try done. intros t' [->|Ht']%elem_of_cons; [by eapply create_read_length|by apply H3].
  - unfold create_commit. destruct (create_transaction ids id refused t (sw s)) as [w1|] eqn:E; [|by apply inv_use].
    apply create_effect in E as (_ & He & Hf & _); [|by apply H3]. assert (Hnew : id ∉ used s) by (apply Hid; by left).
    apply inv_world; [done| |]; cbn; rewrite ?He.
    + unfold rows. cbn. unfold rows in H1. change (rows_ok (ents (cat w1)) (flds (cat w1))). rewrite He, Hf. apply rows_create; [done|].
      intros (x & -> & Hx)%list_elem_of_fmap. by apply Hnew, H2.
    + intros x [Hx|Hx%list_elem_of_singleton]%elem_of_app; [by left|]. subst x. right. split; [by left|done].
  - apply patch_read_spec in Hr as (<- & Hin & Ht & _ & _). split; cbn; try done. intros t' [->|Ht']%elem_of_cons; [|by apply H4].
    split; [by apply (H2 _ (elem_ents _ _ Hin))|by apply read_placed].
  - apply inv_use. apply inv_calm; [done|]. unfold store_plan in Hst. unbind Hst as fs Hf. unbind Hst as c Hc. injection Hst as <-.
    apply insert_migration_inv in Hc as ->. done.
  - apply inv_use. unfold patch_commit. destruct (patch_transaction ids refused t (sw s)) as [w1|] eqn:E; [|by apply inv_calm].
    apply patch_effect in E as (He & (l & Hf) & Hin & _).
    assert (Hrows : rows (cat w1)) by (unfold rows; rewrite He, Hf; by apply rows_add).
    destruct (entity_findBySlug _ _ _); (apply inv_fewer; [done|exact Hrows|]; cbn; by rewrite He).
  - apply link_read_spec in Hr as [<- Hr]. split; cbn; try done. intros t' e [->|Ht']%elem_of_cons He; [|by apply H5].
    destruct (Hr e He) as [Hin Hten]. split; [by apply (H2 _ (elem_ents _ _ Hin))|by apply read_placed].
  - apply inv_use. unfold link_commit. destruct (link_transaction fid rid refused t (sw s)) as [w1|] eqn:E; [|by apply inv_calm].
    apply link_rows in E as [Hr He]; [|done]. apply inv_fewer; [done..|]. cbn. by rewrite He.
  - by split; cbn.
  - apply (inv_calm s (softDelete now e (sw s))) in Hi; [|apply (soft_delete_calm now e)]. destruct Hi as [J1 J2 J3 J4 J5]. by split.
  - apply inv_fewer; [done| |done]. unfold rows. change (rows_ok (ents (cat (sw s))) (flds (cat (softDeleteByEntityId now e (sw s))))).
    assert (flds (cat (softDeleteByEntityId now e (sw s))) = flds (cat (sw s))) as -> by by apply flds_update. exact H1.
  - by split; cbn.
  - enough (Hw : sys_inv (with_world (cleanup_turn refused e (sw s)) s)) by (destruct Hw as [J1 J2 J3 J4 J5]; by split).
    unfold cleanup_turn. destruct (cleanup_one refused e (sw s)) as [w|] eqn:E; [|by apply inv_calm].
    apply cleanup_rows in E as [Hr He]; [|done]. by apply inv_fewer.
  - by split; cbn.
  - by apply inv_fewer.
  - by split; cbn.
  - unfold confirm_commit. destruct (confirm_transaction held refused uid t (sw s)) as [w1|] eqn:E; [|by apply inv_calm].
    apply confirm_calm in E as [Hc _]. apply inv_calm; [done|]. exact Hc.
  - apply inv_calm; [done|apply complete_calm].
  - apply inv_calm; [done|apply fail_calm].
  - apply inv_calm; [done|apply rollback_calm].
  - by apply inv_calm.
Qed.

Lemma trace_inv tr s s' : trace tr s s' -> sys_inv s -> sys_inv s'.
Proof. induction 1 as [|tr s s1 l s2 _ IH Hst]; [done|]. intros Hi. eapply step_inv; eauto. Qed.

Lemma empty_inv : sys_inv empty_sys.
Proof. split; cbn; try (by intros x Hx%not_elem_of_nil); [split; cbn; [constructor|by intros x Hx%not_elem_of_nil]|by intros x e Hx%not_elem_of_nil]. Qed.

(** ** The tables, while no two runs of the cleanup of a tenant overlap *)

Definition join_place (r : RelationshipRow) : string * string := table_place (l_tenant r) (default EmptyString (l_join r)).

(** The relationships between many and many and their tables. *)
Record joined (w : world) : Prop := {
  jo_places : NoDup (map j_place (joins w));
  jo_apart : forall j, j ∈ joins w -> j_place j ∉ jm_keys (cols w);
  jo_table : forall r, r ∈ relationships (cat w) -> l_type r = ManyToMany -> exists j x y, j ∈ joins w /\ j_place j = join_place r /\
    x ∈ ents (cat w) /\ ent_id x = l_from r /\ ent_place x = j_from j /\ y ∈ ents (cat w) /\ ent_id y = l_to r /\ ent_place y = j_to j;
  jo_owner : forall j, j ∈ joins w -> exists r, r ∈ relationships (cat w) /\ l_type r = ManyToMany /\ join_place r = j_place j
}.

(** More entities, and tables for them alone. *)
Lemma joined_grow w w' : joined w -> joins w' = joins w -> relationships (cat w') = relationships (cat w) ->
  ents (cat w) ⊆ ents (cat w') -> (forall j, j ∈ joins w -> j_place j ∉ jm_keys (cols w')) -> joined w'.
Proof.
  intros [J1 J2 J3 J4] Ej Er He Hk. split; rewrite ?Ej, ?Er; [done|done| |done]. intros r Hr Hm.
  destruct (J3 r Hr Hm) as (j & x & y & Hj & Hp & Hx & Hxi & Hxp & Hy & Hyi & Hyp). exists j, x, y. by split_and!; auto.
Qed.

Lemma joined_keys w w' : joined w -> joins w' = joins w -> relationships (cat w') = relationships (cat w) ->
  ents (cat w') = ents (cat w) -> jm_keys (cols w') = jm_keys (cols w) -> joined w'.
Proof. intros Hj Ej Er He Hk. apply (joined_grow w); [done..|by rewrite He|]. rewrite Hk. apply Hj. Qed.

Lemma joined_calm w w' : calm w w' -> joined w -> joined w'.
Proof. intros (He & _ & Ht & Hr & Hj) H. apply (joined_keys w); try done. unfold cols. by rewrite Ht. Qed.

Lemma joined_create ids id refused t w w' :
  joined w -> length (ct_refs t) = length (c_fields (ct_input t)) -> create_transaction ids id refused t w = Ok w' -> joined w'.
Proof.
  intros Hj Hl H. apply create_effect in H as ([Hf1 Hf2]%name_free & He & _ & Hc & Hr & Ej); [|done].
  apply (joined_grow w); [done..| |]. { rewrite He. intros x Hx. apply elem_of_app. by left. }
  intros j Hin. rewrite Hc, jm_keys_set_new by done. unfold jm_keys. rewrite map_app. intros [Hk|Hk%list_elem_of_singleton]%elem_of_app; [by eapply jo_apart|].
  by apply (Hf2 j).
Qed.

Lemma joined_link fid rid refused t w w' :
  joined w -> placed (lt_tenant t) (lt_from t) (cat w) -> placed (lt_tenant t) (lt_to t) (cat w) ->
  link_transaction fid rid refused t w = Ok w' -> joined w'.
Proof.
  intros [J1 J2 J3 J4] Hpf Hpt (join & He & Hr & Hfrom & Hto & Hcase)%link_effect.
  assert (Ee : ents (cat w') = ents (cat w)) by (unfold ents; by rewrite He).
  destruct Hcase as [(Hm & -> & _ & Ht & Ej & [Hn1 Hn2]%name_free)|(Hm & _ & Ej & cs & Hg & Ht)].
  - destruct (placed_located _ _ _ Hpf Hfrom) as (x & Hx & Hxi & Hxp). destruct (placed_located _ _ _ Hpt Hto) as (y & Hy & Hyi & Hyp).
    assert (Hk : cols w' = cols w) by (unfold cols; by rewrite Ht). split; rewrite ?Ej, ?Hr, ?Hk, ?Ee.
    + rewrite map_app. apply NoDup_app. split_and!; [done| |apply NoDup_singleton].
      intros p (j & -> & Hj)%list_elem_of_fmap E%list_elem_of_singleton. by apply (Hn2 j).
    + intros j [Hj|Hj%list_elem_of_singleton]%elem_of_app; [by apply J2|]. by subst j.
    + intros r [Hin|Hin%list_elem_of_singleton]%elem_of_app Hrm.
      * destruct (J3 r Hin Hrm) as (j & a & b & Hj & ?). exists j, a, b. split; [|done]. apply elem_of_app. by left.
      * subst r. exists (join_table t), x, y. split_and!; try done. apply elem_of_app. right. by left.
    + intros j [Hj|Hj%list_elem_of_singleton]%elem_of_app.
      * destruct (J4 j Hj) as (r & Hin & ?). exists r. split; [|done]. apply elem_of_app. by left.
      * subst j. eexists. split; [apply elem_of_app; right; by left|done].
  - split; rewrite ?Ej, ?Hr, ?Ee; [done| | |].
    + intros j Hj. rewrite Ht. erewrite keys_kept by done. by apply J2.
    + intros r [Hin|Hin%list_elem_of_singleton]%elem_of_app Hrm; [by apply J3|]. by subst r.
    + intros j Hj. destruct (J4 j Hj) as (r & Hin & ?). exists r. split; [|done]. apply elem_of_app. by left.
Qed.

(** The table of an entity is dropped only when no join table refers to it, so the
    relationships that go with the entity had none. *)
Lemma joined_cleanup refused e w w' :
  joined w -> rows (cat w) -> (e_id e, place_of e, e_tenant e) ∈ ents (cat w) -> cleanup_one refused e w = Ok w' -> joined w'.
Proof.
  intros [J1 J2 J3 J4] [Hids _] Hin (Hfree & He & _ & Hr & Hc & Ej)%cleanup_effect.
  assert (Hkeep : forall j r, j ∈ joins w -> r ∈ relationships (cat w) -> l_type r = ManyToMany -> join_place r = j_place j ->
    exists x y, x ∈ ents (cat w) /\ ent_id x = l_from r /\ ent_place x = j_from j /\ ent_id x <> e_id e /\
                y ∈ ents (cat w) /\ ent_id y = l_to r /\ ent_place y = j_to j /\ ent_id y <> e_id e).
  { intros j r Hj Hrin Hrm Hp. destruct (J3 r Hrin Hrm) as (j' & x & y & Hj' & Hp' & Hx & Hxi & Hxp & Hy & Hyi & Hyp).
    assert (j' = j) as -> by (apply (NoDup_map_inj j_place (joins w)); [done..|congruence]). destruct (Hfree j Hj) as [Hf Ht].
    assert (Hne : forall z, z ∈ ents (cat w) -> ent_id z = e_id e -> ent_place z = place_of e).
    { intros z Hz Hid. by rewrite (NoDup_map_inj ent_id (ents (cat w)) z _ Hids Hz Hin Hid). }
    exists x, y. split_and!; try done; intros E; [apply Hf|apply Ht]; rewrite <- ?Hxp, <- ?Hyp; by apply Hne. }
  split; rewrite ?Ej, ?Hr, ?He.
  - done.
  - intros j Hj. rewrite Hc, jm_keys_delete. intros [Hk _]%elem_of_bfilter. by eapply J2.
  - intros r [Hrin _]%elem_of_bfilter Hrm. destruct (J3 r Hrin Hrm) as (j & _ & _ & Hj & Hp & _).
    destruct (Hkeep j r Hj Hrin Hrm (eq_sym Hp)) as (x & y & Hx & Hxi & Hxp & Hxn & Hy & Hyi & Hyp & Hyn).
    exists j, x, y. split_and!; try done; apply elem_of_bfilter; (split; [done|]); by apply negb_true_iff, String.eqb_neq.
  - intros j Hj. destruct (J4 j Hj) as (r & Hrin & Hrm & Hp). exists r. split; [|done]. apply elem_of_bfilter. split; [done|].
    destruct (Hkeep j r Hj Hrin Hrm Hp) as (x & y & _ & Hxi & _ & Hxn & _ & Hyi & _ & Hyn). rewrite <- Hxi, <- Hyi.
    by rewrite !(proj2 (String.eqb_neq _ _)).
Qed.

(** The rows that the runs of the cleanup have still to come to. *)
Definition to_clean (s : sys) : list EntityRow := concat (map snd (cleanups s)).

(** What holds while no two runs for one tenant have overlapped: what a run has still to
    clean up is in the catalogue, and only one run will come to it. *)
Record neat (s : sys) : Prop := {
  ne_coherent : coherent (sw s);
  ne_joined : joined (sw s);
  ne_runs : NoDup (map e_id (to_clean s));
  ne_rows : forall tid l e, (tid, l) ∈ cleanups s -> e ∈ l ->
    e_tenant e = tid /\ (e_id e, place_of e, e_tenant e) ∈ ents (cat (sw s))
}.

Lemma neat_world s w : neat s -> coherent w -> joined w -> ents (cat (sw s)) ⊆ ents (cat w) -> neat (with_world w s).
Proof.
  intros [H1 H2 H3 H4] Hc Hj He. split; cbn; [done..|]. intros tid l e Hr Hin. destruct (H4 tid l e Hr Hin). auto.
Qed.

Lemma neat_calm s w : neat s -> calm (sw s) w -> neat (with_world w s).
Proof.
  intros Hn Hc. apply neat_world; [done|by eapply calm_coherent, Hn|by eapply joined_calm, Hn|]. by destruct Hc as [-> _].
Qed.

Lemma neat_use l s : neat s -> neat (use_ids l s).
Proof. intros [H1 H2 H3 H4]. by split. Qed.

Lemma elem_to_clean s e : e ∈ to_clean s <-> exists tid l, (tid, l) ∈ cleanups s /\ e ∈ l.
Proof.
  unfold to_clean. rewrite list_elem_of_In, in_concat. split.
  - intros (l & Hl & He). apply in_map_iff in Hl as ([tid l'] & <- & Hin). exists tid, l'. by rewrite !list_elem_of_In.
  - intros (tid & l & Hl & He). exists l. split; [|by apply list_elem_of_In]. apply in_map_iff. exists (tid, l). split; [done|by apply list_elem_of_In].
Qed.

(** A run that begins finds rows that no other run has. *)
Lemma neat_begin s tid before : sys_inv s -> neat s -> cleaning tid s = false ->
  neat (begin_cleanup tid (findDeletedOlderThan tid before (cat (sw s))) s).
Proof.
  intros Hi [H1 H2 H3 H4] Hno. set (l0 := findDeletedOlderThan _ _ _).
  assert (Hl : forall e, e ∈ l0 -> e_tenant e = tid /\ (e_id e, place_of e, e_tenant e) ∈ ents (cat (sw s))).
  { intros e. unfold l0, findDeletedOlderThan. rewrite order_by_perm. intros [Hin Hp]%elem_of_bfilter.
    apply andb_true_iff in Hp as [Hp%String.eqb_eq _]. split; [done|by apply elem_ents]. }
  split; cbn; [done..| |].
  - unfold to_clean. cbn. rewrite map_app. apply NoDup_app. split_and!; [| |exact H3].
    + unfold l0, findDeletedOlderThan. rewrite order_by_perm. apply NoDup_map_bfilter. rewrite <- ents_ids. apply Hi.
    + intros i (e & -> & He)%list_elem_of_fmap (e' & Ei & He')%list_elem_of_fmap. apply elem_to_clean in He' as (tid' & l' & Hr & He').
      destruct (Hl e He) as [Ht Hin]. destruct (H4 _ _ _ Hr He') as [Ht' Hin'].
      assert (E := NoDup_map_inj ent_id _ _ _ (ro_ids _ _ (si_rows _ Hi)) Hin Hin' Ei).
      assert (tid' = tid) as -> by congruence. apply not_true_iff_false in Hno. apply Hno. apply existsb_elem. exists (tid, l').
      split; [done|]. cbn. rewrite String.eqb_refl. by destruct l'; [apply not_elem_of_nil in He'|].
  - intros tid' l e [E|Hr]%elem_of_cons He; [injection E as -> ->; by apply Hl|by eapply H4].
Qed.

(** A turn of a run, and the other runs. *)
Lemma neat_turn s refused tid e l k1 k2 : sys_inv s -> neat s -> cleanups s = k1 ++ (tid, e :: l) :: k2 ->
  neat (with_cleanups (k1 ++ (tid, l) :: k2) (with_world (cleanup_turn refused e (sw s)) s)).
Proof.
  intros Hi [H1 H2 H3 H4] Hk.
  assert (Hsub : forall tid' l', (tid', l') ∈ k1 ++ (tid, l) :: k2 -> exists l'', (tid', l'') ∈ cleanups s /\ forall x, x ∈ l' -> x ∈ l'').
  { intros tid' l'. rewrite Hk, elem_of_app, elem_of_cons. intros [Hin|[[= -> ->]|Hin]].
    - exists l'. split; [|done]. apply elem_of_app. by left.
    - exists (e :: l). split; [apply elem_of_app; right; by left|by right].
    - exists l'. split; [|done]. apply elem_of_app. right. by right. }
  assert (Hperm : to_clean s ≡ₚ e :: concat (map snd (k1 ++ (tid, l) :: k2))).
  { unfold to_clean. rewrite Hk, !map_app, !concat_app. cbn. by rewrite <- Permutation_middle. }
  rewrite Hperm in H3. apply NoDup_cons in H3 as [Hnew H3].
  assert (He : (e_id e, place_of e, e_tenant e) ∈ ents (cat (sw s))).
  { eapply (H4 tid (e :: l)); [|by left]. rewrite Hk. apply elem_of_app. right. by left. }
  unfold cleanup_turn. destruct (cleanup_one refused e (sw s)) as [w|] eqn:E.
  2:{ split; cbn; [done..|]. intros tid' l' x Hr Hx. destruct (Hsub _ _ Hr) as (l'' & Hr' & Hs). by eapply H4, Hs. }
  split; cbn; [by eapply cleanup_coherent|eapply joined_cleanup; [done|apply Hi|done..]|done|].
  intros tid' l' x Hr Hx. destruct (Hsub _ _ Hr) as (l'' & Hr' & Hs). destruct (H4 _ _ x Hr' (Hs x Hx)) as [Ht Hin].
  split; [done|]. apply cleanup_effect in E as (_ & -> & _). apply elem_of_bfilter. split; [done|]. apply negb_true_iff, String.eqb_neq.
  intros Eid. apply Hnew. rewrite <- Eid. apply (list_elem_of_fmap_2 e_id). apply list_elem_of_In, in_concat. exists l'.
  split; [|by apply list_elem_of_In]. apply in_map_iff. exists (tid', l'). split; [done|]. by apply list_elem_of_In.
Qed.

Lemma step_overlapped l s s' : step l s s' -> overlapped s' = false -> overlapped s = false.
Proof. destruct 1; cbn; try done. by intros [? _]%orb_false_iff. Qed.

Lemma step_neat l s s' : step l s s' -> sys_inv s -> overlapped s' = false -> neat s -> neat s'.
Proof.
  intros Hs Hi Ho Hn. assert (Hn' := Hn). destruct Hn' as [H1 H2 H3 H4]. destruct Hs as
    [s tid input t Hr|s ids id refused t Ht Hid|s tid et input t cls Hr|s id now t changes w Ht Hid Hst|s ids refused t Ht Hfr
    |s tid input t Hr|s fid rid refused t Ht Hid|s tid et confirm e Hr|s now e He|s now e He|s tid before|s refused tid e l k1 k2 Hk|s r k1 k2 Hk
    |s p t n Hg|s id now t Hr|s held refused uid t Ht|s id|s id|s id refused batches|s]; try by split.
  - apply neat_use. unfold create_commit. destruct (create_transaction ids id refused t (sw s)) as [w1|] eqn:E; [|by apply neat_calm].
    assert (Hl := si_creates _ Hi _ Ht). assert (He := E). apply create_effect in He as (_ & He & _); [|done].
    apply (neat_calm (with_world w1 s) (publish _ w1)); [|done]. apply neat_world; [done| | |].
    + apply (create_coherent ids id refused t (sw s)); [done..| |done]. intros (x & -> & Hx)%list_elem_of_fmap.
      destruct Hid as [_ Hid]. apply (Hid (ent_id x)); [by left|by apply Hi].
    + by apply (joined_create ids id refused t (sw s)).
    + rewrite He. intros x Hx. apply elem_of_app. by left.
  - apply neat_use. apply neat_calm; [done|]. unfold store_plan in Hst. unbind Hst as fs Hf. unbind Hst as c Hc. injection Hst as <-.
    apply insert_migration_inv in Hc as ->. done.
  - apply neat_use. unfold patch_commit. destruct (patch_transaction ids refused t (sw s)) as [w1|] eqn:E; [|by apply neat_calm].
    apply patch_effect in E as (He & _ & _ & Hk & Hr & Hj & Hc). destruct (si_patches _ Hi t Ht) as [_ Hp].
    assert (Hw : coherent w1 /\ joined w1) by (split; [by apply Hc|by apply (joined_keys (sw s))]). destruct Hw.
    destruct (entity_findBySlug _ _ _); [apply (neat_calm (with_world w1 s) (publish _ w1)); [|done]|];
      (apply neat_world; [done..|cbn; by rewrite He]).
  - apply neat_use. unfold link_commit. destruct (link_transaction fid rid refused t (sw s)) as [w1|] eqn:E; [|by apply neat_calm].
    destruct (si_links _ Hi t (lt_from t) Ht) as [_ Hpf]; [by left|]. destruct (si_links _ Hi t (lt_to t) Ht) as [_ Hpt]; [by right|].
    apply neat_world; [done|by eapply link_coherent|by eapply joined_link|].
    apply link_rows in E as [_ He]; [|apply Hi]. cbn. by rewrite He.
  - apply (neat_calm s (softDelete now e (sw s))) in Hn; [|apply soft_delete_calm]. destruct Hn as [J1 J2 J3 J4]. by split.
  - set (w := softDeleteByEntityId now e (sw s)). assert (Hf : flds (cat w) = flds (cat (sw s))) by by apply flds_update.
    apply (neat_world s (delete_publish e w)); [done| | |done].
    + unfold coherent. change (agree (ents (cat (sw s))) (flds (cat w)) (cols (sw s))). by rewrite Hf.
    + by apply (joined_keys (sw s)).
  - cbn in Ho. apply orb_false_iff in Ho as [_ Ho]. by apply neat_begin.
  - by apply neat_turn.
  - split; cbn; [done..| |].
    + unfold to_clean in *. cbn. rewrite Hk, map_app, concat_app in H3. cbn in H3. rewrite map_app, concat_app.
      rewrite !map_app in *. apply NoDup_app in H3 as (N1 & N2 & N3). apply NoDup_app in N3 as (_ & N4 & N5).
      apply NoDup_app. split_and!; [done| |done]. intros x Hx Hx2. apply (N2 x Hx), elem_of_app. by right.
    + intros tid l e Hr He. eapply H4; [|done]. rewrite Hk. apply elem_of_app in Hr as [Hr|Hr]; apply elem_of_app; [by left|right; by right].
  - assert (Ec : cols (with_tables (jm_set p {| t_columns := t_columns t; t_rows := n |} (tables (sw s))) (sw s)) = cols (sw s)).
    { unfold cols. cbn. by rewrite (cols_set_same p t). }
    apply neat_world; [done| | |done]; [unfold coherent in *; by rewrite Ec|apply (joined_keys (sw s)); try done; by rewrite Ec].
  - unfold confirm_commit. destruct (confirm_transaction held refused uid t (sw s)) as [w1|] eqn:E; [|by apply neat_calm].
    apply confirm_calm in E as [Hc _]. by apply (neat_calm s (publish _ w1)). 
  - apply neat_calm; [done|apply complete_calm].
  - apply neat_calm; [done|apply fail_calm].
  - apply neat_calm; [done|apply rollback_calm].
  - by apply neat_calm.
Qed.

Lemma trace_neat tr s s' : trace tr s s' -> sys_inv s -> overlapped s' = false -> neat s -> neat s'.
Proof.
  induction 1 as [|tr s s1 l s2 Ht IH Hst]; [done|]. intros Hi Ho Hn. eapply step_neat; [done|by eapply trace_inv|done|].
  apply IH; [done| |done]. by eapply step_overlapped.
Qed.

Lemma empty_neat : neat empty_sys.
Proof.
  split.
  - split; cbn; try constructor. intros x cs Hx. by apply not_elem_of_nil in Hx.
  - split; cbn; [constructor|..]; by intros x Hx%not_elem_of_nil.
  - constructor.
  - by intros tid l e Hx%not_elem_of_nil.
Qed.

(** C9: However the operations on entities, relationships and migrations overlap, as long
    as no run of the cleanup of deleted entities begins while another for the same tenant
    has rows to come, the catalogue and the tables of the tenants agree: every entity of
    the catalogue has its table, with the system columns and exactly one column for each of
    its fields; no two entities share a table; there is no table without an entity, except
    one join table for each relationship between many and many, whose foreign keys refer to
    the tables of its two entities; and these have other names.  ([stale_cleanup] is what
    two runs that overlap can do.) *)
Theorem tables_match tr s :
  trace tr empty_sys s -> overlapped s = false ->
  (forall e, e ∈ entities (cat (sw s)) -> exists t, jm_get (place_of e) (tables (sw s)) = Some t /\
     t_columns t ≡ₚ SYSTEM_TABLE_COLUMNS ++
       map (fun f => pg_name (f_slug f)) (List.filter (fun f => String.eqb (f_entity f) (e_id e)) (fields (cat (sw s))))) /\
  NoDup (map place_of (entities (cat (sw s)))) /\
  (forall p, jm_has p (tables (sw s)) = true -> exists e, e ∈ entities (cat (sw s)) /\ place_of e = p) /\
  (forall r, r ∈ relationships (cat (sw s)) -> l_type r = ManyToMany -> exists j e1 e2, j ∈ joins (sw s) /\ j_place j = join_place r /\
     e1 ∈ entities (cat (sw s)) /\ e_id e1 = l_from r /\ place_of e1 = j_from j /\
     e2 ∈ entities (cat (sw s)) /\ e_id e2 = l_to r /\ place_of e2 = j_to j) /\
  (forall j, j ∈ joins (sw s) -> jm_has (j_place j) (tables (sw s)) = false /\
     exists r, r ∈ relationships (cat (sw s)) /\ l_type r = ManyToMany /\ join_place r = j_place j).
Proof.
  intros Ht Ho. destruct (trace_neat _ _ _ Ht empty_inv Ho empty_neat) as [[H1 H2 H3 H4 H5] [J1 J2 J3 J4] _ _].
  assert (Ek : jm_keys (cols (sw s)) = jm_keys (tables (sw s))) by (unfold cols, col_list, jm_keys; rewrite map_map; apply map_ext; by intros [k t]).
  assert (Ep : map ent_place (ents (cat (sw s))) = map place_of (entities (cat (sw s)))) by (unfold ents; by rewrite map_map).
  rewrite Ek, Ep in *. split_and!.
  - intros e He. assert (Hk : place_of e ∈ jm_keys (tables (sw s))) by (rewrite H4; by apply list_elem_of_fmap_2).
    apply jm_has_true in Hk. unfold jm_has in Hk. destruct (jm_get (place_of e) (tables (sw s))) as [t|] eqn:Eg; [|done]. exists t. split; [done|].
    rewrite (H5 (e_id e, place_of e, e_tenant e) (t_columns t)).
    + f_equiv. unfold slugs_of, flds. rewrite bfilter_map, map_map. done.
    + by apply elem_ents.
    + rewrite cols_get. cbn. by rewrite Eg.
  - by rewrite <- H4.
  - intros p Hp%jm_has_true. rewrite H4 in Hp. apply list_elem_of_fmap in Hp as (e & -> & He). by exists e.
  - intros r Hr Hm. destruct (J3 r Hr Hm) as (j & x & y & Hj & Hp & (e1 & -> & H1')%list_elem_of_fmap & Hxi & Hxp & (e2 & -> & H2')%list_elem_of_fmap & Hyi & Hyp).
    exists j, e1, e2. by split_and!.
  - intros j Hj. split; [|by apply J4]. apply not_true_iff_false. intros Hk%jm_has_true. by apply (J2 j Hj).
Qed.

(** ** Patches of entities: no update is lost

    Between the read of a patch and its transaction anything may happen; the transaction
    goes through only when the entity is still that which was read, and its fields too, but
    for those that new relationships have added: they leave the version as it is. *)

(** ** How a step changes the rows that were there *)

Definition of_entity (id : string) (r : FieldRow) : bool := String.eqb (f_entity r) id && live f_deleted_at r.

(** A field that [createRelationship] has made. *)
Definition relation_field (f : FieldRow) : Prop :=
  f_system f = true /\ f_type f = "reference" /\ f_required f = false /\ f_nullable f = true /\ is_some (f_ref_entity f) = true.

Definition same_fields (id : string) (c c' : catalog) : Prop :=
  exists new, List.filter (of_entity id) (fields c') = List.filter (of_entity id) (fields c) ++ new /\ Forall relation_field new.

(** Each entity that was there is as before, with the same fields, and perhaps those of new
    relationships, while it is not deleted; or it has a greater version; or it is deleted. *)
Definition tame (U : list string) (c c' : catalog) : Prop :=
  forall r', r' ∈ entities c' -> e_id r' ∈ U ->
    exists r, r ∈ entities c /\ e_id r = e_id r' /\ e_tenant r = e_tenant r' /\ (e_deleted_at r <> None -> e_deleted_at r' <> None) /\
      ((r' = r /\ (e_deleted_at r = None -> same_fields (e_id r) c c')) \/ (e_version r < e_version r')%Z \/
       (e_deleted_at r' <> None /\ (e_version r <= e_version r')%Z)).

(** Fields keep their identifiers and entities; others are new. *)
Definition tame_fields (U : list string) (c c' : catalog) : Prop :=
  forall f', f' ∈ fields c' -> (exists f, f ∈ fields c /\ f_id f = f_id f' /\ f_entity f = f_entity f') \/ f_id f' ∉ U.

Definition pinned (t : PatchTicket) (c : catalog) : Prop :=
  forall r, r ∈ entities c -> e_id r = e_id (pt_entity t) ->
    (e_version (pt_entity t) <= e_version r)%Z /\
    (e_version r = e_version (pt_entity t) -> e_deleted_at r = None ->
     r = pt_entity t /\ exists new, findByEntityId (e_id (pt_entity t)) c ≡ₚ pt_fields t ++ new /\ Forall relation_field new).

Lemma findByEntityId_perm id c : findByEntityId id c ≡ₚ List.filter (of_entity id) (fields c).
Proof. apply order_by_perm. Qed.

Definition own_fields (t : PatchTicket) (U : list string) (c : catalog) : Prop :=
  forall f, f ∈ pt_fields t -> f_id f ∈ U /\ forall r, r ∈ fields c -> f_id r = f_id f -> f_entity r = e_id (pt_entity t).

Lemma pinned_tame U t c c' : tame U c c' -> e_id (pt_entity t) ∈ U -> pinned t c -> pinned t c'.
Proof.
  intros Ht Hu Hp r' Hr' Hid. rewrite <- Hid in Hu. destruct (Ht r' Hr' Hu) as (r & Hr & Hi & _ & _ & Hc).
  assert (Hir : e_id r = e_id (pt_entity t)) by congruence. destruct (Hp r Hr Hir) as [Hv He].
  destruct Hc as [[-> Hf]|[Hlt|[Hd Hle]]]; [|split; [lia|intros; lia]|split; [lia|done]].
  split; [done|]. intros Hev Hel. destruct (He Hev Hel) as [-> (new & Hfs & Hn)]. split; [done|].
  destruct (Hf Hel) as (new' & Hf' & Hn'). exists (new ++ new'). split; [|by apply Forall_app].
  rewrite findByEntityId_perm, Hf', <- findByEntityId_perm, Hfs. by rewrite app_assoc.
Qed.

Lemma own_fields_tame U V t c c' : tame_fields U c c' -> own_fields t U c -> own_fields t (V ++ U) c'.
Proof.
  intros Ht Ho f Hf. destruct (Ho f Hf) as [Hu Hr]. split; [apply elem_of_app; by right|]. intros r' Hr' Hid.
  destruct (Ht r' Hr') as [(g & Hg & Hi & He)|Hn]; [|by rewrite Hid in Hn]. rewrite <- He. apply Hr; congruence.
Qed.

Lemma same_fields_filter id c c' : List.filter (of_entity id) (fields c') = List.filter (of_entity id) (fields c) -> same_fields id c c'.
Proof. intros H. exists []. by rewrite H, app_nil_r. Qed.

Lemma tame_refl U c : tame U c c.
Proof. intros r Hr _. exists r. split_and!; try done. left. split; [done|]. intros _. by apply same_fields_filter. Qed.

Lemma tame_fields_refl U c : tame_fields U c c.
Proof. intros f Hf. left. by exists f. Qed.

(** Catalogues with the same entities and fields. *)
Lemma tame_same U c c' : entities c' = entities c -> fields c' = fields c -> tame U c c' /\ tame_fields U c c'.
Proof.
  intros He Hf. split.
  - intros r. rewrite He. intros Hr _. exists r. split_and!; try done. left. split; [done|]. intros _. apply same_fields_filter. by rewrite Hf.
  - intros f. rewrite Hf. intros H. left. by exists f.
Qed.

(** ** The steps *)

Lemma bfilter_nil {A} (q : A -> bool) l : (forall x, x ∈ l -> q x = false) -> List.filter q l = [].
Proof.
  induction l as [|x l IH]; intros H; [done|]. cbn. rewrite (H x) by by left. apply IH. intros y Hy. apply H. by right.
Qed.

Lemma bfilter_update_other {A} (q p : A -> bool) f l :
  (forall x, x ∈ l -> p x = true -> q x = false /\ q (f x) = false) -> List.filter q (update_where p f l) = List.filter q l.
Proof.
  unfold update_where. induction l as [|x l IH]; intros H; [done|]. cbn. rewrite IH by (intros y Hy; apply H; by right).
  destruct (p x) eqn:E; [|done]. destruct (H x ltac:(by left) E) as [H1 H2]. by rewrite H1, H2.
Qed.

Lemma of_entity_other id id' f : id <> id' -> f_entity f = id' -> of_entity id f = false.
Proof. intros Hne <-. unfold of_entity. rewrite (proj2 (String.eqb_neq _ _)); [done|congruence]. Qed.

Lemma field_rows_entity ids id tenantId i fs refs f : f ∈ field_rows ids id tenantId i fs refs ->
  f_entity f = id /\ exists k, (i <= k < i + length fs)%nat /\ f_id f = ids k.
Proof.
  revert i refs. induction fs as [|x fs IH]; intros i [|r refs]; cbn; try by intros ?%not_elem_of_nil.
  intros [->|H]%elem_of_cons; [split; [done|]; exists i; split; [lia|done]|]. destruct (IH _ _ H) as (He & k & Hk & Hi).
  split; [done|]. exists k. split; [lia|done].
Qed.

Lemma elem_first_ids ids {A} (l : list A) k : (k < length l)%nat -> ids k ∈ first_ids ids l.
Proof. intros H. unfold first_ids. apply list_elem_of_fmap_2, elem_of_seq. lia. Qed.

Lemma create_fields ids id refused t w w' : create_transaction ids id refused t w = Ok w' ->
  entities (cat w') = entities (cat w) ++ [new_entity id t] /\
  fields (cat w') = fields (cat w) ++ field_rows ids id (ct_tenant t) 0 (c_fields (ct_input t)) (ct_refs t).
Proof.
  unfold create_transaction. intros H. unbind H as q Hq. unbind H as c1 H1. unbind H as c2 H2. unbind H as ddl Hddl.
  unbind H as w1 Ht. unbind H as rls Hr. unbind H as u Hus. unfold refuse in H. destruct refused; [done|]. injection H as <-.
  apply insert_entity_inv in H1 as ->. apply insert_fields_inv in H2 as ->. unfold create_table in Ht.
  destruct (name_taken _ _); [done|]. destruct (negb _); [done|]. by injection Ht as <-.
Qed.

Lemma create_tame U ids id refused t w w' :
  create_transaction ids id refused t w = Ok w' -> id ∉ U -> (forall x, x ∈ first_ids ids (c_fields (ct_input t)) -> x ∉ U) ->
  tame U (cat w) (cat w') /\ tame_fields U (cat w) (cat w').
Proof.
  intros [He Hf]%create_fields Hid Hids. split.
  - intros r'. rewrite He. intros [Hr'|Hr']%elem_of_app Hin; [|apply list_elem_of_singleton in Hr' as ->; by destruct Hid].
    exists r'. split_and!; try done. left. split; [done|]. intros _. apply same_fields_filter. rewrite Hf, List.filter_app.
    rewrite (bfilter_nil _ (field_rows _ _ _ _ _ _)); [by rewrite app_nil_r|]. intros f Hfr. apply field_rows_entity in Hfr as [Hfe _].
    apply (of_entity_other _ id); [|done]. by intros <-.
  - intros f. rewrite Hf. intros [Hin|Hin]%elem_of_app; [left; by exists f|]. right. apply field_rows_entity in Hin as (_ & k & Hk & ->).
    apply Hids, elem_first_ids. lia.
Qed.

(** A relationship leaves the entities alone, and may add a field. *)
Lemma link_tame U fid rid refused t w w' : link_transaction fid rid refused t w = Ok w' -> fid ∉ U ->
  tame U (cat w) (cat w') /\ tame_fields U (cat w) (cat w').
Proof.
  intros (join & He & _ & _ & _ & [(_ & _ & Hf & _)|(_ & Hf & _)])%link_effect Hid; [by apply tame_same|]. split.
  - intros r. rewrite He. intros Hr _. exists r. split_and!; try done. left. split; [done|]. intros _. unfold same_fields.
    rewrite Hf, List.filter_app. eexists. split; [done|]. cbn. destruct (of_entity _ _); constructor; [by split_and!|constructor].
  - intros f. rewrite Hf. intros [Hin|Hin%list_elem_of_singleton]%elem_of_app; [left; by exists f|]. right. by subst f.
Qed.

(** The added fields of a patch. *)
Lemma add_fields_fields ids t fs : forall w i w', add_fields ids t w i fs = Ok w' ->
  entities (cat w') = entities (cat w) /\ exists rows, fields (cat w') = fields (cat w) ++ rows /\
    Forall (fun f => f_entity f = e_id (pt_entity t)) rows /\ map f_id rows = map ids (seq i (length fs)).
Proof.
  induction fs as [|f fs IH]; intros w i w' H; cbn in H; [injection H as <-; split; [done|]; exists []; by rewrite app_nil_r|].
  unbind H as w1 H1. destruct (IH _ _ _ H) as (He & rows & Hf & Hr & Hi). unfold add_field in H1. unbind H1 as ref Hrf. unbind H1 as c Hc.
  unbind H1 as ddl Hd. unbind H1 as u Hu. apply insert_field_inv in Hc as ->. apply add_column_inv in H1 as (Ec & _ & _).
  rewrite Ec in He, Hf. cbn in He, Hf. split; [done|]. eexists (_ :: rows). rewrite Hf, <- app_assoc. split; [done|]. split; [by constructor|]. cbn. by rewrite Hi.
Qed.

(** The updated fields of a patch: rows with the identifiers of the fields that were read. *)
Lemma update_fields_tame existing us : forall c c', foldM (update_field existing) c us = Ok c' ->
  entities c' = entities c /\ map f_id (fields c') = map f_id (fields c) /\
  (forall f', f' ∈ fields c' -> exists f, f ∈ fields c /\ f_id f = f_id f' /\ f_entity f = f_entity f') /\
  (forall id, (forall f r, f ∈ existing -> r ∈ fields c -> f_id r = f_id f -> f_entity r <> id) ->
     List.filter (of_entity id) (fields c') = List.filter (of_entity id) (fields c)).
Proof.
  induction us as [|u us IH]; intros c c'; cbn; [intros [= <-]; split_and!; try done; eauto|]. intros H. unbind H as c1 H1.
  destruct (IH _ _ H) as (He & Hi & Hin & Hfl). unfold update_field in H1. destruct (List.find _ existing) as [f0|] eqn:E; [|injection H1 as <-; by split_and!].
  apply List.find_some in E as [Hf0%list_elem_of_In _]. destruct (match uf_name u with Some n => _ | None => _ end); [|done]. injection H1 as <-. cbn in *.
  split_and!.
  - done.
  - rewrite Hi. by apply map_update_where.
  - intros f' Hf'. destruct (Hin f' Hf') as (g & Hg & Hgi & Hge). apply elem_of_update_where in Hg as [Hg|(y & Hy & _ & ->)]; [by exists g|by exists y].
  - intros id Hno. rewrite Hfl.
    + apply bfilter_update_other. intros x Hx Hp. apply andb_true_iff in Hp as [Hp%String.eqb_eq _].
      split; (eapply of_entity_other; [|reflexivity]); intros E1; cbn in E1; by apply (Hno f0 x Hf0 Hx Hp).
    + intros f r Hf Hr Hid. apply elem_of_update_where in Hr as [Hr|(y & Hy & _ & ->)]; [by eapply Hno|]. cbn in *. by eapply (Hno f y).
Qed.

(** What a transaction of a patch makes of the catalogue. *)
Lemma patch_rows ids refused t w w' : patch_transaction ids refused t w = Ok w' ->
  (exists r, r ∈ entities (cat w) /\ same_version (pt_entity t) r = true) /\
  entities (cat w') = update_where (same_version (pt_entity t)) (patched (pt_input t)) (entities (cat w)) /\
  exists rows c2, Forall (fun f => f_entity f = e_id (pt_entity t)) rows /\ map f_id rows = first_ids ids (p_addFields (pt_input t)) /\
    fields c2 = fields (cat w) ++ rows /\ foldM (update_field (pt_fields t)) c2 (p_updateFields (pt_input t)) = Ok (cat w').
Proof.
  intros H. unfold patch_transaction in H. unbind H as u Hu. unbind H as c1 H1. unbind H as w2 H2. unbind H as c3 H3.
  unfold refuse in H. destruct refused; [done|]. injection H as <-. apply update_entity_inv in H1 as [Hex ->].
  apply add_fields_fields in H2 as (He & rows & Hf & Hr & Hi). split; [done|]. cbn in *.
  destruct (update_fields_tame _ _ _ _ H3) as (He3 & _). split; [by rewrite He3, He|]. by exists rows, (cat w2).
Qed.

Lemma patch_tame U ids refused t w w' :
  patch_transaction ids refused t w = Ok w' -> NoDup (map e_id (entities (cat w))) -> own_fields t U (cat w) ->
  (forall x, x ∈ first_ids ids (p_addFields (pt_input t)) -> x ∉ U) -> tame U (cat w) (cat w') /\ tame_fields U (cat w) (cat w').
Proof.
  intros H Hnd Ho Hfr. apply patch_rows in H as ((r0 & Hr0 & Hv0) & He & rows & c2 & Hrows & Hids & Hf2 & Hup).
  destruct (update_fields_tame _ _ _ _ Hup) as (_ & _ & Hin & Hfl).
  assert (Hnew : forall r, r ∈ rows -> f_id r ∉ U) by (intros r Hr; apply Hfr; rewrite <- Hids; by apply list_elem_of_fmap_2).
  unfold same_version in Hv0. rewrite !andb_true_iff, !String.eqb_eq in Hv0. destruct Hv0 as (((Hid0 & Ht0) & Hve0) & Hl0). split.
  - intros r' Hr' Hu. rewrite He in Hr'. clear He.
    assert (Hcases : (r' ∈ entities (cat w) /\ same_version (pt_entity t) r' = false) \/ exists r, r ∈ entities (cat w) /\ r' = patched (pt_input t) r).
    { unfold update_where in Hr'. apply list_elem_of_fmap in Hr' as (r & -> & Hr). destruct (same_version (pt_entity t) r) eqn:Ev; [right; by exists r|by left]. }
    destruct Hcases as [[Hr Hv]|(r & Hr & ->)]; [|exists r; split_and!; try done; right; left; cbn; lia].
    exists r'. split_and!; try done. left. split; [done|]. intros Hlive. apply same_fields_filter.
    assert (Hne : e_id r' <> e_id (pt_entity t)).
    { intros E. assert (r' = r0) as -> by (apply (NoDup_map_inj e_id (entities (cat w))); [done..|congruence]).
      unfold same_version in Hv. rewrite Hid0, Ht0, !String.eqb_refl, Hve0, Hl0 in Hv. done. }
    rewrite Hfl.
    + rewrite Hf2, List.filter_app, (bfilter_nil _ rows); [by rewrite app_nil_r|]. intros f Hf. rewrite Forall_forall in Hrows.
      by apply (of_entity_other _ (e_id (pt_entity t))); [|apply Hrows].
    + rewrite Hf2. intros f x Hf [Hx|Hx]%elem_of_app Hid.
      * destruct (Ho f Hf) as [_ Hown]. rewrite (Hown x Hx Hid). done.
      * rewrite Forall_forall in Hrows. by rewrite (Hrows x Hx).
  - intros f' Hf'. destruct (Hin f' Hf') as (g & Hg & Hgi & Hge). rewrite Hf2 in Hg. apply elem_of_app in Hg as [Hg|Hg]; [left; by exists g|].
    right. rewrite <- Hgi. by apply Hnew.
Qed.

Lemma soft_delete_tame U now e w : tame U (cat w) (cat (softDelete now e w)) /\ tame_fields U (cat w) (cat (softDelete now e w)).
Proof.
  split; [|intros f Hf; left; by exists f]. intros r' Hr' _. cbn in Hr'. apply elem_of_update_where in Hr' as [Hr|(r & Hr & Hp & ->)].
  - exists r'. split_and!; try done. left. split; [done|]. intros _. by apply same_fields_filter.
  - exists r. split_and!; try done. right. right. split; [done|]. cbn. lia.
Qed.

Lemma soft_delete_fields_tame U now e w :
  (forall r, r ∈ entities (cat w) -> e_id r = e_id e -> e_deleted_at r <> None) ->
  tame U (cat w) (cat (softDeleteByEntityId now e w)) /\ tame_fields U (cat w) (cat (softDeleteByEntityId now e w)).
Proof.
  intros Hg. split.
  - intros r Hr _. exists r. split_and!; try done. left. split; [done|]. intros Hl. apply same_fields_filter. cbn.
    apply bfilter_update_other. intros x _ [Hx%String.eqb_eq _]%andb_true_iff.
    assert (Hne : e_id r <> e_id e) by (intros E1; by apply (Hg r)).
    split; by apply (of_entity_other _ (e_id e)).
  - intros f' Hf'. cbn in Hf'. apply elem_of_update_where in Hf' as [Hf|(f & Hf & _ & ->)]; left; [by exists f'|by exists f].
Qed.

Lemma cleanup_tame U refused e w :
  tame U (cat w) (cat (cleanup_turn refused e w)) /\ tame_fields U (cat w) (cat (cleanup_turn refused e w)) /\
  exists q, fields (cat (cleanup_turn refused e w)) = List.filter q (fields (cat w)).
Proof.
  unfold cleanup_turn. destruct (cleanup_one refused e w) as [w'|] eqn:H.
  2:{ split_and!; [apply tame_refl|apply tame_fields_refl|]. exists (fun _ => true). clear. by induction (fields (cat w)) as [|f l IH]; [|cbn; rewrite <- IH]. }
  unfold cleanup_one in H. unbind H as q Hq. unbind H as w1 Hw. unbind H as c Hc. unfold refuse in H. destruct refused; [done|]. injection H as <-.
  unfold drop_table in Hw. destruct (existsb _ _); [done|]. injection Hw as <-.
  unfold hard_delete in Hc. destruct (existsb _ (migrations _)); [done|]. destruct (existsb _ _); [done|]. injection Hc as <-. cbn. split_and!; [| |by eexists].
  - intros r [Hr Hne]%elem_of_bfilter _. exists r. split_and!; try done. left. split; [done|]. intros _. apply same_fields_filter. cbn.
    rewrite bfilter_bfilter. apply bfilter_ext. intros f _. unfold of_entity.
    destruct (String.eqb_spec (f_entity f) (e_id r)) as [E1|E1]; [|by rewrite andb_false_r]. by rewrite E1, Hne.
  - intros f [Hf _]%elem_of_bfilter. left. by exists f.
Qed.

Lemma complete_tame U id w : tame U (cat w) (cat (completeMigration id w).2).
Proof.
  unfold completeMigration. destruct (migration_findById _ _) as [m|]; [|apply tame_refl]. destruct (entity_findById _ _ _) as [e|]; [|apply tame_refl].
  destruct (drop_of m w) as [w1|] eqn:Ed; [|apply tame_refl]. apply drop_of_calm in Ed as [_ Hc]. rewrite <- Hc. cbn.
  intros r' Hr' _. cbn in Hr'. apply elem_of_update_where in Hr' as [Hr|(r & Hr & _ & ->)].
  - exists r'. split_and!; try done. left. split; [done|]. intros _. by apply same_fields_filter.
  - exists r. split_and!; try done. right. left. cbn. lia.
Qed.

(** The operations on migrations that leave the entities alone. *)
Lemma fail_entities id w : entities (cat (failMigration id w).2) = entities (cat w).
Proof.
  unfold failMigration. destruct (migration_findById _ _) as [m|]; [|done].
  destruct (drop_of m w) as [w1|] eqn:Ed; [|done]. apply drop_of_calm in Ed as [_ Hc]. cbn. by rewrite Hc.
Qed.

Lemma rollback_entities id refused batches w : entities (cat (rollbackMigration id refused batches w).2) = entities (cat w).
Proof.
  unfold rollbackMigration. destruct (migration_findById _ _) as [m|]; [|done]. destruct (entity_findById _ _ _) as [e|]; [|done].
  destruct (traverse _ _); [|done]. destruct (drop_of m w) as [w1|] eqn:Ed; [|done]. apply drop_of_calm in Ed as [_ Hc]. cbn. by rewrite Hc.
Qed.

(** ** What the tickets know *)

Record pin_inv (s : sys) : Prop := {
  pi_sys : sys_inv s;
  pi_ids : NoDup (map f_id (fields (cat (sw s))));
  pi_used : forall f, f ∈ fields (cat (sw s)) -> f_id f ∈ used s;
  pi_patches : forall t, t ∈ patches s -> pinned t (cat (sw s)) /\ own_fields t (used s) (cat (sw s));
  pi_deletes : forall e, e ∈ deletes s -> e_id e ∈ used s /\ forall r, r ∈ entities (cat (sw s)) -> e_id r = e_id e -> e_tenant r = e_tenant e;
  pi_gone : forall e, e ∈ gone s -> e_id e ∈ used s /\ forall r, r ∈ entities (cat (sw s)) -> e_id r = e_id e -> e_deleted_at r <> None
}.

(** What a step may do to the catalogue; [V] are the identifiers that it gives out. *)
Definition change (V : list string) (s s' : sys) : Prop :=
  used s' = V ++ used s /\ tame (used s) (cat (sw s)) (cat (sw s')) /\ tame_fields (used s) (cat (sw s)) (cat (sw s')) /\
  NoDup (map f_id (fields (cat (sw s')))) /\ forall f, f ∈ fields (cat (sw s')) -> f_id f ∈ V ++ used s.

(** The old tickets stay right; new ones have to be. *)
Lemma pin_change V s s' :
  pin_inv s -> sys_inv s' -> change V s s' ->
  (forall t, t ∈ patches s' -> t ∈ patches s \/ pinned t (cat (sw s')) /\ own_fields t (used s') (cat (sw s'))) ->
  (forall e, e ∈ deletes s' -> e ∈ deletes s \/
     e_id e ∈ used s' /\ forall r, r ∈ entities (cat (sw s')) -> e_id r = e_id e -> e_tenant r = e_tenant e) ->
  (forall e, e ∈ gone s' -> e ∈ gone s \/
     e_id e ∈ used s' /\ forall r, r ∈ entities (cat (sw s')) -> e_id r = e_id e -> e_deleted_at r <> None) ->
  pin_inv s'.
Proof.
  intros [H1 H2 H3 H4 H5 H6] Hs (Eu & Ht & Htf & Hn & Hu) Np Nd Ng. split; [done|done|by rewrite Eu|..].
  - intros t [Hin|?]%Np; [|done]. destruct (H4 t Hin) as [Hp Ho]. rewrite Eu. split; [|by eapply own_fields_tame].
    eapply pinned_tame; [done| |done]. by apply (si_patches _ H1).
  - intros e [Hin|?]%Nd; [|done]. destruct (H5 e Hin) as [Hi Hr]. rewrite Eu. split; [apply elem_of_app; by right|]. intros r' Hr' Hid.
    destruct (Ht r' Hr') as (r & Hr0 & Hi0 & Ht0 & _); [by rewrite Hid|]. rewrite <- Ht0. apply Hr; congruence.
  - intros e [Hin|?]%Ng; [|done]. destruct (H6 e Hin) as [Hi Hr]. rewrite Eu. split; [apply elem_of_app; by right|]. intros r' Hr' Hid.
    destruct (Ht r' Hr') as (r & Hr0 & Hi0 & _ & Hd & _); [by rewrite Hid|]. apply Hd, Hr; congruence.
Qed.

(** A step after which the fields are as before. *)
Lemma change_same V s s' :
  pin_inv s -> used s' = V ++ used s -> tame (used s) (cat (sw s)) (cat (sw s')) -> fields (cat (sw s')) = fields (cat (sw s)) ->
  change V s s'.
Proof.
  intros Hi Eu Ht Ef. split_and!; [done|done|..]; rewrite ?Ef.
  - intros f Hf. left. exists f. by rewrite Ef in Hf.
  - apply Hi.
  - intros f Hf. apply elem_of_app. right. by apply Hi.
Qed.

Lemma field_rows_ids ids id tenantId fs : forall i refs, length refs = length fs ->
  map f_id (field_rows ids id tenantId i fs refs) = map ids (seq i (length fs)).
Proof. induction fs as [|f fs IH]; intros i [|r refs] H; try done. cbn in *. f_equal. apply IH. lia. Qed.

Lemma create_field_ids ids id refused t w w' : create_transaction ids id refused t w = Ok w' -> length (ct_refs t) = length (c_fields (ct_input t)) ->
  map f_id (fields (cat w')) = map f_id (fields (cat w)) ++ first_ids ids (c_fields (ct_input t)).
Proof. intros [_ ->]%create_fields Hl. rewrite map_app. f_equal. by apply field_rows_ids. Qed.

Lemma patch_fields ids refused t w w' : patch_transaction ids refused t w = Ok w' ->
  map f_id (fields (cat w')) = map f_id (fields (cat w)) ++ first_ids ids (p_addFields (pt_input t)).
Proof.
  intros H. apply patch_rows in H as (_ & _ & rows & c2 & _ & Hids & Hf2 & Hup).
  destruct (update_fields_tame _ _ _ _ Hup) as (_ & -> & _). by rewrite Hf2, map_app, Hids.
Qed.

(** New identifiers are different from those that were given out. *)
Lemma fresh_fields l s (F : list FieldRow) :
  fresh l s -> pin_inv s -> map f_id F = map f_id (fields (cat (sw s))) ++ l ->
  NoDup (map f_id F) /\ forall f, f ∈ F -> f_id f ∈ l ++ used s.
Proof.
  intros [Hn Hf] Hi E. assert (Hu : forall x, x ∈ map f_id (fields (cat (sw s))) -> x ∈ used s).
  { intros x (f & -> & Hin)%list_elem_of_fmap. by apply Hi. }
  split.
  - rewrite E. apply NoDup_app. split_and!; [apply Hi| |done]. intros x Hx Hl. by apply (Hf x Hl), Hu.
  - intros f Hin. apply (list_elem_of_fmap_2 f_id) in Hin. cbn in Hin. change (f_id <$> F) with (map f_id F) in Hin. rewrite E in Hin.
    rewrite elem_of_app in *. destruct Hin; [right; by apply Hu|by left].
Qed.

Lemma create_change s ids id refused t : pin_inv s -> t ∈ creates s -> fresh (id :: first_ids ids (c_fields (ct_input t))) s ->
  change (id :: first_ids ids (c_fields (ct_input t))) s
    (use_ids (id :: first_ids ids (c_fields (ct_input t))) (with_world (create_commit ids id refused t (sw s)).2 s)).
Proof.
  intros Hp Ht Hf. unfold create_commit. destruct (create_transaction ids id refused t (sw s)) as [w1|] eqn:E;
    [|apply change_same; try done; apply tame_refl].
  assert (Hl := si_creates _ (pi_sys _ Hp) t Ht). assert (Hf1 : fresh (first_ids ids (c_fields (ct_input t))) s).
  { destruct Hf as [[_ Hn]%NoDup_cons Hu]. split; [done|]. intros x Hx. apply Hu. by right. }
  assert (Ef := create_field_ids _ _ _ _ _ _ E Hl). destruct (fresh_fields _ _ _ Hf1 Hp Ef) as [Hn Hu].
  destruct (create_tame (used s) _ _ _ _ _ _ E) as [Ht1 Ht2].
  - apply Hf. by left.
  - apply Hf1.
  - split_and!; [done..|]. intros f Hin. right. by apply Hu.
Qed.

Lemma patch_commit_cat ids refused t w : cat (patch_commit ids refused t w).2 =
  match patch_transaction ids refused t w with Ok w1 => cat w1 | Err _ => cat w end.
Proof. unfold patch_commit. destruct (patch_transaction _ _ _ _); [|done]. by destruct (entity_findBySlug _ _ _). Qed.

Lemma patch_change s ids refused t : pin_inv s -> t ∈ patches s -> fresh (first_ids ids (p_addFields (pt_input t))) s ->
  change (first_ids ids (p_addFields (pt_input t))) s
    (use_ids (first_ids ids (p_addFields (pt_input t))) (with_world (patch_commit ids refused t (sw s)).2 s)).
Proof.
  intros Hp Ht Hf. assert (Ec := patch_commit_cat ids refused t (sw s)).
  destruct (patch_transaction ids refused t (sw s)) as [w1|] eqn:E;
    [|apply change_same; try done; cbn; rewrite Ec; [apply tame_refl|done]].
  destruct (fresh_fields _ _ _ Hf Hp (patch_fields _ _ _ _ _ E)) as [Hn Hu].
  destruct (patch_tame (used s) _ _ _ _ _ E) as [Ht1 Ht2].
  - rewrite <- ents_ids. apply (si_rows _ (pi_sys _ Hp)).
  - by apply Hp.
  - apply Hf.
  - split_and!; cbn; rewrite ?Ec; done.
Qed.

Lemma entity_eq s r r' : sys_inv s -> r ∈ entities (cat (sw s)) -> r' ∈ entities (cat (sw s)) -> e_id r = e_id r' -> r = r'.
Proof. intros Hi. apply NoDup_map_inj. rewrite <- ents_ids. apply (si_rows _ Hi). Qed.

Lemma link_change s fid rid refused t : pin_inv s -> fresh [fid; rid] s ->
  change [fid; rid] s (use_ids [fid; rid] (with_world (link_commit fid rid refused t (sw s)).2 s)).
Proof.
  intros Hp [Hnd Hf]. unfold link_commit. destruct (link_transaction fid rid refused t (sw s)) as [w1|] eqn:E;
    [|apply change_same; try done; apply tame_refl].
  assert (Hfid : fid ∉ used s) by (apply Hf; by left). destruct (link_tame (used s) _ _ _ _ _ _ E Hfid) as [Ht1 Ht2].
  apply link_effect in E as (join & _ & _ & _ & _ & Hcase).
  assert (Hfs : fields (cat w1) = fields (cat (sw s)) \/ fields (cat w1) = fields (cat (sw s)) ++ [fk_field fid t])
    by (destruct Hcase as [(_ & _ & H & _)|(_ & H & _)]; [by left|by right]).
  destruct Hfs as [Hfs|Hfs]; [by apply change_same|].
  destruct (fresh_fields [fid] s (fields (cat w1))) as [Hn Hu].
  { split; [apply NoDup_singleton|]. by intros x ->%list_elem_of_singleton. }
  { done. }
  { by rewrite Hfs, map_app. }
  split_and!; [done..|]. intros f Hin. destruct (proj1 (elem_of_app _ _ _) (Hu f Hin)) as [->%list_elem_of_singleton|?]; [by left|]. by right; right.
Qed.

(** A read gives a ticket that knows the entity and its fields. *)
Lemma read_pinned s tenantId etype input t cls : pin_inv s -> patch_read tenantId etype input (sw s) = Ok (t, cls) ->
  pinned t (cat (sw s)) /\ own_fields t (used s) (cat (sw s)).
Proof.
  intros Hp (_ & Hin & _ & Hl & Hf)%patch_read_spec. split.
  - intros r Hr Hid. assert (r = pt_entity t) as -> by by eapply entity_eq; [apply Hp|..]. split; [lia|]. intros _ _.
    split; [done|]. exists []. rewrite Hf, app_nil_r. by split.
  - intros f Hif. rewrite Hf in Hif. apply elem_of_findByEntityId in Hif as (Hif & He & _). split; [by apply Hp|]. intros r Hr Hid.
    assert (r = f) as -> by by apply (NoDup_map_inj f_id (fields (cat (sw s)))); [apply Hp|..]. done.
Qed.

Lemma delete_read_spec tenantId etype confirm w e : delete_read tenantId etype confirm w = Ok e ->
  e ∈ entities (cat w).
Proof.
  unfold delete_read, entity_findBySlug. destruct (find_row _ _) as [e0|] eqn:E; [|done]. intros H. unbind H as n Hn.
  destruct (_ && _); [done|]. injection H as <-. by apply find_row_spec in E as [? _].
Qed.

Lemma step_change l s s' : step l s s' -> pin_inv s -> exists V, change V s s'.
Proof.
  intros Hs Hp. destruct Hs as
    [s tid input t Hr|s ids id refused t Ht Hid|s tid et input t cls Hr|s id now t changes w Ht Hid Hst|s ids refused t Ht Hfr
    |s tid input t Hr|s fid rid refused t Ht Hid|s tid et confirm e Hr|s now e He|s now e He|s tid before|s refused tid e l k1 k2 Hk|s r k1 k2 Hk
    |s p t n Hg|s id now t Hr|s held refused uid t Ht|s id|s id|s id refused batches|s];
    try (exists []; apply change_same; try done; apply tame_refl).
  - eexists. by apply create_change.
  - unfold store_plan in Hst. unbind Hst as fs Hf. unbind Hst as c Hc. injection Hst as <-.
    apply insert_migration_inv in Hc as ->. exists [id]. apply change_same; try done. by apply tame_same.
  - eexists. by apply patch_change.
  - eexists. by apply link_change.
  - exists []. apply change_same; try done. apply soft_delete_tame.
  - exists []. split_and!; try done; try (by apply soft_delete_fields_tame, Hp).
    + cbn. rewrite map_update_where; [apply Hp|by intros].
    + cbn. intros f [Hf|(g & Hg & _ & ->)]%elem_of_update_where; [by apply Hp|exact (pi_used _ Hp _ Hg)].
  - destruct (cleanup_tame (used s) refused e (sw s)) as (Ht1 & Ht2 & q & Hf). exists []. split_and!; try done; cbn; rewrite Hf.
    + apply NoDup_map_bfilter, Hp.
    + intros f [Hin _]%elem_of_bfilter. by apply Hp.
  - exists []. assert (H : entities (cat (confirm_commit held refused uid t (sw s)).2) = entities (cat (sw s)) /\
      fields (cat (confirm_commit held refused uid t (sw s)).2) = fields (cat (sw s))).
    { unfold confirm_commit. destruct (confirm_transaction held refused uid t (sw s)) as [w1|] eqn:E; [|done]. by apply confirm_calm in E as [(_ & Hf & _) He]. }
    destruct H. apply change_same; try done. by apply tame_same.
  - exists []. apply change_same; try done; [apply complete_tame|apply complete_calm].
  - exists []. apply change_same; try done; [|apply fail_calm]. apply tame_same; [apply fail_entities|apply fail_calm].
  - exists []. apply change_same; try done; [|apply rollback_calm]. apply tame_same; [apply rollback_entities|apply rollback_calm].
  - exists []. apply change_same; try done. by apply tame_same.
Qed.

Lemma pin_step_inv l s s' : step l s s' -> pin_inv s -> pin_inv s'.
Proof.
  intros Hs Hp. assert (Hsys := step_inv _ _ _ Hs (pi_sys _ Hp)). destruct (step_change _ _ _ Hs Hp) as [V Hc].
  apply (pin_change V s); [done..| | |]; destruct Hs as
    [s tid input t Hr|s ids id refused t Ht Hid|s tid et input t cls Hr|s id now t changes w Ht Hid Hst|s ids refused t Ht Hfr
    |s tid input t Hr|s fid rid refused t Ht Hid|s tid et confirm e Hr|s now e He|s now e He|s tid before|s refused tid e l k1 k2 Hk|s r k1 k2 Hk
    |s p t n Hg|s id now t Hr|s held refused uid t Ht|s id|s id|s id refused batches|s];
    cbn; try by left.
  - intros t' [->|Ht]%elem_of_cons; [|by left]. right. by eapply read_pinned.
  - apply delete_read_spec in Hr. intros e' [->|He]%elem_of_cons; [|by left]. right. split.
    + by apply (si_used _ (pi_sys _ Hp) _ (elem_ents _ _ Hr)).
    + intros r Hr' Hid. by rewrite (entity_eq _ _ _ (pi_sys _ Hp) Hr' Hr Hid).
  - intros e' [->|He']%elem_of_cons; [|by left]. right. destruct (pi_deletes _ Hp e He) as [Hu Ht]. split; [done|]. intros r' Hr' Hid.
    unfold update_where in Hr'. apply list_elem_of_fmap in Hr' as (r & -> & Hr). destruct (_ && _) eqn:E; [done|].
    rewrite Hid, (Ht r Hr Hid), !String.eqb_refl in E. unfold live in E. by destruct (e_deleted_at r).
Qed.

Lemma trace_pin tr s s' : trace tr s s' -> pin_inv s -> pin_inv s'.
Proof. induction 1 as [|tr s s1 l s2 _ IH Hst]; [done|]. intros Hi. eapply pin_step_inv; eauto. Qed.

Lemma empty_pin : pin_inv empty_sys.
Proof. split; [apply empty_inv|constructor|..]; by intros x Hx%not_elem_of_nil. Qed.

(** The version of an entity only grows: once it is past [v] it stays so. *)
Definition beyond_version (id : string) (v : Z) (s : sys) : Prop :=
  id ∈ used s /\ forall r, r ∈ entities (cat (sw s)) -> e_id r = id -> (v < e_version r)%Z.

Lemma step_beyond l s s' id v : step l s s' -> pin_inv s -> beyond_version id v s -> beyond_version id v s'.
Proof.
  intros Hs Hp [Hu Hb]. destruct (step_change _ _ _ Hs Hp) as (V & Eu & Ht & _). split; [rewrite Eu; apply elem_of_app; by right|].
  intros r' Hr' Hid. destruct (Ht r' Hr') as (r & Hr & Hi & _ & _ & Hc); [by rewrite Hid|].
  assert (Hv : (v < e_version r)%Z) by (apply Hb; congruence). destruct Hc as [[-> _]|[?|[_ ?]]]; lia.
Qed.

Lemma trace_beyond tr s s' id v : trace tr s s' -> pin_inv s -> beyond_version id v s -> beyond_version id v s'.
Proof.
  induction 1 as [|tr s s1 l s2 Ht IH Hst]; [done|]. intros Hp Hb. eapply step_beyond; [done| |by apply IH]. by eapply trace_pin.
Qed.

Lemma stale_version ids refused t s : beyond_version (e_id (pt_entity t)) (e_version (pt_entity t)) s ->
  is_ok (patch_transaction ids refused t (sw s)) = false.
Proof.
  intros [_ Hb]. destruct (patch_transaction ids refused t (sw s)) as [w'|] eqn:E; [|done].
  apply patch_rows in E as ((r & Hr & Hv) & _). unfold same_version in Hv. rewrite !andb_true_iff, Z.eqb_eq, !String.eqb_eq in Hv.
  destruct Hv as (((Hid & _) & Hve) & _). specialize (Hb r Hr Hid). lia.
Qed.

(** What a patch that succeeds has found and what it leaves. *)
Lemma patch_found s ids refused t w' : pin_inv s -> t ∈ patches s -> patch_transaction ids refused t (sw s) = Ok w' ->
  pt_entity t ∈ entities (cat (sw s)) /\
  (exists new, findByEntityId (e_id (pt_entity t)) (cat (sw s)) ≡ₚ pt_fields t ++ new /\ Forall relation_field new) /\
  entities (cat w') = map (fun r => if String.eqb (e_id r) (e_id (pt_entity t)) then patched (pt_input t) (pt_entity t) else r) (entities (cat (sw s))).
Proof.
  intros Hp Ht E. apply patch_rows in E as ((r & Hr & Hv) & He & _). assert (Hv0 := Hv). unfold same_version in Hv0.
  rewrite !andb_true_iff, Z.eqb_eq, !String.eqb_eq in Hv0. destruct Hv0 as (((Hid & Htn) & Hve) & Hl). unfold live in Hl.
  destruct (pi_patches _ Hp t Ht) as [Hpin _]. destruct (Hpin r Hr Hid) as [_ Hsame].
  destruct (Hsame Hve) as [-> Hf]; [by destruct (e_deleted_at r)|]. split_and!; [done..|]. rewrite He. unfold update_where.
  apply map_ext_in. intros x Hx%list_elem_of_In. destruct (String.eqb_spec (e_id x) (e_id (pt_entity t))) as [E1|E1].
  - by rewrite (entity_eq _ _ _ (pi_sys _ Hp) Hx Hr E1), Hv.
  - unfold same_version. rewrite (proj2 (String.eqb_neq _ _) E1). done.
Qed.

(** C5: No update of an entity by a patch is lost, however the operations on entities,
    relationships and migrations overlap: when a patch succeeds, the entity is exactly what
    the patch has read, and so are its fields, to which only the reference fields of
    relationships can have been added since (they do not count as a new version); the patch
    changes that entity's row and no other's; and no other patch that was planned on the
    same version of the entity can succeed any more, whatever happens in between. *)
Theorem no_lost_update tr s ids refused t w1 :
  trace tr empty_sys s -> t ∈ patches s -> fresh (first_ids ids (p_addFields (pt_input t))) s ->
  patch_commit ids refused t (sw s) = (Ok tt, w1) ->
  (pt_entity t ∈ entities (cat (sw s)) /\
   exists new, findByEntityId (e_id (pt_entity t)) (cat (sw s)) ≡ₚ pt_fields t ++ new /\ Forall relation_field new) /\
  entities (cat w1) = map (fun r => if String.eqb (e_id r) (e_id (pt_entity t)) then patched (pt_input t) (pt_entity t) else r) (entities (cat (sw s))) /\
  forall tr' s' t' ids' refused',
    trace tr' (use_ids (first_ids ids (p_addFields (pt_input t))) (with_world w1 s)) s' ->
    t' ∈ patches s' -> e_id (pt_entity t') = e_id (pt_entity t) -> e_version (pt_entity t') = e_version (pt_entity t) ->
    is_ok (patch_transaction ids' refused' t' (sw s')) = false.
Proof.
  intros Htr Hin Hf Hc. assert (Hp := trace_pin _ _ _ Htr empty_pin). assert (Ec := patch_commit_cat ids refused t (sw s)).
  assert (Hst := step_patch_commit _ _ refused _ Hin Hf). rewrite Hc in Ec, Hst. cbn [snd] in Ec, Hst.
  destruct (patch_transaction ids refused t (sw s)) as [w'|] eqn:E; [|by unfold patch_commit in Hc; rewrite E in Hc].
  destruct (patch_found _ _ _ _ _ Hp Hin E) as (H1 & H2 & H3). rewrite Ec. split_and!; [done..|].
  intros tr' s' t' ids' refused' Ht' _ Ei Ev. apply stale_version. rewrite Ei, Ev. eapply trace_beyond; [exact Ht'|by eapply pin_step_inv|].
  split; [apply elem_of_app; right; by apply (si_patches _ (pi_sys _ Hp))|]. cbn. rewrite Ec, H3.
  intros r (x & -> & Hx)%list_elem_of_fmap. destruct (String.eqb_spec (e_id x) (e_id (pt_entity t))) as [_|E1]; [|done]. intros _. cbn. lia.
Qed.

(** ** A small history *)

Definition DEMO_TENANT : string := "0b9d8a52-7c41-4c5e-9a77-2f1f5b0f6d10".

Definition demo_field (name : string) : FieldInput :=
  {| i_name := name; i_slug := None; i_type := "string"; i_required := None; i_nullable := None; i_default := VUndef; i_rules := [];
     i_enum_values := None; i_array_item_type := None; i_ref := None; i_indexed := None; i_unique := None |}.

Definition demo_create (name field : string) : CreateEntityInput :=
  {| c_name := name; c_slug := None; c_description := None; c_isPublic := None; c_fields := [demo_field field] |}.

Definition demo_patch : PatchEntityInput :=
  {| p_name := Some "People"; p_description := None; p_isPublic := None; p_addFields := [demo_field "Age"]; p_removeFieldSlugs := [];
     p_renameFields := []; p_updateFields := [] |}.

Definition demo_ids (p : string) (k : nat) : string := p +:+ Z_to_string (Z.of_nat k).

Definition demo_link (field : string) (k : relationship_type) : CreateRelationshipInput :=
  {| fromEntitySlug := "person"; toEntitySlug := "company"; relationshipType := k; fromFieldName := field; toFieldName := None; cascadeDelete := None |}.

(** Two entities are created; a patch reads one of them; two relationships are made between
    the entities; then the patch is applied. *)
Definition demo_person : CreateTicket := {| ct_tenant := DEMO_TENANT; ct_slug := "person"; ct_refs := [None]; ct_input := demo_create "Person" "First Name" |}.
Definition demo_company : CreateTicket := {| ct_tenant := DEMO_TENANT; ct_slug := "company"; ct_refs := [None]; ct_input := demo_create "Company" "Town" |}.
Definition commit_create (p id : string) (t : CreateTicket) (s : sys) : sys :=
  use_ids (id :: first_ids (demo_ids p) (c_fields (ct_input t))) (with_world (create_commit (demo_ids p) id None t (sw s)).2 s).
Definition commit_link (fid rid : string) (t : LinkTicket) (s : sys) : sys :=
  use_ids [fid; rid] (with_world (link_commit fid rid None t (sw s)).2 s).

Definition demo_created : sys := commit_create "f" "e0" demo_person (add_create demo_person empty_sys).
Definition demo_two : sys := commit_create "g" "e1" demo_company (add_create demo_company demo_created).
Definition demo_read : PatchTicket :=
  {| pt_tenant := DEMO_TENANT; pt_entity := new_entity "e0" demo_person; pt_fields := findByEntityId "e0" (cat (sw demo_two)); pt_input := demo_patch |}.
Definition demo_ticket (field : string) (k : relationship_type) : LinkTicket :=
  {| lt_tenant := DEMO_TENANT; lt_from := new_entity "e0" demo_person; lt_to := new_entity "e1" demo_company; lt_input := demo_link field k |}.
Definition demo_works : sys := commit_link "r0" "l0" (demo_ticket "works at" OneToMany) (add_link (demo_ticket "works at" OneToMany) (add_patch demo_read demo_two)).
Definition demo_sys : sys := commit_link "r1" "l1" (demo_ticket "knows" ManyToMany) (add_link (demo_ticket "knows" ManyToMany) demo_works).

Lemma fresh_check l s : bool_decide (NoDup l) && forallb (fun x => negb (mem x (used s))) l = true -> fresh l s.
Proof.
  intros [H1%bool_decide_eq_true H2]%andb_true_iff. split; [done|]. rewrite forallb_forall in H2. intros x Hx Hu.
  specialize (H2 x (proj1 (list_elem_of_In _ _) Hx)). apply negb_true_iff in H2. apply mem_spec in Hu. by rewrite Hu in H2.
Qed.

Lemma trace_quiet s s1 s2 : trace [] s s1 -> step None s1 s2 -> trace [] s s2.
Proof. intros H1 H2. exact (trace_step [] _ _ None _ H1 H2). Qed.

Lemma demo_trace : trace [] empty_sys demo_sys.
Proof.
  apply (trace_quiet _ (add_link (demo_ticket "knows" ManyToMany) demo_works)).
  2:{ apply (step_link_commit _ "r1" "l1" None (demo_ticket "knows" ManyToMany)); [by left|apply fresh_check; vm_compute; reflexivity]. }
  apply (trace_quiet _ demo_works).
  2:{ apply (step_link_read _ DEMO_TENANT (demo_link "knows" ManyToMany)). vm_compute. reflexivity. }
  apply (trace_quiet _ (add_link (demo_ticket "works at" OneToMany) (add_patch demo_read demo_two))).
  2:{ apply (step_link_commit _ "r0" "l0" None (demo_ticket "works at" OneToMany)); [by left|apply fresh_check; vm_compute; reflexivity]. }
  apply (trace_quiet _ (add_patch demo_read demo_two)).
  2:{ apply (step_link_read _ DEMO_TENANT (demo_link "works at" OneToMany)). vm_compute. reflexivity. }
  apply (trace_quiet _ demo_two).
  2:{ eapply (step_patch_read _ DEMO_TENANT "person" demo_patch). vm_compute. reflexivity. }
  apply (trace_quiet _ (add_create demo_company demo_created)).
  2:{ apply (step_create_commit _ (demo_ids "g") "e1" None demo_company); [by left|apply fresh_check; vm_compute; reflexivity]. }
  apply (trace_quiet _ demo_created).
  2:{ apply (step_create_read _ DEMO_TENANT (demo_create "Company" "Town")). vm_compute. reflexivity. }
  apply (trace_quiet _ (add_create demo_person empty_sys)).
  2:{ apply (step_create_commit _ (demo_ids "f") "e0" None demo_person); [by left|apply fresh_check; vm_compute; reflexivity]. }
  apply (trace_quiet _ empty_sys); [apply trace_nil|].
  apply (step_create_read _ DEMO_TENANT (demo_create "Person" "First Name")). vm_compute. reflexivity.
Qed.

(** The tables of the two entities and the join table; the column of the first relationship. *)
Lemma tables_match_witness :
  trace [] empty_sys demo_sys /\
  (exists t, jm_get (place_of (new_entity "e0" demo_person)) (tables (sw demo_sys)) = Some t /\
     t_columns t ≡ₚ SYSTEM_TABLE_COLUMNS ++ ["first_name"; "company_id"]) /\
  (forall j, j ∈ joins (sw demo_sys) -> jm_has (j_place j) (tables (sw demo_sys)) = false) /\
  map j_place (joins (sw demo_sys)) = [(tenantSchemaName DEMO_TENANT, "company_person")].
Proof.
  destruct (tables_match [] demo_sys demo_trace ltac:(vm_compute; reflexivity)) as (H1 & _ & _ & _ & H5).
  split_and!; [exact demo_trace| |by intros j Hj; apply H5|vm_compute; reflexivity].
  destruct (H1 (new_entity "e0" demo_person)) as (t & Ht & Hc); [vm_compute; by left|]. exists t. split; [exact Ht|].
  rewrite Hc. vm_compute. reflexivity.
Defined.

(** The patch goes through although a field was added to the entity after it was read. *)
Lemma no_lost_update_witness :
  (patch_commit (demo_ids "h") None demo_read (sw demo_sys)).1 = Ok tt /\
  (exists new, findByEntityId "e0" (cat (sw demo_sys)) ≡ₚ pt_fields demo_read ++ new /\ Forall relation_field new) /\
  map f_slug (pt_fields demo_read) = ["first_name"] /\
  map f_slug (findByEntityId "e0" (cat (sw demo_sys))) = ["first_name"; "company_id"] /\
  map e_name (entities (cat (patch_commit (demo_ids "h") None demo_read (sw demo_sys)).2)) = ["People"; "Company"].
Proof.
  assert (E : (patch_commit (demo_ids "h") None demo_read (sw demo_sys)).1 = Ok tt) by (vm_compute; reflexivity).
  destruct (no_lost_update [] demo_sys (demo_ids "h") None demo_read (patch_commit (demo_ids "h") None demo_read (sw demo_sys)).2 demo_trace)
    as ([_ H] & H2 & _).
  - by left.
  - apply fresh_check. vm_compute. reflexivity.
  - rewrite (surjective_pairing (patch_commit _ _ _ _)) at 1. by rewrite E.
  - split_and!; [exact E|exact H|vm_compute; reflexivity..|]. rewrite H2. vm_compute. reflexivity.
Defined.

(** Two runs of the cleanup overlap: both have read the row of the deleted entity, the first
    has removed it, and since then its slug has been given to a new entity.  The second run
    drops the table of the new entity, which stays in the catalogue. *)
Definition stale_row : EntityRow :=
  deleted_entity 5 {| e_id := "e9"; e_tenant := DEMO_TENANT; e_name := "Person"; e_slug := "person"; e_version := 1;
    e_description := None; e_is_public := false; e_deleted_at := None |}.

Example stale_cleanup :
  let w := cleanup_turn None stale_row (sw demo_created) in
  entities (cat w) = entities (cat (sw demo_created)) /\
  jm_keys (tables (sw demo_created)) = [(tenantSchemaName DEMO_TENANT, "person")] /\ tables w = [].
Proof. split_and!; vm_compute; reflexivity. Qed.
