(* ===== verification/QueryService.v ===== *)
(** * The ontology service: structured queries

    services/ontology/src/services/query-service.ts: the validation of a query, the
    statements built from it and their execution in a transaction.  Limits and offsets are
    integers, as the schema of the route requires; an absent value of a clause is
    [VUndef].  The second half states what the database is asked. *)

From S2P Require Import Prelude JsString JsNumber JsValue PgIdentifier OntologyCatalog.
From Stdlib Require Import Ascii.
From stdpp Require Import strings pretty.

Inductive WhereOperator : Type :=
| op_eq | op_neq | op_gt | op_gte | op_lt | op_lte | op_like | op_in | op_not_in | op_is_null | op_is_not_null.

Record WhereClause : Type := { wc_field : string; wc_operator : WhereOperator; wc_value : value }.

Record OrderBy : Type := { ob_field : string; ob_desc : bool }.

Record StructuredQuery : Type := {
  entityType : string;
  select : list string;
  where_ : list WhereClause;                 (* [] when absent, as in [query.where ?? []] *)
  orderBy : list OrderBy;
  limit : option Z;
  offset : option Z;
  groupBy : list string;
  having : list WhereClause
}.

Definition MAX_LIMIT : Z := 1000.
Definition DEFAULT_LIMIT : Z := 100.
Definition QUERY_TIMEOUT_MS : Z := 30000.

Definition SYSTEM_COLUMNS : list string := ["_id"; "_created_at"; "_updated_at"; "_version"; "_source_id"].

Definition quoteColumnIdentifier (col : string) : result ontology_error string :=
  if mem col SYSTEM_COLUMNS then Ok (str quote +:+ col +:+ str quote) else quotePgIdentifier col.

(** ** The fields of an entity *)

Record Resolved : Type := {
  schemaName : string;
  tableSlug : string;
  fieldSlugs : list string;
  fieldTypes : jmap string string
}.

Definition resolveEntityFields (tenantId etype : string) (c : catalog) : result ontology_error Resolved :=
  match entity_findBySlug tenantId etype c with
  | None => Err (EntityNotFoundError ("Entity '" +:+ etype +:+ "' not found."))
  | Some entity =>
      let fs := findByEntityId (e_id entity) c in
      let types := fold_left (fun m f => jm_set (f_slug f) (f_type f) m) fs [] in
      let system := [("_id", "string"); ("_created_at", "date"); ("_updated_at", "date"); ("_version", "number"); ("_source_id", "string")] in
      Ok {| schemaName := tenantSchemaName tenantId; tableSlug := e_slug entity;
            fieldSlugs := SYSTEM_COLUMNS ++ map f_slug fs;
            fieldTypes := fold_left (fun m '(k, v) => jm_set k v m) system types |}
  end.

(** ** Validation *)

Definition unknown_fields (place : string) (slugs : list string) (names : list string) : list string :=
  flat_map (fun f => if mem f slugs then [] else ["Unknown field in " +:+ place +:+ ": '" +:+ f +:+ "'"]) names.

Definition validateFieldReferences (query : StructuredQuery) (slugs : list string) : list string :=
  (if mem "*" (select query) then [] else unknown_fields "select" slugs (select query)) ++
  unknown_fields "where" slugs (map wc_field (where_ query)) ++
  unknown_fields "orderBy" slugs (map ob_field (orderBy query)) ++
  unknown_fields "groupBy" slugs (groupBy query) ++
  unknown_fields "having" slugs (map wc_field (having query)).

Definition op_name (o : WhereOperator) : string :=
  match o with
  | op_eq => "eq" | op_neq => "neq" | op_gt => "gt" | op_gte => "gte" | op_lt => "lt" | op_lte => "lte"
  | op_like => "like" | op_in => "in" | op_not_in => "not_in" | op_is_null => "is_null" | op_is_not_null => "is_not_null"
  end.

Definition nullaryOps (o : WhereOperator) : bool := match o with op_is_null | op_is_not_null => true | _ => false end.
Definition arrayOps (o : WhereOperator) : bool := match o with op_in | op_not_in => true | _ => false end.

Definition isArray (v : value) : bool := match v with VArr _ _ => true | _ => false end.
Definition is_undefined (v : value) : bool := match v with VUndef => true | _ => false end.

Definition clause_errors (clause : WhereClause) : list string :=
  let op := "Operator '" +:+ op_name (wc_operator clause) +:+ "'" in
  if nullaryOps (wc_operator clause) then
    if negb (is_undefined (wc_value clause)) then [op +:+ " must not have a value"] else []
  else if arrayOps (wc_operator clause) then
    if negb (isArray (wc_value clause)) then [op +:+ " requires an array value"] else []
  else if is_undefined (wc_value clause) then [op +:+ " requires a value"] else [].

Definition validateStructure (query : StructuredQuery) : list string :=
  match limit query with
  | Some l => if (l <? 1)%Z || (MAX_LIMIT <? l)%Z then ["limit must be between 1 and " +:+ Z_to_string MAX_LIMIT] else []
  | None => []
  end ++
  match offset query with Some o => if (o <? 0)%Z then ["offset must be >= 0"] else [] | None => [] end ++
  match select query with [] => ["select must not be empty; use ['*'] to select all fields"] | _ => [] end ++
  flat_map clause_errors (where_ query ++ having query).

(** ** Building the statements *)

Definition pgArrayType (fieldType : option string) : string :=
  match fieldType with
  | Some t =>
      if String.eqb t "number" then "numeric[]"
      else if String.eqb t "boolean" then "boolean[]"
      else if String.eqb t "date" then "timestamptz[]"
      else "text[]"
  | None => "text[]"
  end.

(** [$${params.length}], after a push *)
Definition placeholder (params : list value) : string := "$" +:+ pretty (N.of_nat (length params)).

Definition qualified (schema table : string) : result ontology_error string :=
  s ← quotePgIdentifier schema;
  t ← quotePgIdentifier table;
  Ok (s +:+ "." +:+ t).

Definition column (schema table field : string) : result ontology_error string :=
  q ← qualified schema table;
  f ← quoteColumnIdentifier field;
  Ok (q +:+ "." +:+ f).

(** The text of one clause and the parameters after it. *)
Definition build_clause (schema table : string) (types : jmap string string) (params : list value) (clause : WhereClause)
  : result ontology_error (string * list value) :=
  qField ← column schema table (wc_field clause);
  let pushed := params ++ [wc_value clause] in
  let compare op := Ok (qField +:+ op +:+ placeholder pushed, pushed) in
  match wc_operator clause with
  | op_eq => compare " = "
  | op_neq => compare " != "
  | op_gt => compare " > "
  | op_gte => compare " >= "
  | op_lt => compare " < "
  | op_lte => compare " <= "
  | op_like =>
      raw ← or_throw TypeError (to_string (wc_value clause));
      let pushed := params ++ [VStr (double backslash raw)] in
      Ok (qField +:+ " LIKE " +:+ placeholder pushed +:+ " ESCAPE '" +:+ str backslash +:+ "'", pushed)
  | op_in => Ok (qField +:+ " = ANY(" +:+ placeholder pushed +:+ "::" +:+ pgArrayType (jm_get (wc_field clause) types) +:+ ")", pushed)
  | op_not_in => Ok ("NOT (" +:+ qField +:+ " = ANY(" +:+ placeholder pushed +:+ "::" +:+ pgArrayType (jm_get (wc_field clause) types) +:+ "))", pushed)
  | op_is_null => Ok (qField +:+ " IS NULL", params)
  | op_is_not_null => Ok (qField +:+ " IS NOT NULL", params)
  end.

Fixpoint build_clauses (schema table : string) (types : jmap string string) (params : list value) (clauses : list WhereClause)
  : result ontology_error (list string * list value) :=
  match clauses with
  | [] => Ok ([], params)
  | clause :: rest =>
      '(part, params1) ← build_clause schema table types params clause;
      '(parts, params2) ← build_clauses schema table types params1 rest;
      Ok (part :: parts, params2)
  end.

Definition buildWhereFragment (schema table : string) (clauses : list WhereClause) (params : list value) (types : jmap string string)
  : result ontology_error (string * list value) :=
  '(parts, params1) ← build_clauses schema table types params clauses;
  Ok (JsString.join " AND " parts, params1).

(** [if (fragment) sql += keyword + fragment] *)
Definition with_fragment (sql keyword fragment : string) : string :=
  match fragment with EmptyString => sql | _ => sql +:+ keyword +:+ fragment end.

Definition columns_of (schema table : string) (fs : list string) : result ontology_error (list string) :=
  traverse (column schema table) fs.

Definition order_part (schema table : string) (ob : OrderBy) : result ontology_error string :=
  q ← column schema table (ob_field ob);
  Ok (q +:+ if ob_desc ob then " DESC" else " ASC").

Definition buildSelectSql (schema table : string) (query : StructuredQuery) (types : jmap string string)
  : result ontology_error (string * list value) :=
  qTable ← qualified schema table;
  selectClause ← (if mem "*" (select query) then Ok (qTable +:+ ".*")
                  else cols ← columns_of schema table (select query); Ok (JsString.join ", " cols));
  let sql := "SELECT " +:+ selectClause +:+ " FROM " +:+ qTable in
  '(whereFragment, params) ← buildWhereFragment schema table (where_ query) [] types;
  let sql := with_fragment sql " WHERE " whereFragment in
  '(sql, params) ← match groupBy query with
    | [] => Ok (sql, params)
    | _ =>
        cols ← columns_of schema table (groupBy query);
        let sql := sql +:+ " GROUP BY " +:+ JsString.join ", " cols in
        '(havingFragment, params) ← buildWhereFragment schema table (having query) params types;
        Ok (with_fragment sql " HAVING " havingFragment, params)
    end;
  sql ← match orderBy query with
    | [] => Ok sql
    | _ => parts ← traverse (order_part schema table) (orderBy query); Ok (sql +:+ " ORDER BY " +:+ JsString.join ", " parts)
    end;
  let params := params ++ [VNum (num_of_Z (Z.min (default DEFAULT_LIMIT (limit query)) MAX_LIMIT))] in
  let sql := sql +:+ " LIMIT " +:+ placeholder params in
  match offset query with
  | Some o =>
      if (0 <? o)%Z then
        let params := params ++ [VNum (num_of_Z o)] in Ok (sql +:+ " OFFSET " +:+ placeholder params, params)
      else Ok (sql, params)
  | None => Ok (sql, params)
  end.

Definition buildCountSql (schema table : string) (query : StructuredQuery) (types : jmap string string)
  : result ontology_error (string * list value) :=
  qTable ← qualified schema table;
  '(whereFragment, params) ← buildWhereFragment schema table (where_ query) [] types;
  Ok (with_fragment ("SELECT COUNT(*) AS total FROM " +:+ qTable) " WHERE " whereFragment, params).

(** ** The operations *)

Definition validateQuery (tenantId : string) (query : StructuredQuery) (c : catalog) : result ontology_error (list string) :=
  match validateStructure query with
  | [] => r ← resolveEntityFields tenantId (entityType query) c; Ok (validateFieldReferences query (fieldSlugs r))
  | errors => Ok errors
  end.

Definition query_invalid (errors : list string) : ontology_error :=
  QueryValidationError ("Query validation failed: " +:+ JsString.join "; " errors).

(** The statements that a query asks the database for. *)
Definition prepareQuery (tenantId : string) (query : StructuredQuery) (c : catalog)
  : result ontology_error ((string * list value) * (string * list value) * jmap string string) :=
  match validateStructure query with
  | [] =>
      r ← resolveEntityFields tenantId (entityType query) c;
      match validateFieldReferences query (fieldSlugs r) with
      | [] =>
          main ← buildSelectSql (schemaName r) (tableSlug r) query (fieldTypes r);
          count ← buildCountSql (schemaName r) (tableSlug r) query (fieldTypes r);
          Ok (main, count, fieldTypes r)
      | errors => Err (query_invalid errors)
      end
  | errors => Err (query_invalid errors)
  end.

(** What the database answers a statement: the names of the columns and the rows, or an
    error with its code. *)
Record PgResult : Type := { pg_fields : list string; pg_rows : list obj }.

Record QueryResult : Type := { qr_columns : list (string * string); qr_rows : list obj; totalCount : option Z }.

Definition extractColumns (r : PgResult) (types : jmap string string) : list (string * string) :=
  map (fun f => (f, default "unknown" (jm_get f types))) (pg_fields r).

(** [parseInt(rows[0]?.total ?? "0", 10)], [None] for [NaN] *)
Definition read_total (r : PgResult) : option Z :=
  match pg_rows r with
  | row :: _ => match coalesce (get "total" row) (VStr "0") with VStr s => parseInt10 s | _ => None end
  | [] => Some 0%Z
  end.

Section Execute.
Context (answer : string -> list value -> result string PgResult).

Definition send (sql : string) (params : list value) : result ontology_error PgResult :=
  map_err DatabaseError (answer sql params).

(** The statements of one query on its connection, with the outcome.  Both selections are
    on their way before the first is answered, and COMMIT follows them in any case; an
    error of COMMIT replaces theirs. *)
Definition in_transaction (main count : string * list value) : list string * result ontology_error (PgResult * PgResult) :=
  let timeout := "SET LOCAL statement_timeout = " +:+ Z_to_string QUERY_TIMEOUT_MS in
  match send "BEGIN" [] with
  | Err e => (["BEGIN"], Err e)
  | Ok _ =>
      match send timeout [] with
      | Err e => (["BEGIN"; timeout], Err e)
      | Ok _ =>
          let both := p ← answer main.1 main.2; k ← answer count.1 count.2; Ok (p, k) in
          let outcome := map_err (fun code => if String.eqb code "57014" then QueryTimeoutError "Query exceeded the 30s timeout." else DatabaseError code) both in
          (["BEGIN"; timeout; main.1; count.1; "COMMIT"],
           match send "COMMIT" [] with Err e => Err e | Ok _ => outcome end)
      end
  end.

Definition executeQuery (tenantId : string) (query : StructuredQuery) (c : catalog) : list string * result ontology_error QueryResult :=
  match prepareQuery tenantId query c with
  | Err e => ([], Err e)
  | Ok (main, count, types) =>
      let '(sent, outcome) := in_transaction main count in
      (sent, '(p, k) ← outcome; Ok {| qr_columns := extractColumns p types; qr_rows := pg_rows p; totalCount := read_total k |})
  end.
End Execute.

(** ** Structured queries: what the database is asked

    The statement that the database reads, each placeholder standing for the value bound
    to it, is the query: its identifiers are single tokens and its values are never part
    of the text.  The statement that counts has the same conditions. *)

(** ** The query as tokens *)

Definition table_tokens (schema table : string) : list token := [TIdent schema; TSym "."; TIdent table].

Definition column_tokens (schema table field : string) : list token :=
  table_tokens schema table ++ [TSym "."; TIdent field].

Definition array_types : jmap string string := [("number", "numeric"); ("boolean", "boolean"); ("date", "timestamptz")].

Definition array_tokens (t : option string) : list token :=
  [TWord (default "text" (t ≫= fun t => jm_get t array_types)); TSym "["; TSym "]"].

Definition any_tokens (v : value) (t : option string) : list token :=
  [TOp "="; TWord "ANY"; TSym "("; TVal v; TOp "::"] ++ array_tokens t ++ [TSym ")"].

Definition clause_tokens (schema table : string) (types : jmap string string) (clause : WhereClause) : list token :=
  let field := column_tokens schema table (wc_field clause) in
  let v := wc_value clause in
  let compare op := field ++ [TOp op; TVal v] in
  match wc_operator clause with
  | op_eq => compare "=" | op_neq => compare "!=" | op_gt => compare ">" | op_gte => compare ">="
  | op_lt => compare "<" | op_lte => compare "<="
  | op_like =>
      field ++ [TWord "LIKE"; TVal (VStr (double backslash (default EmptyString (to_string v)))); TWord "ESCAPE"; TLit (str backslash)]
  | op_in => field ++ any_tokens v (jm_get (wc_field clause) types)
  | op_not_in => [TWord "NOT"; TSym "("] ++ field ++ any_tokens v (jm_get (wc_field clause) types) ++ [TSym ")"]
  | op_is_null => field ++ [TWord "IS"; TWord "NULL"]
  | op_is_not_null => field ++ [TWord "IS"; TWord "NOT"; TWord "NULL"]
  end.

Definition conditions (schema table : string) (types : jmap string string) (keyword : string) (clauses : list WhereClause) : list token :=
  match clauses with
  | [] => []
  | _ => TWord keyword :: joined [TWord "AND"] (map (clause_tokens schema table types) clauses)
  end.

Definition column_list (schema table : string) (fs : list string) : list token :=
  joined [TSym ","] (map (column_tokens schema table) fs).

Definition order_tokens (schema table : string) (ob : OrderBy) : list token :=
  column_tokens schema table (ob_field ob) ++ [TWord (if ob_desc ob then "DESC" else "ASC")].

Definition selection_tokens (schema table : string) (query : StructuredQuery) : list token :=
  if mem "*" (select query) then table_tokens schema table ++ [TSym "."; TSym "*"] else column_list schema table (select query).

Definition group_tokens (schema table : string) (types : jmap string string) (query : StructuredQuery) : list token :=
  match groupBy query with
  | [] => []
  | fs => [TWord "GROUP"; TWord "BY"] ++ column_list schema table fs ++ conditions schema table types "HAVING" (having query)
  end.

Definition ordering_tokens (schema table : string) (query : StructuredQuery) : list token :=
  match orderBy query with
  | [] => []
  | obs => [TWord "ORDER"; TWord "BY"] ++ joined [TSym ","] (map (order_tokens schema table) obs)
  end.

Definition page_tokens (query : StructuredQuery) : list token :=
  [TWord "LIMIT"; TVal (VNum (num_of_Z (Z.min (default DEFAULT_LIMIT (limit query)) MAX_LIMIT)))] ++
  match offset query with
  | Some o => if (0 <? o)%Z then [TWord "OFFSET"; TVal (VNum (num_of_Z o))] else []
  | None => []
  end.

Definition query_tokens (schema table : string) (types : jmap string string) (query : StructuredQuery) : list token :=
  ([TWord "SELECT"] ++ selection_tokens schema table query ++ [TWord "FROM"] ++ table_tokens schema table) ++
  conditions schema table types "WHERE" (where_ query) ++ group_tokens schema table types query ++
  ordering_tokens schema table query ++ page_tokens query.

Definition count_tokens (schema table : string) (types : jmap string string) (query : StructuredQuery) : list token :=
  [TWord "SELECT"; TWord "COUNT"; TSym "("; TSym "*"; TSym ")"; TWord "AS"; TWord "total"; TWord "FROM"] ++
  table_tokens schema table ++ conditions schema table types "WHERE" (where_ query).

(** ** Texts with placeholders *)

(** [shows params s ts]: the text [s] has the tokens [ts] when the placeholders stand for
    [params], also with more parameters behind them. *)
Definition shows (params : list value) (s : string) (ts : list token) : Prop :=
  exists us, reads s us /\ forall more, resolve (params ++ more) us = ts.

(** Tokens without placeholders. *)
Definition constant (ts : list token) : Prop := forall params, resolve params ts = ts.

Lemma resolve_app params ts us : resolve params (ts ++ us) = resolve params ts ++ resolve params us.
Proof. apply map_app. Qed.

Lemma resolve_joined params sep l : resolve params (joined sep l) = joined (resolve params sep) (map (resolve params) l).
Proof.
  induction l as [|ts l IH]; [done|]. destruct l as [|us l]; [done|].
  change (joined sep (ts :: us :: l)) with (ts ++ sep ++ joined sep (us :: l)). by rewrite !resolve_app, IH.
Qed.

Lemma shows_more params e s ts : shows params s ts -> shows (params ++ e) s ts.
Proof. intros (us & Hr & H). exists us. split; [done|]. intros more. by rewrite <- app_assoc. Qed.

Lemma shows_constant params s ts : reads s ts -> constant ts -> shows params s ts.
Proof. intros Hr Hc. exists ts. split; [done|]. intros more. apply Hc. Qed.

Lemma shows_before params p ps s ts : run Start p = (ps, Start) -> constant ps -> shows params s ts -> shows params (p +:+ s) (ps ++ ts).
Proof.
  intros Hp Hc (us & Hr & H). exists (ps ++ us). split; [by apply reads_before|]. intros more. by rewrite resolve_app, Hc, H.
Qed.

Lemma shows_sep params s ts mid ms c m t us :
  mid = String c m -> is_sep c = true -> run Start mid = (ms, Start) -> constant ms ->
  shows params s ts -> shows params t us -> shows params (s +:+ mid +:+ t) (ts ++ ms ++ us).
Proof.
  intros E Hs Hm Hc (ts' & Hr & H) (us' & Hr' & H'). exists (ts' ++ ms ++ us').
  split; [by eapply reads_sep|]. intros more. by rewrite !resolve_app, Hc, H, H'.
Qed.

Lemma shows_end params s ts t us c m :
  t = String c m -> is_sep c = true -> run Start t = (us, Start) -> constant us -> shows params s ts -> shows params (s +:+ t) (ts ++ us).
Proof.
  intros E Hs Ht Hc (ts' & Hr & H). exists (ts' ++ us). split; [by eapply reads_end|]. intros more. by rewrite resolve_app, Hc, H.
Qed.

Lemma shows_join params sep ss c m l tss :
  sep = String c m -> is_sep c = true -> run Start sep = (ss, Start) -> constant ss ->
  Forall2 (shows params) l tss -> shows params (JsString.join sep l) (joined ss tss).
Proof.
  intros E Hs Hp Hc H. assert (exists uss, Forall2 reads l uss /\ forall more, map (resolve (params ++ more)) uss = tss) as (uss & Hr & Hm).
  { induction H as [|s ts l tss (us & Hr & Hu) _ (uss & Hrs & Hus)]; [by exists []|]. exists (us :: uss). split; [by constructor|].
    intros more. cbn. by rewrite Hu, Hus. }
  exists (joined ss uss). split.
  - destruct l as [|s l]; [inversion Hr; subst; split; [done|by intros]|]. by eapply reads_join.
  - intros more. by rewrite resolve_joined, Hc, Hm.
Qed.

Lemma shows_param params v : shows (params ++ [v]) (placeholder (params ++ [v])) [TVal v].
Proof.
  unfold placeholder. exists [TParam (N.of_nat (length (params ++ [v])))]. split; [apply reads_param|]. intros more. cbn.
  rewrite Nat2N.id, length_app. cbn [length]. replace (length params + 1 - 1)%nat with (length params) by lia.
  rewrite <- app_assoc. cbn [app]. by rewrite list_lookup_middle.
Qed.

(** ** Names *)

Lemma qualified_ok schema table q : qualified schema table = Ok q -> q = quoted quote schema +:+ "." +:+ quoted quote table.
Proof.
  unfold qualified. intros H. unbind H as a Ha. unbind H as b Hb. injection H as <-.
  apply quotePgIdentifier_ok in Ha as [_ ->]. by apply quotePgIdentifier_ok in Hb as [_ ->].
Qed.

Lemma quoteColumnIdentifier_ok f q : quoteColumnIdentifier f = Ok q -> q = quoted quote f.
Proof.
  unfold quoteColumnIdentifier. destruct (mem f SYSTEM_COLUMNS) eqn:E; [|by intros [_ ->]%quotePgIdentifier_ok].
  intros [= <-]. apply mem_spec in E. unfold SYSTEM_COLUMNS in E. by repeat (apply elem_of_cons in E as [->|E]; [done|]); apply not_elem_of_nil in E.
Qed.

Lemma column_ok schema table f q : column schema table f = Ok q ->
  q = (quoted quote schema +:+ "." +:+ quoted quote table) +:+ "." +:+ quoted quote f.
Proof.
  unfold column. intros H. unbind H as a Ha. unbind H as b Hb. injection H as <-.
  apply qualified_ok in Ha as ->. by apply quoteColumnIdentifier_ok in Hb as ->.
Qed.

Lemma reads_table schema table : reads (quoted quote schema +:+ "." +:+ quoted quote table) (table_tokens schema table).
Proof. apply (reads_dot schema _ [TIdent table]), reads_ident. Qed.

Lemma column_shows params schema table f q : column schema table f = Ok q -> shows params q (column_tokens schema table f).
Proof.
  intros ->%column_ok. apply shows_constant; [|done]. rewrite !string_app_assoc.
  apply (reads_dot schema _ [TIdent table; TSym "."; TIdent f]), (reads_dot table _ [TIdent f]), reads_ident.
Qed.

Lemma columns_shows params schema table fs cols : columns_of schema table fs = Ok cols ->
  shows params (JsString.join ", " cols) (column_list schema table fs).
Proof.
  intros H%traverse_ok. eapply shows_join; [done..|]. apply Forall2_fmap_r, Forall2_flip. eapply Forall2_impl; [exact H|].
  intros f q. apply column_shows.
Qed.

(** ** Clauses *)

Lemma reads_started s ts : run Start s = (ts, Start) -> reads s ts.
Proof.
  intros H. split; [unfold lex, lex_from; by rewrite H, app_nil_r|]. intros c t _. unfold lex. by rewrite (lex_const _ _ _ _ _ H).
Qed.

Lemma run_array_type n t :
  run (InParam n) ("::" +:+ pgArrayType t +:+ ")") = ([TParam n; TOp "::"] ++ array_tokens t ++ [TSym ")"], Start).
Proof.
  destruct t as [t|]; [|done]. unfold pgArrayType, array_tokens. cbn [mbind option_bind jm_get array_types].
  rewrite !(String.eqb_sym t). unfold array_types. cbn [jm_get].
  repeat match goal with |- context [decide (?x = ?y)] => destruct (decide (x = y)) as [->|?] end; try done.
  by rewrite !(proj2 (String.eqb_neq _ _)) by done.
Qed.

Lemma any_shows params v t :
  shows (params ++ [v]) (" = ANY(" +:+ placeholder (params ++ [v]) +:+ "::" +:+ pgArrayType t +:+ ")") (any_tokens v t).
Proof.
  destruct (shows_param params v) as (us & _ & _). set (n := N.of_nat (length (params ++ [v]))).
  exists ([TOp "="; TWord "ANY"; TSym "("; TParam n; TOp "::"] ++ array_tokens t ++ [TSym ")"]). split.
  - apply reads_started. rewrite run_app. unfold placeholder. fold n. change (run Start " = ANY(") with ([TOp "="; TWord "ANY"; TSym "("], Start).
    cbn [fst snd]. rewrite run_app, run_placeholder. cbn [fst snd]. rewrite run_array_type. done.
  - intros more. unfold any_tokens, array_tokens, resolve. cbn [app map resolve1]. unfold n. rewrite Nat2N.id, length_app.
    cbn [length]. replace (length params + 1 - 1)%nat with (length params) by lia. rewrite <- app_assoc. cbn [app].
    by rewrite list_lookup_middle.
Qed.

Lemma shows_compare params schema table f q v mid op m :
  column schema table f = Ok q -> mid = String " " m -> run Start mid = ([TOp op], Start) ->
  shows (params ++ [v]) (q +:+ mid +:+ placeholder (params ++ [v])) (column_tokens schema table f ++ [TOp op; TVal v]).
Proof.
  intros Hq Hm Hop. eapply (shows_sep _ _ _ _ [TOp op]); [done..|by apply column_shows|]. apply shows_param.
Qed.

(** Texts that follow each other, the second from a separator on. *)
Lemma shows_behind params s ts c t us : is_sep c = true -> shows params s ts -> shows params (String c t) us ->
  shows params (s +:+ String c t) (ts ++ us).
Proof.
  intros Hc (ts' & Hr & Ht) (us' & Hr' & Hu). exists (ts' ++ us'). split; [by apply reads_behind|].
  intros more. by rewrite resolve_app, Ht, Hu.
Qed.

Lemma field_any_shows params schema table f q v t : column schema table f = Ok q ->
  shows (params ++ [v]) (q +:+ " = ANY(" +:+ placeholder (params ++ [v]) +:+ "::" +:+ pgArrayType t +:+ ")")
    (column_tokens schema table f ++ any_tokens v t).
Proof. intros Hq. apply shows_behind; [done|by apply column_shows|apply any_shows]. Qed.

(** A clause pushes its value and is read with it. *)
Lemma clause_shows schema table types params clause part params' :
  build_clause schema table types params clause = Ok (part, params') ->
  exists e, params' = params ++ e /\ shows params' part (clause_tokens schema table types clause).
Proof.
  unfold build_clause, clause_tokens. intros H. unbind H as q Hq. assert (Hs := fun p => column_shows p _ _ _ _ Hq).
  destruct (wc_operator clause).
  1-6: injection H as <- <-; eexists; split; [done|]; by eapply shows_compare.
  - unbind H as raw Hraw. injection H as <- <-. eexists. split; [done|]. unfold or_throw in Hraw.
    destruct (to_string (wc_value clause)) as [r|]; [|done]. injection Hraw as ->. cbn [default].
    change (" ESCAPE '" +:+ str backslash +:+ "'") with (" ESCAPE " +:+ quoted squote (str backslash)).
    eapply (shows_sep _ _ _ " LIKE " [TWord "LIKE"]); [done..|].
    eapply (shows_sep _ _ [_] " ESCAPE " [TWord "ESCAPE"]); [done..|apply shows_param|]. by apply shows_constant; [apply reads_lit|].
  - injection H as <- <-. eexists. split; [done|]. by apply field_any_shows.
  - injection H as <- <-. eexists. split; [done|].
    assert (Hf := field_any_shows params _ _ _ _ (wc_value clause) (jm_get (wc_field clause) types) Hq).
    set (P := placeholder _) in *. set (A := pgArrayType _) in *.
    assert (E : "NOT (" +:+ q +:+ " = ANY(" +:+ P +:+ "::" +:+ A +:+ "))" = "NOT (" +:+ (q +:+ " = ANY(" +:+ P +:+ "::" +:+ A +:+ ")") +:+ ")")
      by by rewrite !string_app_assoc.
    rewrite E, (app_assoc (column_tokens _ _ _)). apply (shows_before _ "NOT (" [TWord "NOT"; TSym "("]); [done..|].
    by eapply (shows_end _ _ _ ")" [TSym ")"]).
  - injection H as <- <-. exists []. rewrite app_nil_r. split; [done|]. apply shows_behind; [done..|].
    apply shows_constant; [|done]. apply (reads_run _ [TWord "IS"] _ (InWord "NULL")); [done|apply closes_word].
  - injection H as <- <-. exists []. rewrite app_nil_r. split; [done|]. apply shows_behind; [done..|].
    apply shows_constant; [|done]. apply (reads_run _ [TWord "IS"; TWord "NOT"] _ (InWord "NULL")); [done|apply closes_word].
Qed.

Lemma clauses_show schema table types clauses params parts params' :
  build_clauses schema table types params clauses = Ok (parts, params') ->
  exists e, params' = params ++ e /\ Forall2 (shows params') parts (map (clause_tokens schema table types) clauses).
Proof.
  revert params parts. induction clauses as [|clause rest IH]; intros params parts; cbn [build_clauses].
  { intros [= <- <-]. exists []. rewrite app_nil_r. by constructor. }
  intros H. unbind H as x Hx. destruct x as [part params1]. unbind H as y Hy. destruct y as [parts2 params2]. injection H as <- <-.
  apply clause_shows in Hx as (e1 & -> & Hp). apply IH in Hy as (e2 & -> & Hps).
  exists (e1 ++ e2). rewrite app_assoc. split; [done|]. constructor; [by apply shows_more|done].
Qed.

(** The conditions behind a statement, when there are any. *)
Lemma fragment_shows schema table types clauses params sql ts kw word text params' :
  buildWhereFragment schema table clauses params types = Ok (text, params') ->
  kw = String " " (word +:+ " ") -> run Start kw = ([TWord word], Start) ->
  shows params sql ts ->
  exists e, params' = params ++ e /\ shows params' (with_fragment sql kw text) (ts ++ conditions schema table types word clauses).
Proof.
  unfold buildWhereFragment. intros H Hk Hw Hs. unbind H as x Hx. destruct x as [parts params1]. injection H as <- <-.
  destruct (clauses_show _ _ _ _ _ _ _ Hx) as (e & -> & Hp). exists e. split; [done|].
  assert (Hj : shows (params ++ e) (JsString.join " AND " parts) (joined [TWord "AND"] (map (clause_tokens schema table types) clauses)))
    by by eapply shows_join.
  destruct clauses as [|clause rest].
  - injection Hx as <- _. cbn. rewrite app_nil_r. by apply shows_more.
  - assert (Hne : with_fragment sql kw (JsString.join " AND " parts) = sql +:+ kw +:+ JsString.join " AND " parts).
    { destruct (JsString.join " AND " parts) eqn:E; [|done]. destruct Hj as (us & [Hl _] & Hu). cbn in Hl. subst us.
      specialize (Hu []). exfalso. revert Hu. clear. cbn [resolve map]. intros Hu. assert (Hc : clause_tokens schema table types clause <> []) by (unfold clause_tokens; destruct (wc_operator clause); done).
      destruct (clause_tokens schema table types clause); [done|]. by destruct rest. }
    rewrite Hne. change (conditions _ _ _ _ (clause :: rest)) with ([TWord word] ++ joined [TWord "AND"] (map (clause_tokens schema table types) (clause :: rest))).
    eapply shows_sep; [exact Hk|done|done|done|by apply shows_more|done].
Qed.


Lemma table_star_shows params schema table q : qualified schema table = Ok q ->
  shows params (q +:+ ".*") (table_tokens schema table ++ [TSym "."; TSym "*"]).
Proof.
  intros ->%qualified_ok. apply shows_constant; [|done]. rewrite string_app_assoc. apply (reads_dot schema _ [TIdent table; TSym "."; TSym "*"]).
  apply (reads_dot table "*" [TSym "*"]). by apply reads_started.
Qed.

Lemma order_part_shows params schema table ob part : order_part schema table ob = Ok part -> shows params part (order_tokens schema table ob).
Proof.
  unfold order_part, order_tokens. intros H. unbind H as q Hq. injection H as <-.
  destruct (ob_desc ob); (apply shows_behind; [done|by apply column_shows|]); apply shows_constant; try done.
  - apply (reads_run _ [] _ (InWord "DESC")); [done|apply closes_word].
  - apply (reads_run _ [] _ (InWord "ASC")); [done|apply closes_word].
Qed.

(** ** The parts of the statement *)

Lemma table_shows params schema table q : qualified schema table = Ok q -> shows params q (table_tokens schema table).
Proof. intros ->%qualified_ok. apply shows_constant; [apply reads_table|done]. Qed.

Lemma selection_shows schema table query qTable sel :
  qualified schema table = Ok qTable ->
  (if mem "*" (select query) then Ok (qTable +:+ ".*")
   else cols ← columns_of schema table (select query); Ok (JsString.join ", " cols)) = Ok sel ->
  shows [] ("SELECT " +:+ sel +:+ " FROM " +:+ qTable)
    ([TWord "SELECT"] ++ selection_tokens schema table query ++ [TWord "FROM"] ++ table_tokens schema table).
Proof.
  intros Hq H. apply shows_before; [done..|]. eapply shows_sep; [done..| |by apply table_shows].
  unfold selection_tokens. destruct (mem "*" (select query)).
  - injection H as <-. by apply table_star_shows.
  - unbind H as cols Hc. injection H as <-. by apply columns_shows.
Qed.

(** A list behind its keywords. *)
Lemma behind_list params sql ts kw ks word m l us :
  kw = String " " (word +:+ " ") -> run Start kw = (ks, Start) -> constant ks -> m = JsString.join ", " l ->
  Forall2 (shows params) l us -> shows params sql ts -> shows params (sql +:+ kw +:+ m) (ts ++ ks ++ joined [TSym ","] us).
Proof. intros Hk Hr Hc -> Hl Hs. eapply shows_sep; [exact Hk|done..|]. by eapply shows_join. Qed.

Lemma columns_list params schema table fs cols : columns_of schema table fs = Ok cols ->
  Forall2 (shows params) cols (map (column_tokens schema table) fs).
Proof.
  intros H%traverse_ok. apply Forall2_fmap_r, Forall2_flip. eapply Forall2_impl; [exact H|]. intros f q. apply column_shows.
Qed.

Lemma group_shows schema table types query sql ts params sql' params' :
  match groupBy query with
  | [] => Ok (sql, params)
  | _ =>
      cols ← columns_of schema table (groupBy query);
      '(havingFragment, params) ← buildWhereFragment schema table (having query) params types;
      Ok (with_fragment (sql +:+ " GROUP BY " +:+ JsString.join ", " cols) " HAVING " havingFragment, params)
  end = Ok (sql', params') ->
  shows params sql ts -> exists e, params' = params ++ e /\ shows params' sql' (ts ++ group_tokens schema table types query).
Proof.
  intros H Hs. unfold group_tokens. destruct (groupBy query) as [|f fs].
  { injection H as <- <-. exists []. by rewrite !app_nil_r. }
  unbind H as cols Hc. unbind H as x Hh. destruct x as [text params1]. injection H as <- <-.
  assert (Hg : shows params (sql +:+ " GROUP BY " +:+ JsString.join ", " cols) (ts ++ [TWord "GROUP"; TWord "BY"] ++ column_list schema table (f :: fs))).
  { apply (behind_list _ _ _ " GROUP BY " _ "GROUP BY" _ cols); [done..|by apply columns_list|done]. }
  destruct (fragment_shows _ _ _ _ _ _ _ " HAVING " "HAVING" _ _ Hh eq_refl eq_refl Hg) as (e & -> & H).
  exists e. split; [done|]. by rewrite <- !app_assoc in H.
Qed.

Lemma ordering_shows schema table query params sql ts sql' :
  match orderBy query with
  | [] => Ok sql
  | _ => parts ← traverse (order_part schema table) (orderBy query); Ok (sql +:+ " ORDER BY " +:+ JsString.join ", " parts)
  end = Ok sql' ->
  shows params sql ts -> shows params sql' (ts ++ ordering_tokens schema table query).
Proof.
  intros H Hs. unfold ordering_tokens. destruct (orderBy query) as [|ob obs].
  { injection H as <-. by rewrite app_nil_r. }
  unbind H as parts Hp. injection H as <-. apply (behind_list _ _ _ " ORDER BY " _ "ORDER BY" _ parts); [done..| |done].
  apply traverse_ok in Hp. apply Forall2_fmap_r, Forall2_flip. eapply Forall2_impl; [exact Hp|]. intros o p. apply order_part_shows.
Qed.

Lemma page_shows params query sql ts sql' params' :
  (let params := params ++ [VNum (num_of_Z (Z.min (default DEFAULT_LIMIT (limit query)) MAX_LIMIT))] in
   let sql := sql +:+ " LIMIT " +:+ placeholder params in
   match offset query with
   | Some o =>
       if (0 <? o)%Z then let params := params ++ [VNum (num_of_Z o)] in Ok (sql +:+ " OFFSET " +:+ placeholder params, params)
       else Ok (sql, params)
   | None => Ok (sql, params)
   end) = @Ok ontology_error _ (sql', params') ->
  shows params sql ts -> shows params' sql' (ts ++ page_tokens query).
Proof.
  intros H Hs. unfold page_tokens. set (n := VNum (num_of_Z (Z.min _ _))) in *.
  assert (Hl : shows (params ++ [n]) (sql +:+ " LIMIT " +:+ placeholder (params ++ [n])) (ts ++ [TWord "LIMIT"; TVal n])).
  { eapply (shows_sep _ _ _ " LIMIT " [TWord "LIMIT"]); [done..|by apply shows_more|apply shows_param]. }
  destruct (offset query) as [o|]; [destruct (0 <? o)%Z|]; injection H as <- <-; [|done..].
  change ([TWord "LIMIT"; TVal n] ++ [TWord "OFFSET"; TVal (VNum (num_of_Z o))]) with ([TWord "LIMIT"; TVal n] ++ [TWord "OFFSET"] ++ [TVal (VNum (num_of_Z o))]).
  rewrite app_assoc. eapply (shows_sep _ _ _ " OFFSET " [TWord "OFFSET"]); [done..|by apply shows_more|apply shows_param].
Qed.

Lemma shows_resolve params s ts : shows params s ts -> resolve params (lex s) = ts.
Proof. intros (us & [<- _] & Hu). specialize (Hu []). by rewrite app_nil_r in Hu. Qed.

(** The statement of a query, read with each placeholder replaced by the value that is
    bound to it, is the query, token by token. *)
Theorem select_reads schema table query types sql params :
  buildSelectSql schema table query types = Ok (sql, params) ->
  resolve params (lex sql) = query_tokens schema table types query.
Proof.
  intros H. apply shows_resolve. unfold buildSelectSql in H. unbind H as qTable HqT. unbind H as sel Hsel.
  assert (H0 := selection_shows _ _ _ _ _ HqT Hsel). unbind H as x Hw. destruct x as [wtext params1].
  destruct (fragment_shows _ _ _ _ _ _ _ " WHERE " "WHERE" _ _ Hw eq_refl eq_refl H0) as (e & -> & H1). cbn zeta beta in H.
  unbind H as x Hg. destruct x as [sql2 params2]. eapply group_shows in Hg as (e2 & -> & H2); [|exact H1].
  unbind H as sql3 Ho. eapply ordering_shows in Ho; [|exact H2]. eapply page_shows in H; [|exact Ho].
  unfold query_tokens. by rewrite !app_assoc in *.
Qed.

(** The statement that counts has the conditions of WHERE and nothing else of the query. *)
Theorem count_reads schema table query types sql params :
  buildCountSql schema table query types = Ok (sql, params) ->
  resolve params (lex sql) = count_tokens schema table types query.
Proof.
  intros H. apply shows_resolve. unfold buildCountSql in H. unbind H as qTable HqT. unbind H as x Hw. destruct x as [wtext params1].
  injection H as <- <-. unfold count_tokens. rewrite app_assoc.
  assert (H0 : shows [] ("SELECT COUNT(*) AS total FROM " +:+ qTable)
    ([TWord "SELECT"; TWord "COUNT"; TSym "("; TSym "*"; TSym ")"; TWord "AS"; TWord "total"; TWord "FROM"] ++ table_tokens schema table)).
  { apply shows_before; [done..|]. by apply table_shows. }
  by destruct (fragment_shows _ _ _ _ _ _ _ " WHERE " "WHERE" _ _ Hw eq_refl eq_refl H0) as (e & -> & H1).
Qed.

(** ** Queries that pass the validation *)

(** Every LIKE compares with a value that has a text. *)
Definition like_ok (clause : WhereClause) : Prop := wc_operator clause = op_like -> is_Some (to_string (wc_value clause)).

Lemma qualified_total schema table :
  PG_IDENTIFIER_REGEX schema = true -> PG_IDENTIFIER_REGEX table = true -> exists q, qualified schema table = Ok q.
Proof. intros H1 H2. unfold qualified, quotePgIdentifier. rewrite H1, H2. cbn. eauto. Qed.

Section Total.
Context (schema table : string) (types : jmap string string) (slugs : list string).
Context (Hschema : PG_IDENTIFIER_REGEX schema = true) (Htable : PG_IDENTIFIER_REGEX table = true).
Context (Hslugs : forall f, f ∈ slugs -> mem f SYSTEM_COLUMNS = true \/ PG_IDENTIFIER_REGEX f = true).

Lemma column_total f : f ∈ slugs -> exists q, column schema table f = Ok q.
Proof.
  intros Hf. unfold column. destruct (qualified_total schema table) as [q ->]; [done..|]. cbn [mbind result_mbind result_bind].
  unfold quoteColumnIdentifier, quotePgIdentifier. destruct (mem f SYSTEM_COLUMNS) eqn:E; [cbn; eauto|].
  destruct (Hslugs f Hf) as [?|Hr]; [congruence|]. rewrite Hr. cbn. eauto.
Qed.

Lemma columns_total fs : Forall (fun f => f ∈ slugs) fs -> exists cols, columns_of schema table fs = Ok cols.
Proof.
  induction 1 as [|f fs Hf _ [cols IH]]; [by exists []|]. unfold columns_of in *. cbn [traverse].
  destruct (column_total f Hf) as [q ->]. cbn. rewrite IH. cbn. eauto.
Qed.

Lemma clauses_total clauses params : Forall (fun c => wc_field c ∈ slugs) clauses -> Forall like_ok clauses ->
  exists r, build_clauses schema table types params clauses = Ok r.
Proof.
  intros H. revert params. induction H as [|c rest Hc _ IH]; intros params Hl; [by eexists|]. apply Forall_cons in Hl as [Hl Hrest].
  cbn [build_clauses]. assert (exists r, build_clause schema table types params c = Ok r) as [[part params1] ->].
  { unfold build_clause. destruct (column_total _ Hc) as [q ->]. cbn [mbind result_mbind result_bind]. unfold like_ok in Hl.
    destruct (wc_operator c); try by eexists. destruct Hl as [raw ->]; [done|]. by eexists. }
  cbn. destruct (IH params1 Hrest) as [[parts params2] ->]. by eexists.
Qed.

Lemma fragment_total clauses params : Forall (fun c => wc_field c ∈ slugs) clauses -> Forall like_ok clauses ->
  exists r, buildWhereFragment schema table clauses params types = Ok r.
Proof.
  intros H Hl. unfold buildWhereFragment. destruct (clauses_total clauses params H Hl) as [[parts params1] ->]. by eexists.
Qed.

Lemma select_total query :
  validateFieldReferences query slugs = [] -> Forall like_ok (where_ query ++ having query) ->
  (exists r, buildSelectSql schema table query types = Ok r) /\ (exists r, buildCountSql schema table query types = Ok r).
Proof.
  unfold validateFieldReferences. rewrite !app_nil. intros (Hsel & Hw & Ho & Hg & Hh) [Hlw Hlh]%Forall_app.
  assert (Hk : forall place names, unknown_fields place slugs names = [] -> Forall (fun f => f ∈ slugs) names).
  { intros place names H. apply flat_map_nil in H. eapply Forall_impl; [exact H|]. intros f. cbv beta. destruct (mem f slugs) eqn:E; [|done].
    intros _. by apply mem_spec. }
  apply Hk in Hw, Ho, Hg, Hh. apply Forall_fmap in Hw, Ho, Hh.
  destruct (qualified_total schema table) as [qTable Eq]; [done..|]. unfold buildSelectSql, buildCountSql. rewrite Eq. cbn [mbind result_mbind result_bind].
  destruct (fragment_total (where_ query) [] Hw Hlw) as [[wtext params1] ->]. split; [|by eexists].
  assert (exists sel, (if mem "*" (select query) then Ok (qTable +:+ ".*")
    else cols ← columns_of schema table (select query); Ok (JsString.join ", " cols)) = Ok sel) as [sel ->].
  { destruct (mem "*" (select query)); [by eexists|]. apply Hk in Hsel. destruct (columns_total _ Hsel) as [cols ->]. by eexists. }
  cbn [mbind result_mbind result_bind]. set (sql := with_fragment _ " WHERE " _).
  assert (exists r, match groupBy query with
    | [] => Ok (sql, params1)
    | _ => cols ← columns_of schema table (groupBy query);
           '(havingFragment, params) ← buildWhereFragment schema table (having query) params1 types;
           Ok (with_fragment (sql +:+ " GROUP BY " +:+ JsString.join ", " cols) " HAVING " havingFragment, params)
    end = Ok r) as [[sql2 params2] ->].
  { destruct (columns_total _ Hg) as [cols ->]. cbn [mbind result_mbind result_bind].
    destruct (fragment_total (having query) params1 Hh Hlh) as [[htext params2] ->]. destruct (groupBy query); by eexists. }
  cbn [mbind result_mbind result_bind].
  assert (exists parts, traverse (order_part schema table) (orderBy query) = Ok parts) as [parts ->].
  { clear -Ho Hschema Htable Hslugs. induction Ho as [|ob obs Hob _ [parts IH]]; [by eexists|]. cbn [traverse].
    destruct (column_total _ Hob) as [q Eo].
    assert (E : order_part schema table ob = Ok (q +:+ if ob_desc ob then " DESC" else " ASC")) by (unfold order_part; by rewrite Eo).
    rewrite E. cbn [mbind result_mbind result_bind]. rewrite IH. by eexists. }
  destruct (orderBy query), (offset query) as [n|]; cbn; try destruct (0 <? n)%Z; by eexists.
Qed.
End Total.

(** The tenant's identifier is written in lower-case letters and digits, with hyphens. *)
Definition tenant_ok (tenantId : string) : Prop := Forall (fun c => slug_tail c = true) (explode (remove_hyphens tenantId)).

Lemma tenant_schema_ok tenantId : tenant_ok tenantId -> PG_IDENTIFIER_REGEX (tenantSchemaName tenantId) = true.
Proof.
  unfold tenant_ok, tenantSchemaName, PG_IDENTIFIER_REGEX. rewrite explode_app. intros H. cbn [explode app andb]. apply andb_true_iff. split; [done|].
  change (forallb slug_tail (explode (remove_hyphens tenantId)) = true). rewrite forallb_elem. by rewrite Forall_forall in H.
Qed.

Lemma resolve_slugs tenantId etype c r : catalog_ok c -> resolveEntityFields tenantId etype c = Ok r ->
  schemaName r = tenantSchemaName tenantId /\ tableSlug r = etype /\ PG_IDENTIFIER_REGEX etype = true /\
  forall f, f ∈ fieldSlugs r -> mem f SYSTEM_COLUMNS = true \/ PG_IDENTIFIER_REGEX f = true.
Proof.
  intros [He Hf]. unfold resolveEntityFields. destruct (entity_findBySlug tenantId etype c) as [e|] eqn:E; [|done]. intros [= <-].
  apply entity_findBySlug_spec in E as (Hin & _ & <-). rewrite Forall_forall in He. rewrite Forall_forall in Hf.
  split_and!; [done|done|by apply He|]. intros f Hm. change (f ∈ SYSTEM_COLUMNS ++ map f_slug (findByEntityId (e_id e) c)) in Hm.
  apply elem_of_app in Hm as [Hs|Hs]; [left; by apply mem_spec|right].
  apply list_elem_of_fmap in Hs as (g & -> & Hg%elem_of_findByEntityId). apply Hf, Hg.
Qed.

Definition timeout_statement : string := "SET LOCAL statement_timeout = 30000".

(** C13: A query that [validateQuery] finds valid is executed: the connection is sent
    BEGIN, the time limit, the two selections and COMMIT, in this order; the first
    selection, with each placeholder standing for the value bound to it, is the query token
    by token - every name of the query one identifier, every value one value, none of its
    text SQL, at most a thousand rows - and the second counts the rows of the same
    conditions; what they answer is the result.  Nothing is sent for a query that is not
    valid. *)
Theorem query_executed answer tenantId query c :
  catalog_ok c -> tenant_ok tenantId -> Forall like_ok (where_ query ++ having query) ->
  match validateQuery tenantId query c with
  | Err e => executeQuery answer tenantId query c = ([], Err e)
  | Ok (e :: es) => executeQuery answer tenantId query c = ([], Err (query_invalid (e :: es)))
  | Ok [] =>
      let schema := tenantSchemaName tenantId in
      exists r main mparams count cparams,
        resolveEntityFields tenantId (entityType query) c = Ok r /\
        resolve mparams (lex main) = query_tokens schema (entityType query) (fieldTypes r) query /\
        resolve cparams (lex count) = count_tokens schema (entityType query) (fieldTypes r) query /\
        (is_ok (answer "BEGIN" []) = true -> is_ok (answer timeout_statement []) = true ->
         (executeQuery answer tenantId query c).1 = ["BEGIN"; timeout_statement; main; count; "COMMIT"] /\
         forall p k, answer main mparams = Ok p -> answer count cparams = Ok k -> is_ok (answer "COMMIT" []) = true ->
           (executeQuery answer tenantId query c).2 =
             Ok {| qr_columns := extractColumns p (fieldTypes r); qr_rows := pg_rows p; totalCount := read_total k |})
  end.
Proof.
  intros Hc Ht Hl. unfold validateQuery, executeQuery, prepareQuery. destruct (validateStructure query) as [|e es]; [|done].
  destruct (resolveEntityFields tenantId (entityType query) c) as [r|e] eqn:Er; [|done]. cbn [mbind result_mbind result_bind].
  destruct (validateFieldReferences query (fieldSlugs r)) as [|e es] eqn:Ef; [|done].
  destruct (resolve_slugs _ _ _ _ Hc Er) as (-> & -> & He & Hs).
  destruct (select_total _ _ (fieldTypes r) _ (tenant_schema_ok _ Ht) He Hs _ Ef Hl) as [[[main mparams] E1] [[count cparams] E2]].
  rewrite E1, E2. cbn [mbind result_mbind result_bind]. exists r, main, mparams, count, cparams.
  split; [done|]. split; [by apply select_reads|]. split; [by apply count_reads|]. unfold in_transaction, send.
  change ("SET LOCAL statement_timeout = " +:+ Z_to_string QUERY_TIMEOUT_MS) with timeout_statement.
  destruct (answer "BEGIN" []) as [b|]; [|done]. destruct (answer timeout_statement []) as [t|]; [|done]. cbn. intros _ _.
  split; [done|]. intros p k -> ->. by destruct (answer "COMMIT" []).
Qed.

(** ** A query *)

Definition ex_field (id slug type : string) (order : Z) : FieldRow :=
  {| f_id := id; f_entity := "e1"; f_tenant := "4f0a-77"; f_name := slug; f_slug := slug; f_type := type; f_required := false;
     f_nullable := true; f_default := None; f_rules := []; f_enum_values := None; f_array_item_type := None; f_ref_entity := None;
     f_indexed := false; f_unique := false; f_sort_order := order; f_system := false; f_deleted_at := None |}.

Definition ex_catalog : catalog :=
  {| entities := [{| e_id := "e1"; e_tenant := "4f0a-77"; e_name := "Person"; e_slug := "person"; e_version := 1; e_description := None;
                     e_is_public := false; e_deleted_at := None |}];
     fields := [ex_field "f1" "age" "number" 0; ex_field "f2" "name" "string" 1]; relationships := []; migrations := [] |}.

(** Ages in a list, names like a text that holds quotes and a placeholder, grouped. *)
Definition ex_query : StructuredQuery :=
  {| entityType := "person"; select := ["age"; "name"];
     where_ := [{| wc_field := "age"; wc_operator := op_in; wc_value := VArr 1%N [VNum (num_of_Z 3)] |};
                {| wc_field := "name"; wc_operator := op_like; wc_value := VStr (str squote +:+ "; DROP $1 --" +:+ str quote +:+ str backslash) |};
                {| wc_field := "_id"; wc_operator := op_is_not_null; wc_value := VUndef |}];
     orderBy := [{| ob_field := "_version"; ob_desc := true |}]; limit := Some 10%Z; offset := Some 20%Z; groupBy := ["age"; "name"];
     having := [{| wc_field := "age"; wc_operator := op_gte; wc_value := VNum (num_of_Z 2) |}] |}.

Definition ex_answer (sql : string) (params : list value) : result string PgResult :=
  Ok {| pg_fields := ["age"; "total"]; pg_rows := [[("total", VStr "7")]] |}.

Lemma query_executed_witness :
  catalog_ok ex_catalog /\ tenant_ok "4f0a-77" /\ Forall like_ok (where_ ex_query ++ having ex_query) /\
  validateQuery "4f0a-77" ex_query ex_catalog = Ok [] /\
  (executeQuery ex_answer "4f0a-77" ex_query ex_catalog).2 =
    Ok {| qr_columns := [("age", "number"); ("total", "unknown")]; qr_rows := [[("total", VStr "7")]]; totalCount := Some 7%Z |}.
Proof.
  assert (Hc : catalog_ok ex_catalog) by (split; repeat constructor).
  assert (Ht : tenant_ok "4f0a-77") by (repeat constructor).
  assert (Hl : Forall like_ok (where_ ex_query ++ having ex_query)) by (repeat constructor; by eexists).
  assert (Hv : validateQuery "4f0a-77" ex_query ex_catalog = Ok []) by by vm_compute.
  split_and!; [done..|]. pose proof (query_executed ex_answer "4f0a-77" ex_query ex_catalog Hc Ht Hl) as H. rewrite Hv in H.
  destruct H as (r & main & mparams & count & cparams & Hr & _ & _ & H). destruct (H eq_refl eq_refl) as [_ H2].
  rewrite (H2 _ _ eq_refl eq_refl eq_refl). vm_compute in Hr. injection Hr as <-. done.
Defined.
