(* ===== verification/SseManager.v ===== *)
(** * Execution service: the log streams

    services/execution/src/services/sse-manager.ts: the fan-out of log lines and of the end of
    an execution to its subscribers, with the replay of buffered lines and the iterator a
    subscriber reads.  Maps of subscribers and subscribers are shared objects, referred to by a
    number; the identifier of a subscriber, a fresh UUID, is the number of its creation.  A call
    of [next] has the number of the call, and [resolved] lists what its promise became, the
    latest last.  The specification below replays the history to the list of events each
    subscriber is due. *)

From S2P Require Import Prelude JsString.
From stdpp Require Import list strings.

Definition LOG_BUFFER_TTL_MS : Z := 5 * 60 * 1000.
Definition MAX_LOG_BUFFER_SIZE : nat := Z.to_nat 50000.
Arguments MAX_LOG_BUFFER_SIZE : simpl never.

Record SseLogEvent : Type := {
  line : Z;
  level : string;
  stream : string;
  message : string;
  timestamp : string
}.

Inductive SseEvent : Type :=
| Log (l : SseLogEvent)
| Complete (durationMs exitCode : Z)         (* [status] is success *)
| Failure (status errorCode errorMessage : string).

Record Subscriber : Type := {
  lastLineNumber : Z;
  buffer : list SseEvent;
  notify : option nat;                       (* the call of [next] that waits *)
  closed : bool;
  sub_map : nat;                             (* [map], captured by the closures *)
  calls : nat;
  resolved : list (nat * option SseEvent)    (* [None] for [done: true] *)
}.

Inductive event : Type :=
| Subscribed (x : nat) (e : string) (last : Z)
| Published (e : string) (ev : SseEvent)
| Ended (e : string)
| Left (x : nat)                             (* [close] or [unsubscribe] *)
| Returned (x : nat)                         (* [return] of the iterator *)
| Expired (e : string).                      (* the timer of the buffer *)

Record manager : Type := {
  subscriptions : jmap string nat;
  maps : nat -> list nat;
  mapSequence : nat;
  subscribers : nat -> Subscriber;
  subSequence : nat;
  logBuffers : jmap string (list SseLogEvent);
  bufferCleanupTimers : jmap string nat;
  timers : list (nat * string);              (* pending, with the execution of the closure *)
  timerSequence : nat;
  history : list event
}.

(** ** Assignments *)

Definition with_buffer (b : list SseEvent) (u : Subscriber) : Subscriber :=
  {| lastLineNumber := lastLineNumber u; buffer := b; notify := notify u; closed := closed u; sub_map := sub_map u;
     calls := calls u; resolved := resolved u |}.
Definition with_notify (n : option nat) (u : Subscriber) : Subscriber :=
  {| lastLineNumber := lastLineNumber u; buffer := buffer u; notify := n; closed := closed u; sub_map := sub_map u;
     calls := calls u; resolved := resolved u |}.
Definition with_closed (u : Subscriber) : Subscriber :=
  {| lastLineNumber := lastLineNumber u; buffer := buffer u; notify := notify u; closed := true; sub_map := sub_map u;
     calls := calls u; resolved := resolved u |}.
Definition with_calls (n : nat) (u : Subscriber) : Subscriber :=
  {| lastLineNumber := lastLineNumber u; buffer := buffer u; notify := notify u; closed := closed u; sub_map := sub_map u;
     calls := n; resolved := resolved u |}.
Definition resolve (n : nat) (r : option SseEvent) (u : Subscriber) : Subscriber :=
  {| lastLineNumber := lastLineNumber u; buffer := buffer u; notify := notify u; closed := closed u; sub_map := sub_map u;
     calls := calls u; resolved := resolved u ++ [(n, r)] |}.

Definition set_subscriptions (m : jmap string nat) (s : manager) : manager :=
  {| subscriptions := m; maps := maps s; mapSequence := mapSequence s; subscribers := subscribers s; subSequence := subSequence s;
     logBuffers := logBuffers s; bufferCleanupTimers := bufferCleanupTimers s; timers := timers s; timerSequence := timerSequence s; history := history s |}.
Definition set_map (m : nat) (l : list nat) (s : manager) : manager :=
  {| subscriptions := subscriptions s; maps := fun j => if (j =? m)%nat then l else maps s j; mapSequence := mapSequence s; subscribers := subscribers s;
     subSequence := subSequence s; logBuffers := logBuffers s; bufferCleanupTimers := bufferCleanupTimers s; timers := timers s;
     timerSequence := timerSequence s; history := history s |}.
Definition set_sub (x : nat) (u : Subscriber) (s : manager) : manager :=
  {| subscriptions := subscriptions s; maps := maps s; mapSequence := mapSequence s;
     subscribers := fun j => if (j =? x)%nat then u else subscribers s j;
     subSequence := subSequence s; logBuffers := logBuffers s; bufferCleanupTimers := bufferCleanupTimers s; timers := timers s;
     timerSequence := timerSequence s; history := history s |}.
Definition set_sequences (m x : nat) (s : manager) : manager :=
  {| subscriptions := subscriptions s; maps := maps s; mapSequence := m; subscribers := subscribers s; subSequence := x;
     logBuffers := logBuffers s; bufferCleanupTimers := bufferCleanupTimers s; timers := timers s; timerSequence := timerSequence s; history := history s |}.
Definition set_buffers (b : jmap string (list SseLogEvent)) (s : manager) : manager :=
  {| subscriptions := subscriptions s; maps := maps s; mapSequence := mapSequence s; subscribers := subscribers s; subSequence := subSequence s;
     logBuffers := b; bufferCleanupTimers := bufferCleanupTimers s; timers := timers s; timerSequence := timerSequence s; history := history s |}.
Definition set_timers (c : jmap string nat) (ts : list (nat * string)) (n : nat) (s : manager) : manager :=
  {| subscriptions := subscriptions s; maps := maps s; mapSequence := mapSequence s; subscribers := subscribers s; subSequence := subSequence s;
     logBuffers := logBuffers s; bufferCleanupTimers := c; timers := ts; timerSequence := n; history := history s |}.
Definition say (e : event) (s : manager) : manager :=
  {| subscriptions := subscriptions s; maps := maps s; mapSequence := mapSequence s; subscribers := subscribers s; subSequence := subSequence s;
     logBuffers := logBuffers s; bufferCleanupTimers := bufferCleanupTimers s; timers := timers s; timerSequence := timerSequence s;
     history := history s ++ [e] |}.

(** ** A subscriber *)

Definition tryDequeue (n : nat) (u : Subscriber) : Subscriber :=
  match buffer u with
  | ev :: rest => resolve n (Some ev) (with_buffer rest u)
  | [] => if closed u then resolve n None u else with_notify (Some n) u
  end.

(** [notify] is taken and called. *)
Definition wake (u : Subscriber) : Subscriber :=
  match notify u with
  | Some n => tryDequeue n (with_notify None u)
  | None => u
  end.

Definition shut (u : Subscriber) : Subscriber := wake (with_closed u).

Definition receive (ev : SseEvent) (u : Subscriber) : Subscriber :=
  if closed u then u else wake (with_buffer (buffer u ++ [ev]) u).

(** ** Operations *)

Definition update (f : Subscriber -> Subscriber) (x : nat) (s : manager) : manager := set_sub x (f (subscribers s x)) s.

(** [for (const subscriber of map.values())] *)
Definition update_all (f : Subscriber -> Subscriber) (m : nat) (s : manager) : manager :=
  fold_left (fun s x => update f x s) (maps s m) s.

Definition map_delete (x : nat) (s : manager) : manager :=
  let m := sub_map (subscribers s x) in set_map m (List.filter (fun y => negb (y =? x)%nat) (maps s m)) s.

Definition getOrCreateSubscriberMap (e : string) (s : manager) : nat * manager :=
  match jm_get e (subscriptions s) with
  | Some m => (m, s)
  | None =>
      let m := mapSequence s in
      (m, set_subscriptions (jm_set e m (subscriptions s)) (set_map m [] (set_sequences (S m) (subSequence s) s)))
  end.

Definition buffered (e : string) (s : manager) : list SseLogEvent :=
  match jm_get e (logBuffers s) with Some b => b | None => [] end.

Definition subscribe (e : string) (last : Z) (s : manager) : manager :=
  let replay := map Log (List.filter (fun l => (last <? line l)%Z) (buffered e s)) in
  let (m, s1) := getOrCreateSubscriberMap e s in
  let x := subSequence s1 in
  let u := {| lastLineNumber := last; buffer := replay; notify := None; closed := false; sub_map := m; calls := 0; resolved := [] |} in
  say (Subscribed x e last) (set_map m (maps s1 m ++ [x]) (set_sub x u (set_sequences (mapSequence s1) (S x) s1))).

(** The iterator's [next] and [return]. *)
Definition next (x : nat) (s : manager) : manager :=
  update (fun u => tryDequeue (calls u) (with_calls (S (calls u)) u)) x s.

Definition return_ (x : nat) (s : manager) : manager := say (Returned x) (map_delete x (update with_closed x s)).

Definition close (x : nat) (s : manager) : manager := say (Left x) (map_delete x (update shut x s)).

Definition deliverToSubscribers (e : string) (ev : SseEvent) (s : manager) : manager :=
  match jm_get e (subscriptions s) with
  | None => s
  | Some m => update_all (receive ev) m s
  end.

Definition capped (buf : list SseLogEvent) (l : SseLogEvent) : list SseLogEvent :=
  (if (MAX_LOG_BUFFER_SIZE <=? length buf)%nat then tl buf else buf) ++ [l].

Definition publish (e : string) (l : SseLogEvent) (s : manager) : manager :=
  say (Published e (Log l)) (deliverToSubscribers e (Log l) (set_buffers (jm_set e (capped (buffered e s) l) (logBuffers s)) s)).

Definition closeAllSubscribers (e : string) (s : manager) : manager :=
  match jm_get e (subscriptions s) with
  | None => s
  | Some m =>
      let s1 := update_all shut m s in
      let s2 := set_subscriptions (jm_delete e (subscriptions s1)) s1 in
      let ts := match jm_get e (bufferCleanupTimers s2) with
                | Some t => List.filter (fun p => negb (p.1 =? t)%nat) (timers s2)
                | None => timers s2
                end in
      let t := timerSequence s2 in
      set_timers (jm_set e t (bufferCleanupTimers s2)) (ts ++ [(t, e)]) (S t) s2
  end.

(** [publishComplete] and [publishError] *)
Definition publish_terminal (e : string) (ev : SseEvent) (s : manager) : manager :=
  say (Ended e) (closeAllSubscribers e (say (Published e ev) (deliverToSubscribers e ev s))).
Definition publishComplete (e : string) (durationMs exitCode : Z) (s : manager) : manager :=
  publish_terminal e (Complete durationMs exitCode) s.
Definition publishError (e errorCode errorMessage status : string) (s : manager) : manager :=
  publish_terminal e (Failure status errorCode errorMessage) s.

Definition unsubscribe (e : string) (x : nat) (s : manager) : manager :=
  match jm_get e (subscriptions s) with
  | None => s
  | Some m =>
      if bool_decide (x ∈ maps s m)
      then say (Left x) (set_map m (List.filter (fun y => negb (y =? x)%nat) (maps s m)) (update shut x s))
      else s
  end.

(** The timer of [closeAllSubscribers]. *)
Definition cleanup (t : nat) (e : string) (s : manager) : manager :=
  say (Expired e)
    (set_timers (jm_delete e (bufferCleanupTimers s)) (List.filter (fun p => negb (p.1 =? t)%nat) (timers s)) (timerSequence s)
      (set_buffers (jm_delete e (logBuffers s)) s)).

(** ** Steps: only objects that exist are used *)

Inductive step : manager -> manager -> Prop :=
| step_subscribe s e last : step s (subscribe e last s)
| step_next s x : (x < subSequence s)%nat -> step s (next x s)
| step_return s x : (x < subSequence s)%nat -> step s (return_ x s)
| step_close s x : (x < subSequence s)%nat -> step s (close x s)
| step_publish s e l : step s (publish e l s)
| step_complete s e d c : step s (publishComplete e d c s)
| step_error s e c m st : step s (publishError e c m st s)
| step_unsubscribe s e x : step s (unsubscribe e x s)
| step_cleanup s t e : (t, e) ∈ timers s -> step s (cleanup t e s).

Definition no_subscriber : Subscriber :=
  {| lastLineNumber := 0; buffer := []; notify := None; closed := true; sub_map := 0; calls := 0; resolved := [] |}.

Definition created : manager :=
  {| subscriptions := []; maps := fun _ => []; mapSequence := 0; subscribers := fun _ => no_subscriber; subSequence := 0; logBuffers := [];
     bufferCleanupTimers := []; timers := []; timerSequence := 0; history := [] |}.

Inductive reachable : manager -> Prop :=
| reachable_created : reachable created
| reachable_step s s' : reachable s -> step s s' -> reachable s'.

(** ** What a subscriber is due

    The lines of an execution since they expired last; a stream starts with those after the
    line it asks for, as far as the limit keeps them, and then gets everything published until
    the execution ends or the subscriber leaves. *)

Record stream_spec : Type := { whose : string; live : bool; due : list SseEvent }.

Record spec : Type := { lines : string -> list SseLogEvent; streams : nat -> option stream_spec }.

Definition started : spec := {| lines := fun _ => []; streams := fun _ => None |}.

Definition log_of (ev : SseEvent) : list SseLogEvent := match ev with Log l => [l] | _ => [] end.

Definition kept (l : list SseLogEvent) : list SseLogEvent := drop (length l - MAX_LOG_BUFFER_SIZE) l.

Definition leave (st : stream_spec) : stream_spec := {| whose := whose st; live := false; due := due st |}.

Arguments kept : simpl never.

(** An operation on the live streams of an execution. *)
Definition on_live (e : string) (f : stream_spec -> stream_spec) (o : option stream_spec) : option stream_spec :=
  option_map (fun st => if live st && String.eqb (whose st) e then f st else st) o.

Definition observe (σ : spec) (h : event) : spec :=
  match h with
  | Subscribed x e last =>
      let st := {| whose := e; live := true; due := map Log (List.filter (fun l => (last <? line l)%Z) (kept (lines σ e))) |} in
      {| lines := lines σ; streams := fun j => if (j =? x)%nat then Some st else streams σ j |}
  | Published e ev =>
      {| lines := fun e' => if String.eqb e' e then lines σ e' ++ log_of ev else lines σ e';
         streams := fun j => on_live e (fun st => {| whose := whose st; live := live st; due := due st ++ [ev] |}) (streams σ j) |}
  | Ended e => {| lines := lines σ; streams := fun j => on_live e leave (streams σ j) |}
  | Left x | Returned x => {| lines := lines σ; streams := fun j => if (j =? x)%nat then option_map leave (streams σ j) else streams σ j |}
  | Expired e => {| lines := fun e' => if String.eqb e' e then [] else lines σ e'; streams := streams σ |}
  end.

Definition observed (h : list event) : spec := fold_left observe h started.

(** What a subscriber has been given so far. *)
Definition delivered (u : Subscriber) : list SseEvent := omap snd (resolved u).

(** ** A subscriber keeps its order *)

Definition fifo (u : Subscriber) : list SseEvent := delivered u ++ buffer u.

Definition parked (u : Subscriber) : Prop := notify u <> None -> buffer u = [].

Lemma fifo_resolve n r u : fifo (resolve n r u) = delivered u ++ option_list r ++ buffer u.
Proof. unfold fifo, delivered. cbn. rewrite omap_app, <- app_assoc. by destruct r. Qed.

Lemma fifo_tryDequeue n u : fifo (tryDequeue n u) = fifo u.
Proof.
  unfold tryDequeue. destruct (buffer u) as [|ev b] eqn:E; [|rewrite fifo_resolve; unfold fifo; by rewrite E].
  case_match; [by rewrite fifo_resolve|done].
Qed.

Lemma fifo_wake u : fifo (wake u) = fifo u.
Proof. unfold wake. destruct (notify u); [by rewrite fifo_tryDequeue|done]. Qed.

Lemma tryDequeue_fields n u : closed (tryDequeue n u) = closed u /\ sub_map (tryDequeue n u) = sub_map u.
Proof. unfold tryDequeue. by repeat case_match. Qed.

Lemma wake_fields u : closed (wake u) = closed u /\ sub_map (wake u) = sub_map u.
Proof. unfold wake. case_match; [|done]. destruct (tryDequeue_fields n (with_notify None u)) as [-> ->]. done. Qed.

Lemma parked_tryDequeue n u : parked u -> parked (tryDequeue n u).
Proof. unfold tryDequeue, parked. intros H. destruct (buffer u) eqn:E; [by case_match|]. cbn. intros Hn. by apply H in Hn. Qed.

Lemma parked_wake u : parked (wake u).
Proof.
  unfold wake. destruct (notify u) eqn:E; [|by intros H]. apply parked_tryDequeue. by intros H.
Qed.

Lemma receive_spec ev u :
  fifo (receive ev u) = fifo u ++ (if closed u then [] else [ev]) /\ closed (receive ev u) = closed u /\ sub_map (receive ev u) = sub_map u /\
  (closed u = false -> parked (receive ev u)).
Proof.
  unfold receive. destruct (closed u) eqn:E; [by rewrite app_nil_r|]. destruct (wake_fields (with_buffer (buffer u ++ [ev]) u)) as [-> ->].
  rewrite fifo_wake. split_and!; [|done|done|intros _; apply parked_wake]. unfold fifo. cbn. by rewrite app_assoc.
Qed.

Lemma shut_spec u : fifo (shut u) = fifo u /\ closed (shut u) = true /\ sub_map (shut u) = sub_map u /\ notify (shut u) = None.
Proof.
  unfold shut. destruct (wake_fields (with_closed u)) as [-> ->]. rewrite fifo_wake. split_and!; [done|done|done|].
  unfold wake. cbn. destruct (notify u) eqn:E; [|done]. unfold tryDequeue. by repeat case_match.
Qed.

Lemma kept_snoc l x : kept (l ++ [x]) = capped (kept l) x.
Proof.
  unfold kept, capped. rewrite !length_drop, length_app. cbn [length]. assert (1 <= MAX_LOG_BUFFER_SIZE)%nat as H1 by (unfold MAX_LOG_BUFFER_SIZE; lia).
  revert H1. generalize MAX_LOG_BUFFER_SIZE as n. intros n H1.
  destruct (Nat.leb_spec n (length l - (length l - n))) as [H|H].
  - rewrite drop_app_le by lia. f_equal. change (tl (drop (length l - n) l)) with (drop 1 (drop (length l - n) l)). rewrite drop_drop. f_equal. lia.
  - replace (length l - n)%nat with 0%nat by lia. by replace (length l + 1 - n)%nat with 0%nat by lia.
Qed.

(** The loop over a map, its members being distinct. *)
Definition same_but_subscribers (s s' : manager) : Prop :=
  subscriptions s' = subscriptions s /\ maps s' = maps s /\ mapSequence s' = mapSequence s /\ subSequence s' = subSequence s /\
  logBuffers s' = logBuffers s /\ bufferCleanupTimers s' = bufferCleanupTimers s /\ timers s' = timers s /\ timerSequence s' = timerSequence s /\
  history s' = history s.

Lemma fold_update f l s :
  NoDup l ->
  same_but_subscribers s (fold_left (fun s x => update f x s) l s) /\
  forall j, subscribers (fold_left (fun s x => update f x s) l s) j = if bool_decide (j ∈ l) then f (subscribers s j) else subscribers s j.
Proof.
  revert s. induction l as [|x l IH]; intros s Hn; [by split|]. apply NoDup_cons in Hn as [Hx Hn]. cbn [fold_left].
  destruct (IH (update f x s) Hn) as [H1 H2]. split; [exact H1|]. intros j. rewrite H2. cbn. destruct (Nat.eqb_spec j x) as [->|Hj].
  - rewrite bool_decide_eq_false_2 by done. rewrite bool_decide_eq_true_2 by by left. done.
  - erewrite bool_decide_ext; [done|]. rewrite elem_of_cons. naive_solver.
Qed.

(** ** Refinement *)

(** A subscriber that exists, against what it is due. *)
Record agrees (s : manager) (x : nat) (st : stream_spec) : Prop := {
  ag_due : fifo (subscribers s x) = due st;
  ag_closed : closed (subscribers s x) = negb (live st);
  ag_live : live st = true -> jm_get (whose st) (subscriptions s) = Some (sub_map (subscribers s x)) /\ x ∈ maps s (sub_map (subscribers s x));
  ag_parked : parked (subscribers s x);
  ag_waits : notify (subscribers s x) <> None -> live st = false -> Returned x ∈ history s;
  ag_map : (sub_map (subscribers s x) < mapSequence s)%nat
}.

Record refines (s : manager) (σ : spec) : Prop := {
  rf_maps e m : jm_get e (subscriptions s) = Some m -> (m < mapSequence s)%nat;
  rf_inj e e' m : jm_get e (subscriptions s) = Some m -> jm_get e' (subscriptions s) = Some m -> e = e';
  rf_lines e : buffered e s = kept (lines σ e);
  rf_distinct m : NoDup (maps s m);
  rf_member e m x : jm_get e (subscriptions s) = Some m -> x ∈ maps s m ->
    (x < subSequence s)%nat /\ sub_map (subscribers s x) = m /\ exists st, streams σ x = Some st /\ whose st = e /\ live st = true;
  rf_stream x : (x < subSequence s)%nat -> exists st, streams σ x = Some st /\ agrees s x st;
  rf_fresh x : (subSequence s <= x)%nat -> streams σ x = None
}.

Definition inv (s : manager) : Prop := refines s (observed (history s)).

Lemma observed_snoc h e : observed (h ++ [e]) = observe (observed h) e.
Proof. unfold observed. by rewrite fold_left_app. Qed.

Lemma on_live_Some e f o st : on_live e f o = Some st ->
  exists st0, o = Some st0 /\ st = if live st0 && String.eqb (whose st0) e then f st0 else st0.
Proof. destruct o as [st0|]; [|done]. intros [= <-]. by exists st0. Qed.

(** [x] is in the current map of [e] when its stream is a live one of [e], and only then. *)
Lemma live_member s σ e m x st :
  refines s σ -> jm_get e (subscriptions s) = Some m -> (x < subSequence s)%nat -> streams σ x = Some st ->
  bool_decide (x ∈ maps s m) = live st && String.eqb (whose st) e.
Proof.
  intros H Hm Hx Hst. destruct (rf_stream _ _ H x Hx) as (st' & Hst' & Ha). rewrite Hst in Hst'. injection Hst' as <-.
  case_bool_decide as Hin.
  - destruct (rf_member _ _ H e m x Hm Hin) as (_ & _ & st' & Hst' & <- & Hl). rewrite Hst in Hst'. injection Hst' as <-. by rewrite Hl, String.eqb_refl.
  - symmetry. destruct (live st) eqn:Hl; [|done]. cbn. apply String.eqb_neq. intros <-. destruct (ag_live _ _ _ Ha Hl) as [H1 H2].
    rewrite Hm in H1. injection H1 as ->. done.
Qed.

(** No map, no live stream. *)
Lemma no_map_no_live s σ e x st :
  refines s σ -> jm_get e (subscriptions s) = None -> (x < subSequence s)%nat -> streams σ x = Some st -> live st && String.eqb (whose st) e = false.
Proof.
  intros H Hm Hx Hst. destruct (rf_stream _ _ H x Hx) as (st' & Hst' & Ha). rewrite Hst in Hst'. injection Hst' as <-.
  destruct (live st) eqn:Hl; [|done]. cbn. apply String.eqb_neq. intros <-. destruct (ag_live _ _ _ Ha Hl) as [H1 _]. congruence.
Qed.

(** What an operation on the subscribers of an execution does to each of them. *)
Definition upon (e : string) (f : Subscriber -> Subscriber) (s : manager) : manager :=
  match jm_get e (subscriptions s) with Some m => update_all f m s | None => s end.

Lemma upon_spec e f s σ :
  refines s σ ->
  same_but_subscribers s (upon e f s) /\
  forall x st, (x < subSequence s)%nat -> streams σ x = Some st ->
    subscribers (upon e f s) x = if live st && String.eqb (whose st) e then f (subscribers s x) else subscribers s x.
Proof.
  intros H. unfold upon. destruct (jm_get e (subscriptions s)) as [m|] eqn:E.
  - destruct (fold_update f (maps s m) s (rf_distinct _ _ H m)) as [H1 H2]. split; [exact H1|]. intros x st Hx Hst. unfold update_all. rewrite H2.
    by rewrite (live_member _ _ _ _ _ _ H E Hx Hst).
  - split; [done|]. intros x st Hx Hst. by rewrite (no_map_no_live _ _ _ _ _ H E Hx Hst).
Qed.

Lemma deliver_upon e ev s : deliverToSubscribers e ev s = upon e (receive ev) s.
Proof. done. Qed.

Lemma refines_published e ev b s σ :
  refines s σ -> (forall e', match jm_get e' b with Some l => l | None => [] end = kept (lines (observe σ (Published e ev)) e')) ->
  refines (say (Published e ev) (deliverToSubscribers e ev (set_buffers b s))) (observe σ (Published e ev)).
Proof.
  intros H Hb. assert (refines s σ -> refines (set_buffers b s) {| lines := lines (observe σ (Published e ev)); streams := streams σ |}) as H1.
  { intros [R1 R2 R3 R4 R5 R6 R7]. split; try done. intros x Hx. destruct (R6 x Hx) as (st & Hst & []). exists st. split; [done|by split]. }
  specialize (H1 H). rewrite deliver_upon. destruct (upon_spec e (receive ev) _ _ H1) as [(E1 & E2 & E3 & E4 & E5 & E6 & E7 & E8 & E9) Hu].
  destruct H1 as [R1 R2 R3 R4 R5 R6 R7]. revert E1 E2 E3 E4 E5 E6 E7 E8 E9 Hu. generalize (upon e (receive ev) (set_buffers b s)) as s1.
  intros s1 E1 E2 E3 E4 E5 E6 E7 E8 E9 Hu. cbn in *. split; cbn.
  - intros e' m. rewrite E1, E3. apply R1.
  - intros e1 e2 m. rewrite E1. apply R2.
  - intros e'. unfold buffered. cbn. rewrite E5. apply Hb.
  - intros m. rewrite E2. apply R4.
  - intros e' m x. rewrite E1, E2, E4. intros Hm Hin. destruct (R5 e' m x Hm Hin) as (Hx & Hs & st & Hst & Hw & Hl). split_and!; [done| |].
    + rewrite (Hu x st Hx Hst). case_match; [|done]. by rewrite (proj1 (proj2 (proj2 (receive_spec ev _)))).
    + rewrite Hst. eexists. split; [reflexivity|]. by case_match.
  - intros x. rewrite E4. intros Hx. destruct (R6 x Hx) as (st & Hst & [A1 A2 A3 A4 A5 A6]). rewrite Hst. eexists. split; [reflexivity|].
    specialize (Hu x st Hx Hst). destruct (live st && String.eqb (whose st) e) eqn:Hl.
    + apply andb_true_iff in Hl as [Hl _]. destruct (receive_spec ev (subscribers s x)) as (F1 & F2 & F3 & F4). cbn in A2.
      split; cbn; rewrite ?Hu, ?F1, ?F2, ?F3, ?A2, ?Hl, ?E1, ?E2, ?E3; cbn; [by rewrite <- A1|done|by intros _; apply A3|apply F4; by rewrite A2, Hl| |done].
      intros _ Hf. congruence.
    + split; cbn; rewrite ?Hu, ?E1, ?E2, ?E3; try done. intros Hn Hf. rewrite E9. apply elem_of_app. left. by apply A5.
  - intros x. rewrite E4. intros Hx. by rewrite (R7 x Hx).
Qed.

Lemma refines_ended e s σ : refines s σ -> refines (say (Ended e) (closeAllSubscribers e s)) (observe σ (Ended e)).
Proof.
  intros H. unfold closeAllSubscribers. destruct (jm_get e (subscriptions s)) as [m|] eqn:Em.
  - destruct (upon_spec e shut _ _ H) as [(E1 & E2 & E3 & E4 & E5 & E6 & E7 & E8 & E9) Hu]. unfold upon in *. rewrite Em in *.
    destruct H as [R1 R2 R3 R4 R5 R6 R7]. revert E1 E2 E3 E4 E5 E6 E7 E8 E9 Hu. generalize (update_all shut m s) as s1.
    intros s1 E1 E2 E3 E4 E5 E6 E7 E8 E9 Hu. split; cbn.
    + intros e' m'. rewrite jm_get_delete, E1, E3. case_decide; [done|]. apply R1.
    + intros e1 e2 m'. rewrite !jm_get_delete, E1. do 2 (case_decide; [done|]). apply R2.
    + intros e'. unfold buffered. cbn. rewrite E5. apply R3.
    + intros m'. rewrite E2. apply R4.
    + intros e' m' x. rewrite jm_get_delete, E1, E2, E4. case_decide as He; [done|]. intros Hm Hin.
      destruct (R5 e' m' x Hm Hin) as (Hx & Hs & st & Hst & Hw & Hl). specialize (Hu x st Hx Hst).
      rewrite Hw, (proj2 (String.eqb_neq e' e)), andb_false_r in Hu by congruence. rewrite Hu. split_and!; [done|done|].
      rewrite Hst. eexists. split; [reflexivity|]. by rewrite Hw, (proj2 (String.eqb_neq e' e)), andb_false_r by congruence.
    + intros x. rewrite E4. intros Hx. destruct (R6 x Hx) as (st & Hst & [A1 A2 A3 A4 A5 A6]). rewrite Hst. eexists. split; [reflexivity|].
      specialize (Hu x st Hx Hst). destruct (live st && String.eqb (whose st) e) eqn:Hl.
      * destruct (shut_spec (subscribers s x)) as (F1 & F2 & F3 & F4). split; cbn; rewrite ?Hu, ?F1, ?F2, ?F3, ?F4, ?E3; try done. intros Hn. done.
      * split; cbn; rewrite ?Hu, ?E3; try done.
        -- intros Hl'. rewrite jm_get_delete, E1, E2. rewrite Hl' in Hl. apply String.eqb_neq in Hl. rewrite decide_False by congruence. by apply A3.
        -- intros Hn Hf. rewrite E9. apply elem_of_app. left. by apply A5.
    + intros x. rewrite E4. intros Hx. by rewrite (R7 x Hx).
  - pose proof (no_map_no_live s σ e) as Hno. destruct H as [R1 R2 R3 R4 R5 R6 R7].
    assert (refines s σ) as H by (by split). split; cbn; try done.
    + intros e' m' x Hm Hin. destruct (R5 e' m' x Hm Hin) as (Hx & Hs & st & Hst & Hw & Hl). split_and!; [done|done|].
      rewrite Hst. eexists. split; [reflexivity|]. by rewrite (Hno x st H Em Hx Hst).
    + intros x Hx. destruct (R6 x Hx) as (st & Hst & [A1 A2 A3 A4 A5 A6]). rewrite Hst. eexists. split; [reflexivity|].
      rewrite (Hno x st H Em Hx Hst). split; try done. intros Hn Hf. cbn. apply elem_of_app. left. by apply A5.
    + intros x Hx. by rewrite (R7 x Hx).
Qed.

(** The subscriber leaves. *)
Lemma refines_leave h x f s σ :
  refines s σ -> (x < subSequence s)%nat -> h = Left x \/ h = Returned x ->
  (forall u, fifo (f u) = fifo u /\ closed (f u) = true /\ sub_map (f u) = sub_map u /\ (parked u -> parked (f u)) /\ (notify (f u) <> None -> h = Returned x)) ->
  refines (say h (map_delete x (update f x s))) (observe σ h).
Proof.
  intros [R1 R2 R3 R4 R5 R6 R7] Hx Hh Hf. destruct (Hf (subscribers s x)) as (F1 & F2 & F3 & F4 & F5).
  assert (observe σ h = {| lines := lines σ; streams := fun j => if (j =? x)%nat then option_map leave (streams σ j) else streams σ j |}) as -> by (by destruct Hh as [->| ->]).
  unfold map_delete. cbn. rewrite Nat.eqb_refl, F3. set (mx := sub_map (subscribers s x)) in *.
  assert (forall m' y, y ∈ (if (m' =? mx)%nat then List.filter (fun y => negb (y =? x)%nat) (maps s mx) else maps s m') -> y ∈ maps s m' /\ (m' = mx -> y <> x)) as Hin.
  { intros m' y. destruct (Nat.eqb_spec m' mx) as [->|Hm]; [|done]. intros [Hy Hn]%elem_of_bfilter. split; [done|].
    intros _. by apply negb_true_iff, Nat.eqb_neq in Hn. }
  split; cbn; try done.
  - intros m'. destruct (Nat.eqb_spec m' mx) as [->|_]; [|done]. apply NoDup_ListNoDup, List.NoDup_filter, NoDup_ListNoDup, R4.
  - intros e' m' y Hm Hy. destruct (Hin m' y Hy) as [Hy0 Hne]. destruct (R5 e' m' y Hm Hy0) as (Hlt & Hs & Hst).
    destruct (Nat.eqb_spec y x) as [->|Hyx]; [by destruct (Hne (eq_sym Hs))|]. by split_and!.
  - intros y Hy. destruct (R6 y Hy) as (st & Hst & [A1 A2 A3 A4 A5 A6]). rewrite Hst. destruct (Nat.eqb_spec y x) as [->|Hyx].
    + exists (leave st). split; [done|]. split; cbn; rewrite ?Nat.eqb_refl, ?F1, ?F2, ?F3; try done; [by apply F4|].
      intros Hn _. apply elem_of_app. right. rewrite (F5 Hn). by left.
    + exists st. split; [done|]. rewrite <- Nat.eqb_neq in Hyx. split; cbn; rewrite ?Hyx; try done.
      * intros Hl. destruct (A3 Hl) as [B1 B2]. split; [done|]. destruct (Nat.eqb_spec (sub_map (subscribers s y)) mx) as [Em|_]; [|done].
        apply elem_of_bfilter. rewrite <- Em. split; [done|]. by rewrite Hyx.
      * intros Hn Hl. apply elem_of_app. left. by apply A5.
  - intros y Hy. rewrite (R7 y Hy). by destruct (y =? x)%nat.
Qed.

Lemma refines_next x s σ : refines s σ -> (x < subSequence s)%nat -> refines (next x s) σ.
Proof.
  intros [R1 R2 R3 R4 R5 R6 R7] Hx. unfold next, update. set (u := subscribers s x). set (v := tryDequeue _ _).
  assert (fifo v = fifo u /\ closed v = closed u /\ sub_map v = sub_map u /\ (parked u -> parked v) /\ (notify v <> None -> closed u = true -> notify u <> None))
    as (F1 & F2 & F3 & F4 & F5).
  { unfold v. destruct (tryDequeue_fields (calls u) (with_calls (S (calls u)) u)) as [-> ->]. rewrite fifo_tryDequeue. split_and!; try done.
    - intros Hp. by apply parked_tryDequeue.
    - intros Hn Hc. revert Hn. unfold tryDequeue. cbn. rewrite Hc. by destruct (buffer u). }
  split; cbn; try done.
  - intros e' m' y Hm Hy. destruct (R5 e' m' y Hm Hy) as (Hlt & Hs & Hst). destruct (Nat.eqb_spec y x) as [->|_]; [rewrite F3|]; by split_and!.
  - intros y Hy. destruct (R6 y Hy) as (st & Hst & [A1 A2 A3 A4 A5 A6]). exists st. split; [done|]. destruct (Nat.eqb_spec y x) as [->|Hyx].
    + fold u in A1, A2, A3, A4, A5, A6. split; cbn; rewrite ?Nat.eqb_refl, ?F1, ?F2, ?F3; try done; [by apply F4|].
      intros Hn Hl. apply A5; [|done]. apply F5; [done|]. by rewrite A2, Hl.
    + rewrite <- Nat.eqb_neq in Hyx. split; cbn; by rewrite ?Hyx.
Qed.

(** The map of an execution is created when it is missing. *)
Lemma refines_create e s σ :
  refines s σ -> refines (snd (getOrCreateSubscriberMap e s)) σ /\ jm_get e (subscriptions (snd (getOrCreateSubscriberMap e s))) = Some (fst (getOrCreateSubscriberMap e s)) /\
  subSequence (snd (getOrCreateSubscriberMap e s)) = subSequence s.
Proof.
  intros H. unfold getOrCreateSubscriberMap. destruct (jm_get e (subscriptions s)) as [m|] eqn:Em; [done|]. cbn.
  rewrite jm_get_set_eq. split; [|done]. destruct H as [R1 R2 R3 R4 R5 R6 R7].
  assert (forall e' m', jm_get e' (jm_set e (mapSequence s) (subscriptions s)) = Some m' ->
    (e' = e /\ m' = mapSequence s) \/ (jm_get e' (subscriptions s) = Some m' /\ (m' < mapSequence s)%nat)) as Hg.
  { intros e' m'. rewrite jm_get_set. case_decide as He; [intros [= <-]; by left|]. intros Hm. right. split; [done|by eapply R1]. }
  split; cbn; try done.
  - intros e' m' [[_ ->]|[_ Hm]]%Hg; lia.
  - intros e1 e2 m' [[-> ->]|[H1 L1]]%Hg [[-> ?]|[H2 L2]]%Hg; try done; [lia|lia|by eapply R2].
  - intros m'. destruct (m' =? mapSequence s)%nat; [constructor|done].
  - intros e' m' x [[_ ->]|[Hm Hl]]%Hg; [rewrite Nat.eqb_refl; by intros ?%not_elem_of_nil|].
    rewrite (proj2 (Nat.eqb_neq m' (mapSequence s))) by lia. by apply R5.
  - intros x Hx. destruct (R6 x Hx) as (st & Hst & [A1 A2 A3 A4 A5 A6]). exists st. split; [done|]. split; cbn; try done; [|lia].
    intros Hl. destruct (A3 Hl) as [B1 B2]. rewrite jm_get_set_ne by congruence.
    rewrite (proj2 (Nat.eqb_neq (sub_map (subscribers s x)) (mapSequence s))) by lia. done.
Qed.

Lemma buffered_create e e' s : buffered e (snd (getOrCreateSubscriberMap e' s)) = buffered e s /\ history (snd (getOrCreateSubscriberMap e' s)) = history s.
Proof. unfold getOrCreateSubscriberMap. by case_match. Qed.

Lemma refines_subscribe e last s σ : refines s σ -> refines (subscribe e last s) (observe σ (Subscribed (subSequence s) e last)).
Proof.
  intros H. destruct (refines_create e s σ H) as (H1 & Hm & Hseq). destruct (buffered_create e e s) as [Hb _]. unfold subscribe.
  rewrite <- Hb, <- Hseq. destruct (getOrCreateSubscriberMap e s) as [m s1]. cbn [fst snd] in *. clear H Hb s Hseq.
  destruct H1 as [R1 R2 R3 R4 R5 R6 R7]. assert (forall x, x ∈ maps s1 m -> x <> subSequence s1) as Hnew.
  { intros x Hx. destruct (R5 e m x Hm Hx) as [Hl _]. lia. }
  split; cbn; try done.
  - intros m'. destruct (Nat.eqb_spec m' m) as [->|_]; [|done]. apply NoDup_app. split_and!; [done| |apply NoDup_singleton].
    intros x Hx ->%list_elem_of_singleton. by apply (Hnew _ Hx).
  - intros e' m' x Hm'. destruct (Nat.eqb_spec m' m) as [->|Hne].
    + rewrite (R2 e' e m Hm' Hm). intros [Hx| ->%list_elem_of_singleton]%elem_of_app.
      * rewrite (proj2 (Nat.eqb_neq x (subSequence s1)) (Hnew x Hx)). destruct (R5 e m x Hm Hx) as (Hl & Hs & Hst). split; [lia|done].
      * rewrite Nat.eqb_refl. split_and!; [lia|done|]. eexists. by split.
    + intros Hx. destruct (R5 e' m' x Hm' Hx) as (Hl & Hs & Hst). rewrite (proj2 (Nat.eqb_neq x (subSequence s1))) by lia. split; [lia|done].
  - intros x Hx. destruct (Nat.eqb_spec x (subSequence s1)) as [->|Hne].
    + eexists. split; [reflexivity|]. split; cbn; rewrite ?Nat.eqb_refl; cbn; rewrite ?Nat.eqb_refl; try done; [by rewrite R3| |by intros Hn|by eapply R1].
      intros _. split; [done|]. apply elem_of_app. right. by left.
    + destruct (R6 x) as (st & Hst & [A1 A2 A3 A4 A5 A6]); [lia|]. exists st. split; [done|]. rewrite <- Nat.eqb_neq in Hne.
      split; cbn; rewrite ?Hne; try done.
      * intros Hl. destruct (A3 Hl) as [B1 B2]. split; [done|]. destruct (_ =? m)%nat eqn:Em; [|done]. apply Nat.eqb_eq in Em. rewrite Em in B2.
        apply elem_of_app. by left.
      * intros Hn Hl. apply elem_of_app. left. by apply A5.
  - intros x Hx. rewrite (proj2 (Nat.eqb_neq x (subSequence s1))) by lia. apply R7. lia.
Qed.

Lemma refines_cleanup t e s σ : refines s σ -> refines (cleanup t e s) (observe σ (Expired e)).
Proof.
  intros [R1 R2 R3 R4 R5 R6 R7]. split; cbn; try done.
  - intros e'. unfold buffered. cbn. rewrite jm_get_delete. destruct (String.eqb_spec e' e) as [->|Hne]; [by rewrite decide_True|].
    rewrite decide_False by congruence. apply R3.
  - intros x Hx. destruct (R6 x Hx) as (st & Hst & [A1 A2 A3 A4 A5 A6]). exists st. split; [done|]. split; try done.
    intros Hn Hl. cbn. apply elem_of_app. left. by apply A5.
Qed.

(** ** The histories of the operations *)

Lemma history_upon e f s σ : refines s σ -> history (upon e f s) = history s.
Proof. intros H. destruct (upon_spec e f s σ H) as [(_ & _ & _ & _ & _ & _ & _ & _ & E) _]. done. Qed.

Lemma inv_subscribe e last s : inv s -> inv (subscribe e last s).
Proof.
  intros H. unfold inv. assert (history (subscribe e last s) = history s ++ [Subscribed (subSequence s) e last]) as ->.
  { unfold subscribe, getOrCreateSubscriberMap. by destruct (jm_get e (subscriptions s)). }
  rewrite observed_snoc. by apply refines_subscribe.
Qed.

Lemma inv_publish e l s : inv s -> inv (publish e l s).
Proof.
  intros H. unfold inv, publish. cbn [history say]. rewrite deliver_upon.
  assert (history (upon e (receive (Log l)) (set_buffers (jm_set e (capped (buffered e s) l) (logBuffers s)) s)) = history s) as ->.
  { unfold upon, update_all. cbn. case_match; [|done]. by destruct (fold_update (receive (Log l)) (maps s n) (set_buffers (jm_set e (capped (buffered e s) l) (logBuffers s)) s) (rf_distinct _ _ H n))
      as [(_ & _ & _ & _ & _ & _ & _ & _ & E) _]. }
  rewrite observed_snoc. apply (refines_published _ _ _ _ _ H). intros e'. cbn. rewrite jm_get_set. destruct (String.eqb_spec e' e) as [->|Hne].
  - rewrite decide_True by done. by rewrite kept_snoc, <- (rf_lines _ _ H).
  - rewrite decide_False by congruence. apply (rf_lines _ _ H).
Qed.

Lemma inv_terminal e ev s : log_of ev = [] -> inv s -> inv (publish_terminal e ev s).
Proof.
  intros Hev H. unfold inv, publish_terminal. assert (set_buffers (logBuffers s) s = s) as Es by (by destruct s).
  assert (refines (say (Published e ev) (deliverToSubscribers e ev s)) (observe (observed (history s)) (Published e ev))) as H1.
  { rewrite <- Es at 1. apply refines_published; [done|]. intros e'. cbn. rewrite Hev, app_nil_r. destruct (String.eqb e' e); apply (rf_lines _ _ H). }
  rewrite deliver_upon in *. pose proof (history_upon e (receive ev) s _ H) as Eh. set (s1 := say (Published e ev) _) in *.
  assert (history (closeAllSubscribers e s1) = history s ++ [Published e ev]) as E1.
  { unfold closeAllSubscribers. pose proof (history_upon e shut _ _ H1) as E2. unfold upon in E2.
    destruct (jm_get e (subscriptions s1)) as [n|]; [trans (history s1); [exact E2|]|]; cbn; by rewrite Eh. }
  cbn [history say]. rewrite E1, !observed_snoc. by apply refines_ended.
Qed.

Lemma inv_leave h x f s :
  (x < subSequence s)%nat -> h = Left x \/ h = Returned x ->
  (forall u, fifo (f u) = fifo u /\ closed (f u) = true /\ sub_map (f u) = sub_map u /\ (parked u -> parked (f u)) /\ (notify (f u) <> None -> h = Returned x)) ->
  inv s -> inv (say h (map_delete x (update f x s))).
Proof. intros Hx Hh Hf H. unfold inv. cbn [history say map_delete set_map update set_sub]. rewrite observed_snoc. by apply refines_leave. Qed.

Lemma shut_leaves x u :
  fifo (shut u) = fifo u /\ closed (shut u) = true /\ sub_map (shut u) = sub_map u /\ (parked u -> parked (shut u)) /\ (notify (shut u) <> None -> Left x = Returned x).
Proof.
  destruct (shut_spec u) as (F1 & F2 & F3 & F4). split_and!; [done|done|done| |by rewrite F4]. intros _. unfold parked. by rewrite F4.
Qed.

Lemma streams_step s s' : step s s' -> inv s -> inv s'.
Proof.
  intros Hs H. destruct Hs.
  - by apply inv_subscribe.
  - by apply refines_next.
  - apply inv_leave; [done|by right| |done]. intros u. by split_and!.
  - apply inv_leave; [done|by left|by apply shut_leaves|done].
  - by apply inv_publish.
  - by apply inv_terminal.
  - by apply inv_terminal.
  - unfold unsubscribe. destruct (jm_get e (subscriptions s)) as [m|] eqn:Em; [|done]. case_bool_decide as Hin; [|done].
    destruct (rf_member _ _ H e m x Em Hin) as (Hx & Hm & _).
    pose proof (inv_leave (Left x) x shut s Hx (or_introl eq_refl) (shut_leaves x) H) as Hl. unfold map_delete in Hl.
    assert (sub_map (subscribers (update shut x s) x) = m) as E by (cbn; rewrite Nat.eqb_refl, (proj1 (proj2 (proj2 (shut_spec _)))); done).
    by rewrite E in Hl.
  - unfold inv. cbn [history say cleanup]. change (history (cleanup t e s)) with (history s ++ [Expired e]). rewrite observed_snoc. by apply refines_cleanup.
Qed.

Lemma streams_inv s : reachable s -> inv s.
Proof.
  induction 1 as [|s s' _ IH Hs]; [|by eapply streams_step]. split; cbn; try done; [constructor|]. intros x Hx. lia.
Qed.

(** ** Reading to the end *)

Definition read (u : Subscriber) : Subscriber := tryDequeue (calls u) (with_calls (S (calls u)) u).

Lemma iter_next n x s : subscribers (Nat.iter n (next x) s) x = Nat.iter n read (subscribers s x).
Proof.
  induction n as [|n IH]; [done|]. rewrite !Nat.iter_succ. rewrite <- IH. cbn. by rewrite Nat.eqb_refl.
Qed.

Lemma read_to_end u :
  closed u = true ->
  let v := Nat.iter (S (length (buffer u))) read u in
  delivered v = fifo u /\ exists l n, resolved v = l ++ [(n, None)].
Proof.
  intros Hc. remember (buffer u) as b eqn:Eb. revert u Hc Eb. induction b as [|ev b IH]; intros u Hc Eb; cbv zeta.
  - cbn [length Nat.iter nat_rect]. unfold read, tryDequeue. cbn. rewrite <- Eb, Hc. cbn. split; [|by eexists _, _].
    unfold fifo, delivered. cbn. by rewrite omap_app, <- Eb.
  - cbn [length]. rewrite Nat.iter_succ_r. assert (read u = resolve (calls u) (Some ev) (with_buffer b (with_calls (S (calls u)) u))) as Er.
    { unfold read, tryDequeue. cbn. by rewrite <- Eb. }
    destruct (IH (read u)) as [H1 H2]; [by rewrite Er|by rewrite Er|]. split; [|done]. rewrite H1. unfold read. by rewrite fifo_tryDequeue.
Qed.

(** C12: what a subscriber receives is what it is due, in order, without loss or repetition:
    the buffered lines after the line it asked for, then everything published on its
    execution until the execution ends or the subscriber leaves.  It waits only when nothing is
    outstanding and its stream is live, unless its iterator was returned; and once the stream
    is over, reading the rest of the buffer gives it all and then the end of the iteration. *)
Theorem stream_complete s x (H : reachable s) (Hx : (x < subSequence s)%nat) :
  exists st, streams (observed (history s)) x = Some st /\
    delivered (subscribers s x) ++ buffer (subscribers s x) = due st /\
    closed (subscribers s x) = negb (live st) /\
    (notify (subscribers s x) <> None -> delivered (subscribers s x) = due st /\ (live st = true \/ Returned x ∈ history s)) /\
    (live st = false -> let v := subscribers (Nat.iter (S (length (buffer (subscribers s x)))) (next x) s) x in
      delivered v = due st /\ exists l n, resolved v = l ++ [(n, None)]).
Proof.
  apply streams_inv in H. destruct (rf_stream _ _ H x Hx) as (st & Hst & [A1 A2 A3 A4 A5 A6]). exists st. split_and!; [done|done|done| |].
  - intros Hn. split; [|destruct (live st); [by left|right; by apply A5]]. rewrite <- A1. unfold fifo. by rewrite (A4 Hn), app_nil_r.
  - intros Hl. cbv zeta. rewrite iter_next, <- A1. apply read_to_end. by rewrite A2, Hl.
Qed.

(** ** A run: two lines, a subscriber that has the first, one that reads as they come *)

Definition demo_line (n : Z) : SseLogEvent := {| line := n; level := "info"; stream := "stdout"; message := "m"; timestamp := "t" |}.
Definition demo_state : manager :=
  publishComplete "e" 7 0 (publish "e" (demo_line 2) (next 1 (subscribe "e" 1 (subscribe "e" 0 (publish "e" (demo_line 1) created))))).

Lemma demo_reachable : reachable demo_state.
Proof.
  unfold demo_state. eapply reachable_step; [|apply step_complete]. eapply reachable_step; [|apply step_publish].
  eapply reachable_step; [|apply step_next; vm_compute; lia]. do 2 (eapply reachable_step; [|apply step_subscribe]).
  eapply reachable_step; [apply reachable_created|apply step_publish].
Qed.

Lemma stream_complete_witness :
  resolved (subscribers demo_state 1) = [(0%nat, Some (Log (demo_line 2)))] /\
  buffer (subscribers demo_state 0) = [Log (demo_line 1); Log (demo_line 2); Complete 7 0] /\
  exists st, streams (observed (history demo_state)) 0 = Some st /\
    delivered (subscribers demo_state 0) ++ buffer (subscribers demo_state 0) = due st /\
    closed (subscribers demo_state 0) = negb (live st) /\
    (notify (subscribers demo_state 0) <> None -> delivered (subscribers demo_state 0) = due st /\ (live st = true \/ Returned 0 ∈ history demo_state)) /\
    (live st = false -> let v := subscribers (Nat.iter (S (length (buffer (subscribers demo_state 0)))) (next 0) demo_state) 0 in
      delivered v = due st /\ exists l n, resolved v = l ++ [(n, None)]).
Proof.
  split; [vm_compute; reflexivity|]. split; [vm_compute; reflexivity|]. apply (stream_complete demo_state 0 demo_reachable). vm_compute. lia.
Defined.

(** ** Named cases *)

(** A subscriber that comes after the end waits for an end that was already given: it is left
    to the limit of the route. *)
Example late_subscriber_waits :
  let s := Nat.iter 3 (next 2) (subscribe "e" 0 demo_state) in
  delivered (subscribers s 2) = [Log (demo_line 1); Log (demo_line 2)] /\ notify (subscribers s 2) = Some 2%nat.
Proof. vm_compute. split; reflexivity. Qed.

(** The lines of an execution nobody watched are kept for ever: without subscribers no timer
    is set. *)
Example unwatched_kept :
  let s := publishComplete "e" 7 0 (publish "e" (demo_line 1) created) in
  timers s = [] /\ buffered "e" s = [demo_line 1] /\ timers demo_state = [(0%nat, "e")].
Proof. vm_compute. repeat split; reflexivity. Qed.

(** [return] does not wake a call of [next] that waits. *)
Example returned_waits :
  let s := return_ 0 (next 0 (subscribe "e" 0 created)) in
  notify (subscribers s 0) = Some 0%nat /\ closed (subscribers s 0) = true /\ maps s 0 = [].
Proof. vm_compute. repeat split; reflexivity. Qed.
