(* ===== verification/ExecutionService.v ===== *)
(** * Execution service: the life of an execution

    services/execution/src/services/execution-service.ts over the table of executions
    (repositories/execution-repository.ts) and the streams of [SseManager]; from
    execution-router.ts the translation of what the sandbox answers.  A call that awaits is a
    [task] between its steps; a statement of the database is one step, which may fail.  Two
    failures leave an execution as it is for ever, and are recorded: [lost] are those whose
    final status was not stored, [unstarted] the connectors whose first status was not.  The
    answer of the router is an argument of its step.  Times are milliseconds.  The snapshot of
    the ontology, which is only passed on, the code, the log lines of the logger and the bundle
    cache, which keeps no execution, are left out. *)

From S2P Require Import Prelude JsString JsNumber SqlTable SseManager.
From stdpp Require Import list strings.

Inductive ExecutionStatus : Type := pending | running | success | error | timeout | killed.

#[export] Instance ExecutionStatus_eq_dec : EqDecision ExecutionStatus.
Proof. solve_decision. Defined.

Record ExecutionRow : Type := {
  id : string;
  tenant_id : string;
  type : string;
  status : ExecutionStatus;
  language : string;
  sandbox_type : string;
  plugin_id : option string;
  pipeline_id : option string;
  pipeline_run_id : option string;
  hook_context : bool;
  code_hash : option string;
  started_at : Z;
  completed_at : option Z;
  duration_ms : option Z;
  memory_peak_mb : option number;
  exit_code : option Z;
  error_code : option string;
  error_message : option string;
  error_stack : option string;
  trace_id : string;
  initiated_by : string
}.

Record CreateExecutionData : Type := {
  c_tenant_id : string;
  c_type : string;
  c_language : string;
  c_sandbox_type : string;
  c_trace_id : string;
  c_initiated_by : string;
  c_plugin_id : option string;
  c_pipeline_id : option string;
  c_pipeline_run_id : option string;
  c_hook_context : option bool;
  c_code_hash : option string
}.

Record CompletionData : Type := {
  d_completed_at : Z;
  d_duration_ms : Z;
  d_exit_code : Z;
  d_memory_peak_mb : option number;
  d_error_code : option string;
  d_error_message : option string;
  d_error_stack : option string
}.

Record ExecutionContext : Type := {
  x_executionId : string;
  x_tenantId : string;
  x_hookContext : bool;
  x_executionType : string;
  x_traceId : string;
  x_pluginId : option string;
  x_credentialBundleId : option string
}.

(** ** The table *)

Definition create (i : string) (now : Z) (d : CreateExecutionData) : ExecutionRow :=
  {| id := i; tenant_id := c_tenant_id d; type := c_type d; status := pending; language := c_language d; sandbox_type := c_sandbox_type d;
     plugin_id := c_plugin_id d; pipeline_id := c_pipeline_id d; pipeline_run_id := c_pipeline_run_id d;
     hook_context := match c_hook_context d with Some b => b | None => false end; code_hash := c_code_hash d; started_at := now;
     completed_at := None; duration_ms := None; memory_peak_mb := None; exit_code := None; error_code := None; error_message := None;
     error_stack := None; trace_id := c_trace_id d; initiated_by := c_initiated_by d |}.

Definition or_else {A} (a b : option A) : option A := match a with Some _ => a | None => b end.

(** The columns [updateStatus] assigns. *)
Definition with_status (st : ExecutionStatus) (completion : option CompletionData) (r : ExecutionRow) : ExecutionRow :=
  {| id := id r; tenant_id := tenant_id r; type := type r; status := st; language := language r; sandbox_type := sandbox_type r;
     plugin_id := plugin_id r; pipeline_id := pipeline_id r; pipeline_run_id := pipeline_run_id r; hook_context := hook_context r;
     code_hash := code_hash r; started_at := started_at r;
     completed_at := match completion with Some d => Some (d_completed_at d) | None => completed_at r end;
     duration_ms := match completion with Some d => Some (d_duration_ms d) | None => duration_ms r end;
     memory_peak_mb := match completion with Some d => or_else (d_memory_peak_mb d) (memory_peak_mb r) | None => memory_peak_mb r end;
     exit_code := match completion with Some d => Some (d_exit_code d) | None => exit_code r end;
     error_code := match completion with Some d => or_else (d_error_code d) (error_code r) | None => error_code r end;
     error_message := match completion with Some d => or_else (d_error_message d) (error_message r) | None => error_message r end;
     error_stack := match completion with Some d => or_else (d_error_stack d) (error_stack r) | None => error_stack r end;
     trace_id := trace_id r; initiated_by := initiated_by r |}.

Definition updateStatus (i : string) (st : ExecutionStatus) (completion : option CompletionData) (t : list ExecutionRow) : list ExecutionRow :=
  update_where (fun r => String.eqb (id r) i) (with_status st completion) t.

Definition in_flight (r : ExecutionRow) : bool := bool_decide (status r = pending \/ status r = running).

Definition findByPluginId (p : string) (t : list ExecutionRow) : list ExecutionRow :=
  List.filter (fun r => bool_decide (plugin_id r = Some p) && in_flight r) t.

Definition countInflightByPluginId (p : string) (t : list ExecutionRow) : Z := Z.of_nat (length (findByPluginId p t)).

Definition findByTenantAndId (tenant i : string) (t : list ExecutionRow) : option ExecutionRow :=
  find_row (fun r => String.eqb (id r) i && String.eqb (tenant_id r) tenant) t.

(** ** The answer of the router *)

Inductive RouteStatus : Type := R_ok | R_error | R_timeout | R_oom.

Record RouteResult : Type := {
  r_status : RouteStatus;
  r_errorCode : option string;
  r_errorMessage : option string;
  r_errorStack : option string;
  r_durationMs : Z;
  r_memoryPeakMb : number;
  r_exitCode : Z;
  r_sandboxType : string
}.

(** [client.send] raced with the timer. *)
Inductive outcome : Type :=
| TimerFired
| Rejected (errMsg : string)
| Responded (response : RouteResult).

Definition failed_result (st : RouteStatus) (code msg : string) (duration : Z) (sandbox : string) : RouteResult :=
  {| r_status := st; r_errorCode := Some code; r_errorMessage := Some msg; r_errorStack := None; r_durationMs := duration;
     r_memoryPeakMb := num_of_Z 0; r_exitCode := 1; r_sandboxType := sandbox |}.

Definition routeToIsolatedVm (timeoutMs : Z) (o : outcome) : RouteResult :=
  let late := failed_result R_timeout "EXECUTION_TIMEOUT" ("Execution exceeded " +:+ Z_to_string timeoutMs +:+ "ms timeout.") timeoutMs "isolated-vm" in
  match o with
  | TimerFired => late
  | Rejected errMsg => if String.eqb errMsg "EXECUTION_TIMEOUT" then late else failed_result R_error "EXECUTION_SANDBOX_CRASH" errMsg 0 "isolated-vm"
  | Responded r =>
      {| r_status := r_status r; r_errorCode := r_errorCode r; r_errorMessage := r_errorMessage r; r_errorStack := r_errorStack r;
         r_durationMs := r_durationMs r; r_memoryPeakMb := r_memoryPeakMb r; r_exitCode := r_exitCode r; r_sandboxType := "isolated-vm" |}
  end.

(** The container's end; [durationMs] is the time it took. *)
Definition routeToDocker (timeoutMs : Z) (forceKilled : bool) (exitCode durationMs : Z) (memoryPeakMb : number) : RouteResult :=
  if forceKilled then
    failed_result R_timeout "EXECUTION_TIMEOUT" ("Docker execution exceeded " +:+ Z_to_string timeoutMs +:+ "ms timeout.") durationMs "docker"
  else if negb (exitCode =? 0)%Z then
    {| r_status := R_error; r_errorCode := Some "EXECUTION_ERROR";
       r_errorMessage := Some ("Docker container exited with code " +:+ Z_to_string exitCode); r_errorStack := None;
       r_durationMs := durationMs; r_memoryPeakMb := memoryPeakMb; r_exitCode := exitCode; r_sandboxType := "docker" |}
  else
    {| r_status := R_ok; r_errorCode := None; r_errorMessage := None; r_errorStack := None; r_durationMs := durationMs;
       r_memoryPeakMb := memoryPeakMb; r_exitCode := 0; r_sandboxType := "docker" |}.

Definition terminalStatus (st : RouteStatus) : ExecutionStatus :=
  match st with R_ok => success | R_timeout => timeout | R_oom => killed | R_error => error end.

(** That of [runConnectorExecution] knows no [oom]. *)
Definition connectorStatus (st : RouteStatus) : ExecutionStatus :=
  match st with R_ok => success | R_timeout => timeout | R_oom | R_error => error end.

Definition completion_of (now : Z) (r : RouteResult) : CompletionData :=
  {| d_completed_at := now; d_duration_ms := r_durationMs r; d_exit_code := r_exitCode r;
     d_memory_peak_mb := if num_eqb (r_memoryPeakMb r) (num_of_Z 0) then None else Some (r_memoryPeakMb r);
     d_error_code := r_errorCode r; d_error_message := r_errorMessage r; d_error_stack := r_errorStack r |}.

Definition crash_completion (now : Z) (msg : string) : CompletionData :=
  {| d_completed_at := now; d_duration_ms := 0; d_exit_code := 1; d_memory_peak_mb := None; d_error_code := Some "EXECUTION_SANDBOX_CRASH";
     d_error_message := Some msg; d_error_stack := None |}.

(** ** State *)

Inductive task : Type :=
| Starting (i : string)                      (* [dispatchExecution]: status running *)
| Routing (i : string)                       (* ... [executionRouter.route] *)
| Storing (i : string) (r : RouteResult)     (* ... the terminal status *)
| Failing (i : string) (msg : string)        (* ... the status of the catch *)
| CStarting (i : string)                     (* the same of [runConnectorExecution] *)
| CRouting (i : string)
| CStoring (i : string) (r : RouteResult)
| CFailing (i : string) (msg : string)
| Crashing (i : string)                      (* the update of [handleSandboxCrash] *)
| DrainCount (p : string) (grace : Z)        (* [drainPlugin]: the first count *)
| DrainPoll (p : string) (grace start : Z)   (* [poll], until the answer of the count *)
| DrainKill (p : string) (rows : list string)
| DrainEnd (p : string).                     (* the last count *)

#[export] Instance RouteResult_eq_dec : EqDecision RouteResult.
Proof.
  assert (EqDecision number) by (intros x y; unfold Decision; repeat decide equality).
  assert (EqDecision RouteStatus) by (intros x y; unfold Decision; decide equality). solve_decision.
Defined.
#[export] Instance task_eq_dec : EqDecision task.
Proof. solve_decision. Defined.

Record service : Type := {
  rows : list ExecutionRow;
  drainingPlugins : list string;
  executionStartedAt : jmap string Z;
  activeExecutionContexts : jmap string ExecutionContext;
  tasks : list task;
  sse : SseManager.manager;
  lost : list string;                        (* executions whose final status was not stored *)
  unstarted : list string                    (* connectors whose status running was not stored *)
}.

Definition set_rows (v : list ExecutionRow) (s : service) : service :=
  {| rows := v; drainingPlugins := drainingPlugins s; executionStartedAt := executionStartedAt s; activeExecutionContexts := activeExecutionContexts s; tasks := tasks s; sse := sse s; lost := lost s; unstarted := unstarted s |}.
Definition set_drains (v : list string) (s : service) : service :=
  {| rows := rows s; drainingPlugins := v; executionStartedAt := executionStartedAt s; activeExecutionContexts := activeExecutionContexts s; tasks := tasks s; sse := sse s; lost := lost s; unstarted := unstarted s |}.
Definition set_starts (v : jmap string Z) (s : service) : service :=
  {| rows := rows s; drainingPlugins := drainingPlugins s; executionStartedAt := v; activeExecutionContexts := activeExecutionContexts s; tasks := tasks s; sse := sse s; lost := lost s; unstarted := unstarted s |}.
Definition set_contexts (v : jmap string ExecutionContext) (s : service) : service :=
  {| rows := rows s; drainingPlugins := drainingPlugins s; executionStartedAt := executionStartedAt s; activeExecutionContexts := v; tasks := tasks s; sse := sse s; lost := lost s; unstarted := unstarted s |}.
Definition set_tasks (v : list task) (s : service) : service :=
  {| rows := rows s; drainingPlugins := drainingPlugins s; executionStartedAt := executionStartedAt s; activeExecutionContexts := activeExecutionContexts s; tasks := v; sse := sse s; lost := lost s; unstarted := unstarted s |}.
Definition set_sse (v : SseManager.manager) (s : service) : service :=
  {| rows := rows s; drainingPlugins := drainingPlugins s; executionStartedAt := executionStartedAt s; activeExecutionContexts := activeExecutionContexts s; tasks := tasks s; sse := v; lost := lost s; unstarted := unstarted s |}.
Definition set_lost (v : list string) (s : service) : service :=
  {| rows := rows s; drainingPlugins := drainingPlugins s; executionStartedAt := executionStartedAt s; activeExecutionContexts := activeExecutionContexts s; tasks := tasks s; sse := sse s; lost := v; unstarted := unstarted s |}.
Definition set_unstarted (v : list string) (s : service) : service :=
  {| rows := rows s; drainingPlugins := drainingPlugins s; executionStartedAt := executionStartedAt s; activeExecutionContexts := activeExecutionContexts s; tasks := tasks s; sse := sse s; lost := lost s; unstarted := v |}.

Definition start (t : task) (s : service) : service := set_tasks (tasks s ++ [t]) s.

Fixpoint remove_task (t : task) (l : list task) : list task :=
  match l with
  | [] => []
  | u :: l => if bool_decide (t = u) then l else u :: remove_task t l
  end.

Definition finish (t : task) (s : service) : service := set_tasks (remove_task t (tasks s)) s.

Definition store (i : string) (st : ExecutionStatus) (completion : option CompletionData) (s : service) : service :=
  set_rows (updateStatus i st completion (rows s)) s.

Definition lose (i : string) (s : service) : service := set_lost (lost s ++ [i]) s.

(** The rejection leaves [runConnectorExecution] with the date registered. *)
Definition leave_unstarted (i : string) (s : service) : service := set_unstarted (unstarted s ++ [i]) s.

Definition forget (i : string) (s : service) : service :=
  set_contexts (jm_delete i (activeExecutionContexts s)) (set_starts (jm_delete i (executionStartedAt s)) s).

Definition publishFailure (i code msg st : string) (s : service) : service := set_sse (publishError i code msg st (sse s)) s.

(** ** Running *)

(** [dispatchExecution], to its first await. *)
Definition dispatchExecution (r : ExecutionRow) (ctx : ExecutionContext) (s : service) : service :=
  let s1 := set_starts (jm_set (id r) (started_at r) (executionStartedAt s)) s in
  start (Starting (id r)) (set_contexts (jm_set (id r) ctx (activeExecutionContexts s1)) s1).

Record RunExecutionResult : Type := { executionId : string; run_status : string; logsUrl : string }.

Definition accepted (base i : string) : RunExecutionResult :=
  {| executionId := i; run_status := "pending"; logsUrl := base +:+ "/api/v1/exec/" +:+ i +:+ "/logs" |}.

Inductive service_error : Type :=
| ForbiddenError (msg : string)
| ServiceDrainingError (msg : string)
| ExecutionNotFoundError (msg : string)
| InsertFailed.

(** [traceId] and the identifier of the row are fresh; [codeHash] is the digest of the code. *)
Definition runExecution (base i : string) (now : Z) (scopes : list string) (tenant lang codeHash traceId : string) (stored : bool) (s : service) :
    result service_error (RunExecutionResult * service) :=
  if negb (bool_decide ("execution:run" ∈ scopes)) then Err (ForbiddenError "Scope 'execution:run' is required.")
  else if negb stored then Err InsertFailed
  else
    let r := create i now {| c_tenant_id := tenant; c_type := "code"; c_language := lang; c_sandbox_type := "isolated-vm"; c_trace_id := traceId;
                             c_initiated_by := "api"; c_plugin_id := None; c_pipeline_id := None; c_pipeline_run_id := None; c_hook_context := None;
                             c_code_hash := Some codeHash |} in
    Ok (accepted base i,
        dispatchExecution r {| x_executionId := i; x_tenantId := tenant; x_hookContext := false; x_executionType := "code"; x_traceId := traceId;
                               x_pluginId := None; x_credentialBundleId := None |} (set_rows (rows s ++ [r]) s)).

Record InternalContext : Type := {
  i_tenantId : string;
  i_traceId : string;
  i_pluginId : option string;
  i_pipelineId : option string;
  i_pipelineRunId : option string;
  i_hookContext : option bool;
  i_credentialBundleId : option string
}.

Definition draining (p : string) (s : service) : bool := bool_decide (p ∈ drainingPlugins s).

Definition runInternalExecution (base i : string) (now : Z) (ty lang codeHash initiatedBy : string) (ctx : InternalContext) (stored : bool) (s : service) :
    result service_error (RunExecutionResult * service) :=
  match i_pluginId ctx with
  | Some p => if draining p s then Err (ServiceDrainingError ("Plugin " +:+ p +:+ " is currently being drained. Retry after drain completes.")) else Ok tt
  | None => Ok tt
  end ≫= fun _ =>
  if negb stored then Err InsertFailed
  else
    let sandbox := if String.eqb lang "js" || String.eqb lang "ts" then "isolated-vm" else "docker" in
    let hook := match i_hookContext ctx with Some b => b | None => false end in
    let r := create i now {| c_tenant_id := i_tenantId ctx; c_type := ty; c_language := lang; c_sandbox_type := sandbox; c_trace_id := i_traceId ctx;
                             c_initiated_by := initiatedBy; c_plugin_id := i_pluginId ctx; c_pipeline_id := i_pipelineId ctx;
                             c_pipeline_run_id := i_pipelineRunId ctx; c_hook_context := Some hook; c_code_hash := Some codeHash |} in
    Ok (accepted base i,
        dispatchExecution r {| x_executionId := i; x_tenantId := i_tenantId ctx; x_hookContext := hook; x_executionType := ty; x_traceId := i_traceId ctx;
                               x_pluginId := i_pluginId ctx; x_credentialBundleId := i_credentialBundleId ctx |} (set_rows (rows s ++ [r]) s)).

(** [runConnectorExecution] after the bundle was found, to the await of its status. *)
Definition runConnectorExecution (i : string) (now : Z) (tenant traceId initiatedBy p : string) (pipelineRunId : option string) (s : service) : service :=
  let r := create i now {| c_tenant_id := tenant; c_type := "connector-run"; c_language := "js"; c_sandbox_type := "isolated-vm"; c_trace_id := traceId;
                           c_initiated_by := initiatedBy; c_plugin_id := Some p; c_pipeline_id := None; c_pipeline_run_id := pipelineRunId;
                           c_hook_context := None; c_code_hash := None |} in
  let s1 := set_rows (rows s ++ [r]) s in
  start (CStarting i) (set_starts (jm_set i now (executionStartedAt s1)) s1).

(** ** The steps of a dispatch: the outcome of the awaited call, and the code up to the next *)

Definition started (i : string) (failure : option string) (s : service) : service :=
  match failure with None => start (Routing i) (store i running None s) | Some msg => start (Failing i msg) s end.

Definition routed (i : string) (answer : result string RouteResult) (s : service) : service :=
  match answer with Ok r => start (Storing i r) s | Err msg => start (Failing i msg) s end.

Definition status_name (st : ExecutionStatus) : string := match st with killed => "killed" | timeout => "timeout" | _ => "error" end.

Definition from (o : option string) (d : string) : string := match o with Some x => x | None => d end.

Definition stored (i : string) (r : RouteResult) (now : Z) (failure : option string) (s : service) : service :=
  match failure with
  | Some msg => start (Failing i msg) s
  | None =>
    let s1 := store i (terminalStatus (r_status r)) (Some (completion_of now r)) s in
    forget i
      match r_status r with
      | R_ok => set_sse (publishComplete i (r_durationMs r) (r_exitCode r) (sse s1)) s1
      | _ => publishFailure i (from (r_errorCode r) "EXECUTION_ERROR") (from (r_errorMessage r) "Execution failed") (status_name (terminalStatus (r_status r))) s1
      end
  end.

Definition failed (i msg : string) (now : Z) (ok : bool) (s : service) : service :=
  let s1 := if ok then store i error (Some (crash_completion now msg)) s else lose i s in
  forget i (publishFailure i "EXECUTION_SANDBOX_CRASH" msg "error" s1).

(** [runConnectorExecution] registers the context after the status; it deletes both entries
    before the final status, and publishes nothing. *)
Definition connector_started (i : string) (ctx : ExecutionContext) (ok : bool) (s : service) : service :=
  if ok then
    let s1 := store i running None s in
    start (CRouting i) (set_contexts (jm_set i ctx (activeExecutionContexts s1)) s1)
  else leave_unstarted i s.

Definition connector_routed (i : string) (answer : result string RouteResult) (s : service) : service :=
  let s1 := forget i s in
  match answer with Ok r => start (CStoring i r) s1 | Err msg => start (CFailing i msg) s1 end.

Definition connector_stored (i : string) (r : RouteResult) (now : Z) (ok : bool) (s : service) : service :=
  if ok then store i (connectorStatus (r_status r)) (Some (completion_of now r)) s else lose i s.

Definition connector_failed (i msg : string) (now : Z) (ok : bool) (s : service) : service :=
  if ok then store i error (Some (crash_completion now msg)) s else lose i s.

(** ** Crashes *)

Definition crash_message : string := "Sandbox process crashed unexpectedly.".

Definition crash_one (s : service) (i : string) : service :=
  publishFailure i "EXECUTION_SANDBOX_CRASH" crash_message "killed" (start (Crashing i) (forget i s)).

Definition handleSandboxCrash (killedExecutionIds : list string) (s : service) : service := fold_left crash_one killedExecutionIds s.

Definition crashed (i : string) (now : Z) (ok : bool) (s : service) : service :=
  if ok then store i killed (Some (crash_completion now crash_message)) s else s.

(** ** Draining a plugin *)

Definition drainPlugin (p : string) (grace : Z) (s : service) : service :=
  start (DrainCount p grace) (if draining p s then s else set_drains (drainingPlugins s ++ [p]) s).

(** A failed count rejects the call before [poll]. *)
Definition drain_counted (p : string) (grace now : Z) (ok : bool) (s : service) : service := if ok then start (DrainPoll p grace now) s else s.

(** The answer of [poll]'s count; [elapsed] was taken before it was asked. *)
Definition polled (p : string) (grace drainStart asked : Z) (ok : bool) (s : service) : service :=
  if negb ok then start (DrainEnd p) s
  else
    let count := countInflightByPluginId p (rows s) in
    if (count =? 0)%Z || (grace <=? asked - drainStart)%Z
    then if (0 <? count)%Z then start (DrainKill p (map id (findByPluginId p (rows s)))) s else start (DrainEnd p) s
    else start (DrainPoll p grace drainStart) s.

Definition drain_message : string := "Force-killed during plugin drain.".

(** The update of the first row, and its event; a failure ends the loop. *)
Definition drain_killed (p : string) (l : list string) (now : Z) (ok : bool) (s : service) : service :=
  match l with
  | [] => start (DrainEnd p) s
  | i :: l =>
      if ok then
        start (DrainKill p l) (publishFailure i "EXECUTION_SANDBOX_CRASH" drain_message "killed" (store i killed (Some (crash_completion now drain_message)) s))
      else start (DrainEnd p) s
  end.

(** The last count; then the flag is deleted. *)
Definition drain_ended (p : string) (ok : bool) (s : service) : service :=
  if ok then set_drains (List.filter (fun q => negb (String.eqb q p)) (drainingPlugins s)) s else s.

(** ** Reading *)

Definition getExecution (tenant i : string) (s : service) : result service_error ExecutionRow :=
  match findByTenantAndId tenant i (rows s) with
  | Some r => Ok r
  | None => Err (ExecutionNotFoundError ("Execution " +:+ i +:+ " not found."))
  end.

(** The partition of a log line. *)
Definition executionDate (i : string) (stamp : Z) (s : service) : Z :=
  match jm_get i (executionStartedAt s) with Some d => d | None => stamp end.

(** The context a call of the sandbox is answered with. *)
Definition onContextCall (i : string) (s : service) : option ExecutionContext := jm_get i (activeExecutionContexts s).

(** ** Steps *)

Inductive step : service -> service -> Prop :=
| step_run s base i now scopes tenant lang h tr ok a s' :
    i ∉ map id (rows s) -> runExecution base i now scopes tenant lang h tr ok s = Ok (a, s') -> step s s'
| step_internal s base i now ty lang h by_ ctx ok a s' :
    i ∉ map id (rows s) -> runInternalExecution base i now ty lang h by_ ctx ok s = Ok (a, s') -> step s s'
| step_connector s i now tenant tr by_ p run : i ∉ map id (rows s) -> step s (runConnectorExecution i now tenant tr by_ p run s)
| step_started s i failure : Starting i ∈ tasks s -> step s (started i failure (finish (Starting i) s))
| step_routed s i answer : Routing i ∈ tasks s -> step s (routed i answer (finish (Routing i) s))
| step_stored s i r now failure : Storing i r ∈ tasks s -> step s (stored i r now failure (finish (Storing i r) s))
| step_failed s i msg now ok : Failing i msg ∈ tasks s -> step s (failed i msg now ok (finish (Failing i msg) s))
| step_cstarted s i ctx ok : CStarting i ∈ tasks s -> step s (connector_started i ctx ok (finish (CStarting i) s))
| step_crouted s i answer : CRouting i ∈ tasks s -> step s (connector_routed i answer (finish (CRouting i) s))
| step_cstored s i r now ok : CStoring i r ∈ tasks s -> step s (connector_stored i r now ok (finish (CStoring i r) s))
| step_cfailed s i msg now ok : CFailing i msg ∈ tasks s -> step s (connector_failed i msg now ok (finish (CFailing i msg) s))
| step_crash s ids : step s (handleSandboxCrash ids s)
| step_crashed s i now ok : Crashing i ∈ tasks s -> step s (crashed i now ok (finish (Crashing i) s))
| step_drain s p grace : step s (drainPlugin p grace s)
| step_counted s p grace now ok : DrainCount p grace ∈ tasks s -> step s (drain_counted p grace now ok (finish (DrainCount p grace) s))
| step_polled s p grace t0 asked ok : DrainPoll p grace t0 ∈ tasks s -> step s (polled p grace t0 asked ok (finish (DrainPoll p grace t0) s))
| step_killed s p l now ok : DrainKill p l ∈ tasks s -> step s (drain_killed p l now ok (finish (DrainKill p l) s))
| step_drained s p ok : DrainEnd p ∈ tasks s -> step s (drain_ended p ok (finish (DrainEnd p) s))
| step_log s i l : step s (set_sse (publish i l (sse s)) s)
| step_client s m : (exists e last, m = subscribe e last (sse s)) \/ (exists x, (x < subSequence (sse s))%nat /\ (m = next x (sse s) \/ m = return_ x (sse s) \/ m = close x (sse s))) \/
    (exists t e, (t, e) ∈ timers (sse s) /\ m = cleanup t e (sse s)) -> step s (set_sse m s).

Definition booted : service :=
  {| rows := []; drainingPlugins := []; executionStartedAt := []; activeExecutionContexts := []; tasks := []; sse := SseManager.created; lost := []; unstarted := [] |}.

Inductive reachable : service -> Prop :=
| reachable_booted : reachable booted
| reachable_step s s' : reachable s -> step s s' -> reachable s'.

(** ** What is under way for an execution *)

Definition dispatching (i : string) (t : task) : bool :=
  match t with Starting j | Routing j | Storing j _ | Failing j _ => String.eqb i j | _ => false end.
Definition in_context (i : string) (t : task) : bool := dispatching i t || match t with CRouting j => String.eqb i j | _ => false end.
Definition dated (i : string) (t : task) : bool := in_context i t || match t with CStarting j => String.eqb i j | _ => false end.
Definition working (i : string) (t : task) : bool := dated i t || match t with CStoring j _ | CFailing j _ => String.eqb i j | _ => false end.

Definition carried (f : string -> task -> bool) (i : string) (s : service) : Prop := exists t, t ∈ tasks s /\ f i t = true.

Definition terminal (ev : SseEvent) : bool := match ev with Log _ => false | _ => true end.

Definition told (i : string) (s : service) : Prop := exists ev, terminal ev = true /\ Published i ev ∈ history (sse s).

Record tracked (s : service) : Prop := {
  tr_contexts i : i ∈ jm_keys (activeExecutionContexts s) -> carried in_context i s;
  tr_starts i : i ∈ jm_keys (executionStartedAt s) -> carried dated i s \/ i ∈ unstarted s;
  tr_rows r : r ∈ rows s -> in_flight r = true -> carried working (id r) s \/ id r ∈ lost s \/ id r ∈ unstarted s;
  tr_told r : r ∈ rows s -> code_hash r <> None -> carried dispatching (id r) s \/ told (id r) s
}.

(** [s'] has at least the work, the losses and the events of [s], but for [i0]. *)
Record advances (i0 : option string) (s s' : service) : Prop := {
  adv_carried f i : f = dispatching \/ f = in_context \/ f = dated \/ f = working -> Some i <> i0 -> carried f i s -> carried f i s';
  adv_contexts i : Some i <> i0 -> i ∈ jm_keys (activeExecutionContexts s') -> i ∈ jm_keys (activeExecutionContexts s);
  adv_starts i : Some i <> i0 -> i ∈ jm_keys (executionStartedAt s') -> i ∈ jm_keys (executionStartedAt s);
  adv_rows r' : r' ∈ rows s' -> Some (id r') <> i0 ->
    exists r, r ∈ rows s /\ id r = id r' /\ code_hash r = code_hash r' /\ (in_flight r' = true -> in_flight r = true);
  adv_lost i : i ∈ lost s -> i ∈ lost s';
  adv_unstarted i : i ∈ unstarted s -> i ∈ unstarted s';
  adv_history h : h ∈ history (sse s) -> h ∈ history (sse s')
}.

Lemma told_advances i0 i s s' : advances i0 s s' -> told i s -> told i s'.
Proof. intros H (ev & Ht & Hev). exists ev. split; [done|]. by apply (adv_history _ _ _ H). Qed.

(** The execution a step is about is looked at by itself. *)
Lemma tracked_advances i0 s s' :
  tracked s -> advances i0 s s' ->
  (forall i, i0 = Some i ->
    (i ∈ jm_keys (activeExecutionContexts s') -> carried in_context i s') /\
    (i ∈ jm_keys (executionStartedAt s') -> carried dated i s' \/ i ∈ unstarted s') /\
    (forall r, r ∈ rows s' -> id r = i -> in_flight r = true -> carried working i s' \/ i ∈ lost s' \/ i ∈ unstarted s') /\
    (forall r, r ∈ rows s' -> id r = i -> code_hash r <> None -> carried dispatching i s' \/ told i s')) -> tracked s'.
Proof.
  intros H Ha Hi. pose proof (told_advances i0) as Ht.
  assert (forall i, {i0 = Some i} + {Some i <> i0}) as Hd by (intros i; destruct (decide (i0 = Some i)); [by left|right; congruence]).
  split.
  - intros i Hk. destruct (Hd i) as [E|E]; [by apply (Hi i E)|]. apply (adv_carried _ _ _ Ha); [tauto|done|]. apply (tr_contexts _ H). by eapply adv_contexts.
  - intros i Hk. destruct (Hd i) as [E|E]; [by apply (Hi i E)|]. apply (adv_starts _ _ _ Ha) in Hk; [|done].
    destruct (tr_starts _ H i Hk) as [Hc|Hl]; [left; apply (adv_carried _ _ _ Ha); tauto|right; by apply (adv_unstarted _ _ _ Ha)].
  - intros r Hr Hf. destruct (Hd (id r)) as [E|E]; [by apply (Hi _ E) with r|]. destruct (adv_rows _ _ _ Ha r Hr E) as (r0 & Hr0 & Ei & _ & Hf0).
    destruct (tr_rows _ H r0 Hr0 (Hf0 Hf)) as [Hc|Hl]; rewrite Ei in *; [left; apply (adv_carried _ _ _ Ha); tauto|right].
    destruct Hl as [Hl|Hl]; [left; by apply (adv_lost _ _ _ Ha)|right; by apply (adv_unstarted _ _ _ Ha)].
  - intros r Hr Hf. destruct (Hd (id r)) as [E|E]; [by apply (Hi _ E) with r|]. destruct (adv_rows _ _ _ Ha r Hr E) as (r0 & Hr0 & Ei & Eh & _).
    rewrite <- Eh in Hf. destruct (tr_told _ H r0 Hr0 Hf) as [Hc|Hl]; rewrite Ei in *; [left; apply (adv_carried _ _ _ Ha); tauto|right; by eapply Ht].
Qed.

Lemma advances_refl i0 s : advances i0 s s.
Proof. split; try done. intros r Hr _. by exists r. Qed.

Lemma advances_trans i0 s1 s2 s3 : advances i0 s1 s2 -> advances i0 s2 s3 -> advances i0 s1 s3.
Proof.
  intros [A1 A2 A3 A4 A5 A6 A7] [B1 B2 B3 B4 B5 B6 B7]. split; auto.
  intros r Hr Hi. destruct (B4 r Hr Hi) as (r2 & Hr2 & E2 & C2 & F2). destruct (A4 r2 Hr2) as (r1 & Hr1 & E1 & C1 & F1); [by rewrite E2|].
  exists r1. split_and!; [done|congruence|congruence|tauto].
Qed.

(** ** Assignments advance *)

Lemma elem_of_remove_task t u l : t ∈ l -> t <> u -> t ∈ remove_task u l.
Proof.
  intros Ht Hne. induction l as [|v l IH]; [by apply not_elem_of_nil in Ht|]. cbn. case_bool_decide as E.
  - apply elem_of_cons in Ht as [->|Ht]; [by destruct Hne|done].
  - apply elem_of_cons. apply elem_of_cons in Ht as [->|Ht]; [by left|right; by apply IH].
Qed.

Lemma carried_start_new f i t s : f i t = true -> carried f i (start t s).
Proof. intros H. exists t. split; [|done]. apply elem_of_app. right. by left. Qed.

Section Advances.
Context (i0 : option string) (s0 : service).

Lemma adv_start t s : advances i0 s0 s -> advances i0 s0 (start t s).
Proof.
  intros H. eapply advances_trans; [exact H|]. split; try done; [|intros r Hr _; by exists r].
  intros f i _ _ (u & Hu & Hf). exists u. split; [|done]. apply elem_of_app. by left.
Qed.

Lemma adv_finish u s :
  (forall i, Some i <> i0 -> working i u = false) -> advances i0 s0 s -> advances i0 s0 (finish u s).
Proof.
  intros Hw H. eapply advances_trans; [exact H|]. split; try done; [|intros r Hr _; by exists r].
  intros f i Hf Hi (t & Ht & Hft). exists t. split; [|done]. apply elem_of_remove_task; [done|]. intros ->. specialize (Hw i Hi).
  unfold working, dated, in_context in Hw. rewrite !orb_false_iff in Hw. destruct Hw as [[[H1 H2] H3] H4].
  destruct Hf as [->|[->|[->| ->]]]; unfold working, dated, in_context in Hft; rewrite ?H1, ?H2, ?H3, ?H4 in Hft; done.
Qed.

Lemma adv_store i st c s :
  (st <> pending /\ st <> running) \/ i0 = Some i -> advances i0 s0 s -> advances i0 s0 (store i st c s).
Proof.
  intros Hst H. eapply advances_trans; [exact H|]. split; try done. cbn. unfold updateStatus, update_where. intros r' Hr Hi.
  apply list_elem_of_fmap in Hr as (r & -> & Hr). exists r. destruct (String.eqb (id r) i) eqn:E; [|done]. split_and!; [done|done|done|].
  unfold in_flight. cbn. intros Hf. exfalso. apply bool_decide_eq_true in Hf. apply String.eqb_eq in E. cbn in Hi.
  destruct Hst as [[H1 H2]|H1]; [by destruct Hf|apply Hi; congruence].
Qed.

Lemma adv_lose i s : advances i0 s0 s -> advances i0 s0 (lose i s).
Proof.
  intros H. eapply advances_trans; [exact H|]. split; try done; [intros r Hr _; by exists r|]. intros j Hj. apply elem_of_app. by left.
Qed.

Lemma adv_leave_unstarted i s : advances i0 s0 s -> advances i0 s0 (leave_unstarted i s).
Proof.
  intros H. eapply advances_trans; [exact H|]. split; try done; [intros r Hr _; by exists r|]. intros j Hj. apply elem_of_app. by left.
Qed.

Lemma adv_forget i s : advances i0 s0 s -> advances i0 s0 (forget i s).
Proof.
  intros H. eapply advances_trans; [exact H|]. split; try done; [| |intros r Hr _; by exists r]; unfold forget; cbn [activeExecutionContexts executionStartedAt set_contexts set_starts]; intros j _; rewrite jm_keys_delete; by intros [Hj _]%elem_of_bfilter.
Qed.

Lemma adv_drains l s : advances i0 s0 s -> advances i0 s0 (set_drains l s).
Proof. intros H. eapply advances_trans; [exact H|]. split; try done. intros r Hr _. by exists r. Qed.

Lemma adv_sse m s : (forall h, h ∈ history (sse s) -> h ∈ history m) -> advances i0 s0 s -> advances i0 s0 (set_sse m s).
Proof. intros Hm H. eapply advances_trans; [exact H|]. split; try done. intros r Hr _. by exists r. Qed.

Lemma adv_row r s : i0 = Some (id r) -> advances i0 s0 s -> advances i0 s0 (set_rows (rows s ++ [r]) s).
Proof.
  intros -> H. eapply advances_trans; [exact H|]. split; try done. cbn. intros r' [Hr| ->%list_elem_of_singleton]%elem_of_app Hi; [by exists r'|done].
Qed.

Lemma adv_context i c s : i0 = Some i -> advances i0 s0 s -> advances i0 s0 (set_contexts (jm_set i c (activeExecutionContexts s)) s).
Proof.
  intros -> H. eapply advances_trans; [exact H|]. split; try done; [|intros r Hr _; by exists r]. cbn. intros j Hj Hk.
  apply jm_keys_set_subseteq in Hk as [->|Hk]; done.
Qed.

Lemma adv_starting i d s : i0 = Some i -> advances i0 s0 s -> advances i0 s0 (set_starts (jm_set i d (executionStartedAt s)) s).
Proof.
  intros -> H. eapply advances_trans; [exact H|]. split; try done; [|intros r Hr _; by exists r]. cbn. intros j Hj Hk.
  apply jm_keys_set_subseteq in Hk as [->|Hk]; done.
Qed.
End Advances.

(** ** The events of a stream *)

Lemma history_update_all f m s : history (update_all f m s) = history s.
Proof. unfold update_all. generalize (maps s m) as l. intros l. revert s. induction l as [|x l IH]; intros s; [done|]. cbn. by rewrite IH. Qed.

Lemma history_deliver e ev s : history (deliverToSubscribers e ev s) = history s.
Proof. unfold deliverToSubscribers. case_match; [apply history_update_all|done]. Qed.

Lemma history_terminal e ev s : history (publish_terminal e ev s) = history s ++ [Published e ev; Ended e].
Proof.
  unfold publish_terminal. cbn. assert (forall m, history (closeAllSubscribers e m) = history m) as ->.
  { intros m. unfold closeAllSubscribers. destruct (jm_get e (subscriptions m)); [apply history_update_all|done]. }
  cbn. by rewrite history_deliver, <- app_assoc.
Qed.

Lemma published_mono i ev m : forall h, h ∈ history m -> h ∈ history (publish_terminal i ev m).
Proof. intros h Hh. rewrite history_terminal. apply elem_of_app. by left. Qed.

Lemma told_publish i ev s : terminal ev = true -> told i (set_sse (publish_terminal i ev (sse s)) s).
Proof. intros H. exists ev. split; [done|]. cbn [sse set_sse]. rewrite history_terminal. apply elem_of_app. right. by left. Qed.

Lemma carried_finish f i u s : f i u = false -> carried f i s -> carried f i (finish u s).
Proof. intros Hu (t & Ht & Hf). exists t. split; [|done]. apply elem_of_remove_task; [done|]. intros ->. congruence. Qed.

Lemma carried_start f i t s : carried f i s -> carried f i (start t s).
Proof. intros (u & Hu & Hf). exists u. split; [|done]. apply elem_of_app. by left. Qed.

Lemma not_in_delete {V} i (m : jmap string V) : i ∉ jm_keys (jm_delete i m).
Proof. rewrite jm_keys_delete. intros [_ H]%elem_of_bfilter. by rewrite bool_decide_eq_true_2 in H. Qed.

Lemma store_settles i st c s r : r ∈ rows (store i st c s) -> id r = i -> st <> pending -> st <> running -> in_flight r = false.
Proof.
  cbn. unfold updateStatus, update_where. intros Hr Hi H1 H2. apply list_elem_of_fmap in Hr as (r0 & -> & Hr0).
  destruct (String.eqb (id r0) i) eqn:E; [|by apply String.eqb_neq in E]. apply bool_decide_eq_false_2. cbn. by intros [?|?].
Qed.

Lemma store_keeps i st c s r : r ∈ rows (store i st c s) -> exists r0, r0 ∈ rows s /\ id r0 = id r /\ code_hash r0 = code_hash r.
Proof.
  cbn. unfold updateStatus, update_where. intros Hr. apply list_elem_of_fmap in Hr as (r0 & -> & Hr0). exists r0. split; [done|]. by case_match.
Qed.

(** A task that is not a dispatch leaves the account of the events. *)
Lemma told_kept u s s' r :
  tracked s -> dispatching (id r) u = false -> (forall t, t ∈ tasks s -> t <> u -> t ∈ tasks s') ->
  (exists r0, r0 ∈ rows s /\ id r0 = id r /\ code_hash r0 = code_hash r) -> (forall h, h ∈ history (sse s) -> h ∈ history (sse s')) ->
  code_hash r <> None -> carried dispatching (id r) s' \/ told (id r) s'.
Proof.
  intros H Hu Ht (r0 & Hr0 & Ei & Eh) Hh Hc. rewrite <- Eh in Hc. destruct (tr_told _ H r0 Hr0 Hc) as [(t & Hin & Hf)|(ev & He & Hin)]; rewrite Ei in *.
  - left. exists t. split; [|done]. apply Ht; [done|]. intros ->. congruence.
  - right. exists ev. split; [done|by apply Hh].
Qed.

Lemma tracked_quiet s s' : tracked s -> advances None s s' -> tracked s'.
Proof. intros H Ha. eapply tracked_advances; [done|done|]. done. Qed.

(** A step that leaves a dispatch under way. *)
Lemma tracked_onward i s s' :
  tracked s -> advances (Some i) s s' -> carried dispatching i s' -> tracked s'.
Proof.
  intros H Ha (t & Ht & Hd). eapply tracked_advances; [done|done|]. intros j [= <-].
  assert (forall f, f = in_context \/ f = dated \/ f = working \/ f = dispatching -> carried f i s') as Hc.
  { intros f Hf. exists t. split; [done|]. destruct Hf as [->|[->|[->| ->]]]; unfold working, dated, in_context; by rewrite Hd. }
  split_and!; intros; [|left|left|left]; apply Hc; tauto.
Qed.

(** A step that ends one. *)
Lemma tracked_ended i s s' :
  tracked s -> advances (Some i) s s' -> told i s' -> i ∉ jm_keys (activeExecutionContexts s') -> i ∉ jm_keys (executionStartedAt s') ->
  (forall r, r ∈ rows s' -> id r = i -> in_flight r = true -> i ∈ lost s') -> tracked s'.
Proof.
  intros H Ha Ht Hc Hs Hr. eapply tracked_advances; [done|done|]. intros j [= <-]. split_and!; try done; [|by right].
  intros r Hin Ei Hf. right. left. by apply (Hr r).
Qed.

Lemma tracked_dispatch i now d ctx s : tracked s -> tracked (dispatchExecution (create i now d) ctx (set_rows (rows s ++ [create i now d]) s)).
Proof.
  intros H. eapply (tracked_onward i); [done| |apply carried_start_new; cbn; apply String.eqb_refl].
  apply adv_start, adv_context, adv_starting, adv_row, advances_refl; done.
Qed.

Lemma working_other i u : (forall j, working j u = true -> j = i) -> forall j, Some j <> Some i -> working j u = false.
Proof. intros H j Hj. apply not_true_iff_false. intros Hw. apply Hj. by rewrite (H j Hw). Qed.

Ltac other := apply working_other; intros ?j; unfold working, dated, in_context, dispatching; rewrite ?orb_false_r, ?orb_false_l; by intros ?%String.eqb_eq.
Ltac advance :=
  repeat first [apply adv_start | apply adv_store; [first [by left | by right]|] | apply adv_lose | apply adv_leave_unstarted | apply adv_forget | apply adv_drains
    | apply adv_sse; [intros h; apply published_mono|] | apply adv_context; [done|] | apply adv_finish; [first [by other | by intros]|] | apply advances_refl].

Lemma tracked_started i failure s : tracked s -> tracked (started i failure (finish (Starting i) s)).
Proof.
  intros H. unfold started. destruct failure; (eapply (tracked_onward i); [exact H|advance|apply carried_start_new; cbn; apply String.eqb_refl]).
Qed.

Lemma tracked_routed i answer s : tracked s -> tracked (routed i answer (finish (Routing i) s)).
Proof.
  intros H. unfold routed. destruct answer; (eapply (tracked_onward i); [exact H|advance|apply carried_start_new; cbn; apply String.eqb_refl]).
Qed.

Lemma terminalStatus_ends st : terminalStatus st <> pending /\ terminalStatus st <> running.
Proof. by destruct st. Qed.

Lemma tracked_stored i r now failure s : tracked s -> tracked (stored i r now failure (finish (Storing i r) s)).
Proof.
  intros H. unfold stored. destruct failure as [msg|]; [eapply (tracked_onward i); [exact H|advance|apply carried_start_new; cbn; apply String.eqb_refl]|].
  pose proof (terminalStatus_ends (r_status r)) as [T1 T2]. cbv zeta.
  set (s1 := store _ _ _ _). assert (advances (Some i) s s1) as H1 by (apply adv_store; [by left|]; advance).
  assert (forall r0, r0 ∈ rows s1 -> id r0 = i -> in_flight r0 = false) as Hr by (intros r0 Hr0 Hi; by eapply store_settles).
  destruct (r_status r) eqn:E; (eapply (tracked_ended i); [exact H| | |apply not_in_delete|apply not_in_delete|]);
    try (apply adv_forget, adv_sse; [intros h; apply published_mono|exact H1]);
    try (intros r0 Hr0 Hi Hf; rewrite (Hr r0 Hr0 Hi) in Hf; done); by apply (told_publish i).
Qed.

Lemma in_lose i s : i ∈ lost (lose i s).
Proof. apply elem_of_app. right. by left. Qed.

Lemma in_leave_unstarted i s : i ∈ unstarted (leave_unstarted i s).
Proof. apply elem_of_app. right. by left. Qed.

Lemma tracked_failed i msg now ok s : tracked s -> tracked (failed i msg now ok (finish (Failing i msg) s)).
Proof.
  intros H. unfold failed. cbv zeta.
  eapply (tracked_ended i); [exact H| |by apply (told_publish i)|apply not_in_delete|apply not_in_delete|].
  - apply adv_forget, adv_sse; [intros h; apply published_mono|]. destruct ok; advance.
  - intros r Hr Hi Hf. destruct ok; [|apply in_lose]. by rewrite (store_settles i error (Some (crash_completion now msg)) (finish (Failing i msg) s) r) in Hf.
Qed.

Lemma finish_keeps u s t : t ∈ tasks s -> t <> u -> t ∈ tasks (finish u s).
Proof. apply elem_of_remove_task. Qed.

Lemma start_keeps u v s t : t ∈ tasks s -> t <> u -> t ∈ tasks (start v (finish u s)).
Proof. intros Ht Hne. apply elem_of_app. left. by apply elem_of_remove_task. Qed.

(** The rest of a connector's execution, whatever its step leaves. *)
Lemma tracked_connector i u s s' :
  tracked s -> dispatching i u = false -> advances (Some i) s s' -> (forall t, t ∈ tasks s -> t <> u -> t ∈ tasks s') ->
  (forall r, r ∈ rows s' -> id r = i -> code_hash r <> None -> exists r0, r0 ∈ rows s /\ id r0 = id r /\ code_hash r0 = code_hash r) ->
  (i ∈ jm_keys (activeExecutionContexts s') -> carried in_context i s') ->
  (i ∈ jm_keys (executionStartedAt s') -> carried dated i s' \/ i ∈ unstarted s') ->
  (forall r, r ∈ rows s' -> id r = i -> in_flight r = true -> carried working i s' \/ i ∈ lost s' \/ i ∈ unstarted s') -> tracked s'.
Proof.
  intros H Hu Ha Ht Hr0 H1 H2 H3. eapply tracked_advances; [done|done|]. intros j [= <-]. split_and!; [done|done|done|].
  intros r Hr Hi Hc. destruct (told_kept u s s' r H) as [H4|H4]; try done; [by rewrite Hi|by apply Hr0|by apply (adv_history _ _ _ Ha)|left|right]; by rewrite Hi in H4.
Qed.

Ltac here := apply carried_start_new; unfold working, dated, in_context, dispatching; by rewrite String.eqb_refl, ?orb_true_r.

Lemma tracked_connector_run i now tenant tr by_ p run s :
  i ∉ map id (rows s) -> tracked s -> tracked (runConnectorExecution i now tenant tr by_ p run s).
Proof.
  intros Hi H. unfold runConnectorExecution. cbv zeta. eapply (tracked_connector i (CStarting i)); [exact H|done| |intros t Ht _; apply elem_of_app; by left| | | |].
  - apply adv_start, adv_starting, adv_row, advances_refl; done.
  - cbn. intros r [Hr| ->%list_elem_of_singleton]%elem_of_app Hid Hc; [by exists r|done].
  - cbn. intros Hk. destruct (tr_contexts _ H i Hk) as (t & Ht & Hf). exists t. split; [apply elem_of_app; by left|done].
  - intros _. left. here.
  - intros r Hr Hid Hf. left. here.
Qed.

Lemma tracked_connector_started i ctx ok s : tracked s -> tracked (connector_started i ctx ok (finish (CStarting i) s)).
Proof.
  intros H. unfold connector_started. destruct ok; cbv zeta; eapply (tracked_connector i (CStarting i)); try exact H; try done; try advance.
  - by apply start_keeps.
  - intros r Hr _ _. exact (store_keeps i running None (finish (CStarting i) s) r Hr).
  - intros _. here.
  - intros _. left. here.
  - intros r Hr Hid Hf. left. here.
  - by apply finish_keeps.
  - intros r Hr _ _. by exists r.
  - intros Hk. apply (carried_finish in_context i (CStarting i)); [done|by apply (tr_contexts _ H)].
  - intros _. right. apply in_leave_unstarted.
  - intros r Hr Hid Hf. right. right. apply in_leave_unstarted.
Qed.

Lemma tracked_connector_routed i answer s : tracked s -> tracked (connector_routed i answer (finish (CRouting i) s)).
Proof.
  intros H. unfold connector_routed. cbv zeta. destruct answer; eapply (tracked_connector i (CRouting i)); try exact H; try done; try advance;
    try (intros Hk; by apply not_in_delete in Hk); try (by apply start_keeps); try (intros r Hr _ _; by exists r);
    intros r' Hr Hid Hf; left; here.
Qed.

(** The last update of a connector. *)
Lemma tracked_connector_last i u st c (ok : bool) s :
  tracked s -> dated i u = false -> (forall j, Some j <> Some i -> working j u = false) -> st <> pending -> st <> running ->
  tracked (if ok then store i st c (finish u s) else lose i (finish u s)).
Proof.
  intros H Hd Hw H1 H2. assert (dispatching i u = false /\ in_context i u = false) as [D1 D2].
  { unfold dated, in_context in *. rewrite !orb_false_iff in Hd. destruct Hd as [[D1 D2] _]. split; [done|by rewrite orb_false_iff]. }
  assert (i ∈ jm_keys (activeExecutionContexts s) -> carried in_context i (finish u s)) as K1 by (intros Hk; apply carried_finish; [done|by apply (tr_contexts _ H)]).
  assert (i ∈ jm_keys (executionStartedAt s) -> carried dated i (finish u s) \/ i ∈ unstarted s) as K2.
  { intros Hk. destruct (tr_starts _ H i Hk) as [Hc|Hl]; [left; by apply carried_finish|by right]. }
  destruct ok; eapply (tracked_connector i u); try exact H; try done.
  - apply adv_store; [by left|]. by apply adv_finish, advances_refl.
  - by apply finish_keeps.
  - intros r Hr _ _. exact (store_keeps i st c (finish u s) r Hr).
  - intros r Hr Hid Hf. by rewrite (store_settles i st c (finish u s) r) in Hf.
  - apply adv_lose. by apply adv_finish, advances_refl.
  - by apply finish_keeps.
  - intros r Hr _ _. by exists r.
  - intros r Hr Hid Hf. right. left. apply in_lose.
Qed.

Lemma connectorStatus_ends st : connectorStatus st <> pending /\ connectorStatus st <> running.
Proof. by destruct st. Qed.

Lemma tracked_connector_stored i r now ok s : tracked s -> tracked (connector_stored i r now ok (finish (CStoring i r) s)).
Proof. intros H. destruct (connectorStatus_ends (r_status r)). apply tracked_connector_last; try done. other. Qed.

Lemma tracked_connector_failed i msg now ok s : tracked s -> tracked (connector_failed i msg now ok (finish (CFailing i msg) s)).
Proof. intros H. apply tracked_connector_last; try done. other. Qed.

Lemma adv_crash s0 ids s : advances None s0 s -> advances None s0 (handleSandboxCrash ids s).
Proof.
  revert s. induction ids as [|i ids IH]; intros s H; [done|]. apply IH. unfold crash_one, publishFailure.
  apply adv_sse; [intros h; apply published_mono|]. by apply adv_start, adv_forget.
Qed.

Lemma adv_drains_of s0 p g s : advances None s0 s -> advances None s0 (drainPlugin p g s).
Proof. intros H. apply adv_start. case_match; [done|by apply adv_drains]. Qed.

Lemma history_client m m' :
  ((exists e last, m' = subscribe e last m) \/ (exists x, (x < subSequence m)%nat /\ (m' = next x m \/ m' = return_ x m \/ m' = close x m)) \/
    (exists t e, (t, e) ∈ timers m /\ m' = cleanup t e m)) -> SseManager.step m m' /\ forall h, h ∈ history m -> h ∈ history m'.
Proof.
  intros [(e & last & ->)|[(x & Hx & [->|[->| ->]])|(t & e & Ht & ->)]]; (split; [by constructor|]); try (intros h Hh; cbn; apply elem_of_app; by left); [|done].
  intros h Hh. unfold subscribe, getOrCreateSubscriberMap. destruct (jm_get e (subscriptions m)); cbn; apply elem_of_app; by left.
Qed.

Lemma tracked_step s s' : step s s' -> tracked s -> tracked s'.
Proof.
  intros Hs H. destruct Hs.
  - unfold runExecution in H1. case_match; [done|]. case_match; [done|]. injection H1 as <- <-. by apply tracked_dispatch.
  - unfold runInternalExecution in H1. unbind H1 as u Hu. case_match; [done|]. injection H1 as <- <-. by apply tracked_dispatch.
  - by apply tracked_connector_run.
  - by apply tracked_started.
  - by apply tracked_routed.
  - by apply tracked_stored.
  - by apply tracked_failed.
  - by apply tracked_connector_started.
  - by apply tracked_connector_routed.
  - by apply tracked_connector_stored.
  - by apply tracked_connector_failed.
  - eapply tracked_quiet; [done|]. apply adv_crash, advances_refl.
  - eapply tracked_quiet; [done|]. unfold crashed. destruct ok; advance.
  - eapply tracked_quiet; [done|]. apply adv_drains_of, advances_refl.
  - eapply tracked_quiet; [done|]. unfold drain_counted. destruct ok; advance.
  - eapply tracked_quiet; [done|]. unfold polled. repeat case_match; advance.
  - eapply tracked_quiet; [done|]. unfold drain_killed, publishFailure. repeat case_match; advance.
  - eapply tracked_quiet; [done|]. unfold drain_ended. destruct ok; advance.
  - eapply tracked_quiet; [done|]. apply adv_sse; [|apply advances_refl]. intros h Hh. cbn. rewrite history_deliver. apply elem_of_app. by left.
  - eapply tracked_quiet; [done|]. apply adv_sse; [|apply advances_refl]. by apply history_client.
Qed.

Lemma reachable_tracked s : reachable s -> tracked s.
Proof.
  induction 1 as [|s s' _ IH Hs]; [|by eapply tracked_step]. split; cbn; intros x Hx; by apply not_elem_of_nil in Hx.
Qed.

(** ** The streams below *)

Lemma reachable_publish_terminal i ev m : terminal ev = true -> SseManager.reachable m -> SseManager.reachable (publish_terminal i ev m).
Proof.
  intros Hev H. eapply SseManager.reachable_step; [exact H|]. destruct ev as [l|d c|st c msg]; [done|apply SseManager.step_complete|apply SseManager.step_error].
Qed.

Lemma reachable_crash ids s : SseManager.reachable (sse s) -> SseManager.reachable (sse (handleSandboxCrash ids s)).
Proof. revert s. induction ids as [|i ids IH]; intros s H; [done|]. apply IH. by apply reachable_publish_terminal. Qed.

Lemma sse_reachable s : reachable s -> SseManager.reachable (sse s).
Proof.
  induction 1 as [|s s' _ IH Hs]; [constructor|]. destruct Hs;
    try (unfold started, routed, connector_started, connector_routed, connector_stored, connector_failed, crashed, drainPlugin, drain_counted, polled, drain_ended;
         repeat case_match; exact IH).
  - unfold runExecution in H0. case_match; [done|]. case_match; [done|]. by injection H0 as <- <-.
  - unfold runInternalExecution in H0. unbind H0 as u Hu. case_match; [done|]. by injection H0 as <- <-.
  - unfold stored. destruct failure; [exact IH|]. cbv zeta. destruct (r_status r); by apply reachable_publish_terminal.
  - unfold failed. destruct ok; by apply reachable_publish_terminal.
  - by apply reachable_crash.
  - unfold drain_killed. repeat case_match; try exact IH. by apply reachable_publish_terminal.
  - eapply SseManager.reachable_step; [exact IH|apply SseManager.step_publish].
  - eapply SseManager.reachable_step; [exact IH|]. by apply history_client.
Qed.

(** C19: an execution is never forgotten.  In every state the service reaches, whatever the
    order of answers, failures of the database, crashes and drains: a context a call of the
    sandbox is answered with belongs to an execution under way, and so does the date log lines
    are filed under, unless it is that of a connector whose first status was not stored; a row
    that is pending or running is being worked on, unless storing its final status failed or it
    is such a connector's; an accepted execution is under way or its subscribers were told its
    end; and the streams are those of a reachable [SseManager], so that what its theorems say
    holds of them. *)
Theorem executions_tracked s (H : reachable s) :
  (forall i c, onContextCall i s = Some c -> carried in_context i s) /\
  (forall i, i ∈ jm_keys (executionStartedAt s) -> carried dated i s \/ i ∈ unstarted s) /\
  (forall r, r ∈ rows s -> in_flight r = true -> carried working (id r) s \/ id r ∈ lost s \/ id r ∈ unstarted s) /\
  (forall r, r ∈ rows s -> code_hash r <> None -> carried dispatching (id r) s \/ told (id r) s) /\
  SseManager.reachable (sse s).
Proof.
  pose proof (sse_reachable s H) as Hs. apply reachable_tracked in H. destruct H as [H1 H2 H3 H4]. split_and!; try done.
  intros i c Hc. apply H1. apply jm_has_true. unfold jm_has. unfold onContextCall in Hc. by rewrite Hc.
Qed.

(** The reader sees the executions of the tenant only. *)
Lemma getExecution_tenant tenant i s r : getExecution tenant i s = Ok r -> r ∈ rows s /\ id r = i /\ tenant_id r = tenant.
Proof.
  unfold getExecution, findByTenantAndId, find_row. destruct (List.filter _ (rows s)) as [|r0 l] eqn:E; [done|]. cbn. intros [= ->].
  assert (r ∈ List.filter (fun r => String.eqb (id r) i && String.eqb (tenant_id r) tenant) (rows s)) as Hr by (rewrite E; by left).
  apply elem_of_bfilter in Hr as [Hr [H1 H2]%andb_true_iff]. by apply String.eqb_eq in H1, H2.
Qed.

(** While a plugin drains its executions are refused, and nothing else happens. *)
Lemma draining_refused base i now ty lang h by_ ctx p ok s :
  i_pluginId ctx = Some p -> draining p s = true ->
  runInternalExecution base i now ty lang h by_ ctx ok s =
    Err (ServiceDrainingError ("Plugin " +:+ p +:+ " is currently being drained. Retry after drain completes.")).
Proof. intros Hp Hd. unfold runInternalExecution. rewrite Hp, Hd. done. Qed.

(** ** A run *)

Definition taken {A} (r : result service_error (A * service)) (s : service) : service := match r with Ok (_, s') => s' | Err _ => s end.

Definition demo_result : RouteResult := routeToIsolatedVm 30000 (Responded
  {| r_status := R_ok; r_errorCode := None; r_errorMessage := None; r_errorStack := None; r_durationMs := 12; r_memoryPeakMb := num_of_Z 3;
     r_exitCode := 0; r_sandboxType := "" |}).

Definition demo_context : InternalContext :=
  {| i_tenantId := "t"; i_traceId := "tr"; i_pluginId := Some "p"; i_pipelineId := None; i_pipelineRunId := None; i_hookContext := None; i_credentialBundleId := None |}.

Definition internal (i : string) (s : service) : service := taken (runInternalExecution "" i 1 "code" "js" "h" "pipeline-service" demo_context true s) s.

Definition demo_running : service := started "a" None (finish (Starting "a") (internal "a" booted)).
Definition demo_routed : service := routed "a" (Ok demo_result) (finish (Routing "a") demo_running).
Definition demo_done : service := stored "a" demo_result 20 None (finish (Storing "a" demo_result) demo_routed).

Lemma demo_done_reachable : reachable demo_done.
Proof.
  assert (reachable (internal "a" booted)) as H.
  { eapply reachable_step; [apply reachable_booted|].
    apply (step_internal booted "" "a" 1 "code" "js" "h" "pipeline-service" demo_context true (accepted "" "a")); [decide_now|vm_compute; reflexivity]. }
  eapply reachable_step; [|apply step_stored; decide_now]. eapply reachable_step; [|apply step_routed; decide_now].
  eapply reachable_step; [exact H|apply step_started; decide_now].
Qed.

Lemma executions_tracked_witness :
  map status (rows demo_done) = [success] /\ activeExecutionContexts demo_done = [] /\
  (forall i c, onContextCall i demo_done = Some c -> carried in_context i demo_done) /\
  (forall i, i ∈ jm_keys (executionStartedAt demo_done) -> carried dated i demo_done \/ i ∈ unstarted demo_done) /\
  (forall r, r ∈ rows demo_done -> in_flight r = true -> carried working (id r) demo_done \/ id r ∈ lost demo_done \/ id r ∈ unstarted demo_done) /\
  (forall r, r ∈ rows demo_done -> code_hash r <> None -> carried dispatching (id r) demo_done \/ told (id r) demo_done) /\
  SseManager.reachable (sse demo_done).
Proof.
  split; [vm_compute; reflexivity|]. split; [vm_compute; reflexivity|]. exact (executions_tracked demo_done demo_done_reachable).
Defined.

(** ** Named cases *)

(** A final status is not final: the answer that arrives after a crash overwrites it, when its
    subscribers were told the execution was killed. *)
Example killed_overwritten :
  let s1 := crashed "a" 5 true (finish (Crashing "a") (handleSandboxCrash ["a"] demo_running)) in
  let s2 := stored "a" demo_result 20 None (finish (Storing "a" demo_result) (routed "a" (Ok demo_result) (finish (Routing "a") s1))) in
  map status (rows s1) = [killed] /\ map status (rows s2) = [success] /\ map error_code (rows s2) = [Some "EXECUTION_SANDBOX_CRASH"].
Proof. vm_compute. repeat split; reflexivity. Qed.

(** A drain kills the executions of every tenant. *)
Example drain_all_tenants :
  let s := drain_killed "p" ["a"] 9 true (polled "p" 0 5 5 true demo_running) in
  map tenant_id (rows s) = ["t"] /\ map status (rows s) = [killed].
Proof. vm_compute. split; reflexivity. Qed.

(** A failed count leaves the plugin draining with nothing under way. *)
Example drain_never_ends :
  let s := drain_counted "p" 0 5 false (finish (DrainCount "p" 0) (drainPlugin "p" 0 booted)) in
  drainingPlugins s = ["p"] /\ tasks s = [].
Proof. vm_compute. split; reflexivity. Qed.

(** Of two drains of a plugin the first that ends lets executions in. *)
Example drains_overlap :
  let s := drain_ended "p" true (drainPlugin "p" 60 (drainPlugin "p" 0 booted)) in
  drainingPlugins s = [] /\ tasks s = [DrainCount "p" 0; DrainCount "p" 60].
Proof. vm_compute. split; reflexivity. Qed.

Definition connector_run (ok : bool) : service :=
  connector_started "c" {| x_executionId := "c"; x_tenantId := "t"; x_hookContext := false; x_executionType := "connector-run"; x_traceId := "tr";
    x_pluginId := Some "p"; x_credentialBundleId := None |} ok
    (finish (CStarting "c") (runConnectorExecution "c" 1 "t" "tr" "ingestion" "p" None (drainPlugin "p" 60 booted))).

(** A connector starts although its plugin drains, and its subscribers are never told its
    end. *)
Example connector_untold :
  let s := connector_stored "c" demo_result 9 true (finish (CStoring "c" demo_result) (connector_routed "c" (Ok demo_result) (finish (CRouting "c") (connector_run true)))) in
  drainingPlugins s = ["p"] /\ map status (rows s) = [success] /\ history (sse s) = [].
Proof. vm_compute. repeat split; reflexivity. Qed.

(** When the first update fails the date of a connector stays for ever. *)
Example connector_date_kept :
  jm_keys (executionStartedAt (connector_run false)) = ["c"] /\ unstarted (connector_run false) = ["c"] /\
  tasks (connector_run false) = [DrainCount "p" 60].
Proof. vm_compute. repeat split; reflexivity. Qed.

(** Out of memory is killed for a dispatch and an error for a connector. *)
Example oom_differs : terminalStatus R_oom = killed /\ connectorStatus R_oom = error.
Proof. split; reflexivity. Qed.
