(* ===== verification/SandboxManager.v ===== *)
(** * Execution service: the sandbox manager

    services/execution/src/services/sandbox-manager.ts: the primary sandbox, the warm pool,
    recycling, crash recovery and the accounting of executions in flight.  An instance is a
    shared object: the primary, the pool, the map of executions and the calls under way refer
    to it by its number in the [heap], 0 for the first primary and [poolSequence] at its
    creation for a member of the pool.  Calls of a client and timers are [pending]; the code
    after them is a step of its own, which sees the variables as they are then.  [history] is
    what the outside sees, the latest last.  Log lines, [startedAt], which nothing reads, and
    the callback [onCrash] when it is absent are left out. *)

From S2P Require Import Prelude JsString JsNumber SqlTable.
From stdpp Require Import list strings.

Inductive SandboxState : Type := STARTING | ACTIVE | DRAINING_OLD.

#[export] Instance SandboxState_eq_dec : EqDecision SandboxState.
Proof. solve_decision. Defined.

Record SandboxInstance : Type := {
  state : SandboxState;
  runCount : Z;
  inflightIds : list string                  (* a [Set], in the order of insertion *)
}.

(** Why an instance is drained: [triggerRecycle] without a candidate, or
    [drainAndCloseInstance]. *)
Inductive drain : Type := InPlace | Retiring.

#[export] Instance drain_eq_dec : EqDecision drain.
Proof. solve_decision. Defined.

(** A call or a wait under way. *)
Inductive task : Type :=
| Connecting (k : nat)                       (* [connectPoolInstance] *)
| Pinging                                    (* [performPing] *)
| Reconnecting                               (* [connect] of [scheduleReconnect] *)
| Waiting (k : nat) (startMs : Z) (d : drain)  (* [waitForInflightDrain], between two checks *)
| Draining (k : nat) (d : drain).            (* [client.drain()] *)

#[export] Instance task_eq_dec : EqDecision task.
Proof. solve_decision. Defined.

Inductive event : Type :=
| Ran (id : string) (k : nat)                (* [recordRun] accepted it on [k] *)
| Completed (id : string)                    (* [recordCompletion] *)
| Killed (k : nat) (ids : list string)       (* given to [onCrash], or returned by [handleCrash] *)
| Connect (k : nat)                          (* [client.connect] *)
| Retired (k : nat)                          (* [client.close()] at the end of a drain *)
| Closed (k : nat).                          (* [client.close()] of [stop] *)

Record manager : Type := {
  heap : nat -> SandboxInstance;
  primary : nat;
  warmPool : list nat;
  poolSequence : nat;
  consecutivePingMisses : nat;
  pingInterval : bool;                       (* whether [pingIntervalHandle] is set *)
  recycleTimer : bool;                       (* whether its timer is pending *)
  reconnects : list nat;                     (* pending timers of [scheduleReconnect] *)
  reconnectHandle : option nat;
  timerSequence : nat;
  isDraining : bool;
  executionInstanceMap : jmap string nat;
  pending : list task;
  history : list event
}.

Definition PING_MISS_THRESHOLD : nat := 3.

Definition instance_id (k : nat) : string :=
  match k with O => "sandbox-primary-0" | _ => "sandbox-pool-" +:+ Z_to_string (Z.of_nat k) end.

(** [socketPath.replace(/\.sock$/, "") + `-pool-${index}.sock`] *)
Definition derivePoolSocketPath (socketPath : string) (k : nat) : string :=
  (if endsWith socketPath ".sock" then implode (take (String.length socketPath - 5) (explode socketPath)) else socketPath)
  +:+ "-pool-" +:+ Z_to_string (Z.of_nat k) +:+ ".sock".

Definition new_instance : SandboxInstance := {| state := STARTING; runCount := 0; inflightIds := [] |}.

(** ** Assignments *)

Definition set_inst (k : nat) (i : SandboxInstance) (s : manager) : manager :=
  {| heap := fun j => if (j =? k)%nat then i else heap s j; primary := primary s; warmPool := warmPool s; poolSequence := poolSequence s;
     consecutivePingMisses := consecutivePingMisses s; pingInterval := pingInterval s; recycleTimer := recycleTimer s;
     reconnects := reconnects s; reconnectHandle := reconnectHandle s; timerSequence := timerSequence s; isDraining := isDraining s;
     executionInstanceMap := executionInstanceMap s; pending := pending s; history := history s |}.
Definition set_primary (k : nat) (s : manager) : manager :=
  {| heap := heap s; primary := k; warmPool := warmPool s; poolSequence := poolSequence s;
     consecutivePingMisses := consecutivePingMisses s; pingInterval := pingInterval s; recycleTimer := recycleTimer s;
     reconnects := reconnects s; reconnectHandle := reconnectHandle s; timerSequence := timerSequence s; isDraining := isDraining s;
     executionInstanceMap := executionInstanceMap s; pending := pending s; history := history s |}.
Definition set_pool (l : list nat) (s : manager) : manager :=
  {| heap := heap s; primary := primary s; warmPool := l; poolSequence := poolSequence s;
     consecutivePingMisses := consecutivePingMisses s; pingInterval := pingInterval s; recycleTimer := recycleTimer s;
     reconnects := reconnects s; reconnectHandle := reconnectHandle s; timerSequence := timerSequence s; isDraining := isDraining s;
     executionInstanceMap := executionInstanceMap s; pending := pending s; history := history s |}.
Definition set_sequence (n : nat) (s : manager) : manager :=
  {| heap := heap s; primary := primary s; warmPool := warmPool s; poolSequence := n;
     consecutivePingMisses := consecutivePingMisses s; pingInterval := pingInterval s; recycleTimer := recycleTimer s;
     reconnects := reconnects s; reconnectHandle := reconnectHandle s; timerSequence := timerSequence s; isDraining := isDraining s;
     executionInstanceMap := executionInstanceMap s; pending := pending s; history := history s |}.
Definition set_misses (n : nat) (s : manager) : manager :=
  {| heap := heap s; primary := primary s; warmPool := warmPool s; poolSequence := poolSequence s;
     consecutivePingMisses := n; pingInterval := pingInterval s; recycleTimer := recycleTimer s;
     reconnects := reconnects s; reconnectHandle := reconnectHandle s; timerSequence := timerSequence s; isDraining := isDraining s;
     executionInstanceMap := executionInstanceMap s; pending := pending s; history := history s |}.
(** The timers and flags. *)
Definition set_timers (ping recycle : bool) (rs : list nat) (h : option nat) (n : nat) (d : bool) (s : manager) : manager :=
  {| heap := heap s; primary := primary s; warmPool := warmPool s; poolSequence := poolSequence s;
     consecutivePingMisses := consecutivePingMisses s; pingInterval := ping; recycleTimer := recycle;
     reconnects := rs; reconnectHandle := h; timerSequence := n; isDraining := d;
     executionInstanceMap := executionInstanceMap s; pending := pending s; history := history s |}.
Definition set_map (m : jmap string nat) (s : manager) : manager :=
  {| heap := heap s; primary := primary s; warmPool := warmPool s; poolSequence := poolSequence s;
     consecutivePingMisses := consecutivePingMisses s; pingInterval := pingInterval s; recycleTimer := recycleTimer s;
     reconnects := reconnects s; reconnectHandle := reconnectHandle s; timerSequence := timerSequence s; isDraining := isDraining s;
     executionInstanceMap := m; pending := pending s; history := history s |}.
Definition set_pending (l : list task) (s : manager) : manager :=
  {| heap := heap s; primary := primary s; warmPool := warmPool s; poolSequence := poolSequence s;
     consecutivePingMisses := consecutivePingMisses s; pingInterval := pingInterval s; recycleTimer := recycleTimer s;
     reconnects := reconnects s; reconnectHandle := reconnectHandle s; timerSequence := timerSequence s; isDraining := isDraining s;
     executionInstanceMap := executionInstanceMap s; pending := l; history := history s |}.
Definition say (e : event) (s : manager) : manager :=
  {| heap := heap s; primary := primary s; warmPool := warmPool s; poolSequence := poolSequence s;
     consecutivePingMisses := consecutivePingMisses s; pingInterval := pingInterval s; recycleTimer := recycleTimer s;
     reconnects := reconnects s; reconnectHandle := reconnectHandle s; timerSequence := timerSequence s; isDraining := isDraining s;
     executionInstanceMap := executionInstanceMap s; pending := pending s; history := history s ++ [e] |}.

Definition set_recycle (b : bool) (s : manager) : manager :=
  set_timers (pingInterval s) b (reconnects s) (reconnectHandle s) (timerSequence s) (isDraining s) s.
Definition set_draining (b : bool) (s : manager) : manager :=
  set_timers (pingInterval s) (recycleTimer s) (reconnects s) (reconnectHandle s) (timerSequence s) b s.
Definition set_state (k : nat) (st : SandboxState) (s : manager) : manager :=
  let i := heap s k in set_inst k {| state := st; runCount := runCount i; inflightIds := inflightIds i |} s.
Definition set_runs (k : nat) (n : Z) (s : manager) : manager :=
  let i := heap s k in set_inst k {| state := state i; runCount := n; inflightIds := inflightIds i |} s.
Definition set_inflight (k : nat) (l : list string) (s : manager) : manager :=
  let i := heap s k in set_inst k {| state := state i; runCount := runCount i; inflightIds := l |} s.
Definition start (t : task) (s : manager) : manager := set_pending (pending s ++ [t]) s.

(** The first occurrence is removed, as by [splice(indexOf(x), 1)]. *)
Fixpoint remove_one {A} `{EqDecision A} (x : A) (l : list A) : list A :=
  match l with
  | [] => []
  | y :: l => if bool_decide (x = y) then l else y :: remove_one x l
  end.

Definition finish (t : task) (s : manager) : manager := set_pending (remove_one t (pending s)) s.

Section Manager.
(** [createClient] tells whether the pool is enabled. *)
Context (recycleAfterCount drainGracePeriodMs : Z) (warmPoolSize : nat) (createClient : bool).

(** ** The pool *)

Fixpoint add_members (n : nat) (s : manager) : manager :=
  match n with
  | O => s
  | S n =>
      let k := S (poolSequence s) in
      add_members n (say (Connect k) (start (Connecting k) (set_pool (warmPool s ++ [k]) (set_inst k new_instance (set_sequence k s)))))
  end.

Definition replenishPool (s : manager) : manager :=
  if negb createClient then s
  else if isDraining s then s
  else add_members (warmPoolSize - length (warmPool s)) s.

(** After [connect] of a member of the pool. *)
Definition connect_done (k : nat) (ok : bool) (s : manager) : manager :=
  if ok then set_state k ACTIVE s else set_pool (remove_one k (warmPool s)) s.

(** The timer is cleared, if any, and set. *)
Definition scheduleRecycleTimer (s : manager) : manager := set_recycle true s.

(** ** Draining *)

(** The end of [waitForInflightDrain], with [client.drain()] after it. *)
Definition drain_call (k : nat) (d : drain) (s : manager) : manager := start (Draining k d) s.

(** [check] of [waitForInflightDrain]. *)
Definition check (k : nat) (startMs now : Z) (d : drain) (s : manager) : manager :=
  match inflightIds (heap s k) with
  | [] => drain_call k d s
  | ids =>
      if (drainGracePeriodMs <=? now - startMs)%Z
      then drain_call k d (say (Killed k ids) (set_inflight k [] s))
      else start (Waiting k startMs d) s
  end.

Definition drainAndCloseInstance (k : nat) (now : Z) (s : manager) : manager :=
  check k now now Retiring (set_state k DRAINING_OLD s).

Definition triggerRecycle (now : Z) (s : manager) : manager :=
  if isDraining s then s
  else match List.find (fun k => bool_decide (state (heap s k) = ACTIVE)) (warmPool s) with
  | Some candidate =>
      let old := primary s in
      let s1 := scheduleRecycleTimer (set_misses 0 (set_primary candidate (set_pool (remove_one candidate (warmPool s)) s))) in
      replenishPool (drainAndCloseInstance old now s1)
  | None =>
      let k := primary s in
      check k now now InPlace (set_runs k 0 (set_state k DRAINING_OLD (set_draining true s)))
  end.

(** After [client.drain()], whether it failed or not. *)
Definition drain_done (k : nat) (d : drain) (s : manager) : manager :=
  match d with
  | Retiring => say (Retired k) s
  | InPlace => replenishPool (scheduleRecycleTimer (set_draining false (set_state (primary s) ACTIVE s)))
  end.

(** ** Health *)

Definition scheduleReconnect (s : manager) : manager :=
  set_timers (pingInterval s) (recycleTimer s) (reconnects s ++ [timerSequence s]) (Some (timerSequence s)) (S (timerSequence s)) (isDraining s) s.

Definition triggerCrashRecovery (s : manager) : manager :=
  let k := primary s in
  let killedIds := inflightIds (heap s k) in
  let s1 := set_inflight k [] (set_state k STARTING (set_misses 0 s)) in
  scheduleReconnect (set_runs k 0 (say (Killed k killedIds) s1)).

Definition handleCrash (s : manager) : manager :=
  let k := primary s in
  let killed := inflightIds (heap s k) in
  triggerCrashRecovery (say (Killed k killed) (set_inflight k [] s)).

(** After [client.ping()]. *)
Definition ping_done (ok : bool) (s : manager) : manager :=
  if ok then
    let s1 := set_misses 0 s in
    if bool_decide (state (heap s1 (primary s1)) = STARTING)
    then replenishPool (scheduleRecycleTimer (set_state (primary s1) ACTIVE s1))
    else s1
  else
    let s1 := set_misses (S (consecutivePingMisses s)) s in
    if (PING_MISS_THRESHOLD <=? consecutivePingMisses s1)%nat then triggerCrashRecovery s1 else s1.

(** The callback of the timer of [scheduleReconnect]. *)
Definition reconnect_fires (s : manager) : manager :=
  if isDraining s then s else say (Connect (primary s)) (start Reconnecting s).

Definition reconnect_done (ok : bool) (s : manager) : manager :=
  if ok then
    let s1 := set_timers (pingInterval s) (recycleTimer s) (reconnects s) None (timerSequence s) (isDraining s) s in
    replenishPool (scheduleRecycleTimer (set_misses 0 (set_state (primary s1) ACTIVE s1)))
  else if isDraining s then s else scheduleReconnect s.

(** ** The interface *)

Definition getPrimary (s : manager) : result string nat :=
  match state (heap s (primary s)) with
  | STARTING => Err "Sandbox is starting up or reconnecting — no healthy instance available."
  | DRAINING_OLD => Err "Sandbox is draining for recycle — no healthy instance available. Retry shortly."
  | ACTIVE => Ok (primary s)
  end.

Definition set_add (x : string) (l : list string) : list string := if bool_decide (x ∈ l) then l else l ++ [x].

Definition recordRun (executionId : string) (now : Z) (s : manager) : result string manager :=
  let k := primary s in
  if bool_decide (state (heap s k) = DRAINING_OLD) then
    Err "Sandbox transitioned to DRAINING_OLD between getPrimary() and recordRun() — retry the execution."
  else
    let i := heap s k in
    let s1 := set_inst k {| state := state i; runCount := runCount i + 1; inflightIds := set_add executionId (inflightIds i) |} s in
    let s2 := say (Ran executionId k) (set_map (jm_set executionId k (executionInstanceMap s1)) s1) in
    Ok (if (recycleAfterCount <=? runCount i + 1)%Z && negb (isDraining s2) then triggerRecycle now s2 else s2).

Definition recordCompletion (executionId : string) (s : manager) : manager :=
  match jm_get executionId (executionInstanceMap s) with
  | Some k =>
      say (Completed executionId)
        (set_map (jm_delete executionId (executionInstanceMap s))
          (set_inflight k (List.filter (fun x => negb (String.eqb x executionId)) (inflightIds (heap s k))) s))
  | None => say (Completed executionId) s
  end.

Definition startHealthChecks (s : manager) : manager :=
  if pingInterval s then s
  else start Pinging (set_timers true (recycleTimer s) (reconnects s) (reconnectHandle s) (timerSequence s) (isDraining s) s).

Definition stop (s : manager) : manager :=
  let s1 := set_timers false false
    (match reconnectHandle s with Some t => remove_one t (reconnects s) | None => reconnects s end) None (timerSequence s) true s in
  set_pool [] (fold_left (fun s k => say (Closed k) s) (warmPool s1) (say (Closed (primary s1)) s1)).

(** ** Steps

    An execution has the id of its row, which is new. *)

Definition runs (h : list event) : list string := flat_map (fun e => match e with Ran id _ => [id] | _ => [] end) h.


Inductive step : manager -> manager -> Prop :=
| step_run s id now s' : recordRun id now s = Ok s' -> id ∉ runs (history s) -> step s s'
| step_complete s id : step s (recordCompletion id s)
| step_health s : step s (startHealthChecks s)
| step_stop s : step s (stop s)
| step_crash s : step s (handleCrash s)
| step_connected s k ok : Connecting k ∈ pending s -> step s (connect_done k ok (finish (Connecting k) s))
| step_ping s : pingInterval s = true -> step s (start Pinging s)
| step_pinged s ok : Pinging ∈ pending s -> step s (ping_done ok (finish Pinging s))
| step_timer s t : t ∈ reconnects s ->
    step s (reconnect_fires (set_timers (pingInterval s) (recycleTimer s) (remove_one t (reconnects s)) (reconnectHandle s) (timerSequence s) (isDraining s) s))
| step_reconnected s ok : Reconnecting ∈ pending s -> step s (reconnect_done ok (finish Reconnecting s))
| step_recycle s now : recycleTimer s = true -> step s (triggerRecycle now (set_recycle false s))
| step_check s k startMs d now : Waiting k startMs d ∈ pending s -> step s (check k startMs now d (finish (Waiting k startMs d) s))
| step_drained s k d : Draining k d ∈ pending s -> step s (drain_done k d (finish (Draining k d) s)).

(** The manager when it is created. *)
Definition created : manager :=
  {| heap := fun _ => new_instance; primary := 0; warmPool := []; poolSequence := 0; consecutivePingMisses := 0; pingInterval := false;
     recycleTimer := false; reconnects := []; reconnectHandle := None; timerSequence := 0; isDraining := false;
     executionInstanceMap := []; pending := []; history := [] |}.

Inductive reachable : manager -> Prop :=
| reachable_created : reachable created
| reachable_step s s' : reachable s -> step s s' -> reachable s'.
End Manager.

(** ** The executions that are open, by the history *)

Definition opened (o : list (string * nat)) (e : event) : list (string * nat) :=
  match e with
  | Ran id k => o ++ [(id, k)]
  | Completed id => List.filter (fun p => negb (String.eqb p.1 id)) o
  | Killed k _ => List.filter (fun p => negb (p.2 =? k)%nat) o
  | _ => o
  end.

Definition open (h : list event) : list (string * nat) := fold_left opened h [].

(** The open executions of an instance. *)
Definition on (k : nat) (o : list (string * nat)) : list string := map fst (List.filter (fun p => (p.2 =? k)%nat) o).

Definition killed (h : list event) : list string := flat_map (fun e => match e with Killed _ ids => ids | _ => [] end) h.

Arguments open : simpl never.
Arguments on : simpl never.
Arguments runs : simpl never.
Arguments killed : simpl never.

Definition silent (e : event) : bool := match e with Connect _ | Retired _ | Closed _ => true | _ => false end.

Lemma open_snoc h e : open (h ++ [e]) = opened (open h) e.
Proof. unfold open. by rewrite fold_left_app. Qed.

Lemma runs_app h g : runs (h ++ g) = runs h ++ runs g.
Proof. apply flat_map_app. Qed.

Lemma killed_app h g : killed (h ++ g) = killed h ++ killed g.
Proof. apply flat_map_app. Qed.

Lemma open_silent h l : forallb silent l = true -> open (h ++ l) = open h.
Proof.
  revert h. induction l as [|e l IH]; intros h H; [by rewrite app_nil_r|]. cbn in H. apply andb_true_iff in H as [He Hl].
  change (e :: l) with ([e] ++ l). rewrite app_assoc, IH by done. rewrite open_snoc. by destruct e.
Qed.

Lemma runs_silent l : forallb silent l = true -> runs l = [].
Proof.
  induction l as [|e l IH]; intros H; [done|]. cbn in H. apply andb_true_iff in H as [He Hl].
  trans (runs [e] ++ runs l); [apply (runs_app [e] l)|]. rewrite IH by done. by destruct e.
Qed.

Lemma on_app k o o' : on k (o ++ o') = on k o ++ on k o'.
Proof. unfold on. by rewrite List.filter_app, map_app. Qed.

Lemma on_other k k' o : on k (List.filter (fun p => negb (p.2 =? k')%nat) o) = if (k =? k')%nat then [] else on k o.
Proof.
  unfold on. induction o as [|[x j] o IH]; cbn; [by destruct (k =? k')%nat|].
  destruct (Nat.eqb_spec j k') as [->|Hj]; cbn; rewrite ?IH.
  - rewrite (Nat.eqb_sym k' k). by destruct (k =? k')%nat.
  - destruct (Nat.eqb_spec j k) as [->|_]; cbn; rewrite ?IH; [|done]. apply Nat.eqb_neq in Hj. by rewrite Hj.
Qed.

Lemma on_without k id o : on k (List.filter (fun p => negb (String.eqb p.1 id)) o) = List.filter (fun x => negb (String.eqb x id)) (on k o).
Proof.
  unfold on. induction o as [|[x j] o IH]; cbn; [done|].
  destruct (String.eqb x id) eqn:E; destruct (j =? k)%nat eqn:E2; cbn; rewrite ?E, ?E2; cbn; by rewrite IH.
Qed.

Lemma elem_of_on x k o : x ∈ on k o <-> (x, k) ∈ o.
Proof.
  unfold on. rewrite list_elem_of_fmap. split.
  - intros ([y j] & -> & [Hin Hj]%elem_of_bfilter). cbn in *. apply Nat.eqb_eq in Hj. by subst.
  - intros H. exists (x, k). split; [done|]. apply elem_of_bfilter. split; [done|]. apply Nat.eqb_refl.
Qed.

(** Only what ran is open, and only once. *)
Lemma open_runs h : forall p, p ∈ open h -> p.1 ∈ runs h.
Proof.
  induction h as [|e h IH] using rev_ind; intros p Hp; [by apply not_elem_of_nil in Hp|]. rewrite open_snoc in Hp. rewrite runs_app, elem_of_app.
  destruct e as [id k|id|k ids|k|k|k]; cbn in Hp.
  - apply elem_of_app in Hp as [Hp|Hp]; [left; by apply IH|]. apply list_elem_of_singleton in Hp as ->. right. by left.
  - apply elem_of_bfilter in Hp as [Hp _]. left. by apply IH.
  - apply elem_of_bfilter in Hp as [Hp _]. left. by apply IH.
  - left. by apply IH.
  - left. by apply IH.
  - left. by apply IH.
Qed.

Lemma open_NoDup h : NoDup (runs h) -> NoDup (map fst (open h)).
Proof.
  induction h as [|e h IH] using rev_ind; intros Hn; [constructor|]. rewrite runs_app in Hn. apply NoDup_app in Hn as (Hn1 & Hd & _).
  rewrite open_snoc. specialize (IH Hn1). destruct e as [id k|id|k ids|k|k|k]; cbn; [|by apply NoDup_map_bfilter|by apply NoDup_map_bfilter|done..].
  rewrite map_app. apply NoDup_app. split_and!; [done| |apply NoDup_singleton]. intros x Hx ->%list_elem_of_singleton.
  apply list_elem_of_fmap in Hx as (p & E & Hp). cbn in E. apply (Hd id); [rewrite E; by apply open_runs|by left].
Qed.

(** ** The accounts *)

(** Every kill names exactly the executions open on the instance. *)
Definition exact_kills (h : list event) : Prop :=
  forall h1 k ids h2, h = h1 ++ Killed k ids :: h2 -> ids = on k (open h1).

Record accounts (s : manager) : Prop := {
  acc_primary : (primary s <= poolSequence s)%nat;
  acc_pool : Forall (fun k => k <= poolSequence s)%nat (warmPool s);
  acc_inflight k : inflightIds (heap s k) = on k (open (history s));
  acc_fresh k : (poolSequence s < k)%nat -> inflightIds (heap s k) = [];
  acc_map id k : (id, k) ∈ open (history s) -> jm_get id (executionInstanceMap s) = Some k;
  acc_kills : exact_kills (history s);
  acc_runs : NoDup (runs (history s))
}.

Lemma exact_kills_snoc h e : exact_kills h -> (forall k ids, e = Killed k ids -> ids = on k (open h)) -> exact_kills (h ++ [e]).
Proof.
  intros Hh He h1 k ids h2 E. destruct h2 as [|x h3 _] using rev_ind.
  - apply app_inj_tail in E as [-> ->]. by apply He.
  - change (h1 ++ Killed k ids :: h3 ++ [x]) with (h1 ++ (Killed k ids :: h3) ++ [x]) in E. rewrite app_assoc in E.
    apply app_inj_tail in E as [-> ->]. by eapply Hh.
Qed.

Lemma exact_kills_silent h l : exact_kills h -> forallb silent l = true -> exact_kills (h ++ l).
Proof.
  revert h. induction l as [|e l IH]; intros h Hh Hl; [by rewrite app_nil_r|]. cbn in Hl. apply andb_true_iff in Hl as [He Hl].
  change (e :: l) with ([e] ++ l). rewrite app_assoc. apply IH; [|done]. apply exact_kills_snoc; [done|]. by intros k ids ->.
Qed.

(** What leaves the executions alone. *)
Lemma accounts_quiet s s' l :
  accounts s -> (poolSequence s <= poolSequence s')%nat -> (primary s' <= poolSequence s')%nat -> Forall (fun k => k <= poolSequence s')%nat (warmPool s') ->
  (forall k, inflightIds (heap s' k) = inflightIds (heap s k)) -> executionInstanceMap s' = executionInstanceMap s ->
  history s' = history s ++ l -> forallb silent l = true -> accounts s'.
Proof.
  intros [H1 H2 H3 H4 H5 H6 H7] Hq Hp Hw Hi Hm Hh Hl.
  split; rewrite ?Hh, ?open_silent by done; [done|done| | | |by apply exact_kills_silent|by rewrite runs_app, (runs_silent l), app_nil_r].
  - intros k. by rewrite Hi.
  - intros k Hk. rewrite Hi. apply H4. lia.
  - intros id k Hk. rewrite Hm. by apply H5.
Qed.

Lemma set_inst_inflight k i s j :
  inflightIds i = inflightIds (heap s k) -> inflightIds (heap (set_inst k i s) j) = inflightIds (heap s j).
Proof. intros H. cbn. destruct (Nat.eqb_spec j k) as [->|_]; [done|done]. Qed.

Lemma accounts_set_inst k i s : inflightIds i = inflightIds (heap s k) -> accounts s -> accounts (set_inst k i s).
Proof. intros Hi H. apply (accounts_quiet s _ []); try done; [by destruct H..| |by rewrite app_nil_r]. intros j. by apply set_inst_inflight. Qed.

Lemma accounts_set_state k st s : accounts s -> accounts (set_state k st s).
Proof. by apply accounts_set_inst. Qed.

Lemma accounts_set_runs k n s : accounts s -> accounts (set_runs k n s).
Proof. by apply accounts_set_inst. Qed.

Lemma accounts_set_misses n s : accounts s -> accounts (set_misses n s).
Proof. intros []. by split. Qed.

Lemma accounts_set_timers p r rs h n d s : accounts s -> accounts (set_timers p r rs h n d s).
Proof. intros []. by split. Qed.

Lemma accounts_set_pending l s : accounts s -> accounts (set_pending l s).
Proof. intros []. by split. Qed.

Lemma accounts_set_primary k s : k ∈ warmPool s -> accounts s -> accounts (set_primary k s).
Proof. intros Hk []. split; try done. cbn. rewrite Forall_forall in *. by auto. Qed.

Lemma accounts_set_pool l s : (forall k, k ∈ l -> (k <= poolSequence s)%nat) -> accounts s -> accounts (set_pool l s).
Proof. intros Hl []. split; try done. by apply Forall_forall. Qed.

Lemma accounts_say e s : silent e = true -> accounts s -> accounts (say e s).
Proof. intros He H. apply (accounts_quiet s _ [e]); try done; [by destruct H..|]. cbn. by rewrite He. Qed.

Lemma accounts_kill k ids s : ids = inflightIds (heap s k) -> accounts s -> accounts (say (Killed k ids) (set_inflight k [] s)).
Proof.
  intros -> [H1 H2 H3 H4 H5 H6 H7]. split; cbn; rewrite ?open_snoc; cbn; [done|done| | | | |by rewrite runs_app, app_nil_r].
  - intros j. rewrite on_other. destruct (j =? k)%nat eqn:E; [done|apply H3].
  - intros j Hj. destruct (j =? k)%nat; [done|by apply H4].
  - intros id j [Hin _]%elem_of_bfilter. by apply H5.
  - apply exact_kills_snoc; [done|]. intros j ids [= <- <-]. apply H3.
Qed.

Lemma bfilter_all {A} (f : A -> bool) l : (forall x, x ∈ l -> f x = true) -> List.filter f l = l.
Proof. intros H. apply forallb_filter_id, forallb_forall. intros x Hx. by apply H, list_elem_of_In. Qed.

Lemma elem_of_remove_one {A} `{EqDecision A} (x y : A) l : y ∈ remove_one x l -> y ∈ l.
Proof.
  induction l as [|z l IH]; cbn; [done|]. case_bool_decide; intros Hy; [by right|].
  apply elem_of_cons in Hy as [->|Hy]; [by left|right; by apply IH].
Qed.

Create HintDb accounts.
#[export] Hint Resolve accounts_set_state accounts_set_runs accounts_set_misses accounts_set_timers accounts_set_pending
  accounts_set_primary accounts_kill : accounts.
#[export] Hint Extern 2 (accounts (say _ _)) => apply accounts_say; [reflexivity|] : accounts.
#[export] Hint Extern 1 (accounts (set_recycle _ _)) => apply accounts_set_timers : accounts.
#[export] Hint Extern 1 (accounts (scheduleRecycleTimer _)) => apply accounts_set_timers : accounts.
#[export] Hint Extern 1 (accounts (set_draining _ _)) => apply accounts_set_timers : accounts.
#[export] Hint Extern 1 (accounts (start _ _)) => apply accounts_set_pending : accounts.
#[export] Hint Extern 1 (accounts (finish _ _)) => apply accounts_set_pending : accounts.

Section Accounts.
Context (recycleAfterCount drainGracePeriodMs : Z) (warmPoolSize : nat) (createClient : bool).

Lemma accounts_add_members n s : accounts s -> accounts (add_members n s).
Proof.
  revert s. induction n as [|n IH]; intros s H; [done|]. apply IH.
  apply (accounts_quiet s _ [Connect (S (poolSequence s))]); try done; cbn; [lia|destruct H; lia| |].
  - apply Forall_app. split; [|by repeat constructor]. destruct H as [_ H _ _ _ _ _]. eapply Forall_impl; [exact H|]. cbn. lia.
  - intros j. destruct (Nat.eqb_spec j (S (poolSequence s))) as [->|_]; [|done]. symmetry. apply H. lia.
Qed.

Lemma accounts_replenishPool s : accounts s -> accounts (replenishPool warmPoolSize createClient s).
Proof. intros H. unfold replenishPool. case_match; [done|]. case_match; [done|]. by apply accounts_add_members. Qed.

Lemma accounts_check k startMs now d s : accounts s -> accounts (check drainGracePeriodMs k startMs now d s).
Proof.
  intros H. unfold check, drain_call. destruct (inflightIds (heap s k)) eqn:E; [by auto with accounts|].
  case_match; auto with accounts.
Qed.

Lemma accounts_triggerRecycle now s : accounts s -> accounts (triggerRecycle drainGracePeriodMs warmPoolSize createClient now s).
Proof.
  intros H. unfold triggerRecycle. case_match; [done|]. destruct (List.find _ _) as [c|] eqn:E; [|apply accounts_check; auto with accounts].
  apply List.find_some in E as [E _]. apply list_elem_of_In in E. apply accounts_replenishPool, accounts_check, accounts_set_state, accounts_set_timers, accounts_set_misses.
  destruct H as [H1 H2 H3 H4 H5 H6 H7]. rewrite Forall_forall in H2. split; try done; cbn; [by apply H2|].
  apply Forall_forall. intros j Hj%elem_of_remove_one. by apply H2.
Qed.

Lemma accounts_scheduleReconnect s : accounts s -> accounts (scheduleReconnect s).
Proof. apply accounts_set_timers. Qed.

Lemma accounts_triggerCrashRecovery s : accounts s -> accounts (triggerCrashRecovery s).
Proof.
  intros H. unfold triggerCrashRecovery. apply accounts_scheduleReconnect, accounts_set_runs, accounts_kill; [|auto with accounts].
  cbn. by rewrite Nat.eqb_refl.
Qed.

Lemma accounts_handleCrash s : accounts s -> accounts (handleCrash s).
Proof. intros H. apply accounts_triggerCrashRecovery. auto with accounts. Qed.

Lemma accounts_connect_done k ok s : accounts s -> accounts (connect_done k ok s).
Proof.
  intros H. destruct ok; [by apply accounts_set_state|]. apply accounts_set_pool; [|done].
  intros j Hj%elem_of_remove_one. destruct H as [_ H _ _ _ _ _]. rewrite Forall_forall in H. by apply H.
Qed.

Lemma accounts_drain_done k d s : accounts s -> accounts (drain_done warmPoolSize createClient k d s).
Proof. intros H. destruct d; unfold drain_done; [apply accounts_replenishPool|]; auto 6 with accounts. Qed.

Lemma accounts_ping_done ok s : accounts s -> accounts (ping_done warmPoolSize createClient ok s).
Proof.
  intros H. unfold ping_done. destruct ok; case_match; try (apply accounts_replenishPool); try (apply accounts_triggerCrashRecovery); auto 6 with accounts.
Qed.

Lemma accounts_reconnect_fires s : accounts s -> accounts (reconnect_fires s).
Proof. intros H. unfold reconnect_fires. case_match; auto 6 with accounts. Qed.

Lemma accounts_reconnect_done ok s : accounts s -> accounts (reconnect_done warmPoolSize createClient ok s).
Proof.
  intros H. unfold reconnect_done. destruct ok; [apply accounts_replenishPool; auto 8 with accounts|].
  case_match; [done|by apply accounts_scheduleReconnect].
Qed.

Lemma accounts_stop s : accounts s -> accounts (stop s).
Proof.
  intros H. unfold stop. apply accounts_set_pool; [by intros k Hk%not_elem_of_nil|].
  assert (accounts (say (Closed (primary s)) (set_timers false false
    (match reconnectHandle s with Some t => remove_one t (reconnects s) | None => reconnects s end) None (timerSequence s) true s))) as H1 by auto with accounts.
  cbn [warmPool set_timers primary]. revert H1. generalize (warmPool s) as l. generalize (say (Closed (primary s))
    (set_timers false false (match reconnectHandle s with Some t => remove_one t (reconnects s) | None => reconnects s end) None (timerSequence s) true s)).
  intros m l. revert m. induction l as [|k l IH]; intros m Hm; [done|]. apply IH. by apply accounts_say.
Qed.

Lemma accounts_recordRun id now s s' :
  recordRun recycleAfterCount drainGracePeriodMs warmPoolSize createClient id now s = Ok s' -> id ∉ runs (history s) -> accounts s -> accounts s'.
Proof.
  unfold recordRun. case_match; [discriminate|]. intros [= <-] Hid Hs.
  set (s1 := say _ _). assert (accounts s1) as H1.
  { pose proof (open_runs (history s)) as Hopen. destruct Hs as [H1 H2 H3 H4 H5 H6 H7].
    assert (forall k, (id, k) ∉ open (history s)) as Hnew by (intros k Hk; by apply Hid, (Hopen (id, k))).
    split; cbn; rewrite ?open_snoc; cbn; [done|done| | | |by apply exact_kills_snoc|].
    - intros k. rewrite on_app, <- H3. destruct (Nat.eqb_spec k (primary s)) as [->|Hk].
      + unfold on, set_add. cbn. rewrite Nat.eqb_refl. cbn. rewrite bool_decide_eq_false_2; [done|]. by rewrite H3, elem_of_on.
      + unfold on at 1. cbn. rewrite (proj2 (Nat.eqb_neq _ _)) by congruence. by rewrite app_nil_r.
    - intros k Hk. destruct (Nat.eqb_spec k (primary s)) as [->|_]; [lia|by apply H4].
    - intros x k [Hx|[= -> ->]%list_elem_of_singleton]%elem_of_app; [|by rewrite jm_get_set_eq].
      rewrite jm_get_set_ne; [by apply H5|]. intros ->. by apply (Hnew k).
    - rewrite runs_app. apply NoDup_app. split_and!; [done| |apply NoDup_singleton]. intros x Hx ->%list_elem_of_singleton. done. }
  case_match; [by apply accounts_triggerRecycle|done].
Qed.

Lemma accounts_recordCompletion id s : accounts s -> accounts (recordCompletion id s).
Proof.
  intros [H1 H2 H3 H4 H5 H6 H7]. unfold recordCompletion.
  assert (forall x k, (x, k) ∈ List.filter (fun p => negb (String.eqb p.1 id)) (open (history s)) -> (x, k) ∈ open (history s) /\ x <> id) as Hf.
  { intros x k [Hx Hne]%elem_of_bfilter. cbn in Hne. split; [done|]. by apply negb_true_iff, String.eqb_neq in Hne. }
  destruct (jm_get id (executionInstanceMap s)) as [k|] eqn:E; split; cbn; rewrite ?open_snoc, ?runs_app, ?app_nil_r; cbn; try done.
  - intros j. rewrite on_without, <- H3. destruct (Nat.eqb_spec j k) as [->|Hj]; [done|]. symmetry. apply bfilter_all. intros x Hx.
    apply negb_true_iff, String.eqb_neq. intros ->. apply Hj. rewrite H3, elem_of_on in Hx. apply H5 in Hx. congruence.
  - intros j Hj. destruct (Nat.eqb_spec j k) as [->|_]; [|by apply H4]. by rewrite H4.
  - intros x j [Hx Hne]%Hf. rewrite jm_get_delete. rewrite decide_False by congruence. by apply H5.
  - by apply exact_kills_snoc.
  - intros j. rewrite on_without, <- H3. symmetry. apply bfilter_all. intros x Hx. apply negb_true_iff, String.eqb_neq. intros ->.
    rewrite H3, elem_of_on in Hx. apply H5 in Hx. congruence.
  - intros x j [Hx Hne]%Hf. by apply H5.
  - by apply exact_kills_snoc.
Qed.

Lemma accounts_step s s' : step recycleAfterCount drainGracePeriodMs warmPoolSize createClient s s' -> accounts s -> accounts s'.
Proof.
  intros Hs H. destruct Hs.
  - by eapply accounts_recordRun.
  - by apply accounts_recordCompletion.
  - unfold startHealthChecks. case_match; auto with accounts.
  - by apply accounts_stop.
  - by apply accounts_handleCrash.
  - apply accounts_connect_done. auto with accounts.
  - auto with accounts.
  - apply accounts_ping_done. auto with accounts.
  - apply accounts_reconnect_fires. auto with accounts.
  - apply accounts_reconnect_done. auto with accounts.
  - apply accounts_triggerRecycle. auto with accounts.
  - apply accounts_check. auto with accounts.
  - apply accounts_drain_done. auto with accounts.
Qed.

Lemma reachable_accounts s : reachable recycleAfterCount drainGracePeriodMs warmPoolSize createClient s -> accounts s.
Proof.
  induction 1 as [|s s' _ IH Hs]; [|by eapply accounts_step]. split; cbn; try done; [intros id k Hk; by apply (not_elem_of_nil (id, k)) in Hk| |constructor].
  intros h1 k ids h2 E. by destruct h1.
Qed.
End Accounts.

Lemma kills_once h :
  exact_kills h -> NoDup (runs h) ->
  NoDup (killed h) /\ (forall id, id ∈ killed h -> id ∈ runs h /\ forall k, (id, k) ∉ open h) /\
  (forall id, id ∈ runs h -> (exists k, (id, k) ∈ open h) \/ Completed id ∈ h \/ id ∈ killed h).
Proof.
  induction h as [|e h IH] using rev_ind; intros Hx Hn.
  { split_and!; [constructor|intros id Hid..]; by apply not_elem_of_nil in Hid. }
  rewrite runs_app in Hn. apply NoDup_app in Hn as (Hn & Hd & _).
  assert (exact_kills h) as Hx' by (intros h1 k ids h2 ->; eapply (Hx h1 k ids (h2 ++ [e])); by rewrite <- app_assoc).
  destruct (IH Hx' Hn) as (I1 & I2 & I3). rewrite runs_app, killed_app, open_snoc.
  assert (silent e = true -> opened (open h) e = open h /\ runs [e] = [] /\ killed [e] = []) as Hs by (by destruct e).
  destruct (silent e) eqn:E.
  { destruct (Hs eq_refl) as (-> & -> & ->). rewrite !app_nil_r. split_and!; [done|done|]. intros id Hid. rewrite elem_of_app. naive_solver. }
  destruct e as [id k|id|k ids| | |]; try done; clear Hs E.
  - change (killed [Ran id k]) with (@nil string). change (runs [Ran id k]) with [id]. rewrite app_nil_r. split_and!; [done| |].
    + intros x Hxk. destruct (I2 x Hxk) as [Hr Ho]. split; [apply elem_of_app; by left|]. intros j [Hj|[= -> ->]%list_elem_of_singleton]%elem_of_app; [by eapply Ho|].
      apply (Hd id); [done|by left].
    + intros x [Hx0| ->%list_elem_of_singleton]%elem_of_app; [|left; exists k; apply elem_of_app; right; by left].
      rewrite elem_of_app. destruct (I3 x Hx0) as [[j Hj]|?]; [left; exists j; apply elem_of_app; by left|naive_solver].
  - change (killed [Completed id]) with (@nil string). change (runs [Completed id]) with (@nil string). rewrite !app_nil_r. split_and!; [done| |].
    + intros x Hxk. destruct (I2 x Hxk) as [Hr Ho]. split; [done|]. intros j [Hj _]%elem_of_bfilter. by eapply Ho.
    + intros x Hx0. rewrite elem_of_app. destruct (I3 x Hx0) as [[j Hj]|?]; [|naive_solver]. destruct (decide (x = id)) as [->|Hne].
      * right. left. right. by left.
      * left. exists j. apply elem_of_bfilter. split; [done|]. by apply negb_true_iff, String.eqb_neq.
  - change (killed [Killed k ids]) with (ids ++ []). change (runs [Killed k ids]) with (@nil string). rewrite !app_nil_r.
    assert (ids = on k (open h)) as -> by (by apply (Hx h k ids [])). pose proof (open_NoDup h Hn) as Ho. split_and!.
    + apply NoDup_app. split_and!; [done| |by apply (NoDup_map_bfilter fst)]. intros x Hxk Hin%elem_of_on. by apply (I2 x Hxk) in Hin.
    + intros x [Hxk|Hin%elem_of_on]%elem_of_app.
      * destruct (I2 x Hxk) as [Hr Hno]. split; [done|]. intros j [Hj _]%elem_of_bfilter. by eapply Hno.
      * split; [by apply (open_runs h (x, k))|]. intros j [Hj Hne]%elem_of_bfilter. cbn in Hne. apply negb_true_iff, Nat.eqb_neq in Hne.
        apply Hne. assert ((x, j) = (x, k)) as [= ->] by (by eapply (NoDup_map_inj fst)). done.
    + intros x Hx0. rewrite !elem_of_app. destruct (I3 x Hx0) as [[j Hj]|?]; [|naive_solver]. destruct (Nat.eq_dec j k) as [->|Hne].
      * right. right. right. by apply elem_of_on.
      * left. exists j. apply elem_of_bfilter. split; [done|]. by apply negb_true_iff, Nat.eqb_neq.
Qed.

(** C10: the manager loses no execution and invents none, whatever the order of runs,
    completions, crashes, recycles of either kind and answers of the clients.  In every state
    an instance has in flight exactly what was run on it since and neither completed nor
    killed; every kill that is reported, by a crash or by a drain whose grace period is over,
    names exactly the executions open on that instance at that time; no execution is killed
    twice; and what was run is open, completed or killed. *)
Theorem executions_accounted rc grace size cc s (H : reachable rc grace size cc s) :
  (forall k, inflightIds (heap s k) = on k (open (history s))) /\
  (forall h1 k ids h2, history s = h1 ++ Killed k ids :: h2 -> ids = on k (open h1)) /\
  NoDup (killed (history s)) /\
  (forall id, id ∈ runs (history s) -> (exists k, (id, k) ∈ open (history s)) \/ Completed id ∈ history s \/ id ∈ killed (history s)).
Proof.
  apply reachable_accounts in H. destruct H as [_ _ H3 _ _ H6 H7]. destruct (kills_once _ H6 H7) as (H1 & _ & H2). by split_and!.
Qed.

(** ** A run

    Two executions reach the threshold, the member of the pool takes over, one of them is not
    finished when the grace period ends, a third runs on the new primary. *)

Definition run_ok (rc grace : Z) (size : nat) (cc : bool) (id : string) (now : Z) (s : manager) : manager :=
  match recordRun rc grace size cc id now s with Ok s => s | Err _ => s end.

Definition demo_started : manager := connect_done 1 true (finish (Connecting 1) (ping_done 1 true true (finish Pinging (startHealthChecks created)))).
Definition demo_busy : manager := run_ok 2 100 1 true "b" 1 (run_ok 2 100 1 true "a" 0 demo_started).
Definition demo_promoted : manager := run_ok 2 100 1 true "c" 2 (recordCompletion "b" demo_busy).
Definition demo_killed : manager := check 100 0 1 101 Retiring (finish (Waiting 0 1 Retiring) demo_promoted).

Lemma demo_killed_reachable : reachable 2 100 1 true demo_killed.
Proof.
  assert (forall s t, reachable 2 100 1 true s -> step 2 100 1 true s t -> reachable 2 100 1 true t) as H by (intros; by eapply reachable_step).
  assert (forall s id now, reachable 2 100 1 true s -> is_ok (recordRun 2 100 1 true id now s) = true -> id ∉ runs (history s) ->
    reachable 2 100 1 true (run_ok 2 100 1 true id now s)) as Hr.
  { intros s id now Hs Ho Hid. unfold run_ok. destruct (recordRun 2 100 1 true id now s) eqn:E; [|done]. eapply H; [done|]. by eapply step_run. }
  unfold demo_killed, demo_promoted, demo_busy, demo_started.
  apply (H (run_ok 2 100 1 true "c" 2 (recordCompletion "b" demo_busy))); [|apply step_check; decide_now].
  apply Hr; [|vm_compute; reflexivity|decide_now]. eapply H; [|apply step_complete].
  apply Hr; [|vm_compute; reflexivity|decide_now]. apply Hr; [|vm_compute; reflexivity|decide_now].
  eapply H; [|apply step_connected; decide_now]. eapply H; [|apply step_pinged; decide_now].
  eapply H; [apply reachable_created|apply step_health].
Qed.

Lemma executions_accounted_witness :
  killed (history demo_killed) = ["a"] /\ getPrimary demo_killed = Ok 1%nat /\
  (forall k, inflightIds (heap demo_killed k) = on k (open (history demo_killed))) /\
  (forall h1 k ids h2, history demo_killed = h1 ++ Killed k ids :: h2 -> ids = on k (open h1)) /\
  NoDup (killed (history demo_killed)) /\
  (forall id, id ∈ runs (history demo_killed) ->
    (exists k, (id, k) ∈ open (history demo_killed)) \/ Completed id ∈ history demo_killed \/ id ∈ killed (history demo_killed)).
Proof.
  split; [vm_compute; reflexivity|]. split; [vm_compute; reflexivity|]. exact (executions_accounted 2 100 1 true demo_killed demo_killed_reachable).
Defined.

Lemma add_members_states n m :
  primary (add_members n m) = primary m /\ forall k, (k <= poolSequence m)%nat -> state (heap (add_members n m) k) = state (heap m k).
Proof.
  revert m. induction n as [|n IH]; intros m; [done|]. cbn [add_members]. set (m1 := say _ _). destruct (IH m1) as [H1 H2].
  split; [by rewrite H1|]. intros k Hk. rewrite H2 by (cbn; lia). cbn. destruct (Nat.eqb_spec k (S (poolSequence m))); [lia|done].
Qed.

(** With a ready member in the pool there is a healthy primary at once after a recycle. *)
Lemma promotion_no_gap grace size cc now c s :
  isDraining s = false -> List.find (fun k => bool_decide (state (heap s k) = ACTIVE)) (warmPool s) = Some c ->
  c <> primary s -> (c <= poolSequence s)%nat -> getPrimary (triggerRecycle grace size cc now s) = Ok c.
Proof.
  intros Hd Hf Hc Hle. unfold triggerRecycle. rewrite Hd, Hf. apply List.find_some in Hf as [_ Ha]. apply bool_decide_eq_true in Ha.
  set (s1 := scheduleRecycleTimer _). set (s2 := drainAndCloseInstance _ _ _ _).
  assert (primary s2 = c /\ state (heap s2 c) = ACTIVE /\ poolSequence s2 = poolSequence s) as (H1 & H2 & H3).
  { unfold s2, drainAndCloseInstance, check, drain_call. destruct (inflightIds _); [|case_match]; cbn;
      rewrite (proj2 (Nat.eqb_neq c (primary s)) Hc); repeat case_match; by split_and!. }
  assert (primary (replenishPool size cc s2) = c /\ state (heap (replenishPool size cc s2) c) = ACTIVE) as [E1 E2].
  { unfold replenishPool. do 2 (case_match; [done|]). destruct (add_members_states (size - length (warmPool s2)) s2) as [-> ->]; [done|lia]. }
  unfold getPrimary. by rewrite E1, E2.
Qed.

(** ** Named cases *)

Definition iterate {A} (f : A -> A) (n : nat) (x : A) : A := Nat.iter n f x.

(** Three missed pings while the sandbox is down start another reconnect; each chain renews
    itself, and [stop] clears the timer of the last one only. *)
Definition missed (s : manager) : manager := ping_done 1 false false s.

Example reconnects_multiply :
  let down := iterate missed 6 demo_started in
  length (reconnects down) = 2%nat /\ reconnects (stop down) = [0%nat].
Proof. vm_compute. split; reflexivity. Qed.

(** The recycle timer survives a crash: when it fires before the reconnect, the drain makes the
    dead sandbox ACTIVE again. *)
Example recycle_revives_dead :
  let s0 := ping_done 0 false true (startHealthChecks created) in
  let dead := iterate missed 3 s0 in
  let s1 := triggerRecycle 100 0 false 5 (set_recycle false dead) in
  getPrimary dead = Err "Sandbox is starting up or reconnecting — no healthy instance available." /\ recycleTimer dead = true /\
  pending s1 = [Pinging; Draining 0 InPlace] /\ getPrimary (drain_done 0 false 0 InPlace s1) = Ok 0%nat.
Proof. vm_compute. repeat split; reflexivity. Qed.

(** A drain in place that ends after [stop] reopens the manager: it leaves [isDraining] false,
    sets the timer and fills the pool again. *)
Example stop_undone :
  let s0 := ping_done 1 true true (startHealthChecks created) in
  let s1 := stop (triggerRecycle 100 1 true 5 (set_recycle false s0)) in
  let s2 := drain_done 1 true 0 InPlace s1 in
  (isDraining s1, recycleTimer s1, warmPool s1) = (true, false, []) /\ (isDraining s2, recycleTimer s2, warmPool s2) = (false, true, [2%nat]).
Proof. vm_compute. split; reflexivity. Qed.

(** [handleCrash] empties the set before the recovery reads it: [onCrash] is told of no
    execution. *)
Example crash_unreported :
  skipn 2 (history (handleCrash (run_ok 2 100 1 true "a" 0 demo_started))) = [Killed 0%nat ["a"]; Killed 0%nat []].
Proof. vm_compute. reflexivity. Qed.
