(* ===== verification/SdkClient.v ===== *)
(** * The SDK: requests, retries and pages

    packages/sdk/src: retry/retry-handler.ts, the attempts of transport.ts with the mapping of
    responses to errors and the refresh of a token, pagination/paginator.ts and the pages of
    resources/users.ts, which those of the other resources are like.  What the network gives is
    an argument: [headers n] is the outcome of the n-th call of the handler's [getHeaders], which
    of auth/pkce.ts throws without a token and refreshes one that has expired, [fetched n] the
    outcome of the n-th call of [fetch] with the request, [refreshed n] whether the refresh
    after it succeeded.  [random k] and [now k] are read before the k-th retry.  What is in the
    headers, the address, the log and the fields of a validation error are left out. *)

From S2P Require Import Prelude JsString JsNumber JsValue JsHost.
From stdpp Require Import list strings.

(** ** The policy *)

Record RetryPolicy : Type := {
  maxRetries : Z;
  initialDelayMs : number;
  maxDelayMs : number;
  retryableStatusCodes : list Z;
  jitter : bool
}.

Record PartialPolicy : Type := {
  p_maxRetries : option Z;
  p_initialDelayMs : option number;
  p_maxDelayMs : option number;
  p_retryableStatusCodes : option (list Z);
  p_jitter : option bool
}.

Definition DEFAULT_RETRY_POLICY : RetryPolicy :=
  {| maxRetries := 3; initialDelayMs := num_of_Z 500; maxDelayMs := num_of_Z 30000;
     retryableStatusCodes := [429; 500; 502; 503; 504]%Z; jitter := true |}.

(** The options a caller may pass: [false], nothing, or some fields. *)
Inductive policy_option : Type := Disabled | Absent | Given (p : PartialPolicy).

Definition or_default {A} (o : option A) (d : A) : A := match o with Some a => a | None => d end.

Definition resolveRetryPolicy (o : policy_option) : option RetryPolicy :=
  match o with
  | Disabled => None
  | Absent => Some DEFAULT_RETRY_POLICY
  | Given p =>
      Some {| maxRetries := or_default (p_maxRetries p) (maxRetries DEFAULT_RETRY_POLICY);
              initialDelayMs := or_default (p_initialDelayMs p) (initialDelayMs DEFAULT_RETRY_POLICY);
              maxDelayMs := or_default (p_maxDelayMs p) (maxDelayMs DEFAULT_RETRY_POLICY);
              retryableStatusCodes := or_default (p_retryableStatusCodes p) (retryableStatusCodes DEFAULT_RETRY_POLICY);
              jitter := or_default (p_jitter p) (jitter DEFAULT_RETRY_POLICY) |}
  end.

(** ** Delays *)

Section Delays.
Context `{Host}.

(** [0.75 + Math.random() * 0.5] *)
Definition jitterFactor (random : number) : number := num_add (num_of_decimal false 75 (-2)) (num_mul random (num_of_decimal false 5 (-1))).

Definition calculateBackoff (attemptIndex : Z) (random : number) (p : RetryPolicy) : number :=
  let base := num_mul (initialDelayMs p) (math_pow (num_of_Z 2) (num_of_Z attemptIndex)) in
  let capped := num_min base (maxDelayMs p) in
  if negb (jitter p) then capped else num_floor (num_mul capped (jitterFactor random)).

Definition parseRetryAfterMs (header : string) (attemptIndex : Z) (random : number) (now : Z) (p : RetryPolicy) : number :=
  match parseInt10 header with
  | Some seconds => num_min (num_mul (num_of_Z seconds) (num_of_Z 1000)) (maxDelayMs p)
  | None =>
      match date_parse header with
      | Some date => num_min (num_of_Z (Z.max 0 (date - now))) (maxDelayMs p)
      | None => calculateBackoff attemptIndex random p
      end
  end.
End Delays.

(** ** The loop of attempts

    An attempt reads and changes [S]; [tries] are the results of the attempts and [delays] the
    waits between them.  A loop without an attempt throws [undefined], [Err None]. *)

Record retried (S E T : Type) : Type := {
  answer : result (option E) T;
  tries : list (result E T);
  delays : list number;
  after : S
}.
Arguments answer {S E T}.
Arguments tries {S E T}.
Arguments delays {S E T}.
Arguments after {S E T}.

Definition lift {E T} (r : result E T) : result (option E) T := map_err Some r.

Section Retry.
Context `{Host} {S E T : Type}.
Context (attempt : S -> result E T * S) (getStatusCode : E -> option Z) (getRetryAfterHeader : E -> option string).
Context (random : nat -> number) (now : nat -> Z).

Definition may_retry (p : RetryPolicy) (e : E) : bool :=
  match getStatusCode e with Some status => bool_decide (status ∈ retryableStatusCodes p) | None => false end.

Definition delay (p : RetryPolicy) (k : nat) (e : E) : number :=
  match getRetryAfterHeader e with
  | Some header => parseRetryAfterMs header (Z.of_nat k) (random k) (now k) p
  | None => calculateBackoff (Z.of_nat k) (random k) p
  end.

(** From attempt [k] on, with [lastError] of the one before. *)
Fixpoint attempts (fuel : nat) (p : RetryPolicy) (k : nat) (lastError : option E) (s : S) : retried S E T :=
  match fuel with
  | O => {| answer := Err lastError; tries := []; delays := []; after := s |}
  | Datatypes.S fuel =>
      let (r, s') := attempt s in
      let stop := {| answer := lift r; tries := [r]; delays := []; after := s' |} in
      match r with
      | Ok _ => stop
      | Err e =>
          if (maxRetries p <=? Z.of_nat k)%Z then stop
          else if negb (may_retry p e) then stop
          else
            let o := attempts fuel p (Datatypes.S k) (Some e) s' in
            {| answer := answer o; tries := r :: tries o; delays := delay p k e :: delays o; after := after o |}
      end
  end.

(** [attemptIndex <= policy.maxRetries] allows this many turns. *)
Definition withRetry (p : option RetryPolicy) (s : S) : retried S E T :=
  match p with
  | None => let (r, s') := attempt s in {| answer := lift r; tries := [r]; delays := []; after := s' |}
  | Some p => attempts (Z.to_nat (maxRetries p + 1)) p 0 None s
  end.

(** The attempts that follow one another. *)
Fixpoint successive (n : nat) (s : S) : list (result E T) * S :=
  match n with
  | O => ([], s)
  | Datatypes.S n => let (r, s') := attempt s in let (rs, s'') := successive n s' in (r :: rs, s'')
  end.
End Retry.

(** ** Transport *)

Record Response : Type := {
  status : Z;
  json : option value;                       (* [None] when the body is not JSON *)
  retryAfter : option string
}.

(** What [await authHandler.getHeaders()] comes to: an error has a status when it is an [AuthError]. *)
Inductive headers_outcome : Type :=
| Headers
| HandlerThrew (statusCode : option Z).

Inductive fetch_outcome : Type :=
| Aborted                                    (* by the timeout or by [destroy] *)
| FetchFailed (message : string)
| Responded (r : Response).

Inductive error_class : Type :=
| ClientError | AuthError | ForbiddenError | NotFoundError | ConflictError | CursorExpiredError | ValidationError | RateLimitError | ServerError.

#[export] Instance error_class_eq_dec : EqDecision error_class.
Proof. solve_decision. Defined.

Inductive sdk_error : Type :=
| NetworkError (reason message : string)
| ApiError (class : error_class) (code message : value) (response : Response)
| TypeErr                                    (* a property of a value that has none *)
| HandlerError (statusCode : option Z).      (* thrown by the handler's [getHeaders] *)

(** The calls so far: of the handler for headers, and of [fetch]. *)
Record traffic : Type := { asked : nat; sent : nat }.

Definition DEFAULT_RETRYABLE_NETWORK_STATUS : Z := 503.

Definition field_or (k : string) (d : value) (o : obj) : value := match get k o with VUndef => d | v => v end.

Definition class_of (status : Z) : error_class :=
  if (status =? 400)%Z then ClientError else if (status =? 401)%Z then AuthError else if (status =? 403)%Z then ForbiddenError
  else if (status =? 404)%Z then NotFoundError else if (status =? 409)%Z then ConflictError else if (status =? 410)%Z then CursorExpiredError
  else if (status =? 422)%Z then ValidationError else if (status =? 429)%Z then RateLimitError
  else if (500 <=? status)%Z then ServerError else ClientError.

Definition mapResponseToError (r : Response) : sdk_error :=
  match json r with
  | None => ApiError ServerError (VStr "INTERNAL_ERROR") (VStr ("Server returned " +:+ Z_to_string (status r) +:+ " with a non-JSON body")) r
  | Some VUndef | Some VNull => TypeErr
  | Some body =>
      let error := match body with VObj _ o => match get "error" o with VObj _ e => e | _ => [] end | _ => [] end in
      ApiError (class_of (status r)) (field_or "code" (VStr "UNKNOWN_ERROR") error)
        (field_or "message" (VStr "An unknown error occurred") error) r
  end.

(** [{ data }] is unwrapped; [in] refuses what is not an object. *)
Definition unwrap (parsed : value) : result sdk_error value :=
  match parsed with
  | VObj _ o => Ok (match own_get "data" o with Some v => v | None => parsed end)
  | VArr _ _ | VFun _ => Ok parsed
  | _ => Err TypeErr
  end.

Section Transport.
Context `{Host} (headers : nat -> headers_outcome) (fetched : nat -> fetch_outcome) (refreshed : nat -> bool).
Context (canRefresh : bool) (timeoutMs : Z).

(** One call of [executeRequest] up to the call of itself with a new token, [again]. *)
Definition execute_with (again : option (traffic -> result sdk_error value * traffic)) (n : traffic) :
    result sdk_error value * traffic :=
  match headers (asked n) with
  | HandlerThrew statusCode => (Err (HandlerError statusCode), {| asked := S (asked n); sent := sent n |})
  | Headers =>
      let n' := {| asked := S (asked n); sent := S (sent n) |} in
      match fetched (sent n) with
      | Aborted => (Err (NetworkError "timeout" ("Request timed out after " +:+ Z_to_string timeoutMs +:+ "ms")), n')
      | FetchFailed m => (Err (NetworkError "fetch-failed" m), n')
      | Responded r =>
          if (status r =? 204)%Z then (Ok VUndef, n')
          else if negb ((200 <=? status r) && (status r <=? 299))%Z then
            let err := mapResponseToError r in
            match err, again with
            | ApiError AuthError _ _ _, Some again => if canRefresh && refreshed (sent n) then again n' else (Err err, n')
            | _, _ => (Err err, n')
            end
          else
            match json r with
            | None => (Err (NetworkError "parse-failed" "Failed to parse JSON response body"), n')
            | Some parsed => (unwrap parsed, n')
            end
      end
  end.

Definition executeRequest (n : traffic) : result sdk_error value * traffic := execute_with (Some (execute_with None)) n.

Definition getStatusCode (e : sdk_error) : option Z :=
  match e with
  | NetworkError _ _ => Some DEFAULT_RETRYABLE_NETWORK_STATUS
  | ApiError _ _ _ r => Some (status r)
  | TypeErr => None
  | HandlerError statusCode => statusCode
  end.

Definition getRetryAfterHeader (e : sdk_error) : option string :=
  match e with ApiError RateLimitError _ _ r => retryAfter r | _ => None end.

Definition request (p : policy_option) (random : nat -> number) (now : nat -> Z) (n : traffic) : retried traffic sdk_error value :=
  withRetry executeRequest getStatusCode getRetryAfterHeader random now (resolveRetryPolicy p) n.
End Transport.

(** ** Pages *)

Record Page (T : Type) : Type := { items : list T; nextCursor : option string; hasMore : bool }.
Arguments items {T}.
Arguments nextCursor {T}.
Arguments hasMore {T}.

Section Paginator.
Context {T : Type} (fetchPage : nat -> option string -> Page T).

(** The k-th request of the iterator has this cursor; [None] after the last page. *)
Definition continues (p : Page T) : bool :=
  match items p with [] => false | _ => match nextCursor p with Some _ => true | None => false end end.

Inductive collected : Type :=
| Collected (results : list T)
| LimitExceeded (maxItems : nat)
| OutOfFuel.

(** [collect]: the body of the loop for each page. *)
Fixpoint collect_from (fuel maxItems k : nat) (cursor : option string) (results : list T) : collected :=
  match fuel with
  | O => OutOfFuel
  | S fuel =>
      let page := fetchPage k cursor in
      let results := results ++ items page in
      if (maxItems <=? length results)%nat
      then if hasMore page then LimitExceeded maxItems else Collected (take maxItems results)
      else if continues page then collect_from fuel maxItems (S k) (nextCursor page) results else Collected (take maxItems results)
  end.

(** Every page but the last adds an item. *)
Definition collect (maxItems : nat) : collected := collect_from (S maxItems) maxItems 0 None [].

Fixpoint take_from (fuel n k : nat) (cursor : option string) (results : list T) : collected :=
  match fuel with
  | O => OutOfFuel
  | S fuel =>
      let page := fetchPage k cursor in
      let results := results ++ items page in
      if (n <=? length results)%nat then Collected (take n results)
      else if continues page then take_from fuel n (S k) (nextCursor page) results else Collected results
  end.

Definition take_ (n : nat) : collected := take_from (S n) n 0 None [].

Definition firstPage : Page T := fetchPage 0 None.

(** The pages that the iterator yields, [ps], from request [k] on; [last] is the latest. *)
Inductive yields (k : nat) (cursor : option string) : list (Page T) -> Page T -> Prop :=
| yields_one : yields k cursor [fetchPage k cursor] (fetchPage k cursor)
| yields_more ps last : continues (fetchPage k cursor) = true ->
    yields (S k) (nextCursor (fetchPage k cursor)) ps last -> yields k cursor (fetchPage k cursor :: ps) last.
End Paginator.
Arguments collected : clear implicits.

Definition all_items {T} (ps : list (Page T)) : list T := List.concat (map items ps).

(** The page of a resource from the result of a request: [{ ...result, hasMore }], where
    [items] and [nextCursor] are properties of the result. *)
Definition list_page (v : value) : option (list value * bool) :=
  match v with
  | VObj _ o =>
      match get "items" o with
      | VArr _ l => Some (l, match get "nextCursor" o with VNull => false | _ => true end)
      | _ => None                            (* [page.items.length] throws *)
      end
  | _ => None
  end.

(** ** Retries *)

Section RetryLaws.
Context `{Host} {S E T : Type}.
Context (attempt : S -> result E T * S) (getStatusCode : E -> option Z) (getRetryAfterHeader : E -> option string).
Context (random : nat -> number) (now : nat -> Z).

Abbreviation loop := (attempts attempt getStatusCode getRetryAfterHeader random now).

(** What the loop does from attempt [k] on. *)
Record tried (p : RetryPolicy) (k : nat) (s : S) (o : retried S E T) (fails : list E) (last : result E T) : Prop := {
  td_tries : tries o = map Err fails ++ [last];
  td_answer : answer o = lift last;
  td_fails : Forall (fun e => may_retry getStatusCode p e = true) fails;
  td_bound : (Z.of_nat (k + length fails) <= maxRetries p)%Z;
  td_delays : length (delays o) = length fails;
  td_last e : last = Err e -> may_retry getStatusCode p e = true -> Z.of_nat (k + length fails) = maxRetries p;
  td_successive : successive attempt (length (tries o)) s = (tries o, after o)
}.

Lemma tried_stop p k s r s' :
  attempt s = (r, s') -> (Z.of_nat k <= maxRetries p)%Z ->
  (forall e, r = Err e -> may_retry getStatusCode p e = true -> Z.of_nat k = maxRetries p) ->
  tried p k s {| answer := lift r; tries := [r]; delays := []; after := s' |} [] r.
Proof. intros Ha Hk He. split; cbn; rewrite ?Nat.add_0_r, ?Ha; try done. Qed.

Lemma attempts_tried fuel p k le s :
  fuel = (Z.to_nat (maxRetries p + 1) - k)%nat -> (Z.of_nat k <= maxRetries p)%Z ->
  exists fails last, tried p k s (loop fuel p k le s) fails last.
Proof.
  revert k le s. induction fuel as [|fuel IH]; intros k le s Hf Hk; [lia|]. cbn. destruct (attempt s) as [r s'] eqn:Ea.
  destruct r as [v|e]; [exists [], (Ok v); by apply tried_stop|].
  destruct (Z.leb_spec (maxRetries p) (Z.of_nat k)) as [Hl|Hl]; [exists [], (Err e); apply tried_stop; [done|done|lia]|].
  destruct (may_retry getStatusCode p e) eqn:Em; cbn [negb]; [|exists [], (Err e); apply tried_stop; [done|done|intros e' [= <-] Hr; congruence]].
  destruct (IH (Datatypes.S k) (Some e) s') as (fails & last & [T1 T2 T3 T4 T5 T6 T7]); [lia|lia|]. exists (e :: fails), last.
  split; cbn; rewrite ?T1; try done; [by constructor|lia|by rewrite T5| |].
  - intros e' He Hm. specialize (T6 e' He Hm). lia.
  - rewrite Ea, <- T1, T7. done.
Qed.

(** A loop without attempts. *)
Lemma no_attempts fuel p k le s : fuel = 0%nat -> loop fuel p k le s = {| answer := Err le; tries := []; delays := []; after := s |}.
Proof. by intros ->. Qed.
End RetryLaws.

Section TransportLaws.
Context `{Host} (headers : nat -> headers_outcome) (fetched : nat -> fetch_outcome) (refreshed : nat -> bool).
Context (canRefresh : bool) (timeoutMs : Z).

Abbreviation exec := (executeRequest headers fetched refreshed canRefresh timeoutMs).

(** How many of the calls [a], [a + 1], ... , [a + n - 1] of [getHeaders] gave headers. *)
Definition given_headers (a n : nat) : nat :=
  length (List.filter (fun k => match headers k with Headers => true | HandlerThrew _ => false end) (seq a n)).

Lemma given_headers_add a n m : given_headers a (n + m) = (given_headers a n + given_headers (a + n) m)%nat.
Proof. unfold given_headers. by rewrite seq_app, List.filter_app, length_app. Qed.

(** [d] calls of the handler on the way from [n] to [n'], and a call of [fetch] for each that gave headers. *)
Definition calls (d : nat) (n n' : traffic) : Prop :=
  asked n' = (asked n + d)%nat /\ sent n' = (sent n + given_headers (asked n) d)%nat.

Lemma calls_trans d1 d2 n1 n2 n3 : calls d1 n1 n2 -> calls d2 n2 n3 -> calls (d1 + d2) n1 n3.
Proof. intros [A1 S1] [A2 S2]. split; [lia|]. rewrite given_headers_add, S2, S1, A1. lia. Qed.

Lemma calls_once n r : execute_with headers fetched refreshed canRefresh timeoutMs None n = r -> calls 1 n r.2.
Proof.
  intros <-. unfold execute_with, calls, given_headers. cbn [seq List.filter].
  destruct (headers (asked n)); [|cbn; lia]. repeat case_match; cbn; lia.
Qed.

(** An attempt asks for headers and fetches, or does so again after a refresh. *)
Lemma execute_calls n : exists d, calls d n (exec n).2 /\ (1 <= d <= 2)%nat /\ (d = 2%nat -> canRefresh = true).
Proof.
  assert (Hone : forall k, calls 1 n {| asked := S (asked n); sent := k |} ->
    exists d, calls d n {| asked := S (asked n); sent := k |} /\ (1 <= d <= 2)%nat /\ (d = 2%nat -> canRefresh = true))
    by (intros k ?; exists 1%nat; split_and!; [done|lia|lia|done]).
  unfold executeRequest, execute_with at 1. destruct (headers (asked n)) eqn:Eh.
  2: { apply Hone. unfold calls, given_headers. cbn. rewrite Eh. cbn. lia. }
  assert (H1 : calls 1 n {| asked := S (asked n); sent := S (sent n) |}) by (unfold calls, given_headers; cbn; rewrite Eh; cbn; lia).
  specialize (Hone _ H1). cbn zeta.
  destruct (fetched (sent n)) as [|m|r]; [done..|]. destruct (status r =? 204)%Z; [done|].
  destruct (negb _); [|by destruct (json r)]. destruct (mapResponseToError r) as [|c ? ? ?| |]; [done| |done..].
  destruct c; try done. destruct canRefresh; cbn [andb]; [|done]. destruct (refreshed (sent n)); [|done].
  exists 2%nat. split_and!; [|lia|lia|done]. apply (calls_trans 1 1 _ _ _ H1). by eapply calls_once.
Qed.

Lemma successive_calls k n :
  exists d, calls d n (successive exec k n).2 /\ (k <= d <= 2 * k)%nat /\ (canRefresh = false -> d = k).
Proof.
  revert n. induction k as [|k IH]; intros n; cbn.
  - exists 0%nat. split_and!; [|lia|lia|done]. split; cbn; lia.
  - destruct (execute_calls n) as (d & Hd & Hb & Hr). destruct (exec n) as [r n'] eqn:Ee. cbn in Hd.
    destruct (IH n') as (d' & Hd' & Hb' & Hr'). destruct (successive exec k n') as [rs n''] eqn:Es. cbn in Hd' |- *.
    exists (d + d')%nat. split_and!; [by eapply calls_trans|lia|lia|]. intros E. specialize (Hr' E).
    destruct (Nat.eq_dec d 2) as [E2|]; [specialize (Hr E2); congruence|lia].
Qed.
End TransportLaws.

(** C18: a request with a policy of [m] retries is attempted at most [m + 1] times, and its
    answer is that of the last attempt: the attempts are successive ones, all but the last
    failed with a status of the policy (a failure of the network counting as 503, an error of
    the handler with its own), and one that is not to be retried, or that succeeds, is the
    last; there is one delay between two attempts.  An attempt asks the handler for headers
    once, or twice around a refresh of the token, and calls [fetch] once for each time that it
    gets them: not at all when the handler throws. *)
Theorem request_outcome `{Host} headers fetched refreshed canRefresh timeoutMs o p random now n
    (Hp : resolveRetryPolicy o = Some p) (Hm : (0 <= maxRetries p)%Z) :
  let out := request headers fetched refreshed canRefresh timeoutMs o random now n in
  exists fails last d,
    tries out = map Err fails ++ [last] /\ answer out = lift last /\
    Forall (fun e => exists st, getStatusCode e = Some st /\ st ∈ retryableStatusCodes p) fails /\
    (Z.of_nat (length fails) <= maxRetries p)%Z /\ length (delays out) = length fails /\
    (forall e st, last = Err e -> getStatusCode e = Some st -> st ∈ retryableStatusCodes p -> Z.of_nat (length fails) = maxRetries p) /\
    successive (executeRequest headers fetched refreshed canRefresh timeoutMs) (length (tries out)) n = (tries out, after out) /\
    calls headers d n (after out) /\ (length (tries out) <= d <= 2 * length (tries out))%nat /\
    (canRefresh = false -> d = length (tries out)).
Proof.
  cbv zeta. unfold request, withRetry. rewrite Hp.
  set (exec := executeRequest headers fetched refreshed canRefresh timeoutMs).
  destruct (attempts_tried exec getStatusCode getRetryAfterHeader random now (Z.to_nat (maxRetries p + 1)) p 0 None n)
    as (fails & last & [T1 T2 T3 T4 T5 T6 T7]); [lia|lia|].
  set (out := attempts _ _ _ _ _ _ _ _ _ n) in *.
  destruct (successive_calls headers fetched refreshed canRefresh timeoutMs (length (tries out)) n) as (d & Hd).
  fold exec in Hd. rewrite T7 in Hd. destruct Hd as (? & ? & ?). exists fails, last, d. split_and!; try done; try lia.
  - eapply Forall_impl; [exact T3|]. intros e He. unfold may_retry in He. case_match; [|done]. eexists. split; [done|]. by apply bool_decide_eq_true in He.
  - intros e st He Hst Hin. apply (T6 e He). unfold may_retry. rewrite Hst. by apply bool_decide_eq_true.
Qed.

(** ** Pages *)

Section PaginatorLaws.
Context {T : Type} (fetchPage : nat -> option string -> Page T).

(** Why the loop over the pages [ps] ended with [c]. *)
Definition collects (maxItems : nat) (before : list T) (ps : list (Page T)) (last : Page T) (c : collected T) : Prop :=
  match c with
  | Collected xs =>
      xs = firstn maxItems (before ++ all_items ps) /\
      (continues last = false \/ (maxItems <= length (before ++ all_items ps))%nat /\ hasMore last = false)
  | LimitExceeded m => m = maxItems /\ (maxItems <= length (before ++ all_items ps))%nat /\ hasMore last = true
  | OutOfFuel => False
  end.

Lemma all_items_cons (p : Page T) ps : all_items (p :: ps) = items p ++ all_items ps.
Proof. done. Qed.

Lemma collect_from_spec fuel maxItems k cursor results :
  (maxItems < fuel + length results)%nat -> (length results <= maxItems)%nat ->
  exists ps last, yields fetchPage k cursor ps last /\ (length ps + length results <= S maxItems)%nat /\
    collects maxItems results ps last (collect_from fetchPage fuel maxItems k cursor results).
Proof.
  revert k cursor results. induction fuel as [|fuel IH]; intros k cursor results Hf Hr; [lia|]. cbn [collect_from].
  set (page := fetchPage k cursor). assert (all_items [page] = items page) as E1 by (unfold all_items; cbn; apply app_nil_r).
  destruct (Nat.leb_spec maxItems (length (results ++ items page))) as [Hl|Hl].
  - exists [page], page. split_and!; [constructor|cbn; lia|]. unfold collects. destruct (hasMore page) eqn:Eh; rewrite E1; [done|]. split; [done|by right].
  - destruct (continues page) eqn:Ec.
    + assert (1 <= length (items page))%nat as Hi by (unfold continues in Ec; destruct (items page); [done|cbn; lia]).
      rewrite length_app in Hl. destruct (IH (S k) (nextCursor page) (results ++ items page)) as (ps & last & H1 & H2 & H3); [rewrite length_app; lia..|].
      exists (page :: ps), last. rewrite length_app in H2. split_and!; [by apply yields_more|cbn; lia|].
      unfold collects in *. by rewrite all_items_cons, app_assoc.
    + exists [page], page. split_and!; [constructor|cbn; lia|]. unfold collects. rewrite E1. split; [done|by left].
Qed.

Lemma take_from_spec fuel n k cursor results :
  (n < fuel + length results)%nat -> (length results <= n)%nat ->
  exists ps last, yields fetchPage k cursor ps last /\ (length ps + length results <= S n)%nat /\
    take_from fetchPage fuel n k cursor results = Collected (firstn n (results ++ all_items ps)) /\
    (continues last = false \/ (n <= length (results ++ all_items ps))%nat).
Proof.
  revert k cursor results. induction fuel as [|fuel IH]; intros k cursor results Hf Hr; [lia|]. cbn [take_from].
  set (page := fetchPage k cursor). assert (all_items [page] = items page) as E1 by (unfold all_items; cbn; apply app_nil_r).
  destruct (Nat.leb_spec n (length (results ++ items page))) as [Hl|Hl].
  - exists [page], page. rewrite E1. split_and!; [constructor|cbn; lia|done|by right].
  - destruct (continues page) eqn:Ec.
    + assert (1 <= length (items page))%nat as Hi by (unfold continues in Ec; destruct (items page); [done|cbn; lia]).
      rewrite length_app in Hl. destruct (IH (S k) (nextCursor page) (results ++ items page)) as (ps & last & H1 & H2 & H3 & H4); [rewrite length_app; lia..|].
      exists (page :: ps), last. rewrite length_app in H2. rewrite all_items_cons, app_assoc. split_and!; [by apply yields_more|cbn; lia|done|done].
    + exists [page], page. rewrite E1, firstn_all2 by lia. split_and!; [constructor|cbn; lia|done|by left].
Qed.
End PaginatorLaws.

(** C27: [collect] and [take] end after at most [n + 1] requests, whatever pages the server
    gives, a cursor that comes back included.  What [collect] returns are the first [n] items of
    successive pages that end the collection, or that reach [n] with no page after them; it
    refuses exactly when they reach [n] and more pages follow.  [take] returns the first [n] items, and
    fewer only when the collection has ended. *)
Theorem pages_collected {T} (fetchPage : nat -> option string -> Page T) n :
  (exists ps last, yields fetchPage 0 None ps last /\ (length ps <= S n)%nat /\ collects n [] ps last (collect fetchPage n)) /\
  (exists ps last, yields fetchPage 0 None ps last /\ (length ps <= S n)%nat /\ take_ fetchPage n = Collected (firstn n (all_items ps)) /\
    (continues last = false \/ (n <= length (all_items ps))%nat)).
Proof.
  split.
  - destruct (collect_from_spec fetchPage (S n) n 0 None []) as (ps & last & H1 & H2 & H3); [cbn; lia..|]. exists ps, last. cbn in H2. split_and!; [done|lia|done].
  - destruct (take_from_spec fetchPage (S n) n 0 None []) as (ps & last & H1 & H2 & H3 & H4); [cbn; lia..|]. exists ps, last. cbn in H2. split_and!; [done|lia|done|done].
Qed.

(** ** A run and named cases *)

Definition script (l : list fetch_outcome) (n : nat) : fetch_outcome := nth n l Aborted.

Definition answer_of (st : Z) (body : option value) : fetch_outcome := Responded {| status := st; json := body; retryAfter := None |}.

Definition data (v : value) : option value := Some (VObj 0%N [("data", v)]).

(** The handler of an API key gives headers every time. *)
Definition always (n : nat) : headers_outcome := Headers.

Definition untouched : traffic := {| asked := 0; sent := 0 |}.

Definition demo_script : nat -> fetch_outcome := script [answer_of 503 (data VNull); FetchFailed "reset"; answer_of 200 (data (VNum (num_of_Z 7)))].

(** The refresh of an expired token is refused once with 503, before the second call of [fetch]. *)
Definition demo_headers (n : nat) : headers_outcome := if (n =? 1)%nat then HandlerThrew (Some 503%Z) else Headers.

Definition demo_request := request (H := plain_host) demo_headers demo_script (fun _ => false) false 30000 Absent (fun _ => num_of_decimal false 5 (-1)) (fun _ => 0%Z) untouched.

Lemma request_outcome_witness :
  (answer demo_request, length (tries demo_request), map num_to_Z (delays demo_request), after demo_request)
    = (Ok (VNum (num_of_Z 7)), 4%nat, [Some 500; Some 1000; Some 2000]%Z, {| asked := 4; sent := 3 |}) /\
  exists fails last d,
    tries demo_request = map Err fails ++ [last] /\ answer demo_request = lift last /\
    Forall (fun e => exists st, getStatusCode e = Some st /\ st ∈ retryableStatusCodes DEFAULT_RETRY_POLICY) fails /\
    (Z.of_nat (length fails) <= maxRetries DEFAULT_RETRY_POLICY)%Z /\ length (delays demo_request) = length fails /\
    (forall e st, last = Err e -> getStatusCode e = Some st -> st ∈ retryableStatusCodes DEFAULT_RETRY_POLICY ->
      Z.of_nat (length fails) = maxRetries DEFAULT_RETRY_POLICY) /\
    successive (executeRequest demo_headers demo_script (fun _ => false) false 30000) (length (tries demo_request)) untouched
      = (tries demo_request, after demo_request) /\
    calls demo_headers d untouched (after demo_request) /\
    (length (tries demo_request) <= d <= 2 * length (tries demo_request))%nat /\ (false = false -> d = length (tries demo_request)).
Proof.
  split; [vm_compute; reflexivity|].
  apply (@request_outcome plain_host demo_headers demo_script (fun _ => false) false 30000 Absent DEFAULT_RETRY_POLICY); [reflexivity|cbn; lia].
Defined.

Definition with_script (l : list fetch_outcome) (o : policy_option) :=
  request (H := plain_host) always (script l) (fun _ => false) false 30000 o (fun _ => num_of_decimal false 9 (-1)) (fun _ => 0%Z) untouched.

(** Without a token the handler of the browser throws with 401: nothing is sent. *)
Example not_authenticated :
  let o := request (H := plain_host) (fun _ => HandlerThrew (Some 401%Z)) demo_script (fun _ => false) false 30000 Absent
             (fun _ => num_of_Z 0) (fun _ => 0%Z) untouched in
  answer o = Err (Some (HandlerError (Some 401%Z))) /\ after o = {| asked := 1; sent := 0 |}.
Proof. vm_compute. split; reflexivity. Qed.

(** An answer of 200 whose body is not JSON counts as a failure of the network: a POST that
    the server has carried out is sent four times. *)
Example done_repeated :
  let o := with_script (repeat (answer_of 200 None) 4) Absent in
  (length (tries o), sent (after o)) = (4%nat, 4%nat) /\ answer o = Err (Some (NetworkError "parse-failed" "Failed to parse JSON response body")).
Proof. vm_compute. split; reflexivity. Qed.

(** A request that [destroy] aborts is taken for one that timed out, and sent again. *)
Example destroyed_resent :
  let o := with_script [Aborted; answer_of 200 (data (VBool true))] Absent in answer o = Ok (VBool true) /\ sent (after o) = 2%nat.
Proof. vm_compute. split; reflexivity. Qed.

Definition given (retries : option Z) : policy_option :=
  Given {| p_maxRetries := retries; p_initialDelayMs := Some (num_of_Z 30000); p_maxDelayMs := None; p_retryableStatusCodes := None; p_jitter := None |}.

(** With a negative number of retries nothing is sent, and [undefined] is thrown. *)
Example never_sent : let o := with_script [answer_of 204 None] (given (Some (-1)%Z)) in (answer o, after o) = (Err None, untouched).
Proof. vm_compute. reflexivity. Qed.

(** The jitter is applied after the cap: a wait is up to a quarter longer than
    [maxDelayMs]. *)
Example jitter_past_cap :
  let o := with_script [answer_of 503 None; answer_of 204 None] (given None) in map num_to_Z (delays o) = [Some 36000%Z] /\ num_to_Z (maxDelayMs DEFAULT_RETRY_POLICY) = Some 30000%Z.
Proof. vm_compute. split; reflexivity. Qed.

(** A negative Retry-After is a negative delay, that is, none. *)
Example negative_retry_after :
  num_to_Z (@parseRetryAfterMs plain_host "-5" 0 (num_of_Z 0) 0 DEFAULT_RETRY_POLICY) = Some (-5000)%Z.
Proof. vm_compute. reflexivity. Qed.

(** The services answer a list as [{ data, pagination }]: unwrapping leaves the array, which
    has no [items]. *)
Example list_without_items :
  let body := VObj 0%N [("data", VArr 1%N [VStr "u"]); ("pagination", VObj 2%N [("nextCursor", VNull); ("total", VNum (num_of_Z 1))])] in
  let o := with_script [answer_of 200 (Some body)] Absent in
  answer o = Ok (VArr 1%N [VStr "u"]) /\ list_page (VArr 1%N [VStr "u"]) = None.
Proof. vm_compute. split; reflexivity. Qed.
